(* ===== verification/_CoqProject ===== *)
-Q . S2P
Prelude.v
Sha256.v
DrbdAlloc.v
Api.v
Store.v
StoreProps.v
Cascade.v
GoFloat.v
GoSort.v
Placer.v
PlacerFacts.v
PlacerProps.v
PlacerCaps.v
PlacerErrors.v
SatelliteFsm.v
CrdName.v
DrbdOptions.v
GoTime.v
Tiebreaker.v
TiebreakerProps.v
LayerPin.v
DrbdStates.v
Kube.v
ReplicaIds.v
ReplicaController.v
ReplicaIdsProps.v
ReplicaProps.v
ReplicaExamples.v
GoStrings.v
Validate.v
DrbdConf.v
DrbdText.v
DrbdTextProps.v
Dispatcher.v
DispatcherProps.v
DrbdStatus.v
GiHistory.v
DrbdAdm.v
Lsblk.v
ResFile.v
ResFileProps.v
Metadata.v
MetadataProps.v
LocalProps.v
Prog.v
Calls.v
Restore.v
RestoreRaces.v
RestoreDeletes.v
RestoreExamples.v
Snapshots.v
SnapshotBarrier.v
SnapshotExamples.v
Fleet.v
FleetDrain.v
FleetExamples.v
Storage.v
LvmProps.v
SweeperProps.v
ZfsProps.v
FileProps.v
Upkeep.v
UpkeepProps.v
Apply.v
ApplyLogic.v
ApplyProps.v
ApplyRestores.v
ApplyRequests.v
Observer.v
ObserverProps.v
Cleanup.v
SatController.v
SatControllerProps.v
Devices.v
DevicesProps.v
Migrate.v
MigrateProps.v
Rest.v
RestResources.v
RestProps.v
