(* ===== verification/Prelude.v ===== *)
(** * A verification development of blockstor

    blockstor is a LINSTOR-compatible controller for DRBD storage on Kubernetes, written
    in Go. A REST server and a set of controllers read and write a store of nodes, storage
    pools, resource groups, resource definitions, replicas (resources), volume
    definitions, snapshots and physical devices; the autoplacer decides on which pools the
    replicas of a definition go; deleting a definition or losing a node cascades over the
    store; a satellite per node turns the desired state into DRBD configuration and
    drbdadm calls. This library models the parts of that system that hold its own
    decisions, as executable Rocq functions, and proves what they promise.

    ** Files

    - [Prelude]: results of fallible code, machine integers, strings, decimal printing and
      parsing, generic list lemmas; the hint database [gostr].
    - [Sha256]: SHA-256, used by the day-0 generation.
    - [DrbdAlloc]: [pkg/drbd/allocator.go] and [portpool.go] (module [Alloc]: node ids,
      ports, minors, window syntax) and [gi.go] (module [GI]: generation seeds).
    - [Api]: the records of [pkg/api/v1] and the helpers beside them (witness flags, layer
      stacks, node capabilities, pool naming, lax integers).
    - [Store]: the in-memory store of [pkg/store/inmemory*.go], one definition per
      operation named [<Substore>_<Method>], over a generic keyed table ([kv_*]); the
      interface of [store.go] as a class [StoreOps], what its clients may rely on as
      [StoreLaws] and [StoreReliable], and the in-memory instances.
    - [StoreProps]: properties of the in-memory store.
    - [Cascade]: [pkg/store/cascade.go] over any [StoreOps].
    - [GoFloat], [GoSort]: binary64 arithmetic with strconv.ParseFloat and ParseBool, and the
      algorithm of sort.SliceStable, which the autoplacer uses.
    - [Placer]: [pkg/placer/placer.go], [oversub.go] and [provider_kind_mixing.go], function
      by function; [Place] is the entry point.
    - [PlacerFacts]: the reference algorithm ([greedy]: take each candidate the acceptance
      checks accept, up to a budget), its invariants, and the refinement of the placement
      loop to it; what the planning phase hands to the loop, and [Place_run], the shape of a whole
      call. [PlacerProps], [PlacerCaps], [PlacerErrors]: the properties.
    - [SatelliteFsm]: [pkg/satellite/fsm.go], [fsm_dispatch.go], the pure part of
      [fsm_shadow.go], and the span of [applyDRBD] in [reconciler.go] around the dispatch.
    - [CrdName]: [pkg/store/k8s/crdname.go], the Kubernetes name of a LINSTOR object.
    - [DrbdOptions]: the typed DRBD options of [api/v1alpha1/drbd_options.go], their
      transcoding in [pkg/store/k8s/drbd_transcode.go], the resolvers and the emitter of
      [pkg/drbd], and the effective properties of [pkg/effectiveprops].
    - [GoTime]: RFC 3339 time stamps, for the deadline annotations.
    - [Tiebreaker]: the witness and quorum pass of
      [internal/controller/resourcedefinition_controller.go], over any store with the calls
      of [WitnessOps]. [TiebreakerProps]: its laws ([WitnessLaws], [ReadsAnswer]), the census
      of live voters, and the properties; the in-memory store as an instance.
    - [LayerPin]: [resourcedefinition_layer_stack.go], the resize stamps, and the whole
      [Reconcile] of a resource definition.
    - [Kube]: the custom resources of [api/v1alpha1] and the API server as an interface
      ([KubeOps], [KubeLaws]) with other writers at work between any two calls; [ReplicaExamples] has an
      instance for evaluation.
    - [ReplicaIds], [ReplicaController]: [internal/controller/resource_controller.go], the
      allocation of DRBD identities and the rest of the pass. [ReplicaIdsProps],
      [ReplicaProps], [ReplicaExamples]: its invariant, its properties, and both on a
      concrete cluster.
    - [GoStrings]: functions of Go's strings and sort packages. [Validate]: [pkg/validate].
    - [DrbdStates]: [pkg/drbd/states.go]. [DrbdConf]: [conffile.go]; the scanner of drbdadm is a
      parameter of the round trip, a class [Scanner] with the laws the comments of [conffile.go]
      document (module [Scan]), and an instance. [DrbdText], [DrbdTextProps]:
      [events2.go], [dumpmd.go], [errcodes.go], [drbdsetup_show.go], [devnode.go],
      [options.go], [flagkeys.go].
    - [Dispatcher], [DispatcherProps]: [pkg/dispatcher], the properties
      of [pkg/passphrase], and the steps of [pkg/satellite/controllers/resource.go] that
      prepare the intent of a satellite.
    - [DrbdStatus]: the decisions of [pkg/drbd/drbdadm.go] on the kernel's
      status. [DrbdAdm]: its command drivers, as programs that keep the trace of the commands
      they ran ([shell]), and the logic of such programs ([spec]).
    - [GiHistory]: [pkg/satellite/gi_history.go]. [Lsblk]: [lsblk.go], [discardgran.go],
      [providerkind.go].
    - [ResFile], [ResFileProps]: the rendering of a replica's configuration file and the
      tear-down of departed peers in [pkg/satellite/reconciler.go]. [Metadata],
      [MetadataProps]: its creation, repair and seeding of metadata.
    - [Prog]: programs over a set of calls, one call and a continuation at a time, and what a program
      may call given what it was told before; attempts of a program that die at any call. [Calls]:
      the calls on the store that the restore bookkeeping makes, and executions in which
      several clients interleave, read stale caches, and have calls fail before or after they
      took effect.
    - [LocalProps]: [pkg/store/local_props.go] and the edit of a property bag. [Restore]:
      [restore_target.go], [restore_source.go], [clone_snapshot.go], [leftover.go].
      [RestoreRaces], [RestoreDeletes], [RestoreExamples]: rollbacks against retries, deletes
      against restores, and both on concrete clusters.
    - [Snapshots]: [internal/controller/snapshot_controller.go] and [snapshot_timeout.go]
      (module [Controller]), [pkg/satellite/controllers/snapshot.go] ([Satellite]), and the
      reported state ([Report]). [SnapshotBarrier]: the barrier of the suspended I/O over any
      interleaving. [SnapshotExamples]: runs.
    - [Fleet]: the controllers of [internal/controller] that move replicas: node drain,
      migration, groups, rebalance, auto-diskful, heartbeat, eviction, a module each.
      [FleetDrain], [FleetExamples] (with eviction).
    - [Storage]: the providers of [pkg/storage] (modules [Thick], [Thin], [Zfs], [File]) as
      programs over command lines and system calls, and the sweeper of orphaned volumes
      ([Sweeper]). [LvmProps] (what the LVM commands do to a volume group, and restores that are
      interrupted), [ZfsProps], [FileProps], [SweeperProps].
    - [Upkeep]: the snapshot schedules, the copy of node labels, the projection of an offline
      node's state ([internal/controller]) and the sweeper of kernel resources
      ([pkg/satellite/controllers/sweeper.go]), a module each. [UpkeepProps].
    - [Apply]: a whole pass of the satellite over a replica and its requests, the rest of
      [pkg/satellite/reconciler.go] with [pkg/luks/luks.go]; the providers are a record of
      operations, the world outside another one, and every command, provider call and write
      leaves an event in the trace. [ApplyLogic]: triples over the trace and what is remembered,
      and which steps are plain. [ApplyProps]: what is formatted, promoted and encrypted.
      [ApplyRestores]: which volumes are trusted after a restore. [ApplyRequests]: waiting and
      tearing down, and runs.
    - [Observer], [ObserverProps]: [pkg/satellite/controllers/observer.go], from
      the frames of the kernel to the published status and the wake-ups. [Cleanup]: the removal of
      stale connections in [pkg/satellite/kernel_cleanup.go].
    - [SatController],
      [SatControllerProps]: the controller that drives the passes,
      [resource.go], [resource_toggle_disk.go], [layer_stack_pin.go] and [skip_disk_clearer.go] of
      [pkg/satellite/controllers]; a pass of [Apply] is one of its calls.
    - [Devices], [DevicesProps]: pools made of disks and the discovery of free ones,
      [attach.go], [signatures.go], [discovery.go] and [factory.go] of [pkg/satellite] with
      [physicaldevice.go] and [physicaldevice_discovery.go] of its [controllers].
    - [Migrate], [MigrateProps]: [pkg/linstormigrate], the import of a LINSTOR database.
    - [Rest]: what the handlers of [pkg/rest] share (replies, the reads that wait for a cache, what
      is hidden from clients, the flags of a request) and the size preview ([query_size_info.go],
      [oversubscription.go]). [RestResources]: [autoplace.go], the endpoints of replicas, as programs
      over the calls on the store and the placer. [RestProps]: what they do in any order of events.

    The components meet in [MetadataProps.one_replica_is_marked_up_to_date]: the invariant of
    the replica controller gives distinct node ids, the dispatcher elects by them in each
    satellite's intent, and the metadata commands of a satellite follow its intent. They meet
    again in [ApplyRequests.refused_teardown_is_never_finished], where a teardown and the sweeper
    of kernel resources each leave a resource to the other.

    ** How code becomes definitions

    A Go function that returns a value and an error is a function into [result]; one that
    mutates state takes and returns the state. A Go map is a [gmap] (iteration order is an
    explicit argument, or irrelevant and then any order is shown to give the same result);
    a slice is a list. Integers are integers of [Z], wrapped ([wrap32], [wrap64]) where the
    code can overflow. Fields carry a prefix of their record. The store of the placer and
    of the cascade is abstract: [StoreOps] gives the calls, [StoreLaws] the meaning of a
    successful call in terms of the replica and pool tables, and [StoreReliable] says that
    calls succeed when the tables allow it. The theorems about clients hold for every
    instance, and are evaluated on the in-memory one.

    ** What the theorems show

    Autoplacer: every replica a call makes diskful respects the filter, the capacity and
    over-subscription gates, the topology constraints, the per-value caps, the shared-disk
    rule and the provider families; the returned count is the truth; replicas already there
    are never touched except for the promotion of a witness in place; when the target is
    missed no candidate could have been added; the shortfall errors carry the numbers they
    claim. Also the places where it does not do what it is meant to: the ranking of three
    or more candidates, the refusal of a satisfied definition once the pools are full, the
    diskless fill of evicted nodes.
    Store: reads agree in every reachable state, annotations survive updates, volume
    numbers are the least free ones, a device is attached once, the conditional delete of a
    witness loses every race against its promotion.
    Cascade: a definition's replicas are all deleted under racing writers, a lost node's
    rows are all removed and nothing else is, and the gate of a node delete is exact.
    DRBD values: allocators are least and exhaustive (with the int32 wrap-around written
    out), windows and lax integers round-trip, generation seeds have the drbdmeta layout.
    Satellite: the transition table as a decision list, convergence of the dispatch in
    three passes, safety of metadata creation, the exact divergence from the legacy chain,
    and the pinned replica that is never brought up.
    Options: filing a property bag as typed options and reading it back is the identity up
    to canonical values; the effective DRBD options of a replica come from the closest
    scope that sets them, and the typed and untyped resolvers agree; foreign properties
    follow the opposite order. Object names: which names fold, which become valid, and the
    two cases in which they do not.
    Tie-breaker controller: the stamped quorum policy is the one for the replicas that are
    really there after the pass, a pass touches nothing but tie-breaker rows and adds one
    witness at most, and a second pass changes nothing; opt-outs set through the property
    store are honoured; when a witness is wanted; which action on quorum loss ends up on the
    wire. Layer stacks: a volume with data or a decided stack is never reshaped, and the
    mark of a stack short of its group is true.
    Replica controller: over any interleaving with other writers (who leave identities alone but
    for the port of a status), stale caches and failing calls, node ids, ports and minors stay unique
    when they are in the specs to begin with, and never change once set; a replica is
    never told to skip its initial sync over data; seeds are day-0 generations; pruning is
    exact.
    Dispatcher: replicas agree on each other's identities, a fresh definition gets a seeding
    replica, the LUKS passphrase comes from the Secret only.
    Satellite commands: metadata is created only where nothing is lost, marked up to date on
    one of the replicas that come up for the first time on one view of the API server at most and, there, in every slot; a slot is taken down only
    when it is a foreign one in the way; departed peers are disconnected, deleted and forgotten
    under their old node ids. The record of generations can be read whatever fails, and
    keeps a generation until 32 different newer ones are seen.
    Restore bookkeeping: a rollback never takes apart a definition that a retry adopted; of a
    restore and a delete of its snapshot one notices the other; the recorded volumes read
    back; edits leave the server's own properties alone.
    Snapshots: the only one of its resource, outside of groups, that is reported successful without an
    abort was taken on every node while the I/O of all of them was suspended; also, what two snapshots at once, a delete half way and a missed
    deadline do to the suspension.
    Fleet: drains of several nodes at once that read the objects as they are never cost the last complete
    copy; a tick evicts exactly the nodes that are due, and nobody when too many are offline; also, drains that place too many replicas or count one that is
    being deleted, and a rebalance that reverts a change.
    Storage: a restore or a transfer that is interrupted or fails any number of times never
    passes for finished, on LVM (while its tags can be read) and for received files; a volume under its name was wiped; thick
    ZFS volumes have their space reserved; the sweeper removes orphans only, and no more of them in a cycle than its limit. Also the places
    where that breaks: a failed query of a tag, a copy with cp, thin snapshots in the sweeper's
    listing, names that coincide.
    A pass of the satellite: whatever the tools and providers answer, a file system is made only
    over a device whose probe showed none, that is not marked as done, and under DRBD on the promoted device, a replica is promoted by force
    only when elected or when the kernel shows that nothing is lost, a block device is encrypted only over
    nothing, and the agreed first generation is written only into a volume that needs no snapshot
    or that its provider reports as filled from it in this pass; the wait for a device ends; a teardown
    leaves no file and no storage or says so. Also: a blank volume that the next pass trusts, an attached volume whose storage is
    deleted, a refused teardown that is never finished. Upkeep: pruning keeps the newest scheduled
    snapshots, the sweeper takes down abandoned resources only; scheduled snapshots are never
    taken.
    Promotion probes: on a connected cluster at most one node promotes itself, never over a
    Primary or over committed data.
    Text: configuration files, event lines, metadata dumps, generation records and lsblk rows
    read back as what was printed; kernel states are classified consistently; derived discard
    options are the conservative ones. Validation: which stacks, edits and deletes are
    refused. Several theorems state where the code differs from its comments (an election
    that counts diskless peers, a probe that ignores a lost link, an address cut at a colon).

    Observer: what is remembered is what the last frames said, wake-ups are offered exactly when a state changed,
    and a frame without volumes withdraws them. Satellite controller: finalizers go after the storage, passes
    run on an intent built from what was just read, and a cancelled conversion can delete a complete copy. Devices:
    commands touch only what was asked for, discovery only looks, and three runs where a retry or a
    failed probe does harm. Import: definitions with data are latched, stacks and metadata are those on
    disk, nothing dangles, nothing is left out silently, groups place where they did, and the dumps
    for which this fails. REST: replicas are deleted only when no peer is left without a source or the client
    insists, created only as asked and where definition, node and pool are found, and placed only after the
    gates for nodes, layers, restores and capacity; a success means that it is so.

    ** Fuel and bounds

    [DrbdAlloc.Alloc.scan_fuel] is two more than the number of values in use, and every
    step of the scan passes over one of them, so the scan always answers. The
    volume numbering of [Store] has the number of used numbers plus one as fuel. [GoSort] recurses on lengths and on the block size, with
    fuel lemmas that show the result does not depend on it. [CascadeDeleteMaxPasses] is the
    bound of the code.
    The lsblk parser of [Lsblk] has the length of its line as fuel, and every round consumes
    a byte ([parse_pairs_fuel]). [DrbdAdm.dumpLineMax] is the line limit of the scanner in
    the code. The retry loops of the replica controller have the bounds of the code.
    [Apply.wait_rounds] is two more than the timeout over the poll interval; every round sleeps
    at least one interval, so the wait ends before ([waiting_for_a_device_ends]). The wait for a pool
    in [Devices] has five rounds as fuel, one more than it can take ([pool_wait_is_bounded]).

    ** Not modelled

    Input and output: HTTP, the Kubernetes client, command execution, logging, locks (each
    store operation is atomic, as its mutex makes it). Strings are byte strings and case
    folding is the ASCII one. Regular expressions and UUIDv5 are class parameters with
    concrete instances for evaluation. Error values keep their kind and their numbers, not
    the wrapped message. JSON decoders are arguments that give the decoded structs. A file
    write is told its outcome (written, written but not known to be durable, not written).
    The trace of a run holds the commands; what the DRBD tools do to disks is not modelled,
    their answers are arbitrary. The meaning of the storage commands in [LvmProps], [ZfsProps] and
    [FileProps] is that of their manuals, with every failure before or after the effect; a lost
    power supply, which may undo writes that were not synced, is not modelled. Of the
    import, reading the dump and writing the manifests are not modelled. Not modelled yet, in the order
    they are planned: the other REST handlers, the command line client. *)

From Stdlib Require Import Ascii DecimalString DecimalZ.
From Stdlib Require Import Decimal.
From stdpp Require Export base gmap strings list list_numbers sorting fin_maps numbers.
From stdpp Require Export options.

#[global] Open Scope Z_scope.

(** ** Results of fallible code

    A Go function returning [(T, error)] is modelled by [result E T]. *)

Inductive result (E A : Type) : Type :=
| Ok (a : A)
| Err (e : E).
Arguments Ok {E A} a.
Arguments Err {E A} e.

Declare Scope go_scope.
Delimit Scope go_scope with go.

Definition result_bind {E A B} (m : result E A) (k : A -> result E B) : result E B :=
  match m with Ok a => k a | Err e => Err e end.

Notation "'let!' x := m 'in' k" := (result_bind m (fun x => k))
  (at level 10, x name, m at level 100, k at level 200) : go_scope.

(** ** Machine integers

    Go's [int32] and [int64] are integers of [Z] kept in range by the wrap
    functions below. *)

Definition MinInt32 : Z := -2147483648.
Definition MaxInt32 : Z := 2147483647.
Definition MinInt64 : Z := -9223372036854775808.
Definition MaxInt64 : Z := 9223372036854775807.

Definition wrap32 (z : Z) : Z := (z + 2147483648) `mod` 4294967296 - 2147483648.
Definition wrap64 (z : Z) : Z :=
  (z + 9223372036854775808) `mod` 18446744073709551616 - 9223372036854775808.

Definition is_int32 (z : Z) : Prop := MinInt32 <= z <= MaxInt32.
Definition is_int64 (z : Z) : Prop := MinInt64 <= z <= MaxInt64.

Lemma wrap32_id z : is_int32 z -> wrap32 z = z.
Proof.
  unfold is_int32, MinInt32, MaxInt32, wrap32; intros H.
  rewrite Z.mod_small; lia.
Qed.

Lemma wrap64_id z : is_int64 z -> wrap64 z = z.
Proof.
  unfold is_int64, MinInt64, MaxInt64, wrap64; intros H.
  rewrite Z.mod_small; lia.
Qed.

Lemma wrap32_range z : is_int32 (wrap32 z).
Proof.
  unfold is_int32, MinInt32, MaxInt32, wrap32.
  pose proof (Z.mod_pos_bound (z + 2147483648) 4294967296); lia.
Qed.

(** ** Strings

    A Go string is a byte string; [strings.ToLower], [ToUpper], [TrimSpace] and
    [EqualFold] are modelled on the ASCII range. *)

Module Str.

Definition is_upper (c : ascii) : bool :=
  let n := N_of_ascii c in (65 <=? n)%N && (n <=? 90)%N.
Definition is_lower (c : ascii) : bool :=
  let n := N_of_ascii c in (97 <=? n)%N && (n <=? 122)%N.
Definition is_digit (c : ascii) : bool :=
  let n := N_of_ascii c in (48 <=? n)%N && (n <=? 57)%N.

Definition lower_ascii (c : ascii) : ascii :=
  if is_upper c then ascii_of_N (N_of_ascii c + 32) else c.
Definition upper_ascii (c : ascii) : ascii :=
  if is_lower c then ascii_of_N (N_of_ascii c - 32) else c.

Fixpoint map (f : ascii -> ascii) (s : string) : string :=
  match s with
  | EmptyString => EmptyString
  | String c s' => String (f c) (map f s')
  end.

Definition to_lower (s : string) : string := map lower_ascii s.
Definition to_upper (s : string) : string := map upper_ascii s.
Definition equal_fold (s t : string) : bool := bool_decide (to_lower s = to_lower t).

(** [strings.CutPrefix]: [Some rest] when [p] is a prefix of [s]. *)
Fixpoint cut_prefix (p s : string) : option string :=
  match p, s with
  | EmptyString, _ => Some s
  | String a p', String b s' => if Ascii.eqb a b then cut_prefix p' s' else None
  | String _ _, EmptyString => None
  end.

Definition has_prefix (p s : string) : bool :=
  match cut_prefix p s with Some _ => true | None => false end.

(** [strings.TrimPrefix] *)
Definition trim_prefix (p s : string) : string :=
  match cut_prefix p s with Some r => r | None => s end.

(** [strings.Cut s sep] for a one-byte separator: the text before and after the
    first occurrence. *)
Fixpoint cut (sep : ascii) (s : string) : option (string * string) :=
  match s with
  | EmptyString => None
  | String c s' =>
      if Ascii.eqb c sep then Some (EmptyString, s')
      else match cut sep s' with
           | Some (b, a) => Some (String c b, a)
           | None => None
           end
  end.

Definition is_space (c : ascii) : bool :=
  match N_of_ascii c with
  | 9%N | 10%N | 11%N | 12%N | 13%N | 32%N => true
  | _ => false
  end.

Fixpoint trim_left (s : string) : string :=
  match s with
  | EmptyString => EmptyString
  | String c s' => if is_space c then trim_left s' else s
  end.

Definition rev (s : string) : string := String.rev s.

Definition trim_space (s : string) : string := rev (trim_left (rev (trim_left s))).

(** [strings.Join] *)
Fixpoint join (sep : string) (l : list string) : string :=
  match l with
  | [] => ""
  | [x] => x
  | x :: l' => x +:+ sep +:+ join sep l'
  end.

Fixpoint contains_char (c : ascii) (s : string) : bool :=
  match s with
  | EmptyString => false
  | String d s' => Ascii.eqb c d || contains_char c s'
  end.

End Str.

(** ** Decimal numbers: [strconv.FormatInt(_, 10)] and [strconv.ParseInt(_, 10, bits)] *)

Definition format_int (z : Z) : string := NilZero.string_of_int (Z.to_int z).

Definition parse_uint (s : string) : option Z := Z.of_uint <$> NilZero.uint_of_string s.

Definition parse_int (bits : Z) (s : string) : option Z :=
  match (match s with
         | String "-"%char s' => Z.opp <$> parse_uint s'
         | String "+"%char s' => parse_uint s'
         | _ => parse_uint s
         end) with
  | Some n => if bool_decide (- 2 ^ (bits - 1) <= n < 2 ^ (bits - 1)) then Some n else None
  | None => None
  end.


(** ** String lemmas *)

Create HintDb gostr.
Create Rewrite HintDb gostr.

Module StrFacts.
Import Str.

Lemma cut_prefix_Some p s r : cut_prefix p s = Some r <-> s = p +:+ r.
Proof.
  revert s; induction p as [|a p IH]; intros s; cbn.
  - split; [by intros [= ->] | by intros ->].
  - destruct s as [|b s]; [done|].
    destruct (Ascii.eqb_spec a b) as [->|Hne].
    + rewrite IH; split; [by intros -> | by intros [= ->]].
    + split; [done | intros [= ? ?]; congruence].
Qed.

Lemma cut_prefix_app p r : cut_prefix p (p +:+ r) = Some r.
Proof. by apply cut_prefix_Some. Qed.

Lemma has_prefix_spec p s : has_prefix p s = true <-> exists r, s = p +:+ r.
Proof.
  unfold has_prefix. destruct (cut_prefix p s) as [r|] eqn:E.
  - apply cut_prefix_Some in E. naive_solver.
  - split; [done|]. intros [r Hr]. apply cut_prefix_Some in Hr. congruence.
Qed.

Lemma has_prefix_app p r : has_prefix p (p +:+ r) = true.
Proof. apply has_prefix_spec; eauto. Qed.

Lemma trim_prefix_app p r : trim_prefix p (p +:+ r) = r.
Proof. unfold trim_prefix. by rewrite cut_prefix_app. Qed.

Lemma cut_Some sep s b a :
  cut sep s = Some (b, a) <-> s = b +:+ String sep a /\ contains_char sep b = false.
Proof.
  revert b; induction s as [|c s IH]; intros b; cbn.
  - split; [done|]. intros [H _]. by destruct b.
  - destruct (Ascii.eqb_spec c sep) as [->|Hne].
    + split; [by intros [= <- <-]|].
      intros [H Hb]. destruct b as [|d b]; cbn in *; [by injection H as ->|].
      injection H as -> ->. by rewrite Ascii.eqb_refl in Hb.
    + destruct (cut sep s) as [[b' a']|].
      * split.
        -- intros [= <- <-]. cbn. destruct (proj1 (IH b') eq_refl) as [-> Hb].
           rewrite Hb, orb_false_r. split; [done|]. apply Ascii.eqb_neq; congruence.
        -- intros [H Hb]. destruct b as [|d b]; cbn in *.
           { injection H as -> ->. done. }
           injection H as -> ->. apply orb_false_iff in Hb as [_ Hb].
           by pose proof (proj2 (IH b) (conj eq_refl Hb)); simplify_eq.
      * split; [done|]. intros [H Hb]. destruct b as [|d b]; cbn in *.
        { injection H as -> ->. done. }
        injection H as -> ->. apply orb_false_iff in Hb as [_ Hb].
        by pose proof (proj2 (IH b) (conj eq_refl Hb)).
Qed.

Lemma length_app_str s t : String.length (s +:+ t) = (String.length s + String.length t)%nat.
Proof. induction s as [|c s IH]; [done|]. change (String c s +:+ t) with (String c (s +:+ t)). cbn. by rewrite IH. Qed.

Lemma cut_app sep b a :
  contains_char sep b = false -> cut sep (b +:+ String sep a) = Some (b, a).
Proof. intros; by apply cut_Some. Qed.

Lemma cut_None sep s : cut sep s = None <-> contains_char sep s = false.
Proof.
  induction s as [|c s IH]; cbn; [done|].
  rewrite (Ascii.eqb_sym sep c).
  destruct (Ascii.eqb_spec c sep) as [->|Hne]; cbn; [done|].
  rewrite <- IH. destruct (cut sep s) as [[]|]; done.
Qed.

Lemma app_cons c s t : String c s +:+ t = String c (s +:+ t).
Proof. done. Qed.

Lemma app_assoc s t u : (s +:+ t) +:+ u = s +:+ t +:+ u.
Proof. induction s as [|c s IH]; [done|]. by rewrite !app_cons, IH. Qed.

Lemma app_nil_r s : s +:+ "" = s.
Proof. induction s as [|c s IH]; [done|]. by rewrite app_cons, IH. Qed.

Lemma contains_char_app c s t :
  contains_char c (s +:+ t) = contains_char c s || contains_char c t.
Proof.
  induction s as [|d s IH]; [done|]. rewrite app_cons; cbn. by rewrite IH, orb_assoc.
Qed.

(** Appending the same separator-terminated head on both sides: the heads and
    the tails agree. *)
Lemma app_sep_inj sep b1 b2 a1 a2 :
  contains_char sep b1 = false -> contains_char sep b2 = false ->
  b1 +:+ String sep a1 = b2 +:+ String sep a2 -> b1 = b2 /\ a1 = a2.
Proof.
  intros H1 H2 E. pose proof (cut_app sep b1 a1 H1) as C1.
  rewrite E, (cut_app sep b2 a2 H2) in C1. by simplify_eq.
Qed.

(** Decimal digits. *)

Fixpoint all_chars (P : ascii -> bool) (s : string) : bool :=
  match s with
  | EmptyString => true
  | String c s' => P c && all_chars P s'
  end.

Lemma uint_digits d : all_chars is_digit (NilEmpty.string_of_uint d) = true.
Proof. by induction d. Qed.

Lemma uint0_digits d : all_chars is_digit (NilZero.string_of_uint d) = true.
Proof. destruct d; cbn; try done; apply uint_digits. Qed.

Lemma uint0_nonempty d : NilZero.string_of_uint d <> "".
Proof. by destruct d. Qed.

Lemma digits_no_char c s :
  is_digit c = false -> all_chars is_digit s = true -> contains_char c s = false.
Proof.
  intros Hc. induction s as [|d s IH]; cbn; [done|].
  intros [Hd Hs]%andb_prop. rewrite (IH Hs), orb_false_r.
  apply Ascii.eqb_neq. intros ->. congruence.
Qed.

End StrFacts.

#[export] Hint Rewrite StrFacts.cut_prefix_app StrFacts.has_prefix_app
  StrFacts.trim_prefix_app StrFacts.app_nil_r : gostr.

Lemma parse_uint_format d : parse_uint (NilZero.string_of_uint d) = Some (Z.of_uint d).
Proof.
  unfold parse_uint. destruct d; try (by rewrite NilZero.usu by done); done.
Qed.

Lemma digit_not_sign c : Str.is_digit c = true -> c <> "-"%char /\ c <> "+"%char.
Proof. intros H; split; intros ->; discriminate. Qed.

Lemma parse_int_unsigned bits s :
  StrFacts.all_chars Str.is_digit s = true ->
  parse_int bits s =
    match parse_uint s with
    | Some n => if bool_decide (- 2 ^ (bits - 1) <= n < 2 ^ (bits - 1)) then Some n else None
    | None => None
    end.
Proof.
  intros H. destruct s as [|c s]; [done|].
  cbn in H. apply andb_prop in H as [Hc _]. apply digit_not_sign in Hc as [H1 H2].
  unfold parse_int.
  destruct c as [[] [] [] [] [] [] [] []]; try done.
Qed.

(** [strconv.ParseInt] reads back what [strconv.FormatInt] prints, for every
    value that fits the width. *)
Lemma parse_int_format bits z :
  - 2 ^ (bits - 1) <= z < 2 ^ (bits - 1) -> parse_int bits (format_int z) = Some z.
Proof.
  intros Hz. unfold format_int. pose proof (DecimalZ.of_to z) as Hof.
  destruct (Z.to_int z) as [d|d] eqn:E; cbn in Hof |- *.
  - rewrite parse_int_unsigned by apply StrFacts.uint0_digits.
    rewrite parse_uint_format, Hof. by rewrite bool_decide_eq_true_2.
  - unfold parse_int. rewrite parse_uint_format; cbn. rewrite Hof.
    by rewrite bool_decide_eq_true_2.
Qed.

Lemma parse_int_range bits s n :
  parse_int bits s = Some n -> - 2 ^ (bits - 1) <= n < 2 ^ (bits - 1).
Proof.
  unfold parse_int. repeat case_match; try done; intros; simplify_eq;
    by match goal with H : bool_decide _ = true |- _ => apply bool_decide_eq_true in H end.
Qed.

(** ** Trimming and decimal strings *)

Lemma parse_uint_nonneg s n : parse_uint s = Some n -> 0 <= n.
Proof.
  unfold parse_uint. destruct (NilZero.uint_of_string s) as [u|]; [|done].
  intros [= <-]. unfold Z.of_uint. lia.
Qed.

Lemma parse_int_no_minus bits s n :
  Str.contains_char "-"%char s = false -> parse_int bits s = Some n -> 0 <= n.
Proof.
  intros Hs Hp. unfold parse_int in Hp.
  destruct s as [|c s]; [done|].
  assert (c <> "-"%char) by (intros ->; done).
  destruct (match c with "-"%char => _ | _ => _ end) as [m|] eqn:E; [|done].
  case_bool_decide; simplify_eq.
  repeat (case_match; try done); subst; eauto using parse_uint_nonneg.
Qed.

Lemma contains_char_rev c s : Str.contains_char c (Str.rev s) = Str.contains_char c s.
Proof.
  unfold Str.rev, String.rev.
  assert (forall t, Str.contains_char c (String.rev_app s t)
            = Str.contains_char c s || Str.contains_char c t) as H.
  { induction s as [|d s IH]; intros t; cbn; [done|]. rewrite IH; cbn.
    by destruct (Ascii.eqb c d), (Str.contains_char c s). }
  rewrite H; cbn. by rewrite orb_false_r.
Qed.

Lemma contains_char_trim_left c s :
  Str.contains_char c s = false -> Str.contains_char c (Str.trim_left s) = false.
Proof.
  induction s as [|d s IH]; cbn; [done|]. intros [H1 H2]%orb_false_iff.
  destruct (Str.is_space d); [auto|]. cbn. by rewrite H1, H2.
Qed.

Lemma contains_char_trim_space c s :
  Str.contains_char c s = false -> Str.contains_char c (Str.trim_space s) = false.
Proof.
  intros H. unfold Str.trim_space. rewrite contains_char_rev.
  apply contains_char_trim_left. rewrite contains_char_rev. by apply contains_char_trim_left.
Qed.

Lemma rev_app_all P s t :
  StrFacts.all_chars P (String.rev_app s t)
    = StrFacts.all_chars P s && StrFacts.all_chars P t.
Proof.
  revert t; induction s as [|c s IH]; intros t; cbn; [done|]. rewrite IH; cbn.
  by destruct (P c), (StrFacts.all_chars P s).
Qed.

Lemma rev_app_rev_app s t u :
  String.rev_app (String.rev_app s t) u = String.rev_app t (s +:+ u).
Proof.
  revert t u; induction s as [|c s IH]; intros t u; cbn; [done|].
  rewrite IH. done.
Qed.

Lemma rev_involutive s : Str.rev (Str.rev s) = s.
Proof.
  unfold Str.rev, String.rev. rewrite rev_app_rev_app. cbn. apply StrFacts.app_nil_r.
Qed.

Lemma trim_left_digits s : StrFacts.all_chars Str.is_digit s = true -> Str.trim_left s = s.
Proof.
  destruct s as [|c s]; cbn; [done|]. intros [Hc _]%andb_prop.
  destruct c as [[] [] [] [] [] [] [] []]; done.
Qed.

Lemma trim_space_digits s : StrFacts.all_chars Str.is_digit s = true -> Str.trim_space s = s.
Proof.
  intros H. unfold Str.trim_space. rewrite (trim_left_digits s) by done.
  rewrite (trim_left_digits (Str.rev s)).
  - apply rev_involutive.
  - unfold Str.rev, String.rev. rewrite rev_app_all; cbn. by rewrite H.
Qed.

Lemma format_int_digits z : 0 <= z -> StrFacts.all_chars Str.is_digit (format_int z) = true.
Proof.
  intros H. unfold format_int. destruct z; try lia; apply StrFacts.uint0_digits.
Qed.

(** ** Finite sets of integers and windows *)

Lemma interval_size (X : gset Z) (low : Z) (n : nat) :
  (forall q, low <= q < low + Z.of_nat n -> q ∈ X) -> (n <= size X)%nat.
Proof.
  intros HX.
  assert (list_to_set (seqZ low (Z.of_nat n)) ⊆ X) as Hsub.
  { intros q. rewrite elem_of_list_to_set, elem_of_seqZ. apply HX. }
  apply subseteq_size in Hsub. rewrite size_list_to_set in Hsub by apply NoDup_seqZ.
  rewrite length_seqZ in Hsub. lia.
Qed.

(** In a window either some value is the least free one, or all are used. *)
Lemma least_free_or_full (used : gset Z) low n :
  (exists p, low <= p < low + Z.of_nat n /\ (p ∉ used) /\ forall q, low <= q < p -> q ∈ used)
  \/ (forall q, low <= q < low + Z.of_nat n -> q ∈ used).
Proof.
  induction n as [|n IH]; [right; lia|].
  destruct IH as [(p & Hp & Hfree & Hl) | Hall]; [left; exists p; split; [lia|done]|].
  destruct (decide (low + Z.of_nat n ∈ used)) as [Hin|Hout].
  - right. intros q Hq. destruct (decide (q = low + Z.of_nat n)) as [->|]; [done|apply Hall; lia].
  - left. exists (low + Z.of_nat n). split; [lia|]. split; [done|].
    intros q Hq; apply Hall; lia.
Qed.

(** ** Lists *)

Lemma filter_all {A} (P : A -> Prop) `{!forall x, Decision (P x)} (l : list A) :
  (forall x, x ∈ l -> P x) -> filter P l = l.
Proof.
  induction l as [|x l IH]; intros Hl; [done|].
  rewrite filter_cons_True by (apply Hl; apply list_elem_of_here).
  f_equal. apply IH. intros y Hy. apply Hl. by apply list_elem_of_further.
Qed.
