(* ===== verification/DrbdAlloc.v ===== *)
(** * DRBD identifiers: node ids, TCP ports, minors and generation identifiers

    Models [pkg/drbd/allocator.go], [pkg/drbd/portpool.go] and [pkg/drbd/gi.go].
    The port and minor scans keep Go's [int32] counter, so the wrap-around at the
    top of the range is part of the model. *)

From Stdlib Require Import Ascii.
From S2P Require Import Prelude Sha256.

(** ** Allocators *)

Module Alloc.

Inductive alloc_err := ErrNodeIDExhausted | ErrPortPoolExhausted | ErrMinorPoolExhausted.

Definition MaxPeers : Z := 16.
Definition NodeIDMax : Z := 31.

(** [LowestFreeNodeID]: the first id of [0 .. MaxPeers-1] not in [taken]. *)
Definition LowestFreeNodeID (taken : list Z) : result alloc_err Z :=
  let used : gset Z := list_to_set taken in
  match list_find (fun i => i ∉ used) (seqZ 0 MaxPeers) with
  | Some (_, i) => Ok i
  | None => Err ErrNodeIDExhausted
  end.

(** The map [used] both port scans build: the taken values inside the window. *)
Definition used_in_window (taken : list Z) (low high : Z) : gset Z :=
  list_to_set (filter (fun p => low <= p /\ p <= high) taken).

(** [for i := low; i <= high; i++ { if !used[i] { return i } }] with an [int32]
    counter. [None] is "still looping when the fuel ran out"; [Some None] is
    falling out of the loop. *)
Fixpoint scan_free (fuel : nat) (used : gset Z) (i high : Z) : option (option Z) :=
  match fuel with
  | O => None
  | S fuel' =>
      if bool_decide (i <= high) then
        if bool_decide (i ∈ used) then scan_free fuel' used (wrap32 (i + 1)) high
        else Some (Some i)
      else Some None
  end.

(** The loop visits a value already in [used] at most [size used] times. *)
Definition scan_fuel (used : gset Z) : nat := S (S (size used)).

Definition LowestFreePort (taken : list Z) (low high : Z) : option (result alloc_err Z) :=
  let used := used_in_window taken low high in
  match scan_free (scan_fuel used) used low high with
  | Some (Some i) => Some (Ok i)
  | Some None => Some (Err ErrPortPoolExhausted)
  | None => None
  end.

Definition LowestFreeMinor (taken : list Z) (low high : Z) : option (result alloc_err Z) :=
  let used := used_in_window taken low high in
  match scan_free (scan_fuel used) used low high with
  | Some (Some i) => Some (Ok i)
  | Some None => Some (Err ErrMinorPoolExhausted)
  | None => None
  end.

(** [ParseRange]: ["min-max"] in decimal. *)
Inductive range_err := RangeShape | RangeLow | RangeHigh | RangeOrder.

Definition ParseRange (s : string) : result range_err (Z * Z) :=
  match Str.cut "-"%char s with
  | None => Err RangeShape
  | Some (p0, p1) =>
      match parse_int 32 (Str.trim_space p0) with
      | None => Err RangeLow
      | Some low =>
          match parse_int 32 (Str.trim_space p1) with
          | None => Err RangeHigh
          | Some high =>
              if bool_decide (low > high) then Err RangeOrder
              else Ok (wrap32 low, wrap32 high)
          end
      end
  end.

Definition DefaultPortMin : Z := 20000.
Definition DefaultPortMax : Z := 20999.
Definition DefaultMinorMin : Z := 20000.
Definition DefaultMinorMax : Z := 65535.

(** ** Lemmas on the scan *)

Lemma elem_of_used taken low high p :
  p ∈ used_in_window taken low high <-> low <= p <= high /\ p ∈ taken.
Proof.
  unfold used_in_window. rewrite elem_of_list_to_set, list_elem_of_filter. tauto.
Qed.

(** A free value [p] with everything below it in use is what the scan returns. *)
Lemma scan_free_found used high p n i fuel :
  p = i + Z.of_nat n -> i <= p <= high -> MinInt32 <= i -> high <= MaxInt32 ->
  (forall q, i <= q < p -> q ∈ used) -> p ∉ used -> (n < fuel)%nat ->
  scan_free fuel used i high = Some (Some p).
Proof.
  revert i fuel; induction n as [|n IH]; intros i [|fuel] Hp Hi Hmin Hmax Hq Hfree Hf;
    try lia; cbn.
  - assert (p = i) as -> by lia.
    rewrite bool_decide_eq_true_2 by lia. by rewrite bool_decide_eq_false_2.
  - rewrite bool_decide_eq_true_2 by lia.
    rewrite bool_decide_eq_true_2 by (apply Hq; lia).
    rewrite wrap32_id by (unfold is_int32, MinInt32, MaxInt32 in *; lia).
    apply IH; try lia; try done. intros; apply Hq; lia.
Qed.

(** A window entirely in use is scanned to its end, one value per step; the
    counter then holds [high + 1], wrapped. *)
Lemma scan_free_full used high n i fuel :
  high + 1 = i + Z.of_nat n -> MinInt32 <= i -> high <= MaxInt32 -> (0 < n)%nat ->
  (forall q, i <= q <= high -> q ∈ used) ->
  scan_free (n + fuel) used i high = scan_free fuel used (wrap32 (high + 1)) high.
Proof.
  revert i; induction n as [|n IH]; intros i Hn Hmin Hmax Hpos Hq; [lia|]; cbn.
  rewrite bool_decide_eq_true_2 by lia. rewrite bool_decide_eq_true_2 by (apply Hq; lia).
  destruct n as [|n].
  - replace (i + 1) with (high + 1) by lia. done.
  - rewrite wrap32_id by (unfold is_int32, MinInt32, MaxInt32 in *; lia).
    apply IH; try lia. intros; apply Hq; lia.
Qed.

Lemma scan_window taken low high :
  MinInt32 <= low <= high -> high <= MaxInt32 ->
  let used := used_in_window taken low high in
  (exists p, low <= p <= high /\ (p ∉ taken) /\ (forall q, low <= q < p -> q ∈ taken)
     /\ scan_free (scan_fuel used) used low high = Some (Some p))
  \/ ((forall q, low <= q <= high -> q ∈ taken)
     /\ exists fuel, scan_free (scan_fuel used) used low high
          = scan_free (S (S fuel)) used (wrap32 (high + 1)) high).
Proof.
  intros Hlow Hhigh used.
  assert (exists n, high + 1 = low + Z.of_nat n) as [n Hn]
    by (exists (Z.to_nat (high + 1 - low)); lia).
  destruct (least_free_or_full used low n) as [(p & Hp & Hfree & Hl) | Hall].
  - left. exists p. split; [lia|]. split.
    { intros Ht. apply Hfree, elem_of_used. split; [lia|done]. }
    split. { intros q Hq. by apply Hl, elem_of_used in Hq as [_ ?]. }
    assert (exists m, p = low + Z.of_nat m) as [m Hm] by (exists (Z.to_nat (p - low)); lia).
    apply scan_free_found with (n := m); try lia; try done.
    assert (m <= size used)%nat by (apply (interval_size _ low); intros; apply Hl; lia).
    unfold scan_fuel. lia.
  - right. split. { intros q Hq. assert (q ∈ used) as [_ ?]%elem_of_used by (apply Hall; lia). done. }
    assert (n <= size used)%nat by (by apply (interval_size _ low)).
    exists (size used - n)%nat. unfold scan_fuel.
    replace (S (S (size used))) with (n + S (S (size used - n)))%nat by lia.
    apply scan_free_full; try lia. intros; apply Hall; lia.
Qed.

Lemma scan_past_end used i high fuel : high < i -> scan_free (S fuel) used i high = Some None.
Proof. intros H; cbn. by rewrite bool_decide_eq_false_2 by lia. Qed.

(** Inside the range the scan is total and least. *)
Lemma LowestFreePort_window taken low high :
  MinInt32 <= low <= high -> high < MaxInt32 ->
  (exists p, LowestFreePort taken low high = Some (Ok p) /\ low <= p <= high /\ (p ∉ taken)
     /\ forall q, low <= q < p -> q ∈ taken)
  \/ (LowestFreePort taken low high = Some (Err ErrPortPoolExhausted)
     /\ forall q, low <= q <= high -> q ∈ taken).
Proof.
  intros Hl Hh. unfold LowestFreePort. cbv zeta.
  destruct (scan_window taken low high Hl ltac:(lia))
    as [(p & Hp & Hfree & Hleast & ->) | (Hall & fuel & ->)].
  - left; eauto 10.
  - right. rewrite wrap32_id by (unfold is_int32, MinInt32, MaxInt32 in *; lia).
    rewrite scan_past_end by lia. done.
Qed.

Lemma LowestFreeMinor_as_port taken low high :
  LowestFreeMinor taken low high =
    match LowestFreePort taken low high with
    | Some (Err _) => Some (Err ErrMinorPoolExhausted)
    | r => r
    end.
Proof. unfold LowestFreeMinor, LowestFreePort. by destruct (scan_free _ _ _ _) as [[]|]. Qed.

(** [LowestFreeNodeID] returns the smallest id in 0..15 that is not taken,
    and reports exhaustion exactly when all sixteen are. *)
Theorem LowestFreeNodeID_least taken :
  match LowestFreeNodeID taken with
  | Ok i => 0 <= i < MaxPeers /\ (i ∉ taken) /\ forall j, 0 <= j < i -> j ∈ taken
  | Err e => e = ErrNodeIDExhausted /\ forall j, 0 <= j < MaxPeers -> j ∈ taken
  end.
Proof.
  unfold LowestFreeNodeID. destruct (list_find _ _) as [[k i]|] eqn:E.
  - apply list_find_Some in E as (Hk & Hi & Hlt).
    apply lookup_seqZ in Hk as [-> Hk]. rewrite elem_of_list_to_set in Hi.
    split; [lia|]. split; [done|]. intros j Hj.
    destruct (decide (j ∈ taken)) as [|Hn]; [done|].
    exfalso. apply (Hlt (Z.to_nat j) j); [|lia|by rewrite elem_of_list_to_set].
    apply lookup_seqZ. lia.
  - split; [done|]. intros j Hj.
    destruct (decide (j ∈ taken)) as [|Hn]; [done|].
    apply list_find_None in E. rewrite list.Forall_forall in E.
    exfalso. apply (E j); [apply elem_of_seqZ; lia | by rewrite elem_of_list_to_set].
Qed.

(** For a window below the top of [int32], [LowestFreePort] and
    [LowestFreeMinor] terminate and return the smallest free value of the
    window, or report exhaustion exactly when the whole window is taken. Values
    of [taken] outside the window never matter. *)
Theorem LowestFreePort_least taken low high :
  MinInt32 <= low <= high -> high < MaxInt32 ->
  match LowestFreePort taken low high, LowestFreeMinor taken low high with
  | Some (Ok p), Some (Ok m) =>
      p = m /\ low <= p <= high /\ (p ∉ taken) /\ forall q, low <= q < p -> q ∈ taken
  | Some (Err e), Some (Err e') =>
      e = ErrPortPoolExhausted /\ e' = ErrMinorPoolExhausted
      /\ forall q, low <= q <= high -> q ∈ taken
  | _, _ => False
  end.
Proof.
  intros Hl Hh. rewrite LowestFreeMinor_as_port.
  destruct (LowestFreePort_window taken low high Hl Hh)
    as [(p & -> & ?) | [-> ?]]; auto.
Qed.

Lemma LowestFreePort_least_witness :
  (MinInt32 <= 20000 <= 20002 /\ 20002 < MaxInt32)
  /\ match LowestFreePort [7042; 20000; 20002] 20000 20002,
           LowestFreeMinor [7042; 20000; 20002] 20000 20002 with
     | Some (Ok p), Some (Ok m) =>
         p = m /\ 20000 <= p <= 20002 /\ (p ∉ [7042; 20000; 20002])
         /\ forall q, 20000 <= q < p -> q ∈ [7042; 20000; 20002]
     | Some (Err e), Some (Err e') =>
         e = ErrPortPoolExhausted /\ e' = ErrMinorPoolExhausted
         /\ forall q, 20000 <= q <= 20002 -> q ∈ [7042; 20000; 20002]
     | _, _ => False
     end.
Proof.
  split; [unfold MinInt32, MaxInt32; lia|].
  apply (LowestFreePort_least [7042; 20000; 20002] 20000 20002);
    unfold MinInt32, MaxInt32; lia.
Defined.

(** A window that ends at the largest [int32] is never reported exhausted:
    when all of it is taken the loop counter wraps and the allocator hands out
    -2147483648, a value outside the window. *)
Theorem LowestFreePort_wraps taken low :
  MinInt32 < low <= MaxInt32 ->
  (forall q, low <= q <= MaxInt32 -> q ∈ taken) ->
  LowestFreePort taken low MaxInt32 = Some (Ok MinInt32)
  /\ LowestFreeMinor taken low MaxInt32 = Some (Ok MinInt32).
Proof.
  intros Hl Hall. rewrite LowestFreeMinor_as_port.
  enough (LowestFreePort taken low MaxInt32 = Some (Ok MinInt32)) as -> by done.
  unfold LowestFreePort. cbv zeta.
  destruct (scan_window taken low MaxInt32 ltac:(lia) ltac:(lia))
    as [(p & Hp & Hfree & _) | (_ & fuel & ->)]; [by destruct Hfree; apply Hall|].
  change (wrap32 (MaxInt32 + 1)) with MinInt32. cbn [scan_free].
  rewrite (bool_decide_eq_true_2 (MinInt32 <= MaxInt32)) by done.
  rewrite bool_decide_eq_false_2; [done|]. rewrite elem_of_used. lia.
Qed.

Lemma LowestFreePort_wraps_witness :
  ParseRange "2147483647-2147483647" = Ok (MaxInt32, MaxInt32)
  /\ LowestFreePort [MaxInt32] MaxInt32 MaxInt32 = Some (Ok MinInt32)
  /\ LowestFreeMinor [MaxInt32] MaxInt32 MaxInt32 = Some (Ok MinInt32).
Proof.
  split; [vm_compute; reflexivity|].
  apply (LowestFreePort_wraps [MaxInt32] MaxInt32).
  - unfold MinInt32, MaxInt32; lia.
  - intros q Hq. assert (q = MaxInt32) as -> by lia. apply list_elem_of_here.
Defined.

(** The scans terminate on every window above the smallest [int32], the empty, the full and
    the wrapping ones included: as many steps as there are taken values in the window, and two more, are enough
    for an answer. *)
Theorem LowestFree_terminates taken low high :
  MinInt32 < low <= MaxInt32 -> is_int32 high ->
  (exists r, LowestFreePort taken low high = Some r) /\ (exists r, LowestFreeMinor taken low high = Some r).
Proof.
  intros Hl Hh. rewrite LowestFreeMinor_as_port.
  enough (exists r, LowestFreePort taken low high = Some r) as [r ->] by (destruct r; eauto).
  unfold is_int32 in *. destruct (decide (low <= high)) as [Hle|Hgt].
  - unfold LowestFreePort. cbv zeta. destruct (scan_window taken low high ltac:(lia) ltac:(lia))
      as [(p & _ & _ & _ & ->)|(_ & fuel & ->)]; [eauto|].
    destruct (decide (high = MaxInt32)) as [->|Hne].
    + change (wrap32 (MaxInt32 + 1)) with MinInt32. cbn [scan_free].
      rewrite (bool_decide_eq_true_2 (MinInt32 <= MaxInt32)) by done.
      rewrite bool_decide_eq_false_2; [eauto|]. rewrite elem_of_used. lia.
    + rewrite wrap32_id by (unfold is_int32, MinInt32, MaxInt32 in *; lia).
      rewrite scan_past_end by lia. eauto.
  - unfold LowestFreePort, scan_fuel. cbv zeta. rewrite scan_past_end by lia. eauto.
Qed.

Lemma LowestFree_terminates_witness :
  (exists r, LowestFreePort [20000; 20001] 20000 20001 = Some r)
  /\ (exists r, LowestFreeMinor [20000; 20001] 20000 20001 = Some r).
Proof.
  apply (LowestFree_terminates [20000; 20001] 20000 20001);
    unfold is_int32, MinInt32, MaxInt32; lia.
Defined.

(** ** [ParseRange] *)

(** The per-node window syntax round-trips: [ParseRange] reads back exactly
    the non-negative window an operator prints as ["low-high"], and whatever it
    accepts is a non-negative, ordered [int32] window. *)
Theorem ParseRange_roundtrip :
  (forall low high, 0 <= low <= high -> high <= MaxInt32 ->
     ParseRange (format_int low +:+ String "-" (format_int high)) = Ok (low, high))
  /\ (forall s low high, ParseRange s = Ok (low, high) -> 0 <= low <= high /\ high <= MaxInt32).
Proof.
  split.
  - intros low high Hl Hh. unfold MaxInt32 in Hh. unfold ParseRange.
    rewrite StrFacts.cut_app
      by (apply StrFacts.digits_no_char; [done | apply format_int_digits; lia]).
    rewrite !trim_space_digits by (apply format_int_digits; lia).
    rewrite !parse_int_format by lia.
    rewrite bool_decide_eq_false_2 by lia.
    by rewrite !wrap32_id by (unfold is_int32, MinInt32, MaxInt32; lia).
  - intros s low high. unfold ParseRange.
    destruct (Str.cut "-"%char s) as [[p0 p1]|] eqn:Ec; [|done].
    apply StrFacts.cut_Some in Ec as [_ Hp0].
    destruct (parse_int 32 (Str.trim_space p0)) as [l|] eqn:E0; [|done].
    destruct (parse_int 32 (Str.trim_space p1)) as [h|] eqn:E1; [|done].
    case_bool_decide; [done|]. intros [= <- <-].
    pose proof (parse_int_range _ _ _ E0). pose proof (parse_int_range _ _ _ E1).
    apply parse_int_no_minus in E0; [|by apply contains_char_trim_space].
    unfold MaxInt32. rewrite !wrap32_id by (unfold is_int32, MinInt32, MaxInt32; lia). lia.
Qed.

End Alloc.

(** ** Generation identifiers *)

Module GI.

Inductive gi_err := ErrGIUpToDateNoCurrent | ErrGIUpToDateNotConsistent.

Record GISeed := {
  Current : string;
  BitmapBase : string;
  Consistent : bool;
  UpToDate : bool;
  WasUpToDate : bool;
}.

(** [GISeed.Validate]; [None] is a nil error. *)
Definition Validate (s : GISeed) : option gi_err :=
  if UpToDate s && bool_decide (Current s = "") then Some ErrGIUpToDateNoCurrent
  else if UpToDate s && negb (Consistent s) then Some ErrGIUpToDateNotConsistent
  else if WasUpToDate s && bool_decide (Current s = "") then Some ErrGIUpToDateNoCurrent
  else None.

(** [GISeed.String]: the positional argument of [drbdmeta set-gi]. *)
Definition to_string (s : GISeed) : string :=
  let current := if bool_decide (Current s = "") then "0" else Current s in
  let base := if bool_decide (BitmapBase s = "") then "0" else BitmapBase s in
  let giStr := current +:+ ":" +:+ base +:+ ":0:0" in
  if UpToDate s then giStr +:+ ":1:1"
  else if Consistent s then giStr +:+ ":1"
  else if WasUpToDate s then giStr +:+ ":0:1"
  else giStr.

(** [Day0GIFor]: the deterministic generation of a fresh volume. *)
Definition Day0GIFor (resourceName : string) (volumeNumber : Z) : string :=
  let h := Sha256.Sum256 (Sha256.bytes_of_string
             ("blockstor-day0:" +:+ resourceName +:+ "/" +:+ format_int volumeNumber)) in
  let h := <[7%nat := Z.ldiff (nth 7 h 0) 1]> h in
  Str.to_upper (Sha256.EncodeToString (take 8 h)).

(** The positional reading the format documents: token [i] of the
    colon-separated string, a missing flag token reading as 0. *)
Fixpoint split_colon (fuel : nat) (s : string) : list string :=
  match fuel with
  | O => [s]
  | S f => match Str.cut ":"%char s with
           | Some (b, a) => b :: split_colon f a
           | None => [s]
           end
  end.

Definition tokens (s : string) : list string := split_colon (String.length s) s.
Definition flag_at (i : nat) (s : string) : bool := bool_decide (tokens s !! i = Some "1").

Lemma length_app s t : String.length (s +:+ t) = (String.length s + String.length t)%nat.
Proof. induction s as [|c s IH]; [done|]. rewrite StrFacts.app_cons; cbn. by rewrite IH. Qed.

Lemma tokens_cons b a :
  Str.contains_char ":"%char b = false -> tokens (b +:+ ":" +:+ a) = b :: tokens a.
Proof.
  intros Hb. unfold tokens. change (":" +:+ a) with (String ":" a).
  rewrite length_app; cbn [String.length].
  replace (String.length b + S (String.length a))%nat
    with (S (String.length b + String.length a)) by lia.
  cbn [split_colon]. rewrite StrFacts.cut_app by done. f_equal.
  assert (forall n m s, (String.length s <= n)%nat -> (String.length s <= m)%nat ->
            split_colon n s = split_colon m s) as Hirr.
  { clear. induction n as [|n IH]; intros [|m] s Hn Hm; cbn; try done.
    - destruct s; [done|cbn in Hn; lia].
    - destruct s; [done|cbn in Hm; lia].
    - destruct (Str.cut ":"%char s) as [[b a]|] eqn:E; [|done].
      apply StrFacts.cut_Some in E as [-> _].
      rewrite length_app in Hn, Hm; cbn in Hn, Hm. f_equal. apply IH; lia. }
  apply Hirr; lia.
Qed.

Lemma tokens_last b : Str.contains_char ":"%char b = false -> tokens b = [b].
Proof.
  intros Hb. unfold tokens. destruct (String.length b); cbn; [done|].
  by rewrite (proj2 (StrFacts.cut_None _ _) Hb).
Qed.

(** The tokens of a rendered seed, whatever its flags. *)
Lemma to_string_tokens s :
  Str.contains_char ":"%char (Current s) = false ->
  Str.contains_char ":"%char (BitmapBase s) = false ->
  tokens (to_string s) =
    [if bool_decide (Current s = "") then "0" else Current s;
     if bool_decide (BitmapBase s = "") then "0" else BitmapBase s; "0"; "0"]
    ++ (if UpToDate s then ["1"; "1"] else if Consistent s then ["1"]
        else if WasUpToDate s then ["0"; "1"] else []).
Proof.
  intros Hc Hb. unfold to_string.
  set (c := if bool_decide (Current s = "") then "0" else Current s).
  set (b := if bool_decide (BitmapBase s = "") then "0" else BitmapBase s).
  assert (Str.contains_char ":"%char c = false) as Hc' by (unfold c; by case_bool_decide).
  assert (Str.contains_char ":"%char b = false) as Hb' by (unfold b; by case_bool_decide).
  assert (forall t, tokens (b +:+ ":0:0" +:+ t) = b :: tokens ("0:0" +:+ t)) as Hbt
    by (intros t; by apply (tokens_cons b ("0:0" +:+ t))).
  destruct (UpToDate s); [|destruct (Consistent s); [|destruct (WasUpToDate s)]].
  - by rewrite !StrFacts.app_assoc, tokens_cons, Hbt by done.
  - by rewrite !StrFacts.app_assoc, tokens_cons, Hbt by done.
  - by rewrite !StrFacts.app_assoc, tokens_cons, Hbt by done.
  - rewrite tokens_cons by done. pose proof (Hbt "") as H.
    rewrite StrFacts.app_nil_r in H. by rewrite H.
Qed.

(** A seed that passes [Validate] renders to the positional layout drbdmeta
    reads: the current and bitmap UUIDs (or a literal 0), two empty history
    slots, MDF_CONSISTENT at index 4 exactly when [Consistent], and
    MDF_WAS_UP_TO_DATE at index 5 exactly when the slot is up to date, or was up
    to date and is not consistent. No flagged slot has an empty current UUID. *)
Theorem GISeed_layout s :
  Validate s = None ->
  Str.contains_char ":"%char (Current s) = false ->
  Str.contains_char ":"%char (BitmapBase s) = false ->
  tokens (to_string s) !! 0%nat = Some (if bool_decide (Current s = "") then "0" else Current s)
  /\ tokens (to_string s) !! 1%nat
       = Some (if bool_decide (BitmapBase s = "") then "0" else BitmapBase s)
  /\ tokens (to_string s) !! 2%nat = Some "0" /\ tokens (to_string s) !! 3%nat = Some "0"
  /\ flag_at 4 (to_string s) = Consistent s
  /\ flag_at 5 (to_string s) = UpToDate s || WasUpToDate s && negb (Consistent s)
  /\ (flag_at 5 (to_string s) = true -> Current s <> "").
Proof.
  intros Hv Hc Hb. unfold flag_at. rewrite (to_string_tokens s Hc Hb).
  unfold Validate in Hv. do 4 (split; [done|]).
  destruct (UpToDate s), (Consistent s), (WasUpToDate s); cbn in Hv |- *;
    repeat case_bool_decide; try done; repeat split; try done; by rewrite bool_decide_eq_true.
Qed.

Definition winner_seed : GISeed :=
  {| Current := "7D10E8D5F0E2A3B4"; BitmapBase := ""; Consistent := true;
     UpToDate := true; WasUpToDate := false |}.

Lemma GISeed_layout_witness :
  Validate winner_seed = None
  /\ to_string winner_seed = "7D10E8D5F0E2A3B4:0:0:0:1:1"
  /\ flag_at 4 (to_string winner_seed) = true
  /\ flag_at 5 (to_string winner_seed) = true
  /\ (flag_at 5 (to_string winner_seed) = true -> Current winner_seed <> "").
Proof.
  destruct (GISeed_layout winner_seed) as (_ & _ & _ & _ & H4 & H5 & H6);
    [reflexivity..|].
  split; [reflexivity|]. split; [vm_compute; reflexivity|].
  split; [exact H4|]. split; [exact H5|]. exact H6.
Defined.

(** ** The day-0 generation *)

Definition is_upper_hex (c : ascii) : bool :=
  Str.is_digit c || (let n := N_of_ascii c in (65 <=? n)%N && (n <=? 70)%N).

Definition upper_hex_value (c : ascii) : Z :=
  let n := Z.of_N (N_of_ascii c) in if bool_decide (n < 58) then n - 48 else n - 55.

Lemma upper_hex_digit n :
  0 <= n < 16 ->
  is_upper_hex (Str.upper_ascii (Sha256.hex_digit n)) = true
  /\ upper_hex_value (Str.upper_ascii (Sha256.hex_digit n)) = n.
Proof.
  intros H. assert (n ∈ seqZ 0 16) as Hin by (apply elem_of_seqZ; lia).
  clear H. revert n Hin. apply list.Forall_forall. by repeat constructor.
Qed.

Lemma encode_upper l :
  Forall (fun b => 0 <= b < 256) l ->
  StrFacts.all_chars is_upper_hex (Str.to_upper (Sha256.EncodeToString l)) = true.
Proof.
  induction 1 as [|b l Hb _ IH]; [done|]. unfold Str.to_upper in *. cbn.
  rewrite (proj1 (upper_hex_digit (b `div` 16) ltac:(split; [apply Z.div_pos|apply Z.div_lt_upper_bound]; lia))).
  rewrite (proj1 (upper_hex_digit (b `mod` 16) ltac:(apply Z.mod_pos_bound; lia))).
  done.
Qed.

Lemma map_length f s : String.length (Str.map f s) = String.length s.
Proof. induction s; cbn; congruence. Qed.

Fixpoint last_char (s : string) : ascii :=
  match s with
  | EmptyString => "0"%char
  | String c EmptyString => c
  | String _ s' => last_char s'
  end.

Lemma last_char_encode l b :
  last_char (Str.to_upper (Sha256.EncodeToString (l ++ [b])))
    = Str.upper_ascii (Sha256.hex_digit (b `mod` 16)).
Proof.
  unfold Str.to_upper. induction l as [|a l IH]; [done|].
  cbn. destruct (Str.map _ (Sha256.EncodeToString (l ++ [b]))) eqn:E; [|done].
  destruct l; discriminate.
Qed.

Lemma clear_low_bit z :
  0 <= z < 256 -> 0 <= Z.ldiff z 1 < 256 /\ Z.even ((Z.ldiff z 1) `mod` 16) = true.
Proof.
  intros H. assert (z ∈ seqZ 0 256) as Hin by (apply elem_of_seqZ; lia).
  clear H. revert z Hin. apply list.Forall_forall.
  apply (bool_decide_eq_true_1 _). vm_compute. reflexivity.
Qed.

(** The day-0 generation is a deterministic function of the resource name and
    volume number made of exactly sixteen upper-case hexadecimal digits whose
    value is even, so a synthetic day-0 never carries DRBD's "primary writes
    happened" bit. *)
Theorem Day0GIFor_shape resourceName volumeNumber :
  String.length (Day0GIFor resourceName volumeNumber) = 16%nat
  /\ StrFacts.all_chars is_upper_hex (Day0GIFor resourceName volumeNumber) = true
  /\ Z.even (upper_hex_value (last_char (Day0GIFor resourceName volumeNumber))) = true.
Proof.
  unfold Day0GIFor. set (h := Sha256.Sum256 _).
  assert (length h = 32%nat) as Hlen by apply Sha256.Sum256_length.
  assert (Forall (fun b => 0 <= b < 256) h) as Hbyte.
  { apply list.Forall_forall. intros b. apply Sha256.Sum256_byte. }
  clearbody h. do 8 (destruct h as [|? h]; [discriminate|]).
  repeat match goal with H : Forall _ (_ :: _) |- _ => apply list.Forall_cons in H as [? H] end.
  cbn [insert list_insert take nth]. rewrite take_0.
  match goal with |- context [Z.ldiff ?z 1] =>
    assert (0 <= z < 256) as Hz by assumption; destruct (clear_low_bit z Hz) as [Hb Heven]; set (b := Z.ldiff z 1) in * end.
  split; [|split].
  - unfold Str.to_upper. by rewrite map_length, Sha256.EncodeToString_length.
  - apply encode_upper. repeat (constructor; [assumption|]). constructor.
  - match goal with |- context [Sha256.EncodeToString ?l] =>
      change l with (take 7 l ++ [b]) end.
    rewrite last_char_encode.
    by rewrite (proj2 (upper_hex_digit (b `mod` 16) ltac:(apply Z.mod_pos_bound; lia))).
Qed.

Example Day0GIFor_example : Day0GIFor "pvc-1" 0 = "0645F42071DB0458".
Proof. vm_compute. reflexivity. Qed.

End GI.
