(* ===== verification/Api.v ===== *)
(** * Wire types of the LINSTOR-compatible API

    Models [pkg/api/v1]: the records every other component exchanges, and the
    pure helpers that live beside them (flag transitions, layer stacks, node
    capability synthesis, backing-pool naming, the lax integer codec).

    Conventions. A Go [map[string]string] is a [gmap]; where the code tells a nil
    map from an empty one (annotations) it is an [option]. A pointer field is an
    [option]. Field names carry the record's prefix because Rocq projections share
    one name space. Records are values: a struct that shares its inner maps with
    another one is not modelled as shared. *)

From Stdlib Require Import Ascii.
From Stdlib Require Import Floats.SpecFloat.
From S2P Require Import Prelude.

(** [m[k]] on a Go map of strings: the zero value when absent. *)
Definition getp (m : gmap string string) (k : string) : string := default "" (m !! k).

(** [slices.Contains]. *)
Definition Contains (l : list string) (x : string) : bool := bool_decide (x ∈ l).

(** ** Flags, kinds and property keys *)

Definition NodeFlagEvicted : string := "EVICTED".
Definition NodeFlagLost : string := "LOST".

Definition ResourceFlagDiskless : string := "DISKLESS".
Definition ResourceFlagInactive : string := "INACTIVE".
Definition ResourceFlagTieBreaker : string := "TIE_BREAKER".
Definition ResourceFlagDeleting : string := "DELETING".
Definition ResourceFlagDelete : string := "DELETE".

Definition StoragePoolKindLVM : string := "LVM".
Definition StoragePoolKindLVMThin : string := "LVM_THIN".
Definition StoragePoolKindZFS : string := "ZFS".
Definition StoragePoolKindZFSThin : string := "ZFS_THIN".
Definition StoragePoolKindFile : string := "FILE".
Definition StoragePoolKindFileThin : string := "FILE_THIN".
Definition StoragePoolKindDiskless : string := "DISKLESS".
Definition StoragePoolKindOpenflex : string := "OPENFLEX_TARGET".
Definition StoragePoolKindRemoteSPDK : string := "REMOTE_SPDK".
Definition DfltDisklessStorPoolName : string := "DfltDisklessStorPool".

Definition LayerKindDRBD : string := "DRBD".
Definition LayerKindLUKS : string := "LUKS".
Definition LayerKindStorage : string := "STORAGE".

Definition PropAutoplacerWeightMaxFreeSpace : string := "Autoplacer/Weights/MaxFreeSpace".
Definition PropAutoplacerWeightMinReservedSpace : string := "Autoplacer/Weights/MinReservedSpace".
Definition PropAutoplacerWeightMinRscCount : string := "Autoplacer/Weights/MinRscCount".
Definition PropAutoplacerWeightMaxThroughput : string := "Autoplacer/Weights/MaxThroughput".
Definition PropAuxPoolReservedKib : string := "Aux/blockstor.io/reserved-kib".
Definition PropAutoplacerMaxThroughput : string := "Autoplacer/MaxThroughput".
Definition PropAutoplaceTarget : string := "AutoplaceTarget".
Definition PropAllowMixingStoragePoolDriver : string := "AllowMixingStoragePoolDriver".

Definition EffectivePropScopeController : string := "CTRL".
Definition EffectivePropScopeResourceGroup : string := "RG".
Definition EffectivePropScopeResourceDefinition : string := "RD".
Definition EffectivePropScopeResource : string := "RSC".

(** ** Records *)

Record APICallRc := mkAPICallRc {
  rc_RetCode : Z;
  rc_Message : string;
  rc_Cause : string;
  rc_Details : string;
  rc_Correc : string;
  rc_ObjRefs : gmap string string;
  rc_ErrorRep : string;
}.

Definition APICallRcMaskError : Z := -0x4000000000000000.
Definition APICallRcMaskStorPool : Z := 0x140000.
Definition APICallRcFailStorPoolConfigurationError : Z := 990.

Record StoragePool := mkStoragePool {
  sp_StoragePoolName : string;
  sp_NodeName : string;
  sp_ProviderKind : string;
  sp_Props : gmap string string;
  sp_StaticTraits : gmap string string;
  sp_FreeCapacity : Z;
  sp_TotalCapacity : Z;
  sp_FreeSpaceMgrName : string;
  sp_SharedSpaceID : string;
  sp_Reports : list APICallRc;
  sp_SupportsSnapshot : bool;
  sp_ExternalLocking : bool;
  sp_UUID : string;
  sp_State : string;
  sp_PoolMissing : bool;
}.

Record NetInterface := mkNetInterface {
  ni_UUID : string;
  ni_Name : string;
  ni_Address : string;
  ni_SatellitePort : Z;
  ni_SatelliteEncryptionType : string;
  ni_IsActive : bool;
}.

Record Node := mkNode {
  node_Name : string;
  node_Type : string;
  node_UUID : string;
  node_Flags : list string;
  node_Props : gmap string string;
  node_NetInterfaces : list NetInterface;
  node_ConnectionStatus : string;
  node_ResourceLayers : list string;
  node_StorageProviders : list string;
  node_UnsupportedLayers : option (gmap string (list string));
  node_UnsupportedProviders : option (gmap string (list string));
}.

Record ReplicationStateEntry := mkReplicationStateEntry {
  rse_ReplicationState : string;
  rse_DonePercentage : option spec_float;
}.

Record VolumeState := mkVolumeState {
  vs_DiskState : string;
  vs_CurrentGi : string;
  vs_OutOfSyncKib : Z;
  vs_ReplicationStates : gmap string ReplicationStateEntry;
}.

Record VolumeObservation := mkVolumeObservation {
  vo_VolumeNumber : Z;
  vo_State : VolumeState;
}.

Record Volume := mkVolume {
  vol_VolumeNumber : Z;
  vol_StoragePool : string;
  vol_DevicePath : string;
  vol_AllocatedKib : Z;
  vol_UsableKib : Z;
  vol_Props : gmap string string;
  vol_Flags : list string;
  vol_UUID : string;
  vol_State : VolumeState;
  vol_LayerDataList : list string;
}.

Record StorageVolumeLayer := mkStorageVolumeLayer {
  svl_VolumeNumber : Z;
  svl_DevicePath : string;
  svl_AllocatedSizeKib : Z;
  svl_UsableSizeKib : Z;
  svl_DiskState : string;
}.

Record StorageResourceLayer := mkStorageResourceLayer {
  srl_ProviderKind : string;
  srl_StorageVolumes : list StorageVolumeLayer;
}.

Record DrbdVolume := mkDrbdVolume {
  dv_VolumeNumber : Z;
  dv_DiskState : string;
  dv_DevicePath : string;
}.

Record DrbdConnection := mkDrbdConnection {
  dc_Connected : bool;
  dc_Message : string;
  dc_ReplicationState : string;
}.

Record DrbdResourceLayer := mkDrbdResourceLayer {
  drl_TCPPorts : list Z;
  drl_Connections : gmap string DrbdConnection;
  drl_DrbdVolumes : list DrbdVolume;
}.

#[local] Set Warnings "-register-all".

(** A decoded JSON value, the payload type of [ResourceLayer.Data]. *)
Inductive any : Type :=
| ANull
| ABool (b : bool)
| ANumber (f : spec_float)
| AString (s : string)
| AList (l : list any)
| AMap (l : list (string * any)).

Inductive ResourceLayer : Type := mkResourceLayer {
  rl_Type : string;
  rl_NameSuffix : string;
  rl_Children : list ResourceLayer;
  rl_Drbd : option DrbdResourceLayer;
  rl_Storage : option StorageResourceLayer;
  rl_Data : list (string * any);
}.

Record ResourceState := mkResourceState {
  rs_InUse : option bool;
  rs_DrbdState : string;
  rs_ToggleDiskRetries : Z;
  rs_Suspended : option bool;
}.

Record EffectivePropEntry := mkEffectivePropEntry {
  ep_Value : string;
  ep_Scope : string;
}.

Record Resource := mkResource {
  res_Name : string;
  res_NodeName : string;
  res_Props : gmap string string;
  res_Flags : list string;
  res_State : ResourceState;
  res_UUID : string;
  res_LayerObject : option ResourceLayer;
  res_Annotations : option (gmap string string);
  res_ToggleDiskCancel : bool;
  res_Volumes : list Volume;
  res_EffectiveProps : gmap string EffectivePropEntry;
  res_CreateTimestamp : Z;
}.

Record AutoSelectFilter := mkAutoSelectFilter {
  PlaceCount : Z;
  AdditionalPlaceCount : Z;
  NodeNameList : list string;
  StoragePool_ : string;
  StoragePoolList : list string;
  StoragePoolDisklessList : list string;
  NotPlaceWithRsc : list string;
  NotPlaceWithRscRegex : string;
  ReplicasOnSame : list string;
  ReplicasOnDifferent : list string;
  XReplicasOnDifferentMap : gmap string Z;
  LayerStack : list string;
  ProviderList : list string;
  DisklessOnRemaining : bool;
  OverrideVlmID : string;
}.

Record VolumeGroup := mkVolumeGroup {
  vg_VolumeNumber : Z;
  vg_Props : gmap string string;
  vg_Flags : list string;
  vg_UUID : string;
}.

Record ResourceGroup := mkResourceGroup {
  rg_Name : string;
  rg_Description : string;
  rg_Props : gmap string string;
  rg_Annotations : option (gmap string string);
  rg_SelectFilter : AutoSelectFilter;
  rg_VolumeGroups : list VolumeGroup;
  rg_UUID : string;
  rg_PeerSlots : Z;
  rg_OverrideProps : gmap string string;
  rg_DeleteProps : list string;
  rg_DeleteNamespace : list string;
}.

Record VolumeDefinition := mkVolumeDefinition {
  vd_VolumeNumber : Z;
  vd_SizeKib : Z;
  vd_Props : gmap string string;
  vd_Flags : list string;
  vd_UUID : string;
}.

Record ResourceDefinition := mkResourceDefinition {
  rd_Name : string;
  rd_ExternalName : string;
  rd_ResourceGroupName : string;
  rd_Props : gmap string string;
  rd_Annotations : option (gmap string string);
  rd_Flags : list string;
  rd_LayerData : list ResourceLayer;
  rd_LayerStack : list string;
  rd_UUID : string;
  rd_VolumeDefinitions : list VolumeDefinition;
  rd_EffectiveProps : gmap string EffectivePropEntry;
}.

Record SnapshotVolumeDef := mkSnapshotVolumeDef {
  svd_VolumeNumber : Z;
  svd_SizeKib : Z;
  svd_VolumeDefinitionProps : gmap string string;
}.

Record SnapshotVolume := mkSnapshotVolume {
  sv_VolumeNumber : Z;
  sv_State : string;
}.

Record SnapshotPerNode := mkSnapshotPerNode {
  spn_SnapshotName : string;
  spn_NodeName : string;
  spn_CreateTimestamp : Z;
  spn_Flags : list string;
  spn_SnapshotVolumes : list SnapshotVolume;
  spn_UUID : string;
}.

Record Snapshot := mkSnapshot {
  snap_Name : string;
  snap_ResourceName : string;
  snap_Nodes : list string;
  snap_Props : gmap string string;
  snap_Annotations : option (gmap string string);
  snap_Flags : list string;
  snap_VolumeDefinitions : list SnapshotVolumeDef;
  snap_Snapshots : list SnapshotPerNode;
  snap_SnapshotDefinitionProps : gmap string string;
  snap_ResourceDefinitionProps : gmap string string;
  snap_UUID : string;
  snap_GroupID : string;
  snap_GroupSize : Z;
}.

Record PhysicalDeviceAttachTo := mkPhysicalDeviceAttachTo {
  pa_StoragePoolName : string;
  pa_ProviderKind : string;
  pa_VGName : string;
  pa_ThinPoolName : string;
  pa_ZPoolName : string;
  pa_Directory : string;
  pa_Wipe : bool;
}.

Record PhysicalDevice := mkPhysicalDevice {
  pd_Name : string;
  pd_NodeName : string;
  pd_StableID : string;
  pd_DevicePath : string;
  pd_CurrentDevPath : string;
  pd_SizeBytes : Z;
  pd_Model : string;
  pd_Serial : string;
  pd_Rotational : option bool;
  pd_Transport : string;
  pd_Phase : string;
  pd_AttachTo : option PhysicalDeviceAttachTo;
  pd_Free : option bool;
  pd_FreeReason : string;
  pd_FreeMessage : string;
}.

(** Zero values of the records the code builds with partial struct literals. *)
Definition zero_ResourceState : ResourceState := mkResourceState None "" 0 None.
Definition zero_Resource : Resource :=
  mkResource "" "" ∅ [] zero_ResourceState "" None None false [] ∅ 0.
Definition zero_filter : AutoSelectFilter :=
  mkAutoSelectFilter 0 0 [] "" [] [] [] "" [] [] ∅ [] [] false "".

(** Field updates ([r.F = v] on a struct value). *)
Definition with_res_spec (r : Resource) (flags : list string) (p : gmap string string) : Resource :=
  mkResource (res_Name r) (res_NodeName r) p flags (res_State r) (res_UUID r)
    (res_LayerObject r) (res_Annotations r) (res_ToggleDiskCancel r) (res_Volumes r)
    (res_EffectiveProps r) (res_CreateTimestamp r).
Definition with_res_State (r : Resource) (s : ResourceState) : Resource :=
  mkResource (res_Name r) (res_NodeName r) (res_Props r) (res_Flags r) s (res_UUID r)
    (res_LayerObject r) (res_Annotations r) (res_ToggleDiskCancel r) (res_Volumes r)
    (res_EffectiveProps r) (res_CreateTimestamp r).
Definition with_res_LayerObject (r : Resource) (l : option ResourceLayer) : Resource :=
  mkResource (res_Name r) (res_NodeName r) (res_Props r) (res_Flags r) (res_State r) (res_UUID r)
    l (res_Annotations r) (res_ToggleDiskCancel r) (res_Volumes r)
    (res_EffectiveProps r) (res_CreateTimestamp r).
Definition with_res_Annotations (r : Resource) (a : option (gmap string string)) : Resource :=
  mkResource (res_Name r) (res_NodeName r) (res_Props r) (res_Flags r) (res_State r) (res_UUID r)
    (res_LayerObject r) a (res_ToggleDiskCancel r) (res_Volumes r)
    (res_EffectiveProps r) (res_CreateTimestamp r).
Definition with_ProviderList (f : AutoSelectFilter) (l : list string) : AutoSelectFilter :=
  mkAutoSelectFilter (PlaceCount f) (AdditionalPlaceCount f) (NodeNameList f) (StoragePool_ f)
    (StoragePoolList f) (StoragePoolDisklessList f) (NotPlaceWithRsc f) (NotPlaceWithRscRegex f)
    (ReplicasOnSame f) (ReplicasOnDifferent f) (XReplicasOnDifferentMap f) (LayerStack f) l
    (DisklessOnRemaining f) (OverrideVlmID f).

(** ** Witness promotion *)

(** [PromoteWitnessFlags] *)
Fixpoint PromoteWitnessFlags (flags : list string) (wantDiskful : bool) : list string * bool :=
  match flags with
  | [] => ([], false)
  | flag :: rest =>
      let '(keep, wasDiskless) := PromoteWitnessFlags rest wantDiskful in
      if bool_decide (flag = ResourceFlagTieBreaker) then (keep, true)
      else if bool_decide (flag = ResourceFlagDiskless) then
        (if wantDiskful then keep else flag :: keep, true)
      else (flag :: keep, wasDiskless)
  end.

(** ** Layer stacks *)

Definition DefaultLayerStack : list string := [LayerKindDRBD; LayerKindStorage].

Definition ResolveLayerStack (rdLayers rgLayers : list string) : list string :=
  match rdLayers, rgLayers with
  | _ :: _, _ => rdLayers
  | [], _ :: _ => rgLayers
  | [], [] => DefaultLayerStack
  end.

Definition LayerInStack (stack : list string) (kind : string) : bool :=
  existsb (fun s => Str.equal_fold s kind) stack.

Definition LacksLayerOf (stack group : list string) : bool :=
  existsb (fun layer => negb (LayerInStack stack layer)) group.

Definition SameLayerSet (have want : list string) : bool :=
  forallb (LayerInStack want) have && forallb (LayerInStack have) want.

Definition ContainsReplicationLayer (stack : list string) : bool :=
  LayerInStack stack LayerKindDRBD.

(** [indexLayerByType]: the first-child chain, by type; a later layer of the same
    type overwrites an earlier one. *)
Fixpoint layer_chain (l : ResourceLayer) : list ResourceLayer :=
  l :: match rl_Children l with
       | [] => []
       | c :: _ => layer_chain c
       end.

Definition indexLayerByType (layer : option ResourceLayer) : gmap string ResourceLayer :=
  match layer with
  | None => ∅
  | Some l => foldl (fun out c => <[rl_Type c := c]> out) ∅ (layer_chain l)
  end.

Definition lift_layer (prior : gmap string ResourceLayer) (t : string)
    (children : list ResourceLayer) : ResourceLayer :=
  match prior !! t with
  | Some p => mkResourceLayer t (rl_NameSuffix p) children (rl_Drbd p) (rl_Storage p) (rl_Data p)
  | None => mkResourceLayer t "" children None None []
  end.

(** The cursor walk of [rebuildLayerObject]: one child per remaining type. *)
Fixpoint build_chain (prior : gmap string ResourceLayer) (stack : list string)
    : list ResourceLayer :=
  match stack with
  | [] => []
  | t :: rest => [lift_layer prior t (build_chain prior rest)]
  end.

Definition rebuildLayerObject (existing : option ResourceLayer) (stack : list string)
    : option ResourceLayer :=
  match stack with
  | [] => existing
  | t :: rest =>
      let prior := indexLayerByType existing in
      Some (lift_layer prior t (build_chain prior rest))
  end.

Definition ApplyLayerStack (r : Resource) (stack : list string) : Resource :=
  match stack with
  | [] => r
  | _ => with_res_LayerObject r (rebuildLayerObject (res_LayerObject r) stack)
  end.

(** [VolumeLayerData] has the single field [Type]. *)
Definition volumeLayerDataFromStack (stack : list string) : list string := stack.

Definition ApplyLayerStackToVolumes (vols : list Volume) (stack : list string) : list Volume :=
  match stack with
  | [] => vols
  | _ => (fun v => mkVolume (vol_VolumeNumber v) (vol_StoragePool v) (vol_DevicePath v)
                     (vol_AllocatedKib v) (vol_UsableKib v) (vol_Props v) (vol_Flags v)
                     (vol_UUID v) (vol_State v) (volumeLayerDataFromStack stack)) <$> vols
  end.

(** ** Node capabilities

    [github.com/google/uuid] is not part of the repository: the two functions the
    code uses of it are the fields of [UuidLib]. *)

Class UuidLib := {
  uuid_t : Type;
  uuid_NameSpaceURL : uuid_t;
  uuid_NewSHA1 : uuid_t -> string -> uuid_t;
  uuid_String : uuid_t -> string;
}.

(** A concrete library, to evaluate the model on examples. *)
Definition example_uuid : UuidLib := {|
  uuid_t := string;
  uuid_NameSpaceURL := "url";
  uuid_NewSHA1 ns data := ns +:+ "/" +:+ data;
  uuid_String u := u;
|}.

Definition DefaultSatellitePort : Z := 3366.
Definition DefaultSatelliteEncryptionType : string := "PLAIN".

Definition SupportedResourceLayers : list string := ["DRBD"; "STORAGE"; "LUKS"].
Definition SupportedStorageProviders : list string :=
  ["LVM"; "LVM_THIN"; "ZFS"; "ZFS_THIN"; "FILE"; "FILE_THIN"; "DISKLESS"].
Definition unsupportedLayerReason : string := "not implemented in blockstor satellite".
Definition unsupportedProviderReason : string :=
  "scoped out of blockstor (upstream-only provider)".

Definition default_unsupported_layers : gmap string (list string) :=
  list_to_map ((fun k => (k, [unsupportedLayerReason])) <$> ["CACHE"; "WRITECACHE"; "NVME"]).
Definition default_unsupported_providers : gmap string (list string) :=
  list_to_map ((fun k => (k, [unsupportedProviderReason])) <$>
    ["OPENFLEX_TARGET"; "REMOTE_SPDK"; "SPDK"; "STORAGE_SPACES"; "STORAGE_SPACES_THIN";
     "EBS_TARGET"; "EBS_INIT"]).

(** [if _, exists := m[k]; !exists { m[k] = v }] *)
Definition set_if_absent (k v : string) (m : gmap string string) : gmap string string :=
  match m !! k with Some _ => m | None => <[k := v]> m end.

Section NodeCaps.
Context {U : UuidLib}.

Definition SyntheticNetInterfaceUUID (nodeName ifaceName : string) : string :=
  uuid_String (uuid_NewSHA1 uuid_NameSpaceURL
    ("blockstor:netif:" +:+ nodeName +:+ ":" +:+ ifaceName)).

Definition nodeNamespaceUUID : uuid_t :=
  uuid_NewSHA1 uuid_NameSpaceURL "blockstor.cozystack.io/node".

Definition StableNodeUUID (name : string) : string :=
  uuid_String (uuid_NewSHA1 nodeNamespaceUUID name).

Definition DefaultNetInterfaceFields (nodeName : string) (ifaces : list NetInterface)
    : list NetInterface :=
  imap (fun i ni =>
    if bool_decide (ni_Address ni = "") then ni
    else mkNetInterface
      (if bool_decide (ni_UUID ni = "") then SyntheticNetInterfaceUUID nodeName (ni_Name ni)
       else ni_UUID ni)
      (ni_Name ni) (ni_Address ni)
      (if bool_decide (ni_SatellitePort ni = 0) then DefaultSatellitePort
       else ni_SatellitePort ni)
      (if bool_decide (ni_SatelliteEncryptionType ni = "") then DefaultSatelliteEncryptionType
       else ni_SatelliteEncryptionType ni)
      (bool_decide (i = 0%nat))) ifaces.

Definition SynthesizeNodeCapabilities (n : Node) : Node :=
  if bool_decide (node_Name n = "") then n
  else mkNode (node_Name n) (node_Type n)
    (if bool_decide (node_UUID n = "") then StableNodeUUID (node_Name n) else node_UUID n)
    (node_Flags n)
    (set_if_absent "CurStltConnName" "default"
       (set_if_absent "NodeUname" (Str.trim_space (node_Name n)) (node_Props n)))
    (node_NetInterfaces n) (node_ConnectionStatus n)
    (match node_ResourceLayers n with [] => SupportedResourceLayers | l => l end)
    (match node_StorageProviders n with [] => SupportedStorageProviders | l => l end)
    (match node_UnsupportedLayers n with
     | None => Some default_unsupported_layers | m => m end)
    (match node_UnsupportedProviders n with
     | None => Some default_unsupported_providers | m => m end).

End NodeCaps.

(** ** Backing names of a physical-device pool *)

Definition SplitLvmThinPoolName (poolName : string) : string * string :=
  match Str.cut "/"%char poolName with
  | Some (before, after) => (before, after)
  | None => ("linstor_" +:+ poolName, poolName)
  end.

Definition or_else (have new : string) : string :=
  if bool_decide (have = "") then new else have.

Definition FillAttachToFromPoolName (out : PhysicalDeviceAttachTo) (kind poolName : string)
    : PhysicalDeviceAttachTo :=
  let upd vg thin zp dir :=
    mkPhysicalDeviceAttachTo (pa_StoragePoolName out) (pa_ProviderKind out)
      (or_else (pa_VGName out) vg) (or_else (pa_ThinPoolName out) thin)
      (or_else (pa_ZPoolName out) zp) (or_else (pa_Directory out) dir) (pa_Wipe out) in
  if bool_decide (poolName = "") then out
  else if bool_decide (kind = StoragePoolKindLVM) then upd poolName "" "" ""
  else if bool_decide (kind = StoragePoolKindLVMThin) then
    let '(vgName, thinLV) := SplitLvmThinPoolName poolName in upd vgName thinLV "" ""
  else if bool_decide (kind = StoragePoolKindZFS) || bool_decide (kind = StoragePoolKindZFSThin)
    then upd "" "" poolName ""
  else if bool_decide (kind = StoragePoolKindFile) || bool_decide (kind = StoragePoolKindFileThin)
    then upd "" "" "" poolName
  else out.

(** ** The lax integer codec *)

Module LaxInt32.

Definition isJSONNull (data : string) : bool :=
  bool_decide (data = "") || bool_decide (data = "null").

(** [data[0]] and [data[len-1]] of a non-empty byte string. *)
Fixpoint last_byte (s : string) : ascii :=
  match s with
  | EmptyString => zero
  | String c EmptyString => c
  | String _ s' => last_byte s'
  end.
Fixpoint drop_last (s : string) : string :=
  match s with
  | EmptyString | String _ EmptyString => EmptyString
  | String c s' => String c (drop_last s')
  end.

Definition quote : ascii := ascii_of_nat 34.

(** [data[1 : len(data)-1]] panics when the input is one quote character: [None]. *)
Definition strip_quotes (data : string) : option string :=
  match data with
  | String c rest =>
      if Ascii.eqb c quote && Ascii.eqb (last_byte data) quote then
        match rest with
        | EmptyString => None
        | _ => Some (drop_last rest)
        end
      else Some data
  | EmptyString => Some data
  end.

Inductive outcome := Value (n : Z) | ParseError | Panic.

Definition UnmarshalJSON (data : string) : outcome :=
  if isJSONNull data then Value 0
  else match strip_quotes data with
       | None => Panic
       | Some d =>
           if bool_decide (d = "") then Value 0
           else match parse_int 32 d with
                | Some n => Value n
                | None => ParseError
                end
       end.

Definition MarshalJSON (n : Z) : string := format_int n.

Lemma drop_last_snoc s c : drop_last (s +:+ String c "") = s.
Proof.
  induction s as [|d s IH]; [done|]. rewrite StrFacts.app_cons. cbn.
  destruct (s +:+ String c "") eqn:E; [destruct s; discriminate|]. by rewrite IH.
Qed.

Lemma last_byte_snoc s c : last_byte (s +:+ String c "") = c.
Proof.
  induction s as [|d s IH]; [done|]. rewrite StrFacts.app_cons. cbn.
  destruct (s +:+ String c "") eqn:E; [destruct s; discriminate|]. done.
Qed.

Lemma format_int_head z :
  exists c s, format_int z = String c s /\ c <> quote /\ c <> "n"%char.
Proof.
  unfold format_int. destruct (Z.to_int z) as [d|d]; cbn.
  - destruct d; cbn; by do 2 eexists.
  - by do 2 eexists.
Qed.

(** A client that sends the integer bare and one that sends it quoted (the
    LINSTOR command line does) decode to the same value, for every [int32]; the
    codec always emits the bare form and reads it back. *)
Theorem LaxInt32_roundtrip n :
  is_int32 n ->
  UnmarshalJSON (MarshalJSON n) = Value n
  /\ UnmarshalJSON (String quote (MarshalJSON n +:+ String quote "")) = Value n.
Proof.
  intros Hn. unfold is_int32, MinInt32, MaxInt32 in Hn.
  assert (parse_int 32 (format_int n) = Some n) as Hp by (apply parse_int_format; lia).
  destruct (format_int_head n) as (c & s & Hf & Hq & Hnn).
  unfold UnmarshalJSON, isJSONNull, MarshalJSON. split.
  - unfold strip_quotes. rewrite Hf in Hp |- *.
    rewrite bool_decide_eq_false_2 by done. rewrite bool_decide_eq_false_2 by congruence.
    rewrite (proj2 (Ascii.eqb_neq c quote) Hq). cbn [orb andb].
    by rewrite bool_decide_eq_false_2, Hp.
  - rewrite bool_decide_eq_false_2 by done. rewrite bool_decide_eq_false_2 by done.
    unfold strip_quotes. rewrite <- StrFacts.app_cons, last_byte_snoc, StrFacts.app_cons.
    cbn [orb]. rewrite Ascii.eqb_refl. cbn [andb].
    rewrite Hf, StrFacts.app_cons, <- (StrFacts.app_cons c s), drop_last_snoc, <- Hf.
    rewrite bool_decide_eq_false_2 by (rewrite Hf; done). by rewrite Hp.
Qed.

Lemma LaxInt32_roundtrip_witness :
  is_int32 (-7)
  /\ UnmarshalJSON (MarshalJSON (-7)) = Value (-7)
  /\ UnmarshalJSON (String quote (MarshalJSON (-7) +:+ String quote "")) = Value (-7).
Proof.
  split; [unfold is_int32, MinInt32, MaxInt32; lia|].
  apply (LaxInt32_roundtrip (-7)). unfold is_int32, MinInt32, MaxInt32; lia.
Defined.

End LaxInt32.

(** ** Lemmas on flags and layers *)

Lemma Contains_true l x : Contains l x = true <-> x ∈ l.
Proof. apply bool_decide_eq_true. Qed.

Lemma Contains_false l x : Contains l x = false <-> x ∉ l.
Proof. apply bool_decide_eq_false. Qed.

(** Promoting a witness drops exactly the TIE_BREAKER flags, and the DISKLESS
    flags too when a diskful replica is wanted; every other flag keeps its place,
    and the second result tells whether a witness flag was there. Promoting twice
    changes nothing more. *)
Theorem PromoteWitnessFlags_spec flags wantDiskful :
  PromoteWitnessFlags flags wantDiskful =
    (filter (fun f => f <> ResourceFlagTieBreaker
                      /\ (wantDiskful = true -> f <> ResourceFlagDiskless)) flags,
     Contains flags ResourceFlagTieBreaker || Contains flags ResourceFlagDiskless)
  /\ (PromoteWitnessFlags flags wantDiskful).1
     = (PromoteWitnessFlags (PromoteWitnessFlags flags wantDiskful).1 wantDiskful).1.
Proof.
  assert (forall fl, PromoteWitnessFlags fl wantDiskful =
    (filter (fun f => f <> ResourceFlagTieBreaker
                      /\ (wantDiskful = true -> f <> ResourceFlagDiskless)) fl,
     Contains fl ResourceFlagTieBreaker || Contains fl ResourceFlagDiskless)) as H.
  { induction fl as [|f fl IH]; [done|]. cbn [PromoteWitnessFlags]. rewrite IH.
    rewrite filter_cons. unfold Contains. rewrite !(bool_decide_ext (_ ∈ f :: fl) _ (elem_of_cons fl _ _)).
    rewrite !bool_decide_or.
    repeat case_bool_decide; destruct wantDiskful; repeat case_decide; subst; try done;
      try (exfalso; naive_solver); by rewrite ?orb_true_r. }
  split; [done|]. rewrite (H (PromoteWitnessFlags flags wantDiskful).1), H; cbn.
  rewrite list_filter_filter. apply list_filter_iff. naive_solver.
Qed.

(** The types along the first-child chain. *)
Definition layer_types (l : option ResourceLayer) : list string :=
  match l with None => [] | Some l => rl_Type <$> layer_chain l end.

Lemma layer_chain_build prior t rest :
  layer_chain (lift_layer prior t (build_chain prior rest))
    = lift_layer prior t (build_chain prior rest)
      :: match rest with [] => [] | t' :: r' => layer_chain (lift_layer prior t' (build_chain prior r')) end.
Proof. unfold lift_layer at 1 2; destruct (prior !! t), rest; done. Qed.

Lemma lift_layer_type prior t c : rl_Type (lift_layer prior t c) = t.
Proof. unfold lift_layer. by destruct (prior !! t). Qed.

Lemma layer_types_build prior rest t :
  rl_Type <$> layer_chain (lift_layer prior t (build_chain prior rest)) = t :: rest.
Proof.
  revert t; induction rest as [|t' rest IH]; intros t; rewrite layer_chain_build; cbn [fmap list_fmap].
  - by rewrite lift_layer_type.
  - by rewrite lift_layer_type, <- (IH t').
Qed.

(** The payload a layer carries, whatever its children. *)
Definition payload (l : ResourceLayer) :=
  (rl_NameSuffix l, rl_Drbd l, rl_Storage l, rl_Data l).

Lemma chain_build_lookup prior rest t l :
  l ∈ layer_chain (lift_layer prior t (build_chain prior rest)) ->
  exists cs, l = lift_layer prior (rl_Type l) cs.
Proof.
  revert t; induction rest as [|t' rest IH]; intros t; rewrite layer_chain_build.
  - intros ->%list_elem_of_singleton. rewrite lift_layer_type. eauto.
  - intros [->|Hin]%elem_of_cons; [rewrite lift_layer_type; eauto | eauto].
Qed.

(** Re-stamping a resource with a layer stack yields a single chain whose types
    are exactly the stack, top first; every layer that was there before keeps its
    runtime payload (DRBD ports and connections, storage volumes), and a layer new
    to the resource starts empty. An empty stack leaves the object alone. *)
Theorem rebuildLayerObject_spec existing stack :
  (stack = [] -> rebuildLayerObject existing stack = existing)
  /\ (stack <> [] -> layer_types (rebuildLayerObject existing stack) = stack)
  /\ (stack <> [] -> forall top l, rebuildLayerObject existing stack = Some top ->
        l ∈ layer_chain top ->
        payload l = match indexLayerByType existing !! rl_Type l with
                    | Some p => payload p
                    | None => ("", None, None, [])
                    end).
Proof.
  split; [by intros ->|]. destruct stack as [|t rest]; [done|].
  cbn [rebuildLayerObject]. split.
  - intros _. cbn [layer_types]. apply layer_types_build.
  - intros _ top l [= <-] Hin. apply chain_build_lookup in Hin as [cs Hl].
    rewrite Hl at 1. unfold lift_layer. by destruct (_ !! rl_Type l).
Qed.

Definition sample_layer : ResourceLayer :=
  mkResourceLayer "DRBD" "" [mkResourceLayer "STORAGE" "" [] None
      (Some (mkStorageResourceLayer "ZFS_THIN" [])) []]
    (Some (mkDrbdResourceLayer [7000] ∅ [])) None [].

Lemma rebuildLayerObject_spec_witness :
  ["DRBD"; "LUKS"; "STORAGE"] <> []
  /\ layer_types (rebuildLayerObject (Some sample_layer) ["DRBD"; "LUKS"; "STORAGE"])
     = ["DRBD"; "LUKS"; "STORAGE"].
Proof.
  split; [done|].
  destruct (rebuildLayerObject_spec (Some sample_layer) ["DRBD"; "LUKS"; "STORAGE"])
    as (_ & H & _). apply H. done.
Defined.
