(* ===== verification/Store.v ===== *)
(** * The object store: its contract and the in-memory implementation

    Models [pkg/store/inmemory*.go], the RAM-backed implementation of the
    [Store] interface of [pkg/store/store.go], and the part of that interface the
    placement and teardown code is written against ([StoreOps], with the laws
    [StoreLaws] a backend owes its clients).

    Each sub-store is a finite map under one lock, so every method is one atomic
    step [state -> result _ state]. A pointer argument is an [option] (the
    nil guards are modelled); a mutator is a function returning the edited copy or
    an error, because [cloneForPatch] hands it a private deep copy. [errors.Wrapf]
    keeps the wrapped cause, so an error is its cause. *)

From S2P Require Import Prelude Api.

Inductive store_err :=
| ErrNotFound
| ErrAlreadyExists
| ErrNil
| ErrOther (msg : string).

#[global] Instance store_err_eq_dec : EqDecision store_err.
Proof. solve_decision. Defined.

(** ** Sorting rows for the [List] methods

    Every [List] collects the rows and sorts them on their key; [sort_on] is the
    sorted list, unique when the keys are distinct. *)

Definition le_on {V} (k : V -> string) (a b : V) : Prop := String.le (k a) (k b).
#[global] Instance le_on_dec {V} (k : V -> string) : RelDecision (le_on k).
Proof. intros a b. unfold le_on. apply _. Defined.

(** Lexicographic on two keys: [a.k1 < b.k1], ties broken on [k2]. *)
Definition le_on2 {V} (k1 k2 : V -> string) (a b : V) : Prop :=
  (k1 a <> k1 b /\ String.le (k1 a) (k1 b)) \/ (k1 a = k1 b /\ String.le (k2 a) (k2 b)).
#[global] Instance le_on2_dec {V} (k1 k2 : V -> string) : RelDecision (le_on2 k1 k2).
Proof. intros a b. unfold le_on2. apply _. Defined.

Definition le_onZ {V} (k : V -> Z) (a b : V) : Prop := k a <= k b.
#[global] Instance le_onZ_dec {V} (k : V -> Z) : RelDecision (le_onZ k).
Proof. intros a b. unfold le_onZ. apply _. Defined.

#[global] Instance le_on_total {V} (k : V -> string) : Total (le_on k).
Proof. intros a b. apply String.le_total. Qed.
#[global] Instance le_on_trans {V} (k : V -> string) : Transitive (le_on k).
Proof. intros a b c. unfold le_on. apply transitivity. Qed.

#[global] Instance le_on2_total {V} (k1 k2 : V -> string) : Total (le_on2 k1 k2).
Proof.
  intros a b. unfold le_on2. destruct (decide (k1 a = k1 b)) as [E|E].
  - destruct (String.le_total (k2 a) (k2 b)); [left|right]; auto.
  - destruct (String.le_total (k1 a) (k1 b)); [left|right]; auto.
Qed.
#[global] Instance le_on2_trans {V} (k1 k2 : V -> string) : Transitive (le_on2 k1 k2).
Proof.
  intros a b c [[H1 H2]|[H1 H2]] [[H3 H4]|[H3 H4]]; unfold le_on2.
  - left. split; [|by transitivity (k1 b)]. intros E. rewrite E in H2.
    apply H3. by apply (anti_symm String.le).
  - left. rewrite <- H3. auto.
  - left. rewrite H1. auto.
  - right. rewrite H1. split; [done|]. by transitivity (k2 b).
Qed.
#[global] Instance le_onZ_total {V} (k : V -> Z) : Total (le_onZ k).
Proof. intros a b. unfold le_onZ. lia. Qed.
#[global] Instance le_onZ_trans {V} (k : V -> Z) : Transitive (le_onZ k).
Proof. intros a b c. unfold le_onZ. lia. Qed.

(** ** One sub-store: a map under a lock *)

Definition carryAnnotationsOnNil (next prev : option (gmap string string))
    : option (gmap string string) :=
  match next with None => prev | Some _ => next end.

Section KV.
Context {K V : Type} `{Countable K}.
Implicit Types (m : gmap K V).

Definition kv_values m : list V := (map_to_list m).*2.

Definition kv_get m (k : K) : result store_err V :=
  match m !! k with Some v => Ok v | None => Err ErrNotFound end.

Definition kv_create m (k : V -> K) (x : option V) : result store_err (gmap K V) :=
  match x with
  | None => Err ErrNil
  | Some v => match m !! k v with
              | Some _ => Err ErrAlreadyExists
              | None => Ok (<[k v := v]> m)
              end
  end.

(** [merge prev next] is what the overwrite keeps of the previous row. *)
Definition kv_update m (k : V -> K) (merge : V -> V -> result store_err V) (x : option V)
    : result store_err (gmap K V) :=
  match x with
  | None => Err ErrNil
  | Some v => match m !! k v with
              | None => Err ErrNotFound
              | Some prev => match merge prev v with
                             | Ok next => Ok (<[k v := next]> m)
                             | Err e => Err e
                             end
              end
  end.

Definition kv_patch m (k : K) (merge : V -> V -> V) (mutate : option (V -> result store_err V))
    : result store_err (gmap K V) :=
  match mutate with
  | None => Err ErrNil
  | Some f => match m !! k with
              | None => Err ErrNotFound
              | Some prev => match f prev with
                             | Err e => Err e
                             | Ok next => Ok (<[k := merge prev next]> m)
                             end
              end
  end.

Definition kv_delete m (k : K) : result store_err (gmap K V) :=
  match m !! k with Some _ => Ok (delete k m) | None => Err ErrNotFound end.

Definition overwrite (_ next : V) : result store_err V := Ok next.
Definition replace_row (_ next : V) : V := next.

(** Every row is filed under its own key. *)
Definition kv_wf (k : V -> K) m : Prop := map_Forall (fun i v => k v = i) m.

Lemma kv_create_wf k m x m' : kv_wf k m -> kv_create m k x = Ok m' -> kv_wf k m'.
Proof.
  intros Hwf. unfold kv_create. repeat case_match; try done. intros; simplify_eq.
  by apply map_Forall_insert_2.
Qed.

Lemma kv_update_wf k m merge x m' :
  (forall prev next r, merge prev next = Ok r -> k r = k next) ->
  kv_wf k m -> kv_update m k merge x = Ok m' -> kv_wf k m'.
Proof.
  intros Hk Hwf. unfold kv_update. repeat case_match; try done. intros; simplify_eq.
  apply map_Forall_insert_2; eauto.
Qed.

Lemma kv_patch_wf k m i merge f m' :
  (forall prev next, k (merge prev next) = k next) ->
  (forall g prev next, f = Some g -> g prev = Ok next -> k next = k prev) ->
  kv_wf k m -> kv_patch m i merge f = Ok m' -> kv_wf k m'.
Proof.
  intros Hk Hf Hwf. unfold kv_patch. repeat case_match; try done. intros; simplify_eq.
  apply map_Forall_insert_2; [|done]. rewrite Hk. erewrite Hf by done. by apply Hwf.
Qed.

Lemma kv_delete_wf k m i m' : kv_wf k m -> kv_delete m i = Ok m' -> kv_wf k m'.
Proof.
  intros Hwf. unfold kv_delete. case_match; [|done]. intros; simplify_eq.
  by apply map_Forall_delete.
Qed.

Lemma elem_of_kv_values m v : v ∈ kv_values m <-> exists k, m !! k = Some v.
Proof.
  unfold kv_values. rewrite list_elem_of_fmap. split.
  - intros ([k v'] & -> & Hin). exists k. by apply elem_of_map_to_list.
  - intros [k Hk]. exists (k, v). split; [done|]. by apply elem_of_map_to_list.
Qed.

Lemma kv_values_keys k m : kv_wf k m -> k <$> kv_values m = (map_to_list m).*1.
Proof.
  intros Hwf. unfold kv_values. rewrite <- list_fmap_compose. apply list_fmap_ext.
  intros i [a v] Hin%list_elem_of_lookup_2%elem_of_map_to_list. cbn. by apply Hwf.
Qed.

Lemma NoDup_kv_values_keys k m : kv_wf k m -> NoDup (k <$> kv_values m).
Proof. intros Hwf. rewrite kv_values_keys by done. apply NoDup_fst_map_to_list. Qed.

End KV.

#[global] Hint Resolve kv_create_wf kv_delete_wf : core.

(** Case analysis of one store method applied to a row. *)
Ltac kv_cases := repeat case_match; cbn; intros; simplify_eq; eauto.

(** Rows of a filtered, sorted listing. *)
Lemma elem_of_sorted_filter {V} (R : relation V) `{!RelDecision R} (P : V -> Prop)
    `{!forall v, Decision (P v)} (l : list V) v :
  v ∈ merge_sort R (filter P l) <-> P v /\ v ∈ l.
Proof. rewrite merge_sort_Permutation, list_elem_of_filter. done. Qed.

(** ** Storage pool definitions *)

Record StoragePoolDefinition := mkStoragePoolDefinition {
  spd_Name : string;
  spd_Props : gmap string string;
}.

Notation SPDefs := (gmap string StoragePoolDefinition) (only parsing).

Definition SPDefs_List (s : SPDefs) : list StoragePoolDefinition :=
  merge_sort (le_on spd_Name) (kv_values s).
Definition SPDefs_Get (s : SPDefs) (name : string) := kv_get s name.
Definition SPDefs_Create (s : SPDefs) (def : option StoragePoolDefinition) :=
  kv_create s spd_Name def.
Definition SPDefs_Update (s : SPDefs) (def : option StoragePoolDefinition) :=
  kv_update s spd_Name overwrite def.
Definition SPDefs_Delete (s : SPDefs) (name : string) := kv_delete s name.

(** ** Controller properties *)

Definition ControllerProps_Get (s : gmap string string) : gmap string string := s.
Definition ControllerProps_Set (s props : gmap string string) : gmap string string := props.
Definition ControllerProps_PatchProps (s : gmap string string)
    (mutate : option (gmap string string -> result store_err (gmap string string)))
    : result store_err (gmap string string) :=
  match mutate with
  | None => Err ErrNil
  | Some f => f s
  end.

(** ** Nodes *)

Notation NodesMap := (gmap string Node) (only parsing).

Definition with_node_NetInterfaces (n : Node) (l : list NetInterface) : Node :=
  mkNode (node_Name n) (node_Type n) (node_UUID n) (node_Flags n) (node_Props n) l
    (node_ConnectionStatus n) (node_ResourceLayers n) (node_StorageProviders n)
    (node_UnsupportedLayers n) (node_UnsupportedProviders n).
Definition with_node_Props (n : Node) (p : gmap string string) : Node :=
  mkNode (node_Name n) (node_Type n) (node_UUID n) (node_Flags n) p (node_NetInterfaces n)
    (node_ConnectionStatus n) (node_ResourceLayers n) (node_StorageProviders n)
    (node_UnsupportedLayers n) (node_UnsupportedProviders n).
Definition with_node_ConnectionStatus (n : Node) (st : string) : Node :=
  mkNode (node_Name n) (node_Type n) (node_UUID n) (node_Flags n) (node_Props n)
    (node_NetInterfaces n) st (node_ResourceLayers n) (node_StorageProviders n)
    (node_UnsupportedLayers n) (node_UnsupportedProviders n).

Definition decorateInMemoryNode `{UuidLib} (n : Node) : Node :=
  let n1 := match node_NetInterfaces n with
            | [] => n
            | l => with_node_NetInterfaces n (DefaultNetInterfaceFields (node_Name n) l)
            end in
  SynthesizeNodeCapabilities n1.

Definition Nodes_List `{UuidLib} (s : NodesMap) : list Node :=
  merge_sort (le_on node_Name) (decorateInMemoryNode <$> kv_values s).
Definition Nodes_Get `{UuidLib} (s : NodesMap) (name : string) : result store_err Node :=
  match kv_get s name with Ok n => Ok (decorateInMemoryNode n) | Err e => Err e end.
Definition Nodes_Create (s : NodesMap) (n : option Node) := kv_create s node_Name n.
Definition Nodes_Update (s : NodesMap) (n : option Node) := kv_update s node_Name overwrite n.

(** The interface mutator is handed the stored slice itself: [mutate live] returns
    the elements as the mutator left them in place, beside its answer. *)
Definition Nodes_PatchNetInterfaces (s : NodesMap) (name : string)
    (mutate : option (list NetInterface ->
                      list NetInterface * result store_err (list NetInterface)))
    : result store_err unit * NodesMap :=
  match mutate with
  | None => (Err ErrNil, s)
  | Some f =>
      match s !! name with
      | None => (Err ErrNotFound, s)
      | Some node =>
          match f (node_NetInterfaces node) with
          | (live, Err e) => (Err e, <[name := with_node_NetInterfaces node live]> s)
          | (_, Ok out) => (Ok tt, <[name := with_node_NetInterfaces node out]> s)
          end
      end
  end.

Definition Nodes_PatchProps (s : NodesMap) (name : string)
    (mutate : option (gmap string string -> result store_err (gmap string string))) :=
  kv_patch s name replace_row
    ((fun f n => match f (node_Props n) with
                 | Ok p => Ok (with_node_Props n p)
                 | Err e => Err e
                 end) <$> mutate).
Definition Nodes_PatchNodeSpec (s : NodesMap) (name : string)
    (mutate : option (Node -> result store_err Node)) := kv_patch s name replace_row mutate.
Definition Nodes_Delete (s : NodesMap) (name : string) := kv_delete s name.
Definition Nodes_SetConnectionStatus (s : NodesMap) (name status : string) :=
  kv_patch s name replace_row (Some (fun n => Ok (with_node_ConnectionStatus n status))).

(** ** Storage pools *)

Notation PoolsMap := (gmap (string * string) StoragePool) (only parsing).

Definition spKey (sp : StoragePool) : string * string := (sp_NodeName sp, sp_StoragePoolName sp).

Definition with_sp_derived (sp : StoragePool) (state : string) (reports : list APICallRc)
    (fsm : string) : StoragePool :=
  mkStoragePool (sp_StoragePoolName sp) (sp_NodeName sp) (sp_ProviderKind sp) (sp_Props sp)
    (sp_StaticTraits sp) (sp_FreeCapacity sp) (sp_TotalCapacity sp) fsm (sp_SharedSpaceID sp)
    reports (sp_SupportsSnapshot sp) (sp_ExternalLocking sp) (sp_UUID sp) state
    (sp_PoolMissing sp).

Definition poolMissingReport (node pool : string) : APICallRc :=
  mkAPICallRc
    (Z.lor (Z.lor APICallRcMaskError APICallRcMaskStorPool) APICallRcFailStorPoolConfigurationError)
    ("pool backing storage missing on node " +:+ node +:+
     ": storage pool " +:+ pool +:+ " is not present")
    ("The satellite probed the backing volume group / zpool / " +:+
     "directory for this storage pool and found it absent — " +:+
     "typically the result of an operator `zpool destroy`, " +:+
     "`vgremove`, or an unmounted filesystem.")
    ""
    ("Re-discover the pool via `linstor ps cdp <provider> " +:+
     "<node> <pool>` once the backing storage is restored, or " +:+
     "recreate the pool with `linstor sp c`.")
    (<["Node" := node]> (<["StorPool" := pool]> ∅))
    "".

Definition withDerivedState (sp : StoragePool) : StoragePool :=
  with_sp_derived sp
    (if bool_decide (sp_State sp = "") then (if sp_PoolMissing sp then "Faulty" else "Ok")
     else sp_State sp)
    (match sp_PoolMissing sp, sp_Reports sp with
     | true, [] => [poolMissingReport (sp_NodeName sp) (sp_StoragePoolName sp)]
     | _, r => r
     end)
    (if bool_decide (sp_FreeSpaceMgrName sp = "") then
       if bool_decide (sp_SharedSpaceID sp <> "") then sp_SharedSpaceID sp
       else if bool_decide (sp_NodeName sp <> "" /\ sp_StoragePoolName sp <> "")
            then sp_NodeName sp +:+ ":" +:+ sp_StoragePoolName sp
            else ""
     else sp_FreeSpaceMgrName sp).

Definition with_sp_capacity (sp : StoragePool) (free total : Z) (snap : bool) : StoragePool :=
  mkStoragePool (sp_StoragePoolName sp) (sp_NodeName sp) (sp_ProviderKind sp) (sp_Props sp)
    (sp_StaticTraits sp) free total (sp_FreeSpaceMgrName sp) (sp_SharedSpaceID sp)
    (sp_Reports sp) snap (sp_ExternalLocking sp) (sp_UUID sp) (sp_State sp) (sp_PoolMissing sp).

Definition StoragePools_List (s : PoolsMap) : list StoragePool :=
  merge_sort (le_on2 sp_NodeName sp_StoragePoolName) (withDerivedState <$> kv_values s).
Definition StoragePools_ListByNode (s : PoolsMap) (node : string) : list StoragePool :=
  merge_sort (le_on sp_StoragePoolName)
    (withDerivedState <$> filter (fun sp => sp_NodeName sp = node) (kv_values s)).
Definition StoragePools_Get (s : PoolsMap) (node pool : string) : result store_err StoragePool :=
  match kv_get s (node, pool) with Ok sp => Ok (withDerivedState sp) | Err e => Err e end.
Definition StoragePools_Create (s : PoolsMap) (sp : option StoragePool) := kv_create s spKey sp.
Definition StoragePools_Update (s : PoolsMap) (sp : option StoragePool) :=
  kv_update s spKey overwrite sp.
Definition StoragePools_SetCapacity (s : PoolsMap) (node pool : string) (freeKib totalKib : Z)
    (supportsSnap : bool) :=
  kv_patch s (node, pool) replace_row
    (Some (fun sp => Ok (with_sp_capacity sp freeKib totalKib supportsSnap))).
Definition StoragePools_PatchStoragePoolSpec (s : PoolsMap) (node pool : string)
    (mutate : option (StoragePool -> result store_err StoragePool)) :=
  kv_patch s (node, pool) replace_row mutate.
Definition StoragePools_Delete (s : PoolsMap) (node pool : string) := kv_delete s (node, pool).

(** ** Resource groups *)

Notation RGMap := (gmap string ResourceGroup) (only parsing).

Definition with_rg_Annotations (g : ResourceGroup) (a : option (gmap string string)) :=
  mkResourceGroup (rg_Name g) (rg_Description g) (rg_Props g) a (rg_SelectFilter g)
    (rg_VolumeGroups g) (rg_UUID g) (rg_PeerSlots g) (rg_OverrideProps g) (rg_DeleteProps g)
    (rg_DeleteNamespace g).
Definition rg_carry (prev next : ResourceGroup) : ResourceGroup :=
  with_rg_Annotations next (carryAnnotationsOnNil (rg_Annotations next) (rg_Annotations prev)).

Definition ResourceGroups_List (s : RGMap) : list ResourceGroup :=
  merge_sort (le_on rg_Name) (kv_values s).
Definition ResourceGroups_Get (s : RGMap) (name : string) := kv_get s name.
Definition ResourceGroups_Create (s : RGMap) (rg : option ResourceGroup) := kv_create s rg_Name rg.
Definition ResourceGroups_Update (s : RGMap) (rg : option ResourceGroup) :=
  kv_update s rg_Name (fun prev next => Ok (rg_carry prev next)) rg.
Definition ResourceGroups_PatchResourceGroup (s : RGMap) (name : string)
    (mutate : option (ResourceGroup -> result store_err ResourceGroup)) :=
  kv_patch s name rg_carry mutate.
Definition ResourceGroups_Delete (s : RGMap) (name : string) := kv_delete s name.

(** ** Resource definitions *)

Notation RDMap := (gmap string ResourceDefinition) (only parsing).

Definition with_rd_carried (d : ResourceDefinition) (a : option (gmap string string))
    (stack : list string) : ResourceDefinition :=
  mkResourceDefinition (rd_Name d) (rd_ExternalName d) (rd_ResourceGroupName d) (rd_Props d) a
    (rd_Flags d) (rd_LayerData d) stack (rd_UUID d) (rd_VolumeDefinitions d) (rd_EffectiveProps d).

(** [Update]: a decided layer stack is never emptied. *)
Definition rd_update_carry (prev next : ResourceDefinition) : ResourceDefinition :=
  with_rd_carried next (carryAnnotationsOnNil (rd_Annotations next) (rd_Annotations prev))
    (match rd_LayerStack next with [] => rd_LayerStack prev | l => l end).
Definition rd_patch_carry (prev next : ResourceDefinition) : ResourceDefinition :=
  with_rd_carried next (carryAnnotationsOnNil (rd_Annotations next) (rd_Annotations prev))
    (rd_LayerStack next).

Definition ResourceDefinitions_List (s : RDMap) : list ResourceDefinition :=
  merge_sort (le_on rd_Name) (kv_values s).
Definition ResourceDefinitions_Get (s : RDMap) (name : string) := kv_get s name.
Definition ResourceDefinitions_Create (s : RDMap) (rd : option ResourceDefinition) :=
  kv_create s rd_Name rd.
Definition ResourceDefinitions_Update (s : RDMap) (rd : option ResourceDefinition) :=
  kv_update s rd_Name (fun prev next => Ok (rd_update_carry prev next)) rd.
Definition ResourceDefinitions_PatchSpec (s : RDMap) (name : string)
    (mutate : option (ResourceDefinition -> result store_err ResourceDefinition)) :=
  kv_patch s name rd_patch_carry mutate.
Definition ResourceDefinitions_Delete (s : RDMap) (name : string) := kv_delete s name.

(** ** Resources (replicas) *)

Definition rKey (r : Resource) : string * string := (res_Name r, res_NodeName r).

Record inMemoryResources := mkInMemoryResources {
  res_m : gmap (string * string) Resource;
  res_volStates : gmap (string * string) (gmap Z VolumeState);
}.

Definition lift_res (s : inMemoryResources) (r : result store_err (gmap (string * string) Resource))
    : result store_err inMemoryResources :=
  match r with
  | Ok m => Ok (mkInMemoryResources m (res_volStates s))
  | Err e => Err e
  end.

Definition res_carry (prev next : Resource) : Resource :=
  with_res_Annotations next (carryAnnotationsOnNil (res_Annotations next) (res_Annotations prev)).

Definition Resources_List (s : inMemoryResources) : list Resource :=
  merge_sort (le_on2 res_Name res_NodeName) (kv_values (res_m s)).
Definition Resources_ListByNode (s : inMemoryResources) (node : string) : list Resource :=
  merge_sort (le_on res_Name) (filter (fun r => res_NodeName r = node) (kv_values (res_m s))).
Definition Resources_ListByDefinition (s : inMemoryResources) (rdName : string) : list Resource :=
  merge_sort (le_on res_NodeName) (filter (fun r => res_Name r = rdName) (kv_values (res_m s))).
Definition Resources_Get (s : inMemoryResources) (rdName node : string) :=
  kv_get (res_m s) (rdName, node).
Definition Resources_Create (s : inMemoryResources) (r : option Resource) :=
  lift_res s (kv_create (res_m s) rKey r).
Definition Resources_Update (s : inMemoryResources) (r : option Resource) :=
  lift_res s (kv_update (res_m s) rKey (fun prev next => Ok (res_carry prev next)) r).
Definition Resources_PatchResourceSpec (s : inMemoryResources) (rdName node : string)
    (mutate : option (Resource -> result store_err Resource)) :=
  lift_res s (kv_patch (res_m s) (rdName, node) res_carry mutate).
Definition Resources_Delete (s : inMemoryResources) (rdName node : string) :=
  lift_res s (kv_delete (res_m s) (rdName, node)).

(** The read, the flag check and the delete are one step under the lock. *)
Definition Resources_DeleteIfTieBreaker (s : inMemoryResources) (rdName node : string)
    : bool * inMemoryResources :=
  match res_m s !! (rdName, node) with
  | None => (false, s)
  | Some r =>
      if Contains (res_Flags r) ResourceFlagTieBreaker then
        (true, mkInMemoryResources (delete (rdName, node) (res_m s)) (res_volStates s))
      else (false, s)
  end.

Definition Resources_SetState (s : inMemoryResources) (rdName node : string)
    (state : ResourceState) (volumes : list VolumeObservation)
    : result store_err inMemoryResources :=
  match res_m s !! (rdName, node) with
  | None => Err ErrNotFound
  | Some existing =>
      let m := <[(rdName, node) := with_res_State existing state]> (res_m s) in
      let vs := match volumes with
                | [] => res_volStates s
                | _ => <[(rdName, node) :=
                         foldl (fun acc vol => <[vo_VolumeNumber vol := vo_State vol]> acc)
                           (default ∅ (res_volStates s !! (rdName, node))) volumes]>
                         (res_volStates s)
                end in
      Ok (mkInMemoryResources m vs)
  end.

Definition clear_ports (l : ResourceLayer) : ResourceLayer :=
  match rl_Drbd l with
  | None => l
  | Some d => mkResourceLayer (rl_Type l) (rl_NameSuffix l) (rl_Children l)
                (Some (mkDrbdResourceLayer [] (drl_Connections d) (drl_DrbdVolumes d)))
                (rl_Storage l) (rl_Data l)
  end.

Definition Resources_ClearDRBDPort (s : inMemoryResources) (rdName node : string) :=
  lift_res s (kv_patch (res_m s) (rdName, node) replace_row
    (Some (fun r => Ok (with_res_LayerObject r (clear_ports <$> res_LayerObject r))))).

Definition Resources_VolumeState (s : inMemoryResources) (rdName node : string) (vol : Z)
    : option VolumeState :=
  default ∅ (res_volStates s !! (rdName, node)) !! vol.

(** ** Volume definitions *)

Definition FoldName (name : string) : string := Str.to_lower name.

Notation VDMap := (gmap (string * Z) VolumeDefinition) (only parsing).

Definition with_vd_VolumeNumber (vd : VolumeDefinition) (n : Z) : VolumeDefinition :=
  mkVolumeDefinition n (vd_SizeKib vd) (vd_Props vd) (vd_Flags vd) (vd_UUID vd).

(** The key of a volume is (definition, number); the definition's name is not in
    the row. *)
Definition VolumeDefinitions_List (s : VDMap) (rdName : string) : list VolumeDefinition :=
  merge_sort (le_onZ vd_VolumeNumber)
    (filter (fun kv => FoldName kv.1.1 = FoldName rdName) (map_to_list s)).*2.

Definition VolumeDefinitions_ListAll (s : VDMap) : gmap string (list VolumeDefinition) :=
  merge_sort (le_onZ vd_VolumeNumber) <$>
    foldr (fun kv out => let key := FoldName kv.1.1 in
                         <[key := kv.2 :: default [] (out !! key)]> out) ∅ (map_to_list s).

Definition VolumeDefinitions_Get (s : VDMap) (rdName : string) (n : Z) := kv_get s (rdName, n).
Definition VolumeDefinitions_Create (s : VDMap) (rdName : string) (vd : option VolumeDefinition) :=
  kv_create s (fun v => (rdName, vd_VolumeNumber v)) vd.

(** The volume numbers in use under [rdName]. *)
Definition used_numbers (s : VDMap) (rdName : string) : gset Z :=
  list_to_set (filter (fun k => k.1 = rdName) (map_to_list s).*1).*2.

(** [for assigned = 0; used[assigned]; assigned++] with an [int32] counter. *)
Fixpoint first_hole (fuel : nat) (used : gset Z) (assigned : Z) : option Z :=
  match fuel with
  | O => None
  | S f => if bool_decide (assigned ∈ used) then first_hole f used (wrap32 (assigned + 1))
           else Some assigned
  end.

Definition VolumeDefinitions_CreateAutoNumbered (s : VDMap) (rdName : string)
    (vd : option VolumeDefinition) : option (result store_err (Z * VDMap)) :=
  match vd with
  | None => Some (Err ErrNil)
  | Some v =>
      let used := used_numbers s rdName in
      match first_hole (S (size used)) used 0 with
      | None => None
      | Some assigned =>
          Some (Ok (assigned, <[(rdName, assigned) := with_vd_VolumeNumber v assigned]> s))
      end
  end.

Definition VolumeDefinitions_Update (s : VDMap) (rdName : string) (vd : option VolumeDefinition) :=
  kv_update s (fun v => (rdName, vd_VolumeNumber v)) overwrite vd.
Definition VolumeDefinitions_PatchSpec (s : VDMap) (rdName : string) (n : Z)
    (mutate : option (VolumeDefinition -> result store_err VolumeDefinition)) :=
  kv_patch s (rdName, n) replace_row mutate.
Definition VolumeDefinitions_Delete (s : VDMap) (rdName : string) (n : Z) := kv_delete s (rdName, n).

(** ** Snapshots *)

Notation SnapMap := (gmap (string * string) Snapshot) (only parsing).

Definition snapKey (s : Snapshot) : string * string := (snap_ResourceName s, snap_Name s).

Definition with_snap_Props_Annotations (s : Snapshot) (p : gmap string string)
    (a : option (gmap string string)) : Snapshot :=
  mkSnapshot (snap_Name s) (snap_ResourceName s) (snap_Nodes s) p a (snap_Flags s)
    (snap_VolumeDefinitions s) (snap_Snapshots s) (snap_SnapshotDefinitionProps s)
    (snap_ResourceDefinitionProps s) (snap_UUID s) (snap_GroupID s) (snap_GroupSize s).
Definition snap_carry (prev next : Snapshot) : Snapshot :=
  with_snap_Props_Annotations next (snap_Props next)
    (carryAnnotationsOnNil (snap_Annotations next) (snap_Annotations prev)).

Definition Snapshots_List (s : SnapMap) : list Snapshot :=
  merge_sort (le_on2 snap_ResourceName snap_Name) (kv_values s).
Definition Snapshots_ListByDefinition (s : SnapMap) (rdName : string) : list Snapshot :=
  merge_sort (le_on snap_Name) (filter (fun x => snap_ResourceName x = rdName) (kv_values s)).
Definition Snapshots_Get (s : SnapMap) (rdName snapName : string) := kv_get s (rdName, snapName).
Definition Snapshots_Create (s : SnapMap) (x : option Snapshot) := kv_create s snapKey x.
Definition Snapshots_Update (s : SnapMap) (x : option Snapshot) :=
  kv_update s snapKey (fun prev next => Ok (snap_carry prev next)) x.
Definition Snapshots_PatchSnapshotProps (s : SnapMap) (rdName snapName : string)
    (mutate : gmap string string -> result store_err (gmap string string)) :=
  kv_patch s (rdName, snapName) replace_row
    (Some (fun x => match mutate (snap_Props x) with
                    | Ok p => Ok (with_snap_Props_Annotations x p (snap_Annotations x))
                    | Err e => Err e
                    end)).
Definition Snapshots_Delete (s : SnapMap) (rdName snapName : string) := kv_delete s (rdName, snapName).

(** ** Physical devices *)

Notation PDMap := (gmap string PhysicalDevice) (only parsing).

Definition PhysicalDevices_List (s : PDMap) : list PhysicalDevice :=
  merge_sort (le_on pd_Name) (kv_values s).
Definition PhysicalDevices_ListForNode (s : PDMap) (node : string) : list PhysicalDevice :=
  merge_sort (le_on pd_Name) (filter (fun d => pd_NodeName d = node) (kv_values s)).
Definition PhysicalDevices_Get (s : PDMap) (name : string) := kv_get s name.
Definition PhysicalDevices_Create (s : PDMap) (d : option PhysicalDevice) := kv_create s pd_Name d.

(** The compare-and-set guard of the attach race. *)
Definition pd_attach_guard (existing dev : PhysicalDevice) : result store_err PhysicalDevice :=
  match pd_AttachTo dev, pd_AttachTo existing with
  | Some _, Some _ => Err ErrAlreadyExists
  | _, _ => Ok dev
  end.
Definition PhysicalDevices_Update (s : PDMap) (d : option PhysicalDevice) :=
  kv_update s pd_Name pd_attach_guard d.
Definition PhysicalDevices_PatchSpec (s : PDMap) (name : string)
    (mutate : option (PhysicalDevice -> result store_err PhysicalDevice)) :=
  kv_patch s name replace_row mutate.
Definition PhysicalDevices_Delete (s : PDMap) (name : string) := kv_delete s name.

(** ** The whole store *)

Record InMemory := mkInMemory {
  im_nodes : gmap string Node;
  im_storagePools : gmap (string * string) StoragePool;
  im_resourceGroups : gmap string ResourceGroup;
  im_resourceDefinitions : gmap string ResourceDefinition;
  im_resources : inMemoryResources;
  im_volumeDefinitions : gmap (string * Z) VolumeDefinition;
  im_snapshots : gmap (string * string) Snapshot;
  im_physicalDevices : gmap string PhysicalDevice;
  im_controllerProps : gmap string string;
  im_storagePoolDefinitions : gmap string StoragePoolDefinition;
}.

Definition NewInMemory : InMemory :=
  mkInMemory ∅ ∅ ∅ ∅ (mkInMemoryResources ∅ ∅) ∅ ∅ ∅ ∅ ∅.

Definition with_resources (s : InMemory) (r : inMemoryResources) : InMemory :=
  mkInMemory (im_nodes s) (im_storagePools s) (im_resourceGroups s) (im_resourceDefinitions s) r
    (im_volumeDefinitions s) (im_snapshots s) (im_physicalDevices s) (im_controllerProps s)
    (im_storagePoolDefinitions s).
Definition with_storagePools (s : InMemory) (p : gmap (string * string) StoragePool) : InMemory :=
  mkInMemory (im_nodes s) p (im_resourceGroups s) (im_resourceDefinitions s) (im_resources s)
    (im_volumeDefinitions s) (im_snapshots s) (im_physicalDevices s) (im_controllerProps s)
    (im_storagePoolDefinitions s).

(** ** The store as its clients see it

    [pkg/store/store.go] declares [Store] as an interface with two backends. The
    placement and teardown code calls only the methods below; it is modelled, and
    its theorems are proved, for any backend that satisfies [StoreLaws]. A method
    that can change the store returns the new state whether or not it failed. *)

Class StoreOps (S : Type) := {
  st_Nodes_List : S -> result store_err (list Node);
  st_StoragePools_List : S -> result store_err (list StoragePool);
  st_StoragePools_ListByNode : S -> string -> result store_err (list StoragePool);
  st_StoragePools_Get : S -> string -> string -> result store_err StoragePool;
  st_StoragePools_Delete : S -> string -> string -> result store_err unit * S;
  st_ResourceDefinitions_Get : S -> string -> result store_err ResourceDefinition;
  st_VolumeDefinitions_List : S -> string -> result store_err (list VolumeDefinition);
  st_ControllerProps_Get : S -> result store_err (gmap string string);
  st_Resources_List : S -> result store_err (list Resource);
  st_Resources_ListByDefinition : S -> string -> result store_err (list Resource);
  st_Resources_ListByNode : S -> string -> result store_err (list Resource);
  st_Resources_Create : S -> Resource -> result store_err unit * S;
  st_Resources_PatchResourceSpec :
    S -> string -> string -> (Resource -> result store_err Resource) -> result store_err unit * S;
  st_Resources_Delete : S -> string -> string -> result store_err unit * S;
}.

(** What a backend promises, in terms of an abstract table of replicas (keyed by
    definition and node) and of storage pools, in every state that satisfies its
    invariant [st_ok]. Reads may fail; a failed write changes neither table. *)
Class StoreLaws (S : Type) `{StoreOps S} := {
  st_ok : S -> Prop;
  st_table : S -> gmap (string * string) Resource;
  st_pools : S -> gmap (string * string) StoragePool;
  st_table_wf s : st_ok s -> kv_wf rKey (st_table s);
  st_pools_wf s : st_ok s -> kv_wf spKey (st_pools s);
  st_list_law s l : st_ok s -> st_Resources_List s = Ok l -> l ≡ₚ kv_values (st_table s);
  st_byDefinition_law s rd l : st_ok s ->
    st_Resources_ListByDefinition s rd = Ok l ->
    l ≡ₚ filter (fun r => res_Name r = rd) (kv_values (st_table s));
  st_byNode_law s node l : st_ok s ->
    st_Resources_ListByNode s node = Ok l ->
    l ≡ₚ filter (fun r => res_NodeName r = node) (kv_values (st_table s));
  st_poolsByNode_law s node l : st_ok s ->
    st_StoragePools_ListByNode s node = Ok l ->
    spKey <$> l ≡ₚ spKey <$> filter (fun p => sp_NodeName p = node) (kv_values (st_pools s));
  st_create_law s r : st_ok s ->
    match st_Resources_Create s r with
    | (Ok _, s') => st_ok s' /\ st_pools s' = st_pools s /\ st_table s !! rKey r = None
                    /\ st_table s' = <[rKey r := r]> (st_table s)
    | (Err e, s') => st_ok s' /\ st_pools s' = st_pools s /\ st_table s' = st_table s
                     /\ (e = ErrAlreadyExists -> is_Some (st_table s !! rKey r))
    end;
  st_patch_law s rd node f : st_ok s ->
    (forall r r', f r = Ok r' -> rKey r' = rKey r) ->
    match st_Resources_PatchResourceSpec s rd node f with
    | (Ok _, s') => st_ok s' /\ st_pools s' = st_pools s /\
                    exists r r', st_table s !! (rd, node) = Some r /\ f r = Ok r'
                      /\ st_table s' = <[(rd, node) := res_carry r r']> (st_table s)
    | (Err e, s') => st_ok s' /\ st_pools s' = st_pools s /\ st_table s' = st_table s
                     /\ (e = ErrNotFound ->
                         st_table s !! (rd, node) = None \/ exists r, f r = Err ErrNotFound)
    end;
  st_delete_law s rd node : st_ok s ->
    match st_Resources_Delete s rd node with
    | (Ok _, s') => st_ok s' /\ st_pools s' = st_pools s
                    /\ st_table s' = delete (rd, node) (st_table s)
    | (Err e, s') => st_ok s' /\ st_pools s' = st_pools s /\ st_table s' = st_table s
                     /\ (e = ErrNotFound -> st_table s !! (rd, node) = None)
    end;
  st_poolDelete_law s node pool : st_ok s ->
    match st_StoragePools_Delete s node pool with
    | (Ok _, s') => st_ok s' /\ st_table s' = st_table s
                    /\ st_pools s' = delete (node, pool) (st_pools s)
    | (Err e, s') => st_ok s' /\ st_table s' = st_table s /\ st_pools s' = st_pools s
                     /\ (e = ErrNotFound -> st_pools s !! (node, pool) = None)
    end;
}.

(** A backend none of whose calls fails spuriously: reads answer, a create fails
    only on a taken key, a patch or delete only on a missing one. *)
Class StoreReliable (S : Type) `{StoreLaws S} := {
  rel_Nodes_List s : exists l, st_Nodes_List s = Ok l;
  rel_StoragePools_List s : exists l, st_StoragePools_List s = Ok l;
  rel_StoragePools_ListByNode s node : exists l, st_StoragePools_ListByNode s node = Ok l;
  rel_VolumeDefinitions_List s rd : exists l, st_VolumeDefinitions_List s rd = Ok l;
  rel_ControllerProps_Get s : exists m, st_ControllerProps_Get s = Ok m;
  rel_Resources_List s : exists l, st_Resources_List s = Ok l;
  rel_Resources_ListByDefinition s rd : exists l, st_Resources_ListByDefinition s rd = Ok l;
  rel_Resources_ListByNode s node : exists l, st_Resources_ListByNode s node = Ok l;
  rel_create s r e s' : st_Resources_Create s r = (Err e, s') -> e = ErrAlreadyExists;
  rel_patch s rd node f e s' :
    st_Resources_PatchResourceSpec s rd node f = (Err e, s') ->
    e = ErrNotFound \/ exists r, f r = Err e;
  rel_delete s rd node e s' : st_Resources_Delete s rd node = (Err e, s') -> e = ErrNotFound;
  rel_poolDelete s node pool e s' :
    st_StoragePools_Delete s node pool = (Err e, s') -> e = ErrNotFound;
}.

(** *** The in-memory store as an instance *)

Section InMemoryInstance.
Context {U : UuidLib}.

Definition im_commit (s : InMemory) (r : result store_err inMemoryResources)
    : result store_err unit * InMemory :=
  match r with
  | Ok rs => (Ok tt, with_resources s rs)
  | Err e => (Err e, s)
  end.

#[export] Instance InMemory_ops : StoreOps InMemory := {|
  st_Nodes_List s := Ok (Nodes_List (im_nodes s));
  st_StoragePools_List s := Ok (StoragePools_List (im_storagePools s));
  st_StoragePools_ListByNode s node := Ok (StoragePools_ListByNode (im_storagePools s) node);
  st_StoragePools_Get s node pool := StoragePools_Get (im_storagePools s) node pool;
  st_StoragePools_Delete s node pool :=
    match StoragePools_Delete (im_storagePools s) node pool with
    | Ok p => (Ok tt, with_storagePools s p)
    | Err e => (Err e, s)
    end;
  st_ResourceDefinitions_Get s name := ResourceDefinitions_Get (im_resourceDefinitions s) name;
  st_VolumeDefinitions_List s rd := Ok (VolumeDefinitions_List (im_volumeDefinitions s) rd);
  st_ControllerProps_Get s := Ok (ControllerProps_Get (im_controllerProps s));
  st_Resources_List s := Ok (Resources_List (im_resources s));
  st_Resources_ListByDefinition s rd := Ok (Resources_ListByDefinition (im_resources s) rd);
  st_Resources_ListByNode s node := Ok (Resources_ListByNode (im_resources s) node);
  st_Resources_Create s r := im_commit s (Resources_Create (im_resources s) (Some r));
  st_Resources_PatchResourceSpec s rd node f :=
    im_commit s (Resources_PatchResourceSpec (im_resources s) rd node (Some f));
  st_Resources_Delete s rd node := im_commit s (Resources_Delete (im_resources s) rd node);
|}.

Definition im_ok (s : InMemory) : Prop :=
  kv_wf rKey (res_m (im_resources s)) /\ kv_wf spKey (im_storagePools s).

Lemma rKey_carry prev next : rKey (res_carry prev next) = rKey next.
Proof. done. Qed.

Lemma spKey_derived sp : spKey (withDerivedState sp) = spKey sp.
Proof. done. Qed.

#[export] Instance InMemory_laws : StoreLaws InMemory.
Proof.
  refine {| st_ok := im_ok; st_table s := res_m (im_resources s);
            st_pools := im_storagePools |}.
  - by intros s [].
  - by intros s [].
  - intros s l _ [= <-]. apply merge_sort_Permutation.
  - intros s rd l _ [= <-]. apply merge_sort_Permutation.
  - intros s node l _ [= <-]. apply merge_sort_Permutation.
  - intros s node l _ [= <-]. unfold StoragePools_ListByNode.
    rewrite merge_sort_Permutation, <- list_fmap_compose. done.
  - intros s r [Hr Hp]. cbn. unfold Resources_Create.
    destruct (kv_create _ _ _) as [m|e] eqn:E; cbn.
    + pose proof (kv_create_wf _ _ _ _ Hr E). cbn in E. repeat case_match; by simplify_eq.
    + cbn in E. repeat case_match; by simplify_eq.
  - intros s rd node f [Hr Hp] Hf. cbn. unfold Resources_PatchResourceSpec.
    destruct (kv_patch _ _ _ _) as [m|e] eqn:E; cbn.
    + pose proof E as E'. eapply kv_patch_wf in E'; [|apply rKey_carry|naive_solver|done].
      unfold kv_patch in E. repeat case_match; simplify_eq.
      split; [by split|]. split; [done|]. eauto.
    + split; [done|]. split; [done|]. split; [done|]. intros ->.
      unfold kv_patch in E. repeat case_match; simplify_eq; eauto.
  - intros s rd node [Hr Hp]. cbn. unfold Resources_Delete.
    destruct (kv_delete _ _) as [m|e] eqn:E; cbn.
    + pose proof (kv_delete_wf _ _ _ _ Hr E). unfold kv_delete in E. case_match; by simplify_eq.
    + unfold kv_delete in E. case_match; by simplify_eq.
  - intros s node pool [Hr Hp]. cbn. unfold StoragePools_Delete.
    destruct (kv_delete _ _) as [m|e] eqn:E; cbn.
    + pose proof (kv_delete_wf _ _ _ _ Hp E). unfold kv_delete in E. case_match; by simplify_eq.
    + unfold kv_delete in E. case_match; by simplify_eq.
Defined.

#[export] Instance InMemory_reliable : StoreReliable InMemory.
Proof.
  constructor; try (intros; eexists; reflexivity).
  - intros s r e s'. cbn. unfold Resources_Create, kv_create. kv_cases.
  - intros s rd node f e s'. cbn. unfold Resources_PatchResourceSpec, kv_patch.
    kv_cases.
  - intros s rd node e s'. cbn. unfold Resources_Delete, kv_delete. kv_cases.
  - intros s node pool e s'. cbn. unfold StoragePools_Delete, kv_delete. kv_cases.
Qed.

End InMemoryInstance.
