(* ===== verification/StoreProps.v ===== *)
(** * Properties of the in-memory store

    Rule induction over the replica table's operations (every row stays under its
    own key, listings are complete and sorted, point reads agree with listings),
    the annotation contract of [Update] and [Patch], volume-number allocation, the
    witness delete/promote race, the attach compare-and-set, and the agreement of
    the per-definition and bulk volume listings. *)

From S2P Require Import Prelude Api Store.

(** ** The replica table as a transition system *)

(** One call of a mutating method of [inMemoryResources] that succeeds. A patch
    closure may edit anything but the replica's identity. *)
Inductive res_step (s : inMemoryResources) : inMemoryResources -> Prop :=
| step_create r s' : Resources_Create s (Some r) = Ok s' -> res_step s s'
| step_update r s' : Resources_Update s (Some r) = Ok s' -> res_step s s'
| step_patch rd node f s' :
    (forall r r', f r = Ok r' -> rKey r' = rKey r) ->
    Resources_PatchResourceSpec s rd node (Some f) = Ok s' -> res_step s s'
| step_delete rd node s' : Resources_Delete s rd node = Ok s' -> res_step s s'
| step_delete_tb rd node : res_step s (Resources_DeleteIfTieBreaker s rd node).2
| step_set_state rd node st vols s' :
    Resources_SetState s rd node st vols = Ok s' -> res_step s s'
| step_clear_port rd node s' : Resources_ClearDRBDPort s rd node = Ok s' -> res_step s s'.

Definition res_empty : inMemoryResources := mkInMemoryResources ∅ ∅.
Definition res_reachable : inMemoryResources -> Prop := rtc res_step res_empty.

Lemma lift_res_Ok s r s' :
  lift_res s r = Ok s' -> exists m, r = Ok m /\ s' = mkInMemoryResources m (res_volStates s).
Proof. destruct r; cbn; naive_solver. Qed.

Lemma res_step_wf s s' : kv_wf rKey (res_m s) -> res_step s s' -> kv_wf rKey (res_m s').
Proof.
  intros Hwf. destruct 1 as [r s' E|r s' E|rd node f s' Hf E|rd node s' E|rd node
                            |rd node st vols s' E|rd node s' E].
  - apply lift_res_Ok in E as (m & E & ->). eauto.
  - apply lift_res_Ok in E as (m & E & ->). eapply kv_update_wf; [|done|done].
    by intros prev next r' [= <-].
  - apply lift_res_Ok in E as (m & E & ->). eapply kv_patch_wf; [..|done|done]; naive_solver.
  - apply lift_res_Ok in E as (m & E & ->). eauto.
  - unfold Resources_DeleteIfTieBreaker. repeat case_match; cbn; try done.
    by apply map_Forall_delete.
  - unfold Resources_SetState in E. destruct (res_m s !! (rd, node)) as [r|] eqn:Hr; [|done].
    simplify_eq; cbn. apply map_Forall_insert_2; [|done]. exact (Hwf _ _ Hr).
  - apply lift_res_Ok in E as (m & E & ->). eapply kv_patch_wf; [..|done|done]; naive_solver.
Qed.

Lemma res_reachable_wf s : res_reachable s -> kv_wf rKey (res_m s).
Proof.
  unfold res_reachable. intros H.
  assert (kv_wf rKey (res_m res_empty)) as H0 by apply map_Forall_empty.
  revert H0. induction H as [|s1 s2 s3 Hs _ IH]; eauto using res_step_wf.
Qed.

(** In every state the replica table can reach, reads agree: a replica is
    returned by [Get] for a (definition, node) pair exactly when the full listing
    holds it under that name and node; the per-definition and per-node listings
    hold exactly the matching rows of the full listing; and the full listing is
    sorted by (definition, node) with no pair twice. *)
Theorem Resources_reads_agree s :
  res_reachable s ->
  (forall rd node r, Resources_Get s rd node = Ok r
     <-> r ∈ Resources_List s /\ res_Name r = rd /\ res_NodeName r = node)
  /\ (forall rd r, r ∈ Resources_ListByDefinition s rd <-> r ∈ Resources_List s /\ res_Name r = rd)
  /\ (forall node r, r ∈ Resources_ListByNode s node <-> r ∈ Resources_List s /\ res_NodeName r = node)
  /\ Sorted (le_on2 res_Name res_NodeName) (Resources_List s)
  /\ NoDup (rKey <$> Resources_List s).
Proof.
  intros Hwf%res_reachable_wf.
  assert (forall r, r ∈ Resources_List s <-> r ∈ kv_values (res_m s)) as Hl.
  { intros r. unfold Resources_List. by rewrite merge_sort_Permutation. }
  split; [|split; [|split; [|split]]].
  - intros rd node r. rewrite Hl, elem_of_kv_values. unfold Resources_Get, kv_get. split.
    + destruct (res_m s !! (rd, node)) eqn:E; [|done]. intros [= ->].
      specialize (Hwf _ _ E). unfold rKey in Hwf. simplify_eq. eauto.
    + intros ([k Hk] & <- & <-). rewrite <- (Hwf _ _ Hk) in Hk. unfold rKey in Hk. by rewrite Hk.
  - intros rd r. unfold Resources_ListByDefinition. rewrite elem_of_sorted_filter, Hl. tauto.
  - intros node r. unfold Resources_ListByNode. rewrite elem_of_sorted_filter, Hl. tauto.
  - apply Sorted_merge_sort. apply _.
  - unfold Resources_List. rewrite merge_sort_Permutation. by apply NoDup_kv_values_keys.
Qed.

Definition sample_replica : Resource :=
  mkResource "pvc-1" "n1" ∅ ["DISKLESS"; "TIE_BREAKER"] zero_ResourceState "" None None false [] ∅ 0.

Lemma Resources_reads_agree_witness :
  res_reachable (mkInMemoryResources {[("pvc-1", "n1") := sample_replica]} ∅)
  /\ NoDup (rKey <$> Resources_List (mkInMemoryResources {[("pvc-1", "n1") := sample_replica]} ∅)).
Proof.
  assert (res_reachable (mkInMemoryResources {[("pvc-1", "n1") := sample_replica]} ∅)) as H.
  { apply rtc_once. apply (step_create _ sample_replica). reflexivity. }
  split; [exact H|].
  destruct (Resources_reads_agree _ H) as (_ & _ & _ & _ & Hn). exact Hn.
Defined.

(** ** The witness delete/promote race *)

(** The store-level edit that turns a witness diskful. *)
Definition promote_edit (pool : string) (live : Resource) : result store_err Resource :=
  Ok (with_res_spec live (PromoteWitnessFlags (res_Flags live) true).1
        (<["StorPoolName" := pool]> (res_Props live))).

Lemma promote_not_tiebreaker flags want : ResourceFlagTieBreaker ∉ (PromoteWitnessFlags flags want).1.
Proof.
  induction flags as [|f flags IH]; cbn; [apply not_elem_of_nil|].
  destruct (PromoteWitnessFlags flags want) as [keep was]; cbn in IH |- *.
  repeat case_bool_decide; cbn; try done; destruct want; cbn; try done;
    rewrite not_elem_of_cons; auto.
Qed.

(** The witness garbage collector never deletes a replica that a promote has
    turned diskful, in either order: after a promote the conditional delete is a
    no-op on that replica, a conditional delete removes a row only while it carries
    TIE_BREAKER and no other row, and a promote that comes after it finds nothing. *)
Theorem DeleteIfTieBreaker_race s rd node pool :
  (forall s', Resources_PatchResourceSpec s rd node (Some (promote_edit pool)) = Ok s' ->
     Resources_DeleteIfTieBreaker s' rd node = (false, s'))
  /\ (forall s', Resources_DeleteIfTieBreaker s rd node = (true, s') ->
       (exists r, res_m s !! (rd, node) = Some r /\ ResourceFlagTieBreaker ∈ res_Flags r)
       /\ res_m s' = delete (rd, node) (res_m s)
       /\ Resources_PatchResourceSpec s' rd node (Some (promote_edit pool)) = Err ErrNotFound)
  /\ (forall s', Resources_DeleteIfTieBreaker s rd node = (false, s') -> s' = s).
Proof.
  split; [|split].
  - intros s' E. apply lift_res_Ok in E as (m & E & ->).
    unfold kv_patch in E. destruct (res_m s !! (rd, node)) as [r|]; [|done].
    cbn in E. simplify_eq. unfold Resources_DeleteIfTieBreaker; cbn [res_m].
    rewrite lookup_insert_eq. cbn [res_carry with_res_Annotations with_res_spec res_Flags].
    rewrite (proj2 (Contains_false _ _)); [done|]. apply promote_not_tiebreaker.
  - intros s'. unfold Resources_DeleteIfTieBreaker.
    destruct (res_m s !! (rd, node)) as [r|] eqn:Hr; [|done].
    destruct (Contains _ _) eqn:Hc; [|done]. intros [= <-]. apply Contains_true in Hc.
    split; [eauto|]. split; [done|]. unfold Resources_PatchResourceSpec, kv_patch; cbn.
    by rewrite lookup_delete_eq.
  - intros s'. unfold Resources_DeleteIfTieBreaker. kv_cases.
Qed.

Lemma DeleteIfTieBreaker_race_witness :
  exists s', Resources_PatchResourceSpec
      (mkInMemoryResources {[("pvc-1", "n1") := sample_replica]} ∅) "pvc-1" "n1"
      (Some (promote_edit "zfs-thin")) = Ok s'
    /\ Resources_DeleteIfTieBreaker s' "pvc-1" "n1" = (false, s').
Proof.
  eexists. split; [reflexivity|].
  destruct (DeleteIfTieBreaker_race
    (mkInMemoryResources {[("pvc-1", "n1") := sample_replica]} ∅) "pvc-1" "n1" "zfs-thin")
    as (H & _). apply H. reflexivity.
Defined.

(** ** Annotations *)

(** What a write leaves in the annotation field: nil keeps, a map replaces. *)
Definition annotation_contract {V} (ann : V -> option (gmap string string)) (prev given stored : V) :=
  (ann given = None -> ann stored = ann prev) /\ (ann given <> None -> ann stored = ann given).

Lemma carry_contract {V} (ann : V -> option (gmap string string)) prev given stored :
  ann stored = carryAnnotationsOnNil (ann given) (ann prev) ->
  annotation_contract ann prev given stored.
Proof.
  intros E. unfold annotation_contract. rewrite E. unfold carryAnnotationsOnNil.
  by destruct (ann given).
Qed.

(** In all four annotated sub-stores, a whole-row update or a patch closure
    that leaves the annotations nil keeps the stored ones, and one that hands in a
    map, the empty one included, replaces them; a definition's decided layer stack
    is never emptied by an update. *)
Theorem annotation_contract_everywhere :
  (forall (s : gmap string ResourceGroup) g s', ResourceGroups_Update s (Some g) = Ok s' ->
     exists prev stored, s !! rg_Name g = Some prev /\ s' !! rg_Name g = Some stored
       /\ annotation_contract rg_Annotations prev g stored)
  /\ (forall (s : gmap string ResourceDefinition) d s', ResourceDefinitions_Update s (Some d) = Ok s' ->
       exists prev stored, s !! rd_Name d = Some prev /\ s' !! rd_Name d = Some stored
         /\ annotation_contract rd_Annotations prev d stored
         /\ (rd_LayerStack prev <> [] -> rd_LayerStack stored <> []))
  /\ (forall s r s', Resources_Update s (Some r) = Ok s' ->
       exists prev stored, res_m s !! rKey r = Some prev /\ res_m s' !! rKey r = Some stored
         /\ annotation_contract res_Annotations prev r stored)
  /\ (forall (s : gmap (string * string) Snapshot) x s', Snapshots_Update s (Some x) = Ok s' ->
       exists prev stored, s !! snapKey x = Some prev /\ s' !! snapKey x = Some stored
         /\ annotation_contract snap_Annotations prev x stored)
  /\ (forall s rd node f s', Resources_PatchResourceSpec s rd node (Some f) = Ok s' ->
       exists prev edited stored, res_m s !! (rd, node) = Some prev /\ f prev = Ok edited
         /\ res_m s' !! (rd, node) = Some stored
         /\ annotation_contract res_Annotations prev edited stored).
Proof.
  split; [|split; [|split; [|split]]].
  - intros s g s'. unfold ResourceGroups_Update, kv_update. kv_cases.
    do 2 eexists. split; [done|]. rewrite lookup_insert_eq. split; [done|]. by apply carry_contract.
  - intros s d s'. unfold ResourceDefinitions_Update, kv_update. kv_cases.
    do 2 eexists. split; [done|]. rewrite lookup_insert_eq. split; [done|].
    split; [by apply carry_contract|]. cbn. by destruct (rd_LayerStack d).
  - intros s r s' E. apply lift_res_Ok in E as (m & E & ->). unfold kv_update in E.
    destruct (res_m s !! rKey r) as [prev|] eqn:Hp; simplify_eq; cbn [res_m].
    exists prev, (res_carry prev r). rewrite lookup_insert_eq. by split_and!; [| |apply carry_contract].
  - intros s x s'. unfold Snapshots_Update, kv_update. kv_cases.
    do 2 eexists. split; [done|]. rewrite lookup_insert_eq. split; [done|]. by apply carry_contract.
  - intros s rd node f s' E. apply lift_res_Ok in E as (m & E & ->). unfold kv_patch in E.
    destruct (res_m s !! (rd, node)) as [prev|] eqn:Hp; [|done].
    destruct (f prev) as [edited|] eqn:Hf; simplify_eq; cbn [res_m].
    exists prev, edited, (res_carry prev edited). rewrite lookup_insert_eq.
    by split_and!; [| | |apply carry_contract].
Qed.

Lemma annotation_contract_everywhere_witness :
  exists prev stored,
    res_m (mkInMemoryResources {[("pvc-1", "n1") := sample_replica]} ∅) !! rKey sample_replica = Some prev
    /\ res_m (mkInMemoryResources {[("pvc-1", "n1") := sample_replica]} ∅) !! rKey sample_replica
         = Some stored
    /\ annotation_contract res_Annotations prev sample_replica stored.
Proof.
  destruct annotation_contract_everywhere as (_ & _ & H & _).
  apply (H (mkInMemoryResources {[("pvc-1", "n1") := sample_replica]} ∅) sample_replica
           (mkInMemoryResources {[("pvc-1", "n1") := sample_replica]} ∅)).
  vm_compute. reflexivity.
Defined.

(** ** Volume numbers *)

Lemma elem_of_used_numbers (s : gmap (string * Z) VolumeDefinition) rd n :
  n ∈ used_numbers s rd <-> is_Some (s !! (rd, n)).
Proof.
  unfold used_numbers. rewrite elem_of_list_to_set, list_elem_of_fmap. split.
  - intros ([rd' n'] & -> & [Hrd Hin]%list_elem_of_filter).
    apply list_elem_of_fmap in Hin as ([k v] & Hk & Hin). apply elem_of_map_to_list in Hin.
    simplify_eq/=. eauto.
  - intros [v Hv]. exists (rd, n). split; [done|]. apply list_elem_of_filter. split; [done|].
    apply list_elem_of_fmap. exists ((rd, n), v). split; [done|]. by apply elem_of_map_to_list.
Qed.

Lemma first_hole_found used p n i fuel :
  p = i + Z.of_nat n -> 0 <= i -> p <= MaxInt32 ->
  (forall q, i <= q < p -> q ∈ used) -> p ∉ used -> (n < fuel)%nat ->
  first_hole fuel used i = Some p.
Proof.
  revert i fuel; induction n as [|n IH]; intros i [|fuel] Hp Hi Hmax Hq Hfree Hf; try lia; cbn.
  - assert (p = i) as -> by lia. by rewrite bool_decide_eq_false_2.
  - rewrite bool_decide_eq_true_2 by (apply Hq; lia).
    rewrite wrap32_id by (unfold is_int32, MinInt32, MaxInt32 in *; lia).
    apply IH; try lia; try done. intros; apply Hq; lia.
Qed.

(** Auto-numbering always terminates with the smallest free volume number of
    the definition (VDs 0 and 2 present give 1), files the volume there with that
    number stamped on it, and touches no existing volume; it holds as long as the
    definition has fewer than 2^31 volumes. *)
Theorem CreateAutoNumbered_least (s : gmap (string * Z) VolumeDefinition) rdName v :
  Z.of_nat (size (used_numbers s rdName)) <= MaxInt32 ->
  exists n, VolumeDefinitions_CreateAutoNumbered s rdName (Some v)
              = Some (Ok (n, <[(rdName, n) := with_vd_VolumeNumber v n]> s))
    /\ 0 <= n <= MaxInt32
    /\ s !! (rdName, n) = None
    /\ (forall j, 0 <= j < n -> is_Some (s !! (rdName, j))).
Proof.
  intros Hsz. unfold VolumeDefinitions_CreateAutoNumbered. set (used := used_numbers s rdName) in *.
  destruct (least_free_or_full used 0 (S (size used))) as [(p & Hp & Hfree & Hl) | Hall].
  - exists p. assert (exists m, p = 0 + Z.of_nat m) as [m Hm] by (exists (Z.to_nat p); lia).
    rewrite (first_hole_found used p m 0) by (try lia; try done).
    split; [done|]. split; [lia|]. split.
    + apply eq_None_not_Some. by rewrite <- elem_of_used_numbers.
    + intros j Hj. by apply elem_of_used_numbers, Hl.
  - apply interval_size in Hall. lia.
Qed.

Definition sample_vd (n : Z) : VolumeDefinition := mkVolumeDefinition n 1048576 ∅ [] "".
Definition sample_vds : gmap (string * Z) VolumeDefinition :=
  {[("pvc-1", 0) := sample_vd 0; ("pvc-1", 2) := sample_vd 2]}.

Lemma CreateAutoNumbered_least_witness :
  Z.of_nat (size (used_numbers sample_vds "pvc-1")) <= MaxInt32
  /\ exists n, VolumeDefinitions_CreateAutoNumbered sample_vds "pvc-1" (Some (sample_vd 9))
              = Some (Ok (n, <[("pvc-1", n) := with_vd_VolumeNumber (sample_vd 9) n]> sample_vds))
    /\ 0 <= n <= MaxInt32
    /\ sample_vds !! ("pvc-1", n) = None
    /\ (forall j, 0 <= j < n -> is_Some (sample_vds !! ("pvc-1", j))).
Proof.
  assert (Z.of_nat (size (used_numbers sample_vds "pvc-1")) <= MaxInt32) as H
    by (vm_compute; discriminate).
  split; [exact H|]. apply (CreateAutoNumbered_least sample_vds "pvc-1" (sample_vd 9) H).
Defined.

(** ** The bulk and the per-definition volume listings *)

Lemma fold_by_key (l : list ((string * Z) * VolumeDefinition)) key :
  default [] (foldr (fun kv out => <[FoldName kv.1.1 := kv.2 :: default [] (out !! FoldName kv.1.1)]> out)
                (∅ : gmap string (list VolumeDefinition)) l !! key)
  = (filter (fun kv => FoldName kv.1.1 = key) l).*2.
Proof.
  induction l as [|[[rd n] v] l IH]; [done|]. cbn [foldr fst snd]. rewrite filter_cons; cbn [fst snd].
  case_decide as E.
  - subst. rewrite lookup_insert_eq; cbn. by rewrite IH.
  - by rewrite lookup_insert_ne by done.
Qed.

(** The bulk listing and the per-definition listing of volumes give the same
    volumes in the same order for every definition name, in whatever case the
    caller spells it. *)
Theorem VolumeDefinitions_listings_agree (s : gmap (string * Z) VolumeDefinition) rdName :
  default [] (VolumeDefinitions_ListAll s !! FoldName rdName) = VolumeDefinitions_List s rdName.
Proof.
  unfold VolumeDefinitions_ListAll, VolumeDefinitions_List. rewrite lookup_fmap.
  rewrite <- (fold_by_key (map_to_list s) (FoldName rdName)).
  by destruct (foldr _ _ _ !! _).
Qed.

(** ** The attach race *)

(** Of two attach requests for one physical device only the first is applied:
    once a device carries an attach request, every update that carries one is
    refused with "already exists" and the stored request stays; an update without
    one is accepted. *)
Theorem PhysicalDevices_attach_once (s : gmap string PhysicalDevice) d1 d2 s1 :
  pd_AttachTo d1 <> None -> pd_AttachTo d2 <> None -> pd_Name d2 = pd_Name d1 ->
  PhysicalDevices_Update s (Some d1) = Ok s1 ->
  s1 !! pd_Name d1 = Some d1
  /\ PhysicalDevices_Update s1 (Some d2) = Err ErrAlreadyExists
  /\ (forall d3, pd_Name d3 = pd_Name d1 -> pd_AttachTo d3 = None ->
       PhysicalDevices_Update s1 (Some d3) = Ok (<[pd_Name d1 := d3]> s1)).
Proof.
  intros H1 H2 Hn. unfold PhysicalDevices_Update, kv_update.
  destruct (s !! pd_Name d1) as [prev|]; [|done].
  unfold pd_attach_guard at 1. destruct (pd_AttachTo d1) as [a1|] eqn:E1; [|done].
  destruct (pd_AttachTo prev); [done|]. intros [= <-].
  rewrite Hn, lookup_insert_eq. split; [done|]. split.
  - unfold pd_attach_guard. rewrite E1. by destruct (pd_AttachTo d2).
  - intros d3 Hn3 H3. rewrite Hn3, lookup_insert_eq. unfold pd_attach_guard. by rewrite H3.
Qed.

Definition sample_dev (a : option PhysicalDeviceAttachTo) : PhysicalDevice :=
  mkPhysicalDevice "n1-wwn" "n1" "wwn" "" "" 0 "" "" None "" "Available" a None "" "".
Definition sample_attach (pool : string) : PhysicalDeviceAttachTo :=
  mkPhysicalDeviceAttachTo pool "ZFS" "" "" pool "" false.

Lemma PhysicalDevices_attach_once_witness :
  PhysicalDevices_Update {["n1-wwn" := sample_dev None]} (Some (sample_dev (Some (sample_attach "a"))))
    = Ok {["n1-wwn" := sample_dev (Some (sample_attach "a"))]}
  /\ PhysicalDevices_Update {["n1-wwn" := sample_dev (Some (sample_attach "a"))]}
       (Some (sample_dev (Some (sample_attach "b")))) = Err ErrAlreadyExists.
Proof.
  assert (PhysicalDevices_Update {["n1-wwn" := sample_dev None]}
            (Some (sample_dev (Some (sample_attach "a"))))
          = Ok {["n1-wwn" := sample_dev (Some (sample_attach "a"))]}) as H
    by (vm_compute; reflexivity).
  split; [exact H|].
  destruct (PhysicalDevices_attach_once _ (sample_dev (Some (sample_attach "a")))
    (sample_dev (Some (sample_attach "b"))) _ ltac:(discriminate) ltac:(discriminate)
    eq_refl H) as (_ & H2 & _). exact H2.
Defined.

(** ** Interface edits are not rolled back *)

(** Unlike every other patch, [PatchNetInterfaces] hands its mutator the stored
    slice: a mutator that edits it in place and then refuses gets its error back,
    and the edit stays in the store. *)
Theorem PatchNetInterfaces_leaks (s : gmap string Node) name node live e f :
  s !! name = Some node -> f (node_NetInterfaces node) = (live, Err e) ->
  Nodes_PatchNetInterfaces s name (Some f)
    = (Err e, <[name := with_node_NetInterfaces node live]> s)
  /\ (live <> node_NetInterfaces node -> (Nodes_PatchNetInterfaces s name (Some f)).2 <> s).
Proof.
  intros Hs Hf. unfold Nodes_PatchNetInterfaces. rewrite Hs, Hf. split; [done|].
  intros Hne Heq. cbn in Heq. apply (f_equal (lookup name)) in Heq.
  rewrite lookup_insert_eq, Hs in Heq. injection Heq as Heq.
  apply (f_equal node_NetInterfaces) in Heq. done.
Qed.

Definition sample_iface (addr : string) : NetInterface :=
  mkNetInterface "" "default" addr 0 "" false.
Definition sample_node : Node :=
  mkNode "n1" "SATELLITE" "" [] ∅ [sample_iface "10.0.0.1"] "" [] [] None None.
Definition refusing_edit (l : list NetInterface)
    : list NetInterface * result store_err (list NetInterface) :=
  ((fun _ => sample_iface "10.9.9.9") <$> l, Err (ErrOther "refused")).

Definition sample_nodes : gmap string Node := {["n1" := sample_node]}.

Lemma PatchNetInterfaces_leaks_witness :
  Nodes_PatchNetInterfaces sample_nodes "n1" (Some refusing_edit)
    = (Err (ErrOther "refused"),
       <["n1" := with_node_NetInterfaces sample_node [sample_iface "10.9.9.9"]]> sample_nodes)
  /\ (Nodes_PatchNetInterfaces sample_nodes "n1" (Some refusing_edit)).2
       <> sample_nodes.
Proof.
  destruct (PatchNetInterfaces_leaks sample_nodes "n1" sample_node
    [sample_iface "10.9.9.9"] (ErrOther "refused") refusing_edit ltac:(vm_compute; reflexivity) eq_refl) as [H1 H2].
  split; [exact H1|]. apply H2. discriminate.
Defined.
