(* ===== verification/Cascade.v ===== *)
(** * Teardown of children: definitions and lost nodes

    Models [pkg/store/cascade.go] against the store interface ([StoreOps] /
    [StoreLaws] of [Store.v]): the retry-until-empty delete of a definition's
    replicas, the node-name spellings a node-scoped read is asked in, the reference
    walk a plain node delete is refused on, and the cascade of a forced one. *)

From S2P Require Import Prelude Api Store.

Section Model.
Context {S : Type} {Ops : StoreOps S}.

Definition is_not_found (e : store_err) : bool := bool_decide (e = ErrNotFound).

(** A delete loop: stops at the first error other than NotFound. *)
Fixpoint delete_each {T} (del : S -> T -> result store_err unit * S) (l : list T) (s : S)
    : result store_err unit * S :=
  match l with
  | [] => (Ok tt, s)
  | x :: rest =>
      match del s x with
      | (Err e, s') => if is_not_found e then delete_each del rest s' else (Err e, s')
      | (Ok _, s') => delete_each del rest s'
      end
  end.

Definition CascadeDeleteMaxPasses : nat := 5.

(** One to [CascadeDeleteMaxPasses] passes. [env i] is what other writers do to
    the store while pass [i] runs, taken after its deletes: the replicas they
    create are the ones the next listing finds. *)
Fixpoint cascade_passes (env : nat -> S -> S) (rdName : string) (i fuel : nat) (s : S)
    : result store_err unit * S :=
  match fuel with
  | O => (Ok tt, s)
  | Datatypes.S fuel' =>
      match st_Resources_ListByDefinition s rdName with
      | Err e => if is_not_found e then (Ok tt, s) else (Err e, s)
      | Ok [] => (Ok tt, s)
      | Ok children =>
          match delete_each (fun st c => st_Resources_Delete st rdName (res_NodeName c)) children s with
          | (Err e, s') => (Err e, s')
          | (Ok _, s') => cascade_passes env rdName (i + 1) fuel' (env i s')
          end
      end
  end.

Definition CascadeDeleteResources (env : nat -> S -> S) (rdName : string) (s : S) :=
  cascade_passes env rdName 0 CascadeDeleteMaxPasses s.

(** [NodeSpellings]: the caller's, the folded one, and every registered node name
    that folds to it, each once. *)
Definition add_spelling (l : list string) (x : string) : list string :=
  if Contains l x then l else l ++ [x].

Definition NodeSpellings (node : string) (s : S) : result store_err (list string) :=
  match st_Nodes_List s with
  | Err e => Err e
  | Ok nodes =>
      Ok (foldl (fun acc n => if bool_decide (FoldName (node_Name n) = FoldName node)
                              then add_spelling acc (node_Name n) else acc)
            (add_spelling [node] (FoldName node)) nodes)
  end.

(** [inEverySpelling]: each object once, by its folded name, first spelling wins. *)
Definition keep_new {T} (name : T -> string) (acc : list T * list string) (x : T)
    : list T * list string :=
  let key := FoldName (name x) in
  if bool_decide (key ∈ acc.2) then acc else (acc.1 ++ [x], key :: acc.2).

Fixpoint in_every_spelling {T} (read : string -> result store_err (list T)) (name : T -> string)
    (spellings : list string) (acc : list T * list string) : result store_err (list T) :=
  match spellings with
  | [] => Ok acc.1
  | sp :: rest =>
      match read sp with
      | Err e => Err e
      | Ok found => in_every_spelling read name rest (foldl (keep_new name) acc found)
      end
  end.

Definition inEverySpelling {T} (read : string -> result store_err (list T)) (name : T -> string)
    (spellings : list string) : result store_err (list T) :=
  in_every_spelling read name spellings ([], []).

Definition replicasUnder (spellings : list string) (s : S) : result store_err (list Resource) :=
  inEverySpelling (st_Resources_ListByNode s) res_Name spellings.

Definition poolsUnder (spellings : list string) (s : S) : result store_err (list StoragePool) :=
  inEverySpelling (st_StoragePools_ListByNode s) sp_StoragePoolName spellings.

Definition ReplicasOnNode (node : string) (s : S) : result store_err (list Resource) :=
  match NodeSpellings node s with
  | Err e => Err e
  | Ok spellings => replicasUnder spellings s
  end.

Definition CascadeOrphansForLostNode (node : string) (s : S) : result store_err unit * S :=
  match NodeSpellings node s with
  | Err e => (Err e, s)
  | Ok spellings =>
      match replicasUnder spellings s with
      | Err e => (Err e, s)
      | Ok resources =>
          match delete_each (fun st r => st_Resources_Delete st (res_Name r) (res_NodeName r))
                  resources s with
          | (Err e, s1) => (Err e, s1)
          | (Ok _, s1) =>
              match poolsUnder spellings s1 with
              | Err e => (Err e, s1)
              | Ok pools =>
                  delete_each (fun st p => st_StoragePools_Delete st (sp_NodeName p)
                                             (sp_StoragePoolName p)) pools s1
              end
          end
      end
  end.

Definition ReferencesUnderSpellings (spellings : list string) (s : S)
    : result store_err (list string * list string) :=
  match replicasUnder spellings s with
  | Err e => Err e
  | Ok resources =>
      let rscRefs := foldl (fun acc r => if Contains acc (res_Name r) then acc
                                         else acc ++ [res_Name r]) [] resources in
      match poolsUnder spellings s with
      | Err e => Err e
      | Ok pools =>
          let poolRefs := filter (fun p => p <> DfltDisklessStorPoolName)
                            (sp_StoragePoolName <$> pools) in
          Ok (merge_sort String.le rscRefs, merge_sort String.le poolRefs)
      end
  end.

Definition ReferencesOnNode (node : string) (s : S) : result store_err (list string * list string) :=
  match NodeSpellings node s with
  | Err e => Err e
  | Ok spellings => ReferencesUnderSpellings spellings s
  end.

End Model.

(** ** Lemmas *)

(** *** Reads in every spelling *)

Lemma keep_new_spec {T} (name : T -> string) found acc :
  acc.2 ≡ₚ (FoldName ∘ name <$> acc.1) ->
  let acc' := foldl (keep_new name) acc found in
  acc'.2 ≡ₚ (FoldName ∘ name <$> acc'.1)
  /\ (forall x, x ∈ acc'.1 -> x ∈ acc.1 \/ x ∈ found)
  /\ (forall x, x ∈ acc.1 -> x ∈ acc'.1)
  /\ (forall x, x ∈ found -> FoldName (name x) ∈ acc'.2).
Proof.
  revert acc. induction found as [|x found IH]; intros acc Hacc; cbn [foldl].
  - split; [done|]. set_solver.
  - assert ((keep_new name acc x).2 ≡ₚ (FoldName ∘ name <$> (keep_new name acc x).1)
            /\ (forall y, y ∈ (keep_new name acc x).1 -> y ∈ acc.1 \/ y = x)
            /\ (forall y, y ∈ acc.1 -> y ∈ (keep_new name acc x).1)
            /\ FoldName (name x) ∈ (keep_new name acc x).2) as (H1 & H2 & H3 & H4).
    { unfold keep_new. case_bool_decide as Hin; cbn [fst snd]; [set_solver|].
      split; [|set_solver]. rewrite fmap_app, Hacc. cbn. by rewrite Permutation_app_comm. }
    destruct (IH _ H1) as (K1 & K2 & K3 & K4). split; [done|]. split; [set_solver|].
    split; [set_solver|]. intros y [->|Hy]%elem_of_cons; [|auto].
    rewrite K1. rewrite H1 in H4. apply list_elem_of_fmap in H4 as (z & -> & Hz).
    apply list_elem_of_fmap. eauto.
Qed.

Lemma in_every_spelling_spec {T} (read : string -> result store_err (list T)) name spellings acc l :
  acc.2 ≡ₚ (FoldName ∘ name <$> acc.1) ->
  in_every_spelling read name spellings acc = Ok l ->
  (forall x, x ∈ l -> x ∈ acc.1 \/ exists sp found, sp ∈ spellings /\ read sp = Ok found /\ x ∈ found)
  /\ (forall x, x ∈ acc.1 -> x ∈ l)
  /\ (forall sp found x, sp ∈ spellings -> read sp = Ok found -> x ∈ found ->
        exists y, y ∈ l /\ FoldName (name y) = FoldName (name x)).
Proof.
  revert acc. induction spellings as [|sp spellings IH]; intros acc Hacc; cbn.
  - intros [= <-]. set_solver.
  - destruct (read sp) as [found|] eqn:Er; [|done]. intros Hl.
    destruct (keep_new_spec name found acc Hacc) as (H1 & H2 & H3 & H4).
    destruct (IH _ H1 Hl) as (K1 & K2 & K3). split; [|split].
    + intros x [Hx|(sp' & f' & ? & ? & ?)]%K1.
      * apply H2 in Hx as [Hx|Hx]; [by left|]. right. exists sp, found. set_solver.
      * right. exists sp', f'. set_solver.
    + auto.
    + intros sp' f' x [->|Hsp]%elem_of_cons Hr Hx; [|eauto].
      assert (f' = found) as -> by congruence. specialize (H4 x Hx). rewrite H1 in H4.
      apply list_elem_of_fmap in H4 as (y & Hy & Hin). exists y. split; [auto|]. done.
Qed.

Lemma inEverySpelling_spec {T} (read : string -> result store_err (list T)) name spellings l :
  inEverySpelling read name spellings = Ok l ->
  (forall x, x ∈ l -> exists sp found, sp ∈ spellings /\ read sp = Ok found /\ x ∈ found)
  /\ (forall sp found x, sp ∈ spellings -> read sp = Ok found -> x ∈ found ->
        exists y, y ∈ l /\ FoldName (name y) = FoldName (name x)).
Proof.
  intros Hl. apply (in_every_spelling_spec read name spellings ([], [])) in Hl as (H1 & _ & H3);
    [|done]. split; [|done]. intros x Hx. destruct (H1 x Hx) as [Hn|]; [|done].
  by apply not_elem_of_nil in Hn.
Qed.

Lemma inEverySpelling_total {T} (read : string -> result store_err (list T)) name spellings :
  (forall sp, exists l, read sp = Ok l) -> exists l, inEverySpelling read name spellings = Ok l.
Proof.
  intros Hr. unfold inEverySpelling. generalize (@nil T, @nil string) as acc.
  induction spellings as [|sp spellings IH]; intros acc; cbn; [eauto|].
  destruct (Hr sp) as [f ->]. apply IH.
Qed.

Section Facts.
#[local] Set Default Proof Using "Type*".
Context {S : Type} {Ops : StoreOps S} {Laws : StoreLaws S} {Rel : StoreReliable S}.

(** A delete loop over any table of the store: it succeeds, and removes exactly
    the keys of the list. *)
Lemma delete_each_spec {K V T} `{Countable K} (tab : S -> gmap K V) (key : T -> K)
    (Q : S -> Prop) (del : S -> T -> result store_err unit * S) :
  (forall s x, Q s -> exists r s', del s x = (r, s') /\ Q s'
     /\ tab s' = delete (key x) (tab s) /\ (r = Ok tt \/ r = Err ErrNotFound)) ->
  forall l s, Q s -> exists s', delete_each del l s = (Ok tt, s') /\ Q s'
    /\ forall k, tab s' !! k = if decide (k ∈ key <$> l) then None else tab s !! k.
Proof.
  intros Hdel l. induction l as [|x l IH]; intros s Hs; cbn [delete_each].
  - exists s. split; [done|]. split; [done|]. intros k. rewrite decide_False; [done|].
    apply not_elem_of_nil.
  - destruct (Hdel s x Hs) as (r & s1 & -> & Hs1 & Htab & Hr).
    destruct (IH s1 Hs1) as (s' & Hrun & Hs' & Hk).
    exists s'. split; [by destruct Hr as [-> | ->]|]. split; [done|].
    intros k. rewrite Hk, Htab, fmap_cons. repeat case_decide; set_unfold; try tauto.
    + assert (k = key x) as -> by tauto. by rewrite lookup_delete_eq.
    + rewrite lookup_delete_ne; [done|]. intros E; subst; tauto.
Qed.

Lemma replica_delete_step s rd node P0 :
  st_ok s /\ st_pools s = P0 ->
  exists r s', st_Resources_Delete s rd node = (r, s') /\ (st_ok s' /\ st_pools s' = P0)
    /\ st_table s' = delete (rd, node) (st_table s) /\ (r = Ok tt \/ r = Err ErrNotFound).
Proof.
  intros [Hok HP]. pose proof (st_delete_law s rd node Hok) as Hl.
  destruct (st_Resources_Delete s rd node) as [[[]|e] s'] eqn:E.
  - destruct Hl as (? & HP' & ?). exists (Ok tt), s'. rewrite HP', HP. auto 10.
  - destruct Hl as (? & HP' & Ht & Hnf). apply rel_delete in E as ->.
    exists (Err ErrNotFound), s'. rewrite HP', HP, delete_id by auto. auto 10.
Qed.

Lemma pool_delete_step s node pool T0 :
  st_ok s /\ st_table s = T0 ->
  exists r s', st_StoragePools_Delete s node pool = (r, s') /\ (st_ok s' /\ st_table s' = T0)
    /\ st_pools s' = delete (node, pool) (st_pools s) /\ (r = Ok tt \/ r = Err ErrNotFound).
Proof.
  intros [Hok HP]. pose proof (st_poolDelete_law s node pool Hok) as Hl.
  destruct (st_StoragePools_Delete s node pool) as [[[]|e] s'] eqn:E.
  - destruct Hl as (? & HP' & ?). exists (Ok tt), s'. rewrite HP', HP. auto 10.
  - destruct Hl as (? & HT' & Hp & Hnf). apply rel_poolDelete in E as ->.
    exists (Err ErrNotFound), s'. rewrite HT', HP, delete_id by auto. auto 10.
Qed.

(** The rows of a definition are the keys its listing gives. *)
Lemma byDefinition_keys s rd l node :
  st_ok s -> st_Resources_ListByDefinition s rd = Ok l ->
  is_Some (st_table s !! (rd, node)) <-> (rd, node) ∈ (fun c => (rd, res_NodeName c)) <$> l.
Proof.
  intros Hok Hl. apply st_byDefinition_law in Hl; [|done].
  rewrite list_elem_of_fmap. setoid_rewrite Hl. setoid_rewrite list_elem_of_filter.
  setoid_rewrite elem_of_kv_values. split.
  - intros [r Hr]. exists r. pose proof (st_table_wf s Hok _ _ Hr) as Hk.
    unfold rKey in Hk. simplify_eq. eauto.
  - intros (r & [= ->] & <- & [k Hk]). pose proof (st_table_wf s Hok _ _ Hk) as <-. eauto.
Qed.

Definition no_replica_of (rd : string) (s : S) : Prop :=
  forall node, st_table s !! (rd, node) = None.

Lemma cascade_pass s rd children :
  st_ok s -> st_Resources_ListByDefinition s rd = Ok children ->
  exists s', delete_each (fun st c => st_Resources_Delete st rd (res_NodeName c)) children s
               = (Ok tt, s') /\ st_ok s' /\ no_replica_of rd s'
    /\ forall rd' node, rd' <> rd -> st_table s' !! (rd', node) = st_table s !! (rd', node).
Proof.
  intros Hok Hl.
  destruct (delete_each_spec st_table (fun c => (rd, res_NodeName c))
    (fun s0 => st_ok s0 /\ st_pools s0 = st_pools s)
    (fun st c => st_Resources_Delete st rd (res_NodeName c))
    (fun s0 c Hs0 => replica_delete_step s0 rd (res_NodeName c) _ Hs0) children s)
    as (s' & Hrun & [Hok' _] & Hk); [done|].
  exists s'. split; [done|]. split; [done|]. split.
  - intros node. rewrite Hk. case_decide as Hin; [done|].
    apply eq_None_not_Some. by rewrite (byDefinition_keys s rd children).
  - intros rd' node Hne. rewrite Hk. rewrite decide_False; [done|].
    rewrite list_elem_of_fmap. naive_solver.
Qed.

Lemma no_replica_list s rd l :
  st_ok s -> no_replica_of rd s -> st_Resources_ListByDefinition s rd = Ok l -> l = [].
Proof.
  intros Hok Hno Hl. destruct l as [|c l]; [done|]. exfalso.
  assert (is_Some (st_table s !! (rd, res_NodeName c))) as [r Hr].
  { rewrite (byDefinition_keys s rd (c :: l)) by done. rewrite fmap_cons. apply list_elem_of_here. }
  by rewrite Hno in Hr.
Qed.

Lemma list_nil_no_replica s rd :
  st_ok s -> st_Resources_ListByDefinition s rd = Ok [] -> no_replica_of rd s.
Proof.
  intros Hok Hl node. apply eq_None_not_Some. rewrite (byDefinition_keys s rd []) by done.
  apply not_elem_of_nil.
Qed.

Lemma cascade_passes_clean env rd i fuel s :
  st_ok s -> no_replica_of rd s -> cascade_passes env rd i fuel s = (Ok tt, s).
Proof.
  intros Hok Hno. destruct fuel as [|fuel]; cbn; [done|].
  destruct (rel_Resources_ListByDefinition s rd) as [l Hl]. rewrite Hl.
  by rewrite (no_replica_list s rd l Hok Hno Hl).
Qed.

Lemma cascade_passes_spec env rd fuel i s :
  (forall j s0, st_ok s0 -> st_ok (env j s0)) ->
  (exists k, (i <= k < i + fuel)%nat
     /\ forall s0, st_ok s0 -> no_replica_of rd s0 -> no_replica_of rd (env k s0)) ->
  st_ok s ->
  exists s', cascade_passes env rd i fuel s = (Ok tt, s') /\ st_ok s' /\ no_replica_of rd s'.
Proof.
  intros Henv Hquiet Hok. revert i s Hquiet Hok.
  induction fuel as [|fuel IH]; intros i s (k & Hk & Hq) Hok; [lia|]. cbn [cascade_passes].
  destruct (rel_Resources_ListByDefinition s rd) as [l Hl]. rewrite Hl.
  destruct l as [|c l]; [eauto using list_nil_no_replica|].
  destruct (cascade_pass s rd (c :: l) Hok Hl) as (s1 & -> & Hok1 & Hno1 & _).
  destruct (decide (k = i)) as [->|Hne].
  - exists (env i s1). rewrite cascade_passes_clean; eauto.
  - apply IH; [|by apply Henv]. exists k. split; [lia|done].
Qed.

(** Replicas read under the spellings: each is a row of one of those nodes, and
    every such row has a namesake (up to case) in the result. *)
Lemma replicasUnder_spec s spellings l :
  st_ok s -> replicasUnder spellings s = Ok l ->
  (forall r, r ∈ l -> st_table s !! rKey r = Some r /\ res_NodeName r ∈ spellings)
  /\ (forall rd node, node ∈ spellings -> is_Some (st_table s !! (rd, node)) ->
        exists r, r ∈ l /\ FoldName (res_Name r) = FoldName rd).
Proof.
  intros Hok Hl. apply inEverySpelling_spec in Hl as [H1 H2]. split.
  - intros r (sp & found & Hsp & Hr & Hin)%H1. apply st_byNode_law in Hr; [|done].
    rewrite Hr in Hin. apply list_elem_of_filter in Hin as [<- [k Hk]%elem_of_kv_values].
    pose proof (st_table_wf s Hok _ _ Hk) as <-. done.
  - intros rd node Hsp [r Hr]. destruct (rel_Resources_ListByNode s node) as [found Hf].
    pose proof (st_table_wf s Hok _ _ Hr) as Hk. unfold rKey in Hk. simplify_eq.
    apply (H2 (res_NodeName r) found r Hsp Hf). apply st_byNode_law in Hf; [|done].
    rewrite Hf. apply list_elem_of_filter. split; [done|]. apply elem_of_kv_values. eauto.
Qed.

Lemma poolsUnder_spec s spellings l :
  st_ok s -> poolsUnder spellings s = Ok l ->
  (forall p, p ∈ l -> is_Some (st_pools s !! spKey p) /\ sp_NodeName p ∈ spellings)
  /\ (forall node pool, node ∈ spellings -> is_Some (st_pools s !! (node, pool)) ->
        exists p, p ∈ l /\ FoldName (sp_StoragePoolName p) = FoldName pool).
Proof.
  intros Hok Hl. apply inEverySpelling_spec in Hl as [H1 H2].
  assert (forall node found k, st_StoragePools_ListByNode s node = Ok found ->
            k ∈ spKey <$> found <-> is_Some (st_pools s !! k) /\ k.1 = node) as Hlaw.
  { intros node found k Hf. apply st_poolsByNode_law in Hf; [|done]. rewrite Hf.
    rewrite list_elem_of_fmap. setoid_rewrite list_elem_of_filter.
    setoid_rewrite elem_of_kv_values. split.
    - intros (p & -> & <- & [k' Hk]). pose proof (st_pools_wf s Hok _ _ Hk) as <-. eauto.
    - intros [[p Hp] <-]. pose proof (st_pools_wf s Hok _ _ Hp) as <-. eauto 10. }
  split.
  - intros p (sp & found & Hsp & Hr & Hin)%H1.
    destruct (proj1 (Hlaw sp found (spKey p) Hr)) as [Hs Hn]; [by apply list_elem_of_fmap_2|].
    cbn in Hn. by subst.
  - intros node pool Hsp Hs. destruct (rel_StoragePools_ListByNode s node) as [found Hf].
    assert ((node, pool) ∈ spKey <$> found) as Hin by (by apply (Hlaw node found)).
    apply list_elem_of_fmap in Hin as (p & Hp & Hin). unfold spKey in Hp. simplify_eq.
    by apply (H2 (sp_NodeName p) found p).
Qed.

End Facts.

Lemma foldl_refs_elem (l : list Resource) acc x :
  x ∈ foldl (fun acc r => if Contains acc (res_Name r) then acc else acc ++ [res_Name r]) acc l
  <-> x ∈ acc \/ x ∈ res_Name <$> l.
Proof.
  revert acc; induction l as [|r l IH]; intros acc; cbn; [set_solver|].
  rewrite IH. destruct (Contains acc (res_Name r)) eqn:E; [apply Contains_true in E|]; set_solver.
Qed.

Section LostNode.
#[local] Set Default Proof Using "Type*".
Context {S : Type} {Ops : StoreOps S} {Laws : StoreLaws S} {Rel : StoreReliable S}.

Lemma NodeSpellings_node node s sp : NodeSpellings node s = Ok sp -> node ∈ sp /\ FoldName node ∈ sp.
Proof.
  unfold NodeSpellings. destruct (st_Nodes_List s) as [nodes|]; [|done]. intros [= <-].
  assert (forall l x y, x ∈ l -> x ∈ add_spelling l y) as Hadd.
  { intros l x y Hx. unfold add_spelling. case_match; [done|]. set_solver. }
  assert (forall acc x, x ∈ acc -> x ∈ foldl (fun acc n =>
     if bool_decide (FoldName (node_Name n) = FoldName node)
     then add_spelling acc (node_Name n) else acc) acc nodes) as Hfold.
  { induction nodes as [|n nodes IH]; intros acc x Hx; cbn; [done|].
    apply IH. case_match; auto. }
  split; apply Hfold.
  - apply Hadd. set_solver.
  - unfold add_spelling. destruct (Contains _ _) eqn:E; [by apply Contains_true in E|]. set_solver.
Qed.

(** No two replicas (or pools) filed under the spellings have names equal up to
    case. *)
Definition fold_distinct_replicas (sp : list string) (s : S) : Prop :=
  forall rd1 n1 rd2 n2, n1 ∈ sp -> n2 ∈ sp ->
    is_Some (st_table s !! (rd1, n1)) -> is_Some (st_table s !! (rd2, n2)) ->
    FoldName rd1 = FoldName rd2 -> (rd1, n1) = (rd2, n2).
Definition fold_distinct_pools (sp : list string) (s : S) : Prop :=
  forall n1 p1 n2 p2, n1 ∈ sp -> n2 ∈ sp ->
    is_Some (st_pools s !! (n1, p1)) -> is_Some (st_pools s !! (n2, p2)) ->
    FoldName p1 = FoldName p2 -> (n1, p1) = (n2, p2).

Lemma replicasUnder_keys s sp l :
  st_ok s -> fold_distinct_replicas sp s -> replicasUnder sp s = Ok l ->
  forall rd n, (rd, n) ∈ rKey <$> l <-> n ∈ sp /\ is_Some (st_table s !! (rd, n)).
Proof.
  intros Hok Hd Hl rd n. destruct (replicasUnder_spec s sp l Hok Hl) as [H1 H2].
  rewrite list_elem_of_fmap. split.
  - intros (r & Hr & Hin). destruct (H1 r Hin) as [Ht Hn]. unfold rKey in Hr, Ht. simplify_eq. eauto.
  - intros [Hn Hs]. destruct (H2 rd n Hn Hs) as (r & Hin & Hf).
    destruct (H1 r Hin) as [Ht Hn']. exists r. split; [|done].
    symmetry. apply (Hd (res_Name r) (res_NodeName r) rd n); eauto.
Qed.

Lemma poolsUnder_keys s sp l :
  st_ok s -> fold_distinct_pools sp s -> poolsUnder sp s = Ok l ->
  forall n p, (n, p) ∈ spKey <$> l <-> n ∈ sp /\ is_Some (st_pools s !! (n, p)).
Proof.
  intros Hok Hd Hl n p. destruct (poolsUnder_spec s sp l Hok Hl) as [H1 H2].
  rewrite list_elem_of_fmap. split.
  - intros (q & Hq & Hin). destruct (H1 q Hin) as [Ht Hn]. unfold spKey in Hq, Ht. simplify_eq. eauto.
  - intros [Hn Hs]. destruct (H2 n p Hn Hs) as (q & Hin & Hf).
    destruct (H1 q Hin) as [Ht Hn']. exists q. split; [|done].
    symmetry. apply (Hd (sp_NodeName q) (sp_StoragePoolName q) n p); eauto.
Qed.

Lemma no_references s sp :
  st_ok s -> (forall rd n, n ∈ sp -> st_table s !! (rd, n) = None) ->
  (forall n p, n ∈ sp -> st_pools s !! (n, p) = None) ->
  ReferencesUnderSpellings sp s = Ok ([], []).
Proof.
  intros Hok Ht Hp. unfold ReferencesUnderSpellings.
  destruct (inEverySpelling_total (st_Resources_ListByNode s) res_Name sp
    (rel_Resources_ListByNode s)) as [l Hl].
  destruct (inEverySpelling_total (st_StoragePools_ListByNode s) sp_StoragePoolName sp
    (rel_StoragePools_ListByNode s)) as [ps Hps].
  unfold replicasUnder, poolsUnder. rewrite Hl, Hps.
  assert (l = []) as ->.
  { destruct l as [|r l]; [done|]. exfalso.
    destruct (proj1 (replicasUnder_spec s sp (r :: l) Hok Hl) r) as [Hr Hn];
      [apply list_elem_of_here|]. unfold rKey in Hr. by rewrite Ht in Hr. }
  assert (ps = []) as ->; [|done].
  destruct ps as [|p ps]; [done|]. exfalso.
  destruct (proj1 (poolsUnder_spec s sp (p :: ps) Hok Hps) p) as [[? Hr] Hn];
    [apply list_elem_of_here|]. unfold spKey in Hr. by rewrite Hp in Hr.
Qed.

(** The body of the lost-node cascade once the spellings are known. *)
Lemma cascade_orphans_spec node s sp :
  st_ok s -> NodeSpellings node s = Ok sp ->
  fold_distinct_replicas sp s -> fold_distinct_pools sp s ->
  exists s', CascadeOrphansForLostNode node s = (Ok tt, s') /\ st_ok s'
    /\ (forall rd n, st_table s' !! (rd, n) = if decide (n ∈ sp) then None else st_table s !! (rd, n))
    /\ (forall n p, st_pools s' !! (n, p) = if decide (n ∈ sp) then None else st_pools s !! (n, p)).
Proof.
  intros Hok Hsp Hdr Hdp. unfold CascadeOrphansForLostNode. rewrite Hsp.
  destruct (inEverySpelling_total (st_Resources_ListByNode s) res_Name sp
    (rel_Resources_ListByNode s)) as [l Hl].
  unfold replicasUnder at 1. rewrite Hl.
  destruct (delete_each_spec st_table rKey
    (fun s0 => st_ok s0 /\ st_pools s0 = st_pools s)
    (fun st r => st_Resources_Delete st (res_Name r) (res_NodeName r))
    (fun s0 c Hs0 => replica_delete_step s0 (res_Name c) (res_NodeName c) _ Hs0) l s)
    as (s1 & -> & [Hok1 Hp1] & Hk1); [done|].
  assert (fold_distinct_pools sp s1) as Hdp1 by (unfold fold_distinct_pools; by rewrite Hp1).
  destruct (inEverySpelling_total (st_StoragePools_ListByNode s1) sp_StoragePoolName sp
    (rel_StoragePools_ListByNode s1)) as [ps Hps].
  unfold poolsUnder at 1. rewrite Hps.
  destruct (delete_each_spec st_pools spKey
    (fun s0 => st_ok s0 /\ st_table s0 = st_table s1)
    (fun st p => st_StoragePools_Delete st (sp_NodeName p) (sp_StoragePoolName p))
    (fun s0 c Hs0 => pool_delete_step s0 (sp_NodeName c) (sp_StoragePoolName c) _ Hs0) ps s1)
    as (s2 & Hrun & [Hok2 Ht2] & Hk2); [done|].
  exists s2. split; [done|]. split; [done|]. split.
  - intros rd n. rewrite Ht2, Hk1. pose proof (replicasUnder_keys s sp l Hok Hdr Hl rd n) as Hin.
    repeat case_decide; try tauto. apply eq_None_not_Some. tauto.
  - intros n p. rewrite Hk2, Hp1. pose proof (poolsUnder_keys s1 sp ps Hok1 Hdp1 Hps n p) as Hin.
    rewrite Hp1 in Hin. repeat case_decide; try tauto. apply eq_None_not_Some. tauto.
Qed.

End LostNode.

(** ** Properties *)

(** Deleting a definition's replicas, on any backend that keeps the store's
    contract, returns success with no replica of the definition left, provided at
    least one of the five passes is not raced by another writer re-creating one (the
    auto-tiebreaker does); without other writers it removes exactly the definition's
    replicas and nothing else. *)
Theorem CascadeDeleteResources_empties {S : Type} {Ops : StoreOps S} {Laws : StoreLaws S}
    {Rel : StoreReliable S} (env : nat -> S -> S) rdName s :
  st_ok s -> (forall j s0, st_ok s0 -> st_ok (env j s0)) ->
  (exists k, (k < CascadeDeleteMaxPasses)%nat
     /\ forall s0, st_ok s0 -> no_replica_of rdName s0 -> no_replica_of rdName (env k s0)) ->
  (exists s', CascadeDeleteResources env rdName s = (Ok tt, s') /\ no_replica_of rdName s')
  /\ (exists s', CascadeDeleteResources (fun _ s0 => s0) rdName s = (Ok tt, s')
        /\ forall rd node, st_table s' !! (rd, node)
             = if decide (rd = rdName) then None else st_table s !! (rd, node)).
Proof.
  intros Hok Henv (k & Hk & Hq). split.
  - destruct (cascade_passes_spec env rdName CascadeDeleteMaxPasses 0 s Henv)
      as (s' & H & _ & Hno); [|done|eauto]. exists k. split; [lia|done].
  - unfold CascadeDeleteResources, CascadeDeleteMaxPasses. cbn [cascade_passes].
    destruct (rel_Resources_ListByDefinition s rdName) as [l Hl]. rewrite Hl.
    destruct l as [|c l].
    + exists s. split; [done|]. intros rd node. case_decide as E; [|done]. subst.
      by apply list_nil_no_replica.
    + destruct (cascade_pass s rdName (c :: l) Hok Hl) as (s1 & -> & Hok1 & Hno1 & Hframe).
      exists s1. split; [by apply (cascade_passes_clean (fun _ s0 => s0) rdName 1 4)|].
      intros rd node. case_decide as E; [subst; apply Hno1 | by apply Hframe].
Qed.

Definition replica (rd node : string) (flags : list string) : Resource :=
  mkResource rd node ∅ flags zero_ResourceState "" None None false [] ∅ 0.

Definition two_replicas : InMemory :=
  with_resources NewInMemory (mkInMemoryResources
    {[("pvc-1", "n1") := replica "pvc-1" "n1" []; ("pvc-1", "n2") := replica "pvc-1" "n2" [];
      ("pvc-2", "n1") := replica "pvc-2" "n1" []]} ∅).

(** The auto-tiebreaker lands a witness while the first pass runs. *)
Definition witness_race (i : nat) (s : InMemory) : InMemory :=
  match i with
  | O => (@st_Resources_Create _ (@InMemory_ops example_uuid) s
            (replica "pvc-1" "n3" ["DISKLESS"; "TIE_BREAKER"])).2
  | _ => s
  end.

Lemma two_replicas_ok : im_ok two_replicas.
Proof.
  split; [|apply map_Forall_empty].
  apply (bool_decide_eq_true_1 (map_Forall (fun i v => rKey v = i) (res_m (im_resources two_replicas)))).
  vm_compute. reflexivity.
Qed.

Lemma CascadeDeleteResources_empties_witness :
  st_ok (StoreLaws := @InMemory_laws example_uuid) two_replicas
  /\ exists s', CascadeDeleteResources (Ops := @InMemory_ops example_uuid) witness_race "pvc-1"
                  two_replicas = (Ok tt, s')
       /\ no_replica_of (Laws := @InMemory_laws example_uuid) "pvc-1" s'.
Proof.
  split; [exact two_replicas_ok|].
  apply (CascadeDeleteResources_empties (Rel := @InMemory_reliable example_uuid)
           witness_race "pvc-1" two_replicas).
  - exact two_replicas_ok.
  - intros [|j] s0 Hs0; [|exact Hs0].
    pose proof (@st_create_law _ _ (@InMemory_laws example_uuid) s0
      (replica "pvc-1" "n3" ["DISKLESS"; "TIE_BREAKER"]) Hs0) as Hl.
    cbn [witness_race]. destruct (st_Resources_Create _ _) as [[|] s1]; apply Hl.
  - exists 1%nat. split; [unfold CascadeDeleteMaxPasses; lia|]. by intros s0 _ Hno.
Defined.

(** Raced in every pass, the loop gives up with success and a replica stays. *)
Example CascadeDeleteResources_raced :
  let env := fun _ s => (@st_Resources_Create _ (@InMemory_ops example_uuid) s
                           (replica "pvc-1" "n3" ["DISKLESS"; "TIE_BREAKER"])).2 in
  let '(r, s') := CascadeDeleteResources (Ops := @InMemory_ops example_uuid) env "pvc-1" two_replicas in
  r = Ok tt /\ rKey <$> Resources_ListByDefinition (im_resources s') "pvc-1" = [("pvc-1", "n3")].
Proof. vm_compute. split; reflexivity. Qed.

(** The lost-node cascade removes every replica and every storage pool filed
    under any spelling of the node (the caller's, the folded one, the registered
    ones), nothing else, and afterwards the reference walk over the same spellings
    finds nothing; this holds on any backend that keeps the contract when no two of
    the node's replicas, or pools, have names equal up to case. *)
Theorem CascadeOrphans_complete {S : Type} {Ops : StoreOps S} {Laws : StoreLaws S}
    {Rel : StoreReliable S} node s sp :
  st_ok s -> NodeSpellings node s = Ok sp ->
  fold_distinct_replicas sp s -> fold_distinct_pools sp s ->
  exists s', CascadeOrphansForLostNode node s = (Ok tt, s')
    /\ (forall rd n, st_table s' !! (rd, n) = if decide (n ∈ sp) then None else st_table s !! (rd, n))
    /\ (forall n p, st_pools s' !! (n, p) = if decide (n ∈ sp) then None else st_pools s !! (n, p))
    /\ node ∈ sp /\ ReferencesUnderSpellings sp s' = Ok ([], []).
Proof.
  intros Hok Hsp Hdr Hdp.
  destruct (cascade_orphans_spec node s sp Hok Hsp Hdr Hdp) as (s' & Hrun & Hok' & Ht & Hp).
  exists s'. split; [done|]. split; [done|]. split; [done|].
  split; [by apply (NodeSpellings_node node s)|].
  apply no_references; [done|..].
  - intros rd n Hn. by rewrite Ht, decide_True.
  - intros n p Hn. by rewrite Hp, decide_True.
Qed.

Lemma CascadeOrphans_complete_witness :
  NodeSpellings (Ops := @InMemory_ops example_uuid) "N1" two_replicas = Ok ["N1"; "n1"]
  /\ exists s', CascadeOrphansForLostNode (Ops := @InMemory_ops example_uuid) "N1" two_replicas = (Ok tt, s')
     /\ ReferencesUnderSpellings (Ops := @InMemory_ops example_uuid) ["N1"; "n1"] s' = Ok ([], []).
Proof.
  assert (NodeSpellings (Ops := @InMemory_ops example_uuid) "N1" two_replicas = Ok ["N1"; "n1"])
    as Hsp by (vm_compute; reflexivity).
  split; [exact Hsp|].
  destruct (CascadeOrphans_complete (Rel := @InMemory_reliable example_uuid) "N1" two_replicas
    ["N1"; "n1"] two_replicas_ok Hsp) as (s' & H1 & _ & _ & _ & H2).
  - intros rd1 n1 rd2 n2 Hn1 Hn2 [r1 H1] [r2 H2] Hf.
    assert (forall k v, res_m (im_resources two_replicas) !! k = Some v ->
              k = ("pvc-1", "n1") \/ k = ("pvc-1", "n2") \/ k = ("pvc-2", "n1")) as Hk.
    { intros k v Hkv%elem_of_map_to_list. vm_compute in Hkv.
      repeat (apply elem_of_cons in Hkv as [Hkv|Hkv]; [simplify_eq; auto|]).
      by apply not_elem_of_nil in Hkv. }
    apply Hk in H1, H2. vm_compute in Hf.
    destruct H1 as [|[|]], H2 as [|[|]]; simplify_eq; try done;
      exfalso; clear -Hn1 Hn2; set_solver.
  - intros n1 p1 n2 p2 _ _ [? H] _ _. vm_compute in H. discriminate.
  - exists s'. split; [exact H1 | exact H2].
Defined.

(** With two replicas of one name under two spellings of the node, the second is
    dropped from the walk and stays behind. *)
Example CascadeOrphans_shadowed :
  let s0 := with_resources NewInMemory (mkInMemoryResources
    {[("pvc-1", "N1") := replica "pvc-1" "N1" []; ("pvc-1", "n1") := replica "pvc-1" "n1" []]} ∅) in
  let '(r, s') := CascadeOrphansForLostNode (Ops := @InMemory_ops example_uuid) "N1" s0 in
  r = Ok tt /\ rKey <$> Resources_List (im_resources s') = [("pvc-1", "n1")].
Proof. vm_compute. split; reflexivity. Qed.

(** The gate of a plain node delete is exact about replicas: the walk reports a
    definition only if the node, in some spelling, hosts a replica of it, and reports
    none exactly when no replica is filed under any spelling. *)
Theorem ReferencesOnNode_gate {S : Type} {Ops : StoreOps S} {Laws : StoreLaws S}
    {Rel : StoreReliable S} node s sp rsc pools :
  st_ok s -> NodeSpellings node s = Ok sp -> ReferencesOnNode node s = Ok (rsc, pools) ->
  (forall rd, rd ∈ rsc -> exists n, n ∈ sp /\ is_Some (st_table s !! (rd, n)))
  /\ (rsc = [] <-> forall rd n, n ∈ sp -> st_table s !! (rd, n) = None)
  /\ Sorted String.le rsc.
Proof.
  intros Hok Hsp. unfold ReferencesOnNode, ReferencesUnderSpellings. rewrite Hsp.
  destruct (replicasUnder sp s) as [l|] eqn:Hl; [|done].
  destruct (poolsUnder sp s) as [ps|]; [|done].
  destruct (replicasUnder_spec s sp l Hok Hl) as [H1 H2]. intros [= <- <-].
  set (refs := foldl _ [] l).
  assert (forall x, x ∈ merge_sort String.le refs <-> x ∈ res_Name <$> l) as Hin.
  { intros x. rewrite merge_sort_Permutation. unfold refs. rewrite foldl_refs_elem. set_solver. }
  split; [|split].
  - intros rd (r & -> & Hr)%Hin%list_elem_of_fmap. destruct (H1 r Hr) as [Ht Hn].
    exists (res_NodeName r). eauto.
  - split.
    + intros Hnil rd n Hn. apply eq_None_not_Some. intros Hs.
      destruct (H2 rd n Hn Hs) as (r & Hr & _).
      assert (res_Name r ∈ merge_sort String.le refs) as Hx by (apply Hin; by apply list_elem_of_fmap_2).
      rewrite Hnil in Hx. by apply not_elem_of_nil in Hx.
    + intros Hnone. destruct (merge_sort String.le refs) as [|x xs] eqn:E; [done|]. exfalso.
      assert (x ∈ res_Name <$> l) as (r & -> & Hr)%list_elem_of_fmap
        by (apply Hin; apply list_elem_of_here).
      destruct (H1 r Hr) as [Ht Hn]. unfold rKey in Ht. by rewrite Hnone in Ht.
  - apply Sorted_merge_sort. apply _.
Qed.

Lemma ReferencesOnNode_gate_witness :
  ReferencesOnNode (Ops := @InMemory_ops example_uuid) "N1" two_replicas = Ok (["pvc-1"; "pvc-2"], [])
  /\ Sorted String.le ["pvc-1"; "pvc-2"].
Proof.
  assert (ReferencesOnNode (Ops := @InMemory_ops example_uuid) "N1" two_replicas
          = Ok (["pvc-1"; "pvc-2"], [])) as H by (vm_compute; reflexivity).
  split; [exact H|].
  apply (ReferencesOnNode_gate (Rel := @InMemory_reliable example_uuid) "N1" two_replicas
           ["N1"; "n1"] ["pvc-1"; "pvc-2"] [] two_replicas_ok ltac:(vm_compute; reflexivity) H).
Defined.
