(* ===== verification/GoFloat.v ===== *)
(** * Go's [float64]

    The binary64 operations the placement arithmetic uses, on the specification
    floats of the Rocq library ([SpecFloat], correctly rounded to nearest even as
    IEEE 754 and the Go specification require), the conversions from and to
    [int64], and [strconv.ParseFloat] on the whole literal syntax it accepts. *)

From Stdlib Require Import Ascii.
From Stdlib Require Import Floats.SpecFloat.
From S2P Require Import Prelude.

Definition float := spec_float.
Definition prec64 : Z := 53.
Definition emax64 : Z := 1024.

Definition fadd (x y : float) : float := SFadd prec64 emax64 x y.
Definition fsub (x y : float) : float := SFsub prec64 emax64 x y.
Definition fmul (x y : float) : float := SFmul prec64 emax64 x y.
Definition fdiv (x y : float) : float := SFdiv prec64 emax64 x y.
Definition flt (x y : float) : bool := SFltb x y.
Definition fle (x y : float) : bool := SFleb x y.
Definition feq (x y : float) : bool := SFeqb x y.

(** [float64(z)] for an integer. *)
Definition of_int (z : Z) : float := binary_normalize prec64 emax64 z 0 false.

(** [int64(f)] of a finite float whose truncation fits: toward zero. *)
Definition to_int (f : float) : Z :=
  match f with
  | S754_finite s m e =>
      let v := if 0 <=? e then Zpos m * 2 ^ e else Zpos m `div` 2 ^ (- e) in
      if s then - v else v
  | _ => 0
  end.

Definition is_nan (f : float) : bool := match f with S754_nan => true | _ => false end.
Definition is_inf (f : float) : bool := match f with S754_infinity _ => true | _ => false end.

Definition f0 : float := S754_zero false.
Definition f1 : float := of_int 1.

(** ** [strconv.ParseFloat(s, 64)]

    [None] is a non-nil error: a malformed literal, or a value that rounds to an
    infinity. *)
Module Parse.

Definition digit_val (hex : bool) (c : ascii) : option Z :=
  let n := Z.of_N (N_of_ascii c) in
  if (48 <=? n) && (n <=? 57) then Some (n - 48)
  else if hex && (97 <=? n) && (n <=? 102) then Some (n - 87)
  else if hex && (65 <=? n) && (n <=? 70) then Some (n - 55)
  else None.

Definition isc (c : ascii) (x : ascii) : bool := Ascii.eqb c x.
Definition lower_is (c : ascii) (x : ascii) : bool := Ascii.eqb (Str.lower_ascii c) x.

(** Mantissa digits: value, digits after the point, whether a digit was seen. *)
Fixpoint mantissa (hex : bool) (s : string) (m frac : Z) (dot saw : bool)
    : Z * Z * bool * string :=
  match s with
  | EmptyString => (m, frac, saw, s)
  | String c rest =>
      if isc c "_" then mantissa hex rest m frac dot saw
      else if isc c "." then
        if dot then (m, frac, saw, s) else mantissa hex rest m frac true saw
      else match digit_val hex c with
           | Some d => mantissa hex rest ((if hex then 16 else 10) * m + d)
                         (if dot then frac + 1 else frac) dot true
           | None => (m, frac, saw, s)
           end
  end.

(** Exponent digits; values from 10000 on saturate. *)
Fixpoint exp_digits (s : string) (e : Z) : Z * string :=
  match s with
  | EmptyString => (e, s)
  | String c rest =>
      if isc c "_" then exp_digits rest e
      else match digit_val false c with
           | Some d => exp_digits rest (if e <? 10000 then e * 10 + d else e)
           | None => (e, s)
           end
  end.

(** [e] or [p], an optional sign and at least one digit. *)
Definition exponent (hex : bool) (s : string) : option (Z * string) :=
  match s with
  | String c rest =>
      if lower_is c (if hex then "p"%char else "e"%char) then
        let '(neg, rest') := match rest with
                             | String "+"%char r => (false, r)
                             | String "-"%char r => (true, r)
                             | _ => (false, rest)
                             end in
        match rest' with
        | String d _ =>
            match digit_val false d with
            | None => None
            | Some _ => let '(e, r) := exp_digits rest' 0 in Some (if neg then - e else e, r)
            end
        | EmptyString => None
        end
      else if hex then None else Some (0, s)
  | EmptyString => if hex then None else Some (0, s)
  end.

(** [underscoreOK] on the text after the sign: 0 no digit seen last, 1 a digit, 2 an
    underscore. *)
Fixpoint underscores_ok (hex : bool) (s : string) (saw : Z) : bool :=
  match s with
  | EmptyString => negb (saw =? 2)
  | String c rest =>
      match digit_val hex c with
      | Some _ => underscores_ok hex rest 1
      | None =>
          if isc c "_" then if saw =? 1 then underscores_ok hex rest 2 else false
          else if saw =? 2 then false else underscores_ok hex rest 0
      end
  end.

Definition round_ratio (neg : bool) (num den : positive) : float :=
  let '(mz, ez, lz) := SFdiv_core_binary prec64 emax64 (Zpos num) 0 (Zpos den) 0 in
  binary_round_aux prec64 emax64 neg mz ez lz.

(** [m * b^e] rounded once. *)
Definition round_scaled (neg : bool) (m : Z) (b e : Z) : float :=
  match m with
  | Zpos p =>
      if 0 <=? e then
        match m * b ^ e with Zpos q => round_ratio neg q 1 | _ => S754_zero neg end
      else match b ^ (- e) with Zpos q => round_ratio neg p q | _ => S754_nan end
  | _ => S754_zero neg
  end.

Definition special (neg signed : bool) (s : string) : option float :=
  if Str.equal_fold s "inf" || Str.equal_fold s "infinity" then Some (S754_infinity neg)
  else if negb signed && Str.equal_fold s "nan" then Some S754_nan
  else None.

Definition ParseFloat (s : string) : option float :=
  let '(neg, signed, body) := match s with
                              | String "+"%char r => (false, true, r)
                              | String "-"%char r => (true, true, r)
                              | _ => (false, false, s)
                              end in
  match special neg signed body with
  | Some f => Some f
  | None =>
      let '(hex, digits) := match body with
                            | String "0"%char (String x ((String _ _) as r)) =>
                                if lower_is x "x" then (true, r) else (false, body)
                            | _ => (false, body)
                            end in
      let '(m, frac, saw, rest) := mantissa hex digits 0 0 false false in
      if negb saw then None
      else match exponent hex rest with
           | Some (e, EmptyString) =>
               if underscores_ok hex digits (if hex then 1 else 0) then
                 let f := if hex then round_scaled neg m 2 (e - 4 * frac)
                          else round_scaled neg m 10 (e - frac) in
                 if is_inf f then None else Some f
               else None
           | _ => None
           end
  end.

Example parse_half : ParseFloat "0.5" = Some (fdiv f1 (of_int 2)).
Proof. vm_compute. reflexivity. Qed.
(** 0x3FB999999999999A *)
Example parse_tenth : ParseFloat "0.1" = Some (S754_finite false 7205759403792794 (-56)).
Proof. vm_compute. reflexivity. Qed.
Example parse_exp : ParseFloat "-1_2.5e+1" = Some (of_int (-125)).
Proof. vm_compute. reflexivity. Qed.
Example parse_hex : ParseFloat "0x1.8p1" = Some (of_int 3).
Proof. vm_compute. reflexivity. Qed.
Example parse_bad :
  ParseFloat "" = None /\ ParseFloat "abc" = None /\ ParseFloat "1e" = None /\ ParseFloat "1__0" = None
  /\ ParseFloat "0x1" = None /\ ParseFloat "1e999" = None /\ ParseFloat "-nan" = None.
Proof. vm_compute. repeat split. Qed.
Example parse_special :
  ParseFloat "NaN" = Some S754_nan /\ ParseFloat "-Infinity" = Some (S754_infinity true).
Proof. vm_compute. repeat split. Qed.
(** Rounds to the nearest, ties to even, past the 53-bit mantissa. *)
Example parse_big : ParseFloat "9007199254740993" = Some (of_int 9007199254740992).
Proof. vm_compute. reflexivity. Qed.

End Parse.

(** ** [strconv.ParseBool] *)

Definition ParseBool (s : string) : option bool :=
  if bool_decide (s ∈ ["1"; "t"; "T"; "TRUE"; "true"; "True"]) then Some true
  else if bool_decide (s ∈ ["0"; "f"; "F"; "FALSE"; "false"; "False"]) then Some false
  else None.
