(* ===== verification/GoSort.v ===== *)
(** * Go's [sort.SliceStable]

    The standard library's stable sort, statement for statement ([stable_func],
    [insertionSort_func], [symMerge_func], [rotate_func], [swapRange_func] of
    package [sort]): insertion sort on blocks of 20 and in-place symmetric merges.
    The algorithm is needed, not just its specification, because one caller passes a
    comparison that does not follow the elements as they move: [less] is given the
    array in its current order, and the two positions.

    Whatever the comparison does, the result is a permutation of the input; with a
    comparison on elements, up to 20 of them, it is plain insertion sort. *)

From S2P Require Import Prelude.

Section Sort.
Context {A : Type}.
Variable less : list A -> nat -> nat -> bool.

Definition swap (i j : nat) (l : list A) : list A :=
  match l !! i, l !! j with
  | Some x, Some y => <[i := y]> (<[j := x]> l)
  | _, _ => l
  end.

(** [for j := i; j > a && less(j, j-1); j-- { swap(j, j-1) }] *)
Fixpoint sift_down (a j : nat) (l : list A) : list A :=
  match j with
  | O => l
  | S j' => if (a <? j)%nat && less l j j' then sift_down a j' (swap j j' l) else l
  end.

Definition insertionSort (a b : nat) (l : list A) : list A :=
  foldl (fun l i => sift_down a i l) l (seq (a + 1) (b - (a + 1))).

(** [for i := 0; i < n; i++ { swap(a+i, b+i) }] *)
Definition swapRange (a b n : nat) (l : list A) : list A :=
  foldl (fun l i => swap (a + i) (b + i) l) l (seq 0 n).

Fixpoint rotate_loop (fuel m i j : nat) (l : list A) : list A :=
  match fuel with
  | O => l
  | S f =>
      if (i =? j)%nat then swapRange (m - i) m i l
      else if (j <? i)%nat then rotate_loop f m (i - j) j (swapRange (m - i) m j l)
      else rotate_loop f m i (j - i) (swapRange (m - i) (m + j - i) i l)
  end.

Definition rotate (a m b : nat) (l : list A) : list A :=
  rotate_loop (m - a + (b - m) + 1) m (m - a) (b - m) l.

(** The binary searches: [for i < j { h := (i+j)/2; if test h { i = h+1 } else { j = h } }]. *)
Fixpoint bsearch (fuel : nat) (test : nat -> bool) (i j : nat) : nat :=
  match fuel with
  | O => i
  | S f => if (i <? j)%nat then
             let h := ((i + j) / 2)%nat in
             if test h then bsearch f test (h + 1) j else bsearch f test i h
           else i
  end.

Fixpoint symMerge (fuel a m b : nat) (l : list A) : list A :=
  match fuel with
  | O => l
  | S f =>
      if (m - a =? 1)%nat then
        let i := bsearch (b - m + 1) (fun h => less l h a) m b in
        foldl (fun l k => swap k (k + 1) l) l (seq a (i - 1 - a))
      else if (b - m =? 1)%nat then
        let i := bsearch (m - a + 1) (fun h => negb (less l m h)) a m in
        foldl (fun l k => swap k (k - 1) l) l (rev (seq (i + 1) (m - i)))
      else
        let mid := ((a + b) / 2)%nat in
        let n := (mid + m)%nat in
        let '(start0, r) := if (mid <? m)%nat then (n - b, mid)%nat else (a, m) in
        let p := (n - 1)%nat in
        let start := bsearch (r - start0 + 1) (fun c => negb (less l (p - c)%nat c)) start0 r in
        let e := (n - start)%nat in
        let l1 := if (start <? m)%nat && (m <? e)%nat then rotate start m e l else l in
        let l2 := if (a <? start)%nat && (start <? mid)%nat then symMerge f a start mid l1 else l1 in
        if (mid <? e)%nat && (e <? b)%nat then symMerge f mid e b l2 else l2
  end.

(** [a, b := 0, bs; for b <= n { ...; a = b; b += bs }]: the block starts. *)
Fixpoint blocks (fuel a bs n : nat) : list nat :=
  match fuel with
  | O => []
  | S f => if (a + bs <=? n)%nat then a :: blocks f (a + bs) bs n else []
  end.

Definition insert_blocks (n : nat) (l : list A) : list A :=
  let starts := blocks (n + 1) 0 20 n in
  let l1 := foldl (fun l a => insertionSort a (a + 20) l) l starts in
  insertionSort (20 * length starts) n l1.

Definition merge_pass (bs n : nat) (l : list A) : list A :=
  let starts := blocks (n + 1) 0 (2 * bs) n in
  let l1 := foldl (fun l a => symMerge (2 * bs) a (a + bs) (a + 2 * bs) l) l starts in
  let a := (2 * bs * length starts)%nat in
  if (a + bs <? n)%nat then symMerge n a (a + bs) n l1 else l1.

Fixpoint merge_passes (fuel bs n : nat) (l : list A) : list A :=
  match fuel with
  | O => l
  | S f => if (bs <? n)%nat then merge_passes f (2 * bs) n (merge_pass bs n l) else l
  end.

Definition SliceStable (l : list A) : list A :=
  let n := length l in merge_passes n 20 n (insert_blocks n l).

(** ** Every step is a swap *)

Lemma swap_perm i j l : swap i j l ≡ₚ l.
Proof.
  unfold swap. destruct (l !! i) as [x|] eqn:Hi; [|done].
  destruct (l !! j) as [y|] eqn:Hj; [|done].
  destruct (decide (i = j)) as [->|Hne].
  { simplify_eq. by rewrite list_insert_insert_eq, list_insert_id. }
  apply Permutation_inj. split.
  { by rewrite !length_insert. }
  pose proof (lookup_lt_Some _ _ _ Hi). pose proof (lookup_lt_Some _ _ _ Hj).
  exists (fun k => if decide (k = i) then j else if decide (k = j) then i else k). split.
  - intros k1 k2. repeat case_decide; congruence.
  - intros k. repeat case_decide; subst.
    + by rewrite list_lookup_insert_eq by (by rewrite length_insert).
    + by rewrite list_lookup_insert_ne, list_lookup_insert_eq by done.
    + by rewrite !list_lookup_insert_ne by done.
Qed.

Lemma foldl_perm {B} (f : list A -> B -> list A) l xs :
  (forall l x, f l x ≡ₚ l) -> foldl f l xs ≡ₚ l.
Proof.
  intros Hf. revert l; induction xs as [|x xs IH]; intros l; cbn; [done|]. by rewrite IH, Hf.
Qed.

Lemma sift_down_perm a j l : sift_down a j l ≡ₚ l.
Proof.
  revert l; induction j as [|j IH]; intros l; cbn; [done|].
  case_match; [|done]. by rewrite IH, swap_perm.
Qed.

Lemma insertionSort_perm a b l : insertionSort a b l ≡ₚ l.
Proof. apply foldl_perm. intros; apply sift_down_perm. Qed.

Lemma rotate_perm a m b l : rotate a m b l ≡ₚ l.
Proof.
  unfold rotate. generalize (m - a + (b - m) + 1)%nat as fuel.
  generalize (m - a)%nat as i, (b - m)%nat as j. intros i j fuel. revert i j l.
  assert (forall x y n l, swapRange x y n l ≡ₚ l) as Hs.
  { intros. apply foldl_perm. intros; apply swap_perm. }
  induction fuel as [|f IH]; intros i j l; cbn; [done|].
  repeat case_match; by rewrite ?IH, ?Hs.
Qed.

Lemma symMerge_perm fuel a m b l : symMerge fuel a m b l ≡ₚ l.
Proof.
  revert a m b l; induction fuel as [|f IH]; intros a m b l; cbn; [done|].
  case_match; [apply foldl_perm; intros; apply swap_perm|].
  case_match; [apply foldl_perm; intros; apply swap_perm|].
  repeat case_match; by rewrite ?IH, ?rotate_perm.
Qed.

Lemma merge_pass_perm bs n l : merge_pass bs n l ≡ₚ l.
Proof.
  unfold merge_pass. cbv zeta. case_match; rewrite ?symMerge_perm;
    (apply foldl_perm; intros; apply symMerge_perm).
Qed.

Lemma merge_passes_perm fuel bs n l : merge_passes fuel bs n l ≡ₚ l.
Proof.
  revert bs l; induction fuel as [|f IH]; intros bs l; cbn [merge_passes]; [done|].
  destruct (bs <? n)%nat; [|done]. by rewrite IH, merge_pass_perm.
Qed.

Lemma SliceStable_perm l : SliceStable l ≡ₚ l.
Proof.
  unfold SliceStable, insert_blocks. cbv zeta. rewrite merge_passes_perm, insertionSort_perm.
  apply foldl_perm. intros; apply insertionSort_perm.
Qed.

(** ** The fuel is enough *)

Lemma bsearch_fuel test f1 f2 i j :
  (j - i < f1)%nat -> (j - i < f2)%nat -> bsearch f1 test i j = bsearch f2 test i j.
Proof.
  revert f2 i j; induction f1 as [|f1 IH]; intros [|f2] i j H1 H2; try lia; cbn [bsearch].
  destruct (Nat.ltb_spec i j) as [Hlt|]; [|done].
  assert (i <= (i + j) / 2 < j)%nat as Hh.
  { split; [apply Nat.div_le_lower_bound | apply Nat.Div0.div_lt_upper_bound]; lia. }
  case_match; apply IH; lia.
Qed.

Lemma rotate_fuel f1 f2 m i j l :
  (0 < i)%nat -> (0 < j)%nat -> (i + j < f1)%nat -> (i + j < f2)%nat ->
  rotate_loop f1 m i j l = rotate_loop f2 m i j l.
Proof.
  revert f2 i j l; induction f1 as [|f1 IH]; intros [|f2] i j l Hi Hj H1 H2; try lia;
    cbn [rotate_loop].
  destruct (Nat.eqb_spec i j); [done|]. destruct (Nat.ltb_spec j i); apply IH; lia.
Qed.

(** The merge recursion halves its range, so fuel for the range's length is enough. *)
Lemma symMerge_fuel f1 f2 a m b l :
  (b - a <= f1)%nat -> (b - a <= f2)%nat -> (a <= m <= b)%nat -> (a < b)%nat ->
  symMerge f1 a m b l = symMerge f2 a m b l.
Proof.
  revert f2 a m b l; induction f1 as [|f1 IH]; intros [|f2] a m b l H1 H2 Hm Hab; try lia;
    cbn [symMerge].
  case_match; [done|]. case_match; [done|].
  assert (a <= (a + b) / 2 < b)%nat as Hmid.
  { split; [apply Nat.div_le_lower_bound | apply Nat.Div0.div_lt_upper_bound]; lia. }
  assert (a + b <= 2 * ((a + b) / 2) + 1)%nat as Hmid2.
  { pose proof (Nat.div_mod_eq (a + b) 2). pose proof (Nat.mod_upper_bound (a + b) 2). lia. }
  set (mid := ((a + b) / 2)%nat) in *.
  destruct (if (mid <? m)%nat then (mid + m - b, mid)%nat else (a, m)) as [start0 r].
  set (start := bsearch _ _ start0 r). set (e := (mid + m - start)%nat).
  set (l1 := if _ && _ then rotate _ _ _ _ else l).
  assert ((if (a <? start)%nat && (start <? mid)%nat then symMerge f1 a start mid l1 else l1)
          = (if (a <? start)%nat && (start <? mid)%nat then symMerge f2 a start mid l1 else l1)) as ->.
  { destruct (Nat.ltb_spec a start), (Nat.ltb_spec start mid); cbn [andb]; try done. apply IH; lia. }
  destruct (Nat.ltb_spec mid e), (Nat.ltb_spec e b); cbn [andb]; try done. apply IH; lia.
Qed.

(** Fewer than 20 elements: one insertion sort, no merge. *)
Lemma SliceStable_small l : (length l < 20)%nat -> SliceStable l = insertionSort 0 (length l) l.
Proof.
  intros Hl. unfold SliceStable, insert_blocks. cbv zeta.
  replace (blocks (length l + 1) 0 20 (length l)) with (@nil nat).
  - cbn [foldl length]. rewrite Nat.mul_0_r. destruct (length l) as [|n] eqn:E; [done|].
    cbn [merge_passes]. by rewrite (proj2 (Nat.ltb_ge 20 (S n))) by lia.
  - replace (length l + 1)%nat with (S (length l)) by lia. cbn [blocks].
    by rewrite (proj2 (Nat.leb_gt (0 + 20) (length l))) by lia.
Qed.

End Sort.
