(* ===== verification/Placer.v ===== *)
(** * The autoplacer

    Models [pkg/placer/placer.go], [oversub.go] and [provider_kind_mixing.go]: the
    candidate-pool gates (filter, capacity floor, over-subscription caps), the
    weighted ranking, the topology constraints, the greedy placement loop with
    in-place promotion of diskless witnesses, and [Place] itself, against the store
    interface of [Store.v].

    Float arithmetic is binary64 ([GoFloat.v]), sums of [int64] wrap. The regular
    expression engine is the class [RegexpLib] (package [regexp] interprets the
    operator's pattern); the order in which Go ranges over a map, which the language
    leaves open, is the argument [ord] of the one function whose effects follow
    it. *)

From Stdlib Require Import Ascii.
From S2P Require Import Prelude Api GoFloat GoSort Store.

Class RegexpLib := {
  (** [regexp.Compile]: [None] for a compile error, else [MatchString]. *)
  re_Compile : string -> option (string -> bool);
}.

(** ** Errors *)

Inductive OversubRatioKind := OversubRatioFree | OversubRatioTotal | OversubRatioMaster.

Record OversubscriptionShortfallError := mkOversub {
  os_RequiredKib : Z;
  os_PoolName : string;
  os_NodeName : string;
  os_Ratio : OversubRatioKind;
  os_RatioValue : float;
  os_EffectiveCapKib : Z;
}.

Record CapacityShortfallError := mkCapacity {
  cs_RequiredKib : Z;
  cs_MaxFreeKib : Z;
}.

Inductive place_err :=
| StoreErr (e : store_err)
| CapacityShortfall (e : CapacityShortfallError)
| OversubShortfall (e : OversubscriptionShortfallError).

(** [CapacityShortfallError.Error] *)
Definition capacity_Error (e : CapacityShortfallError) : string :=
  "not enough free capacity on candidate pools: required " +:+ format_int (cs_RequiredKib e)
    +:+ " KiB, max free " +:+ format_int (cs_MaxFreeKib e) +:+ " KiB".

Definition storPoolNameProp : string := "StorPoolName".
Definition restoreFromSnapshotProp : string := "BlockstorRestoreFromSnapshot".

(** ** Over-subscription ([oversub.go]) *)

Definition propOversubMaster : string := "MaxOversubscriptionRatio".
Definition propOversubFree : string := "MaxFreeCapacityOversubscriptionRatio".
Definition propOversubTotal : string := "MaxTotalCapacityOversubscriptionRatio".
Definition defaultOversubRatio : float := of_int 20.

Definition isThinForOversub (kind : string) : bool :=
  bool_decide (kind = StoragePoolKindLVMThin) || bool_decide (kind = StoragePoolKindZFSThin)
  || bool_decide (kind = StoragePoolKindFileThin).

Definition parseOversubRatio (raw : string) : option float :=
  if bool_decide (raw = "") then None
  else match Parse.ParseFloat raw with
       | None => None
       | Some ratio => if fle ratio f0 || is_nan ratio || is_inf ratio then None else Some ratio
       end.

Definition lookupOversubRatio (poolProps ctrlProps : gmap string string) (key : string)
    : option float :=
  match parseOversubRatio (getp poolProps key) with
  | Some v => Some v
  | None => parseOversubRatio (getp ctrlProps key)
  end.

Definition scaleClampOversub (size : Z) (ratio : float) : Z :=
  if bool_decide (size <= 0) || fle ratio f0 then 0
  else let scaled := fmul (of_int size) ratio in
       if fle (of_int MaxInt64) scaled then MaxInt64 else to_int scaled.

Definition attributeRatio (specific : OversubRatioKind) (hasSpecific hasOverall : bool)
    : OversubRatioKind :=
  if negb hasSpecific && hasOverall then OversubRatioMaster else specific.

Definition pickRatioValue (specificValue : float) (hasSpecific hasOverall : bool)
    (overallValue : float) : float :=
  if hasSpecific then specificValue else if hasOverall then overallValue else defaultOversubRatio.

Definition is_some {A} (o : option A) : bool := match o with Some _ => true | None => false end.

Definition effectiveOversubCaps (pool : StoragePool) (ctrlProps : gmap string string)
    : Z * OversubRatioKind * float :=
  if negb (isThinForOversub (sp_ProviderKind pool)) then (sp_FreeCapacity pool, OversubRatioFree, f1)
  else
    let overall_o := lookupOversubRatio (sp_Props pool) ctrlProps propOversubMaster in
    let overall := default defaultOversubRatio overall_o in
    let free_o := lookupOversubRatio (sp_Props pool) ctrlProps propOversubFree in
    let freeRatio := default overall free_o in
    let total_o := lookupOversubRatio (sp_Props pool) ctrlProps propOversubTotal in
    let totalRatio := default overall total_o in
    let freeCap := scaleClampOversub (sp_FreeCapacity pool) freeRatio in
    let totalCap := scaleClampOversub (sp_TotalCapacity pool) totalRatio in
    let free_answer := (freeCap, attributeRatio OversubRatioFree (is_some free_o) (is_some overall_o),
                        pickRatioValue freeRatio (is_some free_o) (is_some overall_o) overall) in
    if bool_decide (sp_TotalCapacity pool = 0) then free_answer
    else if bool_decide (totalCap < freeCap) then
      (totalCap, attributeRatio OversubRatioTotal (is_some total_o) (is_some overall_o),
       pickRatioValue totalRatio (is_some total_o) (is_some overall_o) overall)
    else free_answer.

(** ** Provider-kind mixing ([provider_kind_mixing.go]) *)

Definition isThinCrossKindPair (left right : string) : bool :=
  (bool_decide (left = StoragePoolKindLVMThin) && bool_decide (right = StoragePoolKindZFSThin))
  || (bool_decide (left = StoragePoolKindZFSThin) && bool_decide (right = StoragePoolKindLVMThin)).

Definition isMixingAllowedDirected (kind1 kind2 : string) : bool :=
  if bool_decide (kind1 = StoragePoolKindFile) || bool_decide (kind1 = StoragePoolKindFileThin) then
    bool_decide (kind2 = StoragePoolKindFile) || bool_decide (kind2 = StoragePoolKindFileThin)
    || bool_decide (kind2 = StoragePoolKindDiskless)
  else if bool_decide (kind1 = StoragePoolKindLVM) then false
  else if bool_decide (kind1 = StoragePoolKindLVMThin) then false
  else if bool_decide (kind1 = StoragePoolKindZFS) || bool_decide (kind1 = StoragePoolKindZFSThin) then
    bool_decide (kind2 = StoragePoolKindZFS) || bool_decide (kind2 = StoragePoolKindZFSThin)
  else if bool_decide (kind1 = StoragePoolKindRemoteSPDK) then false
  else false.

Definition IsProviderKindMixingAllowed (left right : string) (allowMixing : bool) : bool :=
  if bool_decide (left = StoragePoolKindDiskless) || bool_decide (right = StoragePoolKindDiskless)
  then true
  else if bool_decide (left = right) then true
  else if isMixingAllowedDirected left right || isMixingAllowedDirected right left then true
  else if allowMixing && isThinCrossKindPair left right then true
  else false.

(** ** Topology helpers *)

Definition auxKey (key : string) : string :=
  if Str.has_prefix "Aux/" key then key else "Aux/" +:+ key.

(** [parseDiffSpec] and [parseSameSpec]: key, value, has-value. *)
Definition parseDiffSpec (spec : string) : string * string * bool :=
  match Str.cut "="%char spec with
  | Some (k, v) => (k, v, true)
  | None => (spec, "", false)
  end.
Definition parseSameSpec (spec : string) : string * string * bool :=
  match Str.cut "="%char spec with
  | Some (k, v) => (k, v, true)
  | None => (spec, "", false)
  end.

(** [nodes[name]]: a node that is not registered reads as one without properties. *)
Definition node_props (nodes : gmap string (gmap string string)) (name : string)
    : gmap string string := default ∅ (nodes !! name).

Definition lookupKeys (nodeProps : gmap string string) (keys : list string) : gmap string string :=
  foldl (fun out spec =>
    let '(key, value, hasValue) := parseSameSpec spec in
    <[auxKey key := if hasValue : bool then value else getp nodeProps (auxKey key)]> out) ∅ keys.

Definition topologyTuple (existing : list Resource) (nodes : gmap string (gmap string string))
    (keys : list string) : option (gmap string string) :=
  match keys, existing with
  | _ :: _, r :: _ => Some (lookupKeys (node_props nodes (res_NodeName r)) keys)
  | _, _ => None
  end.

Definition diffKey (k : string) (nodeProps : gmap string string) : string :=
  k +:+ "=" +:+ getp nodeProps (auxKey k).

Definition bare_specs (keys : list string) : list string :=
  filter (fun spec => (parseDiffSpec spec).2 = false) keys.

Definition topologySeen (existing : list Resource) (nodes : gmap string (gmap string string))
    (keys : list string) : gset string :=
  list_to_set (k ← bare_specs keys; (fun r => diffKey k (node_props nodes (res_NodeName r))) <$> existing).

Definition matchesTuple (nodeProps : gmap string string) (keys : list string)
    (want : option (gmap string string)) : bool :=
  match want with
  | None => true
  | Some w => forallb (fun spec =>
      let '(key, _, _) := parseSameSpec spec in
      bool_decide (getp nodeProps (auxKey key) = getp w (auxKey key))) keys
  end.

Definition collidesWithDiff (nodeProps : gmap string string) (keys : list string)
    (seen : gset string) : bool :=
  existsb (fun spec => let '(_, _, hasValue) := parseDiffSpec spec in
                       negb hasValue && bool_decide (diffKey spec nodeProps ∈ seen)) keys.

Definition matchesAnyExcludedPair (nodeProps : gmap string string) (keys : list string) : bool :=
  existsb (fun spec => let '(k, v, hasValue) := parseDiffSpec spec in
                       hasValue && bool_decide (getp nodeProps (auxKey k) = v)) keys.

Definition partitionByExclusion (candidates : list StoragePool)
    (nodes : gmap string (gmap string string)) (keys : list string)
    : list StoragePool * list StoragePool :=
  if existsb (fun spec => (parseDiffSpec spec).2) keys then
    (filter (fun p => matchesAnyExcludedPair (node_props nodes (sp_NodeName p)) keys = false) candidates,
     filter (fun p => matchesAnyExcludedPair (node_props nodes (sp_NodeName p)) keys = true) candidates)
  else (candidates, []).

Definition matchesAllSamePins (nodeProps : gmap string string) (keys : list string) : bool :=
  forallb (fun spec => let '(key, value, hasValue) := parseSameSpec spec in
                       negb hasValue || bool_decide (getp nodeProps (auxKey key) = value)) keys.

Definition filterSamePinned (candidates : list StoragePool)
    (nodes : gmap string (gmap string string)) (keys : list string) : list StoragePool :=
  if existsb (fun spec => (parseSameSpec spec).2) keys then
    filter (fun p => matchesAllSamePins (node_props nodes (sp_NodeName p)) keys = true) candidates
  else candidates.

(** [tupleKey]: the pairs sorted by property name, separated by the unit separator. *)
Definition unit_sep : ascii := ascii_of_nat 31.

Definition tupleKey (tuple : gmap string string) : string :=
  Str.join (String unit_sep "")
    ((fun kv => kv.1 +:+ "=" +:+ kv.2) <$> merge_sort (le_on fst) (map_to_list tuple)).

(** A group of [pickSameGroup]: its tuple, key, pools, distinct nodes and free sum. *)
Record group := mkGroup {
  g_tuple : gmap string string;
  g_key : string;
  g_pools : list StoragePool;
  g_seen : gset string;
  g_free : Z;
}.

Definition group_add (g : group) (pool : StoragePool) : group :=
  mkGroup (g_tuple g) (g_key g) (g_pools g ++ [pool]) ({[sp_NodeName pool]} ∪ g_seen g)
    (wrap64 (g_free g + sp_FreeCapacity pool)).

Fixpoint add_to_groups (gs : list group) (tuple : gmap string string) (key : string)
    (pool : StoragePool) : list group :=
  match gs with
  | [] => [group_add (mkGroup tuple key [] ∅ 0) pool]
  | g :: rest => if bool_decide (g_key g = key) then group_add g pool :: rest
                 else g :: add_to_groups rest tuple key pool
  end.

(** The map [byKey], as the groups in order of first appearance. *)
Definition groups_of (candidates : list StoragePool) (nodes : gmap string (gmap string string))
    (keys : list string) : list group :=
  foldl (fun gs pool =>
    let tuple := lookupKeys (node_props nodes (sp_NodeName pool)) keys in
    add_to_groups gs tuple (tupleKey tuple) pool) [] candidates.

(** [groups[i].free > groups[j].free], ties on the smaller key. *)
Definition group_before (g h : group) : bool :=
  if bool_decide (g_free g <> g_free h) then bool_decide (g_free h < g_free g)
  else bool_decide (String.le (g_key g) (g_key h) /\ g_key g <> g_key h).

Definition by_elements {A} (lt : A -> A -> bool) (l : list A) (i j : nat) : bool :=
  match l !! i, l !! j with Some x, Some y => lt x y | _, _ => false end.

Definition pickSameGroup (candidates : list StoragePool) (nodes : gmap string (gmap string string))
    (keys : list string) (want : Z) : list StoragePool * option (gmap string string) :=
  let groups := filter (fun g => want <= Z.of_nat (size (g_seen g))) (groups_of candidates nodes keys) in
  match SliceStable (by_elements group_before) groups with
  | [] => (candidates, None)
  | winner :: _ => (g_pools winner, Some (g_tuple winner))
  end.

(** ** Candidate pools *)

Definition matchesPoolFilter (pool : StoragePool) (filter : AutoSelectFilter)
    (disabled : gset string) : bool :=
  if bool_decide (sp_ProviderKind pool = StoragePoolKindDiskless) then false
  else if bool_decide (sp_NodeName pool ∈ disabled) then false
  else if sp_PoolMissing pool then false
  else if bool_decide (StoragePool_ filter <> "" /\ sp_StoragePoolName pool <> StoragePool_ filter)
    then false
  else if bool_decide (StoragePoolList filter <> [])
          && negb (Contains (StoragePoolList filter) (sp_StoragePoolName pool)) then false
  else if bool_decide (NodeNameList filter <> [])
          && negb (Contains (NodeNameList filter) (sp_NodeName pool)) then false
  else if bool_decide (ProviderList filter <> [])
          && negb (Contains (ProviderList filter) (sp_ProviderKind pool)) then false
  else true.

Record candidateGates := mkGates {
  maxFreeBelow : Z;
  oversubBest : option OversubscriptionShortfallError;
}.

Definition oversubRejects (pool : StoragePool) (ctrlProps : gmap string string) (minFreeKib : Z)
    (gates : candidateGates) : bool * candidateGates :=
  let '(capKib, kind, ratioValue) := effectiveOversubCaps pool ctrlProps in
  if bool_decide (minFreeKib <= capKib) then (false, gates)
  else
    let better := match oversubBest gates with
                  | None => true
                  | Some b => bool_decide (os_EffectiveCapKib b < capKib)
                  end in
    (true,
     if better : bool then mkGates (maxFreeBelow gates)
       (Some (mkOversub minFreeKib (sp_StoragePoolName pool) (sp_NodeName pool) kind ratioValue capKib))
     else gates).

Fixpoint gate_loop (all : list StoragePool) (filter : AutoSelectFilter) (disabled : gset string)
    (ctrlProps : gmap string string) (minFreeKib : Z) (gates : candidateGates)
    : list StoragePool * candidateGates :=
  match all with
  | [] => ([], gates)
  | pool :: rest =>
      if negb (matchesPoolFilter pool filter disabled) then
        gate_loop rest filter disabled ctrlProps minFreeKib gates
      else if bool_decide (0 < minFreeKib /\ sp_FreeCapacity pool < minFreeKib) then
        gate_loop rest filter disabled ctrlProps minFreeKib
          (if bool_decide (maxFreeBelow gates < sp_FreeCapacity pool)
           then mkGates (sp_FreeCapacity pool) (oversubBest gates) else gates)
      else
        let '(rejected, gates') :=
          if bool_decide (0 < minFreeKib) then oversubRejects pool ctrlProps minFreeKib gates
          else (false, gates) in
        if rejected : bool then gate_loop rest filter disabled ctrlProps minFreeKib gates'
        else let '(out, g) := gate_loop rest filter disabled ctrlProps minFreeKib gates' in
             (pool :: out, g)
  end.

Definition applyCapacityAndOversubGates (all : list StoragePool) (filter : AutoSelectFilter)
    (disabled : gset string) (ctrlProps : gmap string string) (minFreeKib : Z)
    : list StoragePool * candidateGates :=
  gate_loop all filter disabled ctrlProps minFreeKib (mkGates 0 None).

(** ** Ranking *)

Record weights := mkWeights {
  w_maxFreeSpace : float;
  w_minReservedSpace : float;
  w_minRscCount : float;
  w_maxThroughput : float;
}.

Definition parseWeight (raw : string) : float :=
  if bool_decide (raw = "") then f1
  else match Parse.ParseFloat raw with
       | None => f1
       | Some weight => if flt weight f0 then f0 else weight
       end.

Definition reservedKib (pool : StoragePool) : Z :=
  let raw := getp (sp_Props pool) PropAuxPoolReservedKib in
  if bool_decide (raw = "") then 0
  else match parse_int 64 raw with
       | Some v => if bool_decide (v < 0) then 0 else v
       | None => 0
       end.

Definition throughputHint (pool : StoragePool) : float :=
  let raw := getp (sp_Props pool) PropAutoplacerMaxThroughput in
  if bool_decide (raw = "") then f0
  else match Parse.ParseFloat raw with
       | Some v => if flt v f0 then f0 else v
       | None => f0
       end.

Definition composite (pool : StoragePool) (w : weights) (rscPerNode : gmap string Z)
    (maxThroughput : float) : float :=
  let total := sp_TotalCapacity pool in
  let s0 := f0 in
  let s1 := if flt f0 (w_maxFreeSpace w) && bool_decide (0 < total) then
              fadd s0 (fmul (w_maxFreeSpace w) (fdiv (of_int (sp_FreeCapacity pool)) (of_int total)))
            else s0 in
  let s2 := if flt f0 (w_minReservedSpace w) && bool_decide (0 < total) then
              let reserved := Z.min (reservedKib pool) total in
              fadd s1 (fmul (w_minReservedSpace w) (fsub f1 (fdiv (of_int reserved) (of_int total))))
            else s1 in
  let s3 := if flt f0 (w_minRscCount w) then
              fadd s2 (fmul (w_minRscCount w)
                (fdiv f1 (of_int (1 + default 0 (rscPerNode !! sp_NodeName pool)))))
            else s2 in
  if flt f0 (w_maxThroughput w) && flt f0 maxThroughput then
    fadd s3 (fmul (w_maxThroughput w) (fdiv (throughputHint pool) maxThroughput))
  else s3.

(** The comparison of [rankCandidates] at positions [i] and [j]: the score slice is
    indexed by position and does not move with the pools. *)
Definition rank_less (scores : list float) (pools : list StoragePool) (i j : nat) : bool :=
  match scores !! i, scores !! j, pools !! i, pools !! j with
  | Some si, Some sj, Some pi, Some pj =>
      if negb (feq si sj) then flt sj si
      else bool_decide (String.le (sp_NodeName pi) (sp_NodeName pj) /\ sp_NodeName pi <> sp_NodeName pj)
  | _, _, _, _ => false
  end.

Definition max_throughput (pools : list StoragePool) : float :=
  foldl (fun m p => let t := throughputHint p in if flt m t then t else m) f0 pools.

Definition scores_of (pools : list StoragePool) (w : weights) (rscPerNode : gmap string Z)
    : list float :=
  (fun p => composite p w rscPerNode (max_throughput pools)) <$> pools.

Definition rankCandidates (pools : list StoragePool) (w : weights) (rscPerNode : gmap string Z)
    : list StoragePool :=
  if (length pools <? 2)%nat then pools
  else SliceStable (rank_less (scores_of pools w rscPerNode)) pools.

(** ** The placement state *)

Record state := mkState {
  ps_nodes : gmap string (gmap string string);
  ps_taken : gset string;
  ps_sameTuple : option (gmap string string);
  ps_diffSeen : gset string;
  ps_sharedSeen : gset string;
  ps_pools : gmap string StoragePool;
  ps_filter : AutoSelectFilter;
  ps_firstKind : string;
  ps_allowMixing : bool;
  ps_xBuckets : gmap string Z;
  ps_upgradeable : gmap string string;
}.

Definition poolKey (node pool : string) : string := node +:+ String unit_sep pool.

Definition poolsByKey (pools : list StoragePool) : gmap string StoragePool :=
  foldl (fun out p => <[poolKey (sp_NodeName p) (sp_StoragePoolName p) := p]> out) ∅ pools.

Definition xBucketKey (key : string) (nodeProps : gmap string string) : string :=
  key +:+ "=" +:+ getp nodeProps (auxKey key).

Definition bucket (b : gmap string Z) (k : string) : Z := default 0 (b !! k).

(** [for key := range filter.XReplicasOnDifferentMap { xBuckets[...]++ }] *)
Definition bump_buckets (f : AutoSelectFilter) (nodeProps : gmap string string) (b : gmap string Z)
    : gmap string Z :=
  foldl (fun b kv => let k := xBucketKey kv.1 nodeProps in <[k := bucket b k + 1]> b) b
    (map_to_list (XReplicasOnDifferentMap f)).

(** The fields [newState] seeds from one existing replica. *)
Definition seed_replica (f : AutoSelectFilter) (nodes : gmap string (gmap string string))
    (pools : gmap string StoragePool) (s : state) (r : Resource) : state :=
  if Contains (res_Flags r) ResourceFlagDiskless then
    mkState (ps_nodes s) (ps_taken s) (ps_sameTuple s) (ps_diffSeen s) (ps_sharedSeen s) (ps_pools s)
      (ps_filter s) (ps_firstKind s) (ps_allowMixing s) (ps_xBuckets s)
      (<[res_NodeName r := getp (res_Props r) storPoolNameProp]> (ps_upgradeable s))
  else
    let taken := {[res_NodeName r]} ∪ ps_taken s in
    let xb := bump_buckets f (node_props nodes (res_NodeName r)) (ps_xBuckets s) in
    let stor := getp (res_Props r) storPoolNameProp in
    let found := if bool_decide (stor = "") then None
                 else pools !! poolKey (res_NodeName r) stor in
    let shared := match found with
                  | Some p => if bool_decide (sp_SharedSpaceID p <> "")
                              then {[sp_SharedSpaceID p]} ∪ ps_sharedSeen s else ps_sharedSeen s
                  | None => ps_sharedSeen s
                  end in
    let kind := match found with
                | Some p => if bool_decide (ps_firstKind s = "") then sp_ProviderKind p
                            else ps_firstKind s
                | None => ps_firstKind s
                end in
    mkState (ps_nodes s) taken (ps_sameTuple s) (ps_diffSeen s) shared (ps_pools s) (ps_filter s)
      kind (ps_allowMixing s) xb (ps_upgradeable s).

Definition newState (f : AutoSelectFilter) (existing : list Resource)
    (nodes : gmap string (gmap string string)) (pools : list StoragePool) (allowMixing : bool) : state :=
  let byKey := poolsByKey pools in
  foldl (seed_replica f nodes byKey)
    (mkState nodes ∅ (topologyTuple existing nodes (ReplicasOnSame f))
       (topologySeen existing nodes (ReplicasOnDifferent f)) ∅ byKey f "" allowMixing ∅ ∅)
    existing.

Definition exceedsXBucket (s : state) (nodeProps : gmap string string) : bool :=
  existsb (fun kv => bool_decide (0 < kv.2)
                     && bool_decide (kv.2 <= bucket (ps_xBuckets s) (xBucketKey kv.1 nodeProps)))
    (map_to_list (XReplicasOnDifferentMap (ps_filter s))).

Definition allowsKindMix (s : state) (kind : string) : bool :=
  if bool_decide (ps_firstKind s = "") then true
  else IsProviderKindMixingAllowed (ps_firstKind s) kind (ps_allowMixing s).

Definition candidateNodeProps (s : state) (pool : StoragePool) : option (gmap string string) :=
  if bool_decide (sp_NodeName pool ∈ ps_taken s) then None
  else
    let nodeProps := node_props (ps_nodes s) (sp_NodeName pool) in
    if negb (matchesTuple nodeProps (ReplicasOnSame (ps_filter s)) (ps_sameTuple s)) then None
    else if collidesWithDiff nodeProps (ReplicasOnDifferent (ps_filter s)) (ps_diffSeen s) then None
    else if exceedsXBucket s nodeProps then None
    else if bool_decide (sp_SharedSpaceID pool <> "" /\ sp_SharedSpaceID pool ∈ ps_sharedSeen s)
      then None
    else if negb (allowsKindMix s (sp_ProviderKind pool)) then None
    else Some nodeProps.

(** The bookkeeping of [tryPlace] after the replica is in the store. *)
Definition commit (s : state) (pool : StoragePool) (nodeProps : gmap string string) : state :=
  let f := ps_filter s in
  mkState (ps_nodes s) ({[sp_NodeName pool]} ∪ ps_taken s)
    (match ps_sameTuple s, ReplicasOnSame f with
     | None, _ :: _ => Some (lookupKeys nodeProps (ReplicasOnSame f))
     | t, _ => t
     end)
    (list_to_set ((fun k => diffKey k nodeProps) <$> bare_specs (ReplicasOnDifferent f)) ∪ ps_diffSeen s)
    (if bool_decide (sp_SharedSpaceID pool <> "") then {[sp_SharedSpaceID pool]} ∪ ps_sharedSeen s
     else ps_sharedSeen s)
    (ps_pools s) f
    (if bool_decide (ps_firstKind s = "") then sp_ProviderKind pool else ps_firstKind s)
    (ps_allowMixing s)
    (bump_buckets f nodeProps (ps_xBuckets s))
    (delete (sp_NodeName pool) (ps_upgradeable s)).

(** The row of a fresh diskful replica, and the edit that promotes a witness. *)
Definition new_diskful (rdName : string) (pool : StoragePool) : Resource :=
  mkResource rdName (sp_NodeName pool) {[storPoolNameProp := sp_StoragePoolName pool]} []
    zero_ResourceState "" None None false [] ∅ 0.

Definition new_diskless (rdName node : string) : Resource :=
  mkResource rdName node ∅ ["DISKLESS"] zero_ResourceState "" None None false [] ∅ 0.

Definition promote (pool : StoragePool) (live : Resource) : Resource :=
  with_res_spec live (PromoteWitnessFlags (res_Flags live) true).1
    (<[storPoolNameProp := sp_StoragePoolName pool]> (res_Props live)).

Definition countDiskfulReplicas (existing : list Resource) (disabled : gset string) : Z :=
  Z.of_nat (length (filter (fun r =>
    (res_NodeName r ∉ disabled) /\ (ResourceFlagDiskless ∉ res_Flags r)
    /\ (ResourceFlagInactive ∉ res_Flags r)) existing)).

Definition disabledNodes (nodes : list Node) : gset string :=
  list_to_set (node_Name <$> filter (fun n => NodeFlagEvicted ∈ node_Flags n
                                              \/ NodeFlagLost ∈ node_Flags n) nodes).

(** An [AutoplaceTarget] property that parses to false. *)
Definition opted_out (n : Node) : bool :=
  match node_Props n !! PropAutoplaceTarget with
  | Some raw => bool_decide (ParseBool raw = Some false)
  | None => false
  end.

Definition autoplaceExcludedNodes (nodes : list Node) (disabled : gset string) : gset string :=
  disabled ∪ list_to_set (node_Name <$> filter (fun n => opted_out n = true) nodes).

Definition nodesByName (nodes : list Node) : gmap string (gmap string string) :=
  foldl (fun out n => <[node_Name n := node_Props n]> out) ∅ nodes.

Definition requiredKib (vds : list VolumeDefinition) : Z :=
  foldl (fun m vd => if bool_decide (m < vd_SizeKib vd) then vd_SizeKib vd else m) 0 vds.

Definition resourcesPerNode (all : list Resource) : gmap string Z :=
  foldl (fun out r => <[res_NodeName r := default 0 (out !! res_NodeName r) + 1]> out) ∅ all.

Definition loadWeights (p : gmap string string) : weights :=
  mkWeights (parseWeight (getp p PropAutoplacerWeightMaxFreeSpace))
    (parseWeight (getp p PropAutoplacerWeightMinReservedSpace))
    (parseWeight (getp p PropAutoplacerWeightMinRscCount))
    (parseWeight (getp p PropAutoplacerWeightMaxThroughput)).

Definition loadAllowPoolDriverMixing (p : gmap string string) : bool :=
  Str.equal_fold (getp p PropAllowMixingStoragePoolDriver) "true".

(** The nodes the not-place-with constraints exclude. *)
Definition notPlaceWithNodes `{RegexpLib} (rdName : string) (f : AutoSelectFilter)
    (all : list Resource) : gset string :=
  let pattern := if bool_decide (NotPlaceWithRscRegex f = "") then None
                 else re_Compile (NotPlaceWithRscRegex f) in
  let matched name := match pattern with Some m => m name | None => false end in
  list_to_set (res_NodeName <$> filter (fun r =>
    res_Name r <> rdName
    /\ (res_Name r ∈ NotPlaceWithRsc f \/ matched (res_Name r) = true)) all).

(** ** Driving the store *)

Section Driver.
Context {S : Type} {Ops : StoreOps S} {RE : RegexpLib}.

Open Scope go_scope.

Definition of_store {A} (r : result store_err A) : result place_err A :=
  match r with Ok a => Ok a | Err e => Err (StoreErr e) end.

Definition applyNotPlaceWith (rdName : string) (f : AutoSelectFilter)
    (candidates : list StoragePool) (s : S) : result place_err (list StoragePool) :=
  if bool_decide (NotPlaceWithRsc f = []) && bool_decide (NotPlaceWithRscRegex f = "") then Ok candidates
  else
    let! all := of_store (st_Resources_List s) in
    Ok (filter (fun p => sp_NodeName p ∉ notPlaceWithNodes rdName f all) candidates).

Definition candidatePools (f : AutoSelectFilter) (minFreeKib : Z) (s : S)
    : result place_err (list StoragePool * candidateGates) :=
  let! all := of_store (st_StoragePools_List s) in
  let! nodes := of_store (st_Nodes_List s) in
  let! ctrlProps := of_store (st_ControllerProps_Get s) in
  let excludedTargets := autoplaceExcludedNodes nodes (disabledNodes nodes) in
  let og := applyCapacityAndOversubGates all f excludedTargets ctrlProps minFreeKib in
  let! resources := of_store (st_Resources_List s) in
  Ok (rankCandidates og.1 (loadWeights ctrlProps) (resourcesPerNode resources), og.2).

Record placePlan := mkPlan {
  pl_state : state;
  pl_preferred : list StoragePool;
  pl_lastResort : list StoragePool;
  pl_existing : list Resource;
  pl_disabled : gset string;
  pl_requiredKib : Z;
  pl_maxFreeKib : Z;
  pl_oversub : option OversubscriptionShortfallError;
}.

(** [buildPlan] either reports the shortfall numbers or assembles a plan. *)
Inductive plan_result :=
| PlanShortfall (required maxFree : Z) (oversub : option OversubscriptionShortfallError)
| PlanReady (p : placePlan).

Definition with_sameTuple (st : state) (t : option (gmap string string)) : state :=
  mkState (ps_nodes st) (ps_taken st) t (ps_diffSeen st) (ps_sharedSeen st) (ps_pools st)
    (ps_filter st) (ps_firstKind st) (ps_allowMixing st) (ps_xBuckets st) (ps_upgradeable st).

Definition assemblePlan (rdName : string) (f : AutoSelectFilter) (candidates : list StoragePool)
    (required : Z) (gates : candidateGates) (s : S) : result place_err placePlan :=
  let! existing := of_store (st_Resources_ListByDefinition s rdName) in
  let! nodeList := of_store (st_Nodes_List s) in
  let! allPools := of_store (st_StoragePools_List s) in
  let! ctrlProps := of_store (st_ControllerProps_Get s) in
  let! cands1 := applyNotPlaceWith rdName f candidates s in
  let nodes := nodesByName nodeList in
  let cands2 := filterSamePinned cands1 nodes (ReplicasOnSame f) in
  let st := newState f existing nodes allPools (loadAllowPoolDriverMixing ctrlProps) in
  let cs := match ps_sameTuple st, ReplicasOnSame f with
            | None, _ :: _ =>
                let '(c, t) := pickSameGroup cands2 nodes (ReplicasOnSame f) (PlaceCount f) in
                (c, with_sameTuple st t)
            | _, _ => (cands2, st)
            end in
  let pl := partitionByExclusion cs.1 nodes (ReplicasOnDifferent f) in
  Ok (mkPlan cs.2 pl.1 pl.2 existing (disabledNodes nodeList) required (maxFreeBelow gates)
        (oversubBest gates)).

Definition buildPlan (rdName : string) (f : AutoSelectFilter) (s : S)
    : result place_err plan_result :=
  let! vds := of_store (st_VolumeDefinitions_List s rdName) in
  let required := requiredKib vds in
  let! cg := candidatePools f required s in
  if bool_decide (0 < required) && bool_decide (cg.1 = [])
  then Ok (PlanShortfall required (maxFreeBelow cg.2) (oversubBest cg.2))
  else let! p := assemblePlan rdName f cg.1 required cg.2 s in Ok (PlanReady p).

(** [promoteWitness]: patch the witness in place; if it vanished, create. *)
Definition promoteWitness (rdName : string) (pool : StoragePool) (s : S)
    : result place_err unit * S :=
  match st_Resources_PatchResourceSpec s rdName (sp_NodeName pool) (fun live => Ok (promote pool live)) with
  | (Ok _, s') => (Ok tt, s')
  | (Err ErrNotFound, s') =>
      match st_Resources_Create s' (new_diskful rdName pool) with
      | (Ok _, s'') => (Ok tt, s'')
      | (Err ErrAlreadyExists, s'') => (Ok tt, s'')
      | (Err e, s'') => (Err (StoreErr e), s'')
      end
  | (Err e, s') => (Err (StoreErr e), s')
  end.

Definition tryPlace (rdName : string) (pool : StoragePool) (st : state) (s : S)
    : result place_err bool * state * S :=
  match candidateNodeProps st pool with
  | None => (Ok false, st, s)
  | Some nodeProps =>
      let '(r, s') :=
        match ps_upgradeable st !! sp_NodeName pool with
        | Some _ => promoteWitness rdName pool s
        | None =>
            match st_Resources_Create s (new_diskful rdName pool) with
            | (Ok _, s') => (Ok tt, s')
            | (Err ErrAlreadyExists, s') => (Ok tt, s')
            | (Err e, s') => (Err (StoreErr e), s')
            end
        end in
      match r with
      | Err e => (Err e, st, s')
      | Ok _ => (Ok true, commit st pool nodeProps, s')
      end
  end.

Fixpoint placeDiskful (rdName : string) (candidates : list StoragePool) (placed want : Z)
    (st : state) (s : S) : Z * option place_err * state * S :=
  match candidates with
  | [] => (placed, None, st, s)
  | pool :: rest =>
      if bool_decide (want <= placed) then (placed, None, st, s)
      else match tryPlace rdName pool st s with
           | (Err e, st', s') => (placed, Some e, st', s')
           | (Ok ok, st', s') => placeDiskful rdName rest (if ok : bool then placed + 1 else placed) want st' s'
           end
  end.

(** [for nodeName := range state.nodes], in the order [names]. *)
Fixpoint diskless_loop (rdName : string) (names : list string) (taken : gset string) (s : S)
    : option place_err * S :=
  match names with
  | [] => (None, s)
  | n :: rest =>
      if bool_decide (n ∈ taken) then diskless_loop rdName rest taken s
      else match st_Resources_Create s (new_diskless rdName n) with
           | (Ok _, s') => diskless_loop rdName rest ({[n]} ∪ taken) s'
           | (Err ErrAlreadyExists, s') => diskless_loop rdName rest ({[n]} ∪ taken) s'
           | (Err e, s') => (Some (StoreErr e), s')
           end
  end.

Definition placeDisklessOnRemaining (ord : list string -> list string) (rdName : string)
    (st : state) (s : S) : option place_err * S :=
  diskless_loop rdName (ord (map_to_list (ps_nodes st)).*1) (ps_taken st) s.

(** [SourceProviderKind]: the first diskful replica whose pool resolves. *)
Fixpoint first_provider_kind (l : list Resource) (s : S) : string :=
  match l with
  | [] => ""
  | r :: rest =>
      let pool := getp (res_Props r) storPoolNameProp in
      if Contains (res_Flags r) ResourceFlagDiskless || bool_decide (pool = "")
      then first_provider_kind rest s
      else match st_StoragePools_Get s (res_NodeName r) pool with
           | Err _ => first_provider_kind rest s
           | Ok sp => if bool_decide (sp_ProviderKind sp = "")
                         || bool_decide (sp_ProviderKind sp = StoragePoolKindDiskless)
                      then first_provider_kind rest s else sp_ProviderKind sp
           end
  end.

Definition SourceProviderKind (srcRDName : string) (s : S) : string :=
  match st_Resources_ListByDefinition s srcRDName with
  | Err _ => ""
  | Ok l => first_provider_kind l s
  end.

Definition constrainFilterToRestoreSource (rdName : string) (f : AutoSelectFilter) (s : S)
    : AutoSelectFilter :=
  match st_ResourceDefinitions_Get s rdName with
  | Err _ => f
  | Ok rd =>
      let stamp := getp (rd_Props rd) restoreFromSnapshotProp in
      if bool_decide (stamp = "") then f
      else match Str.cut ":"%char stamp with
           | None => f
           | Some (srcRD, _) =>
               if bool_decide (srcRD = "") then f
               else let kind := SourceProviderKind srcRD s in
                    if bool_decide (kind = "") then f else with_ProviderList f [kind]
           end
  end.

(** [Place]: the count placed, the count wanted, the error, the new store. *)
Definition shortfall_error (maxFree required : Z) (oversub : option OversubscriptionShortfallError)
    : place_err :=
  match oversub with
  | Some e => if bool_decide (maxFree = 0) then OversubShortfall e
              else CapacityShortfall (mkCapacity required maxFree)
  | None => CapacityShortfall (mkCapacity required maxFree)
  end.

Definition place_tail (plan : placePlan) (placed want : Z) : option place_err :=
  if bool_decide (placed < want) && bool_decide (0 < pl_requiredKib plan) then
    if bool_decide (0 < pl_maxFreeKib plan) then
      Some (CapacityShortfall (mkCapacity (pl_requiredKib plan) (pl_maxFreeKib plan)))
    else OversubShortfall <$> pl_oversub plan
  else None.

Definition Place (ord : list string -> list string) (rdName : string) (filter0 : AutoSelectFilter)
    (s : S) : Z * Z * option place_err * S :=
  let f := constrainFilterToRestoreSource rdName filter0 s in
  match buildPlan rdName f s with
  | Err e => (0, 0, Some e, s)
  | Ok (PlanShortfall required maxFree oversub) =>
      (0, PlaceCount f, Some (shortfall_error maxFree required oversub), s)
  | Ok (PlanReady plan) =>
      let want := PlaceCount f in
      let placed0 := countDiskfulReplicas (pl_existing plan) (pl_disabled plan) in
      match placeDiskful rdName (pl_preferred plan) placed0 want (pl_state plan) s with
      | (placed1, Some e, _, s1) => (placed1, want, Some e, s1)
      | (placed1, None, st1, s1) =>
          match placeDiskful rdName (pl_lastResort plan) placed1 want st1 s1 with
          | (placed2, Some e, _, s2) => (placed2, want, Some e, s2)
          | (placed2, None, st2, s2) =>
              if DisklessOnRemaining f && bool_decide (want <= placed2) then
                match placeDisklessOnRemaining ord rdName st2 s2 with
                | (Some e, s3) => (placed2, want, Some e, s3)
                | (None, s3) => (placed2, want, place_tail plan placed2 want, s3)
                end
              else (placed2, want, place_tail plan placed2 want, s2)
          end
      end
  end.

End Driver.
