(* ===== verification/PlacerFacts.v ===== *)
(** * The placement loop as a pure greedy selection

    A reference algorithm ([greedy]) that only selects pools, the refinement of the
    store-driving loop to it on any reliable backend, and the lemmas on runs of
    accepted candidates the properties of [PlacerProps.v] rest on. *)

From Stdlib Require Import Ascii.
From S2P Require Import Prelude Api GoFloat GoSort Store Placer.

(** ** The reference algorithm *)

(** Take the candidates in order, keep those the state accepts, until the budget is
    spent. *)
Fixpoint greedy (st : state) (cands : list StoragePool) (budget : nat)
    : list StoragePool * state :=
  match cands, budget with
  | [], _ | _, O => ([], st)
  | p :: rest, S b =>
      match candidateNodeProps st p with
      | None => greedy st rest budget
      | Some np => let '(chosen, st') := greedy (commit st p np) rest b in (p :: chosen, st')
      end
  end.

(** A run of accepted candidates from one state to another. *)
Inductive run : state -> list StoragePool -> state -> Prop :=
| run_nil st : run st [] st
| run_cons st p np chosen st' :
    candidateNodeProps st p = Some np -> run (commit st p np) chosen st' ->
    run st (p :: chosen) st'.

Lemma greedy_run st cands budget :
  run st (greedy st cands budget).1 (greedy st cands budget).2.
Proof.
  revert st budget; induction cands as [|p rest IH]; intros st budget; cbn; [constructor|].
  destruct budget as [|b]; [constructor|].
  destruct (candidateNodeProps st p) as [np|] eqn:E; [|apply IH].
  specialize (IH (commit st p np) b). destruct (greedy _ rest b) as [ch st'].
  by apply run_cons with np.
Qed.

Lemma greedy_sublist st cands budget : (greedy st cands budget).1 `sublist_of` cands.
Proof.
  revert st budget; induction cands as [|p rest IH]; intros st budget; cbn; [constructor|].
  destruct budget as [|b]; [apply sublist_nil_l|].
  destruct (candidateNodeProps st p) as [np|]; [|by constructor; apply IH].
  specialize (IH (commit st p np) b). destruct (greedy _ rest b); cbn in *. by constructor.
Qed.

Lemma greedy_length st cands budget : (length (greedy st cands budget).1 <= budget)%nat.
Proof.
  revert st budget; induction cands as [|p rest IH]; intros st budget; cbn; [lia|].
  destruct budget as [|b]; [done|].
  destruct (candidateNodeProps st p) as [np|]; [|apply IH].
  specialize (IH (commit st p np) b). destruct (greedy _ rest b); cbn in *. lia.
Qed.

Lemma run_app st ch1 st1 ch2 st2 : run st ch1 st1 -> run st1 ch2 st2 -> run st (ch1 ++ ch2) st2.
Proof. induction 1; cbn; [done|]. intros. econstructor; eauto. Qed.

(** ** What acceptance means *)

Lemma candidateNodeProps_Some st p np :
  candidateNodeProps st p = Some np ->
  np = node_props (ps_nodes st) (sp_NodeName p)
  /\ (sp_NodeName p ∉ ps_taken st)
  /\ matchesTuple np (ReplicasOnSame (ps_filter st)) (ps_sameTuple st) = true
  /\ collidesWithDiff np (ReplicasOnDifferent (ps_filter st)) (ps_diffSeen st) = false
  /\ exceedsXBucket st np = false
  /\ (sp_SharedSpaceID p <> "" -> sp_SharedSpaceID p ∉ ps_sharedSeen st)
  /\ allowsKindMix st (sp_ProviderKind p) = true.
Proof.
  unfold candidateNodeProps. case_bool_decide as H1; [done|].
  destruct (matchesTuple _ _ _) eqn:H2; [|done]. cbn [negb].
  destruct (collidesWithDiff _ _ _) eqn:H3; [done|].
  destruct (exceedsXBucket _ _) eqn:H4; [done|].
  case_bool_decide as H5; [done|].
  destruct (allowsKindMix _ _) eqn:H6; [|done]. intros [= <-]. split_and!; auto.
Qed.

Lemma commit_nodes st p np : ps_nodes (commit st p np) = ps_nodes st.
Proof. done. Qed.
Lemma commit_filter st p np : ps_filter (commit st p np) = ps_filter st.
Proof. done. Qed.

Lemma run_frame st ch st' :
  run st ch st' -> ps_nodes st' = ps_nodes st /\ ps_filter st' = ps_filter st
    /\ ps_allowMixing st' = ps_allowMixing st.
Proof. induction 1 as [|???? ? ? ? (H1 & H2 & H3)]; [done|]. by rewrite H1, H2, H3. Qed.

(** A run never uses a token (a node, a topology value, a shared-disk id) twice nor
    one already spent, when acceptance checks the token and committing spends it. *)
Lemma run_tokens {T} `{Countable T} (tok : state -> StoragePool -> option T)
    (spent : state -> gset T) :
  (forall st p np q, tok (commit st p np) q = tok st q) ->
  (forall st p np x, candidateNodeProps st p = Some np -> tok st p = Some x -> x ∉ spent st) ->
  (forall st p np x, candidateNodeProps st p = Some np -> tok st p = Some x ->
     {[x]} ∪ spent st ⊆ spent (commit st p np)) ->
  (forall st p np, spent st ⊆ spent (commit st p np)) ->
  forall st ch st', run st ch st' ->
    NoDup (omap (tok st) ch) /\ (forall x, x ∈ omap (tok st) ch -> x ∉ spent st).
Proof.
  intros Htok Hacc Hcom Hmono st ch st'. induction 1 as [st|st p np ch st' Hp _ [IH1 IH2]].
  - split; [constructor|]. intros x Hx. by apply not_elem_of_nil in Hx.
  - assert (omap (tok (commit st p np)) ch = omap (tok st) ch) as Heq
      by (apply list_omap_ext, list.Forall_Forall2_diag, list.Forall_true; intros q; apply Htok).
    rewrite Heq in IH1, IH2. cbn. destruct (tok st p) as [x|] eqn:Ex.
    + pose proof (Hcom _ _ _ _ Hp Ex) as Hsub. split.
      * constructor; [|done]. intros Hin. apply IH2 in Hin. set_solver.
      * intros y [->|Hy]%elem_of_cons; [by eapply Hacc|]. apply IH2 in Hy. set_solver.
    + split; [done|]. intros y Hy%IH2. specialize (Hmono st p np). set_solver.
Qed.

Lemma run_nodes st ch st' :
  run st ch st' -> NoDup (sp_NodeName <$> ch) /\ (forall p, p ∈ ch -> sp_NodeName p ∉ ps_taken st).
Proof.
  intros Hr. destruct (run_tokens (fun _ p => Some (sp_NodeName p)) ps_taken) with (5 := Hr)
    as [H1 H2]; [done|..].
  - intros st0 p np x Hc [= <-]. by apply candidateNodeProps_Some in Hc as (_ & ? & _).
  - intros st0 p np x Hc [= <-]. done.
  - intros st0 p np. cbn. set_solver.
  - assert (omap (fun p => Some (sp_NodeName p)) ch = sp_NodeName <$> ch) as E
      by (clear; induction ch; cbn; congruence).
    rewrite E in H1, H2. split; [done|]. intros p Hp. apply H2. by apply list_elem_of_fmap_2.
Qed.

Lemma bare_spec_elem k keys : k ∈ bare_specs keys <-> k ∈ keys /\ Str.contains_char "="%char k = false.
Proof.
  unfold bare_specs. rewrite list_elem_of_filter. unfold parseDiffSpec.
  rewrite <- StrFacts.cut_None. destruct (Str.cut "="%char k) as [[]|]; cbn; naive_solver.
Qed.

Lemma collides_false np keys seen k :
  collidesWithDiff np keys seen = false -> k ∈ bare_specs keys -> diffKey k np ∉ seen.
Proof.
  unfold collidesWithDiff. intros Hc Hk Hin. apply bare_spec_elem in Hk as [Hk Hb].
  apply not_true_iff_false in Hc. apply Hc. apply existsb_exists. exists k.
  split; [by apply list_elem_of_In|].
  unfold parseDiffSpec. apply StrFacts.cut_None in Hb. rewrite Hb. by rewrite bool_decide_eq_true_2.
Qed.

Lemma run_diff st ch st' k :
  run st ch st' -> k ∈ bare_specs (ReplicasOnDifferent (ps_filter st)) ->
  NoDup ((fun p => diffKey k (node_props (ps_nodes st) (sp_NodeName p))) <$> ch)
  /\ (forall p, p ∈ ch -> diffKey k (node_props (ps_nodes st) (sp_NodeName p)) ∉ ps_diffSeen st).
Proof.
  intros Hr Hk.
  destruct (run_tokens (fun s p => if decide (k ∈ bare_specs (ReplicasOnDifferent (ps_filter s)))
      then Some (diffKey k (node_props (ps_nodes s) (sp_NodeName p))) else None) ps_diffSeen)
    with (5 := Hr) as [H1 H2]; [done|..].
  - intros st0 p np x Hc. case_decide as Hk0; [|done]. intros [= <-].
    apply candidateNodeProps_Some in Hc as (-> & _ & _ & Hd & _). by eapply collides_false.
  - intros st0 p np x Hc. case_decide as Hk0; [|done]. intros [= <-].
    apply candidateNodeProps_Some in Hc as (-> & _). cbn.
    apply union_mono; [|done]. intros y ->%elem_of_singleton.
    apply elem_of_list_to_set, list_elem_of_fmap. eauto.
  - intros st0 p np. cbn. set_solver.
  - assert (omap (fun p => if decide (k ∈ bare_specs (ReplicasOnDifferent (ps_filter st)))
        then Some (diffKey k (node_props (ps_nodes st) (sp_NodeName p))) else None) ch
      = (fun p => diffKey k (node_props (ps_nodes st) (sp_NodeName p))) <$> ch) as E.
    { clear -Hk. induction ch as [|p ch IH]; [done|]. cbn. rewrite IH. by rewrite decide_True. }
    rewrite E in H1, H2. split; [done|]. intros p Hp. apply H2. apply list_elem_of_fmap. eauto.
Qed.

Lemma run_shared st ch st' :
  run st ch st' ->
  NoDup (filter (fun x => x <> "") (sp_SharedSpaceID <$> ch))
  /\ (forall p, p ∈ ch -> sp_SharedSpaceID p <> "" -> sp_SharedSpaceID p ∉ ps_sharedSeen st).
Proof.
  intros Hr.
  destruct (run_tokens (fun _ p => if decide (sp_SharedSpaceID p <> "") then Some (sp_SharedSpaceID p)
      else None) ps_sharedSeen) with (5 := Hr) as [H1 H2]; [done|..].
  - intros st0 p np x Hc. case_decide as Hd; [|done]. intros [= <-].
    apply candidateNodeProps_Some in Hc as (_ & _ & _ & _ & _ & Hs & _). auto.
  - intros st0 p np x Hc. case_decide as Hd; [|done]. intros [= <-]. cbn.
    by rewrite bool_decide_eq_true_2.
  - intros st0 p np. cbn. case_bool_decide; set_solver.
  - assert (omap (fun p => if decide (sp_SharedSpaceID p <> "") then Some (sp_SharedSpaceID p)
              else None) ch = filter (fun x => x <> "") (sp_SharedSpaceID <$> ch)) as E.
    { clear. induction ch as [|p ch IH]; [done|]. rewrite fmap_cons, filter_cons, <- IH. cbn.
      by case_decide. }
    rewrite E in H1, H2. split; [done|]. intros p Hp Hne. apply H2.
    apply list_elem_of_filter. split; [done|]. by apply list_elem_of_fmap_2.
Qed.

(** ** Rejection is final *)

Lemma bump_buckets_mono f np b k : bucket b k <= bucket (bump_buckets f np b) k.
Proof.
  unfold bump_buckets. generalize (map_to_list (XReplicasOnDifferentMap f)) as l.
  intros l; revert b; induction l as [|kv l IH]; intros b; cbn; [lia|].
  etrans; [|apply IH]. destruct (decide (xBucketKey kv.1 np = k)) as [<-|Hne].
  - unfold bucket at 2. rewrite lookup_insert_eq. cbn. lia.
  - unfold bucket. rewrite lookup_insert_ne by done. lia.
Qed.

Lemma mixing_diskless_right k a : IsProviderKindMixingAllowed k k a = true.
Proof. unfold IsProviderKindMixingAllowed. repeat case_match; try done. by case_bool_decide. Qed.

Lemma collides_mono np keys seen seen' :
  seen ⊆ seen' -> collidesWithDiff np keys seen = true -> collidesWithDiff np keys seen' = true.
Proof.
  unfold collidesWithDiff. intros Hsub (k & Hk & Hin)%existsb_exists.
  apply existsb_exists. exists k. split; [done|]. destruct (parseDiffSpec k) as [[? ?] hv].
  apply andb_prop in Hin as [-> Hin%bool_decide_eq_true].
  cbn [andb]. apply bool_decide_eq_true. set_solver.
Qed.

Lemma exceeds_commit st p np qp :
  exceedsXBucket st qp = true -> exceedsXBucket (commit st p np) qp = true.
Proof.
  unfold exceedsXBucket. intros (kv & Hk & Hin)%existsb_exists.
  apply existsb_exists. exists kv. split; [done|].
  apply andb_prop in Hin as [-> Hin%bool_decide_eq_true].
  cbn [andb]. apply bool_decide_eq_true. etrans; [exact Hin|]. apply bump_buckets_mono.
Qed.

Lemma mixes_commit st p np k :
  allowsKindMix st k = false -> allowsKindMix (commit st p np) k = false.
Proof.
  unfold allowsKindMix. case_bool_decide as H1; [done|]. intros H2. cbn [ps_firstKind commit].
  rewrite (bool_decide_eq_false_2 (ps_firstKind st = "")) by done.
  by rewrite bool_decide_eq_false_2.
Qed.

Lemma reject_commit st p np q :
  candidateNodeProps st q = None -> candidateNodeProps (commit st p np) q = None.
Proof.
  unfold candidateNodeProps. rewrite commit_nodes, commit_filter.
  set (qp := node_props (ps_nodes st) (sp_NodeName q)). intros Hq.
  destruct (bool_decide (sp_NodeName q ∈ ps_taken (commit st p np))) eqn:E1; [done|].
  apply bool_decide_eq_false in E1. cbn in E1.
  rewrite bool_decide_eq_false_2 in Hq by set_solver.
  destruct (matchesTuple qp _ (ps_sameTuple (commit st p np))) eqn:E2; cbn [negb]; [|done].
  destruct (collidesWithDiff qp _ (ps_diffSeen (commit st p np))) eqn:E3; [done|].
  destruct (exceedsXBucket (commit st p np) qp) eqn:E4; [done|].
  destruct (bool_decide (_ /\ sp_SharedSpaceID q ∈ ps_sharedSeen (commit st p np))) eqn:E5; [done|].
  destruct (allowsKindMix (commit st p np) _) eqn:E6; cbn [negb]; [|done]. exfalso.
  assert (matchesTuple qp (ReplicasOnSame (ps_filter st)) (ps_sameTuple st) = true) as H2.
  { cbn in E2. by destruct (ps_sameTuple st). }
  rewrite H2 in Hq. cbn [negb] in Hq.
  destruct (collidesWithDiff qp _ (ps_diffSeen st)) eqn:H3.
  { eapply collides_mono in H3; [by rewrite H3 in E3|]. cbn. set_solver. }
  destruct (exceedsXBucket st qp) eqn:H4; [by rewrite (exceeds_commit _ _ _ _ H4) in E4|].
  apply bool_decide_eq_false in E5.
  rewrite bool_decide_eq_false_2 in Hq.
  2:{ intros [Hne Hin]. apply E5. split; [done|]. cbn.
      destruct (bool_decide (sp_SharedSpaceID p <> "")); [by apply elem_of_union_r | done]. }
  destruct (allowsKindMix st (sp_ProviderKind q)) eqn:H6; [done|].
  by rewrite (mixes_commit _ _ _ _ H6) in E6.
Qed.

Lemma reject_run st ch st' q :
  run st ch st' -> candidateNodeProps st q = None -> candidateNodeProps st' q = None.
Proof. induction 1; eauto using reject_commit. Qed.

Lemma reject_placed st p np : candidateNodeProps (commit st p np) p = None.
Proof. unfold candidateNodeProps. cbn. rewrite bool_decide_eq_true_2; [done|set_solver]. Qed.

(** With budget left over, the selection is maximal: every candidate is refused by
    the final state. *)
Lemma greedy_maximal st cands budget q :
  (length (greedy st cands budget).1 < budget)%nat -> q ∈ cands ->
  candidateNodeProps (greedy st cands budget).2 q = None.
Proof.
  revert st budget; induction cands as [|p rest IH]; intros st budget Hlt Hq; [by apply not_elem_of_nil in Hq|].
  cbn in Hlt |- *. destruct budget as [|b]; [cbn in Hlt; lia|].
  destruct (candidateNodeProps st p) as [np|] eqn:Hp.
  - pose proof (greedy_run (commit st p np) rest b) as Hr.
    specialize (IH (commit st p np) b). destruct (greedy _ rest b) as [ch st'] eqn:E; cbn in *.
    apply elem_of_cons in Hq as [->|Hq]; [|apply IH; [lia|done]].
    eapply reject_run; [done|]. apply reject_placed.
  - pose proof (greedy_run st rest (S b)) as Hr.
    apply elem_of_cons in Hq as [->|Hq]; [by eapply reject_run|]. by apply IH.
Qed.

(** ** The store-driving loop refines the reference algorithm *)

(** What placing a replica on a pool does to the replica table. *)
Definition place_row (rd : string) (T : gmap (string * string) Resource) (p : StoragePool)
    : gmap (string * string) Resource :=
  match T !! (rd, sp_NodeName p) with
  | Some live => <[(rd, sp_NodeName p) := promote p live]> T
  | None => <[(rd, sp_NodeName p) := new_diskful rd p]> T
  end.

Lemma res_carry_promote p live : res_carry live (promote p live) = promote p live.
Proof.
  unfold res_carry, promote, with_res_spec, with_res_Annotations, carryAnnotationsOnNil; cbn.
  by destruct (res_Annotations live).
Qed.

Lemma place_row_ne rd T p k : k <> (rd, sp_NodeName p) -> place_row rd T p !! k = T !! k.
Proof. intros Hk. unfold place_row. case_match; by rewrite lookup_insert_ne. Qed.

Lemma place_rows_other rd T ch k :
  (forall p, p ∈ ch -> k <> (rd, sp_NodeName p)) -> foldl (place_row rd) T ch !! k = T !! k.
Proof.
  revert T; induction ch as [|p ch IH]; intros T Hk; cbn; [done|].
  rewrite IH by (intros; apply Hk; by apply list_elem_of_further).
  apply place_row_ne, Hk, list_elem_of_here.
Qed.

Lemma place_rows_placed rd T ch p :
  NoDup (sp_NodeName <$> ch) -> p ∈ ch ->
  foldl (place_row rd) T ch !! (rd, sp_NodeName p)
    = Some (match T !! (rd, sp_NodeName p) with
            | Some live => promote p live
            | None => new_diskful rd p
            end).
Proof.
  revert T; induction ch as [|q ch IH]; intros T Hnd Hp; [by apply not_elem_of_nil in Hp|].
  rewrite fmap_cons in Hnd. cbn. apply list.NoDup_cons in Hnd as [Hq Hnd]. apply elem_of_cons in Hp as [->|Hp].
  - rewrite place_rows_other.
    + unfold place_row. case_match; by rewrite lookup_insert_eq.
    + intros q' Hq' [= Heq]. apply Hq. rewrite Heq. by apply list_elem_of_fmap_2.
  - rewrite IH by done. rewrite place_row_ne; [done|]. intros [= Heq]. apply Hq.
    rewrite <- Heq. by apply list_elem_of_fmap_2.
Qed.

Section Refinement.
#[local] Set Default Proof Using "Type*".
Context {S : Type} {Ops : StoreOps S} {Laws : StoreLaws S} {Rel : StoreReliable S}.

(** The bookkeeping knows which nodes hold a replica of the definition. *)
Definition tracks (rd : string) (st : state) (s : S) : Prop :=
  st_ok s /\ forall node, is_Some (st_table s !! (rd, node))
                <-> node ∈ ps_taken st \/ is_Some (ps_upgradeable st !! node).

Lemma create_diskful rd p s :
  st_ok s -> st_table s !! (rd, sp_NodeName p) = None ->
  exists s', st_Resources_Create s (new_diskful rd p) = (Ok tt, s') /\ st_ok s'
    /\ st_table s' = <[(rd, sp_NodeName p) := new_diskful rd p]> (st_table s).
Proof.
  intros Hok Hn. pose proof (st_create_law s (new_diskful rd p) Hok) as Hl.
  destruct (st_Resources_Create s (new_diskful rd p)) as [[[]|e] s'] eqn:E.
  - destruct Hl as (? & _ & _ & ?). eauto.
  - exfalso. apply rel_create in E as ->. destruct Hl as (_ & _ & _ & Hx).
    destruct (Hx eq_refl) as [x Hx']. unfold rKey in Hx'; cbn in Hx'. congruence.
Qed.

Lemma promote_witness_spec rd p s live :
  st_ok s -> st_table s !! (rd, sp_NodeName p) = Some live ->
  exists s', promoteWitness rd p s = (Ok tt, s') /\ st_ok s'
    /\ st_table s' = <[(rd, sp_NodeName p) := promote p live]> (st_table s).
Proof.
  intros Hok Hlive. unfold promoteWitness.
  pose proof (st_patch_law s rd (sp_NodeName p) (fun live => Ok (promote p live)) Hok) as Hl.
  destruct (st_Resources_PatchResourceSpec _ _ _ _) as [[[]|e] s'] eqn:E.
  - destruct Hl as (? & _ & r & r' & Hr & [= <-] & Ht); [by intros r r' [= <-]|].
    rewrite Hlive in Hr. injection Hr as <-. rewrite res_carry_promote in Ht. eauto.
  - exfalso. apply rel_patch in E as [->|[r Hr]]; [|done].
    destruct Hl as (_ & _ & _ & Hx); [by intros r r' [= <-]|].
    destruct (Hx eq_refl) as [Hn|[r Hr]]; [by rewrite Hlive in Hn | done].
Qed.

Lemma tryPlace_accept rd p st s np :
  tracks rd st s -> candidateNodeProps st p = Some np ->
  exists s', tryPlace rd p st s = (Ok true, commit st p np, s')
    /\ st_table s' = place_row rd (st_table s) p /\ tracks rd (commit st p np) s'.
Proof.
  intros [Hok Htr] Hp. unfold tryPlace. rewrite Hp.
  pose proof (candidateNodeProps_Some _ _ _ Hp) as (_ & Hnt & _).
  assert (exists s', st_ok s' /\ st_table s' = place_row rd (st_table s) p /\
    (match ps_upgradeable st !! sp_NodeName p with
     | Some _ => promoteWitness rd p s
     | None => match st_Resources_Create s (new_diskful rd p) with
               | (Ok _, s') => (Ok tt, s')
               | (Err ErrAlreadyExists, s') => (Ok tt, s')
               | (Err e, s') => (Err (StoreErr e), s')
               end
     end) = (Ok tt, s')) as (s' & Hok' & Ht & ->).
  { unfold place_row. destruct (ps_upgradeable st !! sp_NodeName p) as [u|] eqn:Eu.
    - destruct (proj2 (Htr (sp_NodeName p))) as [live Hlive]; [right; eauto|]. rewrite Hlive.
      destruct (promote_witness_spec rd p s live Hok Hlive) as (s' & -> & ? & ?). eauto.
    - assert (st_table s !! (rd, sp_NodeName p) = None) as Hn.
      { apply eq_None_not_Some. rewrite Htr. intros [?|[? ?]]; [done|congruence]. }
      rewrite Hn. destruct (create_diskful rd p s Hok Hn) as (s' & -> & ? & ?). eauto. }
  exists s'. split; [done|]. split; [done|]. split; [done|]. intros node. rewrite Ht. cbn.
  destruct (decide (node = sp_NodeName p)) as [->|Hne].
  - split; [intros _; left; set_solver|]. intros _. unfold place_row.
    case_match; rewrite lookup_insert_eq; eauto.
  - rewrite place_row_ne by congruence. rewrite Htr, lookup_delete_ne by done. set_solver.
Qed.

Lemma placeDiskful_refines rd cands placed want st s :
  tracks rd st s ->
  let '(ch, st') := greedy st cands (Z.to_nat (want - placed)) in
  exists s', placeDiskful rd cands placed want st s = (placed + Z.of_nat (length ch), None, st', s')
    /\ st_table s' = foldl (place_row rd) (st_table s) ch /\ tracks rd st' s'.
Proof.
  revert placed st s; induction cands as [|p rest IH]; intros placed st s Htr.
  - cbn. exists s. rewrite Z.add_0_r. split; [done|]. by split.
  - cbn [greedy placeDiskful]. case_bool_decide as Hw.
    + replace (Z.to_nat (want - placed)) with 0%nat by lia. exists s. cbn.
      rewrite Z.add_0_r. split; [done|]. by split.
    + destruct (Z.to_nat (want - placed)) as [|b] eqn:Eb; [lia|].
      destruct (candidateNodeProps st p) as [np|] eqn:Hp.
      * destruct (tryPlace_accept rd p st s np Htr Hp) as (s1 & -> & Ht & Htr1).
        specialize (IH (placed + 1) (commit st p np) s1 Htr1).
        replace (Z.to_nat (want - (placed + 1))) with b in IH by lia.
        destruct (greedy _ rest b) as [ch st']. destruct IH as (s' & -> & Ht' & ?).
        exists s'. replace (placed + 1 + Z.of_nat (length ch))
          with (placed + Z.of_nat (length (p :: ch))) by (cbn [length]; lia).
        split; [done|]. cbn. by rewrite <- Ht.
      * unfold tryPlace. rewrite Hp. specialize (IH placed st s Htr). by rewrite Eb in IH.
Qed.

(** The diskless fill adds a diskless replica on every listed node that has none. *)
Lemma diskless_loop_spec rd names taken s :
  st_ok s -> (forall n, n ∈ taken -> is_Some (st_table s !! (rd, n))) ->
  exists s', diskless_loop rd names taken s = (None, s') /\ st_ok s'
    /\ forall k, st_table s' !! k =
         match st_table s !! k with
         | Some r => Some r
         | None => if decide (k.1 = rd /\ k.2 ∈ names) then Some (new_diskless rd k.2) else None
         end.
Proof.
  revert taken s; induction names as [|n names IH]; intros taken s Hok Htk; cbn [diskless_loop].
  - exists s. split; [done|]. split; [done|]. intros k. case_match; [done|].
    rewrite decide_False; [done|]. intros [_ Hx]. by apply not_elem_of_nil in Hx.
  - case_bool_decide as Hin.
    + destruct (IH taken s Hok Htk) as (s' & -> & Hok' & Hk). exists s'.
      split; [done|]. split; [done|]. intros k. rewrite Hk.
      destruct (st_table s !! k) as [r|] eqn:E; [done|].
      apply decide_ext. split; [set_solver|]. intros [H1 [H2|]%elem_of_cons]; [|done].
      exfalso. destruct (Htk _ Hin) as [x Hx].
      assert (k = (rd, n)) as -> by (destruct k; cbn in *; congruence). congruence.
    + pose proof (st_create_law s (new_diskless rd n) Hok) as Hl.
      destruct (st_Resources_Create s (new_diskless rd n)) as [[[]|e] s1] eqn:E.
      * destruct Hl as (Hok1 & _ & Hn & Ht). change (rKey (new_diskless rd n)) with (rd, n) in *.
        destruct (IH ({[n]} ∪ taken) s1 Hok1) as (s' & -> & Hok' & Hk).
        { intros m [->%elem_of_singleton|Hm]%elem_of_union; rewrite Ht;
            [rewrite lookup_insert_eq; eauto|].
          destruct (decide (m = n)) as [->|]; [rewrite lookup_insert_eq; eauto|].
          rewrite lookup_insert_ne by congruence. auto. }
        exists s'. split; [done|]. split; [done|]. intros k. rewrite Hk, Ht.
        destruct (decide (k = (rd, n))) as [->|Hne].
        { rewrite lookup_insert_eq, Hn. cbn. by rewrite decide_True by set_solver. }
        rewrite lookup_insert_ne by done. case_match; [done|]. apply decide_ext.
        split; [set_solver|]. intros [H1 [H2|]%elem_of_cons]; [|done].
        exfalso. apply Hne. destruct k; cbn in *; congruence.
      * apply rel_create in E as ->. destruct Hl as (Hok1 & _ & Ht & Hx).
        specialize (Hx eq_refl). change (rKey (new_diskless rd n)) with (rd, n) in *.
        destruct (IH ({[n]} ∪ taken) s1 Hok1) as (s' & -> & Hok' & Hk).
        { intros m [->%elem_of_singleton|Hm]%elem_of_union; rewrite Ht; auto. }
        exists s'. split; [done|]. split; [done|]. intros k. rewrite Hk, Ht.
        case_match eqn:E; [done|]. apply decide_ext.
        split; [set_solver|]. intros [H1 [H2|]%elem_of_cons]; [|done].
        exfalso. destruct Hx as [x Hx].
        assert (k = (rd, n)) as -> by (destruct k; cbn in *; congruence). congruence.
Qed.

End Refinement.

Lemma greedy_app st c1 c2 b :
  greedy st (c1 ++ c2) b =
    let '(ch1, st1) := greedy st c1 b in
    let '(ch2, st2) := greedy st1 c2 (b - length ch1) in
    (ch1 ++ ch2, st2).
Proof.
  revert st b; induction c1 as [|p c1 IH]; intros st b.
  - cbn. rewrite Nat.sub_0_r. by destruct (greedy st c2 b).
  - destruct b as [|b]; cbn [app greedy].
    + cbn. by destruct c2.
    + destruct (candidateNodeProps st p) as [np|]; [|apply IH].
      rewrite IH. destruct (greedy (commit st p np) c1 b) as [ch1 st1]. cbn.
      by destruct (greedy st1 c2 (b - length ch1)).
Qed.

(** ** The seeded state *)

Section Seed.
Variables (f : AutoSelectFilter) (nodes : gmap string (gmap string string))
  (byKey : gmap string StoragePool).

Lemma seed_fixed st ex :
  let st' := foldl (seed_replica f nodes byKey) st ex in
  ps_nodes st' = ps_nodes st /\ ps_filter st' = ps_filter st /\ ps_diffSeen st' = ps_diffSeen st
  /\ ps_sameTuple st' = ps_sameTuple st /\ ps_allowMixing st' = ps_allowMixing st.
Proof.
  revert st; induction ex as [|r ex IH]; intros st; [done|]. cbn [foldl].
  destruct (IH (seed_replica f nodes byKey st r)) as (-> & -> & -> & -> & ->).
  unfold seed_replica. by destruct (Contains _ _).
Qed.

Definition diskless (r : Resource) : Prop := ResourceFlagDiskless ∈ res_Flags r.
#[global] Instance diskless_dec r : Decision (diskless r).
Proof. unfold diskless. apply _. Defined.

Lemma seed_taken st ex node :
  node ∈ ps_taken (foldl (seed_replica f nodes byKey) st ex)
  <-> node ∈ ps_taken st \/ exists r, r ∈ ex /\ res_NodeName r = node /\ ~ diskless r.
Proof.
  revert st; induction ex as [|r ex IH]; intros st; cbn [foldl]; [set_solver|].
  rewrite IH. unfold seed_replica. destruct (Contains _ _) eqn:E; cbn [ps_taken].
  - apply Contains_true in E. unfold diskless. set_solver.
  - apply Contains_false in E. unfold diskless. set_solver.
Qed.

Lemma seed_upgradeable st ex node :
  is_Some (ps_upgradeable (foldl (seed_replica f nodes byKey) st ex) !! node)
  <-> is_Some (ps_upgradeable st !! node) \/ exists r, r ∈ ex /\ res_NodeName r = node /\ diskless r.
Proof.
  revert st; induction ex as [|r ex IH]; intros st; cbn [foldl]; [set_solver|].
  rewrite IH. unfold seed_replica. destruct (Contains _ _) eqn:E; cbn [ps_upgradeable].
  - apply Contains_true in E. rewrite lookup_insert_is_Some'. unfold diskless. set_solver.
  - apply Contains_false in E. unfold diskless. set_solver.
Qed.

(** The pool an existing diskful replica is recorded on, if it resolves. *)
Definition backing (r : Resource) : option StoragePool :=
  if decide (diskless r) then None
  else let stor := getp (res_Props r) storPoolNameProp in
       if decide (stor = "") then None else byKey !! poolKey (res_NodeName r) stor.

Lemma seed_shared st ex id :
  id ∈ ps_sharedSeen (foldl (seed_replica f nodes byKey) st ex)
  <-> id ∈ ps_sharedSeen st
      \/ (id <> "" /\ exists r p, r ∈ ex /\ backing r = Some p /\ sp_SharedSpaceID p = id).
Proof.
  revert st; induction ex as [|r ex IH]; intros st; cbn [foldl]; [set_solver|].
  rewrite IH. unfold seed_replica. destruct (Contains _ _) eqn:E; cbn [ps_sharedSeen].
  - apply Contains_true in E.
    assert (backing r = None) as Hb by (unfold backing; by rewrite decide_True). set_solver.
  - apply Contains_false in E.
    assert (backing r = if bool_decide (getp (res_Props r) storPoolNameProp = "") then None
                        else byKey !! poolKey (res_NodeName r) (getp (res_Props r) storPoolNameProp))
      as <-.
    { unfold backing. rewrite decide_False by done. by repeat case_decide. }
    destruct (backing r) as [p|] eqn:Hb; [|set_solver]. case_bool_decide as Hne.
    + rewrite elem_of_union, elem_of_singleton. split.
      * intros [[->|?]|(? & r' & p' & ? & ? & ?)]; [right|by left|right];
          (split; [done|]); [exists r, p | exists r', p']; set_solver.
      * intros [?|(Hn & r' & p' & [->|?]%elem_of_cons & ? & ?)]; [by left;right| |right; eauto 10].
        left; left; congruence.
    + split; [intros [?|(? & r' & p' & ? & ? & ?)]; [by left|right; split; [done|]; exists r', p'; set_solver]|].
      intros [?|(Hn & r' & p' & [->|?]%elem_of_cons & ? & ?)]; [by left| |right; eauto 10].
      exfalso. congruence.
Qed.

End Seed.

Lemma newState_tracks {S : Type} {Ops : StoreOps S} {Laws : StoreLaws S} f nodes pools mix rd s existing :
  st_ok s -> st_Resources_ListByDefinition s rd = Ok existing ->
  tracks rd (newState f existing nodes pools mix) s.
Proof.
  intros Hok Hl. split; [done|]. intros node. unfold newState.
  rewrite seed_taken, seed_upgradeable; cbn.
  assert (forall r, r ∈ existing <-> st_table s !! rKey r = Some r /\ res_Name r = rd) as He.
  { intros r. apply st_byDefinition_law in Hl; [|done]. rewrite Hl, list_elem_of_filter.
    rewrite elem_of_kv_values. split.
    - intros [<- [k Hk]]. by rewrite (st_table_wf s Hok _ _ Hk).
    - intros [Hk <-]. eauto. }
  setoid_rewrite He. split.
  - intros [r Hr]. pose proof (st_table_wf s Hok _ _ Hr) as Hk. unfold rKey in Hk. simplify_eq.
    destruct (decide (diskless r)); [right; right | left; right]; eauto 10.
  - intros [[Hx|(r & [Hr <-] & <- & _)]|[Hx|(r & [Hr <-] & <- & _)]]; eauto.
    + set_solver.
    + by destruct Hx.
Qed.

(** * From the filter to the candidate list

    Lemmas on the read side of [Place]: which pools pass the gates, that ranking and
    grouping only reorder or drop candidates, what the assembled plan holds, and the
    shape of a whole [Place] run on a reliable backend. *)

From Stdlib Require Import Ascii.
From S2P Require Import Prelude Api GoFloat GoSort Store Placer.

(** ** Gates *)

Lemma oversubRejects_fst pool ctrl minKib gates :
  (oversubRejects pool ctrl minKib gates).1
    = bool_decide ((effectiveOversubCaps pool ctrl).1.1 < minKib).
Proof.
  unfold oversubRejects. destruct (effectiveOversubCaps pool ctrl) as [[cap kind] v]; cbn.
  repeat case_bool_decide; cbn; try done; lia.
Qed.

(** A pool passes exactly when it matches the filter and, for a sized definition,
    clears the free-space floor and the over-subscription cap. *)
Definition passes_gates (f : AutoSelectFilter) (excluded : gset string)
    (ctrl : gmap string string) (minKib : Z) (p : StoragePool) : Prop :=
  matchesPoolFilter p f excluded = true
  /\ (0 < minKib -> minKib <= sp_FreeCapacity p /\ minKib <= (effectiveOversubCaps p ctrl).1.1).
#[global] Instance passes_gates_dec f ex ctrl m p : Decision (passes_gates f ex ctrl m p).
Proof. unfold passes_gates. apply _. Defined.

Lemma gate_loop_filter all f ex ctrl m gates :
  (gate_loop all f ex ctrl m gates).1 = filter (passes_gates f ex ctrl m) all.
Proof.
  revert gates; induction all as [|p all IH]; intros gates; [done|]. cbn [gate_loop].
  rewrite filter_cons.
  destruct (matchesPoolFilter p f ex) eqn:E1; cbn [negb].
  2:{ rewrite IH, decide_False; [done|]. intros [? _]. congruence. }
  case_bool_decide as E2.
  { rewrite IH, decide_False; [done|]. intros [_ H]. lia. }
  pose proof (oversubRejects_fst p ctrl m gates) as Ho.
  destruct (decide (0 < m)) as [Hm|Hm].
  - rewrite bool_decide_eq_true_2 by done.
    destruct (oversubRejects p ctrl m gates) as [rej gates']; cbn in Ho. subst rej.
    case_bool_decide.
    + rewrite IH, decide_False; [done|]. intros [_ H']. lia.
    + specialize (IH gates'). destruct (gate_loop all f ex ctrl m gates'); cbn in *. subst.
      rewrite decide_True; [done|]. split; [done|]. lia.
  - rewrite bool_decide_eq_false_2 by done.
    specialize (IH gates). destruct (gate_loop all f ex ctrl m gates); cbn in *. subst.
    rewrite decide_True; [done|]. split; [done|]. lia.
Qed.

Lemma rankCandidates_perm pools w rpn : rankCandidates pools w rpn ≡ₚ pools.
Proof. unfold rankCandidates. case_match; [done|]. apply SliceStable_perm. Qed.

(** ** Groups *)

Lemma add_to_groups_pools gs tuple key pool :
  (gs ≫= g_pools) ++ [pool] ≡ₚ add_to_groups gs tuple key pool ≫= g_pools.
Proof.
  induction gs as [|g gs IH]; cbn; [done|]. case_bool_decide; cbn.
  - rewrite <- !app_assoc. by rewrite (Permutation_app_comm _ [pool]).
  - by rewrite <- app_assoc, IH.
Qed.

Lemma groups_of_perm cands nodes keys : groups_of cands nodes keys ≫= g_pools ≡ₚ cands.
Proof.
  unfold groups_of. assert (forall gs,
    foldl (fun gs pool => add_to_groups gs (lookupKeys (node_props nodes (sp_NodeName pool)) keys)
      (tupleKey (lookupKeys (node_props nodes (sp_NodeName pool)) keys)) pool) gs cands ≫= g_pools
    ≡ₚ (gs ≫= g_pools) ++ cands) as H; [|by rewrite H].
  induction cands as [|p cands IH]; intros gs; cbn [foldl]; [by rewrite app_nil_r|].
  rewrite IH, <- add_to_groups_pools, <- app_assoc. done.
Qed.

Lemma pickSameGroup_subset cands nodes keys want p :
  p ∈ (pickSameGroup cands nodes keys want).1 -> p ∈ cands.
Proof.
  unfold pickSameGroup. destruct (SliceStable _ _) as [|g gs] eqn:E; cbn; [done|]. intros Hp.
  assert (g ∈ g :: gs) as Hg by apply list_elem_of_here. rewrite <- E, SliceStable_perm in Hg.
  apply list_elem_of_filter in Hg as [_ Hg]. rewrite <- (groups_of_perm cands nodes keys).
  apply list_elem_of_bind. eauto.
Qed.

Lemma filterSamePinned_elem cands nodes keys p :
  p ∈ filterSamePinned cands nodes keys <->
  p ∈ cands /\ matchesAllSamePins (node_props nodes (sp_NodeName p)) keys = true.
Proof.
  unfold filterSamePinned. destruct (existsb _ keys) eqn:E.
  - rewrite list_elem_of_filter. tauto.
  - split; [|by intros [? _]]. intros Hp. split; [done|]. unfold matchesAllSamePins.
    apply forallb_forall. intros spec Hs. destruct (parseSameSpec spec) as [[k v] hv] eqn:Ep.
    destruct hv; [|done]. exfalso. apply not_true_iff_false in E. apply E.
    apply existsb_exists. exists spec. by rewrite Ep.
Qed.

Lemma partition_perm cands nodes keys :
  let '(pref, last) := partitionByExclusion cands nodes keys in pref ++ last ≡ₚ cands.
Proof.
  unfold partitionByExclusion. destruct (existsb _ keys); [|by rewrite app_nil_r].
  induction cands as [|p cands IH]; [done|]. rewrite !filter_cons.
  destruct (matchesAnyExcludedPair _ keys); repeat case_decide; try done.
  - by rewrite <- Permutation_middle, IH.
  - cbn. by rewrite IH.
Qed.

(** ** The assembled plan *)

Section Plan.
#[local] Set Default Proof Using "Type*".
Context {S : Type} {Ops : StoreOps S} {Laws : StoreLaws S} {RE : RegexpLib}.

(** A pool [Place] may put a new replica on: it is listed, passes the gates, is on no
    node excluded by the not-place-with constraints, and satisfies the value pins. *)
Record eligible (rd : string) (f : AutoSelectFilter) (s : S) (all : list StoragePool)
    (nodes : list Node) (ctrl : gmap string string) (required : Z) (p : StoragePool) : Prop := {
  el_listed : p ∈ all;
  el_gates : passes_gates f (autoplaceExcludedNodes nodes (disabledNodes nodes)) ctrl required p;
  el_apart : forall res, st_Resources_List s = Ok res -> sp_NodeName p ∉ notPlaceWithNodes rd f res;
  el_pins : matchesAllSamePins (node_props (nodesByName nodes) (sp_NodeName p)) (ReplicasOnSame f) = true;
}.

Lemma notPlaceWith_none rd f res node :
  NotPlaceWithRsc f = [] -> NotPlaceWithRscRegex f = "" -> node ∉ notPlaceWithNodes rd f res.
Proof.
  intros H1 H2. unfold notPlaceWithNodes. rewrite H1, H2, bool_decide_eq_true_2 by done.
  rewrite elem_of_list_to_set, list_elem_of_fmap.
  intros (r & -> & [(_ & [Hr|Hr]) _]%list_elem_of_filter); [by apply not_elem_of_nil in Hr | done].
Qed.

(** Everything [Place] reads before it writes, when no read fails. *)
Record reads (rd : string) (s : S) (all : list StoragePool) (nodes : list Node)
    (ctrl : gmap string string) (res : list Resource) (vds : list VolumeDefinition)
    (existing : list Resource) : Prop := {
  rd_pools : st_StoragePools_List s = Ok all;
  rd_nodes : st_Nodes_List s = Ok nodes;
  rd_ctrl : st_ControllerProps_Get s = Ok ctrl;
  rd_res : st_Resources_List s = Ok res;
  rd_vds : st_VolumeDefinitions_List s rd = Ok vds;
  rd_existing : st_Resources_ListByDefinition s rd = Ok existing;
}.

Definition candidates_of (f : AutoSelectFilter) (all : list StoragePool) (nodes : list Node)
    (ctrl : gmap string string) (res : list Resource) (required : Z)
    : list StoragePool * candidateGates :=
  let og := applyCapacityAndOversubGates all f (autoplaceExcludedNodes nodes (disabledNodes nodes))
              ctrl required in
  (rankCandidates og.1 (loadWeights ctrl) (resourcesPerNode res), og.2).

Lemma candidatePools_eq rd f s all nodes ctrl res vds existing required :
  reads rd s all nodes ctrl res vds existing ->
  candidatePools f required s = Ok (candidates_of f all nodes ctrl res required).
Proof. intros []. unfold candidatePools. by rewrite rd_pools0, rd_nodes0, rd_ctrl0, rd_res0. Qed.

Lemma candidates_of_elem f all nodes ctrl res required p :
  p ∈ (candidates_of f all nodes ctrl res required).1 <->
  p ∈ all /\ passes_gates f (autoplaceExcludedNodes nodes (disabledNodes nodes)) ctrl required p.
Proof.
  unfold candidates_of, applyCapacityAndOversubGates; cbn [fst].
  rewrite rankCandidates_perm, gate_loop_filter, list_elem_of_filter. tauto.
Qed.

Lemma applyNotPlaceWith_eq rd f s res cands :
  st_Resources_List s = Ok res ->
  applyNotPlaceWith rd f cands s
    = Ok (filter (fun p => sp_NodeName p ∉ notPlaceWithNodes rd f res) cands).
Proof.
  intros Hr. unfold applyNotPlaceWith. rewrite Hr. cbn.
  repeat case_bool_decide; cbn; try done. f_equal. symmetry.
  apply filter_all. intros p _. by apply notPlaceWith_none.
Qed.

(** The state a plan starts from: seeded from the existing replicas, with the
    group's tuple locked in when there is one. *)
Definition start_state (f : AutoSelectFilter) (existing : list Resource) (nodes : list Node)
    (all : list StoragePool) (ctrl : gmap string string) : state :=
  newState f existing (nodesByName nodes) all (loadAllowPoolDriverMixing ctrl).

Lemma buildPlan_ready rd f s all nodes ctrl res vds existing plan :
  reads rd s all nodes ctrl res vds existing ->
  buildPlan rd f s = Ok (PlanReady plan) ->
  pl_existing plan = existing /\ pl_disabled plan = disabledNodes nodes
  /\ pl_requiredKib plan = requiredKib vds
  /\ pl_maxFreeKib plan = maxFreeBelow (candidates_of f all nodes ctrl res (requiredKib vds)).2
  /\ pl_oversub plan = oversubBest (candidates_of f all nodes ctrl res (requiredKib vds)).2
  /\ (exists t, pl_state plan = with_sameTuple (start_state f existing nodes all ctrl) t)
  /\ (forall p, p ∈ pl_preferred plan ++ pl_lastResort plan ->
       eligible rd f s all nodes ctrl (requiredKib vds) p).
Proof.
  intros Hreads. unfold buildPlan. pose proof Hreads as [Hp Hn Hc Hres Hv He].
  rewrite Hv. cbn [of_store result_bind].
  rewrite (candidatePools_eq _ _ _ _ _ _ _ _ _ _ Hreads). cbn [result_bind].
  set (cg := candidates_of f all nodes ctrl res (requiredKib vds)).
  destruct (_ && _); [done|]. unfold assemblePlan.
  rewrite He, Hn, Hp, Hc. cbn [of_store result_bind].
  rewrite (applyNotPlaceWith_eq rd f s res cg.1 Hres). cbn [result_bind].
  change (newState f existing (nodesByName nodes) all (loadAllowPoolDriverMixing ctrl))
    with (start_state f existing nodes all ctrl).
  set (c1 := filter _ cg.1). set (c2 := filterSamePinned c1 _ _).
  set (cs := match ps_sameTuple (start_state f existing nodes all ctrl) with
             | Some _ => _ | None => _ end).
  assert ((exists t, cs.2 = with_sameTuple (start_state f existing nodes all ctrl) t)
          /\ forall p, p ∈ cs.1 -> p ∈ c2) as [Ht Hcs].
  { unfold cs. destruct (ps_sameTuple _) as [t|] eqn:Et.
    - split; [|done]. exists (Some t). cbn. rewrite <- Et. by destruct (start_state _ _ _ _ _).
    - destruct (ReplicasOnSame f) as [|k ks] eqn:Ek.
      + split; [|done]. exists None. cbn. rewrite <- Et. by destruct (start_state _ _ _ _ _).
      + pose proof (pickSameGroup_subset c2 (nodesByName nodes) (k :: ks) (PlaceCount f)) as Hsub.
        destruct (pickSameGroup _ _ _ _) as [c t]; cbn in *. eauto. }
  pose proof (partition_perm cs.1 (nodesByName nodes) (ReplicasOnDifferent f)) as Hpart.
  destruct (partitionByExclusion _ _ _) as [pref last] eqn:Epart. intros [= <-]. cbn.
  split_and!; try done. intros p Hpl. rewrite Hpart in Hpl. apply Hcs in Hpl.
  apply filterSamePinned_elem in Hpl as [Hin Hpins].
  apply list_elem_of_filter in Hin as [Hnp Hin]. apply candidates_of_elem in Hin as [Hall Hg].
  split; [done|done| |done]. intros res' Hres'. rewrite Hres in Hres'. by simplify_eq.
Qed.

Lemma start_tracks rd f s all nodes ctrl res vds existing t :
  st_ok s -> reads rd s all nodes ctrl res vds existing ->
  tracks rd (with_sameTuple (start_state f existing nodes all ctrl) t) s.
Proof.
  intros Hok []. apply (newState_tracks f (nodesByName nodes) all (loadAllowPoolDriverMixing ctrl)
    rd s existing) in Hok; [|done]. exact Hok.
Qed.

End Plan.

Section Run.
#[local] Set Default Proof Using "Type*".
Context {S : Type} {Ops : StoreOps S} {Laws : StoreLaws S} {Rel : StoreReliable S} {RE : RegexpLib}.

Lemma reads_exist rd s : exists all nodes ctrl res vds existing,
  reads rd s all nodes ctrl res vds existing.
Proof.
  destruct (rel_StoragePools_List s), (rel_Nodes_List s), (rel_ControllerProps_Get s),
    (rel_Resources_List s), (rel_VolumeDefinitions_List s rd), (rel_Resources_ListByDefinition s rd).
  by do 6 eexists; constructor.
Qed.

Lemma buildPlan_total rd f s : exists r, buildPlan rd f s = Ok r.
Proof.
  destruct (reads_exist rd s) as (all & nodes & ctrl & res & vds & existing & Hr).
  pose proof Hr as [Hp Hn Hc Hres Hv He]. unfold buildPlan. rewrite Hv. cbn [of_store result_bind].
  rewrite (candidatePools_eq _ _ _ _ _ _ _ _ _ _ Hr). cbn [result_bind].
  destruct (_ && _); [eauto|]. unfold assemblePlan. rewrite He, Hn, Hp, Hc.
  cbn [of_store result_bind]. rewrite (applyNotPlaceWith_eq rd f s res _ Hres). cbn. eauto.
Qed.

(** The number of replicas a plan starts from and the selection it makes. *)
Definition already (plan : placePlan) : Z := countDiskfulReplicas (pl_existing plan) (pl_disabled plan).
Definition selection (f : AutoSelectFilter) (plan : placePlan) : list StoragePool * state :=
  greedy (pl_state plan) (pl_preferred plan ++ pl_lastResort plan)
    (Z.to_nat (PlaceCount f - already plan)).

(** A whole run: a shortfall found up front leaves the store alone; otherwise the
    replicas of the greedy selection are placed, and the diskless fill follows when
    asked for and the target is met. *)
Lemma Place_run ord rd f0 s :
  st_ok s ->
  let f := constrainFilterToRestoreSource rd f0 s in
  (exists required maxFree oversub,
     buildPlan rd f s = Ok (PlanShortfall required maxFree oversub)
     /\ Place ord rd f0 s
        = (0, PlaceCount f, Some (shortfall_error maxFree required oversub), s))
  \/ (exists plan s2 s3,
        buildPlan rd f s = Ok (PlanReady plan)
        /\ Place ord rd f0 s
           = (already plan + Z.of_nat (length (selection f plan).1), PlaceCount f,
              place_tail plan (already plan + Z.of_nat (length (selection f plan).1)) (PlaceCount f), s3)
        /\ st_ok s3
        /\ st_table s2 = foldl (place_row rd) (st_table s) (selection f plan).1
        /\ let fill := DisklessOnRemaining f
             && bool_decide (PlaceCount f <= already plan + Z.of_nat (length (selection f plan).1)) in
           ((fill = false /\ st_table s3 = st_table s2)
            \/ (fill = true
                /\ forall k, st_table s3 !! k =
                     match st_table s2 !! k with
                     | Some r => Some r
                     | None => if decide (k.1 = rd /\ k.2 ∈ ord (map_to_list (ps_nodes (selection f plan).2)).*1)
                               then Some (new_diskless rd k.2) else None
                     end))).
Proof.
  intros Hok f. unfold Place. fold f.
  destruct (buildPlan_total rd f s) as [[required mx os|plan] Hb]; rewrite Hb; [left; eauto 10|].
  right. exists plan.
  destruct (reads_exist rd s) as (all & nodes & ctrl & res & vds & existing & Hr).
  destruct (buildPlan_ready _ _ _ _ _ _ _ _ _ _ Hr Hb) as (_ & _ & _ & _ & _ & [t Hst] & _).
  assert (tracks rd (pl_state plan) s) as Htr by (rewrite Hst; by eapply start_tracks).
  fold (already plan). unfold selection. rewrite greedy_app.
  pose proof (placeDiskful_refines rd (pl_preferred plan) (already plan) (PlaceCount f)
    (pl_state plan) s Htr) as H1.
  destruct (greedy (pl_state plan) (pl_preferred plan) _) as [ch1 st1].
  destruct H1 as (s1 & -> & Ht1 & Htr1).
  pose proof (placeDiskful_refines rd (pl_lastResort plan)
    (already plan + Z.of_nat (length ch1)) (PlaceCount f) st1 s1 Htr1) as H2.
  replace (Z.to_nat (PlaceCount f - (already plan + Z.of_nat (length ch1))))
    with (Z.to_nat (PlaceCount f - already plan) - length ch1)%nat in H2 by lia.
  destruct (greedy st1 (pl_lastResort plan) _) as [ch2 st2].
  destruct H2 as (s2 & -> & Ht2 & Htr2). cbn [fst snd].
  rewrite <- Z.add_assoc, <- Nat2Z.inj_add, <- length_app.
  assert (st_table s2 = foldl (place_row rd) (st_table s) (ch1 ++ ch2)) as Ht
    by (by rewrite foldl_app, <- Ht1).
  destruct (DisklessOnRemaining f && bool_decide _) eqn:Ed.
  2:{ exists s2, s2. destruct Htr2. eauto 10. }
  unfold placeDisklessOnRemaining.
  destruct (diskless_loop_spec rd (ord (map_to_list (ps_nodes st2)).*1) (ps_taken st2) s2)
    as (s3 & -> & Hok3 & Hk3).
  { by destruct Htr2. }
  { intros n Hn. destruct Htr2 as [_ Htr2]. apply Htr2. by left. }
  exists s2, s3. eauto 10.
Qed.

End Run.
