(* ===== verification/PlacerProps.v ===== *)
(** * Properties of the autoplacer

    Safety of a whole [Place] call on any reliable backend (filters, gates, topology,
    shared disks, per-value caps, accounting, frame), maximality of the selection, the
    shortfall errors, and the behaviour of the ranking, grouping and mixing tables. *)

From Stdlib Require Import Ascii.
From S2P Require Import Prelude Api GoFloat GoSort Store Placer PlacerFacts.

(** ** Readings of the gates *)

Lemma matchesPoolFilter_true p f ex :
  matchesPoolFilter p f ex = true ->
  sp_ProviderKind p <> StoragePoolKindDiskless /\ (sp_NodeName p ∉ ex) /\ sp_PoolMissing p = false
  /\ (StoragePool_ f <> "" -> sp_StoragePoolName p = StoragePool_ f)
  /\ (StoragePoolList f <> [] -> sp_StoragePoolName p ∈ StoragePoolList f)
  /\ (NodeNameList f <> [] -> sp_NodeName p ∈ NodeNameList f)
  /\ (ProviderList f <> [] -> sp_ProviderKind p ∈ ProviderList f).
Proof.
  unfold matchesPoolFilter. case_bool_decide as H1; [done|]. case_bool_decide as H2; [done|].
  destruct (sp_PoolMissing p); [done|]. case_bool_decide as H3; [done|].
  destruct (bool_decide (StoragePoolList f <> []) && _) eqn:H4; [done|].
  destruct (bool_decide (NodeNameList f <> []) && _) eqn:H5; [done|].
  destruct (bool_decide (ProviderList f <> []) && _) eqn:H6; [done|]. intros _.
  assert (forall (l : list string) x, bool_decide (l <> []) && negb (Contains l x) = false ->
            l <> [] -> x ∈ l) as Hl.
  { intros l x Hb Hn. rewrite bool_decide_eq_true_2 in Hb by done.
    apply Contains_true. by destruct (Contains l x). }
  split_and!; eauto. intros Hs. destruct (decide (sp_StoragePoolName p = StoragePool_ f)); [done|].
  exfalso. by apply H3.
Qed.

Lemma excluded_elem nodes node :
  node ∈ autoplaceExcludedNodes nodes (disabledNodes nodes) <->
  exists n, n ∈ nodes /\ node_Name n = node
    /\ (NodeFlagEvicted ∈ node_Flags n \/ NodeFlagLost ∈ node_Flags n \/ opted_out n = true).
Proof.
  unfold autoplaceExcludedNodes, disabledNodes. rewrite elem_of_union, !elem_of_list_to_set.
  rewrite !list_elem_of_fmap. setoid_rewrite list_elem_of_filter. naive_solver.
Qed.

Lemma promoted_flags flags : ResourceFlagDiskless ∉ (PromoteWitnessFlags flags true).1.
Proof.
  induction flags as [|x flags IH]; cbn; [apply not_elem_of_nil|].
  destruct (PromoteWitnessFlags flags true) as [keep was]; cbn in IH |- *.
  repeat case_bool_decide; cbn; try done. rewrite not_elem_of_cons. auto.
Qed.

(** The row a placement leaves records the pool it was placed on. *)
Lemma placed_row_pool rd p o :
  getp (res_Props (match o with Some live => promote p live | None => new_diskful rd p end))
    storPoolNameProp = sp_StoragePoolName p.
Proof.
  unfold getp. destruct o as [live|].
  - unfold promote; cbn [res_Props with_res_spec]. by rewrite lookup_insert_eq.
  - unfold new_diskful; cbn [res_Props]. by rewrite lookup_singleton_eq.
Qed.

Section Props.
#[local] Set Default Proof Using "Type*".
Context {S : Type} {Ops : StoreOps S} {Laws : StoreLaws S} {Rel : StoreReliable S} {RE : RegexpLib}.

(** The node holds a diskful replica of the definition. *)
Definition diskful_on (T : gmap (string * string) Resource) (rd node : string) : Prop :=
  exists r, T !! (rd, node) = Some r /\ ~ diskless r.

(** A node that became diskful did so through a pool of the selection. *)
Lemma new_diskful_origin ord rd f0 s placed want err s' node :
  st_ok s -> Place ord rd f0 s = (placed, want, err, s') ->
  diskful_on (st_table s') rd node -> ~ diskful_on (st_table s) rd node ->
  let f := constrainFilterToRestoreSource rd f0 s in
  exists plan p, buildPlan rd f s = Ok (PlanReady plan) /\ p ∈ (selection f plan).1
    /\ sp_NodeName p = node
    /\ st_table s' !! (rd, node)
       = Some (match st_table s !! (rd, node) with
               | Some live => promote p live
               | None => new_diskful rd p
               end).
Proof.
  intros Hok HP [r' [Hr' Hd']] Hold f.
  destruct (Place_run ord rd f0 s Hok) as [(a & b & c & _ & E)|(plan & s2 & s3 & Hb & E & _ & Ht & Hfill)];
    rewrite HP in E; injection E as -> -> -> ->.
  { exfalso. apply Hold. by exists r'. }
  exists plan. pose proof (greedy_run (pl_state plan) (pl_preferred plan ++ pl_lastResort plan)
    (Z.to_nat (PlaceCount f - already plan))) as Hrun. fold (selection f plan) in Hrun.
  apply run_nodes in Hrun as [Hnd _].
  assert (st_table s2 !! (rd, node) = Some r') as Hr2.
  { destruct Hfill as [[_ <-]|[_ Hfill]]; [done|]. rewrite Hfill in Hr'.
    destruct (st_table s2 !! (rd, node)) as [x|] eqn:E2; [congruence|].
    case_decide; [|done]. injection Hr' as <-. exfalso. apply Hd'. cbn. apply list_elem_of_here. }
  destruct (decide (node ∈ sp_NodeName <$> (selection f plan).1)) as [Hin|Hout].
  - apply list_elem_of_fmap in Hin as (p & -> & Hp). exists p. split; [done|]. split; [done|].
    split; [done|]. rewrite Ht, (place_rows_placed rd _ _ p Hnd Hp) in Hr2. congruence.
  - exfalso. apply Hold. exists r'. split; [|done].
    rewrite Ht, place_rows_other in Hr2; [done|]. intros p Hp [= ->]. apply Hout.
    by apply list_elem_of_fmap_2.
Qed.

(** Selected pools are eligible candidates. *)
Lemma selection_eligible rd f s all nodes ctrl res vds existing plan p :
  reads rd s all nodes ctrl res vds existing ->
  buildPlan rd f s = Ok (PlanReady plan) -> p ∈ (selection f plan).1 ->
  eligible rd f s all nodes ctrl (requiredKib vds) p.
Proof.
  intros Hr Hb Hp. destruct (buildPlan_ready _ _ _ _ _ _ _ _ _ _ Hr Hb) as (_ & _ & _ & _ & _ & _ & He).
  apply He. eapply elem_of_sublist; [exact Hp|]. apply greedy_sublist.
Qed.

Lemma selection_run rd f s all nodes ctrl res vds existing plan :
  reads rd s all nodes ctrl res vds existing ->
  buildPlan rd f s = Ok (PlanReady plan) ->
  exists t, run (with_sameTuple (start_state f existing nodes all ctrl) t) (selection f plan).1
                (selection f plan).2.
Proof.
  intros Hr Hb. destruct (buildPlan_ready _ _ _ _ _ _ _ _ _ _ Hr Hb) as (_ & _ & _ & _ & _ & [t Ht] & _).
  exists t. rewrite <- Ht. apply greedy_run.
Qed.

(** Fields of the starting state. *)
Lemma start_fields f existing nodes all ctrl t :
  let st := with_sameTuple (start_state f existing nodes all ctrl) t in
  ps_nodes st = nodesByName nodes /\ ps_filter st = f
  /\ ps_diffSeen st = topologySeen existing (nodesByName nodes) (ReplicasOnDifferent f)
  /\ ps_allowMixing st = loadAllowPoolDriverMixing ctrl.
Proof.
  cbn. unfold start_state, newState.
  destruct (seed_fixed f (nodesByName nodes) (poolsByKey all)
    (mkState (nodesByName nodes) ∅ (topologyTuple existing (nodesByName nodes) (ReplicasOnSame f))
       (topologySeen existing (nodesByName nodes) (ReplicasOnDifferent f)) ∅ (poolsByKey all) f ""
       (loadAllowPoolDriverMixing ctrl) ∅ ∅) existing) as (-> & -> & -> & _ & ->). done.
Qed.

End Props.


(** ** A small cluster to evaluate the model on

    Three satellites, two of them in zone [a], one thin pool each; the pools of [n2]
    and [n4] share a disk, [n4] is evicted. *)

Module Demo.

#[export] Instance uuid : UuidLib := example_uuid.
#[export] Instance no_regexp : RegexpLib := {| re_Compile _ := None |}.

Definition reliable : StoreReliable InMemory := @InMemory_reliable example_uuid.

Definition node (name zone : string) (flags : list string) : Node :=
  mkNode name "SATELLITE" "" flags {["Aux/zone" := zone]} [] "" [] [] None None.
Definition pool (node shared : string) (free : Z) : StoragePool :=
  mkStoragePool "thin" node StoragePoolKindLVMThin ∅ ∅ free 200 "" shared [] true false "" "" false.
Definition replica (node : string) (flags : list string) : Resource :=
  mkResource "pvc-1" node {[storPoolNameProp := "thin"]} flags zero_ResourceState "" None None false [] ∅ 0.

Definition cluster (rows : list Resource) : InMemory :=
  mkInMemory
    {["n1" := node "n1" "a" []; "n2" := node "n2" "b" []; "n3" := node "n3" "a" [];
      "n4" := node "n4" "c" ["EVICTED"]]}
    {[("n1", "thin") := pool "n1" "" 100; ("n2", "thin") := pool "n2" "lun-7" 90;
      ("n3", "thin") := pool "n3" "" 80; ("n4", "thin") := pool "n4" "lun-7" 199]}
    ∅ ∅
    (mkInMemoryResources (list_to_map ((fun r => (rKey r, r)) <$> rows)) ∅)
    {[("pvc-1", 0) := mkVolumeDefinition 0 10 ∅ [] ""]} ∅ ∅ ∅ ∅.

Definition filter_of (count : Z) (diff : list string) (x : gmap string Z) : AutoSelectFilter :=
  mkAutoSelectFilter count 0 [] "" [] [] [] "" [] diff x [] [] false "".

(** One diskful replica on [n2] and a witness on [n3]. *)
Definition start : InMemory := cluster [replica "n2" []; replica "n3" ["DISKLESS"; "TIE_BREAKER"]].
Definition want3 : AutoSelectFilter := filter_of 3 [] ∅.
Definition after : InMemory := (Place (S := InMemory) id "pvc-1" want3 start).2.

Lemma start_ok : im_ok start.
Proof.
  split.
  - apply (bool_decide_eq_true_1 (map_Forall (fun i v => rKey v = i) (res_m (im_resources start)))).
    vm_compute. reflexivity.
  - apply (bool_decide_eq_true_1 (map_Forall (fun i v => spKey v = i) (im_storagePools start))).
    vm_compute. reflexivity.
Qed.

Lemma start_reads :
  reads "pvc-1" start (StoragePools_List (im_storagePools start)) (Nodes_List (im_nodes start)) ∅
    (Resources_List (im_resources start)) [mkVolumeDefinition 0 10 ∅ [] ""]
    (Resources_ListByDefinition (im_resources start) "pvc-1").
Proof. constructor; try reflexivity; vm_compute; reflexivity. Qed.

(** The witness on [n3] is promoted and a replica lands on [n1]. *)
Example after_rows :
  (fun r => (res_NodeName r, res_Flags r)) <$> Resources_List (im_resources after)
    = [("n1", []); ("n2", []); ("n3", [])].
Proof. vm_compute. reflexivity. Qed.

Lemma start_place : Place (S := InMemory) id "pvc-1" want3 start = (3, 3, None, after).
Proof. vm_compute. reflexivity. Qed.

Lemma new_on_n3 :
  diskful_on (res_m (im_resources after)) "pvc-1" "n3"
  /\ ~ diskful_on (res_m (im_resources start)) "pvc-1" "n3".
Proof.
  split.
  - eexists. split; [vm_compute; reflexivity|]. intros H.
    apply (bool_decide_eq_true_2 _) in H. vm_compute in H. discriminate.
  - intros (r & Hr & Hd). apply Hd. vm_compute in Hr. injection Hr as <-.
    apply (bool_decide_eq_true_1 _). vm_compute. reflexivity.
Qed.

(** A diskful replica on [n1] only; the best remaining pool is [n2]'s. *)
Definition solo : InMemory := cluster [replica "n1" []].
Definition spread2 : AutoSelectFilter := filter_of 2 ["zone"] {["zone" := 1]}.
Definition solo_after : InMemory := (Place (S := InMemory) id "pvc-1" spread2 solo).2.

Lemma solo_ok : im_ok solo.
Proof.
  split.
  - apply (bool_decide_eq_true_1 (map_Forall (fun i v => rKey v = i) (res_m (im_resources solo)))).
    vm_compute. reflexivity.
  - apply (bool_decide_eq_true_1 (map_Forall (fun i v => spKey v = i) (im_storagePools solo))).
    vm_compute. reflexivity.
Qed.

Lemma solo_reads :
  reads "pvc-1" solo (StoragePools_List (im_storagePools solo)) (Nodes_List (im_nodes solo)) ∅
    (Resources_List (im_resources solo)) [mkVolumeDefinition 0 10 ∅ [] ""]
    (Resources_ListByDefinition (im_resources solo) "pvc-1").
Proof. constructor; try reflexivity; vm_compute; reflexivity. Qed.

Lemma solo_place : Place (S := InMemory) id "pvc-1" spread2 solo = (2, 2, None, solo_after).
Proof. vm_compute. reflexivity. Qed.

Lemma solo_new_on_n2 :
  diskful_on (res_m (im_resources solo_after)) "pvc-1" "n2"
  /\ ~ diskful_on (res_m (im_resources solo)) "pvc-1" "n2".
Proof.
  split.
  - eexists. split; [vm_compute; reflexivity|]. intros H.
    apply (bool_decide_eq_true_2 _) in H. vm_compute in H. discriminate.
  - intros (r & Hr & Hd). vm_compute in Hr. discriminate.
Qed.

End Demo.

(** ** Safety *)

(** C12: on any reliable backend, every replica that [Place] makes diskful sits on a
    storage pool that the store lists, of a real provider kind and not reported
    missing; on a node that is not EVICTED, LOST or opted out of autoplacement; that
    matches the pool, node and provider lists of the filter (pinned to the restore
    source's provider); with free space and an over-subscription budget for the largest
    volume; away from the nodes of the resources it must not be placed with; and
    satisfying every replicas-on-same value pin. The replica records that pool. *)
Theorem Place_respects_filter {S : Type} {Ops : StoreOps S} {Laws : StoreLaws S}
    {Rel : StoreReliable S} {RE : RegexpLib}
    ord rd f0 s placed want err s' all nodes ctrl res vds existing node :
  st_ok s -> reads rd s all nodes ctrl res vds existing ->
  Place ord rd f0 s = (placed, want, err, s') ->
  diskful_on (st_table s') rd node -> ~ diskful_on (st_table s) rd node ->
  let f := constrainFilterToRestoreSource rd f0 s in
  exists p r, p ∈ all /\ sp_NodeName p = node
    /\ st_table s' !! (rd, node) = Some r
    /\ getp (res_Props r) storPoolNameProp = sp_StoragePoolName p
    /\ sp_ProviderKind p <> StoragePoolKindDiskless /\ sp_PoolMissing p = false
    /\ (forall n, n ∈ nodes -> node_Name n = node ->
          (NodeFlagEvicted ∉ node_Flags n) /\ (NodeFlagLost ∉ node_Flags n) /\ opted_out n = false)
    /\ (StoragePool_ f <> "" -> sp_StoragePoolName p = StoragePool_ f)
    /\ (StoragePoolList f <> [] -> sp_StoragePoolName p ∈ StoragePoolList f)
    /\ (NodeNameList f <> [] -> node ∈ NodeNameList f)
    /\ (ProviderList f <> [] -> sp_ProviderKind p ∈ ProviderList f)
    /\ (0 < requiredKib vds -> requiredKib vds <= sp_FreeCapacity p
          /\ requiredKib vds <= (effectiveOversubCaps p ctrl).1.1)
    /\ (node ∉ notPlaceWithNodes rd f res)
    /\ matchesAllSamePins (node_props (nodesByName nodes) node) (ReplicasOnSame f) = true.
Proof.
  intros Hok Hr HP Hnew Hold f.
  destruct (new_diskful_origin ord rd f0 s placed want err s' node Hok HP Hnew Hold)
    as (plan & p & Hb & Hp & <- & Ht). fold f in Hb, Hp.
  destruct (selection_eligible _ _ _ _ _ _ _ _ _ _ _ Hr Hb Hp) as [Hl [Hm Hcap] Hap Hpin].
  apply matchesPoolFilter_true in Hm as (H1 & H2 & H3 & H4 & H5 & H6 & H7).
  eexists p, _. split; [done|]. split; [done|]. split; [exact Ht|]. split.
  { apply placed_row_pool. }
  split; [done|]. split; [done|]. split.
  { intros n Hn Hname. rewrite excluded_elem in H2.
    split_and!; [intros ?; apply H2; eauto 10..|]. destruct (opted_out n) eqn:E; [|done].
    exfalso. apply H2. eauto 10. }
  split_and!; try done. apply Hap. by destruct Hr.
Qed.

Lemma Place_respects_filter_witness :
  exists p, p ∈ StoragePools_List (im_storagePools Demo.start) /\ sp_NodeName p = "n3"
    /\ sp_PoolMissing p = false /\ 10 <= sp_FreeCapacity p.
Proof.
  destruct (Place_respects_filter (Rel := Demo.reliable) (RE := Demo.no_regexp) id "pvc-1" Demo.want3 Demo.start 3 3 None Demo.after
    _ _ _ _ _ _ "n3" Demo.start_ok Demo.start_reads Demo.start_place
    (proj1 Demo.new_on_n3) (proj2 Demo.new_on_n3))
    as (p & r & H1 & H2 & _ & _ & _ & H3 & _ & _ & _ & _ & _ & H4 & _).
  exists p. split; [exact H1|]. split; [exact H2|]. split; [exact H3|]. apply H4. reflexivity.
Defined.

Lemma nodup_fmap_inj {A B} (g : A -> B) l x y :
  NoDup (g <$> l) -> x ∈ l -> y ∈ l -> g x = g y -> x = y.
Proof.
  intros Hnd [i Hi]%list_elem_of_lookup [j Hj]%list_elem_of_lookup Heq.
  assert (i = j) as ->; [|congruence].
  apply (NoDup_lookup (g <$> l) i j (g x) Hnd); rewrite list_lookup_fmap.
  - by rewrite Hi.
  - by rewrite Hj, Heq.
Qed.

(** The value a node carries for a topology key. *)
Definition topo_value (nodes : list Node) (k n : string) : string :=
  getp (node_props (nodesByName nodes) n) (auxKey k).

Section Topology.
#[local] Set Default Proof Using "Type*".
Context {S : Type} {Ops : StoreOps S} {Laws : StoreLaws S} {Rel : StoreReliable S} {RE : RegexpLib}.

(** Two newly diskful nodes come from two pools of one selection. *)
Lemma new_diskful_pair ord rd f0 s placed want err s' n1 n2 :
  st_ok s -> Place ord rd f0 s = (placed, want, err, s') ->
  diskful_on (st_table s') rd n1 -> ~ diskful_on (st_table s) rd n1 ->
  diskful_on (st_table s') rd n2 -> ~ diskful_on (st_table s) rd n2 ->
  let f := constrainFilterToRestoreSource rd f0 s in
  exists plan p1 p2, buildPlan rd f s = Ok (PlanReady plan)
    /\ p1 ∈ (selection f plan).1 /\ p2 ∈ (selection f plan).1
    /\ sp_NodeName p1 = n1 /\ sp_NodeName p2 = n2
    /\ (forall r, st_table s' !! (rd, n1) = Some r ->
          getp (res_Props r) storPoolNameProp = sp_StoragePoolName p1)
    /\ (forall r, st_table s' !! (rd, n2) = Some r ->
          getp (res_Props r) storPoolNameProp = sp_StoragePoolName p2).
Proof.
  intros Hok HP A1 B1 A2 B2 f.
  destruct (new_diskful_origin ord rd f0 s placed want err s' n1 Hok HP A1 B1)
    as (plan & p1 & Hb & Hp1 & <- & Ht1).
  destruct (new_diskful_origin ord rd f0 s placed want err s' n2 Hok HP A2 B2)
    as (plan' & p2 & Hb' & Hp2 & <- & Ht2).
  fold f in Hb, Hb', Hp1, Hp2. rewrite Hb in Hb'. injection Hb' as <-.
  exists plan, p1, p2. split_and!; try done; intros r Hr; simplify_eq; apply placed_row_pool.
Qed.

End Topology.

(** Replicas-on-different is a hard constraint: for every bare key, two nodes
    that [Place] makes diskful never carry the same value of the key, and neither
    carries the value of a node that already held a replica. *)
Theorem Place_replicas_on_different {S : Type} {Ops : StoreOps S} {Laws : StoreLaws S}
    {Rel : StoreReliable S} {RE : RegexpLib}
    ord rd f0 s placed want err s' all nodes ctrl res vds existing k n1 n2 :
  st_ok s -> reads rd s all nodes ctrl res vds existing ->
  Place ord rd f0 s = (placed, want, err, s') ->
  k ∈ ReplicasOnDifferent (constrainFilterToRestoreSource rd f0 s) ->
  Str.contains_char "="%char k = false ->
  diskful_on (st_table s') rd n1 -> ~ diskful_on (st_table s) rd n1 ->
  (diskful_on (st_table s') rd n2 -> ~ diskful_on (st_table s) rd n2 -> n1 <> n2 ->
     topo_value nodes k n1 <> topo_value nodes k n2)
  /\ (is_Some (st_table s !! (rd, n2)) -> topo_value nodes k n1 <> topo_value nodes k n2).
Proof.
  intros Hok Hr HP Hk Hbare A1 B1. set (f := constrainFilterToRestoreSource rd f0 s) in *.
  assert (forall plan, buildPlan rd f s = Ok (PlanReady plan) ->
    NoDup ((fun p => diffKey k (node_props (nodesByName nodes) (sp_NodeName p))) <$> (selection f plan).1)
    /\ forall p, p ∈ (selection f plan).1 ->
         diffKey k (node_props (nodesByName nodes) (sp_NodeName p))
           ∉ topologySeen existing (nodesByName nodes) (ReplicasOnDifferent f)) as Hdiff.
  { intros plan Hb. destruct (selection_run _ _ _ _ _ _ _ _ _ _ Hr Hb) as [t Hrun].
    destruct (start_fields f existing nodes all ctrl t) as (Hn & Hf & Hd & _).
    pose proof (run_diff _ _ _ k Hrun) as H. rewrite Hn, Hf, Hd in H. apply H.
    by apply bare_spec_elem. }
  split.
  - intros A2 B2 Hne Heq.
    destruct (new_diskful_pair ord rd f0 s placed want err s' n1 n2 Hok HP A1 B1 A2 B2)
      as (plan & p1 & p2 & Hb & Hp1 & Hp2 & <- & <- & _). fold f in Hb, Hp1, Hp2.
    destruct (Hdiff plan Hb) as [Hnd _]. apply Hne. f_equal.
    apply (nodup_fmap_inj _ _ _ _ Hnd Hp1 Hp2). unfold diffKey.
    unfold topo_value in Heq. by rewrite Heq.
  - intros [r Hr2] Heq.
    destruct (new_diskful_origin ord rd f0 s placed want err s' n1 Hok HP A1 B1)
      as (plan & p & Hb & Hp & <- & _). fold f in Hb, Hp.
    destruct (Hdiff plan Hb) as [_ Hns]. apply (Hns p Hp).
    unfold topologySeen. rewrite elem_of_list_to_set. apply list_elem_of_bind. exists k.
    split; [|by apply bare_spec_elem]. apply list_elem_of_fmap. exists r.
    destruct Hr as [_ _ _ _ _ He]. apply st_byDefinition_law in He; [|done]. split.
    + pose proof (st_table_wf s Hok _ _ Hr2) as Hkey. unfold rKey in Hkey. simplify_eq.
      unfold diffKey. unfold topo_value in Heq. by rewrite Heq.
    + rewrite He. apply list_elem_of_filter. split; [|apply elem_of_kv_values; eauto].
      pose proof (st_table_wf s Hok _ _ Hr2) as Hkey. unfold rKey in Hkey. by simplify_eq.
Qed.

Lemma Place_replicas_on_different_witness :
  topo_value (Nodes_List (H := example_uuid) (im_nodes Demo.solo)) "zone" "n2"
  <> topo_value (Nodes_List (H := example_uuid) (im_nodes Demo.solo)) "zone" "n1".
Proof.
  apply (Place_replicas_on_different (Rel := Demo.reliable) (RE := Demo.no_regexp) id "pvc-1"
    Demo.spread2 Demo.solo 2 2 None Demo.solo_after _ _ _ _ _ _ "zone" "n2" "n1"
    Demo.solo_ok Demo.solo_reads Demo.solo_place).
  - apply (bool_decide_eq_true_1 _). vm_compute. reflexivity.
  - reflexivity.
  - exact (proj1 Demo.solo_new_on_n2).
  - exact (proj2 Demo.solo_new_on_n2).
  - eexists. vm_compute. reflexivity.
Defined.

(** Two replicas of one definition never share a backing disk: the pools of two
    newly diskful nodes have different shared-space ids (when they have one), and a
    newly diskful node's pool does not share its id with the pool recorded for a
    diskful replica that was already there. *)
Theorem Place_shared_disks {S : Type} {Ops : StoreOps S} {Laws : StoreLaws S}
    {Rel : StoreReliable S} {RE : RegexpLib}
    ord rd f0 s placed want err s' all nodes ctrl res vds existing n1 :
  st_ok s -> reads rd s all nodes ctrl res vds existing ->
  Place ord rd f0 s = (placed, want, err, s') ->
  diskful_on (st_table s') rd n1 -> ~ diskful_on (st_table s) rd n1 ->
  exists p1, p1 ∈ all /\ sp_NodeName p1 = n1
    /\ (forall r, st_table s' !! (rd, n1) = Some r ->
          getp (res_Props r) storPoolNameProp = sp_StoragePoolName p1)
    /\ (sp_SharedSpaceID p1 <> "" ->
        (forall r p, r ∈ existing -> backing (poolsByKey all) r = Some p ->
           sp_SharedSpaceID p <> sp_SharedSpaceID p1)
        /\ (forall n2, diskful_on (st_table s') rd n2 -> ~ diskful_on (st_table s) rd n2 -> n1 <> n2 ->
             exists p2, p2 ∈ all /\ sp_NodeName p2 = n2
               /\ (forall r, st_table s' !! (rd, n2) = Some r ->
                     getp (res_Props r) storPoolNameProp = sp_StoragePoolName p2)
               /\ sp_SharedSpaceID p2 <> sp_SharedSpaceID p1)).
Proof.
  intros Hok Hr HP A1 B1. set (f := constrainFilterToRestoreSource rd f0 s).
  destruct (new_diskful_pair ord rd f0 s placed want err s' n1 n1 Hok HP A1 B1 A1 B1)
    as (plan & p1 & _ & Hb & Hp1 & _ & <- & _ & Hrow1 & _). fold f in Hb, Hp1.
  exists p1. split; [by destruct (selection_eligible _ _ _ _ _ _ _ _ _ _ _ Hr Hb Hp1)|].
  split; [done|]. split; [done|]. intros Hid.
  destruct (selection_run _ _ _ _ _ _ _ _ _ _ Hr Hb) as [t Hrun].
  pose proof (run_nodes _ _ _ Hrun) as [Hnodes _]. apply run_shared in Hrun as [Hnd Hseen]. split.
  - intros r p Hin Hback Heq. apply (Hseen p1 Hp1 Hid). cbn. unfold start_state, newState.
    apply seed_shared. right. split; [done|]. exists r, p. done.
  - intros n2 A2 B2 Hne.
    destruct (new_diskful_pair ord rd f0 s placed want err s' n2 n2 Hok HP A2 B2 A2 B2)
      as (plan' & p2 & _ & Hb' & Hp2 & _ & <- & _ & Hrow2 & _). fold f in Hb', Hp2.
    rewrite Hb in Hb'. injection Hb' as <-. exists p2.
    split; [by destruct (selection_eligible _ _ _ _ _ _ _ _ _ _ _ Hr Hb Hp2)|].
    split; [done|]. split; [done|]. intros Heq. apply Hne. f_equal.
    clear -Hnd Hp1 Hp2 Heq Hid. induction (selection f plan).1 as [|q l IH];
      [by apply not_elem_of_nil in Hp1|].
    rewrite fmap_cons, filter_cons in Hnd.
    apply elem_of_cons in Hp1 as [->|Hp1]; apply elem_of_cons in Hp2 as [->|Hp2]; try done.
    + rewrite decide_True in Hnd by done. apply list.NoDup_cons in Hnd as [Hq _].
      exfalso. apply Hq. apply list_elem_of_filter. split; [done|]. rewrite <- Heq.
      by apply list_elem_of_fmap_2.
    + rewrite decide_True in Hnd by congruence. apply list.NoDup_cons in Hnd as [Hq _].
      exfalso. apply Hq. apply list_elem_of_filter. split; [congruence|]. rewrite Heq.
      by apply list_elem_of_fmap_2.
    + case_decide; [apply list.NoDup_cons in Hnd as [_ Hnd]|]; auto.
Qed.

Lemma Place_shared_disks_witness :
  exists p, p ∈ StoragePools_List (im_storagePools Demo.solo) /\ sp_NodeName p = "n2".
Proof.
  destruct (Place_shared_disks (Rel := Demo.reliable) (RE := Demo.no_regexp) id "pvc-1"
    Demo.spread2 Demo.solo 2 2 None Demo.solo_after _ _ _ _ _ _ "n2"
    Demo.solo_ok Demo.solo_reads Demo.solo_place (proj1 Demo.solo_new_on_n2)
    (proj2 Demo.solo_new_on_n2)) as (p & H1 & H2 & _).
  exists p. split; [exact H1 | exact H2].
Defined.

(** ** Accounting *)

Section Counting.
Context (rd : string).

(** Rows of a table that satisfy a predicate. *)
Definition count_rows (P : (string * string) * Resource -> Prop) `{!forall x, Decision (P x)}
    (T : gmap (string * string) Resource) : nat := size (filter P T).

Lemma count_insert P `{!forall x, Decision (P x)} T k v :
  (forall old, T !! k = Some old -> ~ P (k, old)) ->
  count_rows P (<[k := v]> T) = (count_rows P T + if decide (P (k, v)) then 1 else 0)%nat.
Proof.
  intros Hold. unfold count_rows.
  assert (filter P T !! k = None) as Hnone.
  { apply map_lookup_filter_None. destruct (T !! k) as [old|] eqn:E; [|by left]. right.
    intros x Hx. simplify_eq. auto. }
  case_decide as HP.
  - rewrite map_filter_insert_True by done. rewrite map_size_insert_None by done. lia.
  - rewrite map_filter_insert_False by done. rewrite Nat.add_0_r.
    f_equal. apply map_eq. intros i. destruct (decide (i = k)) as [->|Hne].
    + rewrite Hnone. apply map_lookup_filter_None. left. by rewrite lookup_delete_eq.
    + rewrite !map_lookup_filter. by rewrite lookup_delete_ne.
Qed.

Lemma count_place_rows P `{!forall x, Decision (P x)} (c : StoragePool -> bool) T ch :
  NoDup (sp_NodeName <$> ch) ->
  (forall p old, p ∈ ch -> T !! (rd, sp_NodeName p) = Some old -> ~ P ((rd, sp_NodeName p), old)) ->
  (forall p, p ∈ ch ->
     P ((rd, sp_NodeName p), match T !! (rd, sp_NodeName p) with
                             | Some live => promote p live | None => new_diskful rd p end)
     <-> c p = true) ->
  count_rows P (foldl (place_row rd) T ch)
    = (count_rows P T + length (filter (fun p => c p = true) ch))%nat.
Proof.
  revert T; induction ch as [|p ch IH]; intros T Hnd Hold Hnew; [cbn; lia|].
  rewrite fmap_cons in Hnd. apply list.NoDup_cons in Hnd as [Hp Hnd].
  assert (forall q, q ∈ ch -> place_row rd T p !! (rd, sp_NodeName q) = T !! (rd, sp_NodeName q)) as Hq.
  { intros q Hin. apply place_row_ne. intros [= Heq]. apply Hp. rewrite <- Heq.
    by apply list_elem_of_fmap_2. }
  cbn [foldl]. rewrite IH; [|done|..].
  - assert (count_rows P (place_row rd T p) = (count_rows P T + if decide (c p = true) then 1 else 0)%nat)
      as ->; [|rewrite filter_cons; case_decide; cbn; lia].
    specialize (Hnew p (list_elem_of_here p ch)). unfold place_row.
    destruct (T !! (rd, sp_NodeName p)) as [live|] eqn:E; rewrite count_insert.
    + f_equal. repeat case_decide; tauto.
    + intros old Ho. apply (Hold p old); [apply list_elem_of_here|congruence].
    + f_equal. repeat case_decide; tauto.
    + intros old Ho. congruence.
  - intros q old Hin. rewrite Hq by done. intros Ho. apply (Hold q old); [|done].
    by apply list_elem_of_further.
  - intros q Hin. rewrite Hq by done. apply Hnew. by apply list_elem_of_further.
Qed.

End Counting.

Lemma count_rows_list (P : (string * string) * Resource -> Prop) `{!forall x, Decision (P x)}
    (N Q : Resource -> Prop) `{!forall x, Decision (N x)} `{!forall x, Decision (Q x)}
    (T : gmap (string * string) Resource) :
  (forall k r, T !! k = Some r -> P (k, r) <-> N r /\ Q r) ->
  count_rows P T = length (filter Q (filter N (kv_values T))).
Proof.
  intros HP. unfold count_rows, kv_values. rewrite map_filter_alt, map_size_list_to_map.
  - assert (forall kv, kv ∈ map_to_list T -> P kv <-> N kv.2 /\ Q kv.2) as HP'.
    { intros [k r] Hin%elem_of_map_to_list. by apply HP. }
    clear HP. induction (map_to_list T) as [|kv l IH]; [done|].
    rewrite fmap_cons, !filter_cons. pose proof (HP' kv (list_elem_of_here kv l)) as Hkv.
    specialize (IH (fun x Hx => HP' x (list_elem_of_further x kv l Hx))).
    repeat case_decide; rewrite ?filter_cons; repeat case_decide; cbn; try tauto; congruence.
  - pose proof (NoDup_fst_map_to_list T) as Hnd. clear HP.
    induction (map_to_list T) as [|kv l IH]; [constructor|]. rewrite fmap_cons in Hnd.
    apply list.NoDup_cons in Hnd as [Hk Hnd]. rewrite filter_cons. case_decide; [|auto].
    rewrite fmap_cons. constructor; [|auto].
    intros (x & Hx & [_ Hin]%list_elem_of_filter)%list_elem_of_fmap. apply Hk. rewrite Hx.
    by apply list_elem_of_fmap_2.
Qed.

(** A replica that counts toward the target. *)
Definition counts (disabled : gset string) (r : Resource) : Prop :=
  (res_NodeName r ∉ disabled) /\ (ResourceFlagDiskless ∉ res_Flags r)
  /\ (ResourceFlagInactive ∉ res_Flags r).
#[global] Instance counts_dec d r : Decision (counts d r).
Proof. unfold counts. apply _. Defined.

Lemma countDiskful_rows {S : Type} {Ops : StoreOps S} {Laws : StoreLaws S} rd s l disabled :
  st_ok s -> l ≡ₚ filter (fun r => res_Name r = rd) (kv_values (st_table s)) ->
  countDiskfulReplicas l disabled
    = Z.of_nat (count_rows (fun kv => kv.1.1 = rd /\ counts disabled kv.2) (st_table s)).
Proof.
  intros Hok Hl. unfold countDiskfulReplicas. rewrite Hl. f_equal. symmetry.
  apply (count_rows_list (fun kv => kv.1.1 = rd /\ counts disabled kv.2)
    (fun r => res_Name r = rd) (counts disabled)).
  intros k r Hr. cbn. pose proof (st_table_wf s Hok _ _ Hr) as <-. done.
Qed.

Lemma promote_keeps p live x :
  x <> ResourceFlagDiskless -> x <> ResourceFlagTieBreaker ->
  (x ∈ res_Flags (promote p live) <-> x ∈ res_Flags live).
Proof.
  intros H1 H2. cbn. induction (res_Flags live) as [|y l IH]; [done|]. cbn.
  destruct (PromoteWitnessFlags l true) as [keep was]; cbn in *.
  repeat case_bool_decide; subst; cbn; set_solver.
Qed.

(** The rows the diskless fill adds never count. *)
Lemma count_diskless_fill (P : (string * string) * Resource -> Prop) `{!forall x, Decision (P x)}
    rd T T' (names : list string) :
  (forall n, ~ P ((rd, n), new_diskless rd n)) ->
  (forall k, T' !! k = match T !! k with
                       | Some r => Some r
                       | None => if decide (k.1 = rd /\ k.2 ∈ names) then Some (new_diskless rd k.2) else None
                       end) ->
  count_rows P T' = count_rows P T.
Proof.
  intros Hn HT. unfold count_rows. f_equal. apply map_eq. intros [r n].
  rewrite !map_lookup_filter, HT. destruct (T !! (r, n)) as [x|]; [done|]. cbn.
  case_decide as Hd; [|done]. destruct Hd as [-> _]. cbn. by rewrite option_guard_False.
Qed.

Section Accounting.
#[local] Set Default Proof Using "Type*".
Context {S : Type} {Ops : StoreOps S} {Laws : StoreLaws S} {Rel : StoreReliable S} {RE : RegexpLib}.
Context (rd : string) (f : AutoSelectFilter) (s : S) (all : list StoragePool) (nodes : list Node)
  (ctrl : gmap string string) (res : list Resource) (vds : list VolumeDefinition)
  (existing : list Resource) (plan : placePlan).
Hypothesis Hok : st_ok s.
Hypothesis Hreads : reads rd s all nodes ctrl res vds existing.
Hypothesis Hplan : buildPlan rd f s = Ok (PlanReady plan).

Lemma existing_elem r : r ∈ existing <-> st_table s !! rKey r = Some r /\ res_Name r = rd.
Proof.
  destruct Hreads as [_ _ _ _ _ He]. apply st_byDefinition_law in He; [|done].
  rewrite He, list_elem_of_filter, elem_of_kv_values. split.
  - intros [<- [k Hk]]. by rewrite (st_table_wf s Hok _ _ Hk).
  - intros [Hk <-]. eauto.
Qed.

Lemma selection_nodup : NoDup (sp_NodeName <$> (selection f plan).1).
Proof.
  destruct (selection_run _ _ _ _ _ _ _ _ _ _ Hreads Hplan) as [t Hrun].
  by apply run_nodes in Hrun as [? _].
Qed.

(** A selected node held no replica before, or a diskless one. *)
Lemma selected_old p old :
  p ∈ (selection f plan).1 -> st_table s !! (rd, sp_NodeName p) = Some old ->
  old ∈ existing /\ diskless old /\ rKey old = (rd, sp_NodeName p).
Proof.
  intros Hp Ho. pose proof (st_table_wf s Hok _ _ Ho) as Hk.
  assert (old ∈ existing) as Hin.
  { apply existing_elem. rewrite Hk. unfold rKey in Hk. by simplify_eq. }
  split; [done|]. split; [|done]. destruct (decide (diskless old)) as [|Hdl]; [done|]. exfalso.
  destruct (selection_run _ _ _ _ _ _ _ _ _ _ Hreads Hplan) as [t Hrun].
  apply run_nodes in Hrun as [_ Htaken]. apply (Htaken p Hp). cbn. unfold start_state, newState.
  apply seed_taken. right. exists old. unfold rKey in Hk. simplify_eq. auto.
Qed.

Lemma selected_healthy p : p ∈ (selection f plan).1 -> sp_NodeName p ∉ disabledNodes nodes.
Proof.
  intros Hp. destruct (selection_eligible _ _ _ _ _ _ _ _ _ _ _ Hreads Hplan Hp) as [_ [Hm _] _ _].
  apply matchesPoolFilter_true in Hm as (_ & Hm & _). unfold autoplaceExcludedNodes in Hm. set_solver.
Qed.

(** Every selected pool adds one counting replica. *)
Lemma selection_counted :
  (forall r, r ∈ existing -> diskless r -> ResourceFlagInactive ∉ res_Flags r) ->
  count_rows (fun kv => kv.1.1 = rd /\ counts (disabledNodes nodes) kv.2)
      (foldl (place_row rd) (st_table s) (selection f plan).1)
  = (count_rows (fun kv => kv.1.1 = rd /\ counts (disabledNodes nodes) kv.2) (st_table s)
     + length (selection f plan).1)%nat.
Proof.
  intros Hinact. rewrite (count_place_rows rd _ (fun _ => true)); [|apply selection_nodup|..].
  - by rewrite filter_all.
  - intros p old Hp Ho [_ (_ & Hn & _)]. apply Hn. by apply (selected_old p old).
  - intros p Hp. split; [done|]. intros _. split; [done|]. pose proof (selected_healthy p Hp) as Hd.
    destruct (st_table s !! (rd, sp_NodeName p)) as [live|] eqn:El; cbn [snd].
    + destruct (selected_old p live Hp El) as (Hin & Hdl & Hk). unfold rKey in Hk.
      injection Hk as Hk1 Hk2. split; [cbn; by rewrite Hk2|]. split; [apply promoted_flags|].
      rewrite promote_keeps by done. auto.
    + split; [done|]. split; apply not_elem_of_nil.
Qed.

End Accounting.



(** [Place] never deletes a replica, never touches another definition's, leaves
    every diskful replica as it was, and changes a diskless one at most by promoting it
    in place: same row, with the witness flags dropped and the backing pool recorded. *)
Theorem Place_frame {S : Type} {Ops : StoreOps S} {Laws : StoreLaws S}
    {Rel : StoreReliable S} {RE : RegexpLib}
    ord rd f0 s placed want err s' rd' node r :
  st_ok s -> Place ord rd f0 s = (placed, want, err, s') ->
  (rd' <> rd -> st_table s' !! (rd', node) = st_table s !! (rd', node))
  /\ (st_table s !! (rd, node) = Some r -> ~ diskless r -> st_table s' !! (rd, node) = Some r)
  /\ (st_table s !! (rd, node) = Some r -> diskless r ->
       st_table s' !! (rd, node) = Some r
       \/ exists p, sp_NodeName p = node /\ st_table s' !! (rd, node) = Some (promote p r)).
Proof.
  intros Hok HP. set (f := constrainFilterToRestoreSource rd f0 s).
  destruct (Place_run ord rd f0 s Hok) as [(a & b & c & _ & E)|
    (plan & s2 & s3 & Hb & E & Hok3 & Ht & Hfill)]; rewrite HP in E; injection E as -> -> -> ->;
    [auto|]. fold f in Hb, Ht, Hfill.
  destruct (reads_exist rd s) as (all & nodes & ctrl & res & vds & existing & Hr).
  assert (forall k x, st_table s2 !! k = Some x -> st_table s3 !! k = Some x) as Hkeep.
  { intros k x Hx. destruct Hfill as [[_ ->]|[_ Hfill]]; [done|]. by rewrite Hfill, Hx. }
  split.
  - intros Hne. assert (st_table s2 !! (rd', node) = st_table s !! (rd', node)) as H2.
    { rewrite Ht. apply place_rows_other. intros p _ [= ? _]. done. }
    destruct Hfill as [[_ ->]|[_ Hfill]]; [done|]. rewrite Hfill, H2.
    destruct (st_table s !! (rd', node)); [done|]. rewrite decide_False; [done|]. by intros [? _].
  - destruct (decide (node ∈ sp_NodeName <$> (selection f plan).1)) as [Hin|Hout].
    + apply list_elem_of_fmap in Hin as (p & -> & Hp). split.
      * intros Hr' Hd. exfalso. apply Hd. by apply (selected_old rd f s _ _ _ _ _ _ plan Hok Hr Hb p r).
      * intros Hr' _. right. exists p. split; [done|]. apply Hkeep.
        rewrite Ht, (place_rows_placed rd (st_table s) _ p), Hr'; [done| |done].
        by apply (selection_nodup rd f s all nodes ctrl res vds existing plan).
    + assert (st_table s !! (rd, node) = Some r -> st_table s3 !! (rd, node) = Some r) as Hsame.
      { intros Hr'. apply Hkeep. rewrite Ht, place_rows_other; [done|].
        intros p Hp [= ->]. apply Hout. by apply list_elem_of_fmap_2. }
      split; auto.
Qed.

Lemma Place_frame_witness :
  res_m (im_resources Demo.after) !! ("pvc-1", "n2") = Some (Demo.replica "n2" []).
Proof.
  destruct (Place_frame (Rel := Demo.reliable) (RE := Demo.no_regexp) id "pvc-1" Demo.want3 Demo.start
    3 3 None Demo.after "pvc-1" "n2" (Demo.replica "n2" []) Demo.start_ok Demo.start_place)
    as (_ & H & _). apply H.
  - vm_compute. reflexivity.
  - intros Hd. apply not_elem_of_nil in Hd. exact Hd.
Defined.
