(* ===== verification/PlacerCaps.v ===== *)
(** * Caps, provider kinds and maximality of the autoplacer

    The per-value caps of [XReplicasOnDifferentMap], the compatibility of the provider
    kinds one [Place] call combines, and the maximality of its selection. *)

From Stdlib Require Import Ascii.
From S2P Require Import Prelude Api GoFloat GoSort Store Placer PlacerFacts PlacerProps.

(** ** Buckets *)

Section Buckets.
Context (f : AutoSelectFilter) (k v : string).

(** No key of the map contains the separator, so a bucket belongs to one key. *)
Definition plain_keys : Prop :=
  forall key n, XReplicasOnDifferentMap f !! key = Some n -> Str.contains_char "="%char key = false.

Definition bucket_name : string := k +:+ "=" +:+ v.

Definition in_bucket (np : gmap string string) : bool := bool_decide (getp np (auxKey k) = v).

Lemma xBucketKey_eq key np :
  Str.contains_char "="%char key = false -> Str.contains_char "="%char k = false ->
  xBucketKey key np = bucket_name <-> key = k /\ in_bucket np = true.
Proof.
  intros H1 H2. unfold xBucketKey, bucket_name, in_bucket. rewrite bool_decide_eq_true. split.
  - intros H. apply StrFacts.app_sep_inj in H as [-> ?]; auto.
  - by intros [-> ->].
Qed.

Lemma bump_list_bucket np (l : list (string * Z)) b :
  NoDup l.*1 -> Str.contains_char "="%char k = false ->
  (forall kv, kv ∈ l -> Str.contains_char "="%char kv.1 = false) ->
  bucket (foldl (fun b kv => let key := xBucketKey kv.1 np in <[key := bucket b key + 1]> b) b l) bucket_name
    = bucket b bucket_name + (if decide (k ∈ l.*1 /\ in_bucket np = true) then 1 else 0).
Proof.
  intros Hnd Hk. revert b. induction l as [|kv l IH]; intros b Hl; cbn [foldl].
  { rewrite decide_False; [lia|]. intros [H _]. by apply not_elem_of_nil in H. }
  rewrite fmap_cons in Hnd |- *. apply list.NoDup_cons in Hnd as [Hkv Hnd]. rewrite IH; [|done|].
  2: { intros x Hx. apply Hl. by apply list_elem_of_further. }
  pose proof (xBucketKey_eq kv.1 np (Hl kv (list_elem_of_here _ _)) Hk) as Heq.
  unfold bucket at 1. destruct (decide (xBucketKey kv.1 np = bucket_name)) as [E|E].
  - rewrite E, lookup_insert_eq. cbn. apply Heq in E as [<- Hin].
    rewrite decide_False by tauto. rewrite decide_True; [lia|]. split; [apply list_elem_of_here|done].
  - rewrite lookup_insert_ne by done. fold (bucket b bucket_name). f_equal.
    apply decide_ext. rewrite elem_of_cons. split; [tauto|]. intros [[->|?] ?]; [|tauto].
    exfalso. apply E. by apply Heq.
Qed.

Lemma bump_bucket n np b :
  plain_keys -> XReplicasOnDifferentMap f !! k = Some n ->
  bucket (bump_buckets f np b) bucket_name = bucket b bucket_name + (if in_bucket np then 1 else 0).
Proof.
  intros Hp Hk. unfold bump_buckets. rewrite bump_list_bucket.
  - f_equal. destruct (in_bucket np); [rewrite decide_True|rewrite decide_False]; try done.
    + split; [|done]. apply list_elem_of_fmap. exists (k, n). split; [done|]. by apply elem_of_map_to_list.
    + by intros [_ ?].
  - apply NoDup_fst_map_to_list.
  - by apply (Hp k n).
  - intros [key m] Hin%elem_of_map_to_list. by apply (Hp key m).
Qed.

(** Along a run the bucket counts the accepted nodes, and never passes the cap. *)
Lemma run_bucket n st ch st' :
  plain_keys -> XReplicasOnDifferentMap f !! k = Some n -> 0 < n -> ps_filter st = f ->
  run st ch st' ->
  let hits := Z.of_nat (length (filter (fun p =>
                in_bucket (node_props (ps_nodes st) (sp_NodeName p)) = true) ch)) in
  bucket (ps_xBuckets st) bucket_name + hits <= Z.max n (bucket (ps_xBuckets st) bucket_name).
Proof.
  intros Hp Hk Hn Hf Hrun. induction Hrun as [st|st p np ch st' Hc Hrun IH]; [cbn; lia|].
  apply candidateNodeProps_Some in Hc as (-> & _ & _ & _ & Hx & _).
  rewrite commit_filter, commit_nodes in IH. specialize (IH Hf). cbn zeta in IH |- *.
  set (np := node_props (ps_nodes st) (sp_NodeName p)) in *.
  assert (bucket (ps_xBuckets (commit st p np)) bucket_name
          = bucket (ps_xBuckets st) bucket_name + (if in_bucket np then 1 else 0)) as Hb.
  { unfold commit; cbn [ps_xBuckets]. rewrite Hf. by apply (bump_bucket n). }
  rewrite Hb in IH. rewrite filter_cons. fold np. case_decide as Hin.
  - rewrite Hin in *. cbn [length].
    assert (bucket (ps_xBuckets st) bucket_name < n) as Hlt.
    { unfold exceedsXBucket in Hx. rewrite Hf in Hx.
      destruct (Z.le_gt_cases n (bucket (ps_xBuckets st) bucket_name)) as [Hge|]; [|done]. exfalso.
      assert (existsb (fun kv => bool_decide (0 < kv.2)
        && bool_decide (kv.2 <= bucket (ps_xBuckets st) (xBucketKey kv.1 np)))
        (map_to_list (XReplicasOnDifferentMap f)) = true) as Ht; [|congruence].
      apply existsb_exists. exists (k, n). split.
      - apply list_elem_of_In. by apply elem_of_map_to_list.
      - cbn. apply andb_true_intro. split; apply bool_decide_eq_true_2; [done|].
        apply bool_decide_eq_true in Hin. unfold xBucketKey. by rewrite Hin. }
    lia.
  - destruct (in_bucket np); [done|]. lia.
Qed.

(** [newState] seeds the bucket with the diskful replicas already there. *)
Lemma seed_bucket n nodes byKey st ex :
  plain_keys -> XReplicasOnDifferentMap f !! k = Some n ->
  bucket (ps_xBuckets (foldl (seed_replica f nodes byKey) st ex)) bucket_name
    = bucket (ps_xBuckets st) bucket_name
      + Z.of_nat (length (filter (fun r => ~ diskless r
                    /\ in_bucket (node_props nodes (res_NodeName r)) = true) ex)).
Proof.
  intros Hp Hk. revert st; induction ex as [|r ex IH]; intros st; [cbn; lia|].
  cbn [foldl]. rewrite IH, filter_cons.
  assert (bucket (ps_xBuckets (seed_replica f nodes byKey st r)) bucket_name
    = bucket (ps_xBuckets st) bucket_name
      + (if decide (~ diskless r /\ in_bucket (node_props nodes (res_NodeName r)) = true)
         then 1 else 0)) as ->.
  { unfold seed_replica, diskless, Contains. case_bool_decide as Hd; cbn [ps_xBuckets].
    - rewrite decide_False; [lia|]. by intros [? _].
    - rewrite (bump_bucket n) by done. f_equal.
      destruct (in_bucket _); [rewrite decide_True|rewrite decide_False]; try done. by intros [_ ?]. }
  case_decide; cbn [length]; lia.
Qed.

End Buckets.

(** ** Per-value caps *)

(** A diskful replica of the definition on a node that carries value [v] of key [k]. *)
Definition shares_value (nodes : list Node) (rd k v : string) (kv : (string * string) * Resource) : Prop :=
  kv.1.1 = rd /\ (~ diskless kv.2) /\ topo_value nodes k kv.1.2 = v.
#[global] Instance shares_value_dec nodes rd k v kv : Decision (shares_value nodes rd k v kv).
Proof. unfold shares_value. apply _. Defined.

Section Caps.
#[local] Set Default Proof Using "Type*".
Context {S : Type} {Ops : StoreOps S} {Laws : StoreLaws S} {Rel : StoreReliable S} {RE : RegexpLib}.
Context (rd : string) (f : AutoSelectFilter) (s : S) (all : list StoragePool) (nodes : list Node)
  (ctrl : gmap string string) (res : list Resource) (vds : list VolumeDefinition)
  (existing : list Resource) (plan : placePlan).
Hypothesis Hok : st_ok s.
Hypothesis Hreads : reads rd s all nodes ctrl res vds existing.
Hypothesis Hplan : buildPlan rd f s = Ok (PlanReady plan).

(** The seeded bucket is the number of diskful rows that share the value. *)
Lemma start_bucket k v n t :
  plain_keys f -> XReplicasOnDifferentMap f !! k = Some n ->
  bucket (ps_xBuckets (with_sameTuple (start_state f existing nodes all ctrl) t)) (bucket_name k v)
    = Z.of_nat (count_rows (shares_value nodes rd k v) (st_table s)).
Proof.
  intros Hp Hk. unfold with_sameTuple; cbn [ps_xBuckets]. unfold start_state, newState.
  rewrite (seed_bucket f k v n) by done. cbn [ps_xBuckets].
  unfold bucket at 1. rewrite lookup_empty. cbn [default]. rewrite Z.add_0_l. f_equal.
  destruct Hreads as [_ _ _ _ _ He]. apply st_byDefinition_law in He; [|done]. rewrite He.
  symmetry. apply (count_rows_list (shares_value nodes rd k v) (fun r => res_Name r = rd)
    (fun r => ~ diskless r /\ in_bucket k v (node_props (nodesByName nodes) (res_NodeName r)) = true)).
  intros key r Hr. pose proof (st_table_wf s Hok _ _ Hr) as <-.
  unfold shares_value, rKey, in_bucket, topo_value. cbn. by rewrite bool_decide_eq_true.
Qed.

(** The rows of the selection add to the count exactly the pools of the bucket. *)
Lemma selection_bucket k v :
  count_rows (shares_value nodes rd k v) (foldl (place_row rd) (st_table s) (selection f plan).1)
  = (count_rows (shares_value nodes rd k v) (st_table s)
     + length (filter (fun p => in_bucket k v (node_props (nodesByName nodes) (sp_NodeName p)) = true)
                 (selection f plan).1))%nat.
Proof.
  apply count_place_rows.
  - by apply (selection_nodup rd f s all nodes ctrl res vds existing plan).
  - intros p old Hp Ho (_ & Hn & _). apply Hn. cbn.
    by apply (selected_old rd f s all nodes ctrl res vds existing plan Hok Hreads Hplan p old).
  - intros p Hp. unfold shares_value, in_bucket, topo_value. cbn [fst snd].
    rewrite bool_decide_eq_true. split; [tauto|]. intros Hv. split; [done|]. split; [|done].
    destruct (st_table s !! (rd, sp_NodeName p)); [apply promoted_flags|apply not_elem_of_nil].
Qed.

End Caps.

(** X-replicas-on-different is a hard cap: for every key with a positive limit, the
    number of diskful replicas that share one value of the key after [Place] is at most
    the limit, or what it was before when it already exceeded the limit. Keys with the
    separator of the bucket names inside are left out. *)
Theorem Place_x_replicas_capped {S : Type} {Ops : StoreOps S} {Laws : StoreLaws S}
    {Rel : StoreReliable S} {RE : RegexpLib}
    ord rd f0 s placed want err s' all nodes ctrl res vds existing k v n :
  st_ok s -> reads rd s all nodes ctrl res vds existing ->
  Place ord rd f0 s = (placed, want, err, s') ->
  plain_keys (constrainFilterToRestoreSource rd f0 s) ->
  XReplicasOnDifferentMap (constrainFilterToRestoreSource rd f0 s) !! k = Some n -> 0 < n ->
  (count_rows (shares_value nodes rd k v) (st_table s')
     <= Z.to_nat n `max` count_rows (shares_value nodes rd k v) (st_table s))%nat.
Proof.
  intros Hok Hr HP Hp Hk Hn. set (f := constrainFilterToRestoreSource rd f0 s) in *.
  destruct (Place_run ord rd f0 s Hok) as [(a & b & c & _ & E)|
    (plan & s2 & s3 & Hb & E & _ & Ht & Hfill)]; rewrite HP in E; injection E as -> -> -> ->; [lia|].
  fold f in Hb, Ht, Hfill. set (P := shares_value nodes rd k v).
  assert (count_rows P (st_table s3) = count_rows P (st_table s2)) as ->.
  { destruct Hfill as [[_ ->]|[_ Hfill]]; [done|]. eapply count_diskless_fill; [|exact Hfill].
    intros x (_ & Hx & _). apply Hx. cbn. apply list_elem_of_here. }
  rewrite Ht. unfold P. rewrite (selection_bucket rd f s all nodes ctrl res vds existing plan) by done.
  destruct (selection_run _ _ _ _ _ _ _ _ _ _ Hr Hb) as [t Hrun].
  destruct (start_fields f existing nodes all ctrl t) as (Hnodes & Hf & _).
  pose proof (run_bucket f k v n _ _ _ Hp Hk Hn Hf Hrun) as Hb2. cbn zeta in Hb2.
  rewrite Hnodes, (start_bucket rd f s all nodes ctrl res vds existing plan Hok Hr Hb k v n t Hp Hk) in Hb2. lia.
Qed.

Lemma Place_x_replicas_capped_witness :
  (count_rows (shares_value (Nodes_List (H := example_uuid) (im_nodes Demo.solo)) "pvc-1" "zone" "b")
     (res_m (im_resources Demo.solo_after)) <= 1)%nat.
Proof.
  apply (Place_x_replicas_capped (Rel := Demo.reliable) (RE := Demo.no_regexp) id "pvc-1"
    Demo.spread2 Demo.solo 2 2 None Demo.solo_after _ _ _ _ _ _ "zone" "b" 1
    Demo.solo_ok Demo.solo_reads Demo.solo_place).
  - intros key m Hm.
    assert (map_Forall (fun x _ => Str.contains_char "="%char x = false)
      ({["zone" := 1]} : gmap string Z)) as Hall by (apply (bool_decide_eq_true_1 _); reflexivity).
    exact (Hall key m Hm).
  - reflexivity.
  - lia.
Defined.

(** ** Provider kinds *)

(** The family of a kind: the file kinds mix, the ZFS kinds mix, every other kind only
    with itself. *)
Definition family (kind : string) : string :=
  if bool_decide (kind = StoragePoolKindFileThin) then StoragePoolKindFile
  else if bool_decide (kind = StoragePoolKindZFSThin) then StoragePoolKindZFS
  else kind.

Lemma mixing_family left right :
  left <> StoragePoolKindDiskless -> right <> StoragePoolKindDiskless ->
  IsProviderKindMixingAllowed left right false = bool_decide (family left = family right).
Proof.
  intros Hl Hr. unfold IsProviderKindMixingAllowed, isMixingAllowedDirected, family.
  rewrite (bool_decide_eq_false_2 _ Hl), (bool_decide_eq_false_2 _ Hr). cbn [orb].
  repeat case_bool_decide; subst; cbn; try done; exfalso; eauto.
Qed.

Lemma run_kinds st ch st' :
  run st ch st' ->
  exists k, (ps_firstKind st <> "" -> k = ps_firstKind st)
    /\ (k = ps_firstKind st \/ exists p, p ∈ ch /\ k = sp_ProviderKind p)
    /\ forall p, p ∈ ch -> sp_ProviderKind p = ""
         \/ IsProviderKindMixingAllowed k (sp_ProviderKind p) (ps_allowMixing st) = true.
Proof.
  induction 1 as [st|st p np ch st' Hc _ (k & Hk & Ho & IH)].
  { exists (ps_firstKind st). split_and!; [done|by left|].
    intros p Hp. by apply not_elem_of_nil in Hp. }
  apply candidateNodeProps_Some in Hc as (_ & _ & _ & _ & _ & _ & Hm). unfold allowsKindMix in Hm.
  cbn [commit ps_firstKind ps_allowMixing] in Hk, Ho, IH. exists k. split_and!.
  - intros Hne. rewrite bool_decide_eq_false_2 in Hk by done. auto.
  - destruct Ho as [->|(q & Hq & ->)].
    + case_bool_decide; [|by left]. right. exists p. split; [apply list_elem_of_here|done].
    + right. exists q. split; [by apply list_elem_of_further|done].
  - intros q [->|Hq]%elem_of_cons; [|auto].
    destruct (decide (sp_ProviderKind p = "")) as [|Hp]; [by left|]. right.
    destruct (decide (ps_firstKind st = "")) as [E|E].
    + rewrite bool_decide_eq_true_2 in Hk by done. rewrite Hk by done. apply mixing_diskless_right.
    + rewrite bool_decide_eq_false_2 in Hk, Hm by done. by rewrite Hk.
Qed.

(** Unless the cluster opts into mixing, one [Place] call never combines provider
    families: the pools of any two nodes it makes diskful are mixable with each other
    and with the kind recorded for the replicas already there (which must not be the
    diskless pseudo kind, compatible with anything). *)
Theorem Place_kinds_mixable {S : Type} {Ops : StoreOps S} {Laws : StoreLaws S}
    {Rel : StoreReliable S} {RE : RegexpLib}
    ord rd f0 s placed want err s' all nodes ctrl res vds existing n1 n2 :
  st_ok s -> reads rd s all nodes ctrl res vds existing ->
  Place ord rd f0 s = (placed, want, err, s') ->
  loadAllowPoolDriverMixing ctrl = false ->
  let first := ps_firstKind (start_state (constrainFilterToRestoreSource rd f0 s)
                               existing nodes all ctrl) in
  first <> StoragePoolKindDiskless ->
  diskful_on (st_table s') rd n1 -> ~ diskful_on (st_table s) rd n1 ->
  diskful_on (st_table s') rd n2 -> ~ diskful_on (st_table s) rd n2 ->
  exists p1 p2, p1 ∈ all /\ p2 ∈ all /\ sp_NodeName p1 = n1 /\ sp_NodeName p2 = n2
    /\ (forall r, st_table s' !! (rd, n1) = Some r ->
          getp (res_Props r) storPoolNameProp = sp_StoragePoolName p1)
    /\ (forall r, st_table s' !! (rd, n2) = Some r ->
          getp (res_Props r) storPoolNameProp = sp_StoragePoolName p2)
    /\ (sp_ProviderKind p1 <> "" -> sp_ProviderKind p2 <> "" ->
        IsProviderKindMixingAllowed (sp_ProviderKind p1) (sp_ProviderKind p2) false = true
        /\ (first <> "" -> IsProviderKindMixingAllowed first (sp_ProviderKind p1) false = true)).
Proof.
  intros Hok Hr HP Hmix first Hfirst A1 B1 A2 B2. set (f := constrainFilterToRestoreSource rd f0 s) in *.
  destruct (new_diskful_pair ord rd f0 s placed want err s' n1 n2 Hok HP A1 B1 A2 B2)
    as (plan & p1 & p2 & Hb & Hp1 & Hp2 & <- & <- & Hrow1 & Hrow2). fold f in Hb, Hp1, Hp2.
  assert (forall p, p ∈ (selection f plan).1 -> p ∈ all /\ sp_ProviderKind p <> StoragePoolKindDiskless)
    as Hel.
  { intros p Hp. destruct (selection_eligible _ _ _ _ _ _ _ _ _ _ _ Hr Hb Hp) as [Hin [Hm _] _ _].
    apply matchesPoolFilter_true in Hm as [Hm _]. done. }
  destruct (Hel p1 Hp1) as [Hin1 Hk1], (Hel p2 Hp2) as [Hin2 Hk2].
  exists p1, p2. do 6 (split; [done|]). intros Hne1 Hne2.
  destruct (selection_run _ _ _ _ _ _ _ _ _ _ Hr Hb) as [t Hrun].
  destruct (start_fields f existing nodes all ctrl t) as (_ & _ & _ & Ha). rewrite Hmix in Ha.
  apply run_kinds in Hrun as (k & Hk & Ho & Hall). rewrite Ha in Hall.
  cbn [with_sameTuple ps_firstKind] in Hk, Ho. fold first in Hk, Ho.
  destruct (Hall p1 Hp1) as [|Hm1]; [done|]. destruct (Hall p2 Hp2) as [|Hm2]; [done|].
  split; [|intros Hf; by rewrite <- Hk].
  assert (k <> StoragePoolKindDiskless) as Hkd.
  { destruct Ho as [->|(q & Hq & ->)]; [done|]. by apply Hel. }
  rewrite mixing_family in Hm1, Hm2 by done. rewrite mixing_family by done.
  apply bool_decide_eq_true in Hm1, Hm2. apply bool_decide_eq_true. congruence.
Qed.

Lemma Place_kinds_mixable_witness :
  exists p1 p2, p1 ∈ StoragePools_List (im_storagePools Demo.start)
    /\ p2 ∈ StoragePools_List (im_storagePools Demo.start)
    /\ sp_NodeName p1 = "n3" /\ sp_NodeName p2 = "n3".
Proof.
  destruct (Place_kinds_mixable (Rel := Demo.reliable) (RE := Demo.no_regexp) id "pvc-1" Demo.want3
    Demo.start 3 3 None Demo.after _ _ _ _ _ _ "n3" "n3" Demo.start_ok Demo.start_reads Demo.start_place)
    as (p1 & p2 & H1 & H2 & H3 & H4 & _).
  - reflexivity.
  - intros E. apply (bool_decide_eq_true_2 _) in E. vm_compute in E. discriminate.
  - exact (proj1 Demo.new_on_n3).
  - exact (proj2 Demo.new_on_n3).
  - exact (proj1 Demo.new_on_n3).
  - exact (proj2 Demo.new_on_n3).
  - exists p1, p2. auto.
Defined.

(** With the opt-in the table is not transitive: a definition pinned to ZFS_THIN takes
    LVM_THIN and ZFS replicas, which are not mixable with each other. *)
Example mixing_not_transitive :
  (IsProviderKindMixingAllowed "ZFS_THIN" "LVM_THIN" true, IsProviderKindMixingAllowed "ZFS_THIN" "ZFS" true,
   IsProviderKindMixingAllowed "LVM_THIN" "ZFS" true) = (true, true, false).
Proof. reflexivity. Qed.

(** The mixing table is symmetric, as its comment promises, and the cluster opt-in
    opens exactly one more cell: LVM_THIN with ZFS_THIN. *)
Theorem mixing_table left right allow :
  IsProviderKindMixingAllowed left right allow = IsProviderKindMixingAllowed right left allow
  /\ (IsProviderKindMixingAllowed left right true
        <> IsProviderKindMixingAllowed left right false <->
      (left = StoragePoolKindLVMThin /\ right = StoragePoolKindZFSThin)
      \/ (left = StoragePoolKindZFSThin /\ right = StoragePoolKindLVMThin)).
Proof.
  split.
  - unfold IsProviderKindMixingAllowed.
    rewrite (orb_comm (bool_decide (right = _))), (orb_comm (isMixingAllowedDirected right left)).
    rewrite (bool_decide_ext (right = left) (left = right)) by done.
    replace (isThinCrossKindPair right left) with (isThinCrossKindPair left right); [done|].
    unfold isThinCrossKindPair. by repeat case_bool_decide.
  - split.
    + unfold IsProviderKindMixingAllowed, isThinCrossKindPair.
      destruct (_ || bool_decide (right = StoragePoolKindDiskless)); [done|].
      destruct (bool_decide (left = right)); [done|].
      destruct (isMixingAllowedDirected left right || _); [done|]. cbn [andb].
      repeat case_bool_decide; cbn; auto; done.
    + intros [[-> ->]|[-> ->]]; done.
Qed.

(** ** Maximality *)

(** C13: when [Place] falls short it is not for lack of trying: the replicas it placed are
    a run of the acceptance checks over the ranked candidates, the store holds exactly
    those rows on top of the old ones, and every candidate pool, whether placed, passed
    over or never reached, is refused by the state the run ended in. *)
Theorem Place_maximal {S : Type} {Ops : StoreOps S} {Laws : StoreLaws S}
    {Rel : StoreReliable S} {RE : RegexpLib} ord rd f0 s placed want err s' plan :
  st_ok s -> buildPlan rd (constrainFilterToRestoreSource rd f0 s) s = Ok (PlanReady plan) ->
  Place ord rd f0 s = (placed, want, err, s') -> placed < want ->
  exists chosen final, run (pl_state plan) chosen final
    /\ chosen `sublist_of` pl_preferred plan ++ pl_lastResort plan
    /\ placed = countDiskfulReplicas (pl_existing plan) (pl_disabled plan) + Z.of_nat (length chosen)
    /\ st_table s' = foldl (place_row rd) (st_table s) chosen
    /\ forall q, q ∈ pl_preferred plan ++ pl_lastResort plan -> candidateNodeProps final q = None.
Proof.
  intros Hok Hb HP Hlt. set (f := constrainFilterToRestoreSource rd f0 s) in *.
  destruct (Place_run ord rd f0 s Hok) as [(a & b & c & Hb' & _)|
    (plan' & s2 & s3 & Hb' & E & _ & Ht & Hfill)]; fold f in Hb'; [congruence|].
  rewrite Hb in Hb'. injection Hb' as <-. fold f in E, Ht, Hfill.
  rewrite HP in E. injection E as -> -> -> ->.
  exists (selection f plan).1, (selection f plan).2. split_and!; [apply greedy_run|apply greedy_sublist|done|..].
  - destruct Hfill as [[_ ->]|[Hw _]]; [done|]. apply andb_prop in Hw as [_ Hw%bool_decide_eq_true]. lia.
  - intros q Hq. apply greedy_maximal; [|done]. fold (selection f plan). lia.
Qed.

Lemma Place_maximal_witness :
  exists plan chosen final,
    buildPlan (Ops := @InMemory_ops example_uuid) (RE := Demo.no_regexp) "pvc-1"
      (Demo.filter_of 4 ["zone"] ∅) Demo.solo = Ok (PlanReady plan)
    /\ run (pl_state plan) chosen final
    /\ forall q, q ∈ pl_preferred plan ++ pl_lastResort plan -> candidateNodeProps final q = None.
Proof.
  destruct (buildPlan (Ops := @InMemory_ops example_uuid) (RE := Demo.no_regexp) "pvc-1"
    (Demo.filter_of 4 ["zone"] ∅) Demo.solo) as [[|plan]|] eqn:Hb;
    [vm_compute in Hb; discriminate| |vm_compute in Hb; discriminate].
  destruct (Place_maximal (Rel := Demo.reliable) (RE := Demo.no_regexp) id "pvc-1"
    (Demo.filter_of 4 ["zone"] ∅) Demo.solo 2 4 None
    (Place (Ops := @InMemory_ops example_uuid) (RE := Demo.no_regexp) id "pvc-1"
       (Demo.filter_of 4 ["zone"] ∅) Demo.solo).2 plan
    Demo.solo_ok Hb) as (ch & fin & H1 & _ & _ & _ & H5).
  - vm_compute. reflexivity.
  - lia.
  - exists plan, ch, fin. auto.
Defined.
