(* ===== verification/PlacerErrors.v ===== *)
(** * Shortfall errors, ranking and grouping of the autoplacer

    What the capacity and over-subscription errors of [Place] report, when a satisfied
    definition is refused, how [rankCandidates] orders the pools, and what
    [pickSameGroup] hands on. *)

From Stdlib Require Import Ascii.
From S2P Require Import Prelude Api GoFloat GoSort Store Placer PlacerFacts PlacerProps.

(** ** The largest volume *)

Lemma requiredKib_from vds m :
  let r := foldl (fun m vd => if bool_decide (m < vd_SizeKib vd) then vd_SizeKib vd else m) m vds in
  m <= r /\ (forall vd, vd ∈ vds -> vd_SizeKib vd <= r)
  /\ (r = m \/ exists vd, vd ∈ vds /\ vd_SizeKib vd = r).
Proof.
  revert m; induction vds as [|vd vds IH]; intros m; cbn [foldl].
  { split; [lia|]. split; [intros vd H; by apply not_elem_of_nil in H | by left]. }
  destruct (IH (if bool_decide (m < vd_SizeKib vd) then vd_SizeKib vd else m)) as (H1 & H2 & H3).
  case_bool_decide; (split; [lia|]; split).
  1,3: intros x [->|Hx]%elem_of_cons; [lia|auto].
  - right. destruct H3 as [->|(x & Hx & E)]; [|by exists x; split; [apply list_elem_of_further|]].
    exists vd. split; [apply list_elem_of_here|done].
  - destruct H3 as [->|(x & Hx & E)]; [by left|]. right. exists x. by split; [apply list_elem_of_further|].
Qed.

(** ** What the gates record *)

Section Gates.
Context (f : AutoSelectFilter) (ex : gset string) (ctrl : gmap string string) (m : Z).

(** Refused by the free-capacity floor. *)
Definition below_floor (p : StoragePool) : Prop :=
  matchesPoolFilter p f ex = true /\ 0 < m /\ sp_FreeCapacity p < m.

(** Refused by the over-subscription cap. *)
Definition over_cap (p : StoragePool) : Prop :=
  matchesPoolFilter p f ex = true /\ 0 < m /\ m <= sp_FreeCapacity p
  /\ (effectiveOversubCaps p ctrl).1.1 < m.

(** An error record that describes the pool. *)
Definition describes (e : OversubscriptionShortfallError) (p : StoragePool) : Prop :=
  os_RequiredKib e = m /\ os_PoolName e = sp_StoragePoolName p /\ os_NodeName e = sp_NodeName p
  /\ effectiveOversubCaps p ctrl = (os_EffectiveCapKib e, os_Ratio e, os_RatioValue e).

(** The summary of the pools seen so far: the best free space below the floor, and the
    closest miss of the cap. *)
Definition summarises (g : candidateGates) (l : list StoragePool) : Prop :=
  (forall p, p ∈ l -> below_floor p -> sp_FreeCapacity p <= maxFreeBelow g)
  /\ (maxFreeBelow g = 0 \/ exists p, p ∈ l /\ below_floor p /\ sp_FreeCapacity p = maxFreeBelow g)
  /\ 0 <= maxFreeBelow g
  /\ (oversubBest g = None -> forall p, p ∈ l -> ~ over_cap p)
  /\ (forall e, oversubBest g = Some e ->
       (exists p, p ∈ l /\ over_cap p /\ describes e p)
       /\ forall q, q ∈ l -> over_cap q -> (effectiveOversubCaps q ctrl).1.1 <= os_EffectiveCapKib e).

Lemma summarises_skip g l p :
  ~ below_floor p -> ~ over_cap p -> summarises g l -> summarises g (l ++ [p]).
Proof.
  intros Hb Ho (H1 & H2 & H3 & H4 & H5). unfold summarises. setoid_rewrite elem_of_app.
  setoid_rewrite list_elem_of_singleton. split_and!; [naive_solver..|].
  intros e He. destruct (H5 e He) as [(q & ? & ? & ?) Hq]. split; [exists q; auto|]. naive_solver.
Qed.

Lemma summarises_floor g l p :
  below_floor p -> summarises g l ->
  summarises (if bool_decide (maxFreeBelow g < sp_FreeCapacity p)
              then mkGates (sp_FreeCapacity p) (oversubBest g) else g) (l ++ [p]).
Proof.
  intros Hb (H1 & H2 & H3 & H4 & H5).
  assert (~ over_cap p) as Ho by (unfold over_cap, below_floor in *; lia).
  unfold summarises. setoid_rewrite elem_of_app. setoid_rewrite list_elem_of_singleton.
  case_bool_decide; cbn [maxFreeBelow oversubBest]; split_and!; try lia.
  - intros q [Hq| ->] Hf; [specialize (H1 q Hq Hf)|]; lia.
  - right. exists p. auto.
  - naive_solver.
  - intros e He. destruct (H5 e He) as [(q & ? & ? & ?) Hq]. split; [exists q; auto|]. naive_solver.
  - intros q [Hq| ->] Hf; [auto|lia].
  - naive_solver.
  - naive_solver.
  - intros e He. destruct (H5 e He) as [(q & ? & ? & ?) Hq]. split; [exists q; auto|]. naive_solver.
Qed.

Lemma summarises_cap g l p :
  over_cap p -> summarises g l -> summarises (oversubRejects p ctrl m g).2 (l ++ [p]).
Proof.
  intros Ho (H1 & H2 & H3 & H4 & H5). pose proof Ho as (Hm & Hpos & Hfree & Hcap).
  unfold oversubRejects. destruct (effectiveOversubCaps p ctrl) as [[cap kind] ratio] eqn:Hc.
  cbn [fst] in Hcap. rewrite bool_decide_eq_false_2 by lia. cbn [snd].
  assert (~ below_floor p) as Hb by (unfold below_floor; lia).
  unfold summarises. setoid_rewrite elem_of_app. setoid_rewrite list_elem_of_singleton.
  assert (forall mx, maxFreeBelow g = mx -> (forall q, q ∈ l \/ q = p -> below_floor q -> sp_FreeCapacity q <= mx)
    /\ (mx = 0 \/ exists q, (q ∈ l \/ q = p) /\ below_floor q /\ sp_FreeCapacity q = mx) /\ 0 <= mx) as Hfl.
  { intros mx <-. split_and!; naive_solver. }
  destruct (match oversubBest g with None => true | Some b => _ end) eqn:Hbetter;
    cbn [maxFreeBelow oversubBest]; destruct (Hfl _ eq_refl) as (F1 & F2 & F3); split_and!; try done.
  - intros e [= <-]. cbn. split.
    + exists p. unfold describes; cbn. auto 10.
    + intros q [Hq| ->] Hoq; [|rewrite Hc; cbn; lia].
      destruct (oversubBest g) as [b|] eqn:Eb; [|exfalso; eapply H4; eauto].
      apply bool_decide_eq_true in Hbetter. destruct (H5 b eq_refl) as [_ Hmax].
      specialize (Hmax q Hq Hoq). lia.
  - intros Hn. rewrite Hn in Hbetter. done.
  - intros e He. rewrite He in Hbetter. apply bool_decide_eq_false in Hbetter.
    destruct (H5 e He) as [(q & ? & ? & ?) Hmax]. split; [exists q; auto|].
    intros x [Hx| ->] Hox; [auto|]. rewrite Hc. cbn. lia.
Qed.

Lemma gate_loop_summary all g l :
  summarises g l -> summarises (gate_loop all f ex ctrl m g).2 (l ++ all).
Proof.
  revert g l; induction all as [|p all IH]; intros g l Hs; cbn [gate_loop].
  { by rewrite app_nil_r. }
  replace (l ++ p :: all) with ((l ++ [p]) ++ all) by (by rewrite <- app_assoc).
  destruct (matchesPoolFilter p f ex) eqn:Hm; cbn [negb].
  2: { apply IH, summarises_skip; [..|done]; unfold below_floor, over_cap; rewrite Hm; naive_solver. }
  case_bool_decide as Hfl.
  { apply IH, summarises_floor; [|done]. by split. }
  destruct (decide (0 < m)) as [Hpos|Hpos].
  - rewrite (bool_decide_eq_true_2 _ Hpos).
    pose proof (oversubRejects_fst p ctrl m g) as Hr.
    destruct (oversubRejects p ctrl m g) as [rej g'] eqn:Ho. cbn in Hr. destruct rej.
    + apply IH. replace g' with (oversubRejects p ctrl m g).2 by (by rewrite Ho).
      apply summarises_cap; [|done]. symmetry in Hr. apply bool_decide_eq_true in Hr.
      unfold over_cap. split_and!; auto; lia.
    + assert (g' = g) as ->.
      { revert Ho. unfold oversubRejects. destruct (effectiveOversubCaps p ctrl) as [[c k] r].
        destruct (bool_decide (m <= c)); congruence. }
      specialize (IH g (l ++ [p])). destruct (gate_loop all f ex ctrl m g) as [out g2]. cbn in IH |- *.
      apply IH, summarises_skip; [..|done].
      * unfold below_floor. lia.
      * symmetry in Hr. apply bool_decide_eq_false in Hr. unfold over_cap. lia.
  - rewrite (bool_decide_eq_false_2 _ Hpos).
    specialize (IH g (l ++ [p])). destruct (gate_loop all f ex ctrl m g) as [out g2]. cbn in IH |- *.
    apply IH, summarises_skip; [..|done]; unfold below_floor, over_cap; lia.
Qed.

Lemma gates_summary all : summarises (applyCapacityAndOversubGates all f ex ctrl m).2 all.
Proof.
  apply (gate_loop_summary all (mkGates 0 None) []). unfold summarises. cbn.
  split_and!; try lia; try done.
  - intros p Hp. by apply not_elem_of_nil in Hp.
  - intros _ p Hp. by apply not_elem_of_nil in Hp.
Qed.

End Gates.

(** ** The errors of [Place] *)

Section Errors.
#[local] Set Default Proof Using "Type*".
Context {S : Type} {Ops : StoreOps S} {Laws : StoreLaws S} {RE : RegexpLib}.
Context (rd : string) (f : AutoSelectFilter) (s : S) (all : list StoragePool) (nodes : list Node)
  (ctrl : gmap string string) (res : list Resource) (vds : list VolumeDefinition)
  (existing : list Resource).
Hypothesis Hreads : reads rd s all nodes ctrl res vds existing.

Lemma buildPlan_cases :
  buildPlan rd f s
  = let cg := candidates_of f all nodes ctrl res (requiredKib vds) in
    if bool_decide (0 < requiredKib vds) && bool_decide (cg.1 = [])
    then Ok (PlanShortfall (requiredKib vds) (maxFreeBelow cg.2) (oversubBest cg.2))
    else match assemblePlan rd f cg.1 (requiredKib vds) cg.2 s with
         | Ok p => Ok (PlanReady p)
         | Err e => Err e
         end.
Proof.
  unfold buildPlan. pose proof Hreads as [_ _ _ _ Hv _]. rewrite Hv. cbn [of_store result_bind].
  rewrite (candidatePools_eq rd f s all nodes ctrl res vds existing (requiredKib vds) Hreads).
  cbn [result_bind]. destruct (bool_decide _ && _); [done|].
  by destruct (assemblePlan _ _ _ _ _ _).
Qed.

End Errors.

(** The numbers a shortfall error carries, read back against the pools. *)
Definition shortfall_truth (f : AutoSelectFilter) (ex : gset string) (ctrl : gmap string string)
    (required : Z) (all : list StoragePool) (e : place_err) : Prop :=
  match e with
  | StoreErr _ => False
  | CapacityShortfall c =>
      cs_RequiredKib c = required
      /\ (forall p, p ∈ all -> below_floor f ex required p -> sp_FreeCapacity p <= cs_MaxFreeKib c)
      /\ (cs_MaxFreeKib c = 0
          \/ exists p, p ∈ all /\ below_floor f ex required p /\ sp_FreeCapacity p = cs_MaxFreeKib c)
  | OversubShortfall o =>
      (forall p, p ∈ all -> below_floor f ex required p -> sp_FreeCapacity p <= 0)
      /\ (exists p, p ∈ all /\ over_cap f ex ctrl required p /\ describes ctrl required o p)
      /\ (forall q, q ∈ all -> over_cap f ex ctrl required q ->
            (effectiveOversubCaps q ctrl).1.1 <= os_EffectiveCapKib o)
  end.

(** The shortfall errors of [Place] tell the truth: there is one only when the
    definition has a non-empty volume, it names the largest volume, the capacity error
    carries the largest free space among the matching pools below that size, and the
    over-subscription error names a matching pool with enough free space whose cap
    comes closest, and is used only when no pool with free space failed the floor. *)
Theorem Place_shortfall_truth {S : Type} {Ops : StoreOps S} {Laws : StoreLaws S}
    {Rel : StoreReliable S} {RE : RegexpLib}
    ord rd f0 s placed want e s' all nodes ctrl res vds existing :
  st_ok s -> reads rd s all nodes ctrl res vds existing ->
  Place ord rd f0 s = (placed, want, Some e, s') ->
  0 < requiredKib vds
  /\ (exists vd, vd ∈ vds /\ vd_SizeKib vd = requiredKib vds)
  /\ (forall vd, vd ∈ vds -> vd_SizeKib vd <= requiredKib vds)
  /\ shortfall_truth (constrainFilterToRestoreSource rd f0 s)
       (autoplaceExcludedNodes nodes (disabledNodes nodes)) ctrl (requiredKib vds) all e.
Proof.
  intros Hok Hr HP. set (f := constrainFilterToRestoreSource rd f0 s).
  destruct (requiredKib_from vds 0) as (_ & Hmax & Hex). fold (requiredKib vds) in Hmax, Hex.
  pose proof (gates_summary f (autoplaceExcludedNodes nodes (disabledNodes nodes)) ctrl
    (requiredKib vds) all) as (G1 & G2 & G3 & G4 & G5).
  set (g := (applyCapacityAndOversubGates all f _ ctrl (requiredKib vds)).2) in *.
  assert (0 < requiredKib vds /\ shortfall_truth f
    (autoplaceExcludedNodes nodes (disabledNodes nodes)) ctrl (requiredKib vds) all e) as [Hpos Ht].
  - destruct (Place_run ord rd f0 s Hok) as [(a & b & c & Hb & E)|
      (plan & s2 & s3 & Hb & E & _)]; fold f in Hb, E; rewrite HP in E; injection E; clear E.
    + intros -> -> -> ->. rewrite (buildPlan_cases rd f s all nodes ctrl res vds existing Hr) in Hb.
      cbn zeta in Hb. destruct (bool_decide (0 < requiredKib vds) && _) eqn:Hc.
      2: { by destruct (assemblePlan _ _ _ _ _ _). }
      injection Hb as <- <- <-. apply andb_prop in Hc as [Hpos%bool_decide_eq_true _].
      split; [done|]. unfold candidates_of; cbn [snd]. fold g. unfold shortfall_error.
      destruct (oversubBest g) as [o|] eqn:Ho; [|done].
      case_bool_decide as Hz; [|done]. rewrite Hz in G1. cbn. destruct (G5 o eq_refl). auto.
    + intros _ He _ _. destruct (buildPlan_ready _ _ _ _ _ _ _ _ _ _ Hr Hb) as (_ & _ & Hreq & Hmf & Hos & _).
      unfold place_tail in He. rewrite Hreq, Hmf, Hos in He. unfold candidates_of in He.
      cbn [snd] in He. fold g in He.
      destruct (bool_decide (_ < PlaceCount f) && bool_decide (0 < requiredKib vds)) eqn:Hc; [|done].
      apply andb_prop in Hc as [_ Hpos%bool_decide_eq_true]. split; [done|].
      case_bool_decide as Hz; [injection He as ->; done|].
      destruct (oversubBest g) as [o|] eqn:Ho; [|done]. injection He as ->. cbn.
      destruct (G5 o eq_refl). split; [|auto]. intros p Hp Hf. specialize (G1 p Hp Hf). lia.
  - split; [done|]. split; [|done]. destruct Hex as [E|Hex]; [lia|done].
Qed.

(** The demo cluster with a volume no pool can hold any more, and a definition that
    already has its two replicas. *)
Module Full.

Definition replicas : list Resource := [Demo.replica "n1" []; Demo.replica "n2" []].

Definition cluster : InMemory :=
  let s := Demo.cluster replicas in
  mkInMemory (im_nodes s) (im_storagePools s) ∅ ∅ (im_resources s)
    {[("pvc-1", 0) := mkVolumeDefinition 0 150 ∅ [] ""]} ∅ ∅ ∅ ∅.

Definition want2 : AutoSelectFilter := Demo.filter_of 2 [] ∅.

Lemma cluster_ok : im_ok cluster.
Proof.
  split.
  - apply (bool_decide_eq_true_1 (map_Forall (fun i v => rKey v = i) (res_m (im_resources cluster)))).
    vm_compute. reflexivity.
  - apply (bool_decide_eq_true_1 (map_Forall (fun i v => spKey v = i) (im_storagePools cluster))).
    vm_compute. reflexivity.
Qed.

Lemma cluster_reads :
  reads (Ops := @InMemory_ops example_uuid) "pvc-1" cluster
    (StoragePools_List (im_storagePools cluster)) (Nodes_List (H := example_uuid) (im_nodes cluster)) ∅
    (Resources_List (im_resources cluster)) [mkVolumeDefinition 0 150 ∅ [] ""]
    (Resources_ListByDefinition (im_resources cluster) "pvc-1").
Proof. constructor; try reflexivity; vm_compute; reflexivity. Qed.

Lemma full_place :
  Place (Ops := @InMemory_ops example_uuid) (RE := Demo.no_regexp) id "pvc-1" want2 cluster
    = (0, 2, Some (CapacityShortfall (mkCapacity 150 100)), cluster).
Proof. vm_compute. reflexivity. Qed.

End Full.

Lemma Place_shortfall_truth_witness :
  0 < requiredKib [mkVolumeDefinition 0 150 ∅ [] ""]
  /\ exists p, p ∈ StoragePools_List (im_storagePools Full.cluster) /\ sp_FreeCapacity p = 100.
Proof.
  destruct (Place_shortfall_truth (Rel := Demo.reliable) (RE := Demo.no_regexp) id "pvc-1" Full.want2
    Full.cluster 0 2 (CapacityShortfall (mkCapacity 150 100)) Full.cluster _ _ _ _ _ _
    Full.cluster_ok Full.cluster_reads Full.full_place) as (Hpos & _ & _ & _ & _ & [H|(p & Hp & _ & H)]).
  - discriminate H.
  - split; [exact Hpos|]. exists p. split; [exact Hp|exact H].
Defined.

(** Replicas that already exist do not help once the pools are full: whenever no
    pool passes the gates for the largest volume, [Place] reports a shortfall and a
    placed count of zero, whatever the definition already has, although existing
    replicas are documented to count toward the target. *)
Theorem Place_refuses_satisfied {S : Type} {Ops : StoreOps S} {Laws : StoreLaws S} {RE : RegexpLib}
    ord rd f0 s all nodes ctrl res vds existing :
  reads rd s all nodes ctrl res vds existing ->
  0 < requiredKib vds ->
  (forall p, p ∈ all ->
     ~ passes_gates (constrainFilterToRestoreSource rd f0 s)
         (autoplaceExcludedNodes nodes (disabledNodes nodes)) ctrl (requiredKib vds) p) ->
  exists e, Place ord rd f0 s = (0, PlaceCount f0, Some e, s).
Proof.
  intros Hr Hpos Hnone. set (f := constrainFilterToRestoreSource rd f0 s) in *.
  assert (PlaceCount f0 = PlaceCount f) as ->.
  { unfold f, constrainFilterToRestoreSource. by repeat case_match. }
  assert ((candidates_of f all nodes ctrl res (requiredKib vds)).1 = []) as Hc.
  { apply elem_of_nil_inv. intros p [Hin Hg]%candidates_of_elem. by apply (Hnone p). }
  unfold Place. fold f. rewrite (buildPlan_cases rd f s all nodes ctrl res vds existing Hr).
  cbn zeta. rewrite Hc, !bool_decide_eq_true_2 by done. cbn [andb]. eauto.
Qed.

Lemma Place_refuses_satisfied_witness :
  countDiskfulReplicas (Resources_ListByDefinition (im_resources Full.cluster) "pvc-1") ∅
    = PlaceCount Full.want2
  /\ exists e, Place (Ops := @InMemory_ops example_uuid) (RE := Demo.no_regexp) id "pvc-1" Full.want2
                 Full.cluster = (0, 2, Some e, Full.cluster).
Proof.
  split; [vm_compute; reflexivity|].
  apply (Place_refuses_satisfied (Laws := @InMemory_laws example_uuid) (RE := Demo.no_regexp) id "pvc-1"
    Full.want2 Full.cluster _ _ _ _ _ _ Full.cluster_reads).
  - reflexivity.
  - apply list.Forall_forall. apply (bool_decide_eq_true_1 _). vm_compute. reflexivity.
Defined.

(** ** Grouping by replicas-on-same *)

Lemma add_to_groups_keys gs t k p :
  g_key <$> add_to_groups gs t k p
    = if decide (k ∈ g_key <$> gs) then g_key <$> gs else (g_key <$> gs) ++ [k].
Proof.
  induction gs as [|g gs IH]; cbn [add_to_groups].
  { rewrite decide_False; [done|]. apply not_elem_of_nil. }
  case_bool_decide as Hk; rewrite !fmap_cons.
  - rewrite decide_True; [done|]. rewrite Hk. apply list_elem_of_here.
  - rewrite IH. destruct (decide (k ∈ g_key <$> gs)) as [Hin|Hout].
    + rewrite decide_True; [done|]. by apply list_elem_of_further.
    + rewrite decide_False; [done|]. rewrite not_elem_of_cons. auto.
Qed.

Lemma add_to_groups_elem gs t k p g :
  NoDup (g_key <$> gs) -> g ∈ add_to_groups gs t k p ->
  (g ∈ gs /\ g_key g <> k)
  \/ (exists g0, g0 ∈ gs /\ g_key g0 = k /\ g = group_add g0 p)
  \/ ((k ∉ g_key <$> gs) /\ g = group_add (mkGroup t k [] ∅ 0) p).
Proof.
  induction gs as [|h gs IH]; cbn [add_to_groups]; intros Hnd Hg.
  { right. right. split; [apply not_elem_of_nil|]. by apply list_elem_of_singleton in Hg. }
  rewrite fmap_cons in Hnd |- *. apply list.NoDup_cons in Hnd as [Hh Hnd].
  case_bool_decide as Hk; apply elem_of_cons in Hg as [->|Hg].
  - right. left. exists h. split; [apply list_elem_of_here|done].
  - left. split; [by apply list_elem_of_further|]. intros E. apply Hh. rewrite Hk, <- E.
    by apply list_elem_of_fmap_2.
  - left. split; [apply list_elem_of_here|done].
  - destruct (IH Hnd Hg) as [[? ?]|[(g0 & ? & ? & ?)|[? ?]]].
    + left. split; [by apply list_elem_of_further|done].
    + right. left. exists g0. split; [by apply list_elem_of_further|done].
    + right. right. split; [|done]. rewrite not_elem_of_cons. auto.
Qed.

Section Grouping.
Context (nodes : gmap string (gmap string string)) (keys : list string).

(** The grouping key of a pool. *)
Definition pool_key (p : StoragePool) : string :=
  tupleKey (lookupKeys (node_props nodes (sp_NodeName p)) keys).

Record group_ok (seen : list StoragePool) (g : group) : Prop := {
  go_pools : g_pools g = filter (fun p => pool_key p = g_key g) seen;
  go_tuple : g_key g = tupleKey (g_tuple g);
  go_seen : g_seen g = list_to_set (sp_NodeName <$> g_pools g);
}.

Lemma group_add_ok seen p g :
  group_ok seen g -> g_key g = pool_key p -> group_ok (seen ++ [p]) (group_add g p).
Proof.
  intros [Hp Ht Hs] Hk. split; cbn; [|done|].
  - rewrite list.filter_app, Hp. f_equal. rewrite filter_cons, decide_True by done. done.
  - rewrite fmap_app, list_to_set_app_L, Hs. cbn. set_solver.
Qed.

Lemma group_skip_ok seen p g : group_ok seen g -> g_key g <> pool_key p -> group_ok (seen ++ [p]) g.
Proof.
  intros [Hp Ht Hs] Hk. split; [|done..]. rewrite list.filter_app, Hp, filter_cons, decide_False by done.
  by rewrite filter_nil, app_nil_r.
Qed.

Lemma groups_of_ok seen :
  NoDup (g_key <$> groups_of seen nodes keys)
  /\ (forall g, g ∈ groups_of seen nodes keys -> group_ok seen g)
  /\ (forall p, p ∈ seen -> pool_key p ∈ g_key <$> groups_of seen nodes keys).
Proof.
  induction seen as [|p seen (Hnd & Hok & Hall)] using rev_ind.
  { split_and!; [constructor|..]; intros x Hx; by apply not_elem_of_nil in Hx. }
  unfold groups_of. rewrite foldl_app. cbn [foldl]. fold (groups_of seen nodes keys).
  fold (pool_key p). split_and!.
  - rewrite add_to_groups_keys. case_decide as Hk; [done|]. apply list.NoDup_app. split; [done|].
    split; [|apply NoDup_singleton]. intros x Hx ->%list_elem_of_singleton. done.
  - intros g [[Hg Hk]|[(g0 & Hg & Hk & ->)|[Hk ->]]]%add_to_groups_elem; [..|done].
    + apply group_skip_ok; auto.
    + apply group_add_ok; auto.
    + apply group_add_ok; [|done]. split; cbn; [|done|done]. symmetry.
      apply elem_of_nil_inv. intros q [Hq Hin]%list_elem_of_filter. apply Hk. rewrite <- Hq. auto.
  - intros q. rewrite add_to_groups_keys, elem_of_app, list_elem_of_singleton.
    intros [Hq| ->]; case_decide as Hk; try done; rewrite ?elem_of_app, ?list_elem_of_singleton; auto.
Qed.

End Grouping.

(** An unpinned replicas-on-same request narrows the candidates to one complete
    group of equal topology that spans at least the wanted number of distinct nodes;
    when no group is large enough the candidates are passed through unchanged and no
    tuple is fixed. *)
Theorem pickSameGroup_spec candidates nodes keys want :
  let big k := want <= Z.of_nat (size (list_to_set (C := gset string)
                 (sp_NodeName <$> filter (fun p => pool_key nodes keys p = k) candidates))) in
  match pickSameGroup candidates nodes keys want with
  | (pools, Some tuple) =>
      pools = filter (fun p => pool_key nodes keys p = tupleKey tuple) candidates
      /\ big (tupleKey tuple)
  | (pools, None) =>
      pools = candidates /\ forall p, p ∈ candidates -> ~ big (pool_key nodes keys p)
  end.
Proof.
  cbn zeta. unfold pickSameGroup.
  destruct (groups_of_ok nodes keys candidates) as (_ & Hok & Hall).
  set (gs := filter _ (groups_of candidates nodes keys)).
  pose proof (SliceStable_perm (by_elements group_before) gs) as Hperm.
  destruct (SliceStable (by_elements group_before) gs) as [|g rest].
  - split; [done|]. intros p Hp Hbig. apply Hall in Hp. apply list_elem_of_fmap in Hp as (g & Hk & Hg).
    assert (g ∈ gs) as Hin; [|].
    { apply list_elem_of_filter. split; [|done]. destruct (Hok g Hg) as [Hpo Ht Hs].
      by rewrite Hs, Hpo, <- Hk. }
    apply Permutation_nil_l in Hperm. rewrite <- Hperm in Hin. by apply not_elem_of_nil in Hin.
  - assert (g ∈ gs) as [Hbig Hg]%list_elem_of_filter
      by (rewrite <- Hperm; apply list_elem_of_here).
    destruct (Hok g Hg) as [Hpo Ht Hs]. rewrite <- Ht. split; [done|]. by rewrite <- Hpo, <- Hs.
Qed.

(** ** Ranking *)

(** The order the scores are meant to give: higher score first, ties by node name. *)
Definition outranks (w : weights) (rpn : gmap string Z) (pools : list StoragePool)
    (p q : StoragePool) : bool :=
  let score x := composite x w rpn (max_throughput pools) in
  if negb (feq (score p) (score q)) then flt (score q) (score p)
  else bool_decide (String.le (sp_NodeName p) (sp_NodeName q) /\ sp_NodeName p <> sp_NodeName q).

(** Ranking never loses or invents a candidate, and of two candidates it puts the
    one with the better score first (ties by node name). *)
Theorem rankCandidates_pair w rpn pools p q :
  rankCandidates pools w rpn ≡ₚ pools
  /\ rankCandidates [p; q] w rpn = if outranks w rpn [p; q] q p then [q; p] else [p; q].
Proof.
  split; [apply rankCandidates_perm|].
  unfold rankCandidates, outranks, rank_less, scores_of. cbn. by destruct (_ : bool).
Qed.

(** With three candidates the ranking is wrong: the scores are computed for the
    unsorted slice and do not move with it, so the pool with the most free space is
    ranked behind one with less. *)
Theorem rankCandidates_misranks :
  let pool node free := mkStoragePool "thin" node StoragePoolKindLVMThin ∅ ∅ free 100 "" "" [] true false
                          "" "" false in
  let w := mkWeights f1 f0 f0 f0 in
  let pools := [pool "a" 20; pool "b" 10; pool "c" 30] in
  rankCandidates pools w ∅ = [pool "a" 20; pool "c" 30; pool "b" 10]
  /\ outranks w ∅ pools (pool "c" 30) (pool "a" 20) = true.
Proof. vm_compute. auto. Qed.

(** ** The diskless fill *)

Lemma constrain_keeps {S : Type} {Ops : StoreOps S} rd f0 s :
  PlaceCount (constrainFilterToRestoreSource rd f0 s) = PlaceCount f0
  /\ DisklessOnRemaining (constrainFilterToRestoreSource rd f0 s) = DisklessOnRemaining f0.
Proof. unfold constrainFilterToRestoreSource. by repeat case_match. Qed.

Lemma nodesByName_dom nodes n : n ∈ nodes -> is_Some (nodesByName nodes !! node_Name n).
Proof.
  unfold nodesByName. induction nodes as [|x nodes IH] using rev_ind.
  { intros H. by apply not_elem_of_nil in H. }
  rewrite foldl_app, elem_of_app, list_elem_of_singleton. cbn [foldl].
  intros Hn. apply lookup_insert_is_Some'. destruct Hn as [Hn| ->]; auto.
Qed.

(** When a diskless replica is asked for on every remaining node and the diskful
    target is met, every registered node ends up with a replica of the definition,
    evicted and lost nodes included. *)
Theorem Place_diskless_everywhere {S : Type} {Ops : StoreOps S} {Laws : StoreLaws S}
    {Rel : StoreReliable S} {RE : RegexpLib}
    ord rd f0 s placed want s' all nodes ctrl res vds existing n :
  st_ok s -> reads rd s all nodes ctrl res vds existing ->
  (forall l, ord l ≡ₚ l) ->
  Place ord rd f0 s = (placed, want, None, s') ->
  DisklessOnRemaining f0 = true -> want <= placed -> n ∈ nodes ->
  is_Some (st_table s' !! (rd, node_Name n)).
Proof.
  intros Hok Hr Hord HP Hdl Hw Hn. destruct (constrain_keeps rd f0 s) as [_ Hcd].
  set (f := constrainFilterToRestoreSource rd f0 s) in *.
  destruct (Place_run ord rd f0 s Hok) as [(a & b & c & _ & E)|
    (plan & s2 & s3 & Hb & E & _ & Ht & Hfill)]; fold f in E; rewrite HP in E; [done|].
  fold f in Hb, Ht, Hfill. injection E as -> -> _ ->.
  destruct Hfill as [[Hf _]|[_ Hfill]].
  { rewrite Hcd, Hdl, bool_decide_eq_true_2 in Hf by done. done. }
  rewrite Hfill. destruct (st_table s2 !! _); [done|]. rewrite decide_True; [done|]. split; [done|].
  cbn. rewrite Hord. destruct (selection_run _ _ _ _ _ _ _ _ _ _ Hr Hb) as [t Hrun].
  apply run_frame in Hrun as [-> _]. destruct (start_fields f existing nodes all ctrl t) as [-> _].
  destruct (nodesByName_dom nodes n Hn) as [props Hp]. apply list_elem_of_fmap.
  exists (node_Name n, props). split; [done|]. by apply elem_of_map_to_list.
Qed.

Module Everywhere.

Definition want : AutoSelectFilter := mkAutoSelectFilter 1 0 [] "" [] [] [] "" [] [] ∅ [] [] true "".
Definition after : InMemory :=
  (Place (Ops := @InMemory_ops example_uuid) (RE := Demo.no_regexp) id "pvc-1" want Demo.solo).2.
Definition evicted : Node := decorateInMemoryNode (H := example_uuid) (Demo.node "n4" "c" ["EVICTED"]).

Lemma everywhere_place : Place (Ops := @InMemory_ops example_uuid) (RE := Demo.no_regexp) id "pvc-1" want Demo.solo
  = (1, 1, None, after).
Proof. vm_compute. reflexivity. Qed.

Lemma evicted_listed : evicted ∈ Nodes_List (H := example_uuid) (im_nodes Demo.solo).
Proof. vm_compute. do 3 apply list_elem_of_further. apply list_elem_of_here. Qed.

End Everywhere.

Lemma Place_diskless_everywhere_witness :
  is_Some (res_m (im_resources Everywhere.after) !! ("pvc-1", node_Name Everywhere.evicted)).
Proof.
  exact (Place_diskless_everywhere (Rel := Demo.reliable) (RE := Demo.no_regexp) id "pvc-1"
    Everywhere.want Demo.solo 1 1 Everywhere.after _ _ _ _ _ _ Everywhere.evicted Demo.solo_ok
    Demo.solo_reads (fun l => Permutation_refl l) Everywhere.everywhere_place eq_refl (Z.le_refl 1)
    Everywhere.evicted_listed).
Defined.
