(* ===== verification/SatelliteFsm.v ===== *)
(** * The satellite's DRBD state machine

    Models [pkg/satellite/fsm.go], [fsm_dispatch.go], the observation and legacy-action
    functions of [fsm_shadow.go], and the part of [applyDRBD] in [reconciler.go] that
    runs the state machine and the verbs around it. The helpers the dispatch routes to
    ([renderResFile], [createMetadata], [bringUpResource], [adjustResource], the
    drbdadm probes) are parameters: state transformers over an arbitrary machine
    state. *)

From S2P Require Import Prelude Api.

(** ** Phases, actions, observations *)

(** [PhaseNone] is the empty string [ObservePhase] returns without a resource. *)
Inductive DRBDPhase :=
| PhaseNone
| PhaseUnprovisioned
| PhaseMetadataPending
| PhaseMetadataReady
| PhaseRunning
| PhaseSkipDisk
| PhaseDecommissioning.
#[global] Instance DRBDPhase_eq_dec : EqDecision DRBDPhase.
Proof. solve_decision. Defined.

Inductive Action :=
| ActionRenderRes
| ActionCreateMd
| ActionUp
| ActionAdjust
| ActionDecommission
| ActionNoop
| ActionAdjustSkipDisk.
#[global] Instance Action_eq_dec : EqDecision Action.
Proof. solve_decision. Defined.

Record Observation := mkObservation {
  SpecHasResource : bool;
  SpecFlagsHasDiskless : bool;
  SpecHasDeletionTS : bool;
  ResFileExists : bool;
  KernelLoaded : bool;
  KernelHasDiskless : bool;
  MetadataExists : bool;
  SkipDiskProp : bool;
  StatusDiskState : string;
}.

Record Transition := mkTransition {
  tr_From : DRBDPhase;
  tr_To : DRBDPhase;
  tr_Trigger : Observation -> bool;
  tr_Action : Action;
}.

(** The table, in its order: the first matching row fires. *)
Definition fsm : list Transition :=
  [mkTransition PhaseRunning PhaseDecommissioning SpecHasDeletionTS ActionDecommission;
   mkTransition PhaseMetadataReady PhaseDecommissioning SpecHasDeletionTS ActionDecommission;
   mkTransition PhaseMetadataPending PhaseDecommissioning SpecHasDeletionTS ActionDecommission;
   mkTransition PhaseUnprovisioned PhaseDecommissioning SpecHasDeletionTS ActionDecommission;
   mkTransition PhaseSkipDisk PhaseDecommissioning SpecHasDeletionTS ActionDecommission;
   mkTransition PhaseRunning PhaseSkipDisk SkipDiskProp ActionAdjustSkipDisk;
   mkTransition PhaseSkipDisk PhaseRunning (fun o => negb (SkipDiskProp o)) ActionAdjust;
   mkTransition PhaseSkipDisk PhaseSkipDisk (fun o => SkipDiskProp o && KernelLoaded o) ActionAdjustSkipDisk;
   mkTransition PhaseUnprovisioned PhaseMetadataPending
     (fun o => SpecHasResource o && negb (ResFileExists o)) ActionRenderRes;
   mkTransition PhaseMetadataPending PhaseMetadataReady
     (fun o => ResFileExists o && negb (MetadataExists o) && negb (SpecFlagsHasDiskless o)) ActionCreateMd;
   mkTransition PhaseMetadataReady PhaseRunning
     (fun o => MetadataExists o && negb (KernelLoaded o)) ActionUp;
   mkTransition PhaseRunning PhaseMetadataPending
     (fun o => KernelLoaded o && KernelHasDiskless o && negb (SpecFlagsHasDiskless o)
               && negb (MetadataExists o)) ActionCreateMd;
   mkTransition PhaseRunning PhaseRunning KernelLoaded ActionAdjust].

Definition ObservePhase (o : Observation) : DRBDPhase :=
  if negb (SpecHasResource o) then PhaseNone
  else if SpecHasDeletionTS o then PhaseDecommissioning
  else if SkipDiskProp o then PhaseSkipDisk
  else if negb (ResFileExists o) then PhaseUnprovisioned
  else if negb (MetadataExists o) && negb (SpecFlagsHasDiskless o) then PhaseMetadataPending
  else if negb (KernelLoaded o) then PhaseMetadataReady
  else PhaseRunning.

Definition fires (from : DRBDPhase) (o : Observation) (t : Transition) : bool :=
  bool_decide (tr_From t = from) && tr_Trigger t o.

Definition NextTransition (from : DRBDPhase) (o : Observation) : option Transition :=
  snd <$> list_find (fun t => fires from o t = true) fsm.

(** ** The legacy gate chain *)

Definition computeLegacyAction (o : Observation) : Action :=
  if negb (SpecHasResource o) then ActionNoop
  else
    let diskless := SpecFlagsHasDiskless o in
    let firstActivation := negb (MetadataExists o) && negb diskless in
    let diskfulFlip := KernelLoaded o && KernelHasDiskless o && negb (SpecFlagsHasDiskless o)
                       && negb (MetadataExists o) in
    if (firstActivation || diskfulFlip) && negb diskless then ActionCreateMd
    else if negb (KernelLoaded o) then ActionUp
    else
      let skipDisk := SkipDiskProp o || (KernelHasDiskless o && negb (SpecFlagsHasDiskless o)) in
      if skipDisk then ActionAdjustSkipDisk else ActionAdjust.

(** The two actions [logFsmShadow] compares. *)
Definition expectedAction (o : Observation) : Action :=
  match NextTransition (ObservePhase o) o with Some t => tr_Action t | None => ActionNoop end.

Definition shadow_agrees (o : Observation) : bool :=
  bool_decide (expectedAction o = computeLegacyAction o).

(** ** Observing *)

(** The fields of a [DesiredResource] this part reads. *)
Record DesiredResource := mkDesiredResource {
  dr_Name : string;
  dr_DrbdOptions : gmap string string;
  dr_Props : gmap string string;
  dr_MetadataCreated : bool;
  dr_KernelLoaded : bool;
  dr_PeerNames : list string;
}.

Inductive stat := Present | NotExist | StatError.

(** What the probes of one instant answer; a failing probe is [None]. *)
Record Probes := mkProbes {
  pr_res : stat;
  pr_mdMarker : stat;
  pr_hasAdm : bool;
  pr_IsLoaded : option bool;
  pr_HasDisklessVolume : option bool;
  pr_KernelMyNodeID : option Z;
}.

Definition skipDiskPropKey : string := "DrbdOptions/SkipDisk".
Definition skipDiskPropValue : string := "True".

Definition isSkipDiskEnabled (dr : DesiredResource) : bool :=
  if Str.equal_fold (getp (dr_DrbdOptions dr) skipDiskPropKey) skipDiskPropValue then true
  else Str.equal_fold (getp (dr_Props dr) skipDiskPropKey) skipDiskPropValue.

Definition stat_ok (s : stat) : bool := match s with Present => true | _ => false end.

Definition observeForFsm (dr : DesiredResource) (p : Probes) (diskless : bool) : Observation :=
  let has := bool_decide (dr_Name dr <> "") in
  if negb has then
    mkObservation false diskless false false false false false (isSkipDiskEnabled dr) ""
  else
    let loaded := if negb (dr_KernelLoaded dr) && pr_hasAdm p
                  then default false (pr_IsLoaded p) else dr_KernelLoaded dr in
    let kernelDiskless := if loaded && pr_hasAdm p then default false (pr_HasDisklessVolume p) else false in
    mkObservation true diskless false (stat_ok (pr_res p)) loaded kernelDiskless
      (dr_MetadataCreated dr || stat_ok (pr_mdMarker p)) (isSkipDiskEnabled dr) "".

Definition isDisklessToDiskfulFlip (p : Probes) (diskless : bool) : bool :=
  if diskless then false
  else match pr_IsLoaded p with
       | None | Some false => false
       | Some true => match pr_HasDisklessVolume p with None => false | Some b => b end
       end.

(** ** Dispatch *)

(** The helpers of the reconciler, over a machine state [S] with errors [E]. *)
Record Helpers (S E : Type) := mkHelpers {
  renderResFile : S -> result E unit * S;
  createMetadata : S -> result E unit * S;
  restampMetadata : S -> result E unit * S;
  bringUpResource : S -> result E unit * S;
  adjustResource : bool -> S -> result E unit * S;
  Down : S -> result E unit * S;
  probe : S -> Probes;
}.
Arguments renderResFile {S E}. Arguments createMetadata {S E}. Arguments restampMetadata {S E}.
Arguments bringUpResource {S E}. Arguments adjustResource {S E}. Arguments Down {S E}.
Arguments probe {S E}. Arguments mkHelpers {S E}.

Section Dispatch.
Context {S E : Type}.
Implicit Types (h : Helpers S E) (s : S).

(** [if err != nil { return err }] *)
Definition and_then (r : result E unit * S) (k : S -> result E unit * S) : result E unit * S :=
  match r with (Ok _, s) => k s | (Err e, s) => (Err e, s) end.

Definition consumes_res (a : Action) : bool :=
  match a with
  | ActionCreateMd | ActionUp | ActionAdjust | ActionAdjustSkipDisk => true
  | _ => false
  end.

Definition createMd_blocked (o : Observation) : bool :=
  negb (SpecHasResource o) || MetadataExists o || SpecFlagsHasDiskless o
  || (KernelLoaded o && KernelHasDiskless o).

Definition dispatchFsmAction h (a : Action) (o : Observation) s : result E unit * S :=
  and_then (if consumes_res a then renderResFile h s else (Ok tt, s)) (fun s =>
    match a with
    | ActionRenderRes => renderResFile h s
    | ActionCreateMd => if createMd_blocked o then (Ok tt, s) else createMetadata h s
    | ActionUp => bringUpResource h s
    | ActionAdjust | ActionAdjustSkipDisk => adjustResource h false s
    | ActionDecommission => (Ok tt, s)
    | ActionNoop => (Ok tt, s)
    end).

Definition reconcileKernelMyNodeID h (dr : DesiredResource) s : result E unit * S :=
  match parse_int 64 (getp (dr_DrbdOptions dr) "node-id") with
  | None => (Ok tt, s)
  | Some desiredID =>
      match pr_KernelMyNodeID (probe h s) with
      | None => (Ok tt, s)
      | Some kernelID => if bool_decide (kernelID = desiredID) then (Ok tt, s) else Down h s
      end
  end.

Definition healAndDispatchFsm h (dr : DesiredResource) (diskless : bool) s : result E unit * S :=
  and_then (reconcileKernelMyNodeID h dr s) (fun s =>
    let obs := observeForFsm dr (probe h s) diskless in
    match NextTransition (ObservePhase obs) obs with
    | None => (Ok tt, s)
    | Some next => dispatchFsmAction h (tr_Action next) obs s
    end).

Definition maybeStampMetadata h (diskless firstActivation diskfulFlip : bool) s : result E unit * S :=
  if diskless then (Ok tt, s)
  else if firstActivation && negb diskfulFlip then createMetadata h s
  else if diskfulFlip then restampMetadata h s
  else (Ok tt, s).

Definition runApplyDRBDVerb h (firstActivation diskfulFlip : bool) s : result E unit * S :=
  if firstActivation || diskfulFlip then adjustResource h diskfulFlip s else (Ok tt, s).

(** The span of [applyDRBD] from [healAndDispatchFsm] to [runApplyDRBDVerb]. *)
Definition applyDRBD_verbs h (dr : DesiredResource) (diskless : bool) s : result E unit * S :=
  and_then (healAndDispatchFsm h dr diskless s) (fun s =>
    let p := probe h s in
    let firstActivation := negb (dr_MetadataCreated dr)
                           && match pr_mdMarker p with NotExist => true | _ => false end in
    let diskfulFlip := isDisklessToDiskfulFlip p diskless in
    let soloDiskfulFlip := diskfulFlip && bool_decide (dr_PeerNames dr = []) in
    let effectiveFirstActivation := firstActivation && (negb diskfulFlip || soloDiskfulFlip) in
    and_then (maybeStampMetadata h diskless firstActivation diskfulFlip s) (fun s =>
      runApplyDRBDVerb h effectiveFirstActivation diskfulFlip s)).

End Dispatch.

(** ** What the machine recommends *)

(** The recommendation from the observed phase, as one decision list. *)
Definition recommended (o : Observation) : option Action :=
  if negb (SpecHasResource o) || SpecHasDeletionTS o then None
  else if SkipDiskProp o then if KernelLoaded o then Some ActionAdjustSkipDisk else None
  else if negb (ResFileExists o) then Some ActionRenderRes
  else if negb (MetadataExists o) && negb (SpecFlagsHasDiskless o) then Some ActionCreateMd
  else if negb (KernelLoaded o) then if MetadataExists o then Some ActionUp else None
  else Some ActionAdjust.

Lemma next_recommended o : tr_Action <$> NextTransition (ObservePhase o) o = recommended o.
Proof. destruct o as [[] [] [] [] [] [] [] [] st]; reflexivity. Qed.

(** Driven by the observed phase, the thirteen-row table amounts to a short decision
    list: a pinned resource is adjusted without its disk, otherwise the missing one of
    configuration file, metadata and kernel slot is provided in that order, and a
    complete resource is adjusted. Destructive decommissioning, the entry and exit rows
    of the skip-disk pin and the diskless-to-diskful row never fire from an observed
    phase, and metadata is never recommended where it exists or where the replica is
    diskless. *)
Theorem fsm_recommendation o :
  tr_Action <$> NextTransition (ObservePhase o) o = recommended o
  /\ (forall t, NextTransition (ObservePhase o) o = Some t ->
        tr_Action t <> ActionDecommission
        /\ (tr_Action t = ActionCreateMd ->
              MetadataExists o = false /\ SpecFlagsHasDiskless o = false /\ ResFileExists o = true)
        /\ (SkipDiskProp o = true -> tr_To t = PhaseSkipDisk /\ tr_From t = PhaseSkipDisk)).
Proof.
  split; [apply next_recommended|].
  destruct o as [[] [] [] [] [] [] [] [] st]; intros t Ht; vm_compute in Ht;
    simplify_eq/=; naive_solver.
Qed.

(** The state machine and the legacy gate chain recommend the same action exactly
    when the resource is absent, or it is not being deleted and: under the pin, the slot
    is loaded and metadata is there or not wanted; without the pin, the configuration
    file is rendered, and a missing slot has metadata, and a loaded slot that is still
    diskless is meant to be. *)
Theorem shadow_agreement o :
  shadow_agrees o = true <->
  SpecHasResource o = false
  \/ (SpecHasDeletionTS o = false
      /\ if SkipDiskProp o then KernelLoaded o = true /\ (MetadataExists o || SpecFlagsHasDiskless o) = true
         else ResFileExists o = true
              /\ ((MetadataExists o = false /\ SpecFlagsHasDiskless o = false)
                  \/ (KernelLoaded o = false /\ MetadataExists o = true)
                  \/ (KernelLoaded o = true
                      /\ KernelHasDiskless o && negb (SpecFlagsHasDiskless o) = false))).
Proof.
  destruct o as [[] [] [] [] [] [] [] [] st]; vm_compute;
    (split; [intros H; try discriminate H; auto 10 | intros H; try reflexivity; exfalso; naive_solver]).
Qed.

(** ** Convergence *)

(** What a successful action leaves for the next observation. The spec and the pin do
    not change; rendering and [create-md] leave the kernel alone; [up] loads the slot;
    nothing removes the file, the metadata or the slot. *)
Record Effects := mkEffects {
  eff : Action -> Observation -> Observation;
  eff_spec : forall a o,
    SpecHasResource (eff a o) = SpecHasResource o
    /\ SpecFlagsHasDiskless (eff a o) = SpecFlagsHasDiskless o
    /\ SpecHasDeletionTS (eff a o) = SpecHasDeletionTS o /\ SkipDiskProp (eff a o) = SkipDiskProp o;
  eff_res : forall a o, ResFileExists (eff a o)
    = ResFileExists o || bool_decide (a = ActionRenderRes) || consumes_res a;
  eff_md : forall a o, MetadataExists (eff a o) = MetadataExists o || bool_decide (a = ActionCreateMd);
  eff_kernel : forall a o, KernelLoaded (eff a o) = KernelLoaded o || bool_decide (a = ActionUp);
  eff_diskless : forall a o, a = ActionRenderRes \/ a = ActionCreateMd ->
    KernelHasDiskless (eff a o) = KernelHasDiskless o;
}.

(** One pass of the dispatch, in terms of observations. *)
Definition pass (e : Effects) (o : Observation) : Observation :=
  match NextTransition (ObservePhase o) o with
  | None => o
  | Some t => match tr_Action t with
              | ActionCreateMd => if createMd_blocked o then o else eff e ActionCreateMd o
              | a => eff e a o
              end
  end.

Definition complete (o : Observation) : bool :=
  ResFileExists o && MetadataExists o && KernelLoaded o.

Definition missing (o : Observation) : nat :=
  (if ResFileExists o then 0 else 1) + (if MetadataExists o then 0 else 1)
  + (if KernelLoaded o then 0 else 1).

(** A live, diskful, unpinned replica whose slot, if loaded without metadata, is not a
    diskless leftover. *)
Definition plain_diskful (o : Observation) : Prop :=
  SpecHasResource o = true /\ SpecFlagsHasDiskless o = false /\ SpecHasDeletionTS o = false
  /\ SkipDiskProp o = false
  /\ (MetadataExists o = false -> KernelLoaded o && KernelHasDiskless o = false).

Lemma pass_recommended e o :
  pass e o = match recommended o with
             | None => o
             | Some ActionCreateMd => if createMd_blocked o then o else eff e ActionCreateMd o
             | Some a => eff e a o
             end.
Proof.
  unfold pass. rewrite <- next_recommended. destruct (NextTransition _ _) as [t|]; [|done]. cbn.
  by destruct (tr_Action t).
Qed.

Lemma pass_progress e o :
  plain_diskful o ->
  plain_diskful (pass e o) /\ (missing o <> 0 -> missing (pass e o) < missing o)%nat
  /\ (missing o = 0 -> missing (pass e o) = 0)%nat.
Proof.
  intros (H1 & H2 & H3 & H4 & H5). rewrite pass_recommended. unfold recommended.
  rewrite H1, H2, H3, H4. cbn [negb orb andb].
  assert (forall a, plain_diskful (eff e a o)
    <-> (MetadataExists (eff e a o) = false -> KernelLoaded (eff e a o) && KernelHasDiskless (eff e a o) = false))
    as Hpd.
  { intros a. destruct (eff_spec e a o) as (E1 & E2 & E3 & E4). unfold plain_diskful.
    rewrite E1, E2, E3, E4. tauto. }
  assert (forall a, missing (eff e a o)
    = (if ResFileExists o || bool_decide (a = ActionRenderRes) || consumes_res a then 0 else 1)
      + (if MetadataExists o || bool_decide (a = ActionCreateMd) then 0 else 1)
      + (if KernelLoaded o || bool_decide (a = ActionUp) then 0 else 1))%nat as Hm.
  { intros a. unfold missing. by rewrite eff_res, eff_md, eff_kernel. }
  destruct (ResFileExists o) eqn:Er; cbn [negb].
  - destruct (MetadataExists o) eqn:Em; cbn [negb andb].
    + destruct (KernelLoaded o) eqn:Ek; cbn [negb]; rewrite Hpd, Hm, eff_md, Em;
        unfold missing; rewrite Er, Em, Ek; repeat case_bool_decide; try done; cbn; split_and!; try done; lia.
    + assert (createMd_blocked o = false) as ->.
      { unfold createMd_blocked. rewrite H1, Em, H2, H5 by done. done. }
      rewrite Hpd, Hm, eff_md. unfold missing. rewrite Er, Em.
      destruct (KernelLoaded o); repeat case_bool_decide; try done; cbn; split_and!; try done; lia.
  - rewrite Hpd, Hm, eff_md, eff_kernel, eff_diskless by auto. unfold missing. rewrite Er.
    repeat case_bool_decide; try done. rewrite !orb_false_r.
    destruct (MetadataExists o), (KernelLoaded o); cbn; split_and!; auto; lia.
Qed.


Definition example_effects : Effects.
Proof.
  refine (mkEffects (fun a o => mkObservation (SpecHasResource o) (SpecFlagsHasDiskless o)
    (SpecHasDeletionTS o)
    (ResFileExists o || bool_decide (a = ActionRenderRes) || consumes_res a)
    (KernelLoaded o || bool_decide (a = ActionUp)) (KernelHasDiskless o)
    (MetadataExists o || bool_decide (a = ActionCreateMd)) (SkipDiskProp o) (StatusDiskState o))
    _ _ _ _ _); auto.
Defined.


(** ** Safety of the dispatch *)

(** Two sets of helpers that differ in [createMetadata] only. *)
Definition same_but_createMetadata {S E : Type} (h h' : Helpers S E) : Prop :=
  (forall s, renderResFile h s = renderResFile h' s)
  /\ (forall s, bringUpResource h s = bringUpResource h' s)
  /\ (forall b s, adjustResource h b s = adjustResource h' b s).

(** Whatever action it is handed, the dispatch never stamps metadata on a replica
    that has it, is diskless, is gone, or whose loaded slot is still diskless: in those
    cases its outcome does not depend on the metadata helper at all. *)
Theorem dispatch_never_restamps {S E : Type} (h h' : Helpers S E) a o s :
  same_but_createMetadata h h' ->
  SpecHasResource o = false \/ MetadataExists o = true \/ SpecFlagsHasDiskless o = true
  \/ (KernelLoaded o = true /\ KernelHasDiskless o = true) ->
  dispatchFsmAction h a o s = dispatchFsmAction h' a o s.
Proof.
  intros (Hr & Hu & Ha) Hb.
  assert (createMd_blocked o = true) as Hblock.
  { unfold createMd_blocked. destruct Hb as [-> |[-> |[-> |[-> ->]]]]; rewrite ?orb_true_r; done. }
  unfold dispatchFsmAction. rewrite Hblock. destruct a; cbn; rewrite ?Hr;
    try (destruct (renderResFile h' s) as [[] s']; cbn); rewrite ?Hr, ?Hu, ?Ha; done.
Qed.

(** A pinned replica whose slot is observed unloaded stays down: with its metadata
    recorded, a whole pass (node-id heal, state machine, metadata stamp, verb) calls no
    helper and leaves the machine as it was, so the slot is never brought up again until
    the pin is cleared. *)
Theorem pinned_replica_stays_down {S E : Type} (h : Helpers S E) dr diskless s :
  isSkipDiskEnabled dr = true -> dr_MetadataCreated dr = true -> dr_KernelLoaded dr = false ->
  pr_IsLoaded (probe h s) = Some false -> pr_KernelMyNodeID (probe h s) = None ->
  applyDRBD_verbs h dr diskless s = (Ok tt, s).
Proof.
  intros Hs Hm Hk Hl Hn.
  assert (reconcileKernelMyNodeID h dr s = (Ok tt, s)) as Hheal.
  { unfold reconcileKernelMyNodeID. rewrite Hn. by destruct (parse_int _ _). }
  assert (healAndDispatchFsm h dr diskless s = (Ok tt, s)) as Hfsm.
  { unfold healAndDispatchFsm. rewrite Hheal. cbn [and_then].
    set (o := observeForFsm dr (probe h s) diskless).
    assert (recommended o = None) as Hrec.
    { unfold o, observeForFsm. rewrite Hs, Hk, Hl. destruct (bool_decide _); [|done].
      cbn. by destruct (pr_hasAdm (probe h s)). }
    rewrite <- next_recommended in Hrec. by destruct (NextTransition (ObservePhase o) o). }
  unfold applyDRBD_verbs. rewrite Hfsm. cbn [and_then]. rewrite Hm. unfold isDisklessToDiskfulFlip.
  rewrite Hl. by destruct diskless.
Qed.

(** A machine with only a slot to load: [up] loads it. *)
Definition slot_helpers : Helpers bool unit :=
  mkHelpers (fun s => (Ok tt, s)) (fun s => (Ok tt, s)) (fun s => (Ok tt, s)) (fun _ => (Ok tt, true))
    (fun _ s => (Ok tt, s)) (fun _ => (Ok tt, false))
    (fun s => mkProbes Present Present true (Some s) (Some false) None).

Definition slot_replica (props : gmap string string) : DesiredResource :=
  mkDesiredResource "pvc-1" ∅ props true false [].

Lemma dispatch_never_restamps_witness :
  dispatchFsmAction slot_helpers ActionCreateMd
    (mkObservation true false false true false false true false "") false = (Ok tt, false).
Proof.
  rewrite (dispatch_never_restamps slot_helpers
    (mkHelpers (fun s => (Ok tt, s)) (fun s => (Err tt, s)) (fun s => (Ok tt, s)) (fun _ => (Ok tt, true))
       (fun _ s => (Ok tt, s)) (fun _ => (Ok tt, false)) (probe slot_helpers)) ActionCreateMd
    (mkObservation true false false true false false true false "") false).
  - reflexivity.
  - repeat split.
  - right. left. reflexivity.
Defined.

Lemma pinned_replica_stays_down_witness :
  applyDRBD_verbs slot_helpers (slot_replica {[skipDiskPropKey := "True"]}) false false = (Ok tt, false).
Proof.
  apply (pinned_replica_stays_down slot_helpers (slot_replica {[skipDiskPropKey := "True"]}) false false);
    reflexivity.
Defined.

(** The same machine without the pin is brought up. *)
Example unpinned_replica_comes_up :
  applyDRBD_verbs slot_helpers (slot_replica ∅) false false = (Ok tt, true).
Proof. reflexivity. Qed.
