(* ===== verification/CrdName.v ===== *)
(** * Kubernetes names of LINSTOR objects

    Models [pkg/store/k8s/crdname.go]: how a LINSTOR name becomes the name of a
    Kubernetes object, and how the original spelling is kept in an annotation. *)

From Stdlib Require Import Ascii.
From S2P Require Import Prelude Sha256.

Definition AnnotationLinstorName : string := "blockstor.io/linstor-name".

(** The two fields of an [ObjectMeta] this file touches; a nil map is [None]. *)
Record ObjectMeta := mkObjectMeta {
  meta_Name : string;
  meta_Annotations : option (gmap string string);
}.

Definition SetOriginalName (meta : ObjectMeta) (original : string) : ObjectMeta :=
  if bool_decide (meta_Name meta = original) then meta
  else mkObjectMeta (meta_Name meta)
         (Some (<[AnnotationLinstorName := original]> (default ∅ (meta_Annotations meta)))).

Definition OriginalName (meta : ObjectMeta) : string :=
  match meta_Annotations meta ≫= (.!! AnnotationLinstorName) with
  | Some v => v
  | None => meta_Name meta
  end.

Definition maxK8sName : nat := 253.
Definition hashPrefixBytes : nat := 4.

Definition alnum (c : ascii) : bool := Str.is_lower c || Str.is_digit c.

(** The automaton of the regular expression [rfc1123]: at the start of a label, after
    a letter or digit, after a dash. *)
Inductive rfc_state := LabelStart | AfterAlnum | AfterDash.

Fixpoint rfc_run (st : rfc_state) (s : string) : bool :=
  match s with
  | EmptyString => match st with AfterAlnum => true | _ => false end
  | String c s' =>
      if alnum c then rfc_run AfterAlnum s'
      else match st with
           | LabelStart => false
           | AfterAlnum => if Ascii.eqb c "-" then rfc_run AfterDash s'
                           else if Ascii.eqb c "." then rfc_run LabelStart s' else false
           | AfterDash => if Ascii.eqb c "-" then rfc_run AfterDash s' else false
           end
  end.

Definition rfc1123 (s : string) : bool := rfc_run LabelStart s.

(** The loop of [Name] over the lowered input. *)
Fixpoint slugify (prevDash : bool) (s : string) : string :=
  match s with
  | EmptyString => ""
  | String c s' =>
      if alnum c then String c (slugify false s')
      else if prevDash then slugify true s' else String "-" (slugify true s')
  end.

(** [strings.Trim(s, "-")] *)
Fixpoint trim_left_dash (s : string) : string :=
  match s with
  | String c s' => if Ascii.eqb c "-" then trim_left_dash s' else s
  | EmptyString => ""
  end.

Fixpoint trim_right_dash (s : string) : string :=
  match s with
  | EmptyString => ""
  | String c s' => match trim_right_dash s' with
                   | EmptyString => if Ascii.eqb c "-" then "" else String c ""
                   | t => String c t
                   end
  end.

Definition slug (name : string) : string :=
  trim_right_dash (trim_left_dash (slugify true (Str.to_lower name))).

Definition hash_prefix (name : string) : string :=
  Sha256.EncodeToString (take hashPrefixBytes (Sha256.Sum256 (Sha256.bytes_of_string name))).

(** The lowered name passes as it is. *)
Definition clean (lower : string) : bool :=
  bool_decide (lower <> "") && bool_decide (String.length lower <= maxK8sName)%nat && rfc1123 lower.

Definition Name (name : string) : string :=
  let lower := Str.to_lower name in
  if clean lower then lower
  else
    let out := hash_prefix name +:+ "-" +:+ slug name in
    if bool_decide (maxK8sName < String.length out)%nat then String.substring 0 maxK8sName out else out.

(** ** Facts *)

Definition slug_char (c : ascii) : bool := alnum c || Ascii.eqb c "-".

Lemma slugify_chars prev s : StrFacts.all_chars slug_char (slugify prev s) = true.
Proof.
  revert prev; induction s as [|c s IH]; intros prev; [done|]. cbn. unfold slug_char at 1.
  destruct (alnum c) eqn:Hc; [|destruct prev]; cbn; rewrite ?IH; unfold slug_char; rewrite ?Hc; done.
Qed.

Lemma trim_left_chars P s :
  StrFacts.all_chars P s = true -> StrFacts.all_chars P (trim_left_dash s) = true.
Proof.
  induction s as [|c s IH]; [done|]. cbn. intros [H1 H2]%andb_prop.
  destruct (Ascii.eqb c "-"); [auto|]. cbn. by rewrite H1, H2.
Qed.

(** A non-empty right-trimmed slug ends a label, whatever came before it. *)
Lemma trimmed_run s st :
  StrFacts.all_chars slug_char s = true -> trim_right_dash s <> "" ->
  st <> LabelStart -> rfc_run st (trim_right_dash s) = true.
Proof.
  revert st; induction s as [|c s IH]; intros st; [done|]. cbn. intros [Hc Hs]%andb_prop.
  unfold slug_char in Hc. destruct (trim_right_dash s) as [|d t] eqn:Et.
  - destruct (Ascii.eqb c "-"); [done|]. rewrite orb_false_r in Hc. intros _ _. cbn. by rewrite Hc.
  - intros _ Hst. assert (String d t <> "") as Hu by done. remember (String d t) as u eqn:Eu. clear Eu.
    cbn [rfc_run]. destruct (alnum c); [apply IH; done|]. cbn in Hc. rewrite Hc.
    destruct st; [done|apply IH; done..].
Qed.

Lemma hex_alnum n : 0 <= n < 16 -> alnum (Sha256.hex_digit n) = true.
Proof.
  intros H. assert (n ∈ seqZ 0 16) as Hin by (apply elem_of_seqZ; lia).
  clear H. revert n Hin. apply list.Forall_forall. by repeat constructor.
Qed.

Lemma hex_run l s :
  Forall (fun b => 0 <= b < 256) l -> l <> [] ->
  rfc_run LabelStart (Sha256.EncodeToString l +:+ s) = rfc_run AfterAlnum s.
Proof.
  intros Hl Hne.
  assert (forall st, l <> [] \/ st = AfterAlnum ->
    rfc_run st (Sha256.EncodeToString l +:+ s) = rfc_run AfterAlnum s) as H; [|auto].
  clear Hne. induction Hl as [|b l Hb _ IH]; intros st Hst; [by destruct Hst as [?| ->]|].
  cbn [Sha256.EncodeToString]. rewrite !StrFacts.app_cons. cbn [rfc_run].
  rewrite !hex_alnum; [by apply IH; right|..].
  - apply Z.mod_pos_bound. lia.
  - split; [apply Z.div_pos; lia|apply Z.div_lt_upper_bound; lia].
Qed.

Lemma hash_prefix_bytes name :
  let l := take hashPrefixBytes (Sha256.Sum256 (Sha256.bytes_of_string name)) in
  Forall (fun b => 0 <= b < 256) l /\ length l = hashPrefixBytes.
Proof.
  cbn zeta. split.
  - apply Forall_take, list.Forall_forall. intros b. apply Sha256.Sum256_byte.
  - rewrite length_take, Sha256.Sum256_length. done.
Qed.

(** Names that are valid once lowered are folded, so every spelling of such a name
    addresses one object; every other name with a letter or digit, as long as its slug is
    at most 244 characters, becomes a valid object name of at most 253 characters; and the
    spelling the caller used is read back from the annotation. *)
Theorem Name_folds_and_validates name :
  (clean (Str.to_lower name) = true ->
     Name name = Str.to_lower name
     /\ forall other, Str.to_lower other = Str.to_lower name -> Name other = Name name)
  /\ (clean (Str.to_lower name) = true \/ (slug name <> "" /\ (String.length (slug name) <= 244)%nat) ->
       rfc1123 (Name name) = true /\ (String.length (Name name) <= maxK8sName)%nat)
  /\ OriginalName (SetOriginalName (mkObjectMeta (Name name) None) name) = name.
Proof.
  split; [|split].
  - intros Hc. unfold Name. rewrite Hc. split; [done|]. intros other ->. by rewrite Hc.
  - unfold Name. destruct (clean (Str.to_lower name)) eqn:Hc; intros Hs.
    + unfold clean in Hc. apply andb_prop in Hc as [[_ Hl%bool_decide_eq_true]%andb_prop Hr]. done.
    + destruct Hs as [?|[Hne Hlen]]; [done|].
      destruct (hash_prefix_bytes name) as [Hb Hn].
      assert (String.length (hash_prefix name +:+ "-" +:+ slug name) = 9 + String.length (slug name))%nat as Hout.
      { rewrite !StrFacts.length_app_str. unfold hash_prefix. rewrite Sha256.EncodeToString_length, Hn. done. }
      rewrite bool_decide_eq_false_2 by (rewrite Hout; unfold maxK8sName; lia).
      split; [|rewrite Hout; unfold maxK8sName; lia]. unfold rfc1123, hash_prefix.
      rewrite hex_run; [|done|by intros E; rewrite E in Hn].
      change ("-" +:+ slug name) with (String "-" (slug name)). cbn [rfc_run alnum].
      unfold slug. apply trimmed_run; [|done|done]. apply trim_left_chars, slugify_chars.
  - unfold SetOriginalName, OriginalName. case_bool_decide as E; cbn in *; [done|].
    by rewrite lookup_insert_eq.
Qed.

Lemma Name_folds_and_validates_witness :
  Name "DfltRscGrp" = "dfltrscgrp" /\ rfc1123 (Name "my_volume") = true.
Proof.
  split.
  - destruct (Name_folds_and_validates "DfltRscGrp") as [H _]. exact (proj1 (H eq_refl)).
  - destruct (Name_folds_and_validates "my_volume") as (_ & H & _). refine (proj1 (H _)). right.
    split; [vm_compute; discriminate|]. apply (bool_decide_eq_true_1 _). vm_compute. reflexivity.
Defined.

(** Two promises of the name mapping fail on names that need a slug: the hash is taken
    of the spelling and not of the folded name, so two spellings of one name address two
    objects; and a name without any letter or digit maps to a string that ends in a dash,
    which is not a valid object name. *)
Theorem Name_slug_defects :
  Str.to_lower "Pool_A" = Str.to_lower "pool_a" /\ Name "Pool_A" <> Name "pool_a"
  /\ rfc1123 (Name "___") = false.
Proof. vm_compute. split_and!; [reflexivity|discriminate|reflexivity]. Qed.
