(* ===== verification/DrbdOptions.v ===== *)
(** * DRBD options: typed storage, transcoding and precedence

    Models [api/v1alpha1/drbd_options.go] (the typed options of a scope),
    [pkg/store/k8s/drbd_transcode.go] (splitting a flat property bag into typed options
    and leftovers, and back), [pkg/drbd/typed_emit.go], [pkg/drbd/typed_resolver.go],
    [pkg/drbd/resolver.go] (precedence of the scopes) and
    [pkg/effectiveprops/effective.go] (the effective properties of a replica).

    A nil property map and an empty one are the same here; no function of these files
    tells them apart. Loops over a Go map are [map_fold]s, whose order is unspecified. *)

From Stdlib Require Import Ascii.
From S2P Require Import Prelude Api CrdName.

(** ** The typed options *)

Record DRBDNetOptions := mkNet {
  Protocol : string;
  SharedSecretRef : option string;
  AllowTwoPrimaries : option bool;
  MaxBuffers : option Z;
  AfterSb0Pri : string;
  AfterSb1Pri : string;
  AfterSb2Pri : string;
}.

Record DRBDDiskOptions := mkDisk {
  OnIOError : string;
  ALExtents : option Z;
}.

Record DRBDPeerDeviceOptions := mkPeerDevice {
  CMaxRate : string;
}.

Record DRBDResourceOptions := mkResourceOptions {
  AutoPromote : option bool;
  Quorum : string;
  OnNoQuorum : string;
  AutoTieBreaker : option bool;
}.

Record DRBDOptions := mkDRBDOptions {
  o_Net : option DRBDNetOptions;
  o_Disk : option DRBDDiskOptions;
  o_PeerDevice : option DRBDPeerDeviceOptions;
  o_Resource : option DRBDResourceOptions;
  o_Handlers : gmap string string;
}.

Definition zero_net : DRBDNetOptions := mkNet "" None None None "" "" "".
Definition zero_disk : DRBDDiskOptions := mkDisk "" None.
Definition zero_peer : DRBDPeerDeviceOptions := mkPeerDevice "".
Definition zero_resource : DRBDResourceOptions := mkResourceOptions None "" "" None.
Definition zero_options : DRBDOptions := mkDRBDOptions None None None None ∅.

Definition with_Net (o : DRBDOptions) (x : DRBDNetOptions) : DRBDOptions :=
  mkDRBDOptions (Some x) (o_Disk o) (o_PeerDevice o) (o_Resource o) (o_Handlers o).
Definition with_Disk (o : DRBDOptions) (x : DRBDDiskOptions) : DRBDOptions :=
  mkDRBDOptions (o_Net o) (Some x) (o_PeerDevice o) (o_Resource o) (o_Handlers o).
Definition with_PeerDevice (o : DRBDOptions) (x : DRBDPeerDeviceOptions) : DRBDOptions :=
  mkDRBDOptions (o_Net o) (o_Disk o) (Some x) (o_Resource o) (o_Handlers o).
Definition with_Resource (o : DRBDOptions) (x : DRBDResourceOptions) : DRBDOptions :=
  mkDRBDOptions (o_Net o) (o_Disk o) (o_PeerDevice o) (Some x) (o_Handlers o).
Definition with_Handlers (o : DRBDOptions) (h : gmap string string) : DRBDOptions :=
  mkDRBDOptions (o_Net o) (o_Disk o) (o_PeerDevice o) (o_Resource o) h.

(** ** Transcoding ([drbd_transcode.go]) *)

Definition propsKVPrefix : string := "DrbdOptions/".

Definition parseBool (val : string) : option bool :=
  let l := Str.to_lower val in
  if bool_decide (l ∈ ["yes"; "true"; "1"]) then Some true
  else if bool_decide (l ∈ ["no"; "false"; "0"]) then Some false
  else None.

Definition formatBool (b : bool) : string := if b then "yes" else "no".

(** Each [apply...Key] reports whether the key was recognised, with the options it
    leaves; the section is allocated even when the key is not. *)
Definition applySectionlessKey (o : DRBDOptions) (name val : string) : bool * DRBDOptions :=
  if bool_decide (name = "AutoAddQuorumTiebreaker") then
    match parseBool val with
    | None => (false, o)
    | Some b =>
        let r := default zero_resource (o_Resource o) in
        (true, with_Resource o (mkResourceOptions (AutoPromote r) (Quorum r) (OnNoQuorum r) (Some b)))
    end
  else (false, o).

Definition applyNetKey (o : DRBDOptions) (name val : string) : bool * DRBDOptions :=
  let n := default zero_net (o_Net o) in
  let set proto two buf s0 s1 s2 := with_Net o (mkNet proto (SharedSecretRef n) two buf s0 s1 s2) in
  if bool_decide (name = "protocol") then
    (true, set val (AllowTwoPrimaries n) (MaxBuffers n) (AfterSb0Pri n) (AfterSb1Pri n) (AfterSb2Pri n))
  else if bool_decide (name = "max-buffers") then
    match parse_int 32 val with
    | None => (false, with_Net o n)
    | Some z => (true, set (Protocol n) (AllowTwoPrimaries n) (Some z) (AfterSb0Pri n) (AfterSb1Pri n)
                         (AfterSb2Pri n))
    end
  else if bool_decide (name = "allow-two-primaries") then
    match parseBool val with
    | None => (false, with_Net o n)
    | Some b => (true, set (Protocol n) (Some b) (MaxBuffers n) (AfterSb0Pri n) (AfterSb1Pri n)
                         (AfterSb2Pri n))
    end
  else if bool_decide (name = "after-sb-0pri") then
    (true, set (Protocol n) (AllowTwoPrimaries n) (MaxBuffers n) val (AfterSb1Pri n) (AfterSb2Pri n))
  else if bool_decide (name = "after-sb-1pri") then
    (true, set (Protocol n) (AllowTwoPrimaries n) (MaxBuffers n) (AfterSb0Pri n) val (AfterSb2Pri n))
  else if bool_decide (name = "after-sb-2pri") then
    (true, set (Protocol n) (AllowTwoPrimaries n) (MaxBuffers n) (AfterSb0Pri n) (AfterSb1Pri n) val)
  else (false, with_Net o n).

Definition applyDiskKey (o : DRBDOptions) (name val : string) : bool * DRBDOptions :=
  let d := default zero_disk (o_Disk o) in
  if bool_decide (name = "on-io-error") then (true, with_Disk o (mkDisk val (ALExtents d)))
  else if bool_decide (name = "al-extents") then
    match parse_int 32 val with
    | None => (false, with_Disk o d)
    | Some z => (true, with_Disk o (mkDisk (OnIOError d) (Some z)))
    end
  else (false, with_Disk o d).

Definition applyPeerDeviceKey (o : DRBDOptions) (name val : string) : bool * DRBDOptions :=
  let p := default zero_peer (o_PeerDevice o) in
  if bool_decide (name = "c-max-rate") then (true, with_PeerDevice o (mkPeerDevice val))
  else (false, with_PeerDevice o p).

Definition applyResourceKey (o : DRBDOptions) (name val : string) : bool * DRBDOptions :=
  let r := default zero_resource (o_Resource o) in
  if bool_decide (name = "auto-promote") then
    match parseBool val with
    | None => (false, with_Resource o r)
    | Some b => (true, with_Resource o (mkResourceOptions (Some b) (Quorum r) (OnNoQuorum r) (AutoTieBreaker r)))
    end
  else if bool_decide (name = "quorum") then
    (true, with_Resource o (mkResourceOptions (AutoPromote r) val (OnNoQuorum r) (AutoTieBreaker r)))
  else if bool_decide (name = "on-no-quorum") then
    (true, with_Resource o (mkResourceOptions (AutoPromote r) (Quorum r) val (AutoTieBreaker r)))
  else (false, with_Resource o r).

Definition applyHandlerKey (o : DRBDOptions) (name val : string) : bool * DRBDOptions :=
  (true, with_Handlers o (<[name := val]> (o_Handlers o))).

Definition applyTypedKey (o : DRBDOptions) (key val : string) : bool * DRBDOptions :=
  let rest := Str.trim_prefix propsKVPrefix key in
  if Str.has_prefix "Net/" rest then applyNetKey o (Str.trim_prefix "Net/" rest) val
  else if Str.has_prefix "Disk/" rest then applyDiskKey o (Str.trim_prefix "Disk/" rest) val
  else if Str.has_prefix "PeerDevice/" rest then
    applyPeerDeviceKey o (Str.trim_prefix "PeerDevice/" rest) val
  else if Str.has_prefix "Resource/" rest then applyResourceKey o (Str.trim_prefix "Resource/" rest) val
  else if Str.has_prefix "Handlers/" rest then applyHandlerKey o (Str.trim_prefix "Handlers/" rest) val
  else applySectionlessKey o rest val.

Definition isEmptyDRBDOptions (o : DRBDOptions) : bool :=
  match o_Net o, o_Disk o, o_PeerDevice o, o_Resource o with
  | None, None, None, None => bool_decide (o_Handlers o = ∅)
  | _, _, _, _ => false
  end.

(** The loop body of [propsToTyped]: options and leftovers so far. *)
Definition split_key (key val : string) (acc : DRBDOptions * gmap string string)
    : DRBDOptions * gmap string string :=
  let '(o, extras) := acc in
  if negb (Str.has_prefix propsKVPrefix key) then (o, <[key := val]> extras)
  else let '(ok, o') := applyTypedKey o key val in
       if ok : bool then (o', extras) else (o', <[key := val]> extras).

Definition propsToTyped (props : gmap string string) : option DRBDOptions * gmap string string :=
  let '(o, extras) := map_fold split_key (zero_options, ∅) props in
  (if isEmptyDRBDOptions o then None else Some o, extras).

(** [if field is set { out[key] = rendered }] *)
Definition put (out : gmap string string) (kv : string * option string) : gmap string string :=
  match kv.2 with Some v => <[kv.1 := v]> out | None => out end.
Definition str_val (v : string) : option string := if bool_decide (v = "") then None else Some v.

Definition emitNetProps (out : gmap string string) (net : option DRBDNetOptions) : gmap string string :=
  match net with
  | None => out
  | Some n => foldl put out
      [("DrbdOptions/Net/protocol", str_val (Protocol n));
       ("DrbdOptions/Net/max-buffers", format_int <$> MaxBuffers n);
       ("DrbdOptions/Net/allow-two-primaries", formatBool <$> AllowTwoPrimaries n);
       ("DrbdOptions/Net/after-sb-0pri", str_val (AfterSb0Pri n));
       ("DrbdOptions/Net/after-sb-1pri", str_val (AfterSb1Pri n));
       ("DrbdOptions/Net/after-sb-2pri", str_val (AfterSb2Pri n))]
  end.

Definition emitDiskProps (out : gmap string string) (disk : option DRBDDiskOptions) : gmap string string :=
  match disk with
  | None => out
  | Some d => foldl put out
      [("DrbdOptions/Disk/on-io-error", str_val (OnIOError d));
       ("DrbdOptions/Disk/al-extents", format_int <$> ALExtents d)]
  end.

Definition emitPeerDeviceProps (out : gmap string string) (p : option DRBDPeerDeviceOptions)
    : gmap string string :=
  match p with
  | None => out
  | Some p => foldl put out [("DrbdOptions/PeerDevice/c-max-rate", str_val (CMaxRate p))]
  end.

Definition emitResourceProps (out : gmap string string) (res : option DRBDResourceOptions)
    : gmap string string :=
  match res with
  | None => out
  | Some r => foldl put out
      [("DrbdOptions/Resource/auto-promote", formatBool <$> AutoPromote r);
       ("DrbdOptions/Resource/quorum", str_val (Quorum r));
       ("DrbdOptions/Resource/on-no-quorum", str_val (OnNoQuorum r));
       ("DrbdOptions/AutoAddQuorumTiebreaker", formatBool <$> AutoTieBreaker r)]
  end.

Definition handlersPrefix : string := "DrbdOptions/Handlers/".

Definition emitHandlersProps (out handlers : gmap string string) : gmap string string :=
  map_fold (fun name script acc => <[handlersPrefix +:+ name := script]> acc) out handlers.

Definition typedToProps (opts : option DRBDOptions) (extras : gmap string string) : gmap string string :=
  match opts with
  | None => extras
  | Some o =>
      emitHandlersProps
        (emitResourceProps
          (emitPeerDeviceProps (emitDiskProps (emitNetProps extras (o_Net o)) (o_Disk o)) (o_PeerDevice o))
          (o_Resource o))
        (o_Handlers o)
  end.

Definition stripDRBDProps (props : gmap string string) : gmap string string :=
  filter (fun kv => Str.has_prefix propsKVPrefix kv.1 = false) props.

Definition mergeProps (residual drbd : gmap string string) : gmap string string := drbd ∪ residual.

(** ** Emission for the dispatcher ([typed_emit.go]) *)

Definition boolToWire (b : bool) : string := if b then "yes" else "no".

Definition emitTypedNet (out : gmap string string) (net : option DRBDNetOptions) : gmap string string :=
  match net with
  | None => out
  | Some n => foldl put out
      [("DrbdOptions/Net/protocol", str_val (Protocol n));
       ("DrbdOptions/Net/max-buffers", format_int <$> MaxBuffers n);
       ("DrbdOptions/Net/allow-two-primaries", boolToWire <$> AllowTwoPrimaries n);
       ("DrbdOptions/Net/after-sb-0pri", str_val (AfterSb0Pri n));
       ("DrbdOptions/Net/after-sb-1pri", str_val (AfterSb1Pri n));
       ("DrbdOptions/Net/after-sb-2pri", str_val (AfterSb2Pri n))]
  end.

Definition emitTypedDisk (out : gmap string string) (disk : option DRBDDiskOptions) : gmap string string :=
  match disk with
  | None => out
  | Some d => foldl put out
      [("DrbdOptions/Disk/on-io-error", str_val (OnIOError d));
       ("DrbdOptions/Disk/al-extents", format_int <$> ALExtents d)]
  end.

Definition emitTypedPeerDevice (out : gmap string string) (p : option DRBDPeerDeviceOptions)
    : gmap string string :=
  match p with
  | None => out
  | Some p => foldl put out [("DrbdOptions/PeerDevice/c-max-rate", str_val (CMaxRate p))]
  end.

Definition emitTypedResource (out : gmap string string) (res : option DRBDResourceOptions)
    : gmap string string :=
  match res with
  | None => out
  | Some r => foldl put out
      [("DrbdOptions/Resource/auto-promote", boolToWire <$> AutoPromote r);
       ("DrbdOptions/Resource/quorum", str_val (Quorum r));
       ("DrbdOptions/Resource/on-no-quorum", str_val (OnNoQuorum r))]
  end.

Definition emitTypedHandlers (out handlers : gmap string string) : gmap string string :=
  map_fold (fun name script acc => <[handlersPrefix +:+ name := script]> acc) out handlers.

Definition TypedDRBDOptionsToProps (opts : option DRBDOptions) : gmap string string :=
  match opts with
  | None => ∅
  | Some o =>
      emitTypedHandlers
        (emitTypedResource
          (emitTypedPeerDevice (emitTypedDisk (emitTypedNet ∅ (o_Net o)) (o_Disk o)) (o_PeerDevice o))
          (o_Resource o))
        (o_Handlers o)
  end.

(** ** Typed precedence ([typed_resolver.go]) *)

(** [if src.F != "" { out.F = src.F }] and [if src.F != nil { out.F = src.F }] *)
Definition over_str (src out : string) : string := if bool_decide (src = "") then out else src.
Definition over_opt {A} (src out : option A) : option A := match src with Some _ => src | None => out end.

Definition mergeNet (out : DRBDOptions) (src : option DRBDNetOptions) : DRBDOptions :=
  match src with
  | None => out
  | Some s =>
      let n := default zero_net (o_Net out) in
      with_Net out (mkNet (over_str (Protocol s) (Protocol n))
        (over_opt (SharedSecretRef s) (SharedSecretRef n))
        (over_opt (AllowTwoPrimaries s) (AllowTwoPrimaries n)) (over_opt (MaxBuffers s) (MaxBuffers n))
        (over_str (AfterSb0Pri s) (AfterSb0Pri n)) (over_str (AfterSb1Pri s) (AfterSb1Pri n))
        (over_str (AfterSb2Pri s) (AfterSb2Pri n)))
  end.

Definition mergeDisk (out : DRBDOptions) (src : option DRBDDiskOptions) : DRBDOptions :=
  match src with
  | None => out
  | Some s =>
      let d := default zero_disk (o_Disk out) in
      with_Disk out (mkDisk (over_str (OnIOError s) (OnIOError d)) (over_opt (ALExtents s) (ALExtents d)))
  end.

Definition mergePeerDevice (out : DRBDOptions) (src : option DRBDPeerDeviceOptions) : DRBDOptions :=
  match src with
  | None => out
  | Some s =>
      let p := default zero_peer (o_PeerDevice out) in
      with_PeerDevice out (mkPeerDevice (over_str (CMaxRate s) (CMaxRate p)))
  end.

Definition mergeResource (out : DRBDOptions) (src : option DRBDResourceOptions) : DRBDOptions :=
  match src with
  | None => out
  | Some s =>
      let r := default zero_resource (o_Resource out) in
      with_Resource out (mkResourceOptions (over_opt (AutoPromote s) (AutoPromote r))
        (over_str (Quorum s) (Quorum r)) (over_str (OnNoQuorum s) (OnNoQuorum r)) (AutoTieBreaker r))
  end.

Definition mergeHandlers (out : DRBDOptions) (src : gmap string string) : DRBDOptions :=
  if bool_decide (src = ∅) then out
  else with_Handlers out
    (map_fold (fun handler script acc =>
       if bool_decide (script = "") then delete handler acc else <[handler := script]> acc)
       (o_Handlers out) src).

Definition merge_scope (out : DRBDOptions) (src : option DRBDOptions) : DRBDOptions :=
  match src with
  | None => out
  | Some s =>
      mergeHandlers (mergeResource (mergePeerDevice (mergeDisk (mergeNet out (o_Net s)) (o_Disk s))
        (o_PeerDevice s)) (o_Resource s)) (o_Handlers s)
  end.

Definition ResolveDRBDOptions (controller rg rd resource : option DRBDOptions) : option DRBDOptions :=
  let scopes := [controller; rg; rd; resource] in
  if existsb (fun s => match s with Some _ => true | None => false end) scopes
  then Some (foldl merge_scope zero_options scopes) else None.

(** ** Untyped precedence ([resolver.go]) *)

Definition PropPrefix : string := "DrbdOptions/".

Definition is_drbd (key : string) : bool := Str.has_prefix PropPrefix key.

Definition FilterDRBD (props : gmap string string) : gmap string string :=
  filter (fun kv => is_drbd kv.1 = true) props.

Definition ResolveOptions (controller resourceGroup resourceDef resource : gmap string string)
    : gmap string string :=
  let out := foldl (fun out level => filter (fun kv => is_drbd kv.1 = true) level ∪ out) ∅
               [controller; resourceGroup; resourceDef; resource] in
  filter (fun kv => is_drbd kv.1 = false) resource ∪ out.

Definition SectionFor (linstorKey : string) : string :=
  match Str.cut_prefix PropPrefix linstorKey with
  | None => "options"
  | Some rest =>
      match Str.cut "/"%char rest with
      | None => "options"
      | Some (section, _) =>
          let s := Str.to_lower section in
          if bool_decide (s = "net") then "net"
          else if bool_decide (s = "disk") then "disk"
          else if bool_decide (s = "peerdevice") || bool_decide (s = "peer-device") then "peer-device"
          else if bool_decide (s = "handlers") then "handlers"
          else "options"
      end
  end.

(** ** Effective properties ([effective.go]) *)

(** One scope as it is stored: raw properties, typed options, leftovers. *)
Record scopeInfo := mkScope {
  sc_Props : gmap string string;
  sc_Typed : option DRBDOptions;
  sc_Extras : gmap string string;
}.

Definition empty_scope : scopeInfo := mkScope ∅ None ∅.

Definition overlayNonDRBDExtras (out src : gmap string string) : gmap string string :=
  filter (fun kv => is_drbd kv.1 = false) src ∪ out.

Definition emitScopeProps (typed : option DRBDOptions) (extras : gmap string string) : gmap string string :=
  TypedDRBDOptionsToProps typed ∪ extras.

Definition mergeScopeProps (drbdProps rawProps : gmap string string) : gmap string string :=
  drbdProps ∪ rawProps.

(** The definition's scope and the name of its group. *)
Record rd_object := mkRd {
  rdo_scope : scopeInfo;
  rdo_group : string;
}.

Section Resolve.
Context {E : Type}.
(** [client.Get] on the controller configuration and on a group; a missing object is
    [Ok None]. The configuration has no raw properties. *)
Context (getConfig : result E (option scopeInfo)) (getGroup : string -> result E (option scopeInfo)).

Definition scopeInputs (rd : option rd_object) : result E (scopeInfo * scopeInfo) :=
  match rd with
  | None => Ok (empty_scope, empty_scope)
  | Some r =>
      if bool_decide (rdo_group r = "") then Ok (empty_scope, rdo_scope r)
      else match getGroup (Name (rdo_group r)) with
           | Err e => Err e
           | Ok None => Ok (empty_scope, rdo_scope r)
           | Ok (Some g) => Ok (g, rdo_scope r)
           end
  end.

Definition Resolve (target : option scopeInfo) (rd : option rd_object) : result E (gmap string string) :=
  match target with
  | None => Ok ∅
  | Some t =>
      match getConfig with
      | Err e => Err e
      | Ok cfg =>
          let c := default empty_scope cfg in
          match scopeInputs rd with
          | Err e => Err e
          | Ok (rgInfo, rdInfo) =>
              let ctrlMerged := mergeScopeProps (emitScopeProps (sc_Typed c) (sc_Extras c)) ∅ in
              let rgMerged := mergeScopeProps (emitScopeProps (sc_Typed rgInfo) (sc_Extras rgInfo))
                                (sc_Props rgInfo) in
              let rdMerged := mergeScopeProps (emitScopeProps (sc_Typed rdInfo) (sc_Extras rdInfo))
                                (sc_Props rdInfo) in
              let resMerged := mergeScopeProps (emitScopeProps (sc_Typed t) (sc_Extras t)) (sc_Props t) in
              let out := ResolveOptions ctrlMerged rgMerged rdMerged resMerged in
              Ok (overlayNonDRBDExtras (overlayNonDRBDExtras out (sc_Extras rgInfo)) (sc_Extras rdInfo))
          end
      end
  end.

End Resolve.

(** [SplitProps]: how the store files a flat bag. *)
Definition SplitProps (props : gmap string string) : scopeInfo :=
  mkScope (stripDRBDProps props) (propsToTyped props).1 (propsToTyped props).2.

(** ** Emission as a list of pairs *)

Definition net_pairs (n : option DRBDNetOptions) : list (string * option string) :=
  let n := default zero_net n in
  [("DrbdOptions/Net/protocol", str_val (Protocol n));
   ("DrbdOptions/Net/max-buffers", format_int <$> MaxBuffers n);
   ("DrbdOptions/Net/allow-two-primaries", formatBool <$> AllowTwoPrimaries n);
   ("DrbdOptions/Net/after-sb-0pri", str_val (AfterSb0Pri n));
   ("DrbdOptions/Net/after-sb-1pri", str_val (AfterSb1Pri n));
   ("DrbdOptions/Net/after-sb-2pri", str_val (AfterSb2Pri n))].

Definition disk_pairs (d : option DRBDDiskOptions) : list (string * option string) :=
  let d := default zero_disk d in
  [("DrbdOptions/Disk/on-io-error", str_val (OnIOError d));
   ("DrbdOptions/Disk/al-extents", format_int <$> ALExtents d)].

Definition peer_pairs (p : option DRBDPeerDeviceOptions) : list (string * option string) :=
  [("DrbdOptions/PeerDevice/c-max-rate", str_val (CMaxRate (default zero_peer p)))].

Definition resource_pairs (r : option DRBDResourceOptions) : list (string * option string) :=
  let r := default zero_resource r in
  [("DrbdOptions/Resource/auto-promote", formatBool <$> AutoPromote r);
   ("DrbdOptions/Resource/quorum", str_val (Quorum r));
   ("DrbdOptions/Resource/on-no-quorum", str_val (OnNoQuorum r))].

Definition tiebreaker_pair (r : option DRBDResourceOptions) : string * option string :=
  ("DrbdOptions/AutoAddQuorumTiebreaker", formatBool <$> AutoTieBreaker (default zero_resource r)).

Definition wire_pairs (o : DRBDOptions) : list (string * option string) :=
  net_pairs (o_Net o) ++ disk_pairs (o_Disk o) ++ peer_pairs (o_PeerDevice o) ++ resource_pairs (o_Resource o).

Definition typed_pairs (o : DRBDOptions) : list (string * option string) :=
  wire_pairs o ++ [tiebreaker_pair (o_Resource o)].

Lemma typed_pairs_nodup o : NoDup (typed_pairs o).*1.
Proof. apply (bool_decide_eq_true_1 _). vm_compute. reflexivity. Qed.

Lemma handlers_lookup out h k :
  emitHandlersProps out h !! k
  = match Str.cut_prefix handlersPrefix k with
    | Some n => match h !! n with Some v => Some v | None => out !! k end
    | None => out !! k
    end.
Proof.
  unfold emitHandlersProps.
  apply (map_fold_weak_ind (fun r h => r !! k
    = match Str.cut_prefix handlersPrefix k with
      | Some n => match h !! n with Some v => Some v | None => out !! k end
      | None => out !! k
      end)).
  - destruct (Str.cut_prefix _ _); by rewrite ?lookup_empty.
  - intros i x m r Hi IH. destruct (decide (k = handlersPrefix +:+ i)) as [->|Hne].
    + by rewrite lookup_insert_eq, StrFacts.cut_prefix_app, lookup_insert_eq.
    + rewrite lookup_insert_ne by done. rewrite IH.
      destruct (Str.cut_prefix handlersPrefix k) as [n|] eqn:Ec; [|done].
      apply StrFacts.cut_prefix_Some in Ec. rewrite lookup_insert_ne; [done|]. congruence.
Qed.

Lemma typedToProps_pairs o extras :
  typedToProps (Some o) extras = emitHandlersProps (foldl put extras (typed_pairs o)) (o_Handlers o).
Proof.
  destruct o as [[] [] [] [] h]; unfold typedToProps, typed_pairs, wire_pairs; rewrite !foldl_app; reflexivity.
Qed.

Lemma emit_wire_pairs o :
  TypedDRBDOptionsToProps (Some o) = emitHandlersProps (foldl put ∅ (wire_pairs o)) (o_Handlers o).
Proof.
  destruct o as [[] [] [] [] h]; unfold TypedDRBDOptionsToProps, wire_pairs; rewrite !foldl_app; reflexivity.
Qed.

(** ** What a round trip does to one property *)

Definition string_keys : list string :=
  ["DrbdOptions/Net/protocol"; "DrbdOptions/Net/after-sb-0pri"; "DrbdOptions/Net/after-sb-1pri";
   "DrbdOptions/Net/after-sb-2pri"; "DrbdOptions/Disk/on-io-error"; "DrbdOptions/PeerDevice/c-max-rate";
   "DrbdOptions/Resource/quorum"; "DrbdOptions/Resource/on-no-quorum"].
Definition int_keys : list string := ["DrbdOptions/Net/max-buffers"; "DrbdOptions/Disk/al-extents"].
Definition bool_keys : list string :=
  ["DrbdOptions/Net/allow-two-primaries"; "DrbdOptions/Resource/auto-promote";
   "DrbdOptions/AutoAddQuorumTiebreaker"].

(** An empty value of a typed string option is dropped, numbers and booleans of typed
    options come back in canonical form, anything else comes back as it was. *)
Definition norm (k v : string) : option string :=
  if bool_decide (k ∈ string_keys) then str_val v
  else if bool_decide (k ∈ int_keys) then
    Some (match parse_int 32 v with Some z => format_int z | None => v end)
  else if bool_decide (k ∈ bool_keys) then
    Some (match parseBool v with Some b => formatBool b | None => v end)
  else Some v.

Lemma norm_string k v : bool_decide (k ∈ string_keys) = true -> norm k v = str_val v.
Proof. unfold norm. by intros ->. Qed.
Lemma norm_int k v z :
  bool_decide (k ∈ string_keys) = false -> bool_decide (k ∈ int_keys) = true -> parse_int 32 v = Some z ->
  norm k v = Some (format_int z).
Proof. unfold norm. by intros -> -> ->. Qed.
Lemma norm_bool k v b :
  bool_decide (k ∈ string_keys) = false -> bool_decide (k ∈ int_keys) = false ->
  bool_decide (k ∈ bool_keys) = true -> parseBool v = Some b -> norm k v = Some (formatBool b).
Proof. unfold norm. by intros -> -> -> ->. Qed.
Lemma norm_kept k v :
  (k ∉ string_keys) -> (k ∈ int_keys -> parse_int 32 v = None) -> (k ∈ bool_keys -> parseBool v = None) ->
  norm k v = Some v.
Proof.
  intros H1 H2 H3. unfold norm. rewrite bool_decide_eq_false_2 by done.
  case_bool_decide; [by rewrite H2|]. case_bool_decide; [by rewrite H3|done].
Qed.

(** A key under a prefix is one of [l] only if its name is. *)
Lemma under_prefix pre name (l : list string) :
  pre +:+ name ∈ l -> Some name ∈ Str.cut_prefix pre <$> l.
Proof.
  intros H. rewrite <- (StrFacts.cut_prefix_app pre name). by apply list_elem_of_fmap_2.
Qed.

Ltac key_absurd H :=
  apply under_prefix in H; vm_compute in H;
  repeat (apply elem_of_cons in H as [H|H]; [by simplify_eq|]); by apply not_elem_of_nil in H.

(** What one key does to the options. *)
Definition key_effect (o : DRBDOptions) (k v : string) (r : bool * DRBDOptions) : Prop :=
  match r with
  | (false, o') => typed_pairs o' = typed_pairs o /\ o_Handlers o' = o_Handlers o /\ norm k v = Some v
  | (true, o') =>
      (exists i old, typed_pairs o !! i = Some (k, old)
         /\ typed_pairs o' = <[i := (k, norm k v)]> (typed_pairs o) /\ o_Handlers o' = o_Handlers o)
      \/ (exists n, k = handlersPrefix +:+ n /\ typed_pairs o' = typed_pairs o
            /\ o_Handlers o' = <[n := v]> (o_Handlers o) /\ norm k v = Some v)
  end.

Ltac key_sets i := left; exists i; eexists; split; [reflexivity|]; split; [|reflexivity].
Ltac key_skips := split; [reflexivity|]; split; [reflexivity|]; apply norm_kept.

Lemma applyNetKey_effect o name v :
  key_effect o ("DrbdOptions/Net/" +:+ name) v (applyNetKey o name v).
Proof.
  unfold applyNetKey. cbv zeta.
  case_bool_decide as H1; [subst; key_sets 0%nat; by rewrite norm_string|].
  case_bool_decide as H2; [subst; destruct (parse_int 32 v) as [z|] eqn:Ep|].
  { key_sets 1%nat. by rewrite (norm_int _ _ z). }
  { key_skips; [intros H; key_absurd H|done|intros H; key_absurd H]. }
  case_bool_decide as H3; [subst; destruct (parseBool v) as [b|] eqn:Ep|].
  { key_sets 2%nat. by rewrite (norm_bool _ _ b). }
  { key_skips; [intros H; key_absurd H|intros H; key_absurd H|done]. }
  case_bool_decide as H4; [subst; key_sets 3%nat; by rewrite norm_string|].
  case_bool_decide as H5; [subst; key_sets 4%nat; by rewrite norm_string|].
  case_bool_decide as H6; [subst; key_sets 5%nat; by rewrite norm_string|].
  key_skips; intros H; key_absurd H.
Qed.

Lemma applyDiskKey_effect o name v :
  key_effect o ("DrbdOptions/Disk/" +:+ name) v (applyDiskKey o name v).
Proof.
  unfold applyDiskKey. cbv zeta.
  case_bool_decide as H1; [subst; key_sets 6%nat; by rewrite norm_string|].
  case_bool_decide as H2; [subst; destruct (parse_int 32 v) as [z|] eqn:Ep|].
  { key_sets 7%nat. by rewrite (norm_int _ _ z). }
  { key_skips; [intros H; key_absurd H|done|intros H; key_absurd H]. }
  key_skips; intros H; key_absurd H.
Qed.

Lemma applyPeerDeviceKey_effect o name v :
  key_effect o ("DrbdOptions/PeerDevice/" +:+ name) v (applyPeerDeviceKey o name v).
Proof.
  unfold applyPeerDeviceKey. cbv zeta.
  case_bool_decide as H1; [subst; key_sets 8%nat; by rewrite norm_string|].
  key_skips; intros H; key_absurd H.
Qed.

Lemma applyResourceKey_effect o name v :
  key_effect o ("DrbdOptions/Resource/" +:+ name) v (applyResourceKey o name v).
Proof.
  unfold applyResourceKey. cbv zeta.
  case_bool_decide as H1; [subst; destruct (parseBool v) as [b|] eqn:Ep|].
  { key_sets 9%nat. by rewrite (norm_bool _ _ b). }
  { key_skips; [intros H; key_absurd H|intros H; key_absurd H|done]. }
  case_bool_decide as H2; [subst; key_sets 10%nat; by rewrite norm_string|].
  case_bool_decide as H3; [subst; key_sets 11%nat; by rewrite norm_string|].
  key_skips; intros H; key_absurd H.
Qed.

Lemma applyHandlerKey_effect o name v :
  key_effect o (handlersPrefix +:+ name) v (applyHandlerKey o name v).
Proof.
  right. exists name. split; [done|]. split; [reflexivity|]. split; [reflexivity|].
  apply norm_kept; intros H; key_absurd H.
Qed.

Lemma applySectionlessKey_effect o rest v :
  Str.has_prefix "Net/" rest = false -> Str.has_prefix "Disk/" rest = false ->
  Str.has_prefix "PeerDevice/" rest = false -> Str.has_prefix "Resource/" rest = false ->
  key_effect o (propsKVPrefix +:+ rest) v (applySectionlessKey o rest v).
Proof.
  intros P1 P2 P3 P4. unfold applySectionlessKey. cbv zeta.
  case_bool_decide as H1; [subst; destruct (parseBool v) as [b|] eqn:Ep|].
  { key_sets 12%nat. by rewrite (norm_bool _ _ b). }
  { key_skips; [intros H; key_absurd H|intros H; key_absurd H|done]. }
  key_skips; intros H; apply under_prefix in H; vm_compute in H;
    repeat (apply elem_of_cons in H as [H|H]; [simplify_eq; vm_compute in P1, P2, P3, P4; done|]);
    by apply not_elem_of_nil in H.
Qed.

Lemma has_prefix_split p s : Str.has_prefix p s = true -> exists r, s = p +:+ r /\ Str.trim_prefix p s = r.
Proof.
  intros [r ->]%StrFacts.has_prefix_spec. exists r. split; [done|]. apply StrFacts.trim_prefix_app.
Qed.

Lemma applyTypedKey_effect o k v :
  Str.has_prefix propsKVPrefix k = true -> key_effect o k v (applyTypedKey o k v).
Proof.
  intros (rest & -> & Ht)%has_prefix_split. unfold applyTypedKey. rewrite Ht. clear Ht. cbv zeta.
  destruct (Str.has_prefix "Net/" rest) eqn:P1.
  { apply has_prefix_split in P1 as (n & -> & ->). rewrite <- StrFacts.app_assoc. apply applyNetKey_effect. }
  destruct (Str.has_prefix "Disk/" rest) eqn:P2.
  { apply has_prefix_split in P2 as (n & -> & ->). rewrite <- StrFacts.app_assoc. apply applyDiskKey_effect. }
  destruct (Str.has_prefix "PeerDevice/" rest) eqn:P3.
  { apply has_prefix_split in P3 as (n & -> & ->). rewrite <- StrFacts.app_assoc.
    apply applyPeerDeviceKey_effect. }
  destruct (Str.has_prefix "Resource/" rest) eqn:P4.
  { apply has_prefix_split in P4 as (n & -> & ->). rewrite <- StrFacts.app_assoc.
    apply applyResourceKey_effect. }
  destruct (Str.has_prefix "Handlers/" rest) eqn:P5.
  { apply has_prefix_split in P5 as (n & -> & ->). rewrite <- StrFacts.app_assoc.
    apply applyHandlerKey_effect. }
  by apply applySectionlessKey_effect.
Qed.

(** ** Lookups in an emission *)

Lemma put_lookup_ne out kv k : kv.1 <> k -> put out kv !! k = out !! k.
Proof. destruct kv as [key [v|]]; [cbn; intros; by rewrite lookup_insert_ne|done]. Qed.

Lemma put_lookup_eq out k v : put out (k, v) !! k = match v with Some w => Some w | None => out !! k end.
Proof. destruct v; cbn; [by rewrite lookup_insert_eq|done]. Qed.

Lemma puts_lookup_other out l k : (k ∉ l.*1) -> foldl put out l !! k = out !! k.
Proof.
  revert out; induction l as [|kv l IH]; intros out; [done|]. rewrite fmap_cons, not_elem_of_cons.
  intros [Hk Hl]. cbn [foldl]. rewrite IH by done. by apply put_lookup_ne.
Qed.

Lemma puts_lookup out l i k v :
  NoDup l.*1 -> l !! i = Some (k, v) ->
  foldl put out l !! k = match v with Some w => Some w | None => out !! k end.
Proof.
  intros Hnd Hi. rewrite <- (take_drop_middle l i (k, v) Hi) in Hnd |- *.
  rewrite foldl_app. cbn [foldl]. rewrite fmap_app, fmap_cons in Hnd.
  apply list.NoDup_app in Hnd as (_ & Hd & [Hk _]%list.NoDup_cons).
  rewrite puts_lookup_other by done. rewrite put_lookup_eq. destruct v; [done|].
  apply puts_lookup_other. intros Hin. apply (Hd k Hin). apply list_elem_of_here.
Qed.

(** Replacing the value of one pair changes the emission at its key only. *)
Lemma puts_insert out l i k old new k' :
  NoDup l.*1 -> l !! i = Some (k, old) ->
  foldl put out (<[i := (k, new)]> l) !! k'
  = if decide (k' = k) then match new with Some w => Some w | None => out !! k end
    else foldl put out l !! k'.
Proof.
  intros Hnd Hi. assert ((<[i := (k, new)]> l).*1 = l.*1) as Hkeys.
  { rewrite list_fmap_insert. cbn. apply list_insert_id. by rewrite list_lookup_fmap, Hi. }
  case_decide as Hk.
  - subst k'. apply (puts_lookup out _ i); [by rewrite Hkeys|].
    apply list_lookup_insert_eq. by apply lookup_lt_Some in Hi.
  - destruct (decide (k' ∈ l.*1)) as [Hin|Hout].
    + apply list_elem_of_fmap in Hin as ([k2 v2] & -> & Hin). cbn in Hk |- *.
      apply list_elem_of_lookup in Hin as [j Hj]. assert (i <> j) as Hij by congruence.
      rewrite (puts_lookup out l j k2 v2) by done.
      apply (puts_lookup out _ j); [by rewrite Hkeys|]. by rewrite list_lookup_insert_ne.
    + rewrite !puts_lookup_other; [done|done|by rewrite Hkeys].
Qed.

Lemma puts_extras out l k v k' :
  (k ∉ l.*1) \/ (exists i, l !! i = Some (k, None)) -> NoDup l.*1 ->
  foldl put (<[k := v]> out) l !! k' = if decide (k' = k) then Some v else foldl put out l !! k'.
Proof.
  intros Hk Hnd. case_decide as E.
  - subst k'. destruct Hk as [Hk|[i Hi]].
    + rewrite puts_lookup_other by done. apply lookup_insert_eq.
    + rewrite (puts_lookup _ l i k None Hnd Hi). apply lookup_insert_eq.
  - destruct (decide (k' ∈ l.*1)) as [Hin|Hout].
    + apply list_elem_of_fmap in Hin as ([k2 v2] & -> & [j Hj]%list_elem_of_lookup). cbn in *.
      rewrite !(puts_lookup _ l j k2 v2 Hnd Hj). destruct v2; [done|]. by rewrite lookup_insert_ne.
    + rewrite !puts_lookup_other by done. by rewrite lookup_insert_ne.
Qed.

Definition emitted (acc : DRBDOptions * gmap string string) : gmap string string :=
  typedToProps (Some acc.1) acc.2.

Lemma emitted_lookup o e k :
  emitted (o, e) !! k
  = match Str.cut_prefix handlersPrefix k ≫= (o_Handlers o !!.) with
    | Some v => Some v
    | None => foldl put e (typed_pairs o) !! k
    end.
Proof.
  unfold emitted. rewrite typedToProps_pairs, handlers_lookup. cbn [fst snd].
  destruct (Str.cut_prefix handlersPrefix k); [|done]. cbn. by destruct (o_Handlers o !! _).
Qed.

Lemma emitted_None o e k :
  emitted (o, e) !! k = None ->
  Str.cut_prefix handlersPrefix k ≫= (o_Handlers o !!.) = None /\ e !! k = None
  /\ ((k ∉ (typed_pairs o).*1) \/ exists i, typed_pairs o !! i = Some (k, None)).
Proof.
  rewrite emitted_lookup. destruct (_ ≫= _); [done|]. intros Hp. split; [done|].
  destruct (decide (k ∈ (typed_pairs o).*1)) as [Hin|Hout].
  - apply list_elem_of_fmap in Hin as ([k2 v2] & -> & [i Hi]%list_elem_of_lookup). cbn [fst] in *.
    rewrite (puts_lookup e _ i k2 v2 (typed_pairs_nodup o) Hi) in Hp. destruct v2; [done|]. eauto.
  - rewrite puts_lookup_other in Hp by done. auto.
Qed.

Lemma not_drbd_key k :
  Str.has_prefix propsKVPrefix k = false ->
  (forall o, k ∉ (typed_pairs o).*1) /\ Str.cut_prefix handlersPrefix k = None /\ forall v, norm k v = Some v.
Proof.
  intros Hk.
  assert (forall l, forallb (Str.has_prefix propsKVPrefix) l = true -> k ∉ l) as Hl.
  { intros l Hl Hin. rewrite forallb_forall in Hl. apply list_elem_of_In, Hl in Hin. congruence. }
  split; [intros o; apply Hl; reflexivity|]. split.
  - destruct (Str.cut_prefix handlersPrefix k) as [n|] eqn:E; [|done].
    apply StrFacts.cut_prefix_Some in E. subst k. exfalso.
    change handlersPrefix with (propsKVPrefix +:+ "Handlers/") in Hk.
    rewrite StrFacts.app_assoc, StrFacts.has_prefix_app in Hk. done.
  - intros v. apply norm_kept; [by apply Hl|intros H..]; by apply Hl in H.
Qed.

Lemma split_key_emitted k v acc k' :
  emitted acc !! k = None ->
  emitted (split_key k v acc) !! k' = if decide (k' = k) then norm k v else emitted acc !! k'.
Proof.
  destruct acc as [o e]. intros (Hh & He & Hp)%emitted_None. unfold split_key.
  destruct (Str.has_prefix propsKVPrefix k) eqn:Hk; cbn [negb].
  - pose proof (applyTypedKey_effect o k v Hk) as Hef.
    destruct (applyTypedKey o k v) as [[] o']; cbn [key_effect] in Hef.
    + destruct Hef as [(i & old & Hi & Hpairs & Hhd)|(n & -> & Hpairs & Hhd & ->)].
      * rewrite !emitted_lookup, Hhd, Hpairs, (puts_insert e _ i k old) by (done || apply typed_pairs_nodup).
        case_decide; [|done]. subst k'. rewrite Hh, He. by destruct (norm k v).
      * rewrite !emitted_lookup, Hhd, Hpairs. case_decide as E.
        { subst k'. rewrite StrFacts.cut_prefix_app. cbn. by rewrite lookup_insert_eq. }
        destruct (Str.cut_prefix handlersPrefix k') as [n'|] eqn:Ec; [|done]. cbn.
        apply StrFacts.cut_prefix_Some in Ec. rewrite lookup_insert_ne; [done|]. congruence.
    + destruct Hef as (Hpairs & Hhd & ->).
      rewrite !emitted_lookup, Hhd, Hpairs, puts_extras by (done || apply typed_pairs_nodup).
      case_decide; [|done]. subst k'. by rewrite Hh.
  - destruct (not_drbd_key k Hk) as (_ & _ & ->).
    rewrite !emitted_lookup, puts_extras by (done || apply typed_pairs_nodup).
    case_decide; [|done]. subst k'. by rewrite Hh.
Qed.

Lemma split_emitted props k :
  emitted (map_fold split_key (zero_options, ∅) props) !! k = props !! k ≫= norm k.
Proof.
  revert k. apply (map_fold_weak_ind (fun r m => forall k, emitted r !! k = m !! k ≫= norm k)).
  - intros k. rewrite lookup_empty. cbn [mbind option_bind]. rewrite emitted_lookup. cbn [o_Handlers zero_options].
    assert (forall x : option string, x ≫= ((∅ : gmap string string) !!.) = None) as ->.
    { intros [n|]; cbn; [apply lookup_empty|done]. }
    reflexivity.
  - intros k0 v m r Hk0 IH k. rewrite split_key_emitted by (by rewrite IH, Hk0).
    case_decide as E; [subst; by rewrite lookup_insert_eq|]. rewrite lookup_insert_ne by done. apply IH.
Qed.

Lemma isEmpty_zero o : isEmptyDRBDOptions o = true -> o = zero_options.
Proof.
  destruct o as [[] [] [] [] h]; cbn; try done. intros ->%bool_decide_eq_true. done.
Qed.

Lemma transcode_lookup props k :
  typedToProps (propsToTyped props).1 (propsToTyped props).2 !! k = props !! k ≫= norm k.
Proof.
  unfold propsToTyped. pose proof (split_emitted props k) as H.
  destruct (map_fold split_key _ props) as [o e]. cbn [fst snd]. unfold emitted in H; cbn [fst snd] in H.
  destruct (isEmptyDRBDOptions o) eqn:Ez; [|done]. apply isEmpty_zero in Ez. subst o. done.
Qed.

Lemma norm_idem k v w : norm k v = Some w -> norm k w = Some w.
Proof.
  unfold norm. case_bool_decide as H1.
  { unfold str_val. case_bool_decide; [done|]. intros [= <-]. by rewrite bool_decide_eq_false_2. }
  case_bool_decide as H2.
  { intros [= <-]. destruct (parse_int 32 v) as [z|] eqn:E; [|by rewrite E].
    rewrite parse_int_format; [done|]. by apply parse_int_range in E. }
  case_bool_decide as H3; [|congruence]. intros [= <-].
  destruct (parseBool v) as [[]|] eqn:E; [reflexivity|reflexivity|by rewrite E].
Qed.

(** C38: Storing a property bag as typed options and leftovers and reading it back gives the same bag, key by
    key, up to normalisation: typed booleans and numbers come back in canonical form, an empty value of a
    typed string option is dropped, and every other entry (unknown DRBD keys, unparsable values, handlers,
    foreign keys) comes back as it was. A second trip changes nothing. *)
Theorem transcode_roundtrip props :
  let trip p := mergeProps (sc_Props (SplitProps p))
                  (typedToProps (sc_Typed (SplitProps p)) (sc_Extras (SplitProps p))) in
  (forall k, trip props !! k = props !! k ≫= norm k)
  /\ (forall k v, props !! k = Some v -> (k ∉ string_keys ++ int_keys ++ bool_keys) ->
        trip props !! k = Some v)
  /\ trip (trip props) = trip props.
Proof.
  cbn zeta. unfold mergeProps, SplitProps. cbn [sc_Props sc_Typed sc_Extras].
  assert (forall p k, (typedToProps (propsToTyped p).1 (propsToTyped p).2 ∪ stripDRBDProps p) !! k
    = p !! k ≫= norm k) as Ht.
  { intros p k. rewrite lookup_union, transcode_lookup. unfold stripDRBDProps. rewrite map_lookup_filter.
    destruct (p !! k) as [v|]; [|done]. cbn. destruct (norm k v) as [w|] eqn:En; cbn.
    { by destruct (guard _). }
    destruct (Str.has_prefix propsKVPrefix k) eqn:Ek; [done|].
    destruct (not_drbd_key k Ek) as (_ & _ & E). congruence. }
  split; [apply Ht|]. split.
  - intros k v Hk Hn. rewrite Ht, Hk. cbn. rewrite !not_elem_of_app in Hn. destruct Hn as (H1 & H2 & H3).
    by apply norm_kept.
  - apply map_eq. intros k. rewrite Ht, Ht. destruct (props !! k) as [v|]; [|done]. cbn.
    destruct (norm k v) as [w|] eqn:En; [|done]. cbn. by apply (norm_idem k v).
Qed.

(** ** Precedence *)

(** The first value that is there. *)
Fixpoint first_of (l : list (option string)) : option string :=
  match l with
  | [] => None
  | Some v :: _ => Some v
  | None :: rest => first_of rest
  end.

Definition tiebreaker_key : string := "DrbdOptions/AutoAddQuorumTiebreaker".

Lemma first_of_cons o l : first_of (o :: l) = o ∪ first_of l.
Proof. destruct o; cbn; [by destruct (first_of l)|by destruct (first_of l)]. Qed.

Lemma ResolveOptions_lookup c g d r k :
  ResolveOptions c g d r !! k
  = if is_drbd k then first_of [r !! k; d !! k; g !! k; c !! k] else r !! k.
Proof.
  unfold ResolveOptions. cbn [foldl]. rewrite !lookup_union, !map_lookup_filter, lookup_empty.
  cbn [fst]. destruct (is_drbd k);
    destruct (r !! k), (d !! k), (g !! k), (c !! k); reflexivity.
Qed.

Lemma puts_union out l : foldl put out l = foldl put ∅ l ∪ out.
Proof.
  induction l as [|[k v] l IH] using rev_ind; [cbn; by rewrite map_empty_union|].
  rewrite !foldl_app. cbn [foldl]. rewrite IH. destruct v as [v|]; [|done]. cbn.
  by rewrite insert_union_l.
Qed.

Lemma scope_lookup typed extras k :
  k <> tiebreaker_key -> emitScopeProps typed extras !! k = typedToProps typed extras !! k.
Proof.
  intros Hk. unfold emitScopeProps. destruct typed as [o|]; [|cbn; by rewrite map_empty_union].
  rewrite lookup_union, emit_wire_pairs, typedToProps_pairs, !handlers_lookup.
  unfold typed_pairs. rewrite foldl_app. cbn [foldl].
  rewrite put_lookup_ne by (cbn; by apply not_eq_sym). rewrite (puts_union extras), lookup_union.
  destruct (Str.cut_prefix handlersPrefix k) as [n|]; [|done].
  destruct (o_Handlers o !! n); [|done]. by destruct (extras !! k).
Qed.

(** The merged properties of a stored scope read as the normalised bag. *)
Lemma stored_scope_lookup p k :
  k <> tiebreaker_key ->
  mergeScopeProps (emitScopeProps (sc_Typed (SplitProps p)) (sc_Extras (SplitProps p)))
    (sc_Props (SplitProps p)) !! k = p !! k ≫= norm k.
Proof.
  intros Hk. unfold mergeScopeProps. rewrite lookup_union, scope_lookup by done.
  unfold SplitProps. cbn [sc_Typed sc_Extras sc_Props]. rewrite transcode_lookup.
  unfold stripDRBDProps. rewrite map_lookup_filter.
  destruct (p !! k) as [v|]; [|done]. cbn. destruct (norm k v) as [w|] eqn:En.
  - by destruct (guard _).
  - destruct (Str.has_prefix propsKVPrefix k) eqn:Ek; [done|].
    destruct (not_drbd_key k Ek) as (_ & _ & E). congruence.
Qed.

(** Leftovers hold every foreign property. *)
Lemma extras_foreign p k :
  is_drbd k = false -> (propsToTyped p).2 !! k = p !! k.
Proof.
  intros Hk. destruct (not_drbd_key k Hk) as (Hp & Hh & Hn).
  pose proof (transcode_lookup p k) as H.
  assert (forall t e, typedToProps t e !! k = e !! k) as Hskip.
  { intros [o|] e; [|done]. rewrite typedToProps_pairs, handlers_lookup, Hh.
    by apply puts_lookup_other. }
  rewrite Hskip in H. rewrite H. destruct (p !! k) as [v|]; [|done]. cbn. apply Hn.
Qed.

Lemma default_split g : default empty_scope (SplitProps <$> g) = SplitProps (default ∅ g).
Proof. by destruct g. Qed.

Section Effective.
Context {E : Type} (getGroup : string -> result E (option scopeInfo)).
Context (c g : option (gmap string string)) (d r : gmap string string) (group : string).
Hypothesis Hgroup : group <> "".
Hypothesis Hget : getGroup (Name group) = Ok (SplitProps <$> g).

(** The effective properties of a replica whose scopes are stored from flat bags; the
    controller keeps its bag raw. *)
Lemma effective_lookup :
  exists out,
    Resolve (Ok (mkScope ∅ None <$> c)) getGroup (Some (SplitProps r)) (Some (mkRd (SplitProps d) group))
    = Ok out
    /\ forall k, k <> tiebreaker_key ->
       out !! k = if is_drbd k
                  then first_of [r !! k ≫= norm k; d !! k ≫= norm k; default ∅ g !! k ≫= norm k;
                                 default ∅ c !! k]
                  else first_of [d !! k; default ∅ g !! k; r !! k].
Proof using Hgroup Hget.
  unfold Resolve, scopeInputs. cbn [rdo_group rdo_scope].
  rewrite bool_decide_eq_false_2, Hget by done.
  set (rg := default empty_scope (SplitProps <$> g)).
  exists (overlayNonDRBDExtras (overlayNonDRBDExtras (ResolveOptions (default ∅ c)
    (mergeScopeProps (emitScopeProps (sc_Typed rg) (sc_Extras rg)) (sc_Props rg))
    (mergeScopeProps (emitScopeProps (sc_Typed (SplitProps d)) (sc_Extras (SplitProps d)))
       (sc_Props (SplitProps d)))
    (mergeScopeProps (emitScopeProps (sc_Typed (SplitProps r)) (sc_Extras (SplitProps r)))
       (sc_Props (SplitProps r)))) (sc_Extras rg)) (sc_Extras (SplitProps d))).
  split.
  { unfold rg. destruct g as [g'|], c as [c'|]; cbn [fmap option_fmap option_map default from_option id];
      repeat f_equal; unfold mergeScopeProps, emitScopeProps; cbn;
      by rewrite ?map_empty_union, ?map_union_empty. }
  intros k Hk. unfold rg. rewrite default_split.
  unfold overlayNonDRBDExtras. rewrite !lookup_union, !map_lookup_filter, ResolveOptions_lookup.
  rewrite !stored_scope_lookup by done.
  assert (forall x : option string, (x ≫= fun y => guard (is_drbd k = false) ≫= fun _ => Some y)
    = if is_drbd k then None else x) as Hg.
  { intros [y|]; cbn; by destruct (is_drbd k). }
  cbn [fst]. rewrite !Hg. destruct (is_drbd k) eqn:Ek.
  - by rewrite !(left_id_L None (∪)).
  - unfold SplitProps; cbn [sc_Extras]. rewrite !extras_foreign by done.
    destruct (not_drbd_key k Ek) as (_ & _ & Hn).
    destruct (d !! k), (default ∅ g !! k), (r !! k) as [v|]; cbn; rewrite ?Ek, ?Hn; done.
Qed.

End Effective.

(** The effective DRBD options of a replica follow the hierarchy: for every
    [DrbdOptions/] key (the auto-tiebreaker toggle apart, which only the controller reads)
    the value is the first one set on the resource, then the definition, then the group,
    then the controller, whether a scope stored it typed or as a leftover. A missing
    controller configuration or group counts as an empty one, and the resolution succeeds. *)
Theorem Resolve_closest_wins {E : Type} (getGroup : string -> result E (option scopeInfo))
    (c g : option (gmap string string)) (d r : gmap string string) (group : string) :
  group <> "" -> getGroup (Name group) = Ok (SplitProps <$> g) ->
  exists out,
    Resolve (Ok (mkScope ∅ None <$> c)) getGroup (Some (SplitProps r)) (Some (mkRd (SplitProps d) group))
    = Ok out
    /\ forall k, is_drbd k = true -> k <> tiebreaker_key ->
       out !! k = first_of [r !! k ≫= norm k; d !! k ≫= norm k; default ∅ g !! k ≫= norm k;
                            default ∅ c !! k].
Proof.
  intros Hg Hget. destruct (effective_lookup getGroup c g d r group Hg Hget) as (out & Ho & Hl).
  exists out. split; [done|]. intros k Hk Hn. by rewrite Hl, Hk.
Qed.

(** Outside the [DrbdOptions/] name space the hierarchy is inverted: the leftovers of
    the definition are laid over the result last and the group's before them, so a value
    the definition or the group sets replaces the one set on the resource itself. Nothing
    of the controller's foreign properties reaches the replica. *)
Theorem Resolve_definition_shadows_resource {E : Type}
    (getGroup : string -> result E (option scopeInfo))
    (c g : option (gmap string string)) (d r : gmap string string) (group : string) :
  group <> "" -> getGroup (Name group) = Ok (SplitProps <$> g) ->
  exists out,
    Resolve (Ok (mkScope ∅ None <$> c)) getGroup (Some (SplitProps r)) (Some (mkRd (SplitProps d) group))
    = Ok out
    /\ forall k, is_drbd k = false -> out !! k = first_of [d !! k; default ∅ g !! k; r !! k].
Proof.
  intros Hg Hget. destruct (effective_lookup getGroup c g d r group Hg Hget) as (out & Ho & Hl).
  exists out. split; [done|]. intros k Hk. rewrite Hl, Hk; [done|]. intros ->. discriminate Hk.
Qed.

(** ** Witnesses *)

Definition demo_group : gmap string string :=
  {[ "DrbdOptions/Net/protocol" := "A"; "StorPoolName" := "pool-b" ]}.
Definition demo_resource : gmap string string :=
  {[ "DrbdOptions/Net/max-buffers" := "08000"; "StorPoolName" := "pool-a" ]}.

Lemma Resolve_closest_wins_witness :
  exists out,
    Resolve (E := string) (Ok None) (fun _ => Ok (Some (SplitProps demo_group)))
      (Some (SplitProps demo_resource)) (Some (mkRd (SplitProps ∅) "rg")) = Ok out
    /\ out !! "DrbdOptions/Net/protocol" = Some "A" /\ out !! "DrbdOptions/Net/max-buffers" = Some "8000".
Proof.
  destruct (Resolve_closest_wins (E := string) (fun _ => Ok (Some (SplitProps demo_group)))
    None (Some demo_group) ∅ demo_resource "rg") as (out & Ho & Hl); [discriminate|reflexivity|].
  exists out. split; [exact Ho|]. split; rewrite Hl by done; vm_compute; reflexivity.
Defined.

Lemma Resolve_definition_shadows_resource_witness :
  exists out,
    Resolve (E := string) (Ok None) (fun _ => Ok (Some (SplitProps demo_group)))
      (Some (SplitProps demo_resource)) (Some (mkRd (SplitProps ∅) "rg")) = Ok out
    /\ demo_resource !! "StorPoolName" = Some "pool-a" /\ out !! "StorPoolName" = Some "pool-b".
Proof.
  destruct (Resolve_definition_shadows_resource (E := string) (fun _ => Ok (Some (SplitProps demo_group)))
    None (Some demo_group) ∅ demo_resource "rg") as (out & Ho & Hl); [discriminate|reflexivity|].
  exists out. split; [exact Ho|]. split; [reflexivity|]. rewrite Hl by done. vm_compute. reflexivity.
Defined.

(** ** The typed hierarchy against the untyped one *)

Lemma mergeHandlers_lookup o src n :
  o_Handlers (mergeHandlers o src) !! n
  = match src !! n with Some s => str_val s | None => o_Handlers o !! n end.
Proof.
  unfold mergeHandlers. case_bool_decide as He; [subst; by rewrite lookup_empty|]. cbn [o_Handlers with_Handlers].
  apply (map_fold_weak_ind (fun r m => r !! n
    = match m !! n with Some s => str_val s | None => o_Handlers o !! n end)).
  - by rewrite lookup_empty.
  - intros i x m r Hi IH. destruct (decide (i = n)) as [->|Hne].
    + rewrite lookup_insert_eq. unfold str_val. case_bool_decide; [apply lookup_delete_eq|apply lookup_insert_eq].
    + rewrite lookup_insert_ne by done. rewrite <- IH.
      case_bool_decide; [by apply lookup_delete_ne|by apply lookup_insert_ne].
Qed.

Lemma merge_scope_handlers o s :
  o_Handlers (merge_scope o (Some s)) = o_Handlers (mergeHandlers o (o_Handlers s)).
Proof.
  apply map_eq. intros n. unfold merge_scope. rewrite !mergeHandlers_lookup.
  destruct s as [[] [] [] [] h]; reflexivity.
Qed.

Lemma over_str_val s o : str_val (over_str s o) = over_opt (str_val s) (str_val o).
Proof. unfold over_str, str_val. repeat case_bool_decide; simplify_eq; done. Qed.
Lemma over_fmap {A} (f : A -> string) s o : f <$> over_opt s o = over_opt (f <$> s) (f <$> o).
Proof. by destruct s, o. Qed.

Lemma merge_scope_pairs o s :
  wire_pairs (merge_scope o (Some s))
  = zip_with (fun a b => (a.1, over_opt a.2 b.2)) (wire_pairs s) (wire_pairs o).
Proof.
  assert (wire_pairs (merge_scope o (Some s)) = wire_pairs (mergeResource (mergePeerDevice
    (mergeDisk (mergeNet o (o_Net s)) (o_Disk s)) (o_PeerDevice s)) (o_Resource s))) as ->.
  { unfold merge_scope, mergeHandlers. by case_bool_decide. }
  destruct o as [on od op orr oh], s as [[] [] [] [] sh];
    unfold wire_pairs, net_pairs, disk_pairs, peer_pairs, resource_pairs; cbn;
    rewrite ?over_str_val, ?over_fmap; reflexivity.
Qed.

Lemma wire_pairs_keys o o' : (wire_pairs o).*1 = (wire_pairs o').*1.
Proof. reflexivity. Qed.
Lemma wire_pairs_nodup o : NoDup (wire_pairs o).*1.
Proof. apply (bool_decide_eq_true_1 _). vm_compute. reflexivity. Qed.

(** A typed value is never rendered as the empty string. *)
Lemma wire_pairs_nonempty o i k v : wire_pairs o !! i = Some (k, Some v) -> str_val v = Some v.
Proof.
  assert (forall s, str_val s = Some v -> str_val v = Some v) as Hs.
  { intros s. unfold str_val at 1. case_bool_decide; [done|]. intros [= ->]. unfold str_val. by case_bool_decide. }
  assert (forall z : option Z, format_int <$> z = Some v -> str_val v = Some v) as Hz.
  { intros [z|]; [|done]. intros [= <-]. destruct (LaxInt32.format_int_head z) as (c & s & -> & _). reflexivity. }
  assert (forall b, formatBool <$> b = Some v -> str_val v = Some v) as Hb.
  { intros [[]|]; [intros [= <-]; reflexivity..|done]. }
  intros H. unfold wire_pairs, net_pairs, disk_pairs, peer_pairs, resource_pairs in H. cbn [app] in H.
  repeat (destruct i as [|i]; [cbn in H; injection H as _ H; eauto|]). cbn in H. by destruct i.
Qed.

Lemma emit_lookup o k :
  TypedDRBDOptionsToProps (Some o) !! k
  = match Str.cut_prefix handlersPrefix k with
    | Some n => o_Handlers o !! n
    | None => foldl put ∅ (wire_pairs o) !! k
    end.
Proof.
  rewrite emit_wire_pairs, handlers_lookup. destruct (Str.cut_prefix handlersPrefix k) as [n|] eqn:E; [|done].
  destruct (o_Handlers o !! n); [done|]. apply StrFacts.cut_prefix_Some in E. subst k.
  rewrite puts_lookup_other; [apply lookup_empty|]. rewrite (wire_pairs_keys o zero_options).
  intros H. key_absurd H.
Qed.

Lemma emit_foreign s k : is_drbd k = false -> TypedDRBDOptionsToProps s !! k = None.
Proof.
  intros (Hp & Hh & _)%not_drbd_key. destruct s as [o|]; [|apply lookup_empty].
  rewrite emit_lookup, Hh, puts_lookup_other; [apply lookup_empty|].
  intros Hin. apply (Hp o). unfold typed_pairs. rewrite fmap_app. by apply elem_of_app; left.
Qed.

(** One scope laid over the accumulated options. *)
Lemma merge_scope_lookup o s k :
  TypedDRBDOptionsToProps (Some (merge_scope o s)) !! k
  = match TypedDRBDOptionsToProps s !! k with
    | Some v => str_val v
    | None => TypedDRBDOptionsToProps (Some o) !! k
    end.
Proof.
  destruct s as [s|]; [|done]. rewrite !emit_lookup.
  destruct (Str.cut_prefix handlersPrefix k) as [n|] eqn:E.
  { by rewrite merge_scope_handlers, mergeHandlers_lookup. }
  destruct (decide (k ∈ (wire_pairs s).*1)) as [Hin|Hout].
  - apply list_elem_of_fmap in Hin as ([k2 v] & -> & [i Hi]%list_elem_of_lookup). cbn [fst].
    assert (exists w, wire_pairs o !! i = Some (k2, w)) as [w Ho].
    { assert ((wire_pairs o).*1 !! i = Some k2) as H.
      { rewrite (wire_pairs_keys o s), list_lookup_fmap, Hi. done. }
      rewrite list_lookup_fmap in H. destruct (wire_pairs o !! i) as [[k3 w]|]; [|done].
      exists w. cbn in H. congruence. }
    assert (wire_pairs (merge_scope o (Some s)) !! i = Some (k2, over_opt v w)) as Hm.
    { rewrite merge_scope_pairs, lookup_zip_with, Hi, Ho. done. }
    rewrite !(puts_lookup ∅ _ i k2 _ (wire_pairs_nodup _) Hi),
      !(puts_lookup ∅ _ i k2 _ (wire_pairs_nodup _) Ho), !(puts_lookup ∅ _ i k2 _ (wire_pairs_nodup _) Hm).
    destruct v as [v|]; cbn [over_opt].
    { symmetry. by apply (wire_pairs_nonempty s i k2). }
    by rewrite (lookup_empty k2 : (∅ : gmap string string) !! k2 = None).
  - rewrite !puts_lookup_other by (by rewrite ?(wire_pairs_keys _ s)). by rewrite lookup_empty.
Qed.

(** The typed hierarchy is the untyped one: rendering the options merged field by
    field gives, for every key, what the flat resolver finds in the four rendered scopes
    (the first of resource, definition, group, controller that sets the key), except that
    an empty handler script at the closest scope removes the handler instead of setting
    it. No scope at all gives no options. *)
Theorem typed_precedence_agrees c g d r k :
  let E := TypedDRBDOptionsToProps in
  E (ResolveDRBDOptions c g d r) !! k = ResolveOptions (E c) (E g) (E d) (E r) !! k ≫= str_val
  /\ E (ResolveDRBDOptions c g d r) !! k = first_of [E r !! k; E d !! k; E g !! k; E c !! k] ≫= str_val
  /\ (ResolveDRBDOptions c g d r = None <-> c = None /\ g = None /\ d = None /\ r = None).
Proof.
  cbv zeta. set (E := TypedDRBDOptionsToProps).
  assert (E (ResolveDRBDOptions c g d r) = E (Some (foldl merge_scope zero_options [c; g; d; r]))) as ->.
  { unfold ResolveDRBDOptions. by destruct c, g, d, r. }
  assert (E (Some (foldl merge_scope zero_options [c; g; d; r])) !! k
    = first_of [E r !! k; E d !! k; E g !! k; E c !! k] ≫= str_val) as Hk.
  { cbn [foldl]. unfold E. rewrite !merge_scope_lookup.
    assert (TypedDRBDOptionsToProps (Some zero_options) = ∅) as -> by reflexivity.
    rewrite lookup_empty.
    do 4 (destruct (TypedDRBDOptionsToProps _ !! k); [done|]). done. }
  rewrite ResolveOptions_lookup, Hk. split; [|split; [done|]].
  - destruct (is_drbd k) eqn:Ek; [done|]. unfold E. by rewrite !emit_foreign.
  - unfold ResolveDRBDOptions. destruct c, g, d, r; cbn; naive_solver.
Qed.
