(* ===== verification/GoTime.v ===== *)
(** * RFC 3339 time stamps

    [time.Parse(time.RFC3339, s)] and [Time.Format(time.RFC3339)] on UTC times, as the
    deadline annotations of a resource definition use them. An instant is a number of
    nanoseconds since 1970-01-01T00:00:00Z. *)

From Stdlib Require Import Ascii.
From S2P Require Import Prelude.

Definition second : Z := 1000000000.

Definition digit (c : ascii) : Z := Z.of_nat (nat_of_ascii c) - 48.
Definition digit_char (d : Z) : ascii := ascii_of_nat (Z.to_nat (48 + d)).

(** ** The calendar *)

Definition is_leap (year : Z) : bool :=
  bool_decide (year `mod` 4 = 0) && (negb (bool_decide (year `mod` 100 = 0)) || bool_decide (year `mod` 400 = 0)).

(** [daysIn] *)
Definition days_in (month year : Z) : Z :=
  if bool_decide (month = 2) then (if is_leap year then 29 else 28)
  else if bool_decide (month ∈ [4; 6; 9; 11]) then 30 else 31.

(** Days since 1970-01-01 of a date of the proleptic Gregorian calendar: years start in
    March, so that the leap day is the last one. *)
Definition days_of_civil (year month day : Z) : Z :=
  let y := if bool_decide (month <= 2) then year - 1 else year in
  let m := (month + 9) `mod` 12 in
  365 * y + y `div` 4 - y `div` 100 + y `div` 400 + (153 * m + 2) `div` 5 + day - 1 - 719468.

(** ** Parsing *)

(** [getnum]: two digits, or one where [fixed] is not set. *)
Definition getnum (fixed : bool) (s : string) : option (Z * string) :=
  match s with
  | String a rest =>
      if Str.is_digit a then
        match rest with
        | String b rest' =>
            if Str.is_digit b then Some (digit a * 10 + digit b, rest')
            else if fixed then None else Some (digit a, rest)
        | EmptyString => if fixed then None else Some (digit a, rest)
        end
      else None
  | EmptyString => None
  end.

(** [skip] of a one-character prefix. *)
Definition skip (c : ascii) (s : string) : option string :=
  match s with
  | String a rest => if Ascii.eqb a c then Some rest else None
  | EmptyString => None
  end.

Definition get_year (s : string) : option (Z * string) :=
  match s with
  | String a (String b (String c (String d rest))) =>
      if Str.is_digit a && Str.is_digit b && Str.is_digit c && Str.is_digit d
      then Some (digit a * 1000 + digit b * 100 + digit c * 10 + digit d, rest) else None
  | _ => None
  end.

(** Digits of a fraction: the first nine count, [scale] is the weight of the next. *)
Fixpoint fraction (scale acc : Z) (s : string) : Z * string :=
  match s with
  | String c rest => if Str.is_digit c then fraction (scale `div` 10) (acc + digit c * scale) rest else (acc, s)
  | EmptyString => (acc, s)
  end.

(** The optional fraction after the seconds. *)
Definition get_fraction (s : string) : Z * string :=
  match s with
  | String p (String d rest) =>
      if (Ascii.eqb p "." || Ascii.eqb p ",") && Str.is_digit d then fraction 100000000 0 (String d rest)
      else (0, s)
  | _ => (0, s)
  end.

(** The zone, in seconds east of UTC. *)
Definition get_zone (s : string) : option (Z * string) :=
  match s with
  | String z rest =>
      if Ascii.eqb z "Z" then Some (0, rest)
      else
        match getnum true rest with
        | None => None
        | Some (hr, rest1) =>
            match skip ":" rest1 with
            | None => None
            | Some rest2 =>
                match getnum true rest2 with
                | None => None
                | Some (mm, rest3) =>
                    if bool_decide (24 < hr) || bool_decide (60 < mm) then None
                    else if Ascii.eqb z "+" then Some ((hr * 60 + mm) * 60, rest3)
                    else if Ascii.eqb z "-" then Some (- ((hr * 60 + mm) * 60), rest3)
                    else None
                end
            end
        end
  | EmptyString => None
  end.

(** A field followed by a separator. *)
Definition field (f : option (Z * string)) (sep : ascii) : option (Z * string) :=
  match f with
  | None => None
  | Some (n, s) => match skip sep s with None => None | Some s' => Some (n, s') end
  end.

Definition in_range (lo hi : Z) (n : Z) : bool := bool_decide (lo <= n <= hi).

Definition parse_rfc3339 (s : string) : option Z :=
  '(year, s) ← field (get_year s) "-";
  '(month, s) ← field (getnum true s) "-";
  '(day, s) ← field (getnum true s) "T";
  '(hour, s) ← field (getnum false s) ":";
  '(minute, s) ← field (getnum true s) ":";
  '(sec, s) ← getnum true s;
  let '(nsec, s) := get_fraction s in
  '(zone, s) ← get_zone s;
  if bool_decide (s = "") && in_range 1 12 month && in_range 1 (days_in month year) day
     && in_range 0 23 hour && in_range 0 59 minute && in_range 0 59 sec
  then Some ((days_of_civil year month day * 86400 + hour * 3600 + minute * 60 + sec - zone) * second + nsec)
  else None.

Example parse_epoch : parse_rfc3339 "1970-01-01T00:00:00Z" = Some 0.
Proof. vm_compute. reflexivity. Qed.
Example parse_offset : parse_rfc3339 "2026-03-01T01:30:00+02:00" = parse_rfc3339 "2026-02-28T23:30:00Z".
Proof. vm_compute. reflexivity. Qed.
Example parse_leap : parse_rfc3339 "2025-02-29T00:00:00Z" = None /\ is_Some (parse_rfc3339 "2024-02-29T00:00:00.5Z").
Proof. vm_compute. eauto. Qed.
Example parse_known : parse_rfc3339 "2000-03-01T00:00:00Z" = Some (951868800 * second).
Proof. vm_compute. reflexivity. Qed.

(** [time.Now().Before(deadline)] for a deadline kept as text: an absent, empty or
    unparsable one has passed. *)
Definition before_deadline (now : Z) (raw : option string) : bool :=
  match raw ≫= parse_rfc3339 with
  | Some deadline => bool_decide (now < deadline)
  | None => false
  end.

(** ** Formatting *)

(** The date of a day number, the inverse of [days_of_civil]. *)
Definition civil_of_era_day (doe : Z) : Z * Z * Z :=
  let yoe := (doe - doe `div` 1460 + doe `div` 36524 - doe `div` 146096) `div` 365 in
  let doy := doe - (365 * yoe + yoe `div` 4 - yoe `div` 100) in
  let mp := (5 * doy + 2) `div` 153 in
  let day := doy - (153 * mp + 2) `div` 5 + 1 in
  let month := if bool_decide (mp < 10) then mp + 3 else mp - 9 in
  (if bool_decide (month <= 2) then yoe + 1 else yoe, month, day).

Definition civil_of_days (z : Z) : Z * Z * Z :=
  let z := z + 719468 in
  let '(year, month, day) := civil_of_era_day (z `mod` 146097) in
  (year + 400 * (z `div` 146097), month, day).

Definition two_digits (n : Z) : string := String (digit_char (n `div` 10)) (String (digit_char (n `mod` 10)) "").
Definition four_digits (n : Z) : string := two_digits (n `div` 100) +:+ two_digits (n `mod` 100).

(** [t.UTC().Format(time.RFC3339)], for the years that take four digits. *)
Definition format_rfc3339 (t : Z) : string :=
  let secs := t `div` second in
  let '(year, month, day) := civil_of_days (secs `div` 86400) in
  let tod := secs `mod` 86400 in
  four_digits year +:+ "-" +:+ two_digits month +:+ "-" +:+ two_digits day +:+ "T"
  +:+ two_digits (tod `div` 3600) +:+ ":" +:+ two_digits (tod `mod` 3600 `div` 60) +:+ ":"
  +:+ two_digits (tod `mod` 60) +:+ "Z".

(** [t.UTC().Format(time.RFC3339Nano)]: the fraction without trailing zeros. *)
Fixpoint fraction_text (digits : nat) (n : Z) : string :=
  match digits with
  | O => ""
  | S k => if bool_decide (n = 0) then "" else String (digit_char (n `div` 10 ^ Z.of_nat k)) (fraction_text k (n `mod` 10 ^ Z.of_nat k))
  end.
Definition format_rfc3339nano (t : Z) : string :=
  let whole := format_rfc3339 t in
  if bool_decide (t `mod` second = 0) then whole
  else String.substring 0 (String.length whole - 1) whole +:+ "." +:+ fraction_text 9 (t `mod` second) +:+ "Z".
Example format_nano_known : format_rfc3339nano (951868800 * second + 5000000) = "2000-03-01T00:00:00.005Z".
Proof. vm_compute. reflexivity. Qed.

Example format_known : format_rfc3339 (951868800 * second + 999999999) = "2000-03-01T00:00:00Z".
Proof. vm_compute. reflexivity. Qed.

(** The years of an era start in March; [start y] is the first day of the [y]-th. *)
Definition start (y : Z) : Z := 365 * y + y `div` 4 - y `div` 100 + y `div` 400.
Definition year_of_day (doe : Z) : Z := (doe - doe `div` 1460 + doe `div` 36524 - doe `div` 146096) `div` 365.

(** A property of the integers of an interval, checked one by one. *)
Fixpoint check_from (f : Z -> bool) (n : nat) (z : Z) : bool :=
  match n with O => true | S n => f z && check_from f n (z + 1) end.

Lemma check_from_spec f n z d : check_from f n z = true -> z <= d < z + Z.of_nat n -> f d = true.
Proof.
  revert z. induction n as [|n IH]; intros z; cbn [check_from]; [lia|].
  intros [H Hn]%andb_true_iff ?. destruct (decide (d = z)) as [->|]; [done|]. apply (IH (z + 1)); [done|lia].
Qed.

Definition year_ok (y : Z) : bool :=
  (year_of_day (start y) =? y) && (year_of_day (start (y + 1) - 1) =? y)
  && (if is_leap (y + 1) then start (y + 1) =? start y + 366 else start (y + 1) =? start y + 365).

Definition day_ok (doy : Z) : bool :=
  let mp := (5 * doy + 2) `div` 153 in
  let day := doy - (153 * mp + 2) `div` 5 + 1 in
  let month := if bool_decide (mp < 10) then mp + 3 else mp - 9 in
  in_range 1 12 month && ((month + 9) `mod` 12 =? mp) && bool_decide (1 <= day)
  && bool_decide (day <= (if bool_decide (month = 2) then (if bool_decide (doy = 365) then 29 else 28) else days_in month 1)).

Lemma years_checked : check_from year_ok 400 0 = true.
Proof. vm_compute. reflexivity. Qed.
Lemma days_checked : check_from day_ok 366 0 = true.
Proof. vm_compute. reflexivity. Qed.

Lemma year_ok_spec y : 0 <= y < 400 ->
  year_of_day (start y) = y /\ year_of_day (start (y + 1) - 1) = y
  /\ start (y + 1) = start y + (if is_leap (y + 1) then 366 else 365).
Proof.
  intros Hy. pose proof (check_from_spec year_ok 400 0 y years_checked ltac:(lia)) as H. unfold year_ok in H.
  rewrite !andb_true_iff, !Z.eqb_eq in H. destruct H as [[-> ->] H]. destruct (is_leap (y + 1)); apply Z.eqb_eq in H; lia.
Qed.

Lemma year_of_day_step z : 0 <= z -> z + 1 <= 146096 -> year_of_day z <= year_of_day (z + 1).
Proof.
  intros H0 H1. unfold year_of_day. apply Z.div_le_mono; [lia|].
  assert ((z + 1) `div` 1460 <= z `div` 1460 + 1) by (Z.to_euclidean_division_equations; lia).
  assert (z `div` 36524 <= (z + 1) `div` 36524) by (apply Z.div_le_mono; lia).
  rewrite (Z.div_small z 146096) by lia. destruct (decide (z = 146095)) as [->|]; [by vm_compute|].
  rewrite (Z.div_small (z + 1) 146096) by lia. lia.
Qed.

Lemma year_of_day_mono a b : 0 <= a <= b -> b <= 146096 -> year_of_day a <= year_of_day b.
Proof.
  intros [Ha Hab] Hb. replace b with (a + Z.of_nat (Z.to_nat (b - a))) in * by lia.
  induction (Z.to_nat (b - a)) as [|n IH]; [replace (a + Z.of_nat 0) with a by lia; lia|].
  etrans; [apply IH; lia|]. replace (a + Z.of_nat (S n)) with (a + Z.of_nat n + 1) by lia. apply year_of_day_step; lia.
Qed.

Lemma day_in_some_year (n : nat) doe : (n <= 400)%nat -> 0 <= doe < start (Z.of_nat n) ->
  exists y, 0 <= y < Z.of_nat n /\ start y <= doe < start (y + 1).
Proof.
  induction n as [|n IH]; intros Hn Hd; [change (start (Z.of_nat 0)) with 0 in Hd; lia|].
  destruct (decide (doe < start (Z.of_nat n))) as [Hlt|Hge].
  - destruct IH as (y & Hy & H); [lia|lia|]. exists y. lia.
  - exists (Z.of_nat n). replace (Z.of_nat (S n)) with (Z.of_nat n + 1) in * by lia. lia.
Qed.

Lemma year_of_day_spec doe : 0 <= doe < 146097 ->
  0 <= year_of_day doe < 400 /\ start (year_of_day doe) <= doe < start (year_of_day doe + 1).
Proof.
  intros Hd. destruct (day_in_some_year 400 doe ltac:(lia)) as (y & Hy & Hs).
  { change (start (Z.of_nat 400)) with 146097. lia. }
  destruct (year_ok_spec y Hy) as (H1 & H2 & _).
  assert (0 <= start y /\ start (y + 1) <= 146097) by (unfold start; Z.to_euclidean_division_equations; lia).
  pose proof (year_of_day_mono (start y) doe ltac:(lia) ltac:(lia)).
  pose proof (year_of_day_mono doe (start (y + 1) - 1) ltac:(lia) ltac:(lia)).
  assert (year_of_day doe = y) as -> by lia. done.
Qed.
Lemma days_of_civil_era year month day k : days_of_civil (year + 400 * k) month day = days_of_civil year month day + 146097 * k.
Proof.
  unfold days_of_civil. case_bool_decide.
  - replace (year + 400 * k - 1) with ((year - 1) + k * 100 * 4) by lia. rewrite Z.div_add by lia.
    replace (year - 1 + k * 100 * 4) with ((year - 1) + k * 4 * 100) by lia. rewrite Z.div_add by lia.
    replace (year - 1 + k * 4 * 100) with ((year - 1) + k * 400) by lia. rewrite Z.div_add by lia. lia.
  - replace (year + 400 * k) with (year + k * 100 * 4) by lia. rewrite Z.div_add by lia.
    replace (year + k * 100 * 4) with (year + k * 4 * 100) by lia. rewrite Z.div_add by lia.
    replace (year + k * 4 * 100) with (year + k * 400) by lia. rewrite Z.div_add by lia. lia.
Qed.

Lemma days_in_era month year k : days_in month (year + 400 * k) = days_in month year.
Proof.
  unfold days_in, is_leap.
  replace ((year + 400 * k) `mod` 4) with (year `mod` 4) by (rewrite <- (Z_mod_plus_full year (100 * k) 4); f_equal; lia).
  replace ((year + 400 * k) `mod` 100) with (year `mod` 100) by (rewrite <- (Z_mod_plus_full year (4 * k) 100); f_equal; lia).
  replace ((year + 400 * k) `mod` 400) with (year `mod` 400) by (rewrite <- (Z_mod_plus_full year k 400); f_equal; lia).
  done.
Qed.

Lemma civil_of_era_day_spec doe year month day : 0 <= doe < 146097 -> civil_of_era_day doe = (year, month, day) ->
  days_of_civil year month day = doe - 719468 /\ in_range 1 12 month = true /\ in_range 1 (days_in month year) day = true.
Proof.
  intros Hdoe. unfold civil_of_era_day. fold (year_of_day doe). cbv zeta.
  destruct (year_of_day_spec doe Hdoe) as [Hy Hs]. set (yoe := year_of_day doe) in *.
  destruct (year_ok_spec yoe Hy) as (_ & _ & Hlen).
  assert (start yoe = 365 * yoe + yoe `div` 4 - yoe `div` 100) as Hst by (unfold start; rewrite (Z.div_small yoe 400); lia).
  rewrite <- Hst. set (doy := doe - start yoe).
  assert (0 <= doy <= 364 \/ doy = 365 /\ is_leap (yoe + 1) = true) as Hdoy by (subst doy; destruct (is_leap (yoe + 1)); lia).
  pose proof (check_from_spec day_ok 366 0 doy days_checked ltac:(lia)) as H. unfold day_ok in H.
  set (mp := (5 * doy + 2) `div` 153) in *. set (d := doy - (153 * mp + 2) `div` 5 + 1) in *.
  set (m := if bool_decide (mp < 10) then mp + 3 else mp - 9) in *. clearbody m.
  rewrite !andb_true_iff, Z.eqb_eq, !bool_decide_eq_true in H. destruct H as (((Hm & Hmp) & Hd1) & Hd2).
  intros [= <- <- <-]. unfold days_of_civil. rewrite Hmp. split_and!; [|done|].
  - replace (if bool_decide (m <= 2) then (if bool_decide (m <= 2) then yoe + 1 else yoe) - 1 else if bool_decide (m <= 2) then yoe + 1 else yoe)
      with yoe by (destruct (bool_decide (m <= 2)); lia).
    rewrite (Z.div_small yoe 400) by lia. subst d doy. lia.
  - unfold in_range. apply bool_decide_eq_true. split; [done|]. etrans; [apply Hd2|].
    unfold days_in. destruct (decide (m = 2)) as [->|Hne].
    + rewrite !(bool_decide_eq_true_2 (2 = 2)) by done. rewrite (bool_decide_eq_true_2 (2 <= 2)) by done.
      destruct Hdoy as [?|[-> ->]]; [|by vm_compute]. rewrite (bool_decide_eq_false_2 (doy = 365)) by lia. destruct (is_leap _); lia.
    + rewrite !(bool_decide_eq_false_2 (m = 2)) by done. done.
Qed.

Lemma civil_of_days_spec z year month day :
  civil_of_days z = (year, month, day) ->
  days_of_civil year month day = z /\ in_range 1 12 month = true /\ in_range 1 (days_in month year) day = true.
Proof.
  unfold civil_of_days. set (w := z + 719468). pose proof (Z.mod_pos_bound w 146097 ltac:(lia)) as Hb.
  destruct (civil_of_era_day (w `mod` 146097)) as [[y m] d] eqn:E. intros [= <- -> ->].
  destruct (civil_of_era_day_spec _ _ _ _ Hb E) as (He & Hm & Hd). rewrite days_of_civil_era, days_in_era, He.
  split_and!; [|done|done]. pose proof (Z.div_mod w 146097 ltac:(lia)). lia.
Qed.

Lemma digit_digit_char d : 0 <= d <= 9 -> digit (digit_char d) = d /\ Str.is_digit (digit_char d) = true.
Proof.
  intros H. assert (d ∈ [0;1;2;3;4;5;6;7;8;9]) as Hd by (rewrite !elem_of_cons; lia).
  rewrite !elem_of_cons in Hd. repeat destruct Hd as [->|Hd]; [vm_compute; auto..|by apply elem_of_nil in Hd].
Qed.

Lemma two_digits_parts n : 0 <= n <= 99 ->
  n = n `div` 10 * 10 + n `mod` 10
  /\ (digit (digit_char (n `div` 10)) = n `div` 10 /\ Str.is_digit (digit_char (n `div` 10)) = true)
  /\ (digit (digit_char (n `mod` 10)) = n `mod` 10 /\ Str.is_digit (digit_char (n `mod` 10)) = true).
Proof.
  intros Hn. pose proof (Z.div_mod n 10 ltac:(lia)). pose proof (Z.mod_pos_bound n 10 ltac:(lia)).
  split_and!; [lia|apply digit_digit_char; lia|apply digit_digit_char; lia|apply digit_digit_char; lia|apply digit_digit_char; lia].
Qed.

Lemma getnum_two_digits fixed n rest : 0 <= n <= 99 -> getnum fixed (two_digits n +:+ rest) = Some (n, rest).
Proof.
  intros Hn. unfold two_digits. rewrite !StrFacts.app_cons. cbn [getnum].
  destruct (two_digits_parts n) as (Hn' & (H1 & ->) & (H2 & ->)); [done|].
  rewrite H1, H2. do 2 f_equal. lia.
Qed.

Lemma get_year_four_digits n rest : 0 <= n <= 9999 -> get_year (four_digits n +:+ rest) = Some (n, rest).
Proof.
  intros Hn. unfold four_digits. rewrite StrFacts.app_assoc.
  change (get_year (String (digit_char (n `div` 100 `div` 10)) (String (digit_char (n `div` 100 `mod` 10))
    (String (digit_char (n `mod` 100 `div` 10)) (String (digit_char (n `mod` 100 `mod` 10)) rest)))) = Some (n, rest)).
  cbn [get_year].
  pose proof (Z.div_mod n 100 ltac:(lia)) as E. pose proof (Z.mod_pos_bound n 100 ltac:(lia)).
  set (a := n `div` 100) in *. set (b := n `mod` 100) in *.
  assert (0 <= a <= 99) by lia. assert (0 <= b <= 99) by lia.
  destruct (two_digits_parts a) as (Ha & (D1 & ->) & (D2 & ->)); [done|].
  destruct (two_digits_parts b) as (Hb & (D3 & ->) & (D4 & ->)); [done|].
  rewrite D1, D2, D3, D4. cbn. do 2 f_equal. lia.
Qed.

Lemma time_of_day tod : 0 <= tod < 86400 ->
  0 <= tod `div` 3600 <= 23 /\ 0 <= tod `mod` 3600 `div` 60 <= 59 /\ 0 <= tod `mod` 60 <= 59
  /\ tod = tod `div` 3600 * 3600 + tod `mod` 3600 `div` 60 * 60 + tod `mod` 60.
Proof.
  intros H. pose proof (Z.div_mod tod 3600 ltac:(lia)). pose proof (Z.mod_pos_bound tod 3600 ltac:(lia)).
  pose proof (Z.div_mod (tod `mod` 3600) 60 ltac:(lia)). pose proof (Z.mod_pos_bound (tod `mod` 3600) 60 ltac:(lia)).
  assert (tod `mod` 60 = tod `mod` 3600 `mod` 60) as E by (rewrite <- (Znumtheory.Zmod_div_mod 60 3600 tod); [done|lia|lia|by exists 60]).
  rewrite E. lia.
Qed.

Definition four_digit_year (t : Z) : Prop := 0 <= (civil_of_days (t `div` second `div` 86400)).1.1 <= 9999.

Lemma field_sep n c s : field (Some (n, String c "" +:+ s)) c = Some (n, s).
Proof. unfold field. change (String c "" +:+ s) with (String c s). cbn [skip]. by rewrite Ascii.eqb_refl. Qed.

(** What is formatted is parsed as the same instant, to the second. *)
Lemma parse_format_rfc3339 t : four_digit_year t -> parse_rfc3339 (format_rfc3339 t) = Some (t `div` second * second).
Proof.
  unfold four_digit_year, format_rfc3339. set (secs := t `div` second).
  destruct (civil_of_days (secs `div` 86400)) as [[year month] day] eqn:E. cbn [fst]. intros Hy.
  destruct (civil_of_days_spec _ _ _ _ E) as (Hd & Hm & Hday).
  assert (1 <= month <= 12) as Hm' by by apply bool_decide_eq_true in Hm.
  assert (1 <= day <= 31) as Hday'.
  { apply bool_decide_eq_true in Hday. unfold days_in in Hday. repeat case_match; lia. }
  pose proof (Z.mod_pos_bound secs 86400 ltac:(lia)) as Htod. set (tod := secs `mod` 86400) in *.
  destruct (time_of_day tod Htod) as (Hh & Hmi & Hs & Htd).
  unfold parse_rfc3339. rewrite get_year_four_digits, field_sep by done. cbn [mbind option_bind].
  do 4 (rewrite getnum_two_digits, field_sep by lia; cbn [mbind option_bind]).
  rewrite getnum_two_digits by lia. cbn [mbind option_bind].
  change (get_fraction "Z") with (0, "Z"). cbn iota beta. change (get_zone "Z") with (Some (0, "")). cbn [mbind option_bind].
  rewrite Hm, Hday, (bool_decide_eq_true_2 ("" = "")) by done. unfold in_range. rewrite !bool_decide_eq_true_2 by lia.
  cbn [andb]. rewrite Hd.
  rewrite Z.sub_0_r, Z.add_0_r. do 2 f_equal. pose proof (Z.div_mod secs 86400 ltac:(lia)). lia.
Qed.
