(* ===== verification/Tiebreaker.v ===== *)
(** * The tie-breaker and quorum controller

    Models the witness pass of [internal/controller/resourcedefinition_controller.go]:
    [ensureTiebreaker] lists the replicas of a definition, drops the stranded ones, decides
    whether a diskless witness should exist, creates or removes it, and stamps the DRBD
    quorum policy on the definition.

    The store is any [StoreOps] with the two extra calls of [WitnessOps]. The direct API
    reader is optional, as in the code; where it is absent the reconciler reads the store.
    The clock is an argument, and the answers of the API server to the writes of the
    definition are functions of the attempt. *)

From Stdlib Require Import Ascii.
From S2P Require Import Prelude Api Store GoFloat GoTime CrdName DrbdOptions.

Definition NodeTypeSatellite : string := "SATELLITE".
Definition NodeTypeCombined : string := "COMBINED".
Definition AutoTiebreakerSuppressedUntilAnnotation : string := "blockstor.io/auto-tiebreaker-suppressed-until".
Definition KeepTiebreakerUntilAnnotation : string := "blockstor.io/keep-tiebreaker-until".

(** ** The definition object *)

Record RdObject := mkRdObject {
  rdo_Name : string;
  rdo_Deleting : bool;  (* DeletionTimestamp is set *)
  rdo_Annotations : gmap string string;
  rdo_LayerStack : list string;
  rdo_ResourceGroupName : string;
  rdo_Spec : scopeInfo;  (* Spec.Props, Spec.DRBDOptions, Spec.ExtraProps *)
  rdo_Initialized : option bool;
  rdo_VolumeDefinitions : list (Z * Z);  (* VolumeNumber, SizeKib *)
}.

Definition with_rdo_Spec (rd : RdObject) (spec : scopeInfo) : RdObject :=
  mkRdObject (rdo_Name rd) (rdo_Deleting rd) (rdo_Annotations rd) (rdo_LayerStack rd)
    (rdo_ResourceGroupName rd) spec (rdo_Initialized rd) (rdo_VolumeDefinitions rd).

(** Objects the direct API reader returns. *)
Record CrdReplica := mkCrdReplica {
  crr_ResourceDefinitionName : string;
  crr_NodeName : string;
  crr_Flags : list string;
}.

Record CrdNode := mkCrdNode {
  crn_Name : string;
  crn_Annotations : gmap string string;
  crn_SpecFlags : list string;
  crn_SpecProps : gmap string string;
  crn_StatusFlags : list string;
}.

(** ** Properties of the definition *)

Definition isAutoTieBreakerEnabled (rd : RdObject) : bool :=
  match (sc_Typed (rdo_Spec rd) ≫= o_Resource) ≫= AutoTieBreaker with
  | Some b => b
  | None =>
      match sc_Props (rdo_Spec rd) !! "DrbdOptions/AutoAddQuorumTiebreaker" with
      | None => true
      | Some value => negb (Str.equal_fold value "false")
      end
  end.

Definition rdPropFromBags (rd : RdObject) (key : string) : string :=
  match sc_Props (rdo_Spec rd) !! key with
  | Some v => v
  | None => default "" (sc_Extras (rdo_Spec rd) !! key)
  end.

Definition isAutoQuorumDisabled (rd : RdObject) : bool :=
  let value := rdPropFromBags rd "DrbdOptions/auto-quorum" in
  let value := if bool_decide (value = "") then rdPropFromBags rd "DrbdOptions/AutoQuorum" else value in
  Str.equal_fold value "disabled".

Definition isTiebreakerSuppressed (now : Z) (rd : RdObject) : bool :=
  before_deadline now (rdo_Annotations rd !! AutoTiebreakerSuppressedUntilAnnotation).

Definition isKeepTiebreakerActive (now : Z) (rd : RdObject) : bool :=
  before_deadline now (rdo_Annotations rd !! KeepTiebreakerUntilAnnotation).

(** ** The decision *)

Definition witnessUnnecessaryDiskfulCount : Z := 3.

Definition shouldKeepExistingWitness (diskful _nonWitness unnecessary : Z) : bool :=
  if bool_decide (unnecessary <= diskful) then false else bool_decide (diskful = 2).

Definition keepExistingWitnessFor (now : Z) (rd : RdObject) (diskful witness : list Resource)
    (nonWitnessDiskless unnecessary : Z) : bool :=
  if bool_decide (witness = []) then false
  else if bool_decide (1 <= length diskful)%nat && isKeepTiebreakerActive now rd then true
  else shouldKeepExistingWitness (Z.of_nat (length diskful)) nonWitnessDiskless unnecessary.

Definition shouldTieBreakerExist (now : Z) (rd : RdObject) (diskful diskless witness : list Resource)
    (hasInactive : bool) : bool :=
  if negb (isAutoTieBreakerEnabled rd) then false
  else
    let nd := Z.of_nat (length diskful) in
    let nonWitnessDiskless := Z.of_nat (length diskless) - Z.of_nat (length witness) in
    let wantNewWitness := negb (isTiebreakerSuppressed now rd) && bool_decide (2 <= nd)
      && bool_decide (nd `mod` 2 = 0) && bool_decide (nonWitnessDiskless = 0) in
    if hasInactive && bool_decide (witness <> []) && bool_decide (1 <= nd) then true
    else wantNewWitness
         || keepExistingWitnessFor now rd diskful witness nonWitnessDiskless witnessUnnecessaryDiskfulCount.

Definition has_flag (flag : string) (r : Resource) : bool := Contains (res_Flags r) flag.

Definition containsInactiveReplica (replicas : list Resource) : bool :=
  existsb (has_flag ResourceFlagInactive) replicas.
Definition filterActiveReplicas (replicas : list Resource) : list Resource :=
  filter (fun r => has_flag ResourceFlagInactive r = false) replicas.
Definition splitByDiskless (replicas : list Resource) : list Resource * list Resource :=
  (filter (fun r => has_flag ResourceFlagDiskless r = false) replicas,
   filter (fun r => has_flag ResourceFlagDiskless r = true) replicas).
Definition filterTieBreaker (diskless : list Resource) : list Resource :=
  filter (fun r => has_flag ResourceFlagTieBreaker r = true) diskless.

Definition QuorumPolicyMajority : string := "majority".
Definition QuorumPolicyOff : string := "off".

Definition quorumPolicy (diskful diskless : nat) : string :=
  if (bool_decide (diskful = 2%nat) && bool_decide (1 <= diskless)%nat) || bool_decide (3 <= diskful)%nat
  then QuorumPolicyMajority else QuorumPolicyOff.

(** ** Nodes *)

Definition isDisabledNode (node : Node) : bool :=
  existsb (fun f => bool_decide (f = NodeFlagEvicted) || bool_decide (f = NodeFlagLost)) (node_Flags node).

Definition isAutoplaceExcludedNode (node : Node) : bool :=
  match node_Props node !! PropAutoplaceTarget with
  | None => false
  | Some raw => match ParseBool raw with Some v => negb v | None => false end
  end.

Definition nodeHasDrainFlag (n : CrdNode) : bool :=
  existsb (fun f => bool_decide (f = NodeFlagEvicted) || bool_decide (f = NodeFlagLost)) (crn_SpecFlags n)
  || existsb (fun f => bool_decide (f = NodeFlagEvicted) || bool_decide (f = NodeFlagLost)) (crn_StatusFlags n).

Definition nodeCRDAutoplaceExcluded (n : CrdNode) : bool :=
  match crn_SpecProps n !! PropAutoplaceTarget with
  | None => false
  | Some raw => match ParseBool raw with Some v => negb v | None => false end
  end.

Definition nodeCRDMatchesWireName (n : CrdNode) (wireName : string) : bool :=
  Str.equal_fold (crn_Name n) wireName
  || match crn_Annotations n !! AnnotationLinstorName with
     | Some original => Str.equal_fold original wireName
     | None => false
     end.

Definition splitByDisabledNode (replicas : list Resource) (disabled : gset string)
    : list Resource * list Resource :=
  (filter (fun r => res_NodeName r ∉ disabled) replicas, filter (fun r => res_NodeName r ∈ disabled) replicas).

(** A node the witness may be placed on, the excluded ones apart. *)
Definition witness_candidate (n : Node) : bool :=
  negb (isDisabledNode n) && negb (isAutoplaceExcludedNode n)
  && (bool_decide (node_Type n = "") || bool_decide (node_Type n = NodeTypeSatellite)
      || bool_decide (node_Type n = NodeTypeCombined)).

Record nodeProbe := mkProbe { probe_found : bool; probe_drained : bool }.

Definition new_witness (rdName node : string) : Resource :=
  mkResource rdName node ∅ [ResourceFlagDiskless; ResourceFlagTieBreaker] zero_ResourceState "" None None
    false [] ∅ 0.

(** The wrapped "already exists" of the API server. *)
Definition alreadyExists (e : store_err) : bool :=
  match e with
  | ErrAlreadyExists => true
  | ErrOther msg => match String.index 0 "already exists" msg with Some _ => true | None => false end
  | _ => false
  end.

(** ** The reconciler *)

Class WitnessOps (S : Type) := {
  st_Nodes_Get : S -> string -> result store_err Node;
  st_Resources_DeleteIfTieBreaker : S -> string -> string -> result store_err bool * S;
}.

(** Direct reads of the API server: the replicas and nodes of the cluster, and whether
    the definition of a name is there and not being deleted. *)
Record APIReader (S : Type) := mkAPIReader {
  api_Resources : S -> result store_err (list CrdReplica);
  api_Nodes : S -> result store_err (list CrdNode);
  api_RD_live : S -> string -> bool;
}.
Arguments api_Resources {S} _ _.
Arguments api_Nodes {S} _ _.
Arguments api_RD_live {S} _ _ _.

Inductive api_err := Conflict | ApiOther.
Inductive reconcile_err := FromStore (e : store_err) | FromApi (e : api_err).

Section Reconciler.
Context {S : Type} {Ops : StoreOps S} {WOps : WitnessOps S}.
Context (reader : option (APIReader S)).
(** [Spec.SelectFilter.LayerStack] of the group of a CRD name. *)
Context (groupStack : string -> result store_err (list string)).
Context (now : Z).

Definition rdIsDeleting (rd : RdObject) : bool := rdo_Deleting rd.

Definition resolveRDLayerStack (rd : RdObject) : list string :=
  if bool_decide (rdo_LayerStack rd <> []) then rdo_LayerStack rd
  else if bool_decide (rdo_ResourceGroupName rd = "") then DefaultLayerStack
  else match groupStack (Name (rdo_ResourceGroupName rd)) with
       | Err _ => DefaultLayerStack
       | Ok stack => if bool_decide (stack <> []) then stack else DefaultLayerStack
       end.

Definition crd_to_resource (r : CrdReplica) : Resource :=
  mkResource (crr_ResourceDefinitionName r) (crr_NodeName r) ∅ (crr_Flags r) zero_ResourceState "" None None
    false [] ∅ 0.

Definition listReplicasDirect (s : S) (rdName : string) : result store_err (list Resource) :=
  match reader with
  | None => st_Resources_ListByDefinition s rdName
  | Some api =>
      match api_Resources api s with
      | Err e => Err e
      | Ok items => Ok (crd_to_resource <$> filter (fun r => crr_ResourceDefinitionName r = rdName) items)
      end
  end.

Definition probeNodeDirect (s : S) (wireName : string) : result store_err nodeProbe :=
  match reader with
  | None =>
      match st_Nodes_Get s wireName with
      | Err ErrNotFound => Ok (mkProbe false false)
      | Err e => Err e
      | Ok node => Ok (mkProbe true (isDisabledNode node || isAutoplaceExcludedNode node))
      end
  | Some api =>
      match api_Nodes api s with
      | Err e => Err e
      | Ok items =>
          match List.find (fun n => nodeCRDMatchesWireName n wireName) items with
          | Some n => Ok (mkProbe true (nodeHasDrainFlag n || nodeCRDAutoplaceExcluded n))
          | None => Ok (mkProbe false false)
          end
      end
  end.

Definition nodeSets (s : S) : result store_err (gset string * gset string) :=
  match st_Nodes_List s with
  | Err e => Err e
  | Ok nodes =>
      Ok (list_to_set (node_Name <$> filter (fun n => isDisabledNode n = true) nodes),
          list_to_set (node_Name <$> nodes))
  end.

Fixpoint confirmGhostReplicas (s : S) (replicas : list Resource) (known : gset string)
    : result store_err (list Resource * list Resource) :=
  match replicas with
  | [] => Ok ([], [])
  | r :: rest =>
      let cont (alive : bool) :=
        match confirmGhostReplicas s rest known with
        | Err e => Err e
        | Ok (live, ghosts) => Ok (if alive then (r :: live, ghosts) else (live, r :: ghosts))
        end in
      if bool_decide (res_NodeName r ∈ known) then cont true
      else match probeNodeDirect s (res_NodeName r) with
           | Err e => Err e
           | Ok probe => cont (probe_found probe)
           end
  end.

Fixpoint removeStrandedWitnesses (s : S) (rdName : string) (stranded : list Resource)
    : result store_err unit * S :=
  match stranded with
  | [] => (Ok tt, s)
  | r :: rest =>
      if negb (has_flag ResourceFlagTieBreaker r) then removeStrandedWitnesses s rdName rest
      else match st_Resources_Delete s rdName (res_NodeName r) with
           | (Ok _, s') | (Err ErrNotFound, s') => removeStrandedWitnesses s' rdName rest
           | (Err e, s') => (Err e, s')
           end
  end.

Definition dropStrandedReplicas (s : S) (rdName : string) (replicas : list Resource)
    : result store_err (list Resource) * S :=
  match nodeSets s with
  | Err e => (Err e, s)
  | Ok (disabled, known) =>
      let '(live, stranded) := splitByDisabledNode replicas disabled in
      match confirmGhostReplicas s live known with
      | Err e => (Err e, s)
      | Ok (live, ghosts) =>
          match removeStrandedWitnesses s rdName (stranded ++ ghosts) with
          | (Err e, s') => (Err e, s')
          | (Ok _, s') => (Ok live, s')
          end
      end
  end.

(** [pickTiebreakerNodeForRD]; the empty string is no node. *)
Definition pickTiebreakerNodeForRD (s : S) (rdName : string) (hostingReplica : gset string)
    : result store_err string :=
  let excluded :=
    if bool_decide (rdName = "") then Ok hostingReplica
    else match st_Resources_ListByDefinition s rdName with
         | Err e => Err e
         | Ok live =>
             Ok (hostingReplica ∪ list_to_set
                   (res_NodeName <$> filter (fun r => has_flag ResourceFlagDiskless r = false) live))
         end in
  match excluded with
  | Err e => Err e
  | Ok excluded =>
      match st_Nodes_List s with
      | Err e => Err e
      | Ok nodes =>
          let candidates := node_Name <$>
            filter (fun n => (node_Name n ∉ excluded) /\ witness_candidate n = true) nodes in
          Ok (default "" (head (merge_sort String.le candidates)))
      end
  end.

Definition rollbackWitnessIfNodeGone (s : S) (rdName witnessNode : string) : S :=
  match probeNodeDirect s witnessNode with
  | Err _ => s
  | Ok probe => if probe_found probe then s else (st_Resources_Delete s rdName witnessNode).2
  end.

Definition rollbackWitnessIfRDGone (s : S) (rdName witnessNode : string) : S :=
  match reader with
  | None => s
  | Some api => if api_RD_live api s rdName then s else (st_Resources_Delete s rdName witnessNode).2
  end.

Definition createWitness (s : S) (rd : RdObject) (existing : list Resource) : result store_err bool * S :=
  let rdName := rdo_Name rd in
  match pickTiebreakerNodeForRD s rdName (list_to_set (res_NodeName <$> existing)) with
  | Err e => (Err e, s)
  | Ok tiebreakerNode =>
      if bool_decide (tiebreakerNode = "") then (Ok false, s)
      else match probeNodeDirect s tiebreakerNode with
           | Err e => (Err e, s)
           | Ok probe =>
               if negb (probe_found probe) || probe_drained probe then (Ok false, s)
               else
                 let rollback s' :=
                   rollbackWitnessIfNodeGone (rollbackWitnessIfRDGone s' rdName tiebreakerNode) rdName
                     tiebreakerNode in
                 match st_Resources_Create s (new_witness rdName tiebreakerNode) with
                 | (Err e, s') => if alreadyExists e then (Ok true, rollback s') else (Err e, s')
                 | (Ok _, s') => (Ok true, rollback s')
                 end
           end
  end.

Fixpoint removeWitnesses (s : S) (rdName : string) (witnesses : list Resource) : result store_err unit * S :=
  match witnesses with
  | [] => (Ok tt, s)
  | r :: rest =>
      match st_Resources_DeleteIfTieBreaker s rdName (res_NodeName r) with
      | (Err e, s') => (Err e, s')
      | (Ok _, s') => removeWitnesses s' rdName rest
      end
  end.

(** [applyWitnessDecision]: the diskless replicas after the decision. *)
Definition applyWitnessDecision (s : S) (rd : RdObject) (replicas diskless witness : list Resource)
    (wantWitness : bool) : result store_err (list Resource) * S :=
  if wantWitness && bool_decide (witness = []) then
    match createWitness s rd replicas with
    | (Err e, s') => (Err e, s')
    | (Ok false, s') => (Ok diskless, s')
    | (Ok true, s') => (Ok (diskless ++ [new_witness "" ""]), s')
    end
  else if negb wantWitness && bool_decide (witness <> []) then
    match removeWitnesses s (rdo_Name rd) witness with
    | (Err e, s') => (Err e, s')
    | (Ok _, s') => (Ok (filter (fun r => has_flag ResourceFlagTieBreaker r = false) diskless), s')
    end
  else (Ok diskless, s).

(** *** The quorum stamp *)

Definition quorumKey : string := "DrbdOptions/Resource/quorum".
Definition onNoQuorumKey : string := "DrbdOptions/Resource/on-no-quorum".
Definition onNoQuorumSeed : string := "suspend-io".

Definition quorumPropsAlreadySet (rd : RdObject) (value : string) : bool :=
  bool_decide (sc_Props (rdo_Spec rd) !! quorumKey = Some value)
  && match sc_Typed (rdo_Spec rd) ≫= o_Resource with
     | None => false
     | Some r =>
         bool_decide (Quorum r = value)
         && (negb (bool_decide (value = QuorumPolicyMajority))
             || (bool_decide (is_Some (sc_Props (rdo_Spec rd) !! onNoQuorumKey))
                 && negb (bool_decide (OnNoQuorum r = ""))))
     end.

(** The mutations of one attempt. *)
Definition stamp_quorum (rd : RdObject) (value : string) : RdObject :=
  let spec := rdo_Spec rd in
  let majority := bool_decide (value = QuorumPolicyMajority) in
  let props := <[quorumKey := value]> (sc_Props spec) in
  let props := if majority && bool_decide (props !! onNoQuorumKey = None)
               then <[onNoQuorumKey := onNoQuorumSeed]> props else props in
  let o := default zero_options (sc_Typed spec) in
  let r := default zero_resource (o_Resource o) in
  let onNo := if majority && bool_decide (OnNoQuorum r = "") then onNoQuorumSeed else OnNoQuorum r in
  with_rdo_Spec rd
    (mkScope props (Some (with_Resource o (mkResourceOptions (AutoPromote r) value onNo (AutoTieBreaker r))))
       (sc_Extras spec)).

(** Answers of the API server to the n-th update and re-read. *)
Context (update : nat -> RdObject -> result api_err unit) (refetch : nat -> result api_err RdObject).

Fixpoint setQuorum_attempts (left i : nat) (rd : RdObject) (value : string)
    : result reconcile_err unit * RdObject :=
  match left with
  | O => (Err (FromApi Conflict), rd)
  | Datatypes.S left' =>
      if quorumPropsAlreadySet rd value then (Ok tt, rd)
      else
        let rd' := stamp_quorum rd value in
        match update i rd' with
        | Ok _ => (Ok tt, rd')
        | Err Conflict =>
            match refetch i with
            | Err e => (Err (FromApi e), rd')
            | Ok fresh => setQuorum_attempts left' (i + 1) fresh value
            end
        | Err e => (Err (FromApi e), rd')
        end
  end.

Definition setQuorum (rd : RdObject) (value : string) : result reconcile_err unit * RdObject :=
  setQuorum_attempts 3 0 rd value.

(** *** One pass *)

Definition ensureTiebreaker (s : S) (rd : RdObject) : result reconcile_err unit * S * RdObject :=
  if rdIsDeleting rd then (Ok tt, s, rd)
  else if negb (ContainsReplicationLayer (resolveRDLayerStack rd)) then (Ok tt, s, rd)
  else
    match listReplicasDirect s (rdo_Name rd) with
    | Err e => (Err (FromStore e), s, rd)
    | Ok replicas =>
        match dropStrandedReplicas s (rdo_Name rd) replicas with
        | (Err e, s1) => (Err (FromStore e), s1, rd)
        | (Ok live, s1) =>
            let hasInactive := containsInactiveReplica live in
            let '(diskful, diskless) := splitByDiskless (filterActiveReplicas live) in
            let witness := filterTieBreaker diskless in
            let wantWitness := shouldTieBreakerExist now rd diskful diskless witness hasInactive in
            match applyWitnessDecision s1 rd replicas diskless witness wantWitness with
            | (Err e, s2) => (Err (FromStore e), s2, rd)
            | (Ok disklessAfter, s2) =>
                if isAutoQuorumDisabled rd then (Ok tt, s2, rd)
                else let '(res, rd') := setQuorum rd (quorumPolicy (length diskful) (length disklessAfter)) in
                     (res, s2, rd')
            end
        end
    end.

End Reconciler.
