(* ===== verification/TiebreakerProps.v ===== *)
(** * What the tie-breaker pass guarantees

    Laws of the store and the reader the pass relies on, the census of a state (which
    replicas of a definition are live voters), and the properties of [ensureTiebreaker]. *)

From S2P Require Import Prelude Api Store GoFloat GoTime CrdName DrbdOptions Tiebreaker.

(** Case analysis on the guards of filtered lookups. *)
Ltac guards := cbn; repeat (case_guard; cbn in *); try (done || congruence || tauto).

(** ** A list that shows a map *)

(** What the pass reads of a replica. *)
Definition view (r : Resource) : string * list string := (res_NodeName r, res_Flags r).

Definition shows (l : list Resource) (m : gmap string (list string)) : Prop :=
  view <$> l ≡ₚ map_to_list m.

Lemma map_to_list_filter (P : string * list string -> Prop) `{!forall x, Decision (P x)}
    (m : gmap string (list string)) :
  map_to_list (filter P m) ≡ₚ filter P (map_to_list m).
Proof.
  rewrite map_filter_alt. apply map_to_list_to_map.
  apply (sublist_NoDup _ (map_to_list m).*1); [apply NoDup_fst_map_to_list|apply fmap_sublist, sublist_filter].
Qed.

Lemma filter_ext_in {A} (P Q : A -> Prop) `{!forall x, Decision (P x)} `{!forall x, Decision (Q x)} (l : list A) :
  (forall x, x ∈ l -> P x <-> Q x) -> filter P l = filter Q l.
Proof.
  induction l as [|x l IH]; intros Heq; [done|]. rewrite !filter_cons, IH by (intros y Hy; apply Heq; by right).
  destruct (Heq x (list_elem_of_here _ _)). by repeat case_decide; try tauto.
Qed.

Lemma filter_view (P : string * list string -> Prop) `{!forall x, Decision (P x)} (l : list Resource) :
  filter P (view <$> l) = view <$> filter (fun r => P (view r)) l.
Proof.
  induction l as [|r l IH]; [done|]. rewrite fmap_cons, !filter_cons, IH. by repeat case_decide.
Qed.

Lemma shows_filter (P : string * list string -> Prop) `{!forall x, Decision (P x)} l m :
  shows l m -> shows (filter (fun r => P (view r)) l) (filter P m).
Proof. unfold shows. intros Hs. by rewrite <- filter_view, Hs, map_to_list_filter. Qed.

Lemma shows_length l m : shows l m -> length l = size m.
Proof.
  unfold shows. intros H. rewrite <- (length_fmap view), H. by rewrite length_map_to_list.
Qed.

Lemma shows_nil l m : shows l m -> l = [] <-> m = ∅.
Proof.
  intros H%shows_length. rewrite <- map_size_empty_iff, <- H. by destruct l.
Qed.

Lemma shows_elem l m r : shows l m -> r ∈ l -> m !! res_NodeName r = Some (res_Flags r).
Proof.
  unfold shows. intros H Hr. apply elem_of_map_to_list. rewrite <- H. apply (list_elem_of_fmap_2 view), Hr.
Qed.

Lemma elem_shows l m n fl :
  shows l m -> m !! n = Some fl -> exists r, r ∈ l /\ res_NodeName r = n /\ res_Flags r = fl.
Proof.
  unfold shows. intros H Hn%elem_of_map_to_list. rewrite <- H in Hn.
  apply list_elem_of_fmap in Hn as (r & Hv & Hr). inversion Hv; subst. eauto.
Qed.

Lemma size_split (b : string * list string -> bool) (m : gmap string (list string)) :
  size m = (size (filter (fun nf => b nf = true) m) + size (filter (fun nf => b nf = false) m))%nat.
Proof.
  rewrite <- !length_map_to_list, !map_to_list_filter.
  induction (map_to_list m) as [|x l IH]; [done|]. rewrite !filter_cons. destruct (b x);
    [rewrite decide_True, decide_False by done|rewrite decide_False, decide_True by done]; cbn; lia.
Qed.

(** ** The replicas of a definition in a table *)

Definition replica_view (rd : string) (t : gmap (string * string) Resource) : gmap string (list string) :=
  list_to_map (view <$> filter (fun r => res_Name r = rd) (kv_values t)).

Section TableView.
Context (rd : string) (t : gmap (string * string) Resource).
Hypothesis Hwf : kv_wf rKey t.

Lemma rows_nodup : NoDup (view <$> filter (fun r => res_Name r = rd) (kv_values t)).*1.
Proof using Hwf.
  rewrite <- list_fmap_compose. cbn.
  assert (NoDup (rKey <$> filter (fun r => res_Name r = rd) (kv_values t))) as Hnd.
  { apply (sublist_NoDup _ (rKey <$> kv_values t)); [by apply NoDup_kv_values_keys|apply fmap_sublist, sublist_filter]. }
  assert (rKey <$> filter (fun r => res_Name r = rd) (kv_values t)
    = pair rd <$> (res_NodeName <$> filter (fun r => res_Name r = rd) (kv_values t))) as E.
  { rewrite <- list_fmap_compose. apply list_fmap_ext. intros i r Hr. cbn. unfold rKey.
    apply list_elem_of_lookup_2, list_elem_of_filter in Hr as [-> _]. done. }
  rewrite E in Hnd. by apply NoDup_fmap_1 in Hnd.
Qed.

Lemma replica_view_lookup n : replica_view rd t !! n = res_Flags <$> t !! (rd, n).
Proof using Hwf.
  apply option_eq. intros fl. unfold replica_view. rewrite <- elem_of_list_to_map by apply rows_nodup.
  rewrite list_elem_of_fmap. setoid_rewrite list_elem_of_filter. setoid_rewrite elem_of_kv_values.
  rewrite fmap_Some. split.
  - intros (r & Hv & Hn & [k Hk]). unfold view in Hv. inversion Hv; subst.
    pose proof (Hwf _ _ Hk) as E. unfold rKey in E. subst k. eauto.
  - intros (r & Hr & ->). pose proof (Hwf _ _ Hr) as E. unfold rKey in E. inversion E; subst.
    exists r. eauto.
Qed.

Lemma rows_show : shows (filter (fun r => res_Name r = rd) (kv_values t)) (replica_view rd t).
Proof using Hwf. unfold shows, replica_view. symmetry. apply map_to_list_to_map, rows_nodup. Qed.

End TableView.

(** ** What the pass relies on *)

(** The node rows a state shows to the pass. *)
Definition same_nodes {S : Type} `{StoreOps S, WitnessOps S} (reader : option (APIReader S)) (s s' : S) : Prop :=
  st_Nodes_List s' = st_Nodes_List s /\ forall n, probeNodeDirect reader s' n = probeNodeDirect reader s n.

(** The conditional delete is atomic, writes of replicas leave the nodes alone, an
    "already exists" answer is true, and the direct reader shows the table. *)
Class WitnessLaws (S : Type) `{StoreLaws S} `{!WitnessOps S} (reader : option (APIReader S)) := {
  wl_deleteIf s rd node : st_ok s ->
    match st_Resources_DeleteIfTieBreaker s rd node with
    | (Ok _, s') => st_ok s' /\
        st_table s' = match st_table s !! (rd, node) with
                      | Some r => if has_flag ResourceFlagTieBreaker r then delete (rd, node) (st_table s)
                                  else st_table s
                      | None => st_table s
                      end
    | (Err _, s') => st_ok s' /\ st_table s' = st_table s
    end;
  wl_create_taken s r e s' : st_ok s ->
    st_Resources_Create s r = (Err e, s') -> alreadyExists e = true -> is_Some (st_table s !! rKey r);
  wl_nodes_create s r : same_nodes reader s (st_Resources_Create s r).2;
  wl_nodes_delete s rd node : same_nodes reader s (st_Resources_Delete s rd node).2;
  wl_nodes_deleteIf s rd node : same_nodes reader s (st_Resources_DeleteIfTieBreaker s rd node).2;
  wl_api s api items : st_ok s -> reader = Some api -> api_Resources api s = Ok items ->
    (fun c => (crr_ResourceDefinitionName c, crr_NodeName c, crr_Flags c)) <$> items
    ≡ₚ (fun r => (res_Name r, res_NodeName r, res_Flags r)) <$> kv_values (st_table s);
}.

(** ** The census of a state *)

Section Census.
Context {S : Type} {Ops : StoreOps S} {WOps : WitnessOps S} (reader : option (APIReader S)).

(** The node is registered (or the direct reader finds it) and neither evicted nor lost. *)
Definition node_alive (s : S) (n : string) : bool :=
  match nodeSets s with
  | Err _ => false
  | Ok (disabled, known) =>
      bool_decide (n ∉ disabled)
      && (bool_decide (n ∈ known)
          || match probeNodeDirect reader s n with Ok p => probe_found p | Err _ => false end)
  end.

(** Replicas on live nodes, and among them the ones that vote. *)
Definition live_replicas (alive : string -> bool) (v : gmap string (list string)) : gmap string (list string) :=
  filter (fun nf => alive nf.1 = true) v.
Definition voting (v : gmap string (list string)) : gmap string (list string) :=
  filter (fun nf => Contains nf.2 ResourceFlagInactive = false) v.
Definition diskful_of (v : gmap string (list string)) : gmap string (list string) :=
  filter (fun nf => Contains nf.2 ResourceFlagDiskless = false) v.
Definition diskless_of (v : gmap string (list string)) : gmap string (list string) :=
  filter (fun nf => Contains nf.2 ResourceFlagDiskless = true) v.
Definition witnesses_of (v : gmap string (list string)) : gmap string (list string) :=
  filter (fun nf => Contains nf.2 ResourceFlagTieBreaker = true) (diskless_of v).
Definition has_inactive (v : gmap string (list string)) : bool :=
  bool_decide (filter (fun nf => Contains nf.2 ResourceFlagInactive = true) v <> ∅).

(** The decision in terms of counts. *)
Definition wants (now : Z) (rd : RdObject) (inactive : bool) (d l w : nat) : bool :=
  isAutoTieBreakerEnabled rd
  && ((inactive && bool_decide (1 <= w)%nat && bool_decide (1 <= d)%nat)
      || (negb (isTiebreakerSuppressed now rd) && bool_decide (2 <= d)%nat
          && bool_decide (Z.of_nat d `mod` 2 = 0) && bool_decide (l = w))
      || (bool_decide (1 <= w)%nat
          && ((bool_decide (1 <= d)%nat && isKeepTiebreakerActive now rd) || bool_decide (d = 2%nat)))).

Definition wants_witness (now : Z) (rd : RdObject) (live : gmap string (list string)) : bool :=
  wants now rd (has_inactive live) (size (diskful_of (voting live))) (size (diskless_of (voting live)))
    (size (witnesses_of (voting live))).

Lemma shouldTieBreakerExist_counts now rd diskful diskless witness inactive :
  shouldTieBreakerExist now rd diskful diskless witness inactive
  = wants now rd inactive (length diskful) (length diskless) (length witness).
Proof.
  unfold shouldTieBreakerExist, wants, keepExistingWitnessFor, shouldKeepExistingWitness,
    witnessUnnecessaryDiskfulCount.
  destruct (isAutoTieBreakerEnabled rd); [|done]. cbn [negb andb].
  assert (bool_decide (witness <> []) = bool_decide (1 <= length witness)%nat) as ->.
  { apply bool_decide_ext. destruct witness; cbn; split; intros; (done || lia). }
  assert (bool_decide (witness = []) = negb (bool_decide (1 <= length witness)%nat)) as ->.
  { rewrite <- bool_decide_not. apply bool_decide_ext. destruct witness; cbn; split; intros; (done || lia). }
  assert (bool_decide (2 <= Z.of_nat (length diskful)) = bool_decide (2 <= length diskful)%nat) as ->
    by (apply bool_decide_ext; lia).
  assert (bool_decide (1 <= Z.of_nat (length diskful)) = bool_decide (1 <= length diskful)%nat) as ->
    by (apply bool_decide_ext; lia).
  assert (bool_decide (Z.of_nat (length diskless) - Z.of_nat (length witness) = 0)
    = bool_decide (length diskless = length witness)) as -> by (apply bool_decide_ext; lia).
  destruct (inactive && _ && _); [done|]. rewrite orb_false_l. f_equal.
  destruct (bool_decide (1 <= length witness)%nat); [|done]. cbn [negb andb].
  destruct (bool_decide (1 <= length diskful)%nat && isKeepTiebreakerActive now rd); [done|].
  rewrite orb_false_l. case_bool_decide as H3; [|apply bool_decide_ext; lia].
  symmetry. apply bool_decide_eq_false. lia.
Qed.

Lemma existsb_shows f l v :
  shows l v -> existsb (has_flag f) l = bool_decide (filter (fun nf => Contains nf.2 f = true) v <> ∅).
Proof.
  intros Hs. pose proof (shows_nil _ _ (shows_filter (fun nf => Contains nf.2 f = true) _ _ Hs)) as Hn.
  cbn in Hn. destruct (existsb (has_flag f) l) eqn:E.
  - symmetry. apply bool_decide_eq_true. intros He%Hn. apply existsb_exists in E as (r & Hr & Hf).
    assert (r ∈ filter (fun r => Contains (res_Flags r) f = true) l) as Hin.
    { apply list_elem_of_filter. split; [exact Hf|]. by apply list_elem_of_In. }
    rewrite He in Hin. by apply not_elem_of_nil in Hin.
  - symmetry. apply bool_decide_eq_false. intros Hne. apply Hne, Hn.
    destruct (filter (fun r => Contains (res_Flags r) f = true) l) as [|r rest] eqn:Ef; [done|].
    assert (r ∈ filter (fun r => Contains (res_Flags r) f = true) l) as [Hf Hr]%list_elem_of_filter
      by (rewrite Ef; left).
    assert (existsb (has_flag f) l = true) as E2; [|congruence].
    apply existsb_exists. exists r. split; [by apply list_elem_of_In|exact Hf].
Qed.

(** [shouldTieBreakerExist] on lists that show the live replicas. *)
Lemma decision_by_census now rd live v :
  shows live v ->
  let '(diskful, diskless) := splitByDiskless (filterActiveReplicas live) in
  shows diskful (diskful_of (voting v)) /\ shows diskless (diskless_of (voting v))
  /\ shows (filterTieBreaker diskless) (witnesses_of (voting v))
  /\ shouldTieBreakerExist now rd diskful diskless (filterTieBreaker diskless) (containsInactiveReplica live)
     = wants_witness now rd v.
Proof.
  intros Hs. cbn.
  pose proof (shows_filter (fun nf => Contains nf.2 ResourceFlagInactive = false) _ _ Hs) as Hv. cbn in Hv.
  pose proof (shows_filter (fun nf => Contains nf.2 ResourceFlagDiskless = false) _ _ Hv) as Hd. cbn in Hd.
  pose proof (shows_filter (fun nf => Contains nf.2 ResourceFlagDiskless = true) _ _ Hv) as Hl. cbn in Hl.
  pose proof (shows_filter (fun nf => Contains nf.2 ResourceFlagTieBreaker = true) _ _ Hl) as Hw. cbn in Hw.
  split; [exact Hd|]. split; [exact Hl|]. split; [exact Hw|].
  rewrite shouldTieBreakerExist_counts. unfold wants_witness, containsInactiveReplica.
  f_equal; [by rewrite (existsb_shows _ _ _ Hs)|by apply shows_length..].
Qed.

End Census.

(** ** The phases of a pass *)

Section Pass.
Context {S : Type} {Ops : StoreOps S} {Laws : StoreLaws S} {WOps : WitnessOps S}.
Context (reader : option (APIReader S)) {WL : WitnessLaws S reader}.
Context (rdn : string).

Notation V s := (replica_view rdn (st_table s)).

Lemma V_lookup s n : st_ok s -> V s !! n = res_Flags <$> st_table s !! (rdn, n).
Proof using. intros Hs. apply replica_view_lookup. by apply st_table_wf. Qed.

Lemma same_nodes_refl s : same_nodes reader s s.
Proof using. done. Qed.
Lemma same_nodes_trans s1 s2 s3 :
  same_nodes reader s1 s2 -> same_nodes reader s2 s3 -> same_nodes reader s1 s3.
Proof using. intros [H1 H2] [H3 H4]. split; [congruence|]. intros n. by rewrite H4. Qed.

Lemma node_alive_same s s' n : same_nodes reader s s' -> node_alive reader s' n = node_alive reader s n.
Proof using. intros [H1 H2]. unfold node_alive, nodeSets. by rewrite H1, H2. Qed.

Lemma listing_shows s R :
  st_ok s -> listReplicasDirect reader s rdn = Ok R -> shows R (V s).
Proof using WL.
  intros Hs. unfold listReplicasDirect. destruct reader as [api|] eqn:Er.
  - destruct (api_Resources api s) as [items|] eqn:Ei; [|done]. intros [= <-].
    pose proof (wl_api s api items Hs eq_refl Ei) as Hp.
    unfold shows. rewrite <- (rows_show rdn (st_table s)) by (by apply st_table_wf).
    set (cut := fun x : string * string * list string => (x.1.2, x.2)).
    assert (view <$> (crd_to_resource <$> filter (fun r => crr_ResourceDefinitionName r = rdn) items)
      = cut <$> filter (fun x => x.1.1 = rdn)
          ((fun c => (crr_ResourceDefinitionName c, crr_NodeName c, crr_Flags c)) <$> items)) as ->.
    { clear. induction items as [|c items IH]; [done|]. rewrite fmap_cons, !filter_cons. cbn [fst].
      case_decide; [|exact IH]. rewrite !fmap_cons. by f_equal. }
    rewrite Hp. clear.
    induction (kv_values (st_table s)) as [|c items IH]; [done|]. rewrite fmap_cons, !filter_cons. cbn [fst].
    case_decide; [|exact IH]. rewrite !fmap_cons. by f_equiv.
  - intros HR. apply st_byDefinition_law in HR; [|done]. unfold shows.
    rewrite HR. apply (rows_show rdn). by apply st_table_wf.
Qed.

(** Rows of this definition at the given nodes are gone, everything else is as it was. *)
Definition dropped (nodes : list string) (t t' : gmap (string * string) Resource) : Prop :=
  forall k, t' !! k = t !! k \/ (t' !! k = None /\ k.1 = rdn /\ k.2 ∈ nodes).

Lemma dropped_refl nodes t : dropped nodes t t.
Proof using. by left. Qed.
Lemma dropped_step n nodes t t1 t' :
  dropped [n] t t1 -> dropped nodes t1 t' -> dropped (n :: nodes) t t'.
Proof using.
  intros H1 H2 k. destruct (H2 k) as [->|(-> & Hk & Hn)].
  - destruct (H1 k) as [->|(-> & Hk & Hn)]; [by left|]. right. split; [done|]. split; [done|].
    apply list_elem_of_singleton in Hn as ->. left.
  - right. split; [done|]. split; [done|]. by right.
Qed.

Lemma dropped_delete n t : dropped [n] t (delete (rdn, n) t).
Proof using.
  intros k. destruct (decide (k = (rdn, n))) as [->|Hk].
  - right. rewrite lookup_delete_eq. split; [done|]. split; [done|]. left.
  - left. by rewrite lookup_delete_ne by congruence.
Qed.

Lemma dropped_None nodes t t' k : dropped nodes t t' -> t !! k = None -> t' !! k = None.
Proof using. intros H Hk. destruct (H k) as [->|(-> & _)]; done. Qed.

(** Delete of one row: the table without it, or an error and the table as it was. *)
Lemma delete_one s n :
  st_ok s -> let '(res, s') := st_Resources_Delete s rdn n in
  st_ok s' /\ same_nodes reader s s' /\ dropped [n] (st_table s) (st_table s')
  /\ (res = Ok tt \/ res = Err ErrNotFound -> st_table s' !! (rdn, n) = None).
Proof using WL.
  intros Hs. pose proof (st_delete_law s rdn n Hs) as H. pose proof (wl_nodes_delete s rdn n) as Hn.
  destruct (st_Resources_Delete s rdn n) as [[[]|e] s']; cbn in Hn.
  - destruct H as (Hok & _ & ->). split; [done|]. split; [done|].
    split; [apply dropped_delete|]. intros _. apply lookup_delete_eq.
  - destruct H as (Hok & _ & -> & He). split; [done|]. split; [done|]. split; [apply dropped_refl|].
    intros [?|[= ->]]; [done|auto].
Qed.

Lemma removeStrandedWitnesses_spec L s :
  st_ok s -> let '(res, s') := removeStrandedWitnesses s rdn L in
  st_ok s' /\ same_nodes reader s s'
  /\ dropped (res_NodeName <$> filter (fun r => has_flag ResourceFlagTieBreaker r = true) L)
       (st_table s) (st_table s')
  /\ (res = Ok tt -> forall r, r ∈ L -> has_flag ResourceFlagTieBreaker r = true ->
       st_table s' !! (rdn, res_NodeName r) = None).
Proof using WL.
  revert s; induction L as [|r L IH]; intros s Hs.
  { cbn. split; [done|]. split; [apply same_nodes_refl|]. split; [apply dropped_refl|].
    intros _ r Hr. by apply not_elem_of_nil in Hr. }
  cbn [removeStrandedWitnesses]. rewrite filter_cons.
  destruct (has_flag ResourceFlagTieBreaker r) eqn:Et; cbn [negb].
  - rewrite decide_True by done. rewrite fmap_cons.
    pose proof (delete_one s (res_NodeName r) Hs) as Hd.
    destruct (st_Resources_Delete s rdn (res_NodeName r)) as [res s1]. destruct Hd as (Hok & Hn & Hdr & Hg).
    assert (res = Ok tt \/ res = Err ErrNotFound \/ exists e, res = Err e /\ e <> ErrNotFound) as Hres.
    { destruct res as [[]|e]; [by left|]. destruct (decide (e = ErrNotFound)) as [->|]; eauto. }
    assert (st_table s1 !! (rdn, res_NodeName r) = None ->
      let '(res', s') := removeStrandedWitnesses s1 rdn L in
      st_ok s' /\ same_nodes reader s s'
      /\ dropped (res_NodeName r :: (res_NodeName <$> filter (fun r => has_flag ResourceFlagTieBreaker r = true) L))
           (st_table s) (st_table s')
      /\ (res' = Ok tt -> forall r', r' ∈ r :: L -> has_flag ResourceFlagTieBreaker r' = true ->
           st_table s' !! (rdn, res_NodeName r') = None)) as Hcont.
    { intros Hgone. specialize (IH s1 Hok). destruct (removeStrandedWitnesses s1 rdn L) as [res' s'].
      destruct IH as (Hok' & Hn' & Hdr' & Hg'). split; [done|]. split; [by eapply same_nodes_trans|].
      split; [by eapply dropped_step|]. intros Ho r' [->|Hin]%elem_of_cons Ht'; [|by apply Hg'].
      by apply (dropped_None _ _ _ _ Hdr'). }
    destruct Hres as [->|[->|(e & -> & He)]]; [by apply Hcont, Hg; left|by apply Hcont, Hg; right|].
    destruct e; try done; (split; [done|]; split; [done|]; split; [|done]);
      (eapply dropped_step; [exact Hdr|apply dropped_refl]).
  - rewrite decide_False by done. specialize (IH s Hs). destruct (removeStrandedWitnesses s rdn L) as [res s'].
    destruct IH as (? & ? & ? & Hg). split_and!; try done.
    intros Ho r' [->|Hin]%elem_of_cons Ht'; [congruence|by apply Hg].
Qed.

Lemma removeWitnesses_spec L s :
  st_ok s -> let '(res, s') := removeWitnesses s rdn L in
  st_ok s' /\ same_nodes reader s s' /\ dropped (res_NodeName <$> L) (st_table s) (st_table s')
  /\ (res = Ok tt -> forall r r0, r ∈ L -> st_table s !! (rdn, res_NodeName r) = Some r0 ->
       has_flag ResourceFlagTieBreaker r0 = true -> st_table s' !! (rdn, res_NodeName r) = None).
Proof using WL.
  revert s; induction L as [|r L IH]; intros s Hs.
  { cbn. split; [done|]. split; [apply same_nodes_refl|]. split; [apply dropped_refl|].
    intros _ r r0 Hr. by apply not_elem_of_nil in Hr. }
  cbn [removeWitnesses]. rewrite fmap_cons.
  pose proof (wl_deleteIf s rdn (res_NodeName r) Hs) as Hd.
  pose proof (wl_nodes_deleteIf s rdn (res_NodeName r)) as Hn.
  destruct (st_Resources_DeleteIfTieBreaker s rdn (res_NodeName r)) as [[b|e] s1]; cbn in Hn;
    destruct Hd as [Hok Ht].
  - assert (dropped [res_NodeName r] (st_table s) (st_table s1)) as Hdr.
    { rewrite Ht. destruct (st_table s !! (rdn, res_NodeName r)) as [r0|]; [|apply dropped_refl].
      destruct (has_flag ResourceFlagTieBreaker r0); [apply dropped_delete|apply dropped_refl]. }
    specialize (IH s1 Hok). destruct (removeWitnesses s1 rdn L) as [res s'].
    destruct IH as (Hok' & Hn' & Hdr' & Hg'). split; [done|]. split; [by eapply same_nodes_trans|].
    split; [by eapply dropped_step|]. intros Ho r' r0 Hin Hr0 Hf.
    destruct (st_table s1 !! (rdn, res_NodeName r')) as [r1|] eqn:E1; [|by apply (dropped_None _ _ _ _ Hdr')].
    apply elem_of_cons in Hin as [->|Hin].
    + rewrite Ht, Hr0, Hf, lookup_delete_eq in E1. done.
    + destruct (Hdr (rdn, res_NodeName r')) as [E|(E & _)]; [|congruence]. eapply Hg'; [done|done|..].
      * rewrite E. exact Hr0.
      * done.
  - split; [done|]. split; [done|]. split; [rewrite Ht; apply dropped_refl|done].
Qed.

(** Ghosts are the replicas whose node neither the listing nor the probe shows. *)
Lemma confirmGhostReplicas_spec s known L live ghosts :
  confirmGhostReplicas reader s L known = Ok (live, ghosts) ->
  let alive r := bool_decide (res_NodeName r ∈ known)
    || match probeNodeDirect reader s (res_NodeName r) with Ok p => probe_found p | Err _ => false end in
  live = filter (fun r => alive r = true) L /\ ghosts = filter (fun r => alive r = false) L.
Proof using.
  cbv zeta. revert live ghosts; induction L as [|r L IH]; intros live ghosts; cbn [confirmGhostReplicas].
  { by intros [= <- <-]. }
  rewrite !filter_cons. case_bool_decide as Hk; cbn [orb].
  - rewrite decide_True, decide_False by done.
    destruct (confirmGhostReplicas reader s L known) as [[lv gh]|]; [|done]. intros [= <- <-].
    destruct (IH lv gh eq_refl) as [-> ->]. done.
  - destruct (probeNodeDirect reader s (res_NodeName r)) as [p|]; [|done].
    destruct (confirmGhostReplicas reader s L known) as [[lv gh]|]; [|by destruct (probe_found p)].
    destruct (IH lv gh eq_refl) as [-> ->].
    destruct (probe_found p); intros [= <- <-]; repeat case_decide; done.
Qed.

(** The replicas whose node is alive, and the loss of the stranded witnesses. *)
Definition unstranded (alive : string -> bool) (v : gmap string (list string)) : gmap string (list string) :=
  filter (fun nf => alive nf.1 = true \/ Contains nf.2 ResourceFlagTieBreaker = false) v.

Lemma dropStrandedReplicas_spec s R :
  st_ok s -> shows R (V s) ->
  let '(res, s') := dropStrandedReplicas reader s rdn R in
  st_ok s' /\ same_nodes reader s s'
  /\ (exists D, dropped D (st_table s) (st_table s')
        /\ forall n, n ∈ D -> exists fl, V s !! n = Some fl /\ Contains fl ResourceFlagTieBreaker = true)
  /\ (forall live, res = Ok live ->
        shows live (live_replicas (node_alive reader s) (V s))
        /\ V s' = unstranded (node_alive reader s) (V s)).
Proof using WL.
  intros Hs HR. unfold dropStrandedReplicas.
  assert (exists D, dropped D (st_table s) (st_table s)
    /\ forall n, n ∈ D -> exists fl, V s !! n = Some fl /\ Contains fl ResourceFlagTieBreaker = true) as Hnil.
  { exists []. split; [apply dropped_refl|]. intros n Hn. by apply not_elem_of_nil in Hn. }
  destruct (nodeSets s) as [[dis known]|e] eqn:Ens; [|by split_and!].
  destruct (splitByDisabledNode R dis) as [lv0 str0] eqn:Esp.
  unfold splitByDisabledNode in Esp. injection Esp as <- <-.
  destruct (confirmGhostReplicas reader s _ known) as [[lv gh]|e] eqn:Ecg; [|by split_and!].
  apply confirmGhostReplicas_spec in Ecg as [Hlv Hgh].
  set (L := filter (fun r => res_NodeName r ∈ dis) R ++ gh).
  assert (forall r, r ∈ L <-> r ∈ R /\ node_alive reader s (res_NodeName r) = false) as HL.
  { intros r. unfold L, node_alive. rewrite Ens, Hgh, elem_of_app, !list_elem_of_filter.
    destruct (decide (res_NodeName r ∈ dis)) as [Hd|Hd].
    - rewrite (bool_decide_eq_false_2 (res_NodeName r ∉ dis)) by tauto. cbn [andb]. tauto.
    - rewrite (bool_decide_eq_true_2 (res_NodeName r ∉ dis)) by done. cbn [andb]. tauto. }
  assert (lv = filter (fun r => node_alive reader s (res_NodeName r) = true) R) as Hlive.
  { rewrite Hlv, list_filter_filter. apply list_filter_iff. intros r. unfold node_alive. rewrite Ens.
    rewrite andb_true_iff, bool_decide_eq_true. tauto. }
  pose proof (removeStrandedWitnesses_spec L s Hs) as Hrm.
  destruct (removeStrandedWitnesses s rdn L) as [res s']. destruct Hrm as (Hok & Hn & Hdr & Hg).
  assert (exists D, dropped D (st_table s) (st_table s')
    /\ forall n, n ∈ D -> exists fl, V s !! n = Some fl /\ Contains fl ResourceFlagTieBreaker = true) as HD.
  { eexists. split; [exact Hdr|]. intros n Hin. apply list_elem_of_fmap in Hin as (r & -> & Hin).
    apply list_elem_of_filter in Hin as [Hf [Hr _]%HL]. exists (res_Flags r). split; [|exact Hf].
    by apply (shows_elem R). }
  destruct res as [[]|e]; [|by split_and!]. split; [done|]. split; [done|]. split; [done|].
  intros live [= <-]. split.
  { rewrite Hlive. exact (shows_filter (fun nf => node_alive reader s nf.1 = true) _ _ HR). }
  apply map_eq. intros n. rewrite V_lookup by done. unfold unstranded. rewrite map_lookup_filter.
  destruct (Hdr (rdn, n)) as [E|(E & _ & Hin)].
  - rewrite E, <- V_lookup by done. destruct (V s !! n) as [fl|] eqn:Efl; [|done]. cbn.
    case_guard as Hc; [done|]. exfalso. apply Hc.
    destruct (node_alive reader s n) eqn:Ea; [by left|]. right.
    apply not_true_is_false. intros Htb. destruct (elem_shows _ _ _ _ HR Efl) as (r & Hr & <- & <-).
    specialize (Hg eq_refl r (proj2 (HL r) (conj Hr Ea)) Htb). rewrite E in Hg.
    rewrite V_lookup, Hg in Efl by done. done.
  - rewrite E. cbn in Hin |- *. apply list_elem_of_fmap in Hin as (r & -> & Hin).
    apply list_elem_of_filter in Hin as [Hf [Hr Ha]%HL]. rewrite (shows_elem _ _ _ HR Hr). cbn.
    rewrite Ha. case_guard as Hc; [|done]. destruct Hc as [?|Hc]; [done|].
    unfold has_flag in Hf. congruence.
Qed.

(** A registered node the pass accepts for the witness. *)
Definition candidate (s : S) (n : string) : Prop :=
  exists nodes node, st_Nodes_List s = Ok nodes /\ node ∈ nodes /\ node_Name node = n
    /\ witness_candidate node = true.

Lemma pick_spec s hosting n :
  pickTiebreakerNodeForRD s rdn hosting = Ok n -> n <> "" -> candidate s n /\ n ∉ hosting.
Proof using.
  clear WL Laws reader WOps. unfold pickTiebreakerNodeForRD.
  set (ex := if bool_decide (rdn = "") then _ else _).
  assert (forall ex', ex = Ok ex' -> hosting ⊆ ex') as Hex.
  { unfold ex. case_bool_decide; [by intros ex' [= <-]|].
    destruct (st_Resources_ListByDefinition s rdn); [|done]. intros ex' [= <-]. set_solver. }
  destruct ex as [ex'|]; [|done]. specialize (Hex _ eq_refl).
  destruct (st_Nodes_List s) as [nodes|] eqn:En; [|done]. intros [= <-] Hne.
  destruct (head (merge_sort String.le _)) as [m|] eqn:Eh; [|done]. cbn in *.
  apply head_Some_elem_of in Eh. rewrite merge_sort_Permutation in Eh.
  apply list_elem_of_fmap in Eh as (node & -> & [[Hn Hw] Hin]%list_elem_of_filter).
  split; [|set_solver]. exists nodes, node. done.
Qed.

(** The definition is not deleted while the pass runs. *)
Definition rd_stays : Prop :=
  forall api s, reader = Some api -> api_RD_live api s rdn = true.

Lemma rollback_spec s n :
  st_ok s ->
  let s' := rollbackWitnessIfNodeGone reader (rollbackWitnessIfRDGone reader s rdn n) rdn n in
  st_ok s' /\ same_nodes reader s s' /\ dropped [n] (st_table s) (st_table s')
  /\ (rd_stays -> (exists p, probeNodeDirect reader s n = Ok p /\ probe_found p = true) -> s' = s).
Proof using WL.
  intros Hs. cbv zeta.
  assert (forall s0, st_ok s0 -> let s1 := (st_Resources_Delete s0 rdn n).2 in
    st_ok s1 /\ same_nodes reader s0 s1 /\ dropped [n] (st_table s0) (st_table s1)) as Hdel.
  { intros s0 H0. pose proof (delete_one s0 n H0) as H. destruct (st_Resources_Delete s0 rdn n). cbn. tauto. }
  assert (exists s1, rollbackWitnessIfRDGone reader s rdn n = s1 /\ st_ok s1 /\ same_nodes reader s s1
    /\ dropped [n] (st_table s) (st_table s1) /\ (rd_stays -> s1 = s)) as (s1 & -> & Hok1 & Hn1 & Hd1 & Hst1).
  { assert (st_ok s /\ same_nodes reader s s /\ dropped [n] (st_table s) (st_table s) /\ (rd_stays -> s = s))
      as Hsame by (split; [done|]; split; [apply same_nodes_refl|]; split; [apply dropped_refl|done]).
    eexists. split; [reflexivity|]. unfold rollbackWitnessIfRDGone, rd_stays in *.
    destruct reader as [api|] eqn:Er; [|done]. destruct (api_RD_live api s rdn) eqn:El; [done|].
    destruct (Hdel s Hs) as (? & ? & ?). split; [done|]. split; [done|]. split; [done|].
    intros Hst. by rewrite (Hst api s) in El. }
  unfold rollbackWitnessIfNodeGone. destruct (probeNodeDirect reader s1 n) as [p|e] eqn:Ep.
  - destruct (probe_found p) eqn:Ef; [split_and!; auto|].
    destruct (Hdel s1 Hok1) as (? & ? & Hd2). split; [done|]. split; [by eapply same_nodes_trans|]. split.
    + intros k. destruct (Hd2 k) as [->|(-> & ? & ?)]; [apply Hd1|by right].
    + intros Hst (p' & Hp' & Hf'). destruct Hn1 as [_ Hn1]. rewrite Hn1 in Ep. congruence.
  - split_and!; try done. intros Hst _. by apply Hst1.
Qed.

Lemma createWitness_spec s rd R :
  st_ok s -> rdo_Name rd = rdn -> (forall n fl, V s !! n = Some fl -> n ∈ res_NodeName <$> R) ->
  let '(res, s') := createWitness reader s rd R in
  st_ok s' /\ same_nodes reader s s'
  /\ (st_table s' = st_table s
      \/ exists n, candidate s n /\ st_table s !! (rdn, n) = None /\ (n ∉ res_NodeName <$> R)
           /\ st_table s' = <[(rdn, n) := new_witness rdn n]> (st_table s))
  /\ (res = Ok false -> st_table s' = st_table s)
  /\ (res = Ok true -> rd_stays ->
        exists n, candidate s n /\ (n ∉ res_NodeName <$> R)
           /\ st_table s' = <[(rdn, n) := new_witness rdn n]> (st_table s)).
Proof using WL.
  intros Hs Hrd Hdom. unfold createWitness. rewrite Hrd.
  destruct (pickTiebreakerNodeForRD s rdn _) as [n|e] eqn:Epk; [|split_and!; (done || by left)].
  case_bool_decide as Hne; [split_and!; (done || by left)|].
  apply pick_spec in Epk as [Hcand Hnot]; [|done]. rewrite elem_of_list_to_set in Hnot.
  destruct (probeNodeDirect reader s n) as [p|e] eqn:Ep; [|split_and!; (done || by left)].
  destruct (negb (probe_found p) || probe_drained p) eqn:Efd; [split_and!; (done || by left)|].
  apply orb_false_iff in Efd as [Hf%negb_false_iff _].
  assert (st_table s !! (rdn, n) = None) as Hfree.
  { destruct (st_table s !! (rdn, n)) as [r|] eqn:Er; [|done]. exfalso. apply Hnot.
    apply (Hdom n (res_Flags r)). by rewrite V_lookup, Er. }
  pose proof (st_create_law s (new_witness rdn n) Hs) as Hc.
  pose proof (wl_nodes_create s (new_witness rdn n)) as Hn.
  destruct (st_Resources_Create s (new_witness rdn n)) as [[[]|e] s1] eqn:Ecr; cbn in Hn.
  - destruct Hc as (Hok1 & _ & _ & Ht1). change (rKey (new_witness rdn n)) with (rdn, n) in Ht1.
    destruct (rollback_spec s1 n Hok1) as (Hok2 & Hn2 & Hd2 & Hst2).
    split; [done|]. split; [by eapply same_nodes_trans|]. split; [|split; [done|]].
    + destruct (Hd2 (rdn, n)) as [E|(E & _)].
      * right. exists n. split_and!; try done. rewrite <- Ht1. apply map_eq. intros k.
        destruct (Hd2 k) as [->|(Hk & Hk1 & Hk2)]; [done|]. apply list_elem_of_singleton in Hk2.
        destruct k as [k1 k2]; cbn in *; subst. by rewrite E.
      * left. apply map_eq. intros k. destruct (decide (k = (rdn, n))) as [->|Hk]; [congruence|].
        destruct (Hd2 k) as [->|(_ & Hk1 & Hk2)].
        { by rewrite Ht1, lookup_insert_ne by congruence. }
        apply list_elem_of_singleton in Hk2. destruct k; cbn in *; subst. done.
    + intros _ Hst. exists n. split; [done|]. split; [done|]. rewrite <- Ht1. f_equal.
      apply Hst2; [done|]. exists p. split; [|done]. destruct Hn as [_ Hn]. by rewrite Hn.
  - destruct Hc as (Hok1 & _ & Ht1 & _). destruct (alreadyExists e) eqn:Ea.
    { apply wl_create_taken in Ecr; [|done|done]. change (rKey (new_witness rdn n)) with (rdn, n) in Ecr.
      rewrite Hfree in Ecr. by destruct Ecr. }
    split; [done|]. split; [done|]. split; [by left|]. done.
Qed.

(** The node the pass would pick, and why no witness comes of it. *)
Definition pickable (nodes : list Node) (v : gmap string (list string)) : string :=
  default "" (head (merge_sort String.le
    (node_Name <$> filter (fun n => v !! node_Name n = None /\ witness_candidate n = true) nodes))).

Definition stuck (s : S) (v : gmap string (list string)) : Prop :=
  exists nodes, st_Nodes_List s = Ok nodes
    /\ (pickable nodes v = ""
        \/ exists p, probeNodeDirect reader s (pickable nodes v) = Ok p
             /\ negb (probe_found p) || probe_drained p = true).

Lemma pick_pickable s R v :
  st_ok s -> shows R v -> (forall n fl, V s !! n = Some fl -> is_Some (v !! n)) ->
  pickTiebreakerNodeForRD s rdn (list_to_set (res_NodeName <$> R))
  = match (if bool_decide (rdn = "") then Ok [] else st_Resources_ListByDefinition s rdn) with
    | Err e => Err e
    | Ok _ => match st_Nodes_List s with Err e => Err e | Ok nodes => Ok (pickable nodes v) end
    end.
Proof using.
  intros Hs HR Hsub. unfold pickTiebreakerNodeForRD.
  assert (forall n, n ∈ res_NodeName <$> R <-> is_Some (v !! n)) as Hhost.
  { intros n. split.
    - intros (r & -> & Hr)%list_elem_of_fmap. rewrite (shows_elem _ _ _ HR Hr). eauto.
    - intros [fl Hfl]. destruct (elem_shows _ _ _ _ HR Hfl) as (r & Hr & <- & _). by apply list_elem_of_fmap_2. }
  assert (forall (ex : gset string) nodes, (forall n, n ∈ ex <-> is_Some (v !! n)) ->
    Ok (default "" (head (merge_sort String.le (node_Name <$>
      filter (fun n => (node_Name n ∉ ex) /\ witness_candidate n = true) nodes)))) =
    Ok (E := store_err) (pickable nodes v)) as Hpick.
  { intros ex nodes Hex. unfold pickable. do 5 f_equal. apply list_filter_iff. intros n.
    rewrite Hex, eq_None_not_Some. done. }
  case_bool_decide as Hr.
  - destruct (st_Nodes_List s) as [nodes|]; [|done]. apply Hpick. intros n. by rewrite elem_of_list_to_set.
  - destruct (st_Resources_ListByDefinition s rdn) as [l|] eqn:El; [|done].
    destruct (st_Nodes_List s) as [nodes|]; [|done]. apply Hpick. intros n.
    rewrite elem_of_union, !elem_of_list_to_set, Hhost. split; [|by left]. intros [?|Hin]; [done|].
    apply list_elem_of_fmap in Hin as (r & -> & [_ Hin]%list_elem_of_filter).
    apply (st_byDefinition_law s rdn l Hs) in El. rewrite El in Hin.
    apply (Hsub _ (res_Flags r)). apply (shows_elem _ _ r (rows_show rdn _ (st_table_wf s Hs)) Hin).
Qed.

Lemma createWitness_stuck s rd R v :
  st_ok s -> rdo_Name rd = rdn -> shows R v -> (forall n fl, V s !! n = Some fl -> is_Some (v !! n)) ->
  (forall s', createWitness reader s rd R = (Ok false, s') -> stuck s v)
  /\ (stuck s v -> (exists l, st_Resources_ListByDefinition s rdn = Ok l) ->
      createWitness reader s rd R = (Ok false, s)).
Proof using.
  intros Hs Hrd HR Hsub. unfold createWitness. rewrite Hrd, (pick_pickable s R v Hs HR Hsub). split.
  - intros s'. destruct (if bool_decide _ then _ else _); [|done].
    destruct (st_Nodes_List s) as [nodes|] eqn:En; [|done].
    case_bool_decide as Hp; [by exists nodes; eauto|].
    destruct (probeNodeDirect reader s (pickable nodes v)) as [p|] eqn:Epr; [|done].
    destruct (negb (probe_found p) || probe_drained p) eqn:Ef; [by exists nodes; eauto|].
    destruct (st_Resources_Create s _) as [[]]; [done|]. by destruct (alreadyExists _).
  - intros (nodes & Hn & Hst) [l Hl]. rewrite Hl, Hn.
    assert ((if bool_decide (rdn = "") then Ok [] else Ok l) = Ok (E := store_err) (if bool_decide (rdn = "") then [] else l))
      as -> by by destruct (bool_decide _).
    case_bool_decide as Hp; [done|]. destruct Hst as [?|(p & -> & ->)]; done.
Qed.

(** *** The replicas after a pass *)

Section Census_steps.
Context (alive : string -> bool) (v : gmap string (list string)).

Definition witness_flags : list string := [ResourceFlagDiskless; ResourceFlagTieBreaker].

Let live := live_replicas alive v.
Let W := witnesses_of (voting live).

Lemma live_unstranded : live_replicas alive (unstranded alive v) = live.
Proof using.
  apply map_eq. intros n. unfold live, live_replicas, unstranded. rewrite !map_lookup_filter.
  destruct (v !! n) as [fl|]; [|done]. by guards.
Qed.

Lemma unstranded_idem : unstranded alive (unstranded alive v) = unstranded alive v.
Proof using.
  apply map_eq. intros n. unfold unstranded. rewrite !map_lookup_filter.
  destruct (v !! n) as [fl|]; [|done]. by guards.
Qed.

(** A new witness on a live node. *)
Lemma live_insert n u :
  alive n = true -> live_replicas alive (<[n := witness_flags]> u) = <[n := witness_flags]> (live_replicas alive u).
Proof using. intros Ha. unfold live_replicas. by rewrite map_filter_insert_True. Qed.

Lemma unstranded_insert n u :
  alive n = true -> unstranded alive (<[n := witness_flags]> u) = <[n := witness_flags]> (unstranded alive u).
Proof using. intros Ha. unfold unstranded. rewrite map_filter_insert_True; [done|by left]. Qed.

Lemma census_insert n u :
  u !! n = None ->
  diskful_of (voting (<[n := witness_flags]> u)) = diskful_of (voting u)
  /\ size (diskless_of (voting (<[n := witness_flags]> u))) = (size (diskless_of (voting u)) + 1)%nat
  /\ size (witnesses_of (voting (<[n := witness_flags]> u))) = (size (witnesses_of (voting u)) + 1)%nat
  /\ has_inactive (<[n := witness_flags]> u) = has_inactive u.
Proof using.
  intros Hn. assert (voting (<[n := witness_flags]> u) = <[n := witness_flags]> (voting u)) as ->.
  { unfold voting. by rewrite map_filter_insert_True. }
  assert (voting u !! n = None) as Hv by (unfold voting; by rewrite map_lookup_filter, Hn).
  assert (diskless_of (<[n := witness_flags]> (voting u)) = <[n := witness_flags]> (diskless_of (voting u))) as Hd.
  { unfold diskless_of. by rewrite map_filter_insert_True. }
  assert (diskless_of (voting u) !! n = None) as Hdn by (unfold diskless_of; by rewrite map_lookup_filter, Hv).
  split_and!.
  - unfold diskful_of. apply map_filter_insert_not'; [done|]. rewrite Hv. done.
  - rewrite Hd, map_size_insert_None by done. lia.
  - unfold witnesses_of. rewrite Hd, map_filter_insert_True by done.
    rewrite map_size_insert_None; [lia|]. by rewrite map_lookup_filter, Hdn.
  - unfold has_inactive. rewrite map_filter_insert_not'; [done|done|]. rewrite Hn. done.
Qed.

(** The removal of the live witnesses. *)
Lemma census_remove u :
  live_replicas alive u = live ->
  live_replicas alive (u ∖ W) = live ∖ W /\ unstranded alive (u ∖ W) = unstranded alive u ∖ W
  /\ diskful_of (voting (live ∖ W)) = diskful_of (voting live)
  /\ diskless_of (voting (live ∖ W))
     = filter (fun nf => Contains nf.2 ResourceFlagTieBreaker = false) (diskless_of (voting live))
  /\ witnesses_of (voting (live ∖ W)) = ∅
  /\ has_inactive (live ∖ W) = has_inactive live.
Proof using.
  intros Hu.
  assert (forall n, W !! n = None \/ exists fl, W !! n = Some fl /\ live !! n = Some fl
    /\ Contains fl ResourceFlagInactive = false /\ Contains fl ResourceFlagDiskless = true
    /\ Contains fl ResourceFlagTieBreaker = true) as HW.
  { intros n. unfold W, witnesses_of, diskless_of, voting. rewrite !map_lookup_filter.
    destruct (live !! n) as [fl|]; [|by left]. cbn. repeat (case_guard; cbn in *); try (by left).
    right. exists fl. done. }
  assert (forall n fl, live !! n = Some fl -> W !! n = None ->
    Contains fl ResourceFlagInactive = false -> Contains fl ResourceFlagDiskless = true ->
    Contains fl ResourceFlagTieBreaker = true -> False) as HW2.
  { intros n fl Hl. unfold W, witnesses_of, diskless_of, voting. rewrite !map_lookup_filter, Hl. cbn.
    repeat (case_guard; cbn in *); congruence. }
  split_and!.
  - apply map_eq. intros n. rewrite <- Hu. unfold live_replicas. rewrite lookup_difference, !map_lookup_filter,
      lookup_difference. destruct (W !! n); done.
  - apply map_eq. intros n. unfold unstranded. rewrite lookup_difference, !map_lookup_filter, lookup_difference.
    destruct (W !! n); done.
  - apply map_eq. intros n. unfold diskful_of, voting. rewrite !map_lookup_filter, lookup_difference.
    destruct (HW n) as [->|(fl & -> & -> & H1 & H2 & H3)]; [done|]. by guards.
  - apply map_eq. intros n. unfold diskless_of, voting. rewrite !map_lookup_filter, lookup_difference.
    destruct (HW n) as [E|(fl & -> & -> & H1 & H2 & H3)].
    + rewrite E. destruct (live !! n) as [fl|] eqn:El; [|done]. specialize (HW2 n fl El E).
      destruct (Contains fl ResourceFlagTieBreaker) eqn:?; by guards.
    + by guards.
  - apply map_empty. intros n. unfold witnesses_of, diskless_of, voting. rewrite !map_lookup_filter, lookup_difference.
    destruct (HW n) as [E|(fl & -> & _)]; [|done].
    rewrite E. destruct (live !! n) as [fl|] eqn:El; [|done]. specialize (HW2 n fl El E). by guards.
  - unfold has_inactive. f_equal.
    assert (filter (fun nf => Contains nf.2 ResourceFlagInactive = true) (live ∖ W)
      = filter (fun nf => Contains nf.2 ResourceFlagInactive = true) live) as ->; [|done].
    apply map_eq. intros n. rewrite !map_lookup_filter, lookup_difference.
    destruct (HW n) as [->|(fl & -> & -> & H1 & H2 & H3)]; [done|]. by guards.
Qed.

End Census_steps.

(** *** What a pass may do to the table *)

(** Every row is as it was, except that tie-breaker rows of the definition may be gone and
    one witness may be new, on a node [n0] that had no replica of the definition. *)
Definition witness_frame (s : S) (n0 : string) (t t' : gmap (string * string) Resource) : Prop :=
  forall k, t' !! k = t !! k
    \/ (k.1 = rdn /\ t' !! k = None /\ exists r, t !! k = Some r /\ has_flag ResourceFlagTieBreaker r = true)
    \/ (k = (rdn, n0) /\ t !! k = None /\ candidate s n0 /\ t' !! k = Some (new_witness rdn n0)).

Definition tie_breakers (t : gmap (string * string) Resource) (D : list string) : Prop :=
  forall n, n ∈ D -> exists r, t !! (rdn, n) = Some r /\ has_flag ResourceFlagTieBreaker r = true.

Lemma dropped_frame s n0 D t t' : dropped D t t' -> tie_breakers t D -> witness_frame s n0 t t'.
Proof using.
  intros Hd HD [k1 k2]. destruct (Hd (k1, k2)) as [->|(E & Hk & Hin)]; [by left|]. cbn in *. subst k1.
  right; left. by eauto.
Qed.

Lemma dropped_app D D' t t1 t' : dropped D t t1 -> dropped D' t1 t' -> dropped (D ++ D') t t'.
Proof using.
  intros H1 H2 k. destruct (H2 k) as [->|(-> & Hk & Hn)].
  - destruct (H1 k) as [->|(-> & Hk & Hn)]; [by left|]. right. split_and!; [done..|]. apply elem_of_app. by left.
  - right. split_and!; [done..|]. apply elem_of_app. by right.
Qed.

Lemma tie_breakers_app t t1 D D' :
  dropped D t t1 -> tie_breakers t D -> tie_breakers t1 D' -> tie_breakers t (D ++ D').
Proof using.
  intros Hd H1 H2 n [Hn|Hn]%elem_of_app; [auto|]. destruct (H2 n Hn) as (r & Hr & Hf).
  destruct (Hd (rdn, n)) as [E|(E & _)]; [|congruence]. exists r. by rewrite <- E.
Qed.

Lemma V_tie_breaker s n fl :
  st_ok s -> V s !! n = Some fl -> Contains fl ResourceFlagTieBreaker = true ->
  exists r, st_table s !! (rdn, n) = Some r /\ has_flag ResourceFlagTieBreaker r = true.
Proof using.
  intros Hs. rewrite V_lookup by done. intros (r & Hr & ->)%fmap_Some Hf. by exists r.
Qed.

(** How the replicas of the definition change in the second half of a pass, and the
    number of diskless voters handed to the quorum policy. *)
Inductive decided (s : S) (rd : RdObject) (now : Z) (alive : string -> bool)
    (v v' : gmap string (list string)) (after : nat) : Prop :=
| decided_create n :
    wants_witness now rd (live_replicas alive v) = true -> witnesses_of (voting (live_replicas alive v)) = ∅ ->
    candidate s n -> v !! n = None ->
    v' = <[n := witness_flags]> (unstranded alive v) ->
    after = (size (diskless_of (voting (live_replicas alive v))) + 1)%nat -> decided s rd now alive v v' after
| decided_remove :
    wants_witness now rd (live_replicas alive v) = false -> witnesses_of (voting (live_replicas alive v)) <> ∅ ->
    v' = unstranded alive v ∖ witnesses_of (voting (live_replicas alive v)) ->
    after = size (filter (fun nf => Contains nf.2 ResourceFlagTieBreaker = false)
                    (diskless_of (voting (live_replicas alive v)))) -> decided s rd now alive v v' after
| decided_keep :
    (wants_witness now rd (live_replicas alive v) = false -> witnesses_of (voting (live_replicas alive v)) = ∅) ->
    (wants_witness now rd (live_replicas alive v) = true -> witnesses_of (voting (live_replicas alive v)) = ∅ ->
     stuck s v) ->
    v' = unstranded alive v ->
    after = size (diskless_of (voting (live_replicas alive v))) -> decided s rd now alive v v' after.

Section Decision.
Context (s s1 : S) (rd : RdObject) (now : Z) (R live : list Resource).
Hypothesis (Hs : st_ok s) (Hs1 : st_ok s1) (Hn : same_nodes reader s s1) (Hrd : rdo_Name rd = rdn).
Hypothesis (HR : shows R (V s)).
Hypothesis (Hlive : shows live (live_replicas (node_alive reader s) (V s))).
Hypothesis (HV1 : V s1 = unstranded (node_alive reader s) (V s)).
Hypothesis (HD : exists D, dropped D (st_table s) (st_table s1) /\ tie_breakers (st_table s) D).

Notation alive := (node_alive reader s).

Lemma hosted n fl : V s !! n = Some fl -> n ∈ res_NodeName <$> R.
Proof using HR.
  intros Hfl. destruct (elem_shows _ _ _ _ HR Hfl) as (r & Hr & <- & _). by apply list_elem_of_fmap_2.
Qed.

Lemma hosted_after n fl : V s1 !! n = Some fl -> n ∈ res_NodeName <$> R.
Proof using HR HV1.
  rewrite HV1. unfold unstranded. intros [Hfl _]%map_lookup_filter_Some. by apply (hosted n fl).
Qed.

Lemma not_hosted n : n ∉ res_NodeName <$> R -> V s !! n = None /\ st_table s !! (rdn, n) = None.
Proof using HR Hs.
  intros Hnot. assert (V s !! n = None) as E.
  { destruct (V s !! n) as [fl|] eqn:E; [|done]. exfalso. by apply Hnot, (hosted n fl). }
  split; [done|]. rewrite V_lookup in E by done. by destruct (st_table s !! (rdn, n)).
Qed.

Lemma frame_keep : exists n0, witness_frame s n0 (st_table s) (st_table s1).
Proof using HD. destruct HD as (D & H1 & H2). exists "". by eapply dropped_frame. Qed.

Lemma candidate_before n : candidate s1 n -> candidate s n.
Proof using Hn. intros (nodes & node & ? & ?). exists nodes, node. destruct Hn as [Hn' _]. by rewrite <- Hn'. Qed.

Lemma view_shrinks n fl : V s1 !! n = Some fl -> is_Some (V s !! n).
Proof using HV1. rewrite HV1. unfold unstranded. intros [Hfl _]%map_lookup_filter_Some. eauto. Qed.

Lemma stuck_before v : stuck s1 v -> stuck s v.
Proof using Hn.
  intros (nodes & Hl & Hp). destruct Hn as [Hn1 Hn2]. exists nodes. rewrite <- Hn1. split; [done|].
  by rewrite <- Hn2.
Qed.

Lemma frame_insert n :
  candidate s n -> (n ∉ res_NodeName <$> R) ->
  witness_frame s n (st_table s) (<[(rdn, n) := new_witness rdn n]> (st_table s1)).
Proof using HD HR Hs.
  intros Hc Hnot k. destruct HD as (D & H1 & H2). destruct (decide (k = (rdn, n))) as [->|Hk].
  - right; right. split; [done|]. split; [by apply not_hosted|]. split; [done|apply lookup_insert_eq].
  - rewrite lookup_insert_ne by congruence.
    destruct (dropped_frame s n _ _ _ H1 H2 k) as [?|[?|(-> & _)]]; [by left|by right; left|done].
Qed.

Lemma view_insert s2 n :
  st_ok s2 -> st_table s2 = <[(rdn, n) := new_witness rdn n]> (st_table s1) ->
  V s2 = <[n := witness_flags]> (V s1).
Proof using Hs1.
  intros Hok Ht. apply map_eq. intros m. rewrite V_lookup, Ht by done.
  destruct (decide (m = n)) as [->|Hm]; [by rewrite !lookup_insert_eq|].
  rewrite !lookup_insert_ne by congruence. by rewrite V_lookup.
Qed.

Lemma create_case dl :
  shows dl (diskless_of (voting (live_replicas alive (V s)))) ->
  wants_witness now rd (live_replicas alive (V s)) = true ->
  witnesses_of (voting (live_replicas alive (V s))) = ∅ ->
  let '(res, s2) := applyWitnessDecision reader s1 rd R dl [] true in
  st_ok s2 /\ same_nodes reader s s2 /\ (exists n0, witness_frame s n0 (st_table s) (st_table s2))
  /\ (forall after, res = Ok after -> rd_stays -> decided s rd now alive (V s) (V s2) (length after)).
Proof using All.
  intros Hdl Hwant HW. unfold applyWitnessDecision. cbn [andb]. rewrite bool_decide_eq_true_2 by done.
  pose proof (createWitness_spec s1 rd R Hs1 Hrd hosted_after) as Hc.
  destruct (createWitness_stuck s1 rd R (V s) Hs1 Hrd HR view_shrinks) as [Hstuck _].
  destruct (createWitness reader s1 rd R) as [res s2]. destruct Hc as (Hok2 & Hn2 & Hor & Hfalse & Htrue).
  assert (same_nodes reader s s2) as Hn12 by by eapply same_nodes_trans.
  assert (exists n0, witness_frame s n0 (st_table s) (st_table s2)) as Hfr.
  { destruct Hor as [->|(n & Hc & _ & Hnot & ->)]; [apply frame_keep|].
    exists n. apply frame_insert; [by apply candidate_before|done]. }
  destruct res as [[]|e]; (split; [done|]; split; [done|]; split; [done|]); try done.
  - intros after [= <-] Hst. destruct (Htrue eq_refl Hst) as (n & Hc & Hnot & Ht).
    apply (decided_create _ _ _ _ _ _ _ n); try done; [by apply candidate_before|by apply not_hosted|..].
    + rewrite <- HV1. by apply view_insert.
    + rewrite length_app. cbn. by rewrite (shows_length _ _ Hdl).
  - intros after [= <-] Hst. apply decided_keep; [done| | |by apply shows_length].
    { intros _ _. apply stuck_before, (Hstuck s2 eq_refl). }
    rewrite <- HV1. by rewrite (Hfalse eq_refl).
Qed.

Lemma remove_case dl :
  shows dl (diskless_of (voting (live_replicas alive (V s)))) ->
  wants_witness now rd (live_replicas alive (V s)) = false ->
  witnesses_of (voting (live_replicas alive (V s))) <> ∅ ->
  let '(res, s2) := applyWitnessDecision reader s1 rd R dl (filterTieBreaker dl) false in
  st_ok s2 /\ same_nodes reader s s2 /\ (exists n0, witness_frame s n0 (st_table s) (st_table s2))
  /\ (forall after, res = Ok after -> rd_stays -> decided s rd now alive (V s) (V s2) (length after)).
Proof using All.
  intros Hdl Hwant HW. pose proof (shows_filter (fun nf => Contains nf.2 ResourceFlagTieBreaker = true) _ _ Hdl) as Hw.
  fold (witnesses_of (voting (live_replicas alive (V s)))) in Hw.
  change (shows (filterTieBreaker dl) (witnesses_of (voting (live_replicas alive (V s))))) in Hw.
  unfold applyWitnessDecision. cbn [andb negb].
  rewrite bool_decide_eq_true_2 by (intros E; apply HW; by apply (shows_nil _ _ Hw)). rewrite Hrd.
  pose proof (removeWitnesses_spec (filterTieBreaker dl) s1 Hs1) as Hrm.
  destruct (removeWitnesses s1 rdn (filterTieBreaker dl)) as [res s2]. destruct Hrm as (Hok2 & Hn2 & Hd2 & Hg2).
  set (W := witnesses_of (voting (live_replicas alive (V s)))) in *.
  assert (forall n fl, W !! n = Some fl -> V s1 !! n = Some fl /\ Contains fl ResourceFlagTieBreaker = true) as HWin.
  { intros n fl. rewrite HV1. unfold W, witnesses_of, diskless_of, voting, live_replicas, unstranded.
    intros [[[[Hfl Ha]%map_lookup_filter_Some _]%map_lookup_filter_Some _]%map_lookup_filter_Some Ht]%map_lookup_filter_Some.
    split; [|done]. apply map_lookup_filter_Some. cbn in *. auto. }
  assert (same_nodes reader s s2) as Hn12 by by eapply same_nodes_trans.
  assert (exists n0, witness_frame s n0 (st_table s) (st_table s2)) as Hfr.
  { destruct HD as (D & H1 & H2). exists "". eapply dropped_frame; [by eapply dropped_app|].
    apply (tie_breakers_app _ _ _ _ H1 H2). intros n Hin. apply list_elem_of_fmap in Hin as (r & -> & Hr).
    destruct (HWin _ _ (shows_elem _ _ _ Hw Hr)). by eapply V_tie_breaker. }
  destruct res as [[]|e]; (split; [done|]; split; [done|]; split; [done|]); [|done].
  intros after [= <-] _. apply decided_remove; [done|done|..].
  - fold W. rewrite <- HV1. apply map_eq. intros n. rewrite lookup_difference, V_lookup by done.
    destruct (W !! n) as [fl|] eqn:EW.
    + destruct (HWin _ _ EW) as [Hin Ht]. destruct (V_tie_breaker s1 n fl Hs1 Hin Ht) as (r0 & Hr0 & Hf).
      destruct (elem_shows _ _ _ _ Hw EW) as (r & Hr & <- & _). by rewrite (Hg2 eq_refl r r0).
    + rewrite V_lookup by done. f_equal. destruct (Hd2 (rdn, n)) as [E|(_ & _ & Hin)]; [done|]. cbn in Hin.
      apply list_elem_of_fmap in Hin as (r & -> & Hr). by rewrite (shows_elem _ _ _ Hw Hr) in EW.
  - apply shows_length. exact (shows_filter (fun nf => Contains nf.2 ResourceFlagTieBreaker = false) _ _ Hdl).
Qed.

Lemma applyWitnessDecision_spec :
  let '(diskful, diskless) := splitByDiskless (filterActiveReplicas live) in
  let want := shouldTieBreakerExist now rd diskful diskless (filterTieBreaker diskless)
                (containsInactiveReplica live) in
  let '(res, s2) := applyWitnessDecision reader s1 rd R diskless (filterTieBreaker diskless) want in
  st_ok s2 /\ same_nodes reader s s2
  /\ (exists n0, witness_frame s n0 (st_table s) (st_table s2))
  /\ (forall after, res = Ok after -> rd_stays -> decided s rd now alive (V s) (V s2) (length after)).
Proof using All.
  pose proof (decision_by_census now rd live _ Hlive) as Hdec.
  destruct (splitByDiskless (filterActiveReplicas live)) as [df dl]. destruct Hdec as (_ & Hdl & Hw & Hwant).
  cbv zeta. rewrite Hwant. clear Hwant. pose proof (shows_nil _ _ Hw) as HW0.
  destruct (wants_witness now rd _) eqn:Ewant, (decide (filterTieBreaker dl = [])) as [E|E].
  - rewrite E. apply create_case; [done|done|by apply HW0].
  - unfold applyWitnessDecision. cbn [andb negb]. rewrite bool_decide_eq_false_2 by done.
    split_and!; [done..|apply frame_keep|]. intros after [= <-] _.
    apply decided_keep; [by rewrite Ewant|by intros _ HW; exfalso; apply E, HW0|done|by apply shows_length].
  - unfold applyWitnessDecision. cbn [andb negb]. rewrite bool_decide_eq_false_2 by tauto.
    split_and!; [done..|apply frame_keep|]. intros after [= <-] _.
    apply decided_keep; [by intros _; apply HW0|by rewrite Ewant|done|by apply shows_length].
  - apply remove_case; [done|done|]. intros HW. by apply E, HW0.
Qed.

End Decision.

(** *** A whole pass *)

Section Whole.
Context (groupStack : string -> result store_err (list string)) (now : Z).
Context (update : nat -> RdObject -> result api_err unit) (refetch : nat -> result api_err RdObject).

Notation pass := (ensureTiebreaker reader groupStack now update refetch).

Lemma pass_spec s rd :
  st_ok s -> rdo_Name rd = rdn ->
  let '(res, s', rd') := pass s rd in
  st_ok s' /\ same_nodes reader s s' /\ (exists n0, witness_frame s n0 (st_table s) (st_table s'))
  /\ (res = Ok tt -> rdo_Deleting rd = false ->
      ContainsReplicationLayer (resolveRDLayerStack groupStack rd) = true -> rd_stays ->
      exists after, decided s rd now (node_alive reader s) (V s) (V s') after
        /\ if isAutoQuorumDisabled rd then rd' = rd
           else setQuorum update refetch rd
                  (quorumPolicy (size (diskful_of (voting (live_replicas (node_alive reader s) (V s))))) after)
                = (Ok tt, rd')).
Proof using WL.
  intros Hs Hrd. unfold ensureTiebreaker, rdIsDeleting.
  assert (exists n0, witness_frame s n0 (st_table s) (st_table s)) as Hsame by (exists ""; by left).
  destruct (rdo_Deleting rd) eqn:Edel; [by split_and!|].
  destruct (ContainsReplicationLayer (resolveRDLayerStack groupStack rd)) eqn:Erep; cbn [negb]; [|by split_and!].
  rewrite Hrd. destruct (listReplicasDirect reader s rdn) as [R|e] eqn:El; [|by split_and!].
  apply listing_shows in El as HR; [|done].
  pose proof (dropStrandedReplicas_spec s R Hs HR) as Hdr.
  destruct (dropStrandedReplicas reader s rdn R) as [[live|e] s1]; destruct Hdr as (Hs1 & Hn1 & (D & HD & HDt) & Hlive).
  2: { split_and!; [done..| |done]. exists "". eapply dropped_frame; [done|]. intros n Hin.
       destruct (HDt n Hin) as (fl & Hfl & Htb). by eapply V_tie_breaker. }
  destruct (Hlive live eq_refl) as [Hlv HV1].
  assert (exists D, dropped D (st_table s) (st_table s1) /\ tie_breakers (st_table s) D) as HDD.
  { exists D. split; [done|]. intros n Hin. destruct (HDt n Hin) as (fl & Hfl & Htb). by eapply V_tie_breaker. }
  pose proof (applyWitnessDecision_spec s s1 rd now R live Hs Hs1 Hn1 Hrd HR Hlv HV1 HDD) as Hap.
  pose proof (decision_by_census now rd live _ Hlv) as Hdec.
  destruct (splitByDiskless (filterActiveReplicas live)) as [df dl]. destruct Hdec as (Hdf & _).
  cbv zeta in Hap. destruct (applyWitnessDecision reader s1 rd R dl _ _) as [[after|e] s2];
    destruct Hap as (Hs2 & Hn2 & Hfr & Hdd); [|by split_and!].
  rewrite (shows_length _ _ Hdf).
  destruct (isAutoQuorumDisabled rd).
  - split_and!; [done..|]. intros _ _ _ Hst. exists (length after). split; [by apply Hdd|done].
  - destruct (setQuorum update refetch rd _) as [res rd'] eqn:Eq. split_and!; [done..|].
    intros -> _ _ Hst. exists (length after). split; [by apply Hdd|exact Eq].
Qed.

(** The nodes of a state have distinct names. *)
Definition nodes_unique (s : S) : Prop :=
  forall nodes, st_Nodes_List s = Ok nodes -> NoDup (node_Name <$> nodes).

Lemma candidate_alive s n : nodes_unique s -> candidate s n -> node_alive reader s n = true.
Proof using.
  intros Hu (nodes & node & Hl & Hin & <- & Hw). unfold node_alive, nodeSets. rewrite Hl.
  apply andb_true_iff. split; [|apply orb_true_iff; left]; apply bool_decide_eq_true.
  - intros Hd. apply elem_of_list_to_set, list_elem_of_fmap in Hd as (node' & Heq & [Hdis Hin']%list_elem_of_filter).
    assert (node' = node) as ->.
    { specialize (Hu nodes Hl). apply list_elem_of_lookup in Hin as [i Hi], Hin' as [j Hj].
      assert (i = j) as ->; [|congruence].
      apply (NoDup_lookup _ _ _ (node_Name node) Hu); rewrite list_lookup_fmap; [by rewrite Hi|].
      rewrite Hj. cbn. by rewrite Heq. }
    unfold witness_candidate in Hw. rewrite Hdis in Hw. done.
  - apply elem_of_list_to_set. by apply list_elem_of_fmap_2.
Qed.

Lemma wants_after_create rd inactive d l :
  wants now rd inactive d l 0 = true -> wants now rd inactive d (l + 1) (0 + 1) = true.
Proof using.
  unfold wants. destruct (isAutoTieBreakerEnabled rd); [|done]. cbn [andb].
  rewrite (bool_decide_eq_false_2 (1 <= 0)%nat) by lia. rewrite andb_false_r. cbn [andb orb].
  rewrite orb_false_r. intros H. apply orb_true_iff. left. apply orb_true_iff. right.
  rewrite !andb_true_iff, !bool_decide_eq_true in *. destruct H as [[[H1 H2] H3] H4]. split_and!; (done || lia).
Qed.

Lemma wants_after_remove rd inactive d l w l' :
  wants now rd inactive d l w = false -> l = (w + l')%nat -> wants now rd inactive d l' 0 = false.
Proof using.
  unfold wants. destruct (isAutoTieBreakerEnabled rd); [|done]. cbn [andb].
  rewrite (bool_decide_eq_false_2 (1 <= 0)%nat) by lia. rewrite andb_false_r. cbn [andb orb].
  rewrite orb_false_r. intros H ->. apply orb_false_iff in H as [[_ H]%orb_false_iff _].
  assert (bool_decide (w + l' = w)%nat = bool_decide (l' = 0)%nat) as E by (apply bool_decide_ext; lia).
  by rewrite E in H.
Qed.

(** The census of the state a decision leaves. *)
Lemma decided_census s s' rd after :
  let alive := node_alive reader s in
  let live := live_replicas alive (V s) in let live' := live_replicas alive (V s') in
  nodes_unique s -> decided s rd now alive (V s) (V s') after ->
  size (diskful_of (voting live')) = size (diskful_of (voting live))
  /\ size (diskless_of (voting live')) = after
  /\ unstranded alive (V s') = V s'
  /\ has_inactive live' = has_inactive live
  /\ (wants_witness now rd live' = true -> witnesses_of (voting live') = ∅ ->
      V s' = unstranded alive (V s) /\ stuck s (V s))
  /\ (wants_witness now rd live' = false -> witnesses_of (voting live') = ∅).
Proof using.
  cbv zeta. intros Hu Hd. set (alive := node_alive reader s) in *. set (live := live_replicas alive (V s)) in *.
  destruct Hd as [n Hwant HW Hc Hfree HV Ha|Hwant HW HV Ha|Hkeep Hstuck HV Ha]; rewrite HV.
  - assert (alive n = true) as Hal by (by apply candidate_alive).
    rewrite live_insert, unstranded_insert, unstranded_idem, live_unstranded by done. fold live.
    assert (live !! n = None) as Hln by (unfold live, live_replicas; by rewrite map_lookup_filter, Hfree).
    destruct (census_insert n live Hln) as (H1 & H2 & H3 & H4).
    fold alive live in Hwant, HW. rewrite HW, map_size_empty in H3.
    split; [by rewrite H1|]. split; [by rewrite H2, Ha|]. split; [done|]. split; [done|]. split.
    + intros _ E. rewrite E, map_size_empty in H3. done.
    + intros E. exfalso. apply not_true_iff_false in E. apply E. unfold wants_witness in *.
      rewrite H1, H2, H3, H4. rewrite HW, map_size_empty in Hwant. by apply wants_after_create.
  - destruct (census_remove alive (V s) (unstranded alive (V s)) (live_unstranded alive (V s)))
      as (H1 & H2 & H3 & H4 & H5 & H6). fold live in H1, H2, H3, H4, H5, H6, Hwant, HW, Ha |- *.
    rewrite H1, H2, unstranded_idem. split; [by rewrite H3|]. split; [by rewrite H4, Ha|].
    split; [done|]. split; [done|]. split; [|done].
    intros E. exfalso. apply not_false_iff_true in E. apply E. unfold wants_witness in *.
    rewrite H3, H4, H5, H6, map_size_empty. apply (wants_after_remove _ _ _ _ _ _ Hwant).
    apply (size_split (fun nf => Contains nf.2 ResourceFlagTieBreaker) (diskless_of (voting live))).
  - rewrite live_unstranded, unstranded_idem. fold live. fold live in Hkeep, Hstuck, Ha. split_and!; auto.
Qed.

End Whole.

End Pass.

(** ** The quorum stamp *)

(** What the definition's scope contributes to the effective properties of its replicas. *)
Definition wire (rd : RdObject) : gmap string string :=
  let spec := rdo_Spec rd in mergeScopeProps (emitScopeProps (sc_Typed spec) (sc_Extras spec)) (sc_Props spec).

Lemma emit_resource_option o i k v :
  wire_pairs o !! i = Some (k, Some v) -> Str.cut_prefix handlersPrefix k = None ->
  TypedDRBDOptionsToProps (Some o) !! k = Some v.
Proof.
  intros Hi Hk. rewrite emit_lookup, Hk. by rewrite (puts_lookup ∅ _ i k (Some v) (wire_pairs_nodup _) Hi).
Qed.

Lemma wire_typed rd o i k v :
  sc_Typed (rdo_Spec rd) = Some o -> wire_pairs o !! i = Some (k, Some v) ->
  Str.cut_prefix handlersPrefix k = None -> wire rd !! k = Some v.
Proof.
  intros Ho Hi Hk. unfold wire, mergeScopeProps, emitScopeProps.
  apply lookup_union_Some_l, lookup_union_Some_l. rewrite Ho. by eapply emit_resource_option.
Qed.

Lemma wire_quorum rd value :
  value <> "" -> quorumPropsAlreadySet rd value = true -> wire rd !! quorumKey = Some value.
Proof.
  intros Hv. unfold quorumPropsAlreadySet. intros [_ H]%andb_prop.
  destruct (sc_Typed (rdo_Spec rd)) as [o|] eqn:Eo; [|done]. cbn in H.
  destruct (o_Resource o) as [r|] eqn:Er; [|done]. apply andb_prop in H as [Hq%bool_decide_eq_true _].
  apply (wire_typed rd o 10%nat _ _ Eo); [|reflexivity].
  destruct o as [on od op orr oh]. cbn in Er. subst orr. cbn. unfold str_val. rewrite Hq.
  by rewrite bool_decide_eq_false_2.
Qed.

Lemma wire_on_no_quorum rd o r :
  sc_Typed (rdo_Spec rd) = Some o -> o_Resource o = Some r -> OnNoQuorum r <> "" ->
  wire rd !! onNoQuorumKey = Some (OnNoQuorum r).
Proof.
  intros Eo Er Hne. apply (wire_typed rd o 11%nat _ _ Eo); [|reflexivity].
  destruct o as [on od op orr oh]. cbn in Er. subst orr. cbn. unfold str_val. by rewrite bool_decide_eq_false_2.
Qed.

Lemma stamped rd value : quorumPropsAlreadySet (stamp_quorum rd value) value = true.
Proof.
  unfold quorumPropsAlreadySet, stamp_quorum. cbn [rdo_Spec with_rdo_Spec sc_Props sc_Typed].
  set (props := <[quorumKey := value]> _). set (o := default zero_options _). set (r := default zero_resource _).
  assert (props !! quorumKey = Some value) as Hq by (unfold props; apply lookup_insert_eq).
  cbn [mbind option_bind with_Resource o_Resource Quorum OnNoQuorum]. rewrite (bool_decide_eq_true_2 (value = value)) by done.
  destruct (bool_decide (value = QuorumPolicyMajority)); cbn [andb negb orb]; [|by rewrite Hq, bool_decide_eq_true_2].
  assert (forall x : string, negb (bool_decide ((if bool_decide (x = "") then onNoQuorumSeed else x) = "")) = true)
    as Hseed.
  { intros x. destruct (bool_decide (x = "")) eqn:Ex; [done|]. by rewrite Ex. }
  rewrite Hseed. destruct (bool_decide (props !! onNoQuorumKey = None)) eqn:Ep.
  - rewrite lookup_insert_ne by done. by rewrite Hq, lookup_insert_eq, !bool_decide_eq_true_2 by eauto.
  - apply bool_decide_eq_false, not_eq_None_Some in Ep. by rewrite Hq, !bool_decide_eq_true_2.
Qed.

Lemma setQuorum_done update refetch left i rd value rd' :
  setQuorum_attempts update refetch left i rd value = (Ok tt, rd') -> quorumPropsAlreadySet rd' value = true.
Proof.
  revert i rd; induction left as [|left IH]; intros i rd; cbn [setQuorum_attempts]; [done|].
  destruct (quorumPropsAlreadySet rd value) eqn:E; [by intros [= <-]|].
  destruct (update i (stamp_quorum rd value)) as [[]|[]]; [intros [= <-]; apply stamped| |done].
  destruct (refetch i); [apply IH|done].
Qed.

Lemma quorumPolicy_nonempty d l : quorumPolicy d l <> "".
Proof. unfold quorumPolicy. by destruct (_ || _). Qed.

Lemma voters_split v : size v = (size (diskful_of v) + size (diskless_of v))%nat.
Proof. rewrite (size_split (fun nf => Contains nf.2 ResourceFlagDiskless) v). unfold diskful_of, diskless_of. lia. Qed.

(** ** Properties *)

(** Whatever happens during a pass, errors included, the only rows that change are those
    of this definition: rows without the tie-breaker flag are kept as they are, some
    tie-breaker rows may be gone, and at most one row is new, a diskless witness on a
    registered satellite node that is neither evicted, lost nor opted out of automatic
    placement and had no replica of the definition. *)
Theorem ensureTiebreaker_frame {S : Type} `{StoreLaws S} {W : WitnessOps S} reader {WL : WitnessLaws S reader}
    groupStack now update refetch (s : S) rd :
  st_ok s ->
  let '(_, s', _) := ensureTiebreaker reader groupStack now update refetch s rd in
  exists n0, forall k,
    st_table s' !! k = st_table s !! k
    \/ (k.1 = rdo_Name rd /\ st_table s' !! k = None
        /\ exists r, st_table s !! k = Some r /\ has_flag ResourceFlagTieBreaker r = true)
    \/ (k = (rdo_Name rd, n0) /\ st_table s !! k = None
        /\ (exists nodes node, st_Nodes_List s = Ok nodes /\ node ∈ nodes /\ node_Name node = n0
              /\ witness_candidate node = true)
        /\ st_table s' !! k = Some (new_witness (rdo_Name rd) n0)).
Proof.
  intros Hs. pose proof (pass_spec reader (rdo_Name rd) groupStack now update refetch s rd Hs eq_refl) as Hp.
  destruct (ensureTiebreaker _ _ _ _ _ s rd) as [[res s'] rd']. destruct Hp as (_ & _ & Hfr & _). exact Hfr.
Qed.

(** C16: the quorum policy a successful pass leaves on the definition is the one for the
    replicas as they are after the pass, never for a witness that could not be placed: the
    definition's scope carries [majority] only when two diskful voters have a diskless one
    beside them or three diskful voters are live, so at least three voters exist, and an
    action on quorum loss is set. *)
Theorem ensureTiebreaker_quorum_true {S : Type} `{StoreLaws S} {W : WitnessOps S} reader
    {WL : WitnessLaws S reader} groupStack now update refetch (s s' : S) rd rd' :
  st_ok s -> nodes_unique s -> rd_stays reader (rdo_Name rd) ->
  rdo_Deleting rd = false -> ContainsReplicationLayer (resolveRDLayerStack groupStack rd) = true ->
  isAutoQuorumDisabled rd = false ->
  ensureTiebreaker reader groupStack now update refetch s rd = (Ok tt, s', rd') ->
  let voters := voting (live_replicas (node_alive reader s') (replica_view (rdo_Name rd) (st_table s'))) in
  let policy := quorumPolicy (size (diskful_of voters)) (size (diskless_of voters)) in
  wire rd' !! quorumKey = Some policy
  /\ (policy = QuorumPolicyMajority -> (3 <= size voters)%nat /\ is_Some (wire rd' !! onNoQuorumKey)).
Proof.
  intros Hs Hu Hst Hdel Hrep Hauto Hrun voters policy.
  pose proof (pass_spec reader (rdo_Name rd) groupStack now update refetch s rd Hs eq_refl) as Hp.
  rewrite Hrun in Hp. destruct Hp as (_ & Hn & _ & Hok). destruct (Hok eq_refl Hdel Hrep Hst) as (after & Hd & Hq).
  rewrite Hauto in Hq. apply (decided_census reader (rdo_Name rd) now s s' rd after Hu) in Hd as (H1 & H2 & _).
  assert (live_replicas (node_alive reader s') (replica_view (rdo_Name rd) (st_table s'))
    = live_replicas (node_alive reader s) (replica_view (rdo_Name rd) (st_table s'))) as Hl.
  { unfold live_replicas. apply map_filter_ext. intros n fl _. by rewrite (node_alive_same reader s s'). }
  unfold policy, voters in *. rewrite Hl. rewrite <- H2, <- H1 in Hq.
  apply setQuorum_done in Hq. split; [apply wire_quorum; [apply quorumPolicy_nonempty|done]|].
  intros Hmaj. split.
  - rewrite (voters_split (voting _)). unfold quorumPolicy in Hmaj.
    destruct (_ || _) eqn:E in Hmaj; [|done]. apply orb_prop in E as [[E1 E2]%andb_prop|E];
      apply bool_decide_eq_true in E || apply bool_decide_eq_true in E1, E2; lia.
  - unfold quorumPropsAlreadySet in Hq. rewrite Hmaj in Hq. apply andb_prop in Hq as [_ Hq].
    destruct (sc_Typed (rdo_Spec rd')) as [o|] eqn:Eo; [|done]. cbn in Hq.
    destruct (o_Resource o) as [r|] eqn:Er; [|done]. apply andb_prop in Hq as [_ Hq]. cbn in Hq.
    apply andb_prop in Hq as [_ Hq%negb_true_iff%bool_decide_eq_false]. eexists. by eapply wire_on_no_quorum.
Qed.

(** ** A second pass *)

(** Reads answer. *)
Class ReadsAnswer (S : Type) `{StoreOps S} `{!WitnessOps S} (reader : option (APIReader S)) := {
  ra_replicas s rd : exists l, listReplicasDirect reader s rd = Ok l;
  ra_byDefinition s rd : exists l, st_Resources_ListByDefinition s rd = Ok l;
  ra_nodes s : exists l, st_Nodes_List s = Ok l;
  ra_probe s n : exists p, probeNodeDirect reader s n = Ok p;
}.

Lemma stamp_options rd value :
  isAutoTieBreakerEnabled (stamp_quorum rd value) = isAutoTieBreakerEnabled rd
  /\ isAutoQuorumDisabled (stamp_quorum rd value) = isAutoQuorumDisabled rd.
Proof.
  assert (forall k, k <> quorumKey -> k <> onNoQuorumKey ->
    sc_Props (rdo_Spec (stamp_quorum rd value)) !! k = sc_Props (rdo_Spec rd) !! k) as Hp.
  { intros k H1 H2. cbn. destruct (_ && _); by rewrite ?lookup_insert_ne. }
  split.
  - unfold isAutoTieBreakerEnabled. rewrite Hp by done. f_equal. cbn.
    destruct (sc_Typed (rdo_Spec rd)) as [[? ? ? [] ?]|]; done.
  - unfold isAutoQuorumDisabled, rdPropFromBags. by rewrite !Hp by done.
Qed.

Lemma setQuorum_same update refetch rd value rd' :
  (forall i r, update i r <> Err Conflict) -> setQuorum update refetch rd value = (Ok tt, rd') ->
  rd' = rd \/ rd' = stamp_quorum rd value.
Proof.
  intros Hup. unfold setQuorum. cbn [setQuorum_attempts]. destruct (quorumPropsAlreadySet rd value); [by intros [= <-]; left|].
  destruct (update 0%nat (stamp_quorum rd value)) as [[]|[]] eqn:E; [by intros [= <-]; right|by apply Hup in E|done].
Qed.

Section Again.
Context {S : Type} {Ops : StoreOps S} {Laws : StoreLaws S} {WOps : WitnessOps S}.
Context (reader : option (APIReader S)) {WL : WitnessLaws S reader} {RA : ReadsAnswer S reader}.
Context (rdn : string).

Notation V s := (replica_view rdn (st_table s)).

Lemma confirm_answers s L known : exists live ghosts, confirmGhostReplicas reader s L known = Ok (live, ghosts).
Proof using RA.
  induction L as [|r L (live & ghosts & IH)]; [by exists [], []|]. cbn [confirmGhostReplicas]. rewrite IH.
  case_bool_decide; [by eauto|]. destruct (ra_probe s (res_NodeName r)) as [p ->]. destruct (probe_found p); eauto.
Qed.

Lemma removeStranded_none s L :
  Forall (fun r => has_flag ResourceFlagTieBreaker r = false) L -> removeStrandedWitnesses s rdn L = (Ok tt, s).
Proof using. induction 1 as [|r L Hr _ IH]; [done|]. cbn. by rewrite Hr. Qed.

Lemma dropStranded_none s R :
  st_ok s -> shows R (V s) -> unstranded (node_alive reader s) (V s) = V s ->
  exists live, dropStrandedReplicas reader s rdn R = (Ok live, s)
    /\ shows live (live_replicas (node_alive reader s) (V s)).
Proof using WL RA.
  intros Hs HR Hun. pose proof (dropStrandedReplicas_spec reader rdn s R Hs HR) as Hsp.
  unfold dropStrandedReplicas in *. unfold nodeSets in *. destruct (ra_nodes s) as [nodes Hno]. rewrite Hno in *.
  destruct (splitByDisabledNode R _) as [lv0 str0] eqn:Esp. unfold splitByDisabledNode in Esp. injection Esp as <- <-.
  destruct (confirm_answers s (filter (fun r => res_NodeName r ∉ list_to_set (C := gset string)
    (node_Name <$> filter (fun n => isDisabledNode n = true) nodes)) R)
    (list_to_set (node_Name <$> nodes))) as (live & ghosts & Hcg). rewrite Hcg in *.
  assert (Forall (fun r => has_flag ResourceFlagTieBreaker r = false)
    (filter (fun r => res_NodeName r ∈ list_to_set (C := gset string)
       (node_Name <$> filter (fun n => isDisabledNode n = true) nodes)) R ++ ghosts)) as Hnone.
  { apply list.Forall_forall. intros r Hin. apply confirmGhostReplicas_spec in Hcg as [_ ->].
    assert (r ∈ R /\ node_alive reader s (res_NodeName r) = false) as [Hr Ha].
    { unfold node_alive, nodeSets. rewrite Hno. apply elem_of_app in Hin as [[Hd Hr]%list_elem_of_filter|Hin].
      - rewrite (bool_decide_eq_false_2 (_ ∉ _)) by tauto. done.
      - apply list_elem_of_filter in Hin as [Ha [_ Hr]%list_elem_of_filter]. split; [done|]. by rewrite Ha, andb_false_r. }
    pose proof (shows_elem _ _ _ HR Hr) as Hl. rewrite <- Hun in Hl. unfold unstranded in Hl.
    apply map_lookup_filter_Some in Hl as [_ [Hc|Hc]]; cbn in Hc; [congruence|exact Hc]. }
  rewrite (removeStranded_none s _ Hnone) in *. destruct Hsp as (_ & _ & _ & Hl). exists live. split; [done|].
  by apply Hl.
Qed.

Lemma stuck_after s v :
  nodes_unique s -> stuck reader s v -> stuck reader s (unstranded (node_alive reader s) v).
Proof using.
  intros Hu (nodes & Hno & Hp). exists nodes. split; [done|].
  assert (pickable nodes (unstranded (node_alive reader s) v) = pickable nodes v) as ->; [|done].
  unfold pickable. do 4 f_equal. apply filter_ext_in. intros n Hin.
  split; intros [H1 H2]; (split; [|done]).
  - assert (node_alive reader s (node_Name n) = true) as Ha.
    { apply (candidate_alive reader s); [done|]. exists nodes, n. done. }
    unfold unstranded in H1. rewrite map_lookup_filter in H1. destruct (v !! node_Name n); [|done]. cbn in H1.
    revert H1. case_guard as Hc; [done|]. cbn in Hc. tauto.
  - unfold unstranded. by rewrite map_lookup_filter, H1.
Qed.

(** The witness part of a pass on a settled state changes nothing. *)
Lemma settled_decision s rd now R live :
  st_ok s -> rdo_Name rd = rdn -> shows R (V s) -> shows live (live_replicas (node_alive reader s) (V s)) ->
  (wants_witness now rd (live_replicas (node_alive reader s) (V s)) = true ->
     witnesses_of (voting (live_replicas (node_alive reader s) (V s))) = ∅ -> stuck reader s (V s)) ->
  (wants_witness now rd (live_replicas (node_alive reader s) (V s)) = false ->
     witnesses_of (voting (live_replicas (node_alive reader s) (V s))) = ∅) ->
  let '(diskful, diskless) := splitByDiskless (filterActiveReplicas live) in
  applyWitnessDecision reader s rd R diskless (filterTieBreaker diskless)
    (shouldTieBreakerExist now rd diskful diskless (filterTieBreaker diskless) (containsInactiveReplica live))
  = (Ok diskless, s).
Proof using RA.
  intros Hs Hrd HR Hlive Hyes Hno. pose proof (decision_by_census now rd live _ Hlive) as Hdec.
  destruct (splitByDiskless (filterActiveReplicas live)) as [df dl]. destruct Hdec as (_ & _ & Hw & ->).
  pose proof (shows_nil _ _ Hw) as HW0. unfold applyWitnessDecision.
  destruct (wants_witness now rd _); cbn [andb negb].
  - case_bool_decide as E; [|done].
    destruct (createWitness_stuck reader rdn s rd R (V s) Hs Hrd HR) as [_ Hst]; [by eauto|].
    rewrite Hst; [done|by apply Hyes, HW0|apply ra_byDefinition].
  - rewrite bool_decide_eq_false_2; [done|]. intros E. by apply E, HW0, Hno.
Qed.

Lemma settled_pass groupStack now update refetch s rd :
  st_ok s -> rdo_Name rd = rdn -> rdo_Deleting rd = false ->
  ContainsReplicationLayer (resolveRDLayerStack groupStack rd) = true ->
  unstranded (node_alive reader s) (V s) = V s ->
  let live := live_replicas (node_alive reader s) (V s) in
  (wants_witness now rd live = true -> witnesses_of (voting live) = ∅ -> stuck reader s (V s)) ->
  (wants_witness now rd live = false -> witnesses_of (voting live) = ∅) ->
  ensureTiebreaker reader groupStack now update refetch s rd
  = if isAutoQuorumDisabled rd then (Ok tt, s, rd)
    else let '(res, rd') := setQuorum update refetch rd
           (quorumPolicy (size (diskful_of (voting live))) (size (diskless_of (voting live)))) in (res, s, rd').
Proof using WL RA.
  intros Hs Hrd Hdel Hrep Hun live Hyes Hno. unfold ensureTiebreaker, rdIsDeleting. rewrite Hdel, Hrep, Hrd.
  cbn [negb]. destruct (ra_replicas s rdn) as [R HR]. rewrite HR. apply listing_shows in HR; [|done|done].
  destruct (dropStranded_none s R Hs HR Hun) as (lv & -> & Hlv).
  pose proof (settled_decision s rd now R lv Hs Hrd HR Hlv Hyes Hno) as Hdec.
  pose proof (decision_by_census now rd lv _ Hlv) as Hcen.
  destruct (splitByDiskless (filterActiveReplicas lv)) as [df dl]. destruct Hcen as (Hdf & Hdl & _).
  rewrite Hdec, (shows_length _ _ Hdf), (shows_length _ _ Hdl). done.
Qed.

End Again.

Lemma pass_inputs groupStack now update refetch rd value rd' :
  (forall i r, update i r <> Err Conflict) ->
  (rd' = rd \/ setQuorum update refetch rd value = (Ok tt, rd')) ->
  rdo_Name rd' = rdo_Name rd /\ rdo_Deleting rd' = rdo_Deleting rd
  /\ resolveRDLayerStack groupStack rd' = resolveRDLayerStack groupStack rd
  /\ isAutoQuorumDisabled rd' = isAutoQuorumDisabled rd
  /\ forall live, wants_witness now rd' live = wants_witness now rd live.
Proof.
  intros Hup Hq. assert (rd' = rd \/ rd' = stamp_quorum rd value) as [->| ->]; [|done|].
  { destruct Hq as [->|Hq]; [by left|]. by eapply setQuorum_same. }
  destruct (stamp_options rd value) as [H1 H2]. split_and!; [done..|]. intros live.
  unfold wants_witness, wants. by rewrite H1.
Qed.


(** The action on quorum loss after a [majority] stamp: one pinned in the typed options
    stays; one pinned only in the raw properties is kept in the raw bag, but the typed slot
    is seeded beside it and wins on the wire, so replicas get [suspend-io] instead of the
    pinned value. *)
Theorem setQuorum_on_no_quorum update refetch rd :
  (forall i r, update i r = Ok tt) ->
  let typed := default zero_resource (sc_Typed (rdo_Spec rd) ≫= o_Resource) in
  exists rd', setQuorum update refetch rd QuorumPolicyMajority = (Ok tt, rd')
    /\ wire rd' !! onNoQuorumKey
       = Some (if bool_decide (OnNoQuorum typed = "") then onNoQuorumSeed else OnNoQuorum typed)
    /\ forall pin, sc_Props (rdo_Spec rd) !! onNoQuorumKey = Some pin ->
         sc_Props (rdo_Spec rd') !! onNoQuorumKey = Some pin.
Proof.
  intros Hup typed. unfold setQuorum. cbn [setQuorum_attempts].
  destruct (quorumPropsAlreadySet rd QuorumPolicyMajority) eqn:E.
  - exists rd. split; [done|]. split; [|done]. unfold quorumPropsAlreadySet in E. apply andb_prop in E as [_ E].
    destruct (sc_Typed (rdo_Spec rd)) as [o|] eqn:Eo; [|done]. cbn in E, typed.
    destruct (o_Resource o) as [r|] eqn:Er; [|done]. cbn in E, typed.
    apply andb_prop in E as [_ [_ E%negb_true_iff]%andb_prop]. fold typed in E. rewrite E.
    apply (wire_on_no_quorum rd o r); [done|done|]. by apply bool_decide_eq_false in E.
  - rewrite Hup. eexists. split; [reflexivity|]. split.
    + unfold stamp_quorum. rewrite (bool_decide_eq_true_2 (QuorumPolicyMajority = _)) by done. cbn [andb].
      set (r := default zero_resource (o_Resource (default zero_options (sc_Typed (rdo_Spec rd))))).
      assert (r = typed) as Hr by (unfold r, typed; by destruct (sc_Typed (rdo_Spec rd)) as [[? ? ? [] ?]|]).
      rewrite Hr. set (seeded := if bool_decide (OnNoQuorum typed = "") then onNoQuorumSeed else OnNoQuorum typed).
      assert (seeded <> "") as Hne.
      { unfold seeded. destruct (bool_decide (OnNoQuorum typed = "")) eqn:Eb; [done|].
        by apply bool_decide_eq_false in Eb. }
      set (ro := mkResourceOptions _ _ seeded _). eapply (wire_on_no_quorum _ _ ro); [reflexivity|reflexivity|exact Hne].
    + intros pin Hpin. unfold stamp_quorum. cbn [rdo_Spec with_rdo_Spec sc_Props].
      rewrite (bool_decide_eq_false_2 (_ = None)), andb_false_r.
      * by rewrite lookup_insert_ne.
      * by rewrite lookup_insert_ne, Hpin by done.
Qed.

(** ** Opting out through the property store *)

Definition auto_tiebreaker (o : DRBDOptions) : option bool :=
  AutoTieBreaker (default zero_resource (o_Resource o)).

Lemma same_pair_same_tiebreaker o o' :
  typed_pairs o' !! 12%nat = typed_pairs o !! 12%nat -> auto_tiebreaker o' = auto_tiebreaker o.
Proof.
  change (Some (tiebreaker_pair (o_Resource o')) = Some (tiebreaker_pair (o_Resource o)) ->
    auto_tiebreaker o' = auto_tiebreaker o).
  unfold tiebreaker_pair, auto_tiebreaker. intros [= H]. revert H.
  destruct (AutoTieBreaker (default zero_resource (o_Resource o'))) as [[]|],
    (AutoTieBreaker (default zero_resource (o_Resource o))) as [[]|]; done.
Qed.

Lemma split_key_tiebreaker k v o e :
  auto_tiebreaker (split_key k v (o, e)).1
  = if decide (k = tiebreaker_key) then match parseBool v with Some b => Some b | None => auto_tiebreaker o end
    else auto_tiebreaker o.
Proof.
  case_decide as Hk.
  - subst k. unfold split_key.
    change (applyTypedKey o tiebreaker_key v) with (applySectionlessKey o "AutoAddQuorumTiebreaker" v).
    unfold applySectionlessKey. rewrite bool_decide_eq_true_2 by done. by destruct (parseBool v).
  - unfold split_key. destruct (Str.has_prefix propsKVPrefix k) eqn:Hp; [|done]. cbn [negb].
    pose proof (applyTypedKey_effect o k v Hp) as Hef.
    destruct (applyTypedKey o k v) as [[] o']; cbn [key_effect fst] in *; apply same_pair_same_tiebreaker.
    + destruct Hef as [(i & old & Hi & -> & _)|(n & _ & -> & _)]; [|done].
      apply list_lookup_insert_ne. intros ->.
      change (typed_pairs o !! 12%nat) with (Some (tiebreaker_pair (o_Resource o))) in Hi.
      unfold tiebreaker_pair in Hi. by injection Hi.
    + by destruct Hef as (-> & _).
Qed.

Lemma stored_tiebreaker p :
  (sc_Typed (SplitProps p) ≫= o_Resource) ≫= AutoTieBreaker = p !! tiebreaker_key ≫= parseBool.
Proof.
  assert (auto_tiebreaker (map_fold split_key (zero_options, ∅) p).1 = p !! tiebreaker_key ≫= parseBool) as H.
  { apply (map_fold_weak_ind (fun r m => auto_tiebreaker r.1 = m !! tiebreaker_key ≫= parseBool)); [done|].
    intros k v m [o e] Hk IH. rewrite split_key_tiebreaker. cbn [fst] in IH. case_decide as E.
    - subst k. rewrite lookup_insert_eq. cbn. rewrite IH, Hk. by destruct (parseBool v).
    - by rewrite lookup_insert_ne. }
  rewrite <- H. unfold SplitProps, propsToTyped. cbn [sc_Typed].
  destruct (map_fold split_key _ p) as [o e]. cbn [fst].
  destruct (isEmptyDRBDOptions o) eqn:Ee; [apply isEmpty_zero in Ee; by subst|].
  unfold auto_tiebreaker. by destruct o as [? ? ? [] ?].
Qed.

(** A DRBD key without a typed slot is filed among the leftovers. *)
Lemma stored_extra p k :
  is_drbd k = true -> (k ∉ string_keys ++ int_keys ++ bool_keys) -> (k ∉ (typed_pairs zero_options).*1) ->
  Str.cut_prefix handlersPrefix k = None ->
  sc_Props (SplitProps p) !! k = None /\ sc_Extras (SplitProps p) !! k = p !! k.
Proof.
  intros Hk Hn Hp Hh. unfold SplitProps. cbn [sc_Props sc_Extras]. split.
  { unfold stripDRBDProps. rewrite map_lookup_filter. destruct (p !! k); [|done]. cbn.
    case_guard as Hc; [|done]. cbn in Hc. unfold is_drbd, PropPrefix in Hk. unfold propsKVPrefix in Hc. congruence. }
  pose proof (transcode_lookup p k) as H. assert (forall t e, typedToProps t e !! k = e !! k) as Hskip.
  { intros [o|] e; [|done]. rewrite typedToProps_pairs, handlers_lookup, Hh. by apply puts_lookup_other. }
  rewrite Hskip in H. rewrite H. destruct (p !! k) as [v|]; [|done]. cbn.
  rewrite !not_elem_of_app in Hn. destruct Hn as (H1 & H2 & H3). by apply norm_kept.
Qed.

(** The two opt-outs an operator sets through the property store reach the controller:
    a definition stored with [DrbdOptions/AutoAddQuorumTiebreaker] set to any spelling of
    false gets no automatic witness, every other value or none leaves it enabled; and one
    stored with [DrbdOptions/auto-quorum] (or its older spelling) set to [disabled] keeps its
    quorum settings through every pass, whatever the outcome. *)
Theorem stored_optouts {S : Type} `{StoreOps S} {W : WitnessOps S} (reader : option (APIReader S))
    groupStack now update refetch (s : S) rd p :
  rdo_Spec rd = SplitProps p ->
  isAutoTieBreakerEnabled rd = negb (bool_decide (p !! tiebreaker_key ≫= parseBool = Some false))
  /\ (isAutoTieBreakerEnabled rd = false -> forall diskful diskless witness inactive,
       shouldTieBreakerExist now rd diskful diskless witness inactive = false)
  /\ let value := default "" (p !! "DrbdOptions/auto-quorum") in
     let legacy := default "" (p !! "DrbdOptions/AutoQuorum") in
     Str.equal_fold (if bool_decide (value = "") then legacy else value) "disabled" = true ->
     (ensureTiebreaker reader groupStack now update refetch s rd).2 = rd.
Proof.
  intros Hspec. split; [|split].
  - unfold isAutoTieBreakerEnabled. rewrite Hspec, stored_tiebreaker.
    assert (sc_Props (SplitProps p) !! "DrbdOptions/AutoAddQuorumTiebreaker" = None) as ->.
    { unfold SplitProps, stripDRBDProps. cbn [sc_Props]. rewrite map_lookup_filter. by destruct (p !! _). }
    destruct (p !! tiebreaker_key ≫= parseBool) as [[]|]; reflexivity.
  - intros He diskful diskless witness inactive. unfold shouldTieBreakerExist. by rewrite He.
  - cbv zeta. intros Hq. assert (isAutoQuorumDisabled rd = true) as Hd.
    { unfold isAutoQuorumDisabled, rdPropFromBags. rewrite Hspec.
      destruct (stored_extra p "DrbdOptions/auto-quorum") as [-> ->];
        [done|apply (bool_decide_eq_true_1 _); reflexivity..|done|].
      destruct (stored_extra p "DrbdOptions/AutoQuorum") as [-> ->];
        [done|apply (bool_decide_eq_true_1 _); reflexivity..|done|]. exact Hq. }
    unfold ensureTiebreaker. rewrite Hd. repeat case_match; simplify_eq; done.
Qed.

(** In the steady state (nothing deactivated, no deadline annotation in force) a witness
    is wanted exactly when an even number of at least two diskful voters has no other
    diskless voter, or a witness already stands beside two diskful voters; so a witness is
    kept there even when a diskless replica of the operator already breaks the tie, and is
    given up for three or more diskful voters of odd number and below two. *)
Theorem witness_steady_state now rd diskful diskless witness :
  isTiebreakerSuppressed now rd = false -> isKeepTiebreakerActive now rd = false ->
  let d := length diskful in let l := length diskless in let w := length witness in
  shouldTieBreakerExist now rd diskful diskless witness false = true
  <-> isAutoTieBreakerEnabled rd = true
      /\ (((2 <= d)%nat /\ Z.of_nat d `mod` 2 = 0 /\ l = w) \/ ((1 <= w)%nat /\ d = 2%nat)).
Proof.
  intros Hsup Hkeep d l w. rewrite shouldTieBreakerExist_counts. unfold wants. fold d l w. rewrite Hsup, Hkeep.
  cbn [andb orb negb]. rewrite andb_false_r. cbn [orb].
  rewrite andb_true_iff, orb_true_iff, !andb_true_iff, !bool_decide_eq_true. tauto.
Qed.

(** ** The in-memory store *)

#[export] Instance InMemory_witness_ops {U : UuidLib} : WitnessOps InMemory := {|
  st_Nodes_Get s n := Nodes_Get (im_nodes s) n;
  st_Resources_DeleteIfTieBreaker s rd node :=
    let '(deleted, rs) := Resources_DeleteIfTieBreaker (im_resources s) rd node in
    (Ok deleted, with_resources s rs);
|}.

#[export] Instance InMemory_witness_laws {U : UuidLib} : WitnessLaws InMemory None.
Proof.
  constructor.
  - intros s rd node [Hr Hp]. cbn. unfold Resources_DeleteIfTieBreaker, has_flag.
    destruct (res_m (im_resources s) !! (rd, node)) as [r|] eqn:E; cbn; [|done].
    destruct (Contains (res_Flags r) ResourceFlagTieBreaker); [|done]. cbn. split; [|done].
    split; [by apply map_Forall_delete|done].
  - intros s r e s' _. cbn. unfold Resources_Create, kv_create. kv_cases.
  - intros s r. cbn. unfold im_commit. by destruct (Resources_Create _ _).
  - intros s rd node. cbn. unfold im_commit. by destruct (Resources_Delete _ _ _).
  - intros s rd node. cbn. by destruct (Resources_DeleteIfTieBreaker _ _ _).
  - done.
Qed.

#[export] Instance InMemory_reads {U : UuidLib} : ReadsAnswer InMemory None.
Proof.
  constructor; intros; try (by eexists). unfold probeNodeDirect. cbn. unfold Nodes_Get, kv_get.
  destruct (im_nodes s !! n); by eexists.
Qed.

Definition demo_node (n : string) : Node := mkNode n NodeTypeSatellite "" [] ∅ [] "" [] [] None None.

(** Two diskful replicas and a spare node. *)
Definition demo_pair : InMemory :=
  let disk n := mkResource "pvc-1" n ∅ [] zero_ResourceState "" None None false [] ∅ 0 in
  mkInMemory {["n1" := demo_node "n1"; "n2" := demo_node "n2"; "n3" := demo_node "n3"]} ∅ ∅ ∅
    (mkInMemoryResources {[("pvc-1", "n1") := disk "n1"; ("pvc-1", "n2") := disk "n2"]} ∅) ∅ ∅ ∅ ∅ ∅.

Definition demo_rd : RdObject := mkRdObject "pvc-1" false ∅ [] "" (SplitProps ∅) None [].

(** A pass over it, with an API server that accepts every write. *)
Definition demo_pass (s : InMemory) (rd : RdObject) : result reconcile_err unit * InMemory * RdObject :=
  ensureTiebreaker (Ops := @InMemory_ops example_uuid) (WOps := @InMemory_witness_ops example_uuid)
    None (fun _ => Ok []) 0 (fun _ _ => Ok tt) (fun _ => Err ApiOther) s rd.

Example demo_pass_runs :
  match demo_pass demo_pair demo_rd with
  | (Ok _, s', rd') => res_Flags <$> res_m (im_resources s') !! ("pvc-1", "n3") = Some witness_flags
                       /\ wire rd' !! quorumKey = Some "majority"
  | _ => False
  end.
Proof. vm_compute. done. Qed.

Lemma demo_ok : st_ok (StoreLaws := @InMemory_laws example_uuid) demo_pair.
Proof.
  split; [|apply map_Forall_empty].
  apply (bool_decide_eq_true_1 (map_Forall (fun i v => rKey v = i) (res_m (im_resources demo_pair)))).
  vm_compute. reflexivity.
Qed.

Lemma demo_unique : nodes_unique (Ops := @InMemory_ops example_uuid) demo_pair.
Proof.
  intros nodes [= <-]. apply (bool_decide_eq_true_1 _). vm_compute. reflexivity.
Qed.

Lemma ensureTiebreaker_frame_witness :
  let '(_, s', _) := demo_pass demo_pair demo_rd in
  st_ok (StoreLaws := @InMemory_laws example_uuid) demo_pair
  /\ exists n0, forall k, k <> ("pvc-1", n0) ->
       res_m (im_resources s') !! k = res_m (im_resources demo_pair) !! k.
Proof.
  pose proof (ensureTiebreaker_frame (WL := @InMemory_witness_laws example_uuid) None (fun _ => Ok []) 0
    (fun _ _ => Ok tt) (fun _ => Err ApiOther) demo_pair demo_rd demo_ok) as H.
  unfold demo_pass. destruct (ensureTiebreaker _ _ _ _ _ demo_pair demo_rd) as [[res s'] rd'].
  split; [exact demo_ok|]. destruct H as [n0 H]. exists n0. intros k Hk.
  destruct (H k) as [E|[(_ & _ & r & Hr & Hf)|(E & _)]]; [exact E| |contradiction]. exfalso.
  assert (map_Forall (fun _ r => has_flag ResourceFlagTieBreaker r = false) (res_m (im_resources demo_pair))) as Hnone
    by (apply (bool_decide_eq_true_1 _); vm_compute; reflexivity).
  specialize (Hnone _ _ Hr). cbn in Hnone. congruence.
Defined.

Lemma ensureTiebreaker_quorum_true_witness :
  exists s' rd', demo_pass demo_pair demo_rd = (Ok tt, s', rd') /\ wire rd' !! quorumKey = Some QuorumPolicyMajority.
Proof.
  destruct (demo_pass demo_pair demo_rd) as [[res s'] rd'] eqn:E. exists s', rd'.
  assert (res = Ok tt) as -> by (assert (H : (demo_pass demo_pair demo_rd).1.1 = Ok tt) by (vm_compute; reflexivity);
    rewrite E in H; exact H).
  split; [reflexivity|].
  destruct (ensureTiebreaker_quorum_true (WL := @InMemory_witness_laws example_uuid) None (fun _ => Ok []) 0
    (fun _ _ => Ok tt) (fun _ => Err ApiOther) demo_pair s' demo_rd rd' demo_ok demo_unique) as [H _];
    [discriminate|reflexivity|vm_compute; reflexivity|vm_compute; reflexivity|exact E|].
  rewrite H. f_equal.
  assert (s' = (demo_pass demo_pair demo_rd).1.2) as -> by (rewrite E; reflexivity). vm_compute. reflexivity.
Defined.


(** A raw pin of the action on quorum loss. *)
Definition pinned_rd : RdObject :=
  mkRdObject "pvc-1" false ∅ [] "" (mkScope {[onNoQuorumKey := "io-error"]} None ∅) None [].

Lemma setQuorum_on_no_quorum_witness :
  exists rd', setQuorum (fun _ _ => Ok tt) (fun _ => Err ApiOther) pinned_rd QuorumPolicyMajority = (Ok tt, rd')
    /\ wire pinned_rd !! onNoQuorumKey = Some "io-error" /\ wire rd' !! onNoQuorumKey = Some "suspend-io".
Proof.
  destruct (setQuorum_on_no_quorum (fun _ _ => Ok tt) (fun _ => Err ApiOther) pinned_rd) as (rd' & H1 & H2 & _);
    [reflexivity|]. exists rd'. split; [exact H1|]. split; [vm_compute; reflexivity|]. rewrite H2. reflexivity.
Defined.

Lemma stored_optouts_witness :
  let rd := mkRdObject "pvc-1" false ∅ [] "" (SplitProps {[tiebreaker_key := "False"]}) None [] in
  isAutoTieBreakerEnabled rd = false.
Proof.
  cbv zeta. destruct (stored_optouts (H := @InMemory_ops example_uuid) (W := @InMemory_witness_ops example_uuid)
    None (fun _ => Ok []) 0 (fun _ _ => Ok tt) (fun _ => Err ApiOther) demo_pair
    (mkRdObject "pvc-1" false ∅ [] "" (SplitProps {[tiebreaker_key := "False"]}) None [])
    {[tiebreaker_key := "False"]} eq_refl) as [H _]. rewrite H. vm_compute. reflexivity.
Defined.

Lemma witness_steady_state_witness :
  shouldTieBreakerExist 0 demo_rd [zero_Resource; zero_Resource]
    [new_witness "pvc-1" "n3"; zero_Resource] [new_witness "pvc-1" "n3"] false = true.
Proof.
  apply (witness_steady_state 0 demo_rd [zero_Resource; zero_Resource]
    [new_witness "pvc-1" "n3"; zero_Resource] [new_witness "pvc-1" "n3"]); [reflexivity|reflexivity|].
  split; [vm_compute; reflexivity|]. right. cbn. lia.
Defined.
