(* ===== verification/LayerPin.v ===== *)
(** * Pinning the layer stack, and the resource-definition reconciler

    Models [internal/controller/resourcedefinition_layer_stack.go] (the stack of a definition
    is decided once), the resize stamps and [Reconcile] of
    [resourcedefinition_controller.go]. *)

From S2P Require Import Prelude Api Store CrdName DrbdOptions Tiebreaker.

Definition UnappliedGroupLayerStackAnnotation : string := "blockstor.io/unapplied-group-layer-stack".
Definition Bug148ResizePendingAnnotationPrefix : string :=
  "bug136.blockstor.cozystack.io/resize-pending-size-kib-vol-".

(** The status of a replica object: the MetadataCreated condition, and per volume its
    number, device path and usable size. *)
Record VolumeStatus := mkVolumeStatus {
  vst_VolumeNumber : Z;
  vst_DevicePath : string;
  vst_UsableKib : Z;
}.

Record ReplicaObject := mkReplicaObject {
  rpo_Name : string;
  rpo_ResourceDefinitionName : string;
  rpo_Annotations : gmap string string;
  rpo_MetadataCreated : bool;
  rpo_Volumes : list VolumeStatus;
}.

Definition with_rdo_LayerStack (rd : RdObject) (stack : list string) : RdObject :=
  mkRdObject (rdo_Name rd) (rdo_Deleting rd) (rdo_Annotations rd) stack (rdo_ResourceGroupName rd)
    (rdo_Spec rd) (rdo_Initialized rd) (rdo_VolumeDefinitions rd).
Definition with_rdo_Annotations (rd : RdObject) (a : gmap string string) : RdObject :=
  mkRdObject (rdo_Name rd) (rdo_Deleting rd) a (rdo_LayerStack rd) (rdo_ResourceGroupName rd)
    (rdo_Spec rd) (rdo_Initialized rd) (rdo_VolumeDefinitions rd).
Definition with_rpo_Annotations (r : ReplicaObject) (a : gmap string string) : ReplicaObject :=
  mkReplicaObject (rpo_Name r) (rpo_ResourceDefinitionName r) a (rpo_MetadataCreated r) (rpo_Volumes r).

Definition rdInitialized (rd : RdObject) : bool :=
  match rdo_Initialized rd with Some b => b | None => false end.

(** ** The layer stack *)

Section Pin.
(** The group of a CRD name with its layer stack ([None]: no such group), the replica
    objects of the cluster, and the answer to a patch of the definition. *)
Context (getGroup : string -> result api_err (option (list string))).
Context (listReplicas : result api_err (list ReplicaObject)).
Context (patch : RdObject -> result api_err unit).

Definition readGroup (rd : RdObject) : result api_err (option (list string)) :=
  getGroup (Name (rdo_ResourceGroupName rd)).

Definition replica_holds_data (rdName : string) (res : ReplicaObject) : bool :=
  bool_decide (rpo_ResourceDefinitionName res = rdName)
  && (rpo_MetadataCreated res || existsb (fun v => negb (bool_decide (vst_DevicePath v = ""))) (rpo_Volumes res)).

Definition rdHoldsData (rdName : string) : result api_err bool :=
  match listReplicas with
  | Err e => Err e
  | Ok items => Ok (existsb (replica_holds_data rdName) items)
  end.

Definition stackToPin (rd : RdObject) (groupStack : list string) : result api_err (list string) :=
  if rdInitialized rd then Ok DefaultLayerStack
  else match rdHoldsData (rdo_Name rd) with
       | Err e => Err e
       | Ok true => Ok DefaultLayerStack
       | Ok false => Ok groupStack
       end.

(** A write of the definition: the object as stored afterwards. *)
Definition patched (rd rd' : RdObject) : result api_err unit * RdObject :=
  match patch rd' with Ok _ => (Ok tt, rd') | Err e => (Err e, rd) end.

(** Bring the mark of a definition to the wanted value, the empty one for no mark. *)
Definition mark_unapplied (rd : RdObject) (want : string) : result api_err unit * RdObject :=
  let key := UnappliedGroupLayerStackAnnotation in
  if bool_decide (want = default "" (rdo_Annotations rd !! key)) then (Ok tt, rd)
  else if bool_decide (want = "") then patched rd (with_rdo_Annotations rd (delete key (rdo_Annotations rd)))
  else patched rd (with_rdo_Annotations rd (<[key := want]> (rdo_Annotations rd))).

Definition refreshUnappliedGroupStack (rd : RdObject) : result api_err unit * RdObject :=
  if bool_decide (rdo_ResourceGroupName rd = "") then mark_unapplied rd ""
  else match readGroup rd with
       | Err e => (Err e, rd)
       | Ok None => mark_unapplied rd ""
       | Ok (Some groupStack) =>
           mark_unapplied rd (if LacksLayerOf (rdo_LayerStack rd) groupStack then Str.join "," groupStack else "")
       end.

Definition pinLayerStack (rd : RdObject) : result api_err unit * RdObject :=
  if bool_decide (rdo_LayerStack rd <> []) then refreshUnappliedGroupStack rd
  else if bool_decide (rdo_ResourceGroupName rd = "") then (Ok tt, rd)
  else match readGroup rd with
       | Err e => (Err e, rd)
       | Ok None => (Ok tt, rd)
       | Ok (Some []) => (Ok tt, rd)
       | Ok (Some groupStack) =>
           match stackToPin rd groupStack with
           | Err e => (Err e, rd)
           | Ok stack =>
               let rd1 := with_rdo_LayerStack rd stack in
               let rd2 := if LacksLayerOf stack groupStack
                          then with_rdo_Annotations rd1 (<[UnappliedGroupLayerStackAnnotation
                                                           := Str.join "," groupStack]> (rdo_Annotations rd1))
                          else rd1 in
               patched rd rd2
           end
       end.

End Pin.

(** ** Resize stamps *)

Definition observedUsableKib (res : ReplicaObject) (vn : Z) : Z :=
  match List.find (fun v => bool_decide (vst_VolumeNumber v = vn)) (rpo_Volumes res) with
  | Some v => vst_UsableKib v
  | None => 0
  end.

Definition resize_key (vn : Z) : string := Bug148ResizePendingAnnotationPrefix +:+ format_int vn.

(** The loop over the volume definitions: the annotations, and whether one changed. *)
Definition stamp_volume (res : ReplicaObject) (acc : gmap string string * bool) (vd : Z * Z)
    : gmap string string * bool :=
  let '(vn, size) := vd in
  let '(annotations, updated) := acc in
  if bool_decide (observedUsableKib res vn = size) then acc
  else if bool_decide (annotations !! resize_key vn = Some (format_int size)) then acc
  else (<[resize_key vn := format_int size]> annotations, true).

(** The object to write, when it changed. *)
Definition stampResizePendingOnResource (rd : RdObject) (res : ReplicaObject) : option ReplicaObject :=
  let '(annotations, updated) := foldl (stamp_volume res) (rpo_Annotations res, false) (rdo_VolumeDefinitions rd) in
  if updated then Some (with_rpo_Annotations res annotations) else None.

(** The replica objects after the pass; a failed write is skipped. *)
Definition stampResizePending (accepts : ReplicaObject -> bool) (rd : RdObject)
    (list : result api_err (list ReplicaObject)) : result api_err (option (Datatypes.list ReplicaObject)) :=
  if bool_decide (rdo_VolumeDefinitions rd = []) then Ok None
  else match list with
       | Err e => Err e
       | Ok items =>
           Ok (Some ((fun res =>
             if bool_decide (rpo_ResourceDefinitionName res = rdo_Name rd) then
               match stampResizePendingOnResource rd res with
               | Some res' => if accepts res' then res' else res
               | None => res
               end
             else res) <$> items))
       end.

(** ** One reconcile *)

Section Reconcile.
Context {S : Type} {Ops : StoreOps S} {WOps : WitnessOps S} (reader : option (APIReader S)) (now : Z).
Context (getGroup : string -> result api_err (option (list string))).
(** The replica objects as the direct reader and as the cached client list them. *)
Context (listReplicas listCached : result api_err (list ReplicaObject)) (patch : RdObject -> result api_err unit).
Context (update : nat -> RdObject -> result api_err unit) (refetch : nat -> result api_err RdObject).
Context (accepts : ReplicaObject -> bool).

(** The group read of the witness gate: any failure counts as an error. *)
Definition witness_groupStack (name : string) : result store_err (list string) :=
  match getGroup name with
  | Ok (Some stack) => Ok stack
  | Ok None => Err ErrNotFound
  | Err _ => Err (ErrOther "get resource group")
  end.

(** [Reconcile]: the outcome, the store, the definition and the replica objects written.
    [fetched] is the answer to the read of the definition, [None] when it is gone. *)
Definition Reconcile (fetched : result api_err (option RdObject)) (s : S)
    : result reconcile_err unit * S * option RdObject * option (list ReplicaObject) :=
  match fetched with
  | Err e => (Err (FromApi e), s, None, None)
  | Ok None => (Ok tt, s, None, None)
  | Ok (Some rd) =>
      if rdo_Deleting rd then (Ok tt, s, Some rd, None)
      else match pinLayerStack getGroup listReplicas patch rd with
           | (Err e, rd1) => (Err (FromApi e), s, Some rd1, None)
           | (Ok _, rd1) =>
               match ensureTiebreaker reader witness_groupStack now update refetch s rd1 with
               | (Err e, s', rd2) => (Err e, s', Some rd2, None)
               | (Ok _, s', rd2) =>
                   match stampResizePending accepts rd2 listCached with
                   | Err e => (Err (FromApi e), s', Some rd2, None)
                   | Ok out => (Ok tt, s', Some rd2, out)
                   end
               end
           end
  end.

End Reconcile.

(** ** Facts *)

(** One pass of the pin, as its environment answers. *)
Record pin_env := mkPinEnv {
  env_getGroup : string -> result api_err (option (list string));
  env_listReplicas : result api_err (list ReplicaObject);
  env_patch : RdObject -> result api_err unit;
}.

Definition pin_in (rd : RdObject) (e : pin_env) : RdObject :=
  (pinLayerStack (env_getGroup e) (env_listReplicas e) (env_patch e) rd).2.

(** What an empty stack is built as. *)
Definition effective_stack (rd : RdObject) : list string :=
  if bool_decide (rdo_LayerStack rd = []) then DefaultLayerStack else rdo_LayerStack rd.

(** Whenever the replicas can be listed, one of them has gone to disk. *)
Definition data_seen (rdName : string) (e : pin_env) : Prop :=
  forall items, env_listReplicas e = Ok items -> existsb (replica_holds_data rdName) items = true.

Lemma patched_cases patch rd rd' : (patched patch rd rd').2 = rd \/ (patched patch rd rd').2 = rd'.
Proof. unfold patched. destruct (patch rd'); auto. Qed.

Lemma refresh_keeps getGroup patch rd :
  let rd' := (refreshUnappliedGroupStack getGroup patch rd).2 in
  rdo_LayerStack rd' = rdo_LayerStack rd /\ rdo_Name rd' = rdo_Name rd /\ rdo_Initialized rd' = rdo_Initialized rd.
Proof.
  cbv zeta. unfold refreshUnappliedGroupStack, mark_unapplied.
  repeat first [case_bool_decide | case_match]; try done;
    match goal with |- context [patched ?p ?a ?b] => destruct (patched_cases p a b) as [-> | ->] end; done.
Qed.

Lemma pin_step rd e :
  rdo_LayerStack rd <> [] \/ rdInitialized rd = true \/ data_seen (rdo_Name rd) e ->
  effective_stack (pin_in rd e) = effective_stack rd /\ rdo_Name (pin_in rd e) = rdo_Name rd
  /\ rdo_Initialized (pin_in rd e) = rdo_Initialized rd
  /\ (rdo_LayerStack rd <> [] -> rdo_LayerStack (pin_in rd e) <> []).
Proof.
  intros Hd. unfold pin_in, pinLayerStack. case_bool_decide as Hs.
  { destruct (refresh_keeps (env_getGroup e) (env_patch e) rd) as (H1 & H2 & H3).
    unfold effective_stack. rewrite H1, H2, H3. done. }
  destruct Hd as [?|Hd]; [done|].
  case_bool_decide; [done|]. destruct (readGroup _ rd) as [[[|l g]|]|]; try done.
  assert (forall stack, stackToPin (env_listReplicas e) rd (l :: g) = Ok stack -> stack = DefaultLayerStack) as Hst.
  { intros stack. unfold stackToPin, rdHoldsData. destruct (rdInitialized rd); [by intros [= <-]|].
    destruct Hd as [?|Hd]; [done|]. destruct (env_listReplicas e) as [items|] eqn:El; [|done].
    rewrite (Hd items El). by intros [= <-]. }
  destruct (stackToPin _ rd (l :: g)) as [stack|]; [|done]. rewrite (Hst stack eq_refl).
  match goal with |- context [patched ?p ?a ?b] => destruct (patched_cases p a b) as [-> | ->] end; [done|].
  unfold effective_stack. rewrite Hs. destruct (LacksLayerOf DefaultLayerStack (l :: g)); done.
Qed.

(** The layer stack of a volume is decided once: over any number of reconciles, with
    any groups and any outcome of the writes, a definition whose stack is set, or that
    already holds data (by its latch or by a replica that went to disk), keeps the stack it
    was built with; a group that gains a layer never reshapes it. *)
Theorem pin_never_reshapes rd (envs : list pin_env) :
  rdo_LayerStack rd <> [] \/ rdInitialized rd = true \/ Forall (data_seen (rdo_Name rd)) envs ->
  effective_stack (foldl pin_in rd envs) = effective_stack rd.
Proof.
  revert rd; induction envs as [|e envs IH]; intros rd Hd; [done|]. cbn [foldl].
  assert (rdo_LayerStack rd <> [] \/ rdInitialized rd = true \/ data_seen (rdo_Name rd) e) as Hd1.
  { destruct Hd as [?|[?|Hf]]; [by left|by right; left|]. inversion Hf; subst. auto. }
  destruct (pin_step rd e Hd1) as (H1 & H2 & H3 & H4). rewrite IH; [done|].
  destruct Hd as [?|[Hi|Hf]]; [left; auto|right; left|right; right].
  - unfold rdInitialized in *. by rewrite H3.
  - rewrite H2. by inversion Hf.
Qed.

Lemma LacksLayerOf_self stack : LacksLayerOf stack stack = false.
Proof.
  unfold LacksLayerOf. apply not_true_is_false. intros (l & Hin & Hl)%existsb_exists.
  apply negb_true_iff in Hl. assert (LayerInStack stack l = true) as E; [|congruence].
  unfold LayerInStack. apply existsb_exists. exists l. split; [done|]. apply bool_decide_eq_true. done.
Qed.

(** A definition that has neither a stack nor data takes the stack of its group, and
    carries no mark; one with a decided stack is marked, after every successful pass,
    exactly with the group's stack while it lacks a layer of it, and not otherwise. *)
Theorem pinLayerStack_follows_group getGroup listReplicas patch rd rd' :
  pinLayerStack getGroup listReplicas patch rd = (Ok tt, rd') ->
  let group := if bool_decide (rdo_ResourceGroupName rd = "") then Ok None
               else getGroup (Name (rdo_ResourceGroupName rd)) in
  (forall stack, rdo_LayerStack rd = [] -> rdInitialized rd = false ->
     rdHoldsData listReplicas (rdo_Name rd) = Ok false -> group = Ok (Some stack) ->
     rdo_LayerStack rd' = stack /\ rdo_Annotations rd' = rdo_Annotations rd)
  /\ (rdo_LayerStack rd <> [] ->
      exists g, group = Ok g
      /\ default "" (rdo_Annotations rd' !! UnappliedGroupLayerStackAnnotation)
         = match g with
           | Some stack => if LacksLayerOf (rdo_LayerStack rd) stack then Str.join "," stack else ""
           | None => ""
           end).
Proof.
  intros Hrun group. split.
  - intros stack Hs Hi Hdata Hg. unfold pinLayerStack in Hrun. rewrite bool_decide_eq_false_2 in Hrun by tauto.
    unfold group in Hg. case_bool_decide as Hn; [done|]. unfold readGroup in Hrun. rewrite Hg in Hrun.
    destruct stack as [|l g]; [by injection Hrun as <-|].
    unfold stackToPin in Hrun. rewrite Hi, Hdata, LacksLayerOf_self in Hrun. unfold patched in Hrun.
    destruct (patch _); [|done]. by injection Hrun as <-.
  - intros Hs. unfold pinLayerStack in Hrun. rewrite bool_decide_eq_true_2 in Hrun by done.
    unfold refreshUnappliedGroupStack in Hrun.
    assert (forall want, mark_unapplied patch rd want = (Ok tt, rd') ->
      default "" (rdo_Annotations rd' !! UnappliedGroupLayerStackAnnotation) = want) as Hf.
    { intros want Hm. clear Hrun. unfold mark_unapplied, patched in Hm.
      case_bool_decide as H1; [injection Hm as <-; done|].
      case_bool_decide as H2; destruct (patch _); try done; injection Hm as <-; cbn.
      - by rewrite lookup_delete_eq.
      - by rewrite lookup_insert_eq. }
    unfold group. destruct (bool_decide (rdo_ResourceGroupName rd = "")); [exists None; split; [done|]; by apply Hf|].
    unfold readGroup in Hrun. destruct (getGroup _) as [[stack|]|]; [| |done].
    + exists (Some stack). split; [done|]. by apply Hf.
    + exists None. split; [done|]. by apply Hf.
Qed.

(** ** Witnesses *)

Definition luks_group : string -> result api_err (option (list string)) :=
  fun _ => Ok (Some ["DRBD"; "LUKS"; "STORAGE"]).
Definition plain_rd : RdObject := mkRdObject "pvc-1" false ∅ [] "rg" (SplitProps ∅) None [].
Definition written : ReplicaObject := mkReplicaObject "pvc-1.n1" "pvc-1" ∅ true [].

Lemma pin_never_reshapes_witness :
  let e := mkPinEnv luks_group (Ok [written]) (fun _ => Ok tt) in
  effective_stack (foldl pin_in plain_rd [e; e]) = ["DRBD"; "STORAGE"]
  /\ rdo_Annotations (foldl pin_in plain_rd [e; e]) !! UnappliedGroupLayerStackAnnotation = Some "DRBD,LUKS,STORAGE".
Proof.
  split; [|vm_compute; reflexivity].
  rewrite (pin_never_reshapes plain_rd [mkPinEnv luks_group (Ok [written]) (fun _ => Ok tt);
                                        mkPinEnv luks_group (Ok [written]) (fun _ => Ok tt)]).
  - vm_compute. reflexivity.
  - right; right. repeat constructor; intros items [= <-]; vm_compute; reflexivity.
Defined.

Lemma pinLayerStack_follows_group_witness :
  exists rd', pinLayerStack luks_group (Ok []) (fun _ => Ok tt) plain_rd = (Ok tt, rd')
    /\ rdo_LayerStack rd' = ["DRBD"; "LUKS"; "STORAGE"].
Proof.
  eexists. split; [vm_compute; reflexivity|].
  destruct (pinLayerStack_follows_group luks_group (Ok []) (fun _ => Ok tt) plain_rd
    (pinLayerStack luks_group (Ok []) (fun _ => Ok tt) plain_rd).2) as [H _]; [vm_compute; reflexivity|].
  apply (H ["DRBD"; "LUKS"; "STORAGE"]); vm_compute; reflexivity.
Defined.
