(* ===== verification/DrbdStates.v ===== *)
(** * DRBD protocol states

    Models [pkg/drbd/states.go]. A state is the string the kernel prints, as in the code (the
    Go types are named string types, so a value outside the constants is possible and every
    predicate answers for it); a switch over constants is membership in the list of its case. *)

From S2P Require Import Prelude.

Definition one_of (s : string) (l : list string) : bool := bool_decide (s ∈ l).

Inductive state_err := UnknownState (s : string).

(** [switch T(s) { case <known>: return T(s), nil }; return error]. *)
Definition parse_state (known : list string) (s : string) : result state_err string :=
  if one_of s known then Ok s else Err (UnknownState s).

(** ** Roles *)
Module Role.
Definition RoleUnknown : string := "Unknown".
Definition RolePrimary : string := "Primary".
Definition RoleSecondary : string := "Secondary".
Definition Roles : list string := [RoleUnknown; RolePrimary; RoleSecondary].
Definition Role_IsPrimary (r : string) : bool := bool_decide (r = RolePrimary).
Definition Role_IsSecondary (r : string) : bool := bool_decide (r = RoleSecondary).
Definition Role_IsKnown (r : string) : bool := one_of r [RolePrimary; RoleSecondary].
Definition ParseRole (s : string) : result state_err string := parse_state Roles s.
End Role.

(** ** Disk states *)
Module Disk.
Definition DiskStateDiskless : string := "Diskless".
Definition DiskStateAttaching : string := "Attaching".
Definition DiskStateDetaching : string := "Detaching".
Definition DiskStateFailed : string := "Failed".
Definition DiskStateNegotiating : string := "Negotiating".
Definition DiskStateInconsistent : string := "Inconsistent".
Definition DiskStateOutdated : string := "Outdated".
Definition DiskStateDUnknown : string := "DUnknown".
Definition DiskStateConsistent : string := "Consistent".
Definition DiskStateUpToDate : string := "UpToDate".
Definition DiskStates : list string :=
  [DiskStateDiskless; DiskStateAttaching; DiskStateDetaching; DiskStateFailed; DiskStateNegotiating;
   DiskStateInconsistent; DiskStateOutdated; DiskStateDUnknown; DiskStateConsistent; DiskStateUpToDate].
Definition DiskState_IsTerminalGood (d : string) : bool := bool_decide (d = DiskStateUpToDate).
Definition DiskState_IsTransient (d : string) : bool :=
  one_of d [DiskStateAttaching; DiskStateDetaching; DiskStateNegotiating].
Definition DiskState_RequiresIntervention (d : string) : bool := one_of d [DiskStateFailed].
Definition DiskState_IsDiskless (d : string) : bool := bool_decide (d = DiskStateDiskless).
Definition ParseDiskState (s : string) : result state_err string := parse_state DiskStates s.
End Disk.

(** ** Connection states *)
Module Connection.
Definition ConnectionStateStandAlone : string := "StandAlone".
Definition ConnectionStateDisconnecting : string := "Disconnecting".
Definition ConnectionStateUnconnected : string := "Unconnected".
Definition ConnectionStateTimeout : string := "Timeout".
Definition ConnectionStateBrokenPipe : string := "BrokenPipe".
Definition ConnectionStateNetworkFailure : string := "NetworkFailure".
Definition ConnectionStateProtocolError : string := "ProtocolError".
Definition ConnectionStateTearDown : string := "TearDown".
Definition ConnectionStateConnecting : string := "Connecting".
Definition ConnectionStateConnected : string := "Connected".
Definition ConnectionStates : list string :=
  [ConnectionStateStandAlone; ConnectionStateDisconnecting; ConnectionStateUnconnected;
   ConnectionStateTimeout; ConnectionStateBrokenPipe; ConnectionStateNetworkFailure;
   ConnectionStateProtocolError; ConnectionStateTearDown; ConnectionStateConnecting;
   ConnectionStateConnected].
Definition ConnectionState_IsTerminalGood (c : string) : bool := bool_decide (c = ConnectionStateConnected).
Definition ConnectionState_IsTransient (c : string) : bool :=
  one_of c [ConnectionStateUnconnected; ConnectionStateConnecting; ConnectionStateDisconnecting;
            ConnectionStateTearDown].
Definition ConnectionState_RequiresIntervention (c : string) : bool :=
  one_of c [ConnectionStateStandAlone; ConnectionStateProtocolError].
Definition ConnectionState_IsTransportError (c : string) : bool :=
  one_of c [ConnectionStateTimeout; ConnectionStateBrokenPipe; ConnectionStateNetworkFailure].
Definition ParseConnectionState (s : string) : result state_err string := parse_state ConnectionStates s.
End Connection.

(** ** Replication states *)
Module Replication.
Definition ReplicationStateOff : string := "Off".
Definition ReplicationStateEstablished : string := "Established".
Definition ReplicationStateStartingSyncS : string := "StartingSyncS".
Definition ReplicationStateStartingSyncT : string := "StartingSyncT".
Definition ReplicationStateWFBitMapS : string := "WFBitMapS".
Definition ReplicationStateWFBitMapT : string := "WFBitMapT".
Definition ReplicationStateWFSyncUUID : string := "WFSyncUUID".
Definition ReplicationStateSyncSource : string := "SyncSource".
Definition ReplicationStateSyncTarget : string := "SyncTarget".
Definition ReplicationStateVerifyS : string := "VerifyS".
Definition ReplicationStateVerifyT : string := "VerifyT".
Definition ReplicationStatePausedSyncS : string := "PausedSyncS".
Definition ReplicationStatePausedSyncT : string := "PausedSyncT".
Definition ReplicationStateAhead : string := "Ahead".
Definition ReplicationStateBehind : string := "Behind".
Definition ReplicationStates : list string :=
  [ReplicationStateOff; ReplicationStateEstablished; ReplicationStateStartingSyncS;
   ReplicationStateStartingSyncT; ReplicationStateWFBitMapS; ReplicationStateWFBitMapT;
   ReplicationStateWFSyncUUID; ReplicationStateSyncSource; ReplicationStateSyncTarget;
   ReplicationStateVerifyS; ReplicationStateVerifyT; ReplicationStatePausedSyncS;
   ReplicationStatePausedSyncT; ReplicationStateAhead; ReplicationStateBehind].
Definition ReplicationState_IsTerminalGood (r : string) : bool :=
  bool_decide (r = ReplicationStateEstablished).
Definition ReplicationState_IsSyncing (r : string) : bool :=
  one_of r [ReplicationStateSyncSource; ReplicationStateSyncTarget].
Definition ReplicationState_IsSyncSource (r : string) : bool :=
  one_of r [ReplicationStateSyncSource; ReplicationStateStartingSyncS; ReplicationStatePausedSyncS].
Definition ReplicationState_IsSyncTarget (r : string) : bool :=
  one_of r [ReplicationStateSyncTarget; ReplicationStateStartingSyncT; ReplicationStatePausedSyncT].
Definition ReplicationState_IsPaused (r : string) : bool :=
  one_of r [ReplicationStatePausedSyncS; ReplicationStatePausedSyncT].
Definition ReplicationState_IsVerifying (r : string) : bool :=
  one_of r [ReplicationStateVerifyS; ReplicationStateVerifyT].
Definition ReplicationState_IsTransient (r : string) : bool :=
  one_of r [ReplicationStateStartingSyncS; ReplicationStateStartingSyncT; ReplicationStateWFBitMapS;
            ReplicationStateWFBitMapT; ReplicationStateWFSyncUUID; ReplicationStateSyncSource;
            ReplicationStateSyncTarget; ReplicationStateVerifyS; ReplicationStateVerifyT;
            ReplicationStatePausedSyncS; ReplicationStatePausedSyncT; ReplicationStateAhead;
            ReplicationStateBehind].
Definition ReplicationState_RequiresIntervention (r : string) : bool := one_of r [ReplicationStateOff].
Definition ParseReplicationState (s : string) : result state_err string := parse_state ReplicationStates s.
End Replication.

(** ** The classifications *)

Lemma parse_state_Ok known s d : parse_state known s = Ok d <-> d = s /\ s ∈ known.
Proof. unfold parse_state, one_of. case_bool_decide; naive_solver. Qed.

(** How many of the predicates hold. *)
Definition holding (l : list bool) : nat := length (filter (fun b => b = true) l).

Import Disk Connection Replication.

Ltac each_state H := cbn in H; repeat (apply elem_of_cons in H as [->|H]); [..|by apply elem_of_nil in H].

(** The kernel states are classified consistently. A parser returns the string it was given
    and accepts the listed ones only. A state is never two of steady, self-resolving and needing
    an operator; a parsed replication state is exactly one of them, and so is a parsed connection
    state once broken transport is a class of its own. A parsed disk state is none of the three
    exactly when it is Diskless, Inconsistent, Outdated, DUnknown or Consistent. A paused or
    running resync is a resync in exactly one direction. *)
Theorem states_classified s d :
  (ParseDiskState s = Ok d -> d = s /\
     holding [DiskState_IsTerminalGood d; DiskState_IsTransient d; DiskState_RequiresIntervention d]
       = (if one_of d ["Diskless"; "Inconsistent"; "Outdated"; "DUnknown"; "Consistent"] then 0 else 1)%nat)
  /\ (ParseConnectionState s = Ok d -> d = s /\
     holding [ConnectionState_IsTerminalGood d; ConnectionState_IsTransient d;
              ConnectionState_RequiresIntervention d; ConnectionState_IsTransportError d] = 1%nat)
  /\ (ParseReplicationState s = Ok d -> d = s /\
     holding [ReplicationState_IsTerminalGood d; ReplicationState_IsTransient d;
              ReplicationState_RequiresIntervention d] = 1%nat
     /\ holding [ReplicationState_IsSyncSource d; ReplicationState_IsSyncTarget d]
       = (if ReplicationState_IsSyncing d || ReplicationState_IsPaused d
             || one_of d ["StartingSyncS"; "StartingSyncT"] then 1 else 0)%nat).
Proof.
  unfold ParseDiskState, ParseConnectionState, ParseReplicationState. rewrite !parse_state_Ok.
  split_and!; intros [-> H]; (split; [done|]); each_state H; vm_compute; auto.
Qed.

Lemma states_classified_witness :
  ParseReplicationState "PausedSyncT" = Ok "PausedSyncT"
  /\ holding [ReplicationState_IsSyncSource "PausedSyncT"; ReplicationState_IsSyncTarget "PausedSyncT"] = 1%nat
  /\ ParseDiskState "Negotiating" = Ok "Negotiating"
  /\ holding [DiskState_IsTerminalGood "Negotiating"; DiskState_IsTransient "Negotiating";
              DiskState_RequiresIntervention "Negotiating"] = 1%nat.
Proof.
  split; [vm_compute; reflexivity|]. split.
  - destruct (states_classified "PausedSyncT" "PausedSyncT") as (_ & _ & H).
    destruct (H ltac:(vm_compute; reflexivity)) as (_ & _ & ->). vm_compute. reflexivity.
  - split; [vm_compute; reflexivity|].
    destruct (states_classified "Negotiating" "Negotiating") as (H & _ & _).
    destruct (H ltac:(vm_compute; reflexivity)) as (_ & ->). vm_compute. reflexivity.
Defined.
