(* ===== verification/Kube.v ===== *)
(** * Kubernetes objects and the client of the controllers

    The custom resources of [api/v1alpha1] the replica controller works on, the state and
    error monad its code is written in, and the API server as an interface: [KubeOps] lists
    the calls, [KubeLaws] what a call means.

    The controllers read through two readers. The cached one ([cached*]) answers from the
    informer cache and may be arbitrarily old, so nothing is assumed of its answers. The
    direct one ([read*]) answers from the API server. Between any two calls other writers
    (REST server, satellites, operators) may act; [others] says what they leave alone. A
    resource version stands for the object that carries it: a write guarded by the version
    of an object is a write that succeeds only while that object is the current one. *)

From S2P Require Import Prelude Api DrbdAlloc.
Import Alloc.

(** ** Objects

    The records carry the fields the controllers and the dispatcher read or write. *)

Record ResourceVolumeSpec := mkResourceVolumeSpec {
  rvs_VolumeNumber : Z;
  rvs_SeedFromGI : string;
}.

Record ResourceSpec := mkResourceSpec {
  rs_ResourceDefinitionName : string;
  rs_NodeName : string;
  rs_Props : gmap string string;
  rs_Flags : list string;
  rs_StoragePool : string;
  rs_Volumes : list ResourceVolumeSpec;
  rs_DRBDPort : option Z;
  rs_DRBDNodeID : option Z;
  rs_SkipInitialSync : option bool;
}.

Record ResourceVolumeStatus := mkResourceVolumeStatus {
  rvt_VolumeNumber : Z;
  rvt_DiskState : string;
  rvt_CurrentGI : string;
}.

Record ResourceStatus := mkResourceStatus {
  rst_InUse : bool;
  rst_DRBDNodeID : option Z;
  rst_DRBDPort : option Z;
  rst_DRBDMinor : option Z;
  rst_Volumes : list ResourceVolumeStatus;
  rst_PeerDRBDNodeIDs : list (option Z);  (* Connections[].PeerDRBDNodeID *)
}.

Record ResourceCR := mkResourceCR {
  rc_Name : string;
  rc_Deleting : bool;  (* DeletionTimestamp is set *)
  rc_Finalizers : list string;
  rc_Annotations : gmap string string;
  rc_Spec : ResourceSpec;
  rc_Status : ResourceStatus;
}.

Record ResourceDefinitionVolume := mkResourceDefinitionVolume {
  rdv_VolumeNumber : Z;
  rdv_SizeKib : Z;
  rdv_Props : gmap string string;
  rdv_Flags : list string;
  rdv_DRBDMinor : option Z;
}.

Record ResourceDefinitionCR := mkResourceDefinitionCR {
  rdc_Name : string;
  rdc_Props : gmap string string;
  rdc_LayerStack : list string;
  rdc_VolumeDefinitions : list ResourceDefinitionVolume;
  rdc_DRBDPort : option Z;
  rdc_Initialized : option bool;
  rdc_StatusDRBDMinor : option Z;
}.

Record PortRange := mkPortRange { pr_Min : Z; pr_Max : Z }.

Record NodeSpec := mkNodeSpec {
  ns_Props : gmap string string;
  ns_DRBDPortRange : option PortRange;
  ns_DRBDMinorRange : option PortRange;
}.

#[global] Instance ResourceVolumeSpec_eq_dec : EqDecision ResourceVolumeSpec.
Proof. solve_decision. Defined.
#[global] Instance ResourceSpec_eq_dec : EqDecision ResourceSpec.
Proof. solve_decision. Defined.
#[global] Instance ResourceVolumeStatus_eq_dec : EqDecision ResourceVolumeStatus.
Proof. solve_decision. Defined.
#[global] Instance ResourceStatus_eq_dec : EqDecision ResourceStatus.
Proof. solve_decision. Defined.
#[global] Instance ResourceCR_eq_dec : EqDecision ResourceCR.
Proof. solve_decision. Defined.
#[global] Instance ResourceDefinitionVolume_eq_dec : EqDecision ResourceDefinitionVolume.
Proof. solve_decision. Defined.
#[global] Instance ResourceDefinitionCR_eq_dec : EqDecision ResourceDefinitionCR.
Proof. solve_decision. Defined.

(** Field updates. *)
Definition with_spec (r : ResourceCR) (sp : ResourceSpec) : ResourceCR :=
  mkResourceCR (rc_Name r) (rc_Deleting r) (rc_Finalizers r) (rc_Annotations r) sp (rc_Status r).
Definition with_status (r : ResourceCR) (st : ResourceStatus) : ResourceCR :=
  mkResourceCR (rc_Name r) (rc_Deleting r) (rc_Finalizers r) (rc_Annotations r) (rc_Spec r) st.
Definition with_finalizers (r : ResourceCR) (fs : list string) : ResourceCR :=
  mkResourceCR (rc_Name r) (rc_Deleting r) fs (rc_Annotations r) (rc_Spec r) (rc_Status r).
Definition mark_deleting (r : ResourceCR) : ResourceCR :=
  mkResourceCR (rc_Name r) true (rc_Finalizers r) (rc_Annotations r) (rc_Spec r) (rc_Status r).

Definition with_identities (sp : ResourceSpec) (port nodeID : option Z) (skip : option bool) : ResourceSpec :=
  mkResourceSpec (rs_ResourceDefinitionName sp) (rs_NodeName sp) (rs_Props sp) (rs_Flags sp)
    (rs_StoragePool sp) (rs_Volumes sp) port nodeID skip.
Definition with_volumes (sp : ResourceSpec) (vols : list ResourceVolumeSpec) : ResourceSpec :=
  mkResourceSpec (rs_ResourceDefinitionName sp) (rs_NodeName sp) (rs_Props sp) (rs_Flags sp)
    (rs_StoragePool sp) vols (rs_DRBDPort sp) (rs_DRBDNodeID sp) (rs_SkipInitialSync sp).
Definition with_pool (sp : ResourceSpec) (flags : list string) (pool : string)
    (props : gmap string string) : ResourceSpec :=
  mkResourceSpec (rs_ResourceDefinitionName sp) (rs_NodeName sp) props flags pool (rs_Volumes sp)
    (rs_DRBDPort sp) (rs_DRBDNodeID sp) (rs_SkipInitialSync sp).
Definition with_status_ids (st : ResourceStatus) (nodeID port minor : option Z) : ResourceStatus :=
  mkResourceStatus (rst_InUse st) nodeID port minor (rst_Volumes st) (rst_PeerDRBDNodeIDs st).
Definition with_minor (vd : ResourceDefinitionVolume) (m : option Z) : ResourceDefinitionVolume :=
  mkResourceDefinitionVolume (rdv_VolumeNumber vd) (rdv_SizeKib vd) (rdv_Props vd) (rdv_Flags vd) m.
Definition with_rd_volumes (rd : ResourceDefinitionCR) (vols : list ResourceDefinitionVolume) :
    ResourceDefinitionCR :=
  mkResourceDefinitionCR (rdc_Name rd) (rdc_Props rd) (rdc_LayerStack rd) vols (rdc_DRBDPort rd) (rdc_Initialized rd) (rdc_StatusDRBDMinor rd).
Definition with_initialized (rd : ResourceDefinitionCR) : ResourceDefinitionCR :=
  mkResourceDefinitionCR (rdc_Name rd) (rdc_Props rd) (rdc_LayerStack rd) (rdc_VolumeDefinitions rd) (rdc_DRBDPort rd) (Some true)
    (rdc_StatusDRBDMinor rd).

(** ** The monad

    Code that calls the API server threads its state and returns a value or an error. [EStuck]
    marks a scan that ran out of fuel; the allocators never produce it. *)

Inductive kerr :=
| KNotFound
| KConflict
| KOther
| EAlloc (e : alloc_err)
| ERange (e : range_err)
| EStuck.

Definition IsNotFound (e : kerr) : bool := match e with KNotFound => true | _ => false end.
Definition IsConflict (e : kerr) : bool := match e with KConflict => true | _ => false end.

Definition K (S A : Type) : Type := S -> result kerr A * S.

#[global] Instance K_ret S : MRet (K S) := fun A a s => (Ok a, s).
#[global] Instance K_bind S : MBind (K S) := fun A B k m s =>
  match m s with
  | (Ok a, s') => k a s'
  | (Err e, s') => (Err e, s')
  end.
Definition throw {S A} (e : kerr) : K S A := fun s => (Err e, s).
Definition lift {S A} (r : result kerr A) : K S A := fun s => (r, s).
(** [r, err := m()], with both in hand. *)
Definition attempt {S A} (m : K S A) : K S (result kerr A) :=
  fun s => let '(r, s') := m s in (Ok r, s').
(** [if errors.IsNotFound(err) { return d, nil }; return err], and [k] on success. *)
Definition unlessGone {S A B} (m : K S A) (d : B) (k : A -> K S B) : K S B :=
  r ← attempt m;
  match r with
  | Ok a => k a
  | Err e => if IsNotFound e then mret d else throw e
  end.

(** [retry.RetryOnConflict]: run the body again while it reports a conflict, [steps] times at
    most in all; the last error is the answer. *)
Fixpoint RetryOnConflict {S A} (steps : nat) (m : K S A) : K S A :=
  match steps with
  | O => m
  | Datatypes.S n =>
      r ← attempt m;
      match r with
      | Ok a => mret a
      | Err e => if IsConflict e then RetryOnConflict n m else throw e
      end
  end.

(** [retry.DefaultRetry] makes five attempts: the first and four more. *)
Definition DefaultRetry : nat := 4.

(** ** The calls *)

Class KubeOps (S : Type) := {
  cachedResource : string -> K S ResourceCR;
  cachedResources : K S (list ResourceCR);
  cachedRD : string -> K S ResourceDefinitionCR;
  cachedNode : string -> K S NodeSpec;
  cachedConfig : K S (gmap string string);  (* ControllerConfig.Spec.ExtraProps *)
  cachedNodes : K S (list NodeSpec);
  storagePools : K S (list StoragePool);
  readResource : string -> K S ResourceCR;
  readResources : K S (list ResourceCR);
  readRD : string -> K S ResourceDefinitionCR;
  readRDs : K S (list ResourceDefinitionCR);
  (** Merge patches: the fields given, a nil pointer being a JSON null, which removes. *)
  patchSpecIdentities : string -> option Z -> option Z -> option bool -> K S unit;
  patchSkipInitialSync : string -> bool -> K S unit;
  patchStatusIdentities : string -> option Z -> option Z -> option Z -> K S unit;
  patchInitialized : string -> K S unit;
  (** Writes guarded by the version of the object read. *)
  patchVolumeMinors : ResourceDefinitionCR -> list ResourceDefinitionVolume -> K S unit;
  updateResource : ResourceCR -> ResourceCR -> K S unit;
  deleteResource : string -> K S unit;
}.

(** ** What the calls mean *)

(** The objects the API server holds, and the names of replicas that are or were in use. *)
Record kview := mkView {
  v_resources : gmap string ResourceCR;
  v_rds : gmap string ResourceDefinitionCR;
  v_born : gset string;
}.

(** The identities as they were; the port recorded in the status may have been cleared ([ClearDRBDPort]). *)
Definition same_identities (r r' : ResourceCR) : Prop :=
  rs_ResourceDefinitionName (rc_Spec r') = rs_ResourceDefinitionName (rc_Spec r)
  /\ rs_NodeName (rc_Spec r') = rs_NodeName (rc_Spec r)
  /\ rs_DRBDNodeID (rc_Spec r') = rs_DRBDNodeID (rc_Spec r)
  /\ rs_DRBDPort (rc_Spec r') = rs_DRBDPort (rc_Spec r)
  /\ rs_SkipInitialSync (rc_Spec r') = rs_SkipInitialSync (rc_Spec r)
  /\ rst_DRBDNodeID (rc_Status r') = rst_DRBDNodeID (rc_Status r)
  /\ (rst_DRBDPort (rc_Status r') = rst_DRBDPort (rc_Status r) \/ rst_DRBDPort (rc_Status r') = None).

Definition no_identities (r : ResourceCR) : Prop :=
  rs_DRBDNodeID (rc_Spec r) = None /\ rs_DRBDPort (rc_Spec r) = None
  /\ rs_SkipInitialSync (rc_Spec r) = None
  /\ rst_DRBDNodeID (rc_Status r) = None /\ rst_DRBDPort (rc_Status r) = None.

(** The minors a list of volumes holds, and the pairs of number and minor. *)
Definition minors (vols : list ResourceDefinitionVolume) : list Z := omap rdv_DRBDMinor vols.

(** Every object is filed under its name. *)
Definition named (v : kview) : Prop :=
  (forall n r, v_resources v !! n = Some r -> rc_Name r = n /\ n ∈ v_born v)
  /\ (forall n rd, v_rds v !! n = Some rd -> rdc_Name rd = n).

(** What other writers may do while a pass runs: they create replicas under fresh names and
    without identities, create definitions without minors, delete objects, and change anything
    of an object but the identities of a replica, of which they may only clear the port in the status; the minors of a definition may lose entries
    (a volume is deleted) but not gain any, and the legacy base stays. *)
Definition others (v v' : kview) : Prop :=
  (named v -> named v')
  /\ v_born v ⊆ v_born v'
  /\ (forall n r', v_resources v' !! n = Some r' ->
       match v_resources v !! n with
       | Some r => same_identities r r'
       | None => no_identities r' /\ n ∉ v_born v
       end)
  /\ (forall n rd', v_rds v' !! n = Some rd' ->
       match v_rds v !! n with
       | Some rd => minors (rdc_VolumeDefinitions rd') `sublist_of` minors (rdc_VolumeDefinitions rd)
                    /\ rdc_StatusDRBDMinor rd' = rdc_StatusDRBDMinor rd
       | None => minors (rdc_VolumeDefinitions rd') = [] /\ rdc_StatusDRBDMinor rd' = None
       end).

(** The validation rule of the identity fields: a value that is set may be removed, but not
    replaced by another. *)
Definition settable_once {A} (old new : option A) : Prop := old = None \/ new = None \/ new = old.

Definition spec_settable (port nodeID : option Z) (skip : option bool) (r : ResourceCR) : Prop :=
  settable_once (rs_DRBDPort (rc_Spec r)) port
  /\ settable_once (rs_DRBDNodeID (rc_Spec r)) nodeID
  /\ settable_once (rs_SkipInitialSync (rc_Spec r)) skip.

Section Meaning.
Context {S : Type} (view : S -> kview).

(** A call that only reads. *)
Definition reading {A} (m : K S A) : Prop := forall s, others (view s) (view (m s).2).

(** A call that writes: other writers act first, then the write takes effect or it does not. A
    call that fails with a missing object or a conflict did nothing; one that fails otherwise
    (a timeout) may have been carried out. *)
Definition writing (effect : kview -> kview -> Prop) (m : K S unit) : Prop :=
  forall s, exists v, others (view s) v /\
    match (m s).1 with
    | Ok _ => effect v (view (m s).2)
    | Err KOther => view (m s).2 = v \/ effect v (view (m s).2)
    | Err _ => view (m s).2 = v
    end.

Definition resource_effect (n : string) (pre : ResourceCR -> Prop) (f : ResourceCR -> ResourceCR)
    (v v' : kview) : Prop :=
  exists r, v_resources v !! n = Some r /\ pre r
    /\ v' = mkView (<[n := f r]> (v_resources v)) (v_rds v) (v_born v).
Definition rd_effect (n : string) (pre : ResourceDefinitionCR -> Prop)
    (f : ResourceDefinitionCR -> ResourceDefinitionCR) (v v' : kview) : Prop :=
  exists rd, v_rds v !! n = Some rd /\ pre rd
    /\ v' = mkView (v_resources v) (<[n := f rd]> (v_rds v)) (v_born v).
Definition delete_effect (n : string) (v v' : kview) : Prop :=
  v' = mkView (delete n (v_resources v)) (v_rds v) (v_born v)
  \/ resource_effect n (fun _ => True) mark_deleting v v'.
End Meaning.

Class KubeLaws (S : Type) {Ops : KubeOps S} := {
  view : S -> kview;
  cachedResource_reads n : reading view (cachedResource n);
  cachedResources_reads : reading view cachedResources;
  cachedRD_reads n : reading view (cachedRD n);
  cachedNode_reads n : reading view (cachedNode n);
  cachedConfig_reads : reading view cachedConfig;
  cachedNodes_reads : reading view cachedNodes;
  storagePools_reads : reading view storagePools;
  readResource_reads n : reading view (readResource n);
  readResource_answer n s r : (readResource n s).1 = Ok r ->
    v_resources (view (readResource n s).2) !! n = Some r;
  readResources_reads : reading view readResources;
  readResources_answer s l : (readResources s).1 = Ok l ->
    forall r, r ∈ l <-> exists n, v_resources (view (readResources s).2) !! n = Some r;
  readRD_reads n : reading view (readRD n);
  readRD_answer n s rd : (readRD n s).1 = Ok rd -> v_rds (view (readRD n s).2) !! n = Some rd;
  readRDs_reads : reading view readRDs;
  readRDs_answer s l : (readRDs s).1 = Ok l ->
    forall rd, rd ∈ l <-> exists n, v_rds (view (readRDs s).2) !! n = Some rd;
  patchSpecIdentities_writes n nodeID port skip : writing view
    (resource_effect n (spec_settable port nodeID skip)
      (fun r => with_spec r (with_identities (rc_Spec r) port nodeID skip)))
    (patchSpecIdentities n nodeID port skip);
  patchSkipInitialSync_writes n skip : writing view
    (resource_effect n (fun r => settable_once (rs_SkipInitialSync (rc_Spec r)) (Some skip)) (fun r => with_spec r
      (with_identities (rc_Spec r) (rs_DRBDPort (rc_Spec r)) (rs_DRBDNodeID (rc_Spec r)) (Some skip))))
    (patchSkipInitialSync n skip);
  patchStatusIdentities_writes n nodeID port minor : writing view
    (resource_effect n (fun _ => True) (fun r => with_status r (with_status_ids (rc_Status r) nodeID port minor)))
    (patchStatusIdentities n nodeID port minor);
  patchInitialized_writes n : writing view (rd_effect n (fun _ => True) with_initialized) (patchInitialized n);
  patchVolumeMinors_writes base vols : writing view
    (rd_effect (rdc_Name base) (fun rd => rd = base) (fun rd => with_rd_volumes rd vols))
    (patchVolumeMinors base vols);
  updateResource_writes base new : rc_Name new = rc_Name base -> writing view
    (resource_effect (rc_Name base) (fun r => r = base) (fun r => with_status new (rc_Status r)))
    (updateResource base new);
  deleteResource_writes n : writing view (delete_effect n) (deleteResource n);
}.

(** ** Reasoning about code that calls the API server

    [triple J P m Q E]: from a view that satisfies the invariant [J] and [P], the call [m] ends
    in one that satisfies [J], and [Q] of its value or, when it fails, [E]. [J] and [P] are
    facts no other writer can break. *)

Section Logic.
Context {S : Type} {Ops : KubeOps S} {KL : KubeLaws S}.
Implicit Types J P E : kview -> Prop.

Definition triple {A} J P (m : K S A) (Q : A -> kview -> Prop) E : Prop :=
  forall s, J (view s) -> P (view s) ->
    J (view (m s).2)
    /\ match (m s).1 with Ok a => Q a (view (m s).2) | Err _ => E (view (m s).2) end.

Definition stable J P : Prop := forall v v', J v -> others v v' -> P v -> P v'.

Definition TT : kview -> Prop := fun _ => True.

Lemma stable_and J P Q : stable J P -> stable J Q -> stable J (fun v => P v /\ Q v).
Proof using. intros HP HQ v v' Hj Ho [? ?]. split; eauto. Qed.

Lemma stable_TT J : stable J TT.
Proof using. by intros v v' _ _ _. Qed.

Lemma stable_pure J (A : Prop) : stable J (fun _ => A).
Proof using. by intros v v' _ _ H'. Qed.

Lemma triple_weaken {A} J P P' (m : K S A) Q Q' E E' :
  triple J P m Q E -> (forall v, J v -> P' v -> P v) -> (forall a v, J v -> Q a v -> Q' a v) ->
  (forall v, J v -> E v -> E' v) -> triple J P' m Q' E'.
Proof using.
  intros H HP HQ HE s Hj Hp. destruct (H s Hj (HP _ Hj Hp)) as [Hj' Hr]. split; [done|].
  destruct (m s).1; eauto.
Qed.

Lemma triple_ret {A} J P (a : A) (Q : A -> kview -> Prop) E :
  (forall v, J v -> P v -> Q a v) -> triple J P (mret a) Q E.
Proof using. intros H s Hj Hp. cbn. auto. Qed.

Lemma triple_lift {A} J P (r : result kerr A) (Q : A -> kview -> Prop) E :
  (forall v, J v -> P v -> match r with Ok a => Q a v | Err _ => E v end) -> triple J P (lift r) Q E.
Proof using. intros H s Hj Hp. split; [done|]. exact (H _ Hj Hp). Qed.

Lemma triple_throw {A} J P e (Q : A -> kview -> Prop) E :
  (forall v, J v -> P v -> E v) -> triple J P (throw e) Q E.
Proof using. intros H s Hj Hp. cbn. auto. Qed.

Lemma triple_bind {A B} J P (m : K S A) (k : A -> K S B) R Q E :
  triple J P m R E -> (forall a, triple J (R a) (k a) Q E) -> triple J P (m ≫= k) Q E.
Proof using.
  intros Hm Hk s Hj Hp. destruct (Hm s Hj Hp) as [Hj' Hr].
  unfold mbind, K_bind. destruct (m s) as [[a|e] s']; cbn in *; [|done]. by apply Hk.
Qed.

Lemma triple_attempt {A} J P (m : K S A) R E E' :
  triple J P m (fun a => R (Ok a)) E -> (forall e v, J v -> E v -> R (Err e) v) ->
  triple J P (attempt m) R E'.
Proof using.
  intros Hm HE s Hj Hp. destruct (Hm s Hj Hp) as [Hj' Hr].
  unfold attempt. destruct (m s) as [[a|e] s']; cbn in *; auto.
Qed.

Lemma triple_unlessGone {A B} J P (m : K S A) (d : B) (k : A -> K S B) R Q E' E :
  triple J P m R E' -> (forall v, J v -> E' v -> Q d v /\ E v) ->
  (forall a, triple J (R a) (k a) Q E) -> triple J P (unlessGone m d k) Q E.
Proof using.
  intros Hm Hd Hk. unfold unlessGone.
  apply triple_bind with (R := fun r v => match r with Ok a => R a v | Err _ => E' v end).
  - by apply triple_attempt with (E := E').
  - intros [a|e]; [apply Hk|]. destruct (IsNotFound e).
    + apply triple_ret. intros v Hj He. by apply Hd.
    + apply triple_throw. intros v Hj He. by apply Hd.
Qed.

Lemma triple_retry {A} J P n (m : K S A) Q :
  triple J P m Q P -> triple J P (RetryOnConflict n m) Q P.
Proof using.
  intros Hm. induction n as [|n IH]; [done|]. cbn.
  apply triple_bind with (R := fun r v => match r with Ok a => Q a v | Err _ => P v end).
  - by apply triple_attempt with (E := P).
  - intros [a|e]; [by apply triple_ret|]. destruct (IsConflict e); [done | by apply triple_throw].
Qed.

Lemma triple_read {A} J P (m : K S A) (fact : A -> kview -> Prop) :
  stable J J -> stable J P -> reading view m ->
  (forall s a, (m s).1 = Ok a -> fact a (view (m s).2)) ->
  triple J P m (fun a v => P v /\ fact a v) P.
Proof using.
  intros HJ HP Hr Hf s Hj Hp. specialize (Hr s). specialize (Hf s).
  split; [by eapply HJ|]. destruct (m s).1; [split; [|by apply Hf]|]; by eapply HP.
Qed.

(** A read of which nothing is known but that it is one. *)
Lemma triple_any {A} J P (m : K S A) :
  stable J J -> stable J P -> reading view m -> triple J P m (fun _ => P) P.
Proof using.
  intros HJ HP Hr s Hj Hp. specialize (Hr s). split; [by eapply HJ|].
  destruct (m s).1; by eapply HP.
Qed.

Lemma triple_write J P m effect Q E :
  stable J J -> stable J P -> writing view effect m ->
  (forall v v', J v -> P v -> effect v v' -> J v' /\ Q tt v' /\ E v') ->
  (forall v, J v -> P v -> E v) -> triple J P m Q E.
Proof using.
  intros HJ HP Hw He Herr s Hj Hp. destruct (Hw s) as (v & Ho & Hr).
  pose proof (HJ _ _ Hj Ho Hj) as Hv. pose proof (HP _ _ Hj Ho Hp) as Hpv.
  assert (forall v', effect v v' -> J v' /\ Q tt v' /\ E v') as He' by eauto.
  destruct (m s).1 as [[]|e].
  - by destruct (He' _ Hr) as (? & ? & ?).
  - assert (view (m s).2 = v \/ effect v (view (m s).2)) as [Hn|Heff] by (destruct e; tauto).
    + rewrite Hn. auto.
    + by destruct (He' _ Heff) as (? & ? & ?).
Qed.

End Logic.

Arguments triple {S _ _ A} J P m Q E.
