(* ===== verification/ReplicaIds.v ===== *)
(** * The replica controller: DRBD identities

    Models the identity allocation of [internal/controller/resource_controller.go]: node ids
    per definition, ports per node, minors per volume across the cluster, the
    skip-initial-sync stamp, the one-time migration from the status, and the windows they are
    drawn from. Every function is written over [KubeOps]; the mutexes of the code make the body
    of [allocateAndApplyDRBDIDs] the only allocator at work, which is what [others] assumes. *)

From S2P Require Import Prelude Api DrbdAlloc Kube.
Import Alloc.

Section Ids.
Context {S : Type} {Ops : KubeOps S}.

(** ** Windows *)

Definition parse_window (raw : string) : result kerr (Z * Z) :=
  match ParseRange raw with Ok w => Ok w | Err e => Err (ERange e) end.

(** [clusterRange]: the window of the ControllerConfig, with whether it is set. *)
Definition clusterRange (prop : string) (defLow defHigh : Z) : K S (Z * Z * bool) :=
  unlessGone cachedConfig (defLow, defHigh, false) (fun extraProps =>
    let raw := default "" (extraProps !! prop) in
    if bool_decide (raw = "") then mret (defLow, defHigh, false)
    else '(low, high) ← lift (parse_window raw); mret (low, high, true)).

Definition nodeRange (nodeName : string) (pick : NodeSpec -> option PortRange) (legacyProp : string)
    (defLow defHigh : Z) : K S (Z * Z) :=
  unlessGone (cachedNode nodeName) (defLow, defHigh) (fun node =>
    match pick node with
    | Some typed => mret (pr_Min typed, pr_Max typed)
    | None =>
        let raw := default "" (ns_Props node !! legacyProp) in
        if bool_decide (raw = "") then mret (defLow, defHigh)
        else lift (parse_window raw)
    end).

Definition nodeRangeWithClusterFallback (nodeName : string) (pick : NodeSpec -> option PortRange)
    (legacyProp clusterProp : string) (defLow defHigh : Z) : K S (Z * Z) :=
  '(clusterLow, clusterHigh, ok) ← clusterRange clusterProp defLow defHigh;
  let '(fallbackLow, fallbackHigh) :=
    if (ok : bool) then (clusterLow, clusterHigh) else (defLow, defHigh) in
  nodeRange nodeName pick legacyProp fallbackLow fallbackHigh.

Definition portRangeForNode (nodeName : string) : K S (Z * Z) :=
  nodeRangeWithClusterFallback nodeName ns_DRBDPortRange "DrbdOptions/TcpPortRange" "TcpPortAutoRange"
    DefaultPortMin DefaultPortMax.

(** The loop of [intersectRange]: the window so far, [None] before the first node. *)
Fixpoint intersect_from (acc : option (Z * Z)) (hostNodes : list string)
    (range : string -> K S (Z * Z)) : K S (option (Z * Z)) :=
  match hostNodes with
  | [] => mret acc
  | node :: rest =>
      '(nLow, nHigh) ← range node;
      match acc with
      | None => intersect_from (Some (nLow, nHigh)) rest range
      | Some (low, high) =>
          intersect_from (Some (if bool_decide (nLow > low) then nLow else low,
                                if bool_decide (nHigh < high) then nHigh else high)) rest range
      end
  end.

Definition intersectRange (hostNodes : list string) (pick : NodeSpec -> option PortRange)
    (legacyProp clusterProp : string) (defLow defHigh : Z) : K S (Z * Z) :=
  acc ← intersect_from None hostNodes (fun node =>
    nodeRangeWithClusterFallback node pick legacyProp clusterProp defLow defHigh);
  mret (default (defLow, defHigh) acc).

Definition intersectMinorRange (hostNodes : list string) : K S (Z * Z) :=
  intersectRange hostNodes ns_DRBDMinorRange "DrbdOptions/MinorNrRange" "MinorNrAutoRange"
    DefaultMinorMin DefaultMinorMax.

(** ** Node ids *)

(** The ids a sibling occupies: its own, and every peer id it still observes. *)
Definition occupied_by (res : ResourceCR) : list Z :=
  (match rs_DRBDNodeID (rc_Spec res) with
   | Some id => [id]
   | None => match rst_DRBDNodeID (rc_Status res) with Some id => [id] | None => [] end
   end) ++ omap id (rst_PeerDRBDNodeIDs (rc_Status res)).

Definition is_sibling (target res : ResourceCR) : bool :=
  bool_decide (rc_Name res <> rc_Name target)
  && bool_decide (rs_ResourceDefinitionName (rc_Spec res) = rs_ResourceDefinitionName (rc_Spec target)).

(** The set is a Go map; its iteration order does not matter to [LowestFreeNodeID]. *)
Definition collectTakenNodeIDs (target : ResourceCR) : K S (list Z) :=
  items ← readResources;
  mret (elements (list_to_set (items ≫= fun res => if is_sibling target res then occupied_by res else []) : gset Z)).

Definition of_alloc {A} (r : result alloc_err A) : result kerr A :=
  match r with Ok a => Ok a | Err e => Err (EAlloc e) end.
Definition of_scan {A} (r : option (result alloc_err A)) : result kerr A :=
  match r with Some x => of_alloc x | None => Err EStuck end.

Definition allocateNodeIDLocked (target : ResourceCR) : K S Z :=
  taken ← collectTakenNodeIDs target;
  lift (of_alloc (LowestFreeNodeID taken)).

(** ** Ports *)

Definition takenPortsOnNode (nodeName selfName : string) : K S (list Z) :=
  items ← readResources;
  mret (omap (fun res => rs_DRBDPort (rc_Spec res))
    (filter (fun res => ~ (rs_NodeName (rc_Spec res) <> nodeName \/ rc_Name res = selfName)) items)).

(** Any error of the read means no preference. *)
Definition rdPreferredPort (rdName : string) : K S (option Z) :=
  r ← attempt (readRD rdName);
  mret (match r with Ok rd => rdc_DRBDPort rd | Err _ => None end).

Definition allocatePortForNode (target : ResourceCR) : K S Z :=
  '(low, high) ← portRangeForNode (rs_NodeName (rc_Spec target));
  taken ← takenPortsOnNode (rs_NodeName (rc_Spec target)) (rc_Name target);
  seed ← rdPreferredPort (rs_ResourceDefinitionName (rc_Spec target));
  match seed with
  | Some p =>
      if bool_decide (p >= low) && bool_decide (p <= high) && negb (bool_decide (p ∈ taken))
      then mret p else lift (of_scan (LowestFreePort taken low high))
  | None => lift (of_scan (LowestFreePort taken low high))
  end.

(** ** Minors *)

Definition rdVolumeMinorsComplete (rd : ResourceDefinitionCR) : bool :=
  forallb (fun vd => bool_decide (rdv_DRBDMinor vd <> None)) (rdc_VolumeDefinitions rd).

Definition anyVolumeMinorSet (rd : ResourceDefinitionCR) : bool :=
  existsb (fun vd => bool_decide (rdv_DRBDMinor vd <> None)) (rdc_VolumeDefinitions rd).

Definition vol0MinorOf (rd : ResourceDefinitionCR) : option Z :=
  match list_find (fun vd => rdv_VolumeNumber vd = 0) (rdc_VolumeDefinitions rd) with
  | Some (_, vd) => rdv_DRBDMinor vd
  | None => None
  end.

Definition backfillRDMinorsFromStatus (rd : ResourceDefinitionCR) : ResourceDefinitionCR * bool :=
  match rdc_StatusDRBDMinor rd with
  | None => (rd, false)
  | Some base =>
      if anyVolumeMinorSet rd then (rd, false)
      else (with_rd_volumes rd (map (fun vd => with_minor vd (Some (wrap32 (base + rdv_VolumeNumber vd))))
                                    (rdc_VolumeDefinitions rd)), true)
  end.

Definition hostingNodesForRD (rdName : string) : K S (list string) :=
  items ← cachedResources;
  mret (foldl (fun out res =>
    if bool_decide (rs_ResourceDefinitionName (rc_Spec res) = rdName)
       && negb (bool_decide (rs_NodeName (rc_Spec res) ∈ out))
    then out ++ [rs_NodeName (rc_Spec res)] else out) [] items).

(** The minors one definition claims: its volumes', and the legacy base expanded by position. *)
Definition claimed_minors (rd : ResourceDefinitionCR) : list Z :=
  minors (rdc_VolumeDefinitions rd) ++
  match rdc_StatusDRBDMinor rd with
  | Some base =>
      if anyVolumeMinorSet rd then []
      else map (fun off => wrap32 (base + wrap32 (Z.of_nat off)))
             (seq 0 (if bool_decide (rdc_VolumeDefinitions rd = []) then 1
                     else length (rdc_VolumeDefinitions rd)))
  | None => []
  end.

Definition takenMinorsCluster (selfRD : string) : K S (list Z) :=
  items ← readRDs;
  mret (items ≫= fun rd => if bool_decide (rdc_Name rd = selfRD) then [] else claimed_minors rd).

(** The second loop of [allocateRDVolumeMinors]. *)
Fixpoint fill_minors (taken : list Z) (low high : Z) (vols : list ResourceDefinitionVolume)
    (mutated : bool) : result kerr (list ResourceDefinitionVolume * bool) :=
  match vols with
  | [] => Ok ([], mutated)
  | vd :: rest =>
      match rdv_DRBDMinor vd with
      | Some _ =>
          match fill_minors taken low high rest mutated with
          | Ok (vs, b) => Ok (vd :: vs, b)
          | Err e => Err e
          end
      | None =>
          match of_scan (LowestFreeMinor taken low high) with
          | Err e => Err e
          | Ok minor =>
              match fill_minors (taken ++ [minor]) low high rest true with
              | Ok (vs, b) => Ok (with_minor vd (Some minor) :: vs, b)
              | Err e => Err e
              end
          end
      end
  end.

Definition allocateRDVolumeMinors (rd : ResourceDefinitionCR) : K S (ResourceDefinitionCR * bool) :=
  let '(rd1, mutated) := backfillRDMinorsFromStatus rd in
  hostNodes ← hostingNodesForRD (rdc_Name rd1);
  '(low, high) ← intersectMinorRange hostNodes;
  taken ← takenMinorsCluster (rdc_Name rd1);
  let taken := taken ++ minors (rdc_VolumeDefinitions rd1) in
  '(vols, mutated') ← lift (fill_minors taken low high (rdc_VolumeDefinitions rd1) mutated);
  mret (with_rd_volumes rd1 vols, mutated').

(** The whole list is written back, guarded by the version of the object that was read. *)
Definition patchRDVolumeMinors (base rd : ResourceDefinitionCR) : K S unit :=
  patchVolumeMinors base (rdc_VolumeDefinitions rd).

Definition ensureRDVolumeMinors (target : ResourceCR) : K S (bool * option Z) :=
  let rdName := rs_ResourceDefinitionName (rc_Spec target) in
  unlessGone (readRD rdName) (false, None) (fun rd =>
    if bool_decide (rdc_VolumeDefinitions rd = []) then mret (false, None)
    else if rdVolumeMinorsComplete rd then mret (false, vol0MinorOf rd)
    else
      '(rd', mutated) ← allocateRDVolumeMinors rd;
      if negb mutated then mret (false, vol0MinorOf rd')
      else
        r ← attempt (patchRDVolumeMinors rd rd');
        match r with
        | Ok _ => mret (true, vol0MinorOf rd')
        | Err e =>
            if IsConflict e then
              fresh ← attempt (readRD rdName);
              match fresh with
              | Ok f => mret (false, vol0MinorOf f)
              | Err _ => throw e
              end
            else throw e
        end).

(** ** The replica's identities *)

Definition backfillResourceSpecFromStatus (target : ResourceCR) : ResourceCR :=
  let sp := rc_Spec target in
  let st := rc_Status target in
  let port := match rs_DRBDPort sp with None => rst_DRBDPort st | p => p end in
  let nodeID := match rs_DRBDNodeID sp with None => rst_DRBDNodeID st | i => i end in
  with_spec target (with_identities sp port nodeID (rs_SkipInitialSync sp)).

Definition rdInitialized (rd : ResourceDefinitionCR) : bool :=
  match rdc_Initialized rd with Some b => b | None => false end.

Definition rdInitializedForResource (rdName : string) : K S (bool * bool) :=
  unlessGone (readRD rdName) (false, false) (fun rd => mret (rdInitialized rd, true)).

Definition ensure_nodeID (target : ResourceCR) : K S Z :=
  match rs_DRBDNodeID (rc_Spec target) with
  | Some id => mret id
  | None => allocateNodeIDLocked target
  end.
Definition ensure_port (target : ResourceCR) : K S Z :=
  match rs_DRBDPort (rc_Spec target) with
  | Some p => mret p
  | None => allocatePortForNode target
  end.
Definition ensure_skip (target : ResourceCR) : K S (option bool) :=
  match rs_SkipInitialSync (rc_Spec target) with
  | Some b => mret (Some b)
  | None =>
      '(skip, ok) ← rdInitializedForResource (rs_ResourceDefinitionName (rc_Spec target));
      mret (if (ok : bool) then Some (negb skip) else None)
  end.

Definition allocateResourceSpecFields (target : ResourceCR) : K S ResourceCR :=
  nodeID ← ensure_nodeID target;
  port ← ensure_port target;
  skip ← ensure_skip target;
  mret (with_spec target (with_identities (rc_Spec target) (Some port) (Some nodeID) skip)).

Definition orElse {A} (a b : option A) : option A := match a with Some _ => a | None => b end.

Definition mirrorIdentitiesToStatus (target : ResourceCR) (vol0Minor : option Z) : ResourceCR :=
  let sp := rc_Spec target in
  let st := rc_Status target in
  with_status target (with_status_ids st (orElse (rs_DRBDNodeID sp) (rst_DRBDNodeID st))
    (orElse (rs_DRBDPort sp) (rst_DRBDPort st)) (orElse vol0Minor (rst_DRBDMinor st))).

Definition patchResourceSpecIdentities (target : ResourceCR) : K S unit :=
  patchSpecIdentities (rc_Name target) (rs_DRBDNodeID (rc_Spec target)) (rs_DRBDPort (rc_Spec target))
    (rs_SkipInitialSync (rc_Spec target)).

Definition patchResourceStatusIdentities (target : ResourceCR) : K S unit :=
  patchStatusIdentities (rc_Name target) (rst_DRBDNodeID (rc_Status target))
    (rst_DRBDPort (rc_Status target)) (rst_DRBDMinor (rc_Status target)).

(** [ptrEqI32] and [ptrEqBool] *)
Definition ptrEq {A} `{EqDecision A} (a b : option A) : bool :=
  match a, b with
  | None, None => true
  | None, Some _ | Some _, None => false
  | Some x, Some y => bool_decide (x = y)
  end.

Definition equalResourceIdentitySpec (a b : ResourceSpec) : bool :=
  ptrEq (rs_DRBDNodeID a) (rs_DRBDNodeID b) && ptrEq (rs_DRBDPort a) (rs_DRBDPort b)
  && ptrEq (rs_SkipInitialSync a) (rs_SkipInitialSync b).

Definition equalStatusIdentities (a b : ResourceStatus) : bool :=
  ptrEq (rst_DRBDNodeID a) (rst_DRBDNodeID b) && ptrEq (rst_DRBDPort a) (rst_DRBDPort b)
  && ptrEq (rst_DRBDMinor a) (rst_DRBDMinor b).

Definition when (b : bool) (m : K S unit) : K S unit := if b then m else mret tt.

Definition allocateAndApplyDRBDIDs (name : string) : K S bool :=
  unlessGone (readResource name) false (fun target =>
  unlessGone (allocateResourceSpecFields (backfillResourceSpecFromStatus target)) false (fun target1 =>
  '(minorMutated, vol0Minor) ← ensureRDVolumeMinors target1;
  let specMutated := negb (equalResourceIdentitySpec (rc_Spec target) (rc_Spec target1)) in
  unlessGone (when specMutated (patchResourceSpecIdentities target1)) false (fun _ =>
  let target2 := mirrorIdentitiesToStatus target1 vol0Minor in
  let statusMutated := negb (equalStatusIdentities (rc_Status target) (rc_Status target2)) in
  unlessGone (when statusMutated (patchResourceStatusIdentities target2)) false (fun _ =>
  mret (specMutated || statusMutated || minorMutated))))).

Definition ensureDRBDIDs (name : string) : K S bool :=
  RetryOnConflict DefaultRetry (allocateAndApplyDRBDIDs name).

End Ids.
