(* ===== verification/ReplicaController.v ===== *)
(** * The replica controller: the reconcile pass

    Models the rest of [internal/controller/resource_controller.go]: legacy finalizers, orphaned
    replicas, the projection of the definition's volumes (pruning and generation seeds), the
    skip-initial-sync latch, auto-diskful promotion, and [Reconcile] itself, on top of the
    identity allocation of [ReplicaIds]. *)

From S2P Require Import Prelude Api DrbdAlloc DrbdStates Kube ReplicaIds.
Import Disk.

Definition resourceFinalizer : string := "blockstor.cozystack.io/resource".
Definition satelliteResourceFinalizer : string := "blockstor.cozystack.io/satellite-resource".
Definition ResourceAnnotationVolumeNumbers : string := "blockstor.io/volume-numbers".

(** [slices.DeleteFunc] on one value. *)
Definition drop_flag (flag : string) (l : list string) : list string := filter (fun s => s <> flag) l.

(** ** Generations of the peers *)

Definition status_volume (res : ResourceCR) (vn : Z) : option ResourceVolumeStatus :=
  snd <$> list_find (fun v => rvt_VolumeNumber v = vn) (rst_Volumes (rc_Status res)).

Definition volumeCurrentGI (res : ResourceCR) (vn : Z) : string :=
  match status_volume res vn with Some v => rvt_CurrentGI v | None => "" end.

Definition volumeDiskState (res : ResourceCR) (vn : Z) : string :=
  match status_volume res vn with Some v => rvt_DiskState v | None => "" end.

Definition isDay0SeededDiskfulVolume (rdName : string) (vol : ResourceVolumeStatus) : bool :=
  if bool_decide (rvt_CurrentGI vol = "") then false
  else Str.equal_fold (rvt_CurrentGI vol) (GI.Day0GIFor rdName (rvt_VolumeNumber vol)).

(** The switch of [scanDataBearingDiskfulPeers] on one volume. *)
Definition volume_bears_data (rdName : string) (requireObservedGI : bool) (vol : ResourceVolumeStatus) : bool :=
  if one_of (rvt_DiskState vol) [DiskStateUpToDate; DiskStateConsistent; DiskStateOutdated] then
    if requireObservedGI && bool_decide (rvt_CurrentGI vol = "") then false
    else negb (isDay0SeededDiskfulVolume rdName vol)
  else false.

Definition scanDataBearingDiskfulPeers (peers : list ResourceCR) (targetName : string)
    (requireObservedGI : bool) : bool :=
  existsb (fun peer =>
    negb (bool_decide (rc_Name peer = targetName))
    && negb (Contains (rs_Flags (rc_Spec peer)) ResourceFlagDiskless)
    && existsb (volume_bears_data (rs_ResourceDefinitionName (rc_Spec peer)) requireObservedGI)
         (rst_Volumes (rc_Status peer))) peers.

Definition anyDataBearingDiskfulPeer (peers : list ResourceCR) (targetName : string) : bool :=
  scanDataBearingDiskfulPeers peers targetName false.

Definition anyProvenDataBearingDiskfulPeer (peers : list ResourceCR) (targetName : string) : bool :=
  scanDataBearingDiskfulPeers peers targetName true.

(** The candidate with the least name, the head of the sorted slice. *)
Fixpoint least_name (l : list ResourceCR) : option ResourceCR :=
  match l with
  | [] => None
  | r :: rest =>
      match least_name rest with
      | Some r' => if String.ltb (rc_Name r') (rc_Name r) then Some r' else Some r
      | None => Some r
      end
  end.

Definition is_seed_candidate (targetName : string) (vn : Z) (peer : ResourceCR) : bool :=
  negb (bool_decide (rc_Name peer = targetName))
  && negb (bool_decide (volumeCurrentGI peer vn = ""))
  && bool_decide (volumeDiskState peer vn = DiskStateUpToDate).

Definition pickSeedFromPeers (peers : list ResourceCR) (targetName : string) (vn : Z) : string :=
  match least_name (filter (fun p => is_seed_candidate targetName vn p = true) peers) with
  | Some peer => volumeCurrentGI peer vn
  | None => ""
  end.

(** ** The volumes of the replica *)

Definition seedAlreadySet (vols : list ResourceVolumeSpec) (vn : Z) : bool :=
  existsb (fun v => bool_decide (rvs_VolumeNumber v = vn) && negb (bool_decide (rvs_SeedFromGI v = ""))) vols.

Fixpoint setSeedFromGI (vols : list ResourceVolumeSpec) (vn : Z) (seed : string) : list ResourceVolumeSpec :=
  match vols with
  | [] => [mkResourceVolumeSpec vn seed]
  | v :: rest =>
      if bool_decide (rvs_VolumeNumber v = vn) then mkResourceVolumeSpec (rvs_VolumeNumber v) seed :: rest
      else v :: setSeedFromGI rest vn seed
  end.

(** One round of the loop of [ensureSeedFromGI]. *)
Definition seed_volume (peers : list ResourceCR) (targetName : string)
    (acc : list ResourceVolumeSpec * bool) (vd : ResourceDefinitionVolume) : list ResourceVolumeSpec * bool :=
  let '(vols, mutated) := acc in
  if seedAlreadySet vols (rdv_VolumeNumber vd) then (vols, mutated)
  else
    let seed := pickSeedFromPeers peers targetName (rdv_VolumeNumber vd) in
    if bool_decide (seed = "") then (vols, mutated)
    else (setSeedFromGI vols (rdv_VolumeNumber vd) seed, true).

Section Pass.
Context {S : Type} {Ops : KubeOps S}.

(** [r.Update] of an object read as [base], with a new spec. *)
Definition update_spec (base : ResourceCR) (sp : ResourceSpec) : K S bool :=
  updateResource base (with_spec base sp) ;; mret true.

Definition ensureSeedFromGI (target : ResourceCR) (peers : list ResourceCR)
    (rd : option ResourceDefinitionCR) : K S bool :=
  match rd with
  | None => mret false
  | Some rd =>
      if bool_decide (rdc_VolumeDefinitions rd = []) then mret false
      else if Contains (rs_Flags (rc_Spec target)) ResourceFlagDiskless then mret false
      else if anyDataBearingDiskfulPeer peers (rc_Name target) then mret false
      else
        let '(vols, mutated) := foldl (seed_volume peers (rc_Name target))
                                  (rs_Volumes (rc_Spec target), false) (rdc_VolumeDefinitions rd) in
        if negb mutated then mret false
        else update_spec target (with_volumes (rc_Spec target) vols)
  end.

Definition pruneStaleResourceVolumes (target : ResourceCR) (rd : option ResourceDefinitionCR) : K S bool :=
  match rd with
  | None => mret false
  | Some rd =>
      if bool_decide (rdc_VolumeDefinitions rd = []) then mret false
      else if bool_decide (rs_Volumes (rc_Spec target) = []) then mret false
      else
        let desired := map rdv_VolumeNumber (rdc_VolumeDefinitions rd) in
        let survivors := filter (fun v => rvs_VolumeNumber v ∈ desired) (rs_Volumes (rc_Spec target)) in
        if bool_decide (length survivors = length (rs_Volumes (rc_Spec target))) then mret false
        else update_spec target (with_volumes (rc_Spec target) survivors)
  end.

Definition ensureVolumeProjection (target : ResourceCR) (peers : list ResourceCR)
    (rd : option ResourceDefinitionCR) : K S bool :=
  pruned ← pruneStaleResourceVolumes target rd;
  if (pruned : bool) then mret true else ensureSeedFromGI target peers rd.

(** ** The initial-sync decision *)

Definition patchRDInitialized (rdName : string) : K S unit := patchInitialized rdName.

Definition patchResourceSkipInitialSync (resName : string) (skip : bool) : K S unit :=
  patchSkipInitialSync resName skip.

(** The second component is the replica as the pass holds it in memory afterwards: the stamp
    is set on it before the patch is sent. *)
Definition ensureSkipInitSyncDecision (target : ResourceCR) (peers : list ResourceCR)
    (rd : option ResourceDefinitionCR) : K S (bool * ResourceCR) :=
  match rd with
  | None => mret (false, target)
  | Some rd =>
      if negb (rdInitialized rd) && anyProvenDataBearingDiskfulPeer peers "" then
        unlessGone (patchRDInitialized (rdc_Name rd)) (false, target) (fun _ => mret (true, target))
      else
        match rs_SkipInitialSync (rc_Spec target) with
        | Some _ => mret (false, target)
        | None =>
            let skip := negb (rdInitialized rd) in
            let target' := with_spec target (with_identities (rc_Spec target)
              (rs_DRBDPort (rc_Spec target)) (rs_DRBDNodeID (rc_Spec target)) (Some skip)) in
            unlessGone (patchResourceSkipInitialSync (rc_Name target) skip) (false, target')
              (fun _ => mret (true, target'))
        end
  end.

(** ** Auto-diskful *)

Definition firstAvailablePool (nodeName : string) : K S string :=
  pools ← storagePools;
  mret (match list_find (fun p => sp_NodeName p = nodeName /\ sp_ProviderKind p <> StoragePoolKindDiskless) pools with
        | Some (_, p) => sp_StoragePoolName p
        | None => ""
        end).

Definition promoted_spec (sp : ResourceSpec) (pool : string) : ResourceSpec :=
  with_pool sp (drop_flag ResourceFlagDiskless (rs_Flags sp)) pool (<["StorPoolName" := pool]> (rs_Props sp)).

(** [base] is the replica as it was read, whose version the update carries. *)
Definition maybeAutoDiskful (base target : ResourceCR) : K S bool :=
  if negb (Contains (rs_Flags (rc_Spec target)) ResourceFlagDiskless) then mret false
  else if negb (rst_InUse (rc_Status target)) then mret false
  else if Contains (rs_Flags (rc_Spec target)) ResourceFlagTieBreaker then mret false
  else
    pool ← firstAvailablePool (rs_NodeName (rc_Spec target));
    if bool_decide (pool = "") then mret false
    else update_spec base (promoted_spec (rc_Spec target) pool).

(** ** The pass *)

Definition lookupRD (name : string) : K S (option ResourceDefinitionCR) :=
  unlessGone (cachedRD name) None (fun rd => mret (Some rd)).

(** The returned boolean is [ctrl.Result.Requeue]. *)
Definition runApply (target : ResourceCR) : K S bool :=
  items ← cachedResources;
  let peers := filter (fun r => rs_ResourceDefinitionName (rc_Spec r)
                                = rs_ResourceDefinitionName (rc_Spec target)) items in
  _ ← cachedNodes;
  rdPtr ← lookupRD (rs_ResourceDefinitionName (rc_Spec target));
  projected ← ensureVolumeProjection target peers rdPtr;
  if (projected : bool) then mret true
  else
    '(stamped, target') ← ensureSkipInitSyncDecision target peers rdPtr;
    if (stamped : bool) then mret true else maybeAutoDiskful target target'.

Definition resourceWasApplied (target : ResourceCR) : bool :=
  Contains (rc_Finalizers target) satelliteResourceFinalizer
  || bool_decide (is_Some (rc_Annotations target !! ResourceAnnotationVolumeNumbers)).

Definition handleOrphan (target : ResourceCR) : K S bool :=
  if negb (resourceWasApplied target) then mret false
  else
    r ← attempt (cachedRD (rs_ResourceDefinitionName (rc_Spec target)));
    match r with
    | Ok _ => mret false
    | Err e =>
        if negb (IsNotFound e) then throw e
        else
          d ← attempt (deleteResource (rc_Name target));
          match d with
          | Err e' => if negb (IsNotFound e') then throw e' else mret true
          | Ok _ => mret true
          end
    end.

Definition stripLegacyFinalizer (target : ResourceCR) : K S bool :=
  if negb (Contains (rc_Finalizers target) resourceFinalizer) then mret false
  else updateResource target (with_finalizers target (drop_flag resourceFinalizer (rc_Finalizers target))) ;;
       mret false.

Definition Reconcile (name : string) : K S bool :=
  unlessGone (cachedResource name) false (fun target =>
  if rc_Deleting target then stripLegacyFinalizer target
  else if Contains (rc_Finalizers target) resourceFinalizer then
    updateResource target (with_finalizers target (drop_flag resourceFinalizer (rc_Finalizers target))) ;;
    mret true
  else if bool_decide (rs_ResourceDefinitionName (rc_Spec target) = "") then mret false
  else
    orphaned ← handleOrphan target;
    if (orphaned : bool) then mret false
    else
      allocated ← ensureDRBDIDs (rc_Name target);
      if (allocated : bool) then mret true else runApply target).

(** [requestsForRD]: the replicas to reconcile after an event, by name. *)
Definition requestsForRD (rdName excludeName : string) : K S (list string) :=
  r ← attempt cachedResources;
  mret (match r with
        | Err _ => []
        | Ok items => map rc_Name (filter (fun r => rs_ResourceDefinitionName (rc_Spec r) = rdName
                                             /\ rc_Name r <> excludeName) items)
        end).

Definition enqueueResourcesForRD (rd : ResourceDefinitionCR) : K S (list string) :=
  requestsForRD (rdc_Name rd) "".

Definition enqueueSiblings (res : ResourceCR) : K S (list string) :=
  if bool_decide (rs_ResourceDefinitionName (rc_Spec res) = "") then mret []
  else requestsForRD (rs_ResourceDefinitionName (rc_Spec res)) (rc_Name res).

End Pass.
