(* ===== verification/ReplicaIdsProps.v ===== *)
(** * Properties of the identity allocation

    [good] is the invariant of the cluster: node ids are unique within a definition, ports on a
    node, minors in the cluster. [own] is what a write of the controller may do to an object:
    fill in identities, never change one. The triples of this file show that the allocation,
    under any interleaving with other writers, any stale cache and any failing call, goes
    through [own] steps only and keeps [good]. *)

From stdpp Require Import relations.
From S2P Require Import Prelude Api DrbdAlloc Kube ReplicaIds.
Import Alloc.

(** ** The invariant *)

Definition eff_id (r : ResourceCR) : option Z := orElse (rs_DRBDNodeID (rc_Spec r)) (rst_DRBDNodeID (rc_Status r)).
Definition eff_port (r : ResourceCR) : option Z := orElse (rs_DRBDPort (rc_Spec r)) (rst_DRBDPort (rc_Status r)).

(** No replica other than [n] holds this id in this definition, or this port on this node. *)
Definition id_free (n rdName : string) (i : Z) (v : kview) : Prop :=
  forall m r, m <> n -> v_resources v !! m = Some r ->
    rs_ResourceDefinitionName (rc_Spec r) = rdName -> eff_id r <> Some i.
Definition port_free (n node : string) (p : Z) (v : kview) : Prop :=
  forall m r, m <> n -> v_resources v !! m = Some r ->
    rs_NodeName (rc_Spec r) = node -> rs_DRBDPort (rc_Spec r) <> Some p.

(** The identities of the replica filed under [n] clash with nothing, and its port has been
    migrated from the status. *)
Definition clash_free (n : string) (r : ResourceCR) (v : kview) : Prop :=
  (forall i, eff_id r = Some i -> id_free n (rs_ResourceDefinitionName (rc_Spec r)) i v)
  /\ (forall p, rs_DRBDPort (rc_Spec r) = Some p -> port_free n (rs_NodeName (rc_Spec r)) p v)
  /\ (rs_DRBDPort (rc_Spec r) = None -> rst_DRBDPort (rc_Status r) = None).

Definition minors_unique (v : kview) : Prop :=
  (forall n rd, v_rds v !! n = Some rd ->
     rdc_StatusDRBDMinor rd = None /\ NoDup (minors (rdc_VolumeDefinitions rd)))
  /\ (forall n m rd rd' x, n <> m -> v_rds v !! n = Some rd -> v_rds v !! m = Some rd' ->
     x ∈ minors (rdc_VolumeDefinitions rd) -> x ∉ minors (rdc_VolumeDefinitions rd')).

Definition good (v : kview) : Prop :=
  named v
  /\ (forall n r, v_resources v !! n = Some r -> clash_free n r v)
  /\ minors_unique v.

(** ** Steps *)

Definition keeps {A} (o o' : option A) : Prop := forall x, o = Some x -> o' = Some x.

(** What may become of a replica: identities are filled in and never change, wherever they
    were recorded. *)
Definition grows (r r' : ResourceCR) : Prop :=
  rc_Name r' = rc_Name r
  /\ rs_ResourceDefinitionName (rc_Spec r') = rs_ResourceDefinitionName (rc_Spec r)
  /\ rs_NodeName (rc_Spec r') = rs_NodeName (rc_Spec r)
  /\ keeps (rs_DRBDNodeID (rc_Spec r)) (rs_DRBDNodeID (rc_Spec r'))
  /\ keeps (rs_DRBDPort (rc_Spec r)) (rs_DRBDPort (rc_Spec r'))
  /\ keeps (eff_id r) (eff_id r')
  /\ keeps (rs_SkipInitialSync (rc_Spec r)) (rs_SkipInitialSync (rc_Spec r')).

(** What may become of a definition: the same volumes in the same order, each with the minor
    it had or a new one; the latch stays set. *)
Definition grows_volume (vd vd' : ResourceDefinitionVolume) : Prop :=
  vd' = with_minor vd (rdv_DRBDMinor vd') /\ keeps (rdv_DRBDMinor vd) (rdv_DRBDMinor vd').
Definition grows_rd (rd rd' : ResourceDefinitionCR) : Prop :=
  rd' = mkResourceDefinitionCR (rdc_Name rd) (rdc_Props rd) (rdc_LayerStack rd) (rdc_VolumeDefinitions rd') (rdc_DRBDPort rd)
          (rdc_Initialized rd') (rdc_StatusDRBDMinor rd)
  /\ Forall2 grows_volume (rdc_VolumeDefinitions rd) (rdc_VolumeDefinitions rd')
  /\ (rdInitialized rd = true -> rdInitialized rd' = true).

Definition own (v v' : kview) : Prop :=
  v_born v' = v_born v
  /\ (forall n r', v_resources v' !! n = Some r' -> exists r, v_resources v !! n = Some r /\ grows r r')
  /\ (forall n rd', v_rds v' !! n = Some rd' -> exists rd, v_rds v !! n = Some rd /\ grows_rd rd rd')
  /\ (forall n, is_Some (v_rds v !! n) -> is_Some (v_rds v' !! n)).

Definition move (v v' : kview) : Prop := others v v' \/ own v v'.

(** The invariant of the triples: reached from [v0] by moves, and good. *)
Definition J (v0 v : kview) : Prop := rtc move v0 v /\ good v.

(** ** Lemmas on the invariant *)

Lemma keeps_refl {A} (o : option A) : keeps o o.
Proof. by intros x. Qed.
#[export] Hint Resolve keeps_refl : core.

Lemma keeps_None {A} (o : option A) : keeps None o.
Proof. by intros x. Qed.
#[export] Hint Resolve keeps_None : core.

Lemma grows_refl r : grows r r.
Proof. unfold grows. split_and!; auto. Qed.
#[export] Hint Resolve grows_refl : core.

Lemma grows_volumes_refl l : Forall2 grows_volume l l.
Proof. induction l as [|vd l IH]; constructor; [|done]. split; [by destruct vd|auto]. Qed.

Lemma grows_rd_refl rd : grows_rd rd rd.
Proof. split; [by destruct rd|]. split; [apply grows_volumes_refl|done]. Qed.
#[export] Hint Resolve grows_rd_refl : core.

Lemma others_back v v' n r' :
  others v v' -> v_resources v' !! n = Some r' ->
  (exists r, v_resources v !! n = Some r /\ same_identities r r')
  \/ (no_identities r' /\ n ∉ v_born v).
Proof.
  intros (_ & _ & H & _) Hr. specialize (H n r' Hr). destruct (v_resources v !! n); eauto.
Qed.

Lemma same_eff r r' : same_identities r r' -> eff_id r' = eff_id r.
Proof. intros (? & ? & E1 & ? & ? & E2 & ?). unfold eff_id. by rewrite E1, E2. Qed.

Lemma no_eff r : no_identities r -> eff_id r = None.
Proof. intros (E1 & ? & ? & E2 & ?). unfold eff_id. by rewrite E1, E2. Qed.

Lemma id_free_others n rdName i : forall v v', others v v' -> id_free n rdName i v -> id_free n rdName i v'.
Proof.
  intros v v' Ho H m r' Hm Hr' Hrd.
  destruct (others_back _ _ _ _ Ho Hr') as [(r & Hr & Hs)|[Hn _]].
  - rewrite (same_eff _ _ Hs). eapply H; [done..|]. by destruct Hs as [<- _].
  - by rewrite (no_eff _ Hn).
Qed.

Lemma port_free_others n node p : forall v v', others v v' -> port_free n node p v -> port_free n node p v'.
Proof.
  intros v v' Ho H m r' Hm Hr' Hn.
  destruct (others_back _ _ _ _ Ho Hr') as [(r & Hr & Hs)|[Hno _]].
  - destruct Hs as (_ & E1 & _ & -> & _). eapply H; [done..|]. congruence.
  - by destruct Hno as (_ & -> & _).
Qed.

Lemma good_others v v' : others v v' -> good v -> good v'.
Proof.
  intros Ho (Hn & Hc & Hm). split; [by apply Ho|]. split.
  - intros n r' Hr'. destruct (others_back _ _ _ _ Ho Hr') as [(r & Hr & Hs)|[Hno _]].
    + destruct (Hc n r Hr) as (H1 & H2 & H3). unfold clash_free. rewrite (same_eff _ _ Hs).
      destruct Hs as (-> & -> & _ & -> & _ & _ & Hp). split_and!; [..|by intros E; destruct Hp as [-> | ->]; [apply H3|]];
        intros; [eapply id_free_others | eapply port_free_others]; eauto.
    + destruct Hno as (E1 & E2 & ? & E3 & E4). unfold clash_free, eff_id.
      rewrite E1, E2, E3, E4. by split_and!.
  - destruct Hm as [Hm1 Hm2]. destruct Ho as (_ & _ & _ & Ho). split.
    + intros n rd' Hrd'. specialize (Ho n rd' Hrd'). destruct (v_rds v !! n) as [rd|] eqn:E.
      * destruct Ho as [Hsub ->]. destruct (Hm1 n rd E) as [? ?]. split; [done|].
        by eapply sublist_NoDup.
      * destruct Ho as [-> ->]. split; [done|constructor].
    + intros n m rd' rd2' x Hne H1 H2 Hx Hx2.
      pose proof (Ho n rd' H1) as O1. pose proof (Ho m rd2' H2) as O2.
      destruct (v_rds v !! n) as [rd|] eqn:E1; [|destruct O1 as [O1 _]; rewrite O1 in Hx; by apply elem_of_nil in Hx].
      destruct (v_rds v !! m) as [rd2|] eqn:E2; [|destruct O2 as [O2 _]; rewrite O2 in Hx2; by apply elem_of_nil in Hx2].
      exact (Hm2 n m rd rd2 x Hne E1 E2 (elem_of_sublist _ _ _ Hx (proj1 O1))
               (elem_of_sublist _ _ _ Hx2 (proj1 O2))).
Qed.

Lemma J_others v0 : stable (J v0) (J v0).
Proof.
  intros v v' _ Ho [Hr Hg]. split; [|by eapply good_others].
  eapply rtc_r; [done|by left].
Qed.
#[export] Hint Resolve J_others : core.

Definition set_resource (n : string) (r : ResourceCR) (v : kview) : kview :=
  mkView (<[n := r]> (v_resources v)) (v_rds v) (v_born v).
Definition set_rd (n : string) (rd : ResourceDefinitionCR) (v : kview) : kview :=
  mkView (v_resources v) (<[n := rd]> (v_rds v)) (v_born v).

Definition drop_resource (n : string) (v : kview) : kview :=
  mkView (delete n (v_resources v)) (v_rds v) (v_born v).

Lemma lookup_set_resource n r v m x :
  v_resources (set_resource n r v) !! m = Some x <-> (n = m /\ r = x) \/ (n <> m /\ v_resources v !! m = Some x).
Proof. apply lookup_insert_Some. Qed.
Lemma lookup_set_rd n rd v m x :
  v_rds (set_rd n rd v) !! m = Some x <-> (n = m /\ rd = x) \/ (n <> m /\ v_rds v !! m = Some x).
Proof. apply lookup_insert_Some. Qed.
Lemma lookup_drop_resource n v m x :
  v_resources (drop_resource n v) !! m = Some x <-> n <> m /\ v_resources v !! m = Some x.
Proof. apply lookup_delete_Some. Qed.

(** Writing a replica whose new identities clash with nothing. *)
Lemma good_set_resource v n r r' :
  good v -> v_resources v !! n = Some r -> grows r r' -> clash_free n r' v -> good (set_resource n r' v).
Proof.
  intros (Hn & Hc & Hm) Hr (Hname & Hrd & Hnode & _) Hcl. split; [|split]; [..|done].
  - destruct Hn as [Hn1 Hn2]. split; [|done]. intros m r2 [[<- <-]|[Hne Hm2]]%lookup_set_resource.
    + rewrite Hname. by apply Hn1.
    + by apply Hn1.
  - intros m r2 [[<- <-]|[Hne Hm2]]%lookup_set_resource.
    + destruct Hcl as (H1 & H2 & H3). split_and!; [| |done].
      * intros i Hi k rk Hk [[? ?]|[_ Hrk]]%lookup_set_resource; [done|]. by eapply H1.
      * intros i Hi k rk Hk [[? ?]|[_ Hrk]]%lookup_set_resource; [done|]. by eapply H2.
    + destruct (Hc m r2 Hm2) as (H1 & H2 & H3). destruct Hcl as (C1 & C2 & _). split_and!; [| |done].
      * intros i Hi k rk Hk [[<- <-]|[_ Hrk]]%lookup_set_resource; [|by eapply H1].
        intros E2 E. apply (C1 i E m r2); [done..| by rewrite E2 |done].
      * intros i Hi k rk Hk [[<- <-]|[_ Hrk]]%lookup_set_resource; [|by eapply H2].
        intros E2 E. apply (C2 i E m r2); [done..| by rewrite E2 |done].
Qed.

Lemma own_set_resource v n r r' : v_resources v !! n = Some r -> grows r r' -> own v (set_resource n r' v).
Proof.
  intros Hr Hg. split_and!; [done| |by eauto|done].
  intros m r2 [[<- <-]|[_ Hm]]%lookup_set_resource; eauto.
Qed.

Lemma J_move v0 v v' : J v0 v -> own v v' -> good v' -> J v0 v'.
Proof. intros [Hr _] Ho Hg. split; [|done]. eapply rtc_r; [done|by right]. Qed.

Lemma J_set_resource v0 v n r r' :
  J v0 v -> v_resources v !! n = Some r -> grows r r' -> clash_free n r' v -> J v0 (set_resource n r' v).
Proof.
  intros HJ Hr Hg Hc. apply J_move with v; [done| by eapply own_set_resource |].
  eapply good_set_resource; [apply HJ|done..].
Qed.

(** Identities left as they are clash with nothing. *)
Lemma clash_same v n r r' : clash_free n r v -> same_identities r r' -> clash_free n r' v.
Proof.
  intros (H1 & H2 & H3) Hs. unfold clash_free. rewrite (same_eff _ _ Hs).
  destruct Hs as (-> & -> & _ & -> & _ & _ & Hp). split_and!; [done..|]. intros E. destruct Hp as [-> | ->]; [by apply H3|done].
Qed.

Lemma grows_same r r' : rc_Name r' = rc_Name r -> same_identities r r' -> grows r r'.
Proof.
  intros Hn Hs. pose proof (same_eff _ _ Hs) as He. destruct Hs as (E1 & E2 & E3 & E4 & E5 & E6 & E7).
  unfold grows. rewrite He, E1, E2, E3, E4, E5. by split_and!.
Qed.

Lemma J_set_same v0 v n r r' :
  J v0 v -> v_resources v !! n = Some r -> rc_Name r' = rc_Name r -> same_identities r r' ->
  J v0 (set_resource n r' v).
Proof.
  intros HJ Hr Hn Hs. apply (J_set_resource v0 v n r); [done..|by apply grows_same|].
  eapply clash_same; [|done]. by apply HJ.
Qed.

Lemma J_delete v0 v n : J v0 v -> J v0 (drop_resource n v).
Proof.
  intros HJ. apply J_move with v; [done|..].
  - split_and!; [done| |by eauto|done]. intros m r [_ Hm]%lookup_drop_resource. eauto.
  - destruct HJ as [_ (Hn & Hc & Hm)]. split; [|split]; [..|done].
    + destruct Hn as [Hn1 Hn2]. split; [|done]. intros m r [_ Hr]%lookup_drop_resource. by apply Hn1.
    + intros m r [_ Hr]%lookup_drop_resource. destruct (Hc m r Hr) as (H1 & H2 & H3).
      split_and!; [| |done]; intros i Hi k rk Hk [_ Hrk]%lookup_drop_resource; eauto.
      all: first [by eapply H1 | by eapply H2].
Qed.

(** Writing a definition whose new minors clash with no other definition. *)
Definition minors_free (n : string) (l : list Z) (v : kview) : Prop :=
  forall m rd x, m <> n -> v_rds v !! m = Some rd -> x ∈ l -> x ∉ minors (rdc_VolumeDefinitions rd).

Lemma minors_free_others n l : forall v v', others v v' -> minors_free n l v -> minors_free n l v'.
Proof.
  intros v v' (_ & _ & _ & Ho) H m rd' x Hm Hrd' Hx Hin. specialize (Ho m rd' Hrd').
  destruct (v_rds v !! m) as [rd|] eqn:E.
  - eapply (H m rd x); [done..|]. eapply elem_of_sublist; [done|]. by destruct Ho.
  - destruct Ho as [Ho _]. rewrite Ho in Hin. by apply elem_of_nil in Hin.
Qed.

Lemma grows_rd_same rd rd' : grows_rd rd rd' ->
  rdc_Name rd' = rdc_Name rd /\ rdc_StatusDRBDMinor rd' = rdc_StatusDRBDMinor rd.
Proof. by intros [-> _]. Qed.

Lemma J_set_rd v0 v n rd rd' :
  J v0 v -> v_rds v !! n = Some rd -> grows_rd rd rd' ->
  NoDup (minors (rdc_VolumeDefinitions rd')) -> minors_free n (minors (rdc_VolumeDefinitions rd')) v ->
  J v0 (set_rd n rd' v).
Proof.
  intros HJ Hrd Hg Hnd Hfree. destruct (grows_rd_same _ _ Hg) as [En Eb]. apply J_move with v; [done|..].
  - split_and!; [done|by eauto|..].
    + intros m rd2 [[<- <-]|[_ Hm]]%lookup_set_rd; eauto.
    + intros m Hm. apply lookup_insert_is_Some. destruct (decide (n = m)); auto.
  - destruct HJ as [_ (Hn & Hc & Hm1 & Hm2)]. split; [|split]; [|done|split].
    + destruct Hn as [Hn1 Hn2]. split; [done|].
      intros m rd2 [[<- <-]|[_ Hm]]%lookup_set_rd; [|by apply Hn2]. rewrite En. by apply Hn2.
    + intros m rd2 [[<- <-]|[_ Hm]]%lookup_set_rd; [|by apply (Hm1 m)]. split; [|done].
      rewrite Eb. by apply (Hm1 n).
    + intros m k rdm rdk x Hne [[<- <-]|[Hnm Hm]]%lookup_set_rd [[<- <-]|[Hnk Hk]]%lookup_set_rd Hx.
      * done.
      * exact (Hfree k rdk x ltac:(congruence) Hk Hx).
      * intros Hx2. exact (Hfree m rdm x ltac:(congruence) Hm Hx2 Hx).
      * exact (Hm2 m k rdm rdk x Hne Hm Hk Hx).
Qed.

(** ** Windows *)

(** A window an [int32] counter can step out of. *)
Definition bounded (w : Z * Z) : Prop := MinInt32 <= w.1 /\ w.2 < MaxInt32.
Definition raw_bounded (raw : string) : Prop := forall w, ParseRange raw = Ok w -> bounded w.

(** No configured window reaches the largest [int32], past which the allocators wrap. *)
Class BoundedWindows (S : Type) {Ops : KubeOps S} := {
  config_bounded s cfg prop raw :
    (cachedConfig s).1 = Ok cfg -> cfg !! prop = Some raw -> raw_bounded raw;
  node_bounded n s node : (cachedNode n s).1 = Ok node ->
    (forall w, ns_DRBDPortRange node = Some w \/ ns_DRBDMinorRange node = Some w ->
       bounded (pr_Min w, pr_Max w))
    /\ (forall prop raw, ns_Props node !! prop = Some raw -> raw_bounded raw);
}.

(** Within such a window the scan of the allocators always ends, and what it returns is free. *)
Lemma scan_free_value taken low high p :
  bounded (low, high) ->
  of_scan (LowestFreePort taken low high) = Ok p \/ of_scan (LowestFreeMinor taken low high) = Ok p ->
  low <= p <= high /\ p ∉ taken.
Proof.
  intros [Hl Hh] Hp. cbn in *.
  assert (of_scan (LowestFreePort taken low high) = Ok p) as E.
  { destruct Hp as [|Hp]; [done|]. rewrite LowestFreeMinor_as_port in Hp.
    by destruct (LowestFreePort taken low high) as [[]|]. }
  destruct (decide (low <= high)) as [Hle|Hgt].
  - destruct (LowestFreePort_window taken low high ltac:(lia) ltac:(lia)) as [(q & Eq & ? & ? & _)|[Eq _]];
      rewrite Eq in E; cbn in E; simplify_eq; by split.
  - unfold LowestFreePort, scan_fuel in E. cbv zeta in E. rewrite scan_past_end in E by lia. done.
Qed.

(** ** Filling minors *)

Lemma fill_minors_spec taken low high vols b vols' b' :
  bounded (low, high) -> NoDup (minors vols) -> (forall x, x ∈ minors vols -> x ∈ taken) ->
  fill_minors taken low high vols b = Ok (vols', b') ->
  Forall2 grows_volume vols vols' /\ NoDup (minors vols')
  /\ forall x, x ∈ minors vols' -> x ∈ minors vols \/ x ∉ taken.
Proof.
  intros Hb. revert taken b vols'. induction vols as [|vd vols IH]; intros taken b vols' Hnd Hin; cbn.
  { intros [= <- <-]. split_and!; [constructor|constructor|]. by intros x ?%elem_of_nil. }
  destruct (rdv_DRBDMinor vd) as [m|] eqn:Em.
  - destruct (fill_minors taken low high vols b) as [[vs b1]|] eqn:Ef; [|done]. intros [= <- <-].
    cbn in Hnd, Hin. rewrite Em in Hnd, Hin. apply list.NoDup_cons in Hnd as [Hm Hnd].
    destruct (IH _ _ _ Hnd ltac:(intros; apply Hin; by right) Ef) as (IH1 & IH2 & IH3).
    cbn. rewrite Em. split_and!.
    + constructor; [split; [by destruct vd|auto]|done].
    + apply list.NoDup_cons. split; [|done]. intros [?|Hn]%IH3; [done|]. apply Hn, Hin. by left.
    + intros x [->|[?|?]%IH3]%elem_of_cons; [left; by left|left; by right|by right].
  - destruct (of_scan (LowestFreeMinor taken low high)) as [m|] eqn:Es; [|done].
    destruct (fill_minors (taken ++ [m]) low high vols true) as [[vs b1]|] eqn:Ef; [|done].
    intros [= <- <-]. cbn in Hnd, Hin. rewrite Em in Hnd, Hin.
    destruct (scan_free_value _ _ _ _ Hb (or_intror Es)) as [_ Hm].
    destruct (IH (taken ++ [m]) _ _ Hnd ltac:(intros; apply elem_of_app; left; by apply Hin) Ef)
      as (IH1 & IH2 & IH3).
    assert (forall x, x ∈ minors vs -> x ∈ minors vols \/ x ∉ taken) as IH3'.
    { intros x [?|Hx]%IH3; [by left|]. right. intros ?. apply Hx, elem_of_app. by left. }
    cbn. split_and!.
    + constructor; [split; [done|cbn; rewrite Em; auto]|done].
    + apply list.NoDup_cons. split; [|done]. intros [?|Hn]%IH3; [by apply Hm, Hin|].
      apply Hn, elem_of_app. right. by left.
    + intros x [->|[?|?]%IH3']%elem_of_cons; auto.
Qed.

Section Triples.
Context {S : Type} {Ops : KubeOps S} {KL : KubeLaws S} {BW : BoundedWindows S}.
Context (v0 : kview).
Notation J0 := (J v0).

Lemma triple_pure_read {A} P (m : K S A) (fact : A -> Prop) :
  stable J0 P -> reading view m -> (forall s a, (m s).1 = Ok a -> fact a) ->
  triple J0 P m (fun a v => P v /\ fact a) P.
Proof using. intros. apply (triple_read _ _ _ (fun a _ => fact a)); auto. Qed.

Lemma clusterRange_bounded P prop lo hi :
  stable J0 P -> bounded (lo, hi) ->
  triple J0 P (clusterRange prop lo hi) (fun w v => P v /\ bounded w.1) P.
Proof using BW.
  intros HP Hb. unfold clusterRange.
  apply triple_unlessGone with
    (R := fun cfg v => P v /\ forall raw, cfg !! prop = Some raw -> raw_bounded raw) (E' := P); [|done|].
  - apply triple_pure_read; [done|apply cachedConfig_reads|]. intros s cfg E raw. by eapply config_bounded.
  - intros cfg. case_bool_decide as Eraw; [apply triple_ret; naive_solver|].
    apply triple_bind with (R := fun w v => P v /\ bounded w).
    + apply triple_lift. intros v _ [Hp Hw].
      destruct (cfg !! prop) as [raw|] eqn:E; [|done]. cbn in *. specialize (Hw raw eq_refl).
      unfold parse_window. destruct (ParseRange raw) as [w|] eqn:Ep; [split; [done|by apply Hw]|done].
    + intros [l h]. by apply triple_ret.
Qed.

Lemma nodeRange_bounded P n pick prop lo hi :
  stable J0 P -> bounded (lo, hi) -> (pick = ns_DRBDPortRange \/ pick = ns_DRBDMinorRange) ->
  triple J0 P (nodeRange n pick prop lo hi) (fun w v => P v /\ bounded w) P.
Proof using BW.
  intros HP Hb Hpick. unfold nodeRange.
  apply triple_unlessGone with (E' := P) (R := fun node v => P v
    /\ (forall w, pick node = Some w -> bounded (pr_Min w, pr_Max w))
    /\ (forall raw, ns_Props node !! prop = Some raw -> raw_bounded raw)); [|done|].
  - apply triple_pure_read; [done|apply cachedNode_reads|]. intros s node E.
    destruct (node_bounded _ _ _ E) as [H1 H2]. split; [|eauto].
    intros w Hw. apply H1. destruct Hpick as [-> | ->]; auto.
  - intros node. destruct (pick node) as [w|] eqn:Ew; [apply triple_ret; naive_solver|].
    case_bool_decide as Eraw; [apply triple_ret; naive_solver|].
    apply triple_lift. intros v _ (Hp & _ & Hraw).
    destruct (ns_Props node !! prop) as [raw|] eqn:E; [|done]. cbn in *. specialize (Hraw raw eq_refl).
    unfold parse_window. destruct (ParseRange raw) as [w|] eqn:Ep; [split; [done|by apply Hraw]|done].
Qed.

Lemma nodeRangeWithClusterFallback_bounded P n pick prop cprop lo hi :
  stable J0 P -> bounded (lo, hi) -> (pick = ns_DRBDPortRange \/ pick = ns_DRBDMinorRange) ->
  triple J0 P (nodeRangeWithClusterFallback n pick prop cprop lo hi) (fun w v => P v /\ bounded w) P.
Proof using BW.
  intros HP Hb Hpick. unfold nodeRangeWithClusterFallback.
  eapply triple_bind; [by apply clusterRange_bounded|]. intros [[cl ch] ok]. cbn.
  destruct ok; cbn.
  - intros s Hj [Hp Hw]. by apply (nodeRange_bounded P n pick prop cl ch HP Hw Hpick).
  - intros s Hj [Hp Hw]. by apply (nodeRange_bounded P n pick prop lo hi HP Hb Hpick).
Qed.

Lemma portRangeForNode_bounded P n :
  stable J0 P -> triple J0 P (portRangeForNode n) (fun w v => P v /\ bounded w) P.
Proof using BW. intros HP. apply nodeRangeWithClusterFallback_bounded; auto. by split. Qed.

Lemma intersect_bounded P pick prop cprop lo hi nodes acc :
  stable J0 P -> bounded (lo, hi) -> (pick = ns_DRBDPortRange \/ pick = ns_DRBDMinorRange) ->
  (forall w, acc = Some w -> bounded w) ->
  triple J0 P (intersect_from acc nodes (fun node =>
      nodeRangeWithClusterFallback node pick prop cprop lo hi))
    (fun acc' v => P v /\ forall w, acc' = Some w -> bounded w) P.
Proof using BW.
  intros HP Hb Hpick. revert acc. induction nodes as [|n nodes IH]; intros acc Hacc; cbn.
  - by apply triple_ret.
  - eapply triple_bind; [by apply nodeRangeWithClusterFallback_bounded|]. intros [nl nh].
    cbn. destruct acc as [[l h]|]; intros s Hj [Hp Hw].
    + apply IH; try done. intros w [= <-]. pose proof (Hacc _ eq_refl) as [? ?]. destruct Hw as [? ?].
      split; cbn in *; case_bool_decide; lia.
    + apply IH; try done. by intros w [= <-].
Qed.

Lemma intersectMinorRange_bounded P nodes :
  stable J0 P -> triple J0 P (intersectMinorRange nodes) (fun w v => P v /\ bounded w) P.
Proof using BW.
  intros HP. unfold intersectMinorRange, intersectRange. eapply triple_bind.
  - apply intersect_bounded; auto; [by split|done].
  - intros acc. apply triple_ret. intros v _ [Hp Hw]. split; [done|].
    destruct acc as [w|]; cbn; [by apply Hw|by split].
Qed.

(** ** Identities of a replica *)

Lemma id_free_stable n rdName i : stable J0 (id_free n rdName i).
Proof using. intros v v' _ Ho. by apply id_free_others. Qed.
Lemma port_free_stable n node p : stable J0 (port_free n node p).
Proof using. intros v v' _ Ho. by apply port_free_others. Qed.

(** The replica filed under [n], if it is still there, has the identities of [t0]. *)
Definition still (n : string) (t0 : ResourceCR) (v : kview) : Prop :=
  n ∈ v_born v /\ forall r, v_resources v !! n = Some r -> same_identities t0 r.

Lemma still_stable n t0 : stable J0 (still n t0).
Proof using.
  intros v v' _ Ho [Hb H]. split; [by apply Ho|]. intros r' Hr'.
  destruct (others_back _ _ _ _ Ho Hr') as [(r & Hr & Hs)|[_ Hn]]; [|done].
  specialize (H r Hr). destruct H as (? & ? & ? & ? & ? & ? & Hp), Hs as (? & ? & ? & ? & ? & ? & Hq).
  unfold same_identities. split_and!; try congruence. destruct Hq as [Hq|Hq]; [|by right]. destruct Hp as [Hp|Hp]; [left|right]; congruence.
Qed.

Lemma allocateNodeIDLocked_free P target :
  stable J0 P ->
  triple J0 P (allocateNodeIDLocked target)
    (fun i v => P v /\ id_free (rc_Name target) (rs_ResourceDefinitionName (rc_Spec target)) i v) P.
Proof using.
  intros HP. unfold allocateNodeIDLocked, collectTakenNodeIDs.
  apply triple_bind with (R := fun taken v => P v /\ forall i, i ∉ taken ->
    id_free (rc_Name target) (rs_ResourceDefinitionName (rc_Spec target)) i v).
  - eapply triple_bind.
    { apply (triple_read _ P _ (fun items v => forall r, r ∈ items <-> exists n, v_resources v !! n = Some r));
        [auto|done|apply readResources_reads|apply readResources_answer]. }
    intros items. apply triple_ret. intros v [_ Hg] [Hp Hitems]. split; [done|].
    intros i Hi m r Hm Hr Hrd Hid. apply Hi, elem_of_elements, elem_of_list_to_set, list_elem_of_bind.
    exists r. split; [|apply Hitems; eauto].
    unfold is_sibling. destruct Hg as ((Hn & _) & _). destruct (Hn _ _ Hr) as [-> _].
    rewrite !bool_decide_eq_true_2 by done. unfold occupied_by, eff_id in *. cbn.
    apply elem_of_app. left. destruct (rs_DRBDNodeID (rc_Spec r)); cbn in Hid; simplify_eq; [by left|].
    destruct (rst_DRBDNodeID (rc_Status r)); simplify_eq; by left.
  - intros taken. apply triple_lift. intros v _ [Hp Hfree].
    pose proof (LowestFreeNodeID_least taken) as Hl.
    destruct (LowestFreeNodeID taken) as [i|]; cbn; [|done]. split; [done|]. apply Hfree. by destruct Hl as (_ & ? & _).
Qed.

Lemma stable_forall {X} (Q : X -> kview -> Prop) : (forall x, stable J0 (Q x)) -> stable J0 (fun v => forall x, Q x v).
Proof using. intros H v v' Hj Ho Hv x. by eapply H. Qed.
Lemma stable_impl (A : Prop) P : stable J0 P -> stable J0 (fun v => A -> P v).
Proof using. intros H v v' Hj Ho Hv x. eapply H; eauto. Qed.

Lemma takenPortsOnNode_free P node self :
  stable J0 P ->
  triple J0 P (takenPortsOnNode node self)
    (fun taken v => P v /\ forall p, p ∉ taken -> port_free self node p v) P.
Proof using.
  intros HP. unfold takenPortsOnNode. eapply triple_bind.
  { apply (triple_read _ P _ (fun items v => forall r, r ∈ items <-> exists n, v_resources v !! n = Some r));
      [auto|done|apply readResources_reads|apply readResources_answer]. }
  intros items. apply triple_ret. intros v [_ Hg] [Hp Hitems]. split; [done|].
  intros p Hi m r Hm Hr Hnode Hid. apply Hi, list_elem_of_omap. exists r. split; [|done].
  apply list_elem_of_filter. destruct Hg as ((Hn & _) & _). destruct (Hn _ _ Hr) as [-> _].
  split; [naive_solver|]. apply Hitems; eauto.
Qed.

Lemma rdPreferredPort_reads P n : stable J0 P -> triple J0 P (rdPreferredPort n) (fun _ => P) P.
Proof using.
  intros HP. unfold rdPreferredPort. apply triple_bind with (R := fun _ => P); [|intros r; by apply triple_ret].
  apply triple_attempt with (E := P); [|done]. apply triple_any; auto using readRD_reads.
Qed.

(** The port taken from the scan, or from the preference of the definition, is free. *)
Lemma allocatePortForNode_free P target :
  stable J0 P ->
  triple J0 P (allocatePortForNode target)
    (fun p v => P v /\ port_free (rc_Name target) (rs_NodeName (rc_Spec target)) p v) P.
Proof using BW.
  intros HP. unfold allocatePortForNode. eapply triple_bind; [by apply portRangeForNode_bounded|].
  intros [low high].
  set (R := fun (taken : list Z) v => (P v /\ bounded (low, high))
    /\ forall p, p ∉ taken -> port_free (rc_Name target) (rs_NodeName (rc_Spec target)) p v).
  apply triple_bind with (R := R).
  { eapply triple_weaken; [apply (takenPortsOnNode_free (fun v => P v /\ bounded (low, high)))|done..|].
    - apply stable_and; [done|apply stable_pure].
    - by intros v _ []. }
  intros taken. apply triple_bind with (R := fun _ => R taken).
  { eapply triple_weaken; [apply (rdPreferredPort_reads (R taken))|done..|by intros v _ [[] _]].
    apply stable_and; [apply stable_and; [done|apply stable_pure]|].
    apply stable_forall. intros p. apply stable_impl, port_free_stable. }
  intros seed.
  assert (forall v, R taken v -> match of_scan (LowestFreePort taken low high) with
    | Ok p => P v /\ port_free (rc_Name target) (rs_NodeName (rc_Spec target)) p v
    | Err _ => P v
    end) as Hscan.
  { intros v [[Hp Hb] Hf]. destruct (of_scan (LowestFreePort taken low high)) as [p|] eqn:E; [|done].
    split; [done|]. apply Hf. by destruct (scan_free_value taken low high p Hb (or_introl E)). }
  destruct seed as [p|]; [|apply triple_lift; intros v _ Hv; exact (Hscan v Hv)].
  destruct (_ && _) eqn:Eb; [|apply triple_lift; intros v _ Hv; exact (Hscan v Hv)].
  apply triple_ret. intros v _ [[Hp _] Hf]. split; [done|]. apply Hf.
  apply andb_true_iff in Eb as [_ Eb]. by apply negb_true_iff, bool_decide_eq_false in Eb.
Qed.

(** ** Minors of a definition *)

Lemma minors_free_stable n l : stable J0 (minors_free n l).
Proof using. intros v v' _ Ho. by apply minors_free_others. Qed.

Lemma takenMinorsCluster_free P self :
  stable J0 P ->
  triple J0 P (takenMinorsCluster self)
    (fun taken v => P v /\ forall l, (forall x, x ∈ l -> x ∉ taken) -> minors_free self l v) P.
Proof using.
  intros HP. unfold takenMinorsCluster. eapply triple_bind.
  { apply (triple_read _ P _ (fun items v => forall rd, rd ∈ items <-> exists n, v_rds v !! n = Some rd));
      [auto|done|apply readRDs_reads|apply readRDs_answer]. }
  intros items. apply triple_ret. intros v [_ Hg] [Hp Hitems]. split; [done|].
  intros l Hl m rd x Hm Hrd Hx Hin. apply (Hl x Hx), list_elem_of_bind. exists rd.
  split; [|apply Hitems; eauto]. destruct Hg as ((_ & Hn) & _). rewrite (Hn _ _ Hrd).
  rewrite bool_decide_eq_false_2 by done. apply elem_of_app. by left.
Qed.

(** A definition read from a good cluster: no legacy base, minors its own. *)
Definition sound_rd (rd : ResourceDefinitionCR) (v : kview) : Prop :=
  rdc_StatusDRBDMinor rd = None /\ NoDup (minors (rdc_VolumeDefinitions rd))
  /\ minors_free (rdc_Name rd) (minors (rdc_VolumeDefinitions rd)) v.

Lemma sound_rd_stable rd : stable J0 (sound_rd rd).
Proof using.
  apply stable_and; [apply stable_pure|]. apply stable_and; [apply stable_pure|apply minors_free_stable].
Qed.

Lemma readRD_sound P n :
  stable J0 P -> triple J0 P (readRD n) (fun rd v => P v /\ sound_rd rd v) P.
Proof using.
  intros HP. eapply triple_weaken; [|done| |done].
  { apply (triple_read _ P _ (fun rd v => v_rds v !! n = Some rd));
      [auto|done|apply readRD_reads|apply readRD_answer]. }
  intros rd v [_ ((_ & Hn) & _ & Hm1 & Hm2)] [Hp Hrd]. split; [done|].
  destruct (Hm1 _ _ Hrd) as [Hb Hnd]. split_and!; [done..|]. rewrite (Hn _ _ Hrd).
  intros m rd2 x Hne Hrd2 Hx. by apply (Hm2 n m rd rd2).
Qed.

Definition filled (rd rd' : ResourceDefinitionCR) (v : kview) : Prop :=
  grows_rd rd rd' /\ rd' = with_rd_volumes rd (rdc_VolumeDefinitions rd')
  /\ NoDup (minors (rdc_VolumeDefinitions rd'))
  /\ minors_free (rdc_Name rd) (minors (rdc_VolumeDefinitions rd')) v.

Lemma filled_stable rd rd' : stable J0 (filled rd rd').
Proof using.
  do 3 (apply stable_and; [apply stable_pure|]). apply minors_free_stable.
Qed.

Lemma allocateRDVolumeMinors_filled P rd :
  stable J0 P ->
  triple J0 (fun v => P v /\ sound_rd rd v) (allocateRDVolumeMinors rd)
    (fun a v => P v /\ filled rd a.1 v) P.
Proof using BW.
  intros HP. set (P1 := fun v => P v /\ sound_rd rd v).
  assert (stable J0 P1) as HP1 by (by apply stable_and, sound_rd_stable).
  intros s Hj Hp. pose proof (proj2 Hp) as (Hbase & _). revert s Hj Hp.
  unfold allocateRDVolumeMinors, backfillRDMinorsFromStatus. rewrite Hbase.
  change (triple J0 P1 (hostNodes ← hostingNodesForRD (rdc_Name rd);
    '(low, high) ← intersectMinorRange hostNodes; taken ← takenMinorsCluster (rdc_Name rd);
    '(vols, mutated') ← lift (fill_minors (taken ++ minors (rdc_VolumeDefinitions rd)) low high
       (rdc_VolumeDefinitions rd) false); mret (with_rd_volumes rd vols, mutated'))
    (fun a v => P v /\ filled rd a.1 v) P).
  apply triple_bind with (R := fun _ => P1).
  { unfold hostingNodesForRD. apply triple_bind with (R := fun _ => P1); [|intros items; by apply triple_ret].
    eapply triple_weaken; [by apply (triple_any J0 P1); auto using cachedResources_reads|done..|by intros v _ []]. }
  intros hosts. apply triple_bind with (R := fun w v => P1 v /\ bounded w).
  { eapply triple_weaken; [by apply (intersectMinorRange_bounded P1)|done..|by intros v _ []]. }
  intros [low high]. apply triple_bind with (R := fun (taken : list Z) v => (P1 v /\ bounded (low, high))
    /\ forall l, (forall x, x ∈ l -> x ∉ taken) -> minors_free (rdc_Name rd) l v).
  { eapply triple_weaken; [apply (takenMinorsCluster_free (fun v => P1 v /\ bounded (low, high)))|done..|by intros v _ [[] _]].
    apply stable_and; [done|apply stable_pure]. }
  intros taken. apply triple_bind with (R := fun a v => P v /\ filled rd (with_rd_volumes rd a.1) v).
  - apply triple_lift. intros v _ [[[Hp (_ & Hnd & Hfree)] Hb] Htaken].
    destruct (fill_minors _ low high _ false) as [[vols b]|] eqn:Ef; [|done]. split; [done|].
    apply fill_minors_spec in Ef as (H1 & H2 & H3); [|done..|intros; apply elem_of_app; by right].
    split_and!; [|done..|].
    + by split_and!.
    + intros m rd2 x Hm Hrd2 [Hx|Hx]%H3; [by eapply Hfree|].
      apply (Htaken [x]) with m; [|done..|by left].
      intros y ->%list_elem_of_singleton Hy. apply Hx, elem_of_app. by left.
  - intros [vols b]. by apply triple_ret.
Qed.

(** The facts the rest of the pass needs do not look at definitions. *)
Definition rds_blind P : Prop := forall v n rd, P v -> P (set_rd n rd v).

Lemma patchRDVolumeMinors_keeps P rd rd' :
  stable J0 P -> rds_blind P ->
  triple J0 (fun v => P v /\ filled rd rd' v) (patchRDVolumeMinors rd rd') (fun _ => P) P.
Proof using.
  intros HP Hb. eapply triple_write;
    [auto|by apply stable_and, filled_stable|apply patchVolumeMinors_writes|..|by intros v _ []].
  intros v v' Hj [Hp (Hg & Hshape & Hnd & Hfree)] (rd0 & Hrd & -> & ->).
  split; [|split; by apply (Hb v)]. rewrite <- Hshape. by apply (J_set_rd v0 v _ rd).
Qed.

Lemma ensureRDVolumeMinors_keeps P target :
  stable J0 P -> rds_blind P -> triple J0 P (ensureRDVolumeMinors target) (fun _ => P) P.
Proof using BW.
  intros HP Hb. unfold ensureRDVolumeMinors.
  eapply triple_unlessGone; [by apply readRD_sound|done|]. intros rd.
  case_bool_decide; [apply triple_ret; by intros v _ []|].
  destruct (rdVolumeMinorsComplete rd); [apply triple_ret; by intros v _ []|].
  eapply triple_bind; [by apply allocateRDVolumeMinors_filled|]. intros [rd' mutated]. cbn.
  destruct mutated; cbn; [|apply triple_ret; by intros v _ []].
  apply triple_bind with (R := fun _ => P).
  { eapply triple_attempt; [by apply patchRDVolumeMinors_keeps|done]. }
  intros [[]|e]; [by apply triple_ret|]. destruct (IsConflict e); [|by apply triple_throw].
  apply triple_bind with (R := fun _ => P).
  { eapply triple_attempt; [apply triple_any; auto using readRD_reads|done]. }
  intros [f|e']; [by apply triple_ret|by apply triple_throw].
Qed.

(** ** The whole allocation *)

(** [t0] is the replica as read, still in place, and its identities clash with nothing. *)
Definition held (n : string) (t0 : ResourceCR) (v : kview) : Prop :=
  rc_Name t0 = n /\ still n t0 v /\ clash_free n t0 v.

Lemma clash_free_stable n r : stable J0 (clash_free n r).
Proof using.
  apply stable_and; [|apply stable_and; [|apply stable_pure]]; apply stable_forall; intros x; apply stable_impl;
    [apply id_free_stable|apply port_free_stable].
Qed.

Lemma held_stable n t0 : stable J0 (held n t0).
Proof using.
  apply stable_and; [apply stable_pure|]. apply stable_and; [apply still_stable|apply clash_free_stable].
Qed.

Lemma readResource_held n : triple J0 TT (readResource n) (held n) TT.
Proof using.
  eapply triple_weaken; [|done| |done].
  { apply (triple_read _ TT _ (fun r v => v_resources v !! n = Some r));
      [auto|apply stable_TT|apply readResource_reads|apply readResource_answer]. }
  intros t0 v [_ ((Hn & _) & Hc & _)] [_ Ht]. destruct (Hn _ _ Ht) as [Hname Hborn].
  split_and!; [done|split; [done|]|by apply Hc]. intros r Hr. simplify_eq. split_and!; auto.
Qed.

(** [t1] is [t0] with every identity filled in; the ones it had are kept, the new ones are free. *)
Definition allotted (n : string) (t0 t1 : ResourceCR) (v : kview) : Prop :=
  exists i p skip,
    t1 = with_spec t0 (with_identities (rc_Spec t0) (Some p) (Some i) skip)
    /\ (keeps (eff_id t0) (Some i) /\ keeps (eff_port t0) (Some p) /\ keeps (rs_SkipInitialSync (rc_Spec t0)) skip)
    /\ rc_Name t0 = n /\ still n t0 v
    /\ id_free n (rs_ResourceDefinitionName (rc_Spec t0)) i v
    /\ port_free n (rs_NodeName (rc_Spec t0)) p v.

Lemma allotted_stable n t0 t1 : stable J0 (allotted n t0 t1).
Proof using.
  intros v v' Hj Ho (i & p & skip & ? & (? & ? & ?) & ? & Hs & Hi & Hp). exists i, p, skip. split_and!; try done.
  - by eapply still_stable.
  - by eapply id_free_stable.
  - by eapply port_free_stable.
Qed.

Lemma allotted_blind n t0 t1 : rds_blind (allotted n t0 t1).
Proof using. intros v m rd H. exact H. Qed.

Lemma backfilled_id t0 : rs_DRBDNodeID (rc_Spec (backfillResourceSpecFromStatus t0)) = eff_id t0.
Proof using. unfold eff_id. cbn. by destruct (rs_DRBDNodeID (rc_Spec t0)). Qed.
Lemma backfilled_port t0 : rs_DRBDPort (rc_Spec (backfillResourceSpecFromStatus t0)) = eff_port t0.
Proof using. unfold eff_port. cbn. by destruct (rs_DRBDPort (rc_Spec t0)). Qed.

Lemma ensure_nodeID_free n t0 :
  triple J0 (held n t0) (ensure_nodeID (backfillResourceSpecFromStatus t0))
    (fun i v => held n t0 v /\ keeps (eff_id t0) (Some i)
                /\ id_free n (rs_ResourceDefinitionName (rc_Spec t0)) i v) TT.
Proof using.
  unfold ensure_nodeID. rewrite backfilled_id. destruct (eff_id t0) as [i|] eqn:E.
  - apply triple_ret. intros v _ Hh. split_and!; [done..|]. destruct Hh as (_ & _ & Hc & _). by apply Hc.
  - eapply triple_weaken; [apply (allocateNodeIDLocked_free (held n t0)), held_stable|done| |done].
    cbn. intros i v _ [Hh Hf]. split_and!; [done|auto|]. by destruct Hh as (<- & _).
Qed.

Lemma ensure_port_free n t0 P :
  stable J0 P -> (forall v, P v -> held n t0 v) ->
  triple J0 P (ensure_port (backfillResourceSpecFromStatus t0))
    (fun p v => P v /\ keeps (eff_port t0) (Some p) /\ port_free n (rs_NodeName (rc_Spec t0)) p v) TT.
Proof using BW.
  intros HP Hheld. unfold ensure_port. rewrite backfilled_port. destruct (eff_port t0) as [p|] eqn:E.
  - apply triple_ret. intros v _ Hp. split_and!; [done..|].
    destruct (Hheld v Hp) as (_ & _ & _ & Hc & Hm). apply Hc.
    unfold eff_port in E. by destruct (rs_DRBDPort (rc_Spec t0)); [|rewrite Hm in E].
  - eapply triple_weaken; [apply (allocatePortForNode_free P), HP|done| |done].
    cbn. intros p v _ [Hp Hf]. split_and!; [done|auto|]. by destruct (Hheld v Hp) as (<- & _).
Qed.

Lemma ensure_skip_keeps P t0 :
  stable J0 P ->
  triple J0 P (ensure_skip (backfillResourceSpecFromStatus t0))
    (fun skip v => P v /\ keeps (rs_SkipInitialSync (rc_Spec t0)) skip) TT.
Proof using.
  intros HP. unfold ensure_skip. cbn. destruct (rs_SkipInitialSync (rc_Spec t0)) as [b|].
  - by apply triple_ret.
  - apply triple_bind with (R := fun _ => P); [|intros [skip ok]; by apply triple_ret].
    unfold rdInitializedForResource. eapply triple_unlessGone with (R := fun _ => P) (E' := P);
      [apply triple_any; auto using readRD_reads|done|]. intros rd. by apply triple_ret.
Qed.

Lemma allocateResourceSpecFields_allotted n t0 :
  triple J0 (held n t0) (allocateResourceSpecFields (backfillResourceSpecFromStatus t0)) (allotted n t0) TT.
Proof using BW.
  unfold allocateResourceSpecFields. eapply triple_bind; [apply ensure_nodeID_free|]. intros i.
  eapply triple_bind.
  { apply (ensure_port_free n t0).
    - apply stable_and; [apply held_stable|]. apply stable_and; [apply stable_pure|apply id_free_stable].
    - by intros v []. }
  intros p. eapply triple_bind.
  { apply ensure_skip_keeps. apply stable_and; [apply stable_and; [apply held_stable|]|].
    - apply stable_and; [apply stable_pure|apply id_free_stable].
    - apply stable_and; [apply stable_pure|apply port_free_stable]. }
  intros skip. apply triple_ret.
  intros v _ [[[(Hn & Hs & _) [Hki Hi]] [Hkp Hp]] Hks]. exists i, p, skip. by split_and!.
Qed.

(** After the patch of the spec the replica, if it is still there, carries the new identities. *)
Definition stamped (n : string) (t0 t1 : ResourceCR) (v : kview) : Prop :=
  rc_Name t1 = n /\ n ∈ v_born v
  /\ forall r, v_resources v !! n = Some r ->
       rs_DRBDNodeID (rc_Spec r) = rs_DRBDNodeID (rc_Spec t1)
       /\ rs_DRBDPort (rc_Spec r) = rs_DRBDPort (rc_Spec t1)
       /\ is_Some (rs_DRBDNodeID (rc_Spec t1)) /\ is_Some (rs_DRBDPort (rc_Spec t1)).

Lemma stamped_stable n t0 t1 : stable J0 (stamped n t0 t1).
Proof using.
  intros v v' _ Ho (Hn & Hb & H). split_and!; [done|by apply Ho|]. intros r' Hr'.
  destruct (others_back _ _ _ _ Ho Hr') as [(r & Hr & Hs)|[_ Hno]]; [|done].
  destruct (H r Hr) as (E1 & E2 & ? & ?). destruct Hs as (_ & _ & -> & -> & _). by split_and!.
Qed.

Lemma patchResourceSpecIdentities_stamps n t0 t1 :
  triple J0 (allotted n t0 t1) (patchResourceSpecIdentities t1) (fun _ => stamped n t0 t1) TT.
Proof using.
  eapply triple_write; [auto|apply allotted_stable|apply patchSpecIdentities_writes| |done].
  intros v v' Hj (i & p & skip & -> & (Hki & Hkp & Hks) & Hn & (Hb & Hs) & Hi & Hp) (r & Hr & _ & ->). cbn in *.
  rewrite Hn in *. specialize (Hs r Hr). destruct (proj1 (proj1 (proj2 Hj)) _ _ Hr) as [Hname _].
  pose proof Hs as (Erd & Enode & Eid & Eport & Eskip & Esid & Esport).
  assert (eff_id r = eff_id t0) as Eeff by (by apply same_eff).
  split; [|split; [|done]].
  - apply (J_set_resource v0 v n r); [done..| |].
    + unfold grows. rewrite Eeff, Eid, Eport, Eskip. cbn.
      split_and!; try done; intros x Hx; [apply Hki|apply Hkp]; unfold eff_id, eff_port; by rewrite Hx.
    + unfold clash_free, eff_id. cbn. rewrite Erd, Enode. split_and!; [by intros ? [= <-]..|done].
  - split_and!; [done..|]. cbn. intros r2. rewrite lookup_insert_eq. intros [= <-]. by cbn.
Qed.

(** Nothing to patch: the spec as read already had the identities. *)
Lemma unpatched_stamped n t0 t1 v :
  allotted n t0 t1 v -> equalResourceIdentitySpec (rc_Spec t0) (rc_Spec t1) = true -> stamped n t0 t1 v.
Proof using.
  intros (i & p & skip & -> & _ & Hn & (Hb & Hs) & _) He. split_and!; [done..|]. intros r Hr.
  destruct (Hs r Hr) as (_ & _ & -> & -> & _). unfold equalResourceIdentitySpec, ptrEq in He. cbn in *.
  destruct (rs_DRBDNodeID (rc_Spec t0)); [|done]. destruct (rs_DRBDPort (rc_Spec t0)); [|by rewrite andb_false_r in He].
  apply andb_true_iff in He as [[E1%bool_decide_eq_true E2%bool_decide_eq_true]%andb_true_iff _]. subst. by split_and!.
Qed.

Lemma patchResourceStatusIdentities_keeps n t0 t1 minor :
  triple J0 (stamped n t0 t1) (patchResourceStatusIdentities (mirrorIdentitiesToStatus t1 minor)) (fun _ => TT) TT.
Proof using.
  eapply triple_write; [auto|apply stamped_stable|apply patchStatusIdentities_writes| |done].
  intros v v' Hj (Hn & Hb & Hs) (r & Hr & _ & ->). split; [|done]. cbn in *. rewrite Hn in *.
  destruct (Hs r Hr) as (Eid & Eport & [i Hi] & [p Hp]). destruct (proj2 (proj2 Hj)) as [Hc _].
  destruct (Hc _ _ Hr) as (H1 & H2 & H3). rewrite Hi, Hp in *. apply (J_set_resource v0 v n r); [done..| |].
  - unfold grows, eff_id. cbn. rewrite Eid, Eport. by split_and!.
  - unfold clash_free, eff_id in *. cbn in *. rewrite Eid, Eport in *. by split_and!.
Qed.

(** The allocation as a whole. *)
Lemma allocateAndApplyDRBDIDs_keeps n : triple J0 TT (allocateAndApplyDRBDIDs n) (fun _ => TT) TT.
Proof using BW.
  unfold allocateAndApplyDRBDIDs. eapply triple_unlessGone; [apply readResource_held|done|]. intros t0.
  eapply triple_unlessGone; [apply allocateResourceSpecFields_allotted|done|]. intros t1.
  apply triple_bind with (R := fun _ => allotted n t0 t1).
  { eapply triple_weaken; [apply (ensureRDVolumeMinors_keeps (allotted n t0 t1))|done..].
    - apply allotted_stable.
    - apply allotted_blind. }
  intros [minorMutated vol0]. apply triple_unlessGone with (R := fun _ => stamped n t0 t1) (E' := TT); [|done|].
  { destruct (equalResourceIdentitySpec _ _) eqn:E; cbn.
    - apply triple_ret. intros v _ H. by apply unpatched_stamped.
    - apply patchResourceSpecIdentities_stamps. }
  intros []. apply triple_unlessGone with (R := fun _ => TT) (E' := TT); [|done|].
  { destruct (equalStatusIdentities _ _); cbn; [by apply triple_ret|].
    apply patchResourceStatusIdentities_keeps. }
  intros []. by apply triple_ret.
Qed.

Lemma ensureDRBDIDs_keeps n : triple J0 TT (ensureDRBDIDs n) (fun _ => TT) TT.
Proof using BW. apply triple_retry, allocateAndApplyDRBDIDs_keeps. Qed.

End Triples.
