(* ===== verification/ReplicaProps.v ===== *)
(** * Properties of the replica controller

    The whole [Reconcile] keeps the invariant of [ReplicaIdsProps]; consequences for any
    sequence of passes and foreign writes; the seeds, the pruning and the initial-sync decision;
    and what happens to objects that predate the migration. *)

From stdpp Require Import relations.
From S2P Require Import Prelude Api DrbdAlloc DrbdStates Kube ReplicaIds ReplicaController ReplicaIdsProps.
Import Alloc Disk.

Section Pass.
Context {S : Type} {Ops : KubeOps S} {KL : KubeLaws S} {BW : BoundedWindows S}.
Context (v0 : kview).
Notation J0 := (J v0).

(** A call or a pass that keeps the invariant, whatever it answers. *)
Definition safe {A} (m : K S A) : Prop := triple J0 TT m (fun _ => TT) TT.

Lemma safe_ret {A} (a : A) : safe (mret a).
Proof using. by apply triple_ret. Qed.
Lemma safe_throw {A} e : safe (throw (A := A) e).
Proof using. by apply triple_throw. Qed.
Lemma safe_bind {A B} (m : K S A) (k : A -> K S B) : safe m -> (forall a, safe (k a)) -> safe (m ≫= k).
Proof using. intros. eapply triple_bind; eauto. Qed.
Lemma safe_attempt {A} (m : K S A) : safe m -> safe (attempt m).
Proof using. intros. by eapply triple_attempt. Qed.
Lemma safe_unlessGone {A B} (m : K S A) (d : B) k : safe m -> (forall a, safe (k a)) -> safe (unlessGone m d k).
Proof using. intros. by eapply triple_unlessGone. Qed.
Lemma safe_read {A} (m : K S A) : reading view m -> safe m.
Proof using. intros. apply triple_any; auto using stable_TT. Qed.
Lemma safe_write m effect :
  writing view effect m -> (forall v v', J0 v -> effect v v' -> J0 v') -> safe m.
Proof using. intros Hw H. eapply triple_write; eauto using stable_TT. Qed.

Lemma safe_update base new :
  rc_Name new = rc_Name base -> grows base (with_status new (rc_Status base)) ->
  rs_DRBDPort (rc_Spec new) = rs_DRBDPort (rc_Spec base) ->
  rs_DRBDNodeID (rc_Spec new) = rs_DRBDNodeID (rc_Spec base) ->
  safe (updateResource base new).
Proof using.
  intros Hn Hg Ep Ei. eapply safe_write; [by apply updateResource_writes|].
  intros v v' Hj (r & Hr & -> & ->). apply (J_set_resource v0 v _ base); [done..|].
  destruct Hj as [_ (_ & Hc & _)]. destruct (Hc _ _ Hr) as (H1 & H2 & H3).
  pose proof Hg as (_ & Erd & Enode & _). unfold clash_free, eff_id in *. cbn in *.
  rewrite Erd, Enode, Ep, Ei. done.
Qed.

Lemma safe_update_spec base sp :
  rs_ResourceDefinitionName sp = rs_ResourceDefinitionName (rc_Spec base) ->
  rs_NodeName sp = rs_NodeName (rc_Spec base) ->
  rs_DRBDPort sp = rs_DRBDPort (rc_Spec base) -> rs_DRBDNodeID sp = rs_DRBDNodeID (rc_Spec base) ->
  keeps (rs_SkipInitialSync (rc_Spec base)) (rs_SkipInitialSync sp) ->
  safe (update_spec base sp).
Proof using.
  intros E1 E2 E3 E4 E5. apply safe_bind; [|intros; apply safe_ret].
  apply safe_update; [done| |done..].
  unfold grows, eff_id. cbn. rewrite E1, E2, E3, E4. by split_and!.
Qed.

Lemma safe_finalizers target fs : safe (updateResource target (with_finalizers target fs)).
Proof using. apply safe_update; [done| |done..]. apply grows_same; [done|]. split_and!; auto. Qed.

Lemma ensureVolumeProjection_safe target peers rd : safe (ensureVolumeProjection target peers rd).
Proof using.
  unfold ensureVolumeProjection, pruneStaleResourceVolumes, ensureSeedFromGI.
  apply safe_bind.
  - destruct rd as [rd|]; [|apply safe_ret]. repeat case_bool_decide; auto using safe_ret.
    by apply safe_update_spec.
  - intros [|]; [apply safe_ret|]. destruct rd as [rd|]; [|apply safe_ret].
    case_bool_decide; [apply safe_ret|]. repeat (case_match; auto using safe_ret).
    by apply safe_update_spec.
Qed.

Lemma safe_patchInitialized n : safe (patchRDInitialized n).
Proof using.
  eapply safe_write; [apply patchInitialized_writes|]. intros v v' Hj (rd & Hrd & _ & ->).
  pose proof Hj as [_ (_ & _ & Hm1 & Hm2)]. apply (J_set_rd v0 v n rd); [done..| | |].
  - split_and!; [done|apply grows_volumes_refl|done].
  - exact (proj2 (Hm1 n rd Hrd)).
  - intros m rd2 x Hm Hrd2 Hx. exact (Hm2 n m rd rd2 x ltac:(congruence) Hrd Hrd2 Hx).
Qed.

Lemma safe_patchSkip n skip : safe (patchResourceSkipInitialSync n skip).
Proof using.
  eapply safe_write; [apply patchSkipInitialSync_writes|]. intros v v' Hj (r & Hr & Hset & ->).
  apply (J_set_resource v0 v n r); [done..| |].
  - unfold grows. cbn. split_and!; try done. intros b Hb. rewrite Hb in Hset.
    destruct Hset as [|[|]]; congruence.
  - exact (proj1 (proj2 (proj2 Hj)) n r Hr).
Qed.

Lemma ensureSkipInitSyncDecision_safe target peers rd : safe (ensureSkipInitSyncDecision target peers rd).
Proof using.
  unfold ensureSkipInitSyncDecision. destruct rd as [rd|]; [|apply safe_ret].
  destruct (_ && _); [apply safe_unlessGone; [apply safe_patchInitialized|]; intros; apply safe_ret|].
  destruct (rs_SkipInitialSync (rc_Spec target)); [apply safe_ret|].
  apply safe_unlessGone; [apply safe_patchSkip|]. intros; apply safe_ret.
Qed.

(** The replica in memory after the decision differs from the one read in the stamp only. *)
Definition restamped (base target : ResourceCR) : Prop :=
  target = base
  \/ (rs_SkipInitialSync (rc_Spec base) = None
      /\ exists skip, target = with_spec base (with_identities (rc_Spec base)
           (rs_DRBDPort (rc_Spec base)) (rs_DRBDNodeID (rc_Spec base)) (Some skip))).

Lemma ensureSkipInitSyncDecision_target target peers rd :
  triple J0 TT (ensureSkipInitSyncDecision target peers rd) (fun a _ => restamped target a.2) TT.
Proof using.
  unfold ensureSkipInitSyncDecision, restamped.
  destruct rd as [rd|]; [|apply triple_ret; auto].
  destruct (_ && _).
  - eapply triple_unlessGone; [apply safe_patchInitialized|by auto|]. intros; apply triple_ret; auto.
  - destruct (rs_SkipInitialSync (rc_Spec target)) eqn:E; [apply triple_ret; auto|].
    eapply triple_unlessGone; [apply safe_patchSkip|by eauto 6|]. intros; apply triple_ret; eauto 6.
Qed.

Lemma maybeAutoDiskful_safe base target : restamped base target -> safe (maybeAutoDiskful base target).
Proof using.
  intros Hr. unfold maybeAutoDiskful. repeat (case_match; auto using safe_ret).
  apply safe_bind.
  - apply safe_bind; [apply safe_read, storagePools_reads|]. intros; apply safe_ret.
  - intros pool. case_bool_decide; [apply safe_ret|]. apply safe_update_spec.
    all: destruct Hr as [->|(E & skip & ->)]; cbn; auto. by rewrite E.
Qed.

Lemma runApply_safe target : safe (runApply target).
Proof using.
  unfold runApply. apply safe_bind; [apply safe_read, cachedResources_reads|]. intros items.
  apply safe_bind; [apply safe_read, cachedNodes_reads|]. intros _.
  apply safe_bind.
  { apply safe_unlessGone; [apply safe_read, cachedRD_reads|]. intros; apply safe_ret. }
  intros rd. apply safe_bind; [apply ensureVolumeProjection_safe|]. intros [|]; [apply safe_ret|].
  eapply triple_bind; [apply ensureSkipInitSyncDecision_target|]. intros [[|] target']; cbn.
  - by apply triple_ret.
  - intros s Hj Hr. by apply (maybeAutoDiskful_safe target target').
Qed.

Lemma handleOrphan_safe target : safe (handleOrphan target).
Proof using.
  unfold handleOrphan. case_match; [apply safe_ret|].
  apply safe_bind; [apply safe_attempt, safe_read, cachedRD_reads|].
  intros [rd|e]; [apply safe_ret|]. destruct (IsNotFound e); cbn; [|apply safe_throw].
  apply safe_bind; [apply safe_attempt|].
  - eapply safe_write; [apply deleteResource_writes|]. intros v v' Hj [->|(r & Hr & _ & ->)].
    + by apply J_delete.
    + apply (J_set_same v0 v _ r); [done..|split_and!; auto].
  - intros [u|e']; [apply safe_ret|]. destruct (IsNotFound e'); [apply safe_ret|apply safe_throw].
Qed.

Lemma Reconcile_safe n : safe (Reconcile n).
Proof using BW.
  unfold Reconcile. apply safe_unlessGone; [apply safe_read, cachedResource_reads|]. intros target.
  destruct (rc_Deleting target).
  { unfold stripLegacyFinalizer. case_match; [apply safe_ret|].
    apply safe_bind; [apply safe_finalizers|intros; apply safe_ret]. }
  case_match; [apply safe_bind; [apply safe_finalizers|intros; apply safe_ret]|].
  case_bool_decide; [apply safe_ret|].
  apply safe_bind; [apply handleOrphan_safe|]. intros [|]; [apply safe_ret|].
  apply safe_bind; [apply ensureDRBDIDs_keeps|]. intros [|]; [apply safe_ret|apply runApply_safe].
Qed.

End Pass.

(** ** Sequences of passes *)

Lemma grows_trans r1 r2 r3 : grows r1 r2 -> grows r2 r3 -> grows r1 r3.
Proof.
  intros (? & ? & ? & H1 & H2 & H3 & H4) (? & ? & ? & K1 & K2 & K3 & K4). unfold grows, keeps in *.
  split_and!; try congruence; eauto.
Qed.

Lemma move_born v v' : move v v' -> v_born v ⊆ v_born v'.
Proof. intros [(_ & H & _)|(-> & _)]; done. Qed.

(** A replica whose name is in use does not come back once it is gone. *)
Lemma move_gone v v' n : move v v' -> n ∈ v_born v -> v_resources v !! n = None -> v_resources v' !! n = None.
Proof.
  intros Hm Hb Hn. destruct (v_resources v' !! n) as [r'|] eqn:E; [|done]. exfalso. destruct Hm as [Ho|Ho].
  - destruct (others_back _ _ _ _ Ho E) as [(r & Hr & _)|[_ ?]]; congruence.
  - destruct Ho as (_ & Ho & _). destruct (Ho _ _ E) as (r & Hr & _). congruence.
Qed.

Lemma moves_gone v v' n :
  rtc move v v' -> n ∈ v_born v -> v_resources v !! n = None -> v_resources v' !! n = None.
Proof.
  induction 1 as [|v v1 v' Hm _ IH]; [done|]. intros Hb Hn. apply IH.
  - by eapply move_born.
  - by eapply move_gone.
Qed.

Lemma move_grows v v' n r r' :
  named v -> move v v' -> v_resources v !! n = Some r -> v_resources v' !! n = Some r' -> grows r r'.
Proof.
  intros Hn [Ho|Ho] Hr Hr'.
  - destruct (others_back _ _ _ _ Ho Hr') as [(r1 & Hr1 & Hs)|[_ Hb]].
    + simplify_eq. apply grows_same; [|done]. destruct Ho as (Hnn & _).
      destruct (Hnn Hn) as [H1 _], Hn as [H2 _]. by rewrite (proj1 (H1 _ _ Hr')), (proj1 (H2 _ _ Hr)).
    + exfalso. apply Hb. by apply (proj1 Hn n r).
  - destruct Ho as (_ & Ho & _). destruct (Ho _ _ Hr') as (r1 & Hr1 & Hg). by simplify_eq.
Qed.

Lemma move_named v v' : named v -> move v v' -> named v'.
Proof.
  intros Hn [(Ho & _)|(Hb & Hr & Hrd & _)]; [by apply Ho|]. destruct Hn as [H1 H2]. split.
  - intros n r' Hr'. destruct (Hr _ _ Hr') as (r & ? & -> & _). rewrite Hb. by apply H1.
  - intros n rd' Hrd'. destruct (Hrd _ _ Hrd') as (rd & ? & Hg). destruct (grows_rd_same _ _ Hg) as [-> _].
    by apply H2.
Qed.

Lemma moves_grow v v' n r r' :
  named v -> rtc move v v' -> v_resources v !! n = Some r -> v_resources v' !! n = Some r' -> grows r r'.
Proof.
  intros Hn Hm. revert r. induction Hm as [|v v1 v' Hm Hms IH]; intros r Hr Hr'; [by simplify_eq|].
  destruct (v_resources v1 !! n) as [r1|] eqn:E.
  - eapply grows_trans; [by eapply move_grows|]. apply IH; [by eapply move_named|done..].
  - rewrite (moves_gone v1 v' n) in Hr'; [done..| |done].
    eapply move_born; [done|]. by apply (proj1 Hn n r).
Qed.

(** Between two passes a name may be used again. *)
Definition forget_names (v : kview) : kview := mkView (v_resources v) (v_rds v) (dom (v_resources v)).

Section Runs.
Context {S : Type} {Ops : KubeOps S} {KL : KubeLaws S} {BW : BoundedWindows S}.

(** The controller at work: passes over any replica in any order, and other writers between
    them (and, by [KubeLaws], between any two calls of a pass). *)
Inductive step : S -> S -> Prop :=
| step_pass n s : step s (Reconcile n s).2
| step_others s s' : others (forget_names (view s)) (view s') -> step s s'.

Lemma good_forget v : good v -> good (forget_names v).
Proof using.
  intros ((H1 & H2) & H3). split; [|done]. split; [|done]. intros n r Hr. split; [by apply H1|].
  by apply elem_of_dom_2 in Hr.
Qed.

Lemma pass_keeps n s : good (view s) -> J (view s) (view (Reconcile n s).2).
Proof using BW. intros Hg. by apply (Reconcile_safe (view s) n s). Qed.

Lemma step_good s s' : step s s' -> good (view s) -> good (view s').
Proof using BW.
  intros [n s1|s1 s2 Ho] Hg; [by apply pass_keeps|]. eapply good_others; [done|by apply good_forget].
Qed.


(** Identities are decided once. A pass over any replica changes no node id, no port and no
    initial-sync decision that is set on any replica, whether it was recorded in the spec or
    only in the status before the migration; and every write it makes to a definition keeps all
    its volumes, in order and with the minors they have, whatever another writer appended in
    the meantime. *)
Theorem identities_never_change n s :
  good (view s) ->
  (forall m r r', v_resources (view s) !! m = Some r ->
     v_resources (view (Reconcile n s).2) !! m = Some r' -> grows r r')
  /\ rtc move (view s) (view (Reconcile n s).2).
Proof using BW.
  intros Hg. destruct (pass_keeps n s Hg) as [Hm _]. split; [|done].
  intros m r r'. apply moves_grow; [apply Hg|done].
Qed.

End Runs.

(** ** A concrete cluster *)

(** [good], decided. *)
Definition good_check (v : kview) : Prop :=
  map_Forall (fun n r => rc_Name r = n /\ n ∈ v_born v
    /\ (rs_DRBDPort (rc_Spec r) = None -> rst_DRBDPort (rc_Status r) = None)
    /\ map_Forall (fun m r' => m = n
         \/ ((rs_ResourceDefinitionName (rc_Spec r') = rs_ResourceDefinitionName (rc_Spec r) ->
               eff_id r = None \/ eff_id r' <> eff_id r)
            /\ (rs_NodeName (rc_Spec r') = rs_NodeName (rc_Spec r) ->
               rs_DRBDPort (rc_Spec r) = None \/ rs_DRBDPort (rc_Spec r') <> rs_DRBDPort (rc_Spec r))))
         (v_resources v)) (v_resources v)
  /\ map_Forall (fun n rd => rdc_Name rd = n /\ rdc_StatusDRBDMinor rd = None
    /\ NoDup (minors (rdc_VolumeDefinitions rd))
    /\ map_Forall (fun m rd' => m = n \/ Forall (fun x => x ∉ minors (rdc_VolumeDefinitions rd'))
                                          (minors (rdc_VolumeDefinitions rd))) (v_rds v)) (v_rds v).

#[global] Instance good_check_dec v : Decision (good_check v).
Proof. unfold good_check. apply _. Defined.

Lemma good_check_good v : good_check v -> good v.
Proof.
  intros [Hr Hrd]. split; [split|split; [|split]].
  - intros n r H. by destruct (Hr n r H) as (? & ? & _).
  - intros n rd H. by destruct (Hrd n rd H) as (? & _).
  - intros n r H. destruct (Hr n r H) as (_ & _ & Hm & Ho). split_and!; [| |done].
    + intros i E m r' Hne Hr' Hrd' E'. destruct (Ho m r' Hr') as [?|[H1 _]]; [done|].
      destruct (H1 Hrd'); congruence.
    + intros p E m r' Hne Hr' Hn' E'. destruct (Ho m r' Hr') as [?|[_ H1]]; [done|].
      destruct (H1 Hn'); congruence.
  - intros n rd H. by destruct (Hrd n rd H) as (_ & ? & ? & _).
  - intros n m rd rd' x Hne H H' Hx. destruct (Hrd n rd H) as (_ & _ & _ & Ho).
    destruct (Ho m rd' H') as [?|Hf]; [done|]. rewrite list.Forall_forall in Hf. by apply Hf.
Qed.

(** ** The initial-sync decision *)

Section SkipDecision.
Context {S : Type} {Ops : KubeOps S} {KL : KubeLaws S}.

(** Every replica told to skip in [v] was already told so in [v0]. *)
Definition no_new_skip (v0 v : kview) : Prop :=
  forall n r', v_resources v !! n = Some r' -> rs_SkipInitialSync (rc_Spec r') = Some true ->
    exists r, v_resources v0 !! n = Some r /\ rs_SkipInitialSync (rc_Spec r) = Some true.

Lemma no_new_skip_stable v0 : stable (no_new_skip v0) (no_new_skip v0).
Proof using.
  intros v v' _ Ho H n r' Hr' Ht. destruct (others_back _ _ _ _ Ho Hr') as [(r & Hr & Hs)|[Hn _]].
  - apply (H n r Hr). by destruct Hs as (_ & _ & _ & _ & <- & _).
  - destruct Hn as (_ & _ & Hn & _). congruence.
Qed.

Lemma no_new_skip_write v0 m effect :
  writing view effect m -> (forall v v', no_new_skip v0 v -> effect v v' -> no_new_skip v0 v') ->
  triple (no_new_skip v0) TT m (fun _ => TT) TT.
Proof using. intros Hw He. eapply triple_write; eauto using no_new_skip_stable, stable_TT. Qed.

(** A replica is never told to skip its initial sync over data. When the definition is
    latched as initialized, or any diskful replica is seen with a generation past day 0, the
    decision step tells no replica to skip, and whatever the caches hold the allocation step
    answers with the negation of the latch as the API server has it. *)
Theorem never_skips_over_data target peers rd s :
  (rdInitialized rd = true \/ anyProvenDataBearingDiskfulPeer peers "" = true ->
     no_new_skip (view s) (view (ensureSkipInitSyncDecision target peers (Some rd) s).2))
  /\ (forall skip, rs_SkipInitialSync (rc_Spec target) = None -> (ensure_skip target s).1 = Ok (Some skip) ->
     exists rd', v_rds (view (ensure_skip target s).2) !! rs_ResourceDefinitionName (rc_Spec target) = Some rd'
       /\ skip = negb (rdInitialized rd')).
Proof using.
  split.
  - intros Hdata.
    enough (triple (no_new_skip (view s)) TT (ensureSkipInitSyncDecision target peers (Some rd)) (fun _ => TT) TT) as Ht.
    { apply Ht; [|done]. intros n r Hr Hs. eauto. }
    unfold ensureSkipInitSyncDecision. destruct (rdInitialized rd) eqn:Ei.
    + cbn. destruct (rs_SkipInitialSync (rc_Spec target)) eqn:E; [by apply triple_ret|].
      eapply triple_unlessGone; [|done|intros; by apply triple_ret].
      eapply no_new_skip_write; [apply patchSkipInitialSync_writes|].
      intros v v' H (r & Hr & _ & ->) m r' [[<- <-]|[_ Hm]]%lookup_set_resource Hs; [done|by eapply H].
    + destruct Hdata as [|Hd]; [done|]. cbn. rewrite Hd.
      eapply triple_unlessGone; [|done|intros; by apply triple_ret].
      eapply no_new_skip_write; [apply patchInitialized_writes|].
      intros v v' H (r & Hr & _ & ->). exact H.
  - intros skip En. unfold ensure_skip. rewrite En.
    unfold rdInitializedForResource, unlessGone, mbind, K_bind, attempt.
    destruct (readRD _ s) as [[rd'|e] s'] eqn:E; cbn.
    + intros [= <-]. exists rd'. split; [|done].
      pose proof (readRD_answer (rs_ResourceDefinitionName (rc_Spec target)) s rd') as Ha. rewrite E in Ha. by apply Ha.
    + destruct (IsNotFound e); done.
Qed.

End SkipDecision.

(** ** Seeds *)

Lemma least_name_elem l r : least_name l = Some r -> r ∈ l.
Proof.
  revert r. induction l as [|x l IH]; cbn; [done|]. intros r.
  destruct (least_name l) as [y|]; [|intros [= ->]; by left].
  destruct (String.ltb _ _); intros [= ->]; [right; by apply IH|by left].
Qed.

(** The peer a seed comes from. *)
Definition seeds (peers : list ResourceCR) (targetName : string) (vn : Z) (seed : string) (peer : ResourceCR) : Prop :=
  peer ∈ peers /\ rc_Name peer <> targetName /\ volumeCurrentGI peer vn = seed /\ seed <> ""
  /\ volumeDiskState peer vn = DiskStateUpToDate.

Lemma pickSeedFromPeers_source peers targetName vn :
  pickSeedFromPeers peers targetName vn <> "" ->
  exists peer, seeds peers targetName vn (pickSeedFromPeers peers targetName vn) peer.
Proof.
  unfold pickSeedFromPeers. destruct (least_name _) as [peer|] eqn:E; [|done]. intros Hne.
  apply least_name_elem, list_elem_of_filter in E as [Hc Hin]. unfold is_seed_candidate in Hc.
  apply andb_true_iff in Hc as [[H1 H2]%andb_true_iff H3%bool_decide_eq_true].
  apply negb_true_iff, bool_decide_eq_false in H1. exists peer. by split_and!.
Qed.

(** A diskful peer that seeds while no peer bears data is at the day-0 generation. *)
Lemma seed_is_day0 peers targetName vn seed peer :
  anyDataBearingDiskfulPeer peers targetName = false -> seeds peers targetName vn seed peer ->
  Contains (rs_Flags (rc_Spec peer)) ResourceFlagDiskless = false ->
  Str.equal_fold seed (GI.Day0GIFor (rs_ResourceDefinitionName (rc_Spec peer)) vn) = true.
Proof.
  intros Hno (Hin & Hne & <- & Hgi & Hup) Hdl. unfold volumeCurrentGI, volumeDiskState in *.
  destruct (status_volume peer vn) as [vol|] eqn:Ev; [|done].
  unfold status_volume in Ev. apply fmap_Some in Ev as ([k vol'] & Hf & ->). cbn in *.
  apply list_find_Some in Hf as (Hk & Hnum & _). apply list_elem_of_lookup_2 in Hk.
  unfold anyDataBearingDiskfulPeer, scanDataBearingDiskfulPeers in Hno.
  apply not_true_iff_false in Hno. rewrite existsb_exists in Hno.
  destruct (Str.equal_fold _ _) eqn:Ee; [done|]. exfalso. apply Hno. exists peer.
  rewrite <- list_elem_of_In. split; [done|]. rewrite Hdl, bool_decide_eq_false_2 by done. cbn.
  apply existsb_exists. exists vol'. rewrite <- list_elem_of_In. split; [done|].
  unfold volume_bears_data, isDay0SeededDiskfulVolume. rewrite Hup. cbn.
  rewrite bool_decide_eq_false_2 by done. by rewrite Hnum, Ee.
Qed.

Lemma setSeedFromGI_elem vols vn seed v :
  v ∈ setSeedFromGI vols vn seed -> v ∈ vols \/ v = mkResourceVolumeSpec vn seed.
Proof.
  induction vols as [|w vols IH]; cbn.
  - intros ->%list_elem_of_singleton. by right.
  - case_bool_decide as E.
    + intros [->|H]%elem_of_cons; [right; by rewrite E|left; by right].
    + intros [->|[H| ->]%IH]%elem_of_cons; [left; by left|left; by right|by right].
Qed.

(** The generation a fresh replica is seeded with is never one that stands for data: every
    seed the projection adds is the day-0 generation of its definition and volume, taken from a
    peer in the up-to-date state, unless that peer is flagged diskless; seeds already set stay. *)
Theorem added_seeds_are_day0 peers targetName vds vols :
  anyDataBearingDiskfulPeer peers targetName = false ->
  forall v, v ∈ (foldl (seed_volume peers targetName) (vols, false) vds).1 ->
    v ∈ vols
    \/ exists peer, seeds peers targetName (rvs_VolumeNumber v) (rvs_SeedFromGI v) peer
         /\ (Contains (rs_Flags (rc_Spec peer)) ResourceFlagDiskless = true
             \/ Str.equal_fold (rvs_SeedFromGI v)
                  (GI.Day0GIFor (rs_ResourceDefinitionName (rc_Spec peer)) (rvs_VolumeNumber v)) = true).
Proof.
  intros Hno. generalize false as b.
  induction vds as [|vd vds IH] using rev_ind; intros b v; [by left|].
  rewrite foldl_app. cbn. specialize (IH b).
  destruct (foldl _ _ vds) as [vs b']. cbn in *. destruct (seedAlreadySet _ _); [apply IH|].
  case_bool_decide as Es; [apply IH|]. cbn. intros [H| ->]%setSeedFromGI_elem; [by apply IH|].
  right. destruct (pickSeedFromPeers_source _ _ _ Es) as [peer Hp]. exists peer. split; [done|].
  destruct (Contains _ _) eqn:Ed; [by left|right]. by eapply seed_is_day0.
Qed.

(** ** Volumes and disks of the replica *)

Section Projection.
Context {S : Type} {Ops : KubeOps S} {KL : KubeLaws S}.

(** A write of the spec that succeeded: the object read was current, and now has the new spec. *)
Lemma update_spec_ok base sp s b s' :
  update_spec base sp s = (Ok b, s') ->
  b = true /\ v_resources (view s') !! rc_Name base = Some (with_spec base sp).
Proof using.
  unfold update_spec, mbind, K_bind. pose proof (updateResource_writes base (with_spec base sp) eq_refl s) as (v & _ & Hw).
  destruct (updateResource base (with_spec base sp) s) as [[[]|e] s1]; [|done]. cbn in *. intros [= <- <-].
  destruct Hw as (r & Hr & -> & ->). split; [done|]. cbn. by rewrite lookup_insert_eq.
Qed.

(** After a volume definition is removed the replicas forget its volume and nothing else: a
    prune that reports a change has left, under the version it read, exactly the volumes the
    definition still declares, in order; it reports no change, and calls nothing, exactly when
    every volume is declared. *)
Theorem prune_is_exact target rd s :
  rdc_VolumeDefinitions rd <> [] ->
  let declared v := rvs_VolumeNumber v ∈ map rdv_VolumeNumber (rdc_VolumeDefinitions rd) in
  let vols := rs_Volumes (rc_Spec target) in
  match pruneStaleResourceVolumes target (Some rd) s with
  | (Ok true, s') => ~ Forall declared vols
      /\ v_resources (view s') !! rc_Name target
         = Some (with_spec target (with_volumes (rc_Spec target) (filter declared vols)))
  | (Ok false, s') => Forall declared vols /\ s' = s
  | (Err _, _) => ~ Forall declared vols
  end.
Proof using.
  intros Hne declared vols. unfold pruneStaleResourceVolumes.
  rewrite bool_decide_eq_false_2 by done. case_bool_decide as Ev.
  { cbn. subst vols. rewrite Ev. done. }
  case_bool_decide as El.
  { cbn. split; [|done]. subst vols. apply list.Forall_forall. intros v Hv.
    destruct (decide (declared v)) as [|Hn]; [done|].
    pose proof (length_filter_lt declared _ v Hv Hn). subst declared. cbn in *. lia. }
  assert (~ Forall declared vols) as Hnf.
  { intros Hf. apply El. subst vols declared. f_equal. apply filter_all. by apply list.Forall_forall. }
  destruct (update_spec _ _ s) as [[b|e] s'] eqn:E; [|done].
  apply update_spec_ok in E as [-> E]. done.
Qed.

(** A diskless replica in use is made diskful only on a pool of its own node that stores
    data, loses its diskless flag and no other, and keeps everything else; a tie-breaker
    witness, an idle replica and a diskful one are never touched. *)
Theorem auto_diskful_is_exact target s :
  match maybeAutoDiskful target target s with
  | (Ok true, s') =>
      Contains (rs_Flags (rc_Spec target)) ResourceFlagDiskless = true
      /\ Contains (rs_Flags (rc_Spec target)) ResourceFlagTieBreaker = false
      /\ rst_InUse (rc_Status target) = true
      /\ exists pools p, (storagePools s).1 = Ok pools /\ p ∈ pools
         /\ sp_NodeName p = rs_NodeName (rc_Spec target) /\ sp_ProviderKind p <> StoragePoolKindDiskless
         /\ exists r, v_resources (view s') !! rc_Name target = Some r
            /\ rc_Spec r = with_pool (rc_Spec target)
                 (filter (fun f => f <> ResourceFlagDiskless) (rs_Flags (rc_Spec target)))
                 (sp_StoragePoolName p) (<["StorPoolName" := sp_StoragePoolName p]> (rs_Props (rc_Spec target)))
  | (Ok false, s') => s' = s \/ s' = (storagePools s).2
  | (Err _, _) => Contains (rs_Flags (rc_Spec target)) ResourceFlagDiskless = true
      /\ rst_InUse (rc_Status target) = true
  end.
Proof using.
  unfold maybeAutoDiskful. destruct (Contains _ ResourceFlagDiskless) eqn:Ed; cbn; [|by left].
  destruct (rst_InUse _) eqn:Eu; cbn; [|by left].
  destruct (Contains _ ResourceFlagTieBreaker) eqn:Et; [by left|].
  unfold firstAvailablePool, mbind, K_bind. destruct (storagePools s) as [[pools|e] s1] eqn:Es; [|done].
  cbn. case_bool_decide as Ep; [by right|].
  destruct (list_find _ pools) as [[k p]|] eqn:Ef; [|done].
  apply list_find_Some in Ef as (Hk & [Hn Hkind] & _). apply list_elem_of_lookup_2 in Hk.
  destruct (update_spec _ _ s1) as [[b|e] s'] eqn:E; [|done].
  apply update_spec_ok in E as [-> E]. split_and!; [done..|]. exists pools, p. split_and!; [done..|].
  eexists. split; [exact E|]. done.
Qed.

End Projection.
