(* ===== verification/ReplicaExamples.v ===== *)
(** * A simulated API server

    An instance of [KubeOps] and [KubeLaws] for evaluation: objects in finite maps, cached reads
    from a separate snapshot when there is one, and a schedule of what happens before each call:
    nothing, a fault, or another writer appending a volume to a definition. *)

From S2P Require Import Prelude Api DrbdAlloc Kube.

Inductive event :=
| Fine
| Fault (e : kerr)
| AppendVolume (rdName : string) (number size : Z).

Record sim := mkSim {
  sim_view : kview;
  sim_cache : option kview;
  sim_events : list event;
}.

Definition with_view (s : sim) (v : kview) : sim :=
  mkSim v (sim_cache s) (sim_events s).

Definition append_volume (rdName : string) (number size : Z) (v : kview) : kview :=
  match v_rds v !! rdName with
  | Some rd => mkView (v_resources v)
      (<[rdName := with_rd_volumes rd (rdc_VolumeDefinitions rd
           ++ [mkResourceDefinitionVolume number size ∅ [] None])]> (v_rds v)) (v_born v)
  | None => v
  end.

(** The next event of the schedule, applied. *)
Definition turn (s : sim) : option kerr * sim :=
  let rest evs v := mkSim v (sim_cache s) evs in
  match sim_events s with
  | [] => (None, s)
  | Fine :: evs => (None, rest evs (sim_view s))
  | Fault e :: evs => (Some e, rest evs (sim_view s))
  | AppendVolume n k sz :: evs => (None, rest evs (append_volume n k sz (sim_view s)))
  end.

Definition sim_read {A} (f : sim -> result kerr A) : K sim A := fun s =>
  let '(e, s1) := turn s in
  match e with Some e => (Err e, s1) | None => (f s1, s1) end.

Definition sim_write (f : kview -> result kerr kview) : K sim unit := fun s =>
  let '(e, s1) := turn s in
  match e with
  | Some e => (Err e, s1)
  | None => match f (sim_view s1) with
            | Ok v => (Ok tt, with_view s1 v)
            | Err e => (Err e, s1)
            end
  end.

Definition found {A} (o : option A) : result kerr A := match o with Some a => Ok a | None => Err KNotFound end.

Definition cache (s : sim) : kview := default (sim_view s) (sim_cache s).

Definition on_resource (n : string) (pre : ResourceCR -> Prop) `{forall r, Decision (pre r)}
    (refusal : kerr) (f : ResourceCR -> ResourceCR) (v : kview) : result kerr kview :=
  match v_resources v !! n with
  | None => Err KNotFound
  | Some r => if decide (pre r) then Ok (mkView (<[n := f r]> (v_resources v)) (v_rds v) (v_born v))
              else Err refusal
  end.

Definition on_rd (n : string) (pre : ResourceDefinitionCR -> Prop) `{forall r, Decision (pre r)}
    (f : ResourceDefinitionCR -> ResourceDefinitionCR) (v : kview) : result kerr kview :=
  match v_rds v !! n with
  | None => Err KNotFound
  | Some rd => if decide (pre rd) then Ok (mkView (v_resources v) (<[n := f rd]> (v_rds v)) (v_born v))
               else Err KConflict
  end.

#[global] Instance settable_once_dec {A} `{EqDecision A} (old new : option A) : Decision (settable_once old new).
Proof. unfold settable_once. solve_decision. Defined.
#[global] Instance spec_settable_dec p i k r : Decision (spec_settable p i k r).
Proof. unfold spec_settable. solve_decision. Defined.

(** A deleted object goes at once when nothing holds it, and is marked otherwise. *)
Definition sim_delete (n : string) (v : kview) : result kerr kview :=
  match v_resources v !! n with
  | None => Err KNotFound
  | Some r =>
      if bool_decide (rc_Finalizers r = []) then Ok (mkView (delete n (v_resources v)) (v_rds v) (v_born v))
      else Ok (mkView (<[n := mark_deleting r]> (v_resources v)) (v_rds v) (v_born v))
  end.

Section Sim.
(** The nodes, the controller configuration and the storage pools, which no call writes. *)
Context (nodes : gmap string NodeSpec) (config : option (gmap string string)) (pools : list StoragePool).

Definition sim_ops : KubeOps sim := {|
  cachedResource n := sim_read (fun s => found (v_resources (cache s) !! n));
  cachedResources := sim_read (fun s => Ok (snd <$> map_to_list (v_resources (cache s))));
  cachedRD n := sim_read (fun s => found (v_rds (cache s) !! n));
  cachedNode n := sim_read (fun _ => found (nodes !! n));
  cachedConfig := sim_read (fun _ => found config);
  cachedNodes := sim_read (fun _ => Ok (snd <$> map_to_list nodes));
  storagePools := sim_read (fun _ => Ok pools);
  readResource n := sim_read (fun s => found (v_resources (sim_view s) !! n));
  readResources := sim_read (fun s => Ok (snd <$> map_to_list (v_resources (sim_view s))));
  readRD n := sim_read (fun s => found (v_rds (sim_view s) !! n));
  readRDs := sim_read (fun s => Ok (snd <$> map_to_list (v_rds (sim_view s))));
  patchSpecIdentities n nodeID port skip := sim_write (on_resource n (spec_settable port nodeID skip) KOther
    (fun r => with_spec r (with_identities (rc_Spec r) port nodeID skip)));
  patchSkipInitialSync n skip := sim_write (on_resource n
    (fun r => settable_once (rs_SkipInitialSync (rc_Spec r)) (Some skip)) KOther
    (fun r => with_spec r (with_identities (rc_Spec r) (rs_DRBDPort (rc_Spec r)) (rs_DRBDNodeID (rc_Spec r)) (Some skip))));
  patchStatusIdentities n nodeID port minor := sim_write (on_resource n (fun _ => True) KOther
    (fun r => with_status r (with_status_ids (rc_Status r) nodeID port minor)));
  patchInitialized n := sim_write (on_rd n (fun _ => True) with_initialized);
  patchVolumeMinors base vols := sim_write (on_rd (rdc_Name base) (fun rd => rd = base)
    (fun rd => with_rd_volumes rd vols));
  updateResource base new := sim_write (on_resource (rc_Name base) (fun r => r = base) KConflict
    (fun r => with_status new (rc_Status r)));
  deleteResource n := sim_write (sim_delete n);
|}.

End Sim.

(** ** The laws *)

Lemma others_refl v : others v v.
Proof.
  split_and!; [done..| |].
  - intros n r ->. split_and!; auto.
  - intros n rd ->. by split.
Qed.

Lemma append_volume_others n k sz v : others v (append_volume n k sz v).
Proof.
  unfold append_volume. destruct (v_rds v !! n) as [rd|] eqn:E; [|apply others_refl].
  destruct (others_refl v) as (_ & _ & H1 & H2). split_and!; [|done..|].
  - intros [Hn1 Hn2]. split; [done|]. cbn. intros m rd' [[<- <-]|[_ ?]]%lookup_insert_Some; [|by apply Hn2].
    exact (Hn2 _ _ E).
  - cbn. intros m rd' [[<- <-]|[_ Hm]]%lookup_insert_Some; [|by apply H2]. rewrite E. cbn.
    split; [|done]. unfold minors. rewrite omap_app. cbn. by rewrite app_nil_r.
Qed.

Lemma turn_others s : others (sim_view s) (sim_view (turn s).2).
Proof.
  unfold turn. destruct (sim_events s) as [|[|e|n k sz] evs]; cbn; auto using others_refl, append_volume_others.
Qed.

Lemma sim_read_reads {A} (f : sim -> result kerr A) : reading sim_view (sim_read f).
Proof.
  intros s. unfold sim_read. pose proof (turn_others s) as H. destruct (turn s) as [[e|] s1]; done.
Qed.

Lemma sim_read_answer {A} (f : sim -> result kerr A) s a :
  (sim_read f s).1 = Ok a -> f (sim_read f s).2 = Ok a.
Proof. unfold sim_read. by destruct (turn s) as [[e|] s1]. Qed.

Lemma sim_write_writes f effect :
  (forall v v', f v = Ok v' -> effect v v') -> writing sim_view effect (sim_write f).
Proof.
  intros Hf s. pose proof (turn_others s) as H. unfold sim_write.
  destruct (turn s) as [[e|] s1]; cbn in *; [exists (sim_view s1); split; [done|destruct e; auto]|].
  exists (sim_view s1). split; [done|]. destruct (f (sim_view s1)) as [v'|e] eqn:E; cbn; [by apply Hf|].
  destruct e; auto.
Qed.

Lemma on_resource_effect n pre `{forall r, Decision (pre r)} e f v v' :
  on_resource n pre e f v = Ok v' -> resource_effect n pre f v v'.
Proof.
  unfold on_resource, resource_effect. destruct (v_resources v !! n) as [r|]; [|done].
  case_decide; [|done]. intros [= <-]. eauto.
Qed.

Lemma on_rd_effect n pre `{forall r, Decision (pre r)} f v v' :
  on_rd n pre f v = Ok v' -> rd_effect n pre f v v'.
Proof.
  unfold on_rd, rd_effect. destruct (v_rds v !! n) as [r|]; [|done].
  case_decide; [|done]. intros [= <-]. eauto.
Qed.

Lemma sim_delete_effect n v v' : sim_delete n v = Ok v' -> delete_effect n v v'.
Proof.
  unfold sim_delete, delete_effect, resource_effect. destruct (v_resources v !! n) as [r|]; [|done].
  case_bool_decide; intros [= <-]; [by left|right; eauto].
Qed.

Lemma found_Ok {A} (o : option A) a : found o = Ok a -> o = Some a.
Proof. by destruct o; intros [= <-]. Qed.

Lemma elem_of_values {A} (m : gmap string A) a : a ∈ (snd <$> map_to_list m) <-> exists n, m !! n = Some a.
Proof.
  rewrite list_elem_of_fmap. split.
  - intros ([n b] & -> & H%elem_of_map_to_list). eauto.
  - intros [n H%elem_of_map_to_list]. by exists (n, a).
Qed.

Definition sim_laws nodes config pools : KubeLaws sim (Ops := sim_ops nodes config pools).
Proof.
  refine {| view := sim_view : sim -> kview |}; intros.
  all: try apply sim_read_reads.
  all: try (match goal with H : _ = Ok _ |- _ => apply sim_read_answer in H end).
  all: try by apply found_Ok.
  all: try (simplify_eq; apply elem_of_values).
  all: apply sim_write_writes; intros v v'; eauto using on_resource_effect, on_rd_effect, sim_delete_effect.
Defined.

(** * The replica controller on concrete clusters

    A small cluster on the simulated API server: what a pass does there, the theorems of
    [ReplicaProps] at work, and the two collisions that objects from before the migration of
    identities can run into. *)

From stdpp Require Import relations.
From S2P Require Import Prelude Api DrbdAlloc DrbdStates Kube ReplicaIds ReplicaController ReplicaIdsProps.
From S2P Require Import ReplicaProps.
Import Disk.

Definition replica (rd node : string) (id port : option Z) (skip : option bool) (flags : list string)
    (st : ResourceStatus) : ResourceCR :=
  mkResourceCR (rd +:+ "." +:+ node) false [] ∅ (mkResourceSpec rd node ∅ flags "" [] port id skip) st.

Definition blank_status : ResourceStatus := mkResourceStatus false None None None [] [].
Definition ids_status (id port : Z) : ResourceStatus := mkResourceStatus false (Some id) (Some port) None [] [].

Definition volume (number : Z) (minor : option Z) : ResourceDefinitionVolume :=
  mkResourceDefinitionVolume number 8192 ∅ [] minor.
Definition definition (name : string) (vols : list ResourceDefinitionVolume) : ResourceDefinitionCR :=
  mkResourceDefinitionCR name ∅ [] vols None None None.

Definition view_of (rs : list ResourceCR) (rds : list ResourceDefinitionCR) : kview :=
  mkView (list_to_map ((fun r => (rc_Name r, r)) <$> rs)) (list_to_map ((fun rd => (rdc_Name rd, rd)) <$> rds))
    (list_to_set (rc_Name <$> rs)).

Definition plain_ops : KubeOps sim := sim_ops ∅ None [].
Definition plain_laws : KubeLaws sim (Ops := plain_ops) := sim_laws ∅ None [].
Definition plain_windows : BoundedWindows sim (Ops := plain_ops).
Proof.
  split; cbn.
  - intros s cfg prop raw H. unfold sim_read in H. by destruct (turn s) as [[e|] s1].
  - intros n s node H. unfold sim_read in H. destruct (turn s) as [[e|] s1]; cbn in H; [done|].
    by rewrite lookup_empty in H.
Defined.

(** One pass on the plain cluster. *)
Definition pass (n : string) (s : sim) : sim := (Reconcile (Ops := plain_ops) n s).2.

Definition demo : sim := mkSim (view_of
  [replica "pvc" "n1" (Some 0) (Some 20000) (Some true) [] (ids_status 0 20000);
   replica "pvc" "n2" None None None [] blank_status;
   replica "db" "n2" (Some 0) (Some 20000) (Some true) [] (ids_status 0 20000)]
  [definition "pvc" [volume 0 None; volume 1 None]; definition "db" [volume 0 (Some 20000)]]) None [].

Definition identities (n : string) (s : sim) : option (option Z * option Z * option bool) :=
  (fun r => (rs_DRBDNodeID (rc_Spec r), rs_DRBDPort (rc_Spec r), rs_SkipInitialSync (rc_Spec r)))
    <$> (v_resources (sim_view s) !! n).
Definition minors_of (n : string) (s : sim) : option (list Z) :=
  (fun rd => minors (rdc_VolumeDefinitions rd)) <$> (v_rds (sim_view s) !! n).

Lemma demo_good : good (sim_view demo).
Proof. apply good_check_good. by apply (bool_decide_eq_true_1 _); vm_compute. Qed.


(** A writer appends a volume between the read of the definition and the patch: the patch is
    refused, the volume survives, and the next pass numbers all three. *)
Definition racing : sim :=
  mkSim (sim_view demo) None (repeat Fine 14 ++ [AppendVolume "pvc" 2 4096]).

Lemma identities_never_change_witness :
  good (sim_view racing)
  /\ minors_of "pvc" (pass "pvc.n2" racing) = Some []
  /\ minors_of "pvc" (pass "pvc.n2" (pass "pvc.n2" racing)) = Some [20001; 20002; 20003]
  /\ forall m r r', v_resources (sim_view racing) !! m = Some r ->
       v_resources (sim_view (pass "pvc.n2" racing)) !! m = Some r' -> grows r r'.
Proof.
  split; [exact demo_good|]. split; [vm_compute; reflexivity|]. split; [vm_compute; reflexivity|].
  apply (identities_never_change (Ops := plain_ops) (KL := plain_laws) (BW := plain_windows) "pvc.n2" racing).
  exact demo_good.
Defined.

Lemma never_skips_over_data_witness :
  no_new_skip (sim_view demo) (sim_view (ensureSkipInitSyncDecision (Ops := plain_ops)
    (replica "pvc" "n2" None None None [] blank_status) []
    (Some (mkResourceDefinitionCR "pvc" ∅ [] [] None (Some true) None)) demo).2)
  /\ identities "pvc.n2" (ensureSkipInitSyncDecision (Ops := plain_ops)
       (replica "pvc" "n2" None None None [] blank_status) []
       (Some (mkResourceDefinitionCR "pvc" ∅ [] [] None (Some true) None)) demo).2 = Some (None, None, Some false).
Proof.
  split; [|vm_compute; reflexivity].
  apply (never_skips_over_data (Ops := plain_ops) (KL := plain_laws)
    (replica "pvc" "n2" None None None [] blank_status) []
    (mkResourceDefinitionCR "pvc" ∅ [] [] None (Some true) None) demo).
  left. reflexivity.
Defined.

Lemma prune_is_exact_witness :
  let target := with_spec (replica "pvc" "n1" (Some 0) (Some 20000) (Some true) [] (ids_status 0 20000))
    (mkResourceSpec "pvc" "n1" ∅ [] "" [mkResourceVolumeSpec 0 ""; mkResourceVolumeSpec 7 "AB"]
       (Some 20000) (Some 0) (Some true)) in
  let s := mkSim (view_of [target] [definition "pvc" [volume 0 None]]) None [] in
  (pruneStaleResourceVolumes (Ops := plain_ops) target (Some (definition "pvc" [volume 0 None])) s).1 = Ok true
  /\ ~ Forall (fun v => rvs_VolumeNumber v ∈ [0]) (rs_Volumes (rc_Spec target)).
Proof.
  intros target s.
  pose proof (prune_is_exact (Ops := plain_ops) (KL := plain_laws) target (definition "pvc" [volume 0 None]) s
    ltac:(discriminate)) as H.
  assert ((pruneStaleResourceVolumes (Ops := plain_ops) target (Some (definition "pvc" [volume 0 None])) s).1
          = Ok true) as E by (vm_compute; reflexivity).
  split; [exact E|]. cbv zeta in H.
  destruct (pruneStaleResourceVolumes target (Some (definition "pvc" [volume 0 None])) s) as [[[]|] s'] eqn:Es;
    [exact (proj1 H)|discriminate E|discriminate E].
Defined.

Lemma auto_diskful_is_exact_witness : let target := replica "pvc" "n1" None None None ["DISKLESS"] blank_status in
  match maybeAutoDiskful (Ops := plain_ops) target target demo with
  | (Ok false, s') => s' = demo \/ s' = (storagePools (KubeOps := plain_ops) demo).2
  | _ => False
  end.
Proof.
  intros target.
  pose proof (auto_diskful_is_exact (Ops := plain_ops) (KL := plain_laws) target demo) as H.
  vm_compute. left. reflexivity.
Defined.

(** A day-0 sibling and an evolved peer that is flagged diskless. *)
Definition up_to_date (gi : string) : ResourceStatus :=
  mkResourceStatus false None None None [mkResourceVolumeStatus 0 "UpToDate" gi] [].
Definition day0_sibling : ResourceCR := replica "pvc" "n1" None None None [] (up_to_date (GI.Day0GIFor "pvc" 0)).
Definition toggled_peer : ResourceCR := replica "pvc" "n1" None None None ["DISKLESS"] (up_to_date "4F3C2B1A09876543").

Lemma added_seeds_are_day0_witness :
  let vols := (foldl (seed_volume [day0_sibling] "pvc.n2") ([], false) [volume 0 None]).1 in
  vols = [mkResourceVolumeSpec 0 (GI.Day0GIFor "pvc" 0)]
  /\ forall v, v ∈ vols -> v ∈ ([] : list ResourceVolumeSpec) \/ exists peer,
       seeds [day0_sibling] "pvc.n2" (rvs_VolumeNumber v) (rvs_SeedFromGI v) peer
       /\ (Contains (rs_Flags (rc_Spec peer)) ResourceFlagDiskless = true
           \/ Str.equal_fold (rvs_SeedFromGI v)
                (GI.Day0GIFor (rs_ResourceDefinitionName (rc_Spec peer)) (rvs_VolumeNumber v)) = true).
Proof.
  split; [vm_compute; reflexivity|].
  apply (added_seeds_are_day0 [day0_sibling] "pvc.n2" [volume 0 None] []). vm_compute. reflexivity.
Defined.

(** The exception of the seed theorem is real: a peer that holds data and has just been flagged
    diskless does not count as bearing data, yet its generation is handed to a fresh replica. *)
Lemma toggled_peer_seeds_its_generation :
  anyDataBearingDiskfulPeer [toggled_peer] "pvc.n2" = false
  /\ (foldl (seed_volume [toggled_peer] "pvc.n2") ([], false) [volume 0 None]).1
     = [mkResourceVolumeSpec 0 "4F3C2B1A09876543"].
Proof. split; vm_compute; reflexivity. Qed.

(** ** Objects from before the migration *)

(** Port 20000 of node n1 is held by a replica that still records it in its status only. *)
Definition legacy_port : sim := mkSim (view_of
  [replica "old" "n1" None None None [] (ids_status 0 20000); replica "db" "n1" None None None [] blank_status]
  [definition "old" []; definition "db" []]) None [].

(** Base 20000 of a definition that was never migrated and has lost its volume 1. *)
Definition legacy_minor : sim := mkSim (view_of
  [replica "old" "n1" None None None [] blank_status; replica "db" "n2" None None None [] blank_status]
  [mkResourceDefinitionCR "old" ∅ [] [volume 0 None; volume 2 None] None None (Some 20000);
   definition "db" [volume 0 None]]) None [].

(** Identities of objects from before the migration are not all reserved. A port recorded
    in a status only is handed out again on the same node, and a definition that still has a
    legacy base reserves minors by position but receives them by volume number; in both cases
    two passes leave two objects with one identity. *)
Theorem legacy_identities_collide :
  (eff_port <$> v_resources (sim_view legacy_port) !! "old.n1") = Some (Some 20000)
  /\ (let s := pass "old.n1" (pass "db.n1" legacy_port) in
      identities "db.n1" s = Some (Some 0, Some 20000, Some true)
      /\ identities "old.n1" s = Some (Some 0, Some 20000, Some true))
  /\ (let s := pass "old.n1" (pass "db.n2" legacy_minor) in
      minors_of "db" s = Some [20002] /\ minors_of "old" s = Some [20000; 20002]).
Proof. vm_compute. repeat split; reflexivity. Qed.
