(* ===== verification/GoStrings.v ===== *)
(** * Functions of Go's strings and sort packages

    [strings.Split] on one byte, [strings.Fields], [strings.Contains], [sort.Strings], and the
    sorted keys of a map, [%05d], [filepath.Join], with the lemmas their users need: sorting gives the same list for
    every order of its input. *)

From Stdlib Require Import Ascii DecimalString.
From S2P Require Import Prelude.

(** [strings.Split(s, sep)] for a one-byte separator; at least one piece. *)
Fixpoint split_char (sep : ascii) (s : string) : list string :=
  match s with
  | EmptyString => [""]
  | String c s' =>
      if Ascii.eqb c sep then "" :: split_char sep s'
      else match split_char sep s' with
           | x :: rest => String c x :: rest
           | [] => [String c ""]
           end
  end.

(** [strings.Fields]: the words between runs of white space. *)
Fixpoint fields (s : string) : list string :=
  match s with
  | EmptyString => []
  | String c s' =>
      if Str.is_space c then fields s'
      else match s' with
           | EmptyString => [String c ""]
           | String d _ =>
               if Str.is_space d then String c "" :: fields s'
               else match fields s' with
                    | w :: ws => String c w :: ws
                    | [] => [String c ""]
                    end
           end
  end.

(** [strings.Contains] *)
Fixpoint contains (p s : string) : bool :=
  Str.has_prefix p s || match s with EmptyString => false | String _ s' => contains p s' end.

Fixpoint zeros (n : nat) : string := match n with O => "" | S n => String "0"%char (zeros n) end.
(** [%05d] of the fmt package. *)
Definition pad5 (n : Z) : string :=
  if bool_decide (n < 0)
  then "-" +:+ zeros (4 - String.length (format_int (- n))) +:+ format_int (- n)
  else zeros (5 - String.length (format_int n)) +:+ format_int n.

(** [filepath.Clean] and [filepath.Join] of two elements. *)
Definition clean_step (rooted : bool) (out : list string) (c : string) : list string :=
  if bool_decide (c = "") || bool_decide (c = ".") then out
  else if bool_decide (c = "..") then
    match out with
    | last :: rest => if bool_decide (last = "..") then c :: out else rest
    | [] => if rooted then [] else [c]
    end
  else c :: out.
Definition clean_path (p : string) : string :=
  let rooted := Str.has_prefix "/" p in
  let body := Str.join "/" (rev (foldl (clean_step rooted) [] (split_char "/"%char p))) in
  if rooted then "/" +:+ body else if bool_decide (body = "") then "." else body.
Definition path_join (dir name : string) : string :=
  match filter (fun e => e <> "") [dir; name] with
  | [] => ""
  | l => clean_path (Str.join "/" l)
  end.

(** [sort.Strings]; equal strings cannot be told apart, so the algorithm does not matter. *)
Fixpoint insert_sorted (s : string) (l : list string) : list string :=
  match l with
  | [] => [s]
  | x :: rest => if String.leb s x then s :: l else x :: insert_sorted s rest
  end.
Definition sort_strings (l : list string) : list string := foldr insert_sorted [] l.

(** The keys of a Go map in sorted order; the iteration order of the map is the list given. *)
Definition sorted_keys {A} (m : gmap string A) : list string := sort_strings (map_to_list m).*1.

(** ** Lemmas *)

Lemma insert_sorted_elem s l x : x ∈ insert_sorted s l <-> x = s \/ x ∈ l.
Proof.
  induction l as [|y l IH]; cbn; [set_solver|]. destruct (String.leb s y); [set_solver|].
  rewrite !elem_of_cons, IH. tauto.
Qed.

Lemma insert_sorted_perm s l : insert_sorted s l ≡ₚ s :: l.
Proof.
  induction l as [|y l IH]; cbn; [done|]. destruct (String.leb s y); [done|]. rewrite IH. apply Permutation_swap.
Qed.

Lemma sort_strings_perm l : sort_strings l ≡ₚ l.
Proof. induction l as [|y l IH]; [done|]. cbn. by rewrite insert_sorted_perm, IH. Qed.

Lemma sort_strings_elem l x : x ∈ sort_strings l <-> x ∈ l.
Proof. by rewrite sort_strings_perm. Qed.

Definition str_le (s t : string) : Prop := String.leb s t = true.

Lemma ascii_compare_lt_trans a b c :
  Ascii.compare a b = Lt -> Ascii.compare b c = Lt -> Ascii.compare a c = Lt.
Proof. unfold Ascii.compare. rewrite !N.compare_lt_iff. lia. Qed.

Lemma ascii_compare_eq a b : Ascii.compare a b = Eq <-> a = b.
Proof. split; [apply Ascii.compare_eq_iff|]. intros ->. apply N.compare_refl. Qed.

Lemma string_compare_trans s t u :
  String.compare s t <> Gt -> String.compare t u <> Gt -> String.compare s u <> Gt.
Proof.
  revert t u. induction s as [|a s IH]; intros [|b t] [|c u]; cbn; try done.
  destruct (Ascii.compare a b) eqn:E1, (Ascii.compare b c) eqn:E2; try done; intros H1 H2.
  - apply ascii_compare_eq in E1, E2. subst. rewrite (proj2 (ascii_compare_eq c c) eq_refl). by eapply IH.
  - apply ascii_compare_eq in E1. subst. by rewrite E2.
  - apply ascii_compare_eq in E2. subst. by rewrite E1.
  - by rewrite (ascii_compare_lt_trans a b c).
Qed.

#[global] Instance str_le_trans : Transitive str_le.
Proof.
  intros s t u. unfold str_le, String.leb. pose proof (string_compare_trans s t u) as H.
  destruct (String.compare s t), (String.compare t u), (String.compare s u); try done; by destruct H.
Qed.

Lemma str_le_total s t : str_le s t \/ str_le t s.
Proof. unfold str_le. destruct (String.leb_total s t); auto. Qed.

#[global] Instance str_le_antisymm : AntiSymm (=) str_le.
Proof. intros s t. unfold str_le. apply String.leb_antisym. Qed.

Lemma insert_sorted_HdRel s x l : str_le x s -> HdRel str_le x l -> HdRel str_le x (insert_sorted s l).
Proof. intros Hs Hd. destruct Hd as [|y l Hy]; cbn; [by constructor|]. destruct (String.leb s y); by constructor. Qed.

Lemma insert_sorted_Sorted s l : Sorted str_le l -> Sorted str_le (insert_sorted s l).
Proof.
  induction 1 as [|x l Hs IH Hd]; cbn; [by repeat constructor|].
  destruct (String.leb s x) eqn:E; [constructor; [by constructor|by constructor]|].
  constructor; [done|]. apply insert_sorted_HdRel; [|done].
  destruct (str_le_total s x) as [H|H]; [unfold str_le in H; congruence|done].
Qed.

Lemma sort_strings_Sorted l : Sorted str_le (sort_strings l).
Proof. induction l as [|x l IH]; cbn; [constructor|by apply insert_sorted_Sorted]. Qed.

(** The result of a sort does not depend on the order of its input. *)
Lemma sort_strings_canonical l l' : l ≡ₚ l' -> sort_strings l = sort_strings l'.
Proof.
  intros H. apply (Sorted_unique str_le); [apply sort_strings_Sorted..|].
  by rewrite !sort_strings_perm.
Qed.

Lemma sorted_keys_elem {A} (m : gmap string A) k : k ∈ sorted_keys m <-> is_Some (m !! k).
Proof.
  unfold sorted_keys. rewrite sort_strings_elem, list_elem_of_fmap. split.
  - intros ([k' v] & -> & H%elem_of_map_to_list). eauto.
  - intros [v H%elem_of_map_to_list]. by exists (k, v).
Qed.

Lemma sorted_keys_any_order {A} (m : gmap string A) l : l ≡ₚ map_to_list m -> sort_strings l.*1 = sorted_keys m.
Proof. intros H. apply sort_strings_canonical. by rewrite H. Qed.

Lemma sorted_keys_NoDup {A} (m : gmap string A) : NoDup (sorted_keys m).
Proof. unfold sorted_keys. rewrite sort_strings_perm. apply NoDup_fst_map_to_list. Qed.

(** ** Strings as sequences of bytes *)

Lemma all_chars_app P s t : StrFacts.all_chars P (s +:+ t) = StrFacts.all_chars P s && StrFacts.all_chars P t.
Proof. induction s as [|c s IH]; [done|]. rewrite StrFacts.app_cons. cbn. by rewrite IH, andb_assoc. Qed.

Lemma all_chars_impl (P Q : ascii -> bool) s :
  (forall c, P c = true -> Q c = true) -> StrFacts.all_chars P s = true -> StrFacts.all_chars Q s = true.
Proof.
  intros HPQ. induction s as [|c s IH]; cbn; [done|]. intros [Hc Hs]%andb_true_iff. by rewrite HPQ, IH.
Qed.

Lemma all_chars_map P f s : StrFacts.all_chars P (Str.map f s) = StrFacts.all_chars (fun c => P (f c)) s.
Proof. induction s as [|c s IH]; cbn; [done|]. by rewrite IH. Qed.

Lemma map_app_str f s t : Str.map f (s +:+ t) = Str.map f s +:+ Str.map f t.
Proof. induction s as [|c s IH]; [done|]. rewrite !StrFacts.app_cons. cbn. by rewrite IH. Qed.

(** A byte that fails [P] does not occur in a text whose bytes satisfy it. *)
Lemma all_chars_no_char P c s : P c = false -> StrFacts.all_chars P s = true -> Str.contains_char c s = false.
Proof.
  intros Hc. induction s as [|d s IH]; cbn; [done|]. intros [Hd Hs]%andb_true_iff. rewrite IH by done.
  destruct (Ascii.eqb_spec c d) as [->|]; [congruence|done].
Qed.

Lemma split_char_piece sep b s :
  Str.contains_char sep b = false -> split_char sep (b +:+ String sep s) = b :: split_char sep s.
Proof.
  induction b as [|c b IH]; [intros _; change (split_char sep (String sep s) = "" :: split_char sep s); cbn; by rewrite Ascii.eqb_refl|].
  rewrite StrFacts.app_cons. cbn. rewrite Ascii.eqb_sym. intros [-> Hb]%orb_false_iff. by rewrite IH.
Qed.

Lemma split_char_last sep b : Str.contains_char sep b = false -> split_char sep b = [b].
Proof.
  induction b as [|c b IH]; [done|]. cbn. rewrite Ascii.eqb_sym. intros [-> Hb]%orb_false_iff. by rewrite IH.
Qed.

(** ** White space *)

#[local] Arguments Str.is_space : simpl never.

Definition solid (c : ascii) : bool := negb (Str.is_space c).

(** The first byte, if any, is not white space. *)
Definition starts_solid (s : string) : bool := match s with String c _ => solid c | EmptyString => true end.

Lemma trim_left_spaces pre s : StrFacts.all_chars Str.is_space pre = true -> Str.trim_left (pre +:+ s) = Str.trim_left s.
Proof. induction pre as [|c p IH]; [done|]. rewrite StrFacts.app_cons. cbn. by intros [-> ?%IH]%andb_true_iff. Qed.

Lemma trim_left_solid s : starts_solid s = true -> Str.trim_left s = s.
Proof. destruct s as [|c s]; [done|]. cbn. unfold solid. by intros ->%negb_true_iff. Qed.

Lemma rev_snoc s c : Str.rev (s +:+ String c "") = String c (Str.rev s).
Proof.
  unfold Str.rev, String.rev.
  assert (forall u, String.rev_app (s +:+ String c "") u = String c (String.rev_app s u)) as H; [|apply H].
  induction s as [|d s IH]; intros u; [done|]. rewrite StrFacts.app_cons. cbn. by rewrite IH.
Qed.

(** A text between two solid bytes survives trimming, and so do the spaces before it go. *)
Lemma trim_space_framed pre s c :
  StrFacts.all_chars Str.is_space pre = true -> starts_solid s = true -> solid c = true ->
  Str.trim_space (pre +:+ s +:+ String c "") = s +:+ String c "".
Proof.
  intros Hp Hs Hc. unfold Str.trim_space. rewrite trim_left_spaces by done.
  rewrite (trim_left_solid (s +:+ _)) by (by destruct s). rewrite rev_snoc.
  rewrite trim_left_solid by done. by rewrite <- rev_snoc, rev_involutive.
Qed.

Lemma str_snoc_cases s : s = "" \/ exists t c, s = t +:+ String c "".
Proof.
  induction s as [|d s [->|(t & c & ->)]]; [by left|..]; right.
  - by exists "", d.
  - by exists (String d t), c.
Qed.

Lemma trim_space_word pre w :
  StrFacts.all_chars Str.is_space pre = true -> StrFacts.all_chars solid w = true -> Str.trim_space (pre +:+ w) = w.
Proof.
  intros Hp Hw. destruct (str_snoc_cases w) as [->|(t & c & ->)].
  - unfold Str.trim_space. by rewrite trim_left_spaces.
  - rewrite all_chars_app in Hw. apply andb_true_iff in Hw as [Ht Hc]. cbn in Hc. rewrite andb_true_r in Hc.
    apply trim_space_framed; [done| |done]. destruct t as [|d t]; [done|]. cbn in Ht. by apply andb_true_iff in Ht as [? _].
Qed.

(** ** Numerals *)

Lemma format_int_solid z : StrFacts.all_chars solid (format_int z) = true /\ format_int z <> "".
Proof.
  unfold format_int. destruct (Z.to_int z) as [d|d]; cbn [NilZero.string_of_int].
  - split; [|apply StrFacts.uint0_nonempty]. eapply all_chars_impl; [|apply StrFacts.uint0_digits].
    intros [[] [] [] [] [] [] [] []]; vm_compute; done.
  - split; [|done]. cbn [StrFacts.all_chars]. change (solid "-") with true. cbn [andb].
    eapply all_chars_impl; [|apply StrFacts.uint0_digits]. intros [[] [] [] [] [] [] [] []]; vm_compute; done.
Qed.

Lemma format_int_no c z : Str.is_digit c = false -> c <> "-"%char -> Str.contains_char c (format_int z) = false.
Proof.
  intros Hc Hm. apply (all_chars_no_char (fun d => Str.is_digit d || Ascii.eqb d "-")).
  - rewrite Hc. by apply Ascii.eqb_neq.
  - unfold format_int. destruct (Z.to_int z) as [d|d]; cbn [NilZero.string_of_int StrFacts.all_chars].
    + eapply all_chars_impl; [|apply StrFacts.uint0_digits]. intros x ->. done.
    + cbn. eapply all_chars_impl; [|apply StrFacts.uint0_digits]. intros x ->. done.
Qed.

(** ** Words *)

Definition is_word (s : string) : bool := match s with EmptyString => false | _ => StrFacts.all_chars solid s end.

Lemma is_word_cons c s : is_word (String c s) = solid c && StrFacts.all_chars solid s.
Proof. done. Qed.

Lemma fields_cons2 d e s : Str.is_space d = false -> Str.is_space e = false ->
  fields (String d (String e s)) = match fields (String e s) with w :: ws => String d w :: ws | [] => [String d ""] end.
Proof. intros Hd He. cbn [fields]. by rewrite Hd, He. Qed.

Lemma fields_word_then w c s : is_word w = true -> Str.is_space c = true -> fields (w +:+ String c s) = w :: fields s.
Proof.
  induction w as [|d w IH]; [done|]. rewrite is_word_cons, StrFacts.app_cons.
  intros [Hd Hw]%andb_true_iff Hc. unfold solid in Hd. apply negb_true_iff in Hd.
  destruct w as [|e w].
  { change ("" +:+ String c s) with (String c s). cbn. by rewrite Hd, Hc. }
  specialize (IH Hw Hc). rewrite StrFacts.app_cons in *. cbn in Hw. apply andb_true_iff in Hw as [He%negb_true_iff _].
  by rewrite fields_cons2, IH.
Qed.

Lemma fields_word w : is_word w = true -> fields w = [w].
Proof.
  induction w as [|d w IH]; [done|]. rewrite is_word_cons. intros [Hd Hw]%andb_true_iff.
  unfold solid in Hd. apply negb_true_iff in Hd. destruct w as [|e w]; [cbn; by rewrite Hd|].
  specialize (IH Hw). cbn in Hw. apply andb_true_iff in Hw as [He%negb_true_iff _]. by rewrite fields_cons2, IH.
Qed.

Lemma fields_join l : Forall (fun w => is_word w = true) l -> fields (Str.join " " l) = l.
Proof.
  induction 1 as [|w [|v l] Hw Hl IH]; [done|by apply fields_word|].
  change (fields (w +:+ String " " (Str.join " " (v :: l))) = w :: v :: l). by rewrite fields_word_then, IH.
Qed.
(** A numeral has at most as many digits as the number has bits. *)
Lemma double_digits d : (Decimal.nb_digits (Decimal.Little.double d) <= S (Decimal.nb_digits d)
  /\ Decimal.nb_digits (Decimal.Little.succ_double d) <= S (Decimal.nb_digits d))%nat.
Proof. induction d; cbn; lia. Qed.

Lemma little_digits p : (Decimal.nb_digits (Pos.to_little_uint p) <= S (Pos.size_nat p))%nat.
Proof. induction p as [p IH|p IH|]; cbn; [destruct (double_digits (Pos.to_little_uint p)); lia..|lia]. Qed.

Lemma revapp_digits d : forall e, Decimal.nb_digits (Decimal.revapp d e) = (Decimal.nb_digits d + Decimal.nb_digits e)%nat.
Proof. induction d; intros e; cbn; [done|rewrite IHd; cbn; lia..]. Qed.

Lemma uint_length d : String.length (NilEmpty.string_of_uint d) = Decimal.nb_digits d.
Proof. induction d; cbn; congruence. Qed.

Lemma uint0_length d : (String.length (NilZero.string_of_uint d) <= S (Decimal.nb_digits d))%nat.
Proof. destruct d; try (cbn; lia); unfold NilZero.string_of_uint; rewrite uint_length; lia. Qed.

Lemma pos_length p : (String.length (NilZero.string_of_uint (Pos.to_uint p)) <= S (S (Pos.size_nat p)))%nat.
Proof.
  pose proof (uint0_length (Pos.to_uint p)). unfold Pos.to_uint, Decimal.rev in *. rewrite revapp_digits in *.
  pose proof (little_digits p). cbn in *. lia.
Qed.

Lemma pos_size p k : Zpos p < 2 ^ Z.of_nat k -> (Pos.size_nat p <= k)%nat.
Proof.
  revert k. induction p as [p IH|p IH|]; intros [|k]; cbn [Pos.size_nat]; intros H; [cbn in H; lia| |cbn in H; lia| |cbn in H; lia|lia];
    rewrite Nat2Z.inj_succ, Z.pow_succ_r in H by lia; specialize (IH k); lia.
Qed.

Lemma format_int_short z : is_int32 z -> (String.length (format_int z) <= 36)%nat.
Proof.
  unfold is_int32, MinInt32, MaxInt32, format_int. intros H. destruct z as [|p|p]; cbn [Z.to_int NilZero.string_of_int String.length].
  - cbn. lia.
  - pose proof (pos_length p). pose proof (pos_size p 33). cbn in *. lia.
  - pose proof (pos_length p). pose proof (pos_size p 33). cbn in *. lia.
Qed.
