(* ===== verification/Validate.v ===== *)
(** * Request validation

    Models [pkg/validate]: layer stacks, the storage-pool properties that are fixed at creation,
    volume sizes, the guard on deleting the last complete copy, and the nodes of a restore. *)

From S2P Require Import Prelude Api GoStrings.

(** ** Layer stacks (layers.go) *)

Module Layers.

Inductive layer_err :=
| ErrUnsupportedLayer (raw : string)
| ErrLayerRepeated (layer : string)
| ErrStorageNotLast
| ErrDRBDNotFirst
| ErrLUKSAboveDRBD.

Fixpoint NormalizeLayerStack (layers : list string) : result layer_err (list string) :=
  match layers with
  | [] => Ok []
  | raw :: rest =>
      let layer := Str.to_upper (Str.trim_space raw) in
      if bool_decide (layer ∈ [LayerKindDRBD; LayerKindLUKS; LayerKindStorage]) then
        match NormalizeLayerStack rest with
        | Ok out => Ok (layer :: out)
        | Err e => Err e
        end
      else Err (ErrUnsupportedLayer raw)
  end.

(** The first layer that was seen before. *)
Fixpoint first_repeat (seen : gset string) (l : list string) : option string :=
  match l with
  | [] => None
  | x :: rest => if bool_decide (x ∈ seen) then Some x else first_repeat ({[x]} ∪ seen) rest
  end.

(** The index of the last occurrence, -1 when there is none. *)
Fixpoint last_index (x : string) (i acc : Z) (l : list string) : Z :=
  match l with
  | [] => acc
  | y :: rest => last_index x (i + 1) (if bool_decide (y = x) then i else acc) rest
  end.

(** [None] is a nil error. *)
Definition layerStackOrder (normalized : list string) : option layer_err :=
  match first_repeat ∅ normalized with
  | Some layer => Some (ErrLayerRepeated layer)
  | None =>
      if negb (bool_decide (normalized !! pred (length normalized) = Some LayerKindStorage)) then Some ErrStorageNotLast
      else
        let drbdIdx := last_index LayerKindDRBD 0 (-1) normalized in
        let luksIdx := last_index LayerKindLUKS 0 (-1) normalized in
        if bool_decide (drbdIdx > 0) then Some ErrDRBDNotFirst
        else if bool_decide (luksIdx >= 0) && bool_decide (drbdIdx >= 0) && bool_decide (luksIdx < drbdIdx)
        then Some ErrLUKSAboveDRBD
        else None
  end.

Definition LayerStack (layers : list string) : option layer_err :=
  match layers with
  | [] => None
  | _ => match NormalizeLayerStack layers with
         | Err e => Some e
         | Ok normalized => layerStackOrder normalized
         end
  end.

End Layers.

(** ** Storage-pool properties (props.go) *)

Module PoolProps.

Definition PropStorPoolName : string := "StorDriver/StorPoolName".
Definition PropLvmVG : string := "StorDriver/LvmVg".
Definition PropThinPool : string := "StorDriver/ThinPool".
Definition PropZPool : string := "StorDriver/ZPool".
Definition PropZPoolThin : string := "StorDriver/ZPoolThin".
Definition PropFileDir : string := "StorDriver/FileDir".

Definition ImmutableStoragePoolProps : list string :=
  [PropStorPoolName; PropLvmVG; PropThinPool; PropZPool; PropZPoolThin; PropFileDir].

(** The names the refusal lists. *)
Inductive prop_err := ErrImmutableProp (keys : list string).

Definition StoragePoolPropNamed (key : string) : option prop_err :=
  if bool_decide (key ∈ ImmutableStoragePoolProps) then Some (ErrImmutableProp [key]) else None.

Definition touched_props (before after : gmap string string) : list string :=
  filter (fun key => before !! key <> after !! key) ImmutableStoragePoolProps.

Definition StoragePoolPropEdit (before after : gmap string string) : option prop_err :=
  match touched_props before after with
  | [] => None
  | touched => Some (ErrImmutableProp (sort_strings touched))
  end.

End PoolProps.

(** ** Volume sizes (size.go) *)

Module Size.

Inductive size_err := ErrVolumeSizeBelowMinimum (sizeKib : Z) | ErrVolumeSizeAboveMaximum (sizeKib : Z).

Definition MinVolumeSizeKib : Z := 4 * 1024.
Definition MaxVolumeSizeKib : Z := 1024 * 1024 * 1024 * 1024.

Definition VolumeSizeKib (sizeKib : Z) : option size_err :=
  if bool_decide (sizeKib < MinVolumeSizeKib) then Some (ErrVolumeSizeBelowMinimum sizeKib)
  else if bool_decide (sizeKib > MaxVolumeSizeKib) then Some (ErrVolumeSizeAboveMaximum sizeKib)
  else None.

End Size.

(** ** Deleting a replica that a peer resyncs from (resource_delete.go) *)

Module MidSync.

Definition diskStateUpToDate : string := "UpToDate".
Definition diskStateInconsistent : string := "Inconsistent".
Definition diskStateSyncTarget : string := "SyncTarget".
Definition replStateSyncTarget : string := "SyncTarget".
Definition replStateSyncSource : string := "SyncSource".

Definition ResourceIsDiskful (res : Resource) : bool :=
  negb (existsb (fun f => bool_decide (f = ResourceFlagDiskless) || bool_decide (f = ResourceFlagTieBreaker))
          (res_Flags res)).

Definition disk_state (v : Volume) : string := vs_DiskState (vol_State v).
(** Some peer of the volume is in this replication state. *)
Definition replicates (st : string) (v : Volume) : bool :=
  existsb (fun kv => bool_decide (rse_ReplicationState kv.2 = st)) (map_to_list (vs_ReplicationStates (vol_State v))).

Definition resourceHasKnownDiskState (res : Resource) : bool :=
  existsb (fun v => bool_decide (disk_state v <> "")) (res_Volumes res).

Definition resourceIsSyncSource (res : Resource) : bool :=
  existsb (replicates replStateSyncSource) (res_Volumes res).

Definition resourceIsUpToDate (res : Resource) : bool :=
  existsb (fun v => bool_decide (disk_state v = diskStateUpToDate)) (res_Volumes res).

Definition volume_mid_sync (v : Volume) : bool :=
  bool_decide (disk_state v = diskStateInconsistent) || bool_decide (disk_state v = diskStateSyncTarget)
  || replicates replStateSyncTarget v.

Definition resourceIsMidSync (res : Resource) : bool := existsb volume_mid_sync (res_Volumes res).

Definition resourceIsConfirmedUpToDateSource (res : Resource) : bool :=
  resourceIsUpToDate res || resourceIsSyncSource res.

Definition resourceIsPossibleUpToDateSource (res : Resource) : bool :=
  if resourceIsConfirmedUpToDateSource res then true else negb (resourceHasKnownDiskState res).

(** The loop over the siblings: confirmed sources and peers mid-sync. *)
Fixpoint count_siblings (target : Resource) (siblings : list Resource) : Z * Z :=
  match siblings with
  | [] => (0, 0)
  | sib :: rest =>
      let '(confirmedSources, midSyncPeers) := count_siblings target rest in
      if bool_decide (res_NodeName sib = res_NodeName target) || negb (ResourceIsDiskful sib)
      then (confirmedSources, midSyncPeers)
      else if resourceIsConfirmedUpToDateSource sib then (confirmedSources + 1, midSyncPeers)
      else if resourceIsMidSync sib then (confirmedSources, midSyncPeers + 1)
      else (confirmedSources, midSyncPeers)
  end.

Definition MidSyncDeleteRefusal (target : Resource) (siblings : list Resource) : bool :=
  if negb (ResourceIsDiskful target) then false
  else if negb (resourceIsPossibleUpToDateSource target) then false
  else
    let '(confirmedSources, midSyncPeers) := count_siblings target siblings in
    if bool_decide (confirmedSources > 0) then false else bool_decide (midSyncPeers > 0).

End MidSync.

(** ** The nodes of a restore (snapshot.go) *)

Module Restore.

Inductive restore_err := ErrRestoreNodeLacksSnapshot (missing snapshotNodes : list string).

Fixpoint missing_from (holds seen : gset string) (named : list string) : list string :=
  match named with
  | [] => []
  | n :: rest =>
      if bool_decide (n = "") then missing_from holds seen rest
      else if bool_decide (n ∈ seen) then missing_from holds seen rest
      else
        let missing := missing_from holds ({[n]} ∪ seen) rest in
        if bool_decide (n ∈ holds) then missing else n :: missing
  end.

Definition RestoreNodesMissingSnapshot (named snapshotNodes : list string) : list string :=
  if bool_decide (named = []) || bool_decide (snapshotNodes = []) then []
  else missing_from (list_to_set snapshotNodes) ∅ named.

Definition RestoreNodesHoldSnapshot (named snapshotNodes : list string) : option restore_err :=
  match RestoreNodesMissingSnapshot named snapshotNodes with
  | [] => None
  | missing => Some (ErrRestoreNodeLacksSnapshot missing snapshotNodes)
  end.

End Restore.

(** ** Properties *)

Import Layers.

Lemma first_repeat_None seen l : first_repeat seen l = None -> NoDup l /\ Forall (fun x => x ∉ seen) l.
Proof.
  revert seen. induction l as [|x l IH]; intros seen; cbn.
  - intros _. split; constructor.
  - case_bool_decide as Hx; [done|]. intros [Hnd Hf]%IH. split.
    + apply list.NoDup_cons. split; [|done]. intros Hin. rewrite list.Forall_forall in Hf.
      apply (Hf x Hin). set_solver.
    + constructor; [done|]. rewrite list.Forall_forall in Hf |- *. intros y Hy. specialize (Hf y Hy). set_solver.
Qed.

Definition layer_kinds : list string := [LayerKindDRBD; LayerKindLUKS; LayerKindStorage].
Definition good_stacks : list (list string) :=
  [["STORAGE"]; ["LUKS"; "STORAGE"]; ["DRBD"; "STORAGE"]; ["DRBD"; "LUKS"; "STORAGE"]].

Ltac each H := unfold layer_kinds, good_stacks in H;
  repeat (apply elem_of_cons in H as [->|H]); [..|by apply elem_of_nil in H].

Lemma good_stack_computes n :
  n ∈ good_stacks -> layerStackOrder n = None /\ Forall (fun l => l ∈ layer_kinds) n.
Proof. intros H. each H; (split; [done|]); apply (bool_decide_eq_true_1 _); by vm_compute. Qed.

(** A stack over the three kinds passes the order checks exactly when it is one of the four. *)
Lemma layerStackOrder_accepts n :
  n <> [] -> Forall (fun l => l ∈ layer_kinds) n ->
  (layerStackOrder n = None -> n ∈ good_stacks) /\ layerStackOrder n <> Some ErrLUKSAboveDRBD.
Proof.
  intros Hne Hf. destruct (first_repeat ∅ n) as [x|] eqn:Er; [unfold layerStackOrder; by rewrite Er|].
  apply first_repeat_None in Er as [Hnd _].
  assert (length n <= 3)%nat as Hl.
  { apply (submseteq_length n layer_kinds), NoDup_submseteq; [done|]. by apply list.Forall_forall. }
  destruct n as [|a [|b [|c [|d n]]]]; [done|..|cbn in Hl; lia].
  all: rewrite ?list.Forall_cons in Hf; destruct_and!.
  all: repeat (match goal with H : _ ∈ layer_kinds |- _ => each H end).
  all: split; [|intros E; vm_compute in E; discriminate E].
  all: intros E; first [by vm_compute in E | by apply (bool_decide_eq_true_1 _); vm_compute].
Qed.

Lemma NormalizeLayerStack_total layers :
  let n := map (fun raw => Str.to_upper (Str.trim_space raw)) layers in
  (NormalizeLayerStack layers = Ok n /\ Forall (fun l => l ∈ layer_kinds) n)
  \/ (exists raw, NormalizeLayerStack layers = Err (ErrUnsupportedLayer raw)) /\ ~ Forall (fun l => l ∈ layer_kinds) n.
Proof.
  induction layers as [|raw rest IH]; cbn; [by left|]. fold layer_kinds. case_bool_decide as Hk.
  - destruct IH as [[-> Hf]|[[r ->] Hn]]; [left; by split; [|constructor]|right].
    split; [by exists r|]. intros [_ ?]%list.Forall_cons. done.
  - right. split; [by exists raw|]. intros [? _]%list.Forall_cons. done.
Qed.

(** The layer stacks a request may ask for are exactly the empty one (the default) and,
    whatever the case and the surrounding spaces, STORAGE below at most one LUKS below at most
    one DRBD. The check that LUKS is not above DRBD never fires. *)
Theorem LayerStack_accepts layers :
  (LayerStack layers = None <->
     layers = [] \/ map (fun raw => Str.to_upper (Str.trim_space raw)) layers
        ∈ [["STORAGE"]; ["LUKS"; "STORAGE"]; ["DRBD"; "STORAGE"]; ["DRBD"; "LUKS"; "STORAGE"]])
  /\ LayerStack layers <> Some ErrLUKSAboveDRBD.
Proof.
  destruct (decide (layers = [])) as [->|Hne]; [split; [tauto|done]|].
  assert (LayerStack layers = match NormalizeLayerStack layers with
    | Err e => Some e | Ok normalized => layerStackOrder normalized end) as -> by (by destruct layers).
  fold good_stacks. pose proof (NormalizeLayerStack_total layers) as Hn. cbv zeta in Hn.
  assert (map (fun raw => Str.to_upper (Str.trim_space raw)) layers <> []) as Hne' by (by destruct layers).
  set (n := map _ layers) in *. clearbody n.
  destruct Hn as [[-> Hf]|[[raw ->] Hn]].
  - destruct (layerStackOrder_accepts n Hne' Hf) as [H1 H2]. split; [|done].
    split; [intros H; right; by apply H1|]. intros [?|H]; [done|]. by apply good_stack_computes.
  - split; [|done]. split; [done|]. intros [?|H]; [done|]. by apply good_stack_computes in H as [_ ?].
Qed.

(** ** The guard on the last complete copy *)

Import MidSync.

Definition other_diskful (target sib : Resource) : Prop :=
  res_NodeName sib <> res_NodeName target /\ ResourceIsDiskful sib = true.

Definition survives (target sib : Resource) : Prop :=
  other_diskful target sib /\ resourceIsConfirmedUpToDateSource sib = true.
Definition strands (target sib : Resource) : Prop :=
  other_diskful target sib /\ resourceIsConfirmedUpToDateSource sib = false /\ resourceIsMidSync sib = true.

Lemma count_siblings_spec target siblings :
  let '(c, m) := count_siblings target siblings in
  0 <= c /\ 0 <= m
  /\ (0 < c <-> Exists (survives target) siblings) /\ (0 < m <-> Exists (strands target) siblings).
Proof.
  induction siblings as [|sib rest IH]; cbn.
  - rewrite !Exists_nil. split_and!; lia.
  - destruct (count_siblings target rest) as [c m]. destruct IH as (Hc & Hm & IHc & IHm).
    pose proof (List.Exists_cons (survives target) sib rest) as Xs.
    pose proof (List.Exists_cons (strands target) sib rest) as Xm.
    rewrite <- IHc in Xs. rewrite <- IHm in Xm. unfold survives at 2, other_diskful in Xs.
    unfold strands at 2, other_diskful in Xm.
    case_bool_decide as En; cbn; [rewrite Xs, Xm; split_and!; try lia; naive_solver lia|].
    destruct (ResourceIsDiskful sib) eqn:Ed; cbn; [|rewrite Xs, Xm; split_and!; try lia; naive_solver lia].
    destruct (resourceIsConfirmedUpToDateSource sib) eqn:Es; [|destruct (resourceIsMidSync sib) eqn:Em];
      rewrite Xs, Xm; split_and!; try lia; naive_solver lia.
Qed.

(** A delete is refused exactly when the replica is diskful and may be a complete copy, no
    other diskful replica is confirmed as one, and some other diskful replica is catching up. *)
Theorem MidSyncDeleteRefusal_exact target siblings :
  MidSyncDeleteRefusal target siblings = true <->
  ResourceIsDiskful target = true
  /\ (resourceIsConfirmedUpToDateSource target = true \/ resourceHasKnownDiskState target = false)
  /\ (forall sib, sib ∈ siblings -> other_diskful target sib -> resourceIsConfirmedUpToDateSource sib = false)
  /\ exists sib, sib ∈ siblings /\ other_diskful target sib /\ resourceIsMidSync sib = true.
Proof.
  unfold MidSyncDeleteRefusal, resourceIsPossibleUpToDateSource.
  pose proof (count_siblings_spec target siblings) as H. destruct (count_siblings target siblings) as [c m].
  destruct H as (Hc & Hm & Hcs & Hms).
  destruct (ResourceIsDiskful target); cbn; [|naive_solver].
  assert (negb (if resourceIsConfirmedUpToDateSource target then true else negb (resourceHasKnownDiskState target)) = false
    <-> resourceIsConfirmedUpToDateSource target = true \/ resourceHasKnownDiskState target = false) as Hp
    by (destruct (resourceIsConfirmedUpToDateSource target), (resourceHasKnownDiskState target); naive_solver).
  destruct (negb (if resourceIsConfirmedUpToDateSource target then _ else _)); [naive_solver|].
  destruct Hp as [Hp _]. specialize (Hp eq_refl).
  destruct (decide (c > 0)) as [Hpos|Hzero].
  - rewrite bool_decide_eq_true_2 by done. split; [done|]. intros (_ & _ & Hno & _).
    destruct (proj1 (list.Exists_exists _ _) (proj1 Hcs ltac:(lia))) as (sib & Hin & Ho & Hs).
    rewrite (Hno sib Hin Ho) in Hs. done.
  - rewrite bool_decide_eq_false_2 by done. rewrite bool_decide_eq_true.
    assert (forall sib, sib ∈ siblings -> other_diskful target sib -> resourceIsConfirmedUpToDateSource sib = false) as Hno.
    { intros sib Hin Ho. apply not_true_iff_false. intros Hs. assert (0 < c) by (apply Hcs, list.Exists_exists; by exists sib). lia. }
    split.
    + intros H. destruct (proj1 (list.Exists_exists _ _) (proj1 Hms ltac:(lia))) as (sib & ? & ? & ? & ?). eauto 10.
    + intros (_ & _ & _ & sib & Hin & Ho & Hs). assert (0 < m); [|lia].
      apply Hms, list.Exists_exists. exists sib. split; [done|]. split_and!; auto; by apply Ho.
Qed.

(** A replica with two volumes in the given disk states. *)
Definition two_volumes (node d0 d1 : string) : Resource :=
  let vol n d := mkVolume n "" "" 0 0 ∅ [] "" (mkVolumeState d "" 0 ∅) [] in
  mkResource "pvc" node ∅ [] (mkResourceState None "" 0 None) "" None None false [vol 0 d0; vol 1 d1] ∅ 0.

(** The guard judges a replica by any one of its volumes. With two volumes, a peer that is
    up to date on one and still catching up on the other counts as a complete copy, so deleting
    the only up-to-date copy of the second volume is allowed. *)
Theorem MidSync_ignores_second_volume :
  let target := two_volumes "n1" "UpToDate" "UpToDate" in
  let peer := two_volumes "n2" "UpToDate" "Inconsistent" in
  MidSyncDeleteRefusal target [target; peer] = false
  /\ resourceIsMidSync peer = true
  /\ (forall sib v, sib ∈ [target; peer] -> res_NodeName sib <> "n1" -> v ∈ res_Volumes sib ->
        vol_VolumeNumber v = 1 -> disk_state v <> diskStateUpToDate)
  /\ MidSyncDeleteRefusal target [target; two_volumes "n2" "Inconsistent" "Inconsistent"] = true.
Proof.
  split_and!; try (vm_compute; reflexivity).
  intros sib v Hs Hn Hv Hnum. apply elem_of_cons in Hs as [->|Hs]; [done|].
  apply list_elem_of_singleton in Hs as ->. cbn in Hv.
  apply elem_of_cons in Hv as [->|Hv]; [done|]. by apply list_elem_of_singleton in Hv as ->.
Qed.

(** ** Pool properties and restore nodes *)

Import PoolProps Restore.

(** An edit of a storage pool is refused exactly when it adds, removes or changes a
    property fixed at creation, and the refusal names exactly those; the edit by name refuses
    the same keys. *)
Theorem StoragePoolPropEdit_exact before after :
  match StoragePoolPropEdit before after with
  | None => forall key, StoragePoolPropNamed key <> None -> before !! key = after !! key
  | Some (ErrImmutableProp keys) =>
      keys <> [] /\ forall key, key ∈ keys <-> StoragePoolPropNamed key <> None /\ before !! key <> after !! key
  end.
Proof.
  assert (forall key, key ∈ touched_props before after <->
    StoragePoolPropNamed key <> None /\ before !! key <> after !! key) as Ht.
  { intros key. unfold touched_props, StoragePoolPropNamed. rewrite list_elem_of_filter.
    case_bool_decide; naive_solver. }
  unfold StoragePoolPropEdit. destruct (touched_props before after) as [|k ks] eqn:E.
  - intros key Hk. destruct (decide (before !! key = after !! key)) as [|Hne]; [done|].
    assert (key ∈ []) as ?%elem_of_nil by (by apply Ht). done.
  - split.
    + intros Hnil. assert (k ∈ sort_strings (k :: ks)) as Hin by (apply sort_strings_elem; by left).
      rewrite Hnil in Hin. by apply elem_of_nil in Hin.
    + intros key. rewrite sort_strings_elem. apply Ht.
Qed.

Lemma missing_from_spec holds seen named :
  NoDup (missing_from holds seen named)
  /\ (forall n, n ∈ missing_from holds seen named <-> n ∈ named /\ n <> "" /\ n ∉ seen /\ n ∉ holds)
  /\ missing_from holds seen named `sublist_of` named.
Proof.
  revert seen. induction named as [|n rest IH]; intros seen; cbn.
  { split_and!; [constructor|set_solver|done]. }
  case_bool_decide as E0.
  { destruct (IH seen) as (H1 & H2 & H3). split_and!; [done| |by constructor].
    intros m. rewrite H2, elem_of_cons. naive_solver. }
  case_bool_decide as Es.
  { destruct (IH seen) as (H1 & H2 & H3). split_and!; [done| |by constructor].
    intros m. rewrite H2, elem_of_cons. naive_solver. }
  destruct (IH ({[n]} ∪ seen)) as (H1 & H2 & H3). case_bool_decide as Eh.
  - split_and!; [done| |by constructor]. intros m. rewrite H2, elem_of_cons. set_solver.
  - split_and!.
    + apply list.NoDup_cons. split; [|done]. rewrite H2. set_solver.
    + intros m. rewrite !elem_of_cons, H2. destruct (decide (m = n)); set_solver.
    + by constructor.
Qed.

(** A restore is refused exactly when it names a node that does not hold the snapshot; the
    refusal lists those nodes once each, in the order they were named. *)
Theorem RestoreNodesHoldSnapshot_exact named snapshotNodes :
  snapshotNodes <> [] ->
  match RestoreNodesHoldSnapshot named snapshotNodes with
  | None => forall n, n ∈ named -> n = "" \/ n ∈ snapshotNodes
  | Some (ErrRestoreNodeLacksSnapshot missing nodes) =>
      nodes = snapshotNodes /\ missing <> [] /\ NoDup missing /\ missing `sublist_of` named
      /\ forall n, n ∈ missing <-> n ∈ named /\ n <> "" /\ n ∉ snapshotNodes
  end.
Proof.
  intros Hs. unfold RestoreNodesHoldSnapshot, RestoreNodesMissingSnapshot.
  rewrite (bool_decide_eq_false_2 (snapshotNodes = [])) by done. rewrite orb_false_r.
  case_bool_decide as En; [subst; intros n ?%elem_of_nil; done|].
  destruct (missing_from_spec (list_to_set snapshotNodes) ∅ named) as (H1 & H2 & H3).
  destruct (missing_from _ ∅ named) as [|m ms].
  - intros n Hn. destruct (decide (n = "")) as [|Hne]; [by left|].
    destruct (decide (n ∈ snapshotNodes)) as [|Hni]; [by right|].
    assert (n ∈ ([] : list string)) as ?%elem_of_nil; [|done]. apply H2. set_solver.
  - split_and!; [done..|]. intros n. rewrite H2. set_solver.
Qed.

Lemma RestoreNodesHoldSnapshot_exact_witness :
  match RestoreNodesHoldSnapshot ["n3"; "n1"; "n3"] ["n1"; "n2"] with
  | None => False
  | Some (ErrRestoreNodeLacksSnapshot missing nodes) =>
      nodes = ["n1"; "n2"] /\ missing <> [] /\ NoDup missing /\ missing `sublist_of` ["n3"; "n1"; "n3"]
      /\ forall n, n ∈ missing <-> n ∈ ["n3"; "n1"; "n3"] /\ n <> "" /\ n ∉ ["n1"; "n2"]
  end.
Proof.
  apply (RestoreNodesHoldSnapshot_exact ["n3"; "n1"; "n3"] ["n1"; "n2"]). discriminate.
Defined.
