(* ===== verification/DrbdConf.v ===== *)
(** * The drbd.conf renderer

    Models [pkg/drbd/conffile.go]: [Build] renders a resource as the text of its [.res] file,
    with values spelled so that drbdadm reads them back. *)

From Stdlib Require Import Ascii.
From S2P Require Import Prelude GoStrings.

Module Conf.

Record ResourcePath := mkResourcePath { p_Name : string; p_AddressA : string; p_AddressB : string }.

Record ResourceConnection := mkResourceConnection {
  cn_NodeA : string;
  cn_NodeB : string;
  cn_Paths : list ResourcePath;
}.

Record Net := mkNet {
  ProtocolC : bool;
  SharedSecret : string;
  net_Options : gmap string string;
}.

Record Host := mkHost {
  h_NodeName : string;
  h_Address : string;
  h_Port : Z;
  h_NodeID : Z;
  h_IsLocal : bool;
  h_Diskless : bool;
}.

Record Volume := mkVolume {
  v_Number : Z;
  v_Device : string;
  v_Disk : string;
  v_Minor : Z;
  v_MetaDisk : string;
}.

Record Resource := mkResource {
  r_Name : string;
  r_Net : Net;
  r_Hosts : list Host;
  r_Volumes : list Volume;
  r_Options : gmap string string;
  r_Disk : gmap string string;
  r_Handlers : gmap string string;
  r_PeerDevice : gmap string string;
  r_Connections : list ResourceConnection;
}.

(** ** Spelling a value *)

Definition nl : string := String "010"%char "".
Definition quote : ascii := "034"%char.
Definition backslash : ascii := "092"%char.

Fixpoint escape (s : string) : string :=
  match s with
  | EmptyString => ""
  | String c s' =>
      if Ascii.eqb c quote || Ascii.eqb c backslash then String backslash (String c (escape s'))
      else String c (escape s')
  end.

Definition quoteValue (value : string) : string := String quote (escape value +:+ String quote "").

Definition isBareTokenByte (c : ascii) : bool :=
  Str.is_lower c || Str.is_upper c || Str.is_digit c
  || Ascii.eqb c "/" || Ascii.eqb c "." || Ascii.eqb c "_" || Ascii.eqb c "-".

Definition bareTokenMaxLen : nat := 80.

Definition needsQuoting (value : string) : bool :=
  bool_decide (value = "") || bool_decide (bareTokenMaxLen < String.length value)%nat
  || negb (StrFacts.all_chars isBareTokenByte value).

Definition spelled (value : string) : string := if needsQuoting value then quoteValue value else value.

Definition writeOption (indent key value : string) : string :=
  indent +:+ key +:+ " " +:+ spelled value +:+ ";" +:+ nl.

(** ** Values with no spelling *)

Inductive conf_err :=
| ErrNameRequired
| ErrUnrepresentableValue (block key : string) (byte : ascii).

Definition unspellable (c : ascii) : bool :=
  Ascii.eqb c "010" || Ascii.eqb c "013" || Ascii.eqb c "000".

(** [strings.IndexAny(value, "\n\r\x00")], as the byte found. *)
Fixpoint first_unspellable (s : string) : option ascii :=
  match s with
  | EmptyString => None
  | String c s' => if unspellable c then Some c else first_unspellable s'
  end.

Definition ValidateOptionValue (block key value : string) : option conf_err :=
  match first_unspellable value with
  | None => None
  | Some c => Some (ErrUnrepresentableValue block key c)
  end.

Definition SectionNet : string := "net".
Definition SectionOptions : string := "options".
Definition SectionDisk : string := "disk".
Definition SectionHandlers : string := "handlers".
Definition SectionPeerDevice : string := "peer-device".
Definition sharedSecretOption : string := "shared-secret".

(** The first error of a list of checks. *)
Fixpoint first_error (l : list (option conf_err)) : option conf_err :=
  match l with
  | [] => None
  | Some e :: _ => Some e
  | None :: rest => first_error rest
  end.

Definition checkValues (r : Resource) : option conf_err :=
  first_error (ValidateOptionValue SectionNet sharedSecretOption (SharedSecret (r_Net r))
    :: ([(SectionNet, net_Options (r_Net r)); (SectionOptions, r_Options r); (SectionDisk, r_Disk r);
         (SectionHandlers, r_Handlers r); (SectionPeerDevice, r_PeerDevice r)]
        ≫= fun '(name, opts) =>
          map (fun key => ValidateOptionValue name key (default "" (opts !! key))) (sorted_keys opts))).

(** ** Blocks *)

Definition concat (l : list string) : string := foldr String.append "" l.

Definition option_lines (indent : string) (opts : gmap string string) : string :=
  concat (map (fun k => writeOption indent k (default "" (opts !! k))) (sorted_keys opts)).

Definition net_line (n : Net) (option : string) : string :=
  let value := default "" (net_Options n !! option) in
  if Str.equal_fold option sharedSecretOption then
    if bool_decide (SharedSecret n = "") then "    " +:+ option +:+ " " +:+ quoteValue value +:+ ";" +:+ nl
    else ""
  else writeOption "    " option value.

Definition writeNet (n : Net) : string :=
  if bool_decide (SharedSecret n = "") && bool_decide (net_Options n = ∅) then ""
  else "  net {" +:+ nl
    +:+ (if bool_decide (SharedSecret n = "") then ""
         else "    " +:+ sharedSecretOption +:+ " " +:+ quoteValue (SharedSecret n) +:+ ";" +:+ nl)
    +:+ concat (map (net_line n) (sorted_keys (net_Options n)))
    +:+ "  }" +:+ nl.

Definition writeNamedBlock (name : string) (opts : gmap string string) : string :=
  if bool_decide (opts = ∅) then ""
  else "  " +:+ name +:+ " {" +:+ nl +:+ option_lines "    " opts +:+ "  }" +:+ nl.

Definition writeOptions (opts : gmap string string) : string :=
  if bool_decide (opts = ∅) then ""
  else "  options {" +:+ nl +:+ option_lines "    " opts +:+ "  }" +:+ nl.

Definition peerDiskPlaceholder : string := "/dev/drbd/this/is/not/used".

Definition diskField (host : Host) (vol : Volume) : string :=
  if h_Diskless host then "none" else if h_IsLocal host then v_Disk vol else peerDiskPlaceholder.

Definition metaField (host : Host) (vol : Volume) : string :=
  if h_IsLocal host && negb (h_Diskless host) && negb (bool_decide (v_MetaDisk vol = ""))
  then v_MetaDisk vol else "internal".

Definition volume_block (host : Host) (vol : Volume) : string :=
  "    volume " +:+ format_int (v_Number vol) +:+ " {" +:+ nl
  +:+ "      device " +:+ v_Device vol +:+ " minor " +:+ format_int (v_Minor vol) +:+ ";" +:+ nl
  +:+ "      disk " +:+ diskField host vol +:+ ";" +:+ nl
  +:+ "      meta-disk " +:+ metaField host vol +:+ ";" +:+ nl
  +:+ "    }" +:+ nl.

Definition writeOnBlock (vols : list Volume) (host : Host) : string :=
  "  on " +:+ h_NodeName host +:+ " {" +:+ nl
  +:+ "    address " +:+ h_Address host +:+ ":" +:+ format_int (h_Port host) +:+ ";" +:+ nl
  +:+ "    node-id " +:+ format_int (h_NodeID host) +:+ ";" +:+ nl
  +:+ concat (map (volume_block host) vols)
  +:+ "  }" +:+ nl.

(** ** Connections *)

Definition swapPathSides (paths : list ResourcePath) : list ResourcePath :=
  map (fun p => mkResourcePath (p_Name p) (p_AddressB p) (p_AddressA p)) paths.

Fixpoint lookupPaths (conns : list ResourceConnection) (a b : string) : list ResourcePath :=
  match conns with
  | [] => []
  | c :: rest =>
      if bool_decide (cn_NodeA c = a) && bool_decide (cn_NodeB c = b) then cn_Paths c
      else if bool_decide (cn_NodeA c = b) && bool_decide (cn_NodeB c = a) then swapPathSides (cn_Paths c)
      else lookupPaths rest a b
  end.

Definition host_line (indent name address : string) (port : Z) : string :=
  indent +:+ "host " +:+ name +:+ " address " +:+ address +:+ ":" +:+ format_int port +:+ ";" +:+ nl.

Definition path_block (hostA hostB : Host) (p : ResourcePath) : string :=
  "    path {" +:+ nl
  +:+ host_line "      " (h_NodeName hostA) (p_AddressA p) (h_Port hostA)
  +:+ host_line "      " (h_NodeName hostB) (p_AddressB p) (h_Port hostB)
  +:+ "    }" +:+ nl.

Definition writePathBlocks (hostA hostB : Host) (paths : list ResourcePath) : string :=
  concat (map (path_block hostA hostB) paths).

Definition writeOneConnection (conns : list ResourceConnection) (peerDevice : gmap string string)
    (hostA hostB : Host) : string :=
  "  connection {" +:+ nl
  +:+ (match lookupPaths conns (h_NodeName hostA) (h_NodeName hostB) with
       | [] => host_line "    " (h_NodeName hostA) (h_Address hostA) (h_Port hostA)
               +:+ host_line "    " (h_NodeName hostB) (h_Address hostB) (h_Port hostB)
       | paths => writePathBlocks hostA hostB paths
       end)
  +:+ (if bool_decide (peerDevice = ∅) then ""
       else "    disk {" +:+ nl +:+ option_lines "      " peerDevice +:+ "    }" +:+ nl)
  +:+ "  }" +:+ nl.

(** The pairs [(hosts[i], hosts[k])] with [i < k], in order. *)
Fixpoint mesh_pairs {A} (hosts : list A) : list (A * A) :=
  match hosts with
  | [] => []
  | h :: rest => map (fun k => (h, k)) rest ++ mesh_pairs rest
  end.

Definition minMeshPeers : nat := 2.

Definition writeConnectionMesh (hosts : list Host) (conns : list ResourceConnection)
    (peerDevice : gmap string string) : string :=
  if bool_decide (length hosts < minMeshPeers)%nat then ""
  else concat (map (fun '(a, b) => writeOneConnection conns peerDevice a b) (mesh_pairs hosts)).

Definition Build (r : Resource) : result conf_err string :=
  if bool_decide (r_Name r = "") then Err ErrNameRequired
  else match checkValues r with
  | Some e => Err e
  | None => Ok (
      "resource " +:+ r_Name r +:+ " {" +:+ nl
      +:+ (if ProtocolC (r_Net r) && bool_decide (default "" (net_Options (r_Net r) !! "protocol") = "")
           then "  protocol C;" +:+ nl else "")
      +:+ writeNet (r_Net r)
      +:+ writeOptions (r_Options r)
      +:+ writeNamedBlock "disk" (r_Disk r)
      +:+ writeNamedBlock "handlers" (r_Handlers r)
      +:+ concat (map (writeOnBlock (r_Volumes r)) (r_Hosts r))
      +:+ writeConnectionMesh (r_Hosts r) (r_Connections r) (r_PeerDevice r)
      +:+ "}" +:+ nl)
  end.

End Conf.

(** ** Reading a configuration back

    The scanner of drbdadm is not part of this program. It is a parameter: anything with the laws
    that the comments of the renderer state of it. *)

Module Scan.
Import Conf.

Inductive token := Word (s : string) | Open | Close | Semi.

#[global] Instance token_eq_dec : EqDecision token.
Proof. solve_decision. Defined.

Definition newline : ascii := "010"%char.
Definition emit (ts : list token) (r : option (list token)) : option (list token) := app ts <$> r.

(** A bare token: at most 80 bytes of [a-zA-Z0-9/._-]. *)
Definition bare_chars : string := "abcdefghijklmnopqrstuvwxyzABCDEFGHIJKLMNOPQRSTUVWXYZ0123456789/._-".
Definition bare_char (c : ascii) : bool := Str.contains_char c bare_chars.
Definition bare (w : string) : Prop := w <> "" /\ (String.length w <= 80)%nat /\ StrFacts.all_chars bare_char w = true.
Definition separator (c : ascii) : bool := Ascii.eqb c " " || Ascii.eqb c newline || Ascii.eqb c ";".
Definition mark (c : ascii) : option (list token) :=
  if Ascii.eqb c " " || Ascii.eqb c newline then Some []
  else if Ascii.eqb c "{" then Some [Open]
  else if Ascii.eqb c "}" then Some [Close]
  else if Ascii.eqb c ";" then Some [Semi]
  else None.

(** What the text between two quotes stands for: a backslash goes and makes the next byte literal; a
    string ends on its line, and has no NUL. *)
Definition breaks (c : ascii) : bool := Ascii.eqb c newline || Ascii.eqb c "000".
Fixpoint unescape (t : string) : option string :=
  match t with
  | EmptyString => Some ""
  | String c t' =>
      if Ascii.eqb c backslash then
        match t' with String d t'' => if breaks d then None else String d <$> unescape t'' | EmptyString => None end
      else if Ascii.eqb c quote || breaks c then None
      else String c <$> unescape t'
  end.

Definition endpoint (address : string) (port : Z) : string := address +:+ ":" +:+ format_int port.
Definition ipv4_char (c : ascii) : bool := Str.is_digit c || Ascii.eqb c ".".
Definition ipv4 (a : string) : Prop := a <> "" /\ StrFacts.all_chars ipv4_char a = true.

(** What is relied on of the scanner of drbdadm. *)
Class Scanner := {
  tokens : string -> option (list token);
  tokens_end : tokens "" = Some [];
  tokens_mark c ts s : mark c = Some ts -> tokens (String c s) = emit ts (tokens s);
  tokens_bare w c s : bare w -> separator c = true -> tokens (w +:+ String c s) = emit [Word w] (tokens (String c s));
  tokens_quoted t v s : unescape t = Some v -> tokens (String quote (t +:+ String quote s)) = emit [Word v] (tokens s);
  tokens_endpoint a p s : ipv4 a -> 0 <= p <= 65535 -> tokens (endpoint a p +:+ String ";" s) = emit [Word (endpoint a p)] (tokens (String ";" s));
}.

(** ** A scanner with these laws *)

Inductive lstate := Gap | InWord (acc : string) | InQuote (acc : string) | InEscape (acc : string).

Definition snoc (s : string) (c : ascii) : string := s +:+ String c "".

(** Bytes that end a word. *)
Definition ends_word (c : ascii) : bool :=
  Str.is_space c || Ascii.eqb c "{" || Ascii.eqb c "}" || Ascii.eqb c ";" || Ascii.eqb c quote
  || Ascii.eqb c "#" || Ascii.eqb c "000".

(** A byte between words: the tokens it is, or [None] when it cannot stand there. *)
Definition punctuation (c : ascii) : option (list token) :=
  if Str.is_space c then Some []
  else if Ascii.eqb c "{" then Some [Open]
  else if Ascii.eqb c "}" then Some [Close]
  else if Ascii.eqb c ";" then Some [Semi]
  else None.

Fixpoint lex (st : lstate) (s : string) : option (list token) :=
  match s with
  | EmptyString => match st with Gap => Some [] | InWord a => Some [Word a] | _ => None end
  | String c s' =>
      match st with
      | Gap =>
          if Ascii.eqb c quote then lex (InQuote "") s'
          else if ends_word c then ts ← punctuation c; emit ts (lex Gap s')
          else lex (InWord (String c "")) s'
      | InWord a =>
          if ends_word c then ts ← punctuation c; emit (Word a :: ts) (lex Gap s')
          else lex (InWord (snoc a c)) s'
      | InQuote a =>
          if Ascii.eqb c quote then emit [Word a] (lex Gap s')
          else if Ascii.eqb c backslash then lex (InEscape a) s'
          else if Ascii.eqb c newline || Ascii.eqb c "000" then None
          else lex (InQuote (snoc a c)) s'
      | InEscape a =>
          if Ascii.eqb c newline || Ascii.eqb c "000" then None else lex (InQuote (snoc a c)) s'
      end
  end.

Lemma lex_cons st c s : lex st (String c s) =
  match st with
  | Gap =>
      if Ascii.eqb c quote then lex (InQuote "") s
      else if ends_word c then ts ← punctuation c; emit ts (lex Gap s)
      else lex (InWord (String c "")) s
  | InWord a =>
      if ends_word c then ts ← punctuation c; emit (Word a :: ts) (lex Gap s)
      else lex (InWord (snoc a c)) s
  | InQuote a =>
      if Ascii.eqb c quote then emit [Word a] (lex Gap s)
      else if Ascii.eqb c backslash then lex (InEscape a) s
      else if Ascii.eqb c newline || Ascii.eqb c "000" then None
      else lex (InQuote (snoc a c)) s
  | InEscape a =>
      if Ascii.eqb c newline || Ascii.eqb c "000" then None else lex (InQuote (snoc a c)) s
  end.
Proof. done. Qed.

(** A name that can be written bare: not empty, no byte that ends a word. *)
Definition word (s : string) : Prop :=
  s <> "" /\ StrFacts.all_chars (fun c => negb (ends_word c)) s = true.

Lemma snoc_app a c s : snoc a c +:+ s = a +:+ String c s.
Proof. unfold snoc. by rewrite StrFacts.app_assoc. Qed.

Lemma lex_in_word w : StrFacts.all_chars (fun c => negb (ends_word c)) w = true ->
  forall a rest, lex (InWord a) (w +:+ rest) = lex (InWord (a +:+ w)) rest.
Proof.
  induction w as [|c w IH]; intros H a rest; [by rewrite StrFacts.app_nil_r|].
  cbn in H. apply andb_true_iff in H as [Hc Hw]. rewrite StrFacts.app_cons, lex_cons.
  apply negb_true_iff in Hc. rewrite Hc, IH by done. by rewrite snoc_app.
Qed.

Lemma ends_word_quote c : ends_word c = false -> Ascii.eqb c quote = false.
Proof. unfold ends_word. intros H. repeat (apply orb_false_iff in H as [H ?]). done. Qed.

(** A word followed by a separator. *)
Lemma lex_word w c ts rest :
  word w -> ends_word c = true -> punctuation c = Some ts ->
  lex Gap (w +:+ String c rest) = emit (Word w :: ts) (lex Gap rest).
Proof.
  intros [Hne Hw] Hc Hp. destruct w as [|d w]; [done|]. cbn in Hw. apply andb_true_iff in Hw as [Hd Hw].
  apply negb_true_iff in Hd. rewrite StrFacts.app_cons, lex_cons.
  rewrite (ends_word_quote _ Hd), Hd, lex_in_word, lex_cons by done. by rewrite Hc, Hp.
Qed.

Lemma lex_quoted t v : unescape t = Some v -> forall a rest, lex (InQuote a) (t +:+ String quote rest) = emit [Word (a +:+ v)] (lex Gap rest).
Proof.
  enough (forall n t v, (String.length t <= n)%nat -> unescape t = Some v -> forall a rest, lex (InQuote a) (t +:+ String quote rest) = emit [Word (a +:+ v)] (lex Gap rest)) by eauto.
  induction n as [|n IH]; intros [|c t'] v' Hn; cbn in Hn; try lia.
  1, 2: intros [= <-] a rest; by rewrite StrFacts.app_nil_r.
  cbn [unescape]. intros Hu a rest. rewrite StrFacts.app_cons, lex_cons.
  destruct (Ascii.eqb c backslash) eqn:Eb.
  - apply Ascii.eqb_eq in Eb as ->. change (Ascii.eqb backslash quote) with false. cbn iota. destruct t' as [|d t'']; [done|].
    unfold breaks in Hu. rewrite StrFacts.app_cons, lex_cons. destruct (_ || _); [done|]. apply fmap_Some in Hu as (u & Hu & ->).
    rewrite (IH t'' u) by (cbn in Hn; lia || done). by rewrite snoc_app.
  - destruct (Ascii.eqb c quote); [done|]. cbn [orb] in Hu. unfold breaks in Hu. destruct (_ || _); [done|]. apply fmap_Some in Hu as (u & Hu & ->).
    rewrite (IH t' u) by (lia || done). by rewrite snoc_app.
Qed.

Lemma bare_in_word c : bare_char c = true -> ends_word c = false.
Proof. intros H. destruct (ends_word c) eqn:E; [|done]. exfalso. destruct c as [[] [] [] [] [] [] [] []]; vm_compute in H, E; done. Qed.
Lemma mark_punctuation c ts : mark c = Some ts -> ends_word c = true /\ Ascii.eqb c quote = false /\ punctuation c = Some ts.
Proof. destruct c as [[] [] [] [] [] [] [] []]; vm_compute; naive_solver. Qed.
Lemma lex_mark c ts s : mark c = Some ts -> lex Gap (String c s) = emit ts (lex Gap s).
Proof. intros (He & Hq & Hp)%mark_punctuation. by rewrite lex_cons, Hq, He, Hp. Qed.
Lemma separator_mark c : separator c = true -> exists ts, mark c = Some ts.
Proof. destruct c as [[] [] [] [] [] [] [] []]; vm_compute; naive_solver. Qed.
Lemma lex_word_separated w c s : word w -> separator c = true -> lex Gap (w +:+ String c s) = emit [Word w] (lex Gap (String c s)).
Proof.
  intros Hw [ts Hm]%separator_mark. destruct (mark_punctuation _ _ Hm) as (He & _ & Hp). rewrite (lex_mark _ _ _ Hm), (lex_word _ _ ts) by done.
  by destruct (lex Gap s).
Qed.
Lemma word_of (P : ascii -> bool) w : (forall c, P c = true -> negb (ends_word c) = true) -> w <> "" -> StrFacts.all_chars P w = true -> word w.
Proof. intros HP Hne H. split; [done|]. eapply all_chars_impl; [exact HP|done]. Qed.

Lemma digit_in_word c : Str.is_digit c = true -> negb (ends_word c) = true.
Proof.
  intros H. destruct (ends_word c) eqn:E; [|done]. exfalso.
  unfold ends_word in *. destruct c as [[] [] [] [] [] [] [] []]; vm_compute in H, E; done.
Qed.
Lemma word_format_int z : word (format_int z).
Proof.
  assert (forall d, word (DecimalString.NilZero.string_of_uint d)) as Hd.
  { intros d. apply (word_of Str.is_digit); [apply digit_in_word|apply StrFacts.uint0_nonempty|apply StrFacts.uint0_digits]. }
  unfold format_int, DecimalString.NilZero.string_of_int. destruct (Z.to_int z) as [d|d]; [apply Hd|].
  destruct (Hd d) as [_ H]. split; [done|]. cbn. exact H.
Qed.
Lemma word_endpoint a p : word a -> word (endpoint a p).
Proof.
  intros [Hne Ha]. destruct (word_format_int p) as [_ Hp]. split.
  - unfold endpoint. by destruct a.
  - unfold endpoint. rewrite all_chars_app, Ha, StrFacts.app_cons. exact Hp.
Qed.
Lemma word_literal s : bool_decide (s <> "") && StrFacts.all_chars (fun c => negb (ends_word c)) s = true -> word s.
Proof. intros [H1%bool_decide_eq_true H2]%andb_true_iff. by split. Qed.

#[export] Instance lex_scanner : Scanner.
Proof.
  refine {| tokens := lex Gap |}.
  - done.
  - exact lex_mark.
  - intros w c s (Hne & _ & Hw) Hc. apply lex_word_separated; [|done]. apply (word_of bare_char); [|done..]. intros d Hd. by rewrite (bare_in_word d Hd).
  - intros t v s Ht. rewrite lex_cons, Ascii.eqb_refl. by rewrite (lex_quoted t v Ht).
  - intros a p s [Hne Ha] _. apply lex_word_separated; [|done]. apply word_endpoint, (word_of ipv4_char); [|done..].
    intros c. unfold ipv4_char. intros [Hc|Hc%Ascii.eqb_eq]%orb_true_iff; [by apply digit_in_word|by subst c].
Defined.

(** ** The file as a tree of statements and blocks *)

Definition stmt (ws : list string) : list token := (Word <$> ws) ++ [Semi].
Definition blk (ws : list string) (body : list token) : list token := (Word <$> ws) ++ [Open] ++ body ++ [Close].

Definition opts_tokens (opts : gmap string string) : list token :=
  sorted_keys opts ≫= fun k => stmt [k; default "" (opts !! k)].
Definition net_tokens (n : Net) (k : string) : list token :=
  if Str.equal_fold k sharedSecretOption && negb (bool_decide (SharedSecret n = "")) then []
  else stmt [k; default "" (net_Options n !! k)].
Definition tok_net (n : Net) : list token :=
  if bool_decide (SharedSecret n = "") && bool_decide (net_Options n = ∅) then []
  else blk ["net"] ((if bool_decide (SharedSecret n = "") then [] else stmt [sharedSecretOption; SharedSecret n])
                    ++ (sorted_keys (net_Options n) ≫= net_tokens n)).
Definition tok_block (name : string) (opts : gmap string string) : list token :=
  if bool_decide (opts = ∅) then [] else blk [name] (opts_tokens opts).
Definition tok_volume (host : Host) (vol : Volume) : list token :=
  blk ["volume"; format_int (v_Number vol)]
    (stmt ["device"; v_Device vol; "minor"; format_int (v_Minor vol)]
     ++ stmt ["disk"; diskField host vol] ++ stmt ["meta-disk"; metaField host vol]).
Definition tok_on (vols : list Volume) (host : Host) : list token :=
  blk ["on"; h_NodeName host]
    (stmt ["address"; endpoint (h_Address host) (h_Port host)]
     ++ stmt ["node-id"; format_int (h_NodeID host)] ++ (vols ≫= tok_volume host)).
Definition tok_host (name address : string) (port : Z) : list token :=
  stmt ["host"; name; "address"; endpoint address port].
Definition tok_path (a b : Host) (p : ResourcePath) : list token :=
  blk ["path"] (tok_host (h_NodeName a) (p_AddressA p) (h_Port a) ++ tok_host (h_NodeName b) (p_AddressB p) (h_Port b)).
Definition tok_connection (conns : list ResourceConnection) (peerDevice : gmap string string) (ab : Host * Host) : list token :=
  let '(a, b) := ab in
  blk ["connection"]
    ((match lookupPaths conns (h_NodeName a) (h_NodeName b) with
      | [] => tok_host (h_NodeName a) (h_Address a) (h_Port a) ++ tok_host (h_NodeName b) (h_Address b) (h_Port b)
      | paths => paths ≫= tok_path a b
      end) ++ tok_block "disk" peerDevice).
Definition tok_file (r : Resource) : list token :=
  blk ["resource"; r_Name r]
    ((if ProtocolC (r_Net r) && bool_decide (default "" (net_Options (r_Net r) !! "protocol") = "")
      then stmt ["protocol"; "C"] else [])
     ++ tok_net (r_Net r) ++ tok_block "options" (r_Options r) ++ tok_block "disk" (r_Disk r)
     ++ tok_block "handlers" (r_Handlers r) ++ (r_Hosts r ≫= tok_on (r_Volumes r))
     ++ (mesh_pairs (r_Hosts r) ≫= tok_connection (r_Connections r) (r_PeerDevice r))).

(** Names that the renderer writes as they are must be bare tokens, addresses IPv4 ones. *)
Definition bare_keys (opts : gmap string string) : Prop := forall k, is_Some (opts !! k) -> bare k.
Definition named_host (h : Host) : Prop := bare (h_NodeName h) /\ ipv4 (h_Address h) /\ 0 <= h_Port h <= 65535 /\ is_int32 (h_NodeID h).
Definition named_volume (v : Volume) : Prop :=
  bare (v_Device v) /\ bare (v_Disk v) /\ (v_MetaDisk v = "" \/ bare (v_MetaDisk v)) /\ is_int32 (v_Number v) /\ is_int32 (v_Minor v).
Definition named_path (p : ResourcePath) : Prop := ipv4 (p_AddressA p) /\ ipv4 (p_AddressB p).
Record well_named (r : Resource) : Prop := {
  wn_name : bare (r_Name r);
  wn_keys : Forall bare_keys [net_Options (r_Net r); r_Options r; r_Disk r; r_Handlers r; r_PeerDevice r];
  wn_hosts : Forall named_host (r_Hosts r);
  wn_volumes : Forall named_volume (r_Volumes r);
  wn_paths : Forall (fun c => Forall named_path (cn_Paths c)) (r_Connections r);
}.

(** ** Pieces of text and the tokens they are *)

Lemma emit_emit a b r : emit a (emit b r) = emit (a ++ b) r.
Proof. unfold emit. destruct r; cbn; [|done]. by rewrite (assoc_L (++)). Qed.
Lemma emit_nil r : emit [] r = r.
Proof. by destruct r. Qed.

(** What was escaped stands for itself. *)
Lemma unescape_escape v : first_unspellable v = None -> unescape (escape v) = Some v.
Proof.
  induction v as [|c v IH]; intros H; [done|]. cbn in H. destruct (unspellable c) eqn:Eu; [done|].
  assert (breaks c = false) as Hn.
  { unfold unspellable in Eu. apply orb_false_iff in Eu as [[E1 _]%orb_false_iff E2]. unfold breaks, newline. by rewrite E1, E2. }
  cbn [escape]. destruct (Ascii.eqb c quote) eqn:Eq; [|destruct (Ascii.eqb c backslash) eqn:Eb]; cbn [orb unescape].
  - rewrite Ascii.eqb_refl, Hn, IH by done. done.
  - rewrite Ascii.eqb_refl, Hn, IH by done. done.
  - rewrite Eb, Eq, Hn, IH by done. done.
Qed.
Lemma bare_byte c : isBareTokenByte c = true -> bare_char c = true.
Proof. destruct c as [[] [] [] [] [] [] [] []]; vm_compute; done. Qed.
Lemma bare_value v : needsQuoting v = false -> bare v.
Proof.
  unfold needsQuoting. intros [[H1%bool_decide_eq_false Hl%bool_decide_eq_false]%orb_false_iff H2%negb_false_iff]%orb_false_iff.
  unfold bareTokenMaxLen in *. split_and!; [done|lia|]. eapply all_chars_impl; [apply bare_byte|exact H2].
Qed.
Lemma bare_format_int z : is_int32 z -> bare (format_int z).
Proof.
  intros Hz. pose proof (format_int_short z Hz). assert (forall c, Str.is_digit c = true -> bare_char c = true) as Hd by (intros c; destruct c as [[] [] [] [] [] [] [] []]; vm_compute; done).
  assert (forall d, StrFacts.all_chars bare_char (DecimalString.NilZero.string_of_uint d) = true) as Hu by (intros d; eapply all_chars_impl; [exact Hd|apply StrFacts.uint0_digits]).
  split_and!; [apply word_format_int|lia|]. unfold format_int, DecimalString.NilZero.string_of_int. destruct (Z.to_int z) as [d|d]; [apply Hu|]. cbn. apply Hu.
Qed.
Lemma bare_literal s : bool_decide (s <> "") && bool_decide (String.length s <= 80)%nat && StrFacts.all_chars bare_char s = true -> bare s.
Proof. by intros [[H1%bool_decide_eq_true H2%bool_decide_eq_true]%andb_true_iff H3]%andb_true_iff. Qed.

Section Reading.
Context {SC : Scanner}.

Definition reads (s : string) (ts : list token) : Prop := forall rest, tokens (s +:+ rest) = emit ts (tokens rest).

(** Literal text: run over it, with the word read so far. *)
Fixpoint scan (acc s : string) : option (list token) :=
  match s with
  | EmptyString => if bool_decide (acc = "") then Some [] else None
  | String c s' =>
      if bare_char c then scan (snoc acc c) s'
      else ts ← mark c;
        if bool_decide (acc = "") then app ts <$> scan "" s'
        else if bool_decide (String.length acc <= 80)%nat && separator c then app (Word acc :: ts) <$> scan "" s' else None
  end.
Lemma scan_tokens s : forall acc ts rest, scan acc s = Some ts -> StrFacts.all_chars bare_char acc = true -> tokens (acc +:+ s +:+ rest) = emit ts (tokens rest).
Proof.
  induction s as [|c s IH]; intros acc ts rest; cbn [scan].
  { case_bool_decide; [|done]. intros [= <-] _. subst acc. by rewrite emit_nil. }
  destruct (bare_char c) eqn:Hc.
  { intros H Ha. rewrite StrFacts.app_cons, <- snoc_app. apply IH; [done|]. unfold snoc. rewrite all_chars_app, Ha. cbn [StrFacts.all_chars]. by rewrite Hc. }
  destruct (mark c) as [ms|] eqn:Em; [|done]. cbn. case_bool_decide as Hacc.
  - intros (ts' & H & ->)%fmap_Some _. subst acc. change ("" +:+ ?x) with x. rewrite StrFacts.app_cons,  (tokens_mark _ _ _ Em). change (s +:+ rest) with ("" +:+ s +:+ rest).
    by rewrite (IH "" ts'), emit_emit.
  - destruct (_ && _) eqn:Hs; [|done]. apply andb_true_iff in Hs as [Hl%bool_decide_eq_true Hs]. intros (ts' & H & ->)%fmap_Some Ha.
    rewrite StrFacts.app_cons, tokens_bare, (tokens_mark _ _ _ Em) by done. change (s +:+ rest) with ("" +:+ s +:+ rest).
    rewrite (IH "" ts') by done. by rewrite !emit_emit.
Qed.
Lemma scan_reads s ts : scan "" s = Some ts -> reads s ts.
Proof. intros H rest. by apply (scan_tokens s ""). Qed.

Ltac lit := apply scan_reads; vm_compute; reflexivity.

Lemma reads_nil : reads "" [].
Proof. lit. Qed.
Lemma reads_app s s' ts ts' : reads s ts -> reads s' ts' -> reads (s +:+ s') (ts ++ ts').
Proof. intros H H' rest. by rewrite StrFacts.app_assoc, H, H', emit_emit. Qed.
Lemma reads_concat {A} (f : A -> string) (g : A -> list token) l :
  (forall x, x ∈ l -> reads (f x) (g x)) -> reads (concat (map f l)) (l ≫= g).
Proof.
  induction l as [|x l IH]; intros H; [apply reads_nil|]. cbn. apply reads_app; [apply H; by left|].
  apply IH. intros y Hy. apply H. by right.
Qed.


Lemma reads_then w c : bare w -> separator c = true -> forall ts, mark c = Some ts -> reads (w +:+ String c "") (Word w :: ts).
Proof. intros Hw Hc ts Hm rest. by rewrite StrFacts.app_assoc, StrFacts.app_cons, tokens_bare, (tokens_mark _ _ _ Hm), emit_emit. Qed.
Lemma reads_bare w : bare w -> reads (w +:+ " ") [Word w].
Proof. intros. by apply reads_then. Qed.
Lemma reads_bare_semi w : bare w -> reads (w +:+ ";") [Word w; Semi].
Proof. intros. by apply reads_then. Qed.
Lemma reads_endpoint a p : ipv4 a -> 0 <= p <= 65535 -> reads (endpoint a p +:+ ";") [Word (endpoint a p); Semi].
Proof. intros Ha Hp rest. rewrite StrFacts.app_assoc. change (";" +:+ rest) with (String ";" rest). by rewrite tokens_endpoint, (tokens_mark _ [Semi]), emit_emit. Qed.
Lemma reads_semi : reads ";" [Semi].
Proof. lit. Qed.
Lemma reads_quoted v : first_unspellable v = None -> reads (quoteValue v +:+ ";") [Word v; Semi].
Proof.
  intros H rest. rewrite StrFacts.app_assoc. unfold quoteValue. rewrite StrFacts.app_cons, StrFacts.app_assoc, StrFacts.app_cons.
  rewrite (tokens_quoted _ v) by (by apply unescape_escape). change ("" +:+ ?x) with x. by rewrite reads_semi, emit_emit.
Qed.
Lemma reads_value v : first_unspellable v = None -> reads (spelled v +:+ ";") [Word v; Semi].
Proof. intros H. unfold spelled. destruct (needsQuoting v) eqn:E; [by apply reads_quoted|by apply reads_bare_semi, bare_value]. Qed.
Lemma reads_nl : reads nl [].
Proof. lit. Qed.
#[local] Hint Resolve bare_format_int reads_bare reads_bare_semi reads_value reads_nl reads_nil : core.


Lemma reads_eq s s' ts : s = s' -> reads s ts -> reads s' ts.
Proof. by intros ->. Qed.

Lemma reads_option indent ts k v :
  reads indent [] -> bare k -> first_unspellable v = None -> ts = stmt [k; v] ->
  reads (writeOption indent k v) ts.
Proof.
  intros Hi Hk Hv ->. unfold writeOption.
  apply (reads_eq (indent +:+ (k +:+ " ") +:+ (spelled v +:+ ";") +:+ nl));
    [by rewrite !StrFacts.app_assoc|].
  apply (reads_app _ _ [] _ Hi). apply (reads_app _ _ [Word k] [Word v; Semi]); [auto|].
  apply (reads_app _ _ [Word v; Semi] []); auto.
Qed.

(** Every value of the map has a spelling. *)
Definition spellable (opts : gmap string string) : Prop :=
  forall k, first_unspellable (default "" (opts !! k)) = None.

Lemma reads_options indent opts :
  reads indent [] -> bare_keys opts -> spellable opts -> reads (option_lines indent opts) (opts_tokens opts).
Proof.
  intros Hi Hk Hv. apply reads_concat. intros k Hin. apply reads_option; auto.
  by apply Hk, sorted_keys_elem.
Qed.

(** ** Lines and blocks *)

Ltac reassoc := rewrite ?StrFacts.app_assoc; reflexivity.

Lemma reads_header lit ws name :
  reads lit (Word <$> ws) -> bare name ->
  reads (lit +:+ name +:+ " {" +:+ nl) ((Word <$> (ws ++ [name])) ++ [Open]).
Proof.
  intros Hl Hn. apply (reads_eq (lit +:+ (name +:+ " ") +:+ ("{" +:+ nl))); [reassoc|].
  rewrite fmap_app, <- (assoc_L (++)). apply reads_app; [done|]. apply (reads_app _ _ [Word name] [Open]); [auto|lit].
Qed.

Lemma reads_stmt lit ws w :
  reads lit (Word <$> ws) -> bare w -> reads (lit +:+ w +:+ ";" +:+ nl) (stmt (ws ++ [w])).
Proof.
  intros Hl Hw. apply (reads_eq (lit +:+ (w +:+ ";") +:+ nl)); [reassoc|].
  unfold stmt. rewrite fmap_app, <- (assoc_L (++)). apply reads_app; [done|].
  apply (reads_app _ _ [Word w; Semi] []); auto.
Qed.

Lemma reads_address lit ws a p :
  reads lit (Word <$> ws) -> ipv4 a -> 0 <= p <= 65535 -> reads (lit +:+ endpoint a p +:+ ";" +:+ nl) (stmt (ws ++ [endpoint a p])).
Proof.
  intros Hl Ha Hp. apply (reads_eq (lit +:+ (endpoint a p +:+ ";") +:+ nl)); [reassoc|].
  unfold stmt. rewrite fmap_app, <- (assoc_L (++)). apply reads_app; [done|].
  apply (reads_app _ _ [Word _; Semi] []); [by apply reads_endpoint|auto].
Qed.

Lemma reads_blk header ws body tb footer :
  reads header ((Word <$> ws) ++ [Open]) -> reads body tb -> reads footer [Close] ->
  reads (header +:+ body +:+ footer) (blk ws tb).
Proof.
  intros Hh Hb Hf. unfold blk. rewrite (assoc_L (++)). repeat apply reads_app; done.
Qed.

Lemma reads_named_block name opts :
  bare name -> bare_keys opts -> spellable opts -> reads (writeNamedBlock name opts) (tok_block name opts).
Proof.
  intros Hn Hk Hv. unfold writeNamedBlock, tok_block. case_bool_decide; [apply reads_nil|].
  apply (reads_eq (("  " +:+ name +:+ " {" +:+ nl) +:+ option_lines "    " opts +:+ ("  }" +:+ nl))); [reassoc|].
  apply reads_blk; [apply (reads_header "  " []); [lit|done] | apply reads_options; [lit|done..] | lit].
Qed.

Lemma reads_net n :
  bare_keys (net_Options n) -> spellable (net_Options n) -> first_unspellable (SharedSecret n) = None ->
  reads (writeNet n) (tok_net n).
Proof.
  intros Hk Hv Hs. unfold writeNet, tok_net. destruct (_ && _); [apply reads_nil|].
  set (secret := if bool_decide _ then "" else _). set (lines := concat _).
  apply (reads_eq (("  net {" +:+ nl) +:+ (secret +:+ lines) +:+ ("  }" +:+ nl))); [reassoc|].
  apply reads_blk; [lit| |lit]. apply reads_app; subst secret lines.
  - case_bool_decide; [apply reads_nil|].
    apply (reads_eq (("    " +:+ sharedSecretOption +:+ " ") +:+ (quoteValue (SharedSecret n) +:+ ";") +:+ nl)); [reassoc|].
    apply (reads_app _ _ [Word sharedSecretOption]); [lit|].
    apply (reads_app _ _ [Word (SharedSecret n); Semi] []); [by apply reads_quoted|auto].
  - apply reads_concat. intros k Hin. assert (bare k) as Hw by (by apply Hk, sorted_keys_elem).
    unfold net_line, net_tokens. destruct (Str.equal_fold k _); cbn; [|by apply reads_option; [lit|..]].
    case_bool_decide; cbn; [|apply reads_nil].
    apply (reads_eq ("    " +:+ (k +:+ " ") +:+ (quoteValue (default "" (net_Options n !! k)) +:+ ";") +:+ nl)); [reassoc|].
    apply (reads_app _ _ []); [lit|]. apply (reads_app _ _ [Word k] [Word _; Semi]); [auto|].
    apply (reads_app _ _ [Word _; Semi] []); [by apply reads_quoted|auto].
Qed.

Lemma reads_host_line indent name address port :
  reads indent [] -> bare name -> ipv4 address -> 0 <= port <= 65535 ->
  reads (host_line indent name address port) (tok_host name address port).
Proof.
  intros Hi Hn Ha Hp. unfold host_line, tok_host.
  apply (reads_eq ((indent +:+ "host " +:+ (name +:+ " ") +:+ "address ") +:+ endpoint address port +:+ ";" +:+ nl)).
  { unfold endpoint. reassoc. }
  apply (reads_address _ ["host"; name; "address"]); [|done..].
  apply (reads_app _ _ []); [done|]. apply (reads_app _ _ [Word "host"]); [lit|].
  apply (reads_app _ _ [Word name]); [auto|lit].
Qed.

Lemma reads_volume host vol :
  named_volume vol -> reads (volume_block host vol) (tok_volume host vol).
Proof.
  intros (Hdev & Hdisk & Hmeta & Hnum & Hminor). unfold volume_block, tok_volume.
  assert (bare (diskField host vol)) as Hd.
  { unfold diskField. destruct (h_Diskless host); [by apply bare_literal|].
    destruct (h_IsLocal host); [done|by apply bare_literal]. }
  assert (bare (metaField host vol)) as Hm.
  { unfold metaField. destruct (_ && _) eqn:E; [|by apply bare_literal].
    destruct Hmeta as [Hm|]; [|done]. rewrite Hm in E. cbn in E. by rewrite andb_false_r in E. }
  apply (reads_eq (("    volume " +:+ format_int (v_Number vol) +:+ " {" +:+ nl)
    +:+ ((("      device " +:+ (v_Device vol +:+ " ") +:+ "minor ") +:+ format_int (v_Minor vol) +:+ ";" +:+ nl)
         +:+ ("      disk " +:+ diskField host vol +:+ ";" +:+ nl)
         +:+ ("      meta-disk " +:+ metaField host vol +:+ ";" +:+ nl))
    +:+ ("    }" +:+ nl))); [reassoc|].
  apply reads_blk; [apply (reads_header _ ["volume"]); [lit|auto] | | lit].
  apply reads_app; [apply (reads_stmt _ ["device"; v_Device vol; "minor"]); [|auto]|apply reads_app].
  - apply (reads_app _ _ [Word "device"]); [lit|]. apply (reads_app _ _ [Word _]); [auto|lit].
  - by apply (reads_stmt _ ["disk"]); [lit|].
  - by apply (reads_stmt _ ["meta-disk"]); [lit|].
Qed.

Lemma reads_on vols host :
  named_host host -> Forall named_volume vols -> reads (writeOnBlock vols host) (tok_on vols host).
Proof.
  intros (Hn & Ha & Hport & Hid) Hv. unfold writeOnBlock, tok_on.
  apply (reads_eq (("  on " +:+ h_NodeName host +:+ " {" +:+ nl)
    +:+ (("    address " +:+ endpoint (h_Address host) (h_Port host) +:+ ";" +:+ nl)
         +:+ ("    node-id " +:+ format_int (h_NodeID host) +:+ ";" +:+ nl)
         +:+ concat (map (volume_block host) vols))
    +:+ ("  }" +:+ nl))); [unfold endpoint; reassoc|].
  apply reads_blk; [apply (reads_header _ ["on"]); [lit|done] | | lit].
  apply reads_app; [by apply (reads_address _ ["address"]); [lit|..]|].
  apply reads_app; [by apply (reads_stmt _ ["node-id"]); [lit|auto]|].
  apply reads_concat. intros vol Hin. rewrite list.Forall_forall in Hv. by apply reads_volume, Hv.
Qed.

Lemma lookupPaths_ok conns a b :
  Forall (fun c => Forall named_path (cn_Paths c)) conns -> Forall named_path (lookupPaths conns a b).
Proof.
  induction 1 as [|c conns Hc _ IH]; cbn; [constructor|]. destruct (_ && _); [done|].
  destruct (_ && _); [|done]. unfold swapPathSides. apply Forall_fmap. eapply list.Forall_impl; [done|].
  by intros p [? ?].
Qed.

Lemma reads_connection conns peerDevice a b :
  named_host a -> named_host b -> Forall (fun c => Forall named_path (cn_Paths c)) conns ->
  bare_keys peerDevice -> spellable peerDevice ->
  reads (writeOneConnection conns peerDevice a b) (tok_connection conns peerDevice (a, b)).
Proof.
  intros (Na & Aa & Pa & _) (Nb & Ab & Pb & _) Hc Hk Hv. unfold writeOneConnection, tok_connection.
  pose proof (lookupPaths_ok conns (h_NodeName a) (h_NodeName b) Hc) as Hp.
  set (hosts := match lookupPaths _ _ _ with [] => _ +:+ _ | _ => _ end).
  set (disk := if bool_decide _ then "" else _).
  apply (reads_eq (("  connection {" +:+ nl) +:+ (hosts +:+ disk) +:+ ("  }" +:+ nl))); [reassoc|].
  apply reads_blk; [lit| |lit]. apply reads_app; subst hosts disk.
  - destruct (lookupPaths conns _ _) as [|p ps]; [apply reads_app; by apply reads_host_line; [lit|..]|].
    apply reads_concat. intros q Hin. rewrite list.Forall_forall in Hp. destruct (Hp q Hin) as [Ha Hb].
    unfold path_block, tok_path.
    apply (reads_eq (("    path {" +:+ nl) +:+ (host_line "      " (h_NodeName a) (p_AddressA q) (h_Port a)
      +:+ host_line "      " (h_NodeName b) (p_AddressB q) (h_Port b)) +:+ ("    }" +:+ nl))); [reassoc|].
    apply reads_blk; [lit| |lit]. apply reads_app; by apply reads_host_line; [lit|..].
  - unfold tok_block. case_bool_decide; [apply reads_nil|].
    apply (reads_eq (("    disk {" +:+ nl) +:+ option_lines "      " peerDevice +:+ ("    }" +:+ nl))); [reassoc|].
    apply reads_blk; [lit|apply reads_options; [lit|done..]|lit].
Qed.

Lemma mesh_pairs_elem {A} (l : list A) a b : (a, b) ∈ mesh_pairs l -> a ∈ l /\ b ∈ l.
Proof.
  induction l as [|x l IH]; cbn; [by intros ?%elem_of_nil|].
  intros [(k & [= -> ->] & Hk)%list_elem_of_fmap|H%IH]%elem_of_app; set_solver.
Qed.

Lemma reads_mesh hosts conns peerDevice :
  Forall named_host hosts -> Forall (fun c => Forall named_path (cn_Paths c)) conns ->
  bare_keys peerDevice -> spellable peerDevice ->
  reads (writeConnectionMesh hosts conns peerDevice) (mesh_pairs hosts ≫= tok_connection conns peerDevice).
Proof.
  intros Hh Hc Hk Hv. unfold writeConnectionMesh. case_bool_decide as Hl.
  - destruct hosts as [|x [|y l]]; [apply reads_nil..|]. unfold minMeshPeers in Hl. cbn in Hl. lia.
  - apply reads_concat. intros [a b] [Ha Hb]%mesh_pairs_elem. rewrite list.Forall_forall in Hh.
    apply reads_connection; auto.
Qed.

(** ** Values *)

Lemma first_error_None l : first_error l = None -> Forall (fun e => e = None) l.
Proof. induction l as [|[e|] l IH]; cbn; [constructor|done|]. intros H. constructor; auto. Qed.

Lemma ValidateOptionValue_None b k v : ValidateOptionValue b k v = None -> first_unspellable v = None.
Proof. unfold ValidateOptionValue. by destruct (first_unspellable v). Qed.

Lemma checkValues_spellable r :
  checkValues r = None ->
  first_unspellable (SharedSecret (r_Net r)) = None
  /\ Forall spellable [net_Options (r_Net r); r_Options r; r_Disk r; r_Handlers r; r_PeerDevice r].
Proof.
  intros H%first_error_None. apply list.Forall_cons in H as [H1%ValidateOptionValue_None H2].
  split; [done|]. rewrite list.Forall_forall in H2.
  assert (forall name opts, (name, opts) ∈ [(SectionNet, net_Options (r_Net r)); (SectionOptions, r_Options r);
      (SectionDisk, r_Disk r); (SectionHandlers, r_Handlers r); (SectionPeerDevice, r_PeerDevice r)] ->
    spellable opts) as Hs.
  { intros name opts Hin k. destruct (opts !! k) as [v|] eqn:E; [|done].
    apply (ValidateOptionValue_None name k), H2, list_elem_of_bind. exists (name, opts). split; [|done].
    apply list_elem_of_fmap. exists k. rewrite E. split; [done|]. apply sorted_keys_elem. eauto. }
  rewrite !list.Forall_cons. split_and!; [apply (Hs SectionNet)|apply (Hs SectionOptions)|apply (Hs SectionDisk)
    |apply (Hs SectionHandlers)|apply (Hs SectionPeerDevice)|constructor]; set_solver.
Qed.

(** C20: The configuration file says what the resource says. Take any scanner with the laws the renderer
    relies on: bare tokens are at most 80 bytes of [a-zA-Z0-9/._-], in a quoted string a backslash makes the
    next byte literal, and an address is IPv4 with a port. For every resource whose names, option keys and
    device paths are bare tokens and whose addresses are IPv4 ones, with ports and numbers in range, it
    reads a rendered file as exactly the tree of blocks and statements of the resource: every option value
    byte for byte (whatever quotes, backslashes, spaces or symbols it holds), one connection per pair of
    hosts, one volume block per host and volume. A file is rendered exactly when the resource has a name and
    every value has a spelling. *)
Theorem Build_reads_back r :
  ((exists text, Build r = Ok text) <-> r_Name r <> "" /\ checkValues r = None)
  /\ (well_named r -> forall text, Build r = Ok text -> tokens text = Some (tok_file r)).
Proof.
  split.
  - unfold Build. case_bool_decide; [split; [by intros []|by intros []]|]. destruct (checkValues r); split; naive_solver.
  - intros [Hname Hkeys Hhosts Hvols Hpaths] text. unfold Build. rewrite bool_decide_eq_false_2 by apply Hname.
    destruct (checkValues r) eqn:Ec; [done|]. apply checkValues_spellable in Ec as [Hsec Hsp]. intros [= <-].
    repeat (apply list.Forall_cons in Hkeys as [? Hkeys]). repeat (apply list.Forall_cons in Hsp as [? Hsp]).
    set (proto := if ProtocolC _ && _ then _ else _).
    rewrite <- (StrFacts.app_nil_r (_ +:+ _)).
    assert (reads (("resource " +:+ r_Name r +:+ " {" +:+ nl)
      +:+ (proto +:+ writeNet (r_Net r) +:+ writeOptions (r_Options r) +:+ writeNamedBlock "disk" (r_Disk r)
           +:+ writeNamedBlock "handlers" (r_Handlers r) +:+ concat (map (writeOnBlock (r_Volumes r)) (r_Hosts r))
           +:+ writeConnectionMesh (r_Hosts r) (r_Connections r) (r_PeerDevice r))
      +:+ ("}" +:+ nl)) (tok_file r)) as Hr.
    + apply reads_blk; [apply (reads_header _ ["resource"]); [lit|done] | | lit].
      repeat apply reads_app.
      * subst proto. destruct (_ && _); [lit|apply reads_nil].
      * by apply reads_net.
      * change (reads (writeNamedBlock "options" (r_Options r)) (tok_block "options" (r_Options r))).
        apply reads_named_block; [by apply bare_literal|done..].
      * apply reads_named_block; [by apply bare_literal|done..].
      * apply reads_named_block; [by apply bare_literal|done..].
      * apply reads_concat. intros h Hin. rewrite list.Forall_forall in Hhosts. apply reads_on; [by apply Hhosts|done].
      * by apply reads_mesh.
    + specialize (Hr ""). rewrite ?StrFacts.app_assoc in Hr |- *. rewrite Hr, tokens_end. cbn. by rewrite app_nil_r.
Qed.

End Reading.

(** A resource on two nodes with a fencing handler that takes arguments. *)
Definition handler : string := "/usr/lib/fence --why " +:+ quoteValue "a\b" +:+ " --t=5".
Definition example : Resource :=
  mkResource "pvc-1" (mkNet true "s3cr+t/=" ∅)
    [mkHost "n1" "10.0.0.1" 20000 0 true false; mkHost "n2" "10.0.0.2" 20001 1 false true]
    [mkVolume 0 "/dev/drbd20000" "/dev/vg/pvc-1" 20000 ""] ∅ ∅ {["fence-peer" := handler]} ∅ [].

Lemma bare_keys_empty : bare_keys ∅.
Proof. intros k [v H]. by rewrite lookup_empty in H. Qed.

Lemma example_well_named : well_named example.
Proof.
  split; try by apply bare_literal.
  - cbn. rewrite !list.Forall_cons. split_and!; try apply bare_keys_empty; [|constructor].
    intros k [v [<- _]%lookup_singleton_Some]. by apply bare_literal.
  - repeat (apply list.Forall_cons_2; [split_and!; [by apply bare_literal|by split|cbn; lia..|unfold is_int32, MinInt32, MaxInt32; cbn; lia]|]). constructor.
  - repeat (apply list.Forall_cons_2; [split_and!; [by apply bare_literal..|by left|unfold is_int32, MinInt32, MaxInt32; cbn; lia|unfold is_int32, MinInt32, MaxInt32; cbn; lia]|]). constructor.
  - constructor.
Qed.

Lemma Build_reads_back_witness : exists text,
  Build example = Ok text /\ tokens text = Some (tok_file example)
  /\ Word handler ∈ tok_file example.
Proof.
  destruct (Build example) as [text|e] eqn:E; [|vm_compute in E; discriminate E].
  exists text. split; [reflexivity|]. split.
  - apply (proj2 (Build_reads_back example) example_well_named). exact E.
  - apply (bool_decide_eq_true_1 (Word handler ∈ tok_file example)). vm_compute. reflexivity.
Defined.

(** ** The mesh and its paths *)

Lemma mesh_pairs_length {A} (l : list A) : (2 * length (mesh_pairs l) = length l * (length l - 1))%nat.
Proof.
  induction l as [|x l IH]; [done|]. cbn. rewrite length_app, length_map.
  destruct l as [|y l]; [done|]. cbn in *. lia.
Qed.

Lemma swapPathSides_invol paths : swapPathSides (swapPathSides paths) = paths.
Proof. induction paths as [|[n a b] l IH]; [done|]. cbn. by f_equal. Qed.

(** The mesh has one connection for every pair of distinct hosts and no other, and the
    paths an operator stored for a pair are the same in whichever order the pair was stored or
    is rendered, each address on the side of its own node. *)
Theorem connection_mesh_exact (hosts : list Host) conns a b :
  NoDup hosts ->
  (2 * length (mesh_pairs hosts) = length hosts * (length hosts - 1))%nat
  /\ (forall x y, (x, y) ∈ mesh_pairs hosts -> x ∈ hosts /\ y ∈ hosts /\ x <> y /\ (y, x) ∉ mesh_pairs hosts)
  /\ (forall x y, x ∈ hosts -> y ∈ hosts -> x <> y -> (x, y) ∈ mesh_pairs hosts \/ (y, x) ∈ mesh_pairs hosts)
  /\ (a <> b -> lookupPaths conns b a = swapPathSides (lookupPaths conns a b)).
Proof.
  intros Hnd. split_and!; [apply mesh_pairs_length| | |].
  - induction Hnd as [|h l Hh Hnd IH]; cbn; [by intros x y ?%elem_of_nil|]. intros x y.
    intros [(k & [= -> ->] & Hk)%list_elem_of_fmap|H]%elem_of_app.
    + split_and!; [by left|by right|by intros ->|].
      intros [(k' & [= -> ->] & Hk')%list_elem_of_fmap|H%mesh_pairs_elem]%elem_of_app; [done|by destruct H].
    + destruct (IH x y H) as (Hx & Hy & Hne & Hno). split_and!; [by right|by right|done|].
      intros [(k' & [= -> ->] & Hk')%list_elem_of_fmap|H']%elem_of_app; done.
  - induction Hnd as [|h l Hh Hnd IH]; [by intros x y ?%elem_of_nil|]. cbn.
    intros x y [->|Hx]%elem_of_cons [->|Hy]%elem_of_cons Hne; [done|..].
    + left. apply elem_of_app. left. apply list_elem_of_fmap. by exists y.
    + right. apply elem_of_app. left. apply list_elem_of_fmap. by exists x.
    + destruct (IH x y Hx Hy Hne); [left|right]; apply elem_of_app; by right.
  - intros Hne. induction conns as [|c conns IH]; [done|]. cbn.
    repeat case_bool_decide; cbn; try congruence; try (by rewrite swapPathSides_invol); try done; exact IH.
Qed.

Lemma connection_mesh_exact_witness :
  NoDup (r_Hosts example) /\ (2 * length (mesh_pairs (r_Hosts example)) = 2)%nat.
Proof.
  assert (NoDup (r_Hosts example)) as H.
  { apply NoDup_cons_2; [|apply NoDup_singleton]. intros E%list_elem_of_singleton. discriminate E. }
  split; [exact H|].
  exact (proj1 (connection_mesh_exact (r_Hosts example) [] "a" "b" H)).
Defined.

End Scan.
