(* ===== verification/DrbdText.v ===== *)
(** * Text of the DRBD tools

    Models the parsers and tables of [pkg/drbd] around the command line: [events2.go] (event
    lines), [dumpmd.go] (generation UUIDs of a metadata dump), [errcodes.go] (error numbers),
    [drbdsetup_show.go] (kernel slots, from the decoded status), [devnode.go] (device numbers)
    and [options.go] with [flagkeys.go] (the option catalogue and the flags of the client). *)

From Stdlib Require Import Ascii.
From S2P Require Import Prelude GoStrings DrbdStates DrbdOptions.

(** ** Event lines (events2.go) *)
Module Events.

Record Event := mkEvent {
  Action : string;
  Kind : string;
  Fields : gmap string string;
}.

Inductive event_err := ErrMalformed | ErrStreamSyncMarker.

Definition eventMinTokens : nat := 2.

Definition add_field (acc : gmap string string) (kv : string) : gmap string string :=
  match Str.cut ":" kv with
  | None => acc
  | Some (key, value) => <[key := value]> acc
  end.

Definition ParseEvent (line : string) : result event_err Event :=
  match fields line with
  | action :: kind :: rest =>
      if bool_decide (action = "exists") && bool_decide (kind = "-") then Err ErrStreamSyncMarker
      else Ok (mkEvent action kind (foldl add_field ∅ rest))
  | _ => Err ErrMalformed
  end.

(** The events a stream of lines delivers. *)
Definition watched (lines : list string) : list Event :=
  omap (fun l => match ParseEvent l with Ok e => Some e | Err _ => None end) lines.

End Events.

(** ** Metadata dumps (dumpmd.go) *)
Module DumpMd.

Definition generationUUIDDigits : nat := 16.

Definition is_hex_digit (c : ascii) : bool :=
  Str.contains_char c "0123456789abcdef".

Definition isHex (digits : string) : bool :=
  negb (bool_decide (digits = "")) && StrFacts.all_chars is_hex_digit (Str.to_lower digits).

(** [strings.Trim(s, "0") != ""]: some byte is not the digit 0. *)
Definition not_all_zero (s : string) : bool := negb (StrFacts.all_chars (fun c => Ascii.eqb c "0") s).

Definition IsGenerationUUID (s : string) : bool :=
  bool_decide (String.length s = generationUUIDDigits) && isHex s && not_all_zero s.

Definition uuidStatement (statement : string) : option string :=
  match Str.cut_prefix "0x" (Str.trim_space statement) with
  | Some digits => if IsGenerationUUID digits then Some (Str.to_upper digits) else None
  | None => None
  end.

Definition appendUUIDStatements (out : list string) (text : string) : list string :=
  out ++ omap uuidStatement (split_char ";" text).

Definition firstStatement (text : string) : option string :=
  head (filter (fun s => s <> "") (map Str.trim_space (split_char ";" text))).

Record uuidDump := mkDump {
  d_out : list string;
  d_block : bool;
  d_current : bool;
  d_v08Lead : bool;
}.

Definition dumpKeyCurrent : string := "current-uuid".
Definition dumpKeyV08 : string := "uuid".

(** [strings.Cut]: the text before the separator, and whether it was found. *)
Definition cut_before (sep : ascii) (s : string) : string * bool :=
  match Str.cut sep s with Some (b, _) => (b, true) | None => (s, false) end.

Definition blockText (d : uuidDump) (text : string) (closed : bool) : uuidDump :=
  let '(current, lead) :=
    match firstStatement text with
    | Some first =>
        if d_v08Lead d then (d_current d || bool_decide (is_Some (uuidStatement first)), false)
        else (d_current d, d_v08Lead d)
    | None => (d_current d, d_v08Lead d)
    end in
  mkDump (appendUUIDStatements (d_out d) text) (negb closed) current (lead && negb closed).

Definition line (d : uuidDump) (l : string) : uuidDump :=
  if d_block d then
    let '(body, closed) := cut_before "}" l in blockText d body closed
  else
    let '(key, rest) := match Str.cut " " l with Some kr => kr | None => (l, "") end in
    if bool_decide (key = dumpKeyCurrent) || bool_decide (key = "bitmap-uuid") then
      let out := appendUUIDStatements (d_out d) rest in
      mkDump out (d_block d)
        (d_current d || (bool_decide (key = dumpKeyCurrent) && bool_decide (length (d_out d) < length out)%nat))
        (d_v08Lead d)
    else if bool_decide (key = "history-uuids") || bool_decide (key = dumpKeyV08) then
      let d := mkDump (d_out d) (d_block d) (d_current d) (bool_decide (key = dumpKeyV08)) in
      match Str.cut_prefix "{" (Str.trim_space rest) with
      | None => blockText d rest true
      | Some body => let '(body, closed) := cut_before "}" body in blockText d body closed
      end
    else d.

Inductive dump_err := ErrScanner | ErrUnreadableMetadataDump.

(** [scanned]: the lines of the dump, and whether the scanner gave up. *)
Definition ParseMetadataUUIDs (lines : list string) (scannerFailed : bool) : result dump_err (list string) :=
  let parsed := foldl (fun d l => line d (Str.trim_space l)) (mkDump [] false false false) lines in
  if scannerFailed then Err ErrScanner
  else if negb (d_current parsed) || bool_decide (d_out parsed = []) then Err ErrUnreadableMetadataDump
  else Ok (d_out parsed).

(** [hex[idx&^1]] for an upper-case digit, any other byte unchanged: clearing the lowest bit of
    a digit is taking its predecessor when it is odd, and the byte before each odd digit is the
    digit before it. *)
Definition clear_bit (c : ascii) : ascii :=
  if Str.contains_char c "13579BDF" then ascii_of_N (N.pred (N_of_ascii c)) else c.

(** [uuid[:len(uuid)-1] + f(last)] *)
Fixpoint map_last (f : ascii -> ascii) (s : string) : string :=
  match s with
  | EmptyString => ""
  | String c EmptyString => String (f c) ""
  | String c s' => String c (map_last f s')
  end.

Definition clearPrimaryBit (uuid : string) : string :=
  map_last clear_bit (Str.to_upper (Str.trim_prefix "0X" (Str.trim_prefix "0x" uuid))).

Definition SameGeneration (a b : string) : bool := Str.equal_fold (clearPrimaryBit a) (clearPrimaryBit b).

End DumpMd.

(** ** Error numbers (errcodes.go) *)
Module ErrCodes.

Definition ErrCmdFailed : Z := 2.
Definition ErrNoResources : Z := 10.
Definition ErrMinorInvalid : Z := 11.
Definition ErrVolumeInvalid : Z := 12.
Definition ErrLocalAndPeerAddr : Z := 150.
Definition ErrResNotKnown : Z := 151.
Definition ErrMinorNotKnownOnPeer : Z := 158.
Definition ErrInvalidConfigRequest : Z := 162.
Definition ErrNeedApplyAL : Z := 167.

(** The longest run of digits at the head of the text, and the rest. *)
Fixpoint digits (s : string) : string * string :=
  match s with
  | String c s' => if Str.is_digit c then let '(d, r) := digits s' in (String c d, r) else ("", s)
  | EmptyString => ("", "")
  end.

(** [\d+\)] at the head of the text. *)
Definition code_here (s : string) : option string :=
  match digits s with
  | (String c d, String e _) => if Ascii.eqb e ")" then Some (String c d) else None
  | _ => None
  end.

(** The leftmost match of [\((\d+)\)]. *)
Fixpoint find_code (s : string) : option string :=
  match s with
  | EmptyString => None
  | String c s' =>
      if Ascii.eqb c "(" then
        match code_here s' with Some d => Some d | None => find_code s' end
      else find_code s'
  end.

(** [None] is the answer false. *)
Definition ExtractDrbdsetupErrCode (output : string) : option Z :=
  d ← find_code output; parse_int 64 d.

(** An error by its text; [None] is a nil error. *)
Definition IsErrCode (err : option string) (code : Z) : bool :=
  match err with
  | None => false
  | Some text => bool_decide (ExtractDrbdsetupErrCode text = Some code)
  end.

Definition IsUnknownResourceErr (err : option string) : bool := IsErrCode err ErrMinorNotKnownOnPeer.

Definition IsBitmapDropBothDisksErr (err : option string) : bool :=
  match err with
  | None => false
  | Some text => if negb (IsErrCode (Some text) ErrInvalidConfigRequest) then false
                 else contains "Can not drop the bitmap" text
  end.

End ErrCodes.

(** ** Kernel slots (drbdsetup_show.go) *)
Module Slots.

Record drbdsetupStatusPeerDevice := mkPeerDevice {
  pd_VolumeNumber : Z;
  pd_PeerDiskState : string;
  pd_ReplicationState : string;
  pd_ResyncSuspended : string;
}.

Record drbdsetupStatusConnection := mkConnection {
  c_PeerNodeID : Z;
  c_PeerName : string;
  c_ConnectionStr : string;
  c_PeerRole : string;
  c_PeerDevices : list drbdsetupStatusPeerDevice;
}.

Record drbdsetupStatusDevice := mkDevice {
  dv_VolumeNumber : Z;
  dv_DiskState : string;
  dv_Minor : Z;
}.

Record drbdsetupStatusResource := mkStatusResource {
  sr_NodeID : option Z;
  sr_Role : string;
  sr_Devices : list drbdsetupStatusDevice;
  sr_Connections : list drbdsetupStatusConnection;
}.

Record KernelSlot := mkSlot {
  ks_Name : string;
  ks_NodeID : Z;
  ks_ConnectionState : string;
  ks_PeerDevicesByVolNum : gset Z;
}.

Definition IsConnectingOrStandalone (s : option KernelSlot) : bool :=
  match s with
  | None => false
  | Some s => one_of (ks_ConnectionState s) ["Connecting"; "StandAlone"]
  end.

Definition HasAnyPeerDeviceConfigured (s : option KernelSlot) (volumes : list Z) : bool :=
  match s with
  | None => false
  | Some s =>
      if bool_decide (volumes = []) || bool_decide (ks_PeerDevicesByVolNum s = ∅) then false
      else existsb (fun v => bool_decide (v ∈ ks_PeerDevicesByVolNum s)) volumes
  end.

Definition slot_of (c : drbdsetupStatusConnection) : KernelSlot :=
  mkSlot (c_PeerName c) (c_PeerNodeID c) (c_ConnectionStr c)
    (list_to_set (pd_VolumeNumber <$> c_PeerDevices c)).

Definition add_slot (slots : gmap string KernelSlot) (c : drbdsetupStatusConnection) : gmap string KernelSlot :=
  if bool_decide (c_PeerName c = "") then slots else <[c_PeerName c := slot_of c]> slots.

(** [parseShowJSON], from the decoded output ([None]: blank or not JSON). *)
Definition parseShowJSON (root : option (list drbdsetupStatusResource)) : gmap string KernelSlot :=
  match root with
  | Some (res :: _) => foldl add_slot ∅ (sr_Connections res)
  | _ => ∅
  end.

Definition isResourceNotLoadedErr (err : option string) (out : string) : bool :=
  match err with
  | None => false
  | Some text =>
      let errText := text +:+ " " +:+ out in
      contains "No currently configured DRBD" errText || contains "Unknown resource" errText
      || contains "no resources defined" errText || contains "No such resource" errText
  end.

Inductive show_err := ErrStatus.

(** [run]: the answer of the command, as its error text and output; [decode]: the JSON decoder. *)
Definition Show (run : option string * string) (decode : string -> option (list drbdsetupStatusResource)) :
    result show_err (gmap string KernelSlot) :=
  let '(err, out) := run in
  match err with
  | Some _ => if isResourceNotLoadedErr err out then Ok ∅ else Err ErrStatus
  | None =>
      let body := Str.trim_space out in
      if bool_decide (body = "") then Ok ∅ else Ok (parseShowJSON (decode body))
  end.

Import Disk.

Definition attachedVolumeSet (devices : list drbdsetupStatusDevice) : gset Z :=
  list_to_set (dv_VolumeNumber <$> filter (fun dev => one_of (dv_DiskState dev)
    [DiskStateUpToDate; DiskStateInconsistent; DiskStateConsistent; DiskStateOutdated] = true) devices).

Definition AttachedVolumes (run : option string * string)
    (decode : string -> option (list drbdsetupStatusResource)) : gset Z :=
  match run with
  | (Some _, _) => ∅
  | (None, out) => match decode out with Some (res :: _) => attachedVolumeSet (sr_Devices res) | _ => ∅ end
  end.

End Slots.

(** ** Device numbers (devnode.go) *)
Module DevNode.

Definition DRBDMajor : Z := 147.
Definition devMajorShiftLo : Z := 8.
Definition devMinorShiftHi : Z := 12.
Definition devMajorShiftHi : Z := 32.
Definition devMajorLowMask : Z := 0xfff.
Definition devMinorLowMask : Z := 0xff.
Definition devMinorHiMask : Z := 0xffffff00.

Definition DevicePath (minor : Z) : string := "/dev/drbd" +:+ format_int minor.

Definition uint64 (z : Z) : Z := z `mod` 2 ^ 64.

Definition mkdev (major minor : Z) : Z :=
  let maj := uint64 major in
  let mn := uint64 minor in
  Z.lor (Z.lor (Z.lor (uint64 (Z.shiftl (Z.land maj devMajorLowMask) devMajorShiftLo)) (Z.land mn devMinorLowMask))
               (uint64 (Z.shiftl (Z.land mn devMinorHiMask) devMinorShiftHi)))
        (uint64 (Z.shiftl (Z.ldiff maj devMajorLowMask) devMajorShiftHi)).

(** What a [stat] of the path answers: a block device with its number, or anything else. *)
Inductive file_info := BlockDevice (rdev : Z) | OtherFile.

Definition isCorrectBlockDevice (info : file_info) (minor : Z) : bool :=
  match info with
  | BlockDevice rdev => bool_decide (rdev = mkdev DRBDMajor minor)
  | OtherFile => false
  end.

(** The calls [EnsureDeviceNode] makes. *)
Inductive call := Remove | Mknod (dev : Z) | Chmod.
Inductive ensure_err := StatFailed | RemoveFailed | MknodFailed | ChmodFailed.

(** [stat]: the file at the path, [None] when there is none; [answer]: whether a call succeeds.
    The result lists the calls made. *)
Definition EnsureDeviceNode (stat : result unit (option file_info)) (answer : call -> bool) (minor : Z) :
    list call * option ensure_err :=
  let dev := mkdev DRBDMajor minor in
  let create pre :=
    if answer (Mknod dev) then
      if answer Chmod then (pre ++ [Mknod dev; Chmod], None) else (pre ++ [Mknod dev; Chmod], Some ChmodFailed)
    else (pre ++ [Mknod dev], Some MknodFailed) in
  match stat with
  | Err _ => ([], Some StatFailed)
  | Ok None => create []
  | Ok (Some info) =>
      if isCorrectBlockDevice info minor then ([], None)
      else if answer Remove then create [Remove] else ([Remove], Some RemoveFailed)
  end.

End DevNode.

(** ** The option catalogue and the flags of the client (options.go, flagkeys.go) *)
Module Catalogue.

Record Option_ := mkOption { o_Name : string; o_Section : string; o_LinstorKey : string; o_Default : string }.

Definition netOptions : list Option_ :=
  [mkOption "protocol" "net" "DrbdOptions/Net/protocol" "C";
   mkOption "shared-secret" "net" "DrbdOptions/Net/shared-secret" "";
   mkOption "max-buffers" "net" "DrbdOptions/Net/max-buffers" "8000";
   mkOption "after-sb-0pri" "net" "DrbdOptions/Net/after-sb-0pri" "discard-zero-changes";
   mkOption "after-sb-1pri" "net" "DrbdOptions/Net/after-sb-1pri" "discard-secondary"].
Definition diskOptions : list Option_ :=
  [mkOption "on-io-error" "disk" "DrbdOptions/Disk/on-io-error" "detach";
   mkOption "al-extents" "disk" "DrbdOptions/Disk/al-extents" "1237"].
Definition peerDeviceOptions : list Option_ :=
  [mkOption "c-max-rate" "peer-device" "DrbdOptions/PeerDevice/c-max-rate" "100M"].
Definition resourceOptions : list Option_ :=
  [mkOption "auto-promote" "options" "DrbdOptions/Resource/auto-promote" "yes";
   mkOption "quorum" "options" "DrbdOptions/Resource/quorum" "majority";
   mkOption "on-no-quorum" "options" "DrbdOptions/Resource/on-no-quorum" "io-error"].
Definition Options : list Option_ := netOptions ++ diskOptions ++ peerDeviceOptions ++ resourceOptions.

Definition nsNet : string := PropPrefix +:+ "Net/".
Definition nsDisk : string := PropPrefix +:+ "Disk/".
Definition nsPeerDevice : string := PropPrefix +:+ "PeerDevice/".
Definition nsResource : string := PropPrefix +:+ "Resource/".
Definition nsHandlers : string := PropPrefix +:+ "Handlers/".

Definition net_flags : list string :=
  ["cram-hmac-alg"; "after-sb-2pri"; "rr-conflict"; "ping-timeout"; "ping-int"; "connect-int"; "timeout";
   "max-epoch-size"; "sndbuf-size"; "rcvbuf-size"; "ko-count"; "allow-two-primaries"; "data-integrity-alg";
   "verify-alg"; "csums-alg"; "use-rle"; "socket-check-timeout"; "tcp-cork"; "on-congestion"; "congestion-fill";
   "congestion-extents"; "transport"; "load-balance-paths"; "tls"].
Definition disk_flags : list string :=
  ["al-updates"; "md-flushes"; "disk-barrier"; "disk-flushes"; "disk-drain"; "discard-zeroes-if-aligned";
   "rs-discard-granularity"; "disable-write-same"; "read-balancing"; "resync-after"; "block-size"].
Definition peer_device_flags : list string :=
  ["resync-rate"; "c-plan-ahead"; "c-delay-target"; "c-fill-target"; "c-min-rate"; "bitmap"].
Definition resource_flags : list string :=
  ["cpu-mask"; "on-no-data-accessible"; "auto-promote-timeout"; "peer-ack-window"; "peer-ack-delay";
   "twopc-timeout"; "twopc-retry-timeout"; "quorum-minimum-redundancy"; "on-suspended-primary-outdated";
   "max-io-depth"].
Definition handler_flags : list string :=
  ["fence-peer"; "unfence-peer"; "before-resync-target"; "after-resync-target"; "before-resync-source";
   "after-resync-source"; "pri-on-incon-degr"; "pri-lost-after-sb"; "local-io-error"; "initial-split-brain";
   "split-brain"; "out-of-sync"; "quorum-lost"; "disconnected"].

Definition flagNamespaces : gmap string string :=
  list_to_map ([(net_flags, nsNet); (disk_flags, nsDisk); (peer_device_flags, nsPeerDevice);
    (resource_flags, nsResource); (handler_flags, nsHandlers)]
    ≫= fun '(names, ns) => map (fun n => (n, ns)) names).

Definition FlagKey (name : string) : option string :=
  match list_find (fun opt => o_Name opt = name) Options with
  | Some (_, opt) => Some (o_LinstorKey opt)
  | None => (fun ns => ns +:+ name) <$> flagNamespaces !! name
  end.

Definition FlagNames : list string :=
  sorted_keys (list_to_map (map (fun o => (o_Name o, tt)) Options) ∪ ((fun _ => tt) <$> flagNamespaces) : gmap string unit).

End Catalogue.
