(* ===== verification/DrbdTextProps.v ===== *)
(** * What the DRBD text parsers guarantee

    Theorems on [DrbdText]: event lines and metadata dumps read back, generations compare as the
    numbers they spell with the lowest bit ignored, error numbers are found behind any prefix,
    and device numbers decode to the pair they were made from. *)

From Stdlib Require Import Ascii.
From S2P Require Import Prelude Sha256 GoStrings DrbdStates DrbdOptions DrbdText.

(** ** Hexadecimal digits *)
Module Hex.
Import DumpMd.

(** The value of a hexadecimal digit of either case. *)
Definition dig (c : ascii) : Z :=
  let n := Z.of_N (N_of_ascii (Str.lower_ascii c)) in if n <? 58 then n - 48 else n - 87.

Definition is_hex (c : ascii) : bool := is_hex_digit (Str.lower_ascii c).

Fixpoint hexval (s : string) : Z :=
  match s with
  | EmptyString => 0
  | String c s' => dig c * 16 ^ Z.of_nat (String.length s') + hexval s'
  end.

(** The digits of a number, [%0nX]. *)
Definition upper_digit (z : Z) : ascii := Str.upper_ascii (Sha256.hex_digit z).
Fixpoint hex_of (n : nat) (z : Z) : string :=
  match n with
  | O => ""
  | S n' => String (upper_digit ((z / 16 ^ Z.of_nat n') mod 16)) (hex_of n' z)
  end.

Ltac all_bytes := intros [[] [] [] [] [] [] [] []]; vm_compute; done.

Lemma dig_lower c : dig (Str.lower_ascii c) = dig c.
Proof. revert c; all_bytes. Qed.
Lemma dig_upper c : dig (Str.upper_ascii c) = dig c.
Proof. revert c; all_bytes. Qed.
Lemma is_hex_upper c : is_hex (Str.upper_ascii c) = is_hex c.
Proof. revert c; all_bytes. Qed.
Lemma lower_upper c : Str.lower_ascii (Str.upper_ascii c) = Str.lower_ascii c.
Proof. revert c; all_bytes. Qed.
Lemma dig_zero c : is_hex c = true -> (dig c = 0 <-> c = "0"%char).
Proof. revert c; all_bytes. Qed.
Lemma dig_range c : is_hex c = true -> 0 <= dig c < 16.
Proof.
  intros H. assert (implb (is_hex c) ((0 <=? dig c) && (dig c <? 16)) = true) as E by (revert c H; all_bytes).
  rewrite H in E. cbn in E. lia.
Qed.
Lemma lower_dig c : is_hex c = true -> Str.lower_ascii c = Sha256.hex_digit (dig c).
Proof. revert c; all_bytes. Qed.
Lemma clear_bit_dig c : is_hex c = true -> dig (clear_bit (Str.upper_ascii c)) = 2 * (dig c / 2).
Proof. revert c; all_bytes. Qed.
Lemma clear_bit_hex c : is_hex c = true -> is_hex (clear_bit (Str.upper_ascii c)) = true.
Proof. revert c; all_bytes. Qed.

Lemma upper_digit_facts z : 0 <= z < 16 ->
  dig (upper_digit z) = z /\ is_hex (upper_digit z) = true /\ Str.upper_ascii (upper_digit z) = upper_digit z.
Proof.
  intros H. assert (z ∈ seqZ 0 16) as Hin by (apply elem_of_seqZ; lia).
  clear H. revert z Hin. apply list.Forall_forall. apply (bool_decide_eq_true_1 _). vm_compute. reflexivity.
Qed.

Lemma pow16_pos n : 0 < 16 ^ Z.of_nat n.
Proof. apply Z.pow_pos_nonneg; lia. Qed.
Lemma pow16_S n : 16 ^ Z.of_nat (S n) = 16 * 16 ^ Z.of_nat n.
Proof. rewrite Nat2Z.inj_succ, Z.pow_succ_r; lia. Qed.

Lemma hexval_range s : StrFacts.all_chars is_hex s = true -> 0 <= hexval s < 16 ^ Z.of_nat (String.length s).
Proof.
  induction s as [|c s IH]; cbn [StrFacts.all_chars hexval String.length]; [lia|].
  intros [Hc%dig_range Hs%IH]%andb_true_iff. rewrite pow16_S. pose proof (pow16_pos (String.length s)). nia.
Qed.

(** Texts of the same length spelling the same number are equal up to case. *)
Lemma hexval_inj s t : String.length s = String.length t ->
  StrFacts.all_chars is_hex s = true -> StrFacts.all_chars is_hex t = true ->
  hexval s = hexval t -> Str.to_lower s = Str.to_lower t.
Proof.
  revert t; induction s as [|c s IH]; intros [|d t] Hl; try done. injection Hl as Hl.
  cbn [StrFacts.all_chars hexval]. intros [Hc Hs]%andb_true_iff [Hd Ht]%andb_true_iff Hv.
  pose proof (hexval_range s Hs). pose proof (hexval_range t Ht). rewrite Hl in *.
  pose proof (dig_range c Hc). pose proof (dig_range d Hd). pose proof (pow16_pos (String.length t)).
  assert (dig c = dig d) as E by nia. unfold Str.to_lower. cbn. f_equal; [|apply IH; auto; nia].
  by rewrite (lower_dig c), (lower_dig d), E.
Qed.

Lemma length_map_str f s : String.length (Str.map f s) = String.length s.
Proof. induction s as [|c s IH]; cbn; congruence. Qed.

Lemma hexval_map f s : (forall c, dig (f c) = dig c) -> hexval (Str.map f s) = hexval s.
Proof. intros Hf. induction s as [|c s IH]; cbn; [done|]. by rewrite Hf, IH, length_map_str. Qed.

Lemma hexval_zero s : StrFacts.all_chars is_hex s = true ->
  StrFacts.all_chars (fun c => Ascii.eqb c "0") s = bool_decide (hexval s = 0).
Proof.
  induction s as [|c s IH]; cbn [StrFacts.all_chars hexval]; [done|]. intros [Hc Hs]%andb_true_iff. rewrite IH by done.
  pose proof (dig_range c Hc). pose proof (hexval_range s Hs). pose proof (pow16_pos (String.length s)).
  destruct (Ascii.eqb_spec c "0") as [->|Hne]; cbn [andb].
  - by change (dig "0") with 0.
  - symmetry. apply bool_decide_eq_false. intros E. apply Hne, dig_zero; [done|]. nia.
Qed.

Lemma hex_of_length n z : String.length (hex_of n z) = n.
Proof. induction n; cbn; congruence. Qed.

Lemma hex_of_facts n z :
  StrFacts.all_chars is_hex (hex_of n z) = true /\ Str.to_upper (hex_of n z) = hex_of n z
  /\ hexval (hex_of n z) = z mod 16 ^ Z.of_nat n.
Proof.
  induction n as [|n (IH1 & IH2 & IH3)]; [by rewrite Z.mod_1_r|].
  destruct (upper_digit_facts ((z / 16 ^ Z.of_nat n) mod 16)) as (H1 & H2 & H3); [apply Z.mod_pos_bound; lia|].
  unfold Str.to_upper in *. cbn [hex_of StrFacts.all_chars Str.map hexval].
  rewrite H1, H2, H3, IH1, IH2, IH3, hex_of_length. split_and!; [done..|].
  rewrite pow16_S, (Z.mul_comm 16), Z.rem_mul_r; [lia| |lia]. pose proof (pow16_pos n). lia.
Qed.

End Hex.

(** ** Generations *)
Module Generations.
Import DumpMd Hex.

Lemma isHex_chars s : isHex s = true -> StrFacts.all_chars is_hex s = true.
Proof. unfold isHex, Str.to_lower. rewrite all_chars_map. by intros [_ ?]%andb_true_iff. Qed.

Lemma uuid_facts s : IsGenerationUUID s = true <->
  String.length s = 16%nat /\ StrFacts.all_chars is_hex s = true /\ hexval s <> 0.
Proof.
  unfold IsGenerationUUID, isHex, not_all_zero, Str.to_lower. rewrite all_chars_map, !andb_true_iff, bool_decide_eq_true.
  change (StrFacts.all_chars (fun c => is_hex_digit (Str.lower_ascii c)) s) with (StrFacts.all_chars is_hex s).
  split.
  - intros ((Hl & _ & Hx) & Hz). rewrite hexval_zero in Hz by done. split_and!; [done..|].
    by apply negb_true_iff, bool_decide_eq_false in Hz.
  - intros (Hl & Hx & Hz). rewrite hexval_zero by done. split_and!; [done| |done|].
    + destruct s; [done|]. by rewrite bool_decide_eq_false_2.
    + by rewrite bool_decide_eq_false_2.
Qed.

(** A generation has no [0x] prefix to strip: [x] is not a digit. *)
Lemma no_prefix p s : StrFacts.all_chars is_hex s = true -> StrFacts.all_chars is_hex p = false -> Str.trim_prefix p s = s.
Proof.
  intros Hs Hp. unfold Str.trim_prefix. destruct (Str.cut_prefix p s) as [r|] eqn:E; [|done].
  apply StrFacts.cut_prefix_Some in E as ->. rewrite all_chars_app, Hp in Hs. done.
Qed.

Lemma clear_chars s : StrFacts.all_chars is_hex s = true ->
  StrFacts.all_chars is_hex (map_last clear_bit (Str.to_upper s)) = true
  /\ String.length (map_last clear_bit (Str.to_upper s)) = String.length s
  /\ (s <> "" -> hexval (map_last clear_bit (Str.to_upper s)) = 2 * (hexval s / 2)).
Proof.
  unfold Str.to_upper. induction s as [|c s IH]; [done|]. cbn [StrFacts.all_chars].
  intros [Hc Hs]%andb_true_iff. destruct (IH Hs) as (IH1 & IH2 & IH3). destruct s as [|d s].
  { cbn [Str.map map_last StrFacts.all_chars hexval String.length]. rewrite clear_bit_dig, clear_bit_hex by done. split_and!; [done..|]. intros _. rewrite !Z.mul_1_r, !Z.add_0_r. done. }
  change (map_last clear_bit (Str.map Str.upper_ascii (String c (String d s))))
    with (String (Str.upper_ascii c) (map_last clear_bit (Str.map Str.upper_ascii (String d s)))).
  set (t := map_last _ _) in *. set (u := String d s) in *.
  cbn [StrFacts.all_chars hexval String.length]. rewrite is_hex_upper, Hc, IH1, IH2. split_and!; [done..|]. intros _.
  rewrite dig_upper, IH3 by done. unfold u. cbn [String.length]. rewrite pow16_S.
  replace (dig c * (16 * 16 ^ Z.of_nat (String.length s)) + hexval (String d s))
    with ((dig c * 8 * 16 ^ Z.of_nat (String.length s)) * 2 + hexval (String d s)) by lia.
  rewrite Z.div_add_l by lia. lia.
Qed.

(** Two generation UUIDs are the same generation exactly when the 64-bit numbers they spell
    agree but for the lowest bit, whatever the case of their digits. *)
Theorem SameGeneration_exact a b :
  IsGenerationUUID a = true -> IsGenerationUUID b = true ->
  SameGeneration a b = true <-> hexval a / 2 = hexval b / 2.
Proof.
  intros (Hla & Ha & _)%uuid_facts (Hlb & Hb & _)%uuid_facts.
  unfold SameGeneration, clearPrimaryBit, Str.equal_fold. rewrite bool_decide_eq_true.
  rewrite !(no_prefix "0x"), !(no_prefix "0X") by done.
  destruct (clear_chars a Ha) as (A1 & A2 & A3), (clear_chars b Hb) as (B1 & B2 & B3).
  rewrite <- (Z.mul_cancel_l _ _ 2) by done. rewrite <- A3, <- B3 by (by intros ->).
  split; [|apply hexval_inj; congruence].
  intros E. apply (f_equal hexval) in E. unfold Str.to_lower in E. by rewrite !(hexval_map _ _ dig_lower) in E.
Qed.

Lemma SameGeneration_exact_witness :
  IsGenerationUUID "9f00aa11bb22cc33" = true /\ IsGenerationUUID "9F00AA11BB22CC32" = true
  /\ (SameGeneration "9f00aa11bb22cc33" "9F00AA11BB22CC32" = true
      <-> hexval "9f00aa11bb22cc33" / 2 = hexval "9F00AA11BB22CC32" / 2)
  /\ SameGeneration "9f00aa11bb22cc33" "9F00AA11BB22CC32" = true.
Proof.
  split; [vm_compute; reflexivity|]. split; [vm_compute; reflexivity|].
  split; [apply SameGeneration_exact; vm_compute; reflexivity|vm_compute; reflexivity].
Defined.

End Generations.

(** ** Metadata dumps *)
Module Dump.
Import DumpMd Hex Generations.

(** What a dump holds: in the v09 format the current UUID, bitmap UUIDs and history, in the v08
    format one block of UUIDs and the flags, and lines of other kinds. *)
Inductive item :=
  | Current (z : Z)
  | Bitmap (z : Z)
  | History (rows : list (Z * list Z))
  | V08 (current : Z) (rest : list Z) (flags : string)
  | Other (text : string).

Definition uuid (z : Z) : string := hex_of 16 z.
Definition statement (z : Z) : string := "0x" +:+ uuid z +:+ ";".
Definition row (r : Z * list Z) : string :=
  statement (fst r) +:+ foldr (fun z s => " " +:+ statement z +:+ s) "" (snd r).

(** [print_dump_gi] as the comment of [ParseMetadataUUIDs] describes it. *)
Definition print (i : item) : list string :=
  match i with
  | Current z => ["current-uuid " +:+ statement z]
  | Bitmap z => ["    bitmap-uuid " +:+ statement z]
  | History rows => ["history-uuids {"] ++ map (fun r => "        " +:+ row r) rows ++ ["}"]
  | V08 z zs flags => ["uuid {"; "    " +:+ row (z, zs); "    flags 0x" +:+ flags +:+ ";"; "}"]
  | Other text => [text]
  end.

Definition nonzero (l : list Z) : list string := uuid <$> filter (fun z => z <> 0) l.
Definition generations (i : item) : list string :=
  match i with
  | Current z | Bitmap z => nonzero [z]
  | History rows => rows ≫= fun r => nonzero (fst r :: snd r)
  | V08 z zs _ => nonzero (z :: zs)
  | Other _ => []
  end.
Definition names_current (i : item) : bool :=
  match i with Current z | V08 z _ _ => bool_decide (z <> 0) | _ => false end.

Definition is_u64 (z : Z) : Prop := 0 <= z < 2 ^ 64.
Definition key_of (text : string) : string :=
  match Str.cut " " (Str.trim_space text) with Some (k, _) => k | None => Str.trim_space text end.
Definition item_ok (i : item) : Prop :=
  match i with
  | Current z | Bitmap z => is_u64 z
  | History rows => Forall (fun r => is_u64 (fst r) /\ Forall is_u64 (snd r)) rows
  | V08 z zs flags => is_u64 z /\ Forall is_u64 zs /\ StrFacts.all_chars is_hex flags = true
  | Other text => key_of text ∉ ["current-uuid"; "bitmap-uuid"; "history-uuids"; "uuid"]
  end.

Lemma hex_solid s : StrFacts.all_chars is_hex s = true -> StrFacts.all_chars solid s = true.
Proof. apply all_chars_impl. all_bytes. Qed.

Lemma uuid_hex z : StrFacts.all_chars is_hex (uuid z) = true.
Proof. apply hex_of_facts. Qed.

Lemma uuid_no_char c z : is_hex c = false -> Str.contains_char c (uuid z) = false.
Proof. intros H. eapply all_chars_no_char; [exact H|apply uuid_hex]. Qed.

Lemma trim_hex pre s : StrFacts.all_chars Str.is_space pre = true -> StrFacts.all_chars is_hex s = true ->
  Str.trim_space (pre +:+ "0x" +:+ s) = "0x" +:+ s.
Proof. intros Hp Hs. apply trim_space_word; [done|]. by rewrite all_chars_app, (hex_solid s). Qed.

Lemma uuidStatement_print pre z : StrFacts.all_chars Str.is_space pre = true -> is_u64 z ->
  uuidStatement (pre +:+ "0x" +:+ uuid z) = if bool_decide (z <> 0) then Some (uuid z) else None.
Proof.
  intros Hp Hz. unfold uuidStatement. rewrite trim_hex, StrFacts.cut_prefix_app by (done || apply uuid_hex).
  destruct (hex_of_facts 16 z) as (H1 & H2 & H3). rewrite Z.mod_small in H3 by exact Hz.
  destruct (IsGenerationUUID (uuid z)) eqn:E.
  - apply uuid_facts in E as (_ & _ & E). unfold uuid in *. rewrite H3 in E. by rewrite bool_decide_eq_true_2, H2.
  - rewrite bool_decide_eq_false_2; [done|]. intros Hz0.
    assert (IsGenerationUUID (uuid z) = true); [|congruence]. apply uuid_facts. unfold uuid in *.
    rewrite H3. split_and!; [apply hex_of_length|done..].
Qed.

Lemma statement_no_char pre c z : StrFacts.all_chars Str.is_space pre = true ->
  is_hex c = false -> Str.is_space c = false -> c <> "x"%char ->
  Str.contains_char c (pre +:+ "0x" +:+ uuid z) = false.
Proof.
  intros Hp Hc Hs Hx. rewrite !StrFacts.contains_char_app, (uuid_no_char c) by done.
  rewrite (all_chars_no_char Str.is_space) by done. cbn. destruct (Ascii.eqb_spec c "x"), (Ascii.eqb_spec c "0"); by subst.
Qed.

Lemma split_statement pre z s : StrFacts.all_chars Str.is_space pre = true -> is_u64 z ->
  appendUUIDStatements [] (pre +:+ statement z +:+ s) = nonzero [z] ++ appendUUIDStatements [] s.
Proof.
  intros Hp Hz. unfold appendUUIDStatements. cbn [app].
  replace (pre +:+ statement z +:+ s) with ((pre +:+ "0x" +:+ uuid z) +:+ String ";" s)
    by (unfold statement; by rewrite !StrFacts.app_assoc).
  rewrite split_char_piece by (by apply statement_no_char). cbn [omap list_omap].
  rewrite uuidStatement_print by done. unfold nonzero. rewrite filter_cons, filter_nil.
  destruct (decide (z <> 0)); [by rewrite bool_decide_eq_true_2|by rewrite bool_decide_eq_false_2].
Qed.

Lemma nonzero_cons z zs : nonzero (z :: zs) = nonzero [z] ++ nonzero zs.
Proof. unfold nonzero. rewrite !filter_cons, filter_nil. by destruct (decide (z <> 0)). Qed.

Lemma append_app out text : appendUUIDStatements out text = out ++ appendUUIDStatements [] text.
Proof. done. Qed.

Lemma split_row r : is_u64 (fst r) -> Forall is_u64 (snd r) ->
  appendUUIDStatements [] (row r) = nonzero (fst r :: snd r).
Proof.
  destruct r as [z zs]. cbn [fst snd]. intros Hz Hzs. unfold row.
  pose proof (split_statement "" z) as E. change ("" +:+ ?x) with x in E. cbn [fst snd].
  rewrite E, (nonzero_cons z zs) by done. f_equal. clear z Hz E.
  induction Hzs as [|z zs Hz Hzs IH]; [done|]. cbn [foldr]. by rewrite (split_statement " "), (nonzero_cons z zs), IH.
Qed.

(** A row is a first statement, bytes and a last semicolon; no byte of it closes the block. *)
Lemma row_ends r : exists t, row r = ("0x" +:+ t) +:+ ";".
Proof.
  destruct r as [z zs]. unfold row, statement. cbn [fst snd]. rewrite !StrFacts.app_assoc.
  assert (exists t, uuid z +:+ ";" +:+ foldr (fun z s => " " +:+ ("0x" +:+ uuid z +:+ ";") +:+ s) "" zs = t +:+ ";") as [t ->].
  { generalize (uuid z). induction zs as [|z' zs IH]; intros u; [by exists u|]. cbn [foldr].
    destruct (IH (uuid z')) as [t Ht]. exists (u +:+ "; 0x" +:+ t).
    rewrite !StrFacts.app_assoc in *. by rewrite Ht. }
  by exists t.
Qed.

Lemma row_open r : Str.contains_char "}" (row r) = false.
Proof.
  assert (forall z, Str.contains_char "}" (statement z) = false) as H.
  { intros z. unfold statement. rewrite !StrFacts.contains_char_app, uuid_no_char by done. done. }
  destruct r as [z zs]. unfold row. rewrite StrFacts.contains_char_app, H. cbn [fst snd orb].
  induction zs as [|z' zs IH]; [done|]. cbn [foldr]. by rewrite !StrFacts.contains_char_app, H, IH.
Qed.

Lemma trim_row r : Str.trim_space ("        " +:+ row r) = row r /\ Str.trim_space ("    " +:+ row r) = row r.
Proof. destruct (row_ends r) as [t ->]. split; by apply (trim_space_framed _ _ ";"). Qed.

(** Between items the parser is outside any block. *)
Definition outside (out : list string) (current : bool) : uuidDump := mkDump out false current false.
Definition feed (d : uuidDump) (ls : list string) : uuidDump := foldl (fun d l => line d (Str.trim_space l)) d ls.

Lemma nonzero_one z : nonzero [z] = if bool_decide (z <> 0) then [uuid z] else [].
Proof.
  unfold nonzero. rewrite filter_cons, filter_nil.
  destruct (decide (z <> 0)); [by rewrite bool_decide_eq_true_2|by rewrite bool_decide_eq_false_2].
Qed.

Lemma statement_alone z : is_u64 z -> appendUUIDStatements [] (statement z) = nonzero [z].
Proof. intros Hz. pose proof (split_row (z, []) Hz) as E. unfold row in E. cbn [fst snd foldr] in E. rewrite StrFacts.app_nil_r in E. by apply E. Qed.

Lemma trim_keyed pre key z : StrFacts.all_chars Str.is_space pre = true -> starts_solid key = true -> key <> "" ->
  Str.trim_space (pre +:+ key +:+ statement z) = key +:+ statement z.
Proof.
  intros Hp Hk Hne. unfold statement.
  replace (key +:+ "0x" +:+ uuid z +:+ ";") with ((key +:+ "0x" +:+ uuid z) +:+ String ";" "")
    by (by rewrite !StrFacts.app_assoc).
  apply trim_space_framed; [done| |done]. by destruct key.
Qed.

Lemma feed_current out cur z : is_u64 z ->
  feed (outside out cur) (print (Current z)) = outside (out ++ nonzero [z]) (cur || bool_decide (z <> 0)).
Proof.
  intros Hz. unfold feed, print. cbn [foldl].
  pose proof (trim_keyed "" "current-uuid " z eq_refl eq_refl ltac:(done)) as E. change ("" +:+ ?x) with x in E. rewrite E.
  change (line (outside out cur) ("current-uuid " +:+ statement z)) with
    (let out' := appendUUIDStatements out (statement z) in outside out' (cur || bool_decide (length out < length out')%nat)).
  cbv zeta. rewrite append_app, statement_alone, nonzero_one by done.
  case_bool_decide; do 2 f_equal.
  - by rewrite bool_decide_eq_true_2 by (rewrite length_app; cbn; lia).
  - by rewrite bool_decide_eq_false_2 by (rewrite length_app; cbn; lia).
Qed.

Lemma feed_bitmap out cur z : is_u64 z ->
  feed (outside out cur) (print (Bitmap z)) = outside (out ++ nonzero [z]) cur.
Proof.
  intros Hz. unfold feed, print. cbn [foldl].
  change ("    bitmap-uuid " +:+ statement z) with ("    " +:+ "bitmap-uuid " +:+ statement z).
  rewrite trim_keyed by done.
  change (line (outside out cur) ("bitmap-uuid " +:+ statement z)) with
    (outside (appendUUIDStatements out (statement z)) (cur || false)).
  by rewrite append_app, statement_alone, orb_false_r.
Qed.

Lemma block_row out cur r : is_u64 (fst r) -> Forall is_u64 (snd r) ->
  line (mkDump out true cur false) (row r) = mkDump (out ++ nonzero (fst r :: snd r)) true cur false.
Proof.
  intros Hz Hzs. unfold line, cut_before. cbn [d_block].
  rewrite (proj2 (StrFacts.cut_None "}" _)) by apply row_open.
  unfold blockText. cbn [d_v08Lead d_current d_out]. rewrite append_app, split_row by done. by destruct (firstStatement _).
Qed.

Lemma feed_rows out cur rows : item_ok (History rows) ->
  feed (mkDump out true cur false) (map (fun r => "        " +:+ row r) rows)
    = mkDump (out ++ generations (History rows)) true cur false.
Proof.
  intros H. cbn [item_ok] in H. revert out. induction H as [|r rows [Hz Hzs] Hr IH]; intros out.
  - cbn. by rewrite app_nil_r.
  - change (feed (line (mkDump out true cur false) (Str.trim_space ("        " +:+ row r)))
        (map (fun r => "        " +:+ row r) rows) = mkDump (out ++ nonzero (fst r :: snd r) ++ generations (History rows)) true cur false).
    by rewrite (proj1 (trim_row r)), block_row, IH, <- (assoc_L (++)).
Qed.

Lemma feed_app d l l' : feed d (l ++ l') = feed (feed d l) l'.
Proof. apply foldl_app. Qed.

Lemma feed_history out cur rows : item_ok (History rows) ->
  feed (outside out cur) (print (History rows)) = outside (out ++ generations (History rows)) cur.
Proof.
  intros H. unfold print. rewrite !feed_app.
  change (feed (outside out cur) ["history-uuids {"]) with (mkDump (out ++ []) true cur false).
  rewrite app_nil_r, feed_rows by done. set (o := out ++ _).
  change (mkDump (o ++ []) false cur false = outside o cur). by rewrite app_nil_r.
Qed.

Lemma first_row z zs : firstStatement (row (z, zs)) = Some ("0x" +:+ uuid z).
Proof.
  unfold firstStatement, row, statement. cbn [fst snd].
  replace (("0x" +:+ uuid z +:+ ";") +:+ foldr (fun z s => " " +:+ ("0x" +:+ uuid z +:+ ";") +:+ s) "" zs)
    with (("0x" +:+ uuid z) +:+ String ";" (foldr (fun z s => " " +:+ ("0x" +:+ uuid z +:+ ";") +:+ s) "" zs))
    by (by rewrite !StrFacts.app_assoc).
  rewrite split_char_piece by (by apply (statement_no_char "")). cbn [map].
  pose proof (trim_hex "" (uuid z) eq_refl (uuid_hex z)) as E. change ("" +:+ ?x) with x in E. rewrite E.
  rewrite filter_cons_True; [done|]. intros [=].
Qed.

(** A keyed statement inside a block is not a UUID. *)
Lemma flags_line out cur flags : StrFacts.all_chars is_hex flags = true ->
  line (mkDump out true cur false) (Str.trim_space ("    flags 0x" +:+ flags +:+ ";")) = mkDump out true cur false.
Proof.
  intros Hf. pose proof (trim_space_framed "    " ("flags 0x" +:+ flags) ";" eq_refl eq_refl eq_refl) as E.
  rewrite StrFacts.app_assoc in E.
  change ("    " +:+ "flags 0x" +:+ flags +:+ ";") with ("    flags 0x" +:+ flags +:+ ";") in E. rewrite E.
  assert (forall c, is_hex c = false -> Str.contains_char c flags = false) as Hc.
  { intros c H. by eapply all_chars_no_char. }
  unfold line, cut_before. cbn [d_block].
  rewrite (proj2 (StrFacts.cut_None "}" _)) by (rewrite !StrFacts.contains_char_app, Hc by done; done).
  unfold blockText. cbn [d_v08Lead d_current d_out]. unfold appendUUIDStatements.
  rewrite <- StrFacts.app_assoc, split_char_piece by (rewrite !StrFacts.contains_char_app, Hc by done; done).
  cbn [split_char omap list_omap]. unfold uuidStatement at 1.
  destruct (Str.cut_prefix "0x" (Str.trim_space ("flags 0x" +:+ flags))) as [r|] eqn:Er.
  - exfalso. change (Str.trim_space ("flags 0x" +:+ flags)) with (Str.trim_space ("" +:+ "flags 0x" +:+ flags)) in Er.
    destruct (str_snoc_cases flags) as [->|(t & c & ->)]; [done|].
    rewrite <- (StrFacts.app_assoc "flags 0x"), trim_space_framed in Er; [done..|].
    rewrite all_chars_app in Hf. apply andb_true_iff in Hf as [_ Hf]. apply hex_solid in Hf.
    cbn in Hf. by rewrite andb_true_r in Hf.
  - change (omap uuidStatement [""]) with (@nil string). cbn. rewrite app_nil_r. by destruct (firstStatement _).
Qed.

Lemma feed_v08 out cur z zs flags : item_ok (V08 z zs flags) ->
  feed (outside out cur) (print (V08 z zs flags)) = outside (out ++ nonzero (z :: zs)) (cur || bool_decide (z <> 0)).
Proof.
  intros (Hz & Hzs & Hf). unfold print, feed. cbn [foldl].
  change (line (outside out cur) (Str.trim_space "uuid {")) with (mkDump (out ++ []) true cur true).
  rewrite app_nil_r, (proj2 (trim_row (z, zs))).
  assert (line (mkDump out true cur true) (row (z, zs))
    = mkDump (out ++ nonzero (z :: zs)) true (cur || bool_decide (z <> 0)) false) as ->.
  { unfold line, cut_before. cbn [d_block]. rewrite (proj2 (StrFacts.cut_None "}" _)) by apply row_open.
    unfold blockText. rewrite first_row. cbn [d_v08Lead d_current d_out].
    rewrite append_app, split_row by done. pose proof (uuidStatement_print "" z eq_refl Hz) as E.
    change ("" +:+ ?x) with x in E. rewrite E. cbn [negb andb fst snd]. do 2 f_equal. by case_bool_decide. }
  rewrite flags_line by done. set (o := out ++ _).
  change (mkDump (o ++ []) false (cur || bool_decide (z <> 0)) false = outside o (cur || bool_decide (z <> 0))).
  by rewrite app_nil_r.
Qed.

Lemma feed_other d text : d_block d = false -> item_ok (Other text) -> feed d (print (Other text)) = d.
Proof.
  intros Hb Hk. cbn [item_ok] in Hk. unfold key_of in Hk. unfold print, feed. cbn [foldl]. unfold line. rewrite Hb.
  destruct (match Str.cut " " (Str.trim_space text) with Some kr => kr | None => (Str.trim_space text, "") end) as [k r] eqn:E.
  replace (match Str.cut " " (Str.trim_space text) with Some (k, _) => k | None => Str.trim_space text end) with k in Hk
    by (destruct (Str.cut " " (Str.trim_space text)) as [[??]|]; congruence).
  unfold dumpKeyCurrent, dumpKeyV08.
  rewrite (bool_decide_eq_false_2 (k = "current-uuid")), (bool_decide_eq_false_2 (k = "bitmap-uuid")),
    (bool_decide_eq_false_2 (k = "history-uuids")), (bool_decide_eq_false_2 (k = "uuid")) by set_solver. done.
Qed.

Lemma feed_item out cur i : item_ok i ->
  feed (outside out cur) (print i) = outside (out ++ generations i) (cur || names_current i).
Proof.
  intros Hi. destruct i as [z|z|rows|z zs flags|text]; cbn [names_current]; rewrite ?orb_false_r.
  - by apply feed_current.
  - by apply feed_bitmap.
  - by apply feed_history.
  - by apply feed_v08.
  - rewrite feed_other by done. cbn [generations]. by rewrite app_nil_r.
Qed.

Lemma feed_items out cur items : Forall item_ok items ->
  feed (outside out cur) (items ≫= print) = outside (out ++ (items ≫= generations)) (cur || existsb names_current items).
Proof.
  intros H. revert out cur. induction H as [|i items Hi _ IH]; intros out cur.
  - cbn. by rewrite app_nil_r, orb_false_r.
  - cbn [mbind list_bind existsb]. rewrite feed_app, feed_item, IH by done. by rewrite (assoc_L (++)), orb_assoc.
Qed.

Lemma current_listed items : existsb names_current items = true -> (items ≫= generations) <> [].
Proof.
  intros (i & Hi & Hn)%existsb_exists E. apply list_elem_of_In in Hi.
  assert (exists u, u ∈ generations i) as [u Hu].
  { destruct i as [z|z| |z zs f|]; cbn in Hn; try done; apply bool_decide_eq_true in Hn; exists (uuid z); cbn [generations];
      rewrite ?(nonzero_cons z zs), nonzero_one, bool_decide_eq_true_2 by done; set_solver. }
  assert (u ∈ items ≫= generations) as Hin by (apply list_elem_of_bind; eauto). rewrite E in Hin. by apply elem_of_nil in Hin.
Qed.

(** Reading a metadata dump, of the v09 or the v08 format and with any other lines between,
    gives every generation it holds, in order, zero ones left out; a dump that names no current
    generation is an error and never an empty answer. *)
Theorem ParseMetadataUUIDs_reads_dump items :
  Forall item_ok items ->
  ParseMetadataUUIDs (items ≫= print) false
    = if existsb names_current items then Ok (items ≫= generations) else Err ErrUnreadableMetadataDump.
Proof.
  intros H. unfold ParseMetadataUUIDs. change (foldl _ _ _) with (feed (outside [] false) (items ≫= print)).
  rewrite feed_items by done. cbn [app orb outside d_current d_out].
  destruct (existsb names_current items) eqn:E; cbn; [|done].
  rewrite bool_decide_eq_false_2 by (by apply current_listed). done.
Qed.

Definition example_dump : list item :=
  [Other "version v09;"; Current 0x9F00AA11BB22CC33; Other "peer[1] {"; Bitmap 0x6E3A5D0B2C1F4A96; Other "}";
   History [(0x1234567890ABCDEF, [0]); (0, [0])]; Other "bm-byte-per-bit 4096;"].

Lemma ParseMetadataUUIDs_reads_dump_witness :
  ParseMetadataUUIDs (example_dump ≫= print) false
    = Ok ["9F00AA11BB22CC33"; "6E3A5D0B2C1F4A96"; "1234567890ABCDEF"].
Proof.
  rewrite ParseMetadataUUIDs_reads_dump; [vm_compute; reflexivity|].
  unfold example_dump. repeat constructor; try (vm_compute; congruence);
    unfold item_ok; apply (bool_decide_eq_true_1 _); vm_compute; reflexivity.
Defined.

End Dump.

(** ** Device numbers *)
Module DeviceNumbers.
Import DevNode.

(** The kernel's decoding of a device number (glibc's [gnu_dev_major] and [gnu_dev_minor]). *)
Definition major_of (dev : Z) : Z :=
  Z.lor (Z.land (Z.shiftr dev 8) 0xfff) (Z.land (Z.shiftr dev 32) 0xfffff000).
Definition minor_of (dev : Z) : Z :=
  Z.lor (Z.land dev 0xff) (Z.land (Z.shiftr dev 12) 0xffffff00).

(** The bits of the masks. *)
Lemma mask_bits n : 0 <= n ->
  Z.testbit 0xfff n = bool_decide (n < 12) /\ Z.testbit 0xff n = bool_decide (n < 8)
  /\ Z.testbit 0xffffff00 n = bool_decide (8 <= n < 32) /\ Z.testbit 0xfffff000 n = bool_decide (12 <= n < 32).
Proof.
  intros Hn. destruct (decide (n < 32)) as [H|H].
  - assert (n ∈ seqZ 0 32) as Hin by (apply elem_of_seqZ; lia). clear Hn H. revert n Hin.
    apply list.Forall_forall. apply (bool_decide_eq_true_1 _). vm_compute. reflexivity.
  - rewrite !Z.bits_above_log2 by (cbn; lia). rewrite !bool_decide_eq_false_2 by lia. done.
Qed.

Lemma high_bits z k n : 0 <= z < 2 ^ k -> 0 <= k <= n -> Z.testbit z n = false.
Proof.
  intros Hz Hk. destruct (decide (z = 0)) as [->|]; [apply Z.bits_0|]. apply Z.bits_above_log2; [lia|].
  apply Z.log2_lt_pow2; [lia|]. eapply Z.lt_le_trans; [apply Hz|]. by apply Z.pow_le_mono_r; lia.
Qed.

(** A shifted field under a mask with bits [P], at the width of the machine word. *)
Lemma field_bits z mask k (P : Z -> bool) n : 0 <= k -> 0 <= n -> (forall m, 0 <= m -> Z.testbit mask m = P m) ->
  Z.testbit (uint64 (Z.shiftl (Z.land z mask) k)) n = (bool_decide (k <= n < 64) && P (n - k)) && Z.testbit z (n - k).
Proof.
  intros Hk Hn HP. unfold uint64. case_bool_decide as H; cbn [andb].
  - by rewrite Z.mod_pow2_bits_low, Z.shiftl_spec, Z.land_spec, HP, andb_comm by lia.
  - destruct (decide (n < 64)); [|by rewrite Z.mod_pow2_bits_high by lia].
    rewrite Z.mod_pow2_bits_low, Z.shiftl_spec by lia. by rewrite Z.testbit_neg_r by lia.
Qed.

Lemma ldiff_land z mask : Z.ldiff z mask = Z.land z (Z.lnot mask).
Proof. by rewrite <- Z.ldiff_land. Qed.

(** Bit [n] of a device number. *)
Lemma mkdev_bits major minor n : 0 <= major < 2 ^ 32 -> 0 <= minor < 2 ^ 32 -> 0 <= n ->
  Z.testbit (mkdev major minor) n =
    bool_decide (8 <= n < 20) && Z.testbit major (n - 8) || bool_decide (n < 8) && Z.testbit minor n
    || bool_decide (20 <= n < 44) && Z.testbit minor (n - 12) || bool_decide (44 <= n < 64) && Z.testbit major (n - 32).
Proof.
  intros HM Hm Hn. unfold mkdev. replace (uint64 major) with major by (unfold uint64; rewrite Z.mod_small; lia).
  replace (uint64 minor) with minor by (unfold uint64; rewrite Z.mod_small; lia). rewrite ldiff_land.
  unfold devMajorShiftLo, devMinorShiftHi, devMajorShiftHi, devMajorLowMask, devMinorLowMask, devMinorHiMask.
  rewrite !Z.lor_spec, Z.land_spec, (proj1 (proj2 (mask_bits n Hn))), (andb_comm _ (bool_decide (n < 8))).
  rewrite (field_bits major 0xfff 8 (fun m => bool_decide (m < 12))),
    (field_bits minor 0xffffff00 12 (fun m => bool_decide (8 <= m < 32))),
    (field_bits major (Z.lnot 0xfff) 32 (fun m => negb (bool_decide (m < 12)))) by (try lia; intros m H; rewrite ?Z.lnot_spec by done; try f_equal; by apply mask_bits).
  do 2 f_equal; [f_equal|..]; f_equal; repeat case_bool_decide; lia || done.
Qed.

(** The fields of a device number do not overlap. *)
Lemma mkdev_decodes major minor : 0 <= major < 2 ^ 32 -> 0 <= minor < 2 ^ 32 ->
  major_of (mkdev major minor) = major /\ minor_of (mkdev major minor) = minor.
Proof.
  intros HM Hm. unfold major_of, minor_of. split; apply Z.bits_inj'; intros n Hn.
  all: destruct (mask_bits n Hn) as (E1 & E2 & E3 & E4).
  all: rewrite Z.lor_spec, !Z.land_spec, ?Z.shiftr_spec, !mkdev_bits, ?E1, ?E2, ?E3, ?E4 by lia.
  all: rewrite ?Z.add_simpl_r.
  all: destruct (decide (n < 8)), (decide (n < 12)), (decide (n < 32)); try lia.
  all: repeat match goal with |- context [bool_decide ?P] =>
    first [rewrite (bool_decide_eq_true_2 P) by lia | rewrite (bool_decide_eq_false_2 P) by lia] end.
  all: rewrite ?(high_bits _ 32 n) by lia; cbn [andb orb]; rewrite ?andb_false_r, ?andb_true_r, ?orb_false_r; done.
Qed.

(** What the calls of [EnsureDeviceNode] do to the file at the path; [None] is a call that the
    kernel refuses. *)
Definition do_call (c : call) (fs : option file_info) : option (option file_info) :=
  match c, fs with
  | Remove, Some _ => Some None
  | Mknod dev, None => Some (Some (BlockDevice dev))
  | Chmod, Some info => Some (Some info)
  | _, _ => None
  end.
Fixpoint do_calls (cs : list call) (fs : option file_info) : option (option file_info) :=
  match cs with
  | [] => Some fs
  | c :: cs' => fs' ← do_call c fs; do_calls cs' fs'
  end.

(** When [EnsureDeviceNode] reports success, its calls were ones the kernel accepts and leave
    at the path a block device of DRBD's major and exactly this minor, whatever was there before
    (nothing, a regular file, another device); a node that was right is not touched. *)
Theorem EnsureDeviceNode_ensures fs answer minor calls :
  0 <= minor < 2 ^ 32 ->
  EnsureDeviceNode (Ok fs) answer minor = (calls, None) ->
  exists dev, do_calls calls fs = Some (Some (BlockDevice dev))
    /\ major_of dev = DRBDMajor /\ minor_of dev = minor
    /\ (calls = [] <-> fs = Some (BlockDevice dev)).
Proof.
  intros Hm H. exists (mkdev DRBDMajor minor).
  destruct (mkdev_decodes DRBDMajor minor) as [-> ->]; [unfold DRBDMajor; lia|done|].
  unfold EnsureDeviceNode, isCorrectBlockDevice in H.
  destruct fs as [[rdev|]|]; repeat (case_match; simplify_eq); try case_bool_decide; simplify_eq; split_and!; try done.
  all: split; intros; simplify_eq.
Qed.

Lemma EnsureDeviceNode_ensures_witness :
  exists dev, do_calls [Remove; Mknod dev; Chmod] (Some OtherFile) = Some (Some (BlockDevice dev))
    /\ major_of dev = 147 /\ minor_of dev = 20001.
Proof.
  destruct (EnsureDeviceNode_ensures (Some OtherFile) (fun _ => true) 20001
    [Remove; Mknod (mkdev DRBDMajor 20001); Chmod] ltac:(lia) eq_refl) as (dev & H1 & H2 & H3 & _).
  exists dev. cbn in H1. injection H1 as <-. split_and!; [reflexivity|exact H2|exact H3].
Defined.

End DeviceNumbers.

(** ** Event lines *)
Module EventLines.
Import Events.

Definition attribute (kv : string * string) : string := fst kv +:+ ":" +:+ snd kv.
Definition print_event (e : Event) : string :=
  Str.join " " (Action e :: Kind e :: map attribute (map_to_list (Fields e))).

Definition attribute_ok (k v : string) : Prop :=
  StrFacts.all_chars solid k = true /\ Str.contains_char ":" k = false /\ StrFacts.all_chars solid v = true.
Definition event_ok (e : Event) : Prop :=
  is_word (Action e) = true /\ is_word (Kind e) = true /\ ~ (Action e = "exists" /\ Kind e = "-")
  /\ map_Forall attribute_ok (Fields e).

Lemma attribute_word k v : attribute_ok k v -> is_word (attribute (k, v)) = true.
Proof.
  intros (Hk & _ & Hv). unfold attribute. cbn [fst snd].
  assert (StrFacts.all_chars solid (k +:+ ":" +:+ v) = true) as H by (rewrite !all_chars_app; by rewrite Hk, Hv).
  unfold is_word. destruct k; [done|]. exact H.
Qed.

Lemma add_attribute acc k v : attribute_ok k v -> add_field acc (attribute (k, v)) = <[k := v]> acc.
Proof. intros (_ & Hk & _). unfold add_field, attribute. cbn [fst snd]. change (":" +:+ v) with (String ":" v). by rewrite StrFacts.cut_app. Qed.

Lemma add_attributes l : forall acc, NoDup l.*1 -> Forall (fun kv => attribute_ok (fst kv) (snd kv)) l ->
  foldl add_field acc (map attribute l) = list_to_map l ∪ acc.
Proof.
  induction l as [|[k v] l IH]; intros acc; cbn [map foldl fmap list_fmap fst].
  - intros _ _. change (list_to_map []) with (∅ : gmap string string). by rewrite (left_id_L ∅ (∪)).
  - rewrite list.NoDup_cons, list.Forall_cons. intros [Hk Hnd] [Hok Hall].
    rewrite add_attribute, IH by done. cbn [list_to_map foldr uncurry].
    rewrite <- insert_union_l, insert_union_r; [done|]. by apply not_elem_of_list_to_map.
Qed.

(** An event line reads back: the action, the kind and every attribute, in whatever order
    they are printed, are the ones the parser answers. *)
Theorem ParseEvent_reads_back e : event_ok e -> ParseEvent (print_event e) = Ok e.
Proof.
  intros (Ha & Hk & Hm & Hf). unfold ParseEvent, print_event. rewrite fields_join.
  - destruct (bool_decide (Action e = "exists") && bool_decide (Kind e = "-")) eqn:E.
    + exfalso. apply Hm. by apply andb_true_iff in E as [->%bool_decide_eq_true ->%bool_decide_eq_true].
    + rewrite add_attributes; [|apply NoDup_fst_map_to_list|].
      * rewrite list_to_map_to_list, (right_id_L ∅ (∪)). by destruct e.
      * apply list.Forall_forall. intros [k v] H%elem_of_map_to_list. by apply Hf.
  - rewrite !list.Forall_cons, Forall_fmap. split_and!; [done..|]. apply list.Forall_forall.
    intros [k v] H%elem_of_map_to_list. by apply attribute_word, Hf.
Qed.

Lemma ParseEvent_reads_back_witness :
  ParseEvent (print_event (mkEvent "change" "device" {["name" := "pvc-1"; "volume" := "0"; "disk" := "UpToDate"]}))
    = Ok (mkEvent "change" "device" {["name" := "pvc-1"; "volume" := "0"; "disk" := "UpToDate"]})
  /\ ParseEvent "change device name:pvc-1 disk:UpToDate volume:0"
    = Ok (mkEvent "change" "device" {["name" := "pvc-1"; "volume" := "0"; "disk" := "UpToDate"]}).
Proof.
  split; [|vm_compute; reflexivity]. apply ParseEvent_reads_back. split_and!; [reflexivity|reflexivity|by intros [? ?]|].
  unfold attribute_ok. apply (bool_decide_eq_true_1 _). vm_compute. reflexivity.
Defined.

End EventLines.

(** ** The option catalogue *)
Module Flags.
Import Catalogue.

(** The block of the drbd.conf manual each flag belongs to. *)
Definition manual : list (string * list string) :=
  [("net", net_flags ++ map o_Name netOptions); ("disk", disk_flags ++ map o_Name diskOptions);
   ("peer-device", peer_device_flags ++ map o_Name peerDeviceOptions);
   ("options", resource_flags ++ map o_Name resourceOptions); ("handlers", handler_flags)].

Lemma FlagKey_domain name : is_Some (FlagKey name) <-> name ∈ FlagNames.
Proof.
  unfold FlagNames, FlagKey. rewrite sorted_keys_elem, lookup_union_is_Some, lookup_fmap, fmap_is_Some.
  destruct (list_find (fun opt => o_Name opt = name) Options) as [[i opt]|] eqn:E.
  - apply list_find_Some in E as (Ho & Hn & _). split; [intros _|by eauto]. left.
    exists tt. apply elem_of_list_to_map_1'; [by intros []|]. apply list_elem_of_fmap. exists opt. subst.
    split; [done|by eapply list_elem_of_lookup_2].
  - rewrite fmap_is_Some. split; [auto|]. intros [[u Hu]|]; [|done]. exfalso.
    apply list_find_None in E. apply elem_of_list_to_map_2, list_elem_of_fmap in Hu as (opt & [= ->] & Ho).
    rewrite list.Forall_forall in E. by eapply E.
Qed.

Lemma flags_routed : Forall (fun name => match FlagKey name with
    | Some key => exists block names, (block, names) ∈ manual /\ name ∈ names /\ SectionFor key = block
    | None => False end) FlagNames.
Proof.
  assert (forallb (fun name => match FlagKey name with
    | Some key => existsb (fun '(block, names) => bool_decide (name ∈ names) && bool_decide (SectionFor key = block)) manual
    | None => false end) FlagNames = true) as H by (vm_compute; reflexivity).
  rewrite forallb_forall in H. apply list.Forall_forall. intros name Hn%list_elem_of_In. apply H in Hn. clear H.
  destruct (FlagKey name) as [key|]; [|done]. apply existsb_exists in Hn as ([block names] & Hin & Hb).
  apply andb_true_iff in Hb as [?%bool_decide_eq_true ?%bool_decide_eq_true].
  exists block, names. split; [by apply list_elem_of_In|done].
Qed.

Lemma flag_tables_disjoint : NoDup (manual ≫= snd).
Proof. apply (bool_decide_eq_true_1 _). vm_compute. reflexivity. Qed.

(** Every flag the client offers is stored under a key that the renderer routes to the block
    of the configuration file the flag belongs to, no flag belongs to two blocks, and a flag of no
    block is refused. *)
Theorem FlagKey_routes name :
  NoDup (manual ≫= snd)
  /\ match FlagKey name with
     | Some key => name ∈ FlagNames /\ exists block names, (block, names) ∈ manual /\ name ∈ names /\ SectionFor key = block
     | None => name ∉ FlagNames
     end.
Proof.
  split; [apply flag_tables_disjoint|]. pose proof (FlagKey_domain name) as D. pose proof flags_routed as R.
  destruct (FlagKey name) as [key|] eqn:E.
  - assert (name ∈ FlagNames) as Hn by (apply D; eauto). split; [done|].
    rewrite list.Forall_forall in R. specialize (R name Hn). by rewrite E in R.
  - intros Hn%D. by destruct Hn.
Qed.

End Flags.
