(* ===== verification/Dispatcher.v ===== *)
(** * The dispatcher: from custom resources to what a satellite must bring up

    Models [pkg/dispatcher/dispatcher.go] and [connections.go] ([BuildDesired] and everything
    under it), the passphrase properties of [pkg/passphrase/passphrase.go], and the steps of
    [pkg/satellite/controllers/resource.go] and [luks_passphrase.go] that prepare its input
    (peer list, flags, allocation gate, internal addresses, LUKS passphrase). *)

From Stdlib Require Import Ascii.
From S2P Require Import Prelude Sha256 DrbdAlloc Api GoStrings DrbdStates DrbdOptions CrdName Kube.

(** ** The intent (pkg/satellite/intent/types.go) *)

Record DesiredPeer := mkDesiredPeer { dp_Name : string; dp_NodeID : option Z }.

Record DesiredConnectionPath := mkDesiredConnectionPath {
  dcp_Name : string;
  dcp_AddressA : string;
  dcp_AddressB : string;
}.

Record DesiredConnection := mkDesiredConnection {
  dc_NodeA : string;
  dc_NodeB : string;
  dc_Paths : list DesiredConnectionPath;
}.

Record DesiredVolume := mkDesiredVolume {
  dv_VolumeNumber : Z;
  dv_SizeKib : Z;
  dv_StoragePool : string;
  dv_SeedFromGI : string;
  dv_Minor : Z;
  dv_SourceSnapshot : string;
  dv_MetaPool : string;
  dv_ObservedGI : string;
}.

Record DesiredResource := mkDesiredResource {
  dr_Name : string;
  dr_NodeName : string;
  dr_Flags : list string;
  dr_Props : gmap string string;
  dr_Volumes : list DesiredVolume;
  dr_Peers : list DesiredPeer;
  dr_DrbdOptions : gmap string string;
  dr_LayerStack : list string;
  dr_Connections : list DesiredConnection;
  dr_MetadataCreated : bool;
  dr_FilesystemFormatted : bool;
  dr_KernelLoaded : bool;
  dr_PeerHasData : bool;
  dr_SkipInitialSync : option bool;
}.

(** ** The objects read *)

Record NodeNetInterface := mkNodeNetInterface { nni_Name : string; nni_Address : string }.

Record NodeCR := mkNodeCR {
  nd_Meta : ObjectMeta;
  nd_Props : gmap string string;
  nd_NetInterfaces : list NodeNetInterface;
  nd_SatelliteEndpoint : string;
}.

Record StoragePoolCR := mkStoragePoolCR {
  pl_NodeName : string;
  pl_PoolName : string;
  pl_Props : gmap string string;
}.

(** A map read of a missing key is the empty string. *)
Definition get (m : gmap string string) (k : string) : string := default "" (m !! k).

Definition diskless (r : ResourceCR) : bool := Contains (rs_Flags (rc_Spec r)) "DISKLESS".
Definition node_of (r : ResourceCR) : string := rs_NodeName (rc_Spec r).
Definition rd_of (r : ResourceCR) : string := rs_ResourceDefinitionName (rc_Spec r).

Definition drbdAddrAny : string := "0.0.0.0".
Definition boolPropTrue : string := "true".

(** ** Passphrase properties (pkg/passphrase) *)

Definition PropKeyCanonical : string := "DrbdOptions/EncryptPassphrase".
Definition PropKeyLegacy : string := "DrbdOptions/Encryption/passphrase".
Definition PropKeyVolume : string := "DrbdOptions/Encrypt/Passphrase".
Definition WirePropKey : string := "LuksPassphrase".

Definition IsPlaintextPropKey (key : string) : bool :=
  existsb (Str.equal_fold key) [PropKeyCanonical; PropKeyLegacy; PropKeyVolume; WirePropKey].

(** The map left, and the dropped keys that held a value. *)
Definition DropPlaintextProps (props : gmap string string) : gmap string string * list string :=
  (filter (fun kv => IsPlaintextPropKey kv.1 = false) props,
   sorted_keys (filter (fun kv => IsPlaintextPropKey kv.1 = true /\ kv.2 <> "") props)).

(** ** Identities *)

Definition nodeIDOf (r : ResourceCR) : Z :=
  match rs_DRBDNodeID (rc_Spec r) with
  | Some i => i
  | None => match rst_DRBDNodeID (rc_Status r) with Some i => i | None => -1 end
  end.

Definition idLookup (idOf : gmap string Z) (name : string) : option Z := idOf !! name.
Definition idValue (idOf : gmap string Z) (name : string) : Z := default 0 (idLookup idOf name).

Definition be16 (a b : Z) : Z := 256 * a + b.

Definition derivePort (rd : string) : Z :=
  match Sha256.Sum256 (Sha256.bytes_of_string rd) with
  | a :: b :: _ => 20000 + be16 a b `mod` 1000
  | _ => 20000
  end.

Definition deriveMinor (rd : string) : Z :=
  match Sha256.Sum256 (Sha256.bytes_of_string rd) with
  | _ :: _ :: c :: d :: _ => 20000 + be16 c d `mod` 9000
  | _ => 20000
  end.

Definition readDRBDPort (target : ResourceCR) : Z :=
  match rs_DRBDPort (rc_Spec target) with
  | Some p => p
  | None => match rst_DRBDPort (rc_Status target) with Some p => p | None => derivePort (rd_of target) end
  end.

Definition readDRBDMinor (target : ResourceCR) (rd : option ResourceDefinitionCR) : Z :=
  match rd ≫= fun rd => head (omap (fun vd => if bool_decide (rdv_VolumeNumber vd = 0) then rdv_DRBDMinor vd else None)
                             (rdc_VolumeDefinitions rd)) with
  | Some m => m
  | None => match rst_DRBDMinor (rc_Status target) with Some m => m | None => deriveMinor (rd_of target) end
  end.

Definition peerPortOf (r : ResourceCR) (fallback : Z) : Z :=
  match rs_DRBDPort (rc_Spec r) with
  | Some p => p
  | None => default fallback (rst_DRBDPort (rc_Status r))
  end.

(** ** Addresses *)

Definition targetPoolName (r : ResourceCR) : string :=
  if bool_decide (rs_StoragePool (rc_Spec r) <> "") then rs_StoragePool (rc_Spec r)
  else get (rs_Props (rc_Spec r)) "StorPoolName".

(** The first node with this LINSTOR name. *)
Definition find_node (nodeName : string) (nodes : list NodeCR) : option NodeCR :=
  snd <$> list_find (fun n => OriginalName (nd_Meta n) = nodeName) nodes.

Definition lookupPrefNic (nodeName poolName : string) (nodes : list NodeCR) (pools : list StoragePoolCR) : string :=
  let pooled :=
    if bool_decide (poolName = "") then ""
    else match list_find (fun p => pl_NodeName p = nodeName /\ pl_PoolName p = poolName) pools with
         | Some (_, p) => get (pl_Props p) "PrefNic"
         | None => ""
         end in
  if bool_decide (pooled <> "") then pooled
  else match find_node nodeName nodes with Some n => get (nd_Props n) "PrefNic" | None => "" end.

Definition lookupNetInterfaceAddress (nodeName ifaceName : string) (nodes : list NodeCR) : string :=
  match find_node nodeName nodes with
  | Some n => match list_find (fun i => nni_Name i = ifaceName) (nd_NetInterfaces n) with
              | Some (_, i) => nni_Address i
              | None => ""
              end
  | None => ""
  end.

Definition prefNicAddress (nodeName poolName : string) (nodes : list NodeCR) (pools : list StoragePoolCR) : string :=
  let prefNic := lookupPrefNic nodeName poolName nodes pools in
  if bool_decide (prefNic = "") then drbdAddrAny
  else let addr := lookupNetInterfaceAddress nodeName prefNic nodes in
       if bool_decide (addr = "") then drbdAddrAny else addr.

Definition kubeInternalNICName : string := "k8s-internal".
Definition defaultNICName : string := "default".

Definition preferredNetInterfaceAddress (ifaces : list NodeNetInterface) : string :=
  let named name := list_find (fun i => nni_Name i = name /\ nni_Address i <> "") ifaces in
  match named kubeInternalNICName with
  | Some (_, i) => nni_Address i
  | None =>
      match named defaultNICName with
      | Some (_, i) => nni_Address i
      | None => match list_find (fun i => nni_Address i <> "") ifaces with
                | Some (_, i) => nni_Address i
                | None => ""
                end
      end
  end.

Definition lookupEndpoint (nodeName : string) (nodes : list NodeCR) : string :=
  match find_node nodeName nodes with
  | Some n =>
      if bool_decide (nd_SatelliteEndpoint n <> "") then nd_SatelliteEndpoint n
      else let ep := get (nd_Props n) "SatelliteEndpoint" in
           if bool_decide (ep <> "") then ep else preferredNetInterfaceAddress (nd_NetInterfaces n)
  | None => ""
  end.

(** [endpoint[:strings.LastIndex(endpoint, c)]], the empty text when [c] is absent or first. *)
Definition before_last (c : ascii) (s : string) : string :=
  match Str.cut c (Str.rev s) with Some (_, r) => Str.rev r | None => "" end.

Definition peerAddress (nodeName : string) (nodes : list NodeCR) : string :=
  let endpoint := lookupEndpoint nodeName nodes in
  if bool_decide (endpoint = "") then drbdAddrAny
  else let host := before_last ":" endpoint in
       if bool_decide (host = "") then endpoint else host.

Definition peerAddressWithPrefNic (nodeName poolName : string) (nodes : list NodeCR)
    (pools : list StoragePoolCR) : string :=
  let prefNic := lookupPrefNic nodeName poolName nodes pools in
  let addr := if bool_decide (prefNic = "") then "" else lookupNetInterfaceAddress nodeName prefNic nodes in
  if bool_decide (addr <> "") then addr else peerAddress nodeName nodes.

(** ** Connections (connections.go) *)

Definition ResourceConnectionPathsPropPrefix : string := "Cozystack/ResourceConnectionPaths/".

Definition splitConnectionKey (propKey : string) : option (string * string) :=
  match Str.cut_prefix ResourceConnectionPathsPropPrefix propKey with
  | None => None
  | Some rest =>
      match Str.cut "/" rest with
      | None => None
      | Some (a, b) => if bool_decide (b = "") then None else Some (a, b)
      end
  end.

(** [decode]: [json.Unmarshal] of a list of string maps; [None] is an error. *)
Definition decodePathList (decode : string -> option (list (gmap string string))) (raw : string) :
    option (list DesiredConnectionPath) :=
  if bool_decide (raw = "") then None
  else match decode raw with
       | None | Some [] => None
       | Some wire => Some (map (fun entry => mkDesiredConnectionPath (get entry "name")
                                  (get entry "node_a_address") (get entry "node_b_address")) wire)
       end.

(** [sort.Slice] by a key: insertion sort, which is what it runs on up to twelve elements; with
    distinct keys every sort gives this list. *)
Section SortBy.
Context {A : Type} (before : A -> A -> bool).
Fixpoint insert_by (x : A) (l : list A) : list A :=
  match l with
  | [] => [x]
  | y :: rest => if before x y then x :: l else y :: insert_by x rest
  end.
Definition sort_by (l : list A) : list A := foldl (fun acc x => insert_by x acc) [] l.
End SortBy.

Definition path_before (p q : DesiredConnectionPath) : bool := String.ltb (dcp_Name p) (dcp_Name q).
Definition connection_before (c d : DesiredConnection) : bool :=
  if bool_decide (dc_NodeA c <> dc_NodeA d) then String.ltb (dc_NodeA c) (dc_NodeA d)
  else String.ltb (dc_NodeB c) (dc_NodeB d).

Definition connection_of (decode : string -> option (list (gmap string string))) (kv : string * string) :
    option DesiredConnection :=
  match splitConnectionKey kv.1, decodePathList decode kv.2 with
  | Some (a, b), Some paths => Some (mkDesiredConnection a b (sort_by path_before paths))
  | _, _ => None
  end.

Definition connectionsFromRD (decode : string -> option (list (gmap string string)))
    (rd : option ResourceDefinitionCR) : list DesiredConnection :=
  match rd with
  | None => []
  | Some rd => sort_by connection_before (omap (connection_of decode) (map_to_list (rdc_Props rd)))
  end.

(** ** Data and the election of the seeding replica *)

Definition rdInitialized (rd : option ResourceDefinitionCR) : bool :=
  match rd with
  | Some rd => match rdc_Initialized rd with Some b => b | None => false end
  | None => false
  end.

Definition isDay0SeededVolume (rdName : string) (vol : ResourceVolumeStatus) : bool :=
  if bool_decide (rvt_CurrentGI vol = "") then false
  else Str.equal_fold (rvt_CurrentGI vol) (GI.Day0GIFor rdName (rvt_VolumeNumber vol)).

Definition volume_holds_data (rdName : string) (vol : ResourceVolumeStatus) : bool :=
  one_of (rvt_DiskState vol) [Disk.DiskStateUpToDate; Disk.DiskStateConsistent; Disk.DiskStateOutdated]
  && negb (isDay0SeededVolume rdName vol).

Definition anyDiskfulPeerHasData (peers : list ResourceCR) : bool :=
  existsb (fun p => negb (Contains (rs_Flags (rc_Spec p)) ResourceFlagDiskless)
                    && existsb (volume_holds_data (rd_of p)) (rst_Volumes (rc_Status p))) peers.

Definition diskfulPeersAllocated (target : ResourceCR) (peers : list ResourceCR) : bool :=
  forallb (fun r => diskless r || bool_decide (0 <= nodeIDOf r)) (target :: peers).

Definition DiskfulPeersAllocated := diskfulPeersAllocated.

Definition sentinel : Z := 2 ^ 30.

Definition consider (low : Z) (r : ResourceCR) : Z :=
  if diskless r then low
  else let nodeID := nodeIDOf r in
       if bool_decide (nodeID < 0) then low else if bool_decide (nodeID < low) then nodeID else low.

Definition lowestDiskfulID (target : ResourceCR) (peers : list ResourceCR) : Z :=
  if negb (diskfulPeersAllocated target peers) then sentinel
  else foldl consider sentinel (target :: peers).

(** ** Volumes *)

Definition StorPoolNameDrbdMetaKey : string := "StorPoolNameDrbdMeta".
Definition restoreFromKey : string := "BlockstorRestoreFromSnapshot".

Definition resolveMetaPool (target : ResourceCR) (rd : ResourceDefinitionCR) : string :=
  let v := get (rs_Props (rc_Spec target)) StorPoolNameDrbdMetaKey in
  if bool_decide (v <> "") then v else get (rdc_Props rd) StorPoolNameDrbdMetaKey.

Definition seedFromGI (target : ResourceCR) (volumeNumber : Z) : string :=
  match list_find (fun v => rvs_VolumeNumber v = volumeNumber) (rs_Volumes (rc_Spec target)) with
  | Some (_, v) => rvs_SeedFromGI v
  | None => ""
  end.

Definition observedGI (target : ResourceCR) (volumeNumber : Z) : string :=
  match list_find (fun v => rvt_VolumeNumber v = volumeNumber) (rst_Volumes (rc_Status target)) with
  | Some (_, v) => rvt_CurrentGI v
  | None => ""
  end.

Definition default_pool (rd : ResourceDefinitionCR) (target : ResourceCR) : string :=
  let own := if bool_decide (rs_StoragePool (rc_Spec target) = "")
             then get (rs_Props (rc_Spec target)) "StorPoolName" else rs_StoragePool (rc_Spec target) in
  if negb (diskless target) && bool_decide (own = "") then get (rdc_Props rd) "StorPoolName" else own.

Definition buildVolumes (rd : option ResourceDefinitionCR) (target : ResourceCR) : list DesiredVolume :=
  match rd with
  | None => []
  | Some rd =>
      let rdPool := default_pool rd target in
      let metaPool := if diskless target then "" else resolveMetaPool target rd in
      let srcSnapshot := get (rdc_Props rd) restoreFromKey in
      map (fun vd =>
        let v := get (rdv_Props vd) "StorPoolName" in
        let pool := if negb (diskless target) && bool_decide (v <> "") then v else rdPool in
        mkDesiredVolume (rdv_VolumeNumber vd) (rdv_SizeKib vd) pool
          (seedFromGI target (rdv_VolumeNumber vd)) (default 0 (rdv_DRBDMinor vd)) srcSnapshot metaPool
          (observedGI target (rdv_VolumeNumber vd)))
        (rdc_VolumeDefinitions rd)
  end.

(** ** Assembly *)

(** A map of the replicas by node, the last one of a node winning. *)
Definition by_name (peers : list ResourceCR) : gmap string ResourceCR :=
  foldl (fun m p => <[node_of p := p]> m) ∅ peers.

Definition peer_key (peer field : string) : string := "peer." +:+ peer +:+ "." +:+ field.

Definition addPeerEntry (peers : gmap string ResourceCR) (nodes : list NodeCR) (pools : list StoragePoolCR)
    (fallbackPort : Z) (idOf : gmap string Z) (opts : gmap string string) (peer : string) : gmap string string :=
  let p := peers !! peer in
  let peerPort := match p with Some p => peerPortOf p fallbackPort | None => fallbackPort end in
  let peerPool := match p with Some p => targetPoolName p | None => "" end in
  let opts := <[peer_key peer "port" := format_int peerPort]> opts in
  let opts := <[peer_key peer "node-id" := format_int (idValue idOf peer)]> opts in
  let opts := <[peer_key peer "address" := peerAddressWithPrefNic peer peerPool nodes pools]> opts in
  if match p with Some p => diskless p | None => false end
  then <[peer_key peer "diskless" := boolPropTrue]> opts else opts.

Definition addPeerEntries (drbdOpts : gmap string string) (dropped : list string) (peers : list ResourceCR)
    (nodes : list NodeCR) (pools : list StoragePoolCR) (fallbackPort : Z) (idOf : gmap string Z) : gmap string string :=
  foldl (addPeerEntry (by_name peers) nodes pools fallbackPort idOf) drbdOpts dropped.

Definition buildDesiredPeers (dropped : list string) (peers : list ResourceCR) : list DesiredPeer :=
  map (fun name => mkDesiredPeer name
    (p ← by_name peers !! name; if bool_decide (0 <= nodeIDOf p) then Some (nodeIDOf p) else None)) dropped.

Definition pickLUKSPassphrase (opts : gmap string string) : string := get opts PropKeyCanonical.

(** The wire properties and the options; a nil bag ([None]) leaves both alone. *)
Definition mergeEffectiveProps (targetProps : gmap string string) (effectiveProps : option (gmap string string))
    (drbdOpts : gmap string string) : gmap string string * gmap string string :=
  match effectiveProps with
  | None => (targetProps, drbdOpts)
  | Some eff => (filter (fun kv => is_drbd kv.1 = false) eff, filter (fun kv => is_drbd kv.1 = true) eff ∪ drbdOpts)
  end.

Definition assembleDesired (decode : string -> option (list (gmap string string))) (target : ResourceCR)
    (peers : list ResourceCR) (rd : option ResourceDefinitionCR) (dropped : list string)
    (drbdOpts : gmap string string) (effectiveProps : option (gmap string string)) : DesiredResource :=
  let desiredPeers := buildDesiredPeers dropped peers in
  let '(wireProps, drbdOpts) := mergeEffectiveProps (rs_Props (rc_Spec target)) effectiveProps drbdOpts in
  let wireProps := (DropPlaintextProps wireProps).1 in
  let pass := pickLUKSPassphrase drbdOpts in
  let wireProps := if bool_decide (pass <> "") then <[WirePropKey := pass]> wireProps else wireProps in
  let drbdOpts := (DropPlaintextProps drbdOpts).1 in
  mkDesiredResource (rd_of target) (node_of target) (rs_Flags (rc_Spec target)) wireProps
    (buildVolumes rd target) desiredPeers drbdOpts (match rd with Some rd => rdc_LayerStack rd | None => [] end)
    (connectionsFromRD decode rd) false false false (anyDiskfulPeerHasData peers) (rs_SkipInitialSync (rc_Spec target)).

Definition add_id (m : gmap string Z) (r : ResourceCR) : gmap string Z :=
  if bool_decide (0 <= nodeIDOf r) then <[node_of r := nodeIDOf r]> m else m.

(** The ids of the target and of every active peer that has one. *)
Definition collect_ids (target : ResourceCR) (peers : list ResourceCR) : gmap string Z :=
  foldl (fun m p =>
    if bool_decide (node_of p = node_of target) then m
    else if Contains (rs_Flags (rc_Spec p)) ResourceFlagInactive then m
    else add_id m p) (add_id ∅ target) peers.

(** The condition of the election: this replica seeds the initial Primary. *)
Definition elects (target : ResourceCR) (peers : list ResourceCR) (rd : option ResourceDefinitionCR)
    (idOf : gmap string Z) : bool :=
  match idLookup idOf (node_of target) with
  | None => false
  | Some selfID =>
      negb (diskless target) && bool_decide (selfID = lowestDiskfulID target peers)
      && negb (rdInitialized rd) && negb (anyDiskfulPeerHasData peers)
  end.

Definition BuildDesired (decode : string -> option (list (gmap string string))) (target : ResourceCR)
    (peers : list ResourceCR) (nodes : list NodeCR) (pools : list StoragePoolCR)
    (rd : option ResourceDefinitionCR) (effectiveProps : option (gmap string string)) : DesiredResource :=
  let port := readDRBDPort target in
  let minor := readDRBDMinor target rd in
  let idOf := collect_ids target peers in
  let dropped := sorted_keys (delete (node_of target) idOf) in
  let drbdOpts : gmap string string := {[
    "port" := format_int port;
    "address" := prefNicAddress (node_of target) (targetPoolName target) nodes pools;
    "minor" := format_int minor ]} in
  let drbdOpts := match idLookup idOf (node_of target) with
                  | Some id => <["node-id" := format_int id]> drbdOpts
                  | None => drbdOpts
                  end in
  let drbdOpts := if elects target peers rd idOf then <["auto-primary" := boolPropTrue]> drbdOpts else drbdOpts in
  let drbdOpts := addPeerEntries drbdOpts dropped peers nodes pools port idOf in
  assembleDesired decode target peers rd dropped drbdOpts effectiveProps.

(** ** The satellite's preparation (pkg/satellite/controllers) *)

(** [listPeerResources]: every replica of the definition, the target included. *)
Definition listPeerResources (all : list ResourceCR) (target : ResourceCR) : list ResourceCR :=
  filter (fun r => rd_of r = rd_of target) all.

Definition with_flags (r : ResourceCR) (flags : list string) : ResourceCR :=
  with_spec r (with_pool (rc_Spec r) flags (rs_StoragePool (rc_Spec r)) (rs_Props (rc_Spec r))).

Definition adoptAuthoritativeFlags (target : ResourceCR) (peers : list ResourceCR) : ResourceCR :=
  match list_find (fun p => node_of p = node_of target /\ rd_of p = rd_of target) peers with
  | Some (_, p) => with_flags target (rs_Flags (rc_Spec p))
  | None => target
  end.

Definition rdNeedsDRBD (rd : ResourceDefinitionCR) : bool :=
  bool_decide (rdc_LayerStack rd = []) || Contains (rdc_LayerStack rd) "DRBD".

Definition expectedPeerNamesFor (target : ResourceCR) (peers : list ResourceCR) : list string :=
  filter (fun name => name <> "" /\ name <> node_of target) (map node_of peers).

Definition volNumsOf (rd : ResourceDefinitionCR) : list Z := map rdv_VolumeNumber (rdc_VolumeDefinitions rd).

Definition status_allocated (r : ResourceCR) : bool :=
  match rst_DRBDNodeID (rc_Status r), rst_DRBDPort (rc_Status r), rst_DRBDMinor (rc_Status r) with
  | Some _, Some _, Some _ => true
  | _, _, _ => false
  end.

(** [fresh]: the answer of the uncached read; [None] is a failed read. *)
Definition refreshTargetFromAPIReader (res : ResourceCR) (fresh : option ResourceCR) : ResourceCR * bool :=
  match fresh with
  | None => (res, false)
  | Some f =>
      if status_allocated f then
        (with_status res (with_status_ids (rc_Status res) (rst_DRBDNodeID (rc_Status f))
           (rst_DRBDPort (rc_Status f)) (rst_DRBDMinor (rc_Status f))), true)
      else (res, false)
  end.

Inductive gate := WaitForSelf | WaitForPeers | Proceed (res : ResourceCR).

Definition waitForControllerAllocation (res : ResourceCR) (fresh : option ResourceCR) (peers : list ResourceCR) : gate :=
  let '(res, ok) := if status_allocated res then (res, true) else refreshTargetFromAPIReader res fresh in
  if negb ok then WaitForSelf
  else if negb (DiskfulPeersAllocated res peers) then WaitForPeers
  else Proceed res.

Definition peersMissingNodeID (target : ResourceCR) (peers : list ResourceCR) : list string :=
  map node_of (filter (fun p => node_of p <> node_of target
    /\ Contains (rs_Flags (rc_Spec p)) ResourceFlagDiskless = false /\ rst_DRBDNodeID (rc_Status p) = None) peers).

(** The nodes of Kubernetes, by name, with their addresses by type. *)
Record CoreNode := mkCoreNode { cn_Name : string; cn_Addresses : list (string * string) }.

Definition internal_ip (n : CoreNode) : option string :=
  (fun '(_, (_, a)) => a) <$> list_find (fun '(t, a) => t = "InternalIP" /\ a <> "") (cn_Addresses n).

Definition internalIPByName (cores : list CoreNode) : gmap string string :=
  foldl (fun m n => match internal_ip n with Some a => <[cn_Name n := a]> m | None => m end) ∅ cores.

Definition with_interfaces (n : NodeCR) (ifs : list NodeNetInterface) : NodeCR :=
  mkNodeCR (nd_Meta n) (nd_Props n) ifs (nd_SatelliteEndpoint n).

Definition enrichNodesWithInternalIP (nodes : list NodeCR) (cores : list CoreNode) : list NodeCR :=
  map (fun n =>
    match internalIPByName cores !! meta_Name (nd_Meta n) with
    | None => n
    | Some ip =>
        if bool_decide (ip = "") then n
        else if existsb (fun i => bool_decide (nni_Name i = kubeInternalNICName)) (nd_NetInterfaces n) then n
        else with_interfaces n (nd_NetInterfaces n ++ [mkNodeNetInterface kubeInternalNICName ip])
    end) nodes.

Definition layerStackHasLUKS (stack : list string) : bool := existsb (fun l => Str.equal_fold l "LUKS") stack.

(** [secret]: the answer of [passphrase.Read], [None] being an error; [namespace] empty skips it. *)
Definition injectLUKSMasterPassphrase (rd : option ResourceDefinitionCR) (namespace : string)
    (secret : option string) (effectiveProps : gmap string string) : gmap string string :=
  let eff := (DropPlaintextProps effectiveProps).1 in
  match rd with
  | None => eff
  | Some rd =>
      if negb (layerStackHasLUKS (rdc_LayerStack rd)) then eff
      else if bool_decide (namespace = "") then eff
      else match secret with
           | Some pass => if bool_decide (pass = "") then eff else <[PropKeyCanonical := pass]> eff
           | None => eff
           end
  end.
