(* ===== verification/DispatcherProps.v ===== *)
(** * What the dispatcher guarantees

    Of the desired state [BuildDesired] makes for each replica of a definition: exactly one
    replica is told to seed the initial Primary, what one replica is told of another is what
    that one is told of itself, and the LUKS passphrase reaches the LUKS layer from the Secret
    and goes nowhere else. *)

From Stdlib Require Import Ascii.
From S2P Require Import Prelude DrbdAlloc Api GoStrings DrbdStates DrbdOptions CrdName Kube ReplicaIds ReplicaIdsProps Dispatcher.

(** ** Option keys *)

Definition peer_fields : list string := ["port"; "node-id"; "address"; "diskless"].

(** The field is what follows the last dot. *)
Lemma last_dot_inj p q f g : Str.contains_char "." f = false -> Str.contains_char "." g = false ->
  p +:+ String "." f = q +:+ String "." g -> p = q /\ f = g.
Proof.
  intros Hf Hg. revert q. induction p as [|c p IH]; intros [|d q].
  - intros [= ->]. done.
  - rewrite StrFacts.app_cons. intros [= <- E]. exfalso. rewrite E, StrFacts.contains_char_app in Hf. cbn in Hf.
    by rewrite orb_true_r in Hf.
  - rewrite StrFacts.app_cons. intros [= -> E]. exfalso. rewrite <- E, StrFacts.contains_char_app in Hg. cbn in Hg.
    by rewrite orb_true_r in Hg.
  - rewrite !StrFacts.app_cons. intros [= <- [-> ->]%IH]. done.
Qed.

Lemma peer_key_inj p q f g : f ∈ peer_fields -> g ∈ peer_fields ->
  peer_key p f = peer_key q g -> p = q /\ f = g.
Proof.
  assert (forall f, f ∈ peer_fields -> Str.contains_char "." f = false) as H.
  { apply list.Forall_forall. apply (bool_decide_eq_true_1 _). vm_compute. reflexivity. }
  intros Hf%H Hg%H E. unfold peer_key in E. injection E as E. by apply last_dot_inj.
Qed.

(** A key that is neither a DRBD property nor a passphrase. *)
Definition plain_key (k : string) : bool := negb (is_drbd k) && negb (IsPlaintextPropKey k).

Lemma equal_fold_head c s d t : Str.lower_ascii c <> Str.lower_ascii d -> Str.equal_fold (String c s) (String d t) = false.
Proof. intros H. unfold Str.equal_fold, Str.to_lower. apply bool_decide_eq_false. cbn. congruence. Qed.

Lemma peer_key_plain p f : plain_key (peer_key p f) = true.
Proof.
  unfold plain_key, IsPlaintextPropKey. cbn [existsb]. unfold PropKeyCanonical, PropKeyLegacy, PropKeyVolume, WirePropKey, peer_key.
  change ("peer." +:+ ?x) with (String "p" ("eer." +:+ x)). rewrite !equal_fold_head by done. done.
Qed.

(** What [assembleDesired] leaves of a plain key. *)
Lemma assemble_plain decode target peers rd dropped opts eff k : plain_key k = true ->
  dr_DrbdOptions (assembleDesired decode target peers rd dropped opts eff) !! k = opts !! k.
Proof.
  intros [Hd Hp]%andb_true_iff. apply negb_true_iff in Hd, Hp. unfold assembleDesired, mergeEffectiveProps.
  assert (forall m : gmap string string, (DropPlaintextProps m).1 !! k = m !! k) as HD.
  { intros m. unfold DropPlaintextProps. cbn [fst]. rewrite map_lookup_filter. destruct (m !! k) as [v|]; [|done]. cbn.
    by rewrite option_guard_True. }
  destruct eff as [eff|]; cbn [dr_DrbdOptions]; rewrite HD; [|done].
  rewrite lookup_union, map_lookup_filter. destruct (eff !! k) as [v|]; cbn; [|by destruct (opts !! k)].
  rewrite option_guard_False by (cbn; congruence). by destruct (opts !! k).
Qed.

(** The keys of one peer, and no others, are set by its entry. *)
Lemma addPeerEntry_other peers nodes pools fb ids opts p k :
  (forall f, f ∈ peer_fields -> k <> peer_key p f) -> addPeerEntry peers nodes pools fb ids opts p !! k = opts !! k.
Proof.
  intros H. unfold addPeerEntry.
  assert (forall f v (m : gmap string string), f ∈ peer_fields -> <[peer_key p f := v]> m !! k = m !! k) as L.
  { intros f v m Hf. apply lookup_insert_ne. intros E. by eapply H. }
  destruct (match peers !! p with Some p => diskless p | None => false end); rewrite ?L by (unfold peer_fields; set_solver); done.
Qed.

Lemma addPeerEntry_fields peers nodes pools fb ids opts p :
  let o := addPeerEntry peers nodes pools fb ids opts p in
  o !! peer_key p "port" = Some (format_int (match peers !! p with Some r => peerPortOf r fb | None => fb end))
  /\ o !! peer_key p "node-id" = Some (format_int (idValue ids p))
  /\ o !! peer_key p "diskless" =
       (if match peers !! p with Some r => diskless r | None => false end then Some boolPropTrue else opts !! peer_key p "diskless").
Proof.
  assert (forall f g v (m : gmap string string), f ∈ peer_fields -> g ∈ peer_fields -> f <> g ->
    <[peer_key p f := v]> m !! peer_key p g = m !! peer_key p g) as L.
  { intros f g v m Hf Hg Hne. apply lookup_insert_ne. intros E. by apply peer_key_inj in E as [_ ?]. }
  unfold addPeerEntry. cbv zeta.
  destruct (match peers !! p with Some p => diskless p | None => false end);
    split_and!; repeat first [rewrite lookup_insert_eq | rewrite L by (unfold peer_fields; set_solver)]; done.
Qed.

Lemma addPeerEntries_other opts dropped peers nodes pools fb ids k :
  (forall p f, p ∈ dropped -> f ∈ peer_fields -> k <> peer_key p f) ->
  addPeerEntries opts dropped peers nodes pools fb ids !! k = opts !! k.
Proof.
  unfold addPeerEntries. revert opts. induction dropped as [|p l IH]; intros opts H; [done|].
  cbn [foldl]. rewrite IH by (intros; apply H; set_solver). apply addPeerEntry_other. intros f Hf. apply H; set_solver.
Qed.

Lemma addPeerEntries_peer opts dropped peers nodes pools fb ids p f :
  p ∈ dropped -> f ∈ peer_fields -> NoDup dropped -> exists opts',
  addPeerEntries opts dropped peers nodes pools fb ids !! peer_key p f
    = addPeerEntry (by_name peers) nodes pools fb ids opts' p !! peer_key p f
  /\ opts' !! peer_key p f = opts !! peer_key p f.
Proof.
  intros Hp Hf. unfold addPeerEntries. revert opts. induction dropped as [|q l IH]; intros opts; [by apply elem_of_nil in Hp|].
  rewrite list.NoDup_cons. intros [Hq Hnd]. cbn [foldl]. destruct (decide (p = q)) as [->|Hne].
  - exists opts. split; [|done]. apply (addPeerEntries_other _ l peers nodes pools fb ids).
    intros p' f' Hp' Hf' E. apply peer_key_inj in E as [-> _]; done.
  - apply elem_of_cons in Hp as [|Hp]; [done|]. destruct (IH Hp (addPeerEntry (by_name peers) nodes pools fb ids opts q) Hnd) as (o & E1 & E2).
    exists o. split; [exact E1|]. rewrite E2. apply addPeerEntry_other. intros f' Hf' E. by apply peer_key_inj in E as [? _].
Qed.

(** ** The ids collected *)

Definition active (r : ResourceCR) : bool := negb (Contains (rs_Flags (rc_Spec r)) ResourceFlagInactive).
Definition id_if_allocated (r : ResourceCR) : option Z := if bool_decide (0 <= nodeIDOf r) then Some (nodeIDOf r) else None.

Lemma add_id_lookup m r k : add_id m r !! k = if bool_decide (k = node_of r /\ 0 <= nodeIDOf r) then Some (nodeIDOf r) else m !! k.
Proof.
  unfold add_id. destruct (decide (k = node_of r)) as [->|Hne].
  - case_bool_decide; [rewrite lookup_insert_eq, bool_decide_eq_true_2; done|rewrite bool_decide_eq_false_2; tauto].
  - rewrite (bool_decide_eq_false_2 (_ /\ _)) by tauto. case_bool_decide; [by rewrite lookup_insert_ne|done].
Qed.

Lemma collect_other target ps m k : (forall p, p ∈ ps -> node_of p = k -> node_of p = node_of target) ->
  foldl (fun m p => if bool_decide (node_of p = node_of target) then m
    else if Contains (rs_Flags (rc_Spec p)) ResourceFlagInactive then m else add_id m p) m ps !! k = m !! k.
Proof.
  revert m. induction ps as [|q ps IH]; intros m H; [done|]. cbn [foldl]. rewrite IH by (intros; apply H; set_solver).
  case_bool_decide as E; [done|]. destruct (Contains _ _); [done|]. rewrite add_id_lookup.
  rewrite bool_decide_eq_false_2; [done|]. intros [-> _]. apply E, H; set_solver.
Qed.

Lemma collect_self target ps : collect_ids target ps !! node_of target = id_if_allocated target.
Proof.
  unfold collect_ids. rewrite collect_other by done. rewrite add_id_lookup. unfold id_if_allocated.
  repeat case_bool_decide; tauto || by rewrite lookup_empty.
Qed.

Lemma collect_peer target ps p : NoDup (node_of <$> ps) -> p ∈ ps -> node_of p <> node_of target ->
  collect_ids target ps !! node_of p = if active p then id_if_allocated p else None.
Proof.
  intros Hnd Hp Hne. unfold collect_ids. apply list_elem_of_split in Hp as (l1 & l2 & ->).
  rewrite fmap_app, fmap_cons in Hnd. apply list.NoDup_app in Hnd as (_ & Hd & [H2 _]%list.NoDup_cons).
  rewrite foldl_app. cbn [foldl]. rewrite collect_other.
  2:{ intros q Hq Eq. exfalso. apply H2. rewrite <- Eq. by apply list_elem_of_fmap_2. }
  rewrite bool_decide_eq_false_2 by done. unfold active.
  assert (forall m : gmap string Z, foldl (fun m p => if bool_decide (node_of p = node_of target) then m
    else if Contains (rs_Flags (rc_Spec p)) ResourceFlagInactive then m else add_id m p) m l1 !! node_of p = m !! node_of p) as H1.
  { intros m. apply collect_other. intros q Hq Eq. exfalso. eapply Hd; [|rewrite <- Eq; by left].
    by apply list_elem_of_fmap_2. }
  destruct (Contains _ _); cbn [negb].
  - rewrite H1, add_id_lookup, bool_decide_eq_false_2; [apply lookup_empty|]. intros [? _]. done.
  - rewrite add_id_lookup, H1, add_id_lookup. unfold id_if_allocated.
    rewrite (bool_decide_eq_false_2 (node_of p = node_of target /\ _)) by (by intros [? _]).
    repeat case_bool_decide; tauto || apply lookup_empty.
Qed.

Lemma by_name_lookup ps p : NoDup (node_of <$> ps) -> p ∈ ps -> by_name ps !! node_of p = Some p.
Proof.
  intros Hnd Hp. unfold by_name. apply list_elem_of_split in Hp as (l1 & l2 & ->).
  rewrite fmap_app, fmap_cons in Hnd. apply list.NoDup_app in Hnd as (_ & _ & [H2 _]%list.NoDup_cons).
  rewrite foldl_app. cbn [foldl]. set (m := <[_ := _]> _).
  assert (m !! node_of p = Some p) as H by apply lookup_insert_eq. revert H. generalize m. clear m.
  induction l2 as [|q l2 IH]; intros m H; [done|]. cbn [foldl]. rewrite fmap_cons, elem_of_cons in H2.
  apply IH; [tauto|]. rewrite lookup_insert_ne; [done|]. intros E. apply H2. by left.
Qed.

(** ** The options of a desired state *)

Section Options.
Context (decode : string -> option (list (gmap string string))) (nodes : list NodeCR) (pools : list StoragePoolCR)
  (rd : option ResourceDefinitionCR) (eff : option (gmap string string)).
Notation desired t ps := (BuildDesired decode t ps nodes pools rd eff).

Definition own_keys : list string := ["port"; "address"; "minor"; "node-id"; "auto-primary"].

Lemma own_key_free k p f : k ∈ own_keys -> k <> peer_key p f.
Proof.
  unfold own_keys, peer_key. change ("peer." +:+ ?x) with (String "p" (String "e" ("er." +:+ x))).
  intros Hk E. subst. repeat (apply elem_of_cons in Hk as [Hk|Hk]; [discriminate Hk|]). by apply elem_of_nil in Hk.
Qed.

Lemma own_key_plain k : k ∈ own_keys -> plain_key k = true.
Proof. revert k. apply list.Forall_forall. apply (bool_decide_eq_true_1 _). vm_compute. reflexivity. Qed.

Lemma desired_own t ps k : k ∈ own_keys ->
  dr_DrbdOptions (desired t ps) !! k =
    (let m : gmap string string := {[ "port" := format_int (readDRBDPort t);
       "address" := prefNicAddress (node_of t) (targetPoolName t) nodes pools;
       "minor" := format_int (readDRBDMinor t rd) ]} in
     let m := match id_if_allocated t with Some id => <["node-id" := format_int id]> m | None => m end in
     if elects t ps rd (collect_ids t ps) then <["auto-primary" := boolPropTrue]> m else m) !! k.
Proof.
  intros Hk. unfold BuildDesired. rewrite assemble_plain by (by apply own_key_plain).
  rewrite addPeerEntries_other by (intros; by apply own_key_free). unfold idLookup. by rewrite collect_self.
Qed.

Lemma desired_port t ps : dr_DrbdOptions (desired t ps) !! "port" = Some (format_int (readDRBDPort t)).
Proof.
  rewrite desired_own by (unfold own_keys; set_solver). cbv zeta.
  destruct (elects _ _ _ _), (id_if_allocated t); rewrite ?lookup_insert_ne by done; apply lookup_insert_eq.
Qed.

Lemma desired_node_id t ps : dr_DrbdOptions (desired t ps) !! "node-id" = format_int <$> id_if_allocated t.
Proof.
  rewrite desired_own by (unfold own_keys; set_solver). cbv zeta.
  destruct (elects _ _ _ _), (id_if_allocated t); rewrite ?(lookup_insert_ne _ "auto-primary") by done; by rewrite ?lookup_insert_eq.
Qed.

Lemma desired_auto t ps : dr_DrbdOptions (desired t ps) !! "auto-primary"
  = if elects t ps rd (collect_ids t ps) then Some boolPropTrue else None.
Proof.
  rewrite desired_own by (unfold own_keys; set_solver). cbv zeta.
  destruct (elects _ _ _ _); [by rewrite lookup_insert_eq|].
  destruct (id_if_allocated t); rewrite ?lookup_insert_ne by done; done.
Qed.

Lemma sorted_dropped t ps : NoDup (sorted_keys (delete (node_of t) (collect_ids t ps))).
Proof. apply sorted_keys_NoDup. Qed.

Lemma dropped_elem t ps p : NoDup (node_of <$> ps) -> p ∈ ps -> node_of p <> node_of t ->
  node_of p ∈ sorted_keys (delete (node_of t) (collect_ids t ps)) <-> active p = true /\ 0 <= nodeIDOf p.
Proof.
  intros Hnd Hp Hne. rewrite sorted_keys_elem, lookup_delete_ne, collect_peer by done. unfold id_if_allocated.
  destruct (active p); [|split; [by intros [? ?]|by intros [? _]]]. case_bool_decide; naive_solver.
Qed.

Lemma desired_peer t ps p f : NoDup (node_of <$> ps) -> p ∈ ps -> node_of p <> node_of t ->
  active p = true -> 0 <= nodeIDOf p -> f ∈ peer_fields -> exists opts,
  dr_DrbdOptions (desired t ps) !! peer_key (node_of p) f
    = addPeerEntry (by_name ps) nodes pools (readDRBDPort t) (collect_ids t ps) opts (node_of p) !! peer_key (node_of p) f
  /\ opts !! peer_key (node_of p) f = None.
Proof.
  intros Hnd Hp Hne Ha Hid Hf. unfold BuildDesired. rewrite assemble_plain by apply peer_key_plain.
  lazymatch goal with |- context [addPeerEntries ?o ?d ?a ?b ?c ?e ?i] =>
    destruct (addPeerEntries_peer o d a b c e i (node_of p) f) as (o' & E1 & E2);
      [by apply dropped_elem|done|apply sorted_dropped|] end.
  exists o'. split; [exact E1|]. rewrite E2. clear E1 E2. unfold idLookup. rewrite collect_self.
  destruct (elects _ _ _ _), (id_if_allocated t);
    rewrite ?lookup_insert_ne by (intros E; eapply own_key_free, E; unfold own_keys; set_solver); apply lookup_empty || done.
Qed.
End Options.

(** ** The election *)

Lemma consider_spec l : forall low,
  (foldl consider low l = low \/ exists r, r ∈ l /\ diskless r = false /\ 0 <= nodeIDOf r /\ foldl consider low l = nodeIDOf r)
  /\ foldl consider low l <= low
  /\ (forall r, r ∈ l -> diskless r = false -> 0 <= nodeIDOf r -> foldl consider low l <= nodeIDOf r).
Proof.
  induction l as [|q l IH]; intros low; cbn [foldl]; [split; [by left|]; split; [done|]; by intros r Hr%elem_of_nil|].
  destruct (IH (consider low q)) as (H1 & H2 & H3).
  assert (consider low q <= low /\ (diskless q = false -> 0 <= nodeIDOf q -> consider low q <= nodeIDOf q)
    /\ (consider low q = low \/ diskless q = false /\ 0 <= nodeIDOf q /\ consider low q = nodeIDOf q)) as (C1 & C2 & C3).
  { unfold consider. destruct (diskless q); [split_and!; [lia|done|by left]|].
    repeat case_bool_decide; split_and!; try lia; (by left) || (right; split_and!; lia || done). }
  split_and!.
  - destruct H1 as [->|(r & Hr & ?)]; [|right; exists r; set_solver].
    destruct C3 as [->|?]; [by left|right; exists q; set_solver].
  - lia.
  - intros r [->|Hr]%elem_of_cons Hd Hi; [specialize (C2 Hd Hi); lia|auto].
Qed.

(** A replica seeds the initial Primary when every diskful replica has an id and its own is the
    least, the definition has never held data, and no diskful replica reports data. *)
Definition seeds (t : ResourceCR) (ps : list ResourceCR) (rd : option ResourceDefinitionCR) : Prop :=
  diskless t = false
  /\ (forall r, r ∈ t :: ps -> diskless r = false -> 0 <= nodeIDOf t <= nodeIDOf r)
  /\ rdInitialized rd = false /\ anyDiskfulPeerHasData ps = false.

Lemma elects_seeds t ps rd : (forall r, r ∈ t :: ps -> nodeIDOf r < sentinel) ->
  elects t ps rd (collect_ids t ps) = true <-> seeds t ps rd.
Proof.
  intros Hs. unfold elects, idLookup, seeds. rewrite collect_self. unfold id_if_allocated.
  destruct (consider_spec (t :: ps) sentinel) as (Hmin & _ & Hle). unfold lowestDiskfulID.
  pose proof (Hs t ltac:(set_solver)) as Ht.
  destruct (diskfulPeersAllocated t ps) eqn:Ea; cbn [negb].
  - unfold diskfulPeersAllocated in Ea. rewrite forallb_forall in Ea.
    assert (forall r, r ∈ t :: ps -> diskless r = false -> 0 <= nodeIDOf r) as Hal.
    { intros r Hr%list_elem_of_In Hd. apply Ea in Hr. rewrite Hd in Hr. by apply bool_decide_eq_true in Hr. }
    case_bool_decide as Hid; [|split; [done|intros (Hd & H & _); specialize (H t ltac:(set_solver) Hd); lia]].
    rewrite !andb_true_iff, !negb_true_iff, bool_decide_eq_true. split.
    + intros [[[Hd E] Hi] Hp]. split_and!; [done| |done..]. intros r Hr Hdr. split; [lia|]. rewrite E. auto.
    + intros (Hd & H & Hi & Hp). split_and!; [done| |done..].
      destruct Hmin as [E|(r & Hr & Hdr & Hir & E)]; [specialize (Hle t ltac:(set_solver) Hd Hid); lia|].
      specialize (Hle t ltac:(set_solver) Hd Hid). specialize (H r Hr Hdr). lia.
  - case_bool_decide as Hid; [|split; [done|intros (Hd & H & _); specialize (H t ltac:(set_solver) Hd); lia]].
    rewrite (bool_decide_eq_false_2 (nodeIDOf t = sentinel)) by lia. rewrite andb_false_r. split; [done|].
    intros (Hd & H & _). exfalso. assert (diskfulPeersAllocated t ps = true); [|congruence].
    apply forallb_forall. intros r Hr%list_elem_of_In. destruct (diskless r) eqn:Hdr; [done|].
    apply bool_decide_eq_true. specialize (H r Hr Hdr). lia.
Qed.

(** ** The satellite's pass, from a cached replica to its desired state *)

(** [all]: the replicas of the uncached list; [fresh]: the uncached read of the replica. *)
Definition satellite_pass decode (all : list ResourceCR) (nodes : list NodeCR) (pools : list StoragePoolCR)
    (rd : ResourceDefinitionCR) eff (res : ResourceCR) (fresh : option ResourceCR) : option DesiredResource :=
  let peers := listPeerResources all res in
  let res := adoptAuthoritativeFlags res peers in
  let build res := Some (BuildDesired decode res peers nodes pools (Some rd) eff) in
  if rdNeedsDRBD rd then
    match waitForControllerAllocation res fresh peers with
    | Proceed res => build res
    | WaitForSelf | WaitForPeers => None
    end
  else build res.

Definition replicas (v : kview) : list ResourceCR := (map_to_list (v_resources v)).*2.

(** The status copy of an id is the id. *)
Definition mirrored (v : kview) : Prop := forall n r i j, v_resources v !! n = Some r ->
  rs_DRBDNodeID (rc_Spec r) = Some i -> rst_DRBDNodeID (rc_Status r) = Some j -> i = j.

Lemma nodeIDOf_eff r : nodeIDOf r = default (-1) (eff_id r).
Proof. unfold nodeIDOf, eff_id, orElse. by destruct (rs_DRBDNodeID (rc_Spec r)), (rst_DRBDNodeID (rc_Status r)). Qed.

(** Flags do not touch identities. *)
Lemma adopt_eff res ps : eff_id (adoptAuthoritativeFlags res ps) = eff_id res /\ rd_of (adoptAuthoritativeFlags res ps) = rd_of res
  /\ rs_DRBDNodeID (rc_Spec (adoptAuthoritativeFlags res ps)) = rs_DRBDNodeID (rc_Spec res).
Proof. unfold adoptAuthoritativeFlags. by destruct (list_find _ _) as [[i p]|]. Qed.

(** Past the gate, the id the pass works with is the id the API server holds, or none. *)
Lemma gate_id v n cur res fresh ps res' :
  mirrored v -> v_resources v !! n = Some cur -> grows res cur -> (fresh = None \/ fresh = Some cur) ->
  waitForControllerAllocation (adoptAuthoritativeFlags res ps) fresh ps = Proceed res' ->
  forall i, eff_id res' = Some i -> eff_id cur = Some i.
Proof.
  intros Hm Hv (_ & _ & _ & Hspec & _ & Hid & _) Hf. unfold waitForControllerAllocation.
  destruct (adopt_eff res ps) as (E1 & _ & E2). set (a := adoptAuthoritativeFlags res ps) in *. clearbody a.
  destruct (status_allocated a).
  - cbn [negb]. case_match; [done|]. intros [= <-] i Hi. apply Hid. congruence.
  - destruct Hf as [->| ->]; [done|]. unfold refreshTargetFromAPIReader.
    destruct (status_allocated cur) eqn:Es; [|done]. cbn [negb]. case_match; [done|]. intros [= <-] i.
    unfold eff_id, orElse. cbn. rewrite E2.
    destruct (rs_DRBDNodeID (rc_Spec res)) as [j|] eqn:Ej; [intros [= <-]; by rewrite (Hspec j)|].
    intros Hi. destruct (rs_DRBDNodeID (rc_Spec cur)) as [k|] eqn:Ek; [|done]. f_equal. by eapply Hm.
Qed.

(** A node holds one replica of a definition. *)
Definition placed_once (v : kview) : Prop := forall n m r r', v_resources v !! n = Some r -> v_resources v !! m = Some r' ->
  rd_of r = rd_of r' -> node_of r = node_of r' -> n = m.
Definition small_ids (v : kview) : Prop := forall n r i, v_resources v !! n = Some r -> eff_id r = Some i -> i < sentinel.

Lemma replicas_elem v r : r ∈ replicas v <-> exists n, v_resources v !! n = Some r.
Proof.
  unfold replicas. rewrite list_elem_of_fmap. split.
  - intros ([n r'] & -> & H%elem_of_map_to_list). eauto.
  - intros [n H%elem_of_map_to_list]. by exists (n, r).
Qed.

(** What a pass past the gate works with: a replica with the node, the definition and the flags
    of the current object, and its id. *)
Definition tracks (v : kview) (c t : ResourceCR) : Prop :=
  rd_of t = rd_of c /\ node_of t = node_of c /\ diskless t = diskless c
  /\ (forall i, eff_id t = Some i -> eff_id c = Some i).

Lemma adopt_tracks v n c res all : placed_once v -> v_resources v !! n = Some c -> all ≡ₚ replicas v -> grows res c ->
  let t := adoptAuthoritativeFlags res (listPeerResources all res) in
  rd_of t = rd_of c /\ node_of t = node_of c /\ diskless t = diskless c.
Proof.
  intros Hp Hc Hall (_ & Erd & Enode & _). unfold adoptAuthoritativeFlags, listPeerResources. cbv zeta.
  assert (rd_of res = rd_of c /\ node_of res = node_of c) as [E1 E2] by done. rewrite E1, E2.
  destruct (list_find _ _) as [[i p]|] eqn:E.
  - apply list_find_Some in E as (Hi & [En Er] & _). apply list_elem_of_lookup_2, list_elem_of_filter in Hi as [_ Hi].
    rewrite Hall, replicas_elem in Hi. destruct Hi as [m Hm].
    pose proof (Hp m n p c Hm Hc Er En) as ->. simplify_eq. by split_and!.
  - exfalso. apply list_find_None in E. rewrite list.Forall_forall in E. apply (E c); [|done].
    apply list_elem_of_filter. split; [done|]. rewrite Hall, replicas_elem. eauto.
Qed.

Lemma pass_tracks decode all nodes pools rd eff v n c res fresh d :
  mirrored v -> placed_once v -> v_resources v !! n = Some c -> all ≡ₚ replicas v -> grows res c ->
  (fresh = None \/ fresh = Some c) -> rdNeedsDRBD rd = true ->
  satellite_pass decode all nodes pools rd eff res fresh = Some d ->
  exists t, tracks v c t /\ d = BuildDesired decode t (listPeerResources all res) nodes pools (Some rd) eff.
Proof.
  intros Hm Hp Hc Hall Hg Hf Hrd. unfold satellite_pass. rewrite Hrd.
  destruct (waitForControllerAllocation _ _ _) as [| |t] eqn:E; [done..|]. intros [= <-]. exists t. split; [|done].
  pose proof (gate_id v n c res fresh _ t Hm Hc Hg Hf E) as Hid.
  destruct (adopt_tracks v n c res all Hp Hc Hall Hg) as (E1 & E2 & E3).
  set (a := adoptAuthoritativeFlags _ _) in *. clearbody a. unfold tracks.
  assert (rd_of t = rd_of a /\ node_of t = node_of a /\ diskless t = diskless a) as (-> & -> & ->); [|done].
  unfold waitForControllerAllocation, refreshTargetFromAPIReader in E. repeat (case_match; simplify_eq); done.
Qed.

Lemma pass_ids_small v n c t all res : small_ids v -> v_resources v !! n = Some c -> all ≡ₚ replicas v ->
  (forall i, eff_id t = Some i -> eff_id c = Some i) ->
  forall r, r ∈ t :: listPeerResources all res -> nodeIDOf r < sentinel.
Proof.
  intros Hs Hc Hall HI r [->|Hr]%elem_of_cons; rewrite nodeIDOf_eff.
  - destruct (eff_id t) as [i|] eqn:E; [|by vm_compute]. apply (Hs n c i Hc). by apply HI.
  - apply list_elem_of_filter in Hr as [_ Hr]. rewrite Hall, replicas_elem in Hr. destruct Hr as [m Hr].
    destruct (eff_id r) as [i|] eqn:E; [by apply (Hs m r i)|by vm_compute].
Qed.

Lemma peer_listed v n c c' res all : v_resources v !! n = Some c -> all ≡ₚ replicas v -> grows res c' -> rd_of c' = rd_of c ->
  c ∈ listPeerResources all res.
Proof.
  intros Hc Hall (_ & Er & _) E. apply list_elem_of_filter. split; [unfold rd_of in *; congruence|].
  rewrite Hall, replicas_elem. eauto.
Qed.

(** Of the replicas of one definition, at most one is told to seed the initial Primary. The
    satellites read the same state of the API server, each starting from a cached copy of its own
    replica that may be old; identities are as the controller keeps them. *)
Lemma one_seed_per_definition decode v n1 n2 c1 c2 r1 r2 f1 f2 all1 all2 nodes1 nodes2 pools1 pools2 rd1 rd2 eff1 eff2 d1 d2 :
  good v -> mirrored v -> placed_once v -> small_ids v ->
  n1 <> n2 -> v_resources v !! n1 = Some c1 -> v_resources v !! n2 = Some c2 -> rd_of c1 = rd_of c2 ->
  all1 ≡ₚ replicas v -> all2 ≡ₚ replicas v -> grows r1 c1 -> grows r2 c2 ->
  (f1 = None \/ f1 = Some c1) -> (f2 = None \/ f2 = Some c2) ->
  rdNeedsDRBD rd1 = true -> rdNeedsDRBD rd2 = true ->
  satellite_pass decode all1 nodes1 pools1 rd1 eff1 r1 f1 = Some d1 ->
  satellite_pass decode all2 nodes2 pools2 rd2 eff2 r2 f2 = Some d2 ->
  dr_DrbdOptions d1 !! "auto-primary" = None \/ dr_DrbdOptions d2 !! "auto-primary" = None.
Proof.
  intros (_ & Hclash & _) Hm Hp Hs Hn H1 H2 Erd Ha1 Ha2 Hg1 Hg2 Hf1 Hf2 Hd1 Hd2 P1 P2.
  destruct (pass_tracks _ _ _ _ _ _ v n1 c1 _ _ _ Hm Hp H1 Ha1 Hg1 Hf1 Hd1 P1) as (t1 & (R1 & N1 & D1 & I1) & ->).
  destruct (pass_tracks _ _ _ _ _ _ v n2 c2 _ _ _ Hm Hp H2 Ha2 Hg2 Hf2 Hd2 P2) as (t2 & (R2 & N2 & D2 & I2) & ->).
  rewrite !desired_auto.
  destruct (elects t1 _ _ _) eqn:E1; [|by left]. destruct (elects t2 _ _ _) eqn:E2; [|by right]. exfalso.
  apply elects_seeds in E1 as (S1 & L1 & _); [|exact (pass_ids_small v n1 c1 t1 all1 r1 Hs H1 Ha1 I1)].
  apply elects_seeds in E2 as (S2 & L2 & _); [|exact (pass_ids_small v n2 c2 t2 all2 r2 Hs H2 Ha2 I2)].
  pose proof (peer_listed v n2 c2 c1 r1 all1 H2 Ha1 Hg1 Erd) as C2.
  pose proof (peer_listed v n1 c1 c2 r2 all2 H1 Ha2 Hg2 (eq_sym Erd)) as C1.
  pose proof (L1 c2 ltac:(set_solver) ltac:(congruence)) as [X1 X2]. pose proof (L2 c1 ltac:(set_solver) ltac:(congruence)) as [X3 X4].
  rewrite !nodeIDOf_eff in *.
  destruct (eff_id t1) as [i1|] eqn:F1; [|cbn in X1; lia]. destruct (eff_id t2) as [i2|] eqn:F2; [|cbn in X3; lia].
  pose proof (I1 i1 eq_refl) as G1. pose proof (I2 i2 eq_refl) as G2. rewrite G1, G2 in *. cbn in *.
  destruct (Hclash n1 c1 H1) as (Hfree & _). eapply (Hfree i1 G1 n2 c2); [by apply not_eq_sym|done|done|]. rewrite G2. f_equal. lia.
Qed.

(** A fresh definition is seeded: when some replica is diskful, every diskful one has its id,
    and none has held data, then one of them is told to seed the initial Primary. *)
Theorem fresh_definition_gets_a_seed decode nodes pools rd eff ps :
  (exists r, r ∈ ps /\ diskless r = false) ->
  (forall r, r ∈ ps -> diskless r = false -> 0 <= nodeIDOf r) ->
  (forall r, r ∈ ps -> nodeIDOf r < sentinel) ->
  rdInitialized rd = false -> anyDiskfulPeerHasData ps = false ->
  exists t, t ∈ ps /\ diskless t = false
    /\ dr_DrbdOptions (BuildDesired decode t ps nodes pools rd eff) !! "auto-primary" = Some boolPropTrue.
Proof.
  intros (r & Hr & Hd) Hal Hs Hi Hp. destruct (consider_spec ps sentinel) as ([E|(t & Ht & Hdt & _ & E)] & _ & Hle).
  - specialize (Hle r Hr Hd (Hal r Hr Hd)). specialize (Hs r Hr). lia.
  - exists t. split_and!; [done..|]. rewrite desired_auto.
    rewrite (proj2 (elects_seeds t ps rd ltac:(intros q [->|Hq]%elem_of_cons; auto))); [done|].
    split_and!; [done| |done..]. intros q [->|Hq]%elem_of_cons Hdq; [specialize (Hal t Ht Hdt); lia|].
    specialize (Hle q Hq Hdq (Hal q Hq Hdq)). specialize (Hal t Ht Hdt). lia.
Qed.

Lemma assemble_peers decode target peers rd dropped opts eff :
  dr_Peers (assembleDesired decode target peers rd dropped opts eff) = buildDesiredPeers dropped peers.
Proof. unfold assembleDesired. by destruct (mergeEffectiveProps _ _ _). Qed.

(** What a replica is told of an active peer is what that peer is told of itself: its node
    id and its port, and that it is diskless exactly when it is. *)
Theorem peers_agree decode ps a b nodes nodes' pools pools' rd rd' eff eff' p :
  NoDup (node_of <$> ps) -> a ∈ ps -> b ∈ ps -> node_of a <> node_of b ->
  active b = true -> 0 <= nodeIDOf b -> eff_port b = Some p ->
  let A := BuildDesired decode a ps nodes pools rd eff in
  let B := BuildDesired decode b ps nodes' pools' rd' eff' in
  dr_DrbdOptions A !! peer_key (node_of b) "node-id" = dr_DrbdOptions B !! "node-id"
  /\ dr_DrbdOptions A !! peer_key (node_of b) "port" = dr_DrbdOptions B !! "port"
  /\ (dr_DrbdOptions A !! peer_key (node_of b) "diskless" = Some boolPropTrue <-> diskless b = true)
  /\ mkDesiredPeer (node_of b) (Some (nodeIDOf b)) ∈ dr_Peers A.
Proof.
  intros Hnd Ha Hb Hne Hact Hid Hport A B. apply not_eq_sym in Hne.
  assert (by_name ps !! node_of b = Some b) as Hn by (by apply by_name_lookup).
  assert (forall f, f ∈ peer_fields -> exists opts, dr_DrbdOptions A !! peer_key (node_of b) f
    = addPeerEntry (by_name ps) nodes pools (readDRBDPort a) (collect_ids a ps) opts (node_of b) !! peer_key (node_of b) f
    /\ opts !! peer_key (node_of b) f = None) as H by (intros f Hf; by apply desired_peer).
  destruct (H "node-id" ltac:(unfold peer_fields; set_solver)) as (o1 & -> & _).
  destruct (H "port" ltac:(unfold peer_fields; set_solver)) as (o2 & -> & _).
  destruct (H "diskless" ltac:(unfold peer_fields; set_solver)) as (o3 & -> & E3). clear H.
  destruct (addPeerEntry_fields (by_name ps) nodes pools (readDRBDPort a) (collect_ids a ps) o1 (node_of b)) as (_ & -> & _).
  destruct (addPeerEntry_fields (by_name ps) nodes pools (readDRBDPort a) (collect_ids a ps) o2 (node_of b)) as (-> & _ & _).
  destruct (addPeerEntry_fields (by_name ps) nodes pools (readDRBDPort a) (collect_ids a ps) o3 (node_of b)) as (_ & _ & ->).
  unfold B. rewrite desired_node_id, desired_port, E3, Hn. unfold idValue, idLookup. rewrite collect_peer, Hact by done.
  unfold id_if_allocated. rewrite bool_decide_eq_true_2 by done. cbn [default fmap option_fmap option_map]. split_and!; [done| | |].
  - f_equal. f_equal. unfold peerPortOf, readDRBDPort, eff_port, orElse in *. destruct (rs_DRBDPort (rc_Spec b)); [done|]. by rewrite Hport.
  - destruct (diskless b); split; done.
  - unfold A, BuildDesired. rewrite assemble_peers. unfold buildDesiredPeers. apply list_elem_of_fmap. exists (node_of b). split; [|by apply dropped_elem].
    rewrite Hn. cbn. by rewrite bool_decide_eq_true_2.
Qed.

(** ** The passphrase *)

Lemma drop_lookup (m : gmap string string) k v : (DropPlaintextProps m).1 !! k = Some v <-> m !! k = Some v /\ IsPlaintextPropKey k = false.
Proof. unfold DropPlaintextProps. cbn. by rewrite map_lookup_filter_Some. Qed.

Lemma canonical_plaintext : IsPlaintextPropKey PropKeyCanonical = true /\ is_drbd PropKeyCanonical = true.
Proof. by vm_compute. Qed.

Lemma inject_canonical rd namespace secret props v :
  injectLUKSMasterPassphrase (Some rd) namespace secret props !! PropKeyCanonical = Some v <->
  secret = Some v /\ v <> "" /\ namespace <> "" /\ layerStackHasLUKS (rdc_LayerStack rd) = true.
Proof.
  unfold injectLUKSMasterPassphrase.
  assert ((DropPlaintextProps props).1 !! PropKeyCanonical = None) as Hn.
  { destruct (_ !! _) as [w|] eqn:E; [|done]. apply drop_lookup in E as [_ E]. by rewrite (proj1 canonical_plaintext) in E. }
  destruct (layerStackHasLUKS _); cbn [negb]; [|rewrite Hn; naive_solver].
  case_bool_decide; [rewrite Hn; naive_solver|]. destruct secret as [w|]; [|rewrite Hn; naive_solver].
  case_bool_decide; [rewrite Hn; naive_solver|]. rewrite lookup_insert_eq. naive_solver.
Qed.

Lemma canonical_not_written (base : gmap string string) dropped peers nodes pools fb ids :
  base !! PropKeyCanonical = None -> addPeerEntries base dropped peers nodes pools fb ids !! PropKeyCanonical = None.
Proof. intros H. rewrite addPeerEntries_other; [done|]. intros p f _ _. by intros [=]. Qed.

Lemma assemble_wire decode target peers rd dropped opts eff : opts !! PropKeyCanonical = None ->
  let D := assembleDesired decode target peers rd dropped opts (Some eff) in
  (forall k, IsPlaintextPropKey k = true -> dr_DrbdOptions D !! k = None)
  /\ (forall k v, IsPlaintextPropKey k = true -> dr_Props D !! k = Some v ->
        k = WirePropKey /\ v <> "" /\ eff !! PropKeyCanonical = Some v)
  /\ (forall v, eff !! PropKeyCanonical = Some v -> v <> "" -> dr_Props D !! WirePropKey = Some v).
Proof.
  intros Ho. unfold assembleDesired, mergeEffectiveProps. cbn [dr_DrbdOptions dr_Props].
  assert (pickLUKSPassphrase (filter (fun kv => is_drbd kv.1 = true) eff ∪ opts) = get eff PropKeyCanonical) as ->.
  { unfold pickLUKSPassphrase, get. rewrite lookup_union, Ho, map_lookup_filter, (right_id_L None _). f_equal.
    destruct (eff !! PropKeyCanonical); [|done]. cbn. by rewrite option_guard_True by apply canonical_plaintext. }
  assert (forall m : gmap string string, forall k, IsPlaintextPropKey k = true -> (DropPlaintextProps m).1 !! k = None) as Hd.
  { intros m k Hk. apply eq_None_not_Some. intros [w [_ E]%drop_lookup]. congruence. }
  split_and!; [intros k; apply Hd| |].
  - intros k v Hk. unfold get. case_bool_decide as Hp; [|by rewrite Hd].
    destruct (decide (k = WirePropKey)) as [->|Hne]; [|by rewrite lookup_insert_ne, Hd].
    rewrite lookup_insert_eq. intros [= <-]. destruct (eff !! PropKeyCanonical); [by split_and!|done].
  - intros v Hv Hne. unfold get. rewrite Hv. cbn [default]. rewrite bool_decide_eq_true_2 by done. apply lookup_insert_eq.
Qed.

(** The passphrase of the Secret reaches the LUKS layer of a definition that has one, under
    the wire key; no property an operator set reaches it, under any spelling of any of the four
    keys, and no key that holds a passphrase is among the options written to the resource file. *)
Theorem passphrase_only_from_secret decode target peers nodes pools rd namespace secret props :
  let D := BuildDesired decode target peers nodes pools (Some rd)
             (Some (injectLUKSMasterPassphrase (Some rd) namespace secret props)) in
  (forall k, IsPlaintextPropKey k = true -> dr_DrbdOptions D !! k = None)
  /\ (forall k v, IsPlaintextPropKey k = true -> dr_Props D !! k = Some v ->
        k = WirePropKey /\ secret = Some v /\ v <> "" /\ layerStackHasLUKS (rdc_LayerStack rd) = true)
  /\ (forall v, secret = Some v -> v <> "" -> namespace <> "" -> layerStackHasLUKS (rdc_LayerStack rd) = true ->
        dr_Props D !! WirePropKey = Some v).
Proof.
  intros D. unfold D, BuildDesired. clear D. cbv zeta.
  set (base := if elects _ _ _ _ then _ else _). assert (base !! PropKeyCanonical = None) as Hb.
  { unfold base. destruct (elects _ _ _ _), (idLookup _ _); rewrite ?lookup_insert_ne by done; apply lookup_empty || done. }
  edestruct (assemble_wire decode target peers (Some rd)) as (H1 & H2 & H3); [by apply canonical_not_written|].
  split_and!; [exact H1| |].
  - intros k v Hk Hv. destruct (H2 k v Hk Hv) as (-> & Hne & E%inject_canonical). naive_solver.
  - intros v Hs Hne Hns Hl. apply H3; [|done]. by apply inject_canonical.
Qed.

(** ** Connections *)

Lemma ltb_leb s t : String.ltb s t = negb (String.leb t s).
Proof. unfold String.ltb, String.leb. rewrite (String.compare_antisym s t). by destruct (String.compare t s). Qed.

(** The order of the sort: not after. *)
Definition connection_le (c d : DesiredConnection) : Prop := connection_before d c = false.

Lemma connection_le_spec c d : connection_le c d <->
  (dc_NodeA c <> dc_NodeA d /\ str_le (dc_NodeA c) (dc_NodeA d)) \/ (dc_NodeA c = dc_NodeA d /\ str_le (dc_NodeB c) (dc_NodeB d)).
Proof.
  unfold connection_le, connection_before, str_le. case_bool_decide as E; rewrite ltb_leb, negb_false_iff.
  - split; [left; split; [congruence|done]|]. intros [[_ H]|[H _]]; [done|congruence].
  - split; [right; split; [congruence|done]|]. intros [[H _]|[_ H]]; [congruence|done].
Qed.

#[global] Instance connection_le_trans : Transitive connection_le.
Proof.
  intros c d e. rewrite !connection_le_spec. intros [[N1 L1]|[N1 L1]] [[N2 L2]|[N2 L2]].
  - left. assert (str_le (dc_NodeA c) (dc_NodeA e)) as L by (by etrans). split; [|done].
    intros E. apply N1. apply (anti_symm str_le); [done|]. by rewrite E.
  - left. rewrite <- N2. done.
  - left. rewrite N1. done.
  - right. split; [congruence|]. by etrans.
Qed.

Lemma connection_le_total c d : connection_le c d \/ connection_le d c.
Proof.
  rewrite !connection_le_spec. destruct (decide (dc_NodeA c = dc_NodeA d)) as [E|E].
  - destruct (str_le_total (dc_NodeB c) (dc_NodeB d)); naive_solver.
  - destruct (str_le_total (dc_NodeA c) (dc_NodeA d)); naive_solver.
Qed.

Lemma insert_by_perm {A} (before : A -> A -> bool) x l : insert_by before x l ≡ₚ x :: l.
Proof. induction l as [|y l IH]; cbn; [done|]. destruct (before x y); [done|]. rewrite IH. apply Permutation_swap. Qed.

Lemma sort_by_perm {A} (before : A -> A -> bool) l : sort_by before l ≡ₚ l.
Proof.
  unfold sort_by. enough (forall acc, foldl (fun acc x => insert_by before x acc) acc l ≡ₚ acc ++ l) as H by apply (H []).
  induction l as [|x l IH]; intros acc; cbn; [by rewrite app_nil_r|]. rewrite IH, insert_by_perm. apply Permutation_middle.
Qed.

Lemma insert_connection_sorted c l : StronglySorted connection_le l -> StronglySorted connection_le (insert_by connection_before c l).
Proof.
  induction 1 as [|d l Hs IH Hd]; cbn; [by repeat constructor|]. destruct (connection_before c d) eqn:E.
  - assert (connection_le c d) as L by (destruct (connection_le_total c d) as [|L]; [done|]; unfold connection_le in L; congruence).
    constructor; [by constructor|]. constructor; [done|]. eapply list.Forall_impl; [exact Hd|]. intros e He. by etrans.
  - constructor; [done|]. apply list.Forall_forall. intros e He. rewrite insert_by_perm in He.
    apply elem_of_cons in He as [->|He]; [done|]. rewrite list.Forall_forall in Hd. auto.
Qed.

Lemma sort_connections_sorted l : StronglySorted connection_le (sort_by connection_before l).
Proof.
  unfold sort_by. enough (forall acc, StronglySorted connection_le acc ->
    StronglySorted connection_le (foldl (fun acc x => insert_by connection_before x acc) acc l)) as H by (apply H; constructor).
  induction l as [|c l IH]; intros acc H; cbn; [done|]. by apply IH, insert_connection_sorted.
Qed.

(** The pair of nodes determines the property. *)
Lemma splitConnectionKey_inj k k' a b : splitConnectionKey k = Some (a, b) -> splitConnectionKey k' = Some (a, b) -> k = k'.
Proof.
  assert (forall k, splitConnectionKey k = Some (a, b) -> k = ResourceConnectionPathsPropPrefix +:+ a +:+ String "/" b) as H.
  { intros q. unfold splitConnectionKey. destruct (Str.cut_prefix _ q) as [r|] eqn:E1; [|done].
    destruct (Str.cut "/" r) as [[x y]|] eqn:E2; [|done]. case_bool_decide; [done|]. intros [= -> ->].
    apply StrFacts.cut_prefix_Some in E1 as ->. apply StrFacts.cut_Some in E2 as [-> _]. done. }
  intros ->%H ->%H. done.
Qed.

(** The connections of a definition do not depend on the order in which its properties are
    read, are sorted by their nodes, and are those of the properties that hold a path list. *)
Theorem connections_canonical decode rd l :
  l ≡ₚ map_to_list (rdc_Props rd) ->
  sort_by connection_before (omap (connection_of decode) l) = connectionsFromRD decode (Some rd)
  /\ StronglySorted connection_le (connectionsFromRD decode (Some rd))
  /\ (forall c, c ∈ connectionsFromRD decode (Some rd) <->
        exists k v, rdc_Props rd !! k = Some v /\ connection_of decode (k, v) = Some c).
Proof.
  intros Hl. split_and!; [|apply sort_connections_sorted|].
  - unfold connectionsFromRD. apply (StronglySorted_unique_strong connection_le).
    + intros c d Hc Hd L1 L2. rewrite sort_by_perm, list_elem_of_omap in Hc, Hd.
      destruct Hc as ([k v] & Hk & Ec), Hd as ([k' v'] & Hk' & Ed). rewrite Hl in Hk. apply elem_of_map_to_list in Hk, Hk'.
      unfold connection_of in Ec, Ed. cbn in *.
      destruct (splitConnectionKey k) as [[a b]|] eqn:Sk, (splitConnectionKey k') as [[a' b']|] eqn:Sk'; try done.
      destruct (decodePathList decode v) eqn:Pv, (decodePathList decode v') eqn:Pv'; try done. simplify_eq.
      rewrite connection_le_spec in L1, L2. cbn in *.
      assert (a = a' /\ b = b') as [-> ->].
      { destruct L1 as [[N M]|[-> M]], L2 as [[N' M']|[N' M']]; try congruence;
          [exfalso; apply N; by apply (anti_symm str_le)|split; [done|by apply (anti_symm str_le)]]. }
      pose proof (splitConnectionKey_inj _ _ _ _ Sk Sk') as ->. congruence.
    + apply sort_connections_sorted.
    + apply sort_connections_sorted.
    + rewrite !sort_by_perm. by apply omap_Permutation.
  - intros c. unfold connectionsFromRD. rewrite sort_by_perm, list_elem_of_omap. split.
    + intros ([k v] & H%elem_of_map_to_list & E). eauto.
    + intros (k & v & H%elem_of_map_to_list & E). eauto.
Qed.

(** * The dispatcher on a concrete cluster

    Two diskful replicas and a diskless one of a fresh definition: the theorems of
    [DispatcherProps] at work, and an address the dispatcher cuts short. *)

From S2P Require Import Prelude Api CrdName Kube ReplicaIdsProps ReplicaProps ReplicaExamples Dispatcher.

Definition no_paths : string -> option (list (gmap string string)) := fun _ => None.

Definition ready_status (id port : Z) : ResourceStatus := mkResourceStatus false (Some id) (Some port) (Some 20000) [] [].

Definition first : ResourceCR := replica "pvc" "n1" (Some 0) (Some 20000) (Some true) [] (ready_status 0 20000).
Definition second : ResourceCR := replica "pvc" "n2" (Some 1) (Some 20001) (Some true) [] (ready_status 1 20001).
Definition witness : ResourceCR := replica "pvc" "n3" (Some 2) (Some 20000) None ["DISKLESS"] (ready_status 2 20000).
(** The first replica as an old cache may hold it: before its identities were filled in. *)
Definition first_cached : ResourceCR := replica "pvc" "n1" None None None [] blank_status.

Definition fresh_rd : ResourceDefinitionCR := definition "pvc" [volume 0 (Some 20000)].
Definition fresh_view : kview := view_of [first; second; witness] [fresh_rd].

Definition passed (res : ResourceCR) (cur : ResourceCR) : option DesiredResource :=
  satellite_pass no_paths (replicas fresh_view) [] [] fresh_rd (Some ∅) res (Some cur).

Lemma fresh_view_facts : good fresh_view /\ mirrored fresh_view /\ placed_once fresh_view /\ small_ids fresh_view.
Proof.
  split; [apply good_check_good, (bool_decide_eq_true_1 _); by vm_compute|].
  assert (map_Forall (fun n r => (rs_DRBDNodeID (rc_Spec r) = rst_DRBDNodeID (rc_Status r))
      /\ default 0 (eff_id r) < sentinel
      /\ map_Forall (fun m r' => n = m \/ node_of r <> node_of r') (v_resources fresh_view)) (v_resources fresh_view)) as H.
  { apply (bool_decide_eq_true_1 _). by vm_compute. }
  split_and!.
  - intros n r i j Hr E1 E2. destruct (H n r Hr) as (E & _). congruence.
  - intros n m r r' Hr Hr' _ E. destruct (H n r Hr) as (_ & _ & Ho). destruct (Ho m r' Hr'); [done|congruence].
  - intros n r i Hr E. destruct (H n r Hr) as (_ & Hs & _). by rewrite E in Hs.
Qed.

Lemma first_grows : grows first_cached first.
Proof. by split_and!. Qed.
Lemma second_grows : grows second second.
Proof. split_and!; done || by intros x. Qed.

Lemma one_seed_per_definition_witness :
  exists d1 d2, passed first_cached first = Some d1 /\ passed second second = Some d2
    /\ dr_DrbdOptions d1 !! "auto-primary" = Some "true"
    /\ (dr_DrbdOptions d1 !! "auto-primary" = None \/ dr_DrbdOptions d2 !! "auto-primary" = None).
Proof.
  destruct fresh_view_facts as (Hg & Hm & Hp & Hs).
  destruct (passed first_cached first) as [d1|] eqn:E1; [|vm_compute in E1; discriminate E1].
  destruct (passed second second) as [d2|] eqn:E2; [|vm_compute in E2; discriminate E2].
  exists d1, d2. split; [reflexivity|]. split; [reflexivity|]. split.
  { assert ((d ← passed first_cached first; dr_DrbdOptions d !! "auto-primary") = Some "true") as H by (vm_compute; reflexivity).
    rewrite E1 in H. exact H. }
  apply (one_seed_per_definition no_paths fresh_view "pvc.n1" "pvc.n2" first second first_cached second (Some first) (Some second)
    (replicas fresh_view) (replicas fresh_view) [] [] [] [] fresh_rd fresh_rd (Some ∅) (Some ∅) d1 d2 Hg Hm Hp Hs);
    try reflexivity; try assumption.
  - discriminate.
  - apply first_grows.
  - apply second_grows.
  - right. reflexivity.
  - right. reflexivity.
Defined.

Definition cluster : list ResourceCR := [first; second; witness].

Lemma fresh_definition_gets_a_seed_witness :
  exists t, t ∈ cluster /\ diskless t = false
    /\ dr_DrbdOptions (BuildDesired no_paths t cluster [] [] (Some fresh_rd) None) !! "auto-primary" = Some boolPropTrue.
Proof.
  apply fresh_definition_gets_a_seed.
  - exists first. split; [left|reflexivity].
  - apply (proj1 (list.Forall_forall (fun r => diskless r = false -> 0 <= nodeIDOf r) cluster)).
    apply (bool_decide_eq_true_1 _). vm_compute. reflexivity.
  - apply (proj1 (list.Forall_forall (fun r => nodeIDOf r < sentinel) cluster)).
    apply (bool_decide_eq_true_1 _). vm_compute. reflexivity.
  - reflexivity.
  - reflexivity.
Defined.

Lemma peers_agree_witness :
  dr_DrbdOptions (BuildDesired no_paths first cluster [] [] None None) !! "peer.n2.node-id" = Some "1"
  /\ dr_DrbdOptions (BuildDesired no_paths second cluster [] [] None None) !! "node-id" = Some "1"
  /\ dr_DrbdOptions (BuildDesired no_paths first cluster [] [] None None) !! "peer.n2.port"
       = dr_DrbdOptions (BuildDesired no_paths second cluster [] [] None None) !! "port".
Proof.
  destruct (peers_agree no_paths cluster first second [] [] [] [] None None None None 20001) as (H1 & H2 & _).
  - apply (bool_decide_eq_true_1 _). vm_compute. reflexivity.
  - left.
  - right. left.
  - discriminate.
  - reflexivity.
  - vm_compute. discriminate.
  - reflexivity.
  - split; [vm_compute; reflexivity|]. split; [vm_compute; reflexivity|exact H2].
Defined.

(** A definition whose properties hold two path lists, in the other order than their nodes. *)
Definition paths_of (raw : string) : option (list (gmap string string)) :=
  Some [{["name" := "b"; "node_a_address" := raw]}; {["name" := "a"; "node_a_address" := raw]}].
Definition connected_rd : ResourceDefinitionCR :=
  mkResourceDefinitionCR "pvc" {["Cozystack/ResourceConnectionPaths/n2/n3" := "x"; "Cozystack/ResourceConnectionPaths/n1/n2" := "y";
    "Cozystack/ResourceConnectionPaths/n1" := "z"]} [] [] None None None.

Lemma connections_canonical_witness :
  map (fun c => (dc_NodeA c, dc_NodeB c, map dcp_Name (dc_Paths c))) (connectionsFromRD paths_of (Some connected_rd))
    = [("n1", "n2", ["a"; "b"]); ("n2", "n3", ["a"; "b"])]
  /\ sort_by connection_before (omap (connection_of paths_of) (reverse (map_to_list (rdc_Props connected_rd))))
       = connectionsFromRD paths_of (Some connected_rd).
Proof.
  split; [vm_compute; reflexivity|]. apply connections_canonical. apply reverse_Permutation.
Defined.

(** The address of a peer with only an IPv6 interface is cut at its last colon: the
    dispatcher takes what follows for a port, though an interface address carries none. *)
Theorem ipv6_peer_address_cut :
  let n := mkNodeCR (mkObjectMeta "n1" None) ∅ [mkNodeNetInterface "default" "fd00::5"] "" in
  lookupEndpoint "n1" [n] = "fd00::5" /\ peerAddress "n1" [n] = "fd00:".
Proof. by vm_compute. Qed.
