(* ===== verification/DrbdStatus.v ===== *)
(** * Decisions on the kernel's status

    Models the probes of [pkg/drbd/drbdadm.go] that read [drbdsetup status] and decide whether a
    replica may be promoted, seeded, taken down or re-initialised, and the parsers of its text
    output. A command is its answer, an error text or none and the output; the JSON decoder is a
    parameter ([None]: not JSON of that shape). *)

From Stdlib Require Import Ascii.
From S2P Require Import Prelude GoStrings DrbdStates DrbdText.
Import Role Disk Replication Slots.

Definition answer : Type := option string * string.

Section Probes.
Context (decode : string -> option (list drbdsetupStatusResource)).

(** [exec.Run], [json.Unmarshal] and [status[0]]; [None] when any of them fails. *)
Definition status (run : answer) : option drbdsetupStatusResource :=
  match run with
  | (Some _, _) => None
  | (None, out) => match decode out with Some (res :: _) => Some res | _ => None end
  end.

(** The same for the probes that also need the kernel's own node id. *)
Definition status_with_id (run : answer) : option (drbdsetupStatusResource * Z) :=
  res ← status run; id ← sr_NodeID res; Some (res, id).

Definition KernelMyNodeID (run : answer) : option Z := snd <$> status_with_id run.

Definition committed (state : string) : bool :=
  one_of state [DiskStateUpToDate; DiskStateConsistent; DiskStateOutdated].

Definition AnyConnectedPeerHasData (run : answer) : bool :=
  match status run with
  | None => false
  | Some res => existsb (fun conn => existsb (fun pd => committed (pd_PeerDiskState pd)) (c_PeerDevices conn))
                  (sr_Connections res)
  end.

Definition AnyConnectedPeerHasDataForVolume (run : answer) (volNumber : Z) : bool :=
  match status run with
  | None => false
  | Some res => existsb (fun conn => existsb (fun pd =>
      bool_decide (pd_VolumeNumber pd = volNumber) && committed (pd_PeerDiskState pd)) (c_PeerDevices conn))
      (sr_Connections res)
  end.

Definition localIsUpToDate (devices : list drbdsetupStatusDevice) : bool :=
  negb (bool_decide (length devices = 0%nat))
  && forallb (fun d => bool_decide (dv_DiskState d = DiskStateUpToDate)) devices.

Definition localIsDiskfulBelowUpToDate (devices : list drbdsetupStatusDevice) : bool :=
  negb (bool_decide (length devices = 0%nat))
  && forallb (fun d => one_of (dv_DiskState d) [DiskStateInconsistent; DiskStateConsistent; DiskStateOutdated]) devices.

Definition localHasUpToDateVolume (devices : list drbdsetupStatusDevice) : bool :=
  existsb (fun d => bool_decide (dv_DiskState d = DiskStateUpToDate)) devices.

Definition allPeersConnected (conns : list drbdsetupStatusConnection) : bool :=
  negb (bool_decide (length conns = 0%nat)) && forallb (fun c => bool_decide (c_ConnectionStr c = "Connected")) conns.

Definition localInconsistentVolumes (devices : list drbdsetupStatusDevice) : gset Z :=
  list_to_set (dv_VolumeNumber <$> filter (fun d => dv_DiskState d = DiskStateInconsistent) devices).

Definition no_peer_primary (conns : list drbdsetupStatusConnection) : bool :=
  forallb (fun c => negb (Role_IsPrimary (c_PeerRole c))) conns.

Definition SafeForMkfsRetryPromote (run : answer) : bool :=
  match status run with
  | None => false
  | Some res =>
      negb (Role_IsPrimary (sr_Role res)) && localIsUpToDate (sr_Devices res)
      && forallb (fun conn => negb (Role_IsPrimary (c_PeerRole conn))
           && forallb (fun pd => one_of (pd_PeerDiskState pd) [DiskStateUpToDate; DiskStateDiskless]) (c_PeerDevices conn))
           (sr_Connections res)
  end.

Definition Day0SiblingSetConnected (run : answer) (disklessPeers : gset string) : bool :=
  match status run with
  | None => false
  | Some res =>
      negb (Role_IsPrimary (sr_Role res)) && localIsUpToDate (sr_Devices res)
      && forallb (fun conn => negb (Role_IsPrimary (c_PeerRole conn))
           && forallb (fun pd =>
                one_of (pd_PeerDiskState pd) [DiskStateUpToDate; DiskStateDiskless]
                || (bool_decide (pd_PeerDiskState pd = DiskStateDUnknown) && bool_decide (c_PeerName conn ∈ disklessPeers)))
                (c_PeerDevices conn))
           (sr_Connections res)
  end.

(** ** Promotion *)

Definition peerDeviceActivelySyncing (pd : drbdsetupStatusPeerDevice) : bool :=
  one_of (pd_ReplicationState pd) ["SyncSource"; "WFBitMapS"]
  && (bool_decide (pd_ResyncSuspended pd = "no") || bool_decide (pd_ResyncSuspended pd = "")).

(** The three answers: a wedged peer, still the lowest, a Primary peer. *)
Definition scan_recovery_device (myID peerID : Z) (acc : bool * bool) (pd : drbdsetupStatusPeerDevice) : bool * bool :=
  let '(wedged, lowest) := acc in
  if bool_decide (pd_PeerDiskState pd = DiskStateInconsistent) then
    (wedged || negb (peerDeviceActivelySyncing pd), lowest)
  else if bool_decide (pd_PeerDiskState pd = DiskStateUpToDate) then
    (wedged, lowest && negb (bool_decide (peerID < myID)))
  else acc.

Definition scanRecoveryPromotePeers (conns : list drbdsetupStatusConnection) (myID : Z) : bool * bool * bool :=
  foldl (fun acc conn =>
    let '(wl, primary) := acc in
    (foldl (scan_recovery_device myID (c_PeerNodeID conn)) wl (c_PeerDevices conn),
     primary || Role_IsPrimary (c_PeerRole conn))) (false, true, false) conns.

Definition NeedsRecoveryPromote (run : answer) : bool :=
  match status_with_id run with
  | None => false
  | Some (res, myID) =>
      if negb (localIsUpToDate (sr_Devices res)) then false
      else if Role_IsPrimary (sr_Role res) then false
      else let '(wedged, lowest, primary) := scanRecoveryPromotePeers (sr_Connections res) myID in
           if primary then false else wedged && lowest
  end.

Definition NeedsSoloPromote (run : answer) : bool :=
  match status_with_id run with
  | None => false
  | Some (res, _) =>
      bool_decide (length (sr_Connections res) = 0%nat) && negb (Role_IsPrimary (sr_Role res))
      && localIsDiskfulBelowUpToDate (sr_Devices res)
  end.

(** The loop over the devices of one volume; [None] is the early [return false]. *)
Definition late_add_device (vol myID peerID : Z) (acc : option bool) (pd : drbdsetupStatusPeerDevice) : option bool :=
  lowest ← acc;
  if negb (bool_decide (pd_VolumeNumber pd = vol)) then Some lowest
  else if committed (pd_PeerDiskState pd) then None
  else if bool_decide (pd_PeerDiskState pd = DiskStateInconsistent) then
    if peerDeviceActivelySyncing pd then None else Some (lowest && negb (bool_decide (peerID < myID)))
  else if one_of (pd_PeerDiskState pd) [DiskStateAttaching; DiskStateNegotiating; DiskStateDUnknown] then
    Some (lowest && negb (bool_decide (peerID < myID)))
  else Some lowest.

Definition lateAddVolumeNeedsLocalPromote (conns : list drbdsetupStatusConnection) (vol myID : Z) : bool :=
  default false (foldl (fun acc conn => foldl (late_add_device vol myID (c_PeerNodeID conn)) acc (c_PeerDevices conn))
                   (Some true) conns).

(** The gates [NeedsLateAddPromote] and [LateAddResyncKickVolumes] share. *)
Definition late_add_gates (res : drbdsetupStatusResource) : bool :=
  negb (Role_IsPrimary (sr_Role res)) && no_peer_primary (sr_Connections res)
  && localHasUpToDateVolume (sr_Devices res) && allPeersConnected (sr_Connections res).

Definition NeedsLateAddPromote (run : answer) : bool :=
  match status_with_id run with
  | None => false
  | Some (res, myID) =>
      let wedged := elements (localInconsistentVolumes (sr_Devices res)) in
      late_add_gates res && negb (bool_decide (wedged = []))
      && forallb (fun vol => lateAddVolumeNeedsLocalPromote (sr_Connections res) vol myID) wedged
  end.

Definition peerDeviceResyncInProgress (pd : drbdsetupStatusPeerDevice) : bool :=
  if one_of (pd_ReplicationState pd) [ReplicationStateSyncSource; ReplicationStateSyncTarget;
       ReplicationStateStartingSyncS; ReplicationStateStartingSyncT] then true
  else if one_of (pd_ReplicationState pd) [ReplicationStateWFBitMapS; ReplicationStateWFBitMapT; ReplicationStateWFSyncUUID]
  then bool_decide (pd_ResyncSuspended pd = "") || bool_decide (pd_ResyncSuspended pd = "no")
  else false.

Definition lateAddVolumeNeedsInvalidate (conns : list drbdsetupStatusConnection) (dev : drbdsetupStatusDevice) : bool :=
  if negb (bool_decide (dv_DiskState dev = DiskStateInconsistent)) then false
  else
    let pds := filter (fun pd => pd_VolumeNumber pd = dv_VolumeNumber dev) (conns ≫= c_PeerDevices) in
    existsb (fun pd => bool_decide (pd_PeerDiskState pd = DiskStateUpToDate)) pds
    && negb (existsb peerDeviceResyncInProgress pds).

Definition LateAddResyncKickVolumes (run : answer) : list Z :=
  match status_with_id run with
  | None => []
  | Some (res, _) =>
      if late_add_gates res
      then dv_VolumeNumber <$> filter (fun d => lateAddVolumeNeedsInvalidate (sr_Connections res) d = true) (sr_Devices res)
      else []
  end.

(** ** Minting a source *)

Inductive mint_call := Disconnect | NewCurrentUUID (minor : Z) | Adjust.
Inductive mint_err := StatusFailed | MintFailed (minor : Z) | AdjustFailed.

(** [ok]: whether a command succeeds. The volumes are minted in turn, the first failure ends. *)
Fixpoint mint_loop (ok : mint_call -> bool) (minors : list Z) : list mint_call * option Z :=
  match minors with
  | [] => ([], None)
  | m :: rest =>
      if ok (NewCurrentUUID m) then let '(calls, e) := mint_loop ok rest in (NewCurrentUUID m :: calls, e)
      else ([NewCurrentUUID m], Some m)
  end.

Definition inconsistent_minors (res : drbdsetupStatusResource) : list Z :=
  dv_Minor <$> filter (fun d => dv_DiskState d = DiskStateInconsistent) (sr_Devices res).

(** The calls made, and the minors and the error returned. An output that is no JSON is an error;
    an empty list of resources wraps a nil error, which is nil. *)
Definition MintLateAddSource (run : answer) (ok : mint_call -> bool) : list mint_call * (list Z * option mint_err) :=
  match run with
  | (Some _, _) => ([], ([], Some StatusFailed))
  | (None, out) =>
      match decode out with
      | None => ([], ([], Some StatusFailed))
      | Some [] => ([], ([], None))
      | Some (res :: _) =>
          let minors := inconsistent_minors res in
          if bool_decide (minors = []) then ([], ([], None))
          else
            let '(calls, failed) := mint_loop ok minors in
            match failed with
            | Some m => (Disconnect :: calls ++ [Adjust], (minors, Some (MintFailed m)))
            | None => (Disconnect :: calls ++ [Adjust], (minors, if ok Adjust then None else Some AdjustFailed))
            end
      end
  end.

(** ** Taking a resource down *)

Inductive DownVeto := DownAllowed | DownVetoResync | DownVetoInconclusive.

Definition EvaluateDownVeto (run : answer) : DownVeto :=
  match run with
  | (Some err, out) => if isResourceNotLoadedErr (Some err) out then DownAllowed else DownVetoInconclusive
  | (None, out) =>
      match decode out with
      | Some (res :: _) =>
          if existsb (fun conn => existsb (fun pd => ReplicationState_IsSyncing (pd_ReplicationState pd)) (c_PeerDevices conn))
               (sr_Connections res)
          then DownVetoResync else DownAllowed
      | _ => DownVetoInconclusive
      end
  end.

End Probes.

(** ** The metadata probe *)

Definition metadataAbsentMarkers : list string := ["no valid meta data"; "no valid meta-data"].
Definition metadataUncleanMarkers : list string := ["please apply-al"].

Definition newline : string := String "010"%char "".

Definition matchesAny (errStr out : string) (markers : list string) : bool :=
  let haystack := Str.to_lower (errStr +:+ newline +:+ out) in
  existsb (fun marker => contains (Str.to_lower marker) haystack) markers.

Definition metadataAbsent (errStr out : string) : bool := matchesAny errStr out metadataAbsentMarkers.
Definition metadataUnclean (errStr out : string) : bool := matchesAny errStr out metadataUncleanMarkers.

Inductive md_err := ErrMetadataUnclean | ErrUnrecognised.

Definition HasMD (run : answer) : result md_err bool :=
  let '(err, out) := run in
  match err with
  | None => Ok (negb (bool_decide (out = "")))
  | Some errStr =>
      if contains "Device or resource busy" errStr || contains "is configured!" errStr
         || contains "Device or resource busy" out || contains "is configured!" out then Ok true
      else if metadataAbsent errStr out then Ok false
      else if metadataUnclean errStr out then Err ErrMetadataUnclean
      else Err ErrUnrecognised
  end.

(** ** Text output *)

Definition lines (out : string) : list string := split_char "010" out.

(** A line that opens the block of a resource. *)
Definition at_column_0 (line : string) : bool :=
  match line with
  | EmptyString => false
  | String c _ => negb (Ascii.eqb c " ") && negb (Ascii.eqb c "009")
  end.

Definition no_resources (run : answer) : bool :=
  match run with
  | (Some err, out) => contains "No currently configured DRBD" out || contains "No currently configured DRBD" err
  | (None, _) => false
  end.

Definition resource_line (line : string) : option string :=
  if at_column_0 line then
    match fields line with
    | [] => None
    | name :: _ => if Str.has_prefix "#" name then None else Some name
    end
  else None.

Definition StatusResources (run : answer) : result unit (list string) :=
  match run with
  | (Some _, _) => if no_resources run then Ok [] else Err tt
  | (None, out) => Ok (omap resource_line (lines out))
  end.

Definition IsLoaded (run : answer) : bool :=
  match run with
  | (Some _, _) => false
  | (None, out) => negb (bool_decide (Str.trim_space out = ""))
  end.

Definition notAttached : list string := ["disk:Diskless"; "disk:Detaching"; "disk:Failed"].

Definition names_local_disk (line token : string) : bool :=
  contains token line && negb (contains ("peer-" +:+ token) line && negb (contains (" " +:+ token) line)).

Definition HasDisklessVolume (run : answer) : bool :=
  match run with
  | (Some _, _) => false
  | (None, out) => existsb (fun line => existsb (names_local_disk line) notAttached) (lines out)
  end.

(** [strings.Cut] at a separator of several bytes. *)
Fixpoint cut_at (sep s : string) : option (string * string) :=
  match Str.cut_prefix sep s with
  | Some rest => Some ("", rest)
  | None =>
      match s with
      | EmptyString => None
      | String c s' => match cut_at sep s' with Some (b, a) => Some (String c b, a) | None => None end
      end
  end.

Definition ParseConfiguredDeviceMinor (err : option string) : option Z :=
  text ← err;
  '(_, rest) ← cut_at "Device '" text;
  '(num, tail) ← Str.cut "'" rest;
  if Str.has_prefix " is configured" tail then parse_int 32 num else None.

(** The scan for the owner of a minor: the current resource, or the answer. *)
Definition owning_step (needle : string) (acc : string + string) (line : string) : string + string :=
  match acc with
  | inr found => inr found
  | inl current =>
      if at_column_0 line && negb (Str.has_prefix "#" (Str.trim_space line)) then
        inl (match fields line with name :: _ => name | [] => current end)
      else if bool_decide (needle ∈ fields line) then inr current
      else inl current
  end.

Definition ResourceOwningMinor (run : answer) (minor : Z) : result unit string :=
  match run with
  | (Some _, _) => if no_resources run then Ok "" else Err tt
  | (None, out) =>
      match foldl (owning_step ("minor:" +:+ format_int minor)) (inl "") (lines out) with
      | inr found => Ok found
      | inl _ => Ok ""
      end
  end.

(** [CurrentGI], from the answer of [get-gi]. *)
Definition CurrentGI (run : answer) : result unit string :=
  match run with
  | (Some _, _) => Err tt
  | (None, out) =>
      match Str.cut ":" (Str.trim_space out) with
      | Some (current, _) => Ok (Str.to_upper current)
      | None => Ok ""
      end
  end.

(** * What the promotion probes guarantee

    A cluster is the kernels of its nodes; each node's status reports its own state and, for
    every other node, what a live connection shows of it. On such reports at most one node
    promotes itself, and never over a Primary or over committed data. *)

From S2P Require Import Prelude GoStrings DrbdStates DrbdText.
Import Role Disk Replication Slots.

Record kernel := mkKernel {
  kn_ID : Z;
  kn_Role : string;
  kn_Devices : list drbdsetupStatusDevice;
}.

(** What the connection of [self] to [p] shows: the id and role of [p], and for every volume both
    have, the state of its disk. *)
Definition shows (self p : kernel) (c : drbdsetupStatusConnection) : Prop :=
  c_PeerNodeID c = kn_ID p /\ c_PeerRole c = kn_Role p
  /\ forall d e, d ∈ kn_Devices self -> e ∈ kn_Devices p -> dv_VolumeNumber d = dv_VolumeNumber e ->
       exists pd, pd ∈ c_PeerDevices c /\ pd_VolumeNumber pd = dv_VolumeNumber e /\ pd_PeerDiskState pd = dv_DiskState e.

(** The status of [self] when it is connected to every other node of the cluster. *)
Definition reports (cluster : list kernel) (self : kernel) (res : drbdsetupStatusResource) : Prop :=
  sr_NodeID res = Some (kn_ID self) /\ sr_Role res = kn_Role self /\ sr_Devices res = kn_Devices self
  /\ forall p, p ∈ cluster -> kn_ID p <> kn_ID self -> exists c, c ∈ sr_Connections res /\ shows self p c.

Definition just (res : drbdsetupStatusResource) : string -> option (list drbdsetupStatusResource) := fun _ => Some [res].
Definition probed : answer := (None, "").

(** ** Folds that answer yes *)

Lemma foldl_yes {A} (f : option bool -> A -> option bool) (ok : A -> Prop) l : forall acc,
  (forall acc a, f acc a = Some true -> acc = Some true /\ ok a) ->
  foldl f acc l = Some true -> acc = Some true /\ Forall ok l.
Proof.
  induction l as [|a l IH]; intros acc Hf; cbn; [done|]. intros [[H1 H2]%Hf H3]%IH; [|done]. by split; [|constructor].
Qed.

Definition late_ok (vol myID peerID : Z) (pd : drbdsetupStatusPeerDevice) : Prop :=
  pd_VolumeNumber pd = vol -> committed (pd_PeerDiskState pd) = false
    /\ (pd_PeerDiskState pd = DiskStateInconsistent -> myID <= peerID).

Lemma late_add_device_yes vol myID peerID acc pd :
  late_add_device vol myID peerID acc pd = Some true -> acc = Some true /\ late_ok vol myID peerID pd.
Proof.
  unfold late_add_device, late_ok. destruct acc as [lowest|]; [|done]. cbn [mbind option_bind].
  destruct (bool_decide (pd_VolumeNumber pd = vol)) eqn:Ev; cbn [negb].
  2:{ intros [= ->]. split; [done|]. intros E. by apply bool_decide_eq_false in Ev. }
  destruct (committed (pd_PeerDiskState pd)); [done|].
  destruct (bool_decide (pd_PeerDiskState pd = DiskStateInconsistent)) eqn:Ei.
  - destruct (peerDeviceActivelySyncing pd); [done|]. intros [= [-> Hn]%andb_true_iff].
    apply negb_true_iff, bool_decide_eq_false in Hn. split; [done|]. intros _. split; [done|]. lia.
  - apply bool_decide_eq_false in Ei.
    destruct (one_of _ _); [intros [= [-> _]%andb_true_iff]|intros [= ->]]; (split; [done|]; intros _; split; [done|]; intros E; done).
Qed.

Lemma late_add_volume_yes conns vol myID : lateAddVolumeNeedsLocalPromote conns vol myID = true ->
  forall c pd, c ∈ conns -> pd ∈ c_PeerDevices c -> late_ok vol myID (c_PeerNodeID c) pd.
Proof.
  unfold lateAddVolumeNeedsLocalPromote. destruct (foldl _ _ _) as [[]|] eqn:E; try done. intros _ c pd Hc Hpd.
  apply (foldl_yes _ (fun c => Forall (late_ok vol myID (c_PeerNodeID c)) (c_PeerDevices c))) in E as [_ E].
  - rewrite list.Forall_forall in E. specialize (E c Hc). rewrite list.Forall_forall in E. auto.
  - intros acc a. apply foldl_yes. apply late_add_device_yes.
Qed.

Lemma wedged_elem devices v : v ∈ elements (localInconsistentVolumes devices) <->
  exists d, d ∈ devices /\ dv_VolumeNumber d = v /\ dv_DiskState d = DiskStateInconsistent.
Proof.
  unfold localInconsistentVolumes. rewrite elem_of_elements, elem_of_list_to_set, list_elem_of_fmap. split.
  - intros (d & -> & [? ?]%list_elem_of_filter). eauto.
  - intros (d & ? & <- & ?). exists d. split; [done|]. by apply list_elem_of_filter.
Qed.

(** What a node that promotes itself for a late-added volume knows. *)
Lemma late_add_yes res : NeedsLateAddPromote (just res) probed = true ->
  exists id, sr_NodeID res = Some id /\ Role_IsPrimary (sr_Role res) = false
    /\ (forall c, c ∈ sr_Connections res -> Role_IsPrimary (c_PeerRole c) = false)
    /\ forall d, d ∈ sr_Devices res -> dv_DiskState d = DiskStateInconsistent ->
         forall c pd, c ∈ sr_Connections res -> pd ∈ c_PeerDevices c -> late_ok (dv_VolumeNumber d) id (c_PeerNodeID c) pd.
Proof.
  unfold NeedsLateAddPromote, status_with_id, status, probed, just. cbn [mbind option_bind].
  destruct (sr_NodeID res) as [id|]; [|done]. cbn [mbind option_bind]. unfold late_add_gates, no_peer_primary.
  rewrite !andb_true_iff, !forallb_forall, negb_true_iff. intros [[[[[Hr Hp] _] _] _] Hw]. exists id.
  split_and!; [done|done| |].
  - intros c Hc%list_elem_of_In. by apply Hp, negb_true_iff in Hc.
  - intros d Hd Hi c pd. apply late_add_volume_yes. apply Hw, list_elem_of_In, wedged_elem. eauto.
Qed.

(** When a node of a fully connected cluster promotes itself to source for its late-added
    volumes, no node is Primary, no node holds committed data of a volume it mints, and no other
    node mints the same volume. *)
Theorem late_add_mints_one_source cluster a res :
  a ∈ cluster -> reports cluster a res -> (forall p, p ∈ cluster -> kn_ID p = kn_ID a -> p = a) ->
  NeedsLateAddPromote (just res) probed = true ->
  (forall p, p ∈ cluster -> Role_IsPrimary (kn_Role p) = false)
  /\ forall d, d ∈ kn_Devices a -> dv_DiskState d = DiskStateInconsistent ->
       forall p e, p ∈ cluster -> e ∈ kn_Devices p -> dv_VolumeNumber e = dv_VolumeNumber d -> p <> a ->
         committed (dv_DiskState e) = false
         /\ (dv_DiskState e = DiskStateInconsistent -> kn_ID a < kn_ID p)
         /\ forall res', reports cluster p res' -> dv_DiskState e = DiskStateInconsistent ->
              NeedsLateAddPromote (just res') probed = false.
Proof.
  intros Ha (R1 & R2 & R3 & R4) Hu (id & Hid & Hr & Hp & Hd)%late_add_yes. rewrite R1 in Hid. injection Hid as <-.
  split.
  - intros p Hin. destruct (decide (kn_ID p = kn_ID a)) as [E|Hne]; [rewrite (Hu p Hin E); by rewrite <- R2|].
    destruct (R4 p Hin Hne) as (c & Hc & _ & <- & _). auto.
  - intros d Hda Hi p e Hin He Ev Hne.
    assert (kn_ID p <> kn_ID a) as Hidne by (intros E; by apply Hne, Hu).
    destruct (R4 p Hin Hidne) as (c & Hc & Ec & _ & Hs). destruct (Hs d e Hda He (eq_sym Ev)) as (pd & Hpd & Epv & Eps).
    rewrite <- R3 in Hda. destruct (Hd d Hda Hi c pd Hc Hpd ltac:(congruence)) as [Hcm Hlow]. rewrite Eps, Ec in *.
    assert (dv_DiskState e = DiskStateInconsistent -> kn_ID a < kn_ID p) as Hlt by (intros E; specialize (Hlow E); lia).
    split_and!; [done|done|]. intros res' (S1 & S2 & S3 & S4) Ei.
    destruct (NeedsLateAddPromote (just res') probed) eqn:N; [|done]. exfalso.
    apply late_add_yes in N as (id' & Hid' & _ & _ & Hd'). rewrite S1 in Hid'. injection Hid' as <-.
    destruct (S4 a Ha ltac:(congruence)) as (c' & Hc' & Ec' & _ & Hs'). rewrite R3 in Hda.
    destruct (Hs' e d He Hda Ev) as (pd' & Hpd' & Epv' & Eps'). rewrite <- S3 in He.
    destruct (Hd' e He Ei c' pd' Hc' Hpd' ltac:(congruence)) as [_ Hlow']. rewrite Eps', Ec' in Hlow'.
    specialize (Hlow' Hi). specialize (Hlt Ei). lia.
Qed.

(** ** The recovery promote *)

Lemma scan_device_lowest myID pid acc pds :
  (foldl (scan_recovery_device myID pid) acc pds).2 = true ->
  acc.2 = true /\ forall pd, pd ∈ pds -> pd_PeerDiskState pd = DiskStateUpToDate -> myID <= pid.
Proof.
  revert acc. induction pds as [|pd pds IH]; intros [w l]; cbn; [split; [done|]; intros pd Hp%elem_of_nil; done|].
  intros [H1 H2]%IH. unfold scan_recovery_device in H1.
  destruct (bool_decide (pd_PeerDiskState pd = DiskStateInconsistent)) eqn:Ei; cbn in H1.
  - split; [done|]. intros q [->|Hq]%elem_of_cons E; [|eauto]. apply bool_decide_eq_true in Ei. by rewrite Ei in E.
  - destruct (bool_decide (pd_PeerDiskState pd = DiskStateUpToDate)) eqn:Eu; cbn in H1.
    + apply andb_true_iff in H1 as [-> Hn%negb_true_iff%bool_decide_eq_false]. split; [done|].
      intros q [->|Hq]%elem_of_cons E; [lia|eauto].
    + split; [done|]. intros q [->|Hq]%elem_of_cons E; [|eauto]. by apply bool_decide_eq_false in Eu.
Qed.

Lemma scan_peers conns myID : forall w l pr w' l' pr',
  foldl (fun acc conn => let '(wl, primary) := acc in
    (foldl (scan_recovery_device myID (c_PeerNodeID conn)) wl (c_PeerDevices conn),
     primary || Role_IsPrimary (c_PeerRole conn))) (w, l, pr) conns = (w', l', pr') ->
  (pr' = false -> pr = false /\ forall c, c ∈ conns -> Role_IsPrimary (c_PeerRole c) = false)
  /\ (l' = true -> l = true /\ forall c pd, c ∈ conns -> pd ∈ c_PeerDevices c -> pd_PeerDiskState pd = DiskStateUpToDate ->
        myID <= c_PeerNodeID c).
Proof.
  induction conns as [|c conns IH]; intros w l pr w' l' pr'; cbn [foldl].
  - intros [= <- <- <-]. split; (intros ->; split; [done|]); [intros c Hc%elem_of_nil|intros c pd Hc%elem_of_nil]; done.
  - destruct (foldl (scan_recovery_device _ _) _ _) as [w1 l1] eqn:E1. intros [H1 H2]%IH. split.
    + intros [[-> Hp]%orb_false_iff H]%H1. split; [done|]. intros c' [->|Hc']%elem_of_cons; auto.
    + intros [-> H]%H2. destruct (scan_device_lowest myID (c_PeerNodeID c) (w, l) (c_PeerDevices c)) as [Hl Hd]; [by rewrite E1|].
      split; [done|]. intros c' pd [->|Hc']%elem_of_cons Hpd E; eauto.
Qed.

Lemma recovery_yes res : NeedsRecoveryPromote (just res) probed = true ->
  exists id, sr_NodeID res = Some id /\ Role_IsPrimary (sr_Role res) = false
    /\ sr_Devices res <> [] /\ Forall (fun d => dv_DiskState d = DiskStateUpToDate) (sr_Devices res)
    /\ (forall c, c ∈ sr_Connections res -> Role_IsPrimary (c_PeerRole c) = false)
    /\ forall c pd, c ∈ sr_Connections res -> pd ∈ c_PeerDevices c -> pd_PeerDiskState pd = DiskStateUpToDate -> id <= c_PeerNodeID c.
Proof.
  unfold NeedsRecoveryPromote, status_with_id, status, probed, just. cbn [mbind option_bind].
  destruct (sr_NodeID res) as [id|]; [|done]. cbn [mbind option_bind].
  destruct (localIsUpToDate (sr_Devices res)) eqn:El; [|done]. destruct (Role_IsPrimary (sr_Role res)) eqn:Er; [done|]. cbn [negb].
  destruct (scanRecoveryPromotePeers (sr_Connections res) id) as [[w l] pr] eqn:Es. destruct pr; [done|].
  intros [-> ->]%andb_true_iff. apply scan_peers in Es as [H1 H2]. destruct (H1 eq_refl) as [_ Hp], (H2 eq_refl) as [_ Hl].
  unfold localIsUpToDate in El. apply andb_true_iff in El as [En Ea]. exists id. split_and!; [done..| | |done|done].
  - by destruct (sr_Devices res).
  - apply list.Forall_forall. intros d Hd%list_elem_of_In. rewrite forallb_forall in Ea. by apply Ea, bool_decide_eq_true in Hd.
Qed.

(** In a fully connected cluster whose nodes hold the same volumes, at most one node answers
    that it must promote itself to unstick an initial sync, and then no node is Primary. *)
Theorem recovery_promotes_one_node cluster a b resa resb :
  a ∈ cluster -> b ∈ cluster -> kn_ID a <> kn_ID b ->
  (forall p, p ∈ cluster -> kn_ID p = kn_ID a -> p = a) ->
  dv_VolumeNumber <$> kn_Devices a = dv_VolumeNumber <$> kn_Devices b ->
  reports cluster a resa -> reports cluster b resb ->
  NeedsRecoveryPromote (just resa) probed = true ->
  NeedsRecoveryPromote (just resb) probed = false
  /\ forall p, p ∈ cluster -> Role_IsPrimary (kn_Role p) = false.
Proof.
  intros Ha Hb Hne Hu Hv (R1 & R2 & R3 & R4) (S1 & S2 & S3 & S4) (id & Hid & Hr & Hd & Hall & Hp & Hl)%recovery_yes.
  rewrite R1 in Hid. injection Hid as <-. split.
  - destruct (NeedsRecoveryPromote (just resb) probed) eqn:N; [|done]. exfalso.
    apply recovery_yes in N as (id' & Hid' & _ & Hd' & Hall' & _ & Hl'). rewrite S1 in Hid'. injection Hid' as <-.
    rewrite R3 in Hd, Hall. rewrite S3 in Hd', Hall'.
    destruct (kn_Devices a) as [|da la] eqn:Da; [done|]. destruct (kn_Devices b) as [|db lb] eqn:Db; [done|].
    cbn in Hv. injection Hv as Hv _. inversion Hall as [|? ? Ua _]. inversion Hall' as [|? ? Ub _]. subst.
    destruct (R4 b Hb ltac:(congruence)) as (c & Hc & Ec & _ & Hs), (S4 a Ha Hne) as (c' & Hc' & Ec' & _ & Hs').
    destruct (Hs da db) as (pd & Hpd & _ & Es); [rewrite Da; by left|rewrite Db; by left|done|].
    destruct (Hs' db da) as (pd' & Hpd' & _ & Es'); [rewrite Db; by left|rewrite Da; by left|done|].
    specialize (Hl c pd Hc Hpd ltac:(congruence)). specialize (Hl' c' pd' Hc' Hpd' ltac:(congruence)). lia.
  - intros p Hin. destruct (decide (kn_ID p = kn_ID a)) as [E|Hn]; [rewrite (Hu p Hin E); by rewrite <- R2|].
    destruct (R4 p Hin Hn) as (c & Hc & _ & <- & _). auto.
Qed.

(** ** Concrete clusters *)

Definition device (vol : Z) (state : string) : drbdsetupStatusDevice := mkDevice vol state (20000 + vol).
Definition peer_device (vol : Z) (state : string) : drbdsetupStatusPeerDevice := mkPeerDevice vol state "Established" "no".
Definition link (p : kernel) (name : string) (devs : list drbdsetupStatusPeerDevice) : drbdsetupStatusConnection :=
  mkConnection (kn_ID p) name "Connected" (kn_Role p) devs.

Definition node (id : Z) (states : list string) : kernel :=
  mkKernel id "Secondary" (imap (fun i s => device (Z.of_nat i) s) states).
Definition status_of (self : kernel) (peers : list kernel) : drbdsetupStatusResource :=
  mkStatusResource (Some (kn_ID self)) (kn_Role self) (kn_Devices self)
    (map (fun p => link p "peer" (map (fun d => peer_device (dv_VolumeNumber d) (dv_DiskState d)) (kn_Devices p))) peers).

Lemma status_reports cluster self : reports cluster self
  (status_of self (filter (fun p => kn_ID p <> kn_ID self) cluster)).
Proof.
  split_and!; [done..|]. intros p Hp Hne. exists (link p "peer" (map (fun d => peer_device (dv_VolumeNumber d) (dv_DiskState d)) (kn_Devices p))).
  split; [apply list_elem_of_fmap; exists p; split; [done|by apply list_elem_of_filter]|].
  split_and!; [done..|]. intros d e _ He _. exists (peer_device (dv_VolumeNumber e) (dv_DiskState e)). split; [|done].
  apply list_elem_of_fmap. eauto.
Qed.

Definition wedged_cluster : list kernel :=
  [node 1 ["UpToDate"; "Inconsistent"]; node 0 ["UpToDate"; "Inconsistent"]; node 2 ["UpToDate"; "Diskless"]].

Lemma late_add_mints_one_source_witness :
  NeedsLateAddPromote (just (status_of (node 0 ["UpToDate"; "Inconsistent"])
      (filter (fun p => kn_ID p <> 0) wedged_cluster))) probed = true
  /\ forall p, p ∈ wedged_cluster -> Role_IsPrimary (kn_Role p) = false.
Proof.
  split; [vm_compute; reflexivity|].
  apply (late_add_mints_one_source wedged_cluster (node 0 ["UpToDate"; "Inconsistent"])
    (status_of (node 0 ["UpToDate"; "Inconsistent"]) (filter (fun p => kn_ID p <> 0) wedged_cluster))).
  - right. left.
  - apply (status_reports wedged_cluster (node 0 ["UpToDate"; "Inconsistent"])).
  - intros p Hp E. repeat (apply elem_of_cons in Hp as [->|Hp]; [first [reflexivity|vm_compute in E; discriminate E]|]). by apply elem_of_nil in Hp.
  - vm_compute. reflexivity.
Defined.

Definition stalled_cluster : list kernel := [node 0 ["UpToDate"]; node 1 ["UpToDate"]; node 2 ["Inconsistent"]].

Lemma recovery_promotes_one_node_witness :
  NeedsRecoveryPromote (just (status_of (node 0 ["UpToDate"]) (filter (fun p => kn_ID p <> 0) stalled_cluster))) probed = true
  /\ NeedsRecoveryPromote (just (status_of (node 1 ["UpToDate"]) (filter (fun p => kn_ID p <> 1) stalled_cluster))) probed = false.
Proof.
  split; [vm_compute; reflexivity|].
  apply (recovery_promotes_one_node stalled_cluster (node 0 ["UpToDate"]) (node 1 ["UpToDate"])
    (status_of (node 0 ["UpToDate"]) (filter (fun p => kn_ID p <> 0) stalled_cluster))).
  - left.
  - right. left.
  - discriminate.
  - intros p Hp E. repeat (apply elem_of_cons in Hp as [->|Hp]; [first [reflexivity|vm_compute in E; discriminate E]|]). by apply elem_of_nil in Hp.
  - reflexivity.
  - apply (status_reports stalled_cluster (node 0 ["UpToDate"])).
  - apply (status_reports stalled_cluster (node 1 ["UpToDate"])).
  - vm_compute. reflexivity.
Defined.

(** The probe does not ask whether the other up-to-date node is connected. With the link
    between two up-to-date nodes down and a third node still to be synced, both answer that they
    must promote themselves. *)
Theorem recovery_promotes_both_sides_of_a_lost_link :
  let lost p := mkConnection (kn_ID p) "peer" "Connecting" "Unknown" [peer_device 0 "DUnknown"] in
  let third := link (node 2 ["Inconsistent"]) "third" [peer_device 0 "Inconsistent"] in
  let at0 := mkStatusResource (Some 0) "Secondary" [device 0 "UpToDate"] [lost (node 1 ["UpToDate"]); third] in
  let at1 := mkStatusResource (Some 1) "Secondary" [device 0 "UpToDate"] [lost (node 0 ["UpToDate"]); third] in
  NeedsRecoveryPromote (just at0) probed = true /\ NeedsRecoveryPromote (just at1) probed = true.
Proof. by vm_compute. Qed.
