(* ===== verification/GiHistory.v ===== *)
(** * The record of generations

    Models [pkg/satellite/gi_history.go]: the file per resource in which a satellite records the
    generation identifiers its volumes were seen to carry. The state is the files, by resource,
    and the cache of the last value written per volume. A read or a write may fail: each
    operation is told whether it does. *)

From stdpp Require Import sorting.
From Stdlib Require Import Ascii DecimalString.
From S2P Require Import Prelude GoStrings DrbdText DrbdTextProps.
Import DumpMd.
#[local] Open Scope go_scope.

Record gi_state := mkGiState {
  gs_files : gmap string string;
  gs_last : gmap string string;
}.

Definition giHistoryPerVolume : nat := 32.

Notation history := (gmap Z (list string)).

Definition volume_key (rdName : string) (vol : Z) : string := rdName +:+ "/" +:+ format_int vol.

Inductive history_err := ErrRead | ErrDamagedGIRecord.

Definition nl : ascii := "010"%char.

(** The scanner gives up on a line that fills its buffer. *)
Definition MaxScanTokenSize : Z := 65536.

Definition read_line (acc : result history_err history) (text : string) : result history_err history :=
  let! h := acc in
  if MaxScanTokenSize <=? Z.of_nat (String.length text) then Err ErrRead else
  let line := Str.trim_space text in
  if bool_decide (line = "") then Ok h
  else
    let '(volField, generation, ok) :=
      match Str.cut " " line with Some (v, g) => (v, g, true) | None => (line, "", false) end in
    match parse_int 32 volField with
    | Some vol => if negb ok || negb (IsGenerationUUID generation) then Err ErrDamagedGIRecord
                  else Ok (<[vol := default [] (h !! vol) ++ [generation]]> h)
    | None => Err ErrDamagedGIRecord
    end.

(** The lines of the scanner; the empty text after the last newline is skipped as blank. *)
Definition parse_history (data : string) : result history_err history :=
  foldl read_line (Ok ∅) (split_char nl data).

(** [readable] is false for an error other than a missing file. *)
Definition readGIHistory (st : gi_state) (readable : bool) (rdName : string) : result history_err history :=
  match gs_files st !! rdName with
  | None => if readable then Ok ∅ else Err ErrRead
  | Some data => if readable then parse_history data else Err ErrRead
  end.

Definition history_line (vol : Z) (gi : string) : string := format_int vol +:+ " " +:+ gi +:+ String nl "".

Definition print_history (h : history) : string :=
  foldr String.append "" (merge_sort Z.le (map_to_list h).*1 ≫= fun vol => history_line vol <$> default [] (h !! vol)).

(** What [writeFileDurably] comes to: the file is replaced as a whole or left as it was, and an
    error of the directory's sync is reported after the replacement. *)
Inductive write_outcome := NotReplaced | ReplacedNotSynced | Replaced.

#[global] Instance write_outcome_eq_dec : EqDecision write_outcome.
Proof. solve_decision. Defined.

Definition writeGIHistory (w : write_outcome) (st : gi_state) (rdName : string) (h : history) : gi_state * bool :=
  match w with
  | NotReplaced => (st, false)
  | ReplacedNotSynced => (mkGiState (<[rdName := print_history h]> (gs_files st)) (gs_last st), false)
  | Replaced => (mkGiState (<[rdName := print_history h]> (gs_files st)) (gs_last st), true)
  end.

Definition set_last (st : gi_state) (key gi : string) : gi_state :=
  mkGiState (gs_files st) (<[key := gi]> (gs_last st)).

Definition remember (known : list string) (generation : string) : list string :=
  let all := known ++ [generation] in
  drop (length all - giHistoryPerVolume) all.

(** [stateDir]: whether a state directory is configured. *)
Definition RecordObservedGI (stateDir readable : bool) (w : write_outcome) (st : gi_state) (rdName : string) (vol : Z)
    (generation : string) : gi_state :=
  if negb stateDir || bool_decide (generation = "") then st
  else if negb (IsGenerationUUID generation) then st
  else
    let generation := Str.to_upper generation in
    let key := volume_key rdName vol in
    if bool_decide (default "" (gs_last st !! key) = generation) then st
    else
      match readGIHistory st readable rdName with
      | Err _ => st
      | Ok h =>
          let known := default [] (h !! vol) in
          if bool_decide (generation ∈ known) then set_last st key generation
          else
            let '(st, ok) := writeGIHistory w st rdName (<[vol := remember known generation]> h) in
            if ok then set_last st key generation else st
      end.

Definition keepGIHistoryOf (stateDir readable : bool) (w : write_outcome) (st : gi_state) (rdName : string) (vols : list Z) : gi_state :=
  if negb stateDir then st
  else
    match readGIHistory st readable rdName with
    | Err _ => st
    | Ok h =>
        let kept := filter (fun kv => kv.1 ∈ vols) h in
        let dropped := (map_to_list (filter (fun kv => kv.1 ∉ vols) h)).*1 in
        if bool_decide (dropped = []) then st
        else
          let st := mkGiState (gs_files st) (foldl (fun m vol => delete (volume_key rdName vol) m) (gs_last st) dropped) in
          fst (writeGIHistory w st rdName kept)
    end.

Definition recordedGIs (st : gi_state) (readable : bool) (rdName : string) (vol : Z) : result history_err (list string) :=
  let! h := readGIHistory st readable rdName in Ok (default [] (h !! vol)).

Definition forgetGIHistory (removable : bool) (st : gi_state) (rdName : string) : gi_state * bool :=
  let last := filter (fun kv => Str.has_prefix (rdName +:+ "/") kv.1 = false) (gs_last st) in
  match gs_files st !! rdName with
  | None => (mkGiState (gs_files st) last, removable)
  | Some _ => if removable then (mkGiState (delete rdName (gs_files st)) last, true) else (mkGiState (gs_files st) last, false)
  end.

(** ** The file reads back *)

Definition history_ok (h : history) : Prop :=
  map_Forall (fun vol gis => is_int32 vol /\ gis <> [] /\ Forall (fun gi => IsGenerationUUID gi = true) gis) h.

Lemma solid_no_space c s : Str.is_space c = true -> StrFacts.all_chars solid s = true -> Str.contains_char c s = false.
Proof. intros Hc. apply all_chars_no_char. unfold solid. by rewrite Hc. Qed.

Lemma uuid_solid gi : IsGenerationUUID gi = true -> StrFacts.all_chars solid gi = true /\ gi <> "".
Proof.
  intros (Hl & Hx & _)%Generations.uuid_facts. split; [by apply Dump.hex_solid|]. by intros ->.
Qed.

Lemma read_history_line h vol gi : is_int32 vol -> IsGenerationUUID gi = true ->
  read_line (Ok h) (format_int vol +:+ " " +:+ gi) = Ok (<[vol := default [] (h !! vol) ++ [gi]]> h).
Proof.
  intros Hv Hg. destruct (format_int_solid vol) as [Hs Hne], (uuid_solid gi Hg) as [Gs Gne].
  assert (Str.trim_space (format_int vol +:+ " " +:+ gi) = format_int vol +:+ " " +:+ gi) as Ht.
  { destruct (str_snoc_cases gi) as [->|(t & c & ->)]; [done|]. rewrite all_chars_app in Gs.
    apply andb_true_iff in Gs as [_ Gs]. cbn [StrFacts.all_chars] in Gs. rewrite andb_true_r in Gs.
    pose proof (trim_space_framed "" (format_int vol +:+ " " +:+ t) c eq_refl) as E. change ("" +:+ ?x) with x in E.
    rewrite !StrFacts.app_assoc in E. apply E; [|done]. destruct (format_int vol) as [|d s]; [done|].
    rewrite StrFacts.app_cons. cbn in Hs |- *. by apply andb_true_iff in Hs as [? _]. }
  unfold read_line. cbn [result_bind].
  replace (_ <=? _) with false.
  2:{ symmetry. apply Z.leb_gt. unfold MaxScanTokenSize. rewrite StrFacts.length_app_str. cbn [String.length].
      pose proof (format_int_short vol Hv). destruct (proj1 (Generations.uuid_facts gi) Hg) as (Hl & _). rewrite StrFacts.length_app_str. cbn. lia. }
  rewrite Ht.
  rewrite bool_decide_eq_false_2 by (destruct (format_int vol); [done|]; by rewrite StrFacts.app_cons).
  change (" " +:+ gi) with (String " " gi). rewrite StrFacts.cut_app by (by apply solid_no_space).
  rewrite parse_int_format by (unfold is_int32, MinInt32, MaxInt32 in Hv; cbn; lia). by rewrite Hg.
Qed.

(** The entries of a record, and what reading them in turn gives. *)
Definition entries (h : history) : list (Z * string) :=
  merge_sort Z.le (map_to_list h).*1 ≫= fun vol => pair vol <$> default [] (h !! vol).
Definition entry_text (e : Z * string) : string := format_int (fst e) +:+ " " +:+ snd e.
Definition add_entry (h : history) (e : Z * string) : history := <[fst e := default [] (h !! fst e) ++ [snd e]]> h.
Definition entry_ok (e : Z * string) : Prop := is_int32 (fst e) /\ IsGenerationUUID (snd e) = true.

Lemma print_entries h : print_history h = foldr String.append "" ((fun e => entry_text e +:+ String nl "") <$> entries h).
Proof.
  unfold print_history, entries. f_equal. generalize (merge_sort Z.le (map_to_list h).*1). intros keys.
  induction keys as [|vol keys IH]; [done|]. cbn [mbind list_bind]. rewrite fmap_app, <- IH. f_equal.
  rewrite <- list_fmap_compose. apply list_fmap_ext. intros i gi _. unfold history_line, entry_text. cbn.
  by rewrite !StrFacts.app_assoc.
Qed.

Lemma entry_one_line e : entry_ok e -> Str.contains_char nl (entry_text e) = false.
Proof.
  intros [_ [Hg _]%uuid_solid]. destruct (format_int_solid (fst e)) as [Hs _]. unfold entry_text.
  by rewrite !StrFacts.contains_char_app, (solid_no_space nl _ eq_refl Hs), (solid_no_space nl _ eq_refl Hg).
Qed.

Lemma split_entries l : Forall entry_ok l ->
  split_char nl (foldr String.append "" ((fun e => entry_text e +:+ String nl "") <$> l)) = (entry_text <$> l) ++ [""].
Proof.
  induction 1 as [|e l He Hl IH]; [done|]. cbn [fmap list_fmap foldr app]. change (String.append ?a ?b) with (a +:+ b).
  rewrite StrFacts.app_assoc. change (String nl "" +:+ ?x) with (String nl x).
  by rewrite split_char_piece, IH by (by apply entry_one_line).
Qed.

Lemma read_entries l : forall h, Forall entry_ok l ->
  foldl read_line (Ok h) ((entry_text <$> l) ++ [""]) = Ok (foldl add_entry h l).
Proof.
  induction l as [|e l IH]; intros h; [done|]. rewrite list.Forall_cons. intros [[Hv Hg] Hl]. cbn [fmap list_fmap app foldl].
  unfold entry_text at 1. by rewrite read_history_line, IH.
Qed.

Lemma add_entries_lookup l : forall h v,
  foldl add_entry h l !! v = match (filter (fun e => fst e = v) l).*2 with
                             | [] => h !! v
                             | gis => Some (default [] (h !! v) ++ gis)
                             end.
Proof.
  induction l as [|e l IH]; intros h v; [done|]. cbn [foldl]. rewrite IH. unfold add_entry. rewrite filter_cons.
  destruct (decide (fst e = v)) as [<-|Hne]; [|by rewrite lookup_insert_ne].
  rewrite lookup_insert_eq. cbn [default fmap list_fmap]. destruct (filter _ l).*2; cbn; [done|]. by rewrite <- (assoc_L (++)).
Qed.

Lemma filter_entries keys (h : history) v : NoDup keys ->
  (filter (fun e => fst e = v) (keys ≫= fun vol => pair vol <$> default [] (h !! vol))).*2
    = if bool_decide (v ∈ keys) then default [] (h !! v) else [].
Proof.
  induction keys as [|k keys IH]; [done|]. rewrite list.NoDup_cons. intros [Hk Hnd]. cbn [mbind list_bind].
  rewrite list.filter_app, fmap_app, IH by done. destruct (decide (k = v)) as [->|Hne].
  - rewrite (bool_decide_eq_false_2 (v ∈ keys)), (bool_decide_eq_true_2 (v ∈ v :: keys)) by set_solver. rewrite app_nil_r.
    generalize (default [] (h !! v)). intros l. induction l as [|g l IHl]; [done|]. cbn [fmap list_fmap].
    rewrite filter_cons_True by done. cbn. f_equal. exact IHl.
  - assert (filter (fun e : Z * string => fst e = v) (pair k <$> default [] (h !! k)) = []) as ->.
    { generalize (default [] (h !! k)). intros l. induction l as [|g l IHl]; [done|]. cbn [fmap list_fmap].
      rewrite filter_cons_False by done. exact IHl. }
    cbn. rewrite (bool_decide_ext (v ∈ k :: keys) (v ∈ keys)) by set_solver. done.
Qed.

Lemma entries_ok h : history_ok h -> Forall entry_ok (entries h).
Proof.
  intros H. apply list.Forall_forall. intros [v g] (vol & Hg & _)%list_elem_of_bind.
  apply list_elem_of_fmap in Hg as (gi & [= -> ->] & Hin). destruct (h !! vol) as [gis|] eqn:E; [|by apply elem_of_nil in Hin].
  destruct (H vol gis E) as (Hv & _ & Hall). rewrite list.Forall_forall in Hall. split; [done|]. by apply Hall.
Qed.

Lemma parse_print h : history_ok h -> parse_history (print_history h) = Ok h.
Proof.
  intros H. unfold parse_history. rewrite print_entries, split_entries by (by apply entries_ok).
  rewrite read_entries by (by apply entries_ok). f_equal. apply map_eq. intros v. rewrite add_entries_lookup, lookup_empty.
  unfold entries. rewrite filter_entries by (rewrite merge_sort_Permutation; apply NoDup_fst_map_to_list).
  rewrite (bool_decide_ext _ (is_Some (h !! v))).
  - destruct (h !! v) as [gis|] eqn:E; [|done]. rewrite bool_decide_eq_true_2 by eauto. cbn.
    destruct (H v gis E) as (_ & Hne & _). by destruct gis.
  - rewrite merge_sort_Permutation, list_elem_of_fmap. split.
    + intros ([k x] & -> & Hin%elem_of_map_to_list). eauto.
    + intros [x Hx%elem_of_map_to_list]. by exists (v, x).
Qed.

(** A written record reads back as it was: every volume with its generations in the order
    they were seen. *)
Theorem history_reads_back st w rd h : history_ok h -> w <> NotReplaced ->
  readGIHistory (fst (writeGIHistory w st rd h)) true rd = Ok h.
Proof.
  intros Hh Hw. unfold readGIHistory. destruct w; [done|..]; cbn; rewrite lookup_insert_eq; by apply parse_print.
Qed.

Definition no_record : gi_state := mkGiState ∅ ∅.

Definition example_history : history :=
  {[0 := ["9F00AA11BB22CC33"; "6E3A5D0B2C1F4A96"]; 12 := ["1234567890ABCDEF"]]}.

Lemma history_reads_back_witness :
  readGIHistory (fst (writeGIHistory Replaced no_record "pvc-1" example_history)) true "pvc-1" = Ok example_history.
Proof.
  apply history_reads_back; [|done]. unfold history_ok, is_int32, MinInt32, MaxInt32.
  apply (bool_decide_eq_true_1 _). vm_compute. reflexivity.
Defined.

(** ** The record over time *)

(** What the satellite does to the record, with what came of the reads and writes. *)
Inductive gi_op :=
  | Observe (stateDir readable : bool) (w : write_outcome) (rdName : string) (vol : Z) (generation : string)
  | KeepOf (stateDir readable : bool) (w : write_outcome) (rdName : string) (vols : list Z)
  | Forget (removable : bool) (rdName : string).

Definition gi_step (st : gi_state) (op : gi_op) : gi_state :=
  match op with
  | Observe s r w rd vol g => RecordObservedGI s r w st rd vol g
  | KeepOf s r w rd vols => keepGIHistoryOf s r w st rd vols
  | Forget r rd => fst (forgetGIHistory r st rd)
  end.

(** Volume numbers are 32-bit. *)
Definition gi_op_ok (op : gi_op) : Prop :=
  match op with Observe _ _ _ _ vol _ => is_int32 vol | _ => True end.

(** The record of a volume: at most 32 generations, each once and in upper case. *)
Definition volume_record_ok (gis : list string) : Prop :=
  (length gis <= giHistoryPerVolume)%nat /\ NoDup gis /\ Forall (fun g => Str.to_upper g = g) gis.

Definition record_ok (h : history) : Prop :=
  history_ok h /\ map_Forall (fun _ gis => volume_record_ok gis) h.

Definition files_ok (st : gi_state) : Prop :=
  map_Forall (fun _ data => exists h, record_ok h /\ data = print_history h) (gs_files st).

Lemma read_ok st rd : files_ok st -> exists h, record_ok h /\ readGIHistory st true rd = Ok h.
Proof.
  intros H. unfold readGIHistory. destruct (gs_files st !! rd) as [data|] eqn:E.
  - destruct (H rd data E) as (h & Hh & ->). exists h. split; [done|]. apply parse_print, Hh.
  - exists ∅. split; [split; apply map_Forall_empty|done].
Qed.

Lemma read_ok_of st r rd h : files_ok st -> readGIHistory st r rd = Ok h -> record_ok h.
Proof.
  intros H Hr. destruct (read_ok st rd H) as (h' & Hh & E). unfold readGIHistory in *.
  destruct (gs_files st !! rd), r; simplify_eq; [by rewrite E in Hr; simplify_eq|done].
Qed.

Lemma write_ok w st rd h : files_ok st -> record_ok h -> files_ok (fst (writeGIHistory w st rd h)).
Proof. intros Hst Hh. destruct w; cbn; [done|apply map_Forall_insert_2; [by exists h|done]..]. Qed.

Lemma upper_uuid g : IsGenerationUUID g = true ->
  IsGenerationUUID (Str.to_upper g) = true /\ Str.to_upper (Str.to_upper g) = Str.to_upper g.
Proof.
  rewrite !Generations.uuid_facts. intros (Hl & Hx & Hv). unfold Str.to_upper in *.
  rewrite Hex.length_map_str, all_chars_map, (Hex.hexval_map _ _ Hex.dig_upper). split_and!; [done| |done|].
  - eapply all_chars_impl; [|exact Hx]. intros c. by rewrite Hex.is_hex_upper.
  - clear. induction g as [|c g IH]; cbn; [done|]. f_equal; [|done]. by destruct c as [[] [] [] [] [] [] [] []].
Qed.

Lemma remember_in g known : g ∈ remember known g.
Proof.
  unfold remember. rewrite length_app. cbn. rewrite drop_app_le by (unfold giHistoryPerVolume; lia). set_solver.
Qed.

Lemma remember_ok known g : IsGenerationUUID g = true -> Str.to_upper g = g -> g ∉ known ->
  volume_record_ok known -> volume_record_ok (remember known g).
Proof.
  intros Hg Hup Hn (Hl & Hnd & Hall). unfold remember. split_and!.
  - rewrite length_drop. lia.
  - eapply sublist_NoDup; [|apply sublist_drop]. apply list.NoDup_app. split_and!; [done|set_solver|].
    apply NoDup_singleton.
  - apply Forall_drop, Forall_app. split; [done|]. by apply list.Forall_singleton.
Qed.

Lemma remembered_record_ok h vol g : is_int32 vol -> IsGenerationUUID g = true -> Str.to_upper g = g ->
  record_ok h -> g ∉ default [] (h !! vol) -> record_ok (<[vol := remember (default [] (h !! vol)) g]> h).
Proof.
  intros Hv Hg Hup [Hh Hr] Hn.
  assert (volume_record_ok (default [] (h !! vol)) /\ Forall (fun gi => IsGenerationUUID gi = true) (default [] (h !! vol)))
    as [Hk Hu].
  { destruct (h !! vol) as [gis|] eqn:E; [|repeat split; cbn; try constructor; lia].
    split; [by apply (Hr vol)|by apply (Hh vol)]. }
  split; apply map_Forall_insert_2; try done.
  - split_and!; [done| |apply Forall_drop, Forall_app; split; [done|by apply list.Forall_singleton]].
    pose proof (remember_in g (default [] (h !! vol))). intros E. rewrite E in *. by apply elem_of_nil in H.
  - by apply remember_ok.
Qed.

Lemma gi_step_ok st op : gi_op_ok op -> files_ok st -> files_ok (gi_step st op).
Proof.
  intros Hop Hst. destruct op as [s r w rd vol g|s r w rd vols|r rd]; cbn [gi_step].
  - unfold RecordObservedGI. destruct (negb s || _); [done|]. destruct (IsGenerationUUID g) eqn:Hg; [|done]. cbn [negb].
    case_bool_decide; [done|]. destruct (readGIHistory st r rd) as [h|] eqn:E; [|done].
    case_bool_decide as Hin; [done|]. destruct (upper_uuid g Hg).
    pose proof (write_ok w st rd _ Hst (remembered_record_ok h vol _ Hop ltac:(done) ltac:(done) (read_ok_of _ _ _ _ Hst E) Hin)).
    by destruct (writeGIHistory w st rd _) as [? []].
  - unfold keepGIHistoryOf. destruct s; [cbn [negb]|done]. destruct (readGIHistory st r rd) as [h|] eqn:E; [|done].
    case_bool_decide; [done|]. apply write_ok; [done|]. destruct (read_ok_of _ _ _ _ Hst E).
    split; intros k gis [Hk _]%map_lookup_filter_Some; eauto.
  - unfold forgetGIHistory. destruct (gs_files st !! rd), r; try done. by apply map_Forall_delete.
Qed.

Lemma gi_run_ok st ops : Forall gi_op_ok ops -> files_ok st -> files_ok (foldl gi_step st ops).
Proof. intros H. revert st. induction H as [|op ops Hop _ IH]; intros st Hst; [done|]. cbn. by apply IH, gi_step_ok. Qed.

(** Whatever is observed, kept and forgotten, and whichever reads and writes fail on the way,
    the record of every resource can be read: it lists at most 32 generations of a volume, each
    of them once and in upper case. *)
Theorem record_stays_readable ops rd vol :
  Forall gi_op_ok ops ->
  exists gis, recordedGIs (foldl gi_step no_record ops) true rd vol = Ok gis /\ volume_record_ok gis
    /\ Forall (fun g => IsGenerationUUID g = true) gis.
Proof.
  intros Hops. destruct (read_ok (foldl gi_step no_record ops) rd) as (h & [Hh Hr] & E).
  { apply gi_run_ok; [done|]. apply map_Forall_empty. }
  unfold recordedGIs. rewrite E. cbn [result_bind]. eexists. split; [done|].
  destruct (h !! vol) as [gis|] eqn:El; cbn; [|repeat split; cbn; try constructor; lia].
  split; [by apply (Hr vol)|by apply (Hh vol)].
Qed.

Lemma record_stays_readable_witness : exists gis,
  recordedGIs (foldl gi_step no_record [Observe true true Replaced "pvc-1" 0 "9f00aa11bb22cc33"; Observe true true ReplacedNotSynced "pvc-1" 1 "6E3A5D0B2C1F4A96";
                                        KeepOf true true Replaced "pvc-1" [0]; Forget true "pvc-2"]) true "pvc-1" 0 = Ok gis
  /\ volume_record_ok gis /\ Forall (fun g => IsGenerationUUID g = true) gis.
Proof. apply record_stays_readable. repeat constructor; vm_compute; discriminate. Defined.

(** *** A generation stays recorded *)

(** Whether an operation leaves volume [vol] of [rd] among the ones that are kept. *)
Definition op_keeps (rd : string) (vol : Z) (op : gi_op) : bool :=
  match op with
  | Observe _ _ _ _ _ _ => true
  | KeepOf _ _ _ rd' vols => bool_decide (rd' = rd -> vol ∈ vols)
  | Forget _ rd' => bool_decide (rd' <> rd)
  end.
(** The generation of the volume that an operation saw, as it is recorded; empty and malformed ones are not. *)
Definition op_generation (rd : string) (vol : Z) (op : gi_op) : option string :=
  match op with
  | Observe _ _ _ rd' vol' g => if bool_decide (rd' = rd /\ vol' = vol) && IsGenerationUUID g then Some (Str.to_upper g) else None
  | _ => None
  end.
Definition seen (rd : string) (vol : Z) (ops : list gi_op) : gset string := list_to_set (omap (op_generation rd vol) ops).

(** How one operation changes the record of a volume it keeps. *)
Lemma read_files st st' r rd : gs_files st' !! rd = gs_files st !! rd -> readGIHistory st' r rd = readGIHistory st r rd.
Proof. unfold readGIHistory. by intros ->. Qed.

Lemma read_written w st rd h rd' : record_ok h ->
  readGIHistory (fst (writeGIHistory w st rd h)) true rd'
    = if bool_decide (rd' = rd /\ w <> NotReplaced) then Ok h else readGIHistory st true rd'.
Proof.
  intros [Hh _]. case_bool_decide as Hc.
  - destruct Hc as [-> Hw]. unfold readGIHistory. destruct w; [done|..]; cbn; rewrite lookup_insert_eq; by apply parse_print.
  - apply read_files. destruct w; cbn; [done|..]; rewrite lookup_insert_ne; naive_solver.
Qed.

Lemma read_readable st r rd h : readGIHistory st r rd = Ok h -> readGIHistory st true rd = Ok h.
Proof. unfold readGIHistory. destruct (gs_files st !! rd), r; congruence. Qed.

(** How one operation changes the record of a volume it keeps. *)
Definition record_follows (rd : string) (vol : Z) (st st' : gi_state) (op : gi_op) : Prop :=
  forall h, readGIHistory st true rd = Ok h ->
  exists h', readGIHistory st' true rd = Ok h'
    /\ (h' !! vol = h !! vol
        \/ exists g, op_generation rd vol op = Some g /\ g ∉ default [] (h !! vol) /\ h' !! vol = Some (remember (default [] (h !! vol)) g)).

Lemma same_files_follow rd vol st st' op : gs_files st' = gs_files st -> record_follows rd vol st st' op.
Proof. intros E h Hh. exists h. split; [|by left]. rewrite <- Hh. apply read_files. by rewrite E. Qed.

Lemma observe_follows s r w rd0 vol0 g st rd vol : is_int32 vol0 -> files_ok st ->
  record_follows rd vol st (RecordObservedGI s r w st rd0 vol0 g) (Observe s r w rd0 vol0 g).
Proof.
  intros Hv Hst. unfold RecordObservedGI. destruct (negb s || _); [by apply same_files_follow|].
  destruct (IsGenerationUUID g) eqn:Hg; [|by apply same_files_follow]. cbn [negb].
  case_bool_decide; [by apply same_files_follow|]. destruct (readGIHistory st r rd0) as [h0|] eqn:E; [|by apply same_files_follow].
  case_bool_decide as Hin; [by apply same_files_follow|]. destruct (upper_uuid g Hg) as [Hu Huu].
  pose proof (remembered_record_ok h0 vol0 _ Hv Hu Huu (read_ok_of _ _ _ _ Hst E) Hin) as Hok.
  pose proof (read_written w st rd0 _ rd Hok) as Hrd. set (h1 := <[vol0 := _]> h0) in *.
  intros h Hh. destruct (writeGIHistory w st rd0 h1) as [st1 ok] eqn:Ew. cbn [fst] in Hrd.
  rewrite (read_files st1 (if ok then _ else st1)), Hrd by (by destruct ok).
  case_bool_decide as Hc; [|exists h; split; [done|by left]]. destruct Hc as [-> Hw]. exists h1. split; [done|].
  apply read_readable in E. assert (h0 = h) as -> by congruence. unfold h1. destruct (decide (vol0 = vol)) as [->|Hne].
  - right. exists (Str.to_upper g). cbn. rewrite bool_decide_eq_true_2, Hg by done. split_and!; [done..|]. by rewrite lookup_insert_eq.
  - left. by rewrite lookup_insert_ne.
Qed.

Lemma keep_follows s r w rd0 vols st rd vol : (rd0 = rd -> vol ∈ vols) -> files_ok st ->
  record_follows rd vol st (keepGIHistoryOf s r w st rd0 vols) (KeepOf s r w rd0 vols).
Proof.
  intros Hkeep Hst. unfold keepGIHistoryOf. destruct (negb s); [by apply same_files_follow|].
  destruct (readGIHistory st r rd0) as [h0|] eqn:E; [|by apply same_files_follow].
  case_bool_decide; [by apply same_files_follow|]. intros h Hh.
  rewrite read_written by (destruct (read_ok_of _ _ _ _ Hst E); split; intros k gis [Hk _]%map_lookup_filter_Some; eauto).
  case_bool_decide as Hc; [|exists h; split; [by rewrite <- Hh; apply read_files|by left]]. destruct Hc as [-> Hw].
  apply read_readable in E. assert (h0 = h) as -> by congruence. eexists. split; [done|]. left. rewrite map_lookup_filter.
  destruct (h !! vol); cbn; [|done]. by rewrite option_guard_True by auto.
Qed.

Lemma step_follows st op rd vol : gi_op_ok op -> files_ok st -> op_keeps rd vol op = true ->
  record_follows rd vol st (gi_step st op) op.
Proof.
  intros Hop Hst Hk. destruct op as [s r w rd0 vol0 g|s r w rd0 vols|r rd0]; cbn in Hk; [by apply observe_follows|..].
  - apply bool_decide_eq_true in Hk. by apply keep_follows.
  - apply bool_decide_eq_true in Hk. intros h Hh. exists h. split; [|by left]. rewrite <- Hh. apply read_files.
    cbn. unfold forgetGIHistory. destruct (gs_files st !! rd0), r; cbn; [by rewrite lookup_delete_ne|done..].
Qed.

(** Remembering one more keeps a generation that has fewer than 31 newer ones. *)
Lemma remember_keeps l1 g l2 g' : (length l2 < 31)%nat -> exists l1', remember (l1 ++ g :: l2) g' = l1' ++ g :: (l2 ++ [g']).
Proof.
  intros Hl. unfold remember. rewrite <- (assoc_L (++)), drop_app_le; [eauto|].
  rewrite !length_app. cbn [length]. rewrite ?length_app. cbn. unfold giHistoryPerVolume. lia.
Qed.

Lemma newer_bound st rd vol h l1 g l2 : files_ok st -> readGIHistory st true rd = Ok h -> default [] (h !! vol) = l1 ++ g :: l2 -> NoDup l2 /\ g ∉ l2.
Proof.
  intros Hst E Hg. destruct (read_ok_of _ _ _ _ Hst E) as [_ Hr]. destruct (h !! vol) as [gis|] eqn:El; [|by destruct l1].
  destruct (Hr vol gis El) as (_ & Hnd & _). cbn in Hg. subst gis. apply list.NoDup_app in Hnd as (_ & _ & Hnd). by apply list.NoDup_cons in Hnd as [? ?].
Qed.
Lemma seen_cons rd vol op ops : seen rd vol (op :: ops) = match op_generation rd vol op with Some g => {[g]} | None => ∅ end ∪ seen rd vol ops.
Proof. unfold seen. cbn. destruct (op_generation rd vol op); cbn; set_solver. Qed.

(** C18: A generation on record stays on record: from a state directory whose files are well formed, as long
    as the volume is kept and the resource is not forgotten, it takes 32 different newer generations of that
    volume to push it out: those listed after it and those seen since, a generation seen again counting once
    and itself not at all; whatever else is recorded, kept or forgotten and whichever reads and writes fail
    (volume numbers are int32). *)
Theorem generation_stays_recorded st rd vol l1 g l2 ops :
  files_ok st -> recordedGIs st true rd vol = Ok (l1 ++ g :: l2) ->
  Forall gi_op_ok ops -> Forall (fun op => op_keeps rd vol op = true) ops ->
  (size ((list_to_set l2 ∪ seen rd vol ops) ∖ {[g]}) < giHistoryPerVolume)%nat ->
  exists gis, recordedGIs (foldl gi_step st ops) true rd vol = Ok gis /\ g ∈ gis.
Proof.
  intros Hst Hg Hops Hkeep. revert st l1 l2 Hst Hg. induction ops as [|op ops IH]; intros st l1 l2 Hst Hg Hlen.
  { exists (l1 ++ g :: l2). split; [done|]. set_solver. }
  apply list.Forall_cons in Hops as [Hop Hops], Hkeep as [Hk Hkeep]. cbn [foldl].
  unfold recordedGIs in Hg. destruct (readGIHistory st true rd) as [h|] eqn:E; [|done]. cbn [result_bind] in Hg. injection Hg as Hg.
  pose proof (newer_bound st rd vol h l1 g l2 Hst E Hg) as Hnewer. rewrite seen_cons in Hlen.
  destruct (step_follows st op rd vol Hop Hst Hk h E) as (h' & E' & Hfol). pose proof (gi_step_ok st op Hop Hst).
  destruct Hfol as [Hsame|(g' & Ho & Hnew & Hrec)].
  - eapply (IH ltac:(done) ltac:(done) _ l1 l2); [done| |eapply Nat.le_lt_trans; [|exact Hlen]; apply subseteq_size; set_solver].
    unfold recordedGIs. rewrite E'. cbn. by rewrite Hsame, Hg.
  - rewrite Ho in Hlen. cbn in Hlen. rewrite Hg in Hnew, Hrec. destruct (remember_keeps l1 g l2 g') as [l1' Hr].
    { eapply Nat.le_lt_trans in Hlen; [|apply (subseteq_size (list_to_set (g' :: l2))); set_solver].
      rewrite size_list_to_set in Hlen; [cbn in Hlen; unfold giHistoryPerVolume in Hlen; lia|]. apply list.NoDup_cons. split; [set_solver|apply Hnewer]. }
    eapply (IH ltac:(done) ltac:(done) _ l1' (l2 ++ [g'])); [done| |eapply Nat.le_lt_trans; [|exact Hlen]; apply subseteq_size; set_solver].
    unfold recordedGIs. rewrite E'. cbn. by rewrite Hrec, <- Hr.
Qed.

Definition example_record : gi_state :=
  RecordObservedGI true true Replaced (RecordObservedGI true true Replaced no_record "pvc-1" 0 "9f00aa11bb22cc33") "pvc-1" 0 "6E3A5D0B2C1F4A96".

Lemma generation_stays_recorded_witness : exists gis,
  recordedGIs (foldl gi_step example_record [Observe true true Replaced "pvc-1" 0 "1234567890abcdef"; KeepOf true true Replaced "pvc-1" [0];
                                             Forget true "pvc-2"]) true "pvc-1" 0 = Ok gis /\ "9F00AA11BB22CC33" ∈ gis.
Proof.
  apply (generation_stays_recorded example_record "pvc-1" 0 [] "9F00AA11BB22CC33" ["6E3A5D0B2C1F4A96"]).
  - apply (gi_run_ok no_record [Observe true true Replaced "pvc-1" 0 "9f00aa11bb22cc33"; Observe true true Replaced "pvc-1" 0 "6E3A5D0B2C1F4A96"]);
      [repeat constructor; vm_compute; discriminate|apply map_Forall_empty].
  - vm_compute. reflexivity.
  - repeat constructor; vm_compute; discriminate.
  - repeat constructor; vm_compute; reflexivity.
  - vm_compute. lia.
Defined.
