(* ===== verification/DrbdAdm.v ===== *)
(** * The commands of the DRBD tools

    Models the drivers of [pkg/drbd/drbdadm.go] and [pkg/drbd/dumpmd.go] that run a command: which
    command line each runs, and what it makes of the answer. The tools are a parameter, a function
    from a state and a command line to an answer and the next state. A run keeps the trace of the
    commands with their answers, and [spec] is the logic the properties of runs are proved in. *)

From Stdlib Require Import Ascii.
From S2P Require Import Prelude GoStrings DrbdAlloc DrbdText DrbdStatus.
Import Alloc.

Notation cmd := (list string).
Notation event := (cmd * answer)%type.

Section Shell.
Context {W : Type} (exec : W -> cmd -> answer * W).

Definition shell (A : Type) : Type := W * list event -> A * (W * list event).

#[global] Instance shell_ret : MRet shell := fun A a s => (a, s).
#[global] Instance shell_bind : MBind shell := fun A B f m s => let '(a, s') := m s in f a s'.

(** [storage.Exec.Run] *)
Definition run (c : cmd) : shell answer := fun s =>
  let '(w, log) := s in
  let '(a, w') := exec w c in (a, (w', log ++ [(c, a)])).

(** [errors.Wrapf]: the text of a wrapped error. *)
Definition wrapf (msg : string) (err : option string) : option string :=
  (fun e => msg +:+ ": " +:+ e) <$> err.

(** ** Specifications of runs *)

(** Started anywhere, [m] returns, adds its events to the trace, and answer and events satisfy
    [Q]. *)
Definition spec {A} (m : shell A) (Q : A -> list event -> Prop) : Prop :=
  forall w log, exists a w' evs, m (w, log) = (a, (w', log ++ evs)) /\ Q a evs.

Lemma spec_ret {A} (a : A) (Q : A -> list event -> Prop) : Q a [] -> spec (mret a) Q.
Proof. intros H w log. exists a, w, []. by rewrite app_nil_r. Qed.

Lemma spec_bind {A B} (m : shell A) (f : A -> shell B) (Q : A -> list event -> Prop) (R : B -> list event -> Prop) :
  spec m Q -> (forall a evs, Q a evs -> spec (f a) (fun b evs' => R b (evs ++ evs'))) -> spec (m ≫= f) R.
Proof.
  intros Hm Hf w log. destruct (Hm w log) as (a & w1 & evs & E & Ha). destruct (Hf a evs Ha w1 (log ++ evs)) as (b & w2 & evs' & E' & Hb).
  exists b, w2, (evs ++ evs'). split; [|done]. unfold mbind, shell_bind. rewrite E, E'. by rewrite (assoc_L (++)).
Qed.

Lemma spec_run c (Q : answer -> list event -> Prop) : (forall a, Q a [(c, a)]) -> spec (run c) Q.
Proof. intros H w log. unfold run. destruct (exec w c) as [a w']. exists a, w', [(c, a)]. auto. Qed.

Lemma spec_mono {A} (m : shell A) (Q R : A -> list event -> Prop) :
  spec m Q -> (forall a evs, Q a evs -> R a evs) -> spec m R.
Proof. intros H HQ w log. destruct (H w log) as (a & w' & evs & E & Ha). eauto 6. Qed.

(** ** drbdadm *)

Definition drbdadm (args : list string) : shell (option string) :=
  a ← run ("drbdadm" :: args); mret (wrapf ("drbdadm " +:+ default "" (head args)) (fst a)).

(** [fmt.Sprintf("%s/%d", resource, volume)] *)
Definition volume_target (resource : string) (volume : Z) : string := resource +:+ "/" +:+ format_int volume.

Definition Up (resource : string) := drbdadm ["up"; resource].
Definition Down (resource : string) := drbdadm ["down"; resource].
Definition Adjust (resource : string) := drbdadm ["adjust"; resource].
Definition AdjustSkipDisk (resource : string) := drbdadm ["adjust"; "--skip-disk"; resource].
Definition AdjustSkipNet (resource : string) := drbdadm ["adjust"; "--skip-net"; resource].
Definition AdjustSkipNetSkipDisk (resource : string) := drbdadm ["adjust"; "--skip-net"; "--skip-disk"; resource].
Definition InvalidateVolume (resource : string) (volume : Z) := drbdadm ["invalidate"; volume_target resource volume].

Definition create_md_args (resource : string) : list string :=
  ["create-md"; "--force"; "--max-peers=" +:+ format_int (MaxPeers - 1); resource].
Definition CreateMD (resource : string) := drbdadm (create_md_args resource).

Definition Primary (resource : string) := drbdadm ["primary"; resource].
Definition PrimaryForce (resource : string) := drbdadm ["primary"; "--force"; resource].
Definition Secondary (resource : string) := drbdadm ["secondary"; resource].
Definition Detach (resource : string) := drbdadm ["detach"; "--force"; resource].
Definition Attach (resource : string) := drbdadm ["attach"; resource].
Definition Resize (resource : string) (assumeClean : bool) :=
  if assumeClean then drbdadm ["resize"; "--assume-clean"; resource] else drbdadm ["resize"; resource].
Definition Verify (resource : string) := drbdadm ["verify"; resource].
Definition Invalidate (resource : string) := drbdadm ["invalidate"; resource].
Definition NewCurrentUUID (resource : string) := drbdadm ["new-current-uuid"; resource].
Definition PauseSync (resource : string) := drbdadm ["pause-sync"; resource].
Definition ResumeSync (resource : string) := drbdadm ["resume-sync"; resource].
Definition Outdate (resource : string) := drbdadm ["outdate"; resource].
Definition ApplyAL (resource : string) := drbdadm ["apply-al"; resource].

(** [drbdadm] with the subcommand and the resource in the text of the error. *)
Definition io_verb (verb resource : string) : shell (option string) :=
  a ← run ["drbdadm"; verb; resource]; mret (wrapf ("drbdadm " +:+ verb +:+ " " +:+ resource) (fst a)).
Definition SuspendIO (resource : string) := io_verb "suspend-io" resource.
Definition ResumeIO (resource : string) := io_verb "resume-io" resource.

Definition not_in_config (text : string) : bool := contains "not defined in your config" text.

(** A peer that the configuration no longer names is gone already. *)
Definition DelPeer (resource peerNode : string) : shell (option string) :=
  let target := peerNode +:+ ":" +:+ resource in
  _ ← run ["drbdadm"; "disconnect"; target];
  a ← run ["drbdadm"; "del-peer"; target];
  mret (match a with
        | (None, _) => None
        | (Some err, out) => if not_in_config out || not_in_config err then None
                             else wrapf ("drbdadm del-peer " +:+ target) (Some err)
        end).

(** ** drbdsetup and drbdmeta *)

Definition SetupDown (resource : string) : shell (option string) :=
  a ← run ["drbdsetup"; "down"; resource]; mret (wrapf ("drbdsetup down " +:+ resource) (fst a)).

Definition ForgetPeer (resource : string) (peerNodeID : Z) : shell (option string) :=
  a ← run ["drbdsetup"; "forget-peer"; resource; format_int peerNodeID];
  mret (wrapf ("drbdsetup forget-peer " +:+ resource +:+ " " +:+ format_int peerNodeID) (fst a)).

Definition drbdmetaNoMinor : string := "-".
Definition drbdmeta (device : string) (args : list string) : cmd :=
  ["drbdmeta"; "--force"; drbdmetaNoMinor; "v09"; device; "internal"] ++ args.

Definition set_gi (device : string) (peerNodeID : Z) (gi : string) : cmd :=
  drbdmeta device ["set-gi"; "--node-id"; format_int peerNodeID; gi].

Definition SetGIString (resource : string) (volume : Z) (device : string) (peerNodeID : Z) (gi : string) : shell (option string) :=
  a ← run (set_gi device peerNodeID gi);
  mret (wrapf ("drbdmeta set-gi " +:+ volume_target resource volume +:+ " --node-id " +:+ format_int peerNodeID) (fst a)).

Definition SetGI (resource : string) (volume : Z) (device : string) (peerNodeID : Z) (peerCurrentGI : string) :=
  SetGIString resource volume device peerNodeID (peerCurrentGI +:+ ":" +:+ peerCurrentGI +:+ ":0:0").

Definition WipeMd (resource : string) (volume : Z) (device : string) : shell (option string) :=
  a ← run (drbdmeta device ["wipe-md"]); mret (wrapf ("drbdmeta wipe-md " +:+ volume_target resource volume) (fst a)).

Definition ShowGI (resource : string) (volume : Z) (device : string) : shell (result string string) :=
  a ← run (drbdmeta device ["show-gi"]);
  mret (match wrapf ("drbdmeta show-gi " +:+ volume_target resource volume) (fst a) with
        | Some e => Err e
        | None => Ok (snd a)
        end).

Definition GetGI (resource : string) (volume : Z) (device : string) : shell (result string string) :=
  a ← run (drbdmeta device ["get-gi"; "--node-id"; "0"]);
  mret (match wrapf ("drbdmeta get-gi " +:+ volume_target resource volume) (fst a) with
        | Some e => Err e
        | None => Ok (Str.trim_space (snd a))
        end).

(** ** Probes *)

Definition dump_md (target : string) : cmd := ["drbdadm"; "dump-md"; target].
Definition HasMD (target : string) : shell (result md_err bool) :=
  a ← run (dump_md target); mret (DrbdStatus.HasMD a).

(** The scanner splits the dump at newlines and gives up on a line of 16 MiB. *)
Definition dumpLineMax : Z := 16 * 2 ^ 20.
Definition dump_uuids (out : string) : result DumpMd.dump_err (list string) :=
  DumpMd.ParseMetadataUUIDs (lines out) (existsb (fun l => dumpLineMax <=? Z.of_nat (String.length l)) (lines out)).

Definition MetadataUUIDs (target : string) : shell (option (list string)) :=
  a ← run (dump_md target);
  mret (match a with
        | (Some _, _) => None
        | (None, out) => match dump_uuids out with Ok uuids => Some uuids | Err _ => None end
        end).

Definition status_text : cmd := ["drbdsetup"; "status"; "--verbose"].
Definition status_json (resource : string) : cmd := ["drbdsetup"; "status"; resource; "--json"].

End Shell.

Arguments spec_bind {W A B} m f Q R.
