(* ===== verification/Lsblk.v ===== *)
(** * Block devices as lsblk lists them

    Models [pkg/satellite/lsblk.go] (the parser of [lsblk -P], the devices that may be offered)
    and [pkg/satellite/discardgran.go] with [providerkind.go] (the disk options derived from a
    backing device's discard granularity). *)

From Stdlib Require Import Ascii DecimalString.
From S2P Require Import Prelude GoStrings DrbdStates DrbdStatus DrbdAdm Dispatcher.

(** ** A row of [lsblk -P] *)

Definition quote : ascii := "034"%char.

Fixpoint skip_spaces (s : string) : string :=
  match s with
  | String " "%char s' => skip_spaces s'
  | _ => s
  end.

(** The loop over the row; every round reads an [=] and a quote. *)
Fixpoint parse_pairs (fuel : nat) (line : string) (out : gmap string string) : gmap string string :=
  match fuel with
  | O => out
  | S fuel =>
      match Str.cut "=" (skip_spaces line) with
      | None => out
      | Some (key, rest) =>
          match rest with
          | String c rest =>
              if Ascii.eqb c quote then
                match Str.cut quote rest with
                | Some (val, rest) => parse_pairs fuel rest (<[key := val]> out)
                | None => <[key := rest]> out
                end
              else out
          | EmptyString => out
          end
      end
  end.

Definition parseLsblkLine (line : string) : gmap string string := parse_pairs (String.length line) line ∅.

(** ** Devices *)

Record LsblkDevice := mkLsblkDevice {
  ld_Name : string;
  ld_KName : string;
  ld_SizeBytes : Z;
  ld_FSType : string;
  ld_Type : string;
  ld_Mountpoint : string;
  ld_WWN : string;
  ld_Model : string;
  ld_Serial : string;
  ld_Rotational : bool;
  ld_Transport : string;
  ld_Major : Z;
  ld_PKName : string;
}.

Definition LsblkTypeDisk : string := "disk".
Definition MajorDRBD : Z := 147.

Definition IsFreeBlockDevice (d : LsblkDevice) : bool :=
  if negb (bool_decide (ld_Type d = LsblkTypeDisk)) then false
  else if negb (bool_decide (ld_FSType d = "")) then false
  else if negb (bool_decide (ld_Mountpoint d = "")) then false
  else if bool_decide (ld_Major d = MajorDRBD) then false
  else true.

(** The number before the colon of [MAJ:MIN]; 0 when there is none. *)
Definition major_of (majmin : string) : Z :=
  match Str.cut ":" majmin with
  | Some (maj, _) => if bool_decide (maj = "") then 0 else default 0 (parse_int 64 maj)
  | None => 0
  end.

Definition device_of_fields (fields : gmap string string) : LsblkDevice :=
  mkLsblkDevice (get fields "NAME") (get fields "KNAME") (default 0 (parse_int 64 (get fields "SIZE")))
    (get fields "FSTYPE") (get fields "TYPE") (get fields "MOUNTPOINT") (get fields "WWN")
    (Str.trim_space (get fields "MODEL")) (Str.trim_space (get fields "SERIAL"))
    (bool_decide (get fields "ROTA" = "1")) (get fields "TRAN") (major_of (get fields "MAJ:MIN")) (get fields "PKNAME").

Definition nonblank_lines (raw : string) : list string :=
  filter (fun l => l <> "") (map Str.trim_space (lines raw)).

Definition parseLsblkPairs (raw : string) : list LsblkDevice :=
  map (fun line => device_of_fields (parseLsblkLine line)) (nonblank_lines raw).

Definition lsblk_columns : string := "NAME,KNAME,PKNAME,MAJ:MIN,SIZE,FSTYPE,TYPE,MOUNTPOINT,WWN,MODEL,SERIAL,ROTA,TRAN".

(** ** Provider kinds *)

Definition ProviderKindLVM : string := "LVM".
Definition ProviderKindLVMThin : string := "LVM_THIN".
Definition ProviderKindZFS : string := "ZFS".
Definition ProviderKindZFSThin : string := "ZFS_THIN".
Definition ProviderKindFile : string := "FILE".
Definition ProviderKindFileThin : string := "FILE_THIN".
Definition ProviderKindDiskless : string := "DISKLESS".

Definition IsThinOrZFS (kind : string) : bool :=
  one_of kind [ProviderKindLVMThin; ProviderKindZFSThin; ProviderKindZFS; ProviderKindFileThin].
Definition discardZeroesIfAligned (kind : string) : bool :=
  one_of kind [ProviderKindLVMThin; ProviderKindZFS; ProviderKindZFSThin; ProviderKindFileThin].
Definition rsDiscardGranularitySafe (kind : string) : bool :=
  one_of kind [ProviderKindLVMThin; ProviderKindZFS; ProviderKindZFSThin].

(** ** Discard options *)

Definition diskOptRsDiscardGranularity : string := "rs-discard-granularity".
Definition diskOptDiscardZeroesAligned : string := "discard-zeroes-if-aligned".
Definition drbdYes : string := "yes".
Definition drbdNo : string := "no".
Definition drbdDiscGranMinBytes : Z := 4 * 1024.
Definition drbdDiscGranMaxBytes : Z := 1 * 1024 * 1024.

Definition clampDiscardGranularity (gran : Z) : Z :=
  if gran <? drbdDiscGranMinBytes then drbdDiscGranMinBytes
  else if drbdDiscGranMaxBytes <? gran then drbdDiscGranMaxBytes
  else gran.

Definition disc_gran_of (line : string) : option Z :=
  valStr ← parseLsblkLine line !! "DISC-GRAN";
  let valStr := Str.trim_space valStr in
  if bool_decide (valStr = "") then None else parse_int 64 valStr.

Definition parseDiscGran (raw : string) : option Z := head (omap disc_gran_of (nonblank_lines raw)).

Definition smallerNumeric (left right : string) : bool :=
  match parse_int 64 left, parse_int 64 right with
  | Some l, Some r => l <? r
  | _, _ => false
  end.

Definition merge_option (acc : gmap string string) (kv : string * string) : gmap string string :=
  let '(key, val) := kv in
  if bool_decide (key = diskOptRsDiscardGranularity) then
    match acc !! key with
    | Some prev => if smallerNumeric val prev then <[key := val]> acc else acc
    | None => <[key := val]> acc
    end
  else if bool_decide (key = diskOptDiscardZeroesAligned) then
    if bool_decide (get acc key = drbdNo) then acc else <[key := val]> acc
  else <[key := val]> acc.

(** The order of the map's entries does not matter: each touches its own key. *)
Definition mergeResourceDiscardOptions (acc volOpts : gmap string string) : gmap string string :=
  foldl merge_option acc (map_to_list volOpts).

Definition gran_cmd (devicePath : string) : cmd := ["lsblk"; "-Pbndo"; "DISC-GRAN"; devicePath].

Definition probed_granularity (a : answer) : option Z :=
  match a with
  | (Some _, _) => None
  | (None, out) => gran ← parseDiscGran out; if gran <=? 0 then None else Some (clampDiscardGranularity gran)
  end.

Section Probe.
Context {W : Type} (exec : W -> cmd -> answer * W).
#[local] Notation shell := (shell (W := W)).
#[local] Notation run := (run exec).

Definition Lsblk : shell (option (list LsblkDevice)) :=
  a ← run ["lsblk"; "-Pb"; "-o"; lsblk_columns];
  mret (match a with (Some _, _) => None | (None, out) => Some (parseLsblkPairs out) end).

Definition discardGranularityBytes (devicePath : string) : shell (option Z) :=
  a ← run (gran_cmd devicePath); mret (probed_granularity a).

Definition zeroes_option (kind : string) : gmap string string :=
  {[diskOptDiscardZeroesAligned := if discardZeroesIfAligned kind then drbdYes else drbdNo]}.

Definition autoDiskOptions (providerKind devicePath : string) : shell (gmap string string) :=
  let out := zeroes_option providerKind in
  if negb (rsDiscardGranularitySafe providerKind) then mret out
  else if bool_decide (devicePath = "") then mret out
  else
    gran ← discardGranularityBytes devicePath;
    mret (match gran with
          | Some g => <[diskOptRsDiscardGranularity := format_int g]> out
          | None => out
          end).

(** The volumes in turn; [None] when a volume's pool has no provider. *)
Fixpoint auto_volumes (providers : gmap string string) (devices : gmap Z string) (vols : list DesiredVolume)
    (out : gmap string string) : shell (option (gmap string string)) :=
  match vols with
  | [] => mret (Some out)
  | vol :: rest =>
      match providers !! dv_StoragePool vol with
      | None => mret None
      | Some kind =>
          volOpts ← autoDiskOptions kind (default "" (devices !! dv_VolumeNumber vol));
          auto_volumes providers devices rest (mergeResourceDiscardOptions out volOpts)
      end
  end.

Definition isDiskless (flags : list string) : bool := bool_decide ("DISKLESS" ∈ flags).

(** [providers]: the kind of each registered pool; a nil provider is no provider. [None] and an
    empty map render alike. *)
Definition autoDiskOptionsForResource (hasExec : bool) (providers : gmap string string) (dr : DesiredResource)
    (devices : gmap Z string) : shell (gmap string string) :=
  if negb hasExec then mret ∅
  else if isDiskless (dr_Flags dr) then mret ∅
  else out ← auto_volumes providers devices (dr_Volumes dr) ∅; mret (default ∅ out).

End Probe.

(** ** The parser reads back what lsblk prints *)

Definition quoted (s : string) : string := String quote (s +:+ String quote "").
Definition pair_text (p : string * string) : string := fst p +:+ "=" +:+ quoted (snd p).
Definition row_tail (l : list (string * string)) : string := foldr (fun p s => " " +:+ pair_text p +:+ s) "" l.

Definition pair_ok (p : string * string) : Prop :=
  Str.contains_char "=" (fst p) = false /\ Str.contains_char " " (fst p) = false
  /\ Str.contains_char quote (snd p) = false.

(** Whatever fuel covers the row gives the same fields: the loop ends by itself. *)
Lemma cut_shorter c s a b : Str.cut c s = Some (a, b) -> (String.length b < String.length s)%nat.
Proof.
  revert a; induction s as [|d s IH]; intros a; cbn; [done|]. destruct (Ascii.eqb d c); [intros [= <- <-]; lia|].
  destruct (Str.cut c s) as [[a' b']|]; [|done]. intros [= <- <-]. specialize (IH _ eq_refl). lia.
Qed.

Lemma skip_spaces_shorter s : (String.length (skip_spaces s) <= String.length s)%nat.
Proof. induction s as [|c s IH]; [done|]. destruct c as [[] [] [] [] [] [] [] []]; cbn; lia. Qed.

Lemma parse_pairs_fuel n : forall m line out, (String.length line <= n)%nat -> (n <= m)%nat ->
  parse_pairs m line out = parse_pairs n line out.
Proof.
  induction n as [|n IH]; intros m line out Hl Hm.
  { destruct line; [|cbn in Hl; lia]. by destruct m. }
  destruct m as [|m]; [lia|]. cbn [parse_pairs]. destruct (Str.cut "=" (skip_spaces line)) as [[key rest]|] eqn:E; [|done].
  destruct rest as [|c rest]; [done|]. destruct (Ascii.eqb c quote); [|done].
  destruct (Str.cut quote rest) as [[val rest']|] eqn:E'; [|done].
  apply cut_shorter in E, E'. pose proof (skip_spaces_shorter line). cbn [String.length] in E. apply IH; lia.
Qed.

Lemma skip_spaces_word k s : Str.contains_char " " k = false -> k <> "" -> skip_spaces (k +:+ s) = k +:+ s.
Proof.
  destruct k as [|c k]; [done|]. rewrite StrFacts.app_cons. cbn. intros [Hc _]%orb_false_iff _.
  by destruct c as [[] [] [] [] [] [] [] []].
Qed.

Lemma parse_pair n p s out : pair_ok p ->
  parse_pairs (S n) (pair_text p +:+ s) out = parse_pairs n s (<[fst p := snd p]> out).
Proof.
  destruct p as [k v]. intros (Hk & Hs & Hv). unfold pair_text, quoted. cbn [fst snd] in *.
  change ("=" +:+ ?x) with (String "=" x). rewrite StrFacts.app_assoc, StrFacts.app_cons.
  change ((String quote ?x) +:+ s) with (String quote (x +:+ s)). rewrite StrFacts.app_assoc.
  change (String quote "" +:+ s) with (String quote s). cbn [parse_pairs].
  replace (skip_spaces _) with (k +:+ String "=" (String quote (v +:+ String quote s))).
  - by rewrite !StrFacts.cut_app by done.
  - symmetry. destruct (decide (k = "")) as [->|Hne]; [done|]. by apply skip_spaces_word.
Qed.

Lemma parse_tail l : forall n out, Forall pair_ok l -> (length l <= n)%nat ->
  parse_pairs n (row_tail l) out = foldl (fun m p => <[fst p := snd p]> m) out l.
Proof.
  induction l as [|p l IH]; intros n out; [by destruct n|]. rewrite list.Forall_cons. intros [Hp Hl] Hn. cbn in Hn.
  destruct n as [|n]; [lia|]. cbn [row_tail foldr foldl]. fold (row_tail l).
  transitivity (parse_pairs (S n) (pair_text p +:+ row_tail l) out); [done|]. rewrite parse_pair by done. apply IH; [done|lia].
Qed.

(** What lsblk prints for a device. *)
Definition row_of (d : LsblkDevice) (minor : Z) : list (string * string) :=
  [("NAME", ld_Name d); ("KNAME", ld_KName d); ("PKNAME", ld_PKName d);
   ("MAJ:MIN", format_int (ld_Major d) +:+ ":" +:+ format_int minor); ("SIZE", format_int (ld_SizeBytes d));
   ("FSTYPE", ld_FSType d); ("TYPE", ld_Type d); ("MOUNTPOINT", ld_Mountpoint d); ("WWN", ld_WWN d); ("MODEL", ld_Model d);
   ("SERIAL", ld_Serial d); ("ROTA", if ld_Rotational d then "1" else "0"); ("TRAN", ld_Transport d)].

Definition text_ok (s : string) : Prop := Str.contains_char quote s = false /\ Str.contains_char "010" s = false.
Definition device_ok (d : LsblkDevice) : Prop :=
  Forall text_ok [ld_Name d; ld_KName d; ld_PKName d; ld_FSType d; ld_Type d; ld_Mountpoint d; ld_WWN d; ld_Model d;
                  ld_Serial d; ld_Transport d]
  /\ Str.trim_space (ld_Model d) = ld_Model d /\ Str.trim_space (ld_Serial d) = ld_Serial d
  /\ is_int64 (ld_SizeBytes d) /\ is_int64 (ld_Major d).

Lemma row_ok d minor : device_ok d -> Forall pair_ok (row_of d minor).
Proof.
  intros (Ht & _). repeat (apply list.Forall_cons in Ht as [[? ?] Ht]).
  unfold row_of. repeat (apply list.Forall_cons; split); try apply list.Forall_nil_2; (split; [done|]); (split; [done|]); cbn [snd]; try done.
  - by rewrite !StrFacts.contains_char_app, !format_int_no.
  - by apply format_int_no.
  - by destruct (ld_Rotational d).
Qed.

Lemma fields_lookup l : forall (m : gmap string string) k v, NoDup l.*1 -> (k, v) ∈ l ->
  foldl (fun m p => <[fst p := snd p]> m) m l !! k = Some v.
Proof.
  assert (forall l (m : gmap string string) k, k ∉ l.*1 -> foldl (fun m p => <[fst p := snd p]> m) m l !! k = m !! k) as Hno.
  { clear. intros l. induction l as [|p l IH]; intros m k Hk; [done|]. cbn. rewrite IH by set_solver.
    apply lookup_insert_ne. set_solver. }
  induction l as [|p l IH]; intros m k v; [by intros _ ?%elem_of_nil|]. cbn. rewrite list.NoDup_cons.
  intros [Hp Hnd] [<-|Hin]%elem_of_cons; [|by apply IH]. cbn in *. rewrite Hno by done. apply lookup_insert_eq.
Qed.

Definition row_text (d : LsblkDevice) (minor : Z) : string :=
  match row_of d minor with p :: rest => pair_text p +:+ row_tail rest | [] => "" end.

Definition fields_of (d : LsblkDevice) (minor : Z) : gmap string string :=
  foldl (fun m p => <[fst p := snd p]> m) ∅ (row_of d minor).

Lemma parse_row d minor : device_ok d -> parseLsblkLine (row_text d minor) = fields_of d minor.
Proof.
  intros Hd. pose proof (row_ok d minor Hd) as Hok. unfold parseLsblkLine, fields_of.
  transitivity (parse_pairs (13 + String.length (row_text d minor)) (row_text d minor) ∅).
  { symmetry. apply parse_pairs_fuel; lia. }
  set (n := (12 + String.length (row_text d minor))%nat). change (13 + _)%nat with (S n). unfold row_text.
  destruct (row_of d minor) as [|p rest] eqn:E; [done|]. apply list.Forall_cons in Hok as [Hp Hr].
  rewrite parse_pair by done. cbn [foldl]. apply parse_tail; [done|]. unfold row_of in E. injection E as <- <-. cbn. lia.
Qed.

Lemma device_of_row d minor : device_ok d -> device_of_fields (fields_of d minor) = d.
Proof.
  intros (_ & Hm & Hs & Hsz & Hmaj).
  assert (forall k v, (k, v) ∈ row_of d minor -> get (fields_of d minor) k = v) as Hget.
  { intros k v Hin. unfold get, fields_of. rewrite (fields_lookup _ ∅ k v); [done| |done].
    apply (bool_decide_eq_true_1 (NoDup ["NAME"; "KNAME"; "PKNAME"; "MAJ:MIN"; "SIZE"; "FSTYPE"; "TYPE"; "MOUNTPOINT"; "WWN"; "MODEL";
      "SERIAL"; "ROTA"; "TRAN"])). vm_compute. reflexivity. }
  assert (forall k v n, row_of d minor !! n = Some (k, v) -> get (fields_of d minor) k = v) as Hn.
  { intros k v n E. apply Hget. by eapply list_elem_of_lookup_2. }
  unfold device_of_fields.
  rewrite (Hn "NAME" _ 0%nat eq_refl), (Hn "KNAME" _ 1%nat eq_refl), (Hn "PKNAME" _ 2%nat eq_refl), (Hn "MAJ:MIN" _ 3%nat eq_refl),
    (Hn "SIZE" _ 4%nat eq_refl), (Hn "FSTYPE" _ 5%nat eq_refl), (Hn "TYPE" _ 6%nat eq_refl), (Hn "MOUNTPOINT" _ 7%nat eq_refl),
    (Hn "WWN" _ 8%nat eq_refl), (Hn "MODEL" _ 9%nat eq_refl), (Hn "SERIAL" _ 10%nat eq_refl), (Hn "ROTA" _ 11%nat eq_refl),
    (Hn "TRAN" _ 12%nat eq_refl).
  unfold major_of. change (":" +:+ ?x) with (String ":" x). rewrite StrFacts.cut_app by (by apply format_int_no).
  rewrite (bool_decide_eq_false_2 (format_int (ld_Major d) = "")) by (unfold format_int; destruct (Z.to_int (ld_Major d)); [apply StrFacts.uint0_nonempty|done]).
  unfold is_int64, MinInt64, MaxInt64 in *. rewrite !parse_int_format by (cbn; lia). cbn [default].
  rewrite Hm, Hs. destruct d as [a1 a2 a3 a4 a5 a6 a7 a8 a9 rota a11 a12 a13]; cbn. f_equal. by destruct rota.
Qed.

Lemma row_trimmed d minor : Str.trim_space (row_text d minor) = row_text d minor /\ row_text d minor <> "".
Proof.
  split; [|by unfold row_text, row_of, pair_text].
  set (body := "AME=" +:+ quoted (ld_Name d)
    +:+ row_tail (take 11 (drop 1 (row_of d minor))) +:+ " TRAN=" +:+ String quote (ld_Transport d)).
  replace (row_text d minor) with ("" +:+ (String "N" body +:+ String quote "")).
  - rewrite trim_space_framed; done.
  - unfold body, row_text, row_of, pair_text, quoted. cbn [fst snd take drop row_tail foldr].
    change ("" +:+ ?x) with x. rewrite !StrFacts.app_assoc. rewrite !StrFacts.app_cons.
    repeat (rewrite ?StrFacts.app_assoc, ?StrFacts.app_cons, ?StrFacts.app_nil_r). reflexivity.
Qed.

Lemma format_int_one_line z : Str.contains_char "010" (format_int z) = false.
Proof. by apply format_int_no. Qed.

Lemma pair_one_line k v : Str.contains_char "010" k = false -> Str.contains_char "010" v = false ->
  Str.contains_char "010" (pair_text (k, v)) = false.
Proof.
  intros Hk Hv. unfold pair_text, quoted. cbn [fst snd]. rewrite !StrFacts.contains_char_app, Hk. cbn.
  by rewrite StrFacts.contains_char_app, Hv.
Qed.

Lemma tail_one_line l : Forall (fun p => Str.contains_char "010" (pair_text p) = false) l -> Str.contains_char "010" (row_tail l) = false.
Proof.
  induction 1 as [|p l Hp _ IH]; [done|]. cbn [row_tail foldr]. fold (row_tail l). by rewrite !StrFacts.contains_char_app, Hp, IH.
Qed.

Lemma row_one_line d minor : device_ok d -> Str.contains_char "010" (row_text d minor) = false.
Proof.
  intros (Ht & _). repeat (apply list.Forall_cons in Ht as [[? ?] Ht]).
  assert (Forall (fun p => Str.contains_char "010" (pair_text p) = false) (row_of d minor)) as H'.
  { unfold row_of. repeat (apply list.Forall_cons; split); try apply list.Forall_nil_2; apply pair_one_line; try done.
    - by rewrite !StrFacts.contains_char_app, !format_int_one_line.
    - apply format_int_one_line.
    - by destruct (ld_Rotational d). }
  unfold row_text. destruct (row_of d minor) as [|p rest]; [done|]. apply list.Forall_cons in H' as [Hp Hr].
  by rewrite StrFacts.contains_char_app, Hp, tail_one_line.
Qed.

(** The listing: one row per device, each ended by a newline. *)
Definition listing (l : list (LsblkDevice * Z)) : string :=
  foldr (fun dm s => row_text (fst dm) (snd dm) +:+ String "010" s) "" l.

(** The devices read from the rows lsblk prints are the devices it printed, whatever spaces
    their model, label or mount point have. *)
Theorem lsblk_reads_back l : Forall (fun dm => device_ok (fst dm)) l -> parseLsblkPairs (listing l) = l.*1.
Proof.
  unfold parseLsblkPairs, nonblank_lines, lines. induction 1 as [|[d m] l Hd _ IH]; [done|]. cbn [fst snd] in Hd.
  cbn [listing foldr fst snd]. fold (listing l). rewrite split_char_piece by (by apply row_one_line).
  cbn [map]. destruct (row_trimmed d m) as [-> Hne]. rewrite filter_cons_True by done. cbn [map fmap list_fmap fst].
  by rewrite parse_row, device_of_row, IH.
Qed.

Definition example_disk : LsblkDevice :=
  mkLsblkDevice "nvme0n1" "nvme0n1" 2000398934016 "" "disk" "" "eui.0025385b11" "Samsung SSD 980 PRO 2TB" "S6B0NL" false "nvme" 259 "".
Definition example_drbd : LsblkDevice :=
  mkLsblkDevice "drbd1000" "drbd1000" 1073741824 "" "disk" "/mnt/my data" "" "" "" true "" 147 "".

Lemma lsblk_reads_back_witness :
  parseLsblkPairs (listing [(example_disk, 0); (example_drbd, 1000)]) = [example_disk; example_drbd]
  /\ IsFreeBlockDevice example_disk = true /\ IsFreeBlockDevice example_drbd = false.
Proof.
  split; [|split; vm_compute; reflexivity]. apply (lsblk_reads_back [(example_disk, 0); (example_drbd, 1000)]).
  repeat (apply list.Forall_cons; split); try apply list.Forall_nil_2; unfold device_ok, text_ok, is_int64, MinInt64, MaxInt64;
    (split; [repeat (apply list.Forall_cons; split); try apply list.Forall_nil_2; vm_compute; done|]); cbn; repeat split; try done; lia.
Defined.

(** ** Discard options of a resource *)

(** One volume's contribution: its kind and the granularity found, if any. *)
Definition volume_options (v : string * option Z) : gmap string string :=
  match snd v with
  | Some g => <[diskOptRsDiscardGranularity := format_int g]> (zeroes_option (fst v))
  | None => zeroes_option (fst v)
  end.

Definition min_option (acc g : option Z) : option Z :=
  match acc, g with
  | Some a, Some b => Some (Z.min a b)
  | Some a, None => Some a
  | None, g => g
  end.

(** The reference: the smallest granularity, and [yes] when every volume's kind is safe. *)
Definition resource_options (l : list (string * option Z)) : gmap string string :=
  let zeroes : gmap string string :=
    if bool_decide (l = []) then ∅
    else {[diskOptDiscardZeroesAligned := if forallb (fun v => discardZeroesIfAligned (fst v)) l then drbdYes else drbdNo]} in
  match foldl min_option None (l.*2) with
  | Some g => <[diskOptRsDiscardGranularity := format_int g]> zeroes
  | None => zeroes
  end.

Definition gran_ok (g : option Z) : Prop := match g with Some g => drbdDiscGranMinBytes <= g <= drbdDiscGranMaxBytes | None => True end.

Lemma clamp_ok g : drbdDiscGranMinBytes <= clampDiscardGranularity g <= drbdDiscGranMaxBytes.
Proof.
  unfold clampDiscardGranularity. destruct (Z.ltb_spec g drbdDiscGranMinBytes); [|destruct (Z.ltb_spec drbdDiscGranMaxBytes g)];
    unfold drbdDiscGranMinBytes, drbdDiscGranMaxBytes in *; lia.
Qed.

Lemma min_option_ok acc g : gran_ok acc -> gran_ok g -> gran_ok (min_option acc g).
Proof. destruct acc, g; cbn; lia. Qed.

Lemma min_fold_ok l : forall acc, gran_ok acc -> Forall gran_ok l -> gran_ok (foldl min_option acc l).
Proof. induction l as [|g l IH]; intros acc Ha; [done|]. rewrite list.Forall_cons. intros []. cbn. apply IH; [|done]. by apply min_option_ok. Qed.

(** What merging does to the value of one key. *)
Definition merged_value (key : string) (old : option string) (val : string) : string :=
  if bool_decide (key = diskOptRsDiscardGranularity) then
    match old with Some prev => if smallerNumeric val prev then val else prev | None => val end
  else if bool_decide (key = diskOptDiscardZeroesAligned) then
    match old with Some prev => if bool_decide (prev = drbdNo) then prev else val | None => val end
  else val.

Lemma merge_option_lookup acc k v k' :
  merge_option acc (k, v) !! k' = if bool_decide (k' = k) then Some (merged_value k (acc !! k) v) else acc !! k'.
Proof.
  assert (forall x, <[k := x]> acc !! k' = if bool_decide (k' = k) then Some x else acc !! k') as Hi.
  { intros x. case_bool_decide as E; [by rewrite E, lookup_insert_eq|by rewrite lookup_insert_ne]. }
  assert (forall x, acc !! k = Some x -> acc !! k' = if bool_decide (k' = k) then Some x else acc !! k') as Hs.
  { intros x Hx. case_bool_decide as E; congruence. }
  unfold merge_option, merged_value, get. destruct (acc !! k) as [x|] eqn:Ek; cbn; repeat case_match; cbn in *; auto; try done.
Qed.

Lemma merge_fold_lookup l : forall acc k, NoDup l.*1 ->
  foldl merge_option acc l !! k
    = match (list_to_map l : gmap string string) !! k with Some v => Some (merged_value k (acc !! k) v) | None => acc !! k end.
Proof.
  induction l as [|[k' v] l IH]; intros acc k Hnd; [done|]. apply list.NoDup_cons in Hnd as [Hk Hnd]. cbn [foldl list_to_map].
  rewrite IH by done. rewrite !merge_option_lookup. cbn. destruct (decide (k = k')) as [->|Hne].
  - rewrite (not_elem_of_list_to_map_1 _ _ Hk), lookup_insert_eq, bool_decide_eq_true_2 by done. done.
  - by rewrite lookup_insert_ne, !bool_decide_eq_false_2 by done.
Qed.

Lemma merge_lookup acc m k :
  mergeResourceDiscardOptions acc m !! k
    = match m !! k with Some v => Some (merged_value k (acc !! k) v) | None => acc !! k end.
Proof.
  unfold mergeResourceDiscardOptions. rewrite merge_fold_lookup by apply NoDup_fst_map_to_list. by rewrite list_to_map_to_list.
Qed.

Lemma resource_options_lookup l k :
  resource_options l !! k
    = if bool_decide (k = diskOptRsDiscardGranularity) then format_int <$> foldl min_option None (l.*2)
      else if bool_decide (k = diskOptDiscardZeroesAligned) then
        if bool_decide (l = []) then None
        else Some (if forallb (fun v => discardZeroesIfAligned (fst v)) l then drbdYes else drbdNo)
      else None.
Proof.
  unfold resource_options. destruct (bool_decide_reflect (k = diskOptRsDiscardGranularity)) as [->|E1].
  - destruct (foldl min_option None l.*2); cbn; [by rewrite lookup_insert_eq|]. by case_bool_decide.
  - replace (match foldl min_option None l.*2 with Some g => _ | None => _ end !! k)
      with ((if bool_decide (l = []) then ∅
             else {[diskOptDiscardZeroesAligned := if forallb (fun v => discardZeroesIfAligned (fst v)) l then drbdYes else drbdNo]}
             : gmap string string) !! k).
    2:{ destruct (foldl min_option None l.*2); [|done]. by rewrite lookup_insert_ne. }
    destruct (bool_decide_reflect (k = diskOptDiscardZeroesAligned)) as [->|E2]; destruct (bool_decide_reflect (l = []));
      rewrite ?lookup_empty, ?lookup_singleton_eq; try done. by rewrite lookup_singleton_ne.
Qed.

Lemma volume_options_lookup v k :
  volume_options v !! k
    = if bool_decide (k = diskOptRsDiscardGranularity) then format_int <$> snd v
      else if bool_decide (k = diskOptDiscardZeroesAligned) then Some (if discardZeroesIfAligned (fst v) then drbdYes else drbdNo)
      else None.
Proof.
  unfold volume_options, zeroes_option. destruct (bool_decide_reflect (k = diskOptRsDiscardGranularity)) as [->|E1];
    [|destruct (bool_decide_reflect (k = diskOptDiscardZeroesAligned)) as [->|E2]];
    destruct v as [kind [g|]]; cbn [fst snd];
    rewrite ?lookup_insert_eq, ?(lookup_insert_ne _ diskOptRsDiscardGranularity), ?lookup_singleton_eq,
      ?(lookup_singleton_ne diskOptDiscardZeroesAligned) by done; done.
Qed.

Lemma parse_gran g : gran_ok (Some g) -> parse_int 64 (format_int g) = Some g.
Proof. cbn. unfold drbdDiscGranMinBytes, drbdDiscGranMaxBytes. intros. apply parse_int_format. lia. Qed.

Lemma merge_volume l v : Forall gran_ok l.*2 -> gran_ok (snd v) ->
  mergeResourceDiscardOptions (resource_options l) (volume_options v) = resource_options (l ++ [v]).
Proof.
  intros Hl Hv. apply map_eq. intros k.
  rewrite merge_lookup, volume_options_lookup, !resource_options_lookup, fmap_app, foldl_app, forallb_app. cbn [fmap list_fmap foldl forallb].
  rewrite (bool_decide_eq_false_2 (l ++ [v] = [])) by (by destruct l).
  pose proof (min_fold_ok l.*2 None I Hl) as Hm. destruct (bool_decide_reflect (k = diskOptRsDiscardGranularity)) as [->|E1];
    [|destruct (bool_decide_reflect (k = diskOptDiscardZeroesAligned)) as [->|E2]; [|done]].
  - unfold merged_value. rewrite bool_decide_eq_true_2 by done. destruct (foldl min_option None l.*2) as [a|], (snd v) as [b|]; cbn [fmap option_fmap option_map min_option]; try done.
    unfold smallerNumeric. rewrite !parse_gran by done. destruct (Z.ltb_spec b a); do 2 f_equal; lia.
  - unfold merged_value. rewrite bool_decide_eq_false_2, bool_decide_eq_true_2 by done. rewrite andb_true_r.
    case_bool_decide as El; [by rewrite El|]. destruct (forallb _ l); cbn; destruct (discardZeroesIfAligned (fst v)); done.
Qed.

Lemma probed_ok a : gran_ok (probed_granularity a).
Proof.
  unfold probed_granularity. destruct a as [[e|] out]; [done|]. destruct (parseDiscGran out) as [g|]; [|done]. cbn.
  destruct (g <=? 0); [done|]. apply clamp_ok.
Qed.

(** The granularity a volume contributes is what lsblk said of its device, when its kind may be
    given one. *)
Definition volume_granularity (devices : gmap Z string) (evs : list event) (vol : DesiredVolume) (v : string * option Z) : Prop :=
  let device := default "" (devices !! dv_VolumeNumber vol) in
  if rsDiscardGranularitySafe (fst v) && negb (bool_decide (device = ""))
  then exists a, (gran_cmd device, a) ∈ evs /\ snd v = probed_granularity a
  else snd v = None.

Lemma volume_granularity_more devices evs evs' vol v :
  evs ⊆ evs' -> volume_granularity devices evs vol v -> volume_granularity devices evs' vol v.
Proof. unfold volume_granularity. case_match; [|done]. intros Hs (a & Ha & E). eauto. Qed.

Lemma volume_granularity_ok devices evs vol v : volume_granularity devices evs vol v -> gran_ok (snd v).
Proof. unfold volume_granularity. case_match; [intros (a & _ & ->); apply probed_ok|by intros ->]. Qed.

Section Runs.
Context {W : Type} (exec : W -> cmd -> answer * W).

Lemma autoDiskOptions_spec devices vol kind :
  spec (autoDiskOptions exec kind (default "" (devices !! dv_VolumeNumber vol)))
    (fun out evs => exists g, out = volume_options (kind, g) /\ volume_granularity devices evs vol (kind, g)).
Proof.
  unfold autoDiskOptions, volume_granularity. cbn [fst snd]. set (device := default "" _).
  destruct (rsDiscardGranularitySafe kind); cbn [negb andb]; [|apply spec_ret; by exists None].
  case_bool_decide; cbn [negb]; [apply spec_ret; by exists None|].
  eapply (spec_bind _ _ (fun g evs => exists a, evs = [(gran_cmd device, a)] /\ g = probed_granularity a)).
  - unfold discardGranularityBytes. eapply (spec_bind _ _ (fun a evs => evs = [(gran_cmd device, a)])).
    + by apply spec_run.
    + intros a evs ->. apply spec_ret. cbn. eauto.
  - intros g evs (a & -> & ->). apply spec_ret. exists (probed_granularity a). split; [|exists a; split; [set_solver|done]].
    unfold volume_options. cbn. by destruct (probed_granularity a).
Qed.

Definition kinds_of (providers : gmap string string) (vols : list DesiredVolume) : option (list string) :=
  mapM (fun vol => providers !! dv_StoragePool vol) vols.

Lemma auto_volumes_spec providers devices vols : forall done_ : list (string * option Z), Forall gran_ok done_.*2 ->
  spec (auto_volumes exec providers devices vols (resource_options done_))
    (fun out evs => match kinds_of providers vols with
                    | None => out = None
                    | Some kinds => exists l, l.*1 = kinds /\ Forall2 (volume_granularity devices evs) vols l
                                             /\ out = Some (resource_options (done_ ++ l))
                    end).
Proof.
  unfold kinds_of. induction vols as [|vol vols IH]; intros done_ Hd.
  { apply spec_ret. cbn. exists []. by rewrite app_nil_r. }
  cbn [auto_volumes mapM]. destruct (providers !! dv_StoragePool vol) as [kind|]; cbn; [|by apply spec_ret].
  eapply spec_bind; [apply autoDiskOptions_spec|]. cbn. intros out evs (g & -> & Hg).
  rewrite merge_volume by (done || by apply volume_granularity_ok in Hg).
  eapply spec_mono; [apply IH|].
  { rewrite fmap_app. apply Forall_app. split; [done|]. cbn. apply list.Forall_singleton. by apply volume_granularity_ok in Hg. }
  intros out evs'. destruct (mapM _ vols) as [kinds|]; cbn; [|done]. intros (l & <- & Hl & ->).
  exists ((kind, g) :: l). split; [done|]. split; [|by rewrite <- (assoc_L (++))]. constructor.
  - eapply volume_granularity_more; [|done]. set_solver.
  - eapply Forall2_impl; [|exact Hl]. intros v x. apply volume_granularity_more. set_solver.
Qed.

(** The disk options derived for a resource are the conservative ones, on every run: the
    granularity is the smallest that lsblk reported for its devices, clamped to 4 KiB .. 1 MiB,
    and comes from volumes of a kind that may have one; [discard-zeroes-if-aligned] is [yes]
    exactly when every volume's kind is safe; a volume without a provider leaves the resource with
    no such options, and so does a diskless replica. *)
Theorem discard_options_exact providers dr devices :
  spec (autoDiskOptionsForResource exec true providers dr devices) (fun out evs =>
    match (if isDiskless (dr_Flags dr) then None else kinds_of providers (dr_Volumes dr)) with
    | None => out = ∅
    | Some kinds => exists l, l.*1 = kinds /\ Forall2 (volume_granularity devices evs) (dr_Volumes dr) l
                              /\ out = resource_options l
    end).
Proof.
  unfold autoDiskOptionsForResource. cbn [negb]. destruct (isDiskless (dr_Flags dr)); [by apply spec_ret|].
  eapply spec_bind; [apply (auto_volumes_spec providers devices (dr_Volumes dr) []); by apply list.Forall_nil|].
  cbn. intros out evs H. apply spec_ret. rewrite app_nil_r. destruct (kinds_of providers (dr_Volumes dr)) as [kinds|]; [|by subst].
  destruct H as (l & ? & ? & ->). eauto.
Qed.

End Runs.

(** Two thin devices, one with 64 KiB and one with 8 KiB chunks. *)
Definition two_devices (w : unit) (c : cmd) : answer * unit :=
  ((None, if bool_decide (c = gran_cmd "/dev/dm-1") then "DISC-GRAN=" +:+ quoted "65536" else "DISC-GRAN=" +:+ quoted "8192"), tt).

Definition two_volumes : DesiredResource :=
  mkDesiredResource "pvc-1" "node-1" [] ∅
    [mkDesiredVolume 0 1024 "thin" "" 1000 "" "" ""; mkDesiredVolume 1 1024 "thin" "" 1001 "" "" ""]
    [] ∅ [] [] false false false false None.

(** The granularity rendered for a resource need not be a multiple of every device's: with
    one device of 64 KiB and one of 8 KiB it is 8 KiB, the smallest. *)
Theorem smallest_granularity_is_no_multiple :
  fst (autoDiskOptionsForResource two_devices true {["thin" := ProviderKindLVMThin]} two_volumes {[0 := "/dev/dm-1"; 1 := "/dev/dm-2"]} (tt, []))
    !! diskOptRsDiscardGranularity = Some "8192"
  /\ 8192 mod 65536 <> 0.
Proof. split; [vm_compute; reflexivity|done]. Qed.
