(* ===== verification/ResFile.v ===== *)
(** * The configuration file of a replica

    Models the rendering part of [pkg/satellite/reconciler.go]: [buildResFile] and everything
    under it, [renderResFile] with the ownership marker, the parsers of the file that is on disk,
    and the tear-down of the peers it names and the intent does not. The state is the satellite's
    state directory; an operation on it is told whether its writes succeed. *)

From Stdlib Require Import Ascii.
From S2P Require Import Prelude GoStrings DrbdStates DrbdStatus DrbdAdm DrbdOptions DrbdConf Dispatcher Lsblk.
Import Conf.
#[local] Open Scope go_scope.

(** ** Options *)

(** [strconv.Atoi] with the error ignored: a number out of range is clamped, other text is 0. *)
Definition Atoi (s : string) : Z :=
  let n := match s with
           | String "-"%char s' => Z.opp <$> parse_uint s'
           | String "+"%char s' => parse_uint s'
           | _ => parse_uint s
           end in
  Z.max MinInt64 (Z.min MaxInt64 (default 0 n)).

Record drbdOptionSections := mkSections {
  sec_Net : gmap string string;
  sec_Resource : gmap string string;
  sec_Disk : gmap string string;
  sec_PeerDevice : gmap string string;
  sec_Handlers : gmap string string;
}.

(** The section and the bare key of an option; [None] for a key that is not rendered. *)
Definition routed (key : string) : option (string * string) :=
  rest ← Str.cut_prefix PropPrefix key;
  '(_, rawKey) ← Str.cut "/" rest;
  Some (SectionFor key, rawKey).

Definition put_option (out : drbdOptionSections) (section rawKey value : string) : drbdOptionSections :=
  let '(mkSections net res disk peer handlers) := out in
  if bool_decide (section = SectionNet) then mkSections (<[rawKey := value]> net) res disk peer handlers
  else if bool_decide (section = SectionDisk) then mkSections net res (<[rawKey := value]> disk) peer handlers
  else if bool_decide (section = SectionPeerDevice) then mkSections net res disk (<[rawKey := value]> peer) handlers
  else if bool_decide (section = SectionHandlers) then mkSections net res disk peer (<[rawKey := value]> handlers)
  else mkSections net (<[rawKey := value]> res) disk peer handlers.

Definition route_option (out : drbdOptionSections) (kv : string * string) : drbdOptionSections :=
  match routed (fst kv) with
  | None => out
  | Some (section, rawKey) => put_option out section rawKey (snd kv)
  end.

(** [kvs]: the entries of the option bag in the order the range visits them, which Go leaves
    open. *)
Definition splitDRBDOptions (kvs : list (string * string)) : drbdOptionSections :=
  foldl route_option (mkSections ∅ ∅ ∅ ∅ ∅) kvs.

Definition mergeAutoDiskOptions (dst auto : gmap string string) : gmap string string := dst ∪ auto.

Definition drbdAddrPlaceholder : string := "0.0.0.0".
Definition resolveAddr (supplied fallback : string) : string :=
  if (bool_decide (supplied = "") || bool_decide (supplied = drbdAddrPlaceholder)) && negb (bool_decide (fallback = ""))
  then fallback else supplied.

Definition isInactive (flags : list string) : bool := bool_decide ("INACTIVE" ∈ flags).

Definition skipDiskPropKey : string := "DrbdOptions/SkipDisk".
Definition skipDiskPropValue : string := "True".
Definition isSkipDiskEnabled (dr : DesiredResource) : bool :=
  Str.equal_fold (get (dr_DrbdOptions dr) skipDiskPropKey) skipDiskPropValue
  || Str.equal_fold (get (dr_Props dr) skipDiskPropKey) skipDiskPropValue.

(** ** Volumes and connections *)

(** [%05d] *)
Definition pad5 (z : Z) : string :=
  let digits := format_int (Z.abs z) in
  let sign := if z <? 0 then "-" else "" in
  sign +:+ String.concat "" (repeat "0" (5 - (String.length sign + String.length digits))) +:+ digits.

Definition backing_path (pool name : string) (vol : Z) : string := "/dev/" +:+ pool +:+ "/" +:+ name +:+ "_" +:+ pad5 vol.

Definition volMinorOrBase (vol : DesiredVolume) (base : Z) : Z :=
  if bool_decide (dv_Minor vol = 0) then base + dv_VolumeNumber vol else dv_Minor vol.

Definition drbd_device (minor : Z) : string := "/dev/drbd" +:+ format_int minor.

Definition res_volume (name : string) (devices : gmap Z string) (minor : Z) (vol : DesiredVolume) : Volume :=
  let number := dv_VolumeNumber vol in
  let disk := default "" (devices !! number) in
  let volMinor := volMinorOrBase vol minor in
  mkVolume number (drbd_device volMinor)
    (if bool_decide (disk = "") then backing_path (dv_StoragePool vol) name number else disk)
    volMinor
    (if bool_decide (dv_MetaPool vol = "") then "" else backing_path (dv_MetaPool vol) name number +:+ "_meta").

Definition buildResVolumes (dr : DesiredResource) (devices : gmap Z string) (minor : Z) : list Volume :=
  map (res_volume (dr_Name dr) devices minor) (dr_Volumes dr).

Definition buildResConnections (dr : DesiredResource) : list ResourceConnection :=
  map (fun c => mkResourceConnection (dc_NodeA c) (dc_NodeB c)
         (map (fun p => mkResourcePath (dcp_Name p) (dcp_AddressA p) (dcp_AddressB p)) (dc_Paths c))) (dr_Connections dr).

(** ** The file *)

Definition GetPeerNames (dr : DesiredResource) : list string := map dp_Name (dr_Peers dr).

Definition local_host (dr : DesiredResource) (localNode localAddr : string) : Host :=
  let opts := dr_DrbdOptions dr in
  mkHost localNode (resolveAddr (get opts "address") localAddr) (Atoi (get opts "port")) (Atoi (get opts "node-id"))
    true (isDiskless (dr_Flags dr)).

Definition peer_host (dr : DesiredResource) (peer : string) : Host :=
  let opts := dr_DrbdOptions dr in
  mkHost peer (resolveAddr (get opts (peer_key peer "address")) "") (Atoi (get opts (peer_key peer "port")))
    (Atoi (get opts (peer_key peer "node-id"))) false (bool_decide (get opts (peer_key peer "diskless") = boolPropTrue)).

(** The [drbd.Resource] handed to the renderer; [kvs]: the option bag in the order visited. *)
Definition res_file (dr : DesiredResource) (kvs : list (string * string)) (localNode localAddr : string)
    (devices : gmap Z string) (autoDisk : gmap string string) : Resource :=
  let sections := splitDRBDOptions kvs in
  mkResource (dr_Name dr) (mkNet true "" (sec_Net sections))
    (local_host dr localNode localAddr :: map (peer_host dr) (GetPeerNames dr))
    (buildResVolumes dr devices (Atoi (get (dr_DrbdOptions dr) "minor")))
    (sec_Resource sections) (mergeAutoDiskOptions (sec_Disk sections) autoDisk) (sec_Handlers sections)
    (sec_PeerDevice sections) (buildResConnections dr).

Definition buildResFile (dr : DesiredResource) (kvs : list (string * string)) (localNode localAddr : string)
    (devices : gmap Z string) (autoDisk : gmap string string) : result conf_err string :=
  Build (res_file dr kvs localNode localAddr devices autoDisk).

(** ** What the consumer is told *)

Record ResourceApplyVolumeResult := mkVolumeResult { vr_VolumeNumber : Z; vr_DevicePath : string }.

Definition buildVolumeResults (dr : DesiredResource) (devices : gmap Z string) (diskless withDRBD : bool) :
    list ResourceApplyVolumeResult :=
  if diskless then []
  else if withDRBD then
    let minor := Atoi (get (dr_DrbdOptions dr) "minor") in
    map (fun vol => mkVolumeResult (dv_VolumeNumber vol) (drbd_device (volMinorOrBase vol minor))) (dr_Volumes dr)
  else omap (fun vol => mkVolumeResult (dv_VolumeNumber vol) <$> devices !! dv_VolumeNumber vol) (dr_Volumes dr).

(** ** The state directory *)

Record state_dir := mkStateDir {
  sd_res : gmap string string;
  sd_owned : gset string;
  sd_md_created : gset string;
}.

(** [stateDir]: whether a state directory is configured; [ok]: whether the file can be created. *)
Definition stampOwnershipMarker (stateDir ok : bool) (name : string) (st : state_dir) : state_dir * bool :=
  if negb stateDir then (st, true)
  else if ok then (mkStateDir (sd_res st) ({[name]} ∪ sd_owned st) (sd_md_created st), true)
  else (st, false).

Inductive render_err := RenderBuild (e : conf_err) | RenderMarker | RenderWrite.

(** The file is written only when its content changes. [markerOk], [writeOk]: whether the marker
    and the file can be written. *)
Definition render (stateDir markerOk writeOk : bool) (st : state_dir) (name : string) (body : result conf_err string) :
    state_dir * option render_err :=
  match body with
  | Err e => (st, Some (RenderBuild e))
  | Ok body =>
      let '(st, stamped) := stampOwnershipMarker stateDir markerOk name st in
      if negb stamped then (st, Some RenderMarker)
      else if bool_decide (default "" (sd_res st !! name) = body) then (st, None)
      else if writeOk then (mkStateDir (<[name := body]> (sd_res st)) (sd_owned st) (sd_md_created st), None)
      else (st, Some RenderWrite)
  end.

(** ** Reading the file that is on disk *)

Definition peer_of_line (line : string) : option string :=
  rest ← Str.cut_prefix "on " (Str.trim_space line);
  '(h, _) ← Str.cut "{" rest;
  let name := Str.trim_space h in
  if bool_decide (name = "") then None else Some name.

Definition extractResFilePeers (body : string) : list string := omap peer_of_line (lines body).

(** [strings.TrimSuffix] *)
Fixpoint trim_suffix (suffix s : string) : string :=
  if bool_decide (s = suffix) then ""
  else match s with EmptyString => "" | String c s' => String c (trim_suffix suffix s') end.

(** The scan for node ids: the ids found and the peer whose block is open. *)
Definition node_id_line (acc : gmap string Z * string) (line : string) : gmap string Z * string :=
  let '(out, currentPeer) := acc in
  let trimmed := Str.trim_space line in
  match Str.cut_prefix "on " trimmed with
  | Some rest => match Str.cut "{" rest with Some (h, _) => (out, Str.trim_space h) | None => acc end
  | None =>
      if negb (bool_decide (currentPeer = "")) && Str.has_prefix "node-id " trimmed then
        let rest := Str.trim_space (trim_suffix ";" (Str.trim_prefix "node-id " trimmed)) in
        match parse_int 32 rest with
        | Some id => (<[currentPeer := id]> out, "")
        | None => (out, "")
        end
      else acc
  end.

Definition extractResFilePeerNodeIDs (body : option string) : gmap string Z :=
  match body with
  | None => ∅
  | Some body => fst (foldl node_id_line (∅, "") (lines body))
  end.

Definition computeRemovedPeers (body : option string) (dr : DesiredResource) (localNode : string) : list string :=
  match body with
  | None => []
  | Some body => filter (fun p => p ∉ localNode :: GetPeerNames dr) (extractResFilePeers body)
  end.

Definition anyDevice (devices : gmap Z string) : bool := existsb (fun kv => negb (bool_decide (snd kv = ""))) (map_to_list devices).

Section Run.
Context {W : Type} (exec : W -> cmd -> answer * W).
#[local] Notation shell := (shell (W := W)).

Fixpoint tear_down (rd : string) (devices : gmap Z string) (peerIDs : gmap string Z) (removed : list string) : shell (option string) :=
  match removed with
  | [] => mret None
  | peer :: rest =>
      err ← DelPeer exec rd peer;
      match err with
      | Some e => mret (wrapf ("del-peer " +:+ peer +:+ " from " +:+ rd) (Some e))
      | None =>
          match peerIDs !! peer with
          | Some peerID =>
              if anyDevice devices then _ ← ForgetPeer exec rd peerID; tear_down rd devices peerIDs rest
              else tear_down rd devices peerIDs rest
          | None => tear_down rd devices peerIDs rest
          end
      end
  end.

(** [body]: the file on disk, [None] when it cannot be read. *)
Definition tearDownRemovedPeers (dr : DesiredResource) (body : option string) (localNode : string) (devices : gmap Z string) :
    shell (option string) :=
  tear_down (dr_Name dr) devices (extractResFilePeerNodeIDs body) (computeRemovedPeers body dr localNode).

(** [renderResFile]: the derived disk options, the file, and the write. *)
Definition renderResFile (hasExec : bool) (providers : gmap string string) (stateDir markerOk writeOk : bool)
    (localNode localAddr : string) (dr : DesiredResource) (kvs : list (string * string)) (devices : gmap Z string) (st : state_dir) :
    shell (state_dir * option render_err) :=
  autoDisk ← autoDiskOptionsForResource exec hasExec providers dr devices;
  mret (render stateDir markerOk writeOk st (dr_Name dr) (buildResFile dr kvs localNode localAddr devices autoDisk)).

End Run.
