(* ===== verification/ResFileProps.v ===== *)
(** * Properties of the rendered configuration file

    The parsers that read the file back from disk see exactly the hosts that were rendered into
    it, so the peers torn down are the ones that left, each forgotten under the node id it had. *)

From Stdlib Require Import Ascii DecimalString.
From S2P Require Import Prelude GoStrings DrbdStates DrbdStatus DrbdAdm DrbdOptions DrbdConf Dispatcher Lsblk ResFile.
Import Conf Scan.

(** ** Scanning a text line by line *)

(** Both parsers at once: the peers listed so far, and the state of the scan for node ids. *)
Definition scan (st : list string * (gmap string Z * string)) (line : string) : list string * (gmap string Z * string) :=
  (fst st ++ option_list (peer_of_line line), node_id_line (snd st) line).

Lemma scan_lists_peers ls : forall st, fst (foldl scan st ls) = fst st ++ omap peer_of_line ls.
Proof.
  induction ls as [|l ls IH]; intros st; [cbn; by rewrite app_nil_r|]. cbn [foldl]. rewrite IH. cbn [scan fst].
  rewrite <- (assoc_L (++)). f_equal. cbn [omap list_omap]. by destruct (peer_of_line l).
Qed.

Lemma scan_ids ls : forall st, snd (foldl scan st ls) = foldl node_id_line (snd st) ls.
Proof. induction ls as [|l ls IH]; intros st; cbn; [done|]. by rewrite IH. Qed.

(** Reading [s] takes the scan from a state to [f] of it, whatever follows. *)
Definition passes (s : string) (f : list string * (gmap string Z * string) -> list string * (gmap string Z * string)) : Prop :=
  forall rest st, foldl scan st (lines (s +:+ rest)) = foldl scan (f st) (lines rest).

Lemma passes_nil : passes "" id.
Proof. intros rest st. done. Qed.

Lemma passes_app a b f g : passes a f -> passes b g -> passes (a +:+ b) (fun st => g (f st)).
Proof. intros Ha Hb rest st. by rewrite StrFacts.app_assoc, Ha, Hb. Qed.

Lemma passes_quiet_app a b : passes a id -> passes b id -> passes (a +:+ b) id.
Proof. intros Ha Hb rest st. by rewrite StrFacts.app_assoc, Ha, Hb. Qed.

Lemma passes_concat l : Forall (fun s => passes s id) l -> passes (concat l) id.
Proof. induction 1; [apply passes_nil|]. by apply passes_quiet_app. Qed.

Lemma passes_line l : Str.contains_char "010" l = false -> passes (l +:+ nl) (fun st => scan st l).
Proof. intros Hl rest st. unfold lines. rewrite StrFacts.app_assoc. change (nl +:+ rest) with (String "010" rest). by rewrite split_char_piece. Qed.

Definition one_line (s : string) : Prop := Str.contains_char "010" s = false.

Lemma one_line_app a b : one_line a -> one_line b -> one_line (a +:+ b).
Proof. unfold one_line. rewrite StrFacts.contains_char_app. by intros -> ->. Qed.

Lemma word_one_line w : word w -> one_line w.
Proof. intros [_ H]. by apply (all_chars_no_char (fun c => negb (ends_word c))). Qed.

Lemma word_solid w : word w -> StrFacts.all_chars solid w = true.
Proof.
  intros [_ H]. eapply all_chars_impl; [|exact H]. intros c. unfold ends_word, solid. intros Hc%negb_true_iff.
  by repeat (apply orb_false_iff in Hc as [Hc _]; rewrite ?Hc).
Qed.

Lemma word_no c w : ends_word c = true -> word w -> Str.contains_char c w = false.
Proof. intros Hc [_ H]. apply (all_chars_no_char (fun c => negb (ends_word c))); [|done]. by rewrite Hc. Qed.

(** ** Quiet lines *)

(** A first word other than [p] is not taken for [p]. *)
Lemma other_word p : forall w t, StrFacts.all_chars solid p = true -> StrFacts.all_chars solid w = true -> w <> p ->
  Str.cut_prefix (p +:+ " ") (w +:+ String " " t) = None.
Proof.
  induction p as [|a p IH]; intros w t Hp Hw Hne; destruct w as [|c w]; try done.
  - rewrite StrFacts.app_cons. change ("" +:+ " ") with " ". cbn [StrFacts.all_chars Str.cut_prefix] in *.
    apply andb_true_iff in Hw as [Hc _]. by destruct (Ascii.eqb_spec " " c) as [<-|].
  - change ("" +:+ String " " t) with (String " " t). rewrite StrFacts.app_cons. cbn [StrFacts.all_chars Str.cut_prefix] in *.
    apply andb_true_iff in Hp as [Hc _]. by destruct (Ascii.eqb_spec a " ") as [->|].
  - rewrite !StrFacts.app_cons. cbn [StrFacts.all_chars Str.cut_prefix] in *. apply andb_true_iff in Hp as [_ Hp], Hw as [_ Hw].
    destruct (Ascii.eqb_spec a c) as [->|]; [|done]. apply IH; congruence.
Qed.

(** A line: spaces, a first word, a space and something that ends in a byte that is not white
    space. *)
Definition line_of (indent w mid : string) (c : ascii) : string := indent +:+ (w +:+ String " " mid) +:+ String c "".

Lemma line_trimmed indent w mid c :
  StrFacts.all_chars Str.is_space indent = true -> StrFacts.all_chars solid w = true -> w <> "" -> solid c = true ->
  Str.trim_space (line_of indent w mid c) = w +:+ String " " (mid +:+ String c "").
Proof.
  intros Hi Hw Hne Hc. unfold line_of. rewrite trim_space_framed; [by rewrite StrFacts.app_assoc|done| |done].
  destruct w as [|d w]; [done|]. rewrite StrFacts.app_cons. cbn in Hw |- *. by apply andb_true_iff in Hw as [? _].
Qed.

Lemma quiet_line indent w mid c st :
  StrFacts.all_chars Str.is_space indent = true -> StrFacts.all_chars solid w = true -> w <> "" -> solid c = true ->
  w <> "on" -> w <> "node-id" -> scan st (line_of indent w mid c) = st.
Proof.
  intros Hi Hw Hne Hc Hon Hid. destruct st as [ps [ids cur]]. unfold scan, peer_of_line, node_id_line. rewrite line_trimmed by done.
  rewrite (other_word "on" w _ eq_refl Hw Hon : Str.cut_prefix "on " _ = None). cbn. unfold Str.has_prefix.
  rewrite (other_word "node-id" w _ eq_refl Hw Hid : Str.cut_prefix "node-id " _ = None). by rewrite app_nil_r, andb_false_r.
Qed.

(** Text that is nothing but a quiet line. *)
Lemma passes_quiet indent w mid c :
  StrFacts.all_chars Str.is_space indent = true -> StrFacts.all_chars solid w = true -> w <> "" -> solid c = true ->
  w <> "on" -> w <> "node-id" -> one_line indent -> one_line w -> one_line mid -> one_line (String c "") ->
  passes (line_of indent w mid c +:+ nl) id.
Proof.
  intros Hi Hw Hne Hc Hon Hid L1 L2 L3 L4 rest st.
  assert (one_line (line_of indent w mid c)) as Hl.
  { unfold line_of. apply one_line_app; [done|]. apply one_line_app; [|done]. apply one_line_app; [done|]. by apply (one_line_app " "). }
  rewrite (passes_line _ Hl). cbn. by rewrite quiet_line.
Qed.

Lemma passes_closer indent : StrFacts.all_chars (Ascii.eqb " ") indent = true -> passes (indent +:+ "}" +:+ nl) id.
Proof.
  intros Hi. rewrite <- StrFacts.app_assoc. intros rest st. rewrite passes_line.
  - f_equal. destruct st as [ps [ids cur]]. unfold scan, peer_of_line, node_id_line.
    assert (StrFacts.all_chars Str.is_space indent = true) as Hs.
    { eapply all_chars_impl; [|exact Hi]. by intros c <-%Ascii.eqb_eq. }
    rewrite trim_space_word by done. cbn. by rewrite app_nil_r, andb_false_r.
  - apply one_line_app; [|done]. by apply (all_chars_no_char (Ascii.eqb " ")).
Qed.

Ltac same_text := repeat first [rewrite StrFacts.app_assoc | rewrite StrFacts.app_cons | rewrite StrFacts.app_nil_r]; reflexivity.

(** Recognise a piece of text as a quiet line. *)
Ltac as_line indent w mid c :=
  match goal with
  | |- passes ?s id =>
      replace s with (line_of indent w mid c +:+ nl) by (unfold line_of; same_text);
      apply passes_quiet; try done
  end.

(** Split a text into pieces that are each quiet. *)
Ltac in_pieces l :=
  match goal with
  | |- passes ?s id =>
      replace s with (concat l)
        by (unfold line_of, concat; cbn [foldr]; change String.append with (fun a b : string => a +:+ b); cbn beta; same_text);
      apply passes_concat; repeat (apply list.Forall_cons; split); [..|apply list.Forall_nil_2]
  end.

(** ** Options *)

Definition quiet_key (k : string) : Prop := word k /\ k <> "on" /\ k <> "node-id".
Definition quiet_keys (opts : gmap string string) : Prop := forall k, is_Some (opts !! k) -> quiet_key k.

Lemma spellable_one_line v : first_unspellable v = None -> one_line v.
Proof.
  unfold one_line. induction v as [|c v IH]; [done|]. cbn [first_unspellable Str.contains_char]. destruct (unspellable c) eqn:E; [done|]. intros Hv. rewrite IH by done.
  unfold unspellable in E. apply orb_false_iff in E as [[E _]%orb_false_iff _]. by rewrite Ascii.eqb_sym, E.
Qed.

Lemma escape_one_line v : one_line v -> one_line (escape v).
Proof.
  unfold one_line. induction v as [|c v IH]; [done|]. cbn [escape Str.contains_char]. intros [Hc Hv]%orb_false_iff.
  destruct (_ || _); cbn [Str.contains_char]; by rewrite ?Hc, IH.
Qed.

Lemma quoteValue_one_line v : one_line v -> one_line (quoteValue v).
Proof. intros H. unfold quoteValue. apply (one_line_app (String quote "")); [done|]. apply one_line_app; [by apply escape_one_line|done]. Qed.

Lemma spelled_one_line v : first_unspellable v = None -> one_line (spelled v).
Proof. intros H%spellable_one_line. unfold spelled. destruct (needsQuoting v); [by apply quoteValue_one_line|done]. Qed.

Definition blank (indent : string) : Prop := StrFacts.all_chars (Ascii.eqb " ") indent = true.
Lemma blank_space indent : blank indent -> StrFacts.all_chars Str.is_space indent = true /\ one_line indent.
Proof.
  intros H. split; [eapply all_chars_impl; [|exact H]; by intros c <-%Ascii.eqb_eq|]. by apply (all_chars_no_char (Ascii.eqb " ")).
Qed.

Lemma passes_option indent k v : blank indent -> quiet_key k -> first_unspellable v = None -> passes (writeOption indent k v) id.
Proof.
  intros [Hi Hl]%blank_space (Hk & Hon & Hid) Hv. unfold writeOption. as_line indent k (spelled v) ";"%char.
  - by apply word_solid.
  - by destruct Hk.
  - by apply word_one_line.
  - by apply spelled_one_line.
Qed.

Lemma passes_option_lines indent opts : blank indent -> quiet_keys opts -> spellable opts -> passes (option_lines indent opts) id.
Proof.
  intros Hi Hk Hs. apply passes_concat, list.Forall_forall. intros s (k & -> & Hin)%list_elem_of_fmap.
  apply passes_option; [done|by apply Hk, sorted_keys_elem|apply Hs].
Qed.

Lemma passes_block name opts : word name -> name <> "on" -> name <> "node-id" -> quiet_keys opts -> spellable opts ->
  passes (writeNamedBlock name opts) id.
Proof.
  intros Hn Hon Hid Hk Hs. unfold writeNamedBlock. case_bool_decide; [apply passes_nil|].
  in_pieces [line_of "  " name "" "{" +:+ nl; option_lines "    " opts; "  " +:+ "}" +:+ nl].
  - apply passes_quiet; try done; [by apply word_solid|by destruct Hn|by apply word_one_line].
  - by apply passes_option_lines.
  - by apply passes_closer.
Qed.

Lemma passes_options opts : quiet_keys opts -> spellable opts -> passes (writeOptions opts) id.
Proof. intros. by apply (passes_block "options"). Qed.

Lemma passes_secret k v : word k -> k <> "on" -> k <> "node-id" -> first_unspellable v = None ->
  passes ("    " +:+ k +:+ " " +:+ quoteValue v +:+ ";" +:+ nl) id.
Proof.
  intros Hk Hon Hid Hv. as_line "    " k (quoteValue v) ";"%char.
  - by apply word_solid.
  - by destruct Hk.
  - by apply word_one_line.
  - by apply quoteValue_one_line, spellable_one_line.
Qed.

Lemma passes_net_line n k : quiet_key k -> spellable (net_Options n) -> passes (net_line n k) id.
Proof.
  intros Hk Hs. unfold net_line. destruct (Str.equal_fold k _).
  - case_bool_decide; [|apply passes_nil]. destruct Hk as (? & ? & ?). by apply passes_secret.
  - by apply passes_option.
Qed.

Lemma passes_net n : quiet_keys (net_Options n) -> spellable (net_Options n) -> first_unspellable (SharedSecret n) = None ->
  passes (writeNet n) id.
Proof.
  intros Hk Hs Hsec. unfold writeNet. destruct (_ && _); [apply passes_nil|].
  in_pieces ["  net {" +:+ nl;
    if bool_decide (SharedSecret n = "") then "" else "    " +:+ sharedSecretOption +:+ " " +:+ quoteValue (SharedSecret n) +:+ ";" +:+ nl;
    concat (map (net_line n) (sorted_keys (net_Options n))); "  " +:+ "}" +:+ nl].
  - as_line "  " "net" "" "{"%char.
  - case_bool_decide; [apply passes_nil|]. by apply passes_secret.
  - apply passes_concat, list.Forall_forall. intros s (k & -> & Hin)%list_elem_of_fmap.
    apply passes_net_line; [by apply Hk, sorted_keys_elem|done].
  - by apply passes_closer.
Qed.

(** ** Hosts and connections *)

Definition host_ok (h : Host) : Prop := word (h_NodeName h) /\ word (h_Address h) /\ is_int32 (h_NodeID h).

Lemma format_int_line z : one_line (format_int z).
Proof. by apply format_int_no. Qed.

Lemma passes_host_line indent name addr port : blank indent -> one_line name -> one_line addr -> passes (host_line indent name addr port) id.
Proof.
  intros [Hi Hl]%blank_space Hn Ha. unfold host_line.
  as_line indent "host" (name +:+ " address " +:+ addr +:+ ":" +:+ format_int port) ";"%char.
  repeat (apply one_line_app; [try done|]); [done..|]. apply format_int_line.
Qed.

Definition path_ok (p : ResourcePath) : Prop := word (p_AddressA p) /\ word (p_AddressB p).

Lemma paths_ok conns a b : Forall (fun c => Forall path_ok (cn_Paths c)) conns -> Forall path_ok (lookupPaths conns a b).
Proof.
  induction 1 as [|c conns Hc _ IH]; [constructor|]. cbn. destruct (_ && _); [done|]. destruct (_ && _); [|done].
  unfold swapPathSides. apply Forall_fmap. eapply list.Forall_impl; [exact Hc|]. by intros p [? ?].
Qed.

Lemma passes_path a b p : host_ok a -> host_ok b -> path_ok p -> passes (path_block a b p) id.
Proof.
  intros (Ha & _) (Hb & _) (Hp & Hq). unfold path_block.
  in_pieces ["    path {" +:+ nl; host_line "      " (h_NodeName a) (p_AddressA p) (h_Port a);
             host_line "      " (h_NodeName b) (p_AddressB p) (h_Port b); "    " +:+ "}" +:+ nl].
  - as_line "    " "path" "" "{"%char.
  - apply passes_host_line; try done; by apply word_one_line.
  - apply passes_host_line; try done; by apply word_one_line.
  - by apply passes_closer.
Qed.

Lemma passes_connection conns opts a b :
  host_ok a -> host_ok b -> Forall (fun c => Forall path_ok (cn_Paths c)) conns -> quiet_keys opts -> spellable opts ->
  passes (writeOneConnection conns opts a b) id.
Proof.
  intros Ha Hb Hc Hk Hs. unfold writeOneConnection. pose proof (paths_ok conns (h_NodeName a) (h_NodeName b) Hc) as Hp.
  set (paths := match lookupPaths _ _ _ with [] => _ | _ => _ end). set (disk := if bool_decide _ then _ else _).
  in_pieces ["  connection {" +:+ nl; paths; disk; "  " +:+ "}" +:+ nl].
  - as_line "  " "connection" "" "{"%char.
  - unfold paths. destruct (lookupPaths _ _ _) as [|p ps].
    + destruct Ha as (? & ? & _), Hb as (? & ? & _). apply passes_quiet_app; apply passes_host_line; try done; by apply word_one_line.
    + apply passes_concat, Forall_fmap. eapply list.Forall_impl; [exact Hp|]. intros q Hq. by apply passes_path.
  - unfold disk. case_bool_decide; [apply passes_nil|].
    in_pieces ["    disk {" +:+ nl; option_lines "      " opts; "    " +:+ "}" +:+ nl];
      [as_line "    " "disk" "" "{"%char|by apply passes_option_lines|by apply passes_closer].
  - by apply passes_closer.
Qed.

Lemma mesh_pairs_in {A} (hosts : list A) x y : (x, y) ∈ mesh_pairs hosts -> x ∈ hosts /\ y ∈ hosts.
Proof.
  induction hosts as [|h hosts IH]; cbn; [by intros ?%elem_of_nil|].
  intros [(k & [= -> ->] & Hk)%list_elem_of_fmap|H]%elem_of_app; [set_solver|]. destruct (IH H). set_solver.
Qed.

Lemma passes_mesh hosts conns opts :
  Forall host_ok hosts -> Forall (fun c => Forall path_ok (cn_Paths c)) conns -> quiet_keys opts -> spellable opts ->
  passes (writeConnectionMesh hosts conns opts) id.
Proof.
  intros Hh Hc Hk Hs. unfold writeConnectionMesh. case_bool_decide; [apply passes_nil|].
  apply passes_concat, list.Forall_forall. intros s ([a b] & -> & Hin)%list_elem_of_fmap. apply mesh_pairs_in in Hin as [Ha Hb].
  rewrite list.Forall_forall in Hh. by apply passes_connection; [apply Hh|apply Hh|..].
Qed.

Definition volume_ok (v : Volume) : Prop :=
  word (v_Device v) /\ word (v_Disk v) /\ (v_MetaDisk v = "" \/ word (v_MetaDisk v)).

Lemma passes_volume host vol : volume_ok vol -> passes (volume_block host vol) id.
Proof.
  intros (Hd & Hk & Hm). unfold volume_block.
  assert (one_line (diskField host vol)) by (unfold diskField; repeat case_match; done || by apply word_one_line).
  assert (one_line (metaField host vol)).
  { unfold metaField. destruct (_ && _ && _) eqn:E; [|done]. destruct Hm as [->|?]; [done|by apply word_one_line]. }
  in_pieces [line_of "    " "volume" (format_int (v_Number vol) +:+ " ") "{" +:+ nl;
    line_of "      " "device" (v_Device vol +:+ " minor " +:+ format_int (v_Minor vol)) ";" +:+ nl;
    line_of "      " "disk" (diskField host vol) ";" +:+ nl; line_of "      " "meta-disk" (metaField host vol) ";" +:+ nl;
    "    " +:+ "}" +:+ nl]; [apply passes_quiet; try done..|by apply passes_closer].
  - apply one_line_app; [apply format_int_line|done].
  - apply one_line_app; [by apply word_one_line|]. apply (one_line_app " minor "); [done|apply format_int_line].
Qed.

(** A host's block adds the host to the peers and its node id to the ids. *)
Definition add_host (h : Host) (st : list string * (gmap string Z * string)) : list string * (gmap string Z * string) :=
  (fst st ++ [h_NodeName h], (<[h_NodeName h := h_NodeID h]> (fst (snd st)), "")).

Lemma trim_space_after w : StrFacts.all_chars solid w = true -> Str.trim_space (w +:+ " ") = w.
Proof.
  intros Hw. destruct (str_snoc_cases w) as [->|(t & c & ->)]; [done|]. unfold Str.trim_space.
  rewrite (trim_left_solid ((t +:+ String c "") +:+ " ")).
  2:{ destruct t as [|d t].
      - change (solid c && true = true) in Hw. rewrite andb_true_r in Hw. exact Hw.
      - rewrite !StrFacts.app_cons in *. change (solid d && StrFacts.all_chars solid (t +:+ String c "") = true) in Hw.
        apply andb_true_iff in Hw as [Hd _]. exact Hd. }
  rewrite (rev_snoc (t +:+ String c "") " "), rev_snoc. rewrite all_chars_app in Hw. apply andb_true_iff in Hw as [_ Hc]. cbn in Hc.
  rewrite andb_true_r in Hc. change (Str.trim_left (String " " ?x)) with (Str.trim_left x). rewrite trim_left_solid by done.
  by rewrite <- rev_snoc, rev_involutive.
Qed.

Lemma scan_on_line name st : word name ->
  scan st ("  on " +:+ name +:+ " {") = (fst st ++ [name], (fst (snd st), name)).
Proof.
  intros Hn. destruct st as [ps [ids cur]]. unfold scan, peer_of_line, node_id_line.
  replace ("  on " +:+ name +:+ " {") with (line_of "  " "on" (name +:+ " ") "{") by (unfold line_of; same_text).
  rewrite line_trimmed by done.
  change (Str.cut_prefix "on " ("on" +:+ String " " ((name +:+ " ") +:+ "{"))) with (Some ((name +:+ " ") +:+ "{")).
  cbn [mbind option_bind]. rewrite StrFacts.cut_app.
  2:{ rewrite StrFacts.contains_char_app. by rewrite (word_no "{" name eq_refl Hn). }
  cbn [mbind option_bind]. assert (Str.trim_space (name +:+ " ") = name) as -> by (by apply trim_space_after, word_solid).
  destruct Hn as [Hne _]. by rewrite bool_decide_eq_false_2.
Qed.

Lemma trim_suffix_char s c : trim_suffix (String c "") (s +:+ String c "") = s.
Proof.
  induction s as [|d s IH]; [change ("" +:+ String c "") with (String c ""); cbn; by rewrite bool_decide_eq_true_2|].
  rewrite StrFacts.app_cons. cbn [trim_suffix]. rewrite bool_decide_eq_false_2, IH; [done|].
  intros [= _ E]. by destruct s; rewrite ?StrFacts.app_cons in E.
Qed.

Lemma scan_node_id z ps ids cur : is_int32 z -> cur <> "" ->
  scan (ps, (ids, cur)) ("    node-id " +:+ format_int z +:+ ";") = (ps, (<[cur := z]> ids, "")).
Proof.
  intros Hz Hcur. unfold scan, peer_of_line, node_id_line. cbn [fst snd].
  replace ("    node-id " +:+ format_int z +:+ ";") with (line_of "    " "node-id" (format_int z) ";") by (unfold line_of; same_text).
  rewrite line_trimmed by done. rewrite (other_word "on" "node-id" (format_int z +:+ ";") eq_refl eq_refl ltac:(done)
    : Str.cut_prefix "on " ("node-id" +:+ String " " (format_int z +:+ ";")) = None).
  cbn [mbind option_bind option_list]. rewrite app_nil_r, bool_decide_eq_false_2 by done.
  change (Str.has_prefix "node-id " ("node-id" +:+ String " " (format_int z +:+ ";"))) with true. cbn [negb andb].
  change (Str.trim_prefix "node-id " ("node-id" +:+ String " " (format_int z +:+ ";"))) with (format_int z +:+ ";").
  rewrite trim_suffix_char. pose proof (trim_space_word "" (format_int z) eq_refl (proj1 (format_int_solid z))) as E.
  change ("" +:+ format_int z) with (format_int z) in E. rewrite E, parse_int_format by (unfold is_int32, MinInt32, MaxInt32 in Hz; cbn; lia).
  done.
Qed.

Lemma passes_on vols h : host_ok h -> Forall volume_ok vols -> passes (writeOnBlock vols h) (add_host h).
Proof.
  intros (Hn & Ha & Hid) Hv rest st.
  replace (writeOnBlock vols h) with (("  on " +:+ h_NodeName h +:+ " {") +:+ nl
    +:+ (line_of "    " "address" (h_Address h +:+ ":" +:+ format_int (h_Port h)) ";" +:+ nl)
    +:+ ("    node-id " +:+ format_int (h_NodeID h) +:+ ";") +:+ nl
    +:+ (concat (map (volume_block h) vols) +:+ ("  " +:+ "}" +:+ nl))) by (unfold writeOnBlock, line_of; same_text).
  rewrite <- (StrFacts.app_assoc _ nl). rewrite StrFacts.app_assoc. rewrite passes_line.
  2:{ apply (one_line_app "  on "); [done|]. apply one_line_app; [by apply word_one_line|done]. }
  rewrite scan_on_line by done. rewrite StrFacts.app_assoc, passes_quiet; try done.
  2:{ apply one_line_app; [by apply word_one_line|]. apply (one_line_app ":"); [done|apply format_int_line]. }
  rewrite <- (StrFacts.app_assoc _ nl). rewrite StrFacts.app_assoc. rewrite passes_line.
  2:{ apply (one_line_app "    node-id "); [done|]. apply one_line_app; [apply format_int_line|done]. }
  cbn [id]. rewrite scan_node_id by (done || by destruct Hn). rewrite (passes_quiet_app _ _); [done| |by apply passes_closer].
  apply passes_concat, Forall_fmap. eapply list.Forall_impl; [exact Hv|]. intros v. apply passes_volume.
Qed.

Lemma passes_hosts vols hosts : Forall host_ok hosts -> Forall volume_ok vols ->
  passes (concat (map (writeOnBlock vols) hosts)) (fun st => foldl (fun st h => add_host h st) st hosts).
Proof.
  intros Hh Hv. induction Hh as [|h hosts Hh _ IH]; [apply passes_nil|]. cbn [map concat foldr foldl].
  apply (passes_app _ _ (add_host h) (fun st => foldl (fun st h => add_host h st) st hosts)); [by apply passes_on|exact IH].
Qed.

(** ** The whole file *)

(** Names that can be written bare, and no option named like a host's block or its id. *)
Record res_ok (r : Resource) : Prop := {
  ro_name : word (r_Name r);
  ro_keys : Forall quiet_keys [net_Options (r_Net r); r_Options r; r_Disk r; r_Handlers r; r_PeerDevice r];
  ro_hosts : Forall host_ok (r_Hosts r);
  ro_volumes : Forall volume_ok (r_Volumes r);
  ro_paths : Forall (fun c => Forall path_ok (cn_Paths c)) (r_Connections r);
}.

Lemma passes_id_l a b f : passes a id -> passes b f -> passes (a +:+ b) f.
Proof. intros Ha Hb rest st. by rewrite StrFacts.app_assoc, Ha, Hb. Qed.

Lemma passes_build r text : res_ok r -> Build r = Ok text ->
  passes text (fun st => foldl (fun st h => add_host h st) st (r_Hosts r)).
Proof.
  intros [Hname Hkeys Hhosts Hvols Hpaths]. unfold Build. case_bool_decide; [done|]. destruct (checkValues r) eqn:Ec; [done|].
  apply checkValues_spellable in Ec as [Hsec Hsp]. intros [= <-].
  repeat (apply list.Forall_cons in Hkeys as [? Hkeys]). repeat (apply list.Forall_cons in Hsp as [? Hsp]).
  set (proto := if _ && _ then _ else _).
  replace (_ +:+ _) with ((line_of "" "resource" (r_Name r +:+ " ") "{" +:+ nl) +:+ proto +:+ writeNet (r_Net r) +:+ writeOptions (r_Options r)
      +:+ writeNamedBlock "disk" (r_Disk r) +:+ writeNamedBlock "handlers" (r_Handlers r) +:+ concat (map (writeOnBlock (r_Volumes r)) (r_Hosts r))
      +:+ (writeConnectionMesh (r_Hosts r) (r_Connections r) (r_PeerDevice r) +:+ ("" +:+ "}" +:+ nl))) by (unfold line_of; same_text).
  apply passes_id_l; [apply passes_quiet; try done; apply one_line_app; [by apply word_one_line|done]|].
  apply passes_id_l; [unfold proto; destruct (_ && _); [as_line "  " "protocol" "C" ";"%char|apply passes_nil]|].
  apply passes_id_l; [by apply passes_net|]. apply passes_id_l; [by apply passes_options|].
  do 2 (apply passes_id_l; [by apply passes_block|]).
  apply (passes_app _ _ _ id); [by apply passes_hosts|]. apply passes_quiet_app; [by apply passes_mesh|by apply passes_closer].
Qed.

Lemma add_hosts hosts : forall st, foldl (fun st h => add_host h st) st hosts
  = (fst st ++ (h_NodeName <$> hosts),
     (foldl (fun m h => <[h_NodeName h := h_NodeID h]> m) (fst (snd st)) hosts, if bool_decide (hosts = []) then snd (snd st) else "")).
Proof.
  induction hosts as [|h hosts IH]; intros [ps [ids cur]]; cbn [foldl fst snd fmap list_fmap]; [by rewrite app_nil_r|].
  rewrite IH. cbn [add_host fst snd]. rewrite <- (assoc_L (++)). by case_bool_decide.
Qed.

Lemma lines_end text f : passes text f -> forall st, foldl scan st (lines text) = scan (f st) "".
Proof. intros H st. specialize (H "" st). by rewrite StrFacts.app_nil_r in H. Qed.

Lemma hosts_lookup hosts : forall (m : gmap string Z) h, NoDup (h_NodeName <$> hosts) -> h ∈ hosts ->
  foldl (fun m h => <[h_NodeName h := h_NodeID h]> m) m hosts !! h_NodeName h = Some (h_NodeID h).
Proof.
  assert (forall hosts (m : gmap string Z) k, k ∉ h_NodeName <$> hosts ->
    foldl (fun m h => <[h_NodeName h := h_NodeID h]> m) m hosts !! k = m !! k) as Hno.
  { clear. intros hosts. induction hosts as [|h hosts IH]; intros m k Hk; [done|]. cbn. rewrite IH by set_solver. apply lookup_insert_ne. set_solver. }
  induction hosts as [|x hosts IH]; intros m h; [by intros _ ?%elem_of_nil|]. cbn [fmap list_fmap foldl]. rewrite list.NoDup_cons.
  intros [Hx Hnd] [->|Hin]%elem_of_cons; [|by apply IH]. rewrite Hno by done. apply lookup_insert_eq.
Qed.

Lemma read_back r text : res_ok r -> Build r = Ok text ->
  extractResFilePeers text = h_NodeName <$> r_Hosts r
  /\ extractResFilePeerNodeIDs (Some text) = foldl (fun m h => <[h_NodeName h := h_NodeID h]> m) ∅ (r_Hosts r).
Proof.
  intros Hr Hb. pose proof (lines_end text _ (passes_build r text Hr Hb) ([], (∅, ""))) as E.
  cbn beta in E. rewrite add_hosts in E. cbn [fst snd] in E. unfold extractResFilePeers, extractResFilePeerNodeIDs. split.
  - pose proof (scan_lists_peers (lines text) ([], (∅, ""))) as Hp. cbn [fst app] in Hp. rewrite <- Hp, E. cbn. by rewrite app_nil_r.
  - pose proof (scan_ids (lines text) ([], (∅, ""))) as Hi. cbn [snd] in Hi. rewrite <- Hi, E. by case_bool_decide.
Qed.

(** The peers and node ids read from the file on disk are the ones that were rendered into
    it, whatever options, volumes and connections it also has. *)
Theorem res_file_hosts_read_back r text :
  res_ok r -> NoDup (h_NodeName <$> r_Hosts r) -> Build r = Ok text ->
  extractResFilePeers text = h_NodeName <$> r_Hosts r
  /\ forall h, h ∈ r_Hosts r -> extractResFilePeerNodeIDs (Some text) !! h_NodeName h = Some (h_NodeID h).
Proof.
  intros Hr Hnd Hb. destruct (read_back r text Hr Hb) as [Hp Hi]. split; [done|]. intros h Hh. rewrite Hi. by apply hosts_lookup.
Qed.

(** ** Peers that left *)

Definition peer_cmds (rd : string) (withForget : bool) (ids : gmap string Z) (peer : string) : list cmd :=
  [["drbdadm"; "disconnect"; peer +:+ ":" +:+ rd]; ["drbdadm"; "del-peer"; peer +:+ ":" +:+ rd]]
  ++ match ids !! peer with
     | Some id => if withForget then [["drbdsetup"; "forget-peer"; rd; format_int id]] else []
     | None => []
     end.

(** The deletion of a peer that the tool refused, other than because its configuration does not have the peer. *)
Definition refused_deletion (e : event) : bool :=
  bool_decide (take 2 (fst e) = ["drbdadm"; "del-peer"]) &&
  match snd e with (Some err, out) => negb (not_in_config out || not_in_config err) | (None, _) => false end.
(** An error is returned exactly when a deletion was refused, and that was the last thing done. *)
Definition stops_at_refusal (err : option string) (evs : list event) : Prop :=
  match err with
  | None => Forall (fun e => refused_deletion e = false) evs
  | Some _ => exists pre e, evs = pre ++ [e] /\ refused_deletion e = true /\ Forall (fun e => refused_deletion e = false) pre
  end.
Lemma stops_later err evs evs' : Forall (fun e => refused_deletion e = false) evs -> stops_at_refusal err evs' -> stops_at_refusal err (evs ++ evs').
Proof.
  intros H. destruct err as [e|]; cbn; [|by intros; apply Forall_app]. intros (pre & x & -> & Hx & Hp). exists (evs ++ pre), x. rewrite (assoc_L (++)).
  split_and!; [done..|by apply Forall_app].
Qed.

Section Runs.
Context {W : Type} (exec : W -> cmd -> answer * W).

Lemma DelPeer_spec rd peer :
  spec (DelPeer exec rd peer) (fun err evs =>
    evs.*1 = [["drbdadm"; "disconnect"; peer +:+ ":" +:+ rd]; ["drbdadm"; "del-peer"; peer +:+ ":" +:+ rd]] /\ stops_at_refusal err evs).
Proof.
  unfold DelPeer. eapply (spec_bind _ _ (fun a evs => evs = [(["drbdadm"; "disconnect"; peer +:+ ":" +:+ rd], a)])).
  { by apply spec_run. }
  intros a1 evs1 ->. eapply (spec_bind _ _ (fun a evs => evs = [(["drbdadm"; "del-peer"; peer +:+ ":" +:+ rd], a)])); [by apply spec_run|].
  intros a2 evs2 ->. apply spec_ret. split; [done|]. rewrite app_nil_r. apply stops_later; [by repeat constructor|].
  destruct a2 as [[e|] out]; [|by repeat constructor]. destruct (not_in_config out || not_in_config e) eqn:E; cbn.
  - repeat constructor. unfold refused_deletion. cbn. by rewrite E.
  - eexists [], _. split_and!; [done| |done]. unfold refused_deletion. cbn. by rewrite E.
Qed.

Lemma ForgetPeer_spec rd id : spec (ForgetPeer exec rd id) (fun _ evs => evs.*1 = [["drbdsetup"; "forget-peer"; rd; format_int id]] /\ Forall (fun e => refused_deletion e = false) evs).
Proof.
  unfold ForgetPeer. eapply (spec_bind _ _ (fun a evs => evs = [(["drbdsetup"; "forget-peer"; rd; format_int id], a)])); [by apply spec_run|].
  intros a evs ->. apply spec_ret. split; [done|]. by repeat constructor.
Qed.

Lemma tear_down_spec rd devices ids removed :
  spec (tear_down exec rd devices ids removed) (fun err evs =>
    let cmds := removed ≫= peer_cmds rd (anyDevice devices) ids in
    (evs.*1 `prefix_of` cmds /\ (err = None -> evs.*1 = cmds)) /\ stops_at_refusal err evs).
Proof.
  induction removed as [|p removed IH]; [apply spec_ret; split; [done|constructor]|]. cbn [tear_down].
  eapply spec_bind; [apply DelPeer_spec|]. intros err evs [Hevs Hstop]. cbn [mbind list_bind]. unfold peer_cmds at 1 3.
  destruct err as [e|].
  { apply spec_ret. rewrite app_nil_r, Hevs. split; [|exact Hstop]. split; [|done]. apply prefix_app_r. by apply prefix_app_r. }
  assert (forall (before : list event) more, Forall (fun e => refused_deletion e = false) before -> before.*1 = more -> spec (tear_down exec rd devices ids removed) (fun err evs' =>
    ((before ++ evs').*1 `prefix_of` (more ++ (removed ≫= peer_cmds rd (anyDevice devices) ids))
    /\ (err = None -> (before ++ evs').*1 = more ++ (removed ≫= peer_cmds rd (anyDevice devices) ids))) /\ stops_at_refusal err (before ++ evs'))) as Hrest.
  { intros before more Hb <-. eapply spec_mono; [exact IH|]. intros err evs' [[Hp He] Hs]. rewrite fmap_app. split; [|by apply stops_later].
    split; [by apply prefix_app|]. intros E. by rewrite He. }
  destruct (ids !! p) as [id|]; [destruct (anyDevice devices)|].
  - eapply spec_bind; [apply ForgetPeer_spec|]. intros w2 evs2 [H2 Hs2]. eapply spec_mono; [apply (Hrest (evs ++ evs2))|].
    + by apply Forall_app.
    + by rewrite fmap_app, Hevs, H2.
    + cbn beta. intros err evs' H. by rewrite (assoc_L (++)).
  - by apply Hrest; [|rewrite app_nil_r].
  - by apply Hrest; [|rewrite app_nil_r].
Qed.

(** C19: The peers taken down before a new configuration file is written are exactly those the old file has
    and the new intent has not, in order; each is disconnected, deleted and, when the replica has a device,
    forgotten under the node id the old file gave it. An error is returned exactly when the deletion of a
    peer is refused (other than for a peer the configuration does not have), which stops the pass there;
    nothing is run for the replica itself or for a peer that stays. The old file is one the satellite
    rendered, with each host once and with names that need no quotes. *)
Theorem departed_peers_are_forgotten old kvs localNode localAddr devices autoDisk text dr devices' :
  let file := res_file old kvs localNode localAddr devices autoDisk in
  res_ok file -> NoDup (localNode :: GetPeerNames old) -> buildResFile old kvs localNode localAddr devices autoDisk = Ok text ->
  let removed := filter (fun p => p ∉ localNode :: GetPeerNames dr) (GetPeerNames old) in
  let cmds := removed ≫= fun p =>
    [["drbdadm"; "disconnect"; p +:+ ":" +:+ dr_Name dr]; ["drbdadm"; "del-peer"; p +:+ ":" +:+ dr_Name dr]]
    ++ (if anyDevice devices' then [["drbdsetup"; "forget-peer"; dr_Name dr; format_int (h_NodeID (peer_host old p))]] else []) in
  spec (tearDownRemovedPeers exec dr (Some text) localNode devices') (fun err evs =>
    (evs.*1 `prefix_of` cmds /\ (err = None -> evs.*1 = cmds)) /\ stops_at_refusal err evs).
Proof.
  intros file Hok Hnd Hb removed cmds. destruct (read_back file text Hok Hb) as [Hp Hi].
  assert (h_NodeName <$> r_Hosts file = localNode :: GetPeerNames old) as Hnames.
  { unfold file, res_file. cbn [r_Hosts fmap list_fmap]. f_equal. rewrite <- list_fmap_compose. apply list_fmap_id. }
  unfold tearDownRemovedPeers, computeRemovedPeers. rewrite Hp, Hnames, Hi, filter_cons_False by (intros H; apply H; by left).
  fold removed. replace cmds with (removed ≫= peer_cmds (dr_Name dr) (anyDevice devices')
    (foldl (fun m h => <[h_NodeName h := h_NodeID h]> m) ∅ (r_Hosts file))); [apply tear_down_spec|].
  unfold cmds. apply Forall_bind_ext, list.Forall_forall. intros p [_ Hin]%list_elem_of_filter. unfold peer_cmds.
  pose proof (hosts_lookup (r_Hosts file) ∅ (peer_host old p)) as Hl. rewrite Hnames in Hl. cbn [h_NodeName peer_host] in Hl.
  rewrite Hl; [done..|]. unfold file, res_file. cbn [r_Hosts]. right. apply list_elem_of_fmap. eauto.
Qed.

End Runs.

(** ** The order in which options are visited *)

Lemma SectionFor_cases key : SectionFor key ∈ [SectionNet; SectionDisk; SectionPeerDevice; SectionHandlers; SectionOptions].
Proof. unfold SectionFor. repeat case_match; apply (bool_decide_eq_true_1 _); vm_compute; reflexivity. Qed.

Lemma routed_section key s raw : routed key = Some (s, raw) -> s ∈ [SectionNet; SectionDisk; SectionPeerDevice; SectionHandlers; SectionOptions].
Proof.
  unfold routed. destruct (Str.cut_prefix PropPrefix key) as [rest|]; [|done]. cbn. destruct (Str.cut "/" rest) as [[a b]|]; [|done].
  cbn. intros [= <- _]. apply SectionFor_cases.
Qed.

Lemma put_cases out r v :
  put_option out SectionNet r v = mkSections (<[r := v]> (sec_Net out)) (sec_Resource out) (sec_Disk out) (sec_PeerDevice out) (sec_Handlers out)
  /\ put_option out SectionDisk r v = mkSections (sec_Net out) (sec_Resource out) (<[r := v]> (sec_Disk out)) (sec_PeerDevice out) (sec_Handlers out)
  /\ put_option out SectionPeerDevice r v = mkSections (sec_Net out) (sec_Resource out) (sec_Disk out) (<[r := v]> (sec_PeerDevice out)) (sec_Handlers out)
  /\ put_option out SectionHandlers r v = mkSections (sec_Net out) (sec_Resource out) (sec_Disk out) (sec_PeerDevice out) (<[r := v]> (sec_Handlers out))
  /\ put_option out SectionOptions r v = mkSections (sec_Net out) (<[r := v]> (sec_Resource out)) (sec_Disk out) (sec_PeerDevice out) (sec_Handlers out).
Proof. by destruct out. Qed.

Lemma put_commute out s1 r1 v1 s2 r2 v2 :
  s1 ∈ [SectionNet; SectionDisk; SectionPeerDevice; SectionHandlers; SectionOptions] ->
  s2 ∈ [SectionNet; SectionDisk; SectionPeerDevice; SectionHandlers; SectionOptions] -> (s1, r1) <> (s2, r2) ->
  put_option (put_option out s1 r1 v1) s2 r2 v2 = put_option (put_option out s2 r2 v2) s1 r1 v1.
Proof.
  intros H1 H2 Hne. rewrite !elem_of_cons, elem_of_nil in H1, H2.
  destruct H1 as [->|[->|[->|[->|[->|[]]]]]], H2 as [->|[->|[->|[->|[->|[]]]]]];
    rewrite ?(fun o r v => proj1 (put_cases o r v)), ?(fun o r v => proj1 (proj2 (put_cases o r v))),
      ?(fun o r v => proj1 (proj2 (proj2 (put_cases o r v)))), ?(fun o r v => proj1 (proj2 (proj2 (proj2 (put_cases o r v))))),
      ?(fun o r v => proj2 (proj2 (proj2 (proj2 (put_cases o r v))))); cbn;
    try done; f_equal; apply insert_insert_ne; congruence.
Qed.

Lemma split_perm kvs kvs' : kvs ≡ₚ kvs' -> NoDup (omap (fun kv => routed (fst kv)) kvs) ->
  forall out, foldl route_option out kvs = foldl route_option out kvs'.
Proof.
  induction 1 as [|kv l l' Hp IH|x y l|l1 l2 l3 H12 IH12 H23 IH23]; intros Hnd out; [done|..]; cbn [foldl].
  - apply IH. cbn [omap list_omap] in Hnd. destruct (routed (fst kv)); [by apply list.NoDup_cons in Hnd as [_ ?]|done].
  - f_equal. unfold route_option. cbn [omap list_omap] in Hnd.
    destruct (routed (fst x)) as [[s1 r1]|] eqn:E1, (routed (fst y)) as [[s2 r2]|] eqn:E2; try done.
    apply list.NoDup_cons in Hnd as [Hn _].
    apply put_commute; [by eapply routed_section|by eapply routed_section|]. intros E. apply Hn. rewrite E. by left.
  - rewrite IH12 by done. apply IH23. by rewrite <- H12.
Qed.

(** The file does not depend on the order in which the options are visited, as long as no
    two of them are the same option of the same section. *)
Theorem option_order_is_irrelevant dr kvs kvs' localNode localAddr devices autoDisk :
  kvs ≡ₚ kvs' -> NoDup (omap (fun kv => routed (fst kv)) kvs) ->
  buildResFile dr kvs localNode localAddr devices autoDisk = buildResFile dr kvs' localNode localAddr devices autoDisk.
Proof. intros Hp Hnd. unfold buildResFile, res_file, splitDRBDOptions. by rewrite (split_perm kvs kvs'). Qed.

(** ** Examples *)

Definition example_intent (peers : list DesiredPeer) (opts : gmap string string) : DesiredResource :=
  mkDesiredResource "pvc-1" "node-a" [] ∅ [mkDesiredVolume 0 1048576 "thin" "" 1000 "" "" ""] peers opts ["DRBD"; "STORAGE"] []
    true false true false (Some true).

Definition example_options : gmap string string :=
  {["port" := "7000"; "node-id" := "0"; "address" := "0.0.0.0"; "minor" := "1000";
    "peer.node-b.port" := "7000"; "peer.node-b.node-id" := "1"; "peer.node-b.address" := "10.0.0.2";
    "peer.node-c.port" := "7000"; "peer.node-c.node-id" := "2"; "peer.node-c.address" := "10.0.0.3";
    "DrbdOptions/Net/max-buffers" := "8000"; "DrbdOptions/Disk/on-io-error" := "detach"]}.

Definition example_old : DesiredResource := example_intent [mkDesiredPeer "node-b" (Some 1); mkDesiredPeer "node-c" (Some 2)] example_options.
Definition example_new : DesiredResource := example_intent [mkDesiredPeer "node-c" (Some 2)] example_options.
Definition example_devices : gmap Z string := {[0 := "/dev/thin/pvc-1_00000"]}.
Definition example_kvs : list (string * string) := map_to_list example_options.
Definition example_file : Resource := res_file example_old example_kvs "node-a" "10.0.0.1" example_devices ∅.
Definition example_text : string :=
  match buildResFile example_old example_kvs "node-a" "10.0.0.1" example_devices ∅ with Ok t => t | Err _ => "" end.

#[global] Instance word_dec s : Decision (word s).
Proof. unfold word. apply _. Defined.
#[global] Instance quiet_key_dec k : Decision (quiet_key k).
Proof. unfold quiet_key. apply _. Defined.

Lemma quiet_keys_decided opts : forallb (fun kv => bool_decide (quiet_key (fst kv))) (map_to_list opts) = true -> quiet_keys opts.
Proof.
  intros H k [v Hv]. rewrite forallb_forall in H. specialize (H (k, v)). cbn in H. apply bool_decide_eq_true in H; [done|].
  by apply list_elem_of_In, elem_of_map_to_list.
Qed.

Lemma example_file_ok : res_ok example_file.
Proof.
  constructor.
  - apply (bool_decide_eq_true_1 _). vm_compute. reflexivity.
  - repeat (apply list.Forall_cons; split); try apply list.Forall_nil_2; apply quiet_keys_decided; vm_compute; reflexivity.
  - unfold host_ok, is_int32. apply (bool_decide_eq_true_1 _). vm_compute. reflexivity.
  - unfold volume_ok. apply (bool_decide_eq_true_1 _). vm_compute. reflexivity.
  - apply list.Forall_nil_2.
Qed.

Lemma res_file_hosts_read_back_witness :
  extractResFilePeers example_text = ["node-a"; "node-b"; "node-c"]
  /\ extractResFilePeerNodeIDs (Some example_text) !! "node-c" = Some 2.
Proof.
  destruct (res_file_hosts_read_back example_file example_text example_file_ok) as [Hp Hi].
  - apply (bool_decide_eq_true_1 _). vm_compute. reflexivity.
  - vm_compute. reflexivity.
  - split; [exact Hp|]. apply (Hi (peer_host example_old "node-c")). right. right. left.
Defined.

(** Commands that always succeed. *)
Definition all_succeed (w : unit) (c : cmd) : answer * unit := ((None, ""), tt).

Lemma departed_peers_are_forgotten_witness :
  spec (tearDownRemovedPeers all_succeed example_new (Some example_text) "node-a" example_devices) (fun err evs =>
    (evs.*1 `prefix_of` [["drbdadm"; "disconnect"; "node-b:pvc-1"]; ["drbdadm"; "del-peer"; "node-b:pvc-1"]; ["drbdsetup"; "forget-peer"; "pvc-1"; "1"]]
    /\ (err = None -> evs.*1 = [["drbdadm"; "disconnect"; "node-b:pvc-1"]; ["drbdadm"; "del-peer"; "node-b:pvc-1"]; ["drbdsetup"; "forget-peer"; "pvc-1"; "1"]])) /\ stops_at_refusal err evs).
Proof.
  apply (departed_peers_are_forgotten all_succeed example_old example_kvs "node-a" "10.0.0.1" example_devices ∅ example_text example_new example_devices
    example_file_ok).
  - apply (bool_decide_eq_true_1 _). vm_compute. reflexivity.
  - vm_compute. reflexivity.
Defined.

Lemma option_order_is_irrelevant_witness :
  buildResFile example_old example_kvs "node-a" "10.0.0.1" example_devices ∅
  = buildResFile example_old (reverse example_kvs) "node-a" "10.0.0.1" example_devices ∅.
Proof.
  apply option_order_is_irrelevant; [by rewrite reverse_Permutation|]. apply (bool_decide_eq_true_1 _). vm_compute. reflexivity.
Defined.

(** Two spellings of one option are rendered under one name, and which value the file gets
    is up to the order of the range. *)
Theorem option_spellings_collide :
  let kvs := [("DrbdOptions/Net/max-buffers", "8000"); ("DrbdOptions/net/max-buffers", "2048")] in
  sec_Net (splitDRBDOptions kvs) = {["max-buffers" := "2048"]}
  /\ sec_Net (splitDRBDOptions (reverse kvs)) = {["max-buffers" := "8000"]}.
Proof. split; vm_compute; reflexivity. Qed.
