(* ===== verification/Metadata.v ===== *)
(** * Metadata of a replica: creating, repairing and seeding it

    Models the part of [pkg/satellite/reconciler.go] that decides whether a volume's DRBD metadata
    is kept, repaired or created anew, which generation a fresh volume is seeded with, and the
    gates before any of it: [ensureMetadata], [ensurePerVolumeMetadata], [repairUncleanMetadata],
    [createMDWithCollisionRecovery], [resolveVolumeSeed], [seedInitialGI], [seedFreshVolumes],
    [gateBringUpReadiness]. What the steps read of the reconciler is a record; the tools are run
    through [DrbdAdm]. *)

From Stdlib Require Import Ascii.
From S2P Require Import Prelude GoStrings DrbdAlloc DrbdStates DrbdText DrbdStatus DrbdAdm Dispatcher Lsblk ResFile GiHistory.
Import DumpMd.

(** What the metadata steps read of the reconciler: the record of generations and whether it can
    be read, the kind of each registered pool, and the volumes whose restore fell back to a blank
    volume. *)
Record reconciler := mkReconciler {
  r_history : gi_state;
  r_historyReadable : bool;
  r_providers : gmap string string;
  r_blankFallback : gmap string bool;
}.

Definition restoreSeedKey (rdName : string) (volNum : Z) : string := rdName +:+ "/" +:+ format_int volNum.
Definition isRestoreBlankFallback (r : reconciler) (rdName : string) (volNum : Z) : bool :=
  default false (r_blankFallback r !! restoreSeedKey rdName volNum).
Definition recordRestoreBlankFallback (r : reconciler) (rdName : string) (volNum : Z) (blank : bool) : reconciler :=
  mkReconciler (r_history r) (r_historyReadable r) (r_providers r) (<[restoreSeedKey rdName volNum := blank]> (r_blankFallback r)).

Inductive meta_err :=
  | RecordUnreadable | ApplyALFailed | DumpFailed | ProbeFailed
  | CreateFailed (target : string) | MarkerFailed | RenderFailed
  | SeedInvalid (vol : Z) | SetGIFailed (vol node : Z)
  | UnresolvedLocalNodeID | UnresolvedSkipInitialSync.

(** ** Elections *)

Definition localNodeIDFromOpts (dr : DesiredResource) : option Z :=
  raw ← dr_DrbdOptions dr !! "node-id";
  if bool_decide (raw = "") then None else parse_int 32 raw.

Definition isInitialUpToDateWinner (dr : DesiredResource) (firstActivation : bool) : bool :=
  firstActivation && bool_decide (get (dr_DrbdOptions dr) "auto-primary" = boolPropTrue) && negb (dr_PeerHasData dr).

Definition isLateAddWinner (dr : DesiredResource) : bool :=
  match localNodeIDFromOpts dr with
  | None => false
  | Some localID => forallb (fun p => match dp_NodeID p with None => true | Some id => negb (id <=? localID) end) (dr_Peers dr)
  end.

Definition isLowestDiskfulNodeID (dr : DesiredResource) : bool :=
  let opts := dr_DrbdOptions dr in
  match parse_int 64 (get opts "node-id") with
  | None => false
  | Some selfID => forallb (fun peer =>
      bool_decide (get opts (peer_key peer "diskless") = boolPropTrue)
      || match parse_int 64 (get opts (peer_key peer "node-id")) with
         | Some peerID => negb (peerID <? selfID)
         | None => false
         end) (GetPeerNames dr)
  end.

(** ** Gates *)

Definition refuseUnresolvedLocalNodeID (dr : DesiredResource) : option meta_err :=
  match localNodeIDFromOpts dr with None => Some UnresolvedLocalNodeID | Some _ => None end.

Definition refuseUnresolvedSkipInitialSync (dr : DesiredResource) (freshActivation : bool) : option meta_err :=
  if freshActivation && bool_decide (dr_SkipInitialSync dr = None) then Some UnresolvedSkipInitialSync else None.

(** [marker]: whether the [.md-created] file is there. *)
Definition gateBringUpReadiness (dr : DesiredResource) (diskless marker : bool) : option meta_err :=
  match refuseUnresolvedLocalNodeID dr with
  | Some e => Some e
  | None =>
      if diskless then None
      else refuseUnresolvedSkipInitialSync dr (negb (dr_MetadataCreated dr) && negb marker)
  end.

(** ** Steps *)

Definition anySameGeneration (onDisk known : list string) : bool :=
  existsb (fun a => existsb (SameGeneration a) known) onDisk.

Section Steps.
Context {W : Type} (exec : W -> cmd -> answer * W) (decode : string -> option (list Slots.drbdsetupStatusResource)).
#[local] Notation shell := (shell (W := W)).
#[local] Notation run := (run exec).

(** The generations the volume is known to have had: the record, and the one in the status. *)
Definition known_generations (r : reconciler) (rdName : string) (vol : DesiredVolume) : option (list string) :=
  match recordedGIs (r_history r) (r_historyReadable r) rdName (dv_VolumeNumber vol) with
  | Err _ => None
  | Ok gis => Some (gis ++ (if bool_decide (dv_ObservedGI vol = "") then [] else [dv_ObservedGI vol]))
  end.

Definition repairUncleanMetadata (r : reconciler) (rdName : string) (vol : DesiredVolume) : shell (result meta_err bool) :=
  let target := volume_target rdName (dv_VolumeNumber vol) in
  match known_generations r rdName vol with
  | None => mret (Err RecordUnreadable)
  | Some [] => mret (Ok false)
  | Some known =>
      applied ← ApplyAL exec target;
      match applied with
      | Some _ => mret (Err ApplyALFailed)
      | None =>
          uuids ← MetadataUUIDs exec target;
          mret (match uuids with
                | None => Err DumpFailed
                | Some onDisk => Ok (anySameGeneration onDisk known)
                end)
      end
  end.

(** The probe of one volume, with the repair of a dirty activity log. *)
Definition volumeHasMD (r : reconciler) (rdName : string) (vol : DesiredVolume) : shell (result meta_err bool) :=
  probe ← DrbdAdm.HasMD exec (volume_target rdName (dv_VolumeNumber vol));
  match probe with
  | Ok hasMD => mret (Ok hasMD)
  | Err ErrMetadataUnclean => repairUncleanMetadata r rdName vol
  | Err ErrUnrecognised => mret (Err ProbeFailed)
  end.

Definition createMDWithCollisionRecovery (selfRD target : string) : shell (option string) :=
  err ← CreateMD exec target;
  match err with
  | None => mret None
  | Some e =>
      match ParseConfiguredDeviceMinor (Some e) with
      | None => mret (Some e)
      | Some minor =>
          a ← run status_text;
          match ResourceOwningMinor a minor with
          | Err _ => mret (Some e)
          | Ok owner =>
              if bool_decide (owner = "") then mret (Some e)
              else if bool_decide (owner = selfRD) then mret (Some e)
              else
                downErr ← SetupDown exec owner;
                match downErr with
                | Some _ => mret (Some e)
                | None => CreateMD exec target
                end
          end
      end
  end.

(** The loop over the volumes: the numbers of those whose metadata was created. *)
Fixpoint ensure_volumes (r : reconciler) (rdName : string) (vols : list DesiredVolume) (fresh : list Z) : shell (result meta_err (list Z)) :=
  match vols with
  | [] => mret (Ok fresh)
  | vol :: rest =>
      hasMD ← volumeHasMD r rdName vol;
      match hasMD with
      | Err e => mret (Err e)
      | Ok true => ensure_volumes r rdName rest fresh
      | Ok false =>
          createErr ← createMDWithCollisionRecovery rdName (volume_target rdName (dv_VolumeNumber vol));
          match createErr with
          | Some _ => mret (Err (CreateFailed (volume_target rdName (dv_VolumeNumber vol))))
          | None => ensure_volumes r rdName rest (fresh ++ [dv_VolumeNumber vol])
          end
      end
  end.

(** ** Seeds *)

Definition no_flags (current base : string) : GI.GISeed := GI.Build_GISeed current base false false false.

Definition resolveVolumeSeed (r : reconciler) (rdName : string) (vol : DesiredVolume) (peerHasData isWinner : bool)
    (skipInitialSync : option bool) : shell (option GI.GISeed) :=
  if peerHasData then mret None
  else
    let skipAllowed := bool_decide (skipInitialSync = Some true)
      && negb (negb (bool_decide (dv_SourceSnapshot vol = "")) && isRestoreBlankFallback r rdName (dv_VolumeNumber vol)) in
    let day0 := GI.Day0GIFor rdName (dv_VolumeNumber vol) in
    if negb (bool_decide (dv_SeedFromGI vol = "")) then mret (Some (no_flags (dv_SeedFromGI vol) (dv_SeedFromGI vol)))
    else if isWinner && skipAllowed then mret (Some (GI.Build_GISeed day0 "" true true false))
    else
      match r_providers r !! dv_StoragePool vol with
      | None => mret None
      | Some kind =>
          if negb (IsThinOrZFS kind) then mret None
          else if negb skipAllowed then mret None
          else
            a ← run (status_json rdName);
            mret (if AnyConnectedPeerHasDataForVolume decode a (dv_VolumeNumber vol) then None
                  else Some (GI.Build_GISeed day0 "" false false true))
      end.

Fixpoint set_slots (rdName : string) (vol : Z) (device gi : string) (nodes : list Z) : shell (option meta_err) :=
  match nodes with
  | [] => mret None
  | n :: rest =>
      err ← SetGIString exec rdName vol device n gi;
      match err with
      | Some _ => mret (Some (SetGIFailed vol n))
      | None => set_slots rdName vol device gi rest
      end
  end.

Definition seedPerPeerGI (rdName : string) (vol : DesiredVolume) (device : string) (seed : GI.GISeed) : shell (option meta_err) :=
  match GI.Validate seed with
  | Some _ => mret (Some (SeedInvalid (dv_VolumeNumber vol)))
  | None => set_slots rdName (dv_VolumeNumber vol) device (GI.to_string seed) (seqZ 0 (Alloc.NodeIDMax + 1))
  end.

(** The loop of [seedInitialGI] and of [seedFreshVolumes]: [want] selects the volumes. *)
Fixpoint seed_volumes (r : reconciler) (dr : DesiredResource) (devices : gmap Z string) (isWinner : bool) (want : Z -> bool)
    (vols : list DesiredVolume) : shell (option meta_err) :=
  match vols with
  | [] => mret None
  | vol :: rest =>
      if negb (want (dv_VolumeNumber vol)) then seed_volumes r dr devices isWinner want rest
      else
        let device := default "" (devices !! dv_VolumeNumber vol) in
        if bool_decide (device = "") then seed_volumes r dr devices isWinner want rest
        else
          seed ← resolveVolumeSeed r (dr_Name dr) vol (dr_PeerHasData dr) isWinner (dr_SkipInitialSync dr);
          match seed with
          | None => seed_volumes r dr devices isWinner want rest
          | Some seed =>
              err ← seedPerPeerGI (dr_Name dr) vol device seed;
              match err with
              | Some e => mret (Some e)
              | None => seed_volumes r dr devices isWinner want rest
              end
          end
  end.

Definition seedInitialGI (r : reconciler) (dr : DesiredResource) (devices : gmap Z string) (isWinner : bool) : shell (option meta_err) :=
  seed_volumes r dr devices isWinner (fun _ => true) (dr_Volumes dr).

Definition seedFreshVolumes (r : reconciler) (dr : DesiredResource) (devices : gmap Z string) (fresh : list Z) : shell (option meta_err) :=
  seed_volumes r dr devices (isLateAddWinner dr) (fun n => bool_decide (n ∈ fresh)) (dr_Volumes dr).

(** ** Entry points *)

Definition write_md_marker (name : string) (st : state_dir) : state_dir :=
  mkStateDir (sd_res st) (sd_owned st) ({[name]} ∪ sd_md_created st).

(** [markerOk]: whether the marker can be written. The condition on the custom resource is
    stamped at best effort and not part of the result. *)
Definition ensureMetadata (r : reconciler) (markerOk : bool) (dr : DesiredResource) (devices : gmap Z string) (firstActivation : bool)
    (st : state_dir) : shell (state_dir * option meta_err) :=
  fresh ← ensure_volumes r (dr_Name dr) (dr_Volumes dr) [];
  match fresh with
  | Err e => mret (st, Some e)
  | Ok fresh =>
      if negb markerOk then mret (st, Some MarkerFailed)
      else
        let st := write_md_marker (dr_Name dr) st in
        if negb firstActivation && bool_decide (fresh = []) then mret (st, None)
        else
          err ← seedInitialGI r dr devices (isInitialUpToDateWinner dr firstActivation);
          mret (st, err)
  end.

Definition createMetadata (r : reconciler) (markerOk : bool) (dr : DesiredResource) (devices : gmap Z string) (st : state_dir) :
    shell (state_dir * option meta_err) :=
  ensureMetadata r markerOk dr devices true st.

Definition maybeStampMetadata (r : reconciler) (markerOk : bool) (dr : DesiredResource) (devices : gmap Z string)
    (diskless firstActivation diskfulFlip : bool) (st : state_dir) : shell (state_dir * option meta_err) :=
  if diskless then mret (st, None)
  else if firstActivation && negb diskfulFlip then createMetadata r markerOk dr devices st
  else if diskfulFlip then ensureMetadata r markerOk dr devices false st
  else mret (st, None).

(** [render]: the rendering of the file, which comes first. *)
Definition ensurePerVolumeMetadata (r : reconciler) (render : shell (state_dir * option render_err)) (dr : DesiredResource)
    (devices : gmap Z string) (diskless : bool) (st : state_dir) : shell (state_dir * option meta_err) :=
  if diskless then mret (st, None)
  else
    '(st, rendered) ← render;
    match rendered with
    | Some _ => mret (st, Some RenderFailed)
    | None =>
        fresh ← ensure_volumes r (dr_Name dr) (dr_Volumes dr) [];
        match fresh with
        | Err e => mret (st, Some e)
        | Ok [] => mret (st, None)
        | Ok fresh => err ← seedFreshVolumes r dr devices fresh; mret (st, err)
        end
    end.

End Steps.
