(* ===== verification/MetadataProps.v ===== *)
(** * Properties of metadata creation and seeding

    Every statement is about the trace of a run, for tools that may answer anything: when metadata
    is created anew, when a foreign kernel slot is taken down, which replica's fresh metadata is
    marked up to date, and what is written where. *)

From Stdlib Require Import Ascii.
From S2P Require Import Prelude GoStrings DrbdAlloc DrbdStates DrbdText DrbdStatus DrbdAdm Kube ReplicaIdsProps ReplicaProps Dispatcher DispatcherProps.
From S2P Require Import Lsblk ResFile GiHistory Metadata.
Import DumpMd.

Definition create_md (target : string) : cmd := "drbdadm" :: create_md_args target.

(** ** Traces *)

Definition no_create (evs : list event) : Prop := Forall (fun e => forall t, fst e <> create_md t) evs.

Lemma no_create_app a b : no_create a -> no_create b -> no_create (a ++ b).
Proof. intros. by apply Forall_app. Qed.

(** Every creation in the trace is preceded by something that justifies it. *)
Definition justified (J : string -> list event -> Prop) (evs : list event) : Prop :=
  forall pre t a post, evs = pre ++ (create_md t, a) :: post -> J t pre.

Lemma no_create_justified J evs : no_create evs -> justified J evs.
Proof. intros H pre t a post ->. apply Forall_app in H as [_ H]. apply list.Forall_cons in H as [H _]. by destruct (H t). Qed.

Lemma justified_app (J : string -> list event -> Prop) a b :
  (forall t x y, J t y -> J t (x ++ y)) -> justified J a -> justified (fun t pre => J t (a ++ pre)) b -> justified J (a ++ b).
Proof.
  intros Hmono Ha Hb pre t x post E.
  apply app_eq_inv in E as [(k & E1 & E2)|(k & E1 & E2)].
  - destruct k as [|e k]; cbn in E2.
    + rewrite app_nil_r in E1. subst a. rewrite <- (app_nil_r pre). by eapply (Hb [] t x post).
    + injection E2 as <- ->. by eapply (Ha pre t x k).
  - subst pre. by eapply (Hb k t x post).
Qed.

Section Runs.
Context {W : Type} (exec : W -> cmd -> answer * W).

Lemma drbdadm_spec args : spec (drbdadm exec args) (fun err evs => exists a,
  evs = [("drbdadm" :: args, a)] /\ err = wrapf ("drbdadm " +:+ default "" (head args)) (fst a)).
Proof.
  unfold drbdadm. eapply (spec_bind _ _ (fun a evs => evs = [("drbdadm" :: args, a)])); [by apply spec_run|].
  intros a evs ->. apply spec_ret. cbn. eauto.
Qed.

Lemma wrapf_None m e : wrapf m e = None <-> e = None.
Proof. by destruct e. Qed.

(** ** Why metadata is created *)

Notation target_of rd vol := (volume_target rd (dv_VolumeNumber vol)).

(** What the trace must show before the metadata of [vol] is created: the tool says there is
    none, or it reports a dirty activity log and either the volume is not known to have had any
    generation or, with the log applied, none of those on disk is one it is known to have had. *)
Definition nothing_to_lose (r : reconciler) (rd : string) (vol : DesiredVolume) (pre : list event) : Prop :=
  exists a, (dump_md (target_of rd vol), a) ∈ pre
    /\ (DrbdStatus.HasMD a = Ok false
        \/ (DrbdStatus.HasMD a = Err ErrMetadataUnclean
            /\ (known_generations r rd vol = Some []
                \/ exists known applied out onDisk,
                     known_generations r rd vol = Some known
                     /\ (["drbdadm"; "apply-al"; target_of rd vol], applied) ∈ pre /\ fst applied = None
                     /\ (dump_md (target_of rd vol), (None, out)) ∈ pre /\ dump_uuids out = Ok onDisk
                     /\ anySameGeneration onDisk known = false))).

Lemma nothing_to_lose_more r rd vol pre pre' : pre ⊆ pre' -> nothing_to_lose r rd vol pre -> nothing_to_lose r rd vol pre'.
Proof.
  intros Hs (a & Ha & H). exists a. split; [set_solver|]. destruct H as [H|(H1 & [H|(k & ap & out & od & H2 & H3 & H4 & H5 & H6)])]; [by left|..].
  - right. split; [done|by left].
  - right. split; [done|]. right. exists k, ap, out, od. split_and!; try done; set_solver.
Qed.

Lemma MetadataUUIDs_spec target : spec (MetadataUUIDs exec target) (fun res evs => exists a, evs = [(dump_md target, a)]
  /\ forall onDisk, res = Some onDisk -> exists out, a = (None, out) /\ dump_uuids out = Ok onDisk).
Proof.
  unfold MetadataUUIDs. eapply (spec_bind _ _ (fun a evs => evs = [(dump_md target, a)])); [by apply spec_run|].
  intros a evs ->. apply spec_ret. exists a. split; [done|]. destruct a as [[e|] out]; [done|].
  destruct (dump_uuids out) eqn:E; [|done]. intros od [= ->]. eauto.
Qed.

Lemma repair_spec r rd vol : spec (repairUncleanMetadata exec r rd vol) (fun res evs =>
  no_create evs /\ (res = Ok false ->
    known_generations r rd vol = Some []
    \/ exists known applied out onDisk,
         known_generations r rd vol = Some known
         /\ (["drbdadm"; "apply-al"; target_of rd vol], applied) ∈ evs /\ fst applied = None
         /\ (dump_md (target_of rd vol), (None, out)) ∈ evs /\ dump_uuids out = Ok onDisk
         /\ anySameGeneration onDisk known = false)).
Proof.
  unfold repairUncleanMetadata. destruct (known_generations r rd vol) as [[|g gs]|] eqn:Ek.
  - apply spec_ret. split; [apply list.Forall_nil_2|by left].
  - set (known := g :: gs) in *. eapply spec_bind; [apply drbdadm_spec|]. intros err evs (applied & -> & ->).
    destruct (wrapf _ (fst applied)) as [e|] eqn:Ew.
    { apply spec_ret. split; [|done]. by repeat constructor. }
    apply wrapf_None in Ew. eapply spec_bind; [apply MetadataUUIDs_spec|]. intros res evs (a & -> & Hres).
    apply spec_ret. rewrite app_nil_r. split; [by repeat constructor|].
    destruct res as [onDisk|]; [|done]. intros [= Hno]. right. destruct (Hres onDisk eq_refl) as (out & -> & Hd).
    exists known, applied, out, onDisk. split_and!; try done; set_solver.
  - apply spec_ret. split; [apply list.Forall_nil_2|done].
Qed.

Lemma probe_spec r rd vol : spec (volumeHasMD exec r rd vol) (fun res evs => no_create evs /\ (res = Ok false -> nothing_to_lose r rd vol evs)).
Proof.
  unfold volumeHasMD, DrbdAdm.HasMD.
  eapply (spec_bind _ _ (fun p evs => exists a, evs = [(dump_md (target_of rd vol), a)] /\ p = DrbdStatus.HasMD a)).
  { eapply (spec_bind _ _ (fun a evs => evs = [(dump_md (target_of rd vol), a)])); [by apply spec_run|].
    intros a evs ->. apply spec_ret. cbn. eauto. }
  intros p evs (a & -> & ->). assert (no_create [(dump_md (target_of rd vol), a)]) as Hn by (by repeat constructor).
  destruct (DrbdStatus.HasMD a) as [b|[]] eqn:E.
  - apply spec_ret. rewrite app_nil_r. split; [done|]. intros [= ->]. exists a. split; [set_solver|by left].
  - eapply spec_mono; [apply repair_spec|]. cbn beta. intros res evs [Hc H]. split; [by apply no_create_app|].
    intros ->. exists a. split; [set_solver|]. right. split; [done|].
    destruct (H eq_refl) as [?|(k & ap & out & od & H2 & H3 & H4 & H5 & H6 & H7)]; [by left|]. right.
    exists k, ap, out, od. split_and!; try done; set_solver.
  - apply spec_ret. rewrite app_nil_r. by split.
Qed.

(** ** Taking down a foreign kernel slot *)

Definition setup_down (owner : string) : cmd := ["drbdsetup"; "down"; owner].

(** The trace shows why [owner] is taken down: the creation failed on a minor that is configured,
    and the kernel's status names [owner] as the resource that has it. *)
Definition holds_minor (owner target : string) (evs : list event) : Prop :=
  exists a minor status, (create_md target, a) ∈ evs
    /\ ParseConfiguredDeviceMinor (wrapf "drbdadm create-md" (fst a)) = Some minor
    /\ (status_text, status) ∈ evs /\ ResourceOwningMinor status minor = Ok owner.

Lemma SetupDown_spec owner : spec (SetupDown exec owner) (fun err evs => exists a, evs = [(setup_down owner, a)]).
Proof.
  unfold SetupDown. eapply (spec_bind _ _ (fun a evs => evs = [(setup_down owner, a)])); [by apply spec_run|].
  intros a evs ->. apply spec_ret. cbn. eauto.
Qed.

Definition create_facts (self target : string) (evs : list event) : Prop :=
  (forall t a, (create_md t, a) ∈ evs -> t = target)
  /\ (forall owner a, (setup_down owner, a) ∈ evs -> owner <> self /\ owner <> "" /\ holds_minor owner target evs)
  /\ (length (filter (fun e => fst e = create_md target) evs) <= 2)%nat.

Lemma create_md_inj t t' : create_md t = create_md t' -> t = t'.
Proof. unfold create_md, create_md_args. by intros [= ->]. Qed.

Lemma create_spec self target : spec (createMDWithCollisionRecovery exec self target) (fun _ evs => create_facts self target evs).
Proof.
  assert (forall a, create_facts self target [(create_md target, a)]) as H1.
  { intros a. split_and!.
    - intros t a' [E|?%elem_of_nil]%elem_of_cons; [|done]. apply create_md_inj. congruence.
    - by intros owner a' [?|?%elem_of_nil]%elem_of_cons.
    - rewrite filter_cons. case_decide; cbn; lia. }
  assert (forall a st, create_facts self target [(create_md target, a); (status_text, st)]) as H2.
  { intros a st. split_and!.
    - intros t a' [E|[?|?%elem_of_nil]%elem_of_cons]%elem_of_cons; [|done..]. apply create_md_inj. congruence.
    - by intros owner a' [?|[?|?%elem_of_nil]%elem_of_cons]%elem_of_cons.
    - rewrite !filter_cons. repeat case_decide; cbn; try lia; done. }
  unfold createMDWithCollisionRecovery. eapply spec_bind; [apply drbdadm_spec|]. intros err evs (a & -> & ->).
  fold (create_md target). destruct (wrapf _ (fst a)) as [e|] eqn:Ew; [|apply spec_ret; rewrite app_nil_r; apply H1].
  destruct (ParseConfiguredDeviceMinor (Some e)) as [minor|] eqn:Em; [|apply spec_ret; rewrite app_nil_r; apply H1].
  eapply (spec_bind _ _ (fun st evs => evs = [(status_text, st)])); [by apply spec_run|]. intros st evs ->.
  assert (create_facts self target ([(create_md target, a)] ++ [(status_text, st)] ++ [])) as H2' by apply H2.
  destruct (ResourceOwningMinor st minor) as [owner|] eqn:Eo; [|by apply spec_ret].
  case_bool_decide as Hne; [by apply spec_ret|]. case_bool_decide as Hself; [by apply spec_ret|].
  eapply spec_bind; [apply SetupDown_spec|]. intros downErr evs (d & ->).
  assert (holds_minor owner target [(create_md target, a); (status_text, st); (setup_down owner, d)]) as Hh.
  { exists a, minor, st. split_and!; [set_solver| |set_solver|done]. change (wrapf "drbdadm create-md" (fst a) = Some e) in Ew. by rewrite Ew. }
  assert (forall more, Forall (fun e => fst e = create_md target) more -> (length more <= 1)%nat ->
    create_facts self target ([(create_md target, a)] ++ [(status_text, st)] ++ [(setup_down owner, d)] ++ more)) as Hmore.
  { intros more Hall Hlen. rewrite list.Forall_forall in Hall. split_and!.
    - intros t a' [E|[?|[?|Hin]%elem_of_cons]%elem_of_cons]%elem_of_cons; try done; apply create_md_inj; [congruence|]. by apply (Hall (create_md t, a')).
    - intros o a' [?|[?|[E|Hin]%elem_of_cons]%elem_of_cons]%elem_of_cons; try done; [|by apply Hall in Hin].
      injection E as -> _. split_and!; [done..|]. destruct Hh as (x & m & s' & X1 & X2 & X3 & X4). exists x, m, s'. split_and!; try done; set_solver.
    - cbn [app]. rewrite !filter_cons. repeat case_decide; try done. cbn. pose proof (length_filter (fun e => fst e = create_md target) more). lia. }
  destruct downErr as [x|]; [apply spec_ret; apply Hmore; [apply list.Forall_nil_2|cbn; lia]|].
  eapply spec_mono; [apply drbdadm_spec|]. intros err evs (a2 & -> & _). apply Hmore; [by apply list.Forall_singleton|cbn; lia].
Qed.

(** A kernel slot is taken down to make room for new metadata only when the creation failed
    because that slot's resource has the minor, and never when it is the replica's own; the
    creation is tried at most twice and for no other volume. *)
Theorem only_a_foreign_slot_is_taken_down self target :
  spec (createMDWithCollisionRecovery exec self target) (fun _ evs =>
    (forall owner a, (setup_down owner, a) ∈ evs -> owner <> self /\ owner <> "" /\ holds_minor owner target evs)
    /\ (forall t a, (create_md t, a) ∈ evs -> t = target)
    /\ (length (filter (fun e => fst e = create_md target) evs) <= 2)%nat).
Proof. eapply spec_mono; [apply create_spec|]. intros err evs (? & ? & ?). auto. Qed.

(** ** The loop over the volumes *)

Definition volume_justified (r : reconciler) (rd : string) (vols : list DesiredVolume) (t : string) (pre : list event) : Prop :=
  exists vol, vol ∈ vols /\ t = target_of rd vol /\ nothing_to_lose r rd vol pre.

Lemma volume_justified_more r rd vols vols' t pre pre' : vols ⊆ vols' -> pre ⊆ pre' ->
  volume_justified r rd vols t pre -> volume_justified r rd vols' t pre'.
Proof.
  intros Hv Hp (vol & Hin & E & H). exists vol. split_and!; [set_solver|done|]. by eapply nothing_to_lose_more.
Qed.

Lemma justified_weaken (J K : string -> list event -> Prop) evs : (forall t pre, J t pre -> K t pre) -> justified J evs -> justified K evs.
Proof. intros H Hj pre t a post E. by eapply H, Hj. Qed.

Lemma volumes_spec r rd vols : forall fresh, spec (ensure_volumes exec r rd vols fresh) (fun _ evs => justified (volume_justified r rd vols) evs).
Proof.
  induction vols as [|vol vols IH]; intros fresh; cbn [ensure_volumes].
  { apply spec_ret. by apply no_create_justified, list.Forall_nil_2. }
  assert (forall t x y, volume_justified r rd (vol :: vols) t y -> volume_justified r rd (vol :: vols) t (x ++ y)) as Hmono.
  { intros t x y. apply volume_justified_more; set_solver. }
  eapply spec_bind; [apply probe_spec|]. intros res evs [Hn Hfalse].
  destruct res as [[]|e]; [| |apply spec_ret; rewrite app_nil_r; by apply no_create_justified].
  { eapply spec_mono; [apply IH|]. cbn beta. intros out evs' H. apply justified_app; [done|by apply no_create_justified|].
    eapply justified_weaken; [|exact H]. intros t pre. apply volume_justified_more; set_solver. }
  specialize (Hfalse eq_refl). eapply spec_bind; [apply create_spec|]. intros err evs2 (Hc & _).
  assert (justified (fun t pre => volume_justified r rd (vol :: vols) t (evs ++ pre)) evs2) as H2.
  { intros pre t a post ->. rewrite (Hc t a) by set_solver. exists vol. split_and!; [by left|done|].
    eapply nothing_to_lose_more; [|exact Hfalse]. set_solver. }
  destruct err as [e|].
  { apply spec_ret. rewrite app_nil_r. apply justified_app; [done|by apply no_create_justified|done]. }
  eapply spec_mono; [apply IH|]. cbn beta. intros out evs3 H3. apply justified_app; [done|by apply no_create_justified|].
  apply justified_app; [intros t x y; apply volume_justified_more; set_solver|done|].
  eapply justified_weaken; [|exact H3]. intros t pre. apply volume_justified_more; set_solver.
Qed.

Lemma justified_more r rd vols a b : justified (volume_justified r rd vols) a -> no_create b -> justified (volume_justified r rd vols) (a ++ b).
Proof.
  intros Ha Hb. apply justified_app; [intros t x y; apply volume_justified_more; set_solver|done|by apply no_create_justified].
Qed.

(** Runs all of whose commands satisfy [P]. *)
Definition only (P : cmd -> Prop) {A} (m : shell (W := W) A) : Prop := spec m (fun _ evs => Forall (fun e => P (fst e)) evs).

Lemma only_ret P {A} (a : A) : only P (mret a).
Proof. apply spec_ret, list.Forall_nil_2. Qed.

Lemma shell_only_bind P {A B} (m : shell A) (f : A -> shell B) : only P m -> (forall a, only P (f a)) -> only P (m ≫= f).
Proof.
  intros Hm Hf. eapply spec_bind; [exact Hm|]. intros a evs Ha. eapply spec_mono; [apply Hf|]. intros b evs' Hb. by apply Forall_app.
Qed.

Lemma only_run (P : cmd -> Prop) c : P c -> only P (run exec c).
Proof. intros H. apply spec_run. intros a. by repeat constructor. Qed.

Ltac only_tac :=
  repeat (first [apply only_ret | apply only_run | apply shell_only_bind; [|intros ?] | case_match | assumption]); try done.

Definition not_meta (c : cmd) : Prop := head c <> Some "drbdmeta".

Lemma volumes_not_meta r rd vols : forall fresh, only not_meta (ensure_volumes exec r rd vols fresh).
Proof.
  induction vols as [|vol vols IH]; intros fresh; cbn [ensure_volumes]; [apply only_ret|].
  assert (only not_meta (volumeHasMD exec r rd vol)).
  { unfold volumeHasMD, DrbdAdm.HasMD, repairUncleanMetadata, ApplyAL, MetadataUUIDs, drbdadm. only_tac. }
  assert (forall t, only not_meta (createMDWithCollisionRecovery exec rd t)).
  { intros t. unfold createMDWithCollisionRecovery, CreateMD, SetupDown, drbdadm. only_tac. }
  apply shell_only_bind; [done|]. intros res. case_match; [|apply only_ret]. case_match; [apply IH|]. apply shell_only_bind; [auto|].
  intros err. case_match; [apply only_ret|apply IH].
Qed.

Lemma spec_and {A} (m : shell (W := W) A) Q R : spec m Q -> spec m R -> spec m (fun a evs => Q a evs /\ R a evs).
Proof.
  intros HQ HR w log. destruct (HQ w log) as (a & w' & evs & E & H1). destruct (HR w log) as (a' & w'' & evs' & E' & H2).
  rewrite E in E'. injection E' as <- <- Hl%app_inv_head. subst evs'. eauto 8.
Qed.

(** ** Seeds *)

Context (jdecode : string -> option (list Slots.drbdsetupStatusResource)).

Definition day0_of (rd : string) (vol : DesiredVolume) : string := GI.Day0GIFor rd (dv_VolumeNumber vol).
Definition winner_seed_of (rd : string) (vol : DesiredVolume) : GI.GISeed := GI.Build_GISeed (day0_of rd vol) "" true true false.
Definition sibling_seed_of (rd : string) (vol : DesiredVolume) : GI.GISeed := GI.Build_GISeed (day0_of rd vol) "" false false true.

(** The controller let the replica skip the initial sync, and the volume is not one that was
    restored from a snapshot without getting its data. *)
Definition may_skip (r : reconciler) (rd : string) (vol : DesiredVolume) (skip : option bool) : Prop :=
  skip = Some true /\ (dv_SourceSnapshot vol = "" \/ isRestoreBlankFallback r rd (dv_VolumeNumber vol) = false).

(** The seed a volume may get, and when. *)
Inductive seed_for (r : reconciler) (rd : string) (vol : DesiredVolume) (isWinner : bool) (skip : option bool) : GI.GISeed -> Prop :=
  | SeedOfPeer : dv_SeedFromGI vol <> "" -> seed_for r rd vol isWinner skip (no_flags (dv_SeedFromGI vol) (dv_SeedFromGI vol))
  | SeedOfWinner : dv_SeedFromGI vol = "" -> may_skip r rd vol skip -> isWinner = true ->
      seed_for r rd vol isWinner skip (winner_seed_of rd vol)
  | SeedOfSibling kind : dv_SeedFromGI vol = "" -> may_skip r rd vol skip -> isWinner = false ->
      r_providers r !! dv_StoragePool vol = Some kind -> IsThinOrZFS kind = true ->
      seed_for r rd vol isWinner skip (sibling_seed_of rd vol).

Lemma may_skip_spec r rd vol skip :
  (bool_decide (skip = Some true)
    && negb (negb (bool_decide (dv_SourceSnapshot vol = "")) && isRestoreBlankFallback r rd (dv_VolumeNumber vol))) = true
  <-> may_skip r rd vol skip.
Proof.
  unfold may_skip. rewrite andb_true_iff, bool_decide_eq_true, negb_true_iff, andb_false_iff, negb_false_iff, bool_decide_eq_true. done.
Qed.

Lemma resolve_spec r rd vol peerHasData isWinner skip :
  spec (resolveVolumeSeed exec jdecode r rd vol peerHasData isWinner skip) (fun seed evs =>
    Forall (fun e => fst e = status_json rd) evs
    /\ (forall s, seed = Some s -> peerHasData = false /\ seed_for r rd vol isWinner skip s)
    /\ (peerHasData = false -> dv_SeedFromGI vol = "" -> isWinner = true -> may_skip r rd vol skip -> seed = Some (winner_seed_of rd vol))).
Proof.
  unfold resolveVolumeSeed. destruct peerHasData; [apply spec_ret; split_and!; [apply list.Forall_nil_2|done..]|].
  pose proof (may_skip_spec r rd vol skip) as Hskip. set (ok := bool_decide (skip = Some true) && _) in *.
  case_bool_decide as Hs; cbn [negb].
  2:{ apply spec_ret. split_and!; [apply list.Forall_nil_2| |done]. intros s [= <-]. split; [done|by apply SeedOfPeer]. }
  destruct (isWinner && ok) eqn:Ew.
  { apply andb_true_iff in Ew as [-> Hok%Hskip]. apply spec_ret. split_and!; [apply list.Forall_nil_2| |done].
    intros s [= <-]. split; [done|by apply SeedOfWinner]. }
  assert (isWinner = true -> may_skip r rd vol skip -> False) as Hno.
  { intros -> Hm%Hskip. by rewrite Hm in Ew. }
  destruct (r_providers r !! dv_StoragePool vol) as [kind|] eqn:Ek;
    [|apply spec_ret; split_and!; [apply list.Forall_nil_2|done|intros; exfalso; auto]].
  destruct (IsThinOrZFS kind) eqn:Et; cbn [negb]; [|apply spec_ret; split_and!; [apply list.Forall_nil_2|done|intros; exfalso; auto]].
  destruct ok eqn:Eok; cbn [negb]; [|apply spec_ret; split_and!; [apply list.Forall_nil_2|done|intros; exfalso; auto]].
  eapply (spec_bind _ _ (fun a evs => evs = [(status_json rd, a)])); [by apply spec_run|]. intros a evs ->. apply spec_ret.
  split_and!; [by repeat constructor| |intros; exfalso; auto]. destruct (AnyConnectedPeerHasDataForVolume _ _ _); [done|].
  intros s [= <-]. split; [done|]. eapply SeedOfSibling; [done|by apply Hskip|by destruct isWinner|done..].
Qed.

Lemma set_slots_spec rd vol device gi nodes : spec (set_slots exec rd vol device gi nodes) (fun err evs =>
  Forall (fun e => exists n, fst e = set_gi device n gi) evs
  /\ (err = None -> evs.*1 = map (fun n => set_gi device n gi) nodes)).
Proof.
  induction nodes as [|n nodes IH]; cbn [set_slots]; [by apply spec_ret; split; [apply list.Forall_nil_2|]|].
  unfold SetGIString.
  eapply (spec_bind _ _ (fun _ evs => evs.*1 = [set_gi device n gi] /\ Forall (fun e => exists n, fst e = set_gi device n gi) evs)).
  { eapply (spec_bind _ _ (fun a evs => evs = [(set_gi device n gi, a)])); [by apply spec_run|].
    intros a evs ->. apply spec_ret. split; [done|]. repeat constructor. by exists n. }
  intros err evs [E Hall]. destruct err as [e|]; [by apply spec_ret; rewrite app_nil_r|].
  eapply spec_mono; [apply IH|]. cbn beta. intros err evs' [Hall' H]. split; [by apply Forall_app|]. intros He. by rewrite fmap_app, E, H.
Qed.

Lemma seed_valid r rd vol isWinner skip s : seed_for r rd vol isWinner skip s -> GI.Validate s = None.
Proof.
  assert (day0_of rd vol <> "") as Hd.
  { intros E. pose proof (proj1 (GI.Day0GIFor_shape rd (dv_VolumeNumber vol))) as Hl. unfold day0_of in E. by rewrite E in Hl. }
  destruct 1; unfold GI.Validate; cbn; try done; by rewrite bool_decide_eq_false_2.
Qed.

(** What a seeding pass may do: look at the status, and write a seed a volume may have into the
    metadata of its device. *)
Definition seeding_event (r : reconciler) (dr : DesiredResource) (devices : gmap Z string) (isWinner : bool) (want : Z -> bool)
    (vols : list DesiredVolume) (e : event) : Prop :=
  fst e = status_json (dr_Name dr)
  \/ exists vol n s, vol ∈ vols /\ want (dv_VolumeNumber vol) = true /\ dr_PeerHasData dr = false
       /\ seed_for r (dr_Name dr) vol isWinner (dr_SkipInitialSync dr) s
       /\ default "" (devices !! dv_VolumeNumber vol) <> ""
       /\ fst e = set_gi (default "" (devices !! dv_VolumeNumber vol)) n (GI.to_string s).

(** A volume for which the replica is the source gets the winner's seed in every slot. *)
Definition slots_written (r : reconciler) (dr : DesiredResource) (devices : gmap Z string) (want : Z -> bool)
    (vols : list DesiredVolume) (evs : list event) : Prop :=
  forall vol device, vol ∈ vols -> want (dv_VolumeNumber vol) = true -> devices !! dv_VolumeNumber vol = Some device -> device <> "" ->
    dr_PeerHasData dr = false -> dv_SeedFromGI vol = "" -> may_skip r (dr_Name dr) vol (dr_SkipInitialSync dr) ->
    forall n, 0 <= n <= Alloc.NodeIDMax -> set_gi device n (GI.to_string (winner_seed_of (dr_Name dr) vol)) ∈ evs.*1.

Lemma seeding_event_more r dr devices isWinner want vols vols' e : vols ⊆ vols' ->
  seeding_event r dr devices isWinner want vols e -> seeding_event r dr devices isWinner want vols' e.
Proof. intros Hs [H|(vol & n & s & H1 & H2)]; [by left|]. right. exists vol, n, s. split; [set_solver|done]. Qed.

Lemma seedPerPeerGI_spec r dr isWinner skip vol s device :
  seed_for r (dr_Name dr) vol isWinner skip s ->
  spec (seedPerPeerGI exec (dr_Name dr) vol device s) (fun err evs =>
    Forall (fun e => exists n, fst e = set_gi device n (GI.to_string s)) evs
    /\ (err = None -> forall n, 0 <= n <= Alloc.NodeIDMax -> set_gi device n (GI.to_string s) ∈ evs.*1)).
Proof.
  intros Hs. unfold seedPerPeerGI. rewrite (seed_valid _ _ _ _ _ _ Hs). eapply spec_mono; [apply set_slots_spec|].
  cbn beta. intros err evs [Hall H]. split; [done|]. intros He n Hn. rewrite H by done. apply list_elem_of_fmap. exists n.
  split; [done|]. apply elem_of_seqZ. lia.
Qed.

Lemma seed_volumes_spec r dr devices isWinner want vols :
  spec (seed_volumes exec jdecode r dr devices isWinner want vols) (fun err evs =>
    Forall (seeding_event r dr devices isWinner want vols) evs
    /\ (err = None -> isWinner = true -> slots_written r dr devices want vols evs)).
Proof.
  induction vols as [|vol vols IH]; cbn [seed_volumes].
  { apply spec_ret. split; [apply list.Forall_nil_2|]. by intros _ _ v d ?%elem_of_nil. }
  assert (forall pre : list event, Forall (seeding_event r dr devices isWinner want (vol :: vols)) pre ->
    (isWinner = true -> slots_written r dr devices want [vol] pre) ->
    spec (seed_volumes exec jdecode r dr devices isWinner want vols) (fun err evs =>
      Forall (seeding_event r dr devices isWinner want (vol :: vols)) (pre ++ evs)
      /\ (err = None -> isWinner = true -> slots_written r dr devices want (vol :: vols) (pre ++ evs)))) as Hrest.
  { intros pre Hpre Hvol. eapply spec_mono; [apply IH|]. cbn beta. intros err evs [H1 H2]. split.
    - apply Forall_app. split; [done|]. eapply list.Forall_impl; [exact H1|]. intros e. apply seeding_event_more. set_solver.
    - intros He Hw v d [->|Hin]%elem_of_cons Hwant Hdev Hd Hp Hs Hm n Hn; rewrite fmap_app; apply elem_of_app; [left|right].
      + by eapply (Hvol Hw); [left|..].
      + by eapply (H2 He Hw). }
  destruct (want (dv_VolumeNumber vol)) eqn:Ewant; cbn [negb].
  2:{ apply (Hrest []); [apply list.Forall_nil_2|]. intros _ v d ->%list_elem_of_singleton. congruence. }
  case_bool_decide as Hdev.
  { apply (Hrest []); [apply list.Forall_nil_2|]. intros _ v d ->%list_elem_of_singleton _ E. rewrite E in Hdev. by cbn in Hdev. }
  eapply spec_bind; [apply resolve_spec|]. intros seed evs (Hst & Hsome & Hwin).
  assert (Forall (seeding_event r dr devices isWinner want (vol :: vols)) evs) as Hst'.
  { eapply list.Forall_impl; [exact Hst|]. intros e E. by left. }
  destruct seed as [s|].
  2:{ eapply spec_mono; [apply (Hrest evs Hst')|done]. intros Hw v d ->%list_elem_of_singleton _ _ _ Hp Hs Hm. by specialize (Hwin Hp Hs Hw Hm). }
  destruct (Hsome s eq_refl) as [Hp Hs]. eapply spec_bind; [by apply (seedPerPeerGI_spec r dr isWinner (dr_SkipInitialSync dr) vol s)|].
  intros err evs2 [H2 Hslots].
  assert (Forall (seeding_event r dr devices isWinner want (vol :: vols)) (evs ++ evs2)) as Hst2.
  { apply Forall_app. split; [done|]. eapply list.Forall_impl; [exact H2|]. intros e [n E]. right. exists vol, n, s. split_and!; [by left|done..]. }
  destruct err as [e|]; [apply spec_ret; rewrite app_nil_r; by split|].
  eapply spec_mono; [apply (Hrest (evs ++ evs2) Hst2)|by intros; rewrite (assoc_L (++))].
  intros Hw v d ->%list_elem_of_singleton _ E Hd _ Hsg Hm n Hn. rewrite fmap_app. apply elem_of_app. right.
  specialize (Hwin Hp Hsg Hw Hm). injection Hwin as ->. rewrite E in Hslots. by apply (Hslots eq_refl).
Qed.

(** ** When metadata is created *)

Lemma seeding_no_create r dr devices isWinner want vols evs :
  Forall (seeding_event r dr devices isWinner want vols) evs -> no_create evs.
Proof.
  intros H. eapply list.Forall_impl; [exact H|]. intros e [E|(vol & n & s & _ & _ & _ & _ & _ & E)] t E';
    rewrite E in E'; discriminate E'.
Qed.

Lemma ensureMetadata_spec r markerOk dr devices first st :
  spec (ensureMetadata exec jdecode r markerOk dr devices first st) (fun res evs => exists pre post,
    evs = pre ++ post /\ justified (volume_justified r (dr_Name dr) (dr_Volumes dr)) pre
    /\ Forall (fun e => not_meta (fst e)) pre
    /\ Forall (seeding_event r dr devices (isInitialUpToDateWinner dr first) (fun _ => true) (dr_Volumes dr)) post
    /\ (snd res = None -> isInitialUpToDateWinner dr first = true -> slots_written r dr devices (fun _ => true) (dr_Volumes dr) post)).
Proof.
  unfold ensureMetadata. eapply spec_bind; [apply spec_and; [apply volumes_spec|apply volumes_not_meta]|].
  intros fresh evs [Hj Hm]. cbn beta.
  assert (isInitialUpToDateWinner dr first = true -> first = true) as Hfirst.
  { unfold isInitialUpToDateWinner. by intros [[? _]%andb_true_iff _]%andb_true_iff. }
  destruct fresh as [fresh|e].
  2:{ apply spec_ret. rewrite app_nil_r. exists evs, []. rewrite app_nil_r. by split_and!. }
  destruct markerOk; cbn [negb].
  2:{ apply spec_ret. rewrite app_nil_r. exists evs, []. rewrite app_nil_r. by split_and!. }
  destruct (negb first && _) eqn:E.
  { apply spec_ret. rewrite app_nil_r. exists evs, []. rewrite app_nil_r. split_and!; try done.
    intros _ Hw%Hfirst. by rewrite Hw in E. }
  eapply spec_bind; [apply seed_volumes_spec|]. intros err post [H1 H2]. apply spec_ret. rewrite app_nil_r. exists evs, post.
  by split_and!.
Qed.

(** C4: metadata is created over a volume only when nothing of the replica's is lost by it, in
    every run and whatever the tools answer: the probe found none, or it found a dirty activity
    log on a volume that is not known to have carried a generation, or one whose metadata, with
    the log applied, holds none of the generations the volume is known to have carried. *)
Theorem metadata_created_only_over_nothing r markerOk dr devices first st :
  spec (ensureMetadata exec jdecode r markerOk dr devices first st) (fun _ evs =>
    forall pre t a post, evs = pre ++ (create_md t, a) :: post ->
    exists vol, vol ∈ dr_Volumes dr /\ t = target_of (dr_Name dr) vol /\ nothing_to_lose r (dr_Name dr) vol pre).
Proof.
  eapply spec_mono; [apply ensureMetadata_spec|]. intros res evs (pre & post & -> & Hj & _ & Hs & _). apply seeding_no_create in Hs.
  exact (justified_more _ _ _ _ _ Hj Hs).
Qed.

(** ** Which metadata is marked up to date *)

(** The positional flags of the argument of [set-gi]: consistent and up to date. *)
Definition claims_up_to_date (gi : string) : Prop := exists p, gi = p +:+ ":1:1".

Lemma suffix_last p q c d : p +:+ String c "" = q +:+ String d "" -> p = q /\ c = d.
Proof. intros E%(f_equal Str.rev). rewrite !rev_snoc in E. injection E as -> E%(f_equal Str.rev). by rewrite !rev_involutive in E. Qed.

Lemma seed_claims r rd vol isWinner skip s : seed_for r rd vol isWinner skip s -> claims_up_to_date (GI.to_string s) ->
  isWinner = true /\ may_skip r rd vol skip /\ s = winner_seed_of rd vol.
Proof.
  assert (forall p, p +:+ ":1:1" = ((p +:+ ":1") +:+ ":") +:+ "1") as E11 by (intros; by rewrite !StrFacts.app_assoc).
  intros [Hs|Hs Hm Hw|kind Hs Hm Hw Hk Ht] [p E]; [|done|]; exfalso; unfold GI.to_string in E; cbn [GI.UpToDate GI.Consistent GI.WasUpToDate no_flags sibling_seed_of] in E;
    rewrite E11 in E.
  - match type of E with ?x +:+ ":" +:+ ?y +:+ ":0:0" = _ =>
      replace (x +:+ ":" +:+ y +:+ ":0:0") with ((x +:+ ":" +:+ y +:+ ":0:") +:+ "0") in E by (by rewrite !StrFacts.app_assoc) end.
    by apply suffix_last in E as [_ E].
  - match type of E with ?y +:+ ":0:1" = _ => set (x := y) in E end.
    replace (x +:+ ":0:1") with (((x +:+ ":0") +:+ ":") +:+ "1") in E by (by rewrite !StrFacts.app_assoc).
    apply suffix_last in E as [E _]. apply suffix_last in E as [E _].
    replace (x +:+ ":0") with ((x +:+ ":") +:+ "0") in E by (by rewrite !StrFacts.app_assoc).
    replace (p +:+ ":1") with ((p +:+ ":") +:+ "1") in E by (by rewrite !StrFacts.app_assoc).
    by apply suffix_last in E as [_ E].
Qed.

Definition marks_up_to_date (device gi : string) (evs : list event) : Prop :=
  claims_up_to_date gi /\ exists n a, (set_gi device n gi, a) ∈ evs.

Lemma set_gi_inj device n gi device' n' gi' : set_gi device n gi = set_gi device' n' gi' -> device = device' /\ gi = gi'.
Proof. unfold set_gi, drbdmeta. by intros [= -> _ ->]. Qed.

Lemma seeding_marks r dr devices isWinner want vols evs device gi :
  Forall (seeding_event r dr devices isWinner want vols) evs -> marks_up_to_date device gi evs ->
  isWinner = true /\ dr_PeerHasData dr = false
  /\ exists vol, vol ∈ vols /\ want (dv_VolumeNumber vol) = true /\ device = default "" (devices !! dv_VolumeNumber vol)
       /\ may_skip r (dr_Name dr) vol (dr_SkipInitialSync dr) /\ gi = GI.to_string (winner_seed_of (dr_Name dr) vol).
Proof.
  intros Hall [Hc (n & a & Hin)]. rewrite list.Forall_forall in Hall. destruct (Hall _ Hin) as [E|(vol & m & s & H1 & H2 & H3 & H4 & _ & E)]; [discriminate E|].
  apply set_gi_inj in E as [-> ->]. apply (seed_claims _ _ _ _ _ _ H4) in Hc as (Hw & Hm & ->). split_and!; [done..|]. exists vol. by split_and!.
Qed.

Lemma not_meta_marks device gi (evs : list event) : Forall (fun e => not_meta (fst e)) evs -> forall n a, (set_gi device n gi, a) ∉ evs.
Proof. intros H n a Hin. rewrite list.Forall_forall in H. by specialize (H _ Hin). Qed.

Lemma winner_marked r markerOk dr devices first st :
  spec (ensureMetadata exec jdecode r markerOk dr devices first st) (fun _ evs =>
    forall device gi, marks_up_to_date device gi evs ->
      first = true /\ get (dr_DrbdOptions dr) "auto-primary" = boolPropTrue /\ dr_PeerHasData dr = false
      /\ exists vol, vol ∈ dr_Volumes dr /\ device = default "" (devices !! dv_VolumeNumber vol)
           /\ may_skip r (dr_Name dr) vol (dr_SkipInitialSync dr) /\ gi = GI.to_string (winner_seed_of (dr_Name dr) vol)).
Proof.
  eapply spec_mono; [apply ensureMetadata_spec|]. intros res evs (pre & post & -> & _ & Hm & Hs & _) device gi [Hc (n & a & Hin)].
  apply elem_of_app in Hin as [Hin|Hin]; [by apply (not_meta_marks device gi pre Hm) in Hin|].
  destruct (seeding_marks _ _ _ _ _ _ _ device gi Hs) as (Hw & Hp & vol & H1 & _ & H2 & H3 & H4); [split; [done|eauto]|].
  unfold isInitialUpToDateWinner in Hw. apply andb_true_iff in Hw as [[Hf Ha%bool_decide_eq_true]%andb_true_iff _].
  split_and!; try done. exists vol. by split_and!.
Qed.

(** A volume's metadata is marked up to date only on the replica elected for it, in its first
    activation, when no peer is known to hold data, the controller let the replica skip the
    initial sync, and the volume is not a restore that came up blank; and then with the day-0
    generation. *)
Theorem only_the_winner_is_marked_up_to_date r markerOk dr devices first st :
  spec (ensureMetadata exec jdecode r markerOk dr devices first st) (fun _ evs =>
    forall device gi, marks_up_to_date device gi evs ->
      first = true /\ get (dr_DrbdOptions dr) "auto-primary" = boolPropTrue /\ dr_PeerHasData dr = false
      /\ exists vol, vol ∈ dr_Volumes dr /\ device = default "" (devices !! dv_VolumeNumber vol)
           /\ may_skip r (dr_Name dr) vol (dr_SkipInitialSync dr) /\ gi = GI.to_string (winner_seed_of (dr_Name dr) vol)).
Proof. apply winner_marked. Qed.

(** The elected replica does come up marked: a first activation that ends without an error
    has written the day-0 generation, consistent and up to date, into all 32 slots of every
    volume's metadata. *)
Theorem winner_marks_every_slot r markerOk dr devices st :
  spec (ensureMetadata exec jdecode r markerOk dr devices true st) (fun res evs =>
    snd res = None -> isInitialUpToDateWinner dr true = true ->
    forall vol device n, vol ∈ dr_Volumes dr -> devices !! dv_VolumeNumber vol = Some device -> device <> "" ->
      dv_SeedFromGI vol = "" -> may_skip r (dr_Name dr) vol (dr_SkipInitialSync dr) -> 0 <= n <= Alloc.NodeIDMax ->
      exists a, (set_gi device n (GI.to_string (winner_seed_of (dr_Name dr) vol)), a) ∈ evs).
Proof.
  eapply spec_mono; [apply ensureMetadata_spec|]. intros res evs (pre & post & -> & _ & _ & _ & Hslots) He Hw vol device n Hv Hd Hne Hs Hm Hn.
  assert (dr_PeerHasData dr = false) as Hp by (unfold isInitialUpToDateWinner in Hw; by apply andb_true_iff in Hw as [_ ?%negb_true_iff]).
  specialize (Hslots He Hw vol device Hv eq_refl Hd Hne Hp Hs Hm n Hn). apply list_elem_of_fmap in Hslots as ([c a] & -> & Hin).
  exists a. set_solver.
Qed.

End Runs.

(** ** One source per definition *)

Definition activation {W} (exec : W -> cmd -> answer * W) jdecode r markerOk dr devices st (w : W) : list event :=
  snd (snd (ensureMetadata exec jdecode r markerOk dr devices true st (w, []))).

(** C1: On the first activation of the replicas of a definition with DRBD, of any two of them at most one
    creates its metadata marked up to date, from the identities of the controller through the intent of each
    satellite to the commands it runs, whatever the tools answer and however old the cached copy each
    satellite has of its own replica is. Both satellites have to see the same state of the API server (a
    source comment admits that two winners are possible otherwise), in which node ids are unique within the
    definition and below the sentinel, are the same in spec and status where both are set, and a node has
    one replica of the definition. A replica that is added later is not covered. *)
Theorem one_replica_is_marked_up_to_date decode v n1 n2 c1 c2 r1 r2 f1 f2 all1 all2 nodes1 nodes2 pools1 pools2 rd1 rd2 eff1 eff2 d1 d2
    {W1 W2} (exec1 : W1 -> cmd -> answer * W1) (exec2 : W2 -> cmd -> answer * W2) jdecode rec1 rec2 ok1 ok2 dev1 dev2 st1 st2 w1 w2 device1 gi1 device2 gi2 :
  good v -> mirrored v -> placed_once v -> small_ids v ->
  n1 <> n2 -> v_resources v !! n1 = Some c1 -> v_resources v !! n2 = Some c2 -> rd_of c1 = rd_of c2 ->
  all1 ≡ₚ replicas v -> all2 ≡ₚ replicas v -> grows r1 c1 -> grows r2 c2 ->
  (f1 = None \/ f1 = Some c1) -> (f2 = None \/ f2 = Some c2) ->
  rdNeedsDRBD rd1 = true -> rdNeedsDRBD rd2 = true ->
  satellite_pass decode all1 nodes1 pools1 rd1 eff1 r1 f1 = Some d1 ->
  satellite_pass decode all2 nodes2 pools2 rd2 eff2 r2 f2 = Some d2 ->
  marks_up_to_date device1 gi1 (activation exec1 jdecode rec1 ok1 d1 dev1 st1 w1) ->
  ~ marks_up_to_date device2 gi2 (activation exec2 jdecode rec2 ok2 d2 dev2 st2 w2).
Proof.
  intros Hg Hm Hp Hs Hn H1 H2 Erd Ha1 Ha2 Hg1 Hg2 Hf1 Hf2 Hd1 Hd2 P1 P2 M1 M2.
  assert (forall W (exec : W -> cmd -> answer * W) r ok d dev st w device gi,
    marks_up_to_date device gi (activation exec jdecode r ok d dev st w) -> get (dr_DrbdOptions d) "auto-primary" = boolPropTrue) as Hauto.
  { intros W exec r ok d dev st w device gi. unfold activation.
    destruct (winner_marked exec jdecode r ok d dev true st w []) as (res & w' & evs & -> & H). cbn. by intros (_ & ? & _)%H. }
  pose proof (Hauto _ _ _ _ _ _ _ _ _ _ M1) as A1. pose proof (Hauto _ _ _ _ _ _ _ _ _ _ M2) as A2. unfold get in A1, A2.
  destruct (one_seed_per_definition decode v n1 n2 c1 c2 r1 r2 f1 f2 all1 all2 nodes1 nodes2 pools1 pools2 rd1 rd2 eff1 eff2 d1 d2) as [E|E]; try done.
  - by rewrite E in A1.
  - by rewrite E in A2.
Qed.

(** * Metadata on concrete tools

    The theorems of [MetadataProps] on the cluster of [DispatcherProps], a replica that crashed
    with its activity log open, and two elections that differ from their descriptions. *)

From S2P Require Import Prelude GoStrings DrbdAlloc DrbdStates DrbdText DrbdStatus DrbdAdm Kube ReplicaIdsProps ReplicaProps ReplicaExamples.
From S2P Require Import Dispatcher DispatcherProps Lsblk ResFile ResFileProps GiHistory Metadata.

Definition no_status : string -> option (list Slots.drbdsetupStatusResource) := fun _ => None.

(** Tools that succeed, and disks without metadata. *)
Definition blank_disks (w : unit) (c : cmd) : answer * unit :=
  if bool_decide (take 2 c = ["drbdadm"; "dump-md"]) then ((Some "exit status 1: No valid meta data found", ""), tt) else ((None, ""), tt).

Definition plain_reconciler : reconciler := mkReconciler no_record true {["thin" := ProviderKindLVMThin]} ∅.
Definition one_device : gmap Z string := {[0 := "/dev/thin/pvc_00000"]}.
Definition empty_dir : state_dir := mkStateDir ∅ ∅ ∅.

Definition marked (evs : list DrbdAdm.event) : bool :=
  bool_decide (set_gi "/dev/thin/pvc_00000" 0 (GI.Day0GIFor "pvc" 0 +:+ ":0:0:0:1:1") ∈ evs.*1).

Lemma marked_up_to_date evs : marked evs = true -> exists gi, marks_up_to_date "/dev/thin/pvc_00000" gi evs.
Proof.
  intros H%bool_decide_eq_true. apply list_elem_of_fmap in H as ([c a] & E & Hin). cbn [fst] in E. subst c.
  exists (GI.Day0GIFor "pvc" 0 +:+ ":0:0:0:1:1"). split; [|eauto]. exists (GI.Day0GIFor "pvc" 0 +:+ ":0:0:0"). by rewrite StrFacts.app_assoc.
Qed.

Lemma one_replica_is_marked_up_to_date_witness :
  exists d1 d2, passed first first = Some d1 /\ passed second second = Some d2
    /\ marked (activation blank_disks no_status plain_reconciler true d1 one_device empty_dir tt) = true
    /\ forall gi, ~ marks_up_to_date "/dev/thin/pvc_00000" gi
         (activation blank_disks no_status plain_reconciler true d2 one_device empty_dir tt).
Proof.
  destruct fresh_view_facts as (Hg & Hm & Hp & Hs).
  destruct (passed first first) as [d1|] eqn:E1; [|vm_compute in E1; discriminate E1].
  destruct (passed second second) as [d2|] eqn:E2; [|vm_compute in E2; discriminate E2].
  exists d1, d2. split; [reflexivity|]. split; [reflexivity|].
  assert (marked (activation blank_disks no_status plain_reconciler true d1 one_device empty_dir tt) = true) as M1.
  { assert ((d ← passed first first;
      Some (marked (activation blank_disks no_status plain_reconciler true d one_device empty_dir tt))) = Some true) as H by (vm_compute; reflexivity).
    rewrite E1 in H. injection H as H. exact H. }
  split; [exact M1|]. apply marked_up_to_date in M1 as [gi1 M1]. intros gi.
  apply (one_replica_is_marked_up_to_date no_paths fresh_view "pvc.n1" "pvc.n2" first second first second (Some first) (Some second)
    (replicas fresh_view) (replicas fresh_view) [] [] [] [] fresh_rd fresh_rd (Some ∅) (Some ∅) d1 d2
    blank_disks blank_disks no_status plain_reconciler plain_reconciler true true one_device one_device empty_dir empty_dir tt tt
    "/dev/thin/pvc_00000" gi1 "/dev/thin/pvc_00000" gi Hg Hm Hp Hs);
    try reflexivity; try assumption.
  - discriminate.
  - split_and!; done || by intros x.
  - apply second_grows.
  - right. reflexivity.
  - right. reflexivity.
Defined.

(** ** A replica that crashed while Primary *)

(** The disk: a superblock of generation 9F00AA11BB22CC33 under an activity log that is dirty
    until it is applied. *)
Definition crashed_disk (dirty : bool) (c : cmd) : answer * bool :=
  if bool_decide (take 2 c = ["drbdadm"; "dump-md"]) then
    if dirty then ((Some "exit status 10: Found meta data is unclean, please apply-al first", ""), dirty)
    else ((None, "current-uuid 0x9F00AA11BB22CC33;"), dirty)
  else if bool_decide (take 2 c = ["drbdadm"; "apply-al"]) then ((None, ""), false)
  else ((None, ""), dirty).

Definition crashed_volume : DesiredResource :=
  mkDesiredResource "pvc" "n1" [] ∅ [mkDesiredVolume 0 1048576 "thin" "" 20000 "" "" ""] [] ∅ [] [] true false true false (Some true).

Definition with_record : reconciler :=
  mkReconciler (RecordObservedGI true true Replaced no_record "pvc" 0 "9f00aa11bb22cc32") true {["thin" := ProviderKindLVMThin]} ∅.

(** With the generation on record the metadata is repaired and kept; without it, it is created
    anew. *)
Lemma crashed_replica_is_repaired :
  (snd (snd (ensureMetadata crashed_disk no_status with_record true crashed_volume one_device false empty_dir (true, [])))).*1
    = [dump_md "pvc/0"; ["drbdadm"; "apply-al"; "pvc/0"]; dump_md "pvc/0"]
  /\ create_md "pvc/0" ∈ (snd (snd (ensureMetadata crashed_disk no_status plain_reconciler true crashed_volume one_device false empty_dir (true, [])))).*1.
Proof. split; [vm_compute; reflexivity|]. apply (bool_decide_eq_true_1 _). vm_compute. reflexivity. Qed.

(** ** Elections *)

(** A peer of volume 0 is connected and up to date. *)
Definition peer_has_data : string -> option (list Slots.drbdsetupStatusResource) := fun _ =>
  Some [Slots.mkStatusResource (Some 0) "Secondary" [] [Slots.mkConnection 1 "n2" "Connected" "Secondary" [Slots.mkPeerDevice 0 "UpToDate" "Established" "no"]]].

(** The winner's seed does not wait for the kernel's view: with a connected peer that is up to
    date on the volume, the winner is still given the up-to-date seed, and without a look at the
    status. *)
Theorem winner_ignores_a_connected_peer :
  AnyConnectedPeerHasDataForVolume peer_has_data (None, "") 0 = true
  /\ resolveVolumeSeed blank_disks peer_has_data plain_reconciler "pvc" (mkDesiredVolume 0 1048576 "thin" "" 20000 "" "" "") false true (Some true) (tt, [])
       = (Some (winner_seed_of "pvc" (mkDesiredVolume 0 1048576 "thin" "" 20000 "" "" "")), (tt, [])).
Proof. split; vm_compute; reflexivity. Qed.

(** Diskful replicas with node ids 1 and 2 next to a diskless one with id 0. *)
Definition late_add (id other : string) (otherID : Z) : DesiredResource :=
  mkDesiredResource "pvc" "n" [] ∅ [] [mkDesiredPeer "witness" (Some 0); mkDesiredPeer other (Some otherID)]
    (<["node-id" := id]> {["peer.witness.node-id" := "0"; "peer.witness.diskless" := "true"; peer_key other "node-id" := format_int otherID]})
    [] [] true false true false (Some true).

(** The election for a volume added later counts diskless peers: when a diskless replica has
    the lowest node id no diskful replica wins, although one of them is the lowest diskful. *)
Theorem late_add_election_counts_diskless_peers :
  isLateAddWinner (late_add "1" "n2" 2) = false /\ isLateAddWinner (late_add "2" "n1" 1) = false
  /\ isLowestDiskfulNodeID (late_add "1" "n2" 2) = true.
Proof. split_and!; vm_compute; reflexivity. Qed.
