(* ===== verification/LocalProps.v ===== *)
(** * Properties that belong to one object

    Models [pkg/store/local_props.go]: the marks blockstor writes onto a definition while it is
    restored, cloned or rolled back, the record of the volumes it was restored from, which
    properties travel to a copy, and which edits an operator may make of them; with the property
    editor of [pkg/rest/props_modify.go] these guards stand in front of. *)

From Stdlib Require Import Ascii.
From S2P Require Import Prelude Api GoStrings GoTime Dispatcher.

(** ** The marks *)

Definition RestoreFromSnapshotProp : string := "BlockstorRestoreFromSnapshot".
Definition RollbackAbandonedProp : string := "BlockstorRollbackAbandoned".
Definition RollbackInProgress : string := "in-progress".
Definition RollbackSinceProp : string := "Blockstor/RollbackSince".
Definition RestoreAdoptedProp : string := "Blockstor/RestoreAdopted".
Definition RestoreVolumesProp : string := "Blockstor/RestoreVolumes".
Definition CloneSnapshotOwnerProp : string := "Blockstor/CloneSnapshotOf".
Definition CloneSnapshotReapingProp : string := "Blockstor/CloneSnapshotReaping".
Definition SnapshotDeletingProp : string := "Blockstor/SnapshotDeleting".

Definition RollbackStepSnapshots : string := "snapshots".
Definition RollbackStepReadSnapshots : string := "read-snapshots".
Definition RollbackStepReapReplicas : string := "reap-replicas".
Definition RollbackStepDeleteDefinition : string := "delete-definition".

Definition minute : Z := 60 * second.
Definition StaleRollbackAfter : Z := 2 * minute.
Definition CLIRollbackBudget : Z := minute.

Local Notation props := (gmap string string).

(** A nil map and an empty one read and write alike, so both are the empty map. *)
Definition MarkRollback (p : props) (step : string) (now : Z) : props :=
  let p := <[RollbackAbandonedProp := step]> p in
  if bool_decide (step = RollbackInProgress) then <[RollbackSinceProp := format_rfc3339 now]> p
  else delete RollbackSinceProp p.

Definition UnmarkRollback (p : props) : props := delete RollbackSinceProp (delete RollbackAbandonedProp p).

Definition rollbackMarkStale (p : props) (now : Z) : bool :=
  if negb (bool_decide (get p RollbackAbandonedProp = RollbackInProgress)) then false
  else match parse_rfc3339 (get p RollbackSinceProp) with
       | None => false
       | Some since => bool_decide (StaleRollbackAfter < now - since)
       end.

(** ** The record of the restored volumes *)

Definition encode_volume (vol : SnapshotVolumeDef) : string :=
  format_int (svd_VolumeNumber vol) +:+ "=" +:+ format_int (svd_SizeKib vol).

Definition EncodeRestoreVolumes (vols : list SnapshotVolumeDef) : string := Str.join "," (map encode_volume vols).

Definition WithRestoreMarker (p : props) (snap : Snapshot) : props :=
  <[RestoreVolumesProp := EncodeRestoreVolumes (snap_VolumeDefinitions snap)]>
    (<[RestoreFromSnapshotProp := snap_ResourceName snap +:+ ":" +:+ snap_Name snap]> p).

Definition read_pair (pair : string) : option SnapshotVolumeDef :=
  '(number, size) ← Str.cut "=" pair;
  n ← parse_int 32 number;
  kib ← parse_int 64 size;
  Some (mkSnapshotVolumeDef n kib ∅).

(** [None]: no record, or one that does not parse. *)
Definition RecordedRestoreVolumes (p : props) : option (list SnapshotVolumeDef) :=
  raw ← p !! RestoreVolumesProp;
  if bool_decide (raw = "") then Some [] else mapM read_pair (split_char "," raw).

(** ** What a copy takes along *)

Definition local_keys : list string :=
  [RollbackAbandonedProp; RollbackSinceProp; RestoreAdoptedProp; RestoreFromSnapshotProp; RestoreVolumesProp;
   CloneSnapshotOwnerProp; CloneSnapshotReapingProp; SnapshotDeletingProp].

Definition TravellingProps (p : props) : props :=
  (DropPlaintextProps (foldl (fun out key => delete key out) p local_keys)).1.

(** ** Edits *)

Definition serverOwnedDefinitionProps : list string :=
  [RestoreFromSnapshotProp; RollbackAbandonedProp; RollbackSinceProp; RestoreAdoptedProp; RestoreVolumesProp;
   CloneSnapshotOwnerProp; CloneSnapshotReapingProp].

Inductive local_err := ErrRollbackStepMarkKept.

Definition RollbackMarkClearRefusal (before after : props) : option local_err :=
  if bool_decide (get before RollbackAbandonedProp
                  ∈ [""; RollbackInProgress; RollbackStepSnapshots; RollbackStepReadSnapshots]) then None
  else match after !! RollbackAbandonedProp with Some _ => None | None => Some ErrRollbackStepMarkKept end.

(** [strings.TrimRight(ns, "/")] *)
Fixpoint trim_right (c : ascii) (s : string) : string :=
  match s with
  | EmptyString => ""
  | String d s' => match trim_right c s' with
                   | EmptyString => if Ascii.eqb d c then "" else String d ""
                   | rest => String d rest
                   end
  end.

Definition NamespaceCovers (ns key : string) : bool :=
  let ns := trim_right "/" ns in
  negb (bool_decide (ns = "")) && Str.has_prefix (ns +:+ "/") key.

Definition edit_touches (override : props) (del namespaces : list string) (key : string) : bool :=
  match override !! key with
  | Some _ => true
  | None => Contains del key || existsb (fun ns => NamespaceCovers ns key) namespaces
  end.

Definition ServerOwnedPropEdit (override : props) (del namespaces : list string) : string :=
  default "" (find (edit_touches override del namespaces) serverOwnedDefinitionProps).

Definition clearable (k : string) : bool :=
  Contains [RollbackAbandonedProp; RollbackSinceProp; RestoreAdoptedProp; RestoreFromSnapshotProp] k.

Definition ServerOwnedPropEditByOperator (override : props) (del namespaces : list string) : string :=
  ServerOwnedPropEdit (filter (fun kv => ~ (clearable kv.1 = true /\ kv.2 = "")) override)
    (filter (fun k => clearable k = false) del) namespaces.

(** *** The editor (pkg/rest/props_modify.go) *)

Definition apply_override (p : props) (kv : string * string) : props :=
  let '(key, value) := kv in if bool_decide (value = "") then delete key p else <[key := value]> p.

Definition applyPropsModify (p override : props) (del : list string) : props :=
  foldl (fun p key => delete key p) (foldl apply_override p (map_to_list override)) del.

Definition deletePropNamespaces (p : props) (namespaces : list string) : props :=
  foldl (fun p ns => filter (fun kv => NamespaceCovers ns kv.1 = false) p) p namespaces.

(** The edit of a definition's properties, as [modifyResourceDefinition] runs it. *)
Definition modify_props (p override : props) (del namespaces : list string) : props :=
  deletePropNamespaces (applyPropsModify p override del) namespaces.

(** ** Properties *)

Lemma foldl_delete_lookup (l : list string) (p : props) k :
  foldl (fun p key => delete key p) p l !! k = if bool_decide (k ∈ l) then None else p !! k.
Proof.
  revert p. induction l as [|x l IH]; intros p; cbn; [done|]. rewrite IH.
  destruct (decide (k = x)) as [->|Hne].
  - rewrite lookup_delete_eq. rewrite (bool_decide_eq_true_2 (x ∈ x :: l)) by set_solver. by case_bool_decide.
  - rewrite lookup_delete_ne by done. by rewrite (bool_decide_ext (k ∈ x :: l) (k ∈ l)) by set_solver.
Qed.

Lemma filter_key_lookup (f : string -> bool) (p : props) k :
  filter (fun kv : string * string => f kv.1 = false) p !! k = if f k then None else p !! k.
Proof.
  rewrite map_lookup_filter. destruct (p !! k) as [v|]; [|by destruct (f k)]. cbn [mbind option_bind fst].
  destruct (f k) eqn:E; case_guard; (done || congruence).
Qed.

(** A copy takes every property along but the local ones and the passphrases. *)
Lemma TravellingProps_lookup p k :
  TravellingProps p !! k = if bool_decide (k ∈ local_keys) || IsPlaintextPropKey k then None else p !! k.
Proof.
  unfold TravellingProps, DropPlaintextProps. cbn [fst]. rewrite filter_key_lookup, foldl_delete_lookup.
  case_bool_decide; [by destruct (IsPlaintextPropKey k)|done].
Qed.

Lemma foldl_override_lookup l (p : props) k :
  NoDup l.*1 ->
  foldl apply_override p l !! k
  = match (list_to_map l : props) !! k with Some v => if bool_decide (v = "") then None else Some v | None => p !! k end.
Proof.
  revert p. induction l as [|[x v] l IH]; intros p; cbn; [done|]. intros [Hx Hl]%list.NoDup_cons. rewrite IH by done.
  destruct (decide (k = x)) as [->|Hne].
  - rewrite lookup_insert_eq. rewrite not_elem_of_list_to_map_1 by done.
    case_bool_decide; [apply lookup_delete_eq|apply lookup_insert_eq].
  - rewrite lookup_insert_ne by done. destruct ((list_to_map l : props) !! k); [done|].
    case_bool_decide; [by apply lookup_delete_ne|by apply lookup_insert_ne].
Qed.

Lemma applyPropsModify_lookup p override del k :
  applyPropsModify p override del !! k
  = if bool_decide (k ∈ del) then None
    else match override !! k with Some v => if bool_decide (v = "") then None else Some v | None => p !! k end.
Proof.
  unfold applyPropsModify. rewrite foldl_delete_lookup, foldl_override_lookup, list_to_map_to_list by apply NoDup_fst_map_to_list.
  done.
Qed.

Lemma deletePropNamespaces_lookup p namespaces k :
  deletePropNamespaces p namespaces !! k = if existsb (fun ns => NamespaceCovers ns k) namespaces then None else p !! k.
Proof.
  unfold deletePropNamespaces. revert p. induction namespaces as [|ns l IH]; intros p; cbn; [done|].
  rewrite IH, filter_key_lookup. by destruct (NamespaceCovers ns k), (existsb (fun n => NamespaceCovers n k) l).
Qed.

(** What an edit that does not touch a key does to it: nothing. *)
Lemma untouched_survives p override del namespaces k :
  edit_touches override del namespaces k = false -> modify_props p override del namespaces !! k = p !! k.
Proof.
  unfold edit_touches, modify_props, Contains. destruct (override !! k) eqn:E; [done|].
  intros [Hd Hn]%orb_false_iff. rewrite deletePropNamespaces_lookup, Hn, applyPropsModify_lookup, E. by rewrite Hd.
Qed.

(** An edit that passes the guard leaves every property blockstor keeps on a definition as it
    was, whatever keys and namespaces it sets and deletes; one that is refused does name the
    property of the refusal. An operator's edit that passes may also delete the clearable marks,
    but never sets one and never touches the others. *)
Theorem server_owned_props_survive p override del namespaces :
  match ServerOwnedPropEdit override del namespaces with
  | "" => forall k, k ∈ serverOwnedDefinitionProps -> modify_props p override del namespaces !! k = p !! k
  | key => key ∈ serverOwnedDefinitionProps
      /\ (key ∈ dom override \/ key ∈ del \/ exists ns, ns ∈ namespaces /\ NamespaceCovers ns key = true)
  end
  /\ (ServerOwnedPropEditByOperator override del namespaces = "" ->
      forall k, k ∈ serverOwnedDefinitionProps ->
        modify_props p override del namespaces !! k = p !! k
        \/ clearable k = true /\ modify_props p override del namespaces !! k = None).
Proof.
  assert (forall o d, ServerOwnedPropEdit o d namespaces = "" ->
    forall k, k ∈ serverOwnedDefinitionProps -> edit_touches o d namespaces k = false) as Hpass.
  { intros o d He k Hk. destruct (edit_touches o d namespaces k) eqn:E; [|done]. exfalso. unfold ServerOwnedPropEdit in He.
    destruct (find (edit_touches o d namespaces) serverOwnedDefinitionProps) as [key|] eqn:Ef.
    - apply find_some in Ef as [Hin _]. cbn in He. subst. by repeat destruct Hin as [Hin|Hin].
    - pose proof (find_none _ _ Ef k) as Hn. rewrite Hn in E; [done|]. by apply list_elem_of_In. }
  split.
  - destruct (ServerOwnedPropEdit override del namespaces) as [|c key] eqn:E.
    + intros k Hk. apply untouched_survives. by eapply Hpass.
    + unfold ServerOwnedPropEdit in E. destruct (find _ _) as [key'|] eqn:Ef; [|done]. cbn in E. subst.
      apply find_some in Ef as [Hin Ht]. split; [by apply list_elem_of_In|]. unfold edit_touches in Ht.
      destruct (override !! String c key) eqn:Eo; [left; by eapply elem_of_dom_2|].
      apply orb_true_iff in Ht as [Ht|Ht]; [right; left; by apply bool_decide_eq_true in Ht|].
      right; right. apply existsb_exists in Ht as (ns & Hns & Hc). exists ns. by rewrite list_elem_of_In.
  - intros He k Hk. pose proof (Hpass _ _ He k Hk) as Ht. unfold edit_touches, Contains in Ht.
    rewrite map_lookup_filter in Ht. unfold modify_props. rewrite deletePropNamespaces_lookup, applyPropsModify_lookup.
    destruct (override !! k) as [v|] eqn:Eo; cbn in Ht.
    + destruct (decide (clearable k = true /\ v = "")) as [[Hc ->]|Hg]; [|by rewrite option_guard_True in Ht by done].
      right. split; [done|]. rewrite (bool_decide_eq_true_2 ("" = "")) by done. by repeat case_match.
    + apply orb_false_iff in Ht as [Hd Hn]. rewrite Hn. apply bool_decide_eq_false in Hd.
      destruct (decide (k ∈ del)) as [Hin|Hin]; [|left; by rewrite bool_decide_eq_false_2].
      right. rewrite bool_decide_eq_true_2 by done. split; [|done].
      destruct (clearable k) eqn:Ec; [done|]. exfalso. apply Hd, list_elem_of_filter. done.
Qed.

(** A namespace covers the keys strictly below it, however many slashes end it. *)
Lemma NamespaceCovers_below ns key : ns <> "" -> (forall s, ns <> s +:+ "/") -> NamespaceCovers ns (ns +:+ "/" +:+ key) = true.
Proof.
  intros Hne Hs. unfold NamespaceCovers.
  assert (trim_right "/" ns = ns) as ->.
  { clear key. induction ns as [|c ns IH]; [done|]. cbn. destruct ns as [|d ns].
    - cbn. destruct (Ascii.eqb_spec c "/"); [subst; by destruct (Hs "")|done].
    - rewrite IH; [done|done|]. intros s Es. apply (Hs (String c s)). by rewrite Es. }
  rewrite bool_decide_eq_false_2 by done. cbn [negb andb]. rewrite <- StrFacts.app_assoc. apply StrFacts.has_prefix_app.
Qed.

Definition volume_ok (v : SnapshotVolumeDef) : Prop := is_int32 (svd_VolumeNumber v) /\ is_int64 (svd_SizeKib v).
Definition shape_of (v : SnapshotVolumeDef) : SnapshotVolumeDef := mkSnapshotVolumeDef (svd_VolumeNumber v) (svd_SizeKib v) ∅.

Lemma read_pair_encode v : volume_ok v -> read_pair (encode_volume v) = Some (shape_of v).
Proof.
  intros [H1 H2]. unfold read_pair, encode_volume, is_int32, is_int64, MinInt32, MaxInt32, MinInt64, MaxInt64 in *.
  change ("=" +:+ format_int (svd_SizeKib v)) with (String "=" (format_int (svd_SizeKib v))).
  rewrite StrFacts.cut_app by by apply format_int_no. cbn [mbind option_bind].
  rewrite !parse_int_format by (cbn; lia). done.
Qed.

Lemma encode_volume_no_comma v : Str.contains_char "," (encode_volume v) = false.
Proof. unfold encode_volume. rewrite !StrFacts.contains_char_app, !format_int_no by done. done. Qed.

Lemma split_encoded vols : vols <> [] -> split_char "," (EncodeRestoreVolumes vols) = map encode_volume vols.
Proof.
  unfold EncodeRestoreVolumes. induction vols as [|v [|w vols] IH]; intros Hne; [done|apply split_char_last, encode_volume_no_comma|].
  change (Str.join "," (map encode_volume (v :: w :: vols)))
    with (encode_volume v +:+ String "," (Str.join "," (map encode_volume (w :: vols)))).
  rewrite split_char_piece by apply encode_volume_no_comma. by rewrite IH.
Qed.

(** The volumes recorded on a restored definition are the volumes the snapshot held, number by
    number and size by size, in order; the record and the marker are written together. *)
Theorem restore_volumes_read_back p snap :
  Forall volume_ok (snap_VolumeDefinitions snap) ->
  RecordedRestoreVolumes (WithRestoreMarker p snap) = Some (shape_of <$> snap_VolumeDefinitions snap)
  /\ get (WithRestoreMarker p snap) RestoreFromSnapshotProp = snap_ResourceName snap +:+ ":" +:+ snap_Name snap.
Proof.
  intros Hok. unfold WithRestoreMarker, RecordedRestoreVolumes, get. split; [|by rewrite lookup_insert_ne, lookup_insert_eq].
  rewrite lookup_insert_eq. cbn [mbind option_bind]. set (vols := snap_VolumeDefinitions snap) in *. clearbody vols.
  destruct vols as [|v vols]; [done|]. rewrite bool_decide_eq_false_2.
  - rewrite split_encoded by done. apply mapM_Some. rewrite Forall2_fmap_l, Forall2_fmap_r. apply Forall_Forall2_diag.
    eapply list.Forall_impl; [exact Hok|]. apply read_pair_encode.
  - unfold EncodeRestoreVolumes. cbn. unfold encode_volume. destruct (format_int_solid (svd_VolumeNumber v)) as [_ Hn].
    destruct (format_int (svd_VolumeNumber v)) as [|c s]; [done|]. by destruct (map _ vols).
Qed.

Lemma restore_volumes_read_back_witness :
  let snap := mkSnapshot "s1" "pvc" [] ∅ None [] [mkSnapshotVolumeDef 0 4096 ∅; mkSnapshotVolumeDef 1 1048576 ∅] [] ∅ ∅ "" "" 0 in
  get (WithRestoreMarker ∅ snap) RestoreVolumesProp = "0=4096,1=1048576"
  /\ RecordedRestoreVolumes (WithRestoreMarker ∅ snap) = Some [mkSnapshotVolumeDef 0 4096 ∅; mkSnapshotVolumeDef 1 1048576 ∅].
Proof.
  split; [vm_compute; reflexivity|].
  apply (restore_volumes_read_back ∅ (mkSnapshot "s1" "pvc" [] ∅ None [] [mkSnapshotVolumeDef 0 4096 ∅; mkSnapshotVolumeDef 1 1048576 ∅] [] ∅ ∅ "" "" 0)).
  repeat constructor; done.
Defined.

(** ** The age of a mark *)

Lemma mark_carries p step now : get (MarkRollback p step now) RollbackAbandonedProp = step.
Proof.
  unfold MarkRollback, get. case_bool_decide; [rewrite lookup_insert_ne by done|rewrite lookup_delete_ne by done]; by rewrite lookup_insert_eq.
Qed.

Lemma mark_since p now : get (MarkRollback p RollbackInProgress now) RollbackSinceProp = format_rfc3339 now.
Proof. unfold MarkRollback, get. cbv zeta. rewrite bool_decide_eq_true_2 by done. by rewrite lookup_insert_eq. Qed.

(** An in-progress mark is taken over once it is older than the limit and not before, to the
    second the mark is written with; a mark that names a step is never taken over. *)
Lemma rollbackMarkStale_age p step written now :
  four_digit_year written ->
  rollbackMarkStale (MarkRollback p step written) now
  = bool_decide (step = RollbackInProgress) && bool_decide (StaleRollbackAfter < now - written `div` second * second).
Proof.
  intros Hw. unfold rollbackMarkStale. rewrite mark_carries. case_bool_decide as Hs; [subst step|done]. cbn [negb andb].
  by rewrite mark_since, parse_format_rfc3339.
Qed.
