(* ===== verification/Prog.v ===== *)
(** * Programs over a set of calls

    Code that talks to something outside of it (an API server, a kernel, a clock) is modelled as a
    tree: a call, and a continuation for every answer. What the calls mean, and who else acts between
    two of them, is left to the file that runs the programs. *)

From S2P Require Import Prelude.

Section Prog.
Context {call : Type} (answer : call -> Type).

Inductive prog (A : Type) : Type :=
| Ret (a : A)
| Do (c : call) (k : answer c -> prog A).

Fixpoint prog_bind {A B} (f : A -> prog B) (m : prog A) : prog B :=
  match m with
  | Ret _ a => f a
  | Do _ c k => Do B c (fun a => prog_bind f (k a))
  end.

End Prog.

Arguments Ret {call answer A} a.
Arguments Do {call answer A} c k.
Arguments prog_bind {call answer A B} f m.

#[global] Instance prog_ret {call} (answer : call -> Type) : MRet (prog answer) := fun A a => Ret a.
#[global] Instance prog_mbind {call} (answer : call -> Type) : MBind (prog answer) := fun A B => prog_bind.

(** Programs that may fail: the first error ends them. *)
Section Failing.
Context {call : Type} {answer : call -> Type} {E : Type}.

Definition done_with {A} (a : A) : prog answer (result E A) := Ret (Ok a).
Definition failed_with {A} (e : E) : prog answer (result E A) := Ret (Err e).
Definition kbind {A B} (m : prog answer (result E A)) (k : A -> prog answer (result E B)) : prog answer (result E B) :=
  r ← m; match r with Ok a => k a | Err e => failed_with e end.

End Failing.
Notation "x ←! m ; k" := (kbind m (fun x => k)) (at level 20, m at level 100, k at level 200, right associativity).

(** The calls a program may make. *)
Fixpoint only {call} {answer : call -> Type} {A} (P : call -> Prop) (p : prog answer A) : Prop :=
  match p with
  | Ret _ => True
  | Do c k => P c /\ forall a, only P (k a)
  end.

Lemma only_bind {call} {answer : call -> Type} {A B} (P : call -> Prop) (m : prog answer A) (f : A -> prog answer B) :
  only P m -> (forall a, only P (f a)) -> only P (m ≫= f).
Proof. intros Hm Hf. change (m ≫= f) with (prog_bind f m). induction m as [a|c k IH]; cbn in *; [done|]. naive_solver. Qed.

(** What a program may return, whatever it is answered. *)
Fixpoint may_return {call} {answer : call -> Type} {A} (Q : A -> Prop) (p : prog answer A) : Prop :=
  match p with
  | Ret a => Q a
  | Do c k => forall a, may_return Q (k a)
  end.

Lemma may_return_bind {call} {answer : call -> Type} {A B} (Q : B -> Prop) (m : prog answer A) (f : A -> prog answer B) :
  may_return (fun a => may_return Q (f a)) m -> may_return Q (m ≫= f).
Proof. change (m ≫= f) with (prog_bind f m). induction m as [a|c k IH]; cbn; [done|]. intros H a. by apply IH. Qed.

Lemma may_return_mono {call} {answer : call -> Type} {A} (Q Q' : A -> Prop) (m : prog answer A) :
  (forall a, Q a -> Q' a) -> may_return Q m -> may_return Q' m.
Proof. intros HQ. induction m as [a|c k IH]; cbn; [apply HQ|]. intros H a. by apply IH. Qed.

(** The calls a program may make when some of the answers are known, and what it then returns. *)
Section Along.
Context {call : Type} {answer : call -> Type} (known : forall c : call, answer c -> Prop).

Fixpoint along {A} (P : call -> Prop) (p : prog answer A) (Q : A -> Prop) : Prop :=
  match p with
  | Ret a => Q a
  | Do c k => P c /\ forall a, known c a -> along P (k a) Q
  end.

Lemma along_bind {A B} P (m : prog answer A) (f : A -> prog answer B) R Q :
  along P m R -> (forall a, R a -> along P (f a) Q) -> along P (m ≫= f) Q.
Proof. change (m ≫= f) with (prog_bind f m). intros Hm Hf. induction m as [a|c k IH]; cbn in *; [by apply Hf|]. naive_solver. Qed.

Lemma along_kbind {E A B} P (m : prog answer (result E A)) (f : A -> prog answer (result E B)) R Q :
  along P m R -> (forall a, R (Ok a) -> along P (f a) Q) -> (forall e, R (Err e) -> Q (Err e)) -> along P (kbind m f) Q.
Proof. intros Hm Hf He. eapply along_bind; [exact Hm|]. intros [a|e] Hr; [by apply Hf|by apply He]. Qed.

Lemma along_mono {A} (P P' : call -> Prop) (m : prog answer A) (Q Q' : A -> Prop) :
  (forall c, P c -> P' c) -> (forall a, Q a -> Q' a) -> along P m Q -> along P' m Q'.
Proof. intros HP HQ. induction m as [a|c k IH]; cbn; [apply HQ|]. naive_solver. Qed.

Lemma along_only {A} P (m : prog answer A) : only P m -> along P m (fun _ => True).
Proof. induction m as [a|c k IH]; cbn; [done|]. naive_solver. Qed.

End Along.

(** A program may make a call. *)
Fixpoint may_make {call} {answer : call -> Type} {A} (c : call) (p : prog answer A) : Prop :=
  match p with
  | Ret _ => False
  | Do c' k => c' = c \/ exists a, may_make c (k a)
  end.
Lemma only_may_make {call} {answer : call -> Type} {A} (p : prog answer A) : only (fun c => may_make c p) p.
Proof.
  assert (forall P : call -> Prop, (forall c, may_make c p -> P c) -> only P p) as H; [|by apply H].
  induction p as [a|c k IH]; cbn; [done|]. intros P HP. split; [by auto|]. intros a. apply IH. eauto.
Qed.

(** The calls a program makes when every call is always answered the same. *)
Fixpoint calls_of {call} {answer : call -> Type} {A} (w : forall c, answer c) (p : prog answer A) : list call :=
  match p with
  | Ret _ => []
  | Do c k => c :: calls_of w (k (w c))
  end.

Lemma calls_of_bind {call} {answer : call -> Type} {A B} (w : forall c, answer c) (m : prog answer A) (f : A -> prog answer B) :
  exists a, calls_of w (m ≫= f) = calls_of w m ++ calls_of w (f a).
Proof.
  change (m ≫= f) with (prog_bind f m). induction m as [a|c k IH]; cbn; [by exists a|].
  destruct (IH (w c)) as [a ->]. by exists a.
Qed.

(** * Programs and the history of their calls

    What may be called depends on what was answered before: a program is judged with the list of calls
    it has made so far and their answers. *)

From S2P Require Import Prelude.

Lemma only_impl {call} {answer : call -> Type} {A} (P P' : call -> Prop) (m : prog answer A) : (forall c, P c -> P' c) -> only P m -> only P' m.
Proof. intros HP. induction m as [a|c k IH]; cbn; [done|]. intros [Hc Hk]. auto. Qed.
Lemma only_then {call} {answer : call -> Type} {E A B} P (m : prog answer (result E A)) (f : A -> prog answer (result E B)) :
  only P m -> (forall a, only P (f a)) -> only P (kbind m f).
Proof. intros Hm Hf. apply only_bind; [done|]. by intros [a|e]. Qed.

Section History.
Context {call : Type} {answer : call -> Type}.

Record fact := Fact { f_call : call; f_answer : answer f_call }.
Definition told (h : list fact) (c : call) (a : answer c) : Prop := Fact c a ∈ h.

(** Every call is made in a history that allows it, and what is returned fits the history. *)
Fixpoint traced {A} (P : list fact -> call -> Prop) (h : list fact) (p : prog answer A) (Q : list fact -> A -> Prop) : Prop :=
  match p with
  | Ret a => Q h a
  | Do c k => P h c /\ forall a, traced P (h ++ [Fact c a]) (k a) Q
  end.

Lemma told_later h h' c (a : answer c) : told h c a -> told (h ++ h') c a.
Proof. unfold told. set_solver. Qed.
Lemma told_last h c (a : answer c) : told (h ++ [Fact c a]) c a.
Proof. unfold told. set_solver. Qed.

Lemma traced_bind {A B} P (m : prog answer A) (f : A -> prog answer B) R Q h :
  traced P h m R -> (forall h' a, R h' a -> traced P h' (f a) Q) -> traced P h (m ≫= f) Q.
Proof.
  change (m ≫= f) with (prog_bind f m). intros Hm Hf. revert h Hm. induction m as [a|c k IH]; intros h Hm; cbn in *; [by apply Hf|].
  destruct Hm as [HP Hk]. split; [done|]. intros a. by apply IH.
Qed.
Lemma traced_kbind {E A B} P (m : prog answer (result E A)) (f : A -> prog answer (result E B)) R Q h :
  traced P h m R -> (forall h' a, R h' (Ok a) -> traced P h' (f a) Q) -> (forall h' e, R h' (Err e) -> Q h' (Err e)) -> traced P h (kbind m f) Q.
Proof. intros Hm Hf He. eapply traced_bind; [exact Hm|]. intros h' [a|e] Hr; [by apply Hf|by apply He]. Qed.
Lemma traced_mono {A} P (m : prog answer A) (Q Q' : list fact -> A -> Prop) h :
  (forall h' a, Q h' a -> Q' h' a) -> traced P h m Q -> traced P h m Q'.
Proof. intros HQ. revert h. induction m as [a|c k IH]; cbn; [by eauto|]. intros h [HP Hk]. split; [done|]. intros a. by apply IH. Qed.
(** Calls that are always allowed. *)
Lemma traced_free {A} (P : list fact -> call -> Prop) (R : call -> Prop) (m : prog answer A) h :
  (forall h c, R c -> P h c) -> only R m -> traced P h m (fun h' _ => h `prefix_of` h').
Proof.
  intros HR. revert h. induction m as [a|c k IH]; intros h Hm; cbn in *; [done|]. destruct Hm as [Hc Hk]. split; [by apply HR|]. intros a.
  eapply traced_mono; [|by apply IH]. intros h' b Hp. etrans; [|exact Hp]. by apply prefix_app_r.
Qed.
Lemma traced_call (P : list fact -> call -> Prop) c h : P h c -> traced P h (Do c (fun a => Ret a)) (fun h' a => h `prefix_of` h' /\ told h' c a).
Proof. intros Hc. split; [done|]. intros a. cbn. split; [by apply prefix_app_r|apply told_last]. Qed.
Lemma told_prefix h h' c (a : answer c) : h `prefix_of` h' -> told h c a -> told h' c a.
Proof. intros [x ->]. apply told_later. Qed.

(** A whole run: the calls it made with their answers, and what it returned. *)
Fixpoint whole_run {A} (p : prog answer A) (h : list fact) (a : A) : Prop :=
  match p with
  | Ret x => h = [] /\ a = x
  | Do c k => exists b h', h = Fact c b :: h' /\ whole_run (k b) h' a
  end.
Lemma whole_run_bind {A B} (m : prog answer A) (f : A -> prog answer B) h b : whole_run (m ≫= f) h b ->
  exists h1 h2 a, h = h1 ++ h2 /\ whole_run m h1 a /\ whole_run (f a) h2 b.
Proof.
  change (m ≫= f) with (prog_bind f m). revert h. induction m as [a|c k IH]; intros h; cbn; [intros H; by exists [], h, a|].
  intros (x & h' & -> & H). destruct (IH x h' H) as (h1 & h2 & a & -> & H1 & H2). exists (Fact c x :: h1), h2, a. split_and!; [done|by exists x, h1|done].
Qed.
Lemma whole_run_only {A} (P : call -> Prop) (m : prog answer A) h a : only P m -> whole_run m h a -> Forall (fun f => P (f_call f)) h.
Proof.
  revert h. induction m as [x|c k IH]; intros h; cbn; [by intros _ [-> _]|]. intros [Hc Hk] (b & h' & -> & H). constructor; [done|]. by eapply IH.
Qed.
Lemma whole_run_along {A} (known : forall c, answer c -> Prop) (P : call -> Prop) (m : prog answer A) (Q : A -> Prop) h a :
  along known P m Q -> Forall (fun f => known (f_call f) (f_answer f)) h -> whole_run m h a -> Forall (fun f => P (f_call f)) h /\ Q a.
Proof.
  revert h. induction m as [x|c k IH]; intros h; cbn; [by intros HQ _ [-> ->]|]. intros [Hc Hk] Hh (b & h' & -> & H). inversion Hh as [|? ? Hb Hh']; subst.
  destruct (IH b h' (Hk b Hb) Hh' H) as [H1 H2]. split; [by constructor|done].
Qed.

End History.
Arguments fact {call} answer.

(** * Programs that may be interrupted

    The runs of a program over the calls of a node, where the process may die between any two calls
    and others change what the program does not own, and the rules to prove what holds at every
    point of such a run and at its end. *)

From S2P Require Import Prelude.

Section Attempts.
Context {call : Type} {answer : call -> Type} {host : Type}.
Context (step : host -> forall c : call, answer c -> host -> Prop) (others : host -> host -> Prop).

(** A run of a program: it returns, or it is interrupted. *)
Inductive attempt {A} : prog answer A -> host -> option A -> host -> Prop :=
| attempt_done a h : attempt (Ret a) h (Some a) h
| attempt_crash p h : attempt p h None h
| attempt_call c k h a h1 r h2 : step h c a h1 -> attempt (k a) h1 r h2 -> attempt (Do c k) h r h2
| attempt_others p h h1 r h2 : others h h1 -> attempt p h1 r h2 -> attempt p h r h2.

(** Attempts one after the other, whatever becomes of each. *)
Inductive attempts {A} (p : prog answer A) : host -> host -> Prop :=
| attempts_none h : attempts p h h
| attempts_more h r h1 h2 : attempt p h r h1 -> attempts p h1 h2 -> attempts p h h2.

(** ** Rules

    [I] is a fact about the host that everybody keeps, [focus] the part that only the program
    changes and [J] what must hold of it at every point. *)

Context (I : host -> Prop) {focused : Type} (focus : host -> focused) (J : focused -> Prop).
Context (others_keep : forall h h', I h -> others h h' -> I h' /\ focus h' = focus h).

Fixpoint triple {A} (P : focused -> Prop) (p : prog answer A) (Q : A -> focused -> Prop) : Prop :=
  match p with
  | Ret a => forall s, P s -> Q a s
  | Do c k =>
      exists P' : answer c -> focused -> Prop,
        (forall h a h', I h -> P (focus h) -> step h c a h' -> I h' /\ P' a (focus h')) /\
        (forall a s, P' a s -> J s) /\
        forall a, triple (P' a) (k a) Q
  end.

Lemma triple_sound {A} (p : prog answer A) h r h' : attempt p h r h' ->
  forall P Q, triple P p Q -> (forall s, P s -> J s) -> I h -> P (focus h) ->
  I h' /\ J (focus h') /\ forall a, r = Some a -> Q a (focus h').
Proof using others_keep.
  induction 1 as [a h|p h|c k h a h1 r h2 Hstep _ IH|p h h1 r h2 Ho _ IH]; intros P Q Ht HJ HI HP.
  - split_and!; [done|by apply HJ|]. intros ? [= <-]. by apply Ht.
  - split_and!; [done|by apply HJ|done].
  - destruct Ht as (P' & Hc & HJ' & Hk). destruct (Hc _ _ _ HI HP Hstep) as [HI' HP']. eapply IH; [apply Hk|apply HJ'|done|done].
  - destruct (others_keep _ _ HI Ho) as [HI' Hf]. eapply IH; [done..|by rewrite Hf].
Qed.

Lemma triple_pre {A} (P P' : focused -> Prop) (p : prog answer A) Q : (forall s, P s -> P' s) -> triple P' p Q -> triple P p Q.
Proof.
  intros HP. destruct p as [a|c k]; cbn; [by eauto|]. intros (P'' & Hc & HJ & Hk). exists P''. split_and!; [|done..].
  intros h a h' HI Hf. apply Hc; [done|by apply HP].
Qed.

Lemma triple_post {A} (p : prog answer A) : forall P Q Q', (forall a s, Q a s -> Q' a s) -> triple P p Q -> triple P p Q'.
Proof.
  induction p as [a|c k IH]; cbn; intros P Q Q' HQ; [by eauto|]. intros (P'' & Hc & HJ & Hk). exists P''. eauto.
Qed.

Lemma run_bind {A B} (m : prog answer A) (f : A -> prog answer B) R Q : forall P,
  triple P m R -> (forall a, triple (R a) (f a) Q) -> triple P (m ≫= f) Q.
Proof.
  change (m ≫= f) with (prog_bind f m). induction m as [a|c k IH]; cbn; intros P Hm Hf.
  - eapply triple_pre; [exact Hm|apply Hf].
  - destruct Hm as (P'' & Hc & HJ & Hk). exists P''. eauto.
Qed.

(** A property of the focus and a program that keeps it through every attempt. *)
Lemma attempts_keep {A} (p : prog answer A) Q h h' : triple J p Q -> attempts p h h' -> I h -> J (focus h) -> I h' /\ J (focus h').
Proof using others_keep.
  intros Ht. induction 1 as [|h r h1 h2 Ha _ IH]; intros HI HJ; [done|].
  destruct (triple_sound _ _ _ _ Ha _ _ Ht ltac:(auto) HI HJ) as (HI' & HJ' & _). by apply IH.
Qed.

End Attempts.

(** Programs that may fail. *)
Lemma run_kbind {call} {answer : call -> Type} {host} (step : host -> forall c, answer c -> host -> Prop)
    {focused} I (focus : host -> focused) J {E A B} P (m : prog answer (result E A)) (k : A -> prog answer (result E B)) R Q :
  triple step I focus J P m R ->
  (forall a, triple step I focus J (R (Ok a)) (k a) Q) ->
  (forall e s, R (Err e) s -> Q (Err e) s) ->
  triple step I focus J P (kbind m k) Q.
Proof. intros Hm Hk He. eapply run_bind; [exact Hm|]. intros [a|e]; [apply Hk|]. intros s. apply He. Qed.
