(* ===== verification/Calls.v ===== *)
(** * Programs over the store, and the store they run against

    The restore bookkeeping of [pkg/store] is a client of the store that races other clients:
    REST servers, command lines and controllers on other machines. A piece of it is modelled as a
    program, a tree of store calls with a continuation for every answer, so that other clients
    can act between any two of its calls. [serves] says what a call may answer and do: it is
    written for the Kubernetes store ([pkg/store/k8s]), where a cached read may be arbitrarily old
    and a patch is decided on a cached view but lands only on the current object, and any call
    may fail, before or after it has taken effect. *)

From S2P Require Import Prelude Prog Api.

(** ** Errors

    An error is the sentinels it wraps, as [errors.Is] sees it; the text is left out. *)

Inductive cause :=
| ErrNotFound
| ErrAlreadyExists
| ErrOther
| ErrRestoreSourceInUse
| ErrRestoreSourceDeleting
| ErrRestoreSourceReaping
| ErrRestoreSourceWithdrawn
| ErrCloneSnapshotInUse
| errAnotherReap
| errMarkNotMine
| errDeletingMarkNotMine
| ErrReplicasWithoutDefinition
| ErrRestoreTargetTaken
| ErrRestoreTargetLayers
| ErrRestoreTargetTearingDown
| ErrLayerStackUndecided
| ErrRestoreTargetGroupGone
| ErrRestoreRollbackAbandoned
| ErrRestoreTargetForeign
| ErrAdoptedLeftoverRollingBack
| ErrRollbackYielded
| ErrRollbackAnswered
| ErrRestoreUnfinished
| ErrRollbackGone
| errRollbackMarkNotOurs
| ErrMarkReadBehind
| ErrRollbackMarkStuck.

#[global] Instance cause_eq_dec : EqDecision cause.
Proof. solve_decision. Defined.

Definition error : Type := list cause.
Definition Is (e : error) (c : cause) : bool := bool_decide (c ∈ e).

(** ** Calls and programs *)

Inductive call : Type :=
| GetRD (name : string)
| GetRDUncached (name : string)
| ListRDsUncached
(** [PatchResourceDefinitionSpec]; the extra [bool] is what the closure left in the variable it
    captures, when the patch went through. *)
| PatchRD (name : string) (mutate : ResourceDefinition -> result error (ResourceDefinition * bool))
| GetRG (name : string)
| ListSnapshotsUncached (rdName : string)
| PatchSnapshotProps (rdName snapName : string) (mutate : gmap string string -> result error (gmap string string))
| DeleteSnapshotCall (rdName snapName : string)
| ListVolumesLive (rdName : string)
| ListReplicasLive (rdName : string)
| Now
| RandomText.

Definition answer (c : call) : Type :=
  match c with
  | GetRD _ | GetRDUncached _ => result error ResourceDefinition
  | ListRDsUncached => result error (list ResourceDefinition)
  | PatchRD _ _ => result error bool
  | GetRG _ => result error ResourceGroup
  | ListSnapshotsUncached _ => result error (list Snapshot)
  | PatchSnapshotProps _ _ _ | DeleteSnapshotCall _ _ => result error unit
  | ListVolumesLive _ => result error (list VolumeDefinition)
  | ListReplicasLive _ => result error (list Resource)
  | Now => Z
  | RandomText => string
  end.

Notation prog := (Prog.prog answer).

Definition ask (c : call) : prog (answer c) := Do c Ret.

(** Fallible programs: [x ←? m; k] goes on with the value and returns the error. *)
Notation fallible A := (prog (result error A)).
Definition ok {A} (a : A) : fallible A := Ret (Ok a).
Definition fail {A} (e : error) : fallible A := Ret (Err e).
Definition fallible_bind {A B} (m : fallible A) (k : A -> fallible B) : fallible B :=
  r ← m; match r with Ok a => k a | Err e => fail e end.
Notation "x ←? m ; k" := (fallible_bind m (fun x => k)) (at level 20, m at level 100, k at level 200, right associativity).

(** [if errors.Is(err, ErrNotFound) { return d }], the error otherwise. *)
Definition or_gone {A B} (m : fallible A) (d : B) (k : A -> fallible B) : fallible B :=
  r ← m;
  match r with
  | Ok a => k a
  | Err e => if Is e ErrNotFound then ok d else fail e
  end.

(** ** The cluster

    Objects are kept under their folded names, which is what the Kubernetes store does with names
    that are valid object names once lowered ([CrdName.Name]). *)

Definition fold (name : string) : string := Str.to_lower name.

Record cluster := mkCluster {
  c_rds : gmap string ResourceDefinition;
  c_snaps : gmap (string * string) Snapshot;
  c_volumes : gmap string (list VolumeDefinition);
  c_replicas : gmap string (list Resource);
  c_now : Z;
}.

Definition set_rds (s : cluster) (rds : gmap string ResourceDefinition) : cluster :=
  mkCluster rds (c_snaps s) (c_volumes s) (c_replicas s) (c_now s).
Definition set_snaps (s : cluster) (snaps : gmap (string * string) Snapshot) : cluster :=
  mkCluster (c_rds s) snaps (c_volumes s) (c_replicas s) (c_now s).

Definition with_snap_props (sn : Snapshot) (p : gmap string string) : Snapshot :=
  mkSnapshot (snap_Name sn) (snap_ResourceName sn) (snap_Nodes sn) p (snap_Annotations sn) (snap_Flags sn)
    (snap_VolumeDefinitions sn) (snap_Snapshots sn) (snap_SnapshotDefinitionProps sn)
    (snap_ResourceDefinitionProps sn) (snap_UUID sn) (snap_GroupID sn) (snap_GroupSize sn).
Definition with_snap_flags (sn : Snapshot) (flags : list string) : Snapshot :=
  mkSnapshot (snap_Name sn) (snap_ResourceName sn) (snap_Nodes sn) (snap_Props sn) (snap_Annotations sn) flags
    (snap_VolumeDefinitions sn) (snap_Snapshots sn) (snap_SnapshotDefinitionProps sn)
    (snap_ResourceDefinitionProps sn) (snap_UUID sn) (snap_GroupID sn) (snap_GroupSize sn).

Definition SnapshotFlagDelete : string := "DELETE".

(** A deleted snapshot goes at once or stays, flagged, while a finalizer holds it. *)
Definition removed (s s' : cluster) (key : string * string) (sn : Snapshot) : Prop :=
  s' = set_snaps s (delete key (c_snaps s))
  \/ s' = set_snaps s (<[key := with_snap_flags sn (SnapshotFlagDelete :: snap_Flags sn)]> (c_snaps s)).

(** A call that did not go through. The clock and the source of randomness do not fail. *)
Definition unavailable (c : call) : answer c -> Prop :=
  match c with
  | Now | RandomText => fun _ => False
  | GetRD _ | GetRDUncached _ | ListRDsUncached | PatchRD _ _ | GetRG _ | ListSnapshotsUncached _
  | PatchSnapshotProps _ _ _ | DeleteSnapshotCall _ _ | ListVolumesLive _ | ListReplicasLive _ =>
      fun a => a = Err [ErrOther]
  end.

Section serves.
(** How far the clock of a machine may be off. *)
Context (skew : Z).

Inductive serves (s : cluster) : forall c : call, answer c -> cluster -> Prop :=
| serve_unavailable c a : unavailable c a -> serves s c a s
(** A cached read: any answer. *)
| serve_cached_rd n a : serves s (GetRD n) a s
| serve_cached_rg n a : serves s (GetRG n) a s
| serve_rd n rd : c_rds s !! fold n = Some rd -> serves s (GetRDUncached n) (Ok rd) s
| serve_no_rd n : c_rds s !! fold n = None -> serves s (GetRDUncached n) (Err [ErrNotFound]) s
| serve_rds l : l ≡ₚ (map_to_list (c_rds s)).*2 -> serves s ListRDsUncached (Ok l) s
(** A patch of a definition that lands, on the object as it is. *)
| serve_patch_rd n f rd rd' b :
    c_rds s !! fold n = Some rd -> f rd = Ok (rd', b) ->
    serves s (PatchRD n f) (Ok b) (set_rds s (<[fold n := rd']> (c_rds s)))
(** One that lands and answers an error. *)
| serve_patch_rd_lost n f rd rd' b :
    c_rds s !! fold n = Some rd -> f rd = Ok (rd', b) ->
    serves s (PatchRD n f) (Err [ErrOther]) (set_rds s (<[fold n := rd']> (c_rds s)))
(** One the closure refuses, on a view that may be old. *)
| serve_patch_rd_refused n f view e : f view = Err e -> serves s (PatchRD n f) (Err e) s
| serve_patch_no_rd n f : c_rds s !! fold n = None -> serves s (PatchRD n f) (Err [ErrNotFound]) s
(** The snapshots of a definition, by the name they are stored with. *)
| serve_snaps rd l :
    (forall sn, sn ∈ l <-> snap_ResourceName sn = rd /\ exists k, c_snaps s !! k = Some sn) ->
    serves s (ListSnapshotsUncached rd) (Ok l) s
| serve_patch_snap rd n f sn p :
    c_snaps s !! (fold rd, fold n) = Some sn -> f (snap_Props sn) = Ok p ->
    serves s (PatchSnapshotProps rd n f) (Ok tt) (set_snaps s (<[(fold rd, fold n) := with_snap_props sn p]> (c_snaps s)))
| serve_patch_snap_lost rd n f sn p :
    c_snaps s !! (fold rd, fold n) = Some sn -> f (snap_Props sn) = Ok p ->
    serves s (PatchSnapshotProps rd n f) (Err [ErrOther]) (set_snaps s (<[(fold rd, fold n) := with_snap_props sn p]> (c_snaps s)))
| serve_patch_snap_refused rd n f view e :
    f view = Err e -> serves s (PatchSnapshotProps rd n f) (Err e) s
| serve_patch_no_snap rd n f :
    c_snaps s !! (fold rd, fold n) = None -> serves s (PatchSnapshotProps rd n f) (Err [ErrNotFound]) s
| serve_delete_snap rd n sn s' :
    c_snaps s !! (fold rd, fold n) = Some sn -> removed s s' (fold rd, fold n) sn ->
    serves s (DeleteSnapshotCall rd n) (Ok tt) s'
| serve_delete_snap_lost rd n sn s' :
    c_snaps s !! (fold rd, fold n) = Some sn -> removed s s' (fold rd, fold n) sn ->
    serves s (DeleteSnapshotCall rd n) (Err [ErrOther]) s'
| serve_delete_no_snap rd n :
    c_snaps s !! (fold rd, fold n) = None -> serves s (DeleteSnapshotCall rd n) (Err [ErrNotFound]) s
| serve_volumes rd : serves s (ListVolumesLive rd) (Ok (default [] (c_volumes s !! fold rd))) s
| serve_no_volumes rd : c_rds s !! fold rd = None -> serves s (ListVolumesLive rd) (Err [ErrNotFound]) s
| serve_replicas rd : serves s (ListReplicasLive rd) (Ok (default [] (c_replicas s !! fold rd))) s
| serve_now t : c_now s - skew <= t <= c_now s + skew -> serves s Now t s
| serve_random t : serves s RandomText t s.

End serves.

(** ** The store at its best

    An executable server: every call answers from the current state and succeeds when it can. *)

Definition delete_best (s : cluster) (key : string * string) : result error unit * cluster :=
  match c_snaps s !! key with
  | Some sn => (Ok tt, set_snaps s (delete key (c_snaps s)))
  | None => (Err [ErrNotFound], s)
  end.

Definition patch_snap_best (s : cluster) (key : string * string) (f : gmap string string -> result error (gmap string string)) :
    result error unit * cluster :=
  match c_snaps s !! key with
  | Some sn => match f (snap_Props sn) with
               | Ok p => (Ok tt, set_snaps s (<[key := with_snap_props sn p]> (c_snaps s)))
               | Err e => (Err e, s)
               end
  | None => (Err [ErrNotFound], s)
  end.

Definition patch_rd_best (s : cluster) (key : string) (f : ResourceDefinition -> result error (ResourceDefinition * bool)) :
    result error bool * cluster :=
  match c_rds s !! key with
  | Some rd => match f rd with
               | Ok (rd', b) => (Ok b, set_rds s (<[key := rd']> (c_rds s)))
               | Err e => (Err e, s)
               end
  | None => (Err [ErrNotFound], s)
  end.

Definition get_best {V} (m : gmap string V) (key : string) : result error V :=
  match m !! key with Some v => Ok v | None => Err [ErrNotFound] end.

Definition serve_best (token : string) (s : cluster) (c : call) : answer c * cluster :=
  match c as c return answer c * cluster with
  | GetRD n => (get_best (c_rds s) (fold n), s)
  | GetRDUncached n => (get_best (c_rds s) (fold n), s)
  | ListRDsUncached => (Ok (map_to_list (c_rds s)).*2, s)
  | PatchRD n f => patch_rd_best s (fold n) f
  | GetRG n => (Err [ErrNotFound], s)
  | ListSnapshotsUncached rd => (Ok (filter (fun sn => snap_ResourceName sn = rd) (map_to_list (c_snaps s)).*2), s)
  | PatchSnapshotProps rd n f => patch_snap_best s (fold rd, fold n) f
  | DeleteSnapshotCall rd n => delete_best s (fold rd, fold n)
  | ListVolumesLive rd => (Ok (default [] (c_volumes s !! fold rd)), s)
  | ListReplicasLive rd => (Ok (default [] (c_replicas s !! fold rd)), s)
  | Now => (c_now s, s)
  | RandomText => (token, s)
  end.

Lemma serve_best_serves skew token s c : 0 <= skew -> serves skew s c (serve_best token s c).1 (serve_best token s c).2.
Proof.
  intros Hs. destruct c as [n|n| |n f|n|rd|rd n f|rd n|rd|rd| |]; cbn [serve_best fst snd]; try (constructor; fail).
  - unfold get_best. destruct (c_rds s !! fold n) eqn:E; cbn; [by apply serve_rd|by apply serve_no_rd].
  - by apply serve_rds.
  - unfold patch_rd_best. destruct (c_rds s !! fold n) as [rd|] eqn:E; cbn; [|by apply serve_patch_no_rd].
    destruct (f rd) as [[rd' b]|e] eqn:Ef; cbn; [by eapply serve_patch_rd|by eapply serve_patch_rd_refused].
  - apply serve_snaps. intros sn. rewrite list_elem_of_filter, list_elem_of_fmap. split.
    + intros [Hn ([k x] & -> & Hx%elem_of_map_to_list)]. eauto.
    + intros [Hn [k Hk]]. split; [done|]. exists (k, sn). by rewrite elem_of_map_to_list.
  - unfold patch_snap_best. destruct (c_snaps s !! (fold rd, fold n)) as [sn|] eqn:E; cbn; [|by apply serve_patch_no_snap].
    destruct (f (snap_Props sn)) as [p|e] eqn:Ef; cbn; [by eapply serve_patch_snap|by eapply serve_patch_snap_refused].
  - unfold delete_best. destruct (c_snaps s !! (fold rd, fold n)) as [sn|] eqn:E; cbn; [|by apply serve_delete_no_snap].
    eapply serve_delete_snap; [done|by left].
  - apply serve_now. lia.
Qed.

(** Running a program alone against it. *)
Fixpoint run_best {A} (token : string) (p : prog A) (s : cluster) : A * cluster :=
  match p with
  | Ret a => (a, s)
  | Do c k => let '(a, s') := serve_best token s c in run_best token (k a) s'
  end.

(** ** What an answer tells of the state *)

Definition told (s : cluster) (s' : cluster) (c : call) : answer c -> Prop :=
  match c with
  | GetRD _ | GetRG _ => fun _ => s' = s
  | GetRDUncached n => fun a => s' = s /\ match a with
      | Ok rd => c_rds s !! fold n = Some rd
      | Err e => (Is e ErrNotFound = true -> c_rds s !! fold n = None)
      end
  | ListRDsUncached => fun a => s' = s /\ match a with Ok l => l ≡ₚ (map_to_list (c_rds s)).*2 | Err _ => True end
  | PatchRD n f => fun a => match a with
      | Ok b => exists rd rd', c_rds s !! fold n = Some rd /\ f rd = Ok (rd', b) /\ s' = set_rds s (<[fold n := rd']> (c_rds s))
      | Err e => (s' = s /\ (e = [ErrOther] \/ (exists view, f view = Err e) \/ e = [ErrNotFound] /\ c_rds s !! fold n = None))
          \/ e = [ErrOther] /\ exists rd rd' b, c_rds s !! fold n = Some rd /\ f rd = Ok (rd', b)
               /\ s' = set_rds s (<[fold n := rd']> (c_rds s))
      end
  | ListSnapshotsUncached rd => fun a => s' = s /\ match a with
      | Ok l => forall sn, sn ∈ l <-> snap_ResourceName sn = rd /\ exists k, c_snaps s !! k = Some sn
      | Err _ => True
      end
  | PatchSnapshotProps rd n f => fun a => match a with
      | Ok _ => exists sn p, c_snaps s !! (fold rd, fold n) = Some sn /\ f (snap_Props sn) = Ok p
          /\ s' = set_snaps s (<[(fold rd, fold n) := with_snap_props sn p]> (c_snaps s))
      | Err e => s' = s
          \/ e = [ErrOther] /\ exists sn p, c_snaps s !! (fold rd, fold n) = Some sn /\ f (snap_Props sn) = Ok p
               /\ s' = set_snaps s (<[(fold rd, fold n) := with_snap_props sn p]> (c_snaps s))
      end
  | DeleteSnapshotCall rd n => fun a =>
      s' = s /\ (a = Err [ErrOther] \/ a = Err [ErrNotFound])
      \/ exists sn, c_snaps s !! (fold rd, fold n) = Some sn /\ removed s s' (fold rd, fold n) sn
  | ListVolumesLive rd => fun _ => s' = s
  | ListReplicasLive rd => fun a => s' = s /\ match a with Ok _ => True | Err e => e = [ErrOther] end
  | Now => fun _ => s' = s
  | RandomText => fun _ => s' = s
  end.

Lemma serves_told skew s c a s' : serves skew s c a s' -> told s s' c a.
Proof.
  destruct 1 as [c a Hu|?|?|?|?|?|?|?|?|?|?|?|?|?|?|?|?|?|?|?|?|?|?]; cbn; eauto 15.
  destruct c; cbn in Hu |- *; subst; try done; eauto 10.
Qed.

(** ** Executions

    An execution is the state of the cluster before every step of anybody. A client runs in it:
    each of its calls is one of the steps. Its calls take effect until its deadline, the one of
    the context it runs on; and it is not held up for longer than [gap] before a call. *)

Record event := Ev { ev_at : nat; ev_call : call; ev_answer : answer ev_call }.

Record client := mkClient { cl_skew : Z; cl_gap : option Z; cl_deadline : option Z }.

Definition execution : Type := nat -> cluster.

Definition prompt (cl : client) (s s' : cluster) : Prop :=
  match cl_gap cl with Some gap => c_now s' <= c_now s + gap | None => True end.
Definition in_time (cl : client) (s : cluster) : Prop :=
  match cl_deadline cl with Some d => c_now s <= d | None => True end.

(** The [n]-th step is this call, answered like this. *)
Definition takes (cl : client) (σ : execution) (n : nat) (c : call) (a : answer c) : Prop :=
  in_time cl (σ n) /\ serves (cl_skew cl) (σ n) c a (σ (S n))
  \/ unavailable c a /\ σ (S n) = σ n.

Fixpoint runs (cl : client) (σ : execution) (i : nat) {A} (p : prog A) (tr : list event) (j : nat) (r : A) : Prop :=
  match p with
  | Ret a => tr = [] /\ j = i /\ r = a
  | Do c k => exists n a tr',
      (i <= n)%nat /\ prompt cl (σ i) (σ n) /\ takes cl σ n c a /\ tr = Ev n c a :: tr' /\ runs cl σ (S n) (k a) tr' j r
  end.

Lemma takes_told cl σ n c a : takes cl σ n c a -> told (σ n) (σ (S n)) c a.
Proof.
  intros [[_ H]|[Hu E]]; [by eapply serves_told|]. rewrite E. apply (serves_told 0). by apply serve_unavailable.
Qed.

Lemma runs_bind cl σ {A B} (m : prog A) (f : A -> prog B) i tr j r :
  runs cl σ i (m ≫= f) tr j r ->
  exists a n tr1 tr2, tr = tr1 ++ tr2 /\ runs cl σ i m tr1 n a /\ runs cl σ n (f a) tr2 j r.
Proof.
  change (m ≫= f) with (prog_bind f m). revert i tr. induction m as [a|c k IH]; intros i tr; cbn.
  - intros H. exists a, i, [], tr. done.
  - intros (n & a & tr' & Hi & Hp & Ht & -> & H). destruct (IH a _ _ H) as (b & n' & tr1 & tr2 & -> & H1 & H2).
    exists b, n', (Ev n c a :: tr1), tr2. split; [done|]. split; [|done]. exists n, a, tr1. done.
Qed.

Lemma runs_ask cl σ c i tr j (r : answer c) :
  runs cl σ i (ask c) tr j r ->
  exists n, tr = [Ev n c r] /\ (i <= n)%nat /\ j = S n /\ prompt cl (σ i) (σ n) /\ takes cl σ n c r.
Proof. cbn. intros (n & a & tr' & Hi & Hp & Ht & -> & -> & -> & ->). eauto 10. Qed.

Lemma runs_fallible_bind cl σ {A B} (m : fallible A) (f : A -> fallible B) i tr j r :
  runs cl σ i (fallible_bind m f) tr j r ->
  (exists e, runs cl σ i m tr j (Err e) /\ r = Err e)
  \/ exists a n tr1 tr2, tr = tr1 ++ tr2 /\ runs cl σ i m tr1 n (Ok a) /\ runs cl σ n (f a) tr2 j r.
Proof.
  unfold fallible_bind. intros (x & n & tr1 & tr2 & -> & H1 & H2)%runs_bind. destruct x as [a|e]; [right; eauto 10|].
  cbn in H2. destruct H2 as (-> & -> & ->). rewrite app_nil_r. left. eauto.
Qed.

Lemma runs_or_gone cl σ {A B} (m : fallible A) (d : B) f i tr j r :
  runs cl σ i (or_gone m d f) tr j r ->
  (exists e, runs cl σ i m tr j (Err e) /\ r = if Is e ErrNotFound then Ok d else Err e)
  \/ exists a n tr1 tr2, tr = tr1 ++ tr2 /\ runs cl σ i m tr1 n (Ok a) /\ runs cl σ n (f a) tr2 j r.
Proof.
  unfold or_gone. intros (x & n & tr1 & tr2 & -> & H1 & H2)%runs_bind. destruct x as [a|e]; [right; eauto 10|].
  left. exists e. destruct (Is e ErrNotFound); cbn in H2; destruct H2 as (-> & -> & ->); by rewrite app_nil_r.
Qed.

(** The steps of a run are in order, between where it starts and where it ends. *)
Lemma runs_bounds cl σ {A} (p : prog A) i tr j r :
  runs cl σ i p tr j r -> (i <= j)%nat /\ forall e, e ∈ tr -> (i <= ev_at e < j)%nat.
Proof.
  revert i tr. induction p as [a|c k IH]; intros i tr; cbn.
  - intros (-> & -> & _). split; [done|]. intros e He. by apply elem_of_nil in He.
  - intros (n & a & tr' & Hi & _ & _ & -> & H). destruct (IH _ _ _ H) as [Hj Ht]. split; [lia|].
    intros e [->|He]%elem_of_cons; cbn; [lia|]. apply Ht in He. lia.
Qed.

Lemma runs_told cl σ {A} (p : prog A) i tr j r e :
  runs cl σ i p tr j r -> e ∈ tr -> told (σ (ev_at e)) (σ (S (ev_at e))) (ev_call e) (ev_answer e).
Proof.
  revert i tr. induction p as [a|c k IH]; intros i tr; cbn.
  - intros (-> & _) He. by apply elem_of_nil in He.
  - intros (n & a & tr' & _ & _ & Ht & -> & H) [->|He]%elem_of_cons; [by eapply takes_told|]. by eapply IH.
Qed.

Lemma runs_only cl σ {A} (P : call -> Prop) (p : prog A) i tr j r e :
  only P p -> runs cl σ i p tr j r -> e ∈ tr -> P (ev_call e).
Proof.
  revert i tr. induction p as [a|c k IH]; intros i tr; cbn.
  - intros _ (-> & _) He. by apply elem_of_nil in He.
  - intros [Hc Hk] (n & a & tr' & _ & _ & _ & -> & H) [->|He]%elem_of_cons; [done|]. by eapply IH.
Qed.

(** Reads leave the cluster as it is. *)
Definition is_read (c : call) : Prop :=
  match c with PatchRD _ _ | PatchSnapshotProps _ _ _ | DeleteSnapshotCall _ _ => False | _ => True end.

Lemma read_told s s' c a : is_read c -> told s s' c a -> s' = s.
Proof. destruct c; cbn; try done; intuition. Qed.

(** What holds at one step and is kept by every step holds at every later one. *)
Lemma kept_along (σ : execution) (P : cluster -> Prop) i j :
  (i <= j)%nat -> P (σ i) -> (forall n, (i <= n < j)%nat -> P (σ n) -> P (σ (S n))) -> P (σ j).
Proof. induction 1 as [|j Hij IH]; intros Hi Hs; [done|]. apply Hs; [lia|]. apply IH; [done|]. intros n Hn. apply Hs. lia. Qed.
