(* ===== verification/Restore.v ===== *)
(** * Restore and clone bookkeeping

    Models [pkg/store/leftover.go], [restore_target.go], [restore_source.go] and
    [clone_snapshot.go] as programs of [Calls]: judging the leftover of a restore, taking over and
    rolling back a restored definition, deleting a snapshot and reaping the internal snapshot of
    a clone while restores from it may be under way. *)

From Stdlib Require Import Ascii.
From S2P Require Import Prelude Api GoStrings GoTime Dispatcher LocalProps Prog Calls.

Definition with_rd_props (rd : ResourceDefinition) (p : gmap string string) : ResourceDefinition :=
  mkResourceDefinition (rd_Name rd) (rd_ExternalName rd) (rd_ResourceGroupName rd) p (rd_Annotations rd)
    (rd_Flags rd) (rd_LayerData rd) (rd_LayerStack rd) (rd_UUID rd) (rd_VolumeDefinitions rd) (rd_EffectiveProps rd).
Definition with_rd_stack (rd : ResourceDefinition) (stack : list string) : ResourceDefinition :=
  mkResourceDefinition (rd_Name rd) (rd_ExternalName rd) (rd_ResourceGroupName rd) (rd_Props rd) (rd_Annotations rd)
    (rd_Flags rd) (rd_LayerData rd) stack (rd_UUID rd) (rd_VolumeDefinitions rd) (rd_EffectiveProps rd).

Definition prop (rd : ResourceDefinition) (key : string) : string := get (rd_Props rd) key.
Definition deleting (flags : list string) : bool := Contains flags ResourceFlagDelete.

(** ** Leftovers (leftover.go) *)

Inductive LeftoverProgress := LeftoverUnfinished | LeftoverFinished | LeftoverForeign | LeftoverTearingDown.

#[global] Instance LeftoverProgress_eq_dec : EqDecision LeftoverProgress.
Proof. solve_decision. Defined.

Record ReplicaCount := mkReplicaCount { Holding : nat; Live : nat; Total : nat }.

Definition HoldsData (res : Resource) : bool :=
  negb (Contains (res_Flags res) ResourceFlagDiskless) && negb (Contains (res_Flags res) ResourceFlagTieBreaker).

Definition count_replicas (replicas : list Resource) : ReplicaCount :=
  let live := filter (fun r => deleting (res_Flags r) = false) replicas in
  mkReplicaCount (length (filter (fun r => HoldsData r = true) live)) (length live) (length replicas).

Definition LiveVolumes (rdName : string) : fallible (list VolumeDefinition) := ask (ListVolumesLive rdName).
Definition LiveReplicas (rdName : string) : fallible (list Resource) := ask (ListReplicasLive rdName).

Definition CountReplicas (rdName : string) : fallible ReplicaCount :=
  replicas ←? LiveReplicas rdName; ok (count_replicas replicas).

Definition placed_on (replicas : list Resource) (node : string) : bool :=
  existsb (fun r => Str.equal_fold (res_NodeName r) node && negb (deleting (res_Flags r)) && HoldsData r) replicas.

Definition MissingReplicas (rdName : string) (wanted : list string) : fallible (list string) :=
  replicas ←? LiveReplicas rdName; ok (filter (fun node => placed_on replicas node = false) wanted).

Record leftoverShape := mkShape { missing : bool; smaller : bool; extra : bool }.

(** The last entry of a volume number counts, as in the map the code builds. *)
Definition captured (vols : list SnapshotVolumeDef) : gmap Z Z :=
  foldl (fun m v => <[svd_VolumeNumber v := svd_SizeKib v]> m) ∅ vols.

Definition leftoverAgainstSnapshot (vols : list SnapshotVolumeDef) (targetVDs : list VolumeDefinition) : leftoverShape :=
  let was := captured vols in
  mkShape
    (existsb (fun number => negb (bool_decide (number ∈ vd_VolumeNumber <$> targetVDs))) (map_to_list was).*1)
    (existsb (fun vd => match was !! vd_VolumeNumber vd with Some size => bool_decide (vd_SizeKib vd < size) | None => false end) targetVDs)
    (existsb (fun vd => match was !! vd_VolumeNumber vd with Some _ => false | None => true end) targetVDs).

Definition recordedSnapshotShape (targetName : string) : fallible (option (list SnapshotVolumeDef)) :=
  or_gone (ask (GetRDUncached targetName)) None (fun rd => ok (RecordedRestoreVolumes (rd_Props rd))).

(** The volumes of the snapshot handed in, or those the definition recorded. *)
Definition referenceShape (targetName : string) (snap : option (list SnapshotVolumeDef)) :
    fallible (option (list SnapshotVolumeDef)) :=
  match snap with Some vols => ok (Some vols) | None => recordedSnapshotShape targetName end.

(** The judgement, once everything is read. *)
Definition judge (count : ReplicaCount) (targetVDs : list VolumeDefinition) (reference : option (list SnapshotVolumeDef))
    (needReplica : bool) : LeftoverProgress :=
  let tearingDown := (0 <? Total count)%nat && (Live count =? 0)%nat in
  let unfinished := if tearingDown then LeftoverTearingDown else LeftoverUnfinished in
  match targetVDs with
  | [] => unfinished
  | _ =>
      let shape := match reference with
                   | Some vols => leftoverAgainstSnapshot vols targetVDs
                   | None => mkShape false false false
                   end in
      if smaller shape || missing shape && extra shape then LeftoverForeign
      else if missing shape then unfinished
      else if negb needReplica then LeftoverFinished
      else if (0 <? Holding count)%nat then LeftoverFinished
      else if tearingDown then LeftoverTearingDown
      else if extra shape then LeftoverForeign
      else LeftoverUnfinished
  end.

Definition AssessLeftover (targetName : string) (targetVDs : list VolumeDefinition) (snap : option (list SnapshotVolumeDef))
    (needReplica : bool) : fallible LeftoverProgress :=
  count ←? CountReplicas targetName;
  match targetVDs with
  | [] => ok (judge count [] None needReplica)
  | _ =>
      reference ←? referenceShape targetName snap;
      ok (judge count targetVDs reference needReplica)
  end.

(** ** Layer stacks (restore_target.go) *)

Definition GroupLayerStack (rgName : string) : fallible (list string) :=
  if bool_decide (rgName = "") then ok []
  else or_gone (ask (GetRG rgName)) [] (fun rg => ok (LayerStack (rg_SelectFilter rg))).

Definition layerStackUnder (own groupStack : list string) : result error (list string) :=
  match own with
  | _ :: _ => Ok own
  | [] => match groupStack with [] => Ok DefaultLayerStack | _ => Err [ErrLayerStackUndecided] end
  end.

Definition EffectiveLayerStack (rd : ResourceDefinition) : fallible (list string) :=
  match rd_LayerStack rd with
  | _ :: _ => ok (rd_LayerStack rd)
  | [] => groupStack ←? GroupLayerStack (rd_ResourceGroupName rd); Ret (layerStackUnder (rd_LayerStack rd) groupStack)
  end.

Definition UnappliedGroupStack (rgName : string) (stack : list string) : fallible string :=
  groupStack ←? GroupLayerStack rgName;
  ok (if LacksLayerOf stack groupStack then Str.join "," groupStack else "").

(** ** Prepared targets (restore_target.go) *)

Definition sameVolumes (vds : list VolumeDefinition) (recorded : list SnapshotVolumeDef) : bool :=
  if bool_decide (length recorded = 0%nat) || negb (bool_decide (length vds = length recorded)) then false
  else forallb (fun vd => bool_decide (captured recorded !! vd_VolumeNumber vd = Some (vd_SizeKib vd))) vds.

Definition PreparedRestoreTarget (cached : ResourceDefinition) (snap : Snapshot) : fallible bool :=
  or_gone (ask (GetRDUncached (rd_Name cached))) false (fun rd =>
  if negb (bool_decide (prop rd RestoreFromSnapshotProp = "")) || deleting (rd_Flags rd) then ok false
  else
    vds ←? LiveVolumes (rd_Name rd);
    if negb (sameVolumes vds (snap_VolumeDefinitions snap)) then ok false
    else
      replicas ←? LiveReplicas (rd_Name rd);
      if existsb (fun r => negb (deleting (res_Flags r))) replicas then ok false
      else if negb (bool_decide (replicas = [])) then fail [ErrRestoreTargetTearingDown]
      else
        source ←? ask (GetRD (snap_ResourceName snap));
        have ←? EffectiveLayerStack source;
        want ←? EffectiveLayerStack rd;
        if negb (SameLayerSet have want) then fail [ErrRestoreTargetLayers] else ok true).

Definition marker_of (snap : Snapshot) : string := snap_ResourceName snap +:+ ":" +:+ snap_Name snap.

Definition stamp_mutate (snap : Snapshot) (targetGroup : string) (groupStack sourceStack : list string)
    (rd : ResourceDefinition) : result error (ResourceDefinition * bool) :=
  let current := prop rd RestoreFromSnapshotProp in
  if negb (bool_decide (current = "")) && negb (Str.equal_fold current (marker_of snap)) then Err [ErrRestoreTargetTaken]
  else
    let wrote := bool_decide (current = "") in
    if bool_decide (rd_LayerStack rd = []) && negb (Str.equal_fold (rd_ResourceGroupName rd) targetGroup)
    then Err [ErrLayerStackUndecided]
    else
      match layerStackUnder (rd_LayerStack rd) groupStack with
      | Err e => Err e
      | Ok stack =>
          if negb (SameLayerSet sourceStack stack) then Err [ErrRestoreTargetLayers]
          else Ok (with_rd_stack (with_rd_props rd (WithRestoreMarker (rd_Props rd) snap)) stack, wrote)
      end.

Definition stampRestoreMarker (rdName : string) (snap : Snapshot) : fallible bool :=
  target ←? ask (GetRD rdName);
  groupStack ←? GroupLayerStack (rd_ResourceGroupName target);
  source ←? ask (GetRD (snap_ResourceName snap));
  sourceStack ←? EffectiveLayerStack source;
  ask (PatchRD rdName (stamp_mutate snap (rd_ResourceGroupName target) groupStack sourceStack)).

Definition AdoptPreparedRestoreTarget := stampRestoreMarker.

(** ** Reading a definition as finished, and clearing its marker *)

Definition ReadsAsFinished (rdName : string) (needReplica : bool) : fallible bool :=
  or_gone (ask (GetRDUncached rdName)) false (fun rd =>
  if deleting (rd_Flags rd) then ok false
  else or_gone (LiveVolumes rdName) false (fun vds =>
    progress ←? AssessLeftover rdName vds None needReplica;
    ok (bool_decide (progress = LeftoverFinished)))).

Definition diskStateUpToDate : string := "UpToDate".

Definition volumesUpToDate (vols : list Volume) : bool :=
  negb (bool_decide (length vols = 0%nat))
  && forallb (fun v => bool_decide (vs_DiskState (vol_State v) = diskStateUpToDate)) vols.

Definition holdsARestoredReplica (rdName : string) : fallible bool :=
  replicas ←? LiveReplicas rdName;
  ok (existsb (fun r => HoldsData r && volumesUpToDate (res_Volumes r)) replicas).

(** [None]: the marker may go. *)
Definition RestoreMarkerClearRefusal (rdName : string) : prog (option error) :=
  finished ← ReadsAsFinished rdName true;
  match finished with
  | Err e => Ret (Some e)
  | Ok false => Ret (Some [ErrRestoreUnfinished])
  | Ok true =>
      restored ← holdsARestoredReplica rdName;
      match restored with
      | Err e => Ret (Some e)
      | Ok false => Ret (Some [ErrRestoreUnfinished])
      | Ok true => Ret None
      end
  end.

Definition DeletesRestoreMarker (override : gmap string string) (del : list string) : bool :=
  match override !! RestoreFromSnapshotProp with
  | Some "" => true
  | _ => Contains del RestoreFromSnapshotProp
  end.

(** ** Leftovers of this restore (restore_target.go) *)

Definition UnmarkRD (rd : ResourceDefinition) : ResourceDefinition := with_rd_props rd (UnmarkRollback (rd_Props rd)).

Definition take_over_mutate (now : Z) (rd : ResourceDefinition) : result error (ResourceDefinition * bool) :=
  let took := bool_decide (prop rd RollbackAbandonedProp = "") || rollbackMarkStale (rd_Props rd) now in
  Ok (if took then UnmarkRD rd else rd, took).

Definition TakeOverStaleRollback (rdName : string) (now : Z) : fallible bool :=
  or_gone (ask (PatchRD rdName (take_over_mutate now))) false ok.

Definition liveRollbackMark (rd : ResourceDefinition) : fallible string :=
  let mark := prop rd RollbackAbandonedProp in
  if negb (bool_decide (mark = RollbackInProgress)) then ok mark
  else
    now ← ask Now;
    took ←? TakeOverStaleRollback (rd_Name rd) now;
    ok (if took then "" else mark).

Definition rollbackMarkRefusal (step : string) : option error :=
  if bool_decide (step = "") then None else Some [ErrRestoreRollbackAbandoned].

Definition RestoreTargetGroupSurvived (rd : ResourceDefinition) : prog (option error) :=
  if bool_decide (rd_ResourceGroupName rd = "") then Ret None
  else
    r ← ask (GetRG (rd_ResourceGroupName rd));
    Ret (match r with
         | Ok _ => None
         | Err e => if Is e ErrNotFound then Some [ErrRestoreTargetGroupGone] else Some e
         end).

(** [(progress, own, err)] of [JudgeRestoreLeftoverOf]. *)
Definition JudgeRestoreLeftoverOf (rdName srcRD snapName : string) (snap : option (list SnapshotVolumeDef)) :
    prog (LeftoverProgress * bool * option error) :=
  r ← ask (GetRDUncached rdName);
  match r with
  | Err e => Ret (LeftoverUnfinished, false, if Is e ErrNotFound then None else Some e)
  | Ok rd =>
      if negb (Str.equal_fold (prop rd RestoreFromSnapshotProp) (srcRD +:+ ":" +:+ snapName))
      then Ret (LeftoverUnfinished, false, None)
      else if deleting (rd_Flags rd) then Ret (LeftoverTearingDown, true, Some [ErrRestoreTargetTearingDown])
      else
        vds ← LiveVolumes (rd_Name rd);
        match vds with
        | Err e => Ret (LeftoverUnfinished, true, Some e)
        | Ok vds =>
            progress ← AssessLeftover (rd_Name rd) vds snap true;
            match progress with
            | Err e => Ret (LeftoverUnfinished, true, Some e)
            | Ok LeftoverTearingDown => Ret (LeftoverTearingDown, true, Some [ErrRestoreTargetTearingDown])
            | Ok LeftoverForeign => Ret (LeftoverForeign, true, Some [ErrRestoreTargetForeign])
            | Ok progress =>
                gone ← RestoreTargetGroupSurvived rd;
                match gone with
                | Some e => Ret (progress, true, Some e)
                | None =>
                    mark ← liveRollbackMark rd;
                    match mark with
                    | Err e => Ret (progress, true, Some e)
                    | Ok mark => Ret (progress, true, rollbackMarkRefusal mark)
                    end
                end
            end
        end
  end.

Definition JudgeRestoreLeftover (rdName : string) (snap : Snapshot) :=
  JudgeRestoreLeftoverOf rdName (snap_ResourceName snap) (snap_Name snap) (Some (snap_VolumeDefinitions snap)).

(** ** The handshake of a retry and a rollback (restore_target.go) *)

Definition claim_mutate (token : string) (snap : option (list SnapshotVolumeDef)) (rd : ResourceDefinition) :
    result error (ResourceDefinition * bool) :=
  if negb (bool_decide (prop rd RollbackAbandonedProp = "")) then Err [ErrAdoptedLeftoverRollingBack]
  else
    let p := <[RestoreAdoptedProp := token]> (rd_Props rd) in
    Ok (with_rd_props rd (match snap with
                          | Some vols => <[RestoreVolumesProp := EncodeRestoreVolumes vols]> p
                          | None => p
                          end), true).

Definition claimLanded (rdName token : string) : prog bool :=
  current ← ask (GetRDUncached rdName);
  Ret (match current with Ok rd => bool_decide (prop rd RestoreAdoptedProp = token) | Err _ => false end).

(** [None]: the definition is this request's to finish. *)
Definition ClaimAdoptedLeftover (rdName : string) (snap : option (list SnapshotVolumeDef)) : prog (option error) :=
  token ← ask RandomText;
  r ← ask (PatchRD rdName (claim_mutate token snap));
  match r with
  | Ok _ => Ret None
  | Err e =>
      if Is e ErrAdoptedLeftoverRollingBack then Ret (Some [ErrAdoptedLeftoverRollingBack])
      else
        landed ← claimLanded rdName token;
        Ret (if landed : bool then None else Some e)
  end.

Definition AdoptedElsewhere (rdName : string) : fallible bool :=
  or_gone (ask (GetRDUncached rdName)) false (fun rd => ok (negb (bool_decide (prop rd RestoreAdoptedProp = "")))).

Definition mark_mutate (step : string) (now : Z) (rd : ResourceDefinition) : result error (ResourceDefinition * bool) :=
  Ok (if bool_decide (step = "") then UnmarkRD rd else with_rd_props rd (MarkRollback (rd_Props rd) step now), true).

(** The clock is read in the closure; every run of it is later than this reading. *)
Definition setRollbackMark (rdName step : string) : fallible bool :=
  now ← ask Now; ask (PatchRD rdName (mark_mutate step now)).

Definition release_mutate (rd : ResourceDefinition) : result error (ResourceDefinition * bool) :=
  Ok (if bool_decide (prop rd RollbackAbandonedProp = RollbackInProgress) then UnmarkRD rd else rd, true).

Definition releaseInProgress (rdName : string) : prog (option error) :=
  r ← ask (PatchRD rdName release_mutate);
  Ret (match r with Ok _ => None | Err e => if Is e ErrNotFound then None else Some e end).

Definition standDown (rdName : string) (why : error) : prog (option error) :=
  err ← releaseInProgress rdName;
  Ret (Some (match err with None => why | Some e => why ++ ErrRollbackMarkStuck :: e end)).

(** [None]: the rollback may delete. *)
Definition HoldRollback (rdName : string) (needReplica : bool) : prog (option error) :=
  r ← setRollbackMark rdName RollbackInProgress;
  match r with
  | Err e => if Is e ErrNotFound then Ret (Some [ErrRollbackGone]) else standDown rdName e
  | Ok _ =>
      adopted ← AdoptedElsewhere rdName;
      match adopted with
      | Err e => standDown rdName e
      | Ok true => standDown rdName [ErrRollbackYielded]
      | Ok false =>
          finished ← ReadsAsFinished rdName needReplica;
          match finished with
          | Err e => standDown rdName e
          | Ok true => standDown rdName [ErrRollbackAnswered]
          | Ok false => Ret None
          end
      end
  end.

Definition enter_mutate (step : string) (now : Z) (rd : ResourceDefinition) : result error (ResourceDefinition * bool) :=
  if negb (bool_decide (prop rd RollbackAbandonedProp = RollbackInProgress)) then Err [errRollbackMarkNotOurs]
  else Ok (with_rd_props rd (MarkRollback (rd_Props rd) step now), true).

Definition markNotOursOrBehind (rdName : string) (notOurs : error) : prog (option error) :=
  live ← ask (GetRDUncached rdName);
  match live with
  | Ok rd =>
      if negb (bool_decide (prop rd RollbackAbandonedProp = RollbackInProgress)) then Ret (Some notOurs)
      else standDown rdName [ErrMarkReadBehind]
  | Err e => if Is e ErrNotFound then Ret (Some [ErrRollbackGone]) else standDown rdName e
  end.

Definition EnterDestructiveRollback (rdName step : string) : prog (option error) :=
  now ← ask Now;
  r ← ask (PatchRD rdName (enter_mutate step now));
  match r with
  | Ok _ => Ret None
  | Err e =>
      if Is e ErrNotFound then Ret (Some [ErrRollbackGone])
      else if Is e errRollbackMarkNotOurs then markNotOursOrBehind rdName e
      else standDown rdName e
  end.

Definition ReleaseRollback (rdName : string) : prog (option error) :=
  r ← setRollbackMark rdName "";
  Ret (match r with Ok _ => None | Err e => if Is e ErrNotFound then None else Some e end).

(** What the rollback of a failed restore does before it deletes anything ([rollbackRestore] of
    internal/cli/snapshot.go). [None]: it deletes the definition next. *)
Definition rollback_gate (rdName : string) (needReplica : bool) (step : string) : prog (option error) :=
  err ← HoldRollback rdName needReplica;
  match err with
  | Some e => Ret (Some e)
  | None => EnterDestructiveRollback rdName step
  end.

(** ** Snapshots and the restores from them (clone_snapshot.go, restore_source.go) *)

Definition snapshotDeleteBudget : Z := 30 * second.
Definition cloneSnapshotReapBudget : Z := 30 * second.
Definition snapshotDeletingMarkTTL : Z := 5 * minute.
Definition cloneSnapshotReapingMarkTTL : Z := 5 * minute.

(** The text after the last [c]. *)
Fixpoint after_last (c : ascii) (s : string) : option string :=
  match s with
  | EmptyString => None
  | String d s' => match after_last c s' with
                   | Some r => Some r
                   | None => if Ascii.eqb d c then Some s' else None
                   end
  end.

Definition mark_is_live (ttl : Z) (mark : string) (now : Z) : bool :=
  match after_last "@" mark ≫= parse_rfc3339 with
  | Some written => bool_decide (now - written < ttl)
  | None => false
  end.
Definition deletingMarkIsLive (mark : string) (now : Z) : bool := mark_is_live snapshotDeletingMarkTTL mark now.
Definition reapingMarkIsLive (mark : string) (now : Z) : bool := mark_is_live cloneSnapshotReapingMarkTTL mark now.

Definition uncachedSnapshot (srcRD snapName : string) : fallible Snapshot :=
  rd ← ask (GetRDUncached srcRD);
  let read (srcRD : string) : fallible Snapshot :=
    snaps ←? ask (ListSnapshotsUncached srcRD);
    match find (fun sn => Str.equal_fold (snap_Name sn) snapName) snaps with
    | Some sn => ok sn
    | None => fail [ErrNotFound]
    end in
  match rd with
  | Ok rd => read (rd_Name rd)
  | Err e => if Is e ErrNotFound then read srcRD else fail e
  end.

(** [None]: the snapshot is there and nobody is deleting it. *)
Definition RestoreSourceWithdrawn (source snapshot : string) : prog (option error) :=
  r ← uncachedSnapshot source snapshot;
  match r with
  | Err e => Ret (Some (if Is e ErrNotFound then ErrRestoreSourceWithdrawn :: e else e))
  | Ok snap =>
      if Contains (snap_Flags snap) SnapshotFlagDelete then Ret (Some [ErrRestoreSourceWithdrawn])
      else
        now ← ask Now;
        Ret (if reapingMarkIsLive (get (snap_Props snap) CloneSnapshotReapingProp) now
             then Some [ErrRestoreSourceWithdrawn; ErrRestoreSourceReaping]
             else if deletingMarkIsLive (get (snap_Props snap) SnapshotDeletingProp) now
             then Some [ErrRestoreSourceWithdrawn; ErrRestoreSourceDeleting]
             else None)
  end.

(** *** The reap *)

Record ClonedSnapshotRef := mkRef { ref_Source : string; ref_Snapshot : string; ref_Clone : string }.
Definition no_ref : ClonedSnapshotRef := mkRef "" "" "".

Definition OwnedCloneSnapshot (rdName : string) : fallible ClonedSnapshotRef :=
  or_gone (ask (GetRD rdName)) no_ref (fun rd =>
  match Str.cut ":" (prop rd RestoreFromSnapshotProp) with
  | None => ok no_ref
  | Some (source, snapName) =>
      if bool_decide (source = "") || bool_decide (snapName = "") then ok no_ref
      else or_gone (uncachedSnapshot source snapName) no_ref (fun snap =>
        if negb (Str.equal_fold (get (snap_Props snap) CloneSnapshotOwnerProp) rdName) then ok no_ref
        else ok (mkRef source snapName rdName))
  end).

Definition restoredFrom (definitions : list ResourceDefinition) (source snapshot : string) : list string :=
  rd_Name <$> filter (fun rd => Str.equal_fold (prop rd RestoreFromSnapshotProp) (source +:+ ":" +:+ snapshot) = true) definitions.

Definition set_reaping_mutate (mark : string) (now : Z) (p : gmap string string) : result error (gmap string string) :=
  let current := get p CloneSnapshotReapingProp in
  if negb (bool_decide (current = "")) && negb (bool_decide (current = mark)) && reapingMarkIsLive current now
  then Err [errAnotherReap]
  else Ok (<[CloneSnapshotReapingProp := mark]> p).

Definition drop_mutate (key mark : string) (notMine : cause) (p : gmap string string) : result error (gmap string string) :=
  if negb (bool_decide (get p key = mark)) then Err [notMine] else Ok (delete key p).

Definition setReapingMark (source snapshot mark : string) : fallible unit :=
  now ← ask Now; ask (PatchSnapshotProps source snapshot (set_reaping_mutate mark now)).

(** Taking a mark off; one that is somebody else's is left. [None]: done. *)
Definition drop_mark (source snapshot key mark : string) (notMine : cause) : prog (option error) :=
  r ← ask (PatchSnapshotProps source snapshot (drop_mutate key mark notMine));
  Ret (match r with Ok _ => None | Err e => if Is e notMine then None else Some e end).

Definition dropReapingMark (source snapshot mark : string) := drop_mark source snapshot CloneSnapshotReapingProp mark errMarkNotMine.
Definition dropDeletingMark (source snapshot mark : string) := drop_mark source snapshot SnapshotDeletingProp mark errDeletingMarkNotMine.

(** Keeping the snapshot: the mark goes, and the answer is why it was kept. *)
Definition keep (drop : prog (option error)) (why : error) : prog (option error) :=
  err ← drop;
  Ret (Some (match err with None => why | Some e => if Is e ErrNotFound then why else why ++ e end)).

Definition newReapingMark (clone token : string) (now : Z) : string :=
  clone +:+ "#" +:+ token +:+ "@" +:+ format_rfc3339 now.

Definition keepCloneSnapshot (ref : ClonedSnapshotRef) (mark : string) (why : error) : prog (option error) :=
  keep (dropReapingMark (ref_Source ref) (ref_Snapshot ref) mark) why.

Definition ReapClonedSnapshot (ref : ClonedSnapshotRef) : prog (option error) :=
  if bool_decide (ref_Source ref = "") || bool_decide (ref_Snapshot ref = "") then Ret None
  else
    now ← ask Now;
    token ← ask RandomText;
    let mark := newReapingMark (ref_Clone ref) token now in
    set ← setReapingMark (ref_Source ref) (ref_Snapshot ref) mark;
    match set with
    | Err e => Ret (if Is e ErrNotFound || Is e errAnotherReap then None else Some e)
    | Ok _ =>
        definitions ← ask ListRDsUncached;
        match definitions with
        | Err e => keepCloneSnapshot ref mark e
        | Ok definitions =>
            if negb (bool_decide (restoredFrom definitions (ref_Source ref) (ref_Snapshot ref) = []))
            then keepCloneSnapshot ref mark [ErrCloneSnapshotInUse]
            else
              r ← ask (DeleteSnapshotCall (ref_Source ref) (ref_Snapshot ref));
              match r with
              | Ok _ => Ret None
              | Err e => if Is e ErrNotFound then Ret None else keepCloneSnapshot ref mark e
              end
        end
    end.

(** *** The delete *)

Definition release_marker_mutate (marker : string) (rd : ResourceDefinition) : result error (ResourceDefinition * bool) :=
  Ok (if Str.equal_fold (prop rd RestoreFromSnapshotProp) marker
      then with_rd_props rd (delete RestoreFromSnapshotProp (rd_Props rd)) else rd, true).

Definition releaseRestoreMarker (rdName marker : string) : prog (option error) :=
  refusal ← RestoreMarkerClearRefusal rdName;
  match refusal with
  | Some e =>
      if Is e ErrRestoreUnfinished then Ret (Some (ErrRestoreSourceInUse :: e))
      else if Is e ErrNotFound then Ret None
      else Ret (Some e)
  | None =>
      r ← ask (PatchRD rdName (release_marker_mutate marker));
      Ret (match r with Ok _ => None | Err e => if Is e ErrNotFound then None else Some e end)
  end.

(** The definitions the delete has to release: those with the marker that are not being deleted. *)
Definition dependents_of (marker : string) (rds : list ResourceDefinition) : list ResourceDefinition :=
  filter (fun rd => Str.equal_fold (prop rd RestoreFromSnapshotProp) marker = true /\ deleting (rd_Flags rd) = false) rds.

Fixpoint release_all (marker : string) (names : list string) : prog (option error) :=
  match names with
  | [] => Ret None
  | name :: rest =>
      err ← releaseRestoreMarker name marker;
      match err with Some e => Ret (Some e) | None => release_all marker rest end
  end.

Definition releaseRestoreSource (srcRD snapName : string) : prog (option error) :=
  let marker := srcRD +:+ ":" +:+ snapName in
  rds ← ask ListRDsUncached;
  match rds with
  | Err e => Ret (Some e)
  | Ok rds => release_all marker (rd_Name <$> dependents_of marker rds)
  end.

Definition set_deleting_mutate (mark : string) (p : gmap string string) : result error (gmap string string) :=
  Ok (<[SnapshotDeletingProp := mark]> p).

Definition setDeletingMark (snap : Snapshot) (mark : string) : fallible unit :=
  ask (PatchSnapshotProps (snap_ResourceName snap) (snap_Name snap) (set_deleting_mutate mark)).

Definition keepSnapshot (srcRD snapName mark : string) (why : error) : prog (option error) :=
  keep (dropDeletingMark srcRD snapName mark) why.

Definition newDeletingMark (token : string) (now : Z) : string := token +:+ "@" +:+ format_rfc3339 now.

(** What follows the mark. *)
Definition delete_marked (srcRD snapName mark : string) : prog (option error) :=
  err ← releaseRestoreSource srcRD snapName;
  match err with
  | Some e => keepSnapshot srcRD snapName mark e
  | None =>
      r ← ask (DeleteSnapshotCall srcRD snapName);
      match r with
      | Ok _ => Ret None
      | Err e => if Is e ErrNotFound then Ret None else keepSnapshot srcRD snapName mark e
      end
  end.

Definition DeleteSnapshot (srcRD snapName : string) : prog (option error) :=
  r ← uncachedSnapshot srcRD snapName;
  match r with
  | Err e => Ret (Some e)
  | Ok snap =>
      token ← ask RandomText;
      now ← ask Now;
      let mark := newDeletingMark token now in
      set ← setDeletingMark snap mark;
      match set with
      | Err e => Ret (Some e)
      | Ok _ => delete_marked (snap_ResourceName snap) (snap_Name snap) mark
      end
  end.

Definition RefuseReplicasWithoutDefinition (rdName : string) : prog (option error) :=
  r ← ask (GetRDUncached rdName);
  match r with
  | Ok _ => Ret None
  | Err e =>
      if negb (Is e ErrNotFound) then Ret (Some e)
      else
        replicas ← LiveReplicas rdName;
        match replicas with
        | Err e => Ret (Some e)
        | Ok replicas =>
            let orphans := filter (fun r =>
              ~ (deleting (res_Flags r) = true \/ Contains (res_Flags r) ResourceFlagTieBreaker = true)
              /\ Contains (res_Flags r) ResourceFlagDiskless = true) replicas in
            Ret (match orphans with [] => None | _ => Some [ErrAlreadyExists; ErrReplicasWithoutDefinition] end)
        end
  end.

(** *** Snapshots a clone left behind *)

Record LeftCloneSnapshots := mkLeft {
  Deletable : list string;
  Unowned : list string;
  InUse : gmap string string;
  Deleting : list string;
}.

Definition Empty (l : LeftCloneSnapshots) : bool :=
  bool_decide (Deletable l = []) && bool_decide (Unowned l = []) && bool_decide (InUse l = ∅) && bool_decide (Deleting l = []).

(** The owner a snapshot names, and whether it does so by its name only. *)
Definition clone_owner (snap : Snapshot) : option (string * bool) :=
  let owner := get (snap_Props snap) CloneSnapshotOwnerProp in
  if negb (bool_decide (owner = "")) then Some (owner, false)
  else match Str.cut_prefix "clone-" (snap_Name snap) with
       | Some owner => if bool_decide (owner = "") then None else Some (owner, true)
       | None => None
       end.

Definition file_left (snap : Snapshot) (legacy : bool) (dependents : list string) (out : LeftCloneSnapshots) : LeftCloneSnapshots :=
  match dependents with
  | d :: _ => mkLeft (Deletable out) (Unowned out) (<[snap_Name snap := d]> (InUse out)) (Deleting out)
  | [] => if legacy then mkLeft (Deletable out) (Unowned out ++ [snap_Name snap]) (InUse out) (Deleting out)
          else mkLeft (Deletable out ++ [snap_Name snap]) (Unowned out) (InUse out) (Deleting out)
  end.

(** [definitions] is the list taken so far; a nil list, which an empty one is not, is taken again. *)
Fixpoint left_behind (definitions : option (list ResourceDefinition)) (out : LeftCloneSnapshots) (snaps : list Snapshot) :
    fallible LeftCloneSnapshots :=
  match snaps with
  | [] => ok out
  | snap :: rest =>
      match clone_owner snap with
      | None => left_behind definitions out rest
      | Some (owner, legacy) =>
          r ← ask (GetRD owner);
          match r with
          | Ok _ => left_behind definitions out rest
          | Err e =>
              if negb (Is e ErrNotFound) then left_behind definitions out rest
              else if Contains (snap_Flags snap) SnapshotFlagDelete
              then left_behind definitions (mkLeft (Deletable out) (Unowned out) (InUse out) (Deleting out ++ [snap_Name snap])) rest
              else
                let go (ds : list ResourceDefinition) :=
                  left_behind (Some ds)
                    (file_left snap legacy (restoredFrom ds (snap_ResourceName snap) (snap_Name snap)) out) rest in
                match definitions with
                | Some ds => go ds
                | None => ds ←? ask ListRDsUncached; go ds
                end
          end
      end
  end.

Definition CloneSnapshotsLeftBehind (snaps : list Snapshot) : fallible LeftCloneSnapshots :=
  left_behind None (mkLeft [] [] ∅ []) snaps.

Definition delete_cmd (source snapshot : string) : string := "`linstor s d " +:+ source +:+ " " +:+ snapshot +:+ "`".

(** The causes and the steps, before they are joined. *)
Definition explain (l : LeftCloneSnapshots) (source : string) : list (string * string) :=
  map (fun s => ("internal clone snapshot " +:+ s +:+ " outlived the clone it was taken for, and nothing was restored from it",
                 delete_cmd source s)) (Deletable l)
  ++ map (fun s => ("snapshot " +:+ s +:+ " looks like the internal snapshot of a clone that no longer exists, but was not stamped as one, so it is never reaped",
                    "if nothing of yours depends on " +:+ s +:+ ", " +:+ delete_cmd source s)) (Unowned l)
  ++ map (fun s => ("internal clone snapshot " +:+ s +:+ " is being deleted",
                    "wait for " +:+ s +:+ " to go, which needs no command; retry shortly")) (Deleting l)
  ++ map (fun s => let user := get (InUse l) s in
                   ("internal clone snapshot " +:+ s +:+ " is kept because " +:+ user +:+ " was restored from it",
                    "keep " +:+ s +:+ " while " +:+ user +:+ " exists, since " +:+ user +:+ " still reads it; once " +:+ user
                    +:+ " is deleted, the next delete of " +:+ source +:+ " names it again")) (sorted_keys (InUse l)).

Definition Explain (l : LeftCloneSnapshots) (source : string) : string * string :=
  (Str.join "; " (explain l source).*1, Str.join "; " ((explain l source).*2 ++ ["then delete " +:+ source +:+ " again"])).

Definition DropCloneSnapshotMarks (p : gmap string string) : gmap string string :=
  delete CloneSnapshotReapingProp (delete CloneSnapshotOwnerProp p).
