(* ===== verification/RestoreRaces.v ===== *)
(** * Races of restores, retries and deletes

    Two protocols of the restore bookkeeping, each under any interleaving with other clients at the
    granularity of single store calls, with stale caches and calls that fail before or after they
    took effect: the handshake between a retry that adopts a leftover and the rollback of the
    attempt that made it, and the one between deleting a snapshot and restoring from it. *)

From S2P Require Import Prelude Api GoStrings GoTime Dispatcher LocalProps Prog Calls Restore.

(** ** Reading programs *)

Ltac reads := repeat match goal with
  | |- only _ (Ret _) => exact I
  | |- only _ (ask _) => split; [exact I|intros ?; exact I]
  | |- only _ (mbind _ _) => apply only_bind; [|intros ?]
  | |- only _ (fallible_bind _ _) => unfold fallible_bind
  | |- only _ (or_gone _ _ _) => unfold or_gone
  | |- only _ (ok _) => exact I
  | |- only _ (fail _) => exact I
  | |- only _ (match ?x with _ => _ end) => destruct x
  | |- only _ (if ?x then _ else _) => destruct x
  end.

Lemma AssessLeftover_reads n vds snap b : only is_read (AssessLeftover n vds snap b).
Proof. unfold AssessLeftover, CountReplicas, LiveReplicas, referenceShape, recordedSnapshotShape. reads. Qed.

Lemma ReadsAsFinished_reads n b : only is_read (ReadsAsFinished n b).
Proof. unfold ReadsAsFinished, LiveVolumes. reads. apply AssessLeftover_reads. Qed.

Lemma RestoreMarkerClearRefusal_reads n : only is_read (RestoreMarkerClearRefusal n).
Proof. unfold RestoreMarkerClearRefusal, holdsARestoredReplica, LiveReplicas. reads. apply ReadsAsFinished_reads. Qed.

Lemma uncachedSnapshot_reads src n : only is_read (uncachedSnapshot src n).
Proof. unfold uncachedSnapshot. reads. Qed.

Lemma GroupLayerStack_reads g : only is_read (GroupLayerStack g).
Proof. unfold GroupLayerStack. reads. Qed.

Lemma EffectiveLayerStack_reads rd : only is_read (EffectiveLayerStack rd).
Proof. unfold EffectiveLayerStack. reads. apply GroupLayerStack_reads. Qed.

(** Everybody else's steps, during a run. *)
Definition among (R : nat -> Prop) (i j : nat) (tr : list event) : Prop :=
  forall n, (i <= n < j)%nat -> n ∉ ev_at <$> tr -> R n.

Lemma ev_outside cl σ {A} (p : prog A) i tr j r n : runs cl σ i p tr j r -> (n < i \/ j <= n)%nat -> n ∉ ev_at <$> tr.
Proof.
  intros Hr Hn (e & -> & He)%list_elem_of_fmap. destruct (runs_bounds _ _ _ _ _ _ _ Hr) as [_ Hb]. apply Hb in He. lia.
Qed.

Lemma among_bind cl σ {A B} (m : prog A) (f : prog B) R i tr1 n tr2 j a b :
  runs cl σ i m tr1 n a -> runs cl σ n f tr2 j b -> among R i j (tr1 ++ tr2) -> among R i n tr1 /\ among R n j tr2.
Proof.
  intros H1 H2 HR. destruct (runs_bounds _ _ _ _ _ _ _ H1) as [Hin _]. destruct (runs_bounds _ _ _ _ _ _ _ H2) as [Hnj _].
  split; intros k Hk Hout; (apply HR; [lia|]); rewrite fmap_app, not_elem_of_app; (split; [|]); try done.
  - eapply ev_outside; [exact H2|lia].
  - eapply ev_outside; [exact H1|lia].
Qed.

(** While a client reads, a property is kept if everybody else keeps it. *)
Lemma kept_while_reading cl σ {A} (m : prog A) i tr j r (P : cluster -> Prop) (R : nat -> Prop) :
  (forall n, R n -> P (σ n) -> P (σ (S n))) ->
  only is_read m -> runs cl σ i m tr j r -> among R i j tr -> P (σ i) -> P (σ j).
Proof.
  intros Hs Hm Hr HR Hi. destruct (runs_bounds _ _ _ _ _ _ _ Hr) as [Hij Hb]. apply (kept_along σ P i j); [done|done|].
  intros n Hn Hp. destruct (decide (n ∈ ev_at <$> tr)) as [Hin|Hin]; [|by apply Hs; [apply HR|]].
  apply list_elem_of_fmap in Hin as (e & -> & He).
  rewrite (read_told _ _ _ _ (runs_only _ _ _ _ _ _ _ _ _ Hm Hr He) (runs_told _ _ _ _ _ _ _ _ Hr He)). done.
Qed.

(** Up to a call of its own. *)
Lemma kept_until_call (σ : execution) c i n (a : answer c) (P : cluster -> Prop) (R : nat -> Prop) :
  (forall n, R n -> P (σ n) -> P (σ (S n))) ->
  (i <= n)%nat -> among R i (S n) [Ev n c a] -> P (σ i) -> P (σ n).
Proof.
  intros Hs Hin HR Hi. apply (kept_along σ P i n); [done|done|]. intros k Hk. apply Hs, HR; [lia|].
  cbn. rewrite list_elem_of_singleton. lia.
Qed.

(** ** The handshake of a retry and a rollback *)

Definition mark_on (rd : ResourceDefinition) : string := prop rd RollbackAbandonedProp.
Definition adopter_on (rd : ResourceDefinition) : string := prop rd RestoreAdoptedProp.

(** What the rest of the system leaves alone while a definition is rolled back: nobody else puts
    the in-progress mark on, and nobody adopts a definition that carries it. *)
Definition respects_rollback (d : string) (s s' : cluster) : Prop :=
  forall rd', c_rds s' !! fold d = Some rd' -> mark_on rd' = RollbackInProgress ->
  exists rd, c_rds s !! fold d = Some rd /\ mark_on rd = RollbackInProgress
    /\ (adopter_on rd' = "" \/ adopter_on rd' = adopter_on rd).

(** A closure that does. *)
Definition respectful (f : ResourceDefinition -> result error (ResourceDefinition * bool)) : Prop :=
  forall rd rd' b, f rd = Ok (rd', b) -> mark_on rd' = RollbackInProgress ->
    mark_on rd = RollbackInProgress /\ (adopter_on rd' = "" \/ adopter_on rd' = adopter_on rd).

Definition peer_call (c : call) : Prop := match c with PatchRD _ f => respectful f | _ => True end.

Lemma respects_same d s s' : c_rds s' = c_rds s -> respects_rollback d s s'.
Proof. intros E rd' Hl Hm. rewrite E in Hl. eauto. Qed.

Lemma respects_patch d s n f rd rd' b :
  respectful f -> c_rds s !! fold n = Some rd -> f rd = Ok (rd', b) ->
  respects_rollback d s (set_rds s (<[fold n := rd']> (c_rds s))).
Proof.
  intros Hf Hl He x Hx Hm. cbn in Hx. destruct (decide (fold n = fold d)) as [E|E].
  - rewrite E, lookup_insert_eq in Hx. simplify_eq. rewrite <- E. destruct (Hf _ _ _ He Hm). eauto.
  - rewrite lookup_insert_ne in Hx by done. eauto.
Qed.

Lemma peer_call_respects d s s' c a : peer_call c -> told s s' c a -> respects_rollback d s s'.
Proof.
  destruct c as [n|n| |n f|n|rd|rd n f|rd n|rd|rd| |]; cbn; intros Hp Ht; try (apply respects_same; by intuition subst).
  - destruct a as [b|e].
    + destruct Ht as (rd & rd' & Hl & He & ->). by eapply respects_patch.
    + destruct Ht as [[-> _]|(_ & rd & rd' & b & Hl & He & ->)]; [by apply respects_same|by eapply respects_patch].
  - apply respects_same. destruct a as [u|e].
    + by destruct Ht as (sn & p & _ & _ & ->).
    + by destruct Ht as [->|(_ & sn & p & _ & _ & ->)].
  - apply respects_same. destruct Ht as [[-> _]|(sn & _ & [->| ->])]; done.
Qed.

(** Every other program of the bookkeeping is such a peer: claims, take-overs, judgements, stamps,
    deletes and reaps. *)

Lemma prop_with_props rd p k : prop (with_rd_props rd p) k = get p k.
Proof. done. Qed.

Lemma unmark_mark rd : mark_on (UnmarkRD rd) = "".
Proof. unfold mark_on, UnmarkRD, UnmarkRollback. rewrite prop_with_props. unfold get. by rewrite lookup_delete_ne, lookup_delete_eq. Qed.

Lemma get_insert_ne (p : gmap string string) k k' v : k <> k' -> get (<[k := v]> p) k' = get p k'.
Proof. intros. unfold get. by rewrite lookup_insert_ne. Qed.
Lemma get_insert (p : gmap string string) k v : get (<[k := v]> p) k = v.
Proof. unfold get. by rewrite lookup_insert_eq. Qed.
Lemma get_delete_ne (p : gmap string string) k k' : k <> k' -> get (delete k p) k' = get p k'.
Proof. intros. unfold get. by rewrite lookup_delete_ne. Qed.
Lemma get_delete (p : gmap string string) k : get (delete k p) k = "".
Proof. unfold get. by rewrite lookup_delete_eq. Qed.

Lemma claim_respectful token snap : respectful (claim_mutate token snap).
Proof.
  intros rd rd' b. unfold claim_mutate. case_bool_decide as E; cbn [negb]; [|done]. intros [= <- _].
  unfold mark_on. rewrite prop_with_props.
  destruct snap; rewrite ?get_insert_ne by done; change (get (rd_Props rd) RollbackAbandonedProp) with (prop rd RollbackAbandonedProp);
    rewrite E; by intros.
Qed.

Lemma take_over_respectful now : respectful (take_over_mutate now).
Proof.
  intros rd rd' b. unfold take_over_mutate. destruct (bool_decide _ || _); intros [= <- _]; [by rewrite unmark_mark|]. eauto.
Qed.

Lemma release_respectful : respectful release_mutate.
Proof. intros rd rd' b. unfold release_mutate. case_bool_decide; intros [= <- _]; [by rewrite unmark_mark|]. eauto. Qed.

Lemma unmark_respectful now : respectful (mark_mutate "" now).
Proof. intros rd rd' b [= <- _]. by rewrite unmark_mark. Qed.

Lemma enter_respectful step now : step <> RollbackInProgress -> respectful (enter_mutate step now).
Proof.
  intros Hs rd rd' b. unfold enter_mutate. case_bool_decide as E; cbn [negb]; [|done]. intros [= <- _].
  unfold mark_on. rewrite prop_with_props, mark_carries. done.
Qed.

Lemma release_marker_respectful marker : respectful (release_marker_mutate marker).
Proof.
  intros rd rd' b. unfold release_marker_mutate. destruct (Str.equal_fold _ _); intros [= <- _]; [|eauto].
  unfold mark_on, adopter_on. rewrite !prop_with_props, !get_delete_ne by done. eauto.
Qed.

Lemma stamp_respectful snap g gs ss : respectful (stamp_mutate snap g gs ss).
Proof.
  intros rd rd' b. unfold stamp_mutate. repeat case_match; try done. intros [= <- _].
  unfold mark_on, adopter_on, prop. cbn. unfold WithRestoreMarker. rewrite !get_insert_ne by done. eauto.
Qed.

Lemma reads_are_peers {A} (p : prog A) : only is_read p -> only peer_call p.
Proof. induction p as [a|c k IH]; cbn; [done|]. intros [Hc Hk]. split; [by destruct c|auto]. Qed.

Lemma ask_peer c : peer_call c -> only peer_call (ask c).
Proof. intros H. split; [done|]. by intros ?. Qed.

Lemma claims_are_peers d snap : only peer_call (ClaimAdoptedLeftover d snap).
Proof.
  unfold ClaimAdoptedLeftover, claimLanded. apply only_bind; [by apply ask_peer|]. intros token.
  apply only_bind; [apply ask_peer, claim_respectful|]. intros r. reads.
Qed.

Lemma judgements_are_peers d src n snap : only peer_call (JudgeRestoreLeftoverOf d src n snap).
Proof.
  unfold JudgeRestoreLeftoverOf, LiveVolumes, RestoreTargetGroupSurvived, liveRollbackMark, TakeOverStaleRollback.
  reads; try apply reads_are_peers, AssessLeftover_reads; try (apply ask_peer, take_over_respectful).
Qed.

Lemma stamps_are_peers d snap : only peer_call (AdoptPreparedRestoreTarget d snap).
Proof.
  unfold AdoptPreparedRestoreTarget, stampRestoreMarker. reads;
    [apply reads_are_peers, GroupLayerStack_reads|apply reads_are_peers, EffectiveLayerStack_reads|apply ask_peer, stamp_respectful].
Qed.

Lemma releases_are_peers marker names : only peer_call (release_all marker names).
Proof.
  induction names as [|n names IH]; cbn [release_all]; [done|]. unfold releaseRestoreMarker. reads; try done.
  - apply reads_are_peers, RestoreMarkerClearRefusal_reads.
  - apply ask_peer, release_marker_respectful.
Qed.

Lemma deletes_are_peers src n : only peer_call (DeleteSnapshot src n).
Proof.
  unfold DeleteSnapshot, setDeletingMark, delete_marked, releaseRestoreSource, keepSnapshot, keep, dropDeletingMark, drop_mark. reads;
    [apply reads_are_peers, uncachedSnapshot_reads|apply releases_are_peers].
Qed.

Lemma reaps_are_peers ref : only peer_call (ReapClonedSnapshot ref).
Proof. unfold ReapClonedSnapshot, setReapingMark, keepCloneSnapshot, keep, dropReapingMark, drop_mark. reads. Qed.

Lemma runs_may_return cl σ {A} (Q : A -> Prop) (p : prog A) i tr j r : may_return Q p -> runs cl σ i p tr j r -> Q r.
Proof.
  revert i tr. induction p as [a|c k IH]; intros i tr; cbn.
  - by intros HQ (_ & _ & ->).
  - intros Hk (n & a & tr' & _ & _ & _ & _ & H). by eapply IH.
Qed.

Lemma standDown_refuses d why : may_return (fun r => r <> None) (standDown d why).
Proof. unfold standDown, releaseInProgress. cbn. done. Qed.

Lemma markNotOursOrBehind_refuses d e : may_return (fun r => r <> None) (markNotOursOrBehind d e).
Proof. unfold markNotOursOrBehind. cbn. intros [rd|e']; repeat case_match; cbn; done. Qed.

Lemma standDown_not_None cl σ d why i tr j : runs cl σ i (standDown d why) tr j None -> False.
Proof. intros H. by eapply (runs_may_return _ _ (fun r => r <> None)) in H; [|apply standDown_refuses]. Qed.
Lemma markNotOurs_not_None cl σ d e i tr j : runs cl σ i (markNotOursOrBehind d e) tr j None -> False.
Proof. intros H. by eapply (runs_may_return _ _ (fun r => r <> None)) in H; [|apply markNotOursOrBehind_refuses]. Qed.

(** The in-progress mark, where it is, is not over an adopted definition. *)
Definition unadopted (d : string) (s : cluster) : Prop :=
  forall rd, c_rds s !! fold d = Some rd -> mark_on rd = RollbackInProgress -> adopter_on rd = "".

Lemma unadopted_kept d s s' : respects_rollback d s s' -> unadopted d s -> unadopted d s'.
Proof. intros Hr Hu rd Hl Hm. destruct (Hr rd Hl Hm) as (rd0 & Hl0 & Hm0 & [->|E]); [done|]. rewrite E. by apply Hu. Qed.

(** A rollback that may go on has read, after its mark was on, a definition nobody adopted. *)
Lemma AdoptedElsewhere_read cl σ d i tr j :
  runs cl σ i (AdoptedElsewhere d) tr j (Ok false) -> unadopted d (σ j).
Proof.
  unfold AdoptedElsewhere. intros H. apply runs_or_gone in H as [(e & Ha & He)|(rd & n & tr1 & tr2 & _ & Ha & Hk)].
  - apply runs_ask in Ha as (n & _ & _ & -> & _ & Ht). apply takes_told in Ht as [-> Ht].
    destruct (Is e ErrNotFound); [|done]. intros rd Hl. rewrite Ht in Hl by done. done.
  - apply runs_ask in Ha as (m & _ & _ & -> & _ & Ht). apply takes_told in Ht as [E Ht]. cbn in Hk.
    destruct Hk as (_ & -> & Hk). injection Hk as Hk. intros rd' Hl _. rewrite E in Hl. simplify_eq.
    unfold adopter_on. case_bool_decide; done.
Qed.

Lemma HoldRollback_unadopted cl σ d b i tr j :
  runs cl σ i (HoldRollback d b) tr j None ->
  among (fun n => respects_rollback d (σ n) (σ (S n))) i j tr -> unadopted d (σ j).
Proof.
  intros Hh HR. unfold HoldRollback in Hh. apply runs_bind in Hh as (set & m1 & tra & trb & -> & Hs & Hh).
  destruct (among_bind _ _ _ _ _ _ _ _ _ _ _ _ Hs Hh HR) as [_ HR1].
  destruct set as [x|e]; [|by destruct (Is e ErrNotFound); [destruct Hh as (_ & _ & [=])|apply standDown_not_None in Hh]].
  apply runs_bind in Hh as (adopted & m2 & trc & trd & -> & Ha & Hh).
  destruct (among_bind _ _ _ _ _ _ _ _ _ _ _ _ Ha Hh HR1) as [_ HR2].
  destruct adopted as [[]|e]; [by apply standDown_not_None in Hh| |by apply standDown_not_None in Hh].
  apply AdoptedElsewhere_read in Ha as Hu.
  apply runs_bind in Hh as (fin & m3 & tre & trf & -> & Hfin & Hh).
  destruct (among_bind _ _ _ _ _ _ _ _ _ _ _ _ Hfin Hh HR2) as [HR3 _].
  destruct fin as [[]|e]; [by apply standDown_not_None in Hh| |by apply standDown_not_None in Hh].
  destruct Hh as (_ & -> & _).
  eapply (kept_while_reading _ _ _ _ _ _ _ (unadopted d)); [|apply ReadsAsFinished_reads|exact Hfin|exact HR3|done].
  intros n. apply unadopted_kept.
Qed.

(** C9: a rollback that goes on to take a definition apart has, in one step of the API server, found
    its own in-progress mark and no adoption on the definition and replaced the mark by the step it
    is about to run. So whatever claims, take-overs, judgements, operator edits, deletes and reaps
    run in between, on caches however old and with calls that fail before or after they took
    effect, it never destroys a definition another request has adopted; and while the step mark is
    on, nobody adopts it. *)
Theorem rollback_spares_adopted_definitions cl σ d needReplica step i tr j :
  runs cl σ i (rollback_gate d needReplica step) tr j None ->
  among (fun n => respects_rollback d (σ n) (σ (S n))) i j tr ->
  exists n now rd,
    Ev n (PatchRD d (enter_mutate step now)) (Ok true) ∈ tr
    /\ c_rds (σ n) !! fold d = Some rd /\ mark_on rd = RollbackInProgress /\ adopter_on rd = ""
    /\ c_rds (σ (S n)) !! fold d = Some (with_rd_props rd (MarkRollback (rd_Props rd) step now))
    /\ (step <> "" -> forall token snap, claim_mutate token snap (with_rd_props rd (MarkRollback (rd_Props rd) step now))
                                       = Err [ErrAdoptedLeftoverRollingBack]).
Proof.
  unfold rollback_gate. intros (err & n0 & tr0 & tr1 & -> & Hh & He)%runs_bind HR.
  destruct (among_bind _ _ _ _ _ _ _ _ _ _ _ _ Hh He HR) as [HR0 HR1].
  destruct err as [e|]; [by destruct He as (_ & _ & [=])|]. apply HoldRollback_unadopted in Hh as Hu; [|done].
  unfold EnterDestructiveRollback in He. apply runs_bind in He as (now & n1 & trn & tr2 & -> & Hnow & He).
  destruct (among_bind _ _ _ _ _ _ _ _ _ _ _ _ Hnow He HR1) as [HRn HR2].
  assert (unadopted d (σ n1)) as Hu1.
  { eapply (kept_while_reading _ _ _ _ _ _ _ (unadopted d)); [intros k; apply unadopted_kept| |exact Hnow|exact HRn|done]. reads. }
  apply runs_bind in He as (r & n2 & trp & tr3 & -> & Hp & He).
  destruct (among_bind _ _ _ _ _ _ _ _ _ _ _ _ Hp He HR2) as [HRp _].
  apply runs_ask in Hp as (n & -> & Hn & -> & _ & Htp). apply takes_told in Htp. cbn in Htp.
  destruct r as [b|e].
  2:{ destruct (Is e ErrNotFound); [by destruct He as (_ & _ & [=])|]. destruct (Is e errRollbackMarkNotOurs);
        [by apply markNotOurs_not_None in He|by apply standDown_not_None in He]. }
  destruct He as (-> & -> & _). destruct Htp as (rd & rd' & Hl & Hf & Hs').
  assert (unadopted d (σ n)) as Hun.
  { eapply (kept_until_call _ _ _ _ _ (unadopted d)); [intros k; apply unadopted_kept|exact Hn|exact HRp|done]. }
  unfold enter_mutate in Hf. case_bool_decide as Hip; cbn [negb] in Hf; [|done]. injection Hf as <- <-.
  exists n, now, rd. split_and!; [set_solver|done|done|by apply Hun|by rewrite Hs'; cbn; rewrite lookup_insert_eq|].
  intros Hne token snap. unfold claim_mutate. rewrite prop_with_props, mark_carries. by rewrite bool_decide_eq_false_2.
Qed.
