(* ===== verification/RestoreDeletes.v ===== *)
(** * Deleting a snapshot while it is restored from

    The protocol between [DeleteSnapshot] or [ReapClonedSnapshot] and a restore: the delete marks the
    snapshot, lists the definitions restored from it, and deletes it only when none is left; the
    restore writes its definition and then looks at the snapshot again. Whichever comes second sees
    the other. *)

From Stdlib Require Import Ascii.
From S2P Require Import Prelude Api GoStrings GoTime Dispatcher LocalProps Prog Calls Restore RestoreRaces.

(** ** Marks and their age *)

Lemma after_last_app c a b : Str.contains_char c b = false -> after_last c (a +:+ String c b) = Some b.
Proof.
  intros Hb. assert (after_last c b = None) as Hn.
  { clear a. induction b as [|d b IH]; [done|]. cbn in *. apply orb_false_iff in Hb as [Hd Hb].
    rewrite IH by done. by rewrite Ascii.eqb_sym, Hd. }
  induction a as [|d a IH].
  - change ("" +:+ String c b) with (String c b). cbn. by rewrite Hn, Ascii.eqb_refl.
  - rewrite StrFacts.app_cons. cbn [after_last]. by rewrite IH.
Qed.

Lemma two_digits_no c n : Str.is_digit c = false -> 0 <= n <= 99 -> Str.contains_char c (two_digits n) = false.
Proof.
  intros Hc Hn. destruct (two_digits_parts n Hn) as (_ & (_ & H1) & (_ & H2)). unfold two_digits. cbn [Str.contains_char].
  rewrite orb_false_r. apply orb_false_iff. split; apply Ascii.eqb_neq; intros ->; congruence.
Qed.

Lemma format_no_at t : four_digit_year t -> Str.contains_char "@" (format_rfc3339 t) = false.
Proof.
  unfold four_digit_year, format_rfc3339. set (secs := t `div` second).
  destruct (civil_of_days (secs `div` 86400)) as [[year month] day] eqn:E. cbn [fst]. intros Hy.
  destruct (civil_of_days_spec _ _ _ _ E) as (_ & Hm & Hd). apply bool_decide_eq_true in Hm, Hd.
  assert (day <= 31) by (unfold days_in in Hd; repeat case_match; lia).
  pose proof (Z.mod_pos_bound secs 86400 ltac:(lia)) as Htod. destruct (time_of_day _ Htod) as (Hh & Hmi & Hs & _).
  unfold four_digits. rewrite !StrFacts.contains_char_app.
  pose proof (Z.div_mod year 100 ltac:(lia)). pose proof (Z.mod_pos_bound year 100 ltac:(lia)).
  rewrite !two_digits_no by (done || lia). done.
Qed.

Lemma mark_age ttl pre t now : four_digit_year t ->
  mark_is_live ttl (pre +:+ "@" +:+ format_rfc3339 t) now = bool_decide (now - t `div` second * second < ttl).
Proof.
  intros Ht. unfold mark_is_live. change ("@" +:+ format_rfc3339 t) with (String "@" (format_rfc3339 t)).
  rewrite after_last_app by by apply format_no_at. cbn [mbind option_bind]. by rewrite parse_format_rfc3339.
Qed.

(** ** Well-formed clusters: objects are kept under their folded names *)

Record wf (s : cluster) : Prop := {
  wf_snap : forall k sn, c_snaps s !! k = Some sn -> k = (fold (snap_ResourceName sn), fold (snap_Name sn));
  wf_rd : forall k rd, c_rds s !! k = Some rd -> k = fold (rd_Name rd);
}.

Lemma equal_fold_fold a b : Str.equal_fold a b = true <-> fold a = fold b.
Proof. unfold Str.equal_fold, fold. by rewrite bool_decide_eq_true. Qed.

Lemma fold_app a b : fold (a +:+ b) = fold a +:+ fold b.
Proof. unfold fold, Str.to_lower. by rewrite map_app_str. Qed.

Lemma takes_now cl σ n t : takes cl σ n Now t -> c_now (σ n) - cl_skew cl <= t <= c_now (σ n) + cl_skew cl.
Proof.
  assert (forall skew s c a s', serves skew s c a s' ->
    match c return answer c -> Prop with Now => fun t => c_now s - skew <= t <= c_now s + skew | _ => fun _ => True end a) as H.
  { destruct 1 as [c a Hu| | | | | | | | | | | | | | | | | | | | | |]; try done. by destruct c. }
  intros [[_ Hs]|[Hu _]]; [exact (H _ _ _ _ _ Hs)|done].
Qed.

(** What [uncachedSnapshot] finds: the snapshot kept under the names it was asked for. *)
Lemma uncachedSnapshot_finds cl σ src name i tr j sn :
  (forall n, wf (σ n)) -> runs cl σ i (uncachedSnapshot src name) tr j (Ok sn) ->
  exists r, (i <= r)%nat /\ j = S r /\ σ (S r) = σ r /\ c_snaps (σ r) !! (fold src, fold name) = Some sn.
Proof.
  intros Hwf. unfold uncachedSnapshot. intros (rd & n & tr1 & tr2 & -> & Ha & Hk)%runs_bind.
  apply runs_ask in Ha as (n0 & -> & Hn0 & -> & _ & Ht). apply takes_told in Ht as [_ Ht].
  assert (exists src', fold src' = fold src /\ runs cl σ (S n0) (snaps ←? ask (ListSnapshotsUncached src');
    match find (fun sn => Str.equal_fold (snap_Name sn) name) snaps with Some sn => ok sn | None => fail [ErrNotFound] end) tr2 j (Ok sn))
    as (src' & Hsrc & Hk').
  { destruct rd as [rd|e].
    - exists (rd_Name rd). split; [|done]. by apply (wf_rd _ (Hwf n0)) in Ht.
    - destruct (Is e ErrNotFound); [by exists src|]. by destruct Hk as (_ & _ & [=]). }
  apply runs_fallible_bind in Hk' as [(e & _ & [=])|(l & n1 & tr3 & tr4 & -> & Hl & Hf)].
  apply runs_ask in Hl as (r & -> & Hr & -> & _ & Hl). apply takes_told in Hl as [Es Hl].
  destruct (find _ l) as [x|] eqn:Ef; [|by destruct Hf as (_ & _ & [=])]. destruct Hf as (_ & -> & [= <-]).
  apply find_some in Ef as [Hin Hname]. apply list_elem_of_In, Hl in Hin as [Hrn [k Hk']].
  exists r. split_and!; [lia|done|done|]. pose proof (wf_snap _ (Hwf r) _ _ Hk') as ->.
  apply equal_fold_fold in Hname. by rewrite <- Hsrc, <- Hrn, <- Hname.
Qed.

(** ** The check of a restore *)

Lemma check_passes cl σ src name i tr j :
  (forall n, wf (σ n)) -> runs cl σ i (RestoreSourceWithdrawn src name) tr j None ->
  exists r n sn now, (i <= r < n)%nat /\ prompt cl (σ r) (σ n)
    /\ c_snaps (σ r) !! (fold src, fold name) = Some sn /\ Contains (snap_Flags sn) SnapshotFlagDelete = false
    /\ now <= c_now (σ n) + cl_skew cl
    /\ reapingMarkIsLive (get (snap_Props sn) CloneSnapshotReapingProp) now = false
    /\ deletingMarkIsLive (get (snap_Props sn) SnapshotDeletingProp) now = false.
Proof.
  intros Hwf. unfold RestoreSourceWithdrawn. intros (r & n & tr1 & tr2 & -> & Hu & Hk)%runs_bind.
  destruct r as [sn|e]; [|by destruct Hk as (_ & _ & [=])].
  apply uncachedSnapshot_finds in Hu as (r & Hr & -> & Es & Hl); [|done].
  destruct (Contains (snap_Flags sn) SnapshotFlagDelete) eqn:Ef; [by destruct Hk as (_ & _ & [=])|].
  apply runs_bind in Hk as (now & n1 & tr3 & tr4 & -> & Hn & Hk).
  apply runs_ask in Hn as (n2 & -> & Hn2 & -> & Hp & Ht). apply takes_now in Ht. destruct Hk as (_ & _ & Hk).
  destruct (reapingMarkIsLive _ now) eqn:E1; [done|]. destruct (deletingMarkIsLive _ now) eqn:E2; [done|].
  exists r, n2, sn, now. rewrite Es in Hp. split_and!; (done || lia).
Qed.

(** ** What other clients leave alone *)

(** A snapshot that is gone, or about to be. *)
Definition gone (K : string * string) (s : cluster) : Prop :=
  forall sn, c_snaps s !! K = Some sn -> Contains (snap_Flags sn) SnapshotFlagDelete = true.

(** Everybody but the delete under consideration leaves its mark alone, takes no delete back, and
    makes no new snapshot of the name; anybody may delete it. *)
Definition leaves_snapshot (K : string * string) (key : string) (s s' : cluster) : Prop :=
  match c_snaps s !! K, c_snaps s' !! K with
  | Some sn, Some sn' => get (snap_Props sn') key = get (snap_Props sn) key
      /\ (Contains (snap_Flags sn) SnapshotFlagDelete = true -> Contains (snap_Flags sn') SnapshotFlagDelete = true)
  | None, Some _ => False
  | _, None => True
  end.

Definition marked (K : string * string) (key mark : string) (s : cluster) : Prop :=
  exists sn, c_snaps s !! K = Some sn /\ get (snap_Props sn) key = mark.

Lemma gone_kept K key s s' : leaves_snapshot K key s s' -> gone K s -> gone K s'.
Proof.
  unfold leaves_snapshot, gone. intros Hl Hg sn' Hs'. rewrite Hs' in Hl. destruct (c_snaps s !! K) as [sn|] eqn:E; [|done].
  apply Hl. by apply Hg.
Qed.

Lemma marked_kept K key mark s s' : leaves_snapshot K key s s' -> ~ gone K s' -> marked K key mark s -> marked K key mark s'.
Proof.
  unfold leaves_snapshot, gone, marked. intros Hl Hg (sn & Hs & Hm). rewrite Hs in Hl.
  destruct (c_snaps s' !! K) as [sn'|] eqn:E; [|destruct Hg; intros sn' Hn; congruence].
  exists sn'. split; [done|]. by destruct Hl as [-> _].
Qed.

(** A definition that was restored from the snapshot and still needs it. *)
Definition depends (marker d : string) (s : cluster) : Prop :=
  exists rd, c_rds s !! fold d = Some rd /\ Str.equal_fold (prop rd RestoreFromSnapshotProp) marker = true
    /\ deleting (rd_Flags rd) = false.

(** ** Releasing the definitions *)

(** What a program may return, given what the answers of the store can be. *)
Fixpoint may_tell {A} (Q : A -> Prop) (p : prog A) : Prop :=
  match p with
  | Ret a => Q a
  | Do c k => forall a s s', told s s' c a -> may_tell Q (k a)
  end.

Lemma may_tell_bind {A B} (Q : B -> Prop) (m : prog A) (f : A -> prog B) :
  may_tell (fun a => may_tell Q (f a)) m -> may_tell Q (m ≫= f).
Proof. change (m ≫= f) with (prog_bind f m). induction m as [a|c k IH]; cbn; [done|]. intros H a s s' Ht. apply IH. by eapply H. Qed.

Lemma runs_may_tell cl σ {A} (Q : A -> Prop) (p : prog A) i tr j r : may_tell Q p -> runs cl σ i p tr j r -> Q r.
Proof.
  revert i tr. induction p as [a|c k IH]; intros i tr; cbn.
  - by intros HQ (_ & _ & ->).
  - intros Hk (n & a & tr' & _ & _ & Ht & _ & H). eapply IH; [|exact H]. eapply Hk. by eapply takes_told.
Qed.

Definition not_gone {A} (r : result error A) : Prop := match r with Ok _ => True | Err e => Is e ErrNotFound = false end.

Lemma AssessLeftover_not_gone d vds b : may_tell not_gone (AssessLeftover d vds None b).
Proof.
  unfold AssessLeftover, CountReplicas, LiveReplicas, fallible_bind. apply may_tell_bind, may_tell_bind. cbn.
  intros [reps|e] s s' [_ ?]; cbn; [|by subst]. destruct vds; cbn; [done|].
  intros [rd|e] t t' _; cbn; [done|]. by destruct (Is e ErrNotFound) eqn:E; cbn.
Qed.

Lemma ReadsAsFinished_not_gone d b : may_tell not_gone (ReadsAsFinished d b).
Proof.
  unfold ReadsAsFinished, or_gone. apply may_tell_bind. cbn. intros [rd|e] s s' _; [|by destruct (Is e ErrNotFound) eqn:E; cbn].
  destruct (deleting (rd_Flags rd)); cbn; [done|]. unfold LiveVolumes. intros [vds|e] t t' _; [|by destruct (Is e ErrNotFound) eqn:E; cbn].
  change (may_tell not_gone (progress ←? AssessLeftover d vds None b; ok (bool_decide (progress = LeftoverFinished)))).
  unfold fallible_bind. apply may_tell_bind. pose proof (AssessLeftover_not_gone d vds b) as H.
  induction (AssessLeftover d vds None b) as [r|c k IH]; cbn in *; [by destruct r|]. eauto.
Qed.

Lemma RestoreMarkerClearRefusal_not_gone d :
  may_tell (fun r => match r with Some e => Is e ErrRestoreUnfinished = true \/ Is e ErrNotFound = false | None => True end)
    (RestoreMarkerClearRefusal d).
Proof.
  unfold RestoreMarkerClearRefusal. apply may_tell_bind. pose proof (ReadsAsFinished_not_gone d true) as H.
  induction (ReadsAsFinished d true) as [r|c k IH]; cbn in *; [|eauto].
  destruct r as [[]|e]; cbn; [|by left|by right]. intros [reps|e] s s' [_ ?]; cbn; [|subst; by right].
  destruct (existsb _ reps); cbn; [done|by left].
Qed.

(** The definition is gone, or no longer restored from the snapshot. *)
Definition released (marker d : string) (σ : execution) (q : nat) : Prop :=
  c_rds (σ q) !! fold d = None
  \/ forall rd, c_rds (σ (S q)) !! fold d = Some rd -> Str.equal_fold (prop rd RestoreFromSnapshotProp) marker = false.

Lemma releaseRestoreMarker_releases cl σ d marker i tr j :
  marker <> "" -> runs cl σ i (releaseRestoreMarker d marker) tr j None -> exists q, (i <= q < j)%nat /\ released marker d σ q.
Proof.
  intros Hne. unfold releaseRestoreMarker. intros (refusal & n & tr1 & tr2 & -> & Hr & Hk)%runs_bind.
  destruct (runs_bounds _ _ _ _ _ _ _ Hr) as [Hin _].
  pose proof (runs_may_tell _ _ _ _ _ _ _ _ (RestoreMarkerClearRefusal_not_gone d) Hr) as Hg.
  destruct refusal as [e|].
  { destruct (Is e ErrRestoreUnfinished); [by destruct Hk as (_ & _ & [=])|].
    destruct Hg as [?|Hg]; [done|]. rewrite Hg in Hk. by destruct Hk as (_ & _ & [=]). }
  apply runs_bind in Hk as (r & n2 & tr3 & tr4 & -> & Hp & Hk). apply runs_ask in Hp as (q & -> & Hq & -> & _ & Ht).
  apply takes_told in Ht. cbn in Ht. destruct Hk as (_ & -> & Hk). exists q. split; [lia|].
  destruct r as [b|e].
  - right. destruct Ht as (rd & rd' & Hl & Hf & ->). cbn. rewrite lookup_insert_eq. intros x [= <-].
    unfold release_marker_mutate in Hf. injection Hf as <- <-. destruct (Str.equal_fold (prop rd _) marker) eqn:E; [|done].
    rewrite prop_with_props, get_delete. apply bool_decide_eq_false. intros Hm. by destruct marker.
  - left. destruct (Is e ErrNotFound) eqn:E; [|done].
    destruct Ht as [[_ [->|[[view [=]]|[_ Hn]]]]|[-> _]]; [done|done|done].
Qed.

Lemma release_all_releases cl σ marker names i tr j d :
  marker <> "" -> runs cl σ i (release_all marker names) tr j None -> d ∈ names ->
  exists q, (i <= q < j)%nat /\ released marker d σ q.
Proof.
  intros Hne. revert i tr. induction names as [|x names IH]; intros i tr; [by rewrite elem_of_nil|]. cbn [release_all].
  intros (err & n & tr1 & tr2 & -> & Hr & Hk)%runs_bind Hd. destruct (runs_bounds _ _ _ _ _ _ _ Hr) as [Hin _].
  destruct err as [e|]; [by destruct Hk as (_ & _ & [=])|]. destruct (runs_bounds _ _ _ _ _ _ _ Hk) as [Hnj _].
  apply elem_of_cons in Hd as [->|Hd].
  - apply releaseRestoreMarker_releases in Hr as (q & Hq & Hrel); [|done]. exists q. split; [lia|done].
  - destruct (IH _ _ Hk Hd) as (q & Hq & Hrel). exists q. split; [lia|done].
Qed.

(** A definition that depends on the snapshot throughout is among those the delete has to release,
    so it is never released. *)
Lemma listed_dependent marker d s rds :
  wf s -> rds ≡ₚ (map_to_list (c_rds s)).*2 -> depends marker d s -> exists x, x ∈ rd_Name <$> dependents_of marker rds /\ fold x = fold d.
Proof.
  intros Hwf Hp (rd & Hl & Hm & Hf). exists (rd_Name rd). split; [|by rewrite <- (wf_rd _ Hwf _ _ Hl)].
  apply list_elem_of_fmap. exists rd. split; [done|]. apply list_elem_of_filter. split; [done|]. rewrite Hp.
  apply list_elem_of_fmap. exists (fold d, rd). by rewrite elem_of_map_to_list.
Qed.

Lemma not_released marker d x σ q : fold x = fold d -> depends marker d (σ q) -> depends marker d (σ (S q)) -> ~ released marker x σ q.
Proof.
  intros Hx (rd & Hl & _) (rd' & Hl' & Hm' & _) [Hn|Hr]; rewrite Hx in *; [congruence|]. rewrite (Hr _ Hl') in Hm'. done.
Qed.

(** ** The calls of a delete *)

(** Calls that leave the snapshots alone. *)
Definition spares_snapshots (c : call) : Prop :=
  match c with PatchSnapshotProps _ _ _ | DeleteSnapshotCall _ _ => False | _ => True end.

Lemma spares_told s s' c a : spares_snapshots c -> told s s' c a -> c_snaps s' = c_snaps s.
Proof.
  destruct c as [n|n| |n f|n|rd|rd n f|rd n|rd|rd| |]; cbn; try done; intros _; intuition; subst; try done.
  destruct a as [b|e]; [by destruct H as (? & ? & _ & _ & ->)|]. destruct H as [[-> _]|(_ & ? & ? & ? & _ & _ & ->)]; done.
Qed.

Lemma reads_spare {A} (p : prog A) : only is_read p -> only spares_snapshots p.
Proof. induction p as [a|c k IH]; cbn; [done|]. intros [Hc Hk]. split; [by destruct c|auto]. Qed.

Lemma release_all_spares marker names : only spares_snapshots (release_all marker names).
Proof.
  induction names as [|n names IH]; cbn [release_all]; [done|]. unfold releaseRestoreMarker. reads; try done.
  apply reads_spare, RestoreMarkerClearRefusal_reads.
Qed.

Lemma releaseRestoreSource_spares src n : only spares_snapshots (releaseRestoreSource src n).
Proof. unfold releaseRestoreSource. reads. apply release_all_spares. Qed.

Lemma releaseRestoreSource_releases cl σ src n i tr j d :
  let marker := src +:+ ":" +:+ n in
  (forall k, wf (σ k)) -> runs cl σ i (releaseRestoreSource src n) tr j None ->
  ~ (forall k, (i <= k <= j)%nat -> depends marker d (σ k)).
Proof.
  intros marker Hwf Hr Hdep. unfold releaseRestoreSource in Hr. fold marker in Hr.
  apply runs_bind in Hr as (rds & n0 & tr1 & tr2 & -> & Hl & Hk). apply runs_ask in Hl as (l & -> & Hl & -> & _ & Ht).
  apply takes_told in Ht as [_ Ht]. destruct rds as [rds|e]; [|by destruct Hk as (_ & _ & [=])].
  destruct (runs_bounds _ _ _ _ _ _ _ Hk) as [Hj _].
  destruct (listed_dependent marker d (σ l) rds) as (x & Hx & Hfx); [done|done|apply Hdep; lia|].
  assert (marker <> "") as Hne by (unfold marker; destruct src; done).
  destruct (release_all_releases _ _ _ _ _ _ _ _ Hne Hk Hx) as (q & Hq & Hrel).
  apply (not_released marker d x σ q); [exact Hfx|apply Hdep; lia|apply Hdep; lia|exact Hrel].
Qed.

Lemma runs_takes cl σ {A} (p : prog A) i tr j r e :
  runs cl σ i p tr j r -> e ∈ tr -> takes cl σ (ev_at e) (ev_call e) (ev_answer e).
Proof.
  revert i tr. induction p as [a|c k IH]; intros i tr; cbn.
  - intros (-> & _) He. by apply elem_of_nil in He.
  - intros (n & a & tr' & _ & _ & Ht & -> & H) [->|He]%elem_of_cons; [done|]. by eapply IH.
Qed.

(** A step that changes the properties of a snapshot at most. *)
Definition edits_props (s s' : cluster) : Prop :=
  c_snaps s' = c_snaps s
  \/ exists key sn p, c_snaps s !! key = Some sn /\ c_snaps s' = <[key := with_snap_props sn p]> (c_snaps s).

Definition no_delete (c : call) : Prop := match c with DeleteSnapshotCall _ _ => False | _ => True end.

Lemma no_delete_told s s' c a : no_delete c -> told s s' c a -> edits_props s s'.
Proof.
  destruct c as [n|n| |n f|n|rd|rd n f|rd n|rd|rd| |]; intros Hc Ht; try (left; by eapply (spares_told s s' _ a); [|exact Ht]).
  cbn in Ht. destruct a as [u|e].
  - destruct Ht as (sn & p & Hl & _ & ->). right. eauto.
  - destruct Ht as [->|(_ & sn & p & Hl & _ & ->)]; [by left|right; eauto].
Qed.

Lemma keep_no_delete key src n mark c why : only no_delete (keep (drop_mark src n key mark c) why).
Proof. unfold keep, drop_mark. reads. Qed.

Lemma edits_props_gone K s s' : edits_props s s' -> gone K s -> gone K s'.
Proof.
  intros [E|(key & sn & p & Hl & E)] Hg x Hx; rewrite E in Hx; [by apply Hg|].
  destruct (decide (key = K)) as [->|Hne]; [|rewrite lookup_insert_ne in Hx by done; by apply Hg].
  rewrite lookup_insert_eq in Hx. simplify_eq. by apply (Hg _ Hl).
Qed.

(** A run with one delete in it, a program that leaves the snapshots alone before, and one that
    deletes nothing after. *)
Definition deletes_once (cl : client) (σ : execution) (src n : string) (i : nat) (tr : list event) (jd : nat) : Prop :=
  (i <= jd)%nat
  /\ (forall k, (i <= k < jd)%nat -> k ∈ ev_at <$> tr -> c_snaps (σ (S k)) = c_snaps (σ k))
  /\ (forall k, (jd < k)%nat -> k ∈ ev_at <$> tr -> edits_props (σ k) (σ (S k))).

Lemma deletes_once_intro cl σ src n {A B} (m : prog A) (f : answer (DeleteSnapshotCall src n) -> prog B) i tr1 n0 a tr2 j r e :
  only spares_snapshots m -> (forall x, only no_delete (f x)) ->
  runs cl σ i m tr1 n0 a -> runs cl σ n0 (ask (DeleteSnapshotCall src n) ≫= f) tr2 j r ->
  e ∈ tr1 ++ tr2 -> ev_call e = DeleteSnapshotCall src n ->
  deletes_once cl σ src n i (tr1 ++ tr2) (ev_at e) /\ (n0 <= ev_at e)%nat.
Proof.
  intros Hm Hf H1 H2 He Hc. apply runs_bind in H2 as (x & m1 & tr3 & tr4 & -> & Hd & Hk).
  apply runs_ask in Hd as (q & -> & Hq & -> & _ & Htk).
  destruct (runs_bounds _ _ _ _ _ _ _ H1) as [Hin Hb1]. destruct (runs_bounds _ _ _ _ _ _ _ Hk) as [_ Hb4].
  assert (ev_at e = q) as ->.
  { apply elem_of_app in He as [He|He].
    { pose proof (runs_only _ _ _ _ _ _ _ _ _ Hm H1 He) as Hs. by rewrite Hc in Hs. }
    apply elem_of_app in He as [->%list_elem_of_singleton|He]; [done|].
    pose proof (runs_only _ _ _ _ _ _ _ _ _ (Hf x) Hk He) as Hs. by rewrite Hc in Hs. }
  split; [|done]. split_and!; [lia| |]; intros k Hk0 (e' & -> & He')%list_elem_of_fmap.
  - apply elem_of_app in He' as [He'|He'].
    + eapply spares_told; [exact (runs_only _ _ _ _ _ _ _ _ _ Hm H1 He')|exact (runs_told _ _ _ _ _ _ _ _ H1 He')].
    + apply elem_of_app in He' as [->%list_elem_of_singleton|He']; [cbn in Hk0; lia|]. apply Hb4 in He'. lia.
  - apply elem_of_app in He' as [He'|He']; [apply Hb1 in He'; lia|].
    apply elem_of_app in He' as [->%list_elem_of_singleton|He']; [cbn in Hk0; lia|].
    eapply no_delete_told; [exact (runs_only _ _ _ _ _ _ _ _ _ (Hf x) Hk He')|exact (runs_told _ _ _ _ _ _ _ _ Hk He')].
Qed.

Lemma delete_marked_deletes cl σ src n mark i tr j r e :
  (forall k, wf (σ k)) -> runs cl σ i (delete_marked src n mark) tr j r -> e ∈ tr -> ev_call e = DeleteSnapshotCall src n ->
  deletes_once cl σ src n i tr (ev_at e)
  /\ forall d, ~ (forall k, (i <= k <= ev_at e)%nat -> depends (src +:+ ":" +:+ n) d (σ k)).
Proof.
  intros Hwf. unfold delete_marked. intros (err & n0 & tr1 & tr2 & -> & Hr & Hk)%runs_bind He Hc.
  destruct err as [why|].
  { exfalso. apply elem_of_app in He as [He|He].
    - pose proof (runs_only _ _ _ _ _ _ _ _ _ (releaseRestoreSource_spares src n) Hr He) as Hs. by rewrite Hc in Hs.
    - pose proof (runs_only _ _ _ _ _ _ _ _ _ (keep_no_delete _ _ _ _ _ _) Hk He) as Hs. by rewrite Hc in Hs. }
  eapply deletes_once_intro in He as [Hd Hn0]; [|apply releaseRestoreSource_spares| |exact Hr|exact Hk|done];
    [|intros [|x]; [done|]; destruct (Is x ErrNotFound); [done|apply keep_no_delete]].
  split; [done|]. intros d Hdep. destruct (runs_bounds _ _ _ _ _ _ _ Hr) as [Hin _].
  eapply (releaseRestoreSource_releases _ _ _ _ _ _ _ d Hwf Hr). intros k Hk'. apply Hdep. lia.
Qed.

(** ** Who leaves a mark alone *)

(** Calls that leave a property of snapshots alone. *)
Definition leaves_key (key : string) (c : call) : Prop :=
  match c with PatchSnapshotProps _ _ f => forall p p', f p = Ok p' -> get p' key = get p key | _ => True end.

Lemma flagged_contains f l : Contains (SnapshotFlagDelete :: l) f = true \/ Contains l f = true -> Contains (SnapshotFlagDelete :: l) f = true.
Proof. unfold Contains. rewrite !bool_decide_eq_true. set_solver. Qed.

Lemma leaves_patch K key s k sn p :
  c_snaps s !! k = Some sn -> get p key = get (snap_Props sn) key ->
  leaves_snapshot K key s (set_snaps s (<[k := with_snap_props sn p]> (c_snaps s))).
Proof.
  intros Hl Hg. unfold leaves_snapshot. cbn. destruct (decide (k = K)) as [->|Hne].
  - rewrite lookup_insert_eq, Hl. cbn. done.
  - rewrite lookup_insert_ne by done. by destruct (c_snaps s !! K).
Qed.

Lemma leaves_same K key s s' : c_snaps s' = c_snaps s -> leaves_snapshot K key s s'.
Proof. intros E. unfold leaves_snapshot. rewrite E. by destruct (c_snaps s !! K). Qed.

Lemma leaves_told K key s s' c a : leaves_key key c -> told s s' c a -> leaves_snapshot K key s s'.
Proof.
  destruct c as [n|n| |n f|n|rd|rd n f|rd n|rd|rd| |]; intros Hc Ht;
    try (apply leaves_same; by eapply (spares_told s s' _ a); [|exact Ht]).
  - cbn in Ht. destruct a as [u|e].
    + destruct Ht as (sn & p & Hl & He & ->). eapply leaves_patch; [done|]. by apply Hc.
    + destruct Ht as [->|(_ & sn & p & Hl & He & ->)]; [by apply leaves_same|]. eapply leaves_patch; [done|]. by apply Hc.
  - cbn in Ht. destruct Ht as [[-> _]|(sn & Hl & [->| ->])]; [by apply leaves_same| |]; unfold leaves_snapshot; cbn;
      (destruct (decide ((fold rd, fold n) = K)) as [<-|Hne]; [|by rewrite ?lookup_delete_ne, ?lookup_insert_ne by done; destruct (c_snaps s !! K)]).
    + by rewrite lookup_delete_eq, Hl.
    + rewrite lookup_insert_eq, Hl. cbn. split; [done|]. intros _. apply flagged_contains. left. apply bool_decide_eq_true. set_solver.
Qed.

Lemma drop_leaves_key key key' mark c p p' : key' <> key -> drop_mutate key' mark c p = Ok p' -> get p' key = get p key.
Proof. unfold drop_mutate. intros Hne. case_match; intros [= <-]. by apply get_delete_ne. Qed.

Lemma reads_leave {A} key (p : prog A) : only is_read p -> only (leaves_key key) p.
Proof. induction p as [a|c k IH]; cbn; [done|]. intros [Hc Hk]. split; [by destruct c|auto]. Qed.
Lemma spares_leave {A} key (p : prog A) : only spares_snapshots p -> only (leaves_key key) p.
Proof. induction p as [a|c k IH]; cbn; [done|]. intros [Hc Hk]. split; [by destruct c|auto]. Qed.
Lemma ask_leaves key c : leaves_key key c -> only (leaves_key key) (ask c).
Proof. intros H. split; [done|]. by intros ?. Qed.
Lemma keep_leaves key key' src n mark c why : key' <> key -> only (leaves_key key) (keep (drop_mark src n key' mark c) why).
Proof. intros Hne. unfold keep, drop_mark. reads. apply ask_leaves. intros p p' H. by eapply drop_leaves_key in H. Qed.

Lemma reaps_leave_deletes ref : only (leaves_key SnapshotDeletingProp) (ReapClonedSnapshot ref).
Proof.
  unfold ReapClonedSnapshot, setReapingMark, keepCloneSnapshot, dropReapingMark. reads; try by apply keep_leaves.
  apply ask_leaves. intros p p'. unfold set_reaping_mutate. case_match; intros [= <-]. by apply get_insert_ne.
Qed.

Lemma deletes_leave_reaps src n : only (leaves_key CloneSnapshotReapingProp) (DeleteSnapshot src n).
Proof.
  unfold DeleteSnapshot, setDeletingMark, delete_marked, keepSnapshot, dropDeletingMark.
  reads; try by apply keep_leaves.
  - apply reads_leave, uncachedSnapshot_reads.
  - apply ask_leaves. intros p p' [= <-]. by apply get_insert_ne.
  - apply spares_leave, releaseRestoreSource_spares.
Qed.

(** ** The window between the mark and the delete *)

Section window.
(** A delete marked the snapshot at step [m] and deletes it at step [jd]; its steps are [own]. *)
Context (σ : execution) (K : string * string) (key : string) (own : list nat) (m jd : nat).
Hypothesis Horder : (m < jd)%nat.
Hypothesis Hothers : forall n, (m < n)%nat -> n ∉ own -> leaves_snapshot K key (σ n) (σ (S n)).
Hypothesis Hbefore : forall n, (m < n < jd)%nat -> n ∈ own -> c_snaps (σ (S n)) = c_snaps (σ n).
Hypothesis Hafter : forall n, (jd < n)%nat -> n ∈ own -> edits_props (σ n) (σ (S n)).
Hypothesis Hthere : ~ gone K (σ jd).
Hypothesis Htaken : gone K (σ (S jd)).

Lemma window_leaves n : (m < n < jd)%nat -> leaves_snapshot K key (σ n) (σ (S n)).
Proof using All. intros Hn. destruct (decide (n ∈ own)); [by apply leaves_same, Hbefore|apply Hothers; [lia|done]]. Qed.

Lemma still_there n : (m < n <= jd)%nat -> ~ gone K (σ n).
Proof using All.
  intros Hn Hg. apply Hthere. apply (kept_along σ (gone K) n jd); [lia|done|]. intros k Hk. eapply gone_kept, window_leaves. lia.
Qed.

Lemma still_marked mark n : (m < n <= jd)%nat -> marked K key mark (σ (S m)) -> marked K key mark (σ n).
Proof using All.
  intros Hn Hm. apply (kept_along σ (marked K key mark) (S m) n); [lia|done|]. intros k Hk Hp.
  eapply marked_kept; [apply window_leaves; lia|apply still_there; lia|done].
Qed.

Lemma stays_gone n : (jd < n)%nat -> gone K (σ n).
Proof using All.
  intros Hn. apply (kept_along σ (gone K) (S jd) n); [lia|done|]. intros k Hk Hg.
  destruct (decide (k ∈ own)); [eapply edits_props_gone; [apply Hafter; [lia|done]|done]|].
  eapply gone_kept; [apply Hothers; [lia|done]|done].
Qed.

(** A check that reads the snapshot after the mark was written is refused: it sees the mark, which
    has not run out, or it sees that the snapshot is gone. *)
Lemma check_after_mark cl src name i tr j pre t budget :
  K = (fold src, fold name) -> key = SnapshotDeletingProp \/ key = CloneSnapshotReapingProp ->
  (forall n, wf (σ n)) -> (forall n n', (n <= n')%nat -> c_now (σ n) <= c_now (σ n')) ->
  marked K key (pre +:+ "@" +:+ format_rfc3339 t) (σ (S m)) -> four_digit_year t ->
  c_now (σ jd) <= t + budget ->
  (forall gap, cl_gap cl = Some gap -> budget + gap + cl_skew cl + second <= snapshotDeletingMarkTTL) -> cl_gap cl <> None ->
  runs cl σ i (RestoreSourceWithdrawn src name) tr j None ->
  (i <= m)%nat.
Proof using All.
  intros HK Hkey Hwf Hclock Hm Ht Hb Hgap Hp Hr. apply check_passes in Hr as (r & n & sn & now & Hr & Hpr & Hsn & Hf & Hnow & Hlr & Hld); [|done].
  destruct (decide (r <= m)%nat) as [?|Hrm]; [lia|exfalso].
  destruct (decide (r <= jd)%nat) as [Hrj|Hrj].
  - destruct (still_marked _ r ltac:(lia) Hm) as (sn' & Hsn' & Hmk). rewrite HK in Hsn'. simplify_eq.
    assert (now - t `div` second * second < snapshotDeletingMarkTTL) as Hlive.
    { unfold prompt in Hpr. destruct (cl_gap cl) as [gap|] eqn:Eg; [|done]. specialize (Hgap _ eq_refl).
      pose proof (Hclock r jd ltac:(lia)). pose proof (Z.mod_pos_bound t second ltac:(done)). pose proof (Z.div_mod t second ltac:(done)). lia. }
    destruct Hkey as [-> | ->]; [unfold deletingMarkIsLive in Hld; rewrite Hmk, mark_age in Hld by done
                                |unfold reapingMarkIsLive in Hlr; rewrite Hmk, mark_age in Hlr by done];
      by rewrite bool_decide_eq_true_2 in * by done.
  - pose proof (stays_gone r ltac:(lia)) as Hg. rewrite HK in Hg. apply Hg in Hsn. congruence.
Qed.

End window.

(** ** The delete *)

Lemma depends_fold src src' n n' d s : fold src' = fold src -> fold n' = fold n ->
  depends (src +:+ ":" +:+ n) d s -> depends (src' +:+ ":" +:+ n') d s.
Proof.
  intros Hs Hn (rd & Hl & Hm & Hf). exists rd. split_and!; [done| |done]. rewrite equal_fold_fold in *. rewrite Hm, !fold_app. congruence.
Qed.

Definition deletes_of (e : event) : Prop := exists a b, ev_call e = DeleteSnapshotCall a b.

(** What a withdrawal promises from the moment its mark is on. *)
Record withdraws (σ : execution) (K : string * string) (key : string) (i : nat) (tr : list event) (e : event)
    (src name : string) (mk : nat) (t : Z) (pre : string) : Prop := mkWithdraws {
  wd_order : (i <= mk < ev_at e)%nat;
  wd_marked : marked K key (pre +:+ "@" +:+ format_rfc3339 t) (σ (S mk));
  wd_before : forall n, (mk < n < ev_at e)%nat -> n ∈ ev_at <$> tr -> c_snaps (σ (S n)) = c_snaps (σ n);
  wd_after : forall n, (ev_at e < n)%nat -> n ∈ ev_at <$> tr -> edits_props (σ n) (σ (S n));
  wd_releases : forall d, ~ (forall n, (mk < n <= ev_at e)%nat -> depends (src +:+ ":" +:+ name) d (σ n));
}.

Lemma delete_marked_event cl σ src n mark i tr j r e :
  runs cl σ i (delete_marked src n mark) tr j r -> e ∈ tr -> deletes_of e -> ev_call e = DeleteSnapshotCall src n.
Proof.
  intros Hr He (a & b & Hc).
  assert (only (fun c => match c with DeleteSnapshotCall a b => a = src /\ b = n | _ => True end) (delete_marked src n mark)) as Ho.
  { unfold delete_marked, releaseRestoreSource, keepSnapshot, keep, dropDeletingMark, drop_mark. reads; try done.
    generalize (rd_Name <$> dependents_of (src +:+ ":" +:+ n) a0). intros l. induction l as [|x l IH]; cbn [release_all]; [done|].
    unfold releaseRestoreMarker. reads; try done. pose proof (RestoreMarkerClearRefusal_reads x) as H.
    induction (RestoreMarkerClearRefusal x) as [y|c k IHk]; cbn in *; [done|]. destruct H as [H1 H2]. split; [by destruct c|auto]. }
  pose proof (runs_only _ _ _ _ _ _ _ _ _ Ho Hr He) as H. rewrite Hc in *. by destruct H as [-> ->].
Qed.

Lemma tail_deletes cl σ {A} (m : prog A) i tr1 n a tr2 e :
  only no_delete m -> runs cl σ i m tr1 n a -> e ∈ tr1 ++ tr2 -> deletes_of e -> e ∈ tr2.
Proof.
  intros Hm Hr [He|?]%elem_of_app (x & y & Hc); [|done].
  pose proof (runs_only _ _ _ _ _ _ _ _ _ Hm Hr He) as H. by rewrite Hc in H.
Qed.

Lemma reads_no_delete {A} (p : prog A) : only is_read p -> only no_delete p.
Proof. induction p as [a|c k IH]; cbn; [done|]. intros [Hc Hk]. split; [by destruct c|auto]. Qed.

(** What a run did before does not take the promise back. *)
Lemma withdraws_prefix cl σ {A} (m : prog A) K key i tr1 n a tr2 e src name mk t pre :
  runs cl σ i m tr1 n a -> withdraws σ K key n tr2 e src name mk t pre ->
  withdraws σ K key i (tr1 ++ tr2) e src name mk t pre.
Proof.
  intros Hr [Ho Hm Hb Ha Hrel]. destruct (runs_bounds _ _ _ _ _ _ _ Hr) as [Hin Hbd].
  assert (forall x, (n <= x)%nat -> x ∈ ev_at <$> tr1 ++ tr2 -> x ∈ ev_at <$> tr2) as Htail.
  { intros x Hx. rewrite fmap_app, elem_of_app. intros [(ev & -> & Hev)%list_elem_of_fmap|?]; [|done]. apply Hbd in Hev. lia. }
  apply mkWithdraws; [lia|done| | |done].
  - intros x Hx Hin'. apply Hb; [done|]. apply Htail; [lia|done].
  - intros x Hx Hin'. apply Ha; [done|]. apply Htail; [lia|done].
Qed.

Lemma runs_ask_now cl σ i tr j t : runs cl σ i (ask Now) tr j t ->
  exists n, (i <= n)%nat /\ j = S n /\ c_now (σ n) - cl_skew cl <= t <= c_now (σ n) + cl_skew cl.
Proof. intros (n & _ & Hi & -> & _ & Ht)%runs_ask. exists n. by apply takes_now in Ht. Qed.

(** The mark, then a run that leaves the snapshots alone up to its one delete. *)
Lemma withdraws_mark cl σ K key i mk c a tr e src name t pre src' name' :
  (i <= mk)%nat -> marked K key (pre +:+ "@" +:+ format_rfc3339 t) (σ (S mk)) ->
  deletes_once cl σ src' name' (S mk) tr (ev_at e) ->
  (forall d, ~ (forall n, (mk < n <= ev_at e)%nat -> depends (src +:+ ":" +:+ name) d (σ n))) ->
  withdraws σ K key i (Ev mk c a :: tr) e src name mk t pre.
Proof.
  intros Hi Hm (Ho & Hb & Ha) Hrel. apply mkWithdraws; [lia|done| | |done];
    intros k Hk [->|Hin]%elem_of_cons; cbn in *; (lia || (by apply Hb; [lia|]) || by apply Ha).
Qed.

Lemma DeleteSnapshot_withdraws cl σ src name i tr j r e :
  (forall n, wf (σ n)) -> runs cl σ i (DeleteSnapshot src name) tr j r -> e ∈ tr -> deletes_of e ->
  exists mk t pre, withdraws σ (fold src, fold name) SnapshotDeletingProp i tr e src name mk t pre
    /\ exists n, (i <= n)%nat /\ c_now (σ n) - cl_skew cl <= t <= c_now (σ n) + cl_skew cl.
Proof.
  intros Hwf. unfold DeleteSnapshot. intros (sn & n0 & tr0 & tr1 & -> & Hu & Hk)%runs_bind He Hd.
  eapply tail_deletes in He; [|apply reads_no_delete, uncachedSnapshot_reads|exact Hu|done].
  destruct sn as [sn|x]; [|destruct Hk as (-> & _); by apply elem_of_nil in He].
  apply runs_bind in Hk as (token & n1 & tr2 & tr3 & -> & Ht & Hk). eapply tail_deletes in He; [| |exact Ht|done]; [|reads].
  apply runs_bind in Hk as (t & n2 & tr4 & tr5 & -> & Hn & Hk). eapply tail_deletes in He; [| |exact Hn|done]; [|reads].
  apply runs_bind in Hk as (set & n3 & tr6 & tr7 & -> & Hs & Hk). eapply tail_deletes in He; [| |exact Hs|done]; [|unfold setDeletingMark; reads].
  destruct set as [u|x]; [|destruct Hk as (-> & _); by apply elem_of_nil in He].
  pose proof (delete_marked_event _ _ _ _ _ _ _ _ _ _ Hk He Hd) as Hc.
  destruct (delete_marked_deletes _ _ _ _ _ _ _ _ _ _ Hwf Hk He Hc) as [Hone Hrel].
  pose proof Hu as Hu'. apply uncachedSnapshot_finds in Hu' as (r0 & _ & _ & _ & Hl); [|done].
  apply (wf_snap _ (Hwf r0)) in Hl. injection Hl as Hl1 Hl2.
  pose proof (runs_ask_now _ _ _ _ _ _ Hn) as (nn & Hnn & -> & Hclk).
  pose proof Hs as Hs'. apply runs_ask in Hs' as (mk & -> & Hmk & -> & _ & Htk). apply takes_told in Htk. cbn in Htk.
  destruct Htk as (x & p & Hx & [= <-] & Hst).
  destruct (runs_bounds _ _ _ _ _ _ _ Ht) as [Hn01 _]. destruct (runs_bounds _ _ _ _ _ _ _ Hu) as [Hi0 _].
  exists mk, t, token. split; [|exists nn; split; [lia|done]].
  do 3 (eapply withdraws_prefix; [eassumption|]). eapply withdraws_mark; [done| |exact Hone|].
  - rewrite Hst, Hl1, Hl2. eexists. cbn [c_snaps set_snaps]. rewrite lookup_insert_eq. split; [done|]. by cbn [with_snap_props snap_Props]; rewrite get_insert.
  - intros d Hdep. apply (Hrel d). intros k Hk'. eapply depends_fold; [symmetry; exact Hl1|symmetry; exact Hl2|]. apply Hdep. lia.
Qed.

(** ** The reap *)

Lemma no_dependents src n d s rds : wf s -> rds ≡ₚ (map_to_list (c_rds s)).*2 -> restoredFrom rds src n = [] -> ~ depends (src +:+ ":" +:+ n) d s.
Proof.
  intros Hwf Hp Hn (rd & Hl & Hm & _). assert (rd_Name rd ∈ restoredFrom rds src n) as Hin; [|rewrite Hn in Hin; by apply elem_of_nil in Hin].
  apply list_elem_of_fmap. exists rd. split; [done|]. apply list_elem_of_filter. split; [done|]. rewrite Hp.
  apply list_elem_of_fmap. exists (fold d, rd). by rewrite elem_of_map_to_list.
Qed.

Lemma keepCloneSnapshot_no_delete ref mark why : only no_delete (keepCloneSnapshot ref mark why).
Proof. apply keep_no_delete. Qed.

(** What a reap does once its mark is on. *)
Definition reap_marked (ref : ClonedSnapshotRef) (mark : string) : prog (option error) :=
  definitions ← ask ListRDsUncached;
  match definitions with
  | Err e => keepCloneSnapshot ref mark e
  | Ok definitions =>
      if negb (bool_decide (restoredFrom definitions (ref_Source ref) (ref_Snapshot ref) = []))
      then keepCloneSnapshot ref mark [ErrCloneSnapshotInUse]
      else
        r ← ask (DeleteSnapshotCall (ref_Source ref) (ref_Snapshot ref));
        match r with
        | Ok _ => Ret None
        | Err e => if Is e ErrNotFound then Ret None else keepCloneSnapshot ref mark e
        end
  end.

Lemma reap_marked_deletes cl σ ref mark i tr j r e :
  (forall k, wf (σ k)) -> runs cl σ i (reap_marked ref mark) tr j r -> e ∈ tr -> deletes_of e ->
  deletes_once cl σ (ref_Source ref) (ref_Snapshot ref) i tr (ev_at e)
  /\ forall d, ~ (forall k, (i <= k <= ev_at e)%nat -> depends (ref_Source ref +:+ ":" +:+ ref_Snapshot ref) d (σ k)).
Proof.
  intros Hwf. unfold reap_marked. intros (rds & n0 & tr1 & tr2 & -> & Hr & Hk)%runs_bind He Hd.
  pose proof He as He2. eapply tail_deletes in He2; [| |exact Hr|done]; [|reads].
  assert (forall x, e ∈ tr2 -> runs cl σ n0 (keepCloneSnapshot ref mark x) tr2 j r -> False) as Hkeep.
  { intros x He' H. destruct Hd as (y & z & Hc). pose proof (runs_only _ _ _ _ _ _ _ _ _ (keepCloneSnapshot_no_delete _ _ _) H He') as Hs. by rewrite Hc in Hs. }
  destruct rds as [rds|x]; [|by apply Hkeep in Hk]. case_bool_decide as Hnone; cbn [negb] in Hk; [|by apply Hkeep in Hk].
  assert (ev_call e = DeleteSnapshotCall (ref_Source ref) (ref_Snapshot ref)) as Hc.
  { destruct Hd as (y & z & Hc). pose proof Hk as (x & n1 & tr3 & tr4 & -> & Ha & Hk')%runs_bind.
    apply runs_ask in Ha as (q & -> & _). apply elem_of_app in He2 as [->%list_elem_of_singleton|He2]; [done|].
    assert (only no_delete match x with Ok _ => Ret None | Err e0 => if Is e0 ErrNotFound then Ret None else keepCloneSnapshot ref mark e0 end) as Ho
      by (destruct x as [|x]; [done|]; destruct (Is x ErrNotFound); [done|apply keepCloneSnapshot_no_delete]).
    pose proof (runs_only _ _ _ _ _ _ _ _ _ Ho Hk' He2) as Hs. by rewrite Hc in Hs. }
  eapply deletes_once_intro in He as [Hdel Hn0]; [| | |exact Hr|exact Hk|done]; [|reads|
    intros [|x]; [done|]; destruct (Is x ErrNotFound); [done|apply keepCloneSnapshot_no_delete]].
  split; [done|]. intros d Hdep. apply runs_ask in Hr as (l & -> & Hl & -> & _ & Htk). apply takes_told in Htk as [_ Htk].
  eapply (no_dependents _ _ d (σ l)); [done|exact Htk|exact Hnone|]. apply Hdep. lia.
Qed.

Lemma ReapClonedSnapshot_withdraws cl σ ref i tr j r e :
  (forall n, wf (σ n)) -> runs cl σ i (ReapClonedSnapshot ref) tr j r -> e ∈ tr -> deletes_of e ->
  exists mk t pre, withdraws σ (fold (ref_Source ref), fold (ref_Snapshot ref)) CloneSnapshotReapingProp i tr e (ref_Source ref) (ref_Snapshot ref) mk t pre
    /\ exists n, (i <= n)%nat /\ c_now (σ n) - cl_skew cl <= t <= c_now (σ n) + cl_skew cl.
Proof.
  intros Hwf. unfold ReapClonedSnapshot. destruct (_ || _); [intros (-> & _) He; by apply elem_of_nil in He|].
  intros (t & n0 & tr0 & tr1 & -> & Hn & Hk)%runs_bind He Hd. eapply tail_deletes in He; [| |exact Hn|done]; [|reads].
  apply runs_bind in Hk as (token & n1 & tr2 & tr3 & -> & Ht & Hk). eapply tail_deletes in He; [| |exact Ht|done]; [|reads].
  apply runs_bind in Hk as (set & n3 & tr6 & tr7 & -> & Hs & Hk). eapply tail_deletes in He; [| |exact Hs|done]; [|unfold setReapingMark; reads].
  destruct set as [u|x]; [|destruct Hk as (-> & _); by apply elem_of_nil in He].
  destruct (reap_marked_deletes _ _ _ _ _ _ _ _ _ Hwf Hk He Hd) as [Hone Hrel].
  unfold setReapingMark in Hs. apply runs_bind in Hs as (t2 & n4 & tr8 & tr9 & -> & Hn2 & Hs).
  pose proof (runs_ask_now _ _ _ _ _ _ Hn) as (nn & Hnn & -> & Hclk).
  apply runs_ask in Hs as (mk & -> & Hmk & -> & _ & Htk). apply takes_told in Htk. cbn in Htk.
  destruct Htk as (x & p & Hx & Hp & Hst). unfold set_reaping_mutate in Hp. destruct (_ && _); [done|]. injection Hp as <-.
  exists mk, t, (ref_Clone ref +:+ "#" +:+ token). split; [|by exists nn].
  rewrite <- (app_assoc tr8). do 3 (eapply withdraws_prefix; [eassumption|]). eapply withdraws_mark; [done| |exact Hone|].
  - rewrite Hst. eexists. cbn [c_snaps set_snaps]. rewrite lookup_insert_eq. split; [done|]. cbn [with_snap_props snap_Props].
    rewrite get_insert. unfold newReapingMark. by rewrite !StrFacts.app_assoc.
  - intros d Hdep. apply (Hrel d). intros k Hk'. apply Hdep. lia.
Qed.

(** ** The protocol *)

(** The two ways a snapshot is withdrawn, and the mark of each. *)
Definition withdrawal (src name : string) (p : prog (option error)) (key : string) : Prop :=
  p = DeleteSnapshot src name /\ key = SnapshotDeletingProp
  \/ exists clone, p = ReapClonedSnapshot (mkRef src name clone) /\ key = CloneSnapshotReapingProp.

(** A client that has the budget of a delete or a reap from the step it starts at. *)
Definition budgeted (cl : client) (σ : execution) (i : nat) : Prop :=
  cl_deadline cl = Some (c_now (σ i) + snapshotDeleteBudget) \/ cl_deadline cl = Some (c_now (σ i) + cloneSnapshotReapBudget).

Lemma withdrawal_withdraws cl σ src name p key i tr j r e :
  withdrawal src name p key -> (forall n, wf (σ n)) -> runs cl σ i p tr j r -> e ∈ tr -> deletes_of e ->
  exists mk t pre, withdraws σ (fold src, fold name) key i tr e src name mk t pre
    /\ exists n, (i <= n)%nat /\ c_now (σ n) - cl_skew cl <= t <= c_now (σ n) + cl_skew cl.
Proof.
  intros [[-> ->]|(clone & -> & ->)] Hwf Hr He Hd; [by eapply DeleteSnapshot_withdraws|].
  by apply (ReapClonedSnapshot_withdraws _ _ (mkRef src name clone) _ _ _ _ _ Hwf Hr He Hd).
Qed.

Lemma effect_in_time cl σ {A} (p : prog A) i tr j r e (P : cluster -> Prop) :
  runs cl σ i p tr j r -> e ∈ tr -> ~ P (σ (ev_at e)) -> P (σ (S (ev_at e))) -> in_time cl (σ (ev_at e)).
Proof. intros Hr He Hn Hy. destruct (runs_takes _ _ _ _ _ _ _ _ Hr He) as [[? _]|[_ E]]; [done|]. by rewrite E in Hy. Qed.

(** C15: when a snapshot is deleted or reaped while it is restored from, the restore notices: a delete
    that took the snapshot away and a check by a restore whose definition names the snapshot from
    before the check until after the delete do not both succeed. The two run on different machines,
    at the granularity of single store calls and under any interleaving with clients that leave
    the mark of the delete alone and make no new snapshot of the name, with calls that fail before
    or after they took effect, as long as the restore is not held up between its read and its clock
    for so long, and the clocks are not so far apart, that the mark runs out ahead of the budget. *)
Theorem restore_or_delete_notices σ src name p key clD iD trD jD rD e clR iR trR jR rR d gap :
  withdrawal src name p key ->
  (forall n, wf (σ n)) ->
  (forall n n', (n <= n')%nat -> c_now (σ n) <= c_now (σ n')) ->
  (forall n t, c_now (σ n) - cl_skew clD <= t <= c_now (σ n) + cl_skew clD -> four_digit_year t) ->
  runs clD σ iD p trD jD rD -> budgeted clD σ iD -> e ∈ trD -> deletes_of e ->
  (forall n, (iD <= n)%nat -> n ∉ ev_at <$> trD -> leaves_snapshot (fold src, fold name) key (σ n) (σ (S n))) ->
  ~ gone (fold src, fold name) (σ (ev_at e)) -> gone (fold src, fold name) (σ (S (ev_at e))) ->
  runs clR σ iR (RestoreSourceWithdrawn src name) trR jR rR ->
  cl_gap clR = Some gap -> gap + cl_skew clR + cl_skew clD + second + snapshotDeleteBudget <= snapshotDeletingMarkTTL ->
  (forall n, (iR <= n <= ev_at e)%nat -> depends (src +:+ ":" +:+ name) d (σ n)) ->
  rR <> None.
Proof.
  intros Hp Hwf Hclock Hyear HD Hbud He Hdel Hothers Hthere Htaken HR Hgap Hsum Hdep ->.
  destruct (withdrawal_withdraws _ _ _ _ _ _ _ _ _ _ _ Hp Hwf HD He Hdel) as (mk & t & pre & [Ho Hm Hb Ha Hrel] & n & Hn & Ht).
  assert (iR <= mk)%nat as Hearly.
  { eapply (check_after_mark σ _ key (ev_at <$> trD) mk (ev_at e));
      [lia|intros k Hk; apply Hothers; lia|done|done|done|done|reflexivity| |done|done|exact Hm|by eapply Hyear| | | |exact HR].
    - destruct Hp as [[_ ->]|(clone & _ & ->)]; auto.
    - instantiate (1 := cl_skew clD + snapshotDeleteBudget).
      pose proof (effect_in_time _ _ _ _ _ _ _ _ _ HD He Hthere Htaken) as Hin. unfold in_time in Hin. pose proof (Hclock iD n ltac:(lia)).
      destruct Hbud as [Hbud|Hbud]; rewrite Hbud in Hin; change cloneSnapshotReapBudget with snapshotDeleteBudget in *; lia.
    - intros g Hg. simplify_eq. lia.
    - by rewrite Hgap. }
  apply (Hrel d). intros k Hk. apply Hdep. lia.
Qed.
