(* ===== verification/RestoreExamples.v ===== *)
(** * Executions of the restore bookkeeping

    A scheduler for programs over the store at its best: it plays a list of turns, and the states it
    passes through are an execution in the sense of [Calls.runs]. With it, the race theorems are
    applied to concrete interleavings, and one interleaving they exclude is shown to go wrong: two
    deletes of one snapshot. *)

From Stdlib Require Import Ascii.
From S2P Require Import Prelude Api GoStrings GoTime Dispatcher LocalProps Prog Calls Restore RestoreRaces RestoreDeletes.

(** ** Playing turns *)

Definition program : Type := prog (option error).

(** A turn of one of the programs, or a step of somebody else. *)
Inductive turn := Turn (k : nat) | World (f : cluster -> cluster).

(** Every program draws its own text. *)
Definition token_of (k : nat) : string := String (Ascii.ascii_of_nat (97 + k)) "".

Definition play_turn (t : turn) (ps : list program) (s : cluster) : list program * cluster :=
  match t with
  | World f => (ps, f s)
  | Turn k => match ps !! k with
              | Some (Do c f) => let '(a, s') := serve_best (token_of k) s c in (<[k := f a]> ps, s')
              | _ => (ps, s)
              end
  end.

Fixpoint after (ts : list turn) (ps : list program) (s : cluster) : list program * cluster :=
  match ts with
  | [] => (ps, s)
  | t :: ts => let r := play_turn t ps s in after ts r.1 r.2
  end.

(** The states played through; the last one stays. *)
Definition played (ts : list turn) (ps : list program) (s : cluster) : execution := fun n => (after (take n ts) ps s).2.

(** The steps of one of the programs. *)
Definition event_of (k n : nat) (t : turn) (ps : list program) (s : cluster) : list event :=
  match t with
  | World _ => []
  | Turn k' => if decide (k' = k)
               then match ps !! k with Some (Do c f) => [Ev n c (serve_best (token_of k) s c).1] | _ => [] end
               else []
  end.

Fixpoint trace (k n : nat) (ts : list turn) (ps : list program) (s : cluster) : list event :=
  match ts with
  | [] => []
  | t :: ts => let r := play_turn t ps s in event_of k n t ps s ++ trace k (S n) ts r.1 r.2
  end.

Lemma after_app ts ts' ps s : after (ts ++ ts') ps s = after ts' (after ts ps s).1 (after ts ps s).2.
Proof. revert ps s. induction ts as [|t ts IH]; intros ps s; cbn; [by destruct (after ts' ps s)|]. apply IH. Qed.

Section playing.
Context (cl : client) (σ : execution) (k : nat).
Hypothesis Hskew : 0 <= cl_skew cl.
Hypothesis Hprompt : forall n n', prompt cl (σ n) (σ n').
Hypothesis Htime : forall n, in_time cl (σ n).

Lemma play_runs ts ps s n i p r :
  (forall m, σ (n + m)%nat = (after (take m ts) ps s).2) -> (i <= n)%nat ->
  ps !! k = Some p -> (after ts ps s).1 !! k = Some (Ret r) ->
  exists j, (j <= n + length ts)%nat /\ runs cl σ i p (trace k n ts ps s) j r.
Proof using Hskew Hprompt Htime.
  revert ps s n i p. induction ts as [|t ts IH]; intros ps s n i p Hσ Hi Hp Hr; cbn [after trace] in *.
  { cbn in Hr. simplify_eq. exists i. split; [cbn; lia|done]. }
  assert (forall m, σ (S n + m)%nat = (after (take m ts) (play_turn t ps s).1 (play_turn t ps s).2).2) as Hσ'.
  { intros m. specialize (Hσ (S m)). rewrite Nat.add_succ_r in Hσ. exact Hσ. }
  assert (event_of k n t ps s = [] -> (play_turn t ps s).1 !! k = Some p -> exists j, (j <= n + length (t :: ts))%nat /\
    runs cl σ i p (event_of k n t ps s ++ trace k (S n) ts (play_turn t ps s).1 (play_turn t ps s).2) j r) as Hskip.
  { intros -> Hp'. destruct (IH _ _ (S n) i _ Hσ' ltac:(lia) Hp' Hr) as (j & Hj & H). exists j. split; [cbn; lia|done]. }
  destruct t as [k'|f]; [|by apply Hskip]. cbn [play_turn event_of] in *. destruct (decide (k' = k)) as [->|Hne].
  - rewrite Hp in *. destruct p as [x|c f]; [by apply Hskip|]. specialize (Hσ 1%nat) as H1. specialize (Hσ 0%nat) as H0. cbn in H0, H1. rewrite Hp in H1.
    rewrite Nat.add_0_r in H0. rewrite Nat.add_1_r in H1.
    destruct (serve_best (token_of k) s c) as [a s'] eqn:E. cbn [fst snd] in *.
    destruct (IH (<[k:=f a]> ps) s' (S n) (S n) (f a) Hσ') as (j & Hle & Hj); [lia|by rewrite list_lookup_insert_eq by by eapply lookup_lt_Some|done|].
    exists j. split; [cbn; lia|]. cbn. exists n, a, (trace k (S n) ts (<[k:=f a]> ps) s'). split_and!; [done|done| |done|done].
    left. split; [done|]. rewrite H0, H1. cbn. pose proof (serve_best_serves (cl_skew cl) (token_of k) s c Hskew) as Hs. by rewrite E in Hs.
  - apply Hskip; [done|]. destruct (ps !! k') as [[x|c f]|]; [done| |done].
    destruct (serve_best (token_of k') s c) as [a s']. cbn. by rewrite list_lookup_insert_ne.
Qed.

End playing.

(** A program whose turns start at step [i]. *)
Definition trace_from (k i : nat) (ts : list turn) (ps : list program) (s : cluster) : list event :=
  trace k i (drop i ts) (after (take i ts) ps s).1 (after (take i ts) ps s).2.

Lemma played_runs cl k i ts ps s p r :
  0 <= cl_skew cl -> (forall n n', prompt cl (played ts ps s n) (played ts ps s n')) -> (forall n, in_time cl (played ts ps s n)) ->
  (after (take i ts) ps s).1 !! k = Some p -> (after ts ps s).1 !! k = Some (Ret r) -> (i <= length ts)%nat ->
  exists j, (j <= length ts)%nat /\ runs cl (played ts ps s) i p (trace_from k i ts ps s) j r.
Proof.
  intros Hs Hp Ht Hk Hr Hi. unfold trace_from.
  replace (length ts) with (i + length (drop i ts))%nat by (rewrite length_drop; lia). eapply play_runs; [done|done|done| |done|done|].
  - intros m. unfold played. rewrite <- after_app. do 2 f_equal. rewrite <- (take_drop i ts) at 1.
    rewrite take_app_ge by (rewrite length_take; lia). by rewrite length_take, Nat.min_l, Nat.add_sub' by done.
  - by rewrite <- after_app, take_drop.
Qed.

(** ** Checking all states *)

Lemma played_end ts ps s n : played ts ps s n = played ts ps s (Nat.min n (length ts)).
Proof.
  unfold played. do 2 f_equal. destruct (decide (n <= length ts)%nat); [by rewrite Nat.min_l|]. rewrite Nat.min_r by lia. by rewrite !take_ge by lia.
Qed.

Lemma played_all (P : cluster -> bool) i ts ps s :
  (i <= length ts)%nat -> forallb (fun n => P (played ts ps s n)) (seq i (S (length ts) - i)) = true ->
  forall n, (i <= n)%nat -> P (played ts ps s n) = true.
Proof. intros Hi H n Hn. rewrite played_end. rewrite forallb_forall in H. apply H, in_seq. lia. Qed.

Definition wf_bool (s : cluster) : bool :=
  forallb (fun '(k, sn) => bool_decide (k = (fold (snap_ResourceName sn), fold (snap_Name sn)))) (map_to_list (c_snaps s))
  && forallb (fun '(k, rd) => bool_decide (k = fold (rd_Name rd))) (map_to_list (c_rds s)).

Lemma wf_bool_wf s : wf_bool s = true -> wf s.
Proof.
  unfold wf_bool. rewrite andb_true_iff, !forallb_forall. intros [Hs Hr]. split; intros k x Hx%elem_of_map_to_list%list_elem_of_In.
  - apply Hs in Hx. by apply bool_decide_eq_true in Hx.
  - apply Hr in Hx. by apply bool_decide_eq_true in Hx.
Qed.

Definition depends_bool (marker d : string) (s : cluster) : bool :=
  match c_rds s !! fold d with
  | Some rd => Str.equal_fold (prop rd RestoreFromSnapshotProp) marker && negb (deleting (rd_Flags rd))
  | None => false
  end.
Lemma depends_bool_depends marker d s : depends_bool marker d s = true -> depends marker d s.
Proof.
  unfold depends_bool, depends. destruct (c_rds s !! fold d) as [rd|]; [|done]. rewrite andb_true_iff, negb_true_iff. intros [??]. eauto.
Qed.

Definition gone_bool (K : string * string) (s : cluster) : bool :=
  match c_snaps s !! K with Some sn => Contains (snap_Flags sn) SnapshotFlagDelete | None => true end.
Lemma gone_bool_gone K s : gone_bool K s = true <-> gone K s.
Proof. unfold gone_bool, gone. destruct (c_snaps s !! K) as [sn|]; [|done]. split; [by intros ? ? [= <-]|by intros ->]. Qed.

Definition leaves_bool (K : string * string) (key : string) (s s' : cluster) : bool :=
  match c_snaps s !! K, c_snaps s' !! K with
  | Some sn, Some sn' => bool_decide (get (snap_Props sn') key = get (snap_Props sn) key)
      && implb (Contains (snap_Flags sn) SnapshotFlagDelete) (Contains (snap_Flags sn') SnapshotFlagDelete)
  | None, Some _ => false
  | _, None => true
  end.
Lemma leaves_bool_leaves K key s s' : leaves_bool K key s s' = true -> leaves_snapshot K key s s'.
Proof.
  unfold leaves_bool, leaves_snapshot. destruct (c_snaps s !! K), (c_snaps s' !! K); try done.
  rewrite andb_true_iff, bool_decide_eq_true, implb_true_iff. done.
Qed.

(** ** A snapshot, its definition, and a restore from it *)

Definition example_rd (name : string) (props : gmap string string) : ResourceDefinition :=
  mkResourceDefinition name "" "" props None [] [] [] "" [] ∅.
Definition example_snap : Snapshot := mkSnapshot "snap" "src" [] ∅ None [] [] [] ∅ ∅ "" "" 0.
Definition example_now : Z := 1700000000 * second.
Definition example_start : cluster :=
  mkCluster {["src" := example_rd "src" ∅]} {[("src", "snap") := example_snap]} ∅ ∅ example_now.

(** The restore writes its definition, which names the snapshot it is to be filled from. *)
Definition restore_begins (s : cluster) : cluster :=
  set_rds s (<["new" := example_rd "new" {[RestoreFromSnapshotProp := "src:snap"]}]> (c_rds s)).

(** Clocks that agree and stand still; a client with a deadline, and one that is prompt. *)
Definition example_deleter : client := mkClient 0 None (Some (example_now + snapshotDeleteBudget)).
Definition example_restorer : client := mkClient 0 (Some 0) None.

Definition stands_still (σ : execution) : Prop := forall n, c_now (σ n) = example_now.
Lemma still_prompt σ n n' : stands_still σ -> prompt example_restorer (σ n) (σ n').
Proof. intros H. cbn. rewrite !H. lia. Qed.
Lemma still_in_time σ n : stands_still σ -> in_time example_deleter (σ n).
Proof. intros H. cbn. rewrite !H. done. Qed.

(** ** Two deletes of one snapshot

    The first marks the snapshot and finds nothing restored from it; a restore begins; the second
    overwrites the mark, finds the restore, and takes its mark off again; the restore looks at the
    snapshot and finds no mark; the first deletes it. *)

Definition two_deletes_programs : list program :=
  [DeleteSnapshot "src" "snap"; DeleteSnapshot "src" "snap"; RestoreSourceWithdrawn "src" "snap"].
Definition two_deletes_turns : list turn :=
  repeat (Turn 0) 6 ++ [World restore_begins] ++ repeat (Turn 1) 10 ++ repeat (Turn 2) 3 ++ [Turn 0].
Definition two_deletes : execution := played two_deletes_turns two_deletes_programs example_start.

Lemma two_deletes_still : stands_still two_deletes.
Proof.
  intros n. apply Z.eqb_eq, (played_all (fun s => c_now s =? example_now) 0); [cbn; lia|by vm_compute|lia].
Qed.

(** Two deletes of one snapshot undo the protection against a restore that runs at the same time:
    a delete writes its mark over the one another delete has put on, and takes it off again when it
    keeps the snapshot, so the other deletes a snapshot that a restore has just been told it can use;
    the definition it leaves behind still waits for it. *)
Theorem two_deletes_strand_a_restore :
  exists tr1 tr2 trR j1 j2 jR,
    runs example_deleter two_deletes 0%nat (DeleteSnapshot "src" "snap") tr1 j1 None
    /\ runs example_deleter two_deletes 7%nat (DeleteSnapshot "src" "snap") tr2 j2 (Some [ErrRestoreSourceInUse; ErrRestoreUnfinished])
    /\ runs example_restorer two_deletes 17%nat (RestoreSourceWithdrawn "src" "snap") trR jR None
    /\ ev_at <$> tr1 = [0; 1; 2; 3; 4; 5; 20]%nat
    /\ (forall n, (7 <= n)%nat -> depends "src:snap" "new" (two_deletes n))
    /\ gone ("src", "snap") (two_deletes 21%nat).
Proof.
  exists (trace_from 0 0 two_deletes_turns two_deletes_programs example_start), (trace_from 1 7 two_deletes_turns two_deletes_programs example_start),
    (trace_from 2 17 two_deletes_turns two_deletes_programs example_start).
  pose proof two_deletes_still as Hst.
  destruct (played_runs example_deleter 0 0 two_deletes_turns two_deletes_programs example_start (DeleteSnapshot "src" "snap") None) as (j1 & _ & H1);
    [done|done|intros; by apply still_in_time|done|by vm_compute|cbn; lia|].
  destruct (played_runs example_deleter 1 7 two_deletes_turns two_deletes_programs example_start (DeleteSnapshot "src" "snap")
    (Some [ErrRestoreSourceInUse; ErrRestoreUnfinished])) as (j2 & _ & H2);
    [done|done|intros; by apply still_in_time|done|by vm_compute|cbn; lia|].
  destruct (played_runs example_restorer 2 17 two_deletes_turns two_deletes_programs example_start (RestoreSourceWithdrawn "src" "snap") None) as (jR & _ & HR);
    [done|intros; by apply still_prompt|done|done|by vm_compute|cbn; lia|].
  exists j1, j2, jR. split_and!; [done|done|done|by vm_compute| |apply gone_bool_gone; by vm_compute].
  intros n Hn. apply depends_bool_depends. apply (played_all _ 7); [cbn; lia|by vm_compute|done].
Qed.

(** ** One delete and one restore *)

Definition delete_race_programs : list program := [DeleteSnapshot "src" "snap"; RestoreSourceWithdrawn "src" "snap"].
Definition delete_race_turns : list turn := repeat (Turn 0) 6 ++ [World restore_begins; Turn 0] ++ repeat (Turn 1) 2.
Definition delete_race : execution := played delete_race_turns delete_race_programs example_start.
Definition delete_race_trace : list event := trace_from 0 0 delete_race_turns delete_race_programs example_start.

Lemma delete_race_still : stands_still delete_race.
Proof.
  intros n. apply Z.eqb_eq, (played_all (fun s => c_now s =? example_now) 0); [cbn; lia|by vm_compute|lia].
Qed.

Lemma delete_race_leaves n : n ∉ ev_at <$> delete_race_trace -> leaves_snapshot ("src", "snap") SnapshotDeletingProp (delete_race n) (delete_race (S n)).
Proof.
  assert (ev_at <$> delete_race_trace = [0; 1; 2; 3; 4; 5; 7]%nat) as -> by by vm_compute. intros Hn. destruct (decide (n < 10)%nat) as [Hlt|Hge].
  - apply leaves_bool_leaves.
    assert (forallb (fun n => existsb (Nat.eqb n) [0; 1; 2; 3; 4; 5; 7]%nat
      || leaves_bool ("src", "snap") SnapshotDeletingProp (delete_race n) (delete_race (S n))) (seq 0 10) = true) as H by by vm_compute.
    rewrite forallb_forall in H. specialize (H n ltac:(apply in_seq; lia)). apply orb_true_iff in H as [H|H]; [|done].
    exfalso. apply Hn, list_elem_of_In. apply existsb_exists in H as (x & Hx & ->%Nat.eqb_eq). done.
  - apply leaves_same. unfold delete_race. rewrite (played_end _ _ _ (S n)), (played_end _ _ _ n). by rewrite !Nat.min_r by (cbn; lia).
Qed.

Lemma restore_or_delete_notices_witness :
  exists j jR answer,
    runs example_deleter delete_race 0%nat (DeleteSnapshot "src" "snap") delete_race_trace j None
    /\ gone ("src", "snap") (delete_race 8%nat)
    /\ runs example_restorer delete_race 7%nat (RestoreSourceWithdrawn "src" "snap") (trace_from 1 7 delete_race_turns delete_race_programs example_start) jR answer
    /\ answer <> None.
Proof.
  pose proof delete_race_still as Hst.
  destruct (played_runs example_deleter 0 0 delete_race_turns delete_race_programs example_start (DeleteSnapshot "src" "snap") None) as (j & _ & HD);
    [done|done|intros; by apply still_in_time|done|by vm_compute|cbn; lia|].
  destruct (played_runs example_restorer 1 7 delete_race_turns delete_race_programs example_start (RestoreSourceWithdrawn "src" "snap")
    (Some [ErrRestoreSourceWithdrawn; ErrNotFound])) as (jR & _ & HR);
    [done|intros; by apply still_prompt|done|done|by vm_compute|cbn; lia|].
  exists j, jR, (Some [ErrRestoreSourceWithdrawn; ErrNotFound]).
  assert (gone ("src", "snap") (delete_race 8%nat)) as Hg by (apply gone_bool_gone; by vm_compute).
  split; [exact HD|]. split; [exact Hg|]. split; [exact HR|].
  pose (e := nth 6 delete_race_trace (Ev O Now 0)).
  refine (restore_or_delete_notices delete_race "src" "snap" _ SnapshotDeletingProp example_deleter 0 _ j None e example_restorer 7 _ jR _ "new" 0
    (or_introl (conj eq_refl eq_refl)) _ _ _ HD _ _ _ _ _ Hg HR eq_refl _ _).
  - intros n. apply wf_bool_wf, (played_all wf_bool 0); [cbn; lia|by vm_compute|lia].
  - intros n n' _. by rewrite !Hst.
  - intros n t Ht. rewrite Hst in Ht. assert (t = example_now) as -> by (cbn in Ht; lia). by vm_compute.
  - unfold budgeted. rewrite Hst. by left.
  - apply list_elem_of_In, nth_In. vm_compute. lia.
  - by exists "src", "snap".
  - intros n _. apply delete_race_leaves.
  - rewrite <- gone_bool_gone. by vm_compute.
  - by vm_compute.
  - intros n Hn. apply depends_bool_depends. apply (played_all _ 7); [cbn; lia|by vm_compute|lia].
Defined.

(** ** A rollback nobody disturbs *)

Definition rollback_start : cluster := restore_begins example_start.
Definition rollback_programs : list program := [rollback_gate "new" true RollbackStepDeleteDefinition].
Definition rollback_turns : list turn := repeat (Turn 0) 8.
Definition rollback_alone : execution := played rollback_turns rollback_programs rollback_start.

Lemma rollback_spares_adopted_definitions_witness :
  exists n rd, c_rds (rollback_alone n) !! "new" = Some rd /\ mark_on rd = RollbackInProgress /\ adopter_on rd = "".
Proof.
  destruct (played_runs (mkClient 0 None None) 0 0 rollback_turns rollback_programs rollback_start
    (rollback_gate "new" true RollbackStepDeleteDefinition) None) as (j & Hj & H); [done|done|done|done|by vm_compute|cbn; lia|].
  destruct (rollback_spares_adopted_definitions _ _ _ _ _ _ _ _ H) as (n & now & rd & _ & Hl & Hm & Ha & _); [|by exists n, rd].
  intros n Hn Hout. exfalso. apply Hout.
  assert (ev_at <$> trace_from 0 0 rollback_turns rollback_programs rollback_start = seq 0 8) as -> by by vm_compute.
  apply elem_of_seq. cbn in Hj. lia.
Defined.
