(* ===== verification/Snapshots.v ===== *)
(** * Taking a snapshot on several nodes

    Models the two halves of the orchestration of a snapshot: the controller
    ([internal/controller/snapshot_controller.go], [snapshot_timeout.go]), which writes what the
    nodes are to do into the spec of the snapshot object, and the satellite of every node
    ([pkg/satellite/controllers/snapshot.go]), which suspends and resumes the I/O of the resource,
    takes the snapshot, and reports in the status of the same object. Both are programs over the
    API server: reads are answered from a cache, updates are refused when the object has changed. *)

From S2P Require Import Prelude Prog Api DrbdAlloc Kube GoTime GoStrings Dispatcher.

(** ** The object (api/v1alpha1/snapshot_types.go) *)

Record SnapshotPerNodeStatus := mkPerNode {
  pn_NodeName : string;
  pn_CreateTimestamp : Z;
  pn_Ready : bool;
  pn_SuspendIOAcked : bool;
  pn_Failed : bool;
}.

Record SnapshotVolumeRef := mkVolumeRef { vr_VolumeNumber : Z; vr_SizeKib : Z }.

Record SnapshotSpec := mkSnapSpec {
  ss_ResourceDefinitionName : string;
  ss_SnapshotName : string;
  ss_Nodes : list string;
  ss_VolumeDefinitions : list SnapshotVolumeRef;
  ss_SuspendIO : bool;
  ss_TakeSnapshot : bool;
  ss_GroupID : string;
  ss_GroupSize : Z;
}.

Record Condition := mkCondition {
  cond_Type : string;
  cond_Status : string;
  cond_Reason : string;
  cond_Message : string;
  cond_LastTransitionTime : Z;
}.

Record SnapshotStatus := mkSnapStatus {
  sst_NodeStatus : list SnapshotPerNodeStatus;
  sst_Flags : list string;
  sst_Conditions : list Condition;
}.

(** The object, with the version the API server gave it. [None]: the creation time is not set. *)
Record SnapshotCR := mkSnapshotCR {
  sc_Name : string;
  sc_Version : nat;
  sc_Deleting : bool;
  sc_Created : option Z;
  sc_Finalizers : list string;
  sc_Annotations : gmap string string;
  sc_GroupLabel : string;
  sc_Spec : SnapshotSpec;
  sc_Status : SnapshotStatus;
}.

Definition AnnotationSnapshotAdopted : string := "blockstor.io/adopted".
Definition AnnotationSnapshotAdoptedCreatedAt : string := "blockstor.io/adopted-created-at".
Definition SnapshotStatusFlagFailed : string := "FAILED".
Definition SnapshotStatusFlagFailedDisconnect : string := "FAILED_DISCONNECT".
Definition SnapshotStatusConditionType : string := "SnapshotComplete".
Definition SatelliteSnapshotFinalizer : string := "blockstor.cozystack.io/satellite-snapshot".
Definition labelTrueValue : string := "true".
Definition drbdDiskStateUpToDate : string := "UpToDate".

Definition snapshotSuspendDeadline : Z := 2 * 60 * second.
Definition snapshotSuspendRequeueCap : Z := 15 * second.
Definition groupAssembleRequeueAfter : Z := second.
Definition snapshotFinalizerRequeue : Z := second.
Definition snapshotStatusUpdateRetries : nat := 5.

Definition with_flags (sp : SnapshotSpec) (suspendIO takeSnapshot : bool) : SnapshotSpec :=
  mkSnapSpec (ss_ResourceDefinitionName sp) (ss_SnapshotName sp) (ss_Nodes sp) (ss_VolumeDefinitions sp)
    suspendIO takeSnapshot (ss_GroupID sp) (ss_GroupSize sp).
Definition with_snap_spec (x : SnapshotCR) (sp : SnapshotSpec) : SnapshotCR :=
  mkSnapshotCR (sc_Name x) (sc_Version x) (sc_Deleting x) (sc_Created x) (sc_Finalizers x) (sc_Annotations x)
    (sc_GroupLabel x) sp (sc_Status x).
Definition with_snap_status (x : SnapshotCR) (st : SnapshotStatus) : SnapshotCR :=
  mkSnapshotCR (sc_Name x) (sc_Version x) (sc_Deleting x) (sc_Created x) (sc_Finalizers x) (sc_Annotations x)
    (sc_GroupLabel x) (sc_Spec x) st.
Definition with_snap_finalizers (x : SnapshotCR) (fs : list string) : SnapshotCR :=
  mkSnapshotCR (sc_Name x) (sc_Version x) (sc_Deleting x) (sc_Created x) fs (sc_Annotations x)
    (sc_GroupLabel x) (sc_Spec x) (sc_Status x).
Definition with_node_status (st : SnapshotStatus) (entries : list SnapshotPerNodeStatus) : SnapshotStatus :=
  mkSnapStatus entries (sst_Flags st) (sst_Conditions st).

(** ** Calls *)

(** The verdict of the storage of a node on taking a snapshot. *)
Inductive take_answer := Taken (createTimestampUnix : Z) | TakeFailed (terminal : bool).

Inductive scall :=
| GetSnap (name : string)
| ListGroup (groupID : string)
| ListResources
(** [Update] and [Status().Update]: the spec and metadata, or the status, of the object, if its
    version is still the current one. *)
| UpdateSnap (x : SnapshotCR)
| UpdateSnapStatus (x : SnapshotCR)
(** [Apply] of the satellite's configuration. *)
| SuspendResource (rd : string)
| ResumeResource (rd : string)
| FlushBackingDevices (rd : string) (volumes : list Z)
| CreateSnapshotOn (rd snap : string)
| DeleteSnapshotOn (rd snap : string)
| SNow.

Definition sanswer (c : scall) : Type :=
  match c with
  | GetSnap _ => result kerr SnapshotCR
  | ListGroup _ => result kerr (list SnapshotCR)
  | ListResources => result kerr (list ResourceCR)
  | UpdateSnap _ | UpdateSnapStatus _ => result kerr unit
  | SuspendResource _ | ResumeResource _ | FlushBackingDevices _ _ => result kerr unit
  | CreateSnapshotOn _ _ => result kerr take_answer
  | DeleteSnapshotOn _ _ => result kerr bool
  | SNow => Z
  end.

Notation kprog A := (prog sanswer (result kerr A)).
Definition call (c : scall) : prog sanswer (sanswer c) := Do c Ret.
(** [retry.RetryOnConflict(retry.DefaultRetry, body)] *)
Fixpoint retry_on_conflict (steps : nat) (body : kprog unit) : kprog unit :=
  match steps with
  | O => body
  | S n => r ← body;
           match r with
           | Ok _ => done_with tt
           | Err e => if IsConflict e then retry_on_conflict n body else failed_with e
           end
  end.

(** [ctrl.Result] *)
Record ctrl_result := mkResult { Requeue : bool; RequeueAfter : Z }.
Definition no_requeue : ctrl_result := mkResult false 0.
Definition requeue_after (d : Z) : ctrl_result := mkResult false d.

(** ** The controller *)

Module Controller.

(** *** Aggregates *)

(** The last entry of a node counts, as in the map the code builds. *)
Definition by_node (entries : list SnapshotPerNodeStatus) (node : string) : option SnapshotPerNodeStatus :=
  find (fun e => bool_decide (pn_NodeName e = node)) (rev entries).

Definition allTargetsMatch (entries : list SnapshotPerNodeStatus) (targets : list string)
    (pred : SnapshotPerNodeStatus -> bool) : bool :=
  forallb (fun t => match by_node entries t with Some entry => pred entry | None => false end) targets.

Definition allNodesSuspendAcked entries targets : bool := allTargetsMatch entries targets pn_SuspendIOAcked.
Definition allNodesSuspendCleared entries targets : bool := allTargetsMatch entries targets (fun e => negb (pn_SuspendIOAcked e)).
Definition allNodesReady entries targets : bool := allTargetsMatch entries targets pn_Ready.
Definition anyNodeFailed (entries : list SnapshotPerNodeStatus) : bool := existsb pn_Failed entries.

Definition on_nodes (p : list SnapshotPerNodeStatus -> list string -> bool) (x : SnapshotCR) : bool :=
  p (sst_NodeStatus (sc_Status x)) (ss_Nodes (sc_Spec x)).
Definition allSiblingsSuspendAcked (siblings : list SnapshotCR) : bool := forallb (on_nodes allNodesSuspendAcked) siblings.
Definition allSiblingsSuspendCleared (siblings : list SnapshotCR) : bool := forallb (on_nodes allNodesSuspendCleared) siblings.
Definition allSiblingsReady (siblings : list SnapshotCR) : bool := forallb (on_nodes allNodesReady) siblings.
Definition anySiblingFailed (siblings : list SnapshotCR) : bool :=
  existsb (fun x => anyNodeFailed (sst_NodeStatus (sc_Status x))) siblings.

(** *** The deadline (snapshot_timeout.go) *)

Definition inSuspendPhase (snap : SnapshotCR) (siblings : list SnapshotCR) : bool :=
  ss_SuspendIO (sc_Spec snap) && negb (allSiblingsReady siblings).

Definition suspendDeadlineExceeded (snap : SnapshotCR) (now : Z) : bool :=
  match sc_Created snap with
  | None => false
  | Some created => bool_decide (snapshotSuspendDeadline < now - created)
  end.

Definition suspendRequeueAfter (snap : SnapshotCR) (now : Z) : Z :=
  match sc_Created snap with
  | None => snapshotSuspendRequeueCap
  | Some created =>
      let remaining := created + snapshotSuspendDeadline - now in
      if bool_decide (remaining <= 0) then second
      else if bool_decide (remaining < snapshotSuspendRequeueCap) then remaining
      else snapshotSuspendRequeueCap
  end.

(** *** Conditions *)

(** The conditions after the upsert, and whether they changed. *)
Fixpoint setSnapshotCondition (now : Z) (conditions : list Condition) (cond : Condition) : list Condition * bool :=
  match conditions with
  | [] => ([mkCondition (cond_Type cond) (cond_Status cond) (cond_Reason cond) (cond_Message cond) now], true)
  | existing :: rest =>
      if negb (bool_decide (cond_Type existing = cond_Type cond)) then
        let '(rest', changed) := setSnapshotCondition now rest cond in (existing :: rest', changed)
      else if bool_decide (cond_Status existing = cond_Status cond) && bool_decide (cond_Reason existing = cond_Reason cond)
              && bool_decide (cond_Message existing = cond_Message cond) then (conditions, false)
      else
        let at_ := if bool_decide (cond_Status existing = cond_Status cond) then cond_LastTransitionTime existing else now in
        (mkCondition (cond_Type existing) (cond_Status cond) (cond_Reason cond) (cond_Message cond) at_ :: rest, true)
  end.

Definition abort_condition (reason : string) : Condition :=
  mkCondition SnapshotStatusConditionType "False" "Aborted" reason 0.

Definition upsertSnapshotAbortCondition (now : Z) (st : SnapshotStatus) (reason : string) : SnapshotStatus * bool :=
  let '(conds, changed) := setSnapshotCondition now (sst_Conditions st) (abort_condition reason) in
  (mkSnapStatus (sst_NodeStatus st) (sst_Flags st) conds, changed).

Definition add_flag (st : SnapshotStatus) (flag : string) : SnapshotStatus * bool :=
  if Contains (sst_Flags st) flag then (st, false)
  else (mkSnapStatus (sst_NodeStatus st) (sst_Flags st ++ [flag]) (sst_Conditions st), true).

(** *** Writes *)

Definition flip_body (name : string) (suspendIO takeSnapshot : bool) : kprog unit :=
  r ← call (GetSnap name);
  match r with
  | Err e => if IsNotFound e then done_with tt else failed_with e
  | Ok current =>
      if Bool.eqb (ss_SuspendIO (sc_Spec current)) suspendIO && Bool.eqb (ss_TakeSnapshot (sc_Spec current)) takeSnapshot
      then done_with tt
      else call (UpdateSnap (with_snap_spec current (with_flags (sc_Spec current) suspendIO takeSnapshot)))
  end.

Definition maybeFlipSpec (snap : SnapshotCR) (suspendIO takeSnapshot : bool) : kprog ctrl_result :=
  if Bool.eqb (ss_SuspendIO (sc_Spec snap)) suspendIO && Bool.eqb (ss_TakeSnapshot (sc_Spec snap)) takeSnapshot
  then done_with no_requeue
  else
    _ ←! retry_on_conflict DefaultRetry (flip_body (sc_Name snap) suspendIO takeSnapshot);
    done_with no_requeue.

Fixpoint flipGroup (siblings : list SnapshotCR) (suspendIO takeSnapshot : bool) : kprog unit :=
  match siblings with
  | [] => done_with tt
  | x :: rest => _ ←! maybeFlipSpec x suspendIO takeSnapshot; flipGroup rest suspendIO takeSnapshot
  end.

Definition suspendGroup (siblings : list SnapshotCR) : kprog unit := flipGroup siblings true false.
Definition abortGroup (siblings : list SnapshotCR) : kprog unit := flipGroup siblings false false.

Definition stamp_body (name reason : string) : kprog unit :=
  r ← call (GetSnap name);
  match r with
  | Err e => if IsNotFound e then done_with tt else failed_with e
  | Ok current =>
      let '(st1, m1) := add_flag (sc_Status current) SnapshotStatusFlagFailedDisconnect in
      now ← call SNow;
      let '(st2, m2) := upsertSnapshotAbortCondition now st1 reason in
      if m1 || m2 then call (UpdateSnapStatus (with_snap_status current st2)) else done_with tt
  end.

Definition stampSnapshotFailedDisconnect (snap : SnapshotCR) (reason : string) : kprog unit :=
  retry_on_conflict DefaultRetry (stamp_body (sc_Name snap) reason).

Fixpoint stamp_all (siblings : list SnapshotCR) (reason : string) : kprog unit :=
  match siblings with
  | [] => done_with tt
  | x :: rest => _ ←! stampSnapshotFailedDisconnect x reason; stamp_all rest reason
  end.

Definition abortGroupWithReason (siblings : list SnapshotCR) (reason : string) : kprog ctrl_result :=
  _ ←! abortGroup siblings;
  _ ←! stamp_all siblings reason;
  done_with no_requeue.

(** *** The UpToDate gate *)

(** [None]: every observed volume is UpToDate. *)
Definition replicaNotUpToDate (res : ResourceCR) : option string :=
  if existsb (fun v => negb (bool_decide (rvt_DiskState v = "")) && negb (bool_decide (rvt_DiskState v = drbdDiskStateUpToDate)))
       (rst_Volumes (rc_Status res))
  then Some (rs_NodeName (rc_Spec res)) else None.

Definition gated (snap : SnapshotCR) (res : ResourceCR) : bool :=
  bool_decide (rs_ResourceDefinitionName (rc_Spec res) = ss_ResourceDefinitionName (sc_Spec snap))
  && Contains (ss_Nodes (sc_Spec snap)) (rs_NodeName (rc_Spec res))
  && negb (Contains (rs_Flags (rc_Spec res)) ResourceFlagDiskless || Contains (rs_Flags (rc_Spec res)) ResourceFlagTieBreaker).

Fixpoint first_not_up_to_date (snap : SnapshotCR) (l : list ResourceCR) : option string :=
  match l with
  | [] => None
  | res :: rest =>
      if gated snap res then match replicaNotUpToDate res with Some node => Some node | None => first_not_up_to_date snap rest end
      else first_not_up_to_date snap rest
  end.

(** [None]: all are; otherwise a node whose replica is not. *)
Definition siblingReplicasUpToDate (snap : SnapshotCR) : kprog (option string) :=
  l ←! call ListResources; done_with (first_not_up_to_date snap l).

Fixpoint allTargetedReplicasUpToDate (siblings : list SnapshotCR) : kprog (option string) :=
  match siblings with
  | [] => done_with None
  | x :: rest =>
      offending ←! siblingReplicasUpToDate x;
      match offending with Some node => done_with (Some node) | None => allTargetedReplicasUpToDate rest end
  end.

(** *** The phases *)

Record snapshotPhaseDecision := mkDecision { d_SuspendIO : bool; d_TakeSnapshot : bool; d_Advance : bool }.

Definition nextPhase (snap : SnapshotCR) (siblings : list SnapshotCR) : snapshotPhaseDecision :=
  match ss_SuspendIO (sc_Spec snap), ss_TakeSnapshot (sc_Spec snap) with
  | false, false =>
      if allSiblingsReady siblings || allSiblingsSuspendCleared siblings then mkDecision false false false
      else mkDecision true false true
  | true, false =>
      if negb (allSiblingsSuspendAcked siblings) then mkDecision true false false else mkDecision true true true
  | true, true =>
      if negb (allSiblingsReady siblings) then mkDecision true true false else mkDecision false false true
  | false, true => mkDecision false true false
  end.

Definition isPhase1Entry (snap : SnapshotCR) (next : snapshotPhaseDecision) : bool :=
  d_Advance next && d_SuspendIO next && negb (d_TakeSnapshot next)
  && negb (ss_SuspendIO (sc_Spec snap)) && negb (ss_TakeSnapshot (sc_Spec snap)).
Definition isPhase2Promotion (snap : SnapshotCR) (next : snapshotPhaseDecision) : bool :=
  d_Advance next && d_SuspendIO next && d_TakeSnapshot next && negb (ss_TakeSnapshot (sc_Spec snap)).

Definition groupAssembled (snap : SnapshotCR) (siblings : list SnapshotCR) : bool :=
  bool_decide (ss_GroupSize (sc_Spec snap) <= 0) || bool_decide (ss_GroupSize (sc_Spec snap) <= Z.of_nat (length siblings)).

Definition not_up_to_date_reason (node tail : string) : string :=
  "snapshot aborted: replica on node '" +:+ node +:+ "' is not UpToDate; " +:+ tail.
Definition deadline_reason : string := "snapshot aborted: suspend/take exceeded the 2m0s deadline; I/O resumed".

Definition openGroupSuspendBarrier (snap : SnapshotCR) (siblings : list SnapshotCR) : kprog ctrl_result :=
  if negb (groupAssembled snap siblings) then done_with (requeue_after groupAssembleRequeueAfter)
  else
    offending ←! allTargetedReplicasUpToDate siblings;
    match offending with
    | Some node => abortGroupWithReason siblings (not_up_to_date_reason node "I/O not suspended")
    | None => _ ←! suspendGroup siblings; done_with no_requeue
    end.

(** What writes the decision: every sibling of a batch, or the snapshot alone. *)
Definition commit_phase (snap : SnapshotCR) (siblings : list SnapshotCR) (next : snapshotPhaseDecision) : kprog ctrl_result :=
  if negb (bool_decide (ss_GroupID (sc_Spec snap) = ""))
  then _ ←! flipGroup siblings (d_SuspendIO next) (d_TakeSnapshot next); done_with no_requeue
  else maybeFlipSpec snap (d_SuspendIO next) (d_TakeSnapshot next).

Definition advancePhase (snap : SnapshotCR) (siblings : list SnapshotCR) (next : snapshotPhaseDecision) : kprog ctrl_result :=
  if isPhase1Entry snap next && negb (bool_decide (ss_GroupID (sc_Spec snap) = "")) then openGroupSuspendBarrier snap siblings
  else if isPhase2Promotion snap next then
    offending ←! allTargetedReplicasUpToDate siblings;
    match offending with
    | Some node => abortGroupWithReason siblings (not_up_to_date_reason node "I/O resumed")
    | None => commit_phase snap siblings next
    end
  else commit_phase snap siblings next.

(** [Some]: an abort was due and was driven. *)
Definition checkAbortConditions (snap : SnapshotCR) (siblings : list SnapshotCR) : kprog (option ctrl_result) :=
  if anySiblingFailed siblings then _ ←! abortGroup siblings; done_with (Some no_requeue)
  else if inSuspendPhase snap siblings then
    now ← call SNow;
    if suspendDeadlineExceeded snap now then
      res ←! abortGroupWithReason siblings deadline_reason; done_with (Some res)
    else done_with None
  else done_with None.

Definition requeueIfSuspended (snap : SnapshotCR) (siblings : list SnapshotCR) : kprog ctrl_result :=
  if negb (inSuspendPhase snap siblings) then done_with no_requeue
  else now ← call SNow; done_with (requeue_after (suspendRequeueAfter snap now)).

(** *** Siblings *)

(** Self, as it was read, in its place or at the end. *)
Fixpoint replace_self (snap : SnapshotCR) (items : list SnapshotCR) : option (list SnapshotCR) :=
  match items with
  | [] => None
  | x :: rest => if bool_decide (sc_Name x = sc_Name snap) then Some (snap :: rest)
                 else (cons x) <$> replace_self snap rest
  end.

Definition fetchSiblings (snap : SnapshotCR) : kprog (list SnapshotCR) :=
  if bool_decide (ss_GroupID (sc_Spec snap) = "") then done_with [snap]
  else
    items ←! call (ListGroup (ss_GroupID (sc_Spec snap)));
    done_with match items with
              | [] => [snap]
              | _ => default (items ++ [snap]) (replace_self snap items)
              end.

(** *** Adopted snapshots *)

Definition hasNodeStatusEntry (entries : list SnapshotPerNodeStatus) (node : string) : bool :=
  existsb (fun e => bool_decide (pn_NodeName e = node)) entries.

Definition adoptedCreatedAt (snap : SnapshotCR) : Z :=
  let raw := get (sc_Annotations snap) AnnotationSnapshotAdoptedCreatedAt in
  if bool_decide (raw = "") then 0 else default 0 (parse_int 64 raw).

Fixpoint backfill (createdAt : Z) (nodes : list string) (entries : list SnapshotPerNodeStatus) : list SnapshotPerNodeStatus :=
  match nodes with
  | [] => entries
  | node :: rest =>
      backfill createdAt rest
        (if hasNodeStatusEntry entries node then entries else entries ++ [mkPerNode node createdAt true false false])
  end.

Definition backfill_body (name : string) (createdAt : Z) : kprog unit :=
  r ← call (GetSnap name);
  match r with
  | Err e => if IsNotFound e then done_with tt else failed_with e
  | Ok current =>
      let entries := backfill createdAt (ss_Nodes (sc_Spec current)) (sst_NodeStatus (sc_Status current)) in
      if bool_decide (length entries = length (sst_NodeStatus (sc_Status current))) then done_with tt
      else call (UpdateSnapStatus (with_snap_status current (with_node_status (sc_Status current) entries)))
  end.

Definition backfillAdoptedSnapshot (snap : SnapshotCR) : kprog ctrl_result :=
  if on_nodes allNodesReady snap then done_with no_requeue
  else
    _ ←! retry_on_conflict DefaultRetry (backfill_body (sc_Name snap) (adoptedCreatedAt snap));
    done_with no_requeue.

(** *** One pass *)

Definition adopted (snap : SnapshotCR) : bool :=
  bool_decide (get (sc_Annotations snap) AnnotationSnapshotAdopted = labelTrueValue).

Definition orchestrate (snap : SnapshotCR) : kprog ctrl_result :=
  siblings ←! fetchSiblings snap;
  aborted ←! checkAbortConditions snap siblings;
  match aborted with
  | Some res => done_with res
  | None =>
      if bool_decide (ss_Nodes (sc_Spec snap) = []) then done_with no_requeue
      else
        let next := nextPhase snap siblings in
        if negb (d_Advance next) then requeueIfSuspended snap siblings else advancePhase snap siblings next
  end.

Definition Reconcile (name : string) : kprog ctrl_result :=
  r ← call (GetSnap name);
  match r with
  | Err e => if IsNotFound e then done_with no_requeue else failed_with e
  | Ok snap =>
      if sc_Deleting snap then done_with no_requeue
      else if adopted snap && negb (ss_SuspendIO (sc_Spec snap)) then backfillAdoptedSnapshot snap
      else orchestrate snap
  end.

End Controller.

(** ** The satellite *)

Module Satellite.
Section Satellite.
(** [Config.NodeName] *)
Context (nodeName : string).

Definition own_entry (entries : list SnapshotPerNodeStatus) : option SnapshotPerNodeStatus :=
  find (fun e => bool_decide (pn_NodeName e = nodeName)) entries.

Definition perNodeStatusSuspendIOAcked (entries : list SnapshotPerNodeStatus) : bool :=
  match own_entry entries with Some e => pn_SuspendIOAcked e | None => false end.
Definition perNodeStatusReady (entries : list SnapshotPerNodeStatus) : bool :=
  match own_entry entries with
  | Some e => pn_Ready e && negb (bool_decide (pn_CreateTimestamp e = 0))
  | None => false
  end.

(** [mutate] answers the new entry, or [None] when there is nothing to change. *)
Definition mutation : Type := SnapshotPerNodeStatus -> option SnapshotPerNodeStatus.

Fixpoint upsert_existing (mutate : mutation) (entries : list SnapshotPerNodeStatus) : option (option (list SnapshotPerNodeStatus)) :=
  match entries with
  | [] => None
  | e :: rest =>
      if bool_decide (pn_NodeName e = nodeName) then Some ((fun e' => e' :: rest) <$> mutate e)
      else fmap (M := option) (cons e) <$> upsert_existing mutate rest
  end.

(** [None]: nothing changed. *)
Definition upsertPerNodeStatusInPlace (entries : list SnapshotPerNodeStatus) (mutate : mutation) :
    option (list SnapshotPerNodeStatus) :=
  match upsert_existing mutate entries with
  | Some changed => changed
  | None => (fun fresh => entries ++ [fresh]) <$> mutate (mkPerNode nodeName 0 false false false)
  end.

Definition set_acked (value : bool) : mutation := fun e =>
  if Bool.eqb (pn_SuspendIOAcked e) value then None
  else Some (mkPerNode (pn_NodeName e) (pn_CreateTimestamp e) (pn_Ready e) value (pn_Failed e)).
Definition set_failed : mutation := fun e =>
  if pn_Failed e then None
  else Some (mkPerNode (pn_NodeName e) (pn_CreateTimestamp e) (pn_Ready e) (pn_SuspendIOAcked e) true).

(** The retry loops of the stamps. [change] answers the new status, or [None]: it is there already. *)
Fixpoint stamp_loop (attempts : nat) (name : string) (change : SnapshotStatus -> option SnapshotStatus) : kprog unit :=
  match attempts with
  | O => failed_with KOther
  | S n =>
      r ← call (GetSnap name);
      match r with
      | Err e => if IsNotFound e then done_with tt else failed_with e
      | Ok current =>
          match change (sc_Status current) with
          | None => done_with tt
          | Some st =>
              u ← call (UpdateSnapStatus (with_snap_status current st));
              match u with
              | Ok _ => done_with tt
              | Err e => if IsConflict e then stamp_loop n name change else failed_with e
              end
          end
      end
  end.

Definition field_change (mutate : mutation) (st : SnapshotStatus) : option SnapshotStatus :=
  with_node_status st <$> upsertPerNodeStatusInPlace (sst_NodeStatus st) mutate.
Definition upsertPerNodeStatusField (snap : SnapshotCR) (mutate : mutation) : kprog unit :=
  stamp_loop snapshotStatusUpdateRetries (sc_Name snap) (field_change mutate).
Definition stampSnapshotPerNodeSuspendAcked (snap : SnapshotCR) : kprog unit := upsertPerNodeStatusField snap (set_acked true).
Definition stampSnapshotPerNodeSuspendCleared (snap : SnapshotCR) : kprog unit := upsertPerNodeStatusField snap (set_acked false).

Definition failed_change (st : SnapshotStatus) : option SnapshotStatus :=
  let '(st1, m1) := Controller.add_flag st SnapshotStatusFlagFailed in
  match upsertPerNodeStatusInPlace (sst_NodeStatus st1) set_failed with
  | Some entries => Some (with_node_status st1 entries)
  | None => if m1 : bool then Some st1 else None
  end.
Definition stampSnapshotPerNodeFailed (snap : SnapshotCR) : kprog unit :=
  stamp_loop snapshotStatusUpdateRetries (sc_Name snap) failed_change.

Definition upsertPerNodeStatus (entries : list SnapshotPerNodeStatus) (createTimestamp : Z) : list SnapshotPerNodeStatus :=
  let out := (fun e => if bool_decide (pn_NodeName e = nodeName)
                       then mkPerNode nodeName createTimestamp true (pn_SuspendIOAcked e) (pn_Failed e) else e) <$> entries in
  if existsb (fun e => bool_decide (pn_NodeName e = nodeName)) entries then out
  else out ++ [mkPerNode nodeName createTimestamp true false false].
Definition ready_change (createTimestamp : Z) (st : SnapshotStatus) : option SnapshotStatus :=
  if perNodeStatusReady (sst_NodeStatus st) then None
  else Some (with_node_status st (upsertPerNodeStatus (sst_NodeStatus st) createTimestamp)).
Definition stampSnapshotPerNodeReady (snap : SnapshotCR) (createTimestamp : Z) : kprog unit :=
  stamp_loop snapshotStatusUpdateRetries (sc_Name snap) (ready_change createTimestamp).

(** *** Phases *)

Definition rd_of (snap : SnapshotCR) : string := ss_ResourceDefinitionName (sc_Spec snap).
Definition snap_of (snap : SnapshotCR) : string := ss_SnapshotName (sc_Spec snap).

Definition handleSuspendPhase (snap : SnapshotCR) : kprog ctrl_result :=
  r ← call (SuspendResource (rd_of snap));
  match r with
  | Err _ => _ ←! stampSnapshotPerNodeFailed snap; done_with no_requeue
  | Ok _ => _ ←! stampSnapshotPerNodeSuspendAcked snap; done_with no_requeue
  end.

Definition handleResumePhase (snap : SnapshotCR) : kprog ctrl_result :=
  r ← call (ResumeResource (rd_of snap));
  match r with
  | Err _ => done_with (mkResult true 0)
  | Ok _ => _ ←! stampSnapshotPerNodeSuspendCleared snap; done_with no_requeue
  end.

Definition handleTakeSnapshotPhase (snap : SnapshotCR) : kprog ctrl_result :=
  f ← call (FlushBackingDevices (rd_of snap) (vr_VolumeNumber <$> ss_VolumeDefinitions (sc_Spec snap)));
  match f with
  | Err _ => done_with (mkResult true 0)
  | Ok _ =>
      resp ←! call (CreateSnapshotOn (rd_of snap) (snap_of snap));
      match resp with
      | Taken timestamp => _ ←! stampSnapshotPerNodeReady snap timestamp; done_with no_requeue
      | TakeFailed false => done_with (mkResult true 0)
      | TakeFailed true => _ ←! stampSnapshotPerNodeFailed snap; done_with no_requeue
      end
  end.

Definition handleCreate (snap : SnapshotCR) : kprog ctrl_result :=
  let entries := sst_NodeStatus (sc_Status snap) in
  if ss_SuspendIO (sc_Spec snap) && negb (perNodeStatusSuspendIOAcked entries) then handleSuspendPhase snap
  else if negb (ss_SuspendIO (sc_Spec snap)) && perNodeStatusSuspendIOAcked entries then handleResumePhase snap
  else if negb (ss_TakeSnapshot (sc_Spec snap)) then done_with no_requeue
  else if perNodeStatusReady entries then done_with no_requeue
  else handleTakeSnapshotPhase snap.

Definition handleDelete (snap : SnapshotCR) : kprog ctrl_result :=
  if negb (Contains (sc_Finalizers snap) SatelliteSnapshotFinalizer) then done_with no_requeue
  else
    ok ←! call (DeleteSnapshotOn (rd_of snap) (snap_of snap));
    if negb ok then done_with (mkResult true 0)
    else
      _ ←! call (UpdateSnap (with_snap_finalizers snap (filter (fun f => f <> SatelliteSnapshotFinalizer) (sc_Finalizers snap))));
      done_with no_requeue.

Definition Reconcile (name : string) : kprog ctrl_result :=
  r ← call (GetSnap name);
  match r with
  | Err e => if IsNotFound e then done_with no_requeue else failed_with e
  | Ok snap =>
      if negb (Contains (ss_Nodes (sc_Spec snap)) nodeName) then done_with no_requeue
      else if sc_Deleting snap then handleDelete snap
      else if negb (Contains (sc_Finalizers snap) SatelliteSnapshotFinalizer) then
        _ ←! call (UpdateSnap (with_snap_finalizers snap (sc_Finalizers snap ++ [SatelliteSnapshotFinalizer])));
        done_with (requeue_after snapshotFinalizerRequeue)
      else handleCreate snap
  end.

End Satellite.
End Satellite.

(** ** What the REST server makes of it (pkg/store/k8s/snapshots.go, pkg/rest/snapshots.go) *)

Module Report.

Definition SnapshotFlagFailedDeployment : string := "FAILED_DEPLOYMENT".
Definition SnapshotFlagFailedDisconnect : string := "FAILED_DISCONNECT".
Definition SnapshotFlagSuccessful : string := "SUCCESSFUL".
Definition SnapshotFlagDelete : string := "DELETE".
Definition legacySnapshotFlagFailed : string := "FAILED".

Definition withDeletingFlag (flags : list string) (deleting : bool) : list string :=
  if deleting && negb (Contains flags SnapshotFlagDelete) then flags ++ [SnapshotFlagDelete] else flags.

Definition snapshotVolumesFromVDs (vds : list SnapshotVolumeRef) : list SnapshotVolume :=
  (fun v => mkSnapshotVolume (vr_VolumeNumber v) "") <$> vds.

Definition wirePerNodeSnapshots (crd : SnapshotCR) : list SnapshotPerNode :=
  let vols := snapshotVolumesFromVDs (ss_VolumeDefinitions (sc_Spec crd)) in
  match sst_NodeStatus (sc_Status crd) with
  | [] => (fun node => mkSnapshotPerNode (ss_SnapshotName (sc_Spec crd)) node 0 [] vols "") <$> ss_Nodes (sc_Spec crd)
  | entries => (fun e => mkSnapshotPerNode (ss_SnapshotName (sc_Spec crd)) (pn_NodeName e) (pn_CreateTimestamp e) [] vols "") <$> entries
  end.

Definition isTerminalSnapshotFlag (flag : string) : bool :=
  Contains [SnapshotFlagDelete; SnapshotFlagFailedDeployment; SnapshotFlagFailedDisconnect; SnapshotFlagSuccessful; legacySnapshotFlagFailed] flag.

Definition successDenominator (nodes : list string) (diskful : gset string) : gset string :=
  match nodes with
  | [] => diskful
  | _ => filter (fun n => n ∈ diskful) (list_to_set nodes)
  end.

Definition isSnapshotSuccessful (nodes : list string) (perNode : list SnapshotPerNode) (diskful : gset string) : bool :=
  let denominator := successDenominator nodes diskful in
  let reported : gset string := list_to_set (spn_NodeName <$> filter (fun e => spn_CreateTimestamp e <> 0) perNode) in
  negb (bool_decide (denominator = ∅)) && bool_decide (denominator ⊆ reported).

(** [SUCCESSFUL] is stamped on what is served of the object. *)
Definition reported_successful (crd : SnapshotCR) (diskful : gset string) : bool :=
  negb (existsb isTerminalSnapshotFlag (withDeletingFlag (sst_Flags (sc_Status crd)) (sc_Deleting crd)))
  && isSnapshotSuccessful (ss_Nodes (sc_Spec crd)) (wirePerNodeSnapshots crd) diskful.

End Report.
