(* ===== verification/SnapshotBarrier.v ===== *)
(** * The snapshot barrier

    The controller and the satellites of [Snapshots] running against one API server: any number of
    controllers and satellites, started and killed at any time, each call of theirs a step of its
    own, every read answered with any version the object has had. A snapshot that is reported as
    successful was taken on every node while the I/O of the resource was suspended on all of them. *)

From S2P Require Import Prelude Prog Api DrbdAlloc Kube GoTime GoStrings Dispatcher Snapshots.

(** ** The world *)

(** The versions of every object, newest first, and the objects that are gone; the nodes on which the
    I/O of a definition is suspended, and how often it was resumed anywhere; the snapshots taken,
    each with that count and with what was suspended at the moment. [w_suspended] and [w_taken]
    remember what was ever suspended and taken. *)
Record world := mkWorld {
  w_hist : gmap string (list SnapshotCR);
  w_gone : gset string;
  w_frozen : gset (string * string);
  w_thaws : gmap string nat;
  w_takes : gmap (string * string * string) (nat * gset (string * string));
  w_suspended : gset (string * string);
  w_taken : gset (string * string * string);
}.

Definition versions (w : world) (name : string) : list SnapshotCR := default [] (w_hist w !! name).
Definition current (w : world) (name : string) : option SnapshotCR :=
  if decide (name ∈ w_gone w) then None else head (versions w name).
Definition thaws (w : world) (rd : string) : nat := default 0%nat (w_thaws w !! rd).

Definition add_version (w : world) (name : string) (x : SnapshotCR) : world :=
  mkWorld (<[name := x :: versions w name]> (w_hist w)) (w_gone w) (w_frozen w) (w_thaws w) (w_takes w) (w_suspended w) (w_taken w).
Definition forget (w : world) (name : string) : world :=
  mkWorld (w_hist w) ({[name]} ∪ w_gone w) (w_frozen w) (w_thaws w) (w_takes w) (w_suspended w) (w_taken w).
Definition freeze (w : world) (rd node : string) : world :=
  mkWorld (w_hist w) (w_gone w) ({[(rd, node)]} ∪ w_frozen w) (w_thaws w) (w_takes w) ({[(rd, node)]} ∪ w_suspended w) (w_taken w).
Definition thaw (w : world) (rd node : string) : world :=
  mkWorld (w_hist w) (w_gone w) (w_frozen w ∖ {[(rd, node)]}) (<[rd := S (thaws w rd)]> (w_thaws w)) (w_takes w) (w_suspended w) (w_taken w).
(** A snapshot that is there already is left as it is. *)
Definition take_snapshot (w : world) (rd snap node : string) : world :=
  let key := (rd, snap, node) in
  mkWorld (w_hist w) (w_gone w) (w_frozen w) (w_thaws w)
    (match w_takes w !! key with Some _ => w_takes w | None => <[key := (thaws w rd, w_frozen w)]> (w_takes w) end)
    (w_suspended w) ({[key]} ∪ w_taken w).
Definition drop_snapshot (w : world) (rd snap node : string) : world :=
  mkWorld (w_hist w) (w_gone w) (w_frozen w) (w_thaws w) (delete (rd, snap, node) (w_takes w)) (w_suspended w) (w_taken w).

(** What an accepted write makes of the object. *)
Definition updated (cur x : SnapshotCR) : SnapshotCR :=
  mkSnapshotCR (sc_Name cur) (S (sc_Version cur)) (sc_Deleting cur) (sc_Created cur) (sc_Finalizers x) (sc_Annotations x)
    (sc_GroupLabel cur) (sc_Spec x) (sc_Status cur).
Definition status_updated (cur x : SnapshotCR) : SnapshotCR :=
  mkSnapshotCR (sc_Name cur) (S (sc_Version cur)) (sc_Deleting cur) (sc_Created cur) (sc_Finalizers cur) (sc_Annotations cur)
    (sc_GroupLabel cur) (sc_Spec cur) (sc_Status x).

(** A deleted object goes with its last finalizer. *)
Definition write_spec (w : world) (cur x : SnapshotCR) : world :=
  let w' := add_version w (sc_Name x) (updated cur x) in
  if sc_Deleting cur && bool_decide (sc_Finalizers x = []) then forget w' (sc_Name x) else w'.
Definition write_status (w : world) (cur x : SnapshotCR) : world := add_version w (sc_Name x) (status_updated cur x).

(** ** What a call does

    [who] is the node of a satellite, [None] for a controller. A read is answered from a cache: any
    version, or that there is none. A write that fails may still have been carried out, unless it
    failed on the version. *)

Definition node_of (who : option string) : string := default "" who.

Inductive acts (w : world) (who : option string) : forall c : scall, sanswer c -> world -> Prop :=
| act_get name x : x ∈ versions w name -> acts w who (GetSnap name) (Ok x) w
| act_get_fails name e : acts w who (GetSnap name) (Err e) w
| act_list gid l :
    (forall x, x ∈ l -> x ∈ versions w (sc_Name x) /\ sc_GroupLabel x = gid) -> acts w who (ListGroup gid) (Ok l) w
| act_list_fails gid e : acts w who (ListGroup gid) (Err e) w
| act_resources a : acts w who ListResources a w
| act_update x cur : current w (sc_Name x) = Some cur -> sc_Version x = sc_Version cur ->
    acts w who (UpdateSnap x) (Ok tt) (write_spec w cur x)
| act_update_lost x cur : current w (sc_Name x) = Some cur -> sc_Version x = sc_Version cur ->
    acts w who (UpdateSnap x) (Err KOther) (write_spec w cur x)
| act_update_fails x e : acts w who (UpdateSnap x) (Err e) w
| act_status x cur : current w (sc_Name x) = Some cur -> sc_Version x = sc_Version cur ->
    acts w who (UpdateSnapStatus x) (Ok tt) (write_status w cur x)
| act_status_lost x cur : current w (sc_Name x) = Some cur -> sc_Version x = sc_Version cur ->
    acts w who (UpdateSnapStatus x) (Err KOther) (write_status w cur x)
| act_status_fails x e : acts w who (UpdateSnapStatus x) (Err e) w
| act_suspend rd : acts w who (SuspendResource rd) (Ok tt) (freeze w rd (node_of who))
| act_suspend_lost rd e : acts w who (SuspendResource rd) (Err e) (freeze w rd (node_of who))
| act_suspend_fails rd e : acts w who (SuspendResource rd) (Err e) w
| act_resume rd : acts w who (ResumeResource rd) (Ok tt) (thaw w rd (node_of who))
| act_resume_lost rd e : acts w who (ResumeResource rd) (Err e) (thaw w rd (node_of who))
| act_resume_fails rd e : acts w who (ResumeResource rd) (Err e) w
| act_flush rd vols a : acts w who (FlushBackingDevices rd vols) a w
| act_take rd snap t : t <> 0 -> acts w who (CreateSnapshotOn rd snap) (Ok (Taken t)) (take_snapshot w rd snap (node_of who))
| act_take_late rd snap a : (forall t, a <> Ok (Taken t)) ->
    acts w who (CreateSnapshotOn rd snap) a (take_snapshot w rd snap (node_of who))
| act_take_fails rd snap a : (forall t, a <> Ok (Taken t)) -> acts w who (CreateSnapshotOn rd snap) a w
| act_drop rd snap a : acts w who (DeleteSnapshotOn rd snap) a (drop_snapshot w rd snap (node_of who))
| act_drop_fails rd snap a : acts w who (DeleteSnapshotOn rd snap) a w
| act_now t : acts w who SNow t w.

(** ** The system *)

Definition agent : Type := option string * prog sanswer (result kerr ctrl_result).
Record system := mkSystem { sys_world : world; sys_agents : gmap nat agent }.

(** The programs an agent may be started with. *)
Definition pass (who : option string) (name : string) : prog sanswer (result kerr ctrl_result) :=
  match who with None => Controller.Reconcile name | Some node => Satellite.Reconcile node name end.

(** [env] is what everybody else does to the world. *)
Inductive step (env : world -> world -> Prop) : system -> system -> Prop :=
| step_start w ags i who name :
    step env (mkSystem w ags) (mkSystem w (<[i := (who, pass who name)]> ags))
| step_stop w ags i : step env (mkSystem w ags) (mkSystem w (delete i ags))
| step_call w ags i who c k a w' :
    ags !! i = Some (who, Do c k) -> acts w who c a w' ->
    step env (mkSystem w ags) (mkSystem w' (<[i := (who, k a)]> ags))
| step_env w ags w' : env w w' -> step env (mkSystem w ags) (mkSystem w' ags).

(** ** One snapshot *)

Section Barrier.
(** The snapshot [X] is the only one of the definition [R]; it is taken on the nodes [T], on its own. *)
Context (X R N : string) (T : list string).

(** What stays the same in every version of [X]. *)
Definition fixed_parts (x : SnapshotCR) : Prop :=
  sc_Name x = X /\ ss_ResourceDefinitionName (sc_Spec x) = R /\ ss_SnapshotName (sc_Spec x) = N /\ ss_Nodes (sc_Spec x) = T
  /\ ss_GroupID (sc_Spec x) = "" /\ sc_GroupLabel x = "" /\ Controller.adopted x = false.

Definition entries (x : SnapshotCR) : list SnapshotPerNodeStatus := sst_NodeStatus (sc_Status x).
Definition all_acked (x : SnapshotCR) : Prop := Controller.on_nodes Controller.allNodesSuspendAcked x = true.

(** Everybody else leaves the flags and the status of [X] alone and makes no other snapshot of [R].
    They may edit and delete it, and do what they like with other snapshots. *)
Inductive others : world -> world -> Prop :=
| others_edit w cur x :
    current w X = Some cur -> fixed_parts x -> sc_Spec x = sc_Spec cur -> sc_Status x = sc_Status cur ->
    (sc_Deleting cur = true -> sc_Deleting x = true) -> others w (add_version w X x)
| others_remove w name : others w (forget w name)
| others_else w y : sc_Name y <> X -> ss_ResourceDefinitionName (sc_Spec y) <> R -> others w (add_version w (sc_Name y) y).

Definition fresh (x : SnapshotCR) : Prop :=
  fixed_parts x /\ ss_TakeSnapshot (sc_Spec x) = false /\ sst_NodeStatus (sc_Status x) = [].

(** The object as it was created, before anybody has acted on it. *)
Definition starts (x : SnapshotCR) : system :=
  mkSystem (mkWorld {[X := [x]]} ∅ ∅ ∅ ∅ ∅ ∅) ∅.

(** I/O was resumed only once every node had taken its snapshot: no version tells a node that has
    suspended to resume before all are ready. *)
Definition resumed_in_order (w : world) : Prop :=
  forall x, x ∈ versions w X -> ss_SuspendIO (sc_Spec x) = false -> (exists e, e ∈ entries x /\ pn_SuspendIOAcked e = true) ->
  Controller.on_nodes Controller.allNodesReady x = true.

(** ** What an agent knows, and what it may do *)

Record know := mkKnow { k_hist : list SnapshotCR; k_suspended : gset (string * string); k_taken : gset (string * string * string) }.
Definition knows_less (K K' : know) : Prop :=
  (forall x, x ∈ k_hist K -> x ∈ k_hist K') /\ k_suspended K ⊆ k_suspended K' /\ k_taken K ⊆ k_taken K'.
Definition known (w : world) : know := mkKnow (versions w X) (w_suspended w) (w_taken w).

#[global] Instance knows_less_pre : PreOrder knows_less.
Proof. split; [intros K|intros K1 K2 K3 (?&?&?) (?&?&?)]; unfold knows_less; split_and!; (done || set_solver). Qed.

(** An entry of the status that is backed by what happened on the node. *)
Definition backed (K : know) (e : SnapshotPerNodeStatus) : Prop :=
  (pn_SuspendIOAcked e = true -> (R, pn_NodeName e) ∈ k_suspended K)
  /\ (pn_Ready e = true \/ pn_CreateTimestamp e <> 0 -> (R, N, pn_NodeName e) ∈ k_taken K).

(** A version that was read under a name. *)
Definition seen (K : know) (name : string) (x : SnapshotCR) : Prop :=
  (name = X -> x ∈ k_hist K /\ fixed_parts x /\ forall e, e ∈ entries x -> backed K e)
  /\ (name <> X -> sc_Name x <> X /\ ss_ResourceDefinitionName (sc_Spec x) <> R).

Definition learned (who : option string) (K : know) (c : scall) : sanswer c -> Prop :=
  match c with
  | GetSnap name => fun a => match a with
      | Ok x => seen K name x
      | Err _ => True
      end
  | ListGroup gid => fun a => match a with
      | Ok l => gid <> "" -> forall x, x ∈ l -> sc_Name x <> X
      | Err _ => True
      end
  | SuspendResource rd => fun a => match a with Ok _ => (rd, node_of who) ∈ k_suspended K | Err _ => True end
  | CreateSnapshotOn rd snap => fun a => match a with Ok (Taken _) => (rd, snap, node_of who) ∈ k_taken K | _ => True end
  | _ => fun _ => True
  end.

Definition permitted (who : option string) (K : know) (c : scall) : Prop :=
  match c with
  | UpdateSnap x =>
      (sc_Name x = X -> fixed_parts x
        /\ (ss_TakeSnapshot (sc_Spec x) = true -> exists u, u ∈ k_hist K /\ (all_acked u \/ ss_TakeSnapshot (sc_Spec u) = true)))
      /\ (sc_Name x <> X -> ss_ResourceDefinitionName (sc_Spec x) <> R)
  | UpdateSnapStatus x => sc_Name x = X -> forall e, e ∈ entries x -> backed K e
  | ResumeResource rd => rd = R ->
      exists v, v ∈ k_hist K /\ ss_SuspendIO (sc_Spec v) = false /\ exists e, e ∈ entries v /\ pn_SuspendIOAcked e = true
  | CreateSnapshotOn rd snap => rd = R -> exists v, v ∈ k_hist K /\ ss_TakeSnapshot (sc_Spec v) = true
  | DeleteSnapshotOn rd snap => rd = R -> exists v, v ∈ k_hist K /\ sc_Deleting v = true
  | _ => True
  end.

(** A program all of whose calls are permitted, however the knowledge grows while it runs. *)
Fixpoint keeps (who : option string) (K : know) {A} (p : prog sanswer A) (Q : know -> A -> Prop) : Prop :=
  match p with
  | Ret a => Q K a
  | Do c k => permitted who K c /\ forall a K', knows_less K K' -> learned who K' c a -> keeps who K' (k a) Q
  end.

Lemma backed_mono K K' e : knows_less K K' -> backed K e -> backed K' e.
Proof. intros (_ & Hs & Ht) [H1 H2]. split; intros; [apply Hs, H1|apply Ht, H2]; done. Qed.

Lemma permitted_mono who K K' c : knows_less K K' -> permitted who K c -> permitted who K' c.
Proof.
  intros HK. pose proof HK as (Hh & _ & _). destruct c as [| | |x| | | | | | |]; cbn; try done.
  { intros [H1 H2]. split; [|done]. intros Hn. destruct (H1 Hn) as [Hf H]. split; [done|]. intros Ht. destruct (H Ht) as (u & Hu & Ha). eauto. }
  all: intros H Hn; specialize (H Hn).
  - intros e He. eapply backed_mono; [done|auto].
  - destruct H as (v & Hv & H). eauto.
  - destruct H as (v & Hv & H). eauto.
  - destruct H as (v & Hv & H). eauto.
Qed.

Lemma keeps_mono who K K' {A} (p : prog sanswer A) (Q Q' : know -> A -> Prop) :
  knows_less K K' -> (forall K1 a, knows_less K' K1 -> Q K1 a -> Q' K1 a) -> (forall K1 K2 a, knows_less K1 K2 -> Q K1 a -> Q K2 a) ->
  keeps who K p Q -> keeps who K' p Q'.
Proof.
  intros HK HQ HQm. revert K K' HK HQ. induction p as [a|c k IH]; intros K K' HK HQ; cbn.
  - intros Ha. apply HQ; [done|]. by eapply HQm.
  - intros [Hp H]. split; [by eapply permitted_mono|]. intros a K1 HK1 Hl. eapply (IH a K1 K1); [done| |].
    + intros K2 b HK2. apply HQ. by etrans.
    + apply H; [by etrans|done].
Qed.

Lemma keeps_bind who K {A B} (m : prog sanswer A) (f : A -> prog sanswer B) Q :
  keeps who K m (fun K' a => keeps who K' (f a) Q) -> keeps who K (m ≫= f) Q.
Proof.
  change (m ≫= f) with (prog_bind f m). revert K. induction m as [a|c k IH]; intros K; cbn; [done|].
  intros [Hp H]. split; [done|]. intros a K' HK Hl. apply IH. by apply H.
Qed.

(** For what is done next, only that knowledge grows matters. *)
Lemma keeps_seq who K {A B} (m : prog sanswer A) (f : A -> prog sanswer B) Q :
  keeps who K m (fun K' _ => knows_less K K') -> (forall K' a, knows_less K K' -> keeps who K' (f a) Q) -> keeps who K (m ≫= f) Q.
Proof.
  intros Hm Hf. apply keeps_bind. eapply keeps_mono; [reflexivity| | |exact Hm]; [cbn; eauto|]. cbn. intros K1 K2 _ H1 H2. by etrans.
Qed.

Lemma keeps_call who K c (Q : know -> sanswer c -> Prop) :
  permitted who K c -> (forall a K', knows_less K K' -> learned who K' c a -> Q K' a) -> keeps who K (call c) Q.
Proof. intros Hp HQ. split; [done|]. intros a K' HK Hl. cbn. by apply HQ. Qed.

Lemma keeps_kseq who K {A B} (m : kprog A) (f : A -> kprog B) (Q : know -> result kerr B -> Prop) :
  keeps who K m (fun K' _ => knows_less K K') -> (forall K' a, knows_less K K' -> keeps who K' (f a) Q) ->
  (forall K' e, knows_less K K' -> Q K' (Err e)) -> keeps who K (kbind m f) Q.
Proof. intros Hm Hf He. apply keeps_seq; [done|]. intros K' [a|e] HK; cbn; auto. Qed.

(** The trivial ends. *)
Definition grows {A} (K : know) (K' : know) (_ : A) : Prop := knows_less K K'.

Lemma keeps_done who K {A} (a : A) : keeps who K (Ret a) (grows K).
Proof. change (knows_less K K). reflexivity. Qed.

Lemma keeps_weaken who K0 K {A} (p : prog sanswer A) :
  knows_less K0 K -> keeps who K p (grows K) -> keeps who K p (grows K0).
Proof.
  intros HK H. eapply keeps_mono; [reflexivity| | |exact H]; unfold grows; [intros; by etrans|intros; by etrans].
Qed.

Lemma keeps_retry who K n (body : kprog unit) :
  (forall K', knows_less K K' -> keeps who K' body (grows K')) -> keeps who K (retry_on_conflict n body) (grows K).
Proof.
  revert K. induction n as [|n IH]; intros K Hb; cbn; [apply Hb; reflexivity|].
  apply keeps_seq; [apply Hb; reflexivity|]. intros K' [u|e] HK; cbn; [done|].
  destruct (IsConflict e); [|done]. eapply keeps_weaken; [done|]. apply IH. intros K2 HK2. apply Hb. by etrans.
Qed.

(** ** The controller *)

Lemma seen_mono K K' name x : knows_less K K' -> seen K name x -> seen K' name x.
Proof.
  intros HK [H1 H2]. split; [|done]. intros E. destruct (H1 E) as (Hx & Hf & Hb). split_and!; [by apply HK|done|].
  intros e He. eapply backed_mono; [done|auto].
Qed.

Lemma seen_own K name x : seen K name x -> sc_Name x = X ->
  name = X /\ x ∈ k_hist K /\ fixed_parts x /\ forall e, e ∈ entries x -> backed K e.
Proof. intros [H1 H2] Hx. destruct (decide (name = X)) as [->|Hn]; [by destruct (H1 eq_refl)|]. by destruct (H2 Hn). Qed.

Lemma seen_not_rd K name x : seen K name x -> sc_Name x <> X -> ss_ResourceDefinitionName (sc_Spec x) <> R.
Proof.
  intros [H1 H2] Hx. destruct (decide (name = X)) as [->|Hn]; [|by apply H2]. by destruct (H1 eq_refl) as (_ & (? & _) & _).
Qed.

Lemma fixed_flags x s t : fixed_parts x -> fixed_parts (with_snap_spec x (with_flags (sc_Spec x) s t)).
Proof. by intros (? & ? & ? & ? & ? & ? & ?). Qed.
Lemma fixed_finalizers x fs : fixed_parts x -> fixed_parts (with_snap_finalizers x fs).
Proof. by intros (? & ? & ? & ? & ? & ? & ?). Qed.

Definition may_promote (K : know) : Prop := exists u, u ∈ k_hist K /\ (all_acked u \/ ss_TakeSnapshot (sc_Spec u) = true).
Lemma may_promote_mono K K' : knows_less K K' -> may_promote K -> may_promote K'.
Proof. intros (Hh & _) (u & Hu & H). exists u. auto. Qed.

Lemma flip_body_keeps who K name s t :
  (t = true -> name = X -> may_promote K) -> keeps who K (Controller.flip_body name s t) (grows K).
Proof.
  intros Ht. unfold Controller.flip_body. apply keeps_bind, keeps_call; [done|]. intros [x|e] K' HK Hl; cbn in Hl; lazy beta match.
  - destruct (_ && _); [done|]. apply keeps_call; [|intros ? K2 HK2 _; unfold grows; by etrans]. split; cbn; intros Hn; [|by apply (seen_not_rd K' name)].
    destruct (seen_own K' name x Hl Hn) as (-> & Hx & Hf & _). split; [by apply fixed_flags|].
    intros ->. apply (may_promote_mono K); auto.
  - by destruct (IsNotFound e).
Qed.

Lemma maybeFlipSpec_keeps who K x s t :
  (t = true -> sc_Name x = X -> may_promote K) -> keeps who K (Controller.maybeFlipSpec x s t) (grows K).
Proof.
  intros Ht. unfold Controller.maybeFlipSpec. destruct (_ && _); [apply keeps_done|].
  apply keeps_kseq; [|intros; done|intros; done]. apply keeps_retry. intros K' HK. apply flip_body_keeps.
  intros E Hn. eapply may_promote_mono; [done|auto].
Qed.

Lemma flipGroup_keeps who K l s t :
  (t = true -> (exists x, x ∈ l /\ sc_Name x = X) -> may_promote K) -> keeps who K (Controller.flipGroup l s t) (grows K).
Proof.
  revert K. induction l as [|x l IH]; intros K Ht; cbn [Controller.flipGroup]; [apply keeps_done|].
  apply keeps_kseq; [|intros K' _ HK|intros; done].
  - apply maybeFlipSpec_keeps. intros E Hx. apply Ht; [done|]. exists x. split; [by left|done].
  - eapply keeps_weaken; [done|]. apply IH. intros E (y & Hy & Hn). eapply may_promote_mono; [done|]. apply Ht; [done|]. exists y. split; [by right|done].
Qed.

Lemma stamp_keeps who K name reason : keeps who K (Controller.stamp_body name reason) (grows K).
Proof.
  unfold Controller.stamp_body. apply keeps_bind, keeps_call; [done|]. intros [x|e] K' HK Hl; cbn in Hl; lazy beta match; [|by destruct (IsNotFound e)].
  destruct (Controller.add_flag _ _) as [st1 m1] eqn:E1.
  assert (sst_NodeStatus st1 = entries x) as Hst1 by (unfold Controller.add_flag in E1; destruct (Contains _ _); by injection E1 as <- _).
  apply keeps_bind, keeps_call; [done|]. intros now K2 HK2 _. unfold Controller.upsertSnapshotAbortCondition.
  destruct (Controller.setSnapshotCondition now (sst_Conditions st1) _) as [conds m2].
  destruct (m1 || m2); [|cbn; unfold grows; by etrans]. apply keeps_call; [|intros ? K3 HK3 _; unfold grows; etrans; [|done]; by etrans].
  cbn. intros Hn ent He. destruct (seen_own K' name x Hl Hn) as (_ & _ & _ & Hb). eapply backed_mono; [done|]. apply Hb.
  unfold entries in *. cbn in He. by rewrite <- Hst1.
Qed.

Lemma stamp_all_keeps who K l reason : keeps who K (Controller.stamp_all l reason) (grows K).
Proof.
  revert K. induction l as [|x l IH]; intros K; cbn [Controller.stamp_all]; [apply keeps_done|].
  apply keeps_kseq; [|intros K' _ HK|intros; done].
  - apply keeps_retry. intros K' HK. apply stamp_keeps.
  - eapply keeps_weaken; [done|]. apply IH.
Qed.

Lemma abort_keeps who K l reason : keeps who K (Controller.abortGroupWithReason l reason) (grows K).
Proof.
  unfold Controller.abortGroupWithReason. apply keeps_kseq; [by apply flipGroup_keeps|intros K' _ HK|intros; done].
  eapply keeps_weaken; [done|]. apply keeps_kseq; [apply stamp_all_keeps|intros; done|intros; done].
Qed.

Lemma gate_keeps who K l : keeps who K (Controller.allTargetedReplicasUpToDate l) (grows K).
Proof.
  revert K. induction l as [|x l IH]; intros K; cbn [Controller.allTargetedReplicasUpToDate]; [apply keeps_done|].
  apply keeps_kseq; [|intros K' o HK|intros; done].
  - unfold Controller.siblingReplicasUpToDate. apply keeps_kseq; [apply keeps_call; [done|intros; done]|intros; done|intros; done].
  - destruct o; [done|]. eapply keeps_weaken; [done|]. apply IH.
Qed.

(** The siblings of a snapshot: for [X], itself alone; for another one, never [X]. *)
Definition siblings_of (K : know) (snap : SnapshotCR) (l : list SnapshotCR) : Prop :=
  (sc_Name snap = X -> l = [snap] /\ snap ∈ k_hist K) /\ (sc_Name snap <> X -> forall x, x ∈ l -> sc_Name x <> X).

Lemma siblings_mono K K' snap l : knows_less K K' -> siblings_of K snap l -> siblings_of K' snap l.
Proof. intros (Hh & _) [H1 H2]. split; [|done]. intros E. destruct (H1 E). auto. Qed.

Lemma replace_self_in snap l l' x : Controller.replace_self snap l = Some l' -> x ∈ l' -> x = snap \/ x ∈ l.
Proof.
  revert l'. induction l as [|y l IH]; intros l'; cbn; [done|]. case_bool_decide.
  - intros [= <-] [->|Hx]%elem_of_cons; [by left|right; by right].
  - destruct (Controller.replace_self snap l) as [l0|]; [|done]. intros [= <-] [->|Hx]%elem_of_cons; [right; by left|].
    destruct (IH l0 eq_refl Hx); [by left|right; by right].
Qed.

Lemma fetchSiblings_keeps who K name snap :
  seen K name snap ->
  keeps who K (Controller.fetchSiblings snap) (fun K' r => knows_less K K' /\ match r with Ok l => siblings_of K' snap l | Err _ => True end).
Proof.
  intros Hs. unfold Controller.fetchSiblings. case_bool_decide as Hg.
  - split; [reflexivity|]. split; [|intros Hn x ->%list_elem_of_singleton; done].
    intros Hn. destruct (seen_own _ _ _ Hs Hn) as (_ & Hin & _). done.
  - unfold kbind. apply keeps_bind, keeps_call; [done|]. intros [l|e] K' HK Hl; lazy beta match; [|done]. split; [done|].
    assert (sc_Name snap <> X) as Hne. { intros Hn. destruct (seen_own _ _ _ Hs Hn) as (_ & _ & (_ & _ & _ & _ & ? & _) & _). done. }
    specialize (Hl Hg). split; [done|]. intros _ x Hx. destruct l as [|y l]; [by apply list_elem_of_singleton in Hx as ->|].
    destruct (Controller.replace_self snap (y :: l)) as [l'|] eqn:E; cbn [default] in Hx.
    + destruct (replace_self_in _ _ _ _ E Hx) as [->|Hin]; [done|by apply Hl].
    + apply elem_of_app in Hx as [Hx| ->%list_elem_of_singleton]; [by apply Hl|done].
Qed.

Lemma commit_keeps who K snap l next :
  siblings_of K snap l -> (Controller.d_TakeSnapshot next = true -> sc_Name snap = X -> may_promote K) ->
  keeps who K (Controller.commit_phase snap l next) (grows K).
Proof.
  intros [H1 H2] Ht. unfold Controller.commit_phase. destruct (negb _).
  - apply keeps_kseq; [|intros; done|intros; done]. apply flipGroup_keeps. intros E (x & Hx & Hn). apply Ht; [done|].
    destruct (decide (sc_Name snap = X)) as [|Hs]; [done|]. by destruct (H2 Hs x Hx).
  - by apply maybeFlipSpec_keeps.
Qed.

Lemma advance_keeps who K snap l :
  siblings_of K snap l -> keeps who K (Controller.advancePhase snap l (Controller.nextPhase snap l)) (grows K).
Proof.
  intros Hs.
  assert (Controller.d_TakeSnapshot (Controller.nextPhase snap l) = true -> sc_Name snap = X -> may_promote K) as Ht.
  { intros Hd Hn. destruct Hs as [H1 _]. destruct (H1 Hn) as [-> Hin]. exists snap. split; [done|]. revert Hd. unfold Controller.nextPhase.
    destruct (ss_SuspendIO (sc_Spec snap)), (ss_TakeSnapshot (sc_Spec snap)); try by right.
    - unfold Controller.allSiblingsSuspendAcked. cbn [forallb]. rewrite andb_true_r. destruct (Controller.on_nodes _ snap) eqn:E; cbn; [by left|done].
    - by destruct (_ || _). }
  unfold Controller.advancePhase. destruct (_ && _).
  - unfold Controller.openGroupSuspendBarrier. destruct (negb _); [apply keeps_done|]. apply keeps_kseq; [apply gate_keeps|intros K' o HK|intros; done].
    eapply keeps_weaken; [done|]. destruct o; [apply abort_keeps|]. apply keeps_kseq; [by apply flipGroup_keeps|intros; done|intros; done].
  - destruct (Controller.isPhase2Promotion _ _); [|by apply commit_keeps]. apply keeps_kseq; [apply gate_keeps|intros K' o HK|intros; done].
    eapply keeps_weaken; [done|]. destruct o; [apply abort_keeps|]. apply commit_keeps; [by eapply siblings_mono|].
    intros. eapply may_promote_mono; [done|auto].
Qed.

Lemma check_keeps who K snap l : keeps who K (Controller.checkAbortConditions snap l) (grows K).
Proof.
  unfold Controller.checkAbortConditions. destruct (Controller.anySiblingFailed l).
  { apply keeps_kseq; [by apply flipGroup_keeps|intros; done|intros; done]. }
  destruct (Controller.inSuspendPhase snap l); [|apply keeps_done]. apply keeps_bind, keeps_call; [done|]. intros now K' HK _. lazy beta.
  eapply keeps_weaken; [done|]. destruct (Controller.suspendDeadlineExceeded snap now); [|apply keeps_done].
  apply keeps_kseq; [apply abort_keeps|intros; done|intros; done].
Qed.

Lemma orchestrate_keeps who K name snap : seen K name snap -> keeps who K (Controller.orchestrate snap) (grows K).
Proof.
  intros Hs. unfold Controller.orchestrate. unfold kbind at 1. apply keeps_bind.
  eapply keeps_mono; [reflexivity| | |eapply fetchSiblings_keeps, Hs].
  - intros K1 [l|e] HK [_ Hl]; [|done]. eapply keeps_weaken; [done|]. apply keeps_kseq; [apply check_keeps|intros K2 o HK2|intros; done].
    eapply keeps_weaken; [done|]. destruct o; [apply keeps_done|]. case_bool_decide; [apply keeps_done|].
    destruct (negb _); [|apply advance_keeps; by eapply siblings_mono].
    unfold Controller.requeueIfSuspended. destruct (negb _); [apply keeps_done|]. apply keeps_bind, keeps_call; [done|]. intros now K3 HK3 _. done.
  - intros K1 K2 [l|e] HK [H1 H2]; (split; [by etrans|]); [by eapply siblings_mono|done].
Qed.

Lemma controller_keeps K name : keeps None K (Controller.Reconcile name) (grows K).
Proof.
  unfold Controller.Reconcile. apply keeps_bind, keeps_call; [done|]. intros [snap|e] K' HK Hl; cbn in Hl; lazy beta match; [|by destruct (IsNotFound e)].
  eapply keeps_weaken; [done|]. destruct (sc_Deleting snap); [apply keeps_done|].
  destruct (Controller.adopted snap && _) eqn:Ea; [|by eapply orchestrate_keeps].
  apply andb_true_iff in Ea as [Ea _]. unfold Controller.backfillAdoptedSnapshot. destruct (Controller.on_nodes _ snap); [apply keeps_done|].
  apply keeps_kseq; [|intros; done|intros; done]. apply keeps_retry. intros K2 HK2. unfold Controller.backfill_body.
  apply keeps_bind, keeps_call; [done|]. intros [x|e] K3 HK3 Hx; cbn in Hx; lazy beta match; [|by destruct (IsNotFound e)].
  case_bool_decide; [done|]. apply keeps_call; [|intros ? K4 HK4 _; unfold grows; by etrans]. cbn. intros Hn. exfalso.
  destruct (seen_own K3 _ x Hx Hn) as (Hs & _). destruct (seen_own K' name snap Hl Hs) as (_ & _ & (_ & _ & _ & _ & _ & _ & Hna) & _). congruence.
Qed.

(** ** The satellite *)

Section Satellite.
Context (node : string).
Notation who := (Some node).

Lemma upsert_existing_in mutate l l' e :
  Satellite.upsert_existing node mutate l = Some (Some l') -> e ∈ l' ->
  e ∈ l \/ exists e0, e0 ∈ l /\ pn_NodeName e0 = node /\ mutate e0 = Some e.
Proof.
  revert l'. induction l as [|x l IH]; intros l'; cbn; [done|]. case_bool_decide as Hx.
  - destruct (mutate x) as [x'|] eqn:E; [|done]. intros [= <-] [->|He]%elem_of_cons; [right; exists x; split_and!; [by left|done|done]|left; by right].
  - destruct (Satellite.upsert_existing node mutate l) as [[l0|]|] eqn:E; try done. intros [= <-] [->|He]%elem_of_cons; [left; by left|].
    destruct (IH l0 eq_refl He) as [?|(e0 & ? & ?)]; [left; by right|right; exists e0; split; [by right|done]].
Qed.

Definition fresh_entry : SnapshotPerNodeStatus := mkPerNode node 0 false false false.

Lemma upsert_in mutate l l' e :
  Satellite.upsertPerNodeStatusInPlace node l mutate = Some l' -> e ∈ l' ->
  e ∈ l \/ exists e0, (e0 ∈ l \/ e0 = fresh_entry) /\ pn_NodeName e0 = node /\ mutate e0 = Some e.
Proof.
  unfold Satellite.upsertPerNodeStatusInPlace. destruct (Satellite.upsert_existing node mutate l) as [o|] eqn:E.
  - intros -> He. destruct (upsert_existing_in _ _ _ _ E He) as [?|(e0 & ? & ? & ?)]; [by left|right; eauto 10].
  - destruct (mutate _) as [e1|] eqn:Em; [|done]. intros [= <-] [He|He]%elem_of_app; [by left|].
    apply list_elem_of_singleton in He as ->. right. exists fresh_entry. split_and!; [by right|done|done].
Qed.

Lemma fresh_backed K : backed K fresh_entry.
Proof. split; cbn; [done|]. by intros [?|?]. Qed.

(** A change of the status that is backed when the entries before were. *)
Definition change_backed (K : know) (change : SnapshotStatus -> option SnapshotStatus) : Prop :=
  forall K' st st', knows_less K K' -> change st = Some st' ->
    (forall e, e ∈ sst_NodeStatus st -> backed K' e) -> forall e, e ∈ sst_NodeStatus st' -> backed K' e.

Lemma upsert_backed K mutate l l' :
  (forall e e', pn_NodeName e = node -> backed K e -> mutate e = Some e' -> backed K e') ->
  Satellite.upsertPerNodeStatusInPlace node l mutate = Some l' -> (forall e, e ∈ l -> backed K e) -> forall e, e ∈ l' -> backed K e.
Proof.
  intros Hm Hu Hb e He. destruct (upsert_in _ _ _ _ Hu He) as [?|(e0 & H0 & Hn & Hmu)]; [auto|].
  eapply Hm; [done| |done]. destruct H0 as [?| ->]; [auto|apply fresh_backed].
Qed.

Lemma acked_backed K value : (value = true -> (R, node) ∈ k_suspended K) -> change_backed K (Satellite.field_change node (Satellite.set_acked value)).
Proof.
  intros Hv K' st st' HK. unfold Satellite.field_change.
  destruct (Satellite.upsertPerNodeStatusInPlace _ _ _) as [l|] eqn:E; [|done]. intros [= <-] Hb. cbn. eapply upsert_backed; [|exact E|done].
  intros e e' Hn [H1 H2]. unfold Satellite.set_acked. destruct (Bool.eqb _ _); [done|]. intros [= <-]. split; cbn; [|done].
  intros ->. rewrite Hn. by apply HK, Hv.
Qed.

Lemma failed_backed K : change_backed K (Satellite.failed_change node).
Proof.
  intros K' st st' HK. unfold Satellite.failed_change. destruct (Controller.add_flag st _) as [st1 m1] eqn:E1.
  assert (sst_NodeStatus st1 = sst_NodeStatus st) as Hst1 by (unfold Controller.add_flag in E1; destruct (Contains _ _); by injection E1 as <- _).
  destruct (Satellite.upsertPerNodeStatusInPlace _ _ _) as [l|] eqn:E.
  - intros [= <-] Hb. cbn. eapply upsert_backed; [|exact E|by rewrite Hst1]. intros e e' Hn [H1 H2]. unfold Satellite.set_failed.
    destruct (pn_Failed e); [done|]. intros [= <-]. done.
  - destruct m1; [|done]. intros [= <-] Hb. by rewrite Hst1.
Qed.

Lemma ready_backed K t : (R, N, node) ∈ k_taken K -> change_backed K (Satellite.ready_change node t).
Proof.
  intros Ht K' st st' HK. unfold Satellite.ready_change. destruct (Satellite.perNodeStatusReady _ _); [done|]. intros [= <-] Hb e He. cbn in He. unfold Satellite.upsertPerNodeStatus in He.
  assert (forall l : list SnapshotPerNodeStatus, (forall e, e ∈ l -> backed K' e) -> forall e, e ∈ (fun e => if bool_decide (pn_NodeName e = node)
    then mkPerNode node t true (pn_SuspendIOAcked e) (pn_Failed e) else e) <$> l -> backed K' e) as Hmap.
  { intros l Hl x (y & -> & Hy)%list_elem_of_fmap. case_bool_decide as Hn; [|auto]. destruct (Hl y Hy) as [H1 H2].
    split; cbn; [by rewrite <- Hn|intros _; by apply HK]. }
  match type of He with context [if ?b then _ else _] => destruct b end; [by eapply Hmap|]. apply elem_of_app in He as [He|He]; [by eapply Hmap|].
  apply list_elem_of_singleton in He as ->. split; cbn; [done|intros _; by apply HK].
Qed.

Lemma stamp_loop_keeps K n name change :
  (name = X -> change_backed K change) -> keeps who K (Satellite.stamp_loop n name change) (grows K).
Proof.
  revert K. induction n as [|n IH]; intros K Hc; cbn [Satellite.stamp_loop]; [apply keeps_done|].
  apply keeps_bind, keeps_call; [done|]. intros [x|e] K' HK Hl; cbn in Hl; lazy beta match; [|by destruct (IsNotFound e)].
  destruct (change (sc_Status x)) as [st|] eqn:E; [|done]. eapply keeps_weaken; [done|]. apply keeps_bind, keeps_call.
  - cbn. intros Hn e He. destruct (seen_own K' name x Hl Hn) as (Hx & _ & _ & Hb). by eapply (Hc Hx K').
  - intros [u|e] K2 HK2 _; lazy beta match; [done|]. destruct (IsConflict e); [|done]. eapply keeps_weaken; [done|]. apply IH.
    intros Hx K3 st3 st3' HK3. apply (Hc Hx). etrans; [done|]. by etrans.
Qed.

Lemma stamp_then K n name change (r : ctrl_result) :
  (name = X -> change_backed K change) ->
  keeps who K (kbind (Satellite.stamp_loop n name change) (fun _ => done_with r)) (grows K).
Proof. intros Hc. apply keeps_kseq; [by apply stamp_loop_keeps|intros; done|intros; done]. Qed.

(** A version read of a snapshot whose definition is [R] is one of [X]. *)
Lemma seen_rd K name x : seen K name x -> Satellite.rd_of x = R -> name = X /\ x ∈ k_hist K /\ fixed_parts x.
Proof.
  intros [H1 H2] Hr. destruct (decide (name = X)) as [->|Hn]; [destruct (H1 eq_refl) as (? & ? & _); done|].
  destruct (H2 Hn) as [_ ?]. done.
Qed.

Lemma own_acked x : Satellite.perNodeStatusSuspendIOAcked node (entries x) = true -> exists e, e ∈ entries x /\ pn_SuspendIOAcked e = true.
Proof.
  unfold Satellite.perNodeStatusSuspendIOAcked, Satellite.own_entry. destruct (find _ (entries x)) as [e|] eqn:E; [|done].
  intros Ha. apply find_some in E as [Hin _]. exists e. split; [by apply list_elem_of_In|done].
Qed.

Lemma seen_name K name x : seen K name x -> sc_Name x = X -> Satellite.rd_of x = R /\ Satellite.snap_of x = N.
Proof. intros Hs Hn. destruct (seen_own _ _ _ Hs Hn) as (_ & _ & (_ & ? & ? & _) & _). done. Qed.

Lemma suspend_keeps K name x : seen K name x -> keeps who K (Satellite.handleSuspendPhase node x) (grows K).
Proof.
  intros Hs. unfold Satellite.handleSuspendPhase. apply keeps_bind, keeps_call; [done|]. intros [u|e] K' HK Hl; cbn in Hl; lazy beta match;
    (eapply keeps_weaken; [done|]); apply stamp_then; intros Hx; [|apply failed_backed].
  apply acked_backed. intros _. destruct (seen_name _ _ _ Hs Hx) as [<- _]. done.
Qed.

Lemma take_keeps K name x :
  seen K name x -> ss_TakeSnapshot (sc_Spec x) = true -> keeps who K (Satellite.handleTakeSnapshotPhase node x) (grows K).
Proof.
  intros Hs Ht. unfold Satellite.handleTakeSnapshotPhase. apply keeps_bind, keeps_call; [done|]. intros [u|e] K1 HK1 _; lazy beta match; [|done].
  eapply keeps_weaken; [done|]. unfold kbind at 1. apply keeps_bind, keeps_call.
  - intros Hr. destruct (seen_rd _ _ _ Hs Hr) as (_ & Hin & _). exists x. split; [by apply HK1|done].
  - intros [[t|[]]|e] K2 HK2 Hl; cbn in Hl; lazy beta match; try done; (eapply keeps_weaken; [done|]); apply stamp_then; intros Hx; [|apply failed_backed].
    apply ready_backed. by destruct (seen_name _ _ _ Hs Hx) as [<- <-].
Qed.

Lemma resume_keeps K name x :
  seen K name x -> ss_SuspendIO (sc_Spec x) = false -> Satellite.perNodeStatusSuspendIOAcked node (entries x) = true ->
  keeps who K (Satellite.handleResumePhase node x) (grows K).
Proof.
  intros Hs Hio Ha. unfold Satellite.handleResumePhase. apply keeps_bind, keeps_call.
  - intros Hr. destruct (seen_rd _ _ _ Hs Hr) as (_ & Hin & _). exists x. split_and!; [done|done|by apply own_acked].
  - intros [u|e] K' HK _; lazy beta match; [|done]. eapply keeps_weaken; [done|]. apply stamp_then. intros _. by apply acked_backed.
Qed.

Lemma finalizers_keeps K name x fs : seen K name x -> permitted who K (UpdateSnap (with_snap_finalizers x fs)).
Proof.
  intros Hs. split; cbn; intros Hn; [|by eapply seen_not_rd].
  destruct (seen_own _ _ _ Hs Hn) as (_ & Hin & Hf & _). split; [by apply fixed_finalizers|].
  intros Ht. exists x. auto.
Qed.

Lemma delete_keeps K name x : seen K name x -> sc_Deleting x = true -> keeps who K (Satellite.handleDelete x) (grows K).
Proof.
  intros Hs Hd. unfold Satellite.handleDelete. destruct (negb _); [apply keeps_done|]. unfold kbind at 1. apply keeps_bind, keeps_call.
  - intros Hr. destruct (seen_rd _ _ _ Hs Hr) as (_ & Hin & _). eauto.
  - intros [[]|e] K' HK _; cbn [negb]; lazy beta match; try done. eapply keeps_weaken; [done|].
    apply keeps_kseq; [|intros; done|intros; done]. apply keeps_call; [|intros; done]. eapply finalizers_keeps, seen_mono; done.
Qed.

Lemma satellite_keeps K name : keeps who K (Satellite.Reconcile node name) (grows K).
Proof.
  unfold Satellite.Reconcile. apply keeps_bind, keeps_call; [done|]. intros [x|e] K' HK Hl; cbn in Hl; lazy beta match; [|by destruct (IsNotFound e)].
  eapply keeps_weaken; [done|]. destruct (negb (Contains (ss_Nodes _) _)); [apply keeps_done|].
  destruct (sc_Deleting x) eqn:Ed; [by eapply delete_keeps|]. destruct (negb (Contains (sc_Finalizers x) _)).
  { apply keeps_kseq; [|intros; done|intros; done]. apply keeps_call; [by eapply finalizers_keeps|intros; done]. }
  unfold Satellite.handleCreate. fold (entries x).
  assert (keeps who K' (if negb (ss_TakeSnapshot (sc_Spec x)) then done_with no_requeue
    else if Satellite.perNodeStatusReady node (entries x) then done_with no_requeue else Satellite.handleTakeSnapshotPhase node x) (grows K')) as Htake.
  { destruct (ss_TakeSnapshot (sc_Spec x)) eqn:Et; cbn [negb]; [|apply keeps_done].
    destruct (Satellite.perNodeStatusReady _ _); [apply keeps_done|by eapply take_keeps]. }
  destruct (ss_SuspendIO (sc_Spec x)) eqn:Eio, (Satellite.perNodeStatusSuspendIOAcked node (entries x)) eqn:Ea; cbn [andb negb].
  - exact Htake.
  - by eapply suspend_keeps.
  - by eapply resume_keeps.
  - exact Htake.
Qed.

End Satellite.

(** ** The invariant *)

Definition deletion_seen (w : world) : Prop := exists x, x ∈ versions w X /\ sc_Deleting x = true.

Record inv (w : world) : Prop := mkInv {
  inv_fixed x : x ∈ versions w X -> fixed_parts x;
  inv_else name x : name <> X -> x ∈ versions w name -> sc_Name x = name /\ ss_ResourceDefinitionName (sc_Spec x) <> R;
  inv_promoted x : x ∈ versions w X -> ss_TakeSnapshot (sc_Spec x) = true -> exists u, u ∈ versions w X /\ all_acked u;
  inv_backed x e : x ∈ versions w X -> e ∈ entries x -> backed (known w) e;
  inv_frozen n : thaws w R = O -> (R, n) ∈ w_suspended w -> (R, n) ∈ w_frozen w;
  inv_taken n : ~ deletion_seen w -> (R, N, n) ∈ w_taken w -> is_Some (w_takes w !! (R, N, n));
  inv_count n c f : w_takes w !! (R, N, n) = Some (c, f) -> (c <= thaws w R)%nat;
  inv_all_frozen n f t : w_takes w !! (R, N, n) = Some (O, f) -> t ∈ T -> (R, t) ∈ f;
  inv_thawed n : thaws w R <> O -> ~ deletion_seen w -> resumed_in_order w -> n ∈ T -> exists f, w_takes w !! (R, N, n) = Some (O, f);
  inv_deleting x h : x ∈ versions w X -> sc_Deleting x = true -> head (versions w X) = Some h -> sc_Deleting h = true;
}.

Lemma all_match_in (p : SnapshotPerNodeStatus -> bool) x t :
  Controller.allTargetsMatch (entries x) (ss_Nodes (sc_Spec x)) p = true -> t ∈ ss_Nodes (sc_Spec x) ->
  exists e, e ∈ entries x /\ pn_NodeName e = t /\ p e = true.
Proof.
  unfold Controller.allTargetsMatch. rewrite forallb_forall. intros H Ht%list_elem_of_In. specialize (H t Ht).
  unfold Controller.by_node in H. destruct (find _ (rev (entries x))) as [e|] eqn:E; [|done].
  apply find_some in E as [Hin Hn]. apply bool_decide_eq_true in Hn. exists e. split_and!; [|done|done].
  by apply list_elem_of_In, in_rev.
Qed.

(** Once a version has every node acknowledged and nobody has resumed, everything is frozen. *)
Lemma all_frozen_now w u t : inv w -> u ∈ versions w X -> all_acked u -> thaws w R = O -> t ∈ T -> (R, t) ∈ w_frozen w.
Proof.
  intros Hw Hu Ha Hz Ht. destruct (inv_fixed w Hw u Hu) as (_ & _ & _ & HT & _).
  destruct (all_match_in _ u t Ha) as (e & He & <- & Hacked); [by rewrite HT|].
  apply (inv_frozen w Hw); [done|]. by apply (inv_backed w Hw u e Hu He).
Qed.

Lemma all_taken_now w v n : inv w -> v ∈ versions w X -> Controller.on_nodes Controller.allNodesReady v = true -> ~ deletion_seen w ->
  n ∈ T -> is_Some (w_takes w !! (R, N, n)).
Proof.
  intros Hw Hv Hr Hd Hn. destruct (inv_fixed w Hw v Hv) as (_ & _ & _ & HT & _).
  destruct (all_match_in _ v n Hr) as (e & He & <- & Hready); [by rewrite HT|].
  apply (inv_taken w Hw); [done|]. apply (inv_backed w Hw v e Hv He). by left.
Qed.

Lemma versions_add w name x name' :
  versions (add_version w name x) name' = if decide (name = name') then x :: versions w name' else versions w name'.
Proof. unfold versions at 1. cbn. destruct (decide (name = name')) as [->|]; [by rewrite lookup_insert_eq|by rewrite lookup_insert_ne]. Qed.

(** A new version of [X]. *)
Lemma inv_add w x :
  inv w -> fixed_parts x -> (ss_TakeSnapshot (sc_Spec x) = true -> may_promote (known w)) ->
  (forall e, e ∈ entries x -> backed (known w) e) ->
  (deletion_seen w -> sc_Deleting x = true) -> inv (add_version w X x).
Proof.
  intros Hw Hf Hp Hb Hd. assert (versions (add_version w X x) X = x :: versions w X) as EX by by rewrite versions_add, decide_True.
  assert (deletion_seen w -> deletion_seen (add_version w X x)) as Hdel.
  { intros (y & Hy & ?). exists y. rewrite EX. split; [by right|done]. }
  assert (resumed_in_order (add_version w X x) -> resumed_in_order w) as Hord.
  { intros H y Hy. apply H. rewrite EX. by right. }
  assert (knows_less (known w) (known (add_version w X x))) as HK.
  { split; [|done]. intros y Hy. cbn [known k_hist] in *. rewrite EX. by right. }
  apply mkInv.
  - intros y. rewrite EX. intros [->|Hy]%elem_of_cons; [done|by apply (inv_fixed w Hw)].
  - intros name y Hn. rewrite versions_add, decide_False by done. by apply (inv_else w Hw).
  - intros y. rewrite EX. intros Hy Ht.
    assert (exists u, u ∈ versions w X /\ all_acked u) as (u & Hu & Ha).
    { apply elem_of_cons in Hy as [->|Hy]; [|by eapply inv_promoted]. destruct (Hp Ht) as (u & Hu & [Ha|Ha]); [eauto|by eapply inv_promoted]. }
    exists u. split; [by right|done].
  - intros y e. rewrite EX. intros [->|Hy]%elem_of_cons He; (eapply backed_mono; [exact HK|]); [auto|by eapply inv_backed].
  - intros n. apply (inv_frozen w Hw).
  - intros n Hnd. apply (inv_taken w Hw). auto.
  - intros n c f. apply (inv_count w Hw).
  - intros n f t. apply (inv_all_frozen w Hw).
  - intros n Hz Hnd Ho. apply (inv_thawed w Hw); auto.
  - intros y h. rewrite EX. cbn. intros [->|Hy]%elem_of_cons Hdy [= <-]; [done|]. apply Hd. by exists y.
Qed.

(** Whatever leaves the versions of [X] and the state of [R] alone. *)
Lemma inv_same w w' :
  inv w -> versions w' X = versions w X ->
  (forall name x, name <> X -> x ∈ versions w' name -> sc_Name x = name /\ ss_ResourceDefinitionName (sc_Spec x) <> R) ->
  (forall n, (R, n) ∈ w_suspended w' <-> (R, n) ∈ w_suspended w) -> (forall n, (R, n) ∈ w_frozen w -> (R, n) ∈ w_frozen w') -> thaws w' R = thaws w R ->
  (forall n, w_takes w' !! (R, N, n) = w_takes w !! (R, N, n)) -> (forall n, (R, N, n) ∈ w_taken w' <-> (R, N, n) ∈ w_taken w) -> inv w'.
Proof.
  intros Hw EX Helse Hs Hf Hz Ht Htk.
  assert (deletion_seen w' <-> deletion_seen w) as Hdel by (unfold deletion_seen; by rewrite EX).
  assert (resumed_in_order w' <-> resumed_in_order w) as Hord by (unfold resumed_in_order; by rewrite EX).
  apply mkInv.
  - intros x. rewrite EX. apply (inv_fixed w Hw).
  - exact Helse.
  - intros x. rewrite EX. apply (inv_promoted w Hw).
  - intros x e. rewrite EX. intros Hx He. destruct (inv_backed w Hw x e Hx He) as [H1 H2]. split; cbn; intros; [by apply Hs, H1|by apply Htk, H2].
  - intros n. rewrite Hz, Hs. intros ??. by apply Hf, (inv_frozen w Hw).
  - intros n. rewrite Hdel, Htk, Ht. apply (inv_taken w Hw).
  - intros n c f. rewrite Ht, Hz. apply (inv_count w Hw).
  - intros n f t. rewrite Ht. apply (inv_all_frozen w Hw).
  - intros n. rewrite Hz, Hdel, Hord, Ht. apply (inv_thawed w Hw).
  - intros x h. rewrite EX. apply (inv_deleting w Hw).
Qed.

(** *** The actions on a node *)

Lemma inv_freeze w rd node : inv w -> inv (freeze w rd node).
Proof.
  intros Hw. assert (knows_less (known w) (known (freeze w rd node))) as HK by (split; [done|split; [set_solver|done]]).
  apply mkInv; try apply Hw.
  - intros x e Hx He. eapply backed_mono; [exact HK|]. by eapply (inv_backed w Hw).
  - intros n Hz. cbn. rewrite !elem_of_union. intros [?|?]; [by left|right]. by apply (inv_frozen w Hw).
Qed.

Lemma thaws_thaw w rd node rd' : thaws (thaw w rd node) rd' = if decide (rd = rd') then S (thaws w rd') else thaws w rd'.
Proof. unfold thaws at 1. cbn. destruct (decide (rd = rd')) as [->|]; [by rewrite lookup_insert_eq|by rewrite lookup_insert_ne]. Qed.

Lemma inv_thaw w rd node :
  inv w -> (rd = R -> exists v, v ∈ versions w X /\ ss_SuspendIO (sc_Spec v) = false /\ exists e, e ∈ entries v /\ pn_SuspendIOAcked e = true) ->
  inv (thaw w rd node).
Proof.
  intros Hw Hp. destruct (decide (rd = R)) as [->|Hne].
  - assert (thaws (thaw w R node) R = S (thaws w R)) as Hz by by rewrite thaws_thaw, decide_True.
    apply mkInv; try apply Hw.
    + intros n. rewrite Hz. done.
    + intros n c f Hc. rewrite Hz. apply (inv_count w Hw) in Hc. lia.
    + intros n _ Hd Ho Hn. destruct (decide (thaws w R = O)) as [E|E]; [|by apply (inv_thawed w Hw)].
      destruct (Hp eq_refl) as (v & Hv & Hio & Ha). destruct (all_taken_now w v n Hw Hv (Ho v Hv Hio Ha) Hd Hn) as [[c f] Hc].
      exists f. apply (inv_count w Hw) in Hc as Hle. replace c with O in Hc by lia. done.
  - apply (inv_same w); [done|done|apply (inv_else w Hw)|done| |by rewrite thaws_thaw, decide_False|done|done].
    intros n Hn. cbn. rewrite elem_of_difference, elem_of_singleton. split; [done|]. by intros [= -> _].
Qed.

Lemma inv_take w rd snap node :
  inv w -> (rd = R -> exists v, v ∈ versions w X /\ ss_TakeSnapshot (sc_Spec v) = true) -> inv (take_snapshot w rd snap node).
Proof.
  intros Hw Hp. destruct (decide ((rd, snap) = (R, N))) as [[= -> ->]|Hne].
  - destruct (Hp eq_refl) as (v & Hv & Ht). destruct (inv_promoted w Hw v Hv Ht) as (u & Hu & Ha).
    assert (knows_less (known w) (known (take_snapshot w R N node))) as HK by (split; [done|split; [done|set_solver]]).
    assert (forall n, w_takes (take_snapshot w R N node) !! (R, N, n)
      = match w_takes w !! (R, N, n) with Some r => Some r | None => if decide (n = node) then Some (thaws w R, w_frozen w) else None end) as Htk.
    { intros n. cbn. destruct (w_takes w !! (R, N, node)) as [r|] eqn:E.
      - destruct (w_takes w !! (R, N, n)) eqn:E'; [done|]. rewrite decide_False; [done|]. intros ->. congruence.
      - destruct (decide (n = node)) as [->|Hn]; [by rewrite lookup_insert_eq, E|]. rewrite lookup_insert_ne by congruence. by destruct (w_takes w !! (R, N, n)). }
    apply mkInv; try apply Hw.
    + intros x e Hx He. eapply backed_mono; [exact HK|]. by eapply (inv_backed w Hw).
    + intros n Hd. rewrite Htk. cbn. rewrite elem_of_union, elem_of_singleton. intros [[= ->]|Hin].
      * rewrite decide_True by done. by destruct (w_takes w !! _).
      * by destruct (inv_taken w Hw n Hd Hin) as [r ->].
    + intros n c f. rewrite Htk. destruct (w_takes w !! (R, N, n)) as [r|] eqn:E; [intros [= ->]; by eapply (inv_count w Hw)|].
      destruct (decide (n = node)); [|done]. intros [= <- <-]. done.
    + intros n f t. rewrite Htk. destruct (w_takes w !! (R, N, n)) as [r|] eqn:E; [intros [= ->]; by eapply (inv_all_frozen w Hw)|].
      destruct (decide (n = node)); [|done]. intros [= Hz <-] Hin. by eapply all_frozen_now.
    + intros n Hz Hd Ho Hn. rewrite Htk. destruct (inv_thawed w Hw n Hz Hd Ho Hn) as [f ->]. by exists f.
  - apply (inv_same w); [done|done|apply (inv_else w Hw)|done|done|done| |].
    + intros n. cbn. destruct (w_takes w !! (rd, snap, node)); [done|]. rewrite lookup_insert_ne; [done|congruence].
    + intros n. cbn. rewrite elem_of_union, elem_of_singleton. split; [intros [?|?]; [congruence|done]|by right].
Qed.

Lemma inv_drop w rd snap node : inv w -> (rd = R -> deletion_seen w) -> inv (drop_snapshot w rd snap node).
Proof.
  intros Hw Hp. destruct (decide (rd = R)) as [->|Hne].
  - specialize (Hp eq_refl). assert (forall n r, w_takes (drop_snapshot w R snap node) !! (R, N, n) = Some r -> w_takes w !! (R, N, n) = Some r) as Htk.
    { intros n r. cbn. by intros [_ ?]%lookup_delete_Some. }
    apply mkInv; try apply Hw; try done.
    + intros n c f Hc. apply Htk in Hc. by eapply (inv_count w Hw).
    + intros n f t Hc. apply Htk in Hc. by eapply (inv_all_frozen w Hw).
  - apply (inv_same w); [done|done|apply (inv_else w Hw)|done|done|done| |done]. intros n. cbn. rewrite lookup_delete_ne; [done|congruence].
Qed.

(** *** Writes to objects *)

Lemma current_head w name cur : current w name = Some cur -> head (versions w name) = Some cur.
Proof. unfold current. by destruct (decide _). Qed.
Lemma head_in {A} (l : list A) x : head l = Some x -> x ∈ l.
Proof. destruct l; [done|]. cbn. intros [= ->]. by left. Qed.

Lemma inv_forget w name : inv w -> inv (forget w name).
Proof. intros Hw. apply (inv_same w); done || apply (inv_else w Hw). Qed.

Lemma inv_other_version w y : inv w -> sc_Name y <> X -> ss_ResourceDefinitionName (sc_Spec y) <> R -> inv (add_version w (sc_Name y) y).
Proof.
  intros Hw Hn Hr. apply (inv_same w); try done; [by rewrite versions_add, decide_False|].
  intros name x Hx. rewrite versions_add. destruct (decide (sc_Name y = name)) as [<-|]; [|by apply (inv_else w Hw)].
  intros [->|?]%elem_of_cons; [done|by apply (inv_else w Hw)].
Qed.

Lemma deletion_seen_current w cur : inv w -> current w X = Some cur -> deletion_seen w -> sc_Deleting cur = true.
Proof. intros Hw Hc%current_head (x & Hx & Hd). by eapply (inv_deleting w Hw). Qed.

Lemma write_spec_inv w cur x :
  inv w -> current w (sc_Name x) = Some cur -> permitted None (known w) (UpdateSnap x) -> inv (write_spec w cur x).
Proof.
  intros Hw Hc [H1 H2]. assert (inv (add_version w (sc_Name x) (updated cur x))) as Hadd.
  { destruct (decide (sc_Name x = X)) as [E|E].
    - rewrite E in *. destruct (H1 eq_refl) as [Hf Hp]. pose proof (head_in _ _ (current_head _ _ _ Hc)) as Hin.
      destruct (inv_fixed w Hw cur Hin) as (En & _ & _ & _ & _ & El & _). destruct Hf as (_ & Hf).
      apply inv_add; [done| |done| |].
      + split; [done|]. destruct Hf as (? & ? & ? & ? & _ & ?). done.
      + intros e He. by eapply (inv_backed w Hw cur).
      + cbn. by apply deletion_seen_current.
    - assert (sc_Name cur = sc_Name x) as En by (apply (inv_else w Hw); [done|by apply head_in, current_head]).
      pose proof (inv_other_version w (updated cur x) Hw) as Ho. cbn [updated sc_Name sc_Spec] in Ho. rewrite En in Ho. by apply Ho; [|apply H2]. }
  unfold write_spec. destruct (_ && _); [by apply inv_forget|done].
Qed.

Lemma write_status_inv w cur x :
  inv w -> current w (sc_Name x) = Some cur -> permitted None (known w) (UpdateSnapStatus x) -> inv (write_status w cur x).
Proof.
  intros Hw Hc H1. unfold write_status. pose proof (head_in _ _ (current_head _ _ _ Hc)) as Hin. destruct (decide (sc_Name x = X)) as [E|E].
  - rewrite E in *. pose proof (inv_fixed w Hw cur Hin) as Hf. apply inv_add; [done|done| | |].
    + cbn. intros Ht. exists cur. auto.
    + exact (H1 E).
    + cbn. by apply deletion_seen_current.
  - destruct (inv_else w Hw (sc_Name x) cur E Hin) as [En Hr].
    pose proof (inv_other_version w (status_updated cur x) Hw) as Ho. cbn [status_updated sc_Name sc_Spec] in Ho. rewrite En in Ho. by apply Ho.
Qed.

(** *** Every action of an agent that keeps to the rules *)

Lemma acts_inv w who c a w' : inv w -> permitted who (known w) c -> acts w who c a w' -> inv w'.
Proof.
  intros Hw Hp Ha. destruct Ha; try done; try by apply write_spec_inv || by apply write_status_inv || by apply inv_freeze.
  - by apply inv_thaw.
  - by apply inv_thaw.
  - by apply inv_take.
  - by apply inv_take.
  - by apply inv_drop.
Qed.

Lemma acts_learned w who c a w' : inv w -> acts w who c a w' -> learned who (known w') c a.
Proof.
  intros Hw Ha. destruct Ha; cbn; try done.
  - split; intros Hn.
    + subst. split_and!; [done|by apply (inv_fixed w Hw)|]. intros e He. by eapply (inv_backed w Hw).
    + destruct (inv_else w Hw name x Hn) as [-> ?]; done.
  - intros Hg x Hx. destruct (H x Hx) as [Hv Hl]. intros Hn. rewrite Hn in Hv.
    destruct (inv_fixed w Hw x Hv) as (_ & _ & _ & _ & _ & E & _). congruence.
  - set_solver.
  - set_solver.
  - destruct a as [[t|]|]; [|done|done]. by destruct (H t).
  - destruct a as [[t|]|]; [|done|done]. by destruct (H t).
Qed.

Lemma knows_add w name x : knows_less (known w) (known (add_version w name x)).
Proof. split; [|done]. intros y Hy. cbn [known k_hist] in *. rewrite versions_add. destruct (decide _); [by right|done]. Qed.
Lemma knows_write_spec w cur x : knows_less (known w) (known (write_spec w cur x)).
Proof. unfold write_spec. pose proof (knows_add w (sc_Name x) (updated cur x)). by destruct (_ && _). Qed.

Lemma acts_knows w who c a w' : acts w who c a w' -> knows_less (known w) (known w').
Proof.
  destruct 1; try reflexivity; try apply knows_write_spec; try apply knows_add; (split; [done|split; cbn; set_solver]).
Qed.

Lemma others_inv w w' : inv w -> others w w' -> inv w' /\ knows_less (known w) (known w').
Proof.
  intros Hw Ho. revert Hw. destruct Ho as [w0 cur x Hc Hf Hsp Hst Hd|w0 name|w0 y Hn Hr]; intros Hw.
  - split; [|apply knows_add]. pose proof (head_in _ _ (current_head _ _ _ Hc)) as Hin. apply inv_add; [done|done| | |].
    + rewrite Hsp. intros Ht. exists cur. auto.
    + unfold entries. rewrite Hst. intros e He. by eapply (inv_backed w0 Hw cur).
    + intros Hds. apply Hd. by eapply deletion_seen_current.
  - split; [by apply inv_forget|reflexivity].
  - split; [by apply inv_other_version|apply knows_add].
Qed.

(** ** The system *)

Definition sys_inv (sy : system) : Prop :=
  inv (sys_world sy) /\ forall i who p, sys_agents sy !! i = Some (who, p) -> keeps who (known (sys_world sy)) p (fun _ _ => True).

Lemma keeps_more who K K' {A} (p : prog sanswer A) : knows_less K K' -> keeps who K p (fun _ _ => True) -> keeps who K' p (fun _ _ => True).
Proof. intros HK. by apply keeps_mono. Qed.

Lemma pass_keeps_agents who K name : keeps who K (pass who name) (fun _ _ => True).
Proof.
  apply (keeps_mono who K K _ (grows K)); [reflexivity|done|unfold grows; intros; by etrans|].
  destruct who as [node|]; [apply satellite_keeps|apply controller_keeps].
Qed.

Lemma step_inv sy sy' : step others sy sy' -> sys_inv sy -> sys_inv sy'.
Proof.
  intros [w ags i who name|w ags i|w ags i who c k a w' Hi Ha|w ags w' He] [Hw Hags]; cbn [sys_world sys_agents] in *.
  - split; [done|]. intros j who' p. cbn. intros [[_ [= <- <-]]|[_ Hj]]%lookup_insert_Some; [apply pass_keeps_agents|by eapply Hags].
  - split; [done|]. intros j who' p. cbn. intros [_ Hj]%lookup_delete_Some. by eapply Hags.
  - pose proof (Hags _ _ _ Hi) as [Hp Hk]. split; [by eapply acts_inv|]. intros j who' p. cbn.
    intros [[_ [= <- <-]]|[_ Hj]]%lookup_insert_Some.
    + apply Hk; [by eapply acts_knows|by eapply acts_learned].
    + eapply keeps_more; [by eapply acts_knows|by eapply Hags].
  - destruct (others_inv w w' Hw He) as [Hw' HK]. split; [done|]. intros j who' p Hj. eapply keeps_more; [done|by eapply Hags].
Qed.

Lemma start_inv x : fresh x -> sys_inv (starts x).
Proof.
  intros (Hf & Ht & He). split; [|done]. assert (versions (sys_world (starts x)) X = [x]) as EX by (unfold versions; cbn; by rewrite lookup_singleton_eq).
  apply mkInv; rewrite ?EX; try done.
  - by intros y ->%list_elem_of_singleton.
  - intros name y Hn. unfold versions. cbn. rewrite lookup_singleton_ne by done. by intros ?%elem_of_nil.
  - intros y ->%list_elem_of_singleton. congruence.
  - intros y e ->%list_elem_of_singleton. unfold entries. rewrite He. by intros ?%elem_of_nil.
  - intros y h ->%list_elem_of_singleton Hd [= <-]. done.
Qed.

Lemma reachable_inv x sy : fresh x -> rtc (step others) (starts x) sy -> sys_inv sy.
Proof.
  intros Hx H. apply (rtc_ind_r (fun sy => sys_inv sy) (starts x) (R := step others)); [by apply start_inv| |done].
  intros. by eapply step_inv.
Qed.

(** ** What is reported *)

(** A node that a successful report counts has an entry with the time of its snapshot. *)
Lemma reported_entry cur diskful n :
  fixed_parts cur -> Report.reported_successful cur diskful = true -> n ∈ T -> n ∈ diskful ->
  exists e, e ∈ entries cur /\ pn_NodeName e = n /\ pn_CreateTimestamp e <> 0.
Proof.
  intros (_ & _ & _ & HT & _). unfold Report.reported_successful. rewrite HT.
  intros [_ [_ Hsub%bool_decide_eq_true]%andb_true_iff]%andb_true_iff Hn Hd.
  assert (n ∈ Report.successDenominator T diskful) as Hin.
  { unfold Report.successDenominator. destruct T; [by apply not_elem_of_nil in Hn|]. by rewrite elem_of_filter, elem_of_list_to_set. }
  apply Hsub in Hin. rewrite elem_of_list_to_set in Hin. apply list_elem_of_fmap in Hin as (pn & -> & [Hts Hpn]%list_elem_of_filter).
  unfold Report.wirePerNodeSnapshots in Hpn. unfold entries. destruct (sst_NodeStatus (sc_Status cur)) as [|e0 es] eqn:E.
  - apply list_elem_of_fmap in Hpn as (m & -> & _). done.
  - apply list_elem_of_fmap in Hpn as (e & -> & He). eauto.
Qed.

Lemma reported_live cur diskful : Report.reported_successful cur diskful = true -> sc_Deleting cur = false.
Proof.
  unfold Report.reported_successful, Report.withDeletingFlag. destruct (sc_Deleting cur); [|done]. cbn [andb].
  intros [H%negb_true_iff _]%andb_true_iff. exfalso. revert H.
  destruct (Contains (sst_Flags (sc_Status cur)) Report.SnapshotFlagDelete) eqn:E; cbn [negb].
  - intros H. apply not_true_iff_false in H. apply H, existsb_exists. exists Report.SnapshotFlagDelete.
    split; [|done]. by apply list_elem_of_In, Contains_true.
  - rewrite existsb_app. cbn. by rewrite orb_true_r.
Qed.

(** C3: A snapshot that was made as an object of its own (in no group, not adopted from LINSTOR) and is the
    only snapshot of its resource, and that is reported successful for the diskful nodes, is consistent: on
    every one of them that it names, the snapshot was taken while the I/O of the resource was suspended on
    all nodes it names, and not resumed in between. This holds over all interleavings of the controllers,
    the satellites and other writers, who leave the flags and the status of the snapshot alone and make no
    other snapshot of the resource, provided no abort interfered: no version of the object told a node that
    had suspended to resume before all nodes were ready. *)
Theorem successful_snapshot_is_consistent x sy cur diskful n :
  fresh x -> rtc (step others) (starts x) sy -> current (sys_world sy) X = Some cur ->
  Report.reported_successful cur diskful = true -> resumed_in_order (sys_world sy) -> n ∈ T -> n ∈ diskful ->
  exists f, w_takes (sys_world sy) !! (R, N, n) = Some (O, f) /\ forall t, t ∈ T -> (R, t) ∈ f.
Proof.
  intros Hx Hrun Hcur Hrep Hord Hn Hd. destruct (reachable_inv x sy Hx Hrun) as [Hw _].
  pose proof (current_head _ _ _ Hcur) as Hh. pose proof (head_in _ _ Hh) as Hin.
  assert (~ deletion_seen (sys_world sy)) as Hlive.
  { intros H. pose proof (deletion_seen_current _ _ Hw Hcur H). pose proof (reported_live _ _ Hrep). congruence. }
  destruct (reported_entry cur diskful n (inv_fixed _ Hw cur Hin) Hrep Hn Hd) as (e & He & <- & Hts).
  destruct (inv_backed _ Hw cur e Hin He) as [_ Ht]. destruct (inv_taken _ Hw _ Hlive (Ht (or_intror Hts))) as [[c f] Hc].
  assert (c = O) as ->.
  { destruct (decide (thaws (sys_world sy) R = O)) as [E|E]; [apply (inv_count _ Hw) in Hc; lia|].
    destruct (inv_thawed _ Hw _ E Hlive Hord Hn) as [f' Hc']. congruence. }
  exists f. split; [done|]. intros t. by apply (inv_all_frozen _ Hw _ f t Hc).
Qed.

End Barrier.
