(* ===== verification/SnapshotExamples.v ===== *)
(** * Snapshots: passes that run to their end

    An executor of the programs of [Snapshots] whose reads are fresh and whose calls succeed, its
    runs as runs of the system of [SnapshotBarrier], a complete snapshot as a witness, and what the
    orchestration does after a deadline, to two snapshots at once, and to a snapshot that is deleted
    half way. *)

From S2P Require Import Prelude Prog Api DrbdAlloc Kube GoTime GoStrings Dispatcher Snapshots SnapshotBarrier.

(** ** The executor *)

Definition fresh_list (w : world) (gid : string) : list SnapshotCR :=
  omap (fun name => x ← current w name; if decide (sc_GroupLabel x = gid /\ sc_Name x = name) then Some x else None)
    (map_to_list (w_hist w)).*1.

(** The answer of a healthy cluster at a given time, and the world afterwards. *)
Definition serve (now : Z) (w : world) (who : option string) (c : scall) : sanswer c * world :=
  match c with
  | GetSnap name => (match current w name with Some x => Ok x | None => Err KNotFound end, w)
  | ListGroup gid => (Ok (fresh_list w gid), w)
  | ListResources => (Ok [], w)
  | UpdateSnap x =>
      match current w (sc_Name x) with
      | Some cur => if decide (sc_Version x = sc_Version cur) then (Ok tt, write_spec w cur x) else (Err KConflict, w)
      | None => (Err KNotFound, w)
      end
  | UpdateSnapStatus x =>
      match current w (sc_Name x) with
      | Some cur => if decide (sc_Version x = sc_Version cur) then (Ok tt, write_status w cur x) else (Err KConflict, w)
      | None => (Err KNotFound, w)
      end
  | SuspendResource rd => (Ok tt, freeze w rd (node_of who))
  | ResumeResource rd => (Ok tt, thaw w rd (node_of who))
  | FlushBackingDevices _ _ => (Ok tt, w)
  | CreateSnapshotOn rd snap => (Ok (Taken 1), take_snapshot w rd snap (node_of who))
  | DeleteSnapshotOn rd snap => (Ok true, drop_snapshot w rd snap (node_of who))
  | SNow => (now, w)
  end.

Lemma serve_acts now w who c : acts w who c (serve now w who c).1 (serve now w who c).2.
Proof.
  destruct c; cbn; try by econstructor.
  - destruct (current w name) as [x|] eqn:E; [|constructor]. apply act_get. by apply head_in, current_head.
  - apply act_list. intros x [name [_ H]]%list_elem_of_omap. apply bind_Some in H as (y & Hy & H).
    destruct (decide _) as [[<- <-]|]; [|done]. simplify_eq. split; [by apply head_in, current_head|done].
  - destruct (current w (sc_Name x)) as [cur|] eqn:E; [|constructor]. destruct (decide _); by econstructor.
  - destruct (current w (sc_Name x)) as [cur|] eqn:E; [|constructor]. destruct (decide _); by econstructor.
Qed.

(** A program to its end. *)
Fixpoint exec (now : Z) (w : world) (who : option string) {A} (p : prog sanswer A) : A * world :=
  match p with
  | Ret a => (a, w)
  | Do c k => exec now (serve now w who c).2 who (k (serve now w who c).1)
  end.

(** One pass after the other. *)
Record turn := mkTurn { t_who : option string; t_name : string; t_now : Z }.
Definition play (t : turn) (w : world) : world := (exec (t_now t) w (t_who t) (pass (t_who t) (t_name t))).2.
Definition plays (ts : list turn) (w : world) : world := fold_left (fun w t => play t w) ts w.

Lemma exec_steps env now w who p ags :
  exists q, rtc (step env) (mkSystem w (<[0%nat := (who, p)]> ags)) (mkSystem (exec now w who p).2 (<[0%nat := (who, q)]> ags)).
Proof.
  revert w. induction p as [a|c k IH]; intros w; cbn; [by exists (Ret a)|].
  destruct (IH (serve now w who c).1 (serve now w who c).2) as [q Hq]. exists q. eapply rtc_l; [|exact Hq].
  rewrite <- (insert_insert_eq ags 0%nat (who, k (serve now w who c).1) (who, Do c k)).
  eapply step_call; [apply lookup_insert_eq|apply serve_acts].
Qed.

Lemma plays_steps env ts w ags : exists ags', rtc (step env) (mkSystem w ags) (mkSystem (plays ts w) ags').
Proof.
  revert w ags. induction ts as [|t ts IH]; intros w ags; [by exists ags|].
  destruct (exec_steps env (t_now t) w (t_who t) (pass (t_who t) (t_name t)) ags) as [q Hq].
  destruct (IH (play t w) (<[0%nat := (t_who t, q)]> ags)) as [ags' H]. exists ags'.
  eapply rtc_l; [apply (step_start env w ags 0%nat (t_who t) (t_name t))|]. by etrans; [exact Hq|].
Qed.

(** ** A snapshot on two nodes *)

Module Complete.

Definition spec0 : SnapshotSpec := mkSnapSpec "pvc-1" "s" ["a"; "b"] [] false false "" 0.
Definition snap0 : SnapshotCR := mkSnapshotCR "pvc-1.s" 1 false (Some 0) [] ∅ "" spec0 (mkSnapStatus [] [] []).
Definition by_satellite (node : string) : turn := mkTurn (Some node) "pvc-1.s" 1.
Definition by_controller : turn := mkTurn None "pvc-1.s" 1.

Definition run : list turn :=
  [by_satellite "a"; by_controller; by_satellite "a"; by_satellite "b"; by_controller; by_satellite "b"; by_satellite "a"; by_controller;
   by_satellite "a"; by_satellite "b"].
Definition w0 : world := sys_world (starts "pvc-1.s" snap0).
Definition finished : world := plays run w0.

Definition in_order (x : SnapshotCR) : bool :=
  ss_SuspendIO (sc_Spec x) || negb (existsb pn_SuspendIOAcked (entries x)) || Controller.on_nodes Controller.allNodesReady x.

Lemma in_order_resumed w name : forallb in_order (versions w name) = true -> resumed_in_order name w.
Proof.
  rewrite forallb_forall. intros H x Hx Hio (e & He & Ha). specialize (H x). rewrite <- list_elem_of_In in H. specialize (H Hx).
  unfold in_order in H. rewrite Hio in H. cbn in H. apply orb_true_iff in H as [H|H]; [|done].
  apply negb_true_iff, not_true_iff_false in H. contradict H. apply existsb_exists. exists e. split; [by apply list_elem_of_In|done].
Qed.

Definition the_current : SnapshotCR := default snap0 (current finished "pvc-1.s").

Lemma snap0_fresh : fresh "pvc-1.s" "pvc-1" "s" ["a"; "b"] snap0.
Proof. split; [repeat split; reflexivity|split; reflexivity]. Qed.

Lemma finished_reached :
  exists ags, rtc (step (others "pvc-1.s" "pvc-1" "s" ["a"; "b"])) (starts "pvc-1.s" snap0) (mkSystem finished ags).
Proof. exact (plays_steps _ run w0 ∅). Qed.

Lemma finished_current : current finished "pvc-1.s" = Some the_current.
Proof.
  unfold the_current. assert (bool_decide (is_Some (current finished "pvc-1.s")) = true) as H%bool_decide_eq_true by (vm_compute; reflexivity).
  destruct H as [x H]. by rewrite H.
Qed.

Lemma finished_in_order : resumed_in_order "pvc-1.s" finished.
Proof. apply in_order_resumed. vm_compute. reflexivity. Qed.

Lemma finished_reported : Report.reported_successful the_current {["a"; "b"]} = true.
Proof. vm_compute. reflexivity. Qed.
#[global] Opaque finished.

End Complete.

(** The run in which both nodes suspend, take and resume: the snapshot is reported, and it is
    consistent on both. *)
Theorem successful_snapshot_is_consistent_witness :
  Report.reported_successful Complete.the_current {["a"; "b"]} = true
  /\ exists f, w_takes Complete.finished !! ("pvc-1", "s", "a") = Some (O, f) /\ forall t, t ∈ ["a"; "b"] -> ("pvc-1", t) ∈ f.
Proof.
  split; [exact Complete.finished_reported|].
  destruct Complete.finished_reached as [ags Hrun].
  apply (successful_snapshot_is_consistent "pvc-1.s" "pvc-1" "s" ["a"; "b"] Complete.snap0 (mkSystem Complete.finished ags)
    Complete.the_current {["a"; "b"]} "a").
  - exact Complete.snap0_fresh.
  - exact Hrun.
  - exact Complete.finished_current.
  - exact Complete.finished_reported.
  - exact Complete.finished_in_order.
  - by left.
  - by apply elem_of_union_l, elem_of_singleton.
Defined.

(** ** Two snapshots of one resource *)

Module Shared.

Definition spec_of (snap : string) : SnapshotSpec := mkSnapSpec "pvc-1" snap ["a"; "b"] [] false false "" 0.
Definition object (name snap : string) : SnapshotCR := mkSnapshotCR name 1 false (Some 0) [] ∅ "" (spec_of snap) (mkSnapStatus [] [] []).
Definition w0 : world :=
  mkWorld {["pvc-1.s" := [object "pvc-1.s" "s"]; "pvc-1.t" := [object "pvc-1.t" "t"]]} ∅ ∅ ∅ ∅ ∅ ∅.

Definition everybody (name : string) : list turn := [mkTurn (Some "a") name 1; mkTurn (Some "b") name 1].
Definition controller (name : string) : list turn := [mkTurn None name 1].

(** Both suspend; the first takes its snapshots and resumes; then the second takes its own. *)
Definition run : list turn :=
  everybody "pvc-1.s" ++ everybody "pvc-1.t" ++ controller "pvc-1.s" ++ controller "pvc-1.t"
  ++ everybody "pvc-1.s" ++ everybody "pvc-1.t"
  ++ controller "pvc-1.s" ++ everybody "pvc-1.s" ++ controller "pvc-1.s" ++ everybody "pvc-1.s"
  ++ controller "pvc-1.t" ++ everybody "pvc-1.t" ++ controller "pvc-1.t" ++ everybody "pvc-1.t".
Definition finished : world := plays run w0.

Definition reported (name : string) : bool :=
  match current finished name with Some x => Report.reported_successful x {["a"; "b"]} | None => false end.
Definition suspended_when_taken (snap node : string) : bool :=
  match w_takes finished !! ("pvc-1", snap, node) with
  | Some (_, f) => forallb (fun t => bool_decide (("pvc-1", t) ∈ f)) ["a"; "b"]
  | None => false
  end.

End Shared.

(** The suspension is not counted. Two snapshots of one resource, taken at the same time with no
    error, no restart and no stale read: the first to finish resumes the I/O under the second, which
    takes its snapshots while nothing is suspended and is reported as successful. *)
Theorem second_snapshot_is_taken_unsuspended :
  Shared.reported "pvc-1.s" = true /\ Shared.suspended_when_taken "s" "a" = true /\ Shared.suspended_when_taken "s" "b" = true
  /\ Shared.reported "pvc-1.t" = true /\ Shared.suspended_when_taken "t" "a" = false /\ Shared.suspended_when_taken "t" "b" = false.
Proof. vm_compute. repeat split. Qed.

(** ** A snapshot that is being deleted *)

#[local] Arguments current : simpl never.
#[local] Arguments drop_snapshot : simpl never.
#[local] Arguments write_spec : simpl never.

Section Deleted.
Context (name : string).

Definition deleted (w : world) : Prop := forall x, current w name = Some x -> sc_Deleting x = true /\ sc_Name x = name.

Lemma current_forget w : current (forget w name) name = None.
Proof. unfold current. cbn. rewrite decide_True; [done|set_solver]. Qed.
Lemma current_add w x cur : current w name = Some cur -> current (add_version w name x) name = Some x.
Proof. unfold current. cbn. destruct (decide _); [done|]. intros _. by rewrite versions_add, decide_True. Qed.

Lemma deleted_write_spec w cur x : deleted w -> current w name = Some cur -> sc_Name x = name -> deleted (write_spec w cur x).
Proof.
  intros Hd Hc Hx y. destruct (Hd cur Hc) as [Hdel Hn]. unfold write_spec. rewrite Hdel, Hx. cbn [andb].
  destruct (bool_decide _); [by rewrite current_forget|]. rewrite (current_add w _ cur Hc). by intros [= <-].
Qed.

(** A satellite deletes the copy of its own node and takes the finalizer off, for everybody. *)
Lemma deleted_pass t w :
  t_name t = name -> deleted w ->
  deleted (play t w) /\ w_frozen (play t w) = w_frozen w
  /\ forall rd snap node, t_who t <> Some node -> w_takes (play t w) !! (rd, snap, node) = w_takes w !! (rd, snap, node).
Proof.
  destruct t as [who n now]. cbn. intros -> Hd. unfold play. cbn [t_who t_name t_now]. destruct who as [me|]; cbn [pass].
  - unfold Satellite.Reconcile. cbn -[Satellite.handleDelete Satellite.handleCreate Contains].
    destruct (current w name) as [x|] eqn:E; cbn -[Satellite.handleDelete Satellite.handleCreate Contains]; [|done].
    destruct (Hd x E) as [Hdel Hx]. destruct (negb (Contains (ss_Nodes _) _)); [done|]. rewrite Hdel. unfold Satellite.handleDelete.
    destruct (negb _); [done|]. cbn. assert (current (drop_snapshot w (Satellite.rd_of x) (Satellite.snap_of x) me) name = Some x) as E' by done.
    rewrite Hx, E', decide_True by done. cbn.
    split; [|split].
    + apply deleted_write_spec; [exact Hd|done|done].
    + unfold write_spec. by destruct (_ && _).
    + intros rd snap node Hne. assert (me <> node) by congruence. unfold write_spec, drop_snapshot. destruct (_ && _); cbn; (rewrite lookup_delete_ne; [done|congruence]).
  - unfold Controller.Reconcile. cbn -[Controller.orchestrate Controller.backfillAdoptedSnapshot].
    destruct (current w name) as [x|] eqn:E; cbn -[Controller.orchestrate Controller.backfillAdoptedSnapshot]; [|done].
    by destruct (Hd x E) as [-> _].
Qed.

(** A snapshot that is deleted while the I/O is suspended never resumes it: whatever passes the
    controller and the satellites make over it from then on, what was suspended stays suspended. *)
Theorem deleted_snapshot_never_resumes w ts :
  deleted w -> Forall (fun t => t_name t = name) ts -> w_frozen (plays ts w) = w_frozen w.
Proof.
  intros Hd Hts. revert w Hd. induction Hts as [|t ts Ht _ IH]; intros w Hd; [done|]. change (w_frozen (plays ts (play t w)) = w_frozen w).
  destruct (deleted_pass t w Ht Hd) as (Hd' & Hf & _). by rewrite IH.
Qed.

(** The first satellite to delete its copy lets the object go, and with it the copies of the
    other nodes are never deleted: once the object is gone every pass leaves every copy alone. *)
Theorem first_delete_strands_the_other_copies w x me node now ts rd snap :
  current w name = Some x -> sc_Name x = name -> sc_Deleting x = true -> sc_Finalizers x = [SatelliteSnapshotFinalizer] ->
  me ∈ ss_Nodes (sc_Spec x) -> me <> node -> Forall (fun t => t_name t = name) ts ->
  let w' := play (mkTurn (Some me) name now) w in
  current w' name = None /\ w_takes (plays ts w') !! (rd, snap, node) = w_takes w !! (rd, snap, node).
Proof.
  intros Hc Hn Hdel Hfin Hme Hne Hts w'. assert (deleted w) as Hd by (intros y; rewrite Hc; by intros [= <-]).
  assert (current w' name = None) as Hgone.
  { unfold w', play. cbn [pass t_who t_name t_now]. unfold Satellite.Reconcile. cbn -[Satellite.handleDelete Contains].
    rewrite Hc. cbn -[Satellite.handleDelete Contains]. rewrite (proj2 (Contains_true _ _) Hme), Hdel. unfold Satellite.handleDelete. rewrite Hfin.
    change (Contains [SatelliteSnapshotFinalizer] SatelliteSnapshotFinalizer) with true. cbn.
    assert (current (drop_snapshot w (Satellite.rd_of x) (Satellite.snap_of x) me) name = Some x) as E' by done.
    rewrite Hn, E', decide_True by done. unfold write_spec. cbn. rewrite Hdel, Hn. cbn. rewrite bool_decide_true by done. by rewrite current_forget. }
  split; [done|]. destruct (deleted_pass (mkTurn (Some me) name now) w eq_refl Hd) as (Hd' & _ & Ht). rewrite <- (Ht rd snap node) by (cbn; congruence).
  fold w'. clearbody w'. clear Hd'. revert w' Hgone Ht. induction Hts as [|t ts Htn _ IH]; intros w' Hgone Ht; [done|].
  change (w_takes (plays ts (play t w')) !! (rd, snap, node) = w_takes w' !! (rd, snap, node)).
  assert (play t w' = w') as ->; [|by apply IH].
  destruct t as [who n tm]. cbn in Htn. subst n. unfold play. destruct who; cbn; unfold Satellite.Reconcile, Controller.Reconcile; cbn; by rewrite Hgone.
Qed.

End Deleted.

Module Withdrawn.

(** Deleted while both nodes are suspended, and after both have taken their copies. *)
Definition object : SnapshotCR :=
  mkSnapshotCR "pvc-1.s" 7 true (Some 0) [SatelliteSnapshotFinalizer] ∅ ""
    (mkSnapSpec "pvc-1" "s" ["a"; "b"] [] true true "" 0)
    (mkSnapStatus [mkPerNode "a" 1 true true false; mkPerNode "b" 1 true true false] [] []).
Definition w0 : world :=
  mkWorld {["pvc-1.s" := [object]]} ∅ {[("pvc-1", "a"); ("pvc-1", "b")]} ∅
    {[("pvc-1", "s", "a") := (O, ∅); ("pvc-1", "s", "b") := (O, ∅)]} ∅ ∅.

Lemma w0_current : current w0 "pvc-1.s" = Some object.
Proof. reflexivity. Qed.

End Withdrawn.

Theorem deleted_snapshot_never_resumes_witness :
  w_frozen (plays [mkTurn (Some "a") "pvc-1.s" 1; mkTurn None "pvc-1.s" 1; mkTurn (Some "b") "pvc-1.s" 1] Withdrawn.w0)
  = {[("pvc-1", "a"); ("pvc-1", "b")]}.
Proof.
  refine (deleted_snapshot_never_resumes "pvc-1.s" Withdrawn.w0 _ _ _); [|by repeat constructor].
  intros x. rewrite Withdrawn.w0_current. intros [= <-]. done.
Defined.

Theorem first_delete_strands_the_other_copies_witness :
  let w' := play (mkTurn (Some "a") "pvc-1.s" 1) Withdrawn.w0 in
  current w' "pvc-1.s" = None
  /\ w_takes (plays [mkTurn (Some "b") "pvc-1.s" 2] w') !! ("pvc-1", "s", "b") = w_takes Withdrawn.w0 !! ("pvc-1", "s", "b").
Proof.
  refine (first_delete_strands_the_other_copies "pvc-1.s" Withdrawn.w0 Withdrawn.object "a" "b" 1 [mkTurn (Some "b") "pvc-1.s" 2] "pvc-1" "s"
    Withdrawn.w0_current eq_refl eq_refl eq_refl _ _ _); [by left|done|by repeat constructor].
Defined.

(** ** After a missed deadline *)

Section Deadline.
Context (name : string) (created now : Z) (t : string).
Hypothesis late : snapshotSuspendDeadline < now - created.

(** The node [t], a target, has never reported anything; nobody has failed. *)
Record silent (x : SnapshotCR) : Prop := mkSilent {
  si_name : sc_Name x = name;
  si_live : sc_Deleting x = false;
  si_own : Controller.adopted x = false;
  si_alone : ss_GroupID (sc_Spec x) = "";
  si_created : sc_Created x = Some created;
  si_target : t ∈ ss_Nodes (sc_Spec x);
  si_silent : Controller.by_node (entries x) t = None;
  si_no_failure : Controller.anyNodeFailed (entries x) = false;
  si_take : ss_TakeSnapshot (sc_Spec x) = false;
}.

Lemma silent_match x p : silent x -> Controller.allTargetsMatch (entries x) (ss_Nodes (sc_Spec x)) p = false.
Proof.
  intros Hs. apply not_true_iff_false. intros H. unfold Controller.allTargetsMatch in H. rewrite forallb_forall in H.
  specialize (H t). rewrite <- list_elem_of_In in H. rewrite (si_silent x Hs) in H. by specialize (H (si_target x Hs)).
Qed.

Lemma silent_nodes x : silent x -> bool_decide (ss_Nodes (sc_Spec x) = []) = false.
Proof. intros Hs. apply bool_decide_eq_false. intros E. pose proof (si_target x Hs) as H. rewrite E in H. by apply elem_of_nil in H. Qed.

Lemma exec_bind w who {A B} (m : prog sanswer A) (f : A -> prog sanswer B) :
  exec now w who (m ≫= f) = exec now (exec now w who m).2 who (f (exec now w who m).1).
Proof. change (m ≫= f) with (prog_bind f m). revert w. induction m as [a|c k IH]; intros w; cbn; [done|apply IH]. Qed.

Lemma exec_kbind w who {A B} (m : kprog A) (f : A -> kprog B) a w' :
  exec now w who m = (Ok a, w') -> exec now w who (kbind m f) = exec now w' who (f a).
Proof. intros H. unfold kbind. by rewrite exec_bind, H. Qed.

(** The flags are written by the first attempt. *)
Definition flipped (x : SnapshotCR) (s : bool) : SnapshotCR := updated x (with_snap_spec x (with_flags (sc_Spec x) s false)).

Lemma exec_flip w who x s :
  silent x -> current w name = Some x -> ss_SuspendIO (sc_Spec x) <> s ->
  exec now w who (Controller.maybeFlipSpec x s false) = (Ok no_requeue, add_version w name (flipped x s)).
Proof.
  intros Hs Hc Hd. unfold Controller.maybeFlipSpec. rewrite (proj2 (Bool.eqb_false_iff _ _) Hd). cbn [andb].
  erewrite (exec_kbind w who _ _ tt); [reflexivity|]. rewrite (si_name x Hs). unfold DefaultRetry. cbn [retry_on_conflict].
  rewrite exec_bind. unfold Controller.flip_body. cbn. rewrite Hc. cbn. rewrite (proj2 (Bool.eqb_false_iff _ _) Hd). cbn.
  rewrite (si_name x Hs), Hc, decide_True by done. cbn. unfold write_spec. rewrite (si_live x Hs). cbn. by rewrite (si_name x Hs).
Qed.

Lemma flipped_silent x s : silent x -> silent (flipped x s).
Proof. by intros [? ? ? ? ? ? ? ? ?]. Qed.

(** The first pass asks for the suspension. *)
Lemma exec_suspends w x :
  silent x -> current w name = Some x -> ss_SuspendIO (sc_Spec x) = false ->
  (exec now w None (Controller.Reconcile name)).2 = add_version w name (flipped x true).
Proof.
  intros Hs Hc Hio. unfold Controller.Reconcile. cbn -[Controller.orchestrate]. rewrite Hc, (si_live x Hs), (si_own x Hs). cbn -[Controller.orchestrate].
  unfold Controller.orchestrate, Controller.fetchSiblings. rewrite (si_alone x Hs), bool_decide_true by done. unfold kbind at 1. cbn -[kbind].
  unfold Controller.checkAbortConditions, Controller.anySiblingFailed, Controller.inSuspendPhase. cbn -[kbind Controller.advancePhase Controller.nextPhase].
  fold (entries x). rewrite (si_no_failure x Hs), Hio. cbn -[Controller.advancePhase Controller.nextPhase]. rewrite (silent_nodes x Hs).
  assert (Controller.nextPhase x [x] = Controller.mkDecision true false true) as ->.
  { unfold Controller.nextPhase. rewrite Hio, (si_take x Hs). unfold Controller.allSiblingsReady, Controller.allSiblingsSuspendCleared. cbn.
    unfold Controller.on_nodes, Controller.allNodesReady, Controller.allNodesSuspendCleared. fold (entries x). by rewrite !silent_match. }
  cbn [negb Controller.d_Advance]. unfold Controller.advancePhase, Controller.commit_phase.
  rewrite (si_alone x Hs), (bool_decide_true (_ = _)) by done. cbn [negb Controller.d_SuspendIO Controller.d_TakeSnapshot]. rewrite andb_false_r.
  unfold Controller.isPhase2Promotion. cbn [Controller.d_Advance Controller.d_SuspendIO Controller.d_TakeSnapshot andb].
  rewrite (exec_flip w None x true); [done|done|done|by rewrite Hio].
Qed.

(** The stamp of the abort changes the flags and the conditions only. *)
Lemma exec_stamp w who x0 x reason :
  sc_Name x0 = name -> silent x -> current w name = Some x ->
  exists x' r, exec now w who (Controller.stampSnapshotFailedDisconnect x0 reason) = (Ok tt, r)
    /\ current r name = Some x' /\ silent x' /\ sc_Spec x' = sc_Spec x.
Proof.
  intros Hn Hs Hc. unfold Controller.stampSnapshotFailedDisconnect, DefaultRetry. cbn [retry_on_conflict]. rewrite exec_bind.
  unfold Controller.stamp_body. cbn. rewrite Hn, Hc.
  assert (exists st1 m1, Controller.add_flag (sc_Status x) SnapshotStatusFlagFailedDisconnect = (st1, m1) /\ sst_NodeStatus st1 = entries x) as (st1 & m1 & -> & E1)
    by (unfold Controller.add_flag; destruct (Contains _ _); eauto).
  cbn. assert (exists st2 m2, Controller.upsertSnapshotAbortCondition now st1 reason = (st2, m2) /\ sst_NodeStatus st2 = entries x) as (st2 & m2 & -> & E2)
    by (unfold Controller.upsertSnapshotAbortCondition; destruct (Controller.setSnapshotCondition _ _ _); eauto).
  destruct (m1 || m2); cbn.
  - rewrite (si_name x Hs), Hc, decide_True by done. cbn. exists (status_updated x (with_snap_status x st2)). eexists. split; [done|]. split.
    + unfold write_status. cbn. rewrite (si_name x Hs). by apply (current_add name w _ x).
    + split; [|done]. destruct Hs. split; try done; unfold entries in *; cbn; by rewrite E2.
  - exists x, w. done.
Qed.

(** The next pass finds the deadline missed, and gives up. *)
Lemma exec_gives_up w x :
  silent x -> current w name = Some x -> ss_SuspendIO (sc_Spec x) = true ->
  exists x', current (exec now w None (Controller.Reconcile name)).2 name = Some x' /\ silent x' /\ ss_SuspendIO (sc_Spec x') = false.
Proof using late.
  intros Hs Hc Hio. unfold Controller.Reconcile. cbn -[Controller.orchestrate]. rewrite Hc, (si_live x Hs), (si_own x Hs). cbn -[Controller.orchestrate].
  unfold Controller.orchestrate, Controller.fetchSiblings. rewrite (si_alone x Hs), bool_decide_true by done. unfold kbind at 1. cbn -[kbind].
  unfold Controller.checkAbortConditions, Controller.anySiblingFailed, Controller.inSuspendPhase. cbn -[kbind Controller.allSiblingsReady].
  fold (entries x). rewrite (si_no_failure x Hs), Hio. cbn -[kbind Controller.allSiblingsReady].
  assert (Controller.allSiblingsReady [x] = false) as ->.
  { unfold Controller.allSiblingsReady. cbn. unfold Controller.on_nodes, Controller.allNodesReady. fold (entries x). by rewrite silent_match. }
  cbn -[kbind]. unfold Controller.suspendDeadlineExceeded. rewrite (si_created x Hs).
  destruct (exec_stamp (add_version w name (flipped x false)) None x (flipped x false) Controller.deadline_reason) as (x' & r & Hst & Hx' & Hs' & Hsp).
  { apply (si_name x Hs). } { by apply flipped_silent. } { by apply (current_add name w _ x). }
  assert (exec now w None (Controller.abortGroupWithReason [x] Controller.deadline_reason) = (Ok no_requeue, r)) as Habort.
  { unfold Controller.abortGroupWithReason. erewrite exec_kbind; [|unfold Controller.abortGroup; cbn [Controller.flipGroup];
      erewrite exec_kbind; [reflexivity|by apply exec_flip; [| |rewrite Hio]]].
    erewrite exec_kbind; [reflexivity|]. cbn [Controller.stamp_all]. erewrite exec_kbind; [reflexivity|exact Hst]. }
  erewrite exec_kbind; [|cbn [exec serve fst snd]; rewrite (bool_decide_true _ late); erewrite exec_kbind; [reflexivity|exact Habort]]. cbn. exists x'. split_and!; [done|done|]. by rewrite Hsp.
Qed.

(** What the controller's passes over the snapshot leave behind. *)
Definition passes (k : nat) (w : world) : world := plays (repeat (mkTurn None name now) k) w.

Lemma passes_S k w : passes (S k) w = passes k (play (mkTurn None name now) w).
Proof. done. Qed.

(** After a missed deadline the controller does not leave the snapshot alone. As long as a
    target stays silent, every pass that finds the suspension off asks all nodes to suspend again,
    and the next pass finds the deadline missed again: the I/O of the nodes that do answer is
    suspended and resumed without end. *)
Theorem missed_deadline_suspends_again k w x :
  current w name = Some x -> silent x ->
  exists x', current (passes k w) name = Some x'
    /\ ss_SuspendIO (sc_Spec x') = xorb (ss_SuspendIO (sc_Spec x)) (Nat.odd k).
Proof using late.
  revert w x. induction k as [|k IH]; intros w x Hc Hs; [exists x; split; [done|by rewrite xorb_false_r]|].
  assert (exists y, current (play (mkTurn None name now) w) name = Some y /\ silent y
    /\ ss_SuspendIO (sc_Spec y) = negb (ss_SuspendIO (sc_Spec x))) as (y & Hy & Hsy & E).
  { unfold play. cbn [t_who t_name t_now pass]. destruct (ss_SuspendIO (sc_Spec x)) eqn:Eio; [by apply (exec_gives_up w x)|].
    rewrite (exec_suspends w x) by done. exists (flipped x true). split_and!; [by apply (current_add name w _ x)|by apply flipped_silent|done]. }
  destruct (IH _ _ Hy Hsy) as (x' & Hx' & E'). exists x'. split; [by rewrite passes_S|].
  rewrite E', E, Nat.odd_succ, <- Nat.negb_odd. by destruct (ss_SuspendIO (sc_Spec x)), (Nat.odd k).
Qed.
End Deadline.

(** Node [b] has acknowledged, node [a] is down. *)
Theorem missed_deadline_suspends_again_witness :
  let x := mkSnapshotCR "pvc-1.s" 4 false (Some 0) [SatelliteSnapshotFinalizer] ∅ ""
    (mkSnapSpec "pvc-1" "s" ["a"; "b"] [] true false "" 0) (mkSnapStatus [mkPerNode "b" 0 false true false] [] []) in
  let w := mkWorld {["pvc-1.s" := [x]]} ∅ {[("pvc-1", "b")]} ∅ ∅ ∅ ∅ in
  exists x', current (passes "pvc-1.s" (snapshotSuspendDeadline + 1) 100 w) "pvc-1.s" = Some x' /\ ss_SuspendIO (sc_Spec x') = true.
Proof.
  intros x w. refine (missed_deadline_suspends_again "pvc-1.s" 0 (snapshotSuspendDeadline + 1) "a" _ 100 w x eq_refl _); [lia|].
  split; try reflexivity. by left.
Defined.
