(* ===== verification/Fleet.v ===== *)
(** * The controllers of nodes, groups and replica counts

    Models the controllers that decide where replicas live: the drain of evicted and lost nodes
    ([internal/controller/node_controller.go]), the migration of a replica
    ([resource_migration_controller.go]), the placement of groups ([resourcegroup_controller.go],
    [rg_rebalance_controller.go]), the timer that restores a missing diskful replica
    ([auto_diskful_controller.go]), the watchdog of heartbeats ([node_heartbeat_controller.go]) and
    the eviction of nodes that are gone ([auto_evict_controller.go]). They are programs over the
    store, the API server, the placer and the clock. *)

From S2P Require Import Prelude Prog Api Store DrbdAlloc Kube GoFloat GoTime CrdName Dispatcher Tiebreaker Snapshots.

(** ** Time *)

Definition minute : Z := 60 * second.
(** [time.Duration(n) * time.Minute] is an int64. *)
Definition minutes_of (n : Z) : Z := wrap64 (n * minute).
(** [t.Sub(u)] saturates. *)
Definition time_Sub (t u : Z) : Z := Z.max MinInt64 (Z.min MaxInt64 (t - u)).
(** [time.Time{}], the first instant of the year 1. *)
Definition zero_time : Z := -62135596800 * second.

(** [strconv.Atoi] *)
Definition atoi (s : string) : option Z := parse_int 64 s.

(** ** Calls *)

(** The object of a node, as far as the watchdog and the eviction read it. *)
Record NodeObject := mkNodeObject {
  nc_Name : string;
  nc_Flags : list string;
  nc_Props : gmap string string;
  nc_ConnectionStatus : string;
  nc_LastHeartbeatTime : option Z;
  nc_Conditions : list Condition;
}.

Inductive fcall :=
(** Objects of the API server. *)
| GetNode (name : string)
| ListNodeObjects
| UpdateNode (x : NodeObject)
| PatchNodeStatus (name conn status reason message : string) (transition : Z)
| GetControllerExtras
| GetReplica (name : string)
| DeleteReplica (x : ResourceCR)
| UpdateReplica (x : ResourceCR)
(** The annotations of a definition object; an update writes them with the rest as it was read. *)
| GetDefinitionMeta (name : string)
| UpdateDefinitionMeta (name : string) (annotations : gmap string string)
(** Records of the store. *)
| ListNodes
| ListReplicas
| ListReplicasOf (rd : string)
| GetStoreReplica (rd node : string)
| UpdateStoreReplica (r : Resource)
| ListDefinitions
| GetDefinition (rd : string)
| UpdateDefinition (rd : ResourceDefinition)
| GetGroup (name : string)
| UpdateGroup (rg : ResourceGroup)
| ListPools
| GetControllerProps
(** [placer.New(store).Place]: how many replicas are placed, how many were wanted. *)
| PlaceReplicas (rd : string) (filter : AutoSelectFilter)
| FNow.

Definition fanswer (c : fcall) : Type :=
  match c with
  | GetNode _ => result kerr NodeObject
  | ListNodeObjects => result kerr (list NodeObject)
  | UpdateNode _ | PatchNodeStatus _ _ _ _ _ _ => result kerr unit
  | GetControllerExtras => result kerr (gmap string string)
  | GetReplica _ => result kerr ResourceCR
  | DeleteReplica _ | UpdateReplica _ => result kerr unit
  | GetDefinitionMeta _ => result kerr (gmap string string)
  | UpdateDefinitionMeta _ _ => result kerr unit
  | ListNodes => result kerr (list Node)
  | ListReplicas | ListReplicasOf _ => result kerr (list Resource)
  | GetStoreReplica _ _ => result kerr Resource
  | UpdateStoreReplica _ => result kerr unit
  | ListDefinitions => result kerr (list ResourceDefinition)
  | GetDefinition _ => result kerr ResourceDefinition
  | UpdateDefinition _ => result kerr unit
  | GetGroup _ => result kerr ResourceGroup
  | UpdateGroup _ => result kerr unit
  | ListPools => result kerr (list StoragePool)
  | GetControllerProps => result kerr (gmap string string)
  | PlaceReplicas _ _ => Z * Z * option kerr
  | FNow => Z
  end.

Notation fprog A := (prog fanswer (result kerr A)).
Definition ask (c : fcall) : prog fanswer (fanswer c) := Do c Ret.

Definition with_PlaceCount (f : AutoSelectFilter) (n : Z) : AutoSelectFilter :=
  mkAutoSelectFilter n (AdditionalPlaceCount f) (NodeNameList f) (StoragePool_ f) (StoragePoolList f)
    (StoragePoolDisklessList f) (NotPlaceWithRsc f) (NotPlaceWithRscRegex f) (ReplicasOnSame f) (ReplicasOnDifferent f)
    (XReplicasOnDifferentMap f) (LayerStack f) (ProviderList f) (DisklessOnRemaining f) (OverrideVlmID f).

Definition with_rd_Annotations (d : ResourceDefinition) (a : option (gmap string string)) : ResourceDefinition :=
  with_rd_carried d a (rd_LayerStack d).

(** Annotations of a record: [nil] reads as empty. *)
Definition notes (a : option (gmap string string)) : gmap string string := default ∅ a.

(** The name under which the controllers look for the object of a replica. *)
Definition resourceCRDName (rd node : string) : string := rd +:+ "." +:+ node.

(** ** Volumes of a replica (resource_migration_controller.go) *)

Definition allVolumesUpToDate (dst : ResourceCR) : bool :=
  match rst_Volumes (rc_Status dst) with
  | [] => false
  | vols => forallb (fun v => bool_decide (rvt_DiskState v = "UpToDate")) vols
  end.

(** ** The drain of a node *)

Module Drain.

Definition evictionRequeue : Z := 30 * second.
Definition AnnotationMigrationBlocked : string := "blockstor.io/migration-blocked".
Definition MigrationBlockedReasonNoRG : string := "no-rg".

Definition draining (n : Node) : bool := Contains (node_Flags n) NodeFlagEvicted || Contains (node_Flags n) NodeFlagLost.

(** The names of the nodes that are evicted or lost. *)
Definition drainingNodes : fprog (gset string) :=
  nodes ←! ask ListNodes; done_with (list_to_set (node_Name <$> filter (fun n => draining n = true) nodes)).

Definition diskful (r : Resource) : bool := negb (Contains (res_Flags r) ResourceFlagDiskless).

(** The replicas that count: on the drained node, or on a node that is not draining itself. *)
Definition counted (drained : gset string) (evictedNode : string) (r : Resource) : bool :=
  (bool_decide (res_NodeName r = evictedNode) || negb (bool_decide (res_NodeName r ∈ drained))) && diskful r.

Definition currentDiskfulTarget (rdName evictedNode : string) : fprog Z :=
  drained ←! drainingNodes;
  nodes ←! ask ListNodes;
  let healthyNodes := Z.of_nat (length (filter (fun n => node_Name n ∉ drained) nodes)) in
  replicas ←! ask (ListReplicasOf rdName);
  let count := Z.of_nat (length (filter (fun r => counted drained evictedNode r = true) replicas)) in
  done_with (if bool_decide (healthyNodes < count) then healthyNodes else count).

Definition pruneSource (rdName node : string) : fprog unit :=
  r ← ask (GetReplica (resourceCRDName rdName node));
  match r with
  | Err e => if IsNotFound e then done_with tt else failed_with e
  | Ok x => ask (DeleteReplica x)
  end.

Definition replicaUpToDate (rdName node : string) : fprog bool :=
  r ← ask (GetReplica (resourceCRDName rdName node));
  match r with
  | Err e => if IsNotFound e then done_with false else failed_with e
  | Ok x => done_with (allVolumesUpToDate x)
  end.

(** A replica that can stand in for the one on the drained node. *)
Definition stands_in (drained : gset string) (evictedNode : string) (r : Resource) : bool :=
  negb (bool_decide (res_NodeName r = evictedNode)) && negb (bool_decide (res_NodeName r ∈ drained)) && diskful r.

Fixpoint count_up_to_date (rdName : string) (drained : gset string) (evictedNode : string) (replicas : list Resource) : fprog Z :=
  match replicas with
  | [] => done_with 0
  | r :: rest =>
      if stands_in drained evictedNode r then
        ready ←! replicaUpToDate rdName (res_NodeName r);
        n ←! count_up_to_date rdName drained evictedNode rest;
        done_with (if ready : bool then 1 + n else n)
      else count_up_to_date rdName drained evictedNode rest
  end.

Definition evacuationReplacementReady (placeCount : Z) (rdName evictedNode : string) : fprog bool :=
  drained ←! drainingNodes;
  replicas ←! ask (ListReplicasOf rdName);
  healthyUpToDate ←! count_up_to_date rdName drained evictedNode replicas;
  done_with (bool_decide (placeCount <= healthyUpToDate) && bool_decide (1 <= healthyUpToDate)).

Definition annotateMigrationBlocked (rdName reason : string) : fprog unit :=
  rd ←! ask (GetDefinition rdName);
  if bool_decide (get (notes (rd_Annotations rd)) AnnotationMigrationBlocked = reason) then done_with tt
  else ask (UpdateDefinition (with_rd_Annotations rd (Some (<[AnnotationMigrationBlocked := reason]> (notes (rd_Annotations rd)))))).

Definition migrateResource (victim : Resource) (lost : bool) : fprog unit :=
  let rdName := res_Name victim in
  rd ←! ask (GetDefinition rdName);
  if bool_decide (rd_ResourceGroupName rd = "") then annotateMigrationBlocked rdName MigrationBlockedReasonNoRG
  else
    rg ← ask (GetGroup (rd_ResourceGroupName rd));
    let filter0 := match rg with Ok g => rg_SelectFilter g | Err _ => zero_filter end in
    currentDiskful ←! currentDiskfulTarget rdName (res_NodeName victim);
    let filter := if bool_decide (PlaceCount filter0 < currentDiskful) then with_PlaceCount filter0 currentDiskful else filter0 in
    placed ← ask (PlaceReplicas rdName filter);
    match placed with
    | (_, _, Some e) => failed_with e
    | (_, _, None) =>
        if lost then pruneSource rdName (res_NodeName victim)
        else
          ready ←! evacuationReplacementReady (PlaceCount filter) rdName (res_NodeName victim);
          if negb ready then done_with tt else pruneSource rdName (res_NodeName victim)
    end.

(** The failure of one replica does not stop the others. *)
Fixpoint migrate_all (node : string) (lost : bool) (replicas : list Resource) : fprog unit :=
  match replicas with
  | [] => done_with tt
  | r :: rest =>
      if bool_decide (res_NodeName r = node) then _ ← migrateResource r lost; migrate_all node lost rest
      else migrate_all node lost rest
  end.

Definition Reconcile (name : string) : fprog ctrl_result :=
  r ← ask (GetNode name);
  match r with
  | Err e => if IsNotFound e then done_with no_requeue else failed_with e
  | Ok node =>
      let evicted := Contains (nc_Flags node) NodeFlagEvicted in
      let lost := Contains (nc_Flags node) NodeFlagLost in
      if negb evicted && negb lost then done_with no_requeue
      else
        resList ←! ask ListReplicas;
        _ ←! migrate_all (nc_Name node) lost resList;
        done_with (if evicted && negb lost then requeue_after evictionRequeue else no_requeue)
  end.

End Drain.

(** ** The migration of a replica *)

Module Migration.

Definition MigratingFromProp : string := "BlockstorMigratingFrom".
Definition migrationRequeueInterval : Z := 5 * second.

Definition pruneSrc (srcName : string) : fprog unit :=
  r ← ask (GetReplica srcName);
  match r with
  | Err e => if IsNotFound e then done_with tt else failed_with e
  | Ok src =>
      d ← ask (DeleteReplica src);
      match d with
      | Err e => if IsNotFound e then done_with tt else failed_with e
      | Ok _ => done_with tt
      end
  end.

Definition with_rs_Props (sp : ResourceSpec) (props : gmap string string) : ResourceSpec :=
  with_pool sp (rs_Flags sp) (rs_StoragePool sp) props.

Definition clearMigratingFrom (dst : ResourceCR) : fprog unit :=
  match rs_Props (rc_Spec dst) !! MigratingFromProp with
  | None => done_with tt
  | Some _ => ask (UpdateReplica (with_spec dst (with_rs_Props (rc_Spec dst) (delete MigratingFromProp (rs_Props (rc_Spec dst))))))
  end.

Definition Reconcile (name : string) : fprog ctrl_result :=
  r ← ask (GetReplica name);
  match r with
  | Err e => if IsNotFound e then done_with no_requeue else failed_with e
  | Ok dst =>
      let srcNode := get (rs_Props (rc_Spec dst)) MigratingFromProp in
      if bool_decide (srcNode = "") then done_with no_requeue
      else if rc_Deleting dst then done_with no_requeue
      else if negb (allVolumesUpToDate dst) then done_with (requeue_after migrationRequeueInterval)
      else
        _ ←! pruneSrc (resourceCRDName (rs_ResourceDefinitionName (rc_Spec dst)) srcNode);
        _ ←! clearMigratingFrom dst;
        done_with no_requeue
  end.

End Migration.

(** ** Groups *)

Module Groups.

(** A group without a count asks for one replica. *)
Definition group_filter (rg : ResourceGroup) : AutoSelectFilter :=
  if bool_decide (PlaceCount (rg_SelectFilter rg) = 0) then with_PlaceCount (rg_SelectFilter rg) 1 else rg_SelectFilter rg.

Definition applyRGToRD (rg : ResourceGroup) (rd : ResourceDefinition) : fprog unit :=
  placed ← ask (PlaceReplicas (rd_Name rd) (group_filter rg));
  match placed with (_, _, Some e) => failed_with e | _ => done_with tt end.

Fixpoint apply_all (rg : ResourceGroup) (rds : list ResourceDefinition) : fprog unit :=
  match rds with
  | [] => done_with tt
  | rd :: rest =>
      if bool_decide (rd_ResourceGroupName rd = rg_Name rg) then _ ← applyRGToRD rg rd; apply_all rg rest
      else apply_all rg rest
  end.

Definition Reconcile (name : string) : fprog ctrl_result :=
  r ← ask (GetGroup name);
  match r with
  | Err _ => done_with no_requeue
  | Ok rg =>
      rds ←! ask ListDefinitions;
      _ ←! apply_all rg rds;
      done_with no_requeue
  end.

End Groups.

(** ** Rebalancing *)

Module Rebalance.

Definition AnnotationRGRebalancePending : string := "blockstor.io/rebalance-pending".
Definition RDSpawnShortfallAnnotation : string := "blockstor.io/spawn-shortfall".
Definition PropBalanceResourcesEnabled : string := "BalanceResourcesEnabled".
Definition PropBalanceResourcesInterval : string := "BalanceResourcesInterval".
Definition PropBalanceResourcesGracePeriod : string := "BalanceResourcesGracePeriod".
Definition DefaultBalanceResourcesIntervalMinutes : Z := 5.
Definition DefaultBalanceResourcesGracePeriodMinutes : Z := 60.
Definition NodeTypeOffline : string := "OFFLINE".

Definition parsePositiveMinutes (s : string) : option Z :=
  if bool_decide (s = "") then None
  else match atoi s with Some n => if bool_decide (n <= 0) then None else Some n | None => None end.
Definition parseNonNegativeMinutes (s : string) : option Z :=
  if bool_decide (s = "") then None
  else match atoi s with Some n => if bool_decide (n < 0) then None else Some n | None => None end.

(** The interval between passes, and how long a node may be offline before others take over. *)
Definition resolveTuning : fprog (Z * Z) :=
  props ←! ask GetControllerProps;
  done_with (match parsePositiveMinutes (get props PropBalanceResourcesInterval) with
             | Some m => minutes_of m
             | None => minutes_of DefaultBalanceResourcesIntervalMinutes
             end,
             match parseNonNegativeMinutes (get props PropBalanceResourcesGracePeriod) with
             | Some m => minutes_of m
             | None => minutes_of DefaultBalanceResourcesGracePeriodMinutes
             end).

Definition balanceResourcesDisabled : prog fanswer bool :=
  r ← ask GetControllerProps;
  Ret match r with Ok props => bool_decide (get props PropBalanceResourcesEnabled = "false") | Err _ => false end.

(** *** The tracker: since when a node is seen offline *)

Definition tracker := gmap string Z.

Definition track_node (now : Z) (tr : tracker) (n : Node) : tracker :=
  if negb (bool_decide (node_ConnectionStatus n = NodeTypeOffline)) then delete (node_Name n) tr
  else match tr !! node_Name n with Some _ => tr | None => <[node_Name n := now]> tr end.

Definition track (now : Z) (nodes : list Node) (tr : tracker) : tracker :=
  filter (fun kv => kv.1 ∈ node_Name <$> nodes) (fold_left (track_node now) nodes tr).

Definition refreshOfflineTracker (tr : tracker) : prog fanswer tracker :=
  r ← ask ListNodes;
  match r with
  | Err _ => Ret tr
  | Ok nodes => now ← ask FNow; Ret (track now nodes tr)
  end.

Definition within_grace (grace now : Z) (tr : tracker) : bool :=
  existsb (fun kv => bool_decide (time_Sub now kv.2 < grace)) (map_to_list tr).
Definition graceGateActive (grace : Z) (tr : tracker) : prog fanswer bool :=
  if bool_decide (grace <= 0) then Ret false else now ← ask FNow; Ret (within_grace grace now tr).

(** *** Marks *)

Definition stripRebalanceAnnotation (rg : ResourceGroup) : fprog unit :=
  match notes (rg_Annotations rg) !! AnnotationRGRebalancePending with
  | None => done_with tt
  | Some _ => ask (UpdateGroup (with_rg_Annotations rg (Some (delete AnnotationRGRebalancePending (notes (rg_Annotations rg))))))
  end.
Definition stripShortfallAnnotation (rd : ResourceDefinition) : fprog unit :=
  match notes (rd_Annotations rd) !! RDSpawnShortfallAnnotation with
  | None => done_with tt
  | Some _ => ask (UpdateDefinition (with_rd_Annotations rd (Some (delete RDSpawnShortfallAnnotation (notes (rd_Annotations rd))))))
  end.

Definition shortfallWithinGrace (rd : ResourceDefinition) (now grace : Z) : bool :=
  match notes (rd_Annotations rd) !! RDSpawnShortfallAnnotation with
  | None => false
  | Some stamp => match parse_rfc3339 stamp with Some at_ => bool_decide (time_Sub now at_ < grace) | None => false end
  end.

(** *** Passes *)

(** The definitions of the group that were gone through. *)
Fixpoint rebalance_rds (rg : ResourceGroup) (shortfallGrace now : Z) (rds : list ResourceDefinition) (processed : Z) : prog fanswer Z :=
  match rds with
  | [] => Ret processed
  | rd :: rest =>
      if negb (bool_decide (rd_ResourceGroupName rd = rg_Name rg)) then rebalance_rds rg shortfallGrace now rest processed
      else if bool_decide (0 < shortfallGrace) && shortfallWithinGrace rd now shortfallGrace
      then rebalance_rds rg shortfallGrace now rest processed
      else _ ← ask (PlaceReplicas (rd_Name rd) (Groups.group_filter rg)); rebalance_rds rg shortfallGrace now rest (processed + 1)
  end.

Definition rebalanceChildRDs (rg : ResourceGroup) (shortfallGrace : Z) : fprog Z :=
  rds ←! ask ListDefinitions;
  now ← ask FNow;
  n ← rebalance_rds rg shortfallGrace now rds 0;
  done_with n.

Definition replayOneShortfall (rg : ResourceGroup) (rd : ResourceDefinition) (grace : Z) : fprog unit :=
  match notes (rd_Annotations rd) !! RDSpawnShortfallAnnotation with
  | None => done_with tt
  | Some stamp =>
      let stampedAt := default zero_time (parse_rfc3339 stamp) in
      now ← ask FNow;
      if negb (bool_decide (stampedAt = zero_time)) && bool_decide (time_Sub now stampedAt < grace) then done_with tt
      else
        r ← ask (PlaceReplicas (rd_Name rd) (Groups.group_filter rg));
        match r with
        | (_, _, Some _) => done_with tt
        | (placed, want, None) => if bool_decide (placed < want) then done_with tt else stripShortfallAnnotation rd
        end
  end.

Fixpoint replay_rds (rg : ResourceGroup) (grace : Z) (rds : list ResourceDefinition) : fprog unit :=
  match rds with
  | [] => done_with tt
  | rd :: rest =>
      if bool_decide (rd_ResourceGroupName rd = rg_Name rg) then _ ←! replayOneShortfall rg rd grace; replay_rds rg grace rest
      else replay_rds rg grace rest
  end.
Definition replaySpawnShortfalls (rg : ResourceGroup) (grace : Z) : fprog unit :=
  rds ←! ask ListDefinitions; replay_rds rg grace rds.

Definition handleDisabledPass (rg : ResourceGroup) : fprog unit :=
  match notes (rg_Annotations rg) !! AnnotationRGRebalancePending with
  | None => done_with tt
  | Some _ => stripRebalanceAnnotation rg
  end.

Definition runRebalancePass (rg : ResourceGroup) (gracePeriod : Z) (tr : tracker) : fprog unit :=
  match notes (rg_Annotations rg) !! AnnotationRGRebalancePending with
  | Some _ => _ ←! rebalanceChildRDs rg 0; stripRebalanceAnnotation rg
  | None =>
      active ← graceGateActive gracePeriod tr;
      if active : bool then done_with tt
      else _ ←! rebalanceChildRDs rg gracePeriod; done_with tt
  end.

(** The result of the pass, and the tracker it leaves. *)
Definition Reconcile (name : string) (tr : tracker) : prog fanswer (result kerr ctrl_result * tracker) :=
  t ← resolveTuning;
  match t with
  | Err e => Ret (Err e, tr)
  | Ok (interval, gracePeriod) =>
      r ← ask (GetGroup name);
      match r with
      | Err _ => Ret (Ok no_requeue, tr)
      | Ok rg =>
          let with_requeue (m : fprog unit) (tr' : tracker) : prog fanswer (result kerr ctrl_result * tracker) :=
            r ← m; Ret (match r with Ok _ => Ok (requeue_after interval) | Err e => Err e end, tr') in
          disabled ← balanceResourcesDisabled;
          if disabled : bool then with_requeue (handleDisabledPass rg) tr
          else
            tr' ← refreshOfflineTracker tr;
            with_requeue (_ ←! runRebalancePass rg gracePeriod tr'; replaySpawnShortfalls rg gracePeriod) tr'
      end
  end.

End Rebalance.

(** ** The timer that restores a missing diskful replica *)

Module AutoDiskful.
Import Rebalance.

Definition AutoDiskfulDeadlineAnnotation : string := "blockstor.io/auto-diskful-deadline".
Definition AutoDiskfulPropKey : string := "DrbdOptions/auto-diskful".

Definition resolveAutoDiskfulMinutes (rd : ResourceDefinition) : fprog Z :=
  match parsePositiveMinutes (get (rd_Props rd) AutoDiskfulPropKey) with
  | Some m => done_with m
  | None =>
      rg ← (if bool_decide (rd_ResourceGroupName rd = "") then Ret None
            else r ← ask (GetGroup (rd_ResourceGroupName rd));
                 Ret match r with Ok g => parsePositiveMinutes (get (rg_Props g) AutoDiskfulPropKey) | Err _ => None end);
      match rg with
      | Some m => done_with m
      | None =>
          props ←! ask GetControllerProps;
          done_with (default 0 (parsePositiveMinutes (get props AutoDiskfulPropKey)))
      end
  end.

Definition placeCountForRD (rd : ResourceDefinition) : prog fanswer (option Z) :=
  if bool_decide (rd_ResourceGroupName rd = "") then Ret None
  else r ← ask (GetGroup (rd_ResourceGroupName rd));
       Ret match r with Ok g => Some (PlaceCount (rg_SelectFilter g)) | Err _ => None end.

(** [None]: the timer is off, or there is no target. *)
Definition evaluateConfig (rd : ResourceDefinition) : fprog (option (Z * Z)) :=
  minutes ←! resolveAutoDiskfulMinutes rd;
  if bool_decide (minutes <= 0) then done_with None
  else
    placeCount ← placeCountForRD rd;
    done_with match placeCount with
              | Some n => if bool_decide (n <= 0) then None else Some (minutes, n)
              | None => None
              end.

(** The diskful replicas that count, and the diskless ones that may be promoted. *)
Fixpoint splitDiskfulAndCandidates (replicas : list Resource) (disabled : gset string) : list Resource * list Resource :=
  match replicas with
  | [] => ([], [])
  | r :: rest =>
      let '(ds, cs) := splitDiskfulAndCandidates rest disabled in
      if bool_decide (res_NodeName r ∈ disabled) then (ds, cs)
      else if Contains (res_Flags r) ResourceFlagInactive then (ds, cs)
      else if negb (Contains (res_Flags r) ResourceFlagDiskless) then (r :: ds, cs)
      else if Contains (res_Flags r) ResourceFlagTieBreaker then (ds, cs)
      else (ds, r :: cs)
  end.

Definition disabledNodeSet : fprog (gset string) :=
  nodes ←! ask ListNodes; done_with (list_to_set (node_Name <$> filter (fun n => isDisabledNode n = true) nodes)).

Definition first_pool (nodeName : string) (pools : list StoragePool) : string :=
  match find (fun p => bool_decide (sp_NodeName p = nodeName) && negb (bool_decide (sp_ProviderKind p = StoragePoolKindDiskless))) pools with
  | Some p => sp_StoragePoolName p
  | None => ""
  end.
Definition firstAvailablePool (nodeName : string) : fprog string :=
  pools ←! ask ListPools; done_with (first_pool nodeName pools).

Definition promoted (fresh : Resource) (pool : string) : Resource :=
  with_res_spec fresh (filter (fun f => f <> ResourceFlagDiskless) (res_Flags fresh)) (<["StorPoolName" := pool]> (res_Props fresh)).

Fixpoint promoteOne (rdName : string) (candidates : list Resource) : fprog bool :=
  match candidates with
  | [] => done_with false
  | c :: rest =>
      pool ←! firstAvailablePool (res_NodeName c);
      if bool_decide (pool = "") then promoteOne rdName rest
      else
        r ← ask (GetStoreReplica rdName (res_NodeName c));
        match r with
        | Err _ => promoteOne rdName rest
        | Ok fresh => _ ←! ask (UpdateStoreReplica (promoted fresh pool)); done_with true
        end
  end.

Definition readDeadline (rd : ResourceDefinition) : option Z :=
  match notes (rd_Annotations rd) !! AutoDiskfulDeadlineAnnotation with
  | Some raw => if bool_decide (raw = "") then None else parse_rfc3339 raw
  | None => None
  end.

Definition stampDeadlineViaCRD (rdName : string) (deadline : Z) : prog fanswer bool :=
  r ← ask (GetDefinitionMeta rdName);
  match r with
  | Err _ => Ret false
  | Ok a => u ← ask (UpdateDefinitionMeta rdName (<[AutoDiskfulDeadlineAnnotation := format_rfc3339 deadline]> a));
            Ret match u with Ok _ => true | Err _ => false end
  end.
Definition stampDeadline (rd : ResourceDefinition) (deadline : Z) : fprog unit :=
  done ← stampDeadlineViaCRD (rd_Name rd) deadline;
  if done : bool then done_with tt
  else ask (UpdateDefinition (with_rd_Annotations rd
         (Some (<[AutoDiskfulDeadlineAnnotation := format_rfc3339 deadline]> (notes (rd_Annotations rd)))))).

Definition stripDeadlineViaCRD (rdName : string) : prog fanswer bool :=
  r ← ask (GetDefinitionMeta rdName);
  match r with
  | Err _ => Ret false
  | Ok a =>
      match a !! AutoDiskfulDeadlineAnnotation with
      | None => Ret true
      | Some _ => u ← ask (UpdateDefinitionMeta rdName (delete AutoDiskfulDeadlineAnnotation a));
                  Ret match u with Ok _ => true | Err _ => false end
      end
  end.
Definition stripDeadlineIfPresent (rd : ResourceDefinition) : fprog unit :=
  match notes (rd_Annotations rd) !! AutoDiskfulDeadlineAnnotation with
  | None => done_with tt
  | Some _ =>
      done ← stripDeadlineViaCRD (rd_Name rd);
      if done : bool then done_with tt
      else ask (UpdateDefinition (with_rd_Annotations rd (Some (delete AutoDiskfulDeadlineAnnotation (notes (rd_Annotations rd))))))
  end.

(** Arm the timer, wait for it, or promote. *)
Definition handleDeficit (rd : ResourceDefinition) (minutes : Z) (candidates : list Resource) : fprog ctrl_result :=
  now ← ask FNow;
  match readDeadline rd with
  | None => _ ←! stampDeadline rd (now + minutes_of minutes); done_with (requeue_after (minutes_of minutes))
  | Some deadline =>
      if bool_decide (now < deadline) then done_with (requeue_after (time_Sub deadline now))
      else
        promoted ←! promoteOne (rd_Name rd) candidates;
        if negb promoted then done_with (requeue_after minute)
        else _ ←! stripDeadlineIfPresent rd; done_with no_requeue
  end.

Definition Reconcile (name : string) : fprog ctrl_result :=
  r ← ask (GetDefinition name);
  match r with
  | Err _ => done_with no_requeue
  | Ok rd =>
      config ←! evaluateConfig rd;
      match config with
      | None => _ ←! stripDeadlineIfPresent rd; done_with no_requeue
      | Some (minutes, placeCount) =>
          replicas ←! ask (ListReplicasOf (rd_Name rd));
          disabled ←! disabledNodeSet;
          let '(diskful, candidates) := splitDiskfulAndCandidates replicas disabled in
          if bool_decide (placeCount <= Z.of_nat (length diskful)) then _ ←! stripDeadlineIfPresent rd; done_with no_requeue
          else handleDeficit rd minutes candidates
      end
  end.

End AutoDiskful.

(** ** The watchdog of heartbeats *)

Module Heartbeat.

Definition NodeMonitorPeriod : Z := 5 * second.
Definition NodeMonitorGracePeriod : Z := 40 * second.
Definition NodeConditionReady : string := "Ready".
Definition NodeConnectionStatusOnline : string := "ONLINE".
Definition NodeConnectionStatusOffline : string := "OFFLINE".

Definition isHeartbeatStale (lastHeartbeat : option Z) (now : Z) : bool :=
  match lastHeartbeat with None => true | Some t => bool_decide (NodeMonitorGracePeriod < time_Sub now t) end.

(** Status of the condition, connection status, reason, message. *)
Definition desiredState (stale : bool) : string * string * string * string :=
  if stale
  then ("Unknown", NodeConnectionStatusOffline, "NodeStatusNeverUpdated", "satellite heartbeat is stale beyond node-monitor grace period")
  else ("True", NodeConnectionStatusOnline, "SatelliteHeartbeat", "satellite heartbeat is fresh").

Definition conditionMatches (node : NodeObject) (desired : string) : bool :=
  match find (fun c => bool_decide (cond_Type c = NodeConditionReady)) (nc_Conditions node) with
  | Some c => bool_decide (cond_Status c = desired)
  | None => false
  end.

Definition applyState (node : NodeObject) (status conn reason message : string) (now : Z) : fprog unit :=
  if conditionMatches node status && bool_decide (nc_ConnectionStatus node = conn) then done_with tt
  else ask (PatchNodeStatus (nc_Name node) conn status reason message now).

Definition Reconcile (name : string) : fprog ctrl_result :=
  r ← ask (GetNode name);
  match r with
  | Err e => if IsNotFound e then done_with no_requeue else failed_with e
  | Ok node =>
      now ← ask FNow;
      let '(status, conn, reason, message) := desiredState (isHeartbeatStale (nc_LastHeartbeatTime node) now) in
      _ ←! applyState node status conn reason message now;
      done_with (requeue_after NodeMonitorPeriod)
  end.

End Heartbeat.

(** ** The eviction of nodes that are gone *)

Module Evict.
Import Heartbeat.

Definition PropAutoEvictAfterTime : string := "DrbdOptions/AutoEvictAfterTime".
Definition PropAutoEvictAllowEviction : string := "DrbdOptions/AutoEvictAllowEviction".
Definition PropAutoEvictMaxDisconnectedNodes : string := "DrbdOptions/AutoEvictMaxDisconnectedNodes".
Definition DefaultAutoEvictAfterTimeMinutes : Z := 60.
Definition DefaultAutoEvictAllowEviction : bool := true.
Definition DefaultAutoEvictMaxDisconnectedNodes : Z := 2.

(** The closest scope with a value that parses. *)
Definition resolve_prop {A} (parse : string -> option A) (nodeProps ctrlExtras : gmap string string) (key : string) (fallback : A) : A :=
  match nodeProps !! key ≫= parse with
  | Some v => v
  | None => match ctrlExtras !! key ≫= parse with Some v => v | None => fallback end
  end.
Definition non_negative (raw : string) : option Z :=
  match atoi raw with Some v => if bool_decide (0 <= v) then Some v else None | None => None end.
Definition resolveBoolProp := resolve_prop ParseBool.
Definition resolveIntProp := resolve_prop non_negative.
Definition resolveDurationMinutesProp (nodeProps ctrlExtras : gmap string string) (key : string) (fallbackMinutes : Z) : Z :=
  minutes_of (resolveIntProp nodeProps ctrlExtras key fallbackMinutes).

Definition isNodeOffline (node : NodeObject) : bool := bool_decide (nc_ConnectionStatus node = NodeConnectionStatusOffline).
Definition hasBeenOfflineLongEnough (node : NodeObject) (now afterTime : Z) : bool :=
  match nc_LastHeartbeatTime node with None => false | Some t => bool_decide (afterTime <= time_Sub now t) end.
Definition countDisconnected (nodes : list NodeObject) : Z :=
  Z.of_nat (length (filter (fun n => isNodeOffline n && negb (Contains (nc_Flags n) NodeFlagEvicted) = true) nodes)).

Definition with_nc_Flags (n : NodeObject) (flags : list string) : NodeObject :=
  mkNodeObject (nc_Name n) flags (nc_Props n) (nc_ConnectionStatus n) (nc_LastHeartbeatTime n) (nc_Conditions n).
Definition flagEvicted (node : NodeObject) : fprog unit := ask (UpdateNode (with_nc_Flags node (nc_Flags node ++ [NodeFlagEvicted]))).

(** Whether every gate lets the node go. *)
Definition evictable (node : NodeObject) (ctrlExtras : gmap string string) (disconnected now : Z) : bool :=
  negb (Contains (nc_Flags node) NodeFlagEvicted)
  && resolveBoolProp (nc_Props node) ctrlExtras PropAutoEvictAllowEviction DefaultAutoEvictAllowEviction
  && isNodeOffline node
  && hasBeenOfflineLongEnough node now (resolveDurationMinutesProp (nc_Props node) ctrlExtras PropAutoEvictAfterTime DefaultAutoEvictAfterTimeMinutes)
  && negb (bool_decide (resolveIntProp (nc_Props node) ctrlExtras PropAutoEvictMaxDisconnectedNodes DefaultAutoEvictMaxDisconnectedNodes < disconnected)).

Definition processNode (node : NodeObject) (ctrlExtras : gmap string string) (disconnected now : Z) : fprog unit :=
  if evictable node ctrlExtras disconnected now then flagEvicted node else done_with tt.

Fixpoint process_all (nodes : list NodeObject) (ctrlExtras : gmap string string) (disconnected now : Z) : fprog unit :=
  match nodes with
  | [] => done_with tt
  | n :: rest => _ ← processNode n ctrlExtras disconnected now; process_all rest ctrlExtras disconnected now
  end.

Definition controllerExtras : fprog (gmap string string) :=
  r ← ask GetControllerExtras;
  match r with Ok props => done_with props | Err e => if IsNotFound e then done_with ∅ else failed_with e end.

Definition Tick : fprog unit :=
  ctrlExtras ←! controllerExtras;
  nodes ←! ask ListNodeObjects;
  now ← ask FNow;
  process_all nodes ctrlExtras (countDisconnected nodes) now.

End Evict.
