(* ===== verification/FleetDrain.v ===== *)
(** * Draining nodes keeps a copy

    Any number of controllers of [Fleet] at work on one cluster, each call a step of its own, nodes
    evicted in any order while they work: a definition that has a complete copy keeps one that
    nobody is deleting. *)

From Stdlib Require Import Ascii.
From S2P Require Import Prelude Prog Api Store DrbdAlloc Kube GoFloat GoTime CrdName Dispatcher Tiebreaker Snapshots Fleet.

(** ** The cluster *)

(** The evicted nodes in the order they were evicted; the replica objects by name; the nodes that
    were ever seen with a complete copy of the definition looked at. *)
Record fleet := mkFleet {
  f_flagged : list string;
  f_objects : gmap string ResourceCR;
  f_copies : gset string;
}.

Definition no_dot (s : string) : bool := negb (Str.contains_char "."%char s).

(** [v] was evicted before [b] was, if [b] was at all. *)
Definition before (flagged : list string) (v b : string) : Prop := exists l1 l2, flagged = l1 ++ l2 /\ v ∈ l1 /\ b ∉ l1.

Lemma before_prefix l l' v b : l `prefix_of` l' -> before l v b -> before l' v b.
Proof. intros [k ->] (l1 & l2 & -> & ? & ?). exists l1, (l2 ++ k). by rewrite app_assoc. Qed.

Lemma before_chain (P Q : string -> Prop) flagged :
  (forall b, P b -> Q b \/ exists b', P b' /\ before flagged b b') -> forall b, P b -> exists b', P b' /\ Q b'.
Proof.
  intros H. assert (forall n l1 l2 b, flagged = l1 ++ l2 -> (length l2 <= n)%nat -> b ∉ l1 -> P b -> exists b', P b' /\ Q b') as Hind.
  { induction n as [|n IH]; intros l1 l2 b E Hn Hb HP; (destruct (H b HP) as [HQ|(b' & HP' & k1 & k2 & E' & Hk & Hb')]; [by exists b|]).
    - destruct l2; [|cbn in Hn; lia]. rewrite app_nil_r in E. subst l1. destruct Hb. rewrite E'. set_solver.
    - apply (IH k1 k2 b'); [done| |done|done].
      assert (length l1 < length k1)%nat as Hlt.
      { destruct (decide (length k1 <= length l1)%nat) as [Hle|]; [|lia]. destruct Hb. rewrite E in E'.
        assert (k1 = take (length k1) l1) as Ek.
        { rewrite <- (take_app_le l1 l2) by done. rewrite E'. by rewrite take_app_length. }
        rewrite Ek in Hk. by eapply elem_of_subseteq in Hk; [|apply subseteq_take]. }
      apply (f_equal length) in E. rewrite E' in E. rewrite !length_app in E. lia. }
  intros b HP. eapply (Hind (length flagged) [] flagged); [done|done|apply not_elem_of_nil|done].
Qed.

Section Drain.
(** The definition, and the nodes that are lost; a copy on a lost node is no copy. *)
Context (rd : string) (Lost : gset string).

Definition object_of (w : fleet) (b : string) : option ResourceCR := f_objects w !! resourceCRDName rd b.
Definition complete (w : fleet) (b : string) : Prop := exists x, object_of w b = Some x /\ allVolumesUpToDate x = true.
(** Complete, and nobody is deleting it. *)
Definition live (w : fleet) (b : string) : Prop :=
  exists x, object_of w b = Some x /\ allVolumesUpToDate x = true /\ rc_Deleting x = false.
Definition marked (w : fleet) (b : string) : Prop := exists x, object_of w b = Some x /\ rc_Deleting x = true.

(** Replicas are made, changed and synchronised; none is removed, marked or loses its data. *)
Record grows (w w' : fleet) : Prop := mkGrows {
  gr_flagged : f_flagged w' = f_flagged w;
  gr_old name x : f_objects w !! name = Some x ->
    exists y, f_objects w' !! name = Some y /\ rc_Deleting y = rc_Deleting x /\ (allVolumesUpToDate x = true -> allVolumesUpToDate y = true);
  gr_new name y : f_objects w' !! name = Some y -> f_objects w !! name = None -> rc_Deleting y = false;
  gr_named name y : f_objects w' !! name = Some y -> rc_Name y = name;
  gr_sound b : complete w' b -> b ∉ Lost;
  gr_copies b : b ∈ f_copies w' <-> b ∈ f_copies w \/ complete w' b;
}.

Definition mark (w : fleet) (name : string) : fleet :=
  mkFleet (f_flagged w) (alter mark_deleting name (f_objects w)) (f_copies w).
Definition remove (w : fleet) (name : string) : fleet := mkFleet (f_flagged w) (delete name (f_objects w)) (f_copies w).
Definition evict (w : fleet) (v : string) : fleet := mkFleet (f_flagged w ++ [v]) (f_objects w) (f_copies w).

(** What the calls of the controllers do. Nodes and replica objects are read as they are; what is
    not constrained here may be answered in any way. *)
Inductive facts (w : fleet) : forall c : fcall, fanswer c -> fleet -> Prop :=
| fact_node name n :
    nc_Name n = name -> (Contains (nc_Flags n) NodeFlagEvicted = true -> name ∈ f_flagged w) ->
    (Contains (nc_Flags n) NodeFlagLost = true -> name ∈ Lost) -> facts w (GetNode name) (Ok n) w
| fact_nodes l :
    (forall v, v ∈ f_flagged w -> exists n, n ∈ l /\ node_Name n = v /\ Drain.draining n = true) -> facts w ListNodes (Ok l) w
| fact_replicas l : (forall r, r ∈ l -> no_dot (res_Name r) = true) -> facts w ListReplicas (Ok l) w
| fact_replica name x : f_objects w !! name = Some x -> facts w (GetReplica name) (Ok x) w
| fact_delete x a : facts w (DeleteReplica x) a (mark w (rc_Name x))
| fact_delete_fails x a : facts w (DeleteReplica x) a w
| fact_fails c (e : kerr) (a : fanswer c) :
    match c return fanswer c -> Prop with
    | GetNode _ => fun a => a = Err e | ListNodes => fun a => a = Err e | ListReplicas => fun a => a = Err e
    | GetReplica _ => fun a => a = Err e | DeleteReplica _ => fun _ => False | UpdateReplica _ => fun _ => False
    | _ => fun _ => True
    end a -> facts w c a w
| fact_place r f a w' : grows w w' -> facts w (PlaceReplicas r f) a w'
| fact_update r a w' : grows w w' -> facts w (UpdateStoreReplica r) a w'
| fact_flag x a : facts w (UpdateNode x) a (if Contains (nc_Flags x) NodeFlagEvicted then evict w (nc_Name x) else w).

(** ** The system *)

Inductive duty := DrainNode (name : string) | PlaceGroup (name : string) | RebalanceGroup (name : string) (tr : Rebalance.tracker)
  | RestoreDiskful (name : string) | WatchNode (name : string) | EvictNodes.

Definition forget {A} (m : prog fanswer A) : prog fanswer unit := _ ← m; Ret tt.
Definition pass_of (d : duty) : prog fanswer unit :=
  match d with
  | DrainNode name => forget (Drain.Reconcile name)
  | PlaceGroup name => forget (Groups.Reconcile name)
  | RebalanceGroup name tr => forget (Rebalance.Reconcile name tr)
  | RestoreDiskful name => forget (AutoDiskful.Reconcile name)
  | WatchNode name => forget (Heartbeat.Reconcile name)
  | EvictNodes => forget Evict.Tick
  end.

Record drains := mkDrains { dr_fleet : fleet; dr_agents : gmap nat (prog fanswer unit) }.

Inductive dstep : drains -> drains -> Prop :=
| dstep_start w ags i d : dstep (mkDrains w ags) (mkDrains w (<[i := pass_of d]> ags))
| dstep_stop w ags i : dstep (mkDrains w ags) (mkDrains w (delete i ags))
| dstep_call w ags i c k a w' :
    ags !! i = Some (Do c k) -> facts w c a w' -> dstep (mkDrains w ags) (mkDrains w' (<[i := k a]> ags))
(** An operator evicts a node; satellites synchronise replicas and finish deletions. *)
| dstep_evict w ags v : dstep (mkDrains w ags) (mkDrains (evict w v) ags)
| dstep_sync w ags w' : grows w w' -> dstep (mkDrains w ags) (mkDrains w' ags)
| dstep_gone w ags name x : f_objects w !! name = Some x -> rc_Deleting x = true -> dstep (mkDrains w ags) (mkDrains (remove w name) ags).

Record begins (w : fleet) : Prop := mkBegins {
  be_flagged : f_flagged w = [];
  be_named name x : f_objects w !! name = Some x -> rc_Name x = name;
  be_unmarked b : ~ marked w b;
  be_sound b : complete w b -> b ∉ Lost;
  be_copies b : b ∈ f_copies w <-> complete w b;
}.

(** ** What an agent knows, and what it may do *)

Record dknow := mkDKnow { dk_flagged : list string; dk_copies : gset string }.
Definition dknows (w : fleet) : dknow := mkDKnow (f_flagged w) (f_copies w).
Definition dless (K K' : dknow) : Prop := dk_flagged K `prefix_of` dk_flagged K' /\ dk_copies K ⊆ dk_copies K'.
#[global] Instance dless_pre : PreOrder dless.
Proof. split; [intros K|intros K1 K2 K3 [??] [??]]; split; (done || by etrans). Qed.

Definition dlearned (K : dknow) (c : fcall) : fanswer c -> Prop :=
  match c with
  | GetNode name => fun a => match a with
      | Ok n => nc_Name n = name /\ (Contains (nc_Flags n) NodeFlagEvicted = true -> name ∈ dk_flagged K)
                /\ (Contains (nc_Flags n) NodeFlagLost = true -> name ∈ Lost)
      | Err _ => True
      end
  | ListNodes => fun a => match a with
      | Ok l => forall v, v ∈ dk_flagged K -> exists n, n ∈ l /\ node_Name n = v /\ Drain.draining n = true
      | Err _ => True
      end
  | ListReplicas => fun a => match a with Ok l => forall r, r ∈ l -> no_dot (res_Name r) = true | Err _ => True end
  | GetReplica name => fun a => match a with
      | Ok x => rc_Name x = name /\ (allVolumesUpToDate x = true -> forall b, name = resourceCRDName rd b -> b ∈ dk_copies K)
      | Err _ => True
      end
  | _ => fun _ => True
  end.

(** Another copy, on a node that was still in service when [v] no longer was. *)
Definition evidence (K : dknow) (v : string) : Prop := exists b, b ∈ dk_copies K /\ before (dk_flagged K) v b.
Definition may_drop (K : dknow) (v : string) : Prop := v ∈ Lost \/ evidence K v.
Definition dpermitted (K : dknow) (c : fcall) : Prop :=
  match c with
  | DeleteReplica x => forall v, rc_Name x = resourceCRDName rd v -> may_drop K v
  | UpdateReplica _ => False
  | _ => True
  end.

Fixpoint dkeeps (K : dknow) {A} (p : prog fanswer A) (Q : dknow -> A -> Prop) : Prop :=
  match p with
  | Ret a => Q K a
  | Do c k => dpermitted K c /\ forall a K', dless K K' -> dlearned K' c a -> dkeeps K' (k a) Q
  end.

Lemma evidence_mono K K' v : dless K K' -> evidence K v -> evidence K' v.
Proof. intros [Hf Hc] (b & Hb & Hbe). exists b. split; [by apply Hc|by eapply before_prefix]. Qed.
Lemma may_drop_mono K K' v : dless K K' -> may_drop K v -> may_drop K' v.
Proof. intros HK [?|?]; [by left|right; by eapply evidence_mono]. Qed.
Lemma flagged_mono K K' v : dless K K' -> v ∈ dk_flagged K -> v ∈ dk_flagged K'.
Proof. intros [[l E] _] Hv. rewrite E. apply elem_of_app. by left. Qed.
Lemma dpermitted_mono K K' c : dless K K' -> dpermitted K c -> dpermitted K' c.
Proof. intros HK. destruct c; try done. cbn. intros H v E. eapply may_drop_mono; [done|auto]. Qed.

Lemma dkeeps_mono K K' {A} (p : prog fanswer A) (Q Q' : dknow -> A -> Prop) :
  dless K K' -> (forall K1 a, dless K' K1 -> Q K1 a -> Q' K1 a) -> (forall K1 K2 a, dless K1 K2 -> Q K1 a -> Q K2 a) ->
  dkeeps K p Q -> dkeeps K' p Q'.
Proof.
  intros HK HQ HQm. revert K K' HK HQ. induction p as [a|c k IH]; intros K K' HK HQ; cbn.
  - intros Ha. apply HQ; [done|]. by eapply HQm.
  - intros [Hp H]. split; [by eapply dpermitted_mono|]. intros a K1 HK1 Hl. eapply (IH a K1 K1); [done| |].
    + intros K2 b HK2. apply HQ. by etrans.
    + apply H; [by etrans|done].
Qed.

Lemma dkeeps_bind K {A B} (m : prog fanswer A) (f : A -> prog fanswer B) Q :
  dkeeps K m (fun K' a => dless K K' -> dkeeps K' (f a) Q) -> dkeeps K (m ≫= f) Q.
Proof.
  assert (forall K0, dless K0 K -> dkeeps K m (fun K' a => dless K0 K' -> dkeeps K' (f a) Q) -> dkeeps K (m ≫= f) Q) as H; [|by apply H].
  intros K0. change (m ≫= f) with (prog_bind f m). revert K. induction m as [a|c k IH]; intros K HK; cbn; [auto|].
  intros [Hp H]. split; [done|]. intros a K' HK' Hl. apply IH; [by etrans|by apply H].
Qed.

Lemma dkeeps_ask K c (Q : dknow -> fanswer c -> Prop) :
  dpermitted K c -> (forall a K', dless K K' -> dlearned K' c a -> Q K' a) -> dkeeps K (ask c) Q.
Proof. intros Hp HQ. split; [done|]. intros a K' HK Hl. by apply HQ. Qed.

Lemma dkeeps_seq K {A B} (m : prog fanswer A) (f : A -> prog fanswer B) Q :
  dkeeps K m (fun _ _ => True) -> (forall K' a, dless K K' -> dkeeps K' (f a) Q) -> dkeeps K (m ≫= f) Q.
Proof. intros Hm Hf. apply dkeeps_bind. apply (dkeeps_mono K K m (fun _ _ => True)); [reflexivity|auto|done|done]. Qed.

(** ** Controllers that delete nothing *)

Definition harmless (c : fcall) : Prop := match c with DeleteReplica _ | UpdateReplica _ => False | _ => True end.

Lemma harmless_keeps K {A} (p : prog fanswer A) : only harmless p -> dkeeps K p (fun _ _ => True).
Proof. revert K. induction p as [a|c k IH]; intros K; cbn; [done|]. intros [Hc Hk]. split; [by destruct c|]. auto. Qed.

Lemma only_kbind {A B} P (m : fprog A) (f : A -> fprog B) : only P m -> (forall a, only P (f a)) -> only P (kbind m f).
Proof. intros Hm Hf. apply only_bind; [done|]. intros [a|e]; [apply Hf|done]. Qed.
Lemma only_ask P c : P c -> only P (ask c).
Proof. by split. Qed.

(** Through binds, branches and results. *)
Ltac harmless_step :=
  match goal with
  | |- only _ (Ret _) => exact I
  | |- only _ (done_with _) => exact I
  | |- only _ (failed_with _) => exact I
  | |- only _ (mret _) => exact I
  | |- only _ (ask _) => apply only_ask; exact I
  | |- only _ (kbind _ _) => apply only_kbind; [|intros]
  | |- only _ (_ ≫= _) => apply only_bind; [|intros]
  | |- only _ (let '(_, _) := ?x in _) => destruct x
  | |- only _ (match ?x with _ => _ end) => destruct x
  end.
Ltac harmless := repeat harmless_step.

Lemma groups_harmless name : only harmless (Groups.Reconcile name).
Proof.
  assert (forall rg l, only harmless (Groups.apply_all rg l)) by (intros rg l; induction l; cbn [Groups.apply_all]; unfold Groups.applyRGToRD; harmless; done).
  unfold Groups.Reconcile. harmless; done.
Qed.

Lemma rebalance_harmless name tr : only harmless (Rebalance.Reconcile name tr).
Proof.
  assert (forall rg g now l n, only harmless (Rebalance.rebalance_rds rg g now l n)).
  { intros rg g now l. induction l; intros n; cbn [Rebalance.rebalance_rds]; harmless; done. }
  assert (forall rg g l, only harmless (Rebalance.replay_rds rg g l)).
  { intros rg g l. induction l; cbn [Rebalance.replay_rds]; unfold Rebalance.replayOneShortfall, Rebalance.stripShortfallAnnotation; harmless; done. }
  unfold Rebalance.Reconcile, Rebalance.resolveTuning, Rebalance.balanceResourcesDisabled, Rebalance.handleDisabledPass, Rebalance.refreshOfflineTracker,
    Rebalance.runRebalancePass, Rebalance.graceGateActive, Rebalance.rebalanceChildRDs, Rebalance.replaySpawnShortfalls, Rebalance.stripRebalanceAnnotation.
  harmless; done.
Qed.

Lemma diskful_harmless name : only harmless (AutoDiskful.Reconcile name).
Proof.
  assert (forall rd l, only harmless (AutoDiskful.promoteOne rd l)).
  { intros rd' l. induction l; cbn [AutoDiskful.promoteOne]; unfold AutoDiskful.firstAvailablePool; harmless; done. }
  unfold AutoDiskful.Reconcile, AutoDiskful.evaluateConfig, AutoDiskful.resolveAutoDiskfulMinutes, AutoDiskful.placeCountForRD, AutoDiskful.disabledNodeSet,
    AutoDiskful.handleDeficit, AutoDiskful.stampDeadline, AutoDiskful.stampDeadlineViaCRD, AutoDiskful.stripDeadlineIfPresent, AutoDiskful.stripDeadlineViaCRD.
  harmless; done.
Qed.

Lemma heartbeat_harmless name : only harmless (Heartbeat.Reconcile name).
Proof. unfold Heartbeat.Reconcile, Heartbeat.applyState. harmless; done. Qed.

Lemma evict_harmless : only harmless Evict.Tick.
Proof.
  assert (forall l e d now, only harmless (Evict.process_all l e d now)).
  { intros l e d now. induction l; cbn [Evict.process_all]; unfold Evict.processNode, Evict.flagEvicted; harmless; done. }
  unfold Evict.Tick, Evict.controllerExtras. harmless; done.
Qed.

(** ** The drain *)

Lemma resourceCRDName_inj r n r' n' : no_dot r = true -> no_dot r' = true -> resourceCRDName r n = resourceCRDName r' n' -> r = r' /\ n = n'.
Proof.
  unfold resourceCRDName, no_dot. revert r'. induction r as [|c r IH]; intros [|c' r'] H H' E.
  - change (String "."%char n = String "."%char n') in E. by injection E as ->.
  - change (String "."%char n = String c' (r' +:+ "." +:+ n')) in E. injection E as <- _. done.
  - change (String c (r +:+ "." +:+ n) = String "."%char n') in E. injection E as -> _. done.
  - change (String c (r +:+ "." +:+ n) = String c' (r' +:+ "." +:+ n')) in E. injection E as -> E. cbn in H, H'.
    rewrite negb_orb in H, H'. apply andb_true_iff in H as [_ H], H' as [_ H']. by destruct (IH r' H H' E) as [-> ->].
Qed.

Section Pass.
Hypothesis Hrd : no_dot rd = true.

Lemma prune_keeps K rdName node :
  no_dot rdName = true -> (rdName = rd -> may_drop K node) -> dkeeps K (Drain.pruneSource rdName node) (fun _ _ => True).
Proof using Hrd.
  intros Hn Hd. split; [done|]. intros [x|e] K' HK Hl; cbn in Hl; cbn -[dpermitted]; [|by destruct (IsNotFound e)].
  destruct Hl as [Hx _]. split; [|done]. cbn. rewrite Hx. intros v E. destruct (resourceCRDName_inj _ _ _ _ Hn Hrd E) as [-> ->].
  by eapply may_drop_mono; [|apply Hd].
Qed.

(** The nodes counted as draining include all that were evicted when they were read. *)
Lemma draining_keeps K (Q : dknow -> result kerr (gset string) -> Prop) :
  (forall K' drained, dless K K' -> (forall v, v ∈ dk_flagged K' -> v ∈ drained) -> Q K' (Ok drained)) ->
  (forall K' e, dless K K' -> Q K' (Err e)) -> dkeeps K Drain.drainingNodes Q.
Proof.
  intros HQ He. split; [done|]. intros [l|e] K' HK Hl; cbn in Hl |- *; [|by apply He].
  apply HQ; [done|]. intros v Hv. destruct (Hl v Hv) as (n & Hin & <- & Hd). rewrite elem_of_list_to_set. apply list_elem_of_fmap.
  exists n. split; [done|]. by apply list_elem_of_filter.
Qed.

(** A replica counted as up to date is one: [b] was in service at the read of the nodes. *)
Lemma count_keeps K0 K drained v rdName l :
  dless K0 K -> (forall u, u ∈ dk_flagged K0 -> u ∈ drained) -> v ∈ dk_flagged K0 ->
  dkeeps K (Drain.count_up_to_date rdName drained v l)
    (fun K' r => dless K K' /\ forall n, r = Ok n -> 0 <= n /\ (1 <= n -> rdName = rd -> evidence K' v)).
Proof.
  revert K. induction l as [|r l IH]; intros K HK Hd Hv; cbn [Drain.count_up_to_date].
  { cbn. split; [done|]. intros n [= <-]. lia. }
  destruct (Drain.stands_in drained v r) eqn:Es; [|by apply IH]. apply andb_true_iff in Es as [[_ Hnd%negb_true_iff]%andb_true_iff _].
  apply bool_decide_eq_false in Hnd. unfold kbind at 1. apply dkeeps_bind. unfold Drain.replicaUpToDate.
  split; [done|]. intros a K1 HK1 Hl.
  assert (forall ready : bool, (ready = true -> rdName = rd -> evidence K1 v) ->
    dkeeps K1 (n ←! Drain.count_up_to_date rdName drained v l; done_with (if ready then 1 + n else n))
      (fun K' r => dless K K' /\ forall n, r = Ok n -> 0 <= n /\ (1 <= n -> rdName = rd -> evidence K' v))) as Hrest.
  { intros ready Hr. unfold kbind. apply dkeeps_bind. eapply dkeeps_mono; [reflexivity| | |apply (IH K1)]; [| |by etrans|done|done].
    - cbn. intros K2 [n|e] HK2 [_ Hn] _; cbn; (split; [by etrans|]); [|done]. destruct (Hn n eq_refl) as [H0 H1].
      intros n' [= <-]. destruct ready; (split; [lia|]); [intros _ E; eapply evidence_mono; [done|auto]|auto].
    - cbn. intros K2 K3 a' HK3 [H1 H2]. split; [by etrans|]. intros n E. destruct (H2 n E) as [H3 H4]. split; [done|].
      intros. eapply evidence_mono; [done|auto]. }
  destruct a as [x|e]; cbn in Hl; cbn -[kbind].
  - intros _. apply (Hrest (allVolumesUpToDate x)). intros Hup ->. destruct Hl as [_ Hg]. exists (res_NodeName r). split; [by apply Hg|].
    destruct HK as [[l2 E2] _], HK1 as [[l3 E3] _]. exists (dk_flagged K0), (l2 ++ l3). split_and!; [|done|auto].
    rewrite E3, E2. by rewrite app_assoc.
  - destruct (IsNotFound e); cbn -[kbind]; intros _; [by apply (Hrest false)|]. cbn. split; [done|]. by intros.
Qed.

Lemma ready_keeps K v rdName placeCount :
  v ∈ dk_flagged K ->
  dkeeps K (Drain.evacuationReplacementReady placeCount rdName v) (fun K' r => dless K K' /\ (r = Ok true -> rdName = rd -> evidence K' v)).
Proof.
  intros Hv. unfold Drain.evacuationReplacementReady, kbind. apply dkeeps_bind, draining_keeps; [|by intros].
  intros K1 drained HK1 Hd _. apply dkeeps_bind. split; [done|]. intros [l|e] K2 HK2 _ _; cbn -[Drain.count_up_to_date]; [|by split; [etrans|]].
  apply dkeeps_bind. eapply dkeeps_mono; [reflexivity| | |apply (count_keeps K1)]; [| |done|done|].
  - cbn. intros K3 [n|e] HK3 [_ Hn] _; cbn; (split; [by do 2 (etrans; [done|])|]); [|done].
    destruct (Hn n eq_refl) as [_ H1]. intros [= [_ H2%bool_decide_eq_true]%andb_true_iff] E. auto.
  - cbn. intros K3 K4 a HK4 [H1 H2]. split; [by etrans|]. intros n E. destruct (H2 n E) as [H3 H4]. split; [done|].
    intros. eapply evidence_mono; [done|auto].
  - by eapply flagged_mono.
Qed.

Lemma target_keeps K v rdName : dkeeps K (Drain.currentDiskfulTarget rdName v) (fun _ _ => True).
Proof. apply harmless_keeps. unfold Drain.currentDiskfulTarget, Drain.drainingNodes. harmless. Qed.
Lemma annotate_keeps K rdName reason : dkeeps K (Drain.annotateMigrationBlocked rdName reason) (fun _ _ => True).
Proof. apply harmless_keeps. unfold Drain.annotateMigrationBlocked. harmless. Qed.

Lemma migrate_keeps K victim (lost : bool) :
  no_dot (res_Name victim) = true -> (if lost then res_NodeName victim ∈ Lost else res_NodeName victim ∈ dk_flagged K) ->
  dkeeps K (Drain.migrateResource victim lost) (fun _ _ => True).
Proof using Hrd.
  intros Hn Hv. unfold Drain.migrateResource, kbind. apply dkeeps_bind, dkeeps_ask; [done|].
  intros [d|e] K1 HK1 _ _; lazy beta match; [|done]. destruct (bool_decide _); [apply annotate_keeps|].
  apply dkeeps_bind, dkeeps_ask; [done|]. intros rg K2 HK2 _ _. lazy beta.
  apply dkeeps_seq; [apply target_keeps|]. intros K3 [n|e] HK3; lazy beta match; [|done].
  apply dkeeps_bind, dkeeps_ask; [done|]. intros [[pl want] [e|]] K4 HK4 _ _; lazy beta match; [done|].
  destruct lost; [by apply prune_keeps; [|left]|].
  apply dkeeps_bind. assert (res_NodeName victim ∈ dk_flagged K4) as Hv4 by (eapply flagged_mono; [|exact Hv]; by do 3 (etrans; [done|])).
  eapply dkeeps_mono; [reflexivity| | |apply ready_keeps; exact Hv4].
  - intros K5 [[]|e] HK5 [_ He] _; lazy beta match; cbn [negb]; [|done|done]. apply prune_keeps; [done|]. intros E. right. by apply He.
  - intros K5 K6 a HK6 [H1 H2]. split; [by etrans|]. intros. eapply evidence_mono; [done|auto].
Qed.

Lemma migrate_all_keeps K node (lost : bool) l :
  (forall r, r ∈ l -> no_dot (res_Name r) = true) -> (if lost then node ∈ Lost else node ∈ dk_flagged K) ->
  dkeeps K (Drain.migrate_all node lost l) (fun _ _ => True).
Proof using Hrd.
  revert K. induction l as [|r l IH]; intros K Hl Hv; cbn [Drain.migrate_all]; [done|].
  assert (forall K', dless K K' -> dkeeps K' (Drain.migrate_all node lost l) (fun _ _ => True)) as Hrest.
  { intros K' HK. apply IH; [set_solver|]. destruct lost; [done|by eapply flagged_mono]. }
  destruct (bool_decide _) eqn:E; [|by apply Hrest]. apply bool_decide_eq_true in E as <-.
  apply dkeeps_seq; [apply migrate_keeps; [apply Hl; by left|done]|auto].
Qed.

Lemma drain_keeps K name : dkeeps K (Drain.Reconcile name) (fun _ _ => True).
Proof using Hrd.
  apply dkeeps_bind, dkeeps_ask; [done|]. intros [n|e] K1 HK1 Hl _; lazy beta zeta match; [|by destruct (IsNotFound e)].
  destruct Hl as (Hname & Hev & Hlo). destruct (negb (Contains (nc_Flags n) NodeFlagEvicted) && negb (Contains (nc_Flags n) NodeFlagLost)) eqn:E; [done|]. unfold kbind. apply dkeeps_bind, dkeeps_ask; [done|].
  intros [l|e] K2 HK2 Hl _; lazy beta match; [|done].
  apply dkeeps_seq; [|by intros ? [?|?] ?]. apply migrate_all_keeps; [done|]. rewrite Hname.
  destruct (Contains (nc_Flags n) NodeFlagLost); [auto|]. eapply flagged_mono; [done|]. apply Hev. by destruct (Contains (nc_Flags n) NodeFlagEvicted).
Qed.

Lemma pass_of_keeps K d : dkeeps K (pass_of d) (fun _ _ => True).
Proof using Hrd.
  assert (forall A (m : prog fanswer A), dkeeps K m (fun _ _ => True) -> dkeeps K (forget m) (fun _ _ => True)) as H.
  { intros A m Hm. by apply dkeeps_seq. }
  destruct d; apply H; [apply drain_keeps|..]; apply harmless_keeps;
    [apply groups_harmless|apply rebalance_harmless|apply diskful_harmless|apply heartbeat_harmless|apply evict_harmless].
Qed.

End Pass.

(** ** The invariant *)

Definition superseded (w : fleet) (b : string) : Prop := exists b', b' ∈ f_copies w /\ before (f_flagged w) b b'.

Record dinv (w : fleet) : Prop := mkDInv {
  di_named name x : f_objects w !! name = Some x -> rc_Name x = name;
  di_copy b : b ∈ f_copies w -> live w b \/ superseded w b;
  di_marked b : marked w b -> b ∈ Lost \/ superseded w b;
  di_complete b : complete w b -> b ∈ f_copies w;
  di_sound b : b ∈ f_copies w -> b ∉ Lost;
}.

Lemma superseded_mono w w' b :
  f_flagged w `prefix_of` f_flagged w' -> (forall c, c ∈ f_copies w -> c ∈ f_copies w') -> superseded w b -> superseded w' b.
Proof. intros Hf Hc (b' & Hb' & Hbe). exists b'. split; [auto|by eapply before_prefix]. Qed.

Lemma dinv_grows w w' : dinv w -> grows w w' -> dinv w' /\ dless (dknows w) (dknows w').
Proof.
  intros Hw Hg. assert (forall b, b ∈ f_copies w -> b ∈ f_copies w') as Hc by (intros b ?; apply (gr_copies _ _ Hg); by left).
  assert (forall b, superseded w b -> superseded w' b) as Hs.
  { intros b. apply superseded_mono; [by rewrite (gr_flagged _ _ Hg)|done]. }
  assert (forall b, marked w' b -> marked w b) as Hm.
  { intros b (y & Hy & Hd). destruct (object_of w b) as [x|] eqn:E.
    - destruct (gr_old _ _ Hg _ _ E) as (y' & Hy' & Hd' & _). exists x. split; [done|]. unfold object_of in Hy. congruence.
    - by rewrite (gr_new _ _ Hg _ _ Hy E) in Hd. }
  split; [apply mkDInv|split; cbn; [by rewrite (gr_flagged _ _ Hg)|done]].
  - apply (gr_named _ _ Hg).
  - intros b Hb. apply (gr_copies _ _ Hg) in Hb as [Hb|(y & Hy & Hup)].
    + destruct (di_copy w Hw b Hb) as [(x & Hx & Hup & Hd)|]; [left|right; auto].
      destruct (gr_old _ _ Hg _ _ Hx) as (y & Hy & Hd' & Hup'). exists y. split_and!; [done|auto|congruence].
    + destruct (rc_Deleting y) eqn:Ed; [|left; by exists y]. destruct (di_marked w Hw b) as [Hl|Hl]; [apply Hm; by exists y| |right; auto].
      by destruct (gr_sound _ _ Hg b); [exists y|].
  - intros b Hb. destruct (di_marked w Hw b (Hm b Hb)) as [?|?]; [by left|right; auto].
  - intros b Hb. apply (gr_copies _ _ Hg). by right.
  - intros b Hb. apply (gr_copies _ _ Hg) in Hb as [Hb|Hb]; [by apply (di_sound w Hw)|by apply (gr_sound _ _ Hg)].
Qed.

Lemma dinv_evict w v : dinv w -> dinv (evict w v) /\ dless (dknows w) (dknows (evict w v)).
Proof.
  intros Hw. assert (f_flagged w `prefix_of` f_flagged (evict w v)) as Hp by by exists [v].
  split; [|by split]. apply mkDInv; try apply Hw.
  - intros b Hb. destruct (di_copy w Hw b Hb) as [?|?]; [by left|right]. by eapply superseded_mono; [..|done].
  - intros b Hb. destruct (di_marked w Hw b Hb) as [?|?]; [by left|right]. by eapply superseded_mono; [..|done].
Qed.

Lemma dinv_mark w name :
  dinv w -> (forall v, name = resourceCRDName rd v -> may_drop (dknows w) v) -> dinv (mark w name).
Proof.
  intros Hw Hp. assert (forall b x, object_of (mark w name) b = Some x -> exists y, object_of w b = Some y /\ allVolumesUpToDate y = allVolumesUpToDate x
    /\ rc_Name y = rc_Name x /\ (rc_Deleting x = true -> name = resourceCRDName rd b \/ rc_Deleting y = true)) as Hobj.
  { intros b x. unfold object_of. cbn. rewrite lookup_alter. destruct (decide (name = resourceCRDName rd b)) as [<-|].
    - destruct (f_objects w !! name) as [y|]; [|done]. intros [= <-]. exists y. split_and!; [done|done|done|auto].
    - intros ->. exists x. auto. }
  apply mkDInv.
  - intros k x. cbn. rewrite lookup_alter. destruct (decide (name = k)) as [<-|]; [|apply (di_named w Hw)].
    destruct (f_objects w !! name) as [y|] eqn:E; [|done]. intros [= <-]. by apply (di_named w Hw) in E.
  - intros b Hb. destruct (decide (name = resourceCRDName rd b)) as [E|E].
    { right. destruct (Hp b E) as [Hl|He]; [by destruct (di_sound w Hw b Hb)|exact He]. }
    destruct (di_copy w Hw b Hb) as [(x & Hx & H)|]; [left|by right]. exists x. split; [|done]. unfold object_of. cbn. by rewrite lookup_alter_ne.
  - intros b (x & Hx & Hd). destruct (Hobj b x Hx) as (y & Hy & _ & _ & Hd'). destruct (Hd' Hd) as [E|E]; [|apply (di_marked w Hw); by exists y].
    destruct (Hp b E) as [?|?]; [by left|by right].
  - intros b (x & Hx & Hup). destruct (Hobj b x Hx) as (y & Hy & E & _). apply (di_complete w Hw). exists y. split; [done|congruence].
  - apply (di_sound w Hw).
Qed.

Lemma dinv_remove w name x : dinv w -> f_objects w !! name = Some x -> rc_Deleting x = true -> dinv (remove w name).
Proof.
  intros Hw Hx Hd. assert (forall b y, object_of (remove w name) b = Some y -> object_of w b = Some y) as Hobj.
  { intros b y. unfold object_of. cbn. by intros [_ ?]%lookup_delete_Some. }
  apply mkDInv.
  - intros k y. cbn. intros [_ ?]%lookup_delete_Some. by apply (di_named w Hw).
  - intros b Hb. destruct (di_copy w Hw b Hb) as [(y & Hy & Hup & Hl)|]; [left|by right]. exists y. split; [|done].
    unfold object_of. cbn. rewrite lookup_delete_ne; [done|]. intros ->. unfold object_of in Hy. congruence.
  - intros b (y & Hy & Hm). apply (di_marked w Hw). exists y. auto.
  - intros b (y & Hy & Hup). apply (di_complete w Hw). exists y. auto.
  - apply (di_sound w Hw).
Qed.

(** ** The system *)

Definition drains_inv (s : drains) : Prop :=
  dinv (dr_fleet s) /\ forall i p, dr_agents s !! i = Some p -> dkeeps (dknows (dr_fleet s)) p (fun _ _ => True).

Lemma facts_inv w c a w' : dinv w -> dpermitted (dknows w) c -> facts w c a w' -> dinv w' /\ dless (dknows w) (dknows w').
Proof.
  intros Hw Hp Ha. destruct Ha; try (by split; [|reflexivity]).
  - split; [|reflexivity]. by apply dinv_mark.
  - by apply dinv_grows.
  - by apply dinv_grows.
  - destruct (Contains _ _); [by apply dinv_evict|by split; [|reflexivity]].
Qed.

Lemma facts_learned w c a w' : dinv w -> facts w c a w' -> dlearned (dknows w') c a.
Proof.
  intros Hw Ha. destruct Ha; cbn; try done.
  - split; [by apply (di_named w Hw)|]. intros Hup b ->. apply (di_complete w Hw). by exists x.
  - destruct c; cbn in *; try done; by subst.
Qed.

Section System.
Hypothesis Hrd : no_dot rd = true.

Lemma dstep_inv s s' : dstep s s' -> drains_inv s -> drains_inv s'.
Proof using Hrd.
  assert (forall w w' (p : prog fanswer unit), dless (dknows w) (dknows w') -> dkeeps (dknows w) p (fun _ _ => True) -> dkeeps (dknows w') p (fun _ _ => True)) as Hmono.
  { intros w w' p HK. apply (dkeeps_mono _ _ (A := unit)); done. }
  intros [w ags i d|w ags i|w ags i c k a w' Hi Ha|w ags v|w ags w' Hg|w ags name x Hx Hd] [Hw Hags]; cbn [dr_fleet dr_agents] in *.
  - split; [done|]. intros j p. cbn. intros [[_ <-]|[_ Hj]]%lookup_insert_Some; [by apply pass_of_keeps|by eapply Hags].
  - split; [done|]. intros j p. cbn. intros [_ Hj]%lookup_delete_Some. by eapply Hags.
  - pose proof (Hags _ _ Hi) as [Hp Hk]. destruct (facts_inv w c a w' Hw Hp Ha) as [Hw' HK]. split; [done|]. intros j p. cbn.
    intros [[_ <-]|[_ Hj]]%lookup_insert_Some; [|by eapply Hmono; [|eapply Hags]]. apply Hk; [done|by apply (facts_learned w)].
  - destruct (dinv_evict w v Hw) as [Hw' HK]. split; [done|]. intros j p Hj. by eapply Hmono; [|eapply Hags].
  - destruct (dinv_grows w w' Hw Hg) as [Hw' HK]. split; [done|]. intros j p Hj. by eapply Hmono; [|eapply Hags].
  - split; [by eapply dinv_remove|]. intros j p Hj. by eapply Hags.
Qed.

Lemma begins_inv w : begins w -> dinv w.
Proof using.
  intros Hb. apply mkDInv.
  - apply (be_named w Hb).
  - intros b (x & Hx & Hup)%(be_copies w Hb). left. exists x. split_and!; [done|done|]. destruct (rc_Deleting x) eqn:E; [|done].
    destruct (be_unmarked w Hb b). by exists x.
  - intros b H. by destruct (be_unmarked w Hb b).
  - apply (be_copies w Hb).
  - intros b H%(be_copies w Hb). by apply (be_sound w Hb).
Qed.


End System.

End Drain.
