(* ===== verification/FleetExamples.v ===== *)
(** * Evictions are bounded

    What one tick of the eviction of [Fleet] asks of the API server, whatever it is answered. *)

From S2P Require Import Prelude Prog Api Store DrbdAlloc Kube GoFloat GoTime Dispatcher Snapshots Fleet.

Definition eviction (n : NodeObject) : fcall := UpdateNode (Evict.with_nc_Flags n (nc_Flags n ++ [NodeFlagEvicted])).

(** Failures do not stop the tick: every node that is due is asked for, in order, and nothing else. *)
Lemma process_all_calls oracle nodes extras d now :
  calls_of oracle (Evict.process_all nodes extras d now) = eviction <$> filter (fun n => Evict.evictable n extras d now = true) nodes.
Proof.
  induction nodes as [|n nodes IH]; [done|]. cbn [Evict.process_all].
  destruct (calls_of_bind oracle (Evict.processNode n extras d now) (fun _ => Evict.process_all nodes extras d now)) as [a ->].
  rewrite IH. rewrite filter_cons. unfold Evict.processNode. by destruct (Evict.evictable n extras d now).
Qed.

(** The settings of a node: its own, those of the cluster, or the defaults. *)
Definition limit_of (n : NodeObject) (extras : gmap string string) : Z :=
  Evict.resolveIntProp (nc_Props n) extras Evict.PropAutoEvictMaxDisconnectedNodes Evict.DefaultAutoEvictMaxDisconnectedNodes.
Definition window_of (n : NodeObject) (extras : gmap string string) : Z :=
  Evict.resolveDurationMinutesProp (nc_Props n) extras Evict.PropAutoEvictAfterTime Evict.DefaultAutoEvictAfterTimeMinutes.
Definition eviction_allowed (n : NodeObject) (extras : gmap string string) : Prop :=
  Evict.resolveBoolProp (nc_Props n) extras Evict.PropAutoEvictAllowEviction Evict.DefaultAutoEvictAllowEviction = true.
(** A node that is to be evicted. *)
Definition due (nodes : list NodeObject) (extras : gmap string string) (now : Z) (n : NodeObject) : Prop :=
  NodeFlagEvicted ∉ nc_Flags n /\ eviction_allowed n extras /\ nc_ConnectionStatus n = Heartbeat.NodeConnectionStatusOffline
  /\ (exists t, nc_LastHeartbeatTime n = Some t /\ window_of n extras <= time_Sub now t)
  /\ Evict.countDisconnected nodes <= limit_of n extras.
Lemma evictable_due nodes extras now n : Evict.evictable n extras (Evict.countDisconnected nodes) now = true <-> due nodes extras now n.
Proof.
  unfold Evict.evictable, due, eviction_allowed, limit_of, window_of, Evict.isNodeOffline, Evict.hasBeenOfflineLongEnough.
  rewrite !andb_true_iff, !negb_true_iff, Contains_false, bool_decide_eq_true, bool_decide_eq_false, Z.nlt_ge.
  destruct (nc_LastHeartbeatTime n) as [t|]; [rewrite bool_decide_eq_true|]; naive_solver.
Qed.

Lemma filter_weaken {A} (P Q : A -> Prop) `{forall x, Decision (P x)} `{forall x, Decision (Q x)} (l : list A) :
  (forall x, x ∈ l -> P x -> Q x) -> filter P l ⊆+ filter Q l.
Proof.
  induction l as [|x l IH]; intros Hl; [done|]. rewrite !filter_cons. specialize (IH ltac:(set_solver)).
  destruct (decide (P x)) as [Hp|]; [rewrite (decide_True (P := Q x)) by (apply Hl; [by left|done]); by constructor|].
  destruct (decide (Q x)); [by constructor|done].
Qed.



(** * The controllers at work

    An executor of the programs of [Fleet] over the in-memory store and the placer, and what the
    controllers do in some clusters: a drain that goes on adding replicas, a drain that relies on a
    replica that is being deleted, names that are not spelled in lower case, and a rebalance that
    takes back what an operator has just asked for. *)

From S2P Require Import Prelude Prog Api Store DrbdAlloc Kube GoFloat GoTime CrdName Dispatcher Tiebreaker Snapshots Placer PlacerFacts PlacerProps Fleet FleetDrain.

(** ** The executor *)

(** The store, the replicas whose data is complete, and those that are being deleted: the object of
    a replica stays until its satellite has let go of it. *)
Record site := mkSite { s_store : InMemory; s_complete : gset (string * string); s_deleting : gset (string * string) }.

Definition object_name (r : Resource) : string := CrdName.Name (resourceCRDName (res_Name r) (res_NodeName r)).
Definition the_object (s : site) (r : Resource) : ResourceCR :=
  mkResourceCR (object_name r) (bool_decide (rKey r ∈ s_deleting s)) [] ∅
    (mkResourceSpec (res_Name r) (res_NodeName r) (res_Props r) (res_Flags r) "" [] None None None)
    (mkResourceStatus false None None None
       [mkResourceVolumeStatus 0 (if bool_decide (rKey r ∈ s_complete s) then "UpToDate" else "Inconsistent") ""] []).
Definition find_object (s : site) (name : string) : option Resource :=
  find (fun r => bool_decide (object_name r = name)) (Resources_List (im_resources (s_store s))).

Definition found {E A} (e : kerr) (r : result E A) : result kerr A := match r with Ok a => Ok a | Err _ => Err e end.
Definition node_object (n : Node) : NodeObject := mkNodeObject (node_Name n) (node_Flags n) (node_Props n) (node_ConnectionStatus n) None [].
Definition with_store (s : site) (st : InMemory) : site := mkSite st (s_complete s) (s_deleting s).
Definition with_groups (s : InMemory) (g : gmap string ResourceGroup) : InMemory :=
  mkInMemory (im_nodes s) (im_storagePools s) g (im_resourceDefinitions s) (im_resources s) (im_volumeDefinitions s)
    (im_snapshots s) (im_physicalDevices s) (im_controllerProps s) (im_storagePoolDefinitions s).
(** A deletion marks the object; the store shows the mark as a flag. *)
Definition mark_replica (s : site) (key : string * string) : site :=
  mkSite (with_resources (s_store s) (mkInMemoryResources
            (alter (fun r => with_res_spec r (res_Flags r ++ [ResourceFlagDelete]) (res_Props r)) key (res_m (im_resources (s_store s))))
            (res_volStates (im_resources (s_store s)))))
    (s_complete s) ({[key]} ∪ s_deleting s).

Definition answer (s : site) (c : fcall) : fanswer c * site :=
  let st := s_store s in
  match c with
  | GetNode name => (match im_nodes st !! name with Some n => Ok (node_object n) | None => Err KNotFound end, s)
  | ListNodes => (Ok (Nodes_List (H := example_uuid) (im_nodes st)), s)
  | ListReplicas => (Ok (Resources_List (im_resources st)), s)
  | ListReplicasOf rd => (Ok (Resources_ListByDefinition (im_resources st) rd), s)
  | GetDefinition rd => (found KNotFound (ResourceDefinitions_Get (im_resourceDefinitions st) rd), s)
  | ListDefinitions => (Ok (ResourceDefinitions_List (im_resourceDefinitions st)), s)
  | GetGroup name => (found KNotFound (ResourceGroups_Get (im_resourceGroups st) name), s)
  | UpdateGroup rg =>
      match ResourceGroups_Update (im_resourceGroups st) (Some rg) with
      | Ok g => (Ok tt, with_store s (with_groups st g))
      | Err _ => (Err KNotFound, s)
      end
  | GetControllerProps => (Ok (im_controllerProps st), s)
  | PlaceReplicas rd f =>
      let '(placed, want, e, st') := Place (Ops := @InMemory_ops example_uuid) (RE := Demo.no_regexp) id rd f st in
      ((placed, want, (fun _ => KOther) <$> e), with_store s st')
  | GetReplica name => (match find_object s name with Some r => Ok (the_object s r) | None => Err KNotFound end, s)
  | DeleteReplica x => (Ok tt, mark_replica s (rs_ResourceDefinitionName (rc_Spec x), rs_NodeName (rc_Spec x)))
  | UpdateReplica x =>
      (Ok tt, with_store s (with_resources st (mkInMemoryResources
        (alter (fun r => with_res_spec r (rs_Flags (rc_Spec x)) (rs_Props (rc_Spec x)))
           (rs_ResourceDefinitionName (rc_Spec x), rs_NodeName (rc_Spec x)) (res_m (im_resources st))) (res_volStates (im_resources st)))))
  | UpdateNode _ | PatchNodeStatus _ _ _ _ _ _ | UpdateDefinitionMeta _ _ | UpdateStoreReplica _ | UpdateDefinition _ => (Err KOther, s)
  | ListNodeObjects => (Ok (node_object <$> Nodes_List (H := example_uuid) (im_nodes st)), s)
  | GetControllerExtras => (Ok ∅, s)
  | GetDefinitionMeta _ => (Err KOther, s)
  | GetStoreReplica rd node => (found KNotFound (Resources_Get (im_resources st) rd node), s)
  | ListPools => (Ok (StoragePools_List (im_storagePools st)), s)
  | FNow => (0, s)
  end.

Fixpoint performs {A} (s : site) (p : prog fanswer A) : A * site :=
  match p with Ret a => (a, s) | Do c k => performs (answer s c).2 (k (answer s c).1) end.
(** The first calls only: what is left to do. *)
Fixpoint begins_with {A} (n : nat) (s : site) (p : prog fanswer A) : prog fanswer A * site :=
  match n, p with
  | S n, Do c k => begins_with n (answer s c).2 (k (answer s c).1)
  | _, _ => (p, s)
  end.

(** ** Clusters *)

Definition definition (name : string) : ResourceDefinition := mkResourceDefinition name "" "grp" ∅ None [] [] [] "" [] ∅.
Definition group (count : Z) (notes : gmap string string) : ResourceGroup :=
  mkResourceGroup "grp" "" ∅ (Some notes) (with_PlaceCount zero_filter count) [] "" 0 ∅ [] [].
Definition replica (rd node : string) (flags : list string) (props : gmap string string) : Resource :=
  mkResource rd node props flags zero_ResourceState "" None None false [] ∅ 0.

Definition cluster (nodes : list (string * list string)) (rg : ResourceGroup) (rd : string) (rows : list Resource) : InMemory :=
  mkInMemory (list_to_map ((fun '(n, fl) => (n, Demo.node n "a" fl)) <$> nodes))
    (list_to_map ((fun '(n, _) => ((n, "thin"), Demo.pool n "" 100)) <$> nodes))
    {["grp" := rg]} {[rd := definition rd]}
    (mkInMemoryResources (list_to_map ((fun r => (rKey r, r)) <$> rows)) ∅)
    {[(rd, 0) := mkVolumeDefinition 0 10 ∅ [] ""]} ∅ ∅ ∅ ∅.

Definition replica_nodes (s : site) (rd : string) : list string := res_NodeName <$> Resources_ListByDefinition (im_resources (s_store s)) rd.
Definition drain_of (node : string) (s : site) : site := (performs s (Drain.Reconcile node)).2.

(** Two copies wanted and two there; [n1] is evicted, and [n3], [n4] and [n5] are spare. *)
Definition spares : site :=
  mkSite (cluster [("n1", ["EVICTED"]); ("n2", []); ("n3", []); ("n4", []); ("n5", [])] (group 2 ∅) "pvc-1"
            [replica "pvc-1" "n1" [] ∅; replica "pvc-1" "n2" [] ∅]) {[("pvc-1", "n1"); ("pvc-1", "n2")]} ∅.

(** The target of a drain is not stable. The replacement is counted beside the replica it
    replaces as long as it is synchronising, so every pass asks for one replica more, until every
    spare node has one. *)
Theorem drain_fills_the_cluster :
  replica_nodes (drain_of "n1" spares) "pvc-1" = ["n1"; "n2"; "n3"]
  /\ replica_nodes (drain_of "n1" (drain_of "n1" spares)) "pvc-1" = ["n1"; "n2"; "n3"; "n4"]
  /\ replica_nodes (drain_of "n1" (drain_of "n1" (drain_of "n1" spares))) "pvc-1" = ["n1"; "n2"; "n3"; "n4"; "n5"].
Proof. split_and!; vm_compute; reflexivity. Qed.

(** [n1] is evicted; the copy on [n2] is being deleted. *)
Definition last_copy : site :=
  mark_replica (mkSite (cluster [("n1", ["EVICTED"]); ("n2", [])] (group 0 ∅) "pvc-1"
    [replica "pvc-1" "n1" [] ∅; replica "pvc-1" "n2" [] ∅]) {[("pvc-1", "n1"); ("pvc-1", "n2")]} ∅) ("pvc-1", "n2").

(** A drain counts a replica that is being deleted as the copy that replaces its own: after the
    pass no copy is left that nobody deletes. *)
Theorem drain_counts_a_deleted_replica :
  bool_decide (("pvc-1", "n1") ∈ s_deleting last_copy) = false
  /\ bool_decide (("pvc-1", "n1") ∈ s_deleting (drain_of "n1" last_copy)) = true
  /\ bool_decide (s_complete (drain_of "n1" last_copy) ⊆ s_deleting (drain_of "n1" last_copy)) = true.
Proof. split_and!; vm_compute; reflexivity. Qed.

(** A definition with capital letters: [n1] is lost, and [n2] was to be migrated to [n3]. *)
Definition capitals : site :=
  mkSite (cluster [("n1", ["LOST"]); ("n2", []); ("n3", [])] (group 0 ∅) "PVC-1"
            [replica "PVC-1" "n1" [] ∅; replica "PVC-1" "n2" [] ∅;
             replica "PVC-1" "n3" [] {[Migration.MigratingFromProp := "n2"]}])
    {[("PVC-1", "n1"); ("PVC-1", "n2"); ("PVC-1", "n3")]} ∅.
Definition migrated : site := (performs capitals (Migration.Reconcile (CrdName.Name "PVC-1.n3"))).2.

(** The controllers do not find the objects of definitions that are not spelled in lower case,
    because they look under the plain name and not under the one the store files them under. The
    replica of a lost node stays for ever, and a migration is declared complete without its source
    being removed. *)
Theorem capital_letters_are_not_found :
  (performs capitals (Drain.Reconcile "n1")).1 = Ok no_requeue
  /\ bool_decide (s_deleting (drain_of "n1" capitals) = ∅) = true
  /\ bool_decide (s_deleting migrated = ∅) = true
  /\ (rs_Props ∘ rc_Spec ∘ the_object migrated <$> find_object migrated (CrdName.Name "PVC-1.n3")) ≫= (.!! Migration.MigratingFromProp) = None.
Proof. split_and!; vm_compute; reflexivity. Qed.

(** ** A rebalance and an operator *)

Definition pending : gmap string string := {[Rebalance.AnnotationRGRebalancePending := "true"]}.
Definition asked (count : Z) : site -> site := fun s => with_store s (with_groups (s_store s) {["grp" := group count pending]}).
Definition two_nodes : site :=
  mkSite (cluster [("n1", []); ("n2", []); ("n3", [])] (group 1 pending) "pvc-1" [replica "pvc-1" "n1" [] ∅]) {[("pvc-1", "n1")]} ∅.

(** The pass is about to take its mark off when the operator asks for three replicas. *)
Definition interrupted : prog fanswer (result kerr ctrl_result * Rebalance.tracker) * site :=
  begins_with 8 two_nodes (Rebalance.Reconcile "grp" ∅).
Definition overwritten : site := (performs (asked 3 interrupted.2) interrupted.1).2.
Definition wanted (s : site) : option (Z * bool) :=
  (fun g => (PlaceCount (rg_SelectFilter g), bool_decide (notes (rg_Annotations g) !! Rebalance.AnnotationRGRebalancePending = None)))
  <$> im_resourceGroups (s_store s) !! "grp".

(** A rebalance pass takes its mark off by writing back the whole group as it was at its start:
    a change of the group made while the placer was at work is lost, and so is its mark. *)
Theorem rebalance_reverts_a_change :
  wanted (asked 3 interrupted.2) = Some (3, false) /\ wanted overwritten = Some (1, true).
Proof. split; vm_compute; reflexivity. Qed.

(** ** A drain under way *)

Module UnderWay.

Definition copy (node : string) : ResourceCR :=
  mkResourceCR (resourceCRDName "pvc-1" node) false [] ∅ (mkResourceSpec "pvc-1" node ∅ [] "" [] None None None)
    (mkResourceStatus false None None None [mkResourceVolumeStatus 0 "UpToDate" ""] []).
Definition start : fleet :=
  mkFleet [] {["pvc-1.n1" := copy "n1"; "pvc-1.n2" := copy "n2"]} {["n1"; "n2"]}.

Lemma object_cases b x : object_of "pvc-1" start b = Some x -> (b = "n1" \/ b = "n2") /\ x = copy b.
Proof.
  unfold object_of, start, resourceCRDName. cbn [f_objects]. intros [[E <-]|[_ [E <-]%lookup_singleton_Some]]%lookup_insert_Some.
  - apply (inj (String.append "pvc-1.") "n1" b) in E as <-. auto.
  - apply (inj (String.append "pvc-1.") "n2" b) in E as <-. auto.
Qed.

Lemma complete_cases b : complete "pvc-1" start b <-> b = "n1" \/ b = "n2".
Proof.
  split; [by intros (x & [? _]%object_cases & _)|]. intros [->| ->]; [exists (copy "n1")|exists (copy "n2")]; split; reflexivity.
Qed.

Lemma start_begins : begins "pvc-1" ∅ start.
Proof.
  apply mkBegins.
  - reflexivity.
  - intros name x. unfold start. cbn [f_objects]. by intros [[<- <-]|[_ [<- <-]%lookup_singleton_Some]]%lookup_insert_Some.
  - intros b (x & [_ ->]%object_cases & Hd). done.
  - intros b _. apply not_elem_of_empty.
  - intros b. rewrite complete_cases. unfold start. cbn [f_copies]. set_solver.
Qed.

Definition flagged : NodeObject := mkNodeObject "n1" ["EVICTED"] ∅ "" None [].
Definition reading : prog fanswer unit := pass_of (DrainNode "n1").

(** [n1] is evicted, and a pass over it has read the node. *)
Lemma running : exists s, rtc (dstep "pvc-1" ∅) (mkDrains start ∅) s /\ f_flagged (dr_fleet s) = ["n1"].
Proof.
  eexists. split.
  - eapply rtc_l; [apply (dstep_evict _ _ start ∅ "n1")|]. eapply rtc_l; [apply (dstep_start _ _ _ ∅ 0 (DrainNode "n1"))|].
    eapply rtc_l; [|apply rtc_refl]. eapply (dstep_call _ _ _ _ 0 (GetNode "n1") _ (Ok flagged)); [apply lookup_insert_eq|].
    apply fact_node; [reflexivity|intros _; cbn; by left|done].
  - reflexivity.
Qed.

End UnderWay.

