(* ===== verification/Storage.v ===== *)
(** * The storage of a node

    Models the providers of [pkg/storage]: LVM with and without a thin pool ([lvm/lvm_common.go],
    [lvm_thick.go], [lvm_thin.go]), ZFS ([zfs/zfs.go]) and files ([file/file.go]), and the sweeper
    that removes what no resource owns any more
    ([pkg/satellite/controllers/storage_sweeper.go]). They are programs over the commands and system
    calls of the node: each builds the argument lists the source builds and reads the text the
    command prints. *)

From Stdlib Require Import Ascii.
From S2P Require Import Prelude Prog GoStrings GoFloat.

(** ** The contract (pkg/storage/storage.go) *)

Record Volume := mkVolume { v_PoolName : string; v_ResourceName : string; v_VolumeNumber : Z; v_SizeKib : Z }.
Record Snapshot := mkSnapshot { s_PoolName : string; s_ResourceName : string; s_SnapshotName : string }.
Record VolumeStatus := mkVolumeStatus { vs_DevicePath : string; vs_AllocatedKib : Z; vs_UsableKib : Z; vs_State : string }.
Record PoolStatus := mkPoolStatus { ps_FreeCapacityKib : Z; ps_TotalCapacityKib : Z; ps_SupportsSnapshots : bool }.
Record VolumeRef := mkVolumeRef { ref_PoolName : string; ref_ResourceName : string; ref_VolumeNumber : Z }.

Inductive storage_err := ErrNotFound | ErrPoolGone | SFailed.
Inductive file_err := NotExist | FileFailed.

(** ** Calls *)

Inductive ocall :=
(** [exec.Run]: what the command printed, and the text of the error if it failed. *)
| Exec (cmd : string) (args : list string)
(** [exec.RunWithStdin], fed with the stream that is received. *)
| ExecStdin (cmd : string) (args : list string)
| Stat (path : string)
| Remove (path : string)
| Rename (from to : string)
(** A command started with its output as a stream. *)
| Pipe (cmd : string) (args : list string)
(** [os.OpenFile] with [O_CREATE|O_EXCL]; [io.Copy] of the stream into it; [Close]. *)
| CreateExclusive (path : string)
| CopyInto (path : string)
| Close (path : string)
| OpenFile (path : string)
| StatFs (path : string)
| UnixNow
(** The API server, as the sweeper reads it. *)
| NodeAnnotation (node key : string)
| ListResources
| DefinitionVolumes (rd : string).

Definition oanswer (c : ocall) : Type :=
  match c with
  | Exec _ _ | ExecStdin _ _ => string * option string
  | Stat _ => result file_err Z
  | Remove _ | Rename _ _ | Pipe _ _ | CreateExclusive _ | CopyInto _ | Close _ | OpenFile _ => result file_err unit
  | StatFs _ => result file_err (Z * Z)
  | UnixNow => Z
  | NodeAnnotation _ _ => result unit (option string)
  | ListResources => result unit (list (string * string))
  | DefinitionVolumes _ => result unit (list Z)
  end.

Notation sprog A := (prog oanswer (result storage_err A)).
Definition osys (c : ocall) : prog oanswer (oanswer c) := Do c Ret.

(** A command whose failure ends the operation, and one whose failure is ignored. *)
Definition must (cmd : string) (args : list string) : sprog string :=
  r ← osys (Exec cmd args); match r with (out, None) => done_with out | (_, Some _) => failed_with SFailed end.
Definition ignoring {A} (m : prog oanswer A) : sprog unit := _ ← m; done_with tt.

(** ** Text *)

Definition newline : ascii := "010"%char.
Definition tab : ascii := "009"%char.
Definition lines (s : string) : list string := split_char newline s.

Definition mibPerKib : Z := 1024.
Definition bytesPerKib : Z := 1024.
(** [max(kib/mibPerKib, 1)] *)
Definition size_mib (kib : Z) : Z := Z.max (kib `quot` mibPerKib) 1.
Definition mib (kib : Z) : string := format_int (size_mib kib).

Definition stateProvisioned : string := "PROVISIONED".
Definition stateNotProvisioned : string := "NOT_PROVISIONED".

(** Resource and volume number of a name [<resource>_<five digits>]. *)
Definition parse_numbered (name : string) : option (string * Z) :=
  match rev (split_char "_"%char name) with
  | suffix :: (_ :: _) as front =>
      if negb (bool_decide (String.length suffix = 5%nat)) then None
      else (fun n => (Str.join "_" (rev (tail (rev (split_char "_"%char name)))), n)) <$> parse_int 64 suffix
  | _ => None
  end.

(** ** LVM *)

Module Lvm.

Definition ConfigFilter : string := "devices { filter=['r|^/dev/drbd|','r|^/dev/zd|'] }".
Definition activationUdevless : string := "activation { udev_sync=0 udev_rules=0 }".
Definition Args (extra : list string) : list string := "--config" :: ConfigFilter :: extra.
Definition ArgsUdevless (extra : list string) : list string := "--config" :: (ConfigFilter +:+ " " +:+ activationUdevless) :: extra.
Definition RestoreIncompleteTag : string := "blockstor-restore-incomplete".

Definition parseFloatToInt64 (raw : string) : option Z := to_int <$> Parse.ParseFloat (Str.trim_space raw).

Definition volumeLVName (vol : Volume) : string := v_ResourceName vol +:+ "_" +:+ pad5 (v_VolumeNumber vol).
Definition snapshotLVName (snap : Snapshot) : string := s_ResourceName snap +:+ "_" +:+ s_SnapshotName snap +:+ "_00000".
Definition freshLVName (final : string) : string := final +:+ ".bsnew".
Definition parseLVName (name : string) : option (string * Z) := parse_numbered name.

Definition tags_args (vg lvName : string) : list string := Args ["--noheadings"; "-o"; "lv_tags"; vg +:+ "/" +:+ lvName].
Definition has_tag (out tag : string) : bool :=
  existsb (fun got => bool_decide (Str.trim_space got = tag)) (split_char ","%char (Str.trim_space out)).
(** A failed probe counts as the absence of the tag. *)
Definition lvHasTag (vg lvName tag : string) : prog oanswer bool :=
  r ← osys (Exec "lvs" (tags_args vg lvName));
  Ret match r with (out, None) => has_tag out tag | (_, Some _) => false end.
Definition lvHasRestoreIncompleteTag (vg lvName : string) : prog oanswer bool := lvHasTag vg lvName RestoreIncompleteTag.

Definition exists_args (vg lvName : string) : list string := Args ["--noheadings"; "-o"; "lv_name"; vg +:+ "/" +:+ lvName].
(** A failed probe counts as the absence of the volume. *)
Definition lvExists (vg lvName : string) : prog oanswer bool :=
  r ← osys (Exec "lvs" (exists_args vg lvName));
  Ret match r with (out, None) => negb (bool_decide (Str.trim_space out = "")) | (_, Some _) => false end.

Definition status_of_line (line : string) : result storage_err VolumeStatus :=
  if bool_decide (line = "") then Ok (mkVolumeStatus "" 0 0 stateNotProvisioned)
  else match Str.cut "|"%char line with
       | None => Err SFailed
       | Some (path, size) =>
           match parseFloatToInt64 size with
           | None => Err SFailed
           | Some kib => Ok (mkVolumeStatus (Str.trim_space path) kib kib stateProvisioned)
           end
       end.
Definition status_args (vgLV : string) : list string :=
  Args ["--noheadings"; "--separator"; "|"; "-o"; "lv_path,lv_size"; "--units"; "k"; "--nosuffix"; vgLV].
Definition volumeStatusViaLVS (vgLV : string) : sprog VolumeStatus :=
  out ←! must "lvs" (status_args vgLV); Ret (status_of_line (Str.trim_space out)).

(** The volumes in the listing of the volume group: type [-] or [V] and a name with five digits. *)
Definition listed (line : string) : option VolumeRef :=
  match split_char tab (Str.trim_space line) with
  | name :: attr :: _ =>
      match Str.trim_space attr with
      | String volType _ =>
          if Ascii.eqb volType "-" || Ascii.eqb volType "V"
          then (fun '(resource, n) => mkVolumeRef "" resource (wrap32 n)) <$> parseLVName (Str.trim_space name)
          else None
      | EmptyString => None
      end
  | _ => None
  end.
Definition list_args (vg : string) : list string := Args ["--noheadings"; "-o"; "lv_name,lv_attr"; "--separator"; String tab ""; vg].
Definition listLVMVolumes (vg : string) : sprog (list VolumeRef) :=
  out ←! must "lvs" (list_args vg); done_with (omap listed (lines (Str.trim_space out))).

Definition remove_args (vg lvName : string) : list string := Args ["--force"; vg +:+ "/" +:+ lvName].
Definition extend_args (vg : string) (vol : Volume) : list string :=
  ArgsUdevless ["--size"; mib (v_SizeKib vol) +:+ "MiB"; vg +:+ "/" +:+ volumeLVName vol].
Definition deltag_args (vg lvName : string) : list string := Args ["--deltag"; RestoreIncompleteTag; vg +:+ "/" +:+ lvName].
Definition source_of (snap : Snapshot) : string := s_ResourceName snap +:+ "_" +:+ pad5 0.
Definition device (vg lvName : string) : string := "/dev/" +:+ vg +:+ "/" +:+ lvName.

End Lvm.

(** *** Without a thin pool *)

Module Thick.
Import Lvm.
Section Thick.
Context (VolumeGroup : string).

Definition Kind : string := "LVM".
Definition ResizeZeroFills : bool := false.

Definition names_args : list string := Args ["--noheadings"; "-o"; "lv_name"; VolumeGroup].
Definition lvNames : sprog (list string) :=
  out ←! must "lvs" names_args; done_with (filter (fun n => n <> "") (Str.trim_space <$> lines out)).

Definition create_args (size name : string) : list string :=
  ArgsUdevless ["--size"; size +:+ "MiB"; "--name"; name; "-Wn"; "-Zn"; VolumeGroup].
Definition wipe_args (name : string) : list string := ["--all"; "--force"; device VolumeGroup name].
Definition rename_args (fresh final : string) : list string := ArgsUdevless [VolumeGroup; fresh; final].

Definition CreateVolume (vol : Volume) : sprog unit :=
  let final := volumeLVName vol in
  let fresh := freshLVName final in
  names ←! lvNames;
  if bool_decide (final ∈ names) then done_with tt
  else
    _ ←! (if bool_decide (fresh ∈ names) then must "lvremove" (remove_args VolumeGroup fresh) else done_with "");
    _ ←! must "lvcreate" (create_args (mib (v_SizeKib vol)) fresh);
    _ ←! must "wipefs" (wipe_args fresh);
    _ ←! must "lvrename" (rename_args fresh final);
    done_with tt.

Definition ResizeVolume (vol : Volume) : sprog unit :=
  _ ←! must "lvextend" (extend_args VolumeGroup vol); done_with tt.

Fixpoint remove_each (names : list string) : sprog unit :=
  match names with
  | [] => done_with tt
  | name :: rest =>
      found ← lvExists VolumeGroup name;
      if negb found then remove_each rest
      else _ ←! must "lvremove" (remove_args VolumeGroup name); remove_each rest
  end.
Definition DeleteVolume (vol : Volume) : sprog unit := remove_each [volumeLVName vol; freshLVName (volumeLVName vol)].

Definition VolumeStatus_ (vol : Volume) : sprog VolumeStatus := volumeStatusViaLVS (VolumeGroup +:+ "/" +:+ volumeLVName vol).
Definition ListVolumeNames : sprog (list VolumeRef) := listLVMVolumes VolumeGroup.

Definition pool_of_line (line : string) : result storage_err PoolStatus :=
  if bool_decide (line = "") then Err ErrPoolGone
  else match Str.cut "|"%char line with
       | None => Err SFailed
       | Some (size, free) =>
           match parseFloatToInt64 size, parseFloatToInt64 free with
           | Some total, Some free => Ok (mkPoolStatus free total false)
           | _, _ => Err SFailed
           end
       end.
Definition pool_args : list string :=
  Args ["--noheadings"; "--separator"; "|"; "-o"; "vg_size,vg_free"; "--units"; "k"; "--nosuffix"; VolumeGroup].
Definition PoolStatus_ : sprog PoolStatus := out ←! must "vgs" pool_args; Ret (pool_of_line (Str.trim_space out)).

Definition snapshot_args (snap : Snapshot) : list string :=
  Args ["--snapshot"; "--extents"; "25%ORIGIN"; "--name"; snapshotLVName snap; VolumeGroup +:+ "/" +:+ source_of snap].
Definition CreateSnapshot (snap : Snapshot) : sprog unit :=
  found ← lvExists VolumeGroup (snapshotLVName snap);
  if found : bool then done_with tt else _ ←! must "lvcreate" (snapshot_args snap); done_with tt.
Definition DeleteSnapshot (snap : Snapshot) : sprog unit :=
  found ← lvExists VolumeGroup (snapshotLVName snap);
  if negb found then done_with tt else _ ←! must "lvremove" (remove_args VolumeGroup (snapshotLVName snap)); done_with tt.

Definition dd_args (srcName tgtName : string) : list string :=
  ["if=" +:+ device VolumeGroup srcName; "of=" +:+ device VolumeGroup tgtName; "bs=1M"; "conv=fsync"].
Definition copyAndClearSentinel (srcName tgtName : string) : sprog unit :=
  _ ←! must "dd" (dd_args srcName tgtName);
  _ ←! must "lvchange" (deltag_args VolumeGroup tgtName);
  done_with tt.

Definition restore_args (size name : string) : list string :=
  ArgsUdevless ["--size"; size +:+ "MiB"; "--name"; name; "--addtag"; RestoreIncompleteTag; "-Wn"; "-Zn"; VolumeGroup].
Definition RestoreVolumeFromSnapshot (target : Volume) (src : Snapshot) : sprog unit :=
  let tgtName := volumeLVName target in
  let srcName := snapshotLVName src in
  there ← lvExists VolumeGroup tgtName;
  if there : bool then
    incomplete ← lvHasRestoreIncompleteTag VolumeGroup tgtName;
    if negb incomplete then done_with tt
    else
      source ← lvExists VolumeGroup srcName;
      if negb source then failed_with ErrNotFound else copyAndClearSentinel srcName tgtName
  else
    source ← lvExists VolumeGroup srcName;
    if negb source then failed_with ErrNotFound
    else
      st ←! volumeStatusViaLVS (VolumeGroup +:+ "/" +:+ srcName);
      _ ←! must "lvcreate" (restore_args (mib (vs_UsableKib st)) tgtName);
      copyAndClearSentinel srcName tgtName.

End Thick.
End Thick.

(** *** In a thin pool *)

Module Thin.
Import Lvm.
Section Thin.
Context (VolumeGroup ThinPool : string).

Definition Kind : string := "LVM_THIN".
Definition ResizeZeroFills : bool := true.

Definition create_args (size name : string) (extra : list string) : list string :=
  Args (["--thin"; "--virtualsize"; size +:+ "MiB"; "--name"; name] ++ extra ++ [VolumeGroup +:+ "/" +:+ ThinPool]).
Definition CreateVolume (vol : Volume) : sprog unit :=
  found ← lvExists VolumeGroup (volumeLVName vol);
  if found : bool then done_with tt
  else _ ←! must "lvcreate" (create_args (mib (v_SizeKib vol)) (volumeLVName vol) []); done_with tt.

Definition ResizeVolume (vol : Volume) : sprog unit :=
  _ ←! must "lvextend" (extend_args VolumeGroup vol); done_with tt.

Definition DeleteVolume (vol : Volume) : sprog unit :=
  found ← lvExists VolumeGroup (volumeLVName vol);
  if negb found then done_with tt else _ ←! must "lvremove" (remove_args VolumeGroup (volumeLVName vol)); done_with tt.

Definition VolumeStatus_ (vol : Volume) : sprog VolumeStatus := volumeStatusViaLVS (VolumeGroup +:+ "/" +:+ volumeLVName vol).
Definition ListVolumeNames : sprog (list VolumeRef) := listLVMVolumes VolumeGroup.

Definition pctMax : float := of_int 100.
Definition pool_of_line (line : string) : result storage_err PoolStatus :=
  if bool_decide (line = "") then Err ErrPoolGone
  else match Str.cut "|"%char line with
       | None => Err SFailed
       | Some (size, used) =>
           match parseFloatToInt64 size, Parse.ParseFloat (Str.trim_space used) with
           | Some total, Some usedPct =>
               let usedKib := to_int (fdiv (fmul (of_int total) usedPct) pctMax) in
               Ok (mkPoolStatus (wrap64 (total - usedKib)) total true)
           | _, _ => Err SFailed
           end
       end.
Definition pool_args : list string :=
  Args ["--noheadings"; "--separator"; "|"; "-o"; "lv_size,data_percent"; "--units"; "k"; "--nosuffix"; VolumeGroup +:+ "/" +:+ ThinPool].
Definition PoolStatus_ : sprog PoolStatus := out ←! must "lvs" pool_args; Ret (pool_of_line (Str.trim_space out)).

Definition snapshot_args (snap : Snapshot) : list string :=
  Args ["--snapshot"; "--name"; snapshotLVName snap; VolumeGroup +:+ "/" +:+ source_of snap].
Definition CreateSnapshot (snap : Snapshot) : sprog unit :=
  found ← lvExists VolumeGroup (snapshotLVName snap);
  if found : bool then done_with tt else _ ←! must "lvcreate" (snapshot_args snap); done_with tt.
Definition DeleteSnapshot (snap : Snapshot) : sprog unit :=
  found ← lvExists VolumeGroup (snapshotLVName snap);
  if negb found then done_with tt else _ ←! must "lvremove" (remove_args VolumeGroup (snapshotLVName snap)); done_with tt.

Definition clone_args (srcName tgtName : string) : list string :=
  Args ["--snapshot"; "--setactivationskip"; "n"; "--activate"; "y"; "--name"; tgtName; VolumeGroup +:+ "/" +:+ srcName].
Definition RestoreVolumeFromSnapshot (target : Volume) (src : Snapshot) : sprog unit :=
  there ← lvExists VolumeGroup (volumeLVName target);
  if there : bool then done_with tt
  else
    source ← lvExists VolumeGroup (snapshotLVName src);
    if negb source then failed_with ErrNotFound
    else _ ←! must "lvcreate" (clone_args (snapshotLVName src) (volumeLVName target)); done_with tt.

Definition send_args (srcName : string) : list string := ["if=" +:+ device VolumeGroup srcName; "bs=1M"; "status=none"].
Definition SendSnapshot (snap : Snapshot) : sprog unit :=
  found ← lvExists VolumeGroup (snapshotLVName snap);
  if negb found then failed_with ErrNotFound
  else r ← osys (Pipe "dd" (send_args (snapshotLVName snap))); match r with Ok _ => done_with tt | Err _ => failed_with SFailed end.

Definition recv_args (tgtName : string) : list string := ["of=" +:+ device VolumeGroup tgtName; "bs=1M"; "status=none"; "conv=fsync"].
Definition ddRecvAndClearSentinel (target : Volume) : sprog unit :=
  r ← osys (ExecStdin "dd" (recv_args (volumeLVName target)));
  match r with
  | (_, Some _) => _ ← DeleteVolume target; failed_with SFailed
  | (_, None) => _ ←! must "lvchange" (deltag_args VolumeGroup (volumeLVName target)); done_with tt
  end.
Definition RecvSnapshot (target : Volume) : sprog unit :=
  let tgtName := volumeLVName target in
  there ← lvExists VolumeGroup tgtName;
  if there : bool then
    incomplete ← lvHasRestoreIncompleteTag VolumeGroup tgtName;
    if negb incomplete then done_with tt else ddRecvAndClearSentinel target
  else
    _ ←! must "lvcreate" (create_args (mib (v_SizeKib target)) tgtName ["--addtag"; RestoreIncompleteTag]);
    ddRecvAndClearSentinel target.

End Thin.
End Thin.

(** ** ZFS *)

Module Zfs.
Section Zfs.
Context (Pool : string) (thin : bool).

Definition Kind : string := if thin then "ZFS_THIN" else "ZFS".
Definition ResizeZeroFills : bool := true.

Definition volumeDataset (vol : Volume) : string := Pool +:+ "/" +:+ v_ResourceName vol +:+ "_" +:+ pad5 (v_VolumeNumber vol).
Definition snapshotDataset (snap : Snapshot) : string := Pool +:+ "/" +:+ s_ResourceName snap +:+ "_00000@" +:+ s_SnapshotName snap.

Definition exists_args (ds : string) : list string := ["list"; "-H"; "-o"; "name"; ds].
Definition datasetExists (ds : string) : prog oanswer bool :=
  r ← osys (Exec "zfs" (exists_args ds));
  Ret match r with (out, None) => negb (bool_decide (Str.trim_space out = "")) | (_, Some _) => false end.

Definition get_args (property ds : string) : list string := ["get"; "-Hp"; "-o"; "value"; property; ds].
Definition datasetVolsize (ds : string) : sprog Z :=
  out ←! must "zfs" (get_args "volsize" ds);
  let line := Str.trim_space out in
  if bool_decide (line = "") then failed_with SFailed
  else match parse_int 64 line with Some n => done_with n | None => failed_with SFailed end.
Definition datasetRefreservation (ds : string) : sprog Z :=
  out ←! must "zfs" (get_args "refreservation" ds);
  let line := Str.trim_space out in
  if bool_decide (line = "") || bool_decide (line = "none") || bool_decide (line = "-") then done_with 0
  else match parse_int 64 line with Some n => done_with n | None => failed_with SFailed end.

Definition reserve_args (n : Z) (ds : string) : list string := ["set"; "refreservation=" +:+ format_int n; ds].
Definition ensureRefreservation (ds : string) : sprog unit :=
  if thin then done_with tt
  else
    volsizeBytes ←! datasetVolsize ds;
    currentRefres ←! datasetRefreservation ds;
    if bool_decide (volsizeBytes <= currentRefres) then done_with tt
    else _ ←! must "zfs" (reserve_args volsizeBytes ds); done_with tt.

Definition create_args (size ds : string) : list string :=
  ["create"] ++ (if thin then ["-s"] else []) ++ ["-V"; size +:+ "M"; ds].
Definition CreateVolume (vol : Volume) : sprog unit :=
  let dataset := volumeDataset vol in
  found ← datasetExists dataset;
  if found : bool then ensureRefreservation dataset
  else _ ←! must "zfs" (create_args (mib (v_SizeKib vol)) dataset); ensureRefreservation dataset.

Definition resize_args (size ds : string) : list string := ["set"; "volsize=" +:+ size +:+ "M"; ds].
Definition ResizeVolume (vol : Volume) : sprog unit :=
  _ ←! must "zfs" (resize_args (mib (v_SizeKib vol)) (volumeDataset vol)); ensureRefreservation (volumeDataset vol).

(** The snapshot a volume was cloned from, or the empty string. *)
Definition origin_args (ds : string) : list string := ["get"; "-H"; "-o"; "value"; "origin"; ds].
Definition volumeOrigin (ds : string) : prog oanswer string :=
  r ← osys (Exec "zfs" (origin_args ds));
  Ret match r with
      | (out, None) => let value := Str.trim_space out in if bool_decide (value = "-") then "" else value
      | (_, Some _) => ""
      end.

Definition clone_line (dataset line : string) : option string :=
  match fields line with
  | [name; originSnap] =>
      if bool_decide (name = dataset) then None
      else if Str.has_prefix (dataset +:+ "@") originSnap then Some name else None
  | _ => None
  end.
Definition clones_args : list string := ["list"; "-H"; "-o"; "name,origin"; "-t"; "filesystem,volume"].
Definition dependentClones (dataset : string) : prog oanswer (list string) :=
  r ← osys (Exec "zfs" clones_args);
  Ret match r with (out, None) => omap (clone_line dataset) (lines (Str.trim_space out)) | (_, Some _) => [] end.
Fixpoint promote_each (clones : list string) : sprog unit :=
  match clones with
  | [] => done_with tt
  | clone :: rest => _ ←! must "zfs" ["promote"; clone]; promote_each rest
  end.
Definition promoteDependentClones (ds : string) : sprog unit := clones ← dependentClones ds; promote_each clones.

Definition deleted_marker : string := "__DELETED__".
Definition DeleteVolume (vol : Volume) : sprog unit :=
  let tgtDS := volumeDataset vol in
  found ← datasetExists tgtDS;
  if negb found then done_with tt
  else
    origin ← volumeOrigin tgtDS;
    _ ←! promoteDependentClones tgtDS;
    _ ←! must "zfs" ["destroy"; "-r"; tgtDS];
    if negb (bool_decide (origin = "")) && contains deleted_marker origin
    then ignoring (osys (Exec "zfs" ["destroy"; origin]))
    else done_with tt.

Definition status_of_line (vol : Volume) (line : string) : result storage_err VolumeStatus :=
  if bool_decide (line = "") then Ok (mkVolumeStatus "" 0 0 stateNotProvisioned)
  else match split_char tab line with
       | [_; volsize; used] =>
           match parse_int 64 volsize, parse_int 64 used with
           | Some volSizeBytes, Some usedBytes =>
               Ok (mkVolumeStatus ("/dev/zvol/" +:+ volumeDataset vol) (usedBytes `quot` bytesPerKib) (volSizeBytes `quot` bytesPerKib) stateProvisioned)
           | _, _ => Err SFailed
           end
       | _ => Err SFailed
       end.
Definition VolumeStatus_ (vol : Volume) : sprog VolumeStatus :=
  r ← osys (Exec "zfs" ["list"; "-H"; "-p"; "-o"; "name,volsize,used"; volumeDataset vol]);
  Ret match r with
      | (out, None) => status_of_line vol (Str.trim_space out)
      | (_, Some _) => Ok (mkVolumeStatus "" 0 0 stateNotProvisioned)
      end.

Definition pool_of_line (line : string) : result storage_err PoolStatus :=
  if bool_decide (line = "") then Err ErrPoolGone
  else match split_char tab line with
       | [size; free] =>
           match parse_int 64 size, parse_int 64 free with
           | Some sizeBytes, Some freeBytes => Ok (mkPoolStatus (freeBytes `quot` bytesPerKib) (sizeBytes `quot` bytesPerKib) true)
           | _, _ => Err SFailed
           end
       | _ => Err SFailed
       end.
Definition PoolStatus_ : sprog PoolStatus :=
  out ←! must "zpool" ["list"; "-H"; "-p"; "-o"; "size,free"; Pool]; Ret (pool_of_line (Str.trim_space out)).

Definition CreateSnapshot (snap : Snapshot) : sprog unit :=
  found ← datasetExists (snapshotDataset snap);
  if found : bool then done_with tt else _ ←! must "zfs" ["snapshot"; snapshotDataset snap]; done_with tt.

Definition hasDependentClonesError (stdout stderr : string) : bool :=
  contains "has dependent clones" stdout || contains "has dependent clones" stderr.
(** A snapshot that a clone still needs is renamed instead. *)
Definition DeleteSnapshot (snap : Snapshot) : sprog unit :=
  let src := snapshotDataset snap in
  found ← datasetExists src;
  if negb found then done_with tt
  else
    r ← osys (Exec "zfs" ["destroy"; src]);
    match r with
    | (_, None) => done_with tt
    | (out, Some err) =>
        if negb (hasDependentClonesError out err) then failed_with SFailed
        else
          now ← osys UnixNow;
          _ ←! must "zfs" ["rename"; src; src +:+ deleted_marker +:+ format_int now];
          done_with tt
    end.

Definition RestoreVolumeFromSnapshot (target : Volume) (src : Snapshot) : sprog unit :=
  let tgtDS := volumeDataset target in
  there ← datasetExists tgtDS;
  if there : bool then ensureRefreservation tgtDS
  else
    source ← datasetExists (snapshotDataset src);
    if negb source then failed_with ErrNotFound
    else _ ←! must "zfs" ["clone"; snapshotDataset src; tgtDS]; ensureRefreservation tgtDS.

Definition SendSnapshotArgs (snap : Snapshot) : list string := ["send"; "-p"; snapshotDataset snap].
Definition SendSnapshot (snap : Snapshot) : sprog unit :=
  found ← datasetExists (snapshotDataset snap);
  if negb found then failed_with ErrNotFound
  else r ← osys (Pipe "zfs" (SendSnapshotArgs snap)); match r with Ok _ => done_with tt | Err _ => failed_with SFailed end.

Definition RecvSnapshot (target : Volume) : sprog unit :=
  let tgtDS := volumeDataset target in
  there ← datasetExists tgtDS;
  if there : bool then ensureRefreservation tgtDS
  else
    r ← osys (ExecStdin "zfs" ["recv"; "-F"; tgtDS]);
    match r with
    | (_, Some _) => _ ← osys (Exec "zfs" ["destroy"; "-r"; tgtDS]); failed_with SFailed
    | (_, None) => ensureRefreservation tgtDS
    end.

Definition parseVolumeName (name : string) : option (string * Z) := parse_numbered name.
Definition listed (line0 : string) : option VolumeRef :=
  let line := Str.trim_space line0 in
  if bool_decide (line = "") then None
  else match Str.cut_prefix (Pool +:+ "/") line with
       | None => None
       | Some base =>
           if contains deleted_marker line then None
           else (fun '(resource, n) => mkVolumeRef "" resource (wrap32 n)) <$> parseVolumeName base
       end.
Definition list_args : list string := ["list"; "-H"; "-r"; "-d"; "1"; "-o"; "name"; "-t"; "volume"; Pool].
Definition ListVolumeNames : sprog (list VolumeRef) :=
  out ←! must "zfs" list_args; done_with (omap listed (lines (Str.trim_space out))).

End Zfs.
End Zfs.

(** ** Files behind loop devices *)

Module File.
Section File.
Context (Dir : string) (thin : bool).

Definition Kind : string := if thin then "FILE_THIN" else "FILE".
Definition ResizeZeroFills : bool := true.

Definition volumePathByResource (rd : string) (vol : Z) : string := path_join Dir (rd +:+ "_" +:+ pad5 vol +:+ ".img").
Definition volumePath (vol : Volume) : string := path_join Dir (v_ResourceName vol +:+ "_" +:+ pad5 (v_VolumeNumber vol) +:+ ".img").
Definition snapshotPath (snap : Snapshot) : string :=
  path_join Dir (s_ResourceName snap +:+ "_" +:+ s_SnapshotName snap +:+ "_00000.img").

(** The loop device on a file, or the empty string. *)
Definition lookupLoop (path : string) : sprog string :=
  out ←! must "losetup" ["-j"; path];
  done_with match Str.cut ":"%char (Str.trim_space out) with Some (dev, _) => dev | None => "" end.

Definition attach (path : string) : sprog string :=
  dev ←! lookupLoop path;
  if negb (bool_decide (dev = "")) then _ ← osys (Exec "losetup" ["--direct-io=on"; dev]); done_with dev
  else
    out ←! must "losetup" ["--find"; "--show"; "--direct-io=on"; path];
    let dev := Str.trim_space out in
    if bool_decide (dev = "") then failed_with SFailed else done_with dev.

Definition ensureFallocated (path : string) (sizeBytes : Z) : sprog unit :=
  if thin then done_with tt else _ ←! must "fallocate" ["-l"; format_int sizeBytes; path]; done_with tt.

Definition createBackingFile (path : string) (sizeBytes : Z) : sprog unit :=
  st ← osys (Stat path);
  match st with
  | Ok _ => ensureFallocated path sizeBytes
  | Err FileFailed => failed_with SFailed
  | Err NotExist =>
      _ ←! (if thin then must "truncate" ["-s"; format_int sizeBytes; path]
            else must "fallocate" ["-l"; format_int sizeBytes; path]);
      done_with tt
  end.

Definition size_bytes (vol : Volume) : Z := wrap64 (v_SizeKib vol * bytesPerKib).
Definition CreateVolume (vol : Volume) : sprog unit :=
  let path := volumePath vol in
  _ ←! createBackingFile path (size_bytes vol);
  _ ←! attach path;
  done_with tt.

Definition ResizeVolume (vol : Volume) : sprog unit :=
  let path := volumePath vol in
  let target := size_bytes vol in
  st ← osys (Stat path);
  match st with
  | Err NotExist => failed_with ErrNotFound
  | Err FileFailed => failed_with SFailed
  | Ok size =>
      if bool_decide (target <= size) then ensureFallocated path target
      else
        _ ←! must "truncate" ["-s"; format_int target; path];
        _ ←! ensureFallocated path target;
        dev ← lookupLoop path;
        match dev with
        | Ok dev => if bool_decide (dev = "") then done_with tt else _ ←! must "losetup" ["-c"; dev]; done_with tt
        | Err _ => done_with tt
        end
  end.

(** [os.Remove] of a file that may be absent. *)
Definition remove_file (path : string) : sprog unit :=
  r ← osys (Remove path); match r with Ok _ | Err NotExist => done_with tt | Err FileFailed => failed_with SFailed end.

Definition DeleteVolume (vol : Volume) : sprog unit :=
  let path := volumePath vol in
  dev ← lookupLoop path;
  _ ← match dev with
      | Ok dev => if bool_decide (dev = "") then done_with tt else ignoring (osys (Exec "losetup" ["-d"; dev]))
      | Err _ => done_with tt
      end;
  remove_file path.

Definition VolumeStatus_ (vol : Volume) : sprog VolumeStatus :=
  let path := volumePath vol in
  st ← osys (Stat path);
  match st with
  | Err NotExist => done_with (mkVolumeStatus "" 0 0 stateNotProvisioned)
  | Err FileFailed => failed_with SFailed
  | Ok size =>
      dev ←! attach path;
      done_with (mkVolumeStatus dev (size `quot` bytesPerKib) (size `quot` bytesPerKib) stateProvisioned)
  end.

(** The answer of [StatFs] holds the bytes available and in total. *)
Definition diskFree (path : string) : sprog (Z * Z) :=
  r ← osys (StatFs path); match r with Ok b => done_with b | Err _ => failed_with SFailed end.
Definition PoolStatus_ : sprog PoolStatus :=
  st ← osys (Stat Dir);
  match st with
  | Err NotExist => failed_with ErrPoolGone
  | Err FileFailed => failed_with SFailed
  | Ok _ =>
      b ←! diskFree Dir;
      done_with (mkPoolStatus (b.1 `quot` bytesPerKib) (b.2 `quot` bytesPerKib) thin)
  end.

Definition CreateSnapshot (snap : Snapshot) : sprog unit :=
  let srcPath := volumePathByResource (s_ResourceName snap) 0 in
  let dstPath := snapshotPath snap in
  src ← osys (Stat srcPath);
  match src with
  | Err NotExist => failed_with ErrNotFound
  | Err FileFailed => failed_with SFailed
  | Ok _ =>
      dst ← osys (Stat dstPath);
      match dst with
      | Ok _ => done_with tt
      | Err _ => _ ←! must "cp" ["--reflink=auto"; srcPath; dstPath]; done_with tt
      end
  end.
Definition DeleteSnapshot (snap : Snapshot) : sprog unit := remove_file (snapshotPath snap).

Definition copy_args (srcPath dstPath : string) : list string :=
  (if thin then ["--reflink=auto"] else []) ++ [srcPath; dstPath].
Definition RestoreVolumeFromSnapshot (target : Volume) (src : Snapshot) : sprog unit :=
  let dstPath := volumePath target in
  let srcPath := snapshotPath src in
  dst ← osys (Stat dstPath);
  match dst with
  | Ok _ => _ ←! attach dstPath; done_with tt
  | Err FileFailed => failed_with SFailed
  | Err NotExist =>
      st ← osys (Stat srcPath);
      match st with
      | Err NotExist => failed_with ErrNotFound
      | Err FileFailed => failed_with SFailed
      | Ok _ =>
          _ ←! must "cp" (copy_args srcPath dstPath);
          _ ←! attach dstPath;
          done_with tt
      end
  end.

Definition SendSnapshot (snap : Snapshot) : sprog unit :=
  r ← osys (OpenFile (snapshotPath snap));
  match r with Ok _ => done_with tt | Err NotExist => failed_with ErrNotFound | Err FileFailed => failed_with SFailed end.

Definition recvSnapshotResumeIfFinal (finalPath : string) : sprog bool :=
  st ← osys (Stat finalPath);
  match st with
  | Ok _ => _ ←! attach finalPath; done_with true
  | Err FileFailed => failed_with SFailed
  | Err NotExist => done_with false
  end.

(** Whatever goes wrong while the stream is received, the partial file is removed. *)
Definition drop_partial (partialPath : string) : sprog unit := _ ← osys (Remove partialPath); failed_with SFailed.
Definition RecvSnapshot (target : Volume) : sprog unit :=
  let finalPath := volumePath target in
  let partialPath := finalPath +:+ ".partial" in
  resumed ←! recvSnapshotResumeIfFinal finalPath;
  if resumed : bool then done_with tt
  else
    _ ←! remove_file partialPath;
    dst ← osys (CreateExclusive partialPath);
    match dst with
    | Err _ => failed_with SFailed
    | Ok _ =>
        fal ← (if thin then done_with "" else must "fallocate" ["-l"; format_int (size_bytes target); partialPath]);
        match fal with
        | Err _ => _ ← osys (Close partialPath); drop_partial partialPath
        | Ok _ =>
            copied ← osys (CopyInto partialPath);
            closed ← osys (Close partialPath);
            match copied, closed with
            | Ok _, Ok _ =>
                renamed ← osys (Rename partialPath finalPath);
                match renamed with
                | Err _ => drop_partial partialPath
                | Ok _ => _ ←! attach finalPath; done_with tt
                end
            | _, _ => drop_partial partialPath
            end
        end
    end.

End File.
End File.

(** ** The sweeper of volumes that no resource owns *)

Module Sweeper.

(** A provider as the sweeper uses it; only some can list their volumes. *)
Record Provider := mkProvider {
  p_ListVolumeNames : option (sprog (list VolumeRef));
  p_DeleteVolume : Volume -> sprog unit
}.
Definition ThickProvider (vg : string) : Provider := mkProvider (Some (Thick.ListVolumeNames vg)) (Thick.DeleteVolume vg).
Definition ThinProvider (vg : string) : Provider := mkProvider (Some (Thin.ListVolumeNames vg)) (Thin.DeleteVolume vg).
Definition ZfsProvider (pool : string) : Provider := mkProvider (Some (Zfs.ListVolumeNames pool)) (Zfs.DeleteVolume pool).
Definition FileProvider (dir : string) : Provider := mkProvider None (File.DeleteVolume dir).

Definition StorageSweeperMaxDeletePerCycle : Z := 3.
Definition StorageSweeperSkipAnnotation : string := "blockstor.io/skip-orphan-storage-sweeper".
Definition sweeperSkipValue : string := "true".
Definition storageResourcePrefixes : list string := ["pvc-"; "bs-"].

Definition hasStoragePrefix (resource : string) : bool := existsb (fun p => Str.has_prefix p resource) storageResourcePrefixes.

Definition ownedKey (resource : string) (volNumber : Z) : string :=
  if bool_decide (volNumber < 0) then resource +:+ "/*" else resource +:+ "/" +:+ format_int volNumber.

(** A definition that cannot be read has no volumes. *)
Definition lookupRDVolumes (rdName : string) : prog oanswer (list Z) :=
  r ← osys (DefinitionVolumes rdName); Ret match r with Ok vols => vols | Err _ => [] end.

Section Sweep.
Context (NodeName : string) (MaxDeletePerCycle : Z).

Definition shouldSkip : prog oanswer (result unit bool) :=
  r ← osys (NodeAnnotation NodeName StorageSweeperSkipAnnotation);
  Ret match r with Err e => Err e | Ok None => Ok false | Ok (Some v) => Ok (bool_decide (v = sweeperSkipValue)) end.

Definition claim (rd : string) (vols : list Z) (owned : gset string) : gset string :=
  let owned := foldl (fun o vn => {[ownedKey rd vn]} ∪ o) owned vols in
  match vols with [] => {[ownedKey rd (-1)]} ∪ owned | _ => owned end.
(** The definitions that were read before are not read again. *)
Fixpoint owned_by (resources : list (string * string)) (rdToVolumes : gmap string (list Z)) (out : gset string)
  : prog oanswer (gset string) :=
  match resources with
  | [] => Ret out
  | (node, rd) :: rest =>
      if negb (bool_decide (node = NodeName)) then owned_by rest rdToVolumes out
      else match rdToVolumes !! rd with
           | Some vols => owned_by rest rdToVolumes (claim rd vols out)
           | None => vols ← lookupRDVolumes rd; owned_by rest (<[rd := vols]> rdToVolumes) (claim rd vols out)
           end
  end.
Definition listOwnedVolumeRefs : prog oanswer (result unit (gset string)) :=
  r ← osys ListResources;
  match r with Err e => Ret (Err e) | Ok resources => owned ← owned_by resources ∅ ∅; Ret (Ok owned) end.

(** The flag to stop, and the number of volumes removed so far. *)
Definition reapIfOrphan (poolName : string) (provider : Provider) (owned : gset string) (limit deleted : Z) (ref : VolumeRef)
  : prog oanswer (bool * Z) :=
  if bool_decide (ownedKey (ref_ResourceName ref) (ref_VolumeNumber ref) ∈ owned) then Ret (false, deleted)
  else if bool_decide (ownedKey (ref_ResourceName ref) (-1) ∈ owned) then Ret (false, deleted)
  else if negb (hasStoragePrefix (ref_ResourceName ref)) then Ret (false, deleted)
  else if bool_decide (0 <= limit) && bool_decide (limit <= deleted) then Ret (true, deleted)
  else
    r ← p_DeleteVolume provider (mkVolume poolName (ref_ResourceName ref) (ref_VolumeNumber ref) 0);
    Ret match r with Err _ => (false, deleted) | Ok _ => (false, deleted + 1) end.

Fixpoint reap_each (poolName : string) (provider : Provider) (owned : gset string) (limit deleted : Z) (refs : list VolumeRef)
  : prog oanswer (bool * Z) :=
  match refs with
  | [] => Ret (false, deleted)
  | ref :: rest =>
      r ← reapIfOrphan poolName provider owned limit deleted (mkVolumeRef poolName (ref_ResourceName ref) (ref_VolumeNumber ref));
      if r.1 : bool then Ret r else reap_each poolName provider owned limit r.2 rest
  end.
Definition sweepPool (poolName : string) (provider : Provider) (owned : gset string) (limit deleted : Z) : prog oanswer (bool * Z) :=
  match p_ListVolumeNames provider with
  | None => Ret (false, deleted)
  | Some lister =>
      r ← lister;
      match r with Err _ => Ret (false, deleted) | Ok refs => reap_each poolName provider owned limit deleted refs end
  end.

Fixpoint sweep_pools (providers : list (string * Provider)) (owned : gset string) (limit deleted : Z) : prog oanswer Z :=
  match providers with
  | [] => Ret deleted
  | (poolName, provider) :: rest =>
      r ← sweepPool poolName provider owned limit deleted;
      if r.1 : bool then Ret r.2 else sweep_pools rest owned limit r.2
  end.

Definition limit : Z := if bool_decide (MaxDeletePerCycle = 0) then StorageSweeperMaxDeletePerCycle else MaxDeletePerCycle.
(** The providers in the order in which the map of them is walked; the number of volumes removed is
    returned for the theorems. *)
Definition sweepOnce (providers : list (string * Provider)) : prog oanswer (result unit Z) :=
  skip ← shouldSkip;
  match skip with
  | Ok true => Ret (Ok 0)
  | _ =>
      owned ← listOwnedVolumeRefs;
      match owned with
      | Err e => Ret (Err e)
      | Ok owned => n ← sweep_pools providers owned limit 0; Ret (Ok n)
      end
  end.

End Sweep.
End Sweeper.
