(* ===== verification/LvmProps.v ===== *)
(** * The LVM of a node

    What the commands of the LVM providers do to the logical volumes of a volume group: every command
    may fail, before or after it acted; a failed copy leaves anything behind; a volume is created
    only under a free name. The providers of [Storage] run against it, interrupted at any point. *)

From S2P Require Import Prelude Prog GoStrings Storage.
Import Lvm.

(** A logical volume: its contents, its tags, and whether old signatures were wiped from it. *)
Record lv := mkLv { lv_data : list Z; lv_tags : list string; lv_wiped : bool }.
Notation lvm := (gmap string lv).

(** ** Command lines *)

Inductive command :=
| Names | Probe (n : string) | Tags (n : string)
| Create (n : string) (tags : list string)
| SnapshotOf (n source : string)
| RemoveLv (n : string)
| RenameLv (n n' : string)
| Deltag (n tag : string)
| Wipe (n : string)
| Copy (source target : string)
| Receive (target : string)
| Other.

Create Rewrite HintDb lvm.

Definition same (s t : string) : bool := bool_decide (s = t).

Section Host.
Context (VolumeGroup : string).

(** [<group>/<name>], [/dev/<group>/<name>] *)
Definition in_group (p : string) : option string := Str.cut_prefix VolumeGroup p ≫= Str.cut_prefix "/".
Definition of_device (p : string) : option string := Str.cut_prefix "/dev/" p ≫= in_group.
Definition at_lv (o : option string) (f : string -> command) : command := match o with Some n => f n | None => Other end.

(** The command lines of the providers, after the [--config] of LVM's own commands. *)
Definition lvs_line (args : list string) : command :=
  match args with
  | [_; _; column; p] =>
      if same column "lv_name" then if same p VolumeGroup then Names else at_lv (in_group p) Probe
      else if same column "lv_tags" then at_lv (in_group p) Tags else Other
  | _ => Other
  end.
Definition lvcreate_line (args : list string) : command :=
  match args with
  | [snapshot; _; n; p] => if same snapshot "--snapshot" then at_lv (in_group p) (SnapshotOf n) else Other
  | [kind; _; _; name; n; p] =>
      if same kind "--thin" then Create n []
      else if same kind "--snapshot" then at_lv (in_group p) (SnapshotOf n) else Other
  | [size; _; _; n; _; _; _] => if same size "--size" then Create n [] else Other
  | [kind; _; _; _; x; y; z; p] =>
      if same kind "--thin" then Create x [z]
      else if same kind "--snapshot" then at_lv (in_group p) (SnapshotOf z) else Other
  | [size; _; _; n; _; tag; _; _; _] => if same size "--size" then Create n [tag] else Other
  | _ => Other
  end.
Definition lvm_line (cmd : string) (args : list string) : command :=
  if same cmd "lvs" then lvs_line args
  else if same cmd "lvcreate" then lvcreate_line args
  else if same cmd "lvremove" then match args with [_; p] => at_lv (in_group p) RemoveLv | _ => Other end
  else if same cmd "lvrename" then match args with [_; n; n'] => RenameLv n n' | _ => Other end
  else if same cmd "lvchange" then match args with [_; tag; p] => at_lv (in_group p) (fun n => Deltag n tag) | _ => Other end
  else Other.
Definition command_line (cmd : string) (args : list string) : command :=
  if same cmd "wipefs" then match args with [_; _; p] => at_lv (of_device p) Wipe | _ => Other end
  else if same cmd "dd" then
    match args with
    | [source; target; _; _] =>
        match Str.cut_prefix "if=" source ≫= of_device, Str.cut_prefix "of=" target ≫= of_device with
        | Some s, Some t => Copy s t
        | _, _ => Other
        end
    | _ => Other
    end
  else match args with _ :: _ :: args => lvm_line cmd args | _ => Other end.
Definition stdin_line (cmd : string) (args : list string) : command :=
  if same cmd "dd" then match args with target :: _ => at_lv (Str.cut_prefix "of=" target ≫= of_device) Receive | [] => Other end else Other.

Lemma in_group_of n : in_group (VolumeGroup +:+ "/" +:+ n) = Some n.
Proof. unfold in_group. rewrite StrFacts.cut_prefix_app. cbn. reflexivity. Qed.
Lemma of_device_of n : of_device (device VolumeGroup n) = Some n.
Proof. unfold of_device, device. cbn -[in_group]. apply in_group_of. Qed.
Lemma not_the_group n : same (VolumeGroup +:+ "/" +:+ n) VolumeGroup = false.
Proof.
  apply bool_decide_eq_false. intros H. apply (f_equal String.length) in H. rewrite !StrFacts.length_app_str in H. change (String.length "/") with 1%nat in H. lia.
Qed.

Lemma line_names : command_line "lvs" (Thick.names_args VolumeGroup) = Names.
Proof. change (command_line "lvs" (Thick.names_args VolumeGroup)) with (if same VolumeGroup VolumeGroup then Names else at_lv (in_group VolumeGroup) Probe).
  unfold same. by rewrite bool_decide_eq_true_2. Qed.
Lemma line_exists n : command_line "lvs" (exists_args VolumeGroup n) = Probe n.
Proof.
  change (command_line "lvs" (exists_args VolumeGroup n))
    with (if same (VolumeGroup +:+ "/" +:+ n) VolumeGroup then Names else at_lv (in_group (VolumeGroup +:+ "/" +:+ n)) Probe).
  by rewrite not_the_group, in_group_of.
Qed.
Lemma line_tags n : command_line "lvs" (tags_args VolumeGroup n) = Tags n.
Proof. change (at_lv (in_group (VolumeGroup +:+ "/" +:+ n)) Tags = Tags n). by rewrite in_group_of. Qed.
Lemma line_status n : command_line "lvs" (status_args n) = Other.
Proof. reflexivity. Qed.
Lemma line_create size n : command_line "lvcreate" (Thick.create_args VolumeGroup size n) = Create n [].
Proof. reflexivity. Qed.
Lemma line_restore size n : command_line "lvcreate" (Thick.restore_args VolumeGroup size n) = Create n [RestoreIncompleteTag].
Proof. reflexivity. Qed.
Lemma line_receive pool size n :
  command_line "lvcreate" (Thin.create_args VolumeGroup pool size n ["--addtag"; RestoreIncompleteTag]) = Create n [RestoreIncompleteTag].
Proof. reflexivity. Qed.
Lemma line_remove n : command_line "lvremove" (remove_args VolumeGroup n) = RemoveLv n.
Proof. change (at_lv (in_group (VolumeGroup +:+ "/" +:+ n)) RemoveLv = RemoveLv n). by rewrite in_group_of. Qed.
Lemma line_rename n n' : command_line "lvrename" (Thick.rename_args VolumeGroup n n') = RenameLv n n'.
Proof. reflexivity. Qed.
Lemma line_deltag n : command_line "lvchange" (deltag_args VolumeGroup n) = Deltag n RestoreIncompleteTag.
Proof.
  change (at_lv (in_group (VolumeGroup +:+ "/" +:+ n)) (fun n => Deltag n RestoreIncompleteTag) = Deltag n RestoreIncompleteTag).
  by rewrite in_group_of.
Qed.
Lemma line_wipe n : command_line "wipefs" (Thick.wipe_args VolumeGroup n) = Wipe n.
Proof. change (at_lv (of_device (device VolumeGroup n)) Wipe = Wipe n). by rewrite of_device_of. Qed.
Lemma line_copy s t : command_line "dd" (Thick.dd_args VolumeGroup s t) = Copy s t.
Proof.
  change (match of_device (device VolumeGroup s), of_device (device VolumeGroup t) with Some s, Some t => Copy s t | _, _ => Other end = Copy s t).
  by rewrite !of_device_of.
Qed.
Lemma line_recv t : stdin_line "dd" (Thin.recv_args VolumeGroup t) = Receive t.
Proof. change (at_lv (of_device (device VolumeGroup t)) Receive = Receive t). by rewrite of_device_of. Qed.
Lemma line_snapshot_thick snap : command_line "lvcreate" (Thick.snapshot_args VolumeGroup snap) = SnapshotOf (snapshotLVName snap) (source_of snap).
Proof.
  change (at_lv (in_group (VolumeGroup +:+ "/" +:+ source_of snap)) (SnapshotOf (snapshotLVName snap)) = SnapshotOf (snapshotLVName snap) (source_of snap)).
  by rewrite in_group_of.
Qed.
End Host.
#[export] Hint Rewrite line_names line_exists line_tags line_status line_create line_restore line_receive line_remove line_rename
  line_deltag line_wipe line_copy line_recv line_snapshot_thick : lvm.

(** ** What the commands do *)

Definition with_data (l : lv) (d : list Z) : lv := mkLv d (lv_tags l) (lv_wiped l).
Definition without_tag (l : lv) (t : string) : lv := mkLv (lv_data l) (filter (fun t' => t' <> t) (lv_tags l)) (lv_wiped l).
Definition wiped (l : lv) : lv := mkLv (lv_data l) (lv_tags l) true.

Section Steps.
Context (VolumeGroup : string).
(** The contents of the stream that is received; whether the query of the tags of a volume that is
    there may fail. *)
Context (stream : list Z) (tag_probe_fails : bool).

Definition acted (c : command) (ok : bool) (h h' : lvm) : Prop :=
  match c with
  | Create n tags => h !! n = None /\ exists d, h' = <[n := mkLv d tags false]> h
  | SnapshotOf n source => h !! n = None /\ exists l, h !! source = Some l /\ h' = <[n := mkLv (lv_data l) [] true]> h
  | RemoveLv n => is_Some (h !! n) /\ h' = delete n h
  | RenameLv n n' => h !! n' = None /\ exists l, h !! n = Some l /\ h' = <[n' := l]> (delete n h)
  | Deltag n tag => exists l, h !! n = Some l /\ h' = <[n := without_tag l tag]> h
  | Wipe n => exists l, h !! n = Some l /\ h' = <[n := wiped l]> h
  | Copy source target =>
      exists d l, (ok = true -> lv_data <$> h !! source = Some d) /\ h !! target = Some l /\ h' = <[target := with_data l d]> h
  | Receive target =>
      exists d l, (ok = true -> d = stream) /\ h !! target = Some l /\ h' = <[target := with_data l d]> h
  | Names | Probe _ | Tags _ => False
  | Other => h' = h
  end.

(** What a query prints. *)
Definition told (c : command) (out : string) (ok : bool) (h : lvm) : Prop :=
  match c with
  | Names => ok = true -> forall n, n ∈ filter (fun n => n <> "") (Str.trim_space <$> lines out) <-> is_Some (h !! n)
  | Probe n => ok = true -> is_Some (h !! n) /\ Str.trim_space out <> ""
  | Tags n =>
      if ok then exists l, h !! n = Some l /\ has_tag out RestoreIncompleteTag = bool_decide (RestoreIncompleteTag ∈ lv_tags l)
      else h !! n = None \/ tag_probe_fails = true
  | _ => ok = false
  end.

Definition ran (c : command) (out : string) (ok : bool) (h h' : lvm) : Prop := h' = h /\ told c out ok h \/ acted c ok h h'.

Definition succeeded (a : string * option string) : bool := match a.2 with None => true | Some _ => false end.
Definition lvm_step (h : lvm) (c : ocall) : oanswer c -> lvm -> Prop :=
  match c with
  | Exec cmd args => fun a h' => ran (command_line VolumeGroup cmd args) a.1 (succeeded a) h h'
  | ExecStdin cmd args => fun a h' => ran (stdin_line VolumeGroup cmd args) a.1 (succeeded a) h h'
  | _ => fun _ h' => h' = h
  end.

(** ** Rules for the commands *)

Context (I : lvm -> Prop) {focused : Type} (focus : lvm -> focused) (J : focused -> Prop).
Notation triple := (triple lvm_step I focus J).

Definition does (c : command) (P : focused -> Prop) (R : bool -> focused -> Prop) : Prop :=
  forall h out ok h', I h -> P (focus h) -> ran c out ok h h' -> I h' /\ R ok (focus h').
Definition safe_both (R : bool -> focused -> Prop) : Prop := forall ok s, R ok s -> J s.
Definition by_result {A} (R : bool -> focused -> Prop) (r : result storage_err A) (s : focused) : Prop :=
  match r with Ok _ => R true s | Err _ => R false s end.

Lemma triple_exec cmd args P R : does (command_line VolumeGroup cmd args) P R -> safe_both R ->
  triple P (osys (Exec cmd args)) (fun a s => R (succeeded a) s).
Proof. intros Hd HJ. exists (fun a s => R (succeeded a) s). split_and!; [|by eauto|by intros a s]. intros h [out err] h' HI HP Hr. eapply Hd; eauto. Qed.

Lemma triple_must cmd args P R : does (command_line VolumeGroup cmd args) P R -> safe_both R ->
  triple P (must cmd args) (by_result R).
Proof. intros Hd HJ. eapply run_bind; [by apply triple_exec|]. intros [out [e|]]; intros s Hs; exact Hs. Qed.

Lemma triple_exists n P R :
  (forall h b, I h -> P (focus h) -> (b = true -> is_Some (h !! n)) -> R b (focus h)) -> safe_both R ->
  triple P (lvExists VolumeGroup n) R.
Proof.
  intros HR HJ. exists (fun a s => R (match a with (out, None) => negb (bool_decide (Str.trim_space out = "")) | (_, Some _) => false end) s).
  split_and!; [|by eauto|intros [out [e|]] s Hs; exact Hs]. intros h [out err] h' HI HP Hr. unfold lvm_step in Hr. autorewrite with lvm in Hr.
  destruct Hr as [[-> Ht]|[]]. split; [done|]. apply HR; [done..|]. destruct err; [done|]. intros _. by apply Ht.
Qed.

Definition tagged (o : option lv) : Prop := exists l, o = Some l /\ RestoreIncompleteTag ∈ lv_tags l.
Definition untagged (o : option lv) : Prop := exists l, o = Some l /\ RestoreIncompleteTag ∉ lv_tags l.

Lemma triple_tag n P R :
  (forall h b, I h -> P (focus h) -> (b = true -> tagged (h !! n)) ->
     (b = false -> h !! n = None \/ tag_probe_fails = true \/ untagged (h !! n)) -> R b (focus h)) ->
  safe_both R ->
  triple P (lvHasRestoreIncompleteTag VolumeGroup n) R.
Proof.
  intros HR HJ. exists (fun a s => R (match a with (out, None) => has_tag out RestoreIncompleteTag | (_, Some _) => false end) s).
  split_and!; [|by eauto|intros [out [e|]] s Hs; exact Hs]. intros h [out err] h' HI HP Hr. unfold lvm_step in Hr. autorewrite with lvm in Hr.
  destruct Hr as [[-> Ht]|[]]. split; [done|]. apply HR; [done..| |]; destruct err; cbn -[has_tag] in Ht; try done; [|naive_solver|].
  - destruct Ht as (l & Hl & ->). intros ?%bool_decide_eq_true. by exists l.
  - destruct Ht as (l & Hl & ->). intros ?%bool_decide_eq_false. right; right. by exists l.
Qed.

End Steps.

(** * Restoring and receiving on LVM survives interruptions

    Copying a snapshot into a fresh volume takes several commands. However often it is interrupted
    or fails, the attempt that reports success leaves the whole copy; and a volume under a name of
    a resource has had the signatures of its former owner wiped. *)

From S2P Require Import Prelude Prog GoStrings Storage.
Import Lvm.

(** ** One volume at a time *)

Section Copies.
Context (VolumeGroup tgt : string) (stream S : list Z) (I : lvm -> Prop).
Definition at_target (h : lvm) : option lv := h !! tgt.
(** What is there is marked incomplete, or whole. *)
Definition trustworthy (o : option lv) : Prop := forall l, o = Some l -> RestoreIncompleteTag ∈ lv_tags l \/ lv_data l = S.
Definition holds_copy (o : option lv) : Prop := exists l, o = Some l /\ lv_data l = S.
Definition finished_copy (o : option lv) : Prop := exists l, o = Some l /\ lv_data l = S /\ RestoreIncompleteTag ∉ lv_tags l.

Lemma tagged_trustworthy o : tagged o -> trustworthy o.
Proof. intros (l & -> & Hl) ? [= <-]. by left. Qed.
Lemma copy_trustworthy o : holds_copy o -> trustworthy o.
Proof. intros (l & -> & Hl) ? [= <-]. by right. Qed.
Lemma finished_trustworthy o : finished_copy o -> trustworthy o.
Proof. intros (l & -> & Hl & _) ? [= <-]. by right. Qed.
#[local] Hint Resolve tagged_trustworthy copy_trustworthy finished_trustworthy : core.

(** What holds of the other volumes is not affected by changes of this one. *)
Context (I_off : forall h o, I h -> I (partial_alter (fun _ => o) tgt h)).

Lemma I_insert h l : I h -> I (<[tgt := l]> h).
Proof using I_off. apply I_off. Qed.
Lemma I_delete h : I h -> I (delete tgt h).
Proof using I_off. apply I_off. Qed.
#[local] Hint Resolve I_insert I_delete : core.

Lemma creates_tagged b : does stream b I at_target (Create tgt [RestoreIncompleteTag]) trustworthy
  (fun ok s => if ok then tagged s else trustworthy s).
Proof using I_off.
  intros h out ok h' HI HP [[-> ->]|[Hn (d & ->)]]; [done|]. split; [by auto|]. unfold at_target. rewrite lookup_insert_eq.
  assert (tagged (Some (mkLv d [RestoreIncompleteTag] false))) as Ht by (eexists; split; [done|apply list_elem_of_here]).
  destruct ok; auto.
Qed.

Lemma clears_tag b : does stream b I at_target (Deltag tgt RestoreIncompleteTag) holds_copy
  (fun ok s => if ok then finished_copy s else holds_copy s).
Proof using I_off.
  intros h out ok h' HI HP [[-> ->]|(l & Hl & ->)]; [done|]. split; [by auto|].
  destruct HP as (l' & Hl' & HS). unfold at_target in *. simplify_eq. rewrite lookup_insert_eq.
  destruct ok; eexists; split_and!; try done. cbn. intros [? _]%list_elem_of_filter. done.
Qed.

(** After a copy: it is still marked, and whole if the copy succeeded. *)
Definition after_copy (ok : bool) (o : option lv) : Prop := tagged o /\ (ok = true -> holds_copy o).
Lemma after_copy_trustworthy ok o : after_copy ok o -> trustworthy o.
Proof. intros [Ht _]. auto. Qed.

Lemma written_copy ok h d : I h -> tagged (at_target h) -> (ok = true -> d = S) ->
  forall l, h !! tgt = Some l -> I (<[tgt := with_data l d]> h) /\ after_copy ok (at_target (<[tgt := with_data l d]> h)).
Proof using I_off.
  intros HI (l' & Hl' & Ht) Hd l Hl. unfold at_target in *. rewrite Hl in Hl'. injection Hl' as <-. split; [by auto|]. rewrite lookup_insert_eq.
  split; [by exists (with_data l d)|]. intros Hok. exists (with_data l d). split; [done|]. by apply Hd.
Qed.

(** The probes of the target. *)
Notation T := (triple (lvm_step VolumeGroup stream false) I at_target trustworthy).

Lemma probes_target : T trustworthy (lvExists VolumeGroup tgt) (fun b s => trustworthy s /\ (b = true -> is_Some s)).
Proof. apply triple_exists; [by auto|]. intros ? ? []; eauto. Qed.

Lemma reads_tag : T (fun s => trustworthy s /\ (true = true -> is_Some s)) (lvHasRestoreIncompleteTag VolumeGroup tgt)
  (fun b s => if b then tagged s else finished_copy s).
Proof.
  apply triple_tag; [|by intros [] ?; eauto]. intros h b HI [HP Hs] Hb1 Hb2. destruct b; [by apply Hb1|].
  destruct (Hs eq_refl) as [l Hl]. destruct Hb2 as [Hn|[?|(l' & Hl' & Hn)]]; [done| |done|]; unfold at_target in *; [congruence|].
  exists l'. split_and!; [done| |done]. by destruct (HP l' Hl').
Qed.

End Copies.

(** ** Restoring a snapshot without a thin pool *)

Section ThickRestore.
Context (VolumeGroup : string) (target : Volume) (src : Snapshot) (S : list Z).
Notation tgt := (volumeLVName target).
Notation source := (snapshotLVName src).
Context (Hnames : source <> tgt).

(** The snapshot, while it exists, holds [S]; only this operation changes the target. *)
Definition source_holds (h : lvm) : Prop := forall l, h !! source = Some l -> lv_data l = S.
Definition elsewhere (h h' : lvm) : Prop := h' !! tgt = h !! tgt /\ (h' !! source = h !! source \/ h' !! source = None).

Lemma elsewhere_keeps h h' : source_holds h -> elsewhere h h' -> source_holds h' /\ at_target tgt h' = at_target tgt h.
Proof. intros HI [Ht [Hs|Hs]]; (split; [|done]); intros l Hl; rewrite Hs in Hl; [by apply HI|done]. Qed.
Lemma source_off h o : source_holds h -> source_holds (partial_alter (fun _ => o) tgt h).
Proof using Hnames. intros HI l Hl. rewrite lookup_partial_alter_ne in Hl by done. by apply HI. Qed.

Notation T := (triple (lvm_step VolumeGroup [] false) source_holds (at_target tgt) (trustworthy S)).
#[local] Hint Resolve source_off tagged_trustworthy copy_trustworthy finished_trustworthy after_copy_trustworthy : core.

Lemma copies : does [] false source_holds (at_target tgt) (Copy source tgt) tagged (after_copy S).
Proof using Hnames.
  intros h out ok h' HI HP [[-> ->]|(d & l & Hd & Hl & ->)]; [by split|].
  eapply written_copy; [auto..|done]. intros Hok. specialize (Hd Hok). apply fmap_Some in Hd as (ls & Hls & ->). by apply HI.
Qed.

Definition restored (r : result storage_err unit) (o : option lv) : Prop :=
  match r with Ok _ => finished_copy S o | Err _ => trustworthy S o end.

Lemma copyAndClearSentinel_ok : T tagged (Thick.copyAndClearSentinel VolumeGroup source tgt) restored.
Proof using Hnames.
  unfold Thick.copyAndClearSentinel. eapply run_kbind.
  - eapply (triple_must _ _ _ _ _ _ _ _ tagged (after_copy S)); [autorewrite with lvm; apply copies|]. intros ? ?; eauto.
  - intros ?. eapply run_kbind.
    + eapply (triple_must _ _ _ _ _ _ _ _ _ (fun ok s => if ok then finished_copy S s else holds_copy S s)).
      * autorewrite with lvm. intros h out ok h' HI HP. eapply clears_tag; [by auto..|]. by apply HP.
      * intros [] ?; eauto.
    + intros ? s Hs. exact Hs.
    + intros e s Hs. cbn in *. auto.
  - intros e s Hs. cbn in *. eauto.
Qed.

Lemma source_probe P : (forall s, P s -> trustworthy S s) -> T P (lvExists VolumeGroup source) (fun _ => P).
Proof. intros HJ. apply triple_exists; [by auto|]. intros ? ?; eauto. Qed.

Lemma sizes_source n : T (trustworthy S) (volumeStatusViaLVS n) (fun _ => trustworthy S).
Proof.
  unfold volumeStatusViaLVS. eapply run_kbind with (R := by_result (fun _ s => trustworthy S s)).
  - apply triple_must; [|by intros ? ?]. autorewrite with lvm. intros h out ok h' HI HP [[-> _]| ->]; done.
  - intros out s Hs. exact Hs.
  - intros e s Hs. exact Hs.
Qed.

Lemma restores_fresh : T (trustworthy S)
  (st ←! volumeStatusViaLVS (VolumeGroup +:+ "/" +:+ source);
   _ ←! must "lvcreate" (Thick.restore_args VolumeGroup (mib (vs_UsableKib st)) tgt);
   Thick.copyAndClearSentinel VolumeGroup source tgt) restored.
Proof using Hnames.
  eapply run_kbind; [apply sizes_source| |by intros e s Hs]. intros st. eapply run_kbind.
  - apply (triple_must _ _ _ _ _ _ _ _ _ (fun ok s => if ok then tagged s else trustworthy S s)).
    + autorewrite with lvm. eapply creates_tagged. auto.
    + intros [] ?; eauto.
  - intros ?. apply copyAndClearSentinel_ok.
  - intros e s Hs. exact Hs.
Qed.

Lemma RestoreVolumeFromSnapshot_ok : T (trustworthy S) (Thick.RestoreVolumeFromSnapshot VolumeGroup target src) restored.
Proof using Hnames.
  unfold Thick.RestoreVolumeFromSnapshot. eapply run_bind; [by apply probes_target|]. intros [].
  - eapply run_bind; [by apply reads_tag|]. intros []; cbn [negb]; [|by intros s Hs].
    eapply run_bind; [by apply source_probe, tagged_trustworthy|].
    intros []; cbn [negb]; [apply copyAndClearSentinel_ok|]. intros s Hs. cbn. auto.
  - eapply run_bind; [eapply triple_pre, source_probe; [by intros s [Hs _]|done]|].
    intros []; cbn [negb]; [apply restores_fresh|by intros s Hs].
Qed.

End ThickRestore.

(** ** Receiving a snapshot into a thin pool *)

Section ThinReceive.
Context (VolumeGroup ThinPool : string) (target : Volume) (S : list Z).
Notation tgt := (volumeLVName target).

Definition off_target (h h' : lvm) : Prop := h' !! tgt = h !! tgt.
Definition anything (h : lvm) : Prop := True.

Notation T := (triple (lvm_step VolumeGroup S false) anything (at_target tgt) (trustworthy S)).
Notation received := (restored S).
#[local] Hint Resolve tagged_trustworthy copy_trustworthy finished_trustworthy after_copy_trustworthy : core.

Lemma removes b : does S b anything (at_target tgt) (RemoveLv tgt) (trustworthy S) (fun _ s => trustworthy S s).
Proof.
  intros h out ok h' HI HP [[-> _]|[_ ->]]; [done|]. split; [done|]. unfold at_target. rewrite lookup_delete_eq. by intros l ?.
Qed.

Lemma DeleteVolume_ok : T (trustworthy S) (Thin.DeleteVolume VolumeGroup target) (fun _ s => trustworthy S s).
Proof.
  unfold Thin.DeleteVolume. eapply run_bind with (R := fun _ s => trustworthy S s); [apply triple_exists; [by auto|by intros ? ?]|].
  intros []; cbn [negb]; [|by intros s Hs]. eapply run_kbind with (R := by_result (fun _ s => trustworthy S s)).
  - apply triple_must; [|by intros ? ?]. autorewrite with lvm. apply removes.
  - intros ? s Hs. exact Hs.
  - intros e s Hs. exact Hs.
Qed.

Lemma receives : does S false anything (at_target tgt) (Receive tgt) tagged (after_copy S).
Proof.
  intros h out ok h' HI HP [[-> ->]|(d & l & Hd & Hl & ->)]; [by split|]. eapply written_copy; by eauto.
Qed.

Lemma ddRecvAndClearSentinel_ok : T tagged (Thin.ddRecvAndClearSentinel VolumeGroup target) received.
Proof.
  unfold Thin.ddRecvAndClearSentinel. eapply run_bind with (R := fun a s => after_copy S (succeeded a) s).
  { exists (fun a s => after_copy S (succeeded a) s). split_and!; [|by eauto|by intros a s].
    intros h [out err] h' HI HP Hr. unfold lvm_step in Hr. autorewrite with lvm in Hr. by eapply receives. }
  intros [out [e|]]; cbn [succeeded snd].
  - eapply run_bind; [eapply triple_pre; [|apply DeleteVolume_ok]; by eauto|]. by intros a s Hs.
  - eapply run_kbind.
    + eapply (triple_must _ _ _ _ _ _ _ _ _ (fun ok s => if ok then finished_copy S s else holds_copy S s)).
      * autorewrite with lvm. intros h out' ok h' HI HP. eapply clears_tag; [by auto..|]. by apply HP.
      * intros [] ?; eauto.
    + intros ? s Hs. exact Hs.
    + intros e s Hs. cbn in *. auto.
Qed.

Lemma RecvSnapshot_ok : T (trustworthy S) (Thin.RecvSnapshot VolumeGroup ThinPool target) received.
Proof.
  unfold Thin.RecvSnapshot. eapply run_bind; [by apply probes_target|]. intros [].
  - eapply run_bind; [by apply reads_tag|]. intros []; cbn [negb].
    + apply ddRecvAndClearSentinel_ok.
    + intros s Hs. exact Hs.
  - eapply triple_pre with (P' := trustworthy S); [by intros s []|]. eapply run_kbind.
    + apply (triple_must _ _ _ _ _ _ _ _ _ (fun ok s => if ok then tagged s else trustworthy S s)).
      * autorewrite with lvm. by eapply creates_tagged.
      * intros [] ?; eauto.
    + intros ?. apply ddRecvAndClearSentinel_ok.
    + intros e s Hs. exact Hs.
Qed.

End ThinReceive.

(** ** The theorems *)

Section Finish.
Context (VolumeGroup : string) (target : Volume) (src : Snapshot) (S : list Z).
Notation tgt := (volumeLVName target).
Notation source := (snapshotLVName src).
Notation Attempt := (attempt (lvm_step VolumeGroup [] false) (elsewhere target src) (Thick.RestoreVolumeFromSnapshot VolumeGroup target src)).

Definition tag_list (b : bool) : string := if b then RestoreIncompleteTag else "".
Lemma tag_list_read b : has_tag (tag_list b) RestoreIncompleteTag = b.
Proof. by destruct b. Qed.

Notation runs := (attempt (lvm_step VolumeGroup [] false) (elsewhere target src)).

Lemma attempt_exec {A} out err cmd args h h1 h2 (k : _ -> prog oanswer A) r :
  ran [] false (command_line VolumeGroup cmd args) out (succeeded (out, err)) h h1 -> runs (k (out, err)) h1 r h2 -> runs (Do (Exec cmd args) k) h r h2.
Proof. intros Hr Hk. by eapply (attempt_call _ _ (Exec cmd args) k h (out, err) h1). Qed.

Lemma attempt_probe {A} n l h h2 (k : _ -> prog oanswer A) r : h !! n = Some l ->
  runs (k ("x", None)) h r h2 -> runs (Do (Exec "lvs" (exists_args VolumeGroup n)) k) h r h2.
Proof. intros Hn. apply attempt_exec. autorewrite with lvm. left. split; [done|]. intros _. by rewrite Hn. Qed.

Lemma attempt_tag {A} n l h h2 (k : _ -> prog oanswer A) r : h !! n = Some l ->
  runs (k (tag_list (bool_decide (RestoreIncompleteTag ∈ lv_tags l)), None)) h r h2 ->
  runs (Do (Exec "lvs" (tags_args VolumeGroup n)) k) h r h2.
Proof. intros Hn. apply attempt_exec. autorewrite with lvm. left. split; [done|]. exists l. by rewrite tag_list_read. Qed.

Lemma copy_finishes h ls lt : h !! source = Some ls -> h !! tgt = Some lt ->
  exists h', runs (Thick.copyAndClearSentinel VolumeGroup source tgt) h (Some (Ok tt)) h'.
Proof.
  intros Hs Ht. eexists.
  eapply (attempt_exec "" None); [autorewrite with lvm; right; exists (lv_data ls), lt; by rewrite Hs|].
  eapply (attempt_exec "" None); [autorewrite with lvm; right; eexists; by rewrite lookup_insert_eq|].
  apply attempt_done.
Qed.

Lemma restore_finishes h ls : source <> tgt -> h !! source = Some ls -> exists h', Attempt h (Some (Ok tt)) h'.
Proof.
  intros Hnames Hs. destruct (h !! tgt) as [lt|] eqn:Ht.
  - destruct (decide (RestoreIncompleteTag ∈ lv_tags lt)) as [Hin|Hin].
    + destruct (copy_finishes h ls lt Hs Ht) as [h' Hc]. exists h'. eapply attempt_probe; [exact Ht|].
      eapply attempt_tag; [exact Ht|]. rewrite bool_decide_eq_true_2 by done. by eapply attempt_probe.
    + eexists. eapply attempt_probe; [exact Ht|]. eapply attempt_tag; [exact Ht|]. rewrite bool_decide_eq_false_2 by done. apply attempt_done.
  - set (h1 := <[tgt := mkLv [] [RestoreIncompleteTag] false]> h).
    destruct (copy_finishes h1 ls (mkLv [] [RestoreIncompleteTag] false)) as [h' Hc]; [by unfold h1; rewrite lookup_insert_ne|by unfold h1; rewrite lookup_insert_eq|].
    exists h'. eapply (attempt_exec "" (Some "")); [autorewrite with lvm; left; by split|].
    eapply attempt_probe; [exact Hs|].
    eapply (attempt_exec "/dev|4096.00" None); [autorewrite with lvm; by right|].
    eapply (attempt_exec "" None); [rewrite line_restore; right; split; [exact Ht|by exists []]|].
    exact Hc.
Qed.

(** C11: Restoring a snapshot on LVM without a thin pool copies it with dd into a new volume. Let any number
    of attempts be interrupted at any point, have commands other than the queries of tags fail before or
    after they acted, or leave the copy half written, while others change the rest of the volume group; the
    snapshot and the target have different names, the target does not exist at the start, and the queries of
    tags always answer. At every moment the target is then absent, marked incomplete or a whole copy; an
    attempt that returns without an error leaves a whole copy that is no longer marked; and while the
    snapshot exists one more attempt can succeed. (When the query of the tags fails this is lost:
    failed_query_trusts_a_torn_copy.) *)
Theorem interrupted_restores_finish h0 h1 :
  source <> tgt -> source_holds src S h0 -> h0 !! tgt = None ->
  attempts (lvm_step VolumeGroup [] false) (elsewhere target src) (Thick.RestoreVolumeFromSnapshot VolumeGroup target src) h0 h1 ->
  trustworthy S (h1 !! tgt) /\
  (forall h2, Attempt h1 (Some (Ok tt)) h2 -> finished_copy S (h2 !! tgt)) /\
  (is_Some (h1 !! source) -> exists h2, Attempt h1 (Some (Ok tt)) h2).
Proof.
  intros Hnames HI Ht Ha. pose proof (elsewhere_keeps target src S) as Hkeep.
  pose proof (RestoreVolumeFromSnapshot_ok VolumeGroup target src S Hnames) as HT.
  destruct (attempts_keep _ _ _ _ _ Hkeep _ (restored S) _ _ HT Ha HI) as [HI1 HJ1].
  { intros l Hl. unfold at_target in Hl. congruence. }
  split_and!; [done| |].
  - intros h2 Hr. destruct (triple_sound _ _ _ _ _ Hkeep _ _ _ _ Hr _ _ HT ltac:(done) HI1 HJ1) as (_ & _ & HQ). by apply (HQ (Ok tt)).
  - intros [ls Hs]. by eapply restore_finishes.
Qed.

End Finish.

(** The same for receiving a snapshot from another node into a thin pool: however often the transfer
    is interrupted or fails, the target is absent, marked incomplete or the whole stream, and the
    attempt that returns without an error leaves the whole stream, no longer marked. *)
Theorem interrupted_receives_finish VolumeGroup ThinPool target S h0 h1 :
  h0 !! volumeLVName target = None ->
  attempts (lvm_step VolumeGroup S false) (off_target target) (Thin.RecvSnapshot VolumeGroup ThinPool target) h0 h1 ->
  trustworthy S (h1 !! volumeLVName target) /\
  forall h2, attempt (lvm_step VolumeGroup S false) (off_target target) (Thin.RecvSnapshot VolumeGroup ThinPool target) h1 (Some (Ok tt)) h2 ->
    finished_copy S (h2 !! volumeLVName target).
Proof.
  intros Ht Ha. pose proof (RecvSnapshot_ok VolumeGroup ThinPool target S) as HT.
  assert (forall h h', anything h -> off_target target h h' ->
    anything h' /\ at_target (volumeLVName target) h' = at_target (volumeLVName target) h) as Hkeep by done.
  destruct (attempts_keep _ _ _ _ _ Hkeep _ (restored S) _ _ HT Ha) as [_ HJ1]; [done|intros l Hl; unfold at_target in Hl; congruence|].
  split; [done|]. intros h2 Hr. destruct (triple_sound _ _ _ _ _ Hkeep _ _ _ _ Hr _ _ HT ltac:(done)) as (_ & _ & HQ); [done..|].
  by apply (HQ (Ok tt)).
Qed.

(** ** Creating a volume without a thin pool *)

Section ThickCreate.
Context (VolumeGroup : string) (vol : Volume).
Notation final := (volumeLVName vol).
Notation fresh := (freshLVName final).

Definition both_names (h : lvm) : option lv * option lv := (h !! final, h !! fresh).
Definition off_both (h h' : lvm) : Prop := both_names h' = both_names h.
(** What carries the name of the volume was wiped. *)
Definition wiped_name (s : option lv * option lv) : Prop := forall l, s.1 = Some l -> lv_wiped l = true.
Definition wiped_with_fresh (s : option lv * option lv) : Prop := wiped_name s /\ exists l, s.2 = Some l /\ lv_wiped l = true.
Definition created (s : option lv * option lv) : Prop := exists l, s.1 = Some l /\ lv_wiped l = true.

Lemma fresh_differs : fresh <> final.
Proof. intros H%(f_equal String.length). unfold freshLVName in H. rewrite StrFacts.length_app_str in H. cbn in H. lia. Qed.

Lemma created_clean s : created s -> wiped_name s.
Proof. intros (l & Hl & Hw) l' Hl'. congruence. Qed.
Lemma clean_fresh_clean s : wiped_with_fresh s -> wiped_name s.
Proof. by intros [? _]. Qed.
#[local] Hint Resolve created_clean clean_fresh_clean fresh_differs not_eq_sym : core.

Notation D := (does [] false anything both_names).
Notation T := (triple (lvm_step VolumeGroup [] false) anything both_names wiped_name).
Notation made := (by_result (A := unit) (fun ok s => if ok : bool then created s else wiped_name s)).

Lemma fresh_removed : D (RemoveLv fresh) wiped_name (fun _ => wiped_name).
Proof.
  intros h out ok h' _ HP [[-> _]|[_ ->]]; (split; [done|]); [done|]. unfold both_names. rewrite lookup_delete_ne by auto. exact HP.
Qed.
Lemma fresh_created : D (Create fresh []) wiped_name (fun _ => wiped_name).
Proof.
  intros h out ok h' _ HP [[-> _]|[_ (d & ->)]]; (split; [done|]); [done|]. unfold both_names. rewrite lookup_insert_ne by auto. exact HP.
Qed.
Lemma fresh_wiped : D (Wipe fresh) wiped_name (fun ok s => if ok then wiped_with_fresh s else wiped_name s).
Proof.
  intros h out ok h' _ HP Hr. split; [done|]. destruct Hr as [[-> ->]|(l & Hl & ->)]; [done|].
  unfold both_names. rewrite lookup_insert_ne, lookup_insert_eq by auto.
  destruct ok; [|exact HP]. split; [exact HP|]. by exists (wiped l).
Qed.
Lemma fresh_renamed : D (RenameLv fresh final) wiped_with_fresh (fun ok s => if ok then created s else wiped_name s).
Proof.
  intros h out ok h' _ [HP (l & Hl & Hw)] Hr. split; [done|]. destruct Hr as [[-> ->]|(_ & l' & Hl' & ->)]; [done|].
  cbn in Hl. simplify_eq. assert (created (both_names (<[final := l]> (delete fresh h)))) as Hc
    by (exists l; cbn; by rewrite lookup_insert_eq). destruct ok; auto.
Qed.

Lemma lvNames_ok : T wiped_name (Thick.lvNames VolumeGroup)
  (fun r s => wiped_name s /\ match r with Ok names => final ∈ names -> created s | Err _ => True end).
Proof.
  exists (fun a s => wiped_name s /\ match a with (out, None) => final ∈ filter (fun n => n <> "") (Str.trim_space <$> lines out) -> created s | _ => True end).
  split_and!; [|by intros a s []|intros [out [e|]] s Hs; exact Hs]. intros h [out err] h' _ HP Hr. split; [done|].
  unfold lvm_step in Hr. autorewrite with lvm in Hr. destruct Hr as [[-> Ht]|[]]. split; [done|]. destruct err; [done|].
  intros Hin. apply (Ht eq_refl) in Hin as [l Hl]. exists l. split; [done|]. by apply HP.
Qed.

Lemma CreateVolume_ok : T wiped_name (Thick.CreateVolume VolumeGroup vol) made.
Proof.
  unfold Thick.CreateVolume. eapply run_kbind; [apply lvNames_ok| |by intros e s []]. intros names. cbn zeta.
  destruct (bool_decide_reflect (final ∈ names)) as [Hin|Hin]; [by intros s [_ Hs]; apply Hs|].
  eapply triple_pre with (P' := wiped_name); [by intros s []|].
  eapply run_kbind with (R := by_result (fun _ => wiped_name)); [|intros ?|by intros e s Hs].
  { case_bool_decide; [|by intros s Hs]. apply triple_must; [|by intros ? ?]. rewrite line_remove. apply fresh_removed. }
  eapply run_kbind with (R := by_result (fun _ => wiped_name)); [|intros ?|by intros e s Hs].
  { apply triple_must; [|by intros ? ?]. rewrite line_create. apply fresh_created. }
  eapply run_kbind with (R := by_result (fun ok s => if ok : bool then wiped_with_fresh s else wiped_name s)); [|intros ?|by intros e s Hs].
  { apply triple_must; [rewrite line_wipe; apply fresh_wiped|]. intros [] ?; eauto. }
  eapply run_kbind with (R := by_result (fun ok s => if ok : bool then created s else wiped_name s)); [|by intros ? s Hs|by intros e s Hs].
  apply triple_must; [rewrite line_rename; apply fresh_renamed|]. intros [] ?; eauto.
Qed.

(** LVM hands out extents with the contents of their former owner. However many attempts to create
    a volume are interrupted or fail, before or after their commands acted: a logical volume under the
    name of the volume has had old signatures wiped, so nothing finds the file system or the
    replication metadata of another volume on it; and an attempt that returns without an error leaves
    one. *)
Theorem created_volumes_are_wiped h0 h1 :
  h0 !! final = None ->
  attempts (lvm_step VolumeGroup [] false) off_both (Thick.CreateVolume VolumeGroup vol) h0 h1 ->
  wiped_name (both_names h1) /\
  forall h2, attempt (lvm_step VolumeGroup [] false) off_both (Thick.CreateVolume VolumeGroup vol) h1 (Some (Ok tt)) h2 -> created (both_names h2).
Proof.
  intros Hn Ha. assert (forall h h', anything h -> off_both h h' -> anything h' /\ both_names h' = both_names h) as Hkeep by done.
  destruct (attempts_keep _ _ _ _ _ Hkeep _ _ _ _ CreateVolume_ok Ha) as [_ HJ]; [done|intros l Hl; cbn in Hl; congruence|].
  split; [done|]. intros h2 Hr. destruct (triple_sound _ _ _ _ _ Hkeep _ _ _ _ Hr _ _ CreateVolume_ok ltac:(done)) as (_ & _ & HQ); [done..|].
  by apply (HQ (Ok tt)).
Qed.

End ThickCreate.

(** * LVM: concrete runs

    Runs that meet the hypotheses of the theorems on interrupted copies, and one where the query of
    the tags fails. *)

From S2P Require Import Prelude Prog GoStrings Storage.
Import Lvm.

Definition vg : string := "vg0".
Definition target : Volume := mkVolume "pool" "pvc-2" 0 4096.
Definition snap : Snapshot := mkSnapshot "pool" "pvc-1" "s1".
Definition contents : list Z := [1; 2; 3].
Definition torn : list Z := [1].
Definition the_source : lv := mkLv contents [] true.
Definition start : lvm := {["pvc-1_s1_00000" := the_source]}.
(** The process died while [dd] was copying. *)
Definition half_way : lvm := <["pvc-2_00000" := mkLv torn [RestoreIncompleteTag] false]> start.

Section Runs.
Context (stream : list Z) (fails : bool) (others : lvm -> lvm -> Prop).
Notation runs := (attempt (lvm_step vg stream fails) others).

Lemma run_exec {A} out err cmd args h h1 h2 (k : _ -> prog oanswer A) r :
  ran stream fails (command_line vg cmd args) out (succeeded (out, err)) h h1 -> runs (k (out, err)) h1 r h2 -> runs (Do (Exec cmd args) k) h r h2.
Proof. intros Hr Hk. by eapply (attempt_call _ _ (Exec cmd args) k h (out, err) h1). Qed.

(** A query that fails, and one that finds its volume. *)
Lemma run_absent {A} n h h2 (k : _ -> prog oanswer A) r :
  runs (k ("", Some "not found")) h r h2 -> runs (Do (Exec "lvs" (exists_args vg n)) k) h r h2.
Proof. apply run_exec. rewrite line_exists. left. by split. Qed.
Lemma run_present {A} n h h2 (k : _ -> prog oanswer A) r : is_Some (h !! n) ->
  runs (k ("x", None)) h r h2 -> runs (Do (Exec "lvs" (exists_args vg n)) k) h r h2.
Proof. intros Hn. apply run_exec. rewrite line_exists. left. by split. Qed.
End Runs.

Lemma interrupted_once : attempts (lvm_step vg [] false) (elsewhere target snap) (Thick.RestoreVolumeFromSnapshot vg target snap) start half_way.
Proof.
  eapply attempts_more; [|apply attempts_none]. apply run_absent. apply run_present; [by eexists|].
  eapply (run_exec _ _ _ "/dev|4096.00" None); [rewrite line_status; by right|].
  eapply (run_exec _ _ _ "" None); [rewrite line_restore; right; split; [done|by exists []]|].
  eapply (run_exec _ _ _ "" (Some "killed")).
  { rewrite line_copy. right. exists torn, (mkLv [] [RestoreIncompleteTag] false). split_and!; [done..|]. reflexivity. }
  unfold half_way, with_data. cbn [lv_tags lv_wiped]. rewrite insert_insert_eq. apply attempt_crash.
Qed.

Lemma interrupted_restores_finish_witness :
  trustworthy contents (half_way !! volumeLVName target) /\
  (forall h2, attempt (lvm_step vg [] false) (elsewhere target snap) (Thick.RestoreVolumeFromSnapshot vg target snap) half_way (Some (Ok tt)) h2 ->
     finished_copy contents (h2 !! volumeLVName target)) /\
  (is_Some (half_way !! snapshotLVName snap) ->
     exists h2, attempt (lvm_step vg [] false) (elsewhere target snap) (Thick.RestoreVolumeFromSnapshot vg target snap) half_way (Some (Ok tt)) h2).
Proof.
  apply (interrupted_restores_finish vg target snap contents start half_way).
  - by vm_compute.
  - intros l Hl. vm_compute in Hl. by injection Hl as <-.
  - by vm_compute.
  - apply interrupted_once.
Defined.

(** The same half copied volume, and a query of its tags that fails or times out: the restore takes
    the failure for the absence of the mark and reports success, with a torn copy in place. *)
Theorem failed_query_trusts_a_torn_copy :
  attempt (lvm_step vg [] true) (elsewhere target snap) (Thick.RestoreVolumeFromSnapshot vg target snap) half_way (Some (Ok tt)) half_way /\
  lv_data <$> half_way !! volumeLVName target = Some torn /\ torn <> contents.
Proof.
  split_and!; [|by vm_compute|done]. apply run_present; [by eexists|].
  eapply (run_exec _ _ _ "" (Some "timed out")); [rewrite line_tags; left; by split; [|right]|]. apply attempt_done.
Qed.

(** The process died before the signatures were wiped. *)
Definition unwiped : lvm := {["pvc-2_00000.bsnew" := mkLv torn [] false]}.
Lemma created_once : attempts (lvm_step vg [] false) (off_both target) (Thick.CreateVolume vg target) ∅ unwiped.
Proof.
  eapply attempts_more; [|apply attempts_none].
  eapply (run_exec _ _ _ "" None).
  { rewrite line_names. left. split; [done|]. intros _ n. rewrite lookup_empty.
    assert (forall names : list string, names = [] -> n ∈ names <-> is_Some (None : option lv)) as Hn
      by (intros ? ->; split; [by intros ?%not_elem_of_nil|by intros [? ?]]). by apply Hn. }
  eapply (run_exec _ _ _ "" (Some "activation failed")); [rewrite line_create; right; split; [done|by exists torn]|].
  apply attempt_crash.
Qed.

Lemma created_volumes_are_wiped_witness :
  wiped_name (both_names target unwiped) /\
  forall h2, attempt (lvm_step vg [] false) (off_both target) (Thick.CreateVolume vg target) unwiped (Some (Ok tt)) h2 -> created (both_names target h2).
Proof. apply (created_volumes_are_wiped vg target ∅ unwiped); [by vm_compute|apply created_once]. Defined.

(** The transfer broke off, and so did the removal of what was there. *)
Definition half_received : lvm := {["pvc-2_00000" := mkLv torn [RestoreIncompleteTag] false]}.
Lemma received_once : attempts (lvm_step vg contents false) (off_target target) (Thin.RecvSnapshot vg "thin" target) ∅ half_received.
Proof.
  eapply attempts_more; [|apply attempts_none]. apply run_absent.
  eapply (run_exec _ _ _ "" None); [rewrite line_receive; right; split; [done|by exists []]|].
  eapply (attempt_call _ _ (ExecStdin "dd" (Thin.recv_args vg (volumeLVName target))) _ _ ("", Some "broken pipe")).
  { unfold lvm_step. rewrite line_recv. right. exists torn, (mkLv [] [RestoreIncompleteTag] false). split_and!; [done..|]. reflexivity. }
  rewrite insert_insert_eq. apply attempt_crash.
Qed.

Lemma interrupted_receives_finish_witness :
  trustworthy contents (half_received !! volumeLVName target) /\
  forall h2, attempt (lvm_step vg contents false) (off_target target) (Thin.RecvSnapshot vg "thin" target) half_received (Some (Ok tt)) h2 ->
    finished_copy contents (h2 !! volumeLVName target).
Proof. apply (interrupted_receives_finish vg "thin" target contents ∅ half_received); [by vm_compute|apply received_once]. Defined.
