(* ===== verification/SweeperProps.v ===== *)
(** * The sweeper of orphaned volumes

    Volume names can be read back; the sweeper removes only volumes that nothing on the node owns,
    and only a few in a cycle; and thin snapshots are among them. *)

From Stdlib Require Import Ascii DecimalString.
From S2P Require Import Prelude Prog GoStrings Storage.
Import Lvm Sweeper.

(** ** Names *)

Lemma all_chars_zeros n : StrFacts.all_chars Str.is_digit (zeros n) = true.
Proof. by induction n. Qed.
Lemma length_zeros n : String.length (zeros n) = n.
Proof. induction n; cbn; congruence. Qed.

Lemma parse_uint_zero s : s <> "" -> parse_uint (String "0" s) = parse_uint s.
Proof.
  destruct s as [|c s]; [done|]. intros _. unfold parse_uint. cbn.
  destruct (NilEmpty.uint_of_string s) as [d|]; [|by destruct c as [[] [] [] [] [] [] [] []]].
  by destruct c as [[] [] [] [] [] [] [] []].
Qed.

Lemma parse_uint_zeros n s : s <> "" -> parse_uint (zeros n +:+ s) = parse_uint s.
Proof.
  intros Hs. induction n as [|n IH]; [done|]. cbn [zeros]. rewrite StrFacts.app_cons, parse_uint_zero; [done|].
  intros H. apply Hs. destruct n; [done|discriminate].
Qed.

Lemma five_digits n : 0 <= n <= 99999 -> (String.length (format_int n) <= 5)%nat.
Proof.
  intros Hn. assert (forallb (fun q => forallb (fun r => (String.length (format_int (1000 * q + r)) <=? 5)%nat) (seqZ 0 1000)) (seqZ 0 100) = true) as H
    by (vm_compute; reflexivity).
  rewrite forallb_forall in H. pose proof (Z.div_mod n 1000 ltac:(done)) as Hdm. pose proof (Z.mod_pos_bound n 1000 ltac:(done)).
  specialize (H (n / 1000)). rewrite forallb_forall in H. rewrite Hdm. apply Nat.leb_le, H; apply list_elem_of_In, elem_of_seqZ; lia.
Qed.

Lemma pad5_facts n : 0 <= n <= 99999 ->
  StrFacts.all_chars Str.is_digit (pad5 n) = true /\ String.length (pad5 n) = 5%nat /\ parse_int 64 (pad5 n) = Some n.
Proof.
  intros Hn. pose proof (format_int_digits n ltac:(lia)) as Hd. pose proof (five_digits n Hn) as Hl.
  assert (StrFacts.all_chars Str.is_digit (pad5 n) = true) as Hp.
  { unfold pad5. rewrite bool_decide_eq_false_2 by lia. rewrite all_chars_app, all_chars_zeros. exact Hd. }
  split_and!; [done| |].
  - unfold pad5. rewrite bool_decide_eq_false_2 by lia. rewrite StrFacts.length_app_str, length_zeros. lia.
  - rewrite parse_int_unsigned by done. unfold pad5. rewrite bool_decide_eq_false_2 by lia.
    rewrite parse_uint_zeros by (by destruct (format_int_solid n)). rewrite <- (parse_int_unsigned 64) by done. apply parse_int_format. lia.
Qed.

Lemma split_char_nonempty sep s : split_char sep s <> [].
Proof. destruct s as [|c s]; cbn; [done|]. destruct (Ascii.eqb c sep); [done|]. by destruct (split_char sep s). Qed.

Lemma split_char_app sep a b : split_char sep (a +:+ String sep b) = split_char sep a ++ split_char sep b.
Proof.
  induction a as [|c a IH]; [change (split_char sep (String sep b) = [""] ++ split_char sep b); cbn; by rewrite Ascii.eqb_refl|].
  rewrite StrFacts.app_cons. cbn. rewrite IH. destruct (Ascii.eqb c sep); [done|].
  pose proof (split_char_nonempty sep a). by destruct (split_char sep a).
Qed.

Lemma join_split s : Str.join "_" (split_char "_" s) = s.
Proof.
  induction s as [|c s IH]; [done|]. cbn. pose proof (split_char_nonempty "_" s) as Hn.
  destruct (Ascii.eqb_spec c "_") as [->|Hc].
  - destruct (split_char "_" s) as [|x l]; [done|]. change (String "_" (Str.join "_" (x :: l)) = String "_" s). by rewrite IH.
  - destruct (split_char "_" s) as [|x l]; [done|]. destruct l; cbn in *; by rewrite <- IH.
Qed.

Lemma parse_numbered_app r n : 0 <= n <= 99999 -> parse_numbered (r +:+ "_" +:+ pad5 n) = Some (r, n).
Proof.
  intros Hn. destruct (pad5_facts n Hn) as (Hd & Hl & Hp). unfold parse_numbered.
  change (r +:+ "_" +:+ pad5 n) with (r +:+ String "_" (pad5 n)).
  rewrite split_char_app, (split_char_last _ (pad5 n)), rev_app_distr by (by apply StrFacts.digits_no_char).
  cbn [rev app tail]. destruct (rev (split_char "_" r)) as [|x l] eqn:E.
  - apply (f_equal (@length _)) in E. rewrite length_rev in E. by apply length_zero_iff_nil, split_char_nonempty in E.
  - rewrite Hl, bool_decide_eq_true_2 by done. cbn [negb]. rewrite Hp, <- E, List.rev_involutive, join_split. done.
Qed.

(** What the sweeper reads off the disk is what the providers wrote there: from the name of the
    logical volume or data set of a volume, the listing gets the resource and the volume number back,
    whatever underscores the name of the resource has. *)
Theorem volume_names_read_back vol pool : 0 <= v_VolumeNumber vol <= 99999 ->
  parseLVName (volumeLVName vol) = Some (v_ResourceName vol, v_VolumeNumber vol) /\
  Str.cut_prefix (pool +:+ "/") (Zfs.volumeDataset pool vol) ≫= Zfs.parseVolumeName = Some (v_ResourceName vol, v_VolumeNumber vol).
Proof.
  intros Hn. split; [by apply parse_numbered_app|]. unfold Zfs.volumeDataset.
  replace (pool +:+ "/" +:+ v_ResourceName vol +:+ "_" +:+ pad5 (v_VolumeNumber vol))
    with ((pool +:+ "/") +:+ v_ResourceName vol +:+ "_" +:+ pad5 (v_VolumeNumber vol)) by by rewrite StrFacts.app_assoc.
  rewrite StrFacts.cut_prefix_app. by apply parse_numbered_app.
Qed.

Lemma volume_names_read_back_witness :
  parseLVName "pvc-a_b_00012" = Some ("pvc-a_b", 12) /\
  Str.cut_prefix "tank/" "tank/pvc-a_b_00012" ≫= Zfs.parseVolumeName = Some ("pvc-a_b", 12).
Proof. apply (volume_names_read_back (mkVolume "p" "pvc-a_b" 12 0) "tank"). cbn. lia. Defined.

(** ** Which volumes are removed *)

Definition is_query (c : ocall) : Prop :=
  match c with
  | Exec cmd args => cmd = "lvs" \/ cmd = "zfs" /\ head args = Some "list"
  | NodeAnnotation _ _ | ListResources | DefinitionVolumes _ => True
  | _ => False
  end.

(** The providers of the node. *)
Definition a_provider (p : Provider) : Prop :=
  (exists vg, p = ThickProvider vg \/ p = ThinProvider vg) \/ (exists pool, p = ZfsProvider pool) \/ exists dir, p = FileProvider dir.

Lemma listers_query p l : a_provider p -> p_ListVolumeNames p = Some l -> only is_query l.
Proof.
  intros [(vg & [-> | ->])|[(pool & ->)|(dir & ->)]] [= <-]; cbn; (split; [by auto|]); intros [out [e|]]; done.
Qed.

Lemma claim_spec rd vols owned k : k ∈ claim rd vols owned <->
  k ∈ owned \/ (exists vn, vn ∈ vols /\ k = ownedKey rd vn) \/ vols = [] /\ k = ownedKey rd (-1).
Proof.
  assert (forall o : gset string, k ∈ foldl (fun o vn => {[ownedKey rd vn]} ∪ o) o vols <-> k ∈ o \/ exists vn, vn ∈ vols /\ k = ownedKey rd vn) as Hf.
  { induction vols as [|v l IH]; intros o; cbn; [set_solver|]. rewrite IH. set_solver. }
  unfold claim. destruct vols as [|v l]; [set_solver|]. cbn zeta. rewrite Hf. set_solver.
Qed.

Section Sweep.
Context (NodeName : string) (MaxDeletePerCycle : Z).
(** What the API server answers: the resources, and the volumes of the definitions. *)
Context (resources : list (string * string)) (defs : string -> result unit (list Z)).

Definition told_by_api (c : ocall) : oanswer c -> Prop :=
  match c with
  | ListResources => fun a => a = Ok resources
  | DefinitionVolumes rd => fun a => a = defs rd
  | _ => fun _ => True
  end.

(** No resource of the node owns the volume: there is none of its definition, or it is read and has
    other volumes only. *)
Definition orphan (v : Volume) : Prop :=
  hasStoragePrefix (v_ResourceName v) = true /\
  ((NodeName, v_ResourceName v) ∈ resources -> exists vols, defs (v_ResourceName v) = Ok vols /\ vols <> [] /\ v_VolumeNumber v ∉ vols).

Definition volumes_of (rd : string) : list Z := match defs rd with Ok vols => vols | Err _ => [] end.
Definition covers (rs : list (string * string)) (owned : gset string) : Prop :=
  forall rd, (NodeName, rd) ∈ rs ->
    (forall vn, vn ∈ volumes_of rd -> ownedKey rd vn ∈ owned) /\ (volumes_of rd = [] -> ownedKey rd (-1) ∈ owned).

Lemma owned_by_spec rs : forall cache out,
  (forall rd vols, cache !! rd = Some vols -> vols = volumes_of rd) ->
  along told_by_api is_query (owned_by NodeName rs cache out) (fun owned => out ⊆ owned /\ covers rs owned).
Proof.
  assert (forall rs rd out owned, claim rd (volumes_of rd) out ⊆ owned -> covers rs owned -> out ⊆ owned /\ covers ((NodeName, rd) :: rs) owned) as Hcons.
  { intros rs' rd out owned Hc Hr. split; [intros k Hk; apply Hc, claim_spec; auto|].
    intros rd' [[= ->]|Hin]%elem_of_cons; [|by apply Hr]. split; intros; apply Hc, claim_spec; eauto. }
  induction rs as [|[node rd] rs IH]; intros cache out Hcache; cbn [owned_by].
  - split; [done|]. intros ? []%not_elem_of_nil.
  - case_bool_decide as Hn; subst; cbn [negb].
    + destruct (cache !! rd) as [vols|] eqn:Hc.
      * rewrite (Hcache _ _ Hc). eapply along_mono; [done| |by apply IH]. intros owned [? ?]. by apply Hcons.
      * split; [done|]. intros a ->. cbn. fold (volumes_of rd). eapply along_mono; [done| |apply IH].
        -- intros owned [? ?]. by apply Hcons.
        -- intros rd' vols [[<- <-]|[_ ?]]%lookup_insert_Some; [done|by apply Hcache].
    + eapply along_mono; [done| |by apply IH]. intros owned [Ho Hr]. split; [done|].
      intros rd' [[= -> ->]|Hin]%elem_of_cons; [done|by apply Hr].
Qed.

Lemma unowned_orphan owned ref pool : covers resources owned ->
  ownedKey (ref_ResourceName ref) (ref_VolumeNumber ref) ∉ owned -> ownedKey (ref_ResourceName ref) (-1) ∉ owned ->
  hasStoragePrefix (ref_ResourceName ref) = true ->
  orphan (mkVolume pool (ref_ResourceName ref) (ref_VolumeNumber ref) 0).
Proof.
  intros Hc H1 H2 Hp. split; [done|]. cbn. intros Hin. destruct (Hc _ Hin) as [Hv He]. unfold volumes_of in *.
  destruct (defs (ref_ResourceName ref)) as [vols|]; [|by destruct H2; apply He].
  exists vols. split_and!; [done| |]; [intros ->|intros Hn]; naive_solver.
Qed.

(** Queries, and what removing an orphan takes. *)
Definition allowed (providers : list (string * Provider)) (c : ocall) : Prop :=
  is_query c \/ exists pool p v, (pool, p) ∈ providers /\ v_PoolName v = pool /\ orphan v /\ may_make c (p_DeleteVolume p v).

Context (owned : gset string) (Howned : covers resources owned) (limit : Z).
Definition within_limit (deleted : Z) (r : bool * Z) : Prop := 0 <= limit -> deleted <= limit -> r.2 <= limit.

Lemma reapIfOrphan_ok providers pool p deleted ref : (pool, p) ∈ providers ->
  along told_by_api (allowed providers) (reapIfOrphan pool p owned limit deleted ref) (within_limit deleted).
Proof using Howned.
  intros Hp. unfold reapIfOrphan. case_bool_decide as H1; [by intros ? ?|]. case_bool_decide as H2; [by intros ? ?|].
  destruct (hasStoragePrefix (ref_ResourceName ref)) eqn:H3; cbn [negb]; [|by intros ? ?].
  destruct (bool_decide (0 <= limit) && bool_decide (limit <= deleted)) eqn:H4; [by intros ? ?|].
  eapply along_bind; [eapply along_mono; [|done|by apply along_only, only_may_make]|].
  - intros c Hc. right. eexists pool, p, _. split_and!; [done| | |exact Hc]; [done|]. by eapply unowned_orphan.
  - intros r _. destruct r; intros Hl Hd; [|done]. cbn. rewrite andb_false_iff, !bool_decide_eq_false in H4. lia.
Qed.

Lemma reap_each_ok providers pool p refs : (pool, p) ∈ providers -> forall deleted,
  along told_by_api (allowed providers) (reap_each pool p owned limit deleted refs) (within_limit deleted).
Proof using Howned.
  intros Hp. induction refs as [|ref refs IH]; intros deleted; cbn [reap_each]; [by intros ? ?|].
  eapply along_bind; [by apply reapIfOrphan_ok|]. intros [[] n] Hr; cbn; [by intros ? ?; apply Hr|].
  eapply along_mono; [done| |apply IH]. intros r' Hr' Hl Hd. apply Hr'; [done|]. by apply Hr.
Qed.

Lemma sweepPool_ok providers pool p deleted : (pool, p) ∈ providers -> a_provider p ->
  along told_by_api (allowed providers) (sweepPool pool p owned limit deleted) (within_limit deleted).
Proof using Howned.
  intros Hp Hk. unfold sweepPool. destruct (p_ListVolumeNames p) as [l|] eqn:Hl; [|by intros ? ?].
  eapply along_bind; [eapply along_mono; [|done|by eapply along_only, listers_query]; by left|].
  intros [refs|e] _; [by apply reap_each_ok|by intros ? ?].
Qed.

Lemma sweep_pools_ok providers l : (forall x, x ∈ l -> x ∈ providers /\ a_provider x.2) -> forall deleted,
  along told_by_api (allowed providers) (sweep_pools l owned limit deleted) (fun n => 0 <= limit -> deleted <= limit -> n <= limit).
Proof using Howned.
  induction l as [|[pool p] l IH]; intros Hall deleted; cbn [sweep_pools]; [by intros ? ?|].
  eapply along_bind; [apply sweepPool_ok; apply (Hall (pool, p)), list_elem_of_here|]. intros [[] n] Hr; cbn; [exact Hr|].
  eapply along_mono; [done| |apply IH; intros; apply Hall, list_elem_of_further; done].
  intros n' Hn' Hl Hd. apply Hn'; [done|]. by apply Hr.
Qed.

(** *** What a whole cycle did *)

(** A stretch of a run: queries, or one volume deleted by the provider of a pool, with what that returned. *)
Inductive stretch := Looked (h : list (fact oanswer)) | Deleting (pool : string) (p : Provider) (v : Volume) (h : list (fact oanswer)) (r : result storage_err unit).
Definition facts_of (x : stretch) : list (fact oanswer) := match x with Looked h => h | Deleting _ _ _ h _ => h end.
Definition succeeded (x : stretch) : Prop := match x with Deleting _ _ _ _ (Ok _) => True | _ => False end.
#[export] Instance succeeded_dec x : Decision (succeeded x).
Proof. destruct x as [|? ? ? ? []]; apply _. Defined.
Definition sound_stretch (providers : list (string * Provider)) (x : stretch) : Prop :=
  match x with
  | Looked h => Forall (fun f => is_query (f_call f)) h
  | Deleting pool p v h r => (pool, p) ∈ providers /\ v_PoolName v = pool /\ orphan v /\ whole_run (p_DeleteVolume p v) h r
  end.
Definition deleted_in (l : list stretch) : Z := Z.of_nat (length (filter succeeded l)).
(** The history is made of such stretches, and so many of them deleted a volume. *)
Definition amounts_to (providers : list (string * Provider)) (h : list (fact oanswer)) (n : Z) : Prop := exists l,
  h = mjoin (facts_of <$> l) /\ Forall (sound_stretch providers) l /\ n = deleted_in l.

Lemma amounts_none providers h : Forall (fun f => is_query (f_call f)) h -> amounts_to providers h 0.
Proof. intros H. exists [Looked h]. cbn. rewrite app_nil_r. split_and!; [done|by repeat constructor|done]. Qed.
Lemma amounts_app providers h1 h2 n1 n2 : amounts_to providers h1 n1 -> amounts_to providers h2 n2 -> amounts_to providers (h1 ++ h2) (n1 + n2).
Proof.
  intros (l1 & -> & H1 & ->) (l2 & -> & H2 & ->). exists (l1 ++ l2). rewrite fmap_app, join_app. unfold deleted_in. rewrite list.filter_app, length_app.
  split_and!; [done|by apply Forall_app|lia].
Qed.
Definition by_api (h : list (fact oanswer)) : Prop := Forall (fun f => told_by_api (f_call f) (f_answer f)) h.

(** What was deleted is what was counted. *)
Lemma reapIfOrphan_counts providers pool p deleted ref h r : (pool, p) ∈ providers -> whole_run (reapIfOrphan pool p owned limit deleted ref) h r ->
  amounts_to providers h (r.2 - deleted).
Proof using Howned.
  intros Hp. unfold reapIfOrphan. assert (forall b, whole_run (answer := oanswer) (Ret (b, deleted)) h r -> amounts_to providers h (r.2 - deleted)) as Hnone.
  { intros b [-> ->]. cbn. rewrite Z.sub_diag. by apply amounts_none. }
  case_bool_decide as H1; [apply Hnone|]. case_bool_decide as H2; [apply Hnone|].
  destruct (hasStoragePrefix (ref_ResourceName ref)) eqn:H3; cbn [negb]; [|apply Hnone].
  destruct (bool_decide (0 <= limit) && bool_decide (limit <= deleted)) eqn:H4; [apply Hnone|].
  intros (h1 & h2 & x & -> & Hx & -> & ->)%whole_run_bind. rewrite app_nil_r.
  exists [Deleting pool p (mkVolume pool (ref_ResourceName ref) (ref_VolumeNumber ref) 0) h1 x]. cbn. rewrite app_nil_r. split_and!; [done| |].
  - constructor; [|constructor]. split_and!; [done..| |done]. by eapply unowned_orphan.
  - unfold deleted_in. destruct x; [rewrite filter_cons_True by done|rewrite filter_cons_False by (by intros [])]; cbn; lia.
Qed.
Lemma reap_each_counts providers pool p refs : (pool, p) ∈ providers -> forall deleted h r, whole_run (reap_each pool p owned limit deleted refs) h r ->
  amounts_to providers h (r.2 - deleted).
Proof using Howned.
  intros Hp. induction refs as [|ref refs IH]; intros deleted h r; cbn [reap_each].
  { intros [-> ->]. cbn. rewrite Z.sub_diag. by apply amounts_none. }
  intros (h1 & h2 & [[] n] & -> & H1 & H2)%whole_run_bind; apply (reapIfOrphan_counts providers) in H1; [|done| |done]; cbn in *.
  - destruct H2 as [-> ->]. by rewrite app_nil_r.
  - replace (r.2 - deleted) with ((n - deleted) + (r.2 - n)) by lia. apply amounts_app; [done|by apply IH].
Qed.
Lemma sweepPool_counts providers pool p deleted h r : (pool, p) ∈ providers -> a_provider p -> whole_run (sweepPool pool p owned limit deleted) h r ->
  amounts_to providers h (r.2 - deleted).
Proof using Howned.
  intros Hp Hk. unfold sweepPool. destruct (p_ListVolumeNames p) as [l|] eqn:Hl.
  2:{ intros [-> ->]. cbn. rewrite Z.sub_diag. by apply amounts_none. }
  intros (h1 & h2 & x & -> & H1 & H2)%whole_run_bind. pose proof (whole_run_only _ _ _ _ (listers_query _ _ Hk Hl) H1) as Hq.
  apply amounts_none with (providers := providers) in Hq. destruct x as [refs|e].
  - apply (amounts_app _ _ _ 0); [done|]. by eapply reap_each_counts.
  - destruct H2 as [-> ->]. cbn. by rewrite app_nil_r, Z.sub_diag.
Qed.
Lemma sweep_pools_counts providers l : (forall x, x ∈ l -> x ∈ providers /\ a_provider x.2) -> forall deleted h n,
  whole_run (sweep_pools l owned limit deleted) h n -> amounts_to providers h (n - deleted).
Proof using Howned.
  induction l as [|[pool p] l IH]; intros Hall deleted h n; cbn [sweep_pools].
  { intros [-> ->]. rewrite Z.sub_diag. by apply amounts_none. }
  intros (h1 & h2 & [stop m] & -> & H1 & H2)%whole_run_bind. apply (sweepPool_counts providers) in H1; [|apply (Hall (pool, p)), list_elem_of_here..]. cbn in *.
  destruct stop; [destruct H2 as [-> ->]; by rewrite app_nil_r|].
  replace (n - deleted) with ((m - deleted) + (n - m)) by lia. apply amounts_app; [done|]. eapply IH; [|done]. intros. by apply Hall, list_elem_of_further.
Qed.

End Sweep.

Lemma sweep_each_step NodeName MaxDeletePerCycle resources defs providers :
  (forall x, x ∈ providers -> a_provider x.2) ->
  along (told_by_api resources defs) (allowed NodeName resources defs providers) (sweepOnce NodeName MaxDeletePerCycle providers)
    (fun r => forall n, r = Ok n -> 0 <= Sweeper.limit MaxDeletePerCycle -> n <= Sweeper.limit MaxDeletePerCycle).
Proof.
  intros Hall. unfold sweepOnce, shouldSkip. split; [by left|]. intros a _.
  set (Q := fun r : result unit Z => forall n, r = Ok n -> 0 <= Sweeper.limit MaxDeletePerCycle -> n <= Sweeper.limit MaxDeletePerCycle).
  assert (along (told_by_api resources defs) (allowed NodeName resources defs providers)
    (owned ← listOwnedVolumeRefs NodeName;
     match owned with
     | Err e => Ret (Err e)
     | Ok owned => n ← sweep_pools providers owned (Sweeper.limit MaxDeletePerCycle) 0; Ret (Ok n)
     end) Q) as Hsweep.
  { split; [by left|]. intros b ->. change (oanswer ListResources) with (result unit (list (string * string))). cbn [prog_bind].
    eapply along_bind with (R := fun r => exists owned, r = Ok owned /\ covers NodeName defs resources owned).
    - eapply along_bind; [eapply along_mono; [| |by apply owned_by_spec with (cache := ∅)]; [by left|by intros owned [_ H]; exact H]|].
      intros owned Ho. by exists owned.
    - intros r (owned & -> & Ho). eapply along_bind; [apply sweep_pools_ok; [exact Ho|by eauto]|].
      intros n Hn ? [= <-] Hl. by apply Hn. }
  destruct a as [[v|]|e]; cbn; [|exact Hsweep..]. case_bool_decide; [|exact Hsweep]. by intros n [= <-].
Qed.

(** The look at the annotation and at what the node owns. *)
Lemma owned_covers NodeName resources defs h r : by_api resources defs h -> whole_run (listOwnedVolumeRefs NodeName) h r ->
  Forall (fun f => is_query (f_call f)) h /\ forall owned, r = Ok owned -> covers NodeName defs resources owned.
Proof.
  intros Hapi Hr. refine (whole_run_along (told_by_api resources defs) is_query _ (fun r => forall owned, r = Ok owned -> covers NodeName defs resources owned) h r _ Hapi Hr).
  split; [done|]. intros b ->. change (oanswer ListResources) with (result unit (list (string * string))). cbn [prog_bind].
  eapply along_bind; [by apply owned_by_spec with (cache := ∅)|]. intros owned [_ Ho] ? [= <-]. exact Ho.
Qed.
Lemma sweep_counts NodeName MaxDeletePerCycle resources defs providers h r :
  (forall x, x ∈ providers -> a_provider x.2) -> by_api resources defs h -> whole_run (sweepOnce NodeName MaxDeletePerCycle providers) h r ->
  exists n, amounts_to NodeName resources defs providers h n /\ (n = 0 \/ r = Ok n).
Proof.
  intros Hall Hapi. unfold sweepOnce. intros (h1 & h2 & skip & -> & H1 & H2)%whole_run_bind. apply Forall_app in Hapi as [_ Hapi].
  assert (Forall (fun f => is_query (f_call f)) h1) as Hq1. { eapply whole_run_only; [|exact H1]. unfold shouldSkip. split; [done|]. by intros [[]|]. }
  apply (amounts_none NodeName resources defs providers) in Hq1.
  assert (whole_run (owned ← listOwnedVolumeRefs NodeName; match owned with Err e => Ret (Err e)
     | Ok owned => n ← sweep_pools providers owned (Sweeper.limit MaxDeletePerCycle) 0; Ret (Ok n) end) h2 r ->
    exists n, amounts_to NodeName resources defs providers (h1 ++ h2) n /\ (n = 0 \/ r = Ok n)) as Hsweep.
  { intros (h3 & h4 & x & -> & H3 & H4)%whole_run_bind. apply Forall_app in Hapi as [Ha Hb]. destruct (owned_covers _ _ _ _ _ Ha H3) as [Hq Ho].
    apply (amounts_none NodeName resources defs providers) in Hq. pose proof (amounts_app _ _ _ _ _ _ _ _ Hq1 Hq) as H0.
    rewrite (assoc_L (++)). destruct x as [owned|e].
    - apply whole_run_bind in H4 as (h5 & h6 & n & -> & H5 & -> & ->). rewrite app_nil_r.
      apply (sweep_pools_counts NodeName resources defs owned (Ho _ eq_refl) _ providers) in H5; [|by eauto]. exists n. split; [|by right].
      replace n with (0 + 0 + (n - 0)) by lia. by apply amounts_app.
    - destruct H4 as [-> ->]. exists 0. rewrite app_nil_r. split; [exact H0|by left]. }
  destruct skip as [[]|e]; [|exact (Hsweep H2)..]. destruct H2 as [-> ->]. exists 0. rewrite app_nil_r. split; [exact Hq1|by left].
Qed.



(** ** A thin snapshot is listed like a volume *)

(** A node with one volume and a snapshot of it, both of type [V] as thin volumes are, and the resource
    that owns them. *)
Definition listing : string :=
  "  pvc-1_00000" +:+ String tab "Vwi-aotz--" +:+ String newline "  pvc-1_s1_00000" +:+ String tab "Vwi---tz-k" +:+ String newline "".
Definition healthy_node (c : ocall) : oanswer c :=
  match c with
  | Exec cmd args => (if bool_decide (args = list_args "vg0") then listing else "x", None)
  | ExecStdin _ _ => ("", None)
  | Stat _ => Ok 0
  | StatFs _ => Ok (0, 0)
  | UnixNow => 0
  | NodeAnnotation _ _ => Ok None
  | ListResources => Ok [("n1", "pvc-1")]
  | DefinitionVolumes rd => if bool_decide (rd = "pvc-1") then Ok [0] else Err tt
  | Remove _ | Rename _ _ | Pipe _ _ | CreateExclusive _ | CopyInto _ | Close _ | OpenFile _ => Ok tt
  end.

Definition removals (l : list ocall) : list (list string) :=
  omap (fun c => match c with Exec cmd args => if bool_decide (cmd = "lvremove") then Some args else None | _ => None end) l.

(** A snapshot in a thin pool has the volume type [V], like a volume, and a name that reads as volume
    0 of the resource "<resource>_<snapshot>", which no node has: on a healthy node, the sweeper leaves
    the volume of the resource "pvc-1" alone and removes its snapshot. *)
Theorem sweeper_removes_thin_snapshots :
  removals (calls_of healthy_node (sweepOnce "n1" 0 [("thin", ThinProvider "vg0")]))
  = [remove_args "vg0" (snapshotLVName (mkSnapshot "thin" "pvc-1" "s1"))].
Proof. vm_compute. reflexivity. Qed.

(** The names of a snapshot and of a volume may coincide: those of the snapshot "b" of the resource "a"
    and of volume 0 of the resource "a_b" are one logical volume, and one file. *)
Theorem snapshot_and_volume_share_a_name pool dir a b size :
  snapshotLVName (mkSnapshot pool a b) = volumeLVName (mkVolume pool (a +:+ "_" +:+ b) 0 size) /\
  File.snapshotPath dir (mkSnapshot pool a b) = File.volumePath dir (mkVolume pool (a +:+ "_" +:+ b) 0 size).
Proof.
  unfold snapshotLVName, volumeLVName, File.snapshotPath, File.volumePath. cbn [s_ResourceName s_SnapshotName v_ResourceName v_VolumeNumber].
  by rewrite !StrFacts.app_assoc.
Qed.
