(* ===== verification/ZfsProps.v ===== *)
(** * The space of ZFS volumes is reserved

    Without thin provisioning a volume must own the space it promises. Creating, resizing, restoring
    and receiving all end in one routine; whatever the commands before it did, an operation that
    succeeds leaves a reservation as large as the volume. *)

From Stdlib Require Import Ascii.
From S2P Require Import Prelude Prog GoStrings Storage.
Import Zfs.

Record zvol := mkZvol { z_volsize : Z; z_refreservation : Z }.
Notation zhost := (gmap string zvol).

Inductive zcommand := GetProp (property ds : string) | Reserve (n : Z) (ds : string) | AnyZfs.
Definition zline (cmd : string) (args : list string) : zcommand :=
  match args with
  | [verb; _; _; _; property; ds] => if bool_decide (verb = "get") then GetProp property ds else AnyZfs
  | [verb; setting; ds] =>
      if bool_decide (verb = "set") then
        match Str.cut_prefix "refreservation=" setting ≫= parse_int 64 with Some n => Reserve n ds | None => AnyZfs end
      else AnyZfs
  | _ => AnyZfs
  end.

(** A property prints its value; no reservation prints one of three texts. The commands that are not
    listed may do anything. *)
Definition zprints (property : string) (out : string) (z : zvol) : Prop :=
  (property = "volsize" -> Str.trim_space out = format_int (z_volsize z)) /\
  (property = "refreservation" -> Str.trim_space out = format_int (z_refreservation z) \/
     z_refreservation z = 0 /\ Str.trim_space out ∈ [""; "none"; "-"]).
Definition zran (c : zcommand) (out : string) (ok : bool) (h h' : zhost) : Prop :=
  match c with
  | GetProp property ds => h' = h /\ (ok = true -> exists z, h !! ds = Some z /\ zprints property out z)
  | Reserve n ds => ok = false /\ h' = h \/ exists z, h !! ds = Some z /\ h' = <[ds := mkZvol (z_volsize z) n]> h
  | AnyZfs => True
  end.
Definition zok (a : string * option string) : bool := match a.2 with None => true | Some _ => false end.
Definition zfs_step (h : zhost) (c : ocall) : oanswer c -> zhost -> Prop :=
  match c with
  | Exec cmd args => fun a h' => zran (zline cmd args) a.1 (zok a) h h'
  | _ => fun _ _ => True
  end.

Lemma parse_int_inv bits z n : parse_int bits (format_int z) = Some n -> n = z.
Proof.
  intros H. pose proof (parse_int_range _ _ _ H) as Hr. unfold format_int in H. pose proof (DecimalZ.of_to z) as Hof.
  destruct (Z.to_int z) as [d|d] eqn:E; cbn in H, Hof.
  - rewrite parse_int_unsigned, parse_uint_format, Hof in H by apply StrFacts.uint0_digits. by case_bool_decide; simplify_eq.
  - unfold parse_int in H. rewrite parse_uint_format in H; cbn in H. rewrite Hof in H. by case_bool_decide; simplify_eq.
Qed.

(** A number never prints one of the texts for no reservation. *)
Lemma not_a_number_text z : bool_decide (format_int z = "") || bool_decide (format_int z = "none") || bool_decide (format_int z = "-") = false.
Proof.
  rewrite !orb_false_iff, !bool_decide_eq_false. split_and!.
  - apply format_int_solid.
  - intros H. pose proof (format_int_no "n"%char z ltac:(done) ltac:(done)) as Hn. by rewrite H in Hn.
  - unfold format_int. destruct (Z.to_int z) as [d|d]; cbn; intros H.
    + pose proof (StrFacts.uint0_digits d) as Hd. by rewrite H in Hd.
    + injection H. apply StrFacts.uint0_nonempty.
Qed.

Section Reserved.
Context (Pool ds : string).
Definition everything (h : zhost) : Prop := True.
Definition anywhere (o : option zvol) : Prop := True.
Definition at_ds (h : zhost) : option zvol := h !! ds.
Definition reserved (o : option zvol) : Prop := exists z, o = Some z /\ z_volsize z <= z_refreservation z.
Definition has_size (n : Z) (o : option zvol) : Prop := parse_int 64 (format_int n) = Some n /\ exists z, o = Some z /\ z_volsize z = n.
Definition has_both (n m : Z) (o : option zvol) : Prop := parse_int 64 (format_int n) = Some n /\ exists z, o = Some z /\ z_volsize z = n /\ z_refreservation z = m.
Definition on_success {A} (Q : A -> option zvol -> Prop) (r : result storage_err A) (o : option zvol) : Prop :=
  match r with Ok a => Q a o | Err _ => True end.

Notation T := (triple zfs_step everything at_ds anywhere).

(** A command after which nothing is known. *)
Lemma after_any {A} (m : prog oanswer A) : T anywhere m (fun _ => anywhere).
Proof. induction m as [a|c k IH]; [done|]. exists (fun _ => anywhere). by split_and!. Qed.

Lemma triple_get property P (Q : string -> option zvol -> Prop) :
  (forall out z, P (Some z) -> zprints property out z -> Q out (Some z)) ->
  T P (must "zfs" (get_args property ds)) (on_success Q).
Proof.
  intros HQ. exists (fun a o => match a with (out, None) => Q out o | _ => True end). split_and!; [|done|by intros [out [e|]] s Hs].
  intros h [out err] h' _ HP Hr. split; [done|]. destruct err as [e|]; [done|].
  change (h' = h /\ (true = true -> exists z, h !! ds = Some z /\ zprints property out z)) in Hr.
  destruct Hr as [-> Hr]. destruct (Hr eq_refl) as (z & Hz & Hp). unfold at_ds in *. rewrite Hz in *. by apply HQ.
Qed.

Lemma datasetVolsize_ok : T anywhere (datasetVolsize ds) (on_success has_size).
Proof.
  eapply run_kbind with (R := on_success (fun out o => exists z, o = Some z /\ Str.trim_space out = format_int (z_volsize z))); [| |done].
  { apply triple_get. intros out z _ [Hv _]. exists z. split; [done|]. by apply Hv. }
  intros out. cbn zeta. case_bool_decide; [by intros s ?|]. destruct (parse_int 64 (Str.trim_space out)) as [n|] eqn:Hn; [|by intros s ?].
  intros s (z & -> & Hz). rewrite Hz in Hn. pose proof Hn as ->%parse_int_inv. split; [done|by exists z].
Qed.

Lemma datasetRefreservation_ok n : T (has_size n) (datasetRefreservation ds) (on_success (has_both n)).
Proof.
  set (text := fun out z => Str.trim_space out = format_int (z_refreservation z) \/ z_refreservation z = 0 /\ Str.trim_space out ∈ [""; "none"; "-"]).
  eapply run_kbind with (R := on_success (fun out o => parse_int 64 (format_int n) = Some n /\ exists z, o = Some z /\ z_volsize z = n /\ text out z)); [| |done].
  { apply triple_get. intros out z (Hi & z' & [= <-] & Hv) [_ Hr]. split; [done|]. exists z. split_and!; [done..|]. by apply Hr. }
  intros out. cbn zeta.
  destruct (bool_decide (Str.trim_space out = "") || bool_decide (Str.trim_space out = "none") || bool_decide (Str.trim_space out = "-")) eqn:He.
  - intros s (Hi & z & -> & Hv & Ht). split; [done|]. exists z. split_and!; [done..|]. destruct Ht as [Ht|[Ht _]]; [|done].
    rewrite Ht in He. by rewrite not_a_number_text in He.
  - destruct (parse_int 64 (Str.trim_space out)) as [m|] eqn:Hm; [|by intros s ?].
    intros s (Hi & z & -> & Hv & Ht). split; [done|]. exists z. split_and!; [done..|]. destruct Ht as [Ht|[_ Ht]].
    + rewrite Ht in Hm. by apply parse_int_inv in Hm.
    + apply orb_false_iff in He as [[H1 H2]%orb_false_iff H3]. rewrite !bool_decide_eq_false in *. set_solver.
Qed.

Lemma reserves n : T (has_size n) (must "zfs" (reserve_args n ds)) (on_success (fun _ => reserved)).
Proof.
  exists (fun a o => match a with (_, None) => reserved o | _ => True end). split_and!; [|done|by intros [out [e|]] s Hs].
  intros h [out err] h' _ (Hi & z & Hz & Hn) Hr. split; [done|]. destruct err as [e|]; [done|].
  change (zran (match parse_int 64 (format_int n) with Some n => Reserve n ds | None => AnyZfs end) out true h h') in Hr.
  rewrite Hi in Hr. destruct Hr as [[? _]|(z' & Hz' & ->)]; [done|]. unfold at_ds in *. rewrite lookup_insert_eq. simplify_eq.
  eexists. split; [done|]. done.
Qed.

Lemma ensureRefreservation_ok : T anywhere (ensureRefreservation false ds) (on_success (fun _ => reserved)).
Proof.
  unfold ensureRefreservation. eapply run_kbind; [apply datasetVolsize_ok| |done]. intros n.
  eapply run_kbind; [apply datasetRefreservation_ok| |done]. intros m. case_bool_decide as Hle.
  - intros s (Hi & z & -> & <- & <-). by exists z.
  - eapply run_kbind; [eapply triple_pre, reserves| |done]; [intros s (Hi & z & -> & ? & _); split; [done|by exists z]|]. by intros ? s Hs.
Qed.

End Reserved.

Section Operations.
Context (Pool : string).
Notation T ds := (triple zfs_step everything (at_ds ds) anywhere).

Lemma CreateVolume_reserves vol : T (volumeDataset Pool vol) anywhere (CreateVolume Pool false vol) (on_success (fun _ => reserved)).
Proof.
  eapply run_bind; [apply after_any|]. intros []; [apply ensureRefreservation_ok|].
  eapply run_kbind; [apply after_any| |done]. intros ?. apply ensureRefreservation_ok.
Qed.

Lemma ResizeVolume_reserves vol : T (volumeDataset Pool vol) anywhere (ResizeVolume Pool false vol) (on_success (fun _ => reserved)).
Proof. eapply run_kbind; [apply after_any| |done]. intros ?. apply ensureRefreservation_ok. Qed.

Lemma RestoreVolumeFromSnapshot_reserves vol snap :
  T (volumeDataset Pool vol) anywhere (RestoreVolumeFromSnapshot Pool false vol snap) (on_success (fun _ => reserved)).
Proof.
  eapply run_bind; [apply after_any|]. intros []; [apply ensureRefreservation_ok|].
  eapply run_bind; [apply after_any|]. intros []; cbn [negb]; [|by intros s ?].
  eapply run_kbind; [apply after_any| |done]. intros ?. apply ensureRefreservation_ok.
Qed.

Lemma RecvSnapshot_reserves vol : T (volumeDataset Pool vol) anywhere (RecvSnapshot Pool false vol) (on_success (fun _ => reserved)).
Proof.
  eapply run_bind; [apply after_any|]. intros []; [apply ensureRefreservation_ok|].
  eapply run_bind; [apply after_any|]. intros [out [e|]]; [|apply ensureRefreservation_ok].
  eapply run_bind; [apply after_any|]. by intros ? s ?.
Qed.

(** The operations that make or grow a volume. *)
Inductive makes (vol : Volume) : sprog unit -> Prop :=
| makes_create : makes vol (CreateVolume Pool false vol)
| makes_resize : makes vol (ResizeVolume Pool false vol)
| makes_restore snap : makes vol (RestoreVolumeFromSnapshot Pool false vol snap)
| makes_recv : makes vol (RecvSnapshot Pool false vol).

(** Whatever the pool looked like, and whatever the commands that create, clone or receive a data set
    do and however often they were interrupted before: when creating, resizing, restoring or receiving
    a volume of a pool without thin provisioning returns without an error, the volume exists and its
    reservation is at least its size. *)
Theorem thick_volumes_are_reserved vol p h h' :
  makes vol p ->
  attempt zfs_step (fun h1 h2 => h2 !! volumeDataset Pool vol = h1 !! volumeDataset Pool vol) p h (Some (Ok tt)) h' ->
  exists z, h' !! volumeDataset Pool vol = Some z /\ z_volsize z <= z_refreservation z.
Proof.
  intros Hm Ha. assert (T (volumeDataset Pool vol) anywhere p (on_success (fun _ => reserved))) as HT.
  { destruct Hm; eauto using CreateVolume_reserves, ResizeVolume_reserves, RestoreVolumeFromSnapshot_reserves, RecvSnapshot_reserves. }
  eapply (triple_sound _ _ everything (at_ds (volumeDataset Pool vol)) anywhere) in Ha as (_ & _ & HQ); [|done|exact HT|done..].
  by apply (HQ (Ok tt)).
Qed.

End Operations.

(** A volume is grown; the reservation was never set. *)
Definition small : zhost := {["tank/pvc-1_00000" := mkZvol 1048576 0]}.
Definition grown : zhost := {["tank/pvc-1_00000" := mkZvol 2097152 0]}.
Definition covered : zhost := {["tank/pvc-1_00000" := mkZvol 2097152 2097152]}.
Definition grow_to : Volume := mkVolume "tank" "pvc-1" 0 2048.

Lemma zfs_call {A} out err cmd args others h h1 h2 (k : _ -> prog oanswer A) r :
  zran (zline cmd args) out (zok (out, err)) h h1 -> attempt zfs_step others (k (out, err)) h1 r h2 ->
  attempt zfs_step others (Do (Exec cmd args) k) h r h2.
Proof. intros Hr Hk. by eapply (attempt_call _ _ (Exec cmd args) k h (out, err) h1). Qed.

Lemma grows : attempt zfs_step (fun h1 h2 => h2 !! volumeDataset "tank" grow_to = h1 !! volumeDataset "tank" grow_to)
  (ResizeVolume "tank" false grow_to) small (Some (Ok tt)) covered.
Proof.
  apply (zfs_call "" None _ _ _ _ grown); [exact I|].
  apply (zfs_call "2097152" None _ _ _ _ grown).
  { split; [done|]. intros _. exists (mkZvol 2097152 0). split; [exact (lookup_singleton_eq _ _)|]. by split. }
  apply (zfs_call "none" None _ _ _ _ grown).
  { split; [done|]. intros _. exists (mkZvol 2097152 0). split; [exact (lookup_singleton_eq _ _)|]. split; [done|]. intros _. right. split; [done|]. set_solver. }
  apply (zfs_call "" None _ _ _ _ covered); [|apply attempt_done].
  right. exists (mkZvol 2097152 0). change (volumeDataset "tank" grow_to) with "tank/pvc-1_00000". unfold grown, covered.
  split; [by rewrite lookup_singleton_eq|]. by rewrite insert_singleton.
Qed.

Lemma thick_volumes_are_reserved_witness :
  exists z, covered !! volumeDataset "tank" grow_to = Some z /\ z_volsize z <= z_refreservation z.
Proof. apply (thick_volumes_are_reserved "tank" grow_to _ small covered (makes_resize "tank" grow_to)). apply grows. Defined.
