(* ===== verification/FileProps.v ===== *)
(** * Files that are received and files that are copied

    A stream is received into a file of another name, which is renamed when it is complete: however
    often that is interrupted, a file under the name of a volume is whole. A restore on the same node
    copies straight to the name of the volume, and trusts whatever it finds there. *)

From S2P Require Import Prelude Prog GoStrings Storage.
Import File.

(** The bytes written to each file; the space that was set aside before does not count. *)
Notation files := (gmap string (list Z)).

Section Files.
Context (stream : list Z).

(** [cp] has the source and the target last; a failed one leaves anything behind. *)
Definition copied (args : list string) (ok : bool) (h h' : files) : Prop :=
  match rev args with
  | dst :: src :: _ =>
      ok = false /\ (h' = h \/ exists d, h' = <[dst := d]> h) \/ exists d, h !! src = Some d /\ h' = <[dst := d]> h
  | _ => ok = false /\ h' = h
  end.
Definition is_ok {A} (r : result file_err A) : bool := match r with Ok _ => true | Err _ => false end.
Definition file_step (h : files) (c : ocall) : oanswer c -> files -> Prop :=
  match c with
  | Exec cmd args => fun a h' => if bool_decide (cmd = "cp") then copied args (match a.2 with None => true | _ => false end) h h' else h' = h
  | Stat path => fun a h' => h' = h /\ match a with Ok _ => is_Some (h !! path) | Err NotExist => h !! path = None | Err FileFailed => True end
  | Remove path => fun a h' => h' = delete path h \/ is_ok a = false /\ h' = h
  | CreateExclusive path => fun a h' => h !! path = None /\ h' = <[path := []]> h \/ is_ok a = false /\ h' = h
  | CopyInto path => fun a h' => if is_ok a then h' = <[path := stream]> h else exists d, h' = <[path := d]> h
  | Rename from to => fun a h' => (exists d, h !! from = Some d /\ h' = <[to := d]> (delete from h)) \/ is_ok a = false /\ h' = h
  | _ => fun _ h' => h' = h
  end.

End Files.

Section Receive.
Context (Dir : string) (thin : bool) (target : Volume) (stream : list Z).
Notation final := (volumePath Dir target).
Notation partial := (final +:+ ".partial").

Definition both_files (h : files) : option (list Z) * option (list Z) := (h !! final, h !! partial).
Definition any_files (h : files) : Prop := True.
Definition whole (s : option (list Z) * option (list Z)) : Prop := forall d, s.1 = Some d -> d = stream.
Definition whole_partial (s : option (list Z) * option (list Z)) : Prop := whole s /\ s.2 = Some stream.
Definition arrived (s : option (list Z) * option (list Z)) : Prop := s.1 = Some stream.

Notation T := (triple (file_step stream) any_files both_files whole).
Notation ending := (fun r s => match r : result storage_err unit with Ok _ => arrived s | Err _ => whole s end).

Lemma partial_differs : partial <> final.
Proof. intros H%(f_equal String.length). rewrite StrFacts.length_app_str in H. cbn in H. lia. Qed.
Lemma arrived_whole s : arrived s -> whole s.
Proof. intros H d Hd. congruence. Qed.
#[local] Hint Resolve partial_differs not_eq_sym arrived_whole : core.

(** Calls that leave both files alone. *)
Lemma triple_still {A} (P : option (list Z) * option (list Z) -> Prop) (m : prog oanswer A) :
  (forall s, P s -> whole s) -> only (fun c => forall h a h', file_step stream h c a h' -> h' = h) m -> T P m (fun _ => P).
Proof.
  intros HJ. induction m as [a|c k IH]; [by intros _ s|]. intros [Hc Hk]. exists (fun _ => P). split_and!; [|by auto|by auto].
  intros h a h' _ HP Hs. by rewrite (Hc _ _ _ Hs).
Qed.

Lemma attach_still path : only (fun c => forall h a h', file_step stream h c a h' -> h' = h) (attach path).
Proof.
  unfold attach, lookupLoop, must. repeat (apply only_bind; [|intros ?]); try (split; [by intros|done]).
  - destruct a as [out [e|]]; done.
  - destruct a as [|]; [|done]. done.
  - destruct a as [dev|]; [|done]. case_bool_decide; cbn [negb]; [|split; [by intros|done]].
    split; [by intros|]. intros [out [e|]]; [done|]. cbn. by case_bool_decide.
Qed.

Lemma attaches {B} (P : option (list Z) * option (list Z) -> Prop) path (b : B) (Q : result storage_err B -> option (list Z) * option (list Z) -> Prop) :
  (forall s, P s -> whole s) -> (forall s, P s -> Q (Ok b) s /\ forall e, Q (Err e) s) -> T P (_ ←! attach path; done_with b) Q.
Proof.
  intros HJ HQ. eapply run_kbind; [apply triple_still; [exact HJ|apply attach_still]| |].
  - intros ? s Hs. by apply HQ.
  - intros e s Hs. by apply HQ.
Qed.

Lemma triple_one {c} (P : option (list Z) * option (list Z) -> Prop) (R : oanswer c -> option (list Z) * option (list Z) -> Prop) :
  (forall h a h', P (both_files h) -> file_step stream h c a h' -> R a (both_files h')) -> (forall a s, R a s -> whole s) -> T P (osys c) R.
Proof. intros Hs HJ. exists R. split_and!; [|done|by intros a s]. intros h a h' _ HP Hr. split; [done|]. by eapply Hs. Qed.

(** Only the partial file changes. *)
Lemma partial_deleted h : whole (both_files h) -> whole (both_files (delete partial h)).
Proof. intros HP d Hd. cbn in Hd. rewrite lookup_delete_ne in Hd by auto. by apply HP. Qed.
Lemma partial_written h d : whole (both_files h) -> whole (both_files (<[partial := d]> h)).
Proof. intros HP d' Hd. cbn in Hd. rewrite lookup_insert_ne in Hd by auto. by apply HP. Qed.
#[local] Hint Resolve partial_deleted partial_written : core.

Lemma removes_partial : T whole (osys (Remove partial)) (fun _ => whole).
Proof. apply triple_one; [|done]. intros h a h' HP [-> |[_ ->]]; auto. Qed.
Lemma remove_file_ok : T whole (remove_file partial) (fun _ => whole).
Proof. eapply run_bind; [apply removes_partial|]. by intros [?|[]] s. Qed.
Lemma drop_partial_ok : T whole (drop_partial partial) ending.
Proof. eapply run_bind; [apply removes_partial|]. by intros ? s. Qed.

Lemma streams : T whole (osys (CopyInto partial)) (fun a s => if is_ok a then whole_partial s else whole s).
Proof.
  apply triple_one; [|by intros a s; destruct (is_ok a); [intros []|]].
  intros h a h' HP Hs. cbn in Hs. destruct (is_ok a); [subst h'|by destruct Hs as [d ->]; auto].
  split; [by auto|]. cbn. by rewrite lookup_insert_eq.
Qed.

Lemma closes (P : option (list Z) * option (list Z) -> Prop) : (forall s, P s -> whole s) -> T P (osys (Close partial)) (fun _ => P).
Proof. intros HJ. apply triple_one; [|by auto]. by intros h a h' HP ->. Qed.

Lemma renames : T whole_partial (osys (Rename partial final)) (fun a s => if is_ok a then arrived s else whole s).
Proof.
  apply triple_one; [|by intros a s; destruct (is_ok a); auto].
  intros h a h' [HP Hs] [(d & Hd & ->)|[-> ->]]; [|done]. cbn in Hs. simplify_eq.
  assert (arrived (both_files (<[final := stream]> (delete partial h)))) as Ha by (unfold arrived; cbn; by rewrite lookup_insert_eq).
  destruct (is_ok a); auto.
Qed.

Lemma resumes : T whole (recvSnapshotResumeIfFinal final)
  (fun r s => match r with Ok true => arrived s | _ => whole s end).
Proof.
  eapply run_bind with (R := fun a s => match a with Ok _ => arrived s | Err _ => whole s end).
  - apply triple_one; [|by intros [] s; auto]. intros h [size|[]] h' HP [-> Hs]; [|done..].
    destruct Hs as [d Hd]. unfold arrived. cbn. rewrite Hd. f_equal. by apply HP.
  - intros [size|[]]; [|by intros s..]. apply attaches; [auto|]. auto.
Qed.

Lemma receives_stream : T whole
  (copied ← osys (CopyInto partial);
   closed ← osys (Close partial);
   match copied, closed with
   | Ok _, Ok _ =>
       renamed ← osys (Rename partial final);
       match renamed with
       | Err _ => drop_partial partial
       | Ok _ => _ ←! attach final; done_with tt
       end
   | _, _ => drop_partial partial
   end) ending.
Proof.
  eapply run_bind; [apply streams|]. intros copied.
  eapply run_bind; [apply closes; by intros s; destruct (is_ok copied); [intros []|]|]. intros closed.
  destruct copied as [[]|e]; cbn [is_ok]; [destruct closed as [[]|e]|destruct closed; apply drop_partial_ok].
  - eapply run_bind; [apply renames|]. intros [[]|e]; cbn [is_ok]; [|apply drop_partial_ok]. apply attaches; auto.
  - eapply triple_pre, drop_partial_ok. by intros s [].
Qed.

Lemma RecvSnapshot_whole : T whole (RecvSnapshot Dir thin target) ending.
Proof.
  unfold RecvSnapshot. eapply run_kbind; [apply resumes|intros []|by intros e s]; [by intros s|].
  eapply run_kbind; [apply remove_file_ok|intros u|by intros e s].
  eapply run_bind with (R := fun _ => whole).
  { apply triple_one; [|done]. intros h res h' HP [[_ ->]|[_ ->]]; auto. }
  intros [[]|e]; [|by intros s]. eapply run_bind with (R := fun _ => whole).
  { apply triple_still; [done|]. destruct thin; [done|]. split; [by intros|]. by intros [out [e|]]. }
  intros [?|e]; [apply receives_stream|]. eapply run_bind; [by apply closes|]. intros ?. apply drop_partial_ok.
Qed.

(** Receiving a snapshot into a file, with and without thin provisioning: however often the process
    dies or a call fails on the way, a file under the name of the volume holds the whole stream, and an
    attempt that returns without an error leaves one. *)
Theorem received_files_are_whole h0 h1 :
  h0 !! final = None ->
  attempts (file_step stream) (fun h h' => both_files h' = both_files h) (RecvSnapshot Dir thin target) h0 h1 ->
  whole (both_files h1) /\
  forall h2, attempt (file_step stream) (fun h h' => both_files h' = both_files h) (RecvSnapshot Dir thin target) h1 (Some (Ok tt)) h2 ->
    h2 !! final = Some stream.
Proof.
  intros Hn Ha. assert (forall h h', any_files h -> both_files h' = both_files h -> any_files h' /\ both_files h' = both_files h) as Hkeep by done.
  destruct (attempts_keep _ _ _ _ _ Hkeep _ _ _ _ RecvSnapshot_whole Ha) as [_ HJ]; [done|intros d Hd; cbn in Hd; congruence|].
  split; [done|]. intros h2 Hr. destruct (triple_sound _ _ _ _ _ Hkeep _ _ _ _ Hr _ _ RecvSnapshot_whole ltac:(done)) as (_ & _ & HQ); [done..|].
  by apply (HQ (Ok tt)).
Qed.

End Receive.

(** ** Runs *)

Definition a_target : Volume := mkVolume "pool" "pvc-2" 0 4.
Definition a_snapshot : Snapshot := mkSnapshot "pool" "pvc-1" "s1".
Definition the_bytes : list Z := [1; 2; 3].
Definition some_bytes : list Z := [1].
Definition only_the_snapshot : files := {["/pool/pvc-1_s1_00000.img" := the_bytes]}.
Definition disk_was_full : files := <["/pool/pvc-2_00000.img" := some_bytes]> only_the_snapshot.

Notation alone := (fun h h' : files => h' = h).
Notation runs := (attempt (file_step the_bytes) alone).

Lemma run_call {A} c a h h1 h2 (k : _ -> prog oanswer A) r :
  file_step the_bytes h c a h1 -> runs (k a) h1 r h2 -> runs (Do c k) h r h2.
Proof. apply attempt_call. Qed.

(** Restoring a snapshot into a file on the same node copies straight to the file of the volume. When
    the copy fails half way, for example because the disk is full, the attempt reports it; the next
    attempt finds the file, attaches it and reports success, with part of the data. *)
Theorem failed_copy_is_trusted thin :
  runs (RestoreVolumeFromSnapshot "/pool" thin a_target a_snapshot) only_the_snapshot (Some (Err SFailed)) disk_was_full /\
  runs (RestoreVolumeFromSnapshot "/pool" thin a_target a_snapshot) disk_was_full (Some (Ok tt)) disk_was_full /\
  disk_was_full !! volumePath "/pool" a_target = Some some_bytes /\
  disk_was_full !! snapshotPath "/pool" a_snapshot = Some the_bytes.
Proof.
  split_and!; [| |by vm_compute..].
  - eapply (run_call (Stat _) (Err NotExist)); [split; [done|by vm_compute]|].
    eapply (run_call (Stat _) (Ok 3)); [split; [done|by eexists]|].
    eapply (run_call (Exec "cp" _) ("", Some "No space left on device")); [|apply attempt_done].
    destruct thin; left; (split; [done|]); right; by exists some_bytes.
  - eapply (run_call (Stat _) (Ok 1)); [split; [done|by eexists]|].
    eapply (run_call (Exec "losetup" _) ("/dev/loop0: []", None)); [done|].
    eapply (run_call (Exec "losetup" _) ("", None)); [done|]. apply attempt_done.
Qed.

(** Growing a volume in a file, when the file already has the new size because an earlier attempt died
    after it grew the file: the loop device is not told, and the attempt reports success while the
    device still has the old size. *)
Theorem retried_resize_skips_the_loop Dir thin vol size : size_bytes vol <= size ->
  exists k, ResizeVolume Dir thin vol = Do (Stat (volumePath Dir vol)) k /\
    only (fun c => forall args, c <> Exec "losetup" args) (k (Ok size)) /\
    (thin = true -> k (Ok size) = Ret (Ok tt)).
Proof.
  intros Hs. eexists. split; [reflexivity|]. cbn beta iota. rewrite bool_decide_eq_true_2 by done. split; [|by intros ->].
  destruct thin; [done|]. split; [by intros args [= ? _]|]. by intros [out [e|]].
Qed.

Lemma retried_resize_skips_the_loop_witness : exists k,
  ResizeVolume "/pool" true a_target = Do (Stat (volumePath "/pool" a_target)) k /\
    only (fun c => forall args, c <> Exec "losetup" args) (k (Ok 4096)) /\ (true = true -> k (Ok 4096) = Ret (Ok tt)).
Proof. apply (retried_resize_skips_the_loop "/pool" true a_target 4096). by vm_compute. Defined.

(** The stream broke off. *)
Definition half_streamed : files := {["/pool/pvc-2_00000.img.partial" := some_bytes]}.
Lemma streamed_once : attempts (file_step the_bytes) (fun h h' => both_files "/pool" a_target h' = both_files "/pool" a_target h)
  (RecvSnapshot "/pool" true a_target) ∅ half_streamed.
Proof.
  eapply attempts_more; [|apply attempts_none].
  eapply (attempt_call _ _ (Stat _) _ _ (Err NotExist)); [split; [done|by vm_compute]|].
  eapply (attempt_call _ _ (Remove _) _ _ (Err NotExist)); [by right|].
  eapply (attempt_call _ _ (CreateExclusive _) _ _ (Ok tt)); [left; split; [done|reflexivity]|].
  eapply (attempt_call _ _ (CopyInto _) _ _ (Err FileFailed)); [by exists some_bytes|].
  rewrite insert_insert_eq. apply attempt_crash.
Qed.

Lemma received_files_are_whole_witness :
  whole the_bytes (both_files "/pool" a_target half_streamed) /\
  forall h2, attempt (file_step the_bytes) (fun h h' => both_files "/pool" a_target h' = both_files "/pool" a_target h)
    (RecvSnapshot "/pool" true a_target) half_streamed (Some (Ok tt)) h2 -> h2 !! volumePath "/pool" a_target = Some the_bytes.
Proof. apply (received_files_are_whole "/pool" true a_target the_bytes ∅ half_streamed); [by vm_compute|apply streamed_once]. Defined.
