(* ===== verification/Upkeep.v ===== *)
(** * Schedules, labels, projections and the sweeper of kernel resources

    Models the small controllers that keep the cluster in order: the snapshot schedules
    ([internal/controller/autosnapshot_controller.go]), the copy of node labels into properties
    ([node_label_sync_controller.go]), the projection of an unknown state over the replicas of a
    node that is offline ([resource_state_projection_controller.go]), and on every node the sweeper of
    DRBD resources and configuration files that nothing owns
    ([pkg/satellite/controllers/sweeper.go], [sweeper_resfile.go]). *)

From S2P Require Import Prelude Prog Api Kube GoTime GoStrings Snapshots.

(** ** Calls *)

Inductive uerr := UNotFound | UConflict | UExists | UInUse | UFailed.

(** What the schedules read of a resource definition, with the version the API server gave it. *)
Record ScheduledRD := mkScheduledRD {
  sr_Name : string;
  sr_Version : nat;
  sr_Deleting : bool;
  sr_Props : gmap string string;
  sr_Annotations : gmap string string;
  sr_Volumes : list (Z * Z);
}.

(** A replica and a node, as the projection and the sweeper read them. *)
Record ProjectedResource := mkProjectedResource { pj_Name : string; pj_Deleting : bool; pj_NodeName : string; pj_DrbdState : string }.

Inductive ucall :=
| ListDefinitionsU
| GetDefinitionU (name : string)
| UpdateDefinitionU (rd : ScheduledRD)
| CreateSnapshotU (labels : gmap string string) (x : SnapshotCR)
| ListSnapshotsU (labels : gmap string string)
| DeleteSnapshotU (name : string)
(** [store.DeleteSnapshot] *)
| StoreDeleteSnapshotU (rd snap : string)
(** Definitions and the snapshot they are restored from. *)
| ListRestoredFromU
| NowU
(** The labels of the Kubernetes node; type and properties of the blockstor node. *)
| KubeLabels (node : string)
| NodePropsU (node : string)
| ApplyNodeProps (node type : string) (props : gmap string string)
| GetResourceU (name : string)
| ConnectionStatusU (node : string)
(** Server-side apply of the status under the projection's own name. *)
| ApplyUnknown (name : string)
| ApplyNothing (name : string)
| NodeAnnotationU (node key : string)
| StatusResources
| ListResourcesU
(** Definitions with their creation and deletion times. *)
| ListAges
| StatU (path : string)
| ReadDirU (dir : string)
| RemoveU (path : string)
| SetupDownU (rsc : string)
| IsLoadedU (rsc : string).

Definition uanswer (c : ucall) : Type :=
  match c with
  | ListDefinitionsU => result uerr (list ScheduledRD)
  | GetDefinitionU _ => result uerr ScheduledRD
  | ListSnapshotsU _ => result uerr (list SnapshotCR)
  | ListRestoredFromU => result uerr (list string)
  | NowU => Z
  | KubeLabels _ => result uerr (gmap string string)
  | NodePropsU _ => result uerr (string * gmap string string)
  | GetResourceU _ => result uerr ProjectedResource
  | ConnectionStatusU _ => result uerr string
  | NodeAnnotationU _ _ => result uerr (option string)
  | StatusResources => result uerr (list string)
  | ListResourcesU => result uerr (list (string * string))
  | ListAges => result uerr (list (string * Z * option Z))
  | ReadDirU _ => result uerr (list (string * bool))
  | IsLoadedU _ => bool
  | _ => result uerr unit
  end.
Notation uprog A := (prog uanswer (result uerr A)).
Definition act (c : ucall) : prog uanswer (uanswer c) := Do c Ret.

(** ** Snapshot schedules *)

Module AutoSnapshot.

Definition PropAutoSnapshotRunEvery : string := "AutoSnapshot/RunEvery".
Definition PropAutoSnapshotKeep : string := "AutoSnapshot/Keep".
Definition PropAutoSnapshotNextID : string := "AutoSnapshot/NextAutoId".
Definition DefaultAutoSnapshotKeep : Z := 10.
Definition AutoSnapshotPrefix : string := "auto-snap-".
Definition AnnotationAutoSnapshotLastAt : string := "blockstor.io/auto-snapshot-last-at".
Definition LabelAutoSnapshot : string := "blockstor.io/auto-snapshot".
Definition labelResourceDefinition : string := "blockstor.io/resource-definition".

Definition parsePositiveDurationMinutes (raw : string) : option Z :=
  if bool_decide (raw = "") then None
  else match parse_int 64 raw with
       | Some n => if bool_decide (n <= 0) then None else Some (wrap64 (n * (60 * second)))
       | None => None
       end.

Definition nextAutoSnapshotID (rd : ScheduledRD) : result uerr Z :=
  match sr_Props rd !! PropAutoSnapshotNextID with
  | None | Some "" => Ok 1
  | Some raw =>
      match parse_int 64 raw with
      | None => Err UFailed
      | Some n => Ok (if bool_decide (n < 1) then 1 else n)
      end
  end.

Definition formatAutoSnapshotName (id : Z) : string := AutoSnapshotPrefix +:+ pad5 id.

Definition readLastAutoSnapshotAt (rd : ScheduledRD) : option Z :=
  match sr_Annotations rd !! AnnotationAutoSnapshotLastAt with
  | None | Some "" => None
  | Some raw => parse_rfc3339 raw
  end.

Definition volumeRefsFromRD (rd : ScheduledRD) : list SnapshotVolumeRef := (fun v => mkVolumeRef v.1 v.2) <$> sr_Volumes rd.

Section Schedules.
(** Whether the store is wired in; the order [sort.Slice] gives to the snapshots. *)
Context (has_store : bool) (by_creation : list SnapshotCR -> list SnapshotCR).

Definition auto_labels (rd : ScheduledRD) (snapName : string) : gmap string string :=
  <[labelResourceDefinition := sr_Name rd]> (<["blockstor.io/snapshot-name" := snapName]> {[LabelAutoSnapshot := labelTrueValue]}).
Definition auto_snapshot (rd : ScheduledRD) (snapName : string) : SnapshotCR :=
  mkSnapshotCR (sr_Name rd +:+ "." +:+ snapName) 0 false None [] ∅ ""
    (mkSnapSpec (sr_Name rd) snapName [] (volumeRefsFromRD rd) false false "" 0) (mkSnapStatus [] [] []).
Definition createAutoSnapshot (rd : ScheduledRD) (snapName : string) : uprog unit :=
  r ← act (CreateSnapshotU (auto_labels rd snapName) (auto_snapshot rd snapName));
  match r with Ok _ | Err UExists => done_with tt | Err e => failed_with e end.

Definition stamped (rd : ScheduledRD) (nextID now : Z) : ScheduledRD :=
  mkScheduledRD (sr_Name rd) (sr_Version rd) (sr_Deleting rd) (<[PropAutoSnapshotNextID := format_int nextID]> (sr_Props rd))
    (<[AnnotationAutoSnapshotLastAt := format_rfc3339nano now]> (sr_Annotations rd)) (sr_Volumes rd).
(** [retry.DefaultRetry] makes five attempts. *)
Fixpoint stamp (retries : nat) (rd : ScheduledRD) (nextID now : Z) : uprog unit :=
  fresh ← act (GetDefinitionU (sr_Name rd));
  r ← match fresh with Ok fresh => act (UpdateDefinitionU (stamped fresh nextID now)) | Err e => Ret (Err e) end;
  match r, retries with
  | Ok _, _ => done_with tt
  | Err UConflict, S n => stamp n rd nextID now
  | Err e, _ => failed_with e
  end.
Definition stampRDAfterCreate (rd : ScheduledRD) (nextID now : Z) : uprog unit := stamp 4 rd nextID now.

Definition restoreReadsFrom (rdName snapName : string) : uprog bool :=
  rds ←! act ListRestoredFromU;
  done_with (existsb (fun from => Str.equal_fold from (rdName +:+ ":" +:+ snapName)) rds).

Definition pruneAutoSnapshot (rdName : string) (snap : SnapshotCR) : uprog unit :=
  if has_store then
    r ← act (StoreDeleteSnapshotU rdName (ss_SnapshotName (sc_Spec snap)));
    match r with Ok _ | Err UInUse | Err UNotFound => done_with tt | Err e => failed_with e end
  else
    inUse ←! restoreReadsFrom rdName (ss_SnapshotName (sc_Spec snap));
    if inUse : bool then done_with tt
    else
      r ← act (DeleteSnapshotU (sc_Name snap));
      match r with Ok _ | Err UNotFound => done_with tt | Err e => failed_with e end.

Fixpoint prune_each (rdName : string) (snaps : list SnapshotCR) : uprog unit :=
  match snaps with
  | [] => done_with tt
  | snap :: rest =>
      if sc_Deleting snap then prune_each rdName rest
      else _ ←! pruneAutoSnapshot rdName snap; prune_each rdName rest
  end.

Definition keep_of (rd : ScheduledRD) : result uerr Z :=
  match sr_Props rd !! PropAutoSnapshotKeep with
  | None => Ok DefaultAutoSnapshotKeep
  | Some raw =>
      match parse_int 64 raw with
      | None => Err UFailed
      | Some n => Ok (if bool_decide (0 < n) then n else DefaultAutoSnapshotKeep)
      end
  end.
Definition auto_selector (rd : ScheduledRD) : gmap string string :=
  <[labelResourceDefinition := sr_Name rd]> {[LabelAutoSnapshot := labelTrueValue]}.
Definition pruneOldAutoSnapshots (rd : ScheduledRD) : uprog unit :=
  keep ←! Ret (keep_of rd);
  snaps ←! act (ListSnapshotsU (auto_selector rd));
  if bool_decide (Z.of_nat (length snaps) <= keep) then done_with tt
  else prune_each (sr_Name rd) (take (length snaps - Z.to_nat keep) (by_creation snaps)).

Definition processRD (rd : ScheduledRD) (runEvery now : Z) : uprog unit :=
  if match readLastAutoSnapshotAt rd with Some lastAt => bool_decide (now - lastAt < runEvery) | None => false end
  then pruneOldAutoSnapshots rd
  else
    id ←! Ret (nextAutoSnapshotID rd);
    _ ←! createAutoSnapshot rd (formatAutoSnapshotName id);
    _ ←! stampRDAfterCreate rd (wrap64 (id + 1)) now;
    pruneOldAutoSnapshots rd.

Fixpoint process_each (rds : list ScheduledRD) (now : Z) : uprog unit :=
  match rds with
  | [] => done_with tt
  | rd :: rest =>
      if sr_Deleting rd then process_each rest now
      else match parsePositiveDurationMinutes (default "" (sr_Props rd !! PropAutoSnapshotRunEvery)) with
           | None => process_each rest now
           | Some runEvery => _ ← processRD rd runEvery now; process_each rest now
           end
  end.
Definition Tick : uprog unit :=
  rds ←! act ListDefinitionsU;
  now ← act NowU;
  process_each rds now.

End Schedules.
End AutoSnapshot.

(** ** Labels of nodes *)

Module LabelSync.

Definition syncedLabelPrefixes : list string := ["topology.kubernetes.io/"; "node-role.kubernetes.io/"].
Definition syncedLabelExactKeys : list string := ["kubernetes.io/hostname"].
Definition isSyncedLabel (key : string) : bool :=
  bool_decide (key ∈ syncedLabelExactKeys) || existsb (fun p => Str.has_prefix p key) syncedLabelPrefixes.
(** [Aux/<label>] of a label that is copied *)
Definition is_synced_prop (k : string) : bool := match Str.cut_prefix "Aux/" k with Some suffix => isSyncedLabel suffix | None => false end.

Definition desiredAuxFromLabels (labels : gmap string string) : gmap string string :=
  list_to_map ((fun kv => ("Aux/" +:+ kv.1, kv.2)) <$> filter (fun kv => isSyncedLabel kv.1 = true) (map_to_list labels)).
Definition currentSyncedAux (props : gmap string string) : gmap string string := filter (fun kv => is_synced_prop kv.1 = true) props.
Definition mergeProps (existing desired : gmap string string) : gmap string string :=
  desired ∪ filter (fun kv => is_synced_prop kv.1 = false) existing.

Definition Reconcile (name : string) : uprog unit :=
  labels ← act (KubeLabels name);
  match labels with
  | Err UNotFound => done_with tt
  | Err e => failed_with e
  | Ok labels =>
      node ← act (NodePropsU name);
      match node with
      | Err UNotFound => done_with tt
      | Err e => failed_with e
      | Ok (type, props) =>
          let desired := desiredAuxFromLabels labels in
          if bool_decide (desired = currentSyncedAux props) then done_with tt
          else act (ApplyNodeProps name type (mergeProps props desired))
      end
  end.

End LabelSync.

(** ** The state of replicas on a node that is offline *)

Module Projection.

Definition drbdStateUnknown : string := "Unknown".
Definition NodeConnectionStatusOffline : string := "OFFLINE".

Definition projectUnknown (res : ProjectedResource) : uprog unit :=
  if bool_decide (pj_DrbdState res = drbdStateUnknown) then done_with tt else act (ApplyUnknown (pj_Name res)).
Definition releaseClaim (res : ProjectedResource) : uprog unit :=
  if negb (bool_decide (pj_DrbdState res = drbdStateUnknown)) then done_with tt else act (ApplyNothing (pj_Name res)).

Definition Reconcile (name : string) : uprog unit :=
  r ← act (GetResourceU name);
  match r with
  | Err UNotFound => done_with tt
  | Err e => failed_with e
  | Ok res =>
      if pj_Deleting res then done_with tt
      else if bool_decide (pj_NodeName res = "") then done_with tt
      else
        status ← act (ConnectionStatusU (pj_NodeName res));
        match status with
        | Err UNotFound => done_with tt
        | Err e => failed_with e
        | Ok status => if bool_decide (status = NodeConnectionStatusOffline) then projectUnknown res else releaseClaim res
        end
  end.

Definition enqueueResourcesForNode (node : string) : prog uanswer (list string) :=
  r ← act ListResourcesU;
  Ret match r with Err _ => [] | Ok l => (filter (fun x => x.2 = node) l).*1 end.

End Projection.

(** ** The sweeper of kernel resources *)

Module KernelSweeper.

Definition SweeperMaxDownPerCycle : Z := 3.
Definition SweeperRDGrace : Z := 60 * second.
Definition SweeperSkipAnnotation : string := "blockstor.io/skip-orphan-sweeper".
Definition sweeperSkipValue : string := "true".
Definition resFileSuffix : string := ".res".

Inductive sweepDecision := sweepKeep | sweepDefer | sweepTearDown.

Section Sweep.
Context (NodeName StateDir : string) (MaxDownPerCycle RDGrace : Z).

Definition limit : Z := if bool_decide (MaxDownPerCycle = 0) then SweeperMaxDownPerCycle else MaxDownPerCycle.
Definition grace : Z := if bool_decide (RDGrace = 0) then SweeperRDGrace else RDGrace.

Definition shouldSkip : uprog bool :=
  v ←! act (NodeAnnotationU NodeName SweeperSkipAnnotation);
  done_with match v with Some v => bool_decide (v = sweeperSkipValue) | None => false end.
Definition listOwnedResourceNames : uprog (gset string) :=
  l ←! act ListResourcesU;
  done_with (list_to_set ((filter (fun x => x.2 = NodeName) l).*1)).
Definition anchor_of (created : Z) (deleted : option Z) : Z :=
  match deleted with Some d => if bool_decide (created < d) then d else created | None => created end.
Definition listResourceDefinitionAges : uprog (gmap string Z) :=
  l ←! act ListAges;
  done_with (foldl (fun m x => <[x.1.1 := anchor_of x.1.2 x.2]> m) ∅ l).

(** A file that cannot be looked up counts as present. *)
Fixpoint any_file (paths : list string) : prog uanswer bool :=
  match paths with
  | [] => Ret false
  | path :: rest => r ← act (StatU path); match r with Err UNotFound => any_file rest | _ => Ret true end
  end.
Definition state_file (rsc suffix : string) : string := path_join StateDir (rsc +:+ suffix).
Definition blockstorOwnsResFile (rsc : string) : prog uanswer bool := any_file [state_file rsc ".res"; state_file rsc ".owned"].

Definition by_age (ages : gmap string Z) (rsc : string) (now : Z) : sweepDecision :=
  if bool_decide (grace <= 0) then sweepTearDown
  else match ages !! rsc with
       | None => sweepTearDown
       | Some anchor => if bool_decide (now - anchor < grace) then sweepDefer else sweepTearDown
       end.
Definition classifyOrphan (rsc : string) (owned : gset string) (ages : gmap string Z) (now : Z) : prog uanswer sweepDecision :=
  if bool_decide (rsc ∈ owned) then Ret sweepKeep
  else
    ours ← (if bool_decide (StateDir = "") then Ret true else blockstorOwnsResFile rsc);
    Ret (if ours : bool then by_age ages rsc now else sweepKeep).

Fixpoint tear_each (kernel : list string) (owned : gset string) (ages : gmap string Z) (now torn : Z) : prog uanswer unit :=
  match kernel with
  | [] => Ret tt
  | rsc :: rest =>
      decision ← classifyOrphan rsc owned ages now;
      match decision with
      | sweepKeep | sweepDefer => tear_each rest owned ages now torn
      | sweepTearDown =>
          if bool_decide (0 <= limit) && bool_decide (limit <= torn) then Ret tt
          else
            r ← act (SetupDownU rsc);
            tear_each rest owned ages now (match r with Ok _ => torn + 1 | Err _ => torn end)
      end
  end.
Definition tearDownOrphans (kernel : list string) (owned : gset string) (ages : gmap string Z) : prog uanswer unit :=
  now ← act NowU; tear_each kernel owned ages now 0.

(** [strings.TrimSuffix(name, ".res")] of a name that has it. *)
Definition cut_suffix (suffix s : string) : option string := Str.rev <$> Str.cut_prefix (Str.rev suffix) (Str.rev s).
Definition orphanResForRemoval (entries : list (string * bool)) (owned : gset string) (ages : gmap string Z) (now : Z) : list string :=
  omap (fun entry : string * bool =>
    if entry.2 then None
    else match cut_suffix resFileSuffix entry.1 with
         | None => None
         | Some rd =>
             if bool_decide (rd = "") then None
             else if bool_decide (rd ∈ owned) then None
             else if bool_decide (0 < grace) && match ages !! rd with Some anchor => bool_decide (now - anchor < grace) | None => false end then None
             else Some rd
         end) entries.

Definition removeOrphanResFile (rd : string) : prog uanswer unit :=
  loaded ← act (IsLoadedU rd);
  down ← (if loaded : bool then act (SetupDownU rd) else Ret (Ok tt));
  match down with
  | Err _ => Ret tt
  | Ok _ => _ ← act (RemoveU (state_file rd resFileSuffix)); Ret tt
  end.
Fixpoint remove_each_file (rds : list string) : prog uanswer unit :=
  match rds with [] => Ret tt | rd :: rest => _ ← removeOrphanResFile rd; remove_each_file rest end.
Definition sweepOrphanResFiles (owned : gset string) (ages : gmap string Z) : prog uanswer unit :=
  if bool_decide (StateDir = "") then Ret tt
  else
    entries ← act (ReadDirU StateDir);
    match entries with
    | Err _ => Ret tt
    | Ok entries => now ← act NowU; remove_each_file (orphanResForRemoval entries owned ages now)
    end.

Definition sweepOnce : uprog unit :=
  skip ← shouldSkip;
  match skip with
  | Ok true => done_with tt
  | _ =>
      kernel ←! act StatusResources;
      owned ←! listOwnedResourceNames;
      ages ← listResourceDefinitionAges;
      let ages := match ages with Ok m => m | Err _ => ∅ end in
      _ ← (if bool_decide (kernel = []) then Ret tt else tearDownOrphans kernel owned ages);
      _ ← sweepOrphanResFiles owned ages;
      done_with tt
  end.

End Sweep.
End KernelSweeper.
