(* ===== verification/UpkeepProps.v ===== *)
(** * Schedules, labels and the sweeper of kernel resources: properties

    Pruning keeps the newest snapshots; labels are copied exactly; the sweeper takes down only what
    the node does not own. And where it goes wrong: scheduled snapshots are taken nowhere, and the
    limit of the sweeper does not hold. *)

From S2P Require Import Prelude Prog Api Kube GoTime GoStrings Snapshots Upkeep.

(** ** Pruning *)

Section Pruning.
Import AutoSnapshot.
Context (has_store : bool) (by_creation : list SnapshotCR -> list SnapshotCR).

(** [sort.Slice] permutes and sorts; which of two of the same age is first is left open. *)
Definition not_newer (x y : SnapshotCR) : Prop := default 0 (sc_Created x) <= default 0 (sc_Created y).
Context (Hperm : forall l, by_creation l ≡ₚ l) (Hsorted : forall l, StronglySorted not_newer (by_creation l)).

Definition snap_name (x : SnapshotCR) : string := ss_SnapshotName (sc_Spec x).
Definition deleted_by (c : ucall) : option (SnapshotCR -> Prop) :=
  match c with
  | StoreDeleteSnapshotU _ n => Some (fun x => snap_name x = n)
  | DeleteSnapshotU n => Some (fun x => sc_Name x = n)
  | _ => None
  end.
(** A call leaves the given snapshots alone, and what it deletes is listed and not newer than they are. *)
Definition spares (snaps kept : list SnapshotCR) (c : ucall) : Prop :=
  forall target, deleted_by c = Some target ->
    Forall (fun y => ~ target y) kept /\ exists x, x ∈ snaps /\ target x /\ sc_Deleting x = false /\ Forall (not_newer x) kept.
Definition listed_as (snaps : list SnapshotCR) (c : ucall) : uanswer c -> Prop :=
  match c with ListSnapshotsU _ => fun a => a = Ok snaps | _ => fun _ => True end.

Lemma prune_each_spares snaps kept rdName l :
  Forall (fun x => x ∈ snaps /\ Forall (not_newer x) kept /\ Forall (fun y => snap_name y <> snap_name x /\ sc_Name y <> sc_Name x) kept) l ->
  along (listed_as snaps) (spares snaps kept) (prune_each has_store rdName l) (fun _ => True).
Proof.
  induction 1 as [|x l (Hx & Hn & Hk) _ IH]; cbn [prune_each]; [done|]. destruct (sc_Deleting x) eqn:Hd; [done|].
  eapply along_kbind with (R := fun _ => True); [|by intros ? _; apply IH|done].
  assert (forall target, target x -> (forall y, y ∈ kept -> target y -> False) ->
    Forall (fun y => ~ target y) kept /\ exists x, x ∈ snaps /\ target x /\ sc_Deleting x = false /\ Forall (not_newer x) kept) as Hspares.
  { intros target Ht Hy. split; [|by exists x]. apply list.Forall_forall. intros y Hin Hty. exact (Hy y Hin Hty). }
  rewrite list.Forall_forall in Hk. unfold pruneAutoSnapshot. destruct has_store.
  - split; [|by intros [?|[]] _]. intros ? [= <-]. apply Hspares; [done|]. intros y Hin E. exact (proj1 (Hk y Hin) E).
  - split; [done|]. intros [froms|e] _; [|done]. cbn.
    destruct (existsb _ froms); [done|]. split; [|by intros [?|[]] _].
    intros ? [= <-]. apply Hspares; [done|]. intros y Hin E. exact (proj2 (Hk y Hin) E).
Qed.

Lemma sorted_split l n x y : StronglySorted not_newer l -> x ∈ take n l -> y ∈ drop n l -> not_newer x y.
Proof.
  intros Hs Hx Hy. rewrite <- (take_drop n l) in Hs. revert Hs Hx. generalize (take n l). intros pre. induction pre as [|a pre IH]; intros Hs Hx.
  - by apply not_elem_of_nil in Hx.
  - inversion Hs as [|? ? Hs' Ha]; subst. apply elem_of_cons in Hx as [->|Hx]; [|by apply IH].
    rewrite list.Forall_forall in Ha. apply Ha. apply elem_of_app. by right.
Qed.

Lemma NoDup_take_drop {A} (f : SnapshotCR -> A) l n x y : NoDup (f <$> l) -> x ∈ take n l -> y ∈ drop n l -> f x <> f y.
Proof.
  intros Hnd Hx Hy E. rewrite <- (take_drop n l), fmap_app in Hnd. apply list.NoDup_app in Hnd as (_ & Hdis & _).
  apply (Hdis (f x)); [by apply list_elem_of_fmap_2|]. rewrite E. by apply list_elem_of_fmap_2.
Qed.

(** Whatever else is answered, pruning the scheduled snapshots of a definition deletes only snapshots
    that were listed and are not being deleted yet, and spares as many as are to be kept: none of
    them is deleted, and none is older than one that is. *)
Theorem pruning_keeps_the_newest rd snaps keep :
  keep_of rd = Ok keep -> NoDup (snap_name <$> snaps) -> NoDup (sc_Name <$> snaps) ->
  exists kept, kept ⊆+ snaps /\ Z.of_nat (length kept) = Z.min keep (Z.of_nat (length snaps)) /\
    along (listed_as snaps) (spares snaps kept) (pruneOldAutoSnapshots has_store by_creation rd) (fun _ => True).
Proof using Hperm Hsorted.
  intros Hkeep Hnames Hobjs. assert (0 < keep) as Hpos.
  { unfold keep_of, DefaultAutoSnapshotKeep in Hkeep. repeat case_match; simplify_eq; try case_bool_decide; lia. }
  unfold pruneOldAutoSnapshots. rewrite Hkeep. change (kbind (Ret (Ok keep)) ?f) with (f keep). cbn beta.
  destruct (decide (Z.of_nat (length snaps) <= keep)) as [Hle|Hgt].
  - exists snaps. split_and!; [done|lia|]. split; [done|]. intros a ->. cbn. by rewrite bool_decide_eq_true_2.
  - set (n := (length snaps - Z.to_nat keep)%nat). exists (drop n (by_creation snaps)).
    assert (length (by_creation snaps) = length snaps) as Hlen by (by rewrite Hperm).
    split_and!.
    + rewrite <- (Hperm snaps) at 2. apply sublist_submseteq, sublist_drop.
    + rewrite length_drop, Hlen. lia.
    + split; [done|]. intros a ->. cbn -[prune_each]. rewrite bool_decide_eq_false_2 by lia. apply prune_each_spares.
      apply list.Forall_forall. intros x Hx. split_and!.
      * rewrite <- (Hperm snaps), <- (take_drop n (by_creation snaps)). apply elem_of_app. by left.
      * apply list.Forall_forall. intros y Hy. by eapply sorted_split.
      * apply list.Forall_forall. intros y Hy. split; intros E.
        -- eapply (NoDup_take_drop snap_name); [|exact Hx|exact Hy|by symmetry]. by rewrite Hperm.
        -- eapply (NoDup_take_drop sc_Name); [|exact Hx|exact Hy|by symmetry]. by rewrite Hperm.
Qed.

End Pruning.

(** A sort as [sort.Slice] may be. *)
#[export] Instance not_newer_dec x y : Decision (not_newer x y) := ltac:(unfold not_newer; apply _).
#[export] Instance not_newer_total : Total not_newer.
Proof. intros x y. unfold not_newer. lia. Qed.
#[export] Instance not_newer_trans : Transitive not_newer.
Proof. intros x y z. unfold not_newer. lia. Qed.

Lemma pruning_keeps_the_newest_witness :
  let rd := mkScheduledRD "pvc-1" 1 false {[AutoSnapshot.PropAutoSnapshotKeep := "1"]} ∅ [(0, 4096)] in
  let snap n t := mkSnapshotCR ("pvc-1." +:+ n) 1 false (Some t) [] ∅ "" (mkSnapSpec "pvc-1" n ["n1"] [] false false "" 0) (mkSnapStatus [] [] []) in
  let snaps := [snap "b" 2; snap "a" 1] in
  exists kept, kept ⊆+ snaps /\ Z.of_nat (length kept) = 1 /\
    along (listed_as snaps) (spares snaps kept) (AutoSnapshot.pruneOldAutoSnapshots true (merge_sort not_newer) rd) (fun _ => True).
Proof.
  intros rd snap snaps.
  apply (pruning_keeps_the_newest true (merge_sort not_newer) (merge_sort_Permutation not_newer) (StronglySorted_merge_sort not_newer) rd snaps 1).
  - vm_compute. reflexivity.
  - apply (bool_decide_unpack _). vm_compute. exact I.
  - apply (bool_decide_unpack _). vm_compute. exact I.
Defined.

(** ** A scheduled snapshot *)

(** As the API server holds it: with a version, a time and whatever else it adds to the metadata. *)
Definition as_stored (rd : ScheduledRD) (snapName : string) (x : SnapshotCR) : Prop :=
  sc_Spec x = sc_Spec (AutoSnapshot.auto_snapshot rd snapName) /\ sc_Status x = mkSnapStatus [] [] [] /\ sc_Annotations x = ∅.

(** The program, answered this object, does not call again. *)
Definition reads_only {A} (p : prog sanswer A) (name : string) (x : SnapshotCR) : Prop :=
  exists k r, p = Do (GetSnap name) k /\ k (Ok x) = Ret r.

(** A schedule creates its snapshots without nodes. No satellite takes such a snapshot, the controller
    leaves it as it is, and it is never reported successful: a scheduled snapshot holds nothing. *)
Theorem scheduled_snapshots_are_never_taken rd snapName x node name diskful :
  as_stored rd snapName x ->
  reads_only (Satellite.Reconcile node name) name x /\
  reads_only (Controller.Reconcile name) name x /\
  Report.reported_successful x diskful = false.
Proof.
  destruct x as [xname ver del created fins annos label spec status]. intros (Hspec & Hstatus & Hannos). cbn in Hspec, Hstatus, Hannos. subst.
  split_and!.
  - by eexists _, _.
  - eexists _, _. split; [reflexivity|]. cbn. destruct del; [done|]. reflexivity.
  - unfold Report.reported_successful, Report.isSnapshotSuccessful, Report.wirePerNodeSnapshots. cbn.
    rewrite andb_false_iff. right. rewrite andb_false_iff. destruct (decide (diskful = ∅)) as [->|Hn]; [by left|right].
    apply bool_decide_eq_false. intros Hsub. apply Hn. set_solver.
Qed.

Lemma scheduled_snapshots_are_never_taken_witness :
  let rd := mkScheduledRD "pvc-1" 1 false ∅ ∅ [(0, 4096)] in
  let x := AutoSnapshot.auto_snapshot rd "auto-snap-00001" in
  reads_only (Satellite.Reconcile "n1" (sc_Name x)) (sc_Name x) x /\
  reads_only (Controller.Reconcile (sc_Name x)) (sc_Name x) x /\
  Report.reported_successful x {["n1"]} = false.
Proof. intros rd x. apply (scheduled_snapshots_are_never_taken rd "auto-snap-00001" x). split_and!; reflexivity. Defined.

(** ** Labels *)

Section Labels.
Import LabelSync.

Lemma desired_lookup labels k :
  desiredAuxFromLabels labels !! k = match Str.cut_prefix "Aux/" k with
                                     | Some label => if isSyncedLabel label then labels !! label else None
                                     | None => None
                                     end.
Proof.
  unfold desiredAuxFromLabels.
  set (l := (fun kv : string * string => ("Aux/" +:+ kv.1, kv.2)) <$> filter (fun kv => isSyncedLabel kv.1 = true) (map_to_list labels)).
  assert (NoDup l.*1) as Hnd.
  { unfold l. rewrite <- list_fmap_compose. change (fst ∘ _) with (fun kv : string * string => "Aux/" +:+ kv.1).
    rewrite (list_fmap_compose (fst : string * string -> string) (fun s => "Aux/" +:+ s)). apply NoDup_fmap; [intros x y H; by injection H|].
    eapply sublist_NoDup; [apply (NoDup_fst_map_to_list labels)|]. apply fmap_sublist, sublist_filter. }
  apply option_eq. intros v. rewrite <- elem_of_list_to_map by done. unfold l. rewrite list_elem_of_fmap.
  setoid_rewrite list_elem_of_filter. setoid_rewrite elem_of_map_to_list'. split.
  - intros ([label w] & [= -> ->] & Hs & Hl). cbn [fst snd] in *. change (Str.cut_prefix "Aux/" ("Aux/" +:+ label)) with (Some label). lazy beta match. by rewrite Hs.
  - destruct (Str.cut_prefix "Aux/" k) as [label|] eqn:Hk; [|done]. apply StrFacts.cut_prefix_Some in Hk as ->.
    destruct (isSyncedLabel label) eqn:Hs; [|done]. intros Hl. by exists (label, v).
Qed.

Lemma desired_as_prop labels k :
  desiredAuxFromLabels labels !! k = if is_synced_prop k then labels !! default "" (Str.cut_prefix "Aux/" k) else None.
Proof. rewrite desired_lookup. unfold is_synced_prop. by destruct (Str.cut_prefix "Aux/" k). Qed.

Lemma filter_synced b (m : gmap string string) k :
  filter (fun kv => is_synced_prop kv.1 = b) m !! k = if Bool.eqb (is_synced_prop k) b then m !! k else None.
Proof.
  destruct (Bool.eqb_spec (is_synced_prop k) b) as [E|E].
  - destruct (m !! k) as [v|] eqn:Hk; [by apply map_lookup_filter_Some|]. apply map_lookup_filter_None. by left.
  - apply map_lookup_filter_None. right. by intros v _.
Qed.

(** In the properties that a pass sends to the API server, those for copied labels are the labels, key
    by key, with none of a label that is gone, and every other property is as it was read; and a
    pass over a node that has these properties writes nothing. *)
Theorem labels_are_copied_exactly labels props k :
  let merged := mergeProps props (desiredAuxFromLabels labels) in
  merged !! k = (if is_synced_prop k then labels !! default "" (Str.cut_prefix "Aux/" k) else props !! k) /\
  currentSyncedAux merged = desiredAuxFromLabels labels.
Proof.
  assert (forall k, mergeProps props (desiredAuxFromLabels labels) !! k =
    if is_synced_prop k then labels !! default "" (Str.cut_prefix "Aux/" k) else props !! k) as Hm.
  { clear k. intros k. unfold mergeProps. rewrite lookup_union, filter_synced, desired_as_prop.
    destruct (is_synced_prop k); cbn; [by destruct (labels !! _)|by destruct (props !! k)]. }
  split; [apply Hm|]. apply map_eq. intros j. unfold currentSyncedAux. rewrite filter_synced, Hm, desired_as_prop.
  by destruct (is_synced_prop j).
Qed.

End Labels.

(** ** The sweeper of kernel resources *)

Section Kernel.
Import KernelSweeper.
Context (NodeName StateDir : string) (MaxDownPerCycle RDGrace : Z).
(** What the API server and the directory of the node hold, and the time. *)
Context (resources : list (string * string)) (definitions : list (string * Z * option Z)) (now : Z).
Context (exists_file : string -> bool) (entries : list (string * bool)).

Definition told_to_sweeper (c : ucall) : uanswer c -> Prop :=
  match c with
  | ListResourcesU => fun a => a = Ok resources
  | ListAges => fun a => a = Ok definitions
  | NowU => fun a => a = now
  | StatU path => fun a => if exists_file path then a <> Err UNotFound else a = Err UNotFound
  | ReadDirU _ => fun a => a = Ok entries
  | _ => fun _ => True
  end.

Definition ages : gmap string Z := foldl (fun m x => <[x.1.1 := anchor_of x.1.2 x.2]> m) ∅ definitions.
(** No resource of the node, past the grace period of its definition, and with a file of blockstor's. *)
Definition abandoned (rsc : string) : Prop :=
  (rsc, NodeName) ∉ resources /\ by_age RDGrace ages rsc now = sweepTearDown /\
  (StateDir <> "" -> exists_file (state_file StateDir rsc ".res") = true \/ exists_file (state_file StateDir rsc ".owned") = true \/
     exists name, (name, false) ∈ entries /\ cut_suffix resFileSuffix name = Some rsc).
Definition harmless (c : ucall) : Prop := forall rsc, c = SetupDownU rsc -> abandoned rsc.

Notation along := (along told_to_sweeper harmless).
Definition owned_names : gset string := list_to_set ((filter (fun x => x.2 = NodeName) resources).*1).

Lemma not_owned rsc : rsc ∉ owned_names -> (rsc, NodeName) ∉ resources.
Proof.
  unfold owned_names. rewrite elem_of_list_to_set. intros Hn Hin. apply Hn. apply list_elem_of_fmap. exists (rsc, NodeName). split; [done|].
  by apply list_elem_of_filter.
Qed.

Lemma marker_ok rsc : along (blockstorOwnsResFile StateDir rsc)
  (fun b => b = true -> exists_file (state_file StateDir rsc ".res") = true \/ exists_file (state_file StateDir rsc ".owned") = true).
Proof.
  split; [done|]. intros a Ha. cbn in Ha. destruct (exists_file (state_file StateDir rsc ".res")).
  - destruct a as [?|[]]; cbn; try done; auto.
  - subst a. split; [done|]. intros a Ha. cbn in Ha. destruct (exists_file (state_file StateDir rsc ".owned")); [|subst a; done].
    destruct a as [?|[]]; cbn; try done; auto.
Qed.

Lemma classify_ok rsc : along (classifyOrphan StateDir RDGrace rsc owned_names ages now) (fun d => d = sweepTearDown -> abandoned rsc).
Proof.
  unfold classifyOrphan. case_bool_decide as Ho; [done|]. apply not_owned in Ho. case_bool_decide as Hs.
  - cbn. intros Hd. by split_and!.
  - eapply along_bind; [apply marker_ok|]. intros [] Hb; [|done]. cbn. intros Hd. split_and!; [done..|]. intros _. specialize (Hb eq_refl). tauto.
Qed.

Lemma tear_each_ok kernel : forall torn, along (tear_each StateDir MaxDownPerCycle RDGrace kernel owned_names ages now torn) (fun _ => True).
Proof.
  induction kernel as [|rsc kernel IH]; intros torn; cbn [tear_each]; [done|].
  apply along_bind with (R := fun d => d = sweepTearDown -> abandoned rsc); [apply classify_ok|]. intros [] Hd; [apply IH..|].
  destruct (bool_decide (0 <= _) && _); [exact I|].
  split; [intros ? [= <-]; exact (Hd eq_refl)|]. intros r _. apply IH.
Qed.

Lemma listed_abandoned rd : rd ∈ orphanResForRemoval RDGrace entries owned_names ages now -> abandoned rd.
Proof.
  unfold orphanResForRemoval. rewrite list_elem_of_omap. intros ([name dir] & Hin & H). cbn [fst snd] in H.
  destruct dir; [done|]. destruct (cut_suffix resFileSuffix name) as [rd'|] eqn:Hc; [|done].
  case_bool_decide; [done|]. case_bool_decide as Ho; [done|]. destruct (bool_decide (0 < _) && _) eqn:Hg; [done|]. injection H as <-.
  split_and!; [by apply not_owned| |intros _; right; right; by exists name]. unfold by_age.
  destruct (decide (grace RDGrace <= 0)) as [Hpos|Hpos]; [by rewrite bool_decide_eq_true_2|]. rewrite bool_decide_eq_false_2 by done.
  rewrite bool_decide_eq_true_2 in Hg by lia. cbn [andb] in Hg. destruct (ages !! rd') as [anchor|]; [|reflexivity]. rewrite Hg. reflexivity.
Qed.

Lemma remove_files_ok rds : Forall abandoned rds -> along (remove_each_file StateDir rds) (fun _ => True).
Proof.
  induction 1 as [|rd rds Hrd _ IH]; cbn [remove_each_file]; [done|]. eapply along_bind with (R := fun _ => True); [|by intros ? ?].
  split; [done|]. intros [] _; cbn.
  - split; [by intros ? [= <-]|]. intros [?|?] _; [|done]. by split.
  - by split.
Qed.

Lemma sweepOrphanResFiles_ok : along (sweepOrphanResFiles StateDir RDGrace owned_names ages) (fun _ => True).
Proof.
  unfold sweepOrphanResFiles. case_bool_decide; [done|]. split; [done|]. intros a ->. split; [done|]. intros n ->.
  apply remove_files_ok, list.Forall_forall. intros rd. apply listed_abandoned.
Qed.

Lemma sweepOnce_ok : along (sweepOnce NodeName StateDir MaxDownPerCycle RDGrace) (fun _ => True).
Proof.
  assert (along (kernel ←! act StatusResources; owned ←! listOwnedResourceNames NodeName; ages ← listResourceDefinitionAges;
    let ages := match ages with Ok m => m | Err _ => ∅ end in
    _ ← (if bool_decide (kernel = []) then Ret tt else tearDownOrphans StateDir MaxDownPerCycle RDGrace kernel owned ages);
    _ ← sweepOrphanResFiles StateDir RDGrace owned ages; done_with tt) (fun _ => True)) as Hsweep.
  { split; [done|]. intros [kernel|e] _; [|done]. split; [done|]. intros a ->. split; [done|]. intros a ->. fold owned_names.
    change (along ((if bool_decide (kernel = []) then Ret tt else tearDownOrphans StateDir MaxDownPerCycle RDGrace kernel owned_names ages) ≫=
      fun _ => sweepOrphanResFiles StateDir RDGrace owned_names ages ≫= fun _ => done_with tt) (fun _ : result uerr unit => True)).
    eapply along_bind with (R := fun _ => True).
    - destruct (bool_decide (kernel = [])); [exact I|]. split; [done|]. intros n ->. apply tear_each_ok.
    - intros ? _. eapply along_bind with (R := fun _ => True); [apply sweepOrphanResFiles_ok|done]. }
  unfold sweepOnce. split; [done|]. intros [[v|]|e] _; cbn; [|exact Hsweep..]. case_bool_decide; [done|exact Hsweep].
Qed.

(** One cycle takes down a resource of the kernel only when the node has no resource of that name, the
    definition of that name, if there is one, is older than the grace period, and a file of
    blockstor's names it: nothing that the node owns, that is just being set up, or that another
    manager of DRBD runs. *)
Theorem only_abandoned_resources_are_taken_down : along (sweepOnce NodeName StateDir MaxDownPerCycle RDGrace) (fun _ => True).
Proof. exact sweepOnce_ok. Qed.

End Kernel.

(** The limit of resources taken down in a cycle does not hold: those with a configuration file are
    taken down beside it, when the file is removed. With five orphans and the limit of three, one
    cycle takes down five. *)
Theorem sweep_exceeds_its_limit :
  let orphans := ["a"; "b"; "c"; "d"; "e"] in
  let node (down : list string) (c : ucall) : uanswer c :=
    match c with
    | StatusResources => Ok orphans
    | ListResourcesU => Ok [] | ListAges => Ok [] | NodeAnnotationU _ _ => Ok None | NowU => 0
    | ReadDirU _ => Ok ((fun n => (n +:+ ".res", false)) <$> orphans)
    | IsLoadedU n => bool_decide (n ∉ down)
    | ListDefinitionsU => Ok [] | GetDefinitionU _ => Err UNotFound | ListSnapshotsU _ => Ok [] | ListRestoredFromU => Ok []
    | KubeLabels _ => Ok ∅ | NodePropsU _ => Ok ("", ∅) | GetResourceU _ => Err UNotFound | ConnectionStatusU _ => Ok ""
    | _ => Ok tt
    end in
  omap (fun c => match c with SetupDownU n => Some n | _ => None end)
    (calls_of (node ["a"; "b"; "c"]) (KernelSweeper.sweepOnce "n1" "/etc/drbd.d" 0 0)) = orphans /\
  KernelSweeper.limit 0 = 3.
Proof. split; vm_compute; reflexivity. Qed.
