(* ===== verification/Apply.v ===== *)
(** * A pass of the satellite over a replica

    Models the rest of [pkg/satellite/reconciler.go]: what a pass does with the storage of a replica,
    its encryption ([pkg/luks/luks.go]), its DRBD resource and its file system ([applyOne] and
    everything under it), the requests to take a snapshot and to tear a resource down, and what the
    reconciler remembers between passes. The storage providers are an interface, a record of
    operations; commands, provider calls and writes of files leave an event each in one trace. *)

From Stdlib Require Import Ascii.
From S2P Require Import Prelude Prog Storage SatelliteFsm GoStrings DrbdAlloc DrbdStates DrbdText DrbdStatus DrbdAdm Dispatcher Lsblk ResFile GiHistory Metadata.

(** ** Providers and the world *)

(** [storage.ErrNotFound], [ErrTerminal], any other error. *)
Inductive provider_err := PNotFound | PTerminal | PFailed.

Record provider (W : Type) := mkProviderOps {
  p_Kind : string;
  p_CreateVolume : Storage.Volume -> W -> option provider_err * W;
  p_DeleteVolume : Storage.Volume -> W -> option provider_err * W;
  p_ResizeVolume : Storage.Volume -> W -> option provider_err * W;
  p_VolumeStatus : Storage.Volume -> W -> result provider_err VolumeStatus * W;
  p_CreateSnapshot : Snapshot -> W -> option provider_err * W;
  p_DeleteSnapshot : Snapshot -> W -> option provider_err * W;
  p_RestoreVolumeFromSnapshot : Storage.Volume -> Snapshot -> W -> option provider_err * W;
  (** The optional interfaces: [SnapshotShipper], [ResizeZeroFiller] and the name of the zpool. *)
  p_RecvSnapshot : option (Storage.Volume -> string -> W -> option provider_err * W);
  p_ResizeZeroFills : option bool;
  p_Pool : option string;
}.
Arguments mkProviderOps {W}. Arguments p_Kind {W}. Arguments p_CreateVolume {W}. Arguments p_DeleteVolume {W}.
Arguments p_ResizeVolume {W}. Arguments p_VolumeStatus {W}. Arguments p_CreateSnapshot {W}. Arguments p_DeleteSnapshot {W}.
Arguments p_RestoreVolumeFromSnapshot {W}. Arguments p_RecvSnapshot {W}. Arguments p_ResizeZeroFills {W}. Arguments p_Pool {W}.

(** What is outside of the program: commands, the clock, waiting (whether the context ended), whether
    an operation on a file succeeds, how durable a write of the record is, the fetch of a snapshot
    from another node, and whether a path is a block device. *)
Record world (W : Type) := mkWorld {
  w_run : W -> cmd -> answer * W;
  w_time : W -> Z;
  w_sleep : W -> Z -> bool * W;
  w_file : W -> cmd -> bool * W;
  w_write : W -> string -> write_outcome * W;
  w_fetch : W -> string -> string -> Z -> result provider_err string * W;
  w_isBlockDevice : W -> string -> result unit bool * W;
}.
Arguments mkWorld {W}. Arguments w_run {W}. Arguments w_time {W}. Arguments w_sleep {W}. Arguments w_file {W}. Arguments w_write {W}.
Arguments w_fetch {W}. Arguments w_isBlockDevice {W}.

(** [ReconcilerConfig]; a wrapper that may be nil is a flag. *)
Record ReconcilerConfig (W : Type) := mkConfig {
  cfg_Providers : gmap string (provider W);
  cfg_Adm : bool;
  cfg_StateDir : bool;
  cfg_DeviceWaitTimeout : Z;
  cfg_DeviceWaitPoll : Z;
  cfg_NodeName : string;
  cfg_LocalAddress : string;
  cfg_Cryptsetup : bool;
  cfg_CrossNodeFetcher : bool;
  cfg_SkipDiskClearer : bool;
  cfg_Exec : bool;
}.
Arguments mkConfig {W}. Arguments cfg_Providers {W}. Arguments cfg_Adm {W}. Arguments cfg_StateDir {W}. Arguments cfg_DeviceWaitTimeout {W}.
Arguments cfg_DeviceWaitPoll {W}. Arguments cfg_NodeName {W}. Arguments cfg_LocalAddress {W}. Arguments cfg_Cryptsetup {W}.
Arguments cfg_CrossNodeFetcher {W}. Arguments cfg_SkipDiskClearer {W}. Arguments cfg_Exec {W}.

(** What the reconciler keeps between passes, in memory and under the state directory. *)
Record rstate := mkRState {
  s_history : gi_state;
  s_dir : state_dir;
  s_mkfs_done : gset string;
  s_resourceToPool : gmap string string;
  s_restoreBlankFallback : gmap string bool;
  s_restoreSnapshotMissingTries : gmap string Z;
  s_lastRecoveryPromoteAt : gmap string Z;
  s_firstLateAddStallAt : gmap string Z;
}.

Inductive apply_err :=
| UnknownPool (pool : string)
| CrossCluster (src : string)
| BadSource (src : string)
| NotYetMaterialised
| OnProvider (e : provider_err)
| DeviceMissing (device : string)
| OutOfFuel
| Cancelled
| NoCryptsetup
| NoPassphrase
| DeviceHoldsData (device : string)
| NotABlockDevice (device : string)
| CommandFailed (text : string)
| OnMetadata (e : meta_err)
| OnRender (e : render_err)
| MkfsFailed (device : string)
| MarkerNotWritten
| UnknownResource.

(** Durations in nanoseconds. *)
Definition millisecond : Z := 1000000.
Definition recoveryPromoteThrottle : Z := 10000 * millisecond.
Definition lateAddStallDwell : Z := 20000 * millisecond.
Definition restoreSnapshotMissingBudget : Z := 5.
Definition deviceWaitTimeoutDefault : Z := 60000 * millisecond.
Definition deviceWaitPollDefault : Z := 500 * millisecond.

Definition luksMapperName (rdName : string) (vol : Z) : string := rdName +:+ "-" +:+ format_int vol +:+ "-luks".
Definition needsLUKS (stack : list string) : bool := existsb (fun s => Str.equal_fold s "LUKS") stack.
Definition needsDRBD (stack : list string) : bool := if bool_decide (stack = []) then true else existsb (fun s => Str.equal_fold s "DRBD") stack.
Definition filesystem_type (dr : DesiredResource) : string := Str.trim_space (get (dr_Props dr) "FileSystem/Type").
Definition needsMkfs (dr : DesiredResource) : bool := negb (bool_decide (filesystem_type dr = "")).
Definition LuksDevicePath (dmName : string) : string := "/dev/mapper/" +:+ dmName.

Section Pass.
Context {W : Type} (env : world W) (cfg : ReconcilerConfig W) (decode : string -> option (list Slots.drbdsetupStatusResource)).
(** The exit status an error carries; the orders in which the maps are walked. *)
Context (exit_code : string -> option Z) (range_options : gmap string string -> list (string * string))
  (range_devices : gmap Z string -> list (Z * string)).

(** ** The monad *)

Notation M A := (shell (W := W * rstate) A).
Notation R A := (shell (W := W * rstate) (result apply_err A)).

Definition exec (s : W * rstate) (c : cmd) : answer * (W * rstate) := let '(a, w) := w_run env (fst s) c in (a, (w, snd s)).
Definition gets {A} (f : rstate -> A) : M A := fun s => (f (snd (fst s)), s).
Definition modify (f : rstate -> rstate) : M unit := fun s => let '((w, st), log) := s in (tt, ((w, f st), log)).
(** Something done outside that leaves an event. *)
Definition call {A} (c : cmd) (shown : A -> answer) (f : W -> A * W) : M A := fun s =>
  let '((w, st), log) := s in let '(a, w') := f w in (a, ((w', st), log ++ [(c, shown a)])).
(** Something read or waited for that leaves none. *)
Definition ask {A} (f : W -> A * W) : M A := fun s => let '((w, st), log) := s in let '(a, w') := f w in (a, ((w', st), log)).
Definition now : M Z := ask (fun w => (w_time env w, w)).
Definition wait (d : Z) : M bool := ask (fun w => w_sleep env w d).

Definition okay {A} (a : A) : R A := mret (Ok a).
Definition fail {A} (e : apply_err) : R A := mret (Err e).
Definition rbind {A B} (m : R A) (k : A -> R B) : R B := r ← m; match r with Ok a => k a | Err e => fail e end.
(** The error of a wrapped command. *)
Definition command (m : M (option string)) : R unit := e ← m; match e with None => okay tt | Some text => fail (CommandFailed text) end.

Definition shown_err (e : option provider_err) : answer := (match e with Some _ => Some "error" | None => None end, "").
Definition volume_event (op : string) (vol : Storage.Volume) : cmd := [op; v_ResourceName vol; format_int (v_VolumeNumber vol)].
Definition snapshot_event (op : string) (snap : Snapshot) : cmd := [op; s_ResourceName snap; s_SnapshotName snap].
Definition on_provider (m : M (option provider_err)) : R unit := e ← m; match e with None => okay tt | Some e => fail (OnProvider e) end.

Definition create_volume (p : provider W) (vol : Storage.Volume) := call (volume_event "CreateVolume" vol) shown_err (p_CreateVolume p vol).
Definition delete_volume (p : provider W) (vol : Storage.Volume) := call (volume_event "DeleteVolume" vol) shown_err (p_DeleteVolume p vol).
Definition resize_volume (p : provider W) (vol : Storage.Volume) := call (volume_event "ResizeVolume" vol) shown_err (p_ResizeVolume p vol).
Definition restore_volume (p : provider W) (vol : Storage.Volume) (snap : Snapshot) :=
  call (volume_event "RestoreVolumeFromSnapshot" vol) shown_err (p_RestoreVolumeFromSnapshot p vol snap).
Definition volume_status (p : provider W) (vol : Storage.Volume) : M (result provider_err VolumeStatus) :=
  call (volume_event "VolumeStatus" vol) (fun r => match r with Ok s => (None, vs_DevicePath s) | Err _ => (Some "error", "") end) (p_VolumeStatus p vol).
(** [os.Stat] of a file of the state directory. *)
Definition stat_file (path : string) (present : rstate -> bool) : M stat :=
  readable ← ask (fun w => w_file env w ["stat"; path]);
  there ← gets present;
  mret (if negb readable then StatError else if there : bool then Present else SatelliteFsm.NotExist).
Definition file_op (c : cmd) : M bool := call c (fun ok : bool => (if ok then None else Some "error", "")) (fun w => w_file env w c).
#[local] Notation "x ←? m ; k" := (rbind m (fun x => k)) (at level 20, m at level 100, k at level 200, right associativity).
#[local] Notation run := (run exec).

(** ** What is remembered *)

Definition set_dir (d : state_dir) (s : rstate) : rstate := mkRState (s_history s) d (s_mkfs_done s) (s_resourceToPool s) (s_restoreBlankFallback s)
  (s_restoreSnapshotMissingTries s) (s_lastRecoveryPromoteAt s) (s_firstLateAddStallAt s).
Definition set_history (h : gi_state) (s : rstate) : rstate := mkRState h (s_dir s) (s_mkfs_done s) (s_resourceToPool s) (s_restoreBlankFallback s)
  (s_restoreSnapshotMissingTries s) (s_lastRecoveryPromoteAt s) (s_firstLateAddStallAt s).
Definition set_mkfs_done (m : gset string) (s : rstate) : rstate := mkRState (s_history s) (s_dir s) m (s_resourceToPool s) (s_restoreBlankFallback s)
  (s_restoreSnapshotMissingTries s) (s_lastRecoveryPromoteAt s) (s_firstLateAddStallAt s).
Definition set_pools (m : gmap string string) (s : rstate) : rstate := mkRState (s_history s) (s_dir s) (s_mkfs_done s) m (s_restoreBlankFallback s)
  (s_restoreSnapshotMissingTries s) (s_lastRecoveryPromoteAt s) (s_firstLateAddStallAt s).
Definition set_blank (m : gmap string bool) (s : rstate) : rstate := mkRState (s_history s) (s_dir s) (s_mkfs_done s) (s_resourceToPool s) m
  (s_restoreSnapshotMissingTries s) (s_lastRecoveryPromoteAt s) (s_firstLateAddStallAt s).
Definition set_tries (m : gmap string Z) (s : rstate) : rstate := mkRState (s_history s) (s_dir s) (s_mkfs_done s) (s_resourceToPool s) (s_restoreBlankFallback s)
  m (s_lastRecoveryPromoteAt s) (s_firstLateAddStallAt s).
Definition set_promoted (m : gmap string Z) (s : rstate) : rstate := mkRState (s_history s) (s_dir s) (s_mkfs_done s) (s_resourceToPool s) (s_restoreBlankFallback s)
  (s_restoreSnapshotMissingTries s) m (s_firstLateAddStallAt s).
Definition set_stalled (m : gmap string Z) (s : rstate) : rstate := mkRState (s_history s) (s_dir s) (s_mkfs_done s) (s_resourceToPool s) (s_restoreBlankFallback s)
  (s_restoreSnapshotMissingTries s) (s_lastRecoveryPromoteAt s) m.

Definition rememberPool (name pool : string) : M unit := modify (fun s => set_pools (<[name := pool]> (s_resourceToPool s)) s).
Definition forgetPool (name : string) : M unit := modify (fun s => set_pools (delete name (s_resourceToPool s)) s).
Definition recordBlankFallback (rdName : string) (vol : Z) (blank : bool) : M unit :=
  modify (fun s => set_blank (<[restoreSeedKey rdName vol := blank]> (s_restoreBlankFallback s)) s).
(** The counter, one more; [Some n] for the new value. *)
Definition bumpRestoreSnapshotMissing (rdName : string) (vol : Z) : M Z :=
  let key := restoreSeedKey rdName vol in
  _ ← modify (fun s => set_tries (<[key := default 0 (s_restoreSnapshotMissingTries s !! key) + 1]> (s_restoreSnapshotMissingTries s)) s);
  gets (fun s => default 0 (s_restoreSnapshotMissingTries s !! key)).
Definition clearRestoreSnapshotMissing (rdName : string) (vol : Z) : M unit :=
  modify (fun s => set_tries (delete (restoreSeedKey rdName vol) (s_restoreSnapshotMissingTries s)) s).

Definition lateAddStallDwellElapsed (name : string) : M bool :=
  t ← now;
  first ← gets (fun s => s_firstLateAddStallAt s !! name);
  match first with
  | None => _ ← modify (fun s => set_stalled (<[name := t]> (s_firstLateAddStallAt s)) s); mret false
  | Some first => mret (bool_decide (lateAddStallDwell <= t - first))
  end.
Definition clearLateAddStall (name : string) : M unit := modify (fun s => set_stalled (delete name (s_firstLateAddStallAt s)) s).

Definition promote_due (last : option Z) (t : Z) : bool := match last with Some last => negb (bool_decide (t - last < recoveryPromoteThrottle)) | None => true end.
Definition recoveryPromoteDue (name : string) : M bool :=
  t ← now;
  last ← gets (fun s => s_lastRecoveryPromoteAt s !! name);
  if promote_due last t then _ ← modify (fun s => set_promoted (<[name := t]> (s_lastRecoveryPromoteAt s)) s); mret true
  else mret false.

(** ** Requests *)

Definition providerForResource (name : string) : M (option (provider W)) :=
  pool ← gets (fun s => s_resourceToPool s !! name);
  mret (pool ≫= (cfg_Providers cfg !!.)).

(** A response: done or not, and whether a failure is final. *)
Record Response := mkResponse { rsp_Ok : bool; rsp_Terminal : bool }.

Definition CreateSnapshot (name snapName : string) : M Response :=
  p ← providerForResource name;
  match p with
  | None => mret (mkResponse false true)
  | Some p =>
      let snap := mkSnapshot "" name snapName in
      e ← call (snapshot_event "CreateSnapshot" snap) shown_err (p_CreateSnapshot p snap);
      mret match e with
           | None => mkResponse true false
           | Some PTerminal | Some PNotFound => mkResponse false true
           | Some PFailed => mkResponse false false
           end
  end.
Definition DeleteSnapshot (name snapName : string) : M Response :=
  p ← providerForResource name;
  match p with
  | None => mret (mkResponse false false)
  | Some p =>
      let snap := mkSnapshot "" name snapName in
      e ← call (snapshot_event "DeleteSnapshot" snap) shown_err (p_DeleteSnapshot p snap);
      mret (mkResponse (bool_decide (e = None)) false)
  end.

Definition SuspendResource (name : string) : R unit := if negb (cfg_Adm cfg) then okay tt else command (SuspendIO exec name).
Definition ResumeResource (name : string) : R unit := if negb (cfg_Adm cfg) then okay tt else command (ResumeIO exec name).

Definition zpoolNameForProvider (p : provider W) (registryName : string) : string := default registryName (p_Pool p).

Fixpoint flush_volumes (p : provider W) (pool name : string) (vols : list Z) : M unit :=
  match vols with
  | [] => mret tt
  | n :: rest =>
      status ← volume_status p (Storage.mkVolume pool name n 0);
      match status with
      | Err _ => flush_volumes p pool name rest
      | Ok status =>
          if bool_decide (vs_DevicePath status = "") then flush_volumes p pool name rest
          else _ ← run ["blockdev"; "--flushbufs"; vs_DevicePath status]; flush_volumes p pool name rest
      end
  end.
Definition FlushBackingDevices (name : string) (vols : list Z) : M unit :=
  if negb (cfg_Exec cfg) then mret tt
  else
    p ← providerForResource name;
    match p with
    | None => mret tt
    | Some p =>
        pool ← gets (fun s => default "" (s_resourceToPool s !! name));
        _ ← flush_volumes p pool name vols;
        _ ← run ["sync"];
        if bool_decide (p_Kind p = "ZFS") || bool_decide (p_Kind p = "ZFS_THIN") then
          let zpool := zpoolNameForProvider p pool in
          if bool_decide (zpool = "") then mret tt else _ ← run ["zpool"; "sync"; zpool]; mret tt
        else mret tt
    end.

(** ** Tearing a resource down *)

Definition luksClose (dmName : string) : M unit := _ ← run ["cryptsetup"; "luksClose"; dmName]; mret tt.
Fixpoint close_mappers (name : string) (vols : list Z) : M unit :=
  match vols with [] => mret tt | n :: rest => _ ← luksClose (luksMapperName name n); close_mappers name rest end.
Fixpoint delete_volumes (p : provider W) (pool name : string) (vols : list Z) : R unit :=
  match vols with
  | [] => okay tt
  | n :: rest => _ ←? on_provider (delete_volume p (Storage.mkVolume pool name n 0)); delete_volumes p pool name rest
  end.

(** The four files of a resource; a file that is not there is as good as removed. *)
Inductive state_file := ResFileOf | MdCreatedOf | MkfsDoneOf | OwnedOf.
Definition suffix_of (f : state_file) : string :=
  match f with ResFileOf => ".res" | MdCreatedOf => ".md-created" | MkfsDoneOf => ".mkfs.done" | OwnedOf => ".owned" end.
Definition drop_file (name : string) (f : state_file) (s : rstate) : rstate :=
  let d := s_dir s in
  match f with
  | ResFileOf => set_dir (mkStateDir (delete name (sd_res d)) (sd_owned d) (sd_md_created d)) s
  | MdCreatedOf => set_dir (mkStateDir (sd_res d) (sd_owned d) (sd_md_created d ∖ {[name]})) s
  | MkfsDoneOf => set_mkfs_done (s_mkfs_done s ∖ {[name]}) s
  | OwnedOf => set_dir (mkStateDir (sd_res d) (sd_owned d ∖ {[name]}) (sd_md_created d)) s
  end.
Definition remove_file (name : string) (f : state_file) : R unit :=
  ok ← file_op ["remove"; name +:+ suffix_of f];
  if ok : bool then _ ← modify (drop_file name f); okay tt else fail MarkerNotWritten.
Fixpoint remove_files (name : string) (fs : list state_file) : R unit :=
  match fs with [] => okay tt | f :: rest => _ ←? remove_file name f; remove_files name rest end.
Definition forget_history (name : string) : R unit :=
  ok ← file_op ["forget"; name];
  h ← gets s_history;
  let '(h, done) := forgetGIHistory ok h name in
  _ ← modify (set_history h);
  if done : bool then okay tt else fail MarkerNotWritten.

Definition take_down (name : string) : M unit :=
  if negb (cfg_Adm cfg) then mret tt
  else
    _ ← ResumeIO exec name;
    e ← Down exec name;
    match e with None => mret tt | Some _ => _ ← SetupDown exec name; mret tt end.

Definition DeleteResource (name pool : string) (vols : list Z) : R unit :=
  _ ← take_down name;
  _ ← (if cfg_Cryptsetup cfg then close_mappers name vols else mret tt);
  _ ←? match (if bool_decide (pool = "") then None else cfg_Providers cfg !! pool) with
       | None => okay tt
       | Some p => delete_volumes p "" name vols
       end;
  _ ←? (if cfg_StateDir cfg then
          _ ←? remove_files name [ResFileOf; MdCreatedOf; MkfsDoneOf; OwnedOf]; forget_history name
        else okay tt);
  _ ← forgetPool name;
  okay tt.

(** ** Storage *)

(** [strings.Cut(s, ":")] *)
Definition cut_colon (s : string) : option (string * string) := Str.cut ":"%char s.
(** The source of a restore, [<resource>:<snapshot>]; a third part names another cluster. *)
Definition parse_source (src : string) : result apply_err (string * string) :=
  match cut_colon src with
  | Some (first, rest) =>
      if match cut_colon rest with Some _ => negb (bool_decide (first = "")) | None => false end then Err (CrossCluster src)
      else if bool_decide (first = "") || bool_decide (rest = "") then Err (BadSource src) else Ok (first, rest)
  | None => Err (BadSource src)
  end.

Definition blank_volume (p : provider W) (rdName : string) (target : Storage.Volume) : R unit :=
  _ ← recordBlankFallback rdName (v_VolumeNumber target) true;
  on_provider (create_volume p target).
Definition fetch (srcRD snapName : string) (vol : Z) : M (result provider_err string) :=
  call ["Fetch"; srcRD; snapName; format_int vol] (fun r => match r with Ok peer => (None, peer) | Err _ => (Some "error", "") end)
    (fun w => w_fetch env w srcRD snapName vol).
Definition crossNodeClone (p : provider W) (target : Storage.Volume) (rdName srcRD snapName : string) : R unit :=
  match p_RecvSnapshot p with
  | None => blank_volume p rdName target
  | Some recv =>
      body ← fetch srcRD snapName (v_VolumeNumber target);
      match body with
      | Err PNotFound => blank_volume p rdName target
      | Err e => fail (OnProvider e)
      | Ok body =>
          _ ←? on_provider (call (volume_event "RecvSnapshot" target) shown_err (recv target body));
          _ ← recordBlankFallback rdName (v_VolumeNumber target) false;
          okay tt
      end
  end.

Definition target_of (rdName : string) (vol : DesiredVolume) : Storage.Volume := Storage.mkVolume "" rdName (dv_VolumeNumber vol) (dv_SizeKib vol).
Definition materializeVolume (p : provider W) (rdName : string) (vol : DesiredVolume) : R unit :=
  let target := target_of rdName vol in
  let n := dv_VolumeNumber vol in
  if bool_decide (dv_SourceSnapshot vol = "") then on_provider (create_volume p target)
  else
    match parse_source (dv_SourceSnapshot vol) with
    | Err e => fail e
    | Ok (srcRD, snapName) =>
        e ← restore_volume p target (mkSnapshot (dv_StoragePool vol) srcRD snapName);
        match e with
        | None => _ ← recordBlankFallback rdName n false; _ ← clearRestoreSnapshotMissing rdName n; okay tt
        | Some PNotFound =>
            if cfg_CrossNodeFetcher cfg then crossNodeClone p target rdName srcRD snapName
            else
              tries ← bumpRestoreSnapshotMissing rdName n;
              if bool_decide (tries <= restoreSnapshotMissingBudget) then fail NotYetMaterialised
              else _ ← clearRestoreSnapshotMissing rdName n; blank_volume p rdName target
        | Some e => fail (OnProvider e)
        end
    end.

Definition wait_timeout : Z := if bool_decide (cfg_DeviceWaitTimeout cfg <= 0) then deviceWaitTimeoutDefault else cfg_DeviceWaitTimeout cfg.
Definition wait_poll : Z := if bool_decide (cfg_DeviceWaitPoll cfg <= 0) then deviceWaitPollDefault else cfg_DeviceWaitPoll cfg.
(** One round looks, settles and sleeps; every sleep is at least [wait_poll]. *)
Fixpoint wait_for (fuel : nat) (device : string) (deadline : Z) : R unit :=
  match fuel with
  | O => fail OutOfFuel
  | S fuel =>
      a ← run ["blockdev"; "--getsize64"; device];
      match fst a with
      | None => okay tt
      | Some _ =>
          t ← now;
          if bool_decide (deadline < t) then fail (DeviceMissing device)
          else
            _ ← run ["udevadm"; "settle"; "--timeout=5"];
            over ← wait wait_poll;
            if over : bool then fail Cancelled else wait_for fuel device deadline
      end
  end.
Definition wait_rounds : nat := S (S (Z.to_nat (wait_timeout / wait_poll))).
Definition waitForBlockDevice (device : string) : R unit :=
  if bool_decide (device = "") || negb (cfg_Exec cfg) then okay tt
  else t ← now; wait_for wait_rounds device (t + wait_timeout).

(** Device paths, and whether anything was grown or restored. *)
Record stored := mkStored { st_devices : gmap Z string; st_resized : bool; st_cloned : bool }.
Definition apply_volume (rdName : string) (vol : DesiredVolume) (acc : stored) : R stored :=
  match cfg_Providers cfg !! dv_StoragePool vol with
  | None => fail (UnknownPool (dv_StoragePool vol))
  | Some p =>
      _ ←? materializeVolume p rdName vol;
      let cloned := st_cloned acc || negb (bool_decide (dv_SourceSnapshot vol = "")) in
      status ← volume_status p (Storage.mkVolume "" rdName (dv_VolumeNumber vol) 0);
      match status with
      | Err e => fail (OnProvider e)
      | Ok status =>
          grown ←? (if bool_decide (vs_UsableKib status < dv_SizeKib vol) && bool_decide (0 < vs_UsableKib status) then
                      _ ←? on_provider (resize_volume p (target_of rdName vol)); okay true
                    else okay false);
          _ ←? waitForBlockDevice (vs_DevicePath status);
          okay (mkStored (<[dv_VolumeNumber vol := vs_DevicePath status]> (st_devices acc)) (st_resized acc || grown) cloned)
      end
  end.
Fixpoint apply_volumes (rdName : string) (vols : list DesiredVolume) (acc : stored) : R stored :=
  match vols with [] => okay acc | vol :: rest => acc ←? apply_volume rdName vol acc; apply_volumes rdName rest acc end.
Definition applyStorage (dr : DesiredResource) : R stored :=
  acc ←? apply_volumes (dr_Name dr) (dr_Volumes dr) (mkStored ∅ false false);
  match dr_Volumes dr with
  | [] => okay acc
  | vol :: _ => _ ← rememberPool (dr_Name dr) (dv_StoragePool vol); okay acc
  end.

(** ** Turning diskless *)

Definition status_plain (name : string) : cmd := ["drbdsetup"; "status"; name].
Definition status_verbose (name : string) : cmd := ["drbdsetup"; "status"; "--verbose"; name].
Definition isLoaded (name : string) : M bool := a ← run (status_plain name); mret (DrbdStatus.IsLoaded a).
Definition hasDisklessVolume (name : string) : M bool := a ← run (status_verbose name); mret (DrbdStatus.HasDisklessVolume a).

Definition detachIfStillAttached (dr : DesiredResource) : R unit :=
  if negb (cfg_Adm cfg) then okay tt
  else
    loaded ← isLoaded (dr_Name dr);
    if negb loaded then okay tt
    else
      disklessVol ← hasDisklessVolume (dr_Name dr);
      if disklessVol : bool then okay tt else command (Detach exec (dr_Name dr)).
Fixpoint reclaim_volumes (rdName : string) (vols : list DesiredVolume) : R unit :=
  match vols with
  | [] => okay tt
  | vol :: rest =>
      match (if bool_decide (dv_StoragePool vol = "") then None else cfg_Providers cfg !! dv_StoragePool vol) with
      | None => reclaim_volumes rdName rest
      | Some p =>
          _ ←? on_provider (delete_volume p (Storage.mkVolume (dv_StoragePool vol) rdName (dv_VolumeNumber vol) 0));
          reclaim_volumes rdName rest
      end
  end.
Definition reclaimVolumesForDiskless (dr : DesiredResource) : R unit := reclaim_volumes (dr_Name dr) (dr_Volumes dr).
Definition applyStorageIfDiskful (dr : DesiredResource) (diskless : bool) : R stored :=
  if diskless then
    _ ←? detachIfStillAttached dr;
    _ ← (if cfg_Cryptsetup cfg && needsLUKS (dr_LayerStack dr) then close_mappers (dr_Name dr) (dv_VolumeNumber <$> dr_Volumes dr) else mret tt);
    _ ←? reclaimVolumesForDiskless dr;
    okay (mkStored ∅ false false)
  else applyStorage dr.

(** ** Encryption *)

Definition luks_probe (device : string) : cmd := ["blkid"; "-p"; "-o"; "export"; device].
Definition blkidNothingFound : Z := 2.
Definition blkidErrorMarker : string := "blkid: error:".
(** The signatures [blkid] names, and at least one when it found any. *)
Definition named_signatures (out : string) : list string :=
  omap (fun line => match Str.cut "="%char (Str.trim_space line) with
                    | Some (key, value) => if bool_decide (key = "TYPE") || bool_decide (key = "PTTYPE") then Some (key +:+ "=" +:+ value) else None
                    | None => None
                    end) (DrbdStatus.lines out).
(** The look at the path leaves an event. *)
Definition is_block_device (device : string) : cmd := ["stat"; device].
Definition block_device_answer : answer := (None, "block device").
Definition shown_block (r : result unit bool) : answer :=
  match r with Ok true => block_device_answer | Ok false => (None, "") | Err _ => (Some "error", "") end.
Definition requireBlockDevice (device : string) : R unit :=
  r ← call (is_block_device device) shown_block (fun w => w_isBlockDevice env w device);
  match r with Ok true => okay tt | Ok false => fail (NotABlockDevice device) | Err _ => fail (CommandFailed "stat") end.
Definition probeSignatures (device : string) : R (list string) :=
  a ← run (luks_probe device);
  match a with
  | (Some text, _) =>
      if bool_decide (exit_code text = Some blkidNothingFound) && negb (contains blkidErrorMarker text)
      then _ ←? requireBlockDevice device; okay []
      else fail (CommandFailed text)
  | (None, out) => okay match named_signatures out with [] => ["an unnamed signature"] | l => l end
  end.
Definition luks_format (device : string) : cmd := ["cryptsetup"; "luksFormat"; "--batch-mode"; device; "--key-file"; "-"].
Definition luksFormat (device : string) : R unit :=
  a ← run ["cryptsetup"; "isLuks"; device];
  match fst a with
  | None => okay tt
  | Some _ =>
      signatures ←? probeSignatures device;
      if bool_decide (signatures = []) then command (a ← run (luks_format device); mret (fst a)) else fail (DeviceHoldsData device)
  end.

Definition already_open_needles : list string :=
  ["already exists"; "existiert bereits"; "existe déjà"; "уже существует"; "ya existe"].
Definition classifyAlreadyOpen (text : string) : bool := existsb (fun n => contains n text) already_open_needles.
(** Whether the mapper was open already. *)
Definition luksOpen (device dmName : string) : R bool :=
  a ← run ["cryptsetup"; "luksOpen"; device; dmName; "--key-file"; "-"];
  match fst a with
  | None => okay false
  | Some text => if classifyAlreadyOpen text then okay true else fail (CommandFailed text)
  end.
Definition luksResize (dmName : string) : R unit := command (a ← run ["cryptsetup"; "resize"; dmName; "--key-file"; "-"]; mret (fst a)).

Definition readDeviceSizeBytes (device : string) : M (option Z) :=
  a ← run ["blockdev"; "--getsize64"; device];
  mret match a with (None, out) => parse_int 64 (Str.trim_space out) | (Some _, _) => None end.
Definition luksHeaderToleranceBytes : Z := 32 * 2 ^ 20.
Definition luksMapperBehindUnderlying (device mapper : string) : M bool :=
  if negb (cfg_Exec cfg) then mret false
  else
    dev ← readDeviceSizeBytes device;
    match dev with
    | None => mret false
    | Some devSize =>
        m ← readDeviceSizeBytes mapper;
        mret match m with None => false | Some mapperSize => bool_decide (wrap64 (mapperSize + luksHeaderToleranceBytes) < devSize) end
    end.

Fixpoint luks_volumes (rdName : string) (resized : bool) (devices : list (Z * string)) (out : gmap Z string) (grew : bool) : R (gmap Z string * bool) :=
  match devices with
  | [] => okay (out, grew)
  | (vol, dev) :: rest =>
      let dmName := luksMapperName rdName vol in
      _ ←? luksFormat dev;
      alreadyOpen ←? luksOpen dev dmName;
      behind ← (if negb resized && alreadyOpen then luksMapperBehindUnderlying dev (LuksDevicePath dmName) else mret false);
      _ ←? (if resized || behind then luksResize dmName else okay tt);
      luks_volumes rdName resized rest (<[vol := LuksDevicePath dmName]> out) (grew || resized || behind)
  end.
Definition applyLUKS (dr : DesiredResource) (devices : gmap Z string) (resized : bool) : R (gmap Z string * bool) :=
  if negb (cfg_Cryptsetup cfg) then fail NoCryptsetup
  else if bool_decide (get (dr_Props dr) "LuksPassphrase" = "") then fail NoPassphrase
  else luks_volumes (dr_Name dr) resized (range_devices devices) ∅ false.
Definition maybeLUKS (dr : DesiredResource) (diskless : bool) (devices : gmap Z string) (resized : bool) : R (gmap Z string * bool) :=
  if diskless || negb (needsLUKS (dr_LayerStack dr)) then okay (devices, false) else applyLUKS dr devices resized.

(** ** File systems *)

Definition blkid (device : string) : cmd := ["blkid"; "-o"; "export"; device].
Definition type_line (line : string) : option string := Str.cut_prefix "TYPE=" (Str.trim_space line).
(** What the answer of [blkid] says; a probe that failed finds nothing. *)
Definition names_filesystem (a : answer) : bool :=
  match a with (Some _, _) => false | (None, out) => existsb (fun l => bool_decide (type_line l <> None)) (DrbdStatus.lines out) end.
Definition names_user_filesystem (a : answer) : bool :=
  match a with
  | (Some _, _) => false
  | (None, out) => existsb (fun l => match type_line l with Some v => negb (bool_decide (v = "drbd")) | None => false end) (DrbdStatus.lines out)
  end.
Definition deviceHasFilesystem (device : string) : M bool := a ← run (blkid device); mret (names_filesystem a).
Definition backingHasUserFilesystem (device : string) : M bool := a ← run (blkid device); mret (names_user_filesystem a).

Definition mkfs_args (dr : DesiredResource) : list string := fields (Str.trim_space (get (dr_Props dr) "FileSystem/MkfsParams")).
Definition mkfs (dr : DesiredResource) (device : string) : cmd := ("mkfs." +:+ filesystem_type dr) :: mkfs_args dr ++ [device].
Fixpoint mkfs_volumes (dr : DesiredResource) (devices : gmap Z string) (vols : list DesiredVolume) : R unit :=
  match vols with
  | [] => okay tt
  | vol :: rest =>
      let device := default "" (devices !! dv_VolumeNumber vol) in
      if bool_decide (device = "") then mkfs_volumes dr devices rest
      else
        formatted ← deviceHasFilesystem device;
        if formatted : bool then mkfs_volumes dr devices rest
        else
          a ← run (mkfs dr device);
          match fst a with Some _ => fail (MkfsFailed device) | None => mkfs_volumes dr devices rest end
  end.
Definition mark_formatted (name : string) : R unit :=
  ok ← file_op ["write"; name +:+ ".mkfs.done"];
  if ok : bool then _ ← modify (fun s => set_mkfs_done ({[name]} ∪ s_mkfs_done s) s); okay tt else fail MarkerNotWritten.
(** The look at the marker leaves an event. *)
Definition marker_stat (name : string) : cmd := ["stat"; name +:+ ".mkfs.done"].
Definition shown_stat (s : stat) : answer := match s with Present => (None, "") | _ => (Some "error", "") end.
Definition mkfs_marker (name : string) : M stat :=
  s ← stat_file (name +:+ ".mkfs.done") (fun s => bool_decide (name ∈ s_mkfs_done s));
  call (marker_stat name) shown_stat (fun w => (s, w)).
Definition runAutoMkfs (dr : DesiredResource) (devices : gmap Z string) : R unit :=
  if negb (needsMkfs dr) then okay tt
  else if negb (cfg_Exec cfg) || negb (cfg_StateDir cfg) then okay tt
  else if dr_FilesystemFormatted dr then okay tt
  else
    marker ← mkfs_marker (dr_Name dr);
    match marker with
    | Present => okay tt
    | _ => _ ←? mkfs_volumes dr devices (dr_Volumes dr); mark_formatted (dr_Name dr)
    end.
Definition runStorageOnlyMkfs (dr : DesiredResource) (diskless : bool) (devices : gmap Z string) : R unit :=
  if diskless then okay tt
  else if needsDRBD (dr_LayerStack dr) then okay tt
  else if negb (needsMkfs dr) then okay tt
  else runAutoMkfs dr devices.

Definition drbdDevicesForMkfs (dr : DesiredResource) : gmap Z string :=
  let minor := Atoi (get (dr_DrbdOptions dr) "minor") in
  foldl (fun m vol => <[dv_VolumeNumber vol := drbd_device (volMinorOrBase vol minor)]> m) ∅ (dr_Volumes dr).
Definition runAutoPromote (dr : DesiredResource) : R unit :=
  _ ←? command (PrimaryForce exec (dr_Name dr));
  _ ←? runAutoMkfs dr (drbdDevicesForMkfs dr);
  command (Secondary exec (dr_Name dr)).

(** ** Promotion *)

Definition status_probe {A} (name : string) (f : answer -> A) : M A := a ← run (status_json name); mret (f a).

(** Twelve looks, half a second apart, for a peer that holds data. *)
Fixpoint watch_peers (rounds : nat) (name : string) : M bool :=
  match rounds with
  | O => mret true
  | S rounds =>
      data ← status_probe name (AnyConnectedPeerHasData decode);
      if data : bool then mret false
      else over ← wait (500 * millisecond); if over : bool then mret false else watch_peers rounds name
  end.
Definition shouldForcePromote (dr : DesiredResource) : M bool :=
  if dr_PeerHasData dr then mret false
  else if bool_decide (GetPeerNames dr = []) then mret true
  else watch_peers 12 (dr_Name dr).

Definition disklessPeerSet (dr : DesiredResource) : gset string :=
  list_to_set (filter (fun peer => get (dr_DrbdOptions dr) ("peer." +:+ peer +:+ ".diskless") = boolPropTrue) (GetPeerNames dr)).
Fixpoint volumes_day0_empty (rdName : string) (devices : gmap Z string) (vols : list DesiredVolume) : M bool :=
  match vols with
  | [] => mret true
  | vol :: rest =>
      let n := dv_VolumeNumber vol in
      let device := default "" (devices !! n) in
      if bool_decide (device = "") then mret false
      else
        a ← run (drbdmeta device ["get-gi"; "--node-id"; "0"]);
        match DrbdStatus.CurrentGI a with
        | Err _ => mret false
        | Ok gi =>
            if bool_decide (gi = "") then mret false
            else if negb (Str.equal_fold gi (GI.Day0GIFor rdName n)) then mret false
            else
              formatted ← backingHasUserFilesystem device;
              if formatted : bool then mret false else volumes_day0_empty rdName devices rest
        end
  end.
Definition allVolumesDay0Empty (dr : DesiredResource) (devices : gmap Z string) : M bool := volumes_day0_empty (dr_Name dr) devices (dr_Volumes dr).
Definition day0EmptyMkfsBypass (dr : DesiredResource) (devices : gmap Z string) : M bool :=
  if negb (needsMkfs dr) || negb (cfg_Exec cfg) then mret false
  else if negb (bool_decide (dr_SkipInitialSync dr = Some true)) then mret false
  else
    connected ← status_probe (dr_Name dr) (fun a => Day0SiblingSetConnected decode a (disklessPeerSet dr));
    if negb connected then mret false else allVolumesDay0Empty dr devices.

Definition needsAutoMkfsRetry (dr : DesiredResource) : M bool :=
  if negb (needsMkfs dr) then mret false
  else if negb (cfg_Exec cfg) || negb (cfg_StateDir cfg) then mret false
  else if dr_FilesystemFormatted dr then mret false
  else marker ← mkfs_marker (dr_Name dr); mret match marker with SatelliteFsm.NotExist => true | _ => false end.
Fixpoint any_unformatted (devices : gmap Z string) (vols : list DesiredVolume) : M bool :=
  match vols with
  | [] => mret false
  | vol :: rest =>
      let device := default "" (devices !! dv_VolumeNumber vol) in
      if bool_decide (device = "") then any_unformatted devices rest
      else
        formatted ← backingHasUserFilesystem device;
        if negb formatted then mret true else any_unformatted devices rest
  end.
Definition latchFreeMkfsRetryAllowed (dr : DesiredResource) (devices : gmap Z string) : M bool :=
  if negb (isLowestDiskfulNodeID dr) then mret false
  else
    safe ← status_probe (dr_Name dr) (SafeForMkfsRetryPromote decode);
    if negb safe then mret false
    else
      missing ← any_unformatted devices (dr_Volumes dr);
      if negb missing then mret false else recoveryPromoteDue (dr_Name dr).
Definition shouldRetryAutoMkfs (dr : DesiredResource) (autoPromote autoPrimaryReplica diskless : bool) (devices : gmap Z string) : M bool :=
  if autoPromote || diskless then mret false
  else
    retry ← needsAutoMkfsRetry dr;
    if negb retry then mret false
    else if autoPrimaryReplica then mret true else latchFreeMkfsRetryAllowed dr devices.

Definition maybeRecoveryPromote (dr : DesiredResource) (autoPromote autoPrimaryReplica : bool) : R unit :=
  if autoPromote || negb autoPrimaryReplica then okay tt
  else
    needed ← status_probe (dr_Name dr) (NeedsRecoveryPromote decode);
    if negb needed then okay tt
    else due ← recoveryPromoteDue (dr_Name dr); if due : bool then runAutoPromote dr else okay tt.

Definition new_current_uuid (minor : Z) : cmd := ["drbdsetup"; "new-current-uuid"; "--clear-bitmap"; format_int minor].
Fixpoint mint_each (name : string) (minors : list Z) : R unit :=
  match minors with
  | [] => okay tt
  | minor :: rest =>
      a ← run (new_current_uuid minor);
      match fst a with
      | Some text => _ ← Adjust exec name; fail (CommandFailed text)
      | None => mint_each name rest
      end
  end.
Definition mintLateAddSource (name : string) : R unit :=
  a ← run (status_json name);
  match a with
  | (Some text, _) => fail (CommandFailed text)
  | (None, out) =>
      match decode out with
      | None => fail (CommandFailed "parse")
      | Some [] => okay tt
      | Some (res :: _) =>
          match inconsistent_minors res with
          | [] => okay tt
          | minors =>
              _ ← run ["drbdadm"; "disconnect"; name];
              _ ←? mint_each name minors;
              command (Adjust exec name)
          end
      end
  end.
Definition maybeLateAddPromote (dr : DesiredResource) (diskless : bool) : R unit :=
  if diskless || negb (cfg_Adm cfg) then okay tt
  else
    needed ← status_probe (dr_Name dr) (NeedsLateAddPromote decode);
    if negb needed then okay tt
    else due ← recoveryPromoteDue (dr_Name dr); if due : bool then mintLateAddSource (dr_Name dr) else okay tt.
Definition maybeKickLateAddResync (dr : DesiredResource) (diskless : bool) : R unit :=
  if diskless || negb (cfg_Adm cfg) then okay tt
  else
    volumes ← status_probe (dr_Name dr) (LateAddResyncKickVolumes decode);
    match volumes with
    | [] => _ ← clearLateAddStall (dr_Name dr); okay tt
    | vol :: _ =>
        elapsed ← lateAddStallDwellElapsed (dr_Name dr);
        if negb elapsed then okay tt
        else due ← recoveryPromoteDue (dr_Name dr); if due : bool then command (InvalidateVolume exec (dr_Name dr) vol) else okay tt
    end.
Definition maybeSoloPromote (dr : DesiredResource) (diskless : bool) : R unit :=
  if diskless || negb (cfg_Adm cfg) then okay tt
  else if negb (bool_decide (GetPeerNames dr = [])) then okay tt
  else
    needed ← status_probe (dr_Name dr) (NeedsSoloPromote decode);
    if negb needed then okay tt
    else due ← recoveryPromoteDue (dr_Name dr); if due : bool then runAutoPromote dr else okay tt.
Definition maybePromoteSelfHeals (dr : DesiredResource) (diskless autoPromote autoPrimaryReplica resizing : bool) : R unit :=
  _ ←? maybeRecoveryPromote dr autoPromote autoPrimaryReplica;
  _ ←? (if resizing then okay tt else _ ←? maybeLateAddPromote dr diskless; maybeKickLateAddResync dr diskless);
  maybeSoloPromote dr diskless.

(** ** Adjusting *)

Definition ensure_device_node (minor : Z) : M unit := _ ← file_op ["mknod"; DevNode.DevicePath minor]; mret tt.
Fixpoint ensure_nodes (baseMinor : Z) (vols : list DesiredVolume) : M unit :=
  match vols with
  | [] => mret tt
  | vol :: rest =>
      let minor := if bool_decide (dv_Minor vol = 0) then baseMinor + dv_VolumeNumber vol else dv_Minor vol in
      _ ← (if bool_decide (minor <= 0) then mret tt else ensure_device_node minor);
      ensure_nodes baseMinor rest
  end.
Definition ensureDeviceNodes (dr : DesiredResource) : M unit := ensure_nodes (Atoi (get (dr_DrbdOptions dr) "minor")) (dr_Volumes dr).

Definition up_with_nodes (dr : DesiredResource) : R unit :=
  _ ←? command (Up exec (dr_Name dr)); _ ← ensureDeviceNodes dr; okay tt.
Definition bringUpResource (dr : DesiredResource) : R unit := up_with_nodes dr.

Definition dispatchAdjust (name : string) (skipDisk skipNet : bool) : M (option string) :=
  if skipDisk && skipNet then AdjustSkipNetSkipDisk exec name
  else if skipDisk then AdjustSkipDisk exec name
  else if skipNet then AdjustSkipNet exec name
  else Adjust exec name.

(** A peer that the operator disconnected: StandAlone, with its volumes still known. *)
Definition disconnected_slot (slot : Slots.KernelSlot) : bool :=
  bool_decide (Slots.ks_ConnectionState slot = "StandAlone") && negb (bool_decide (Slots.ks_PeerDevicesByVolNum slot = ∅)).
Definition show_json (name : string) : cmd := ["drbdsetup"; "status"; "-j"; name].
Definition skips_net (a : answer) : bool :=
  match Slots.Show a decode with Err _ => false | Ok slots => existsb (fun kv => disconnected_slot kv.2) (map_to_list slots) end.
Definition shouldSkipNetOnAdjust (name : string) : M bool := a ← run (show_json name); mret (skips_net a).

Definition recoverFromBitmapBothDisks (dr : DesiredResource) (skipDisk skipNet : bool) : R unit :=
  _ ←? command (Down exec (dr_Name dr));
  _ ←? command (Up exec (dr_Name dr));
  _ ←? command (dispatchAdjust (dr_Name dr) skipDisk skipNet);
  _ ← ensureDeviceNodes dr; okay tt.

Definition clear_skip_disk (name : string) : M unit := _ ← file_op ["ClearSkipDisk"; name]; mret tt.
Definition runAdjust (dr : DesiredResource) (diskfulFlip : bool) : R unit :=
  let name := dr_Name dr in
  let pinned := isSkipDiskEnabled dr in
  skipDisk ← (if negb pinned && negb diskfulFlip then hasDisklessVolume name else mret pinned);
  _ ← (if pinned && negb diskfulFlip && cfg_SkipDiskClearer cfg then
         diskless ← hasDisklessVolume name; if diskless : bool then mret tt else clear_skip_disk name
       else mret tt);
  skipNet ← shouldSkipNetOnAdjust name;
  e ← dispatchAdjust name skipDisk skipNet;
  match e with
  | None => _ ← ensureDeviceNodes dr; okay tt
  | Some text =>
      if ErrCodes.IsUnknownResourceErr (Some text) then up_with_nodes dr
      else if ErrCodes.IsBitmapDropBothDisksErr (Some text) then recoverFromBitmapBothDisks dr skipDisk skipNet
      else fail (CommandFailed text)
  end.
Definition adjustResource (dr : DesiredResource) (diskfulFlip : bool) : R unit := runAdjust dr diskfulFlip.

(** ** The state machine *)

(** What the state machine reads of an intent. *)
Definition fsm_view (dr : DesiredResource) : SatelliteFsm.DesiredResource :=
  SatelliteFsm.mkDesiredResource (dr_Name dr) (dr_DrbdOptions dr) (dr_Props dr) (dr_MetadataCreated dr) (dr_KernelLoaded dr) (GetPeerNames dr).
Definition res_stat (name : string) : M stat := stat_file (name +:+ ".res") (fun s => bool_decide (is_Some (sd_res (s_dir s) !! name))).
Definition md_stat (name : string) : M stat := stat_file (name +:+ ".md-created") (fun s => bool_decide (name ∈ sd_md_created (s_dir s))).
Definition observeForFsm (dr : DesiredResource) (diskless : bool) : M Observation :=
  let name := dr_Name dr in
  if bool_decide (name = "") then mret (SatelliteFsm.observeForFsm (fsm_view dr) (mkProbes StatError StatError (cfg_Adm cfg) None None None) diskless)
  else
    res ← res_stat name;
    md ← md_stat name;
    loaded ← (if negb (dr_KernelLoaded dr) && cfg_Adm cfg then b ← isLoaded name; mret (Some b) else mret None);
    disklessVol ← (if (dr_KernelLoaded dr || default false loaded) && cfg_Adm cfg then b ← hasDisklessVolume name; mret (Some b) else mret None);
    mret (SatelliteFsm.observeForFsm (fsm_view dr) (mkProbes res md (cfg_Adm cfg) loaded disklessVol None) diskless).

Definition isDisklessToDiskfulFlip (dr : DesiredResource) (diskless : bool) : M bool :=
  if diskless then mret false
  else
    loaded ← isLoaded (dr_Name dr);
    if negb loaded then mret false else hasDisklessVolume (dr_Name dr).
Definition hasUnattachedDesiredVolume (dr : DesiredResource) : M bool :=
  status_probe (dr_Name dr) (fun a => existsb (fun vol => bool_decide (dv_VolumeNumber vol ∉ Slots.AttachedVolumes a decode)) (dr_Volumes dr)).
Definition shouldEnsurePerVolumeMetadata (dr : DesiredResource) (diskless : bool) : M bool :=
  if diskless || negb (dr_MetadataCreated dr) then mret false
  else
    unattached ← hasUnattachedDesiredVolume dr;
    if negb unattached then mret false else flip ← isDisklessToDiskfulFlip dr diskless; mret (negb flip).

Definition kinds : gmap string string := p_Kind <$> cfg_Providers cfg.
(** What the steps of [Metadata] read: the record of generations is read once a step. *)
Definition metadata_view : M reconciler :=
  readable ← ask (fun w => w_file env w ["read"; "history"]);
  gets (fun s => mkReconciler (s_history s) readable kinds (s_restoreBlankFallback s)).
(** A step that changes the state directory. *)
Definition on_dir {E} (wrap : E -> apply_err) (step : state_dir -> M (state_dir * option E)) : R unit :=
  d ← gets s_dir;
  '(d, e) ← step d;
  _ ← modify (set_dir d);
  match e with None => okay tt | Some e => fail (wrap e) end.
Definition writable (path : string) : M bool := ask (fun w => w_file env w ["write"; path]).

Definition render_step (dr : DesiredResource) (devices : gmap Z string) (d : state_dir) : M (state_dir * option render_err) :=
  markerOk ← writable (dr_Name dr +:+ ".owned");
  writeOk ← writable (dr_Name dr +:+ ".res");
  ResFile.renderResFile exec (cfg_Exec cfg) kinds (cfg_StateDir cfg) markerOk writeOk (cfg_NodeName cfg) (cfg_LocalAddress cfg) dr
    (range_options (dr_DrbdOptions dr)) devices d.
Definition renderResFile (dr : DesiredResource) (devices : gmap Z string) : R unit := on_dir OnRender (render_step dr devices).
Definition metadata_step (dr : DesiredResource) (step : reconciler -> bool -> state_dir -> M (state_dir * option meta_err)) : R unit :=
  r ← metadata_view;
  markerOk ← writable (dr_Name dr +:+ ".md-created");
  on_dir OnMetadata (step r markerOk).
Definition createMetadata (dr : DesiredResource) (devices : gmap Z string) : R unit :=
  metadata_step dr (fun r markerOk d => Metadata.createMetadata exec decode r markerOk dr devices d).
Definition maybeStampMetadata (dr : DesiredResource) (devices : gmap Z string) (diskless firstActivation diskfulFlip : bool) : R unit :=
  metadata_step dr (fun r markerOk d => Metadata.maybeStampMetadata exec decode r markerOk dr devices diskless firstActivation diskfulFlip d).
Definition ensurePerVolumeMetadata (dr : DesiredResource) (devices : gmap Z string) (diskless : bool) : R unit :=
  r ← metadata_view;
  on_dir OnMetadata (fun d => Metadata.ensurePerVolumeMetadata exec decode r (render_step dr devices d) dr devices diskless d).

Definition helpers (dr : DesiredResource) (devices : gmap Z string) : Helpers ((W * rstate) * list event) apply_err :=
  mkHelpers (renderResFile dr devices) (createMetadata dr devices) (fun s => (Ok tt, s)) (bringUpResource dr) (adjustResource dr)
    (command (Down exec (dr_Name dr))) (fun _ => mkProbes StatError StatError false None None None).
Definition reconcileKernelMyNodeID (dr : DesiredResource) : R unit :=
  match parse_int 64 (get (dr_DrbdOptions dr) "node-id") with
  | None => okay tt
  | Some desiredID =>
      kernelID ← status_probe (dr_Name dr) (KernelMyNodeID decode);
      match kernelID with
      | None => okay tt
      | Some kernelID => if bool_decide (kernelID = desiredID) then okay tt else command (Down exec (dr_Name dr))
      end
  end.
Definition healAndDispatchFsm (dr : DesiredResource) (diskless : bool) (devices : gmap Z string) : R unit :=
  _ ←? reconcileKernelMyNodeID dr;
  obs ← observeForFsm dr diskless;
  match NextTransition (ObservePhase obs) obs with
  | None => okay tt
  | Some next => dispatchFsmAction (helpers dr devices) (tr_Action next) obs
  end.

(** ** The whole pass *)

Fixpoint all_zero_fill (vols : list DesiredVolume) : bool :=
  match vols with
  | [] => true
  | vol :: rest =>
      match (if bool_decide (dv_StoragePool vol = "") then None else cfg_Providers cfg !! dv_StoragePool vol) with
      | None => all_zero_fill rest
      | Some p => match p_ResizeZeroFills p with Some true => all_zero_fill rest | _ => false end
      end
  end.
Definition resizeAssumeClean (dr : DesiredResource) : bool := all_zero_fill (dr_Volumes dr).

Definition finishDRBDApply (dr : DesiredResource) (diskless firstActivation resized : bool) (devices : gmap Z string) : R unit :=
  _ ←? (if resized then command (Resize exec (dr_Name dr) (resizeAssumeClean dr)) else okay tt);
  let autoPrimaryReplica := negb diskless && bool_decide (get (dr_DrbdOptions dr) "auto-primary" = boolPropTrue) in
  let autoPromote := firstActivation && autoPrimaryReplica in
  may ← (if autoPromote then
           fresh ← shouldForcePromote dr;
           if fresh : bool then mret true else day0EmptyMkfsBypass dr devices
         else mret true);
  if negb may then okay tt
  else
    _ ←? (if autoPromote && needsMkfs dr then runAutoPromote dr else okay tt);
    retry ← shouldRetryAutoMkfs dr autoPromote autoPrimaryReplica diskless devices;
    _ ←? (if retry : bool then runAutoPromote dr else okay tt);
    maybePromoteSelfHeals dr diskless autoPromote autoPrimaryReplica resized.

Definition applyDRBD (dr : DesiredResource) (diskless : bool) (devices : gmap Z string) (resized : bool) : R unit :=
  let name := dr_Name dr in
  if bool_decide (dr_Volumes dr = []) then okay tt
  else
    md ← md_stat name;
    match gateBringUpReadiness dr diskless (match md with SatelliteFsm.NotExist => false | _ => true end) with
    | Some e => fail (OnMetadata e)
    | None =>
        _ ← observeForFsm dr diskless;
        readable ← ask (fun w => w_file env w ["read"; name +:+ ".res"]);
        body ← gets (fun s => if readable : bool then sd_res (s_dir s) !! name else None);
        _ ←? command (tearDownRemovedPeers exec dr body (cfg_NodeName cfg) devices);
        ensure ← shouldEnsurePerVolumeMetadata dr diskless;
        _ ←? (if ensure : bool then ensurePerVolumeMetadata dr devices diskless else okay tt);
        _ ←? healAndDispatchFsm dr diskless devices;
        md ← md_stat name;
        let firstActivation := negb (dr_MetadataCreated dr) && match md with SatelliteFsm.NotExist => true | _ => false end in
        diskfulFlip ← isDisklessToDiskfulFlip dr diskless;
        let soloDiskfulFlip := diskfulFlip && bool_decide (GetPeerNames dr = []) in
        let effectiveFirstActivation := firstActivation && (negb diskfulFlip || soloDiskfulFlip) in
        _ ←? maybeStampMetadata dr devices diskless firstActivation diskfulFlip;
        _ ←? (if effectiveFirstActivation || diskfulFlip then adjustResource dr diskfulFlip else okay tt);
        finishDRBDApply dr diskless effectiveFirstActivation resized devices
    end.

Definition applyInactive (dr : DesiredResource) : R unit :=
  if negb (cfg_Adm cfg) then okay tt
  else
    veto ← status_probe (dr_Name dr) (EvaluateDownVeto decode);
    match veto with
    | DownAllowed => command (Down exec (dr_Name dr))
    | _ => fail (CommandFailed "deferring drbdadm down")
    end.

(** [keepGIHistoryOf] *)
Definition keep_history (dr : DesiredResource) : M unit :=
  readable ← ask (fun w => w_file env w ["read"; "history"]);
  outcome ← ask (fun w => w_write env w (dr_Name dr));
  modify (fun s => set_history (keepGIHistoryOf (cfg_StateDir cfg) readable outcome (s_history s) (dr_Name dr) (dv_VolumeNumber <$> dr_Volumes dr)) s).

Definition applyOne (dr : DesiredResource) : R (list ResourceApplyVolumeResult) :=
  let diskless := isDiskless (dr_Flags dr) in
  _ ← keep_history dr;
  if isInactive (dr_Flags dr) then _ ←? applyInactive dr; okay []
  else
    acc ←? applyStorageIfDiskful dr diskless;
    luks ←? maybeLUKS dr diskless (st_devices acc) (st_resized acc);
    let '(devices, luksGrew) := luks in
    let resized := st_resized acc || luksGrew in
    let withDRBD := cfg_Adm cfg && needsDRBD (dr_LayerStack dr) in
    _ ←? (if withDRBD then applyDRBD dr diskless devices resized else runStorageOnlyMkfs dr diskless devices);
    okay (buildVolumeResults dr devices diskless withDRBD).

(** [Apply]: one result after the other, until the context ends. *)
Fixpoint apply_each (drs : list DesiredResource) : M (list (result apply_err (list ResourceApplyVolumeResult))) :=
  match drs with
  | [] => mret []
  | dr :: rest =>
      over ← wait 0;
      if over : bool then mret [] else r ← applyOne dr; rs ← apply_each rest; mret (r :: rs)
  end.

End Pass.
