(* ===== verification/ApplyLogic.v ===== *)
(** * Reasoning about a pass

    What the steps of [Apply] do to the trace and to what the reconciler remembers. Most steps are
    plain: they add commands that neither format, nor promote, nor write a generation, and leave
    the marks of failed restores alone. *)

From Stdlib Require Import Ascii.
From S2P Require Import Prelude Prog Storage SatelliteFsm GoStrings DrbdAlloc DrbdStates DrbdText DrbdStatus DrbdAdm Dispatcher Lsblk ResFile GiHistory Metadata MetadataProps Apply.

Definition is_mkfs (c : cmd) : bool := match c with x :: _ => Str.has_prefix "mkfs." x | [] => false end.
Definition primary_force (name : string) : cmd := ["drbdadm"; "primary"; "--force"; name].
(** A command that neither formats, nor promotes by force, nor writes a generation. *)
Definition plain (c : cmd) : Prop :=
  is_mkfs c = false /\ (forall name, c <> primary_force name) /\ (forall device n gi, c <> set_gi device n gi) /\ (forall device, c <> luks_format device).

Ltac plain := split_and!; [reflexivity|intros; unfold primary_force, set_gi, drbdmeta, luks_format; cbn; try discriminate; try congruence..].

Section Logic.
Context {W : Type}.
Notation M A := (shell (W := W * rstate) A).

(** [m] adds events whose commands satisfy [P] and leaves the marks of failed restores as they are. *)
Definition emits (P : cmd -> Prop) {A} (m : M A) : Prop := forall w st log, exists a w' st' evs,
  m ((w, st), log) = (a, ((w', st'), log ++ evs)) /\ s_restoreBlankFallback st' = s_restoreBlankFallback st /\ Forall (fun e => P (fst e)) evs.

Lemma emits_ret P {A} (a : A) : emits P (mret a).
Proof. intros w st log. exists a, w, st, []. rewrite app_nil_r. split_and!; [done..|apply list.Forall_nil_2]. Qed.
Lemma emits_bind P {A B} (m : M A) (f : A -> M B) : emits P m -> (forall a, emits P (f a)) -> emits P (m ≫= f).
Proof.
  intros Hm Hf w st log. destruct (Hm w st log) as (a & w1 & st1 & evs1 & E1 & S1 & F1). destruct (Hf a w1 st1 (log ++ evs1)) as (b & w2 & st2 & evs2 & E2 & S2 & F2).
  exists b, w2, st2, (evs1 ++ evs2). split_and!; [|congruence|by apply Forall_app]. unfold mbind, shell_bind. rewrite E1, E2. by rewrite (assoc_L (++)).
Qed.
Lemma emits_rbind P {A B} (m : M (result apply_err A)) (f : A -> M (result apply_err B)) :
  emits P m -> (forall a, emits P (f a)) -> emits P (rbind m f).
Proof. intros Hm Hf. apply emits_bind; [done|]. intros [a|e]; [apply Hf|apply emits_ret]. Qed.
Lemma emits_mono (P P' : cmd -> Prop) {A} (m : M A) : (forall c, P c -> P' c) -> emits P m -> emits P' m.
Proof. intros H Hm w st log. destruct (Hm w st log) as (a & w' & st' & evs & E & S & F). exists a, w', st', evs. split_and!; [done..|]. eapply list.Forall_impl; [exact F|]. auto. Qed.

Lemma emits_gets P {A} (f : rstate -> A) : emits P (gets f).
Proof. intros w st log. exists (f st), w, st, []. rewrite app_nil_r. split_and!; [done..|apply list.Forall_nil_2]. Qed.
Lemma emits_ask P {A} (f : W -> A * W) : emits P (ask f).
Proof. intros w st log. unfold ask. destruct (f w) as [a w']. exists a, w', st, []. rewrite app_nil_r. split_and!; [done..|apply list.Forall_nil_2]. Qed.
Lemma emits_modify P (f : rstate -> rstate) : (forall st, s_restoreBlankFallback (f st) = s_restoreBlankFallback st) -> emits P (modify f).
Proof. intros H w st log. exists tt, w, (f st), []. rewrite app_nil_r. split_and!; [done|apply H|apply list.Forall_nil_2]. Qed.
Lemma emits_call (P : cmd -> Prop) {A} c (shown : A -> answer) (f : W -> A * W) : P c -> emits P (call c shown f).
Proof. intros H w st log. unfold call. destruct (f w) as [a w']. exists a, w', st, [(c, shown a)]. split_and!; [done..|by repeat constructor]. Qed.
Lemma emits_run (P : cmd -> Prop) (env : world W) c : P c -> emits P (run (exec env) c).
Proof.
  intros H w st log. unfold run, exec. destruct (w_run env (fst (w, st)) c) as [a w'] eqn:E. exists a, w', st, [(c, a)]. split_and!; [|done|by repeat constructor].
  reflexivity.
Qed.

(** What is known of the events and what is known of the state, together. *)
Lemma emits_spec P {A} (m : M A) Q : emits P m -> spec m Q -> forall w st log, exists a w' st' evs,
  m ((w, st), log) = (a, ((w', st'), log ++ evs)) /\ s_restoreBlankFallback st' = s_restoreBlankFallback st /\ Forall (fun e => P (fst e)) evs /\ Q a evs.
Proof.
  intros Hm HQ w st log. destruct (Hm w st log) as (a & w' & st' & evs & E & S & F). destruct (HQ (w, st) log) as (b & [w2 st2] & evs2 & E2 & H2).
  rewrite E in E2. injection E2 as <- <- <- Hl%app_inv_head. subst evs2. exists a, w', st', evs. done.
Qed.

(** ** Invariants of the state and the whole trace *)

Definition holds (P : rstate -> list event -> Prop) {A} (m : M A) (Q : A -> rstate -> list event -> Prop) : Prop :=
  forall w st log, P st log -> let '(a, ((w', st'), log')) := m ((w, st), log) in Q a st' log'.

Lemma holds_ret P {A} (a : A) (Q : A -> rstate -> list event -> Prop) : (forall st log, P st log -> Q a st log) -> holds P (mret a) Q.
Proof. intros H w st log HP. cbn. auto. Qed.
Lemma holds_bind P {A B} (m : M A) (f : A -> M B) R Q : holds P m R -> (forall a, holds (R a) (f a) Q) -> holds P (m ≫= f) Q.
Proof.
  intros Hm Hf w st log HP. specialize (Hm w st log HP). unfold mbind, shell_bind. destruct (m (w, st, log)) as [a [[w1 st1] log1]].
  exact (Hf a w1 st1 log1 Hm).
Qed.
Lemma holds_rbind P {A B} (m : M (result apply_err A)) (f : A -> M (result apply_err B)) R Q :
  holds P m R -> (forall a, holds (R (Ok a)) (f a) Q) -> (forall e st log, R (Err e) st log -> Q (Err e) st log) -> holds P (rbind m f) Q.
Proof. intros Hm Hf He. eapply holds_bind; [exact Hm|]. intros [a|e]; [apply Hf|]. apply holds_ret. auto. Qed.
Lemma holds_mono (P P' : rstate -> list event -> Prop) {A} (m : M A) (Q Q' : A -> rstate -> list event -> Prop) :
  (forall st log, P' st log -> P st log) -> (forall a st log, Q a st log -> Q' a st log) -> holds P m Q -> holds P' m Q'.
Proof. intros HP HQ Hm w st log H. specialize (Hm w st log (HP _ _ H)). destruct (m (w, st, log)) as [a [[w' st'] log']]. auto. Qed.
Lemma holds_run P (env : world W) c (Q : answer -> rstate -> list event -> Prop) :
  (forall st log a, P st log -> Q a st (log ++ [(c, a)])) -> holds P (run (exec env) c) Q.
Proof. intros H w st log HP. unfold run, exec. cbn [fst snd]. destruct (w_run env w c) as [a w']. cbn. auto. Qed.
Lemma holds_gets P {A} (f : rstate -> A) (Q : A -> rstate -> list event -> Prop) : (forall st log, P st log -> Q (f st) st log) -> holds P (gets f) Q.
Proof. intros H w st log HP. cbn. auto. Qed.
Lemma holds_ask P {A} (f : W -> A * W) (Q : A -> rstate -> list event -> Prop) : (forall a st log, P st log -> Q a st log) -> holds P (ask f) Q.
Proof. intros H w st log HP. unfold ask. destruct (f w) as [a w']. auto. Qed.
Lemma holds_modify P (f : rstate -> rstate) (Q : unit -> rstate -> list event -> Prop) : (forall st log, P st log -> Q tt (f st) log) -> holds P (modify f) Q.
Proof. intros H w st log HP. cbn. auto. Qed.
Lemma holds_call P {A} c (shown : A -> answer) (f : W -> A * W) (Q : A -> rstate -> list event -> Prop) :
  (forall st log a, P st log -> Q a st (log ++ [(c, shown a)])) -> holds P (call c shown f) Q.
Proof. intros H w st log HP. unfold call. destruct (f w) as [a w']. auto. Qed.

(** An invariant that commands of a kind and other changes of the state leave alone. *)
Record stable (C : cmd -> Prop) (I : rstate -> list event -> Prop) : Prop := mkStable {
  stable_state : forall st st' log, s_restoreBlankFallback st' = s_restoreBlankFallback st -> I st log -> I st' log;
  stable_event : forall st log c a, C c -> I st log -> I st (log ++ [(c, a)]);
}.
Lemma stable_events C I st log evs : stable C I -> Forall (fun e => C (fst e)) evs -> I st log -> I st (log ++ evs).
Proof.
  intros Hs. revert log. induction evs as [|[c a] evs IH]; intros log HF HI; [by rewrite app_nil_r|]. inversion HF; subst.
  change ((c, a) :: evs) with ([(c, a)] ++ evs). rewrite (assoc_L (++)). apply IH; [done|]. by apply (stable_event C I).
Qed.
Lemma emits_keeps C I {A} (m : M A) : stable C I -> emits C m -> holds I m (fun _ => I).
Proof.
  intros Hs Hm w st log HI. destruct (Hm w st log) as (a & w' & st' & evs & -> & S & F). eapply (stable_state C I); [done|exact S|].
  by eapply stable_events.
Qed.

Lemma keep_bind I {A B} (m : M A) (f : A -> M B) : holds I m (fun _ => I) -> (forall a, holds I (f a) (fun _ => I)) -> holds I (m ≫= f) (fun _ => I).
Proof. intros Hm Hf. eapply holds_bind; [exact Hm|exact Hf]. Qed.
Lemma keep_rbind I {A B} (m : M (result apply_err A)) (f : A -> M (result apply_err B)) :
  holds I m (fun _ => I) -> (forall a, holds I (f a) (fun _ => I)) -> holds I (rbind m f) (fun _ => I).
Proof. intros Hm Hf. eapply holds_rbind; [exact Hm|exact Hf|done]. Qed.
Lemma keep_ret I {A} (a : A) : holds I (mret a) (fun _ => I).
Proof. by apply holds_ret. Qed.

End Logic.

Create HintDb emits.
#[export] Hint Resolve emits_ret emits_gets emits_ask : emits.
Ltac emits_step :=
  first [ apply emits_ret | apply emits_gets | apply emits_ask | apply emits_run; plain | apply emits_call; plain | apply emits_modify; reflexivity
        | assumption | solve [eauto with emits] | apply emits_rbind; [|intros ?] | apply emits_bind; [|intros ?] | case_match ].
Ltac emits := repeat emits_step.

(** ** Plain steps *)

Section Plain.
Context {W : Type} (env : world W) (cfg : ReconcilerConfig W) (decode : string -> option (list Slots.drbdsetupStatusResource)).
Context (exit_code : string -> option Z) (range_options : gmap string string -> list (string * string))
  (range_devices : gmap Z string -> list (Z * string)).
Notation exec := (exec env).

Lemma emits_okay P {A} (a : A) : emits (W := W) P (okay a).
Proof. apply emits_ret. Qed.
Lemma emits_fail P {A} e : emits (W := W) (A := result apply_err A) P (fail e).
Proof. apply emits_ret. Qed.
Lemma emits_command P m : emits (W := W) P m -> emits P (command m).
Proof. intros H. unfold command. apply emits_bind; [done|]. intros [t|]; apply emits_ret. Qed.
Lemma emits_on_provider P m : emits (W := W) P m -> emits P (on_provider m).
Proof. intros H. unfold on_provider. apply emits_bind; [done|]. intros [t|]; apply emits_ret. Qed.
Lemma emits_drbdadm P args : P ("drbdadm" :: args) -> emits P (drbdadm exec args).
Proof. intros H. unfold drbdadm. apply emits_bind; [by apply emits_run|]. intros a. apply emits_ret. Qed.
Hint Resolve emits_okay emits_fail emits_command emits_on_provider : emits.
Ltac verb := apply emits_drbdadm; plain.

Lemma Up_plain name : emits plain (Up exec name). Proof. verb. Qed.
Lemma Down_plain name : emits plain (Down exec name). Proof. verb. Qed.
Lemma Adjust_plain name : emits plain (Adjust exec name). Proof. verb. Qed.
Lemma AdjustSkipDisk_plain name : emits plain (AdjustSkipDisk exec name). Proof. verb. Qed.
Lemma AdjustSkipNet_plain name : emits plain (AdjustSkipNet exec name). Proof. verb. Qed.
Lemma AdjustSkipNetSkipDisk_plain name : emits plain (AdjustSkipNetSkipDisk exec name). Proof. verb. Qed.
Lemma Secondary_plain name : emits plain (Secondary exec name). Proof. verb. Qed.
Lemma Detach_plain name : emits plain (Detach exec name). Proof. verb. Qed.
Lemma InvalidateVolume_plain name n : emits plain (InvalidateVolume exec name n). Proof. verb. Qed.
Lemma CreateMD_plain name : emits plain (CreateMD exec name). Proof. verb. Qed.
Lemma ApplyAL_plain name : emits plain (ApplyAL exec name). Proof. verb. Qed.
Lemma Resize_plain name b : emits plain (Resize exec name b). Proof. unfold Resize. destruct b; verb. Qed.
Lemma SetupDown_plain name : emits plain (SetupDown exec name). Proof. unfold SetupDown. emits. Qed.
Lemma ResumeIO_plain name : emits plain (ResumeIO exec name). Proof. unfold ResumeIO, io_verb. emits. Qed.
Lemma SuspendIO_plain name : emits plain (SuspendIO exec name). Proof. unfold SuspendIO, io_verb. emits. Qed.
Lemma DelPeer_plain name peer : emits plain (DelPeer exec name peer). Proof. unfold DelPeer. emits. Qed.
Lemma ForgetPeer_plain name n : emits plain (ForgetPeer exec name n). Proof. unfold ForgetPeer. emits. Qed.
Lemma HasMD_plain t : emits plain (DrbdAdm.HasMD exec t). Proof. unfold DrbdAdm.HasMD. emits. Qed.
Lemma MetadataUUIDs_plain t : emits plain (MetadataUUIDs exec t). Proof. unfold MetadataUUIDs. emits. Qed.
Hint Resolve Up_plain Down_plain Adjust_plain AdjustSkipDisk_plain AdjustSkipNet_plain AdjustSkipNetSkipDisk_plain Secondary_plain Detach_plain
  InvalidateVolume_plain CreateMD_plain ApplyAL_plain Resize_plain SetupDown_plain ResumeIO_plain SuspendIO_plain DelPeer_plain ForgetPeer_plain
  HasMD_plain MetadataUUIDs_plain : emits.

Lemma file_op_plain c : plain c -> emits plain (file_op env c).
Proof. intros H. unfold file_op. by apply emits_call. Qed.
Lemma stat_file_plain path f : emits plain (stat_file env path f).
Proof. unfold stat_file. emits. Qed.
Lemma status_probe_plain {A} name (f : answer -> A) : emits plain (status_probe env name f).
Proof. unfold status_probe. emits. Qed.
Lemma isLoaded_plain name : emits plain (isLoaded env name).
Proof. unfold isLoaded. emits. Qed.
Lemma hasDisklessVolume_plain name : emits plain (hasDisklessVolume env name).
Proof. unfold hasDisklessVolume. emits. Qed.
Hint Resolve stat_file_plain status_probe_plain isLoaded_plain hasDisklessVolume_plain : emits.

Lemma keep_history_plain dr : emits plain (keep_history env cfg dr).
Proof. unfold keep_history. emits. Qed.
Lemma applyInactive_plain dr : emits plain (applyInactive env cfg decode dr).
Proof. unfold applyInactive. emits. Qed.
Lemma recoveryPromoteDue_plain name : emits plain (recoveryPromoteDue env name).
Proof. unfold recoveryPromoteDue, now. emits. Qed.
Lemma lateAddStall_plain name : emits plain (lateAddStallDwellElapsed env name).
Proof. unfold lateAddStallDwellElapsed, now. emits. Qed.
Lemma clearLateAddStall_plain name : emits (W := W) plain (clearLateAddStall name).
Proof. unfold clearLateAddStall. emits. Qed.
Lemma rememberPool_plain name pool : emits (W := W) plain (rememberPool name pool).
Proof. unfold rememberPool. emits. Qed.
Hint Resolve keep_history_plain applyInactive_plain recoveryPromoteDue_plain lateAddStall_plain clearLateAddStall_plain rememberPool_plain : emits.

Lemma close_mappers_plain name vols : emits plain (close_mappers env name vols).
Proof. induction vols; cbn [close_mappers]; unfold luksClose; emits. Qed.
Lemma detach_plain dr : emits plain (detachIfStillAttached env cfg dr).
Proof. unfold detachIfStillAttached. emits. Qed.
Lemma reclaim_plain name vols : emits plain (reclaim_volumes cfg name vols).
Proof. induction vols; cbn [reclaim_volumes]; unfold delete_volume, volume_event; emits. Qed.
Lemma wait_for_plain fuel device deadline : emits plain (wait_for env cfg fuel device deadline).
Proof. induction fuel; cbn [wait_for]; unfold now, wait; emits. Qed.
Hint Resolve wait_for_plain : emits.
Lemma waitForBlockDevice_plain device : emits plain (waitForBlockDevice env cfg device).
Proof. unfold waitForBlockDevice, now. emits. Qed.
Lemma ensure_nodes_plain base vols : emits plain (ensure_nodes env base vols).
Proof. induction vols; cbn [ensure_nodes]; unfold ensure_device_node, file_op; emits. Qed.
Lemma ensureDeviceNodes_plain dr : emits plain (ensureDeviceNodes env dr).
Proof. apply ensure_nodes_plain. Qed.
Hint Resolve close_mappers_plain detach_plain reclaim_plain waitForBlockDevice_plain ensureDeviceNodes_plain : emits.

Lemma up_with_nodes_plain dr : emits plain (up_with_nodes env dr).
Proof. unfold up_with_nodes. emits. Qed.
Lemma dispatchAdjust_plain name b c : emits plain (dispatchAdjust env name b c).
Proof. unfold dispatchAdjust. emits. Qed.
Hint Resolve up_with_nodes_plain dispatchAdjust_plain : emits.
Lemma recoverFromBitmap_plain dr b c : emits plain (recoverFromBitmapBothDisks env dr b c).
Proof. unfold recoverFromBitmapBothDisks. emits. Qed.
Lemma skipNet_plain name : emits plain (shouldSkipNetOnAdjust env decode name).
Proof. unfold shouldSkipNetOnAdjust. emits. Qed.
Hint Resolve recoverFromBitmap_plain skipNet_plain : emits.
Lemma runAdjust_plain dr flip : emits plain (runAdjust env cfg decode dr flip).
Proof. unfold runAdjust, clear_skip_disk, file_op. emits. Qed.
Lemma observe_plain dr diskless : emits plain (observeForFsm env cfg dr diskless).
Proof. unfold observeForFsm, res_stat, md_stat. emits. Qed.
Lemma flip_plain dr diskless : emits plain (isDisklessToDiskfulFlip env dr diskless).
Proof. unfold isDisklessToDiskfulFlip. emits. Qed.
Hint Resolve runAdjust_plain observe_plain flip_plain : emits.
Lemma shouldEnsure_plain dr diskless : emits plain (shouldEnsurePerVolumeMetadata env decode dr diskless).
Proof. unfold shouldEnsurePerVolumeMetadata, hasUnattachedDesiredVolume. emits. Qed.
Lemma myNodeID_plain dr : emits plain (reconcileKernelMyNodeID env decode dr).
Proof. unfold reconcileKernelMyNodeID. emits. Qed.
Lemma metadata_view_plain : emits plain (metadata_view env cfg).
Proof. unfold metadata_view. emits. Qed.
Hint Resolve shouldEnsure_plain myNodeID_plain metadata_view_plain : emits.

Lemma tear_down_plain rd devices ids removed : emits plain (tear_down exec rd devices ids removed).
Proof. induction removed; cbn [tear_down]; emits. Qed.
Lemma tearDownRemovedPeers_plain dr body node devices : emits plain (tearDownRemovedPeers exec dr body node devices).
Proof. apply tear_down_plain. Qed.
Lemma auto_volumes_plain providers devices vols : forall acc, emits plain (auto_volumes exec providers devices vols acc).
Proof. induction vols; intros acc; cbn [auto_volumes]; unfold autoDiskOptions, discardGranularityBytes; emits. Qed.
Lemma render_step_plain dr devices d : emits plain (render_step env cfg range_options dr devices d).
Proof.
  assert (forall b providers, emits plain (autoDiskOptionsForResource exec b providers dr devices)).
  { intros b providers. unfold autoDiskOptionsForResource. repeat (case_match; try apply emits_ret). apply emits_bind; [apply auto_volumes_plain|]. intros. apply emits_ret. }
  unfold render_step, writable, ResFile.renderResFile. emits.
Qed.
Hint Resolve tearDownRemovedPeers_plain render_step_plain : emits.
Lemma on_dir_emits P {E} (wrap : E -> apply_err) step : (forall d, emits P (step d)) -> emits (W := W) P (on_dir wrap step).
Proof. intros H. unfold on_dir. apply emits_bind; [apply emits_gets|]. intros d. apply emits_bind; [apply H|]. intros [d' e]. apply emits_bind; [by apply emits_modify|]. intros _. case_match; apply emits_ret. Qed.
Lemma renderResFile_plain dr devices : emits plain (renderResFile env cfg range_options dr devices).
Proof. apply on_dir_emits. intros d. apply render_step_plain. Qed.
Hint Resolve renderResFile_plain : emits.

Lemma watch_peers_plain n name : emits plain (watch_peers env decode n name).
Proof. induction n; cbn [watch_peers]; unfold wait; emits. Qed.
Hint Resolve watch_peers_plain : emits.
Lemma shouldForcePromote_plain dr : emits plain (shouldForcePromote env decode dr).
Proof. unfold shouldForcePromote. emits. Qed.
Lemma backing_plain device : emits plain (backingHasUserFilesystem env device).
Proof. unfold backingHasUserFilesystem. emits. Qed.
Hint Resolve shouldForcePromote_plain backing_plain : emits.
Lemma volumes_day0_plain rd devices vols : emits plain (volumes_day0_empty env rd devices vols).
Proof. induction vols; cbn [volumes_day0_empty]; emits. Qed.
Hint Resolve volumes_day0_plain : emits.
Lemma bypass_plain dr devices : emits plain (day0EmptyMkfsBypass env cfg decode dr devices).
Proof. unfold day0EmptyMkfsBypass, allVolumesDay0Empty. emits. Qed.
Lemma any_unformatted_plain devices vols : emits plain (any_unformatted env devices vols).
Proof. induction vols; cbn [any_unformatted]; emits. Qed.
Lemma retry_plain dr : emits plain (needsAutoMkfsRetry env cfg dr).
Proof. unfold needsAutoMkfsRetry, mkfs_marker. emits. Qed.
Hint Resolve bypass_plain any_unformatted_plain retry_plain : emits.
Lemma mint_each_plain name minors : emits plain (mint_each env name minors).
Proof. induction minors; cbn [mint_each]; emits. Qed.
Hint Resolve mint_each_plain : emits.
Lemma mint_plain name : emits plain (mintLateAddSource env decode name).
Proof. unfold mintLateAddSource. emits. Qed.
Hint Resolve mint_plain : emits.
Lemma lateAddPromote_plain dr diskless : emits plain (maybeLateAddPromote env cfg decode dr diskless).
Proof. unfold maybeLateAddPromote. emits. Qed.
Lemma kick_plain dr diskless : emits plain (maybeKickLateAddResync env cfg decode dr diskless).
Proof. unfold maybeKickLateAddResync. emits. Qed.
Hint Resolve lateAddPromote_plain kick_plain : emits.

(** Creating metadata: plain but for the generations it writes. *)
Definition plain_or_seed (c : cmd) : Prop := is_mkfs c = false /\ (forall name, c <> primary_force name) /\ (forall device, c <> luks_format device).
Lemma plain_seed c : plain c -> plain_or_seed c.
Proof. intros (? & ? & _ & ?). done. Qed.
Lemma set_gi_seed device n gi : plain_or_seed (set_gi device n gi).
Proof. split_and!; [done|intros; discriminate..]. Qed.
Hint Extern 3 (emits plain_or_seed _) => (apply (emits_mono plain _ _ plain_seed)) : emits.

Lemma createMD_plain self t : emits plain (createMDWithCollisionRecovery exec self t).
Proof. unfold createMDWithCollisionRecovery. emits. Qed.
Lemma hasMD_plain r rd vol : emits plain (volumeHasMD exec r rd vol).
Proof. unfold volumeHasMD, repairUncleanMetadata. emits. Qed.
Hint Resolve createMD_plain hasMD_plain : emits.
Lemma ensure_volumes_plain r rd vols : forall fresh, emits plain (ensure_volumes exec r rd vols fresh).
Proof. induction vols; intros fresh; cbn [ensure_volumes]; emits. Qed.
Lemma resolve_plain r rd vol b w skip : emits plain (resolveVolumeSeed exec decode r rd vol b w skip).
Proof. unfold resolveVolumeSeed. emits. Qed.
Lemma set_slots_seed rd vol device gi nodes : emits plain_or_seed (set_slots exec rd vol device gi nodes).
Proof. induction nodes; cbn [set_slots]; [apply emits_ret|]. unfold SetGIString. apply emits_bind; [apply emits_bind; [apply emits_run, set_gi_seed|intros; apply emits_ret]|]. intros [e|]; [apply emits_ret|done]. Qed.
Lemma seed_volumes_seed r dr devices winner want vols : emits plain_or_seed (seed_volumes exec decode r dr devices winner want vols).
Proof.
  induction vols as [|vol vols IH]; cbn [seed_volumes]; [apply emits_ret|]. case_match; [done|]. case_match; [done|].
  apply emits_bind; [eapply emits_mono; [apply plain_seed|apply resolve_plain]|]. intros [s|]; [|done].
  apply emits_bind; [|intros [e|]; [apply emits_ret|done]]. unfold seedPerPeerGI. case_match; [apply emits_ret|apply set_slots_seed].
Qed.
Lemma ensureMetadata_seed r ok dr devices first d : emits plain_or_seed (ensureMetadata exec decode r ok dr devices first d).
Proof.
  unfold ensureMetadata. apply emits_bind; [eapply emits_mono; [apply plain_seed|apply ensure_volumes_plain]|]. intros [fresh|e]; [|apply emits_ret].
  repeat (case_match; try apply emits_ret). apply emits_bind; [apply seed_volumes_seed|]. intros. apply emits_ret.
Qed.

Lemma metadata_step_seed dr step : (forall r ok d, emits plain_or_seed (step r ok d)) -> emits plain_or_seed (metadata_step env cfg dr step).
Proof.
  intros H. unfold metadata_step, writable. apply emits_bind; [eapply emits_mono; [apply plain_seed|apply metadata_view_plain]|]. intros r.
  apply emits_bind; [apply emits_ask|]. intros ok. apply on_dir_emits. intros d. apply H.
Qed.
Lemma createMetadata_seed dr devices : emits plain_or_seed (createMetadata env cfg decode dr devices).
Proof. apply metadata_step_seed. intros r ok d. apply ensureMetadata_seed. Qed.
Lemma maybeStamp_seed dr devices diskless first flip : emits plain_or_seed (maybeStampMetadata env cfg decode dr devices diskless first flip).
Proof.
  apply metadata_step_seed. intros r ok d. unfold Metadata.maybeStampMetadata, Metadata.createMetadata.
  repeat (case_match; try apply emits_ret; try apply ensureMetadata_seed).
Qed.
Lemma ensurePerVolume_seed dr devices diskless : emits plain_or_seed (ensurePerVolumeMetadata env cfg decode range_options dr devices diskless).
Proof.
  unfold ensurePerVolumeMetadata. apply emits_bind; [eapply emits_mono; [apply plain_seed|apply metadata_view_plain]|]. intros r. apply on_dir_emits. intros d.
  unfold Metadata.ensurePerVolumeMetadata. case_match; [apply emits_ret|].
  apply emits_bind; [eapply emits_mono; [apply plain_seed|apply render_step_plain]|]. intros [d' [e|]]; [apply emits_ret|].
  apply emits_bind; [eapply emits_mono; [apply plain_seed|apply ensure_volumes_plain]|]. intros [[|n fresh]|e]; [apply emits_ret| |apply emits_ret].
  apply emits_bind; [apply seed_volumes_seed|]. intros. apply emits_ret.
Qed.

End Plain.
