(* ===== verification/ApplyProps.v ===== *)
(** * A pass of the satellite: properties

    A file system is made only on a device that showed none, and on the promoted DRBD device; a
    replica is promoted by force only when it was elected or the kernel shows that nothing can be
    lost; a device is encrypted only when it is empty. A volume restored from a snapshot is
    trusted only when this very pass restored it. *)

From Stdlib Require Import Ascii.
From S2P Require Import Prelude Prog Storage SatelliteFsm GoStrings DrbdAlloc DrbdStates DrbdText DrbdStatus DrbdAdm Dispatcher Lsblk ResFile GiHistory Metadata MetadataProps Apply ApplyLogic.

Section Pass.
Context {W : Type} (env : world W) (cfg : ReconcilerConfig W) (decode : string -> option (list Slots.drbdsetupStatusResource)).
Context (exit_code : string -> option Z) (range_options : gmap string string -> list (string * string))
  (range_devices : gmap Z string -> list (Z * string)).
Context (dr : DesiredResource).
Notation exec := (exec env).
Notation M A := (shell (W := W * rstate) A).
Notation applyOne := (applyOne env cfg decode exit_code range_options range_devices).
Notation name := (dr_Name dr).
Notation replica_diskless := (isDiskless (dr_Flags dr)).

(** ** Composition *)

Definition elected : Prop := get (dr_DrbdOptions dr) "auto-primary" = boolPropTrue.
(** Why the replica may be promoted by force. *)
Definition may_promote (log : list event) : Prop :=
  replica_diskless = false /\
  (elected \/ exists a, (status_json name, a) ∈ log /\
     ((isLowestDiskfulNodeID dr = true /\ SafeForMkfsRetryPromote decode a = true) \/
      (GetPeerNames dr = [] /\ NeedsSoloPromote decode a = true))).

Lemma may_promote_more log evs : may_promote log -> may_promote (log ++ evs).
Proof. intros (Hd & [He|(a & Ha & H)]); (split; [done|]); [by left|]. right. exists a. split; [|done]. apply elem_of_app. by left. Qed.

Section Keeps.
Context (I : rstate -> list event -> Prop) (Hstable : stable plain I).
Context (Hpromote : holds (fun st log => I st log /\ may_promote log) (runAutoPromote env cfg dr) (fun _ => I)).

Lemma plain_keeps {A} (m : M A) : emits plain m -> holds I m (fun _ => I).
Proof using Hstable. by apply emits_keeps. Qed.

(** A step whose outcome is kept beside the invariant. *)
Lemma probe_keeps {A} (f : answer -> A) : holds I (status_probe env name f) (fun b st log => I st log /\ exists a, (status_json name, a) ∈ log /\ f a = b).
Proof using Hstable.
  unfold status_probe. eapply holds_bind with (R := fun a st log => I st log /\ (status_json name, a) ∈ log).
  - apply holds_run. intros st log a HI. split; [apply (stable_event plain I); [done|plain|done]|]. apply elem_of_app. right. by left.
  - intros a. apply holds_ret. intros st log [HI Ha]. split; [done|]. by exists a.
Qed.
Lemma plain_keeps_more {A} (m : M A) (F : list event -> Prop) : (forall log evs, F log -> F (log ++ evs)) -> emits plain m ->
  holds (fun st log => I st log /\ F log) m (fun _ st log => I st log /\ F log).
Proof using Hstable.
  intros HF Hm w st log [HI HFl]. destruct (Hm w st log) as (a & w' & st' & evs & -> & S & HC). split; [|by apply HF].
  eapply (stable_state plain I); [done|exact S|]. by eapply (stable_events plain).
Qed.

Lemma promote_when_due (F : list event -> Prop) :
  (forall log evs, F log -> F (log ++ evs)) -> (forall log, F log -> may_promote log) ->
  holds (fun st log => I st log /\ F log)
    (due ← recoveryPromoteDue env name; if due : bool then runAutoPromote env cfg dr else okay tt) (fun _ => I).
Proof using Hstable Hpromote.
  intros Hmore Hmay. eapply holds_bind; [apply plain_keeps_more; [exact Hmore|apply recoveryPromoteDue_plain]|]. intros [].
  - eapply holds_mono; [..|exact Hpromote]; [|done]. intros st log [HI HF]. auto.
  - apply holds_ret. by intros st log [HI _].
Qed.

Lemma solo_keeps : holds I (maybeSoloPromote env cfg decode dr replica_diskless) (fun _ => I).
Proof using Hstable Hpromote.
  unfold maybeSoloPromote. destruct replica_diskless eqn:Hd; [by apply holds_ret|]. destruct (cfg_Adm cfg); [|by apply holds_ret]. cbn [orb negb].
  case_bool_decide as Hp; [|by apply holds_ret]. cbn [negb]. eapply holds_bind; [apply probe_keeps|]. intros []; [|apply holds_ret; by intros st log [HI _]]. cbn [negb].
  apply (promote_when_due (fun log => exists a, (status_json name, a) ∈ log /\ NeedsSoloPromote decode a = true)).
  - intros log evs (a & Ha & H). exists a. split; [|done]. apply elem_of_app. by left.
  - intros log (a & Ha & H). split; [done|]. right. exists a. auto.
Qed.
Lemma recovery_keeps autoPromote autoPrimary : (autoPrimary = true -> replica_diskless = false /\ elected) ->
  holds I (maybeRecoveryPromote env cfg decode dr autoPromote autoPrimary) (fun _ => I).
Proof using Hstable Hpromote.
  intros Hel. unfold maybeRecoveryPromote. destruct autoPromote; [by apply holds_ret|]. destruct autoPrimary; [|by apply holds_ret]. cbn [orb negb].
  destruct (Hel eq_refl) as [Hd He]. eapply holds_bind; [apply probe_keeps|]. intros []; [|apply holds_ret; by intros st log [HI _]]. cbn [negb].
  eapply holds_mono; [| |apply (promote_when_due (fun _ => True))]; [by intros st log [HI _]|done|done|]. intros log _. split; [done|by left].
Qed.
Lemma self_heals_keep autoPromote autoPrimary resizing : (autoPrimary = true -> replica_diskless = false /\ elected) ->
  holds I (maybePromoteSelfHeals env cfg decode dr replica_diskless autoPromote autoPrimary resizing) (fun _ => I).
Proof using Hstable Hpromote.
  intros Hel. unfold maybePromoteSelfHeals. apply keep_rbind; [by apply recovery_keeps|]. intros _.
  apply keep_rbind; [|intros _; apply solo_keeps]. destruct resizing; [apply keep_ret|].
  apply keep_rbind; [apply plain_keeps, lateAddPromote_plain|]. intros _. apply plain_keeps, kick_plain.
Qed.

Lemma latch_free_keeps devices : holds I (latchFreeMkfsRetryAllowed env decode dr devices)
  (fun b st log => I st log /\ (b = true -> isLowestDiskfulNodeID dr = true /\ exists a, (status_json name, a) ∈ log /\ SafeForMkfsRetryPromote decode a = true)).
Proof using Hstable.
  unfold latchFreeMkfsRetryAllowed. destruct (isLowestDiskfulNodeID dr) eqn:Hl; [|apply holds_ret; by intros]. cbn [negb].
  eapply holds_bind; [apply probe_keeps|]. intros []; [|apply holds_ret; by intros st log [HI _]]. cbn [negb].
  assert (forall (m : M bool), emits plain m -> holds (fun st log => I st log /\ exists a, (status_json name, a) ∈ log /\ SafeForMkfsRetryPromote decode a = true) m
    (fun b st log => I st log /\ exists a, (status_json name, a) ∈ log /\ SafeForMkfsRetryPromote decode a = true)) as Hm.
  { intros m Hm. apply plain_keeps_more; [|done]. intros log evs (a & Ha & H). exists a. split; [|done]. apply elem_of_app. by left. }
  eapply holds_bind; [apply Hm, any_unformatted_plain|]. intros []; [|apply holds_ret; by intros st log [HI _]]. cbn [negb].
  eapply holds_mono; [..|apply Hm, recoveryPromoteDue_plain]; [done|]. cbn beta. by intros b st log [HI H].
Qed.
Lemma retry_keeps autoPromote autoPrimary devices : (autoPrimary = true -> elected) ->
  holds I (shouldRetryAutoMkfs env cfg decode dr autoPromote autoPrimary replica_diskless devices)
    (fun b st log => I st log /\ (b = true -> may_promote log)).
Proof using Hstable.
  intros Hel. unfold shouldRetryAutoMkfs. destruct autoPromote; [apply holds_ret; by intros|]. destruct replica_diskless eqn:Hd; [apply holds_ret; by intros|]. cbn [orb].
  eapply holds_bind; [apply plain_keeps, retry_plain|]. intros []; [|apply holds_ret; by intros]. cbn [negb]. destruct autoPrimary.
  - apply holds_ret. intros st log HI. split; [done|]. intros _. split; [done|]. left. by apply Hel.
  - eapply holds_mono; [..|apply latch_free_keeps]; [done|]. cbn beta. intros b st log [HI H]. split; [done|]. intros Hb.
    destruct (H Hb) as [Hl (a & Ha & Hs)]. split; [done|]. right. exists a. auto.
Qed.

Lemma finish_keeps first resized devices : holds I (finishDRBDApply env cfg decode dr replica_diskless first resized devices) (fun _ => I).
Proof using Hstable Hpromote.
  unfold finishDRBDApply. apply keep_rbind; [destruct resized; [apply plain_keeps, emits_command, Resize_plain|apply keep_ret]|]. intros _.
  set (auto := negb replica_diskless && _). assert (auto = true -> replica_diskless = false /\ elected) as Hel.
  { intros [Hd He%bool_decide_eq_true]%andb_true_iff. split; [|done]. by destruct replica_diskless. }
  apply keep_bind. { destruct (first && auto); [|apply keep_ret]. apply keep_bind; [apply plain_keeps, shouldForcePromote_plain|]. intros []; [apply keep_ret|apply plain_keeps, bypass_plain]. }
  intros []; [|apply keep_ret]. cbn [negb]. apply keep_rbind.
  { destruct (first && auto && needsMkfs dr) eqn:Hp; [|apply keep_ret]. eapply holds_mono; [..|exact Hpromote]; [|done].
    intros st log HI. split; [done|]. apply andb_true_iff in Hp as [[_ Hauto]%andb_true_iff _]. destruct (Hel Hauto). split; [done|by left]. }
  intros _. eapply holds_bind; [apply retry_keeps; intros H; by apply Hel|]. intros retry.
  eapply holds_rbind with (R := fun _ => I); [|intros ?; by apply self_heals_keep|done]. destruct retry.
  - eapply holds_mono; [..|exact Hpromote]; [|done]. intros st log [HI H]. auto.
  - apply holds_ret. by intros st log [HI _].
Qed.

(** The steps that create metadata are left open. *)
Context (devices : gmap Z string).
Context (Hcreate : holds I (createMetadata env cfg decode dr devices) (fun _ => I)).
Context (Hstamp : forall first flip, holds I (maybeStampMetadata env cfg decode dr devices replica_diskless first flip) (fun _ => I)).
Context (Hensure : holds I (ensurePerVolumeMetadata env cfg decode range_options dr devices replica_diskless) (fun _ => I)).

Lemma dispatch_keeps action obs : holds I (dispatchFsmAction (helpers env cfg decode range_options dr devices) action obs) (fun _ => I).
Proof using Hstable Hcreate.
  assert (holds I (renderResFile env cfg range_options dr devices) (fun _ => I)) as Hrender by (apply plain_keeps, renderResFile_plain).
  assert (forall (m : M (result apply_err unit)) k, holds I m (fun _ => I) -> holds I k (fun _ => I) ->
    holds I (fun s => and_then (m s) k) (fun _ => I)) as Hthen.
  { intros m k Hm Hk w st log HI. specialize (Hm w st log HI). unfold and_then. destruct (m (w, st, log)) as [[[]|e] [[w' st'] log']]; [exact (Hk w' st' log' Hm)|done]. }
  unfold dispatchFsmAction. apply Hthen.
  - destruct (consumes_res action); [exact Hrender|apply (keep_ret I (Ok tt))].
  - assert (holds I (fun s : (W * rstate) * list event => (Ok tt : result apply_err unit, s)) (fun _ => I)) as Hnone by apply (keep_ret I (Ok tt)).
    destruct action; cbn [helpers SatelliteFsm.renderResFile SatelliteFsm.createMetadata SatelliteFsm.bringUpResource SatelliteFsm.adjustResource]; try exact Hnone.
    + exact Hrender.
    + destruct (createMd_blocked obs); [exact Hnone|exact Hcreate].
    + apply plain_keeps, up_with_nodes_plain.
    + apply plain_keeps, runAdjust_plain.
    + apply plain_keeps, runAdjust_plain.
Qed.
Lemma heal_keeps : holds I (healAndDispatchFsm env cfg decode range_options dr replica_diskless devices) (fun _ => I).
Proof using Hstable Hcreate.
  unfold healAndDispatchFsm. apply keep_rbind; [apply plain_keeps, myNodeID_plain|]. intros _. apply keep_bind; [apply plain_keeps, observe_plain|].
  intros obs. destruct (NextTransition _ obs); [apply dispatch_keeps|apply keep_ret].
Qed.
Lemma applyDRBD_keeps resized : holds I (applyDRBD env cfg decode range_options dr replica_diskless devices resized) (fun _ => I).
Proof using Hstable Hpromote Hcreate Hstamp Hensure.
  unfold applyDRBD. case_bool_decide; [apply keep_ret|]. apply keep_bind; [apply plain_keeps, stat_file_plain|]. intros md.
  destruct (gateBringUpReadiness _ _ _); [apply keep_ret|]. apply keep_bind; [apply plain_keeps, observe_plain|]. intros _.
  apply keep_bind; [apply plain_keeps, emits_ask|]. intros readable. apply keep_bind; [apply plain_keeps, emits_gets|]. intros body.
  apply keep_rbind; [apply plain_keeps, emits_command, tearDownRemovedPeers_plain|]. intros _.
  apply keep_bind; [apply plain_keeps, shouldEnsure_plain|]. intros ensure. apply keep_rbind; [destruct ensure; [exact Hensure|apply keep_ret]|]. intros _.
  apply keep_rbind; [apply heal_keeps|]. intros _. apply keep_bind; [apply plain_keeps, stat_file_plain|]. intros md'.
  apply keep_bind; [apply plain_keeps, flip_plain|]. intros flip. apply keep_rbind; [apply Hstamp|]. intros _.
  apply keep_rbind; [|intros _; apply finish_keeps]. destruct (_ || flip); [apply plain_keeps, runAdjust_plain|apply keep_ret].
Qed.

End Keeps.

(** ** What is formatted, promoted and encrypted *)

Definition with_drbd : bool := cfg_Adm cfg && needsDRBD (dr_LayerStack dr).
Definition promoted (log : list event) : Prop := exists out, (primary_force name, (None, out)) ∈ log.
(** The last look at the marker of an earlier formatting did not find it. *)
Definition unmarked (log : list event) : Prop := exists pre a post,
  log = pre ++ (marker_stat name, a) :: post /\ fst a <> None /\ Forall (fun e => fst e <> marker_stat name) post.
(** The last thing that happened is a probe of the device that shows no file system (a probe that failed shows none);
    the marker was not found; under DRBD the device is that of a volume of the replica, and the replica was promoted. *)
Definition may_format (log : list event) (c : cmd) : Prop := exists device a pre,
  c = mkfs dr device /\ log = pre ++ [(blkid device, a)] /\ names_filesystem a = false /\
  needsMkfs dr = true /\ dr_FilesystemFormatted dr = false /\ unmarked log /\ replica_diskless = false /\
  (with_drbd = true -> promoted log /\ exists n, drbdDevicesForMkfs dr !! n = Some device).
(** The last three things that happened: the device is not encrypted, the probe found nothing on it, and the path
    is a block device, so that the probe could tell. *)
Definition may_encrypt (log : list event) (device : string) : Prop := exists pre a text out,
  log = pre ++ [(["cryptsetup"; "isLuks"; device], a); (luks_probe device, (Some text, out)); (is_block_device device, block_device_answer)] /\ fst a <> None /\
  exit_code text = Some blkidNothingFound /\ contains blkidErrorMarker text = false.

Definition justified_command (log : list event) (c : cmd) : Prop :=
  (is_mkfs c = true -> may_format log c) /\ (c = primary_force name -> may_promote log) /\ (forall device, c = luks_format device -> may_encrypt log device).
Definition justified_log (log : list event) : Prop := forall pre c a post, log = pre ++ (c, a) :: post -> justified_command pre c.
Definition all_justified (st : rstate) (log : list event) : Prop := justified_log log.

Lemma justified_snoc log c a : justified_log log -> justified_command log c -> justified_log (log ++ [(c, a)]).
Proof.
  intros H Hc pre c' a' post E. destruct post as [|e post _] using rev_ind.
  - apply app_inj_tail in E as [-> E]. by injection E as <- <-.
  - rewrite app_comm_cons, (assoc_L (++)) in E. apply app_inj_tail in E as [E _]. by eapply H.
Qed.
Lemma plain_justified log c : plain c -> justified_command log c.
Proof. intros (H1 & H2 & H3 & H4). split_and!; [by rewrite H1|intros ->; by destruct (H2 name)|intros device ->; by destruct (H4 device)]. Qed.
Lemma seed_justified log c : plain_or_seed c -> justified_command log c.
Proof. intros (H1 & H2 & H4). split_and!; [by rewrite H1|intros ->; by destruct (H2 name)|intros device ->; by destruct (H4 device)]. Qed.
Lemma justified_stable C : (forall log c, C c -> justified_command log c) -> stable C all_justified.
Proof. intros H. split; [done|]. intros st log c a Hc HI. apply justified_snoc; auto. Qed.

Notation J := all_justified.
Lemma J_keeps {A} (m : M A) : emits plain m -> holds J m (fun _ => J).
Proof. apply emits_keeps, justified_stable, plain_justified. Qed.
Lemma J_keeps_seeds {A} (m : M A) : emits plain_or_seed m -> holds J m (fun _ => J).
Proof. apply emits_keeps, justified_stable, seed_justified. Qed.

(** *** Making file systems *)

Definition ready (log : list event) : Prop := with_drbd = true -> promoted log.
Lemma ready_more log evs : ready log -> ready (log ++ evs).
Proof. intros H Hd. destruct (H Hd) as [out Ho]. exists out. apply elem_of_app. by left. Qed.
Definition due (log : list event) : Prop := ready log /\ unmarked log.
Lemma due_more log e : fst e <> marker_stat name -> due log -> due (log ++ [e]).
Proof.
  intros He [Hr (pre & a & post & -> & Ha & Hp)]. split; [by apply ready_more|]. exists pre, a, (post ++ [e]). rewrite <- (assoc_L (++)).
  split_and!; [done..|]. apply Forall_app. split; [done|]. by apply Forall_singleton.
Qed.

Lemma mkfs_volumes_keep devices vols : needsMkfs dr = true -> dr_FilesystemFormatted dr = false -> replica_diskless = false ->
  (with_drbd = true -> devices = drbdDevicesForMkfs dr) ->
  holds (fun st log => J st log /\ due log) (mkfs_volumes env dr devices vols) (fun _ st log => J st log /\ due log).
Proof.
  intros Hneeds Hformatted Hdl Hdev. induction vols as [|vol vols IH]; cbn [mkfs_volumes]; [by apply holds_ret|].
  case_bool_decide as Hd; [done|]. set (device := default "" (devices !! dv_VolumeNumber vol)) in *.
  eapply holds_bind with (R := fun b st log => (J st log /\ due log) /\ (b = false -> exists a pre, log = pre ++ [(blkid device, a)] /\ names_filesystem a = false)).
  { unfold deviceHasFilesystem. eapply holds_bind with (R := fun a st log => (J st log /\ due log) /\ exists pre, log = pre ++ [(blkid device, a)]).
    - apply holds_run. intros st log a [HJ Hr]. split; [|by exists log]. split; [|apply due_more; [done|done]]. apply justified_snoc; [done|]. apply plain_justified. plain.
    - intros a. apply holds_ret. intros st log [HJ [pre Hpre]]. split; [done|]. intros Hn. eauto. }
  intros []; [eapply holds_mono; [..|exact IH]; [by intros st log [H _]|done]|].
  eapply holds_bind with (R := fun _ st log => J st log /\ due log).
  - apply holds_run. intros st log a [[HJ Hr] Hlast]. destruct (Hlast eq_refl) as (b & pre & Hpre & Hb). split; [|apply due_more; [done|done]].
    apply justified_snoc; [done|]. split_and!; [|done|done]. intros _. exists device, b, pre. split_and!; try done; [apply Hr|]. intros Hdrbd. split; [by apply Hr|].
    exists (dv_VolumeNumber vol). rewrite <- (Hdev Hdrbd). unfold device in *. by destruct (devices !! dv_VolumeNumber vol).
  - intros a. destruct (fst a); [by apply holds_ret|exact IH].
Qed.

Lemma runAutoMkfs_keeps devices : replica_diskless = false -> (with_drbd = true -> devices = drbdDevicesForMkfs dr) ->
  holds (fun st log => J st log /\ ready log) (runAutoMkfs env cfg dr devices) (fun _ => J).
Proof.
  intros Hdl Hdev. unfold runAutoMkfs. destruct (needsMkfs dr) eqn:Hn; [|apply holds_ret; by intros st log [H _]]. cbn [negb].
  destruct (negb (cfg_Exec cfg) || _); [apply holds_ret; by intros st log [H _]|]. destruct (dr_FilesystemFormatted dr) eqn:Hf; [apply holds_ret; by intros st log [H _]|].
  eapply holds_bind with (R := fun s st log => J st log /\ ready log /\ (s <> SatelliteFsm.Present -> unmarked log)).
  { unfold mkfs_marker. eapply holds_bind with (R := fun _ st log => J st log /\ ready log).
    - intros w st log [HJ Hr]. destruct (stat_file_plain env (name +:+ ".mkfs.done") (fun s => bool_decide (name ∈ s_mkfs_done s)) w st log) as (a & w' & st' & evs & E & _ & F).
      rewrite E. split; [|by apply ready_more]. eapply (stable_events plain); [apply justified_stable, plain_justified|done|]. exact HJ.
    - intros s w st log [HJ Hr]. unfold call. cbn. split_and!; [apply justified_snoc; [done|]; apply plain_justified; plain|by apply ready_more|].
      intros Hs. exists log, (shown_stat s), []. split_and!; [done|by destruct s|done]. }
  assert (holds (fun st log => J st log /\ due log) (rbind (mkfs_volumes env dr devices (dr_Volumes dr)) (fun _ => mark_formatted env name)) (fun _ => J)) as Hgo.
  { eapply holds_rbind; [by apply mkfs_volumes_keep| |by intros e st log [H _]]. intros ?. eapply holds_mono; [..|apply J_keeps]; [by intros st log [H _]|done|].
    unfold mark_formatted, file_op. emits. }
  intros []; [apply holds_ret; by intros st log [H _]|..]; (eapply holds_mono; [..|exact Hgo]; [|done]);
    intros st log (HJ & Hr & Hm); (split; [done|split; [done|by apply Hm]]).
Qed.

Lemma runAutoPromote_keeps : holds (fun st log => J st log /\ may_promote log) (runAutoPromote env cfg dr) (fun _ => J).
Proof.
  unfold runAutoPromote. eapply holds_rbind with (R := fun r st log => J st log /\ (r = Ok tt -> promoted log) /\ replica_diskless = false).
  - unfold command, PrimaryForce, drbdadm. eapply holds_bind with (R := fun e st log => J st log /\ (e = None -> promoted log) /\ replica_diskless = false).
    + eapply holds_bind with (R := fun a st log => J st log /\ (fst a = None -> promoted log) /\ replica_diskless = false).
      * apply holds_run. intros st log [e out] [HJ Hm]. split_and!; [|intros He; cbn in He; subst e; exists out; apply elem_of_app; right; by left|apply Hm].
        apply justified_snoc; [done|]. split_and!; [by intros|done|intros; discriminate].
      * intros a. apply holds_ret. intros st log (HJ & Hp & Hd). split_and!; [done| |done]. rewrite wrapf_None. exact Hp.
    + intros [e|]; apply holds_ret; intros st log (HJ & Hp & Hd); split_and!; auto. done.
  - intros []. eapply holds_rbind with (R := fun _ => J).
    + intros w st log (HJ & Hp & Hd). refine (runAutoMkfs_keeps (drbdDevicesForMkfs dr) Hd (fun _ => eq_refl) w st log _). split; [done|]. intros _. by apply Hp.
    + intros ?. apply J_keeps, emits_command, Secondary_plain.
    + done.
  - by intros e st log (HJ & _).
Qed.

(** *** Encrypting *)

Lemma luksFormat_keeps device : holds J (luksFormat env exit_code device) (fun _ => J).
Proof.
  unfold luksFormat. eapply holds_bind with (R := fun a st log => J st log /\ exists pre, log = pre ++ [(["cryptsetup"; "isLuks"; device], a)]).
  { apply holds_run. intros st log a HJ. split; [|by exists log]. apply justified_snoc; [done|]. apply plain_justified. plain. }
  intros a. destruct (fst a) as [t|] eqn:Ha; [|apply holds_ret; by intros st log [H _]].
  eapply holds_rbind with (R := fun r st log => J st log /\ (r = Ok [] -> may_encrypt log device)); [|..|by intros e st log [H _]].
  - unfold probeSignatures. eapply holds_bind with (R := fun b st log => J st log /\ exists pre, log = pre ++ [(["cryptsetup"; "isLuks"; device], a); (luks_probe device, b)]).
    { apply holds_run. intros st log b [HJ [pre ->]]. split; [|exists pre; by rewrite <- (assoc_L (++))]. apply justified_snoc; [done|]. apply plain_justified. plain. }
    intros [[text|] out].
    + destruct (bool_decide _ && _) eqn:Hc; [|apply holds_ret; intros st log [H _]; by split].
      apply andb_true_iff in Hc as [Hc%bool_decide_eq_true Hm%negb_true_iff].
      eapply holds_rbind with (R := fun r st log => J st log /\ (r = Ok tt -> may_encrypt log device)).
      * unfold requireBlockDevice. eapply holds_bind with (R := fun r st log => J st log /\ (r = Ok true -> may_encrypt log device)).
        { intros w st log [HJ [pre ->]]. unfold call. destruct (w_isBlockDevice env w device) as [r w']. cbn.
          split; [apply justified_snoc; [done|]; apply plain_justified; plain|]. intros ->. exists pre, a, text, out.
          rewrite <- (assoc_L (++)). split_and!; [done|by rewrite Ha|done..]. }
        intros [[]|]; apply holds_ret; intros st log [HJ H]; (split; [done|]); [by intros; apply H|done..].
      * intros []. apply holds_ret. intros st log [HJ H]. split; [done|]. intros _. by apply H.
      * intros e st log [HJ _]. by split.
    + apply holds_ret. intros st log [HJ _]. split; [done|]. by destruct (named_signatures out).
  - intros sigs. case_bool_decide as Hs; [|apply holds_ret; by intros st log [H _]]. subst sigs. unfold command.
    eapply holds_bind with (R := fun _ => J); [|intros [e|]; by apply holds_ret].
    eapply holds_bind with (R := fun _ => J); [|intros b; by apply holds_ret]. apply holds_run. intros st log b [HJ H]. apply justified_snoc; [done|].
    split_and!; [done|intros; discriminate|]. intros d [= <-]. by apply H.
Qed.
Lemma luks_volumes_keep resized devices : forall out grew, holds J (luks_volumes env cfg exit_code name resized devices out grew) (fun _ => J).
Proof.
  induction devices as [|[vol dev] devices IH]; intros out grew; cbn [luks_volumes]; [by apply holds_ret|].
  apply keep_rbind; [apply luksFormat_keeps|]. intros _. apply keep_rbind; [apply J_keeps; unfold luksOpen, okay, fail; emits|]. intros open.
  apply keep_bind; [apply J_keeps; unfold luksMapperBehindUnderlying, readDeviceSizeBytes; emits|]. intros behind.
  apply keep_rbind; [apply J_keeps; unfold luksResize, command, okay, fail; emits|]. intros _. apply IH.
Qed.
Lemma maybeLUKS_keeps diskless devices resized : holds J (maybeLUKS env cfg exit_code range_devices dr diskless devices resized) (fun _ => J).
Proof. unfold maybeLUKS, applyLUKS. repeat (case_match; try apply keep_ret). apply luks_volumes_keep. Qed.

(** *** The whole pass *)

(** What only looks at the events, and minds no plain one, survives the making of a volume. *)
Lemma materialize_keeps (I : list event -> Prop) p vol : (forall log c a, plain c -> I log -> I (log ++ [(c, a)])) ->
  holds (fun _ => I) (materializeVolume env cfg p name vol) (fun _ _ => I).
Proof.
  intros HI. set (J := fun _ : rstate => I). assert (stable plain J) as Hst by (split; [done|]; intros st log c a; apply HI).
  assert (forall {A} (m : M A), emits plain m -> holds J m (fun _ => J)) as J_keeps by (intros A m; by apply emits_keeps).
  assert (forall f, holds (W := W) J (modify f) (fun _ => J)) as modify_J by (intros f; by apply holds_modify).
  assert (forall m, emits (W := W) plain m -> holds J (on_provider m) (fun _ => J)) as Hp by (intros m Hm; by apply J_keeps, emits_on_provider).
  change (holds J (materializeVolume env cfg p name vol) (fun _ => J)).
  assert (forall target, holds J (blank_volume p name target) (fun _ => J)) as Hblank.
  { intros target. apply keep_bind; [apply modify_J|]. intros _. apply Hp. unfold create_volume, volume_event. emits. }
  unfold materializeVolume. case_bool_decide; [apply Hp; unfold create_volume, volume_event; emits|]. destruct (parse_source _) as [[srcRD snapName]|e]; [|apply keep_ret].
  apply keep_bind; [apply J_keeps; unfold restore_volume, volume_event; emits|]. intros [[]|].
  - destruct (cfg_CrossNodeFetcher cfg).
    + unfold crossNodeClone. destruct (p_RecvSnapshot p) as [recv|]; [|apply Hblank]. apply keep_bind; [apply J_keeps; unfold fetch; emits|].
      intros [body|[]]; [|apply Hblank|apply keep_ret..]. apply keep_rbind; [apply Hp; unfold volume_event; emits|]. intros _.
      apply keep_bind; [apply modify_J|]. intros _. apply keep_ret.
    + unfold bumpRestoreSnapshotMissing, clearRestoreSnapshotMissing. apply keep_bind; [apply keep_bind; [apply modify_J|intros _; by apply holds_gets]|]. intros tries.
      case_bool_decide; [apply keep_ret|]. apply keep_bind; [apply modify_J|intros _; apply Hblank].
  - apply keep_ret.
  - apply keep_ret.
  - apply keep_bind; [apply modify_J|]. intros _. apply keep_bind; [apply modify_J|]. intros _. apply keep_ret.
Qed.
Lemma apply_volumes_keep vols : forall acc, holds J (apply_volumes env cfg name vols acc) (fun _ => J).
Proof.
  induction vols as [|vol vols IH]; intros acc; cbn [apply_volumes]; [apply keep_ret|]. apply keep_rbind; [|intros; apply IH].
  unfold apply_volume. destruct (cfg_Providers cfg !! dv_StoragePool vol) as [p|]; [|apply keep_ret]. apply keep_rbind; [refine (materialize_keeps justified_log p vol _); intros log c a Hc HJ; by apply justified_snoc, plain_justified|]. intros _.
  apply keep_bind; [apply J_keeps; unfold volume_status, volume_event; emits|]. intros [status|e]; [|apply keep_ret].
  apply keep_rbind; [apply J_keeps; unfold on_provider, resize_volume, volume_event, okay, fail; emits|]. intros grown.
  apply keep_rbind; [apply J_keeps, waitForBlockDevice_plain|]. intros _. apply keep_ret.
Qed.
Lemma storage_keeps diskless : holds J (applyStorageIfDiskful env cfg dr diskless) (fun _ => J).
Proof.
  unfold applyStorageIfDiskful. destruct diskless.
  - apply keep_rbind; [apply J_keeps, detach_plain|]. intros _. apply keep_bind; [apply J_keeps; case_match; [apply close_mappers_plain|apply emits_ret]|]. intros _.
    apply keep_rbind; [apply J_keeps, reclaim_plain|]. intros _. apply keep_ret.
  - unfold applyStorage. apply keep_rbind; [apply apply_volumes_keep|]. intros acc. destruct (dr_Volumes dr); [apply keep_ret|].
    apply keep_bind; [apply J_keeps, rememberPool_plain|]. intros _. apply keep_ret.
Qed.
Lemma applyOne_keeps : holds J (applyOne dr) (fun _ => J).
Proof.
  unfold Apply.applyOne. apply keep_bind; [apply J_keeps, keep_history_plain|]. intros _. destruct (isInactive (dr_Flags dr)).
  { apply keep_rbind; [apply J_keeps, applyInactive_plain|]. intros _. apply keep_ret. }
  apply keep_rbind; [apply storage_keeps|]. intros acc. apply keep_rbind; [apply maybeLUKS_keeps|]. intros [devices grew].
  apply keep_rbind; [|intros; apply keep_ret]. fold with_drbd. destruct with_drbd eqn:Hw.
  - apply applyDRBD_keeps; [apply justified_stable, plain_justified|apply runAutoPromote_keeps| | |].
    + apply J_keeps_seeds, createMetadata_seed.
    + intros first flip. apply J_keeps_seeds, maybeStamp_seed.
    + apply J_keeps_seeds, ensurePerVolume_seed.
  - unfold runStorageOnlyMkfs. destruct replica_diskless eqn:Hd; [apply keep_ret|]. destruct (needsDRBD _); [apply keep_ret|]. destruct (needsMkfs dr); [|apply keep_ret].
    cbn [negb]. eapply holds_mono; [..|apply runAutoMkfs_keeps]; [|done|done|by rewrite Hw]. intros st log HJ. split; [done|]. intros Hd'. by rewrite Hw in Hd'.
Qed.

(** What a pass did: the trace of a run from the given memory. *)
Definition trace_of (w : W) (st : rstate) : list event := snd (snd (applyOne dr (w, st, []))).
Lemma trace_justified w st pre c a post : trace_of w st = pre ++ (c, a) :: post -> justified_command pre c.
Proof.
  intros E. pose proof (applyOne_keeps w st []) as H. unfold trace_of in E. destruct (applyOne dr (w, st, [])) as [r [[w' st'] log]]. cbn in E.
  refine (H _ pre c a post E). intros pre' ? ? ? ?%symmetry%app_nil. by destruct_and!.
Qed.

(** C5: In a pass over a replica, whatever the tools answer, a file system is made only right after a probe
    of the same device that did not show one (a probe that fails counts as such), only when one was asked
    for, neither the object nor the marker in the state directory records one (the last look at the marker
    did not find it), never for a diskless replica, and under DRBD only on the DRBD device of a volume after
    the replica was promoted, so that the peers get it too. *)
Theorem file_systems_are_made_over_nothing w st pre c a post :
  trace_of w st = pre ++ (c, a) :: post -> is_mkfs c = true -> may_format pre c.
Proof. intros E. by apply trace_justified in E as (H & _). Qed.

(** C7: in a pass, a replica is promoted by force only when it has a disk and the controller elected it,
    or the kernel's status seen in this pass shows that nothing is lost by it: no other replica
    is Primary and all are up to date while this one has the lowest id, or there is no other. *)
Theorem promotions_are_justified w st pre a post :
  trace_of w st = pre ++ (primary_force name, a) :: post -> may_promote pre.
Proof. intros E. apply trace_justified in E as (_ & H & _). by apply H. Qed.

(** C8: In a pass, whatever the tools answer, a device is encrypted anew only right after the path was seen
    to be a block device, it was found not to be encrypted yet and a probe that worked found no signature of
    any kind on it. *)
Theorem encryption_is_laid_over_nothing w st pre device a post :
  trace_of w st = pre ++ (luks_format device, a) :: post -> may_encrypt pre device.
Proof. intros E. apply trace_justified in E as (_ & _ & H). by apply H. Qed.

End Pass.
