(* ===== verification/ApplyRestores.v ===== *)
(** * Restored volumes in a pass

    A volume that is to hold a snapshot is either filled from it or, when the snapshot cannot be
    had, made blank and marked as such. In one pass the mark decides whether the fresh replica may
    claim the agreed first generation, which its peers would take for equal data. Across passes
    the mark is lost. *)

From Stdlib Require Import Ascii.
From S2P Require Import Prelude Prog Storage SatelliteFsm GoStrings DrbdAlloc DrbdStates DrbdText DrbdStatus DrbdAdm Dispatcher Lsblk ResFile GiHistory Metadata MetadataProps Apply ApplyLogic ApplyProps.

#[export] Instance format_int_inj : Inj eq eq format_int.
Proof.
  intros x y E. set (bits := Z.abs x + Z.abs y + 2).
  assert (Z.abs x + Z.abs y + 1 < 2 ^ (bits - 1)) as Hlarge by (replace (bits - 1) with (Z.abs x + Z.abs y + 1) by lia; apply Z.pow_gt_lin_r; lia).
  assert (forall z, Z.abs z <= Z.abs x + Z.abs y -> parse_int bits (format_int z) = Some z) as H by (intros z Hz; apply parse_int_format; lia).
  assert (Some x = Some y) as [= ->]; [|done]. rewrite <- (H x), <- (H y) by lia. by rewrite E.
Qed.

Section Restores.
Context {W : Type} (env : world W) (cfg : ReconcilerConfig W) (decode : string -> option (list Slots.drbdsetupStatusResource)).
Context (exit_code : string -> option Z) (range_options : gmap string string -> list (string * string))
  (range_devices : gmap Z string -> list (Z * string)).
Context (dr : DesiredResource).
Notation exec := (exec env).
Notation M A := (shell (W := W * rstate) A).
Notation applyOne := (applyOne env cfg decode exit_code range_options range_devices).
Notation name := (dr_Name dr).

(** The provider restored the volume, or received it from another node. *)
Definition restored (n : Z) (log : list event) : Prop :=
  (["RestoreVolumeFromSnapshot"; name; format_int n], (None, "")) ∈ log \/ (["RecvSnapshot"; name; format_int n], (None, "")) ∈ log.
Lemma restored_more n log evs : restored n log -> restored n (log ++ evs).
Proof. intros [H|H]; [left|right]; apply elem_of_app; by left. Qed.

Definition marked_blank (st : rstate) (n : Z) : Prop := s_restoreBlankFallback st !! restoreSeedKey name n = Some true.
Definition accounted (vols : list DesiredVolume) (st : rstate) (log : list event) : Prop :=
  forall vol, vol ∈ vols -> dv_SourceSnapshot vol <> "" -> marked_blank st (dv_VolumeNumber vol) \/ restored (dv_VolumeNumber vol) log.

(** The device is where the provider put the volume in this pass, or the encrypted device over it. *)
Definition its_device (n : Z) (device : string) (log : list event) : Prop :=
  if needsLUKS (dr_LayerStack dr) then device = LuksDevicePath (luksMapperName name n)
  else (["VolumeStatus"; name; format_int n], (None, device)) ∈ log.
Definition known (devices : gmap Z string) (log : list event) : Prop := forall n device, devices !! n = Some device -> its_device n device log.
Lemma known_more devices log evs : known devices log -> known devices (log ++ evs).
Proof. intros H n device E. specialize (H n device E). unfold its_device in *. destruct (needsLUKS _); [done|]. apply elem_of_app. by left. Qed.

(** The generation of a peer that the controller named, or the agreed first generation of a volume that
    is not to hold a snapshot or that the provider restored or received in this pass; on the device of that volume. *)
Definition trusted_seed (log : list event) (device gi : string) : Prop := exists vol, vol ∈ dr_Volumes dr /\ dr_PeerHasData dr = false /\
  its_device (dv_VolumeNumber vol) device log /\
  ((dv_SeedFromGI vol <> "" /\ gi = GI.to_string (no_flags (dv_SeedFromGI vol) (dv_SeedFromGI vol))) \/
   ((gi = GI.to_string (winner_seed_of name vol) \/ gi = GI.to_string (sibling_seed_of name vol)) /\
    dr_SkipInitialSync dr = Some true /\ (dv_SourceSnapshot vol = "" \/ restored (dv_VolumeNumber vol) log))).
Definition seeds_trusted (log : list event) : Prop := forall pre device n gi a post, log = pre ++ (set_gi device n gi, a) :: post -> trusted_seed pre device gi.

Definition not_seed (c : cmd) : Prop := forall device n gi, c <> set_gi device n gi.
Lemma plain_not_seed c : plain c -> not_seed c.
Proof. by intros (_ & _ & H & _). Qed.

Lemma trusted_snoc log c a : seeds_trusted log -> (forall device n gi, c = set_gi device n gi -> trusted_seed log device gi) -> seeds_trusted (log ++ [(c, a)]).
Proof.
  intros H Hc pre device n gi a' post E. destruct post as [|e post _] using rev_ind.
  - apply app_inj_tail in E as [-> E]. injection E as E _. by eapply Hc.
  - rewrite app_comm_cons, (assoc_L (++)) in E. apply app_inj_tail in E as [E _]. by eapply H.
Qed.

Lemma restoreSeedKey_inj n n' : restoreSeedKey name n = restoreSeedKey name n' -> n = n'.
Proof. unfold restoreSeedKey. intros H. apply (inj (String.append name)) in H. injection H as H. by apply (inj format_int). Qed.

(** ** Storage *)

Definition ST (vols : list DesiredVolume) (st : rstate) (log : list event) : Prop := seeds_trusted log /\ accounted vols st log.
Lemma ST_stable vols : stable not_seed (ST vols).
Proof.
  split.
  - intros st st' log E [Hs Ha]. split; [done|]. intros vol Hv Hsrc. destruct (Ha vol Hv Hsrc) as [H|H]; [left|by right]. unfold marked_blank. by rewrite E.
  - intros st log c a Hc [Hs Ha]. split; [apply trusted_snoc; [done|]; intros device n gi ->; by destruct (Hc device n gi)|].
    intros vol Hv Hsrc. destruct (Ha vol Hv Hsrc) as [H|H]; [by left|]. right. by apply restored_more.
Qed.
Lemma ST_keeps vols {A} (m : M A) : emits plain m -> holds (ST vols) m (fun _ => ST vols).
Proof. intros Hm. eapply emits_keeps; [apply ST_stable|]. eapply emits_mono; [apply plain_not_seed|done]. Qed.

(** The volume is blank now and marked. *)
Lemma mark_accounts vols vol : holds (W := W) (ST vols) (recordBlankFallback name (dv_VolumeNumber vol) true) (fun _ => ST (vols ++ [vol])).
Proof.
  apply holds_modify. intros st log [Hs Ha]. split; [done|]. intros v Hv Hsrc. unfold marked_blank. cbn.
  destruct (decide (restoreSeedKey name (dv_VolumeNumber vol) = restoreSeedKey name (dv_VolumeNumber v))) as [E|E]; [left; rewrite E; by rewrite lookup_insert_eq|].
  rewrite lookup_insert_ne by done. apply elem_of_app in Hv as [Hv|Hv%list_elem_of_singleton]; [by apply Ha|by subst v].
Qed.
(** It was filled, and the mark is taken off. *)
Lemma unmark_accounts vols vol : holds (W := W) (fun st log => ST vols st log /\ restored (dv_VolumeNumber vol) log)
  (recordBlankFallback name (dv_VolumeNumber vol) false) (fun _ => ST (vols ++ [vol])).
Proof.
  apply holds_modify. intros st log [[Hs Ha] Hr]. split; [done|]. intros v Hv Hsrc. unfold marked_blank. cbn.
  destruct (decide (restoreSeedKey name (dv_VolumeNumber vol) = restoreSeedKey name (dv_VolumeNumber v))) as [E|E].
  { apply restoreSeedKey_inj in E. right. by rewrite <- E. }
  rewrite lookup_insert_ne by done. apply elem_of_app in Hv as [Hv|Hv%list_elem_of_singleton]; [by apply Ha|by subst v].
Qed.
Lemma ST_less vols vol st log : ST (vols ++ [vol]) st log -> ST vols st log.
Proof. intros [Hs Ha]. split; [done|]. intros v Hv. apply Ha. apply elem_of_app. by left. Qed.

(** A step after which the volume is accounted for, unless it failed. *)
Definition accounts (vols : list DesiredVolume) (vol : DesiredVolume) (m : M (result apply_err unit)) : Prop :=
  holds (ST vols) m (fun r st log => ST vols st log /\ (r = Ok tt -> ST (vols ++ [vol]) st log)).

Lemma blank_accounts vols vol p : accounts vols vol (blank_volume p name (target_of name vol)).
Proof.
  unfold accounts, blank_volume. eapply holds_bind; [apply (mark_accounts vols vol)|]. intros ?.
  eapply holds_mono; [..|apply (ST_keeps (vols ++ [vol]))]; [done| |apply emits_on_provider; unfold create_volume, volume_event; emits].
  intros r st log H. split; [exact (ST_less _ _ _ _ H)|done].
Qed.
Lemma filled_call vols vol c (f : W -> option provider_err * W) :
  (c = ["RestoreVolumeFromSnapshot"; name; format_int (dv_VolumeNumber vol)] \/ c = ["RecvSnapshot"; name; format_int (dv_VolumeNumber vol)]) ->
  holds (ST vols) (call c shown_err f) (fun e st log => ST vols st log /\ (e = None -> restored (dv_VolumeNumber vol) log)).
Proof.
  intros Hc. apply holds_call. intros st log e HST. split.
  - apply (stable_event not_seed (ST vols)); [apply ST_stable| |done]. by destruct Hc as [-> | ->]; intros ? ? ?.
  - intros ->. destruct Hc as [-> | ->]; [left|right]; apply elem_of_app; right; by left.
Qed.
Lemma unmark_done vols vol : holds (W := W) (fun st log => ST vols st log /\ restored (dv_VolumeNumber vol) log)
  (_ ← recordBlankFallback name (dv_VolumeNumber vol) false; okay tt) (fun r st log => ST vols st log /\ (r = Ok tt -> ST (vols ++ [vol]) st log)).
Proof. eapply holds_bind; [apply unmark_accounts|]. intros ?. apply holds_ret. intros st log H. split; [exact (ST_less _ _ _ _ H)|done]. Qed.
Lemma failed_accounts vols vol e : accounts vols vol (fail e).
Proof. apply holds_ret. intros st log H. by split. Qed.

Lemma clone_accounts vols vol p srcRD snapName : accounts vols vol (crossNodeClone env p (target_of name vol) name srcRD snapName).
Proof.
  unfold crossNodeClone. destruct (p_RecvSnapshot p) as [recv|]; [|apply blank_accounts].
  eapply holds_bind; [apply ST_keeps; unfold fetch; emits|]. intros [body|[]]; [|apply blank_accounts|apply failed_accounts..].
  eapply holds_rbind with (R := fun r st log => ST vols st log /\ (r = Ok tt -> restored (dv_VolumeNumber vol) log)); [|..|by intros e st log [H _]; split].
  - unfold on_provider. eapply holds_bind; [apply (filled_call vols vol); by right|]. intros [e|]; apply holds_ret; intros st log [H Hr]; by split; auto.
  - intros []. eapply holds_mono; [..|apply unmark_done]; [|intros ? ? ? H; exact H]. intros st log [H Hr]. auto.
Qed.
Lemma bump_keeps vols vol : holds (W := W) (ST vols) (bumpRestoreSnapshotMissing name (dv_VolumeNumber vol)) (fun _ => ST vols).
Proof. apply ST_keeps. unfold bumpRestoreSnapshotMissing. emits. Qed.
Lemma materialize_accounts vols vol p : accounts vols vol (materializeVolume env cfg p name vol).
Proof.
  unfold materializeVolume. case_bool_decide as Hsrc.
  { eapply holds_mono; [..|apply (ST_keeps vols)]; [done| |apply emits_on_provider; unfold create_volume, volume_event; emits].
    cbn beta. intros r st log [Hs Ha]. split; [done|]. intros _. split; [done|]. intros v Hv Hne. apply elem_of_app in Hv as [Hv|Hv%list_elem_of_singleton]; [by apply Ha|by subst v]. }
  destruct (parse_source _) as [[srcRD snapName]|e]; [|apply failed_accounts].
  eapply holds_bind; [apply (filled_call vols vol); by left|]. intros [[]|].
  - destruct (cfg_CrossNodeFetcher cfg); [eapply holds_mono; [..|apply clone_accounts]; [by intros st log [H _]|done]|].
    eapply holds_mono with (P := ST vols); [by intros st log [H _]|intros ? ? ? H; exact H|].
    eapply holds_bind; [apply bump_keeps|]. intros tries. case_bool_decide; [apply failed_accounts|].
    eapply holds_bind; [apply ST_keeps; unfold clearRestoreSnapshotMissing; emits|]. intros ?. apply blank_accounts.
  - apply holds_ret. intros st log [H _]. by split.
  - apply holds_ret. intros st log [H _]. by split.
  - eapply holds_bind; [eapply holds_mono; [..|apply (unmark_accounts vols vol)]; [|intros ? ? ? H; exact H]; intros st log [H Hr]; auto|]. intros ?.
    eapply holds_bind; [apply ST_keeps; unfold clearRestoreSnapshotMissing; emits|]. intros ?. apply holds_ret. intros st log H.
    split; [exact (ST_less _ _ _ _ H)|done].
Qed.

(** The devices are those the providers named. *)
Definition raw_known (devices : gmap Z string) (log : list event) : Prop :=
  forall n device, devices !! n = Some device -> (["VolumeStatus"; name; format_int n], (None, device)) ∈ log.
Definition SD (vols : list DesiredVolume) (devices : gmap Z string) (st : rstate) (log : list event) : Prop := ST vols st log /\ raw_known devices log.
Lemma raw_known_more devices log evs : raw_known devices log -> raw_known devices (log ++ evs).
Proof. intros H n device E. apply elem_of_app. left. by apply H. Qed.
Lemma emits_raw vols devices {A} (m : M A) : emits plain m -> holds (SD vols devices) m (fun _ => SD vols devices).
Proof.
  intros Hm. eapply emits_keeps; [|eapply emits_mono; [apply plain_not_seed|exact Hm]]. destruct (ST_stable vols) as [Hs He]. split.
  - intros st st' log E [H Hk]. split; [by eapply Hs|done].
  - intros st log c a Hc [H Hk]. split; [by apply He|by apply raw_known_more].
Qed.

Lemma materialize_known done vol p devices : holds (SD done devices) (materializeVolume env cfg p name vol)
  (fun r st log => seeds_trusted log /\ (r = Ok tt -> SD (done ++ [vol]) devices st log)).
Proof.
  intros w st log [HS Hk]. pose proof (materialize_accounts done vol p w st log HS) as H.
  pose proof (materialize_keeps env cfg dr (raw_known devices) p vol (fun log c a _ => raw_known_more devices log [(c, a)]) w st log Hk) as Hk'.
  destruct (materializeVolume env cfg p name vol (w, st, log)) as [r [[w' st'] log']]. destruct H as [[Ht _] H].
  split; [done|]. intros Ha. split; [by apply H|done].
Qed.
Lemma volume_status_known vols vol devices (p : provider W) : holds (W := W) (SD vols devices) (volume_status p (Storage.mkVolume "" name (dv_VolumeNumber vol) 0))
  (fun r st log => SD vols devices st log /\ forall status, r = Ok status -> raw_known (<[dv_VolumeNumber vol := vs_DevicePath status]> devices) log).
Proof.
  apply holds_call. intros st log r [HS Hk]. split.
  - split; [|by apply raw_known_more]. apply (stable_event not_seed (ST vols)); [apply ST_stable|by intros ? ? ?|done].
  - intros status -> n device. destruct (decide (n = dv_VolumeNumber vol)) as [->|Hn].
    + rewrite lookup_insert_eq. intros [= <-]. apply elem_of_app. right. by left.
    + rewrite lookup_insert_ne by done. intros E. apply elem_of_app. left. by apply Hk.
Qed.
Lemma apply_volume_accounts vol done acc : holds (SD done (st_devices acc)) (apply_volume env cfg name vol acc)
  (fun r st log => seeds_trusted log /\ (forall acc', r = Ok acc' -> SD (done ++ [vol]) (st_devices acc') st log)).
Proof.
  unfold apply_volume. destruct (cfg_Providers cfg !! dv_StoragePool vol) as [p|]; [|apply holds_ret; intros st log [[H _] _]; by split].
  eapply holds_rbind; [apply materialize_known| |by intros e st log [H _]; split]. intros [].
  eapply holds_bind; [eapply holds_mono; [..|apply (volume_status_known (done ++ [vol]) vol (st_devices acc) p)]; [intros st log [_ H]; by apply H|intros ? ? ? H; exact H]|].
  intros [status|e]; [|apply holds_ret; intros st log [[[H _] _] _]; by split].
  set (devices := <[dv_VolumeNumber vol := vs_DevicePath status]> (st_devices acc)).
  eapply holds_mono with (P := SD (done ++ [vol]) devices) (Q := fun r st log => SD (done ++ [vol]) devices st log /\ forall acc', r = Ok acc' -> st_devices acc' = devices).
  { intros st log [[HS _] H]. split; [done|by apply H]. }
  { intros r st log [HD Hr]. split; [apply HD|]. intros acc' E. by rewrite (Hr _ E). }
  eapply holds_rbind with (R := fun _ => SD (done ++ [vol]) devices); [apply emits_raw; unfold on_provider, resize_volume, volume_event, okay, fail; emits| |by intros].
  intros grown. eapply holds_rbind with (R := fun _ => SD (done ++ [vol]) devices); [apply emits_raw, waitForBlockDevice_plain| |by intros].
  intros ?. apply holds_ret. intros st log HD. split; [done|]. by intros acc' [= <-].
Qed.
Lemma apply_volumes_account vols : forall done acc, holds (SD done (st_devices acc)) (apply_volumes env cfg name vols acc)
  (fun r st log => seeds_trusted log /\ (forall acc', r = Ok acc' -> SD (done ++ vols) (st_devices acc') st log)).
Proof.
  induction vols as [|vol vols IH]; intros done acc; cbn [apply_volumes].
  { apply holds_ret. intros st log H. split; [apply H|]. intros acc' [= <-]. by rewrite app_nil_r. }
  eapply holds_rbind; [apply apply_volume_accounts| |by intros e st log [H _]; split].
  intros acc'. eapply holds_mono; [..|apply (IH (done ++ [vol]) acc')].
  - intros st log [_ H]. by apply (H acc').
  - cbn beta. intros r st log H. by rewrite <- (assoc_L (++)) in H.
Qed.

(** ** Steps that write no seed *)

Lemma runAutoMkfs_not_seed devices : emits not_seed (runAutoMkfs env cfg dr devices).
Proof.
  assert (forall {A} (m : M A), emits plain m -> emits not_seed m) as Hp by (intros A m; apply emits_mono, plain_not_seed).
  assert (forall vols, emits not_seed (mkfs_volumes env dr devices vols)) as Hmk.
  { intros vols. induction vols as [|vol vols IH]; cbn [mkfs_volumes]; [apply emits_ret|]. case_bool_decide; [done|].
    apply emits_bind; [apply Hp; unfold deviceHasFilesystem; emits|]. intros []; [done|]. apply emits_bind; [apply emits_run; by intros ? ? ?|]. intros a.
    destruct (fst a); [apply emits_ret|done]. }
  unfold runAutoMkfs. repeat (case_match; try apply emits_ret). apply emits_bind; [apply Hp; unfold mkfs_marker; emits|]. intros marker.
  assert (emits not_seed (rbind (mkfs_volumes env dr devices (dr_Volumes dr)) (fun _ => mark_formatted env name))) as Hgo.
  { apply emits_rbind; [apply Hmk|]. intros _. apply Hp. unfold mark_formatted, file_op. emits. }
  by destruct marker; [apply emits_ret|..].
Qed.
Lemma promote_not_seed : emits not_seed (runAutoPromote env cfg dr).
Proof.
  unfold runAutoPromote. apply emits_rbind; [apply emits_command, emits_drbdadm; by intros ? ? ?|]. intros _.
  apply emits_rbind; [apply runAutoMkfs_not_seed|]. intros _. eapply emits_mono; [apply plain_not_seed|]. apply emits_command, Secondary_plain.
Qed.

Lemma maybeLUKS_not_seed diskless devices resized : emits not_seed (maybeLUKS env cfg exit_code range_devices dr diskless devices resized).
Proof.
  assert (forall {A} (m : M A), emits plain m -> emits not_seed m) as Hp by (intros A m; apply emits_mono, plain_not_seed).
  assert (forall device, emits not_seed (luksFormat env exit_code device)) as Hformat.
  { intros device. unfold luksFormat. apply emits_bind; [apply Hp; emits|]. intros a. destruct (fst a); [|apply emits_ret].
    apply emits_rbind; [apply Hp; unfold probeSignatures, requireBlockDevice, okay, fail; emits|]. intros sigs. case_bool_decide; [|apply emits_ret].
    apply emits_command, emits_bind; [apply emits_run; by intros ? ? ?|intros; apply emits_ret]. }
  unfold maybeLUKS, applyLUKS. repeat (case_match; try apply emits_ret). generalize (∅ : gmap Z string) as out, false as grew.
  induction (range_devices devices) as [|[vol dev] l IH]; intros out grew; cbn [luks_volumes]; [apply emits_ret|].
  apply emits_rbind; [apply Hformat|]. intros _. apply emits_rbind; [apply Hp; unfold luksOpen, okay, fail; emits|]. intros open.
  apply emits_bind; [apply Hp; unfold luksMapperBehindUnderlying, readDeviceSizeBytes; emits|]. intros behind.
  apply emits_rbind; [apply Hp; unfold luksResize, command, okay, fail; emits|]. intros _. apply IH.
Qed.

(** ** Seeds *)

Section Seeds.
Context (devices : gmap Z string).
(** Every volume is accounted for and the devices are those of the volumes. *)
Definition all (st : rstate) (log : list event) : Prop := ST (dr_Volumes dr) st log /\ known devices log.
Lemma all_stable : stable not_seed all.
Proof.
  destruct (ST_stable (dr_Volumes dr)) as [Hs He]. split.
  - intros st st' log E [H Hk]. split; [by eapply Hs|done].
  - intros st log c a Hc [H Hk]. split; [by apply He|by apply known_more].
Qed.
Lemma seeding_trusted r winner want st log evs : r_blankFallback r = s_restoreBlankFallback st -> all st log ->
  Forall (fun e => not_seed (fst e) \/ seeding_event r dr devices winner want (dr_Volumes dr) e) evs -> all st (log ++ evs).
Proof.
  intros Hr. revert log. induction evs as [|[c a] evs IH]; intros log HA HF; [by rewrite app_nil_r|]. inversion HF as [|? ? He HF']; subst.
  change ((c, a) :: evs) with ([(c, a)] ++ evs). rewrite (assoc_L (++)). apply IH; [|done]. destruct HA as [[Hs Ha] Hk]. split; [|by apply known_more]. split.
  2:{ intros vol Hv Hsrc. destruct (Ha vol Hv Hsrc) as [H|H]; [by left|]. right. by apply restored_more. }
  apply trusted_snoc; [done|]. intros device n gi ->. destruct He as [He|[He|(vol & n' & s & Hv & _ & Hp & Hseed & Hdev & He)]]; [by destruct (He device n gi)|by cbn in He|].
  cbn in He. apply set_gi_inj in He as [-> ->]. exists vol. split_and!; [done..| |].
  { apply Hk. by destruct (devices !! dv_VolumeNumber vol). }
  assert (may_skip r name vol (dr_SkipInitialSync dr) -> dr_SkipInitialSync dr = Some true /\ (dv_SourceSnapshot vol = "" \/ restored (dv_VolumeNumber vol) log)) as Hmay.
  { intros [Hskip Hsrc]. split; [done|]. destruct (decide (dv_SourceSnapshot vol = "")) as [E|E]; [by left|]. right. destruct Hsrc as [?|Hblank]; [done|].
    destruct (Ha vol Hv E) as [Hm|Hm]; [|done]. unfold isRestoreBlankFallback in Hblank. rewrite Hr in Hblank. unfold marked_blank in Hm. by rewrite Hm in Hblank. }
  destruct Hseed as [Hne|_ Hskip _|kind _ Hskip _ _ _]; [by left|right; split; [by left|by apply Hmay]|right; split; [by right|by apply Hmay]].
Qed.

Lemma status_not_seed rd : not_seed (status_json rd).
Proof. by intros device n gi. Qed.
Lemma not_meta_not_seed c : not_meta c -> not_seed c.
Proof. intros H device n gi ->. by apply H. Qed.

(** A metadata step over what the reconciler remembers now. *)
Definition seeds_well (step : reconciler -> state_dir -> M (state_dir * option meta_err)) : Prop := forall r d w st log,
  r_blankFallback r = s_restoreBlankFallback st -> all st log -> let '(_, ((_, st'), log')) := step r d ((w, st), log) in all st' log'.
Lemma ensureMetadata_seeds ok first : seeds_well (fun r d => ensureMetadata exec decode r ok dr devices first d).
Proof.
  intros r d w st log Hr HA.
  destruct (emits_spec _ _ _ (ensureMetadata_seed env decode r ok dr devices first d) (ensureMetadata_spec exec decode r ok dr devices first d) w st log)
    as (a & w' & st' & evs & -> & Hst & _ & pre & post & -> & _ & Hpre & Hpost & _).
  apply (stable_state not_seed all all_stable st st'); [done|]. eapply seeding_trusted; [exact Hr|done|]. apply Forall_app. split.
  - eapply list.Forall_impl; [exact Hpre|]. intros e He. left. by apply not_meta_not_seed.
  - eapply list.Forall_impl; [exact Hpost|]. intros e He. by right.
Qed.
Lemma nothing_seeds : seeds_well (fun r d => mret (d, None)).
Proof. by intros r d w st log _ HA. Qed.
Lemma on_dir_seeds r step : seeds_well step ->
  holds (fun st log => all st log /\ r_blankFallback r = s_restoreBlankFallback st) (on_dir OnMetadata (step r)) (fun _ => all).
Proof.
  intros Hstep w st log [HA Hr]. unfold on_dir, mbind, shell_bind. cbn [gets fst snd]. specialize (Hstep r (s_dir st) w st log Hr HA).
  destruct (step r (s_dir st) (w, st, log)) as [[d' e] [[w' st'] log']]. cbn [modify].
  assert (all (set_dir d' st') log') as H by (by eapply (stable_state not_seed all all_stable)). by destruct e.
Qed.
Lemma view_keeps : holds all (metadata_view env cfg) (fun r st log => all st log /\ r_blankFallback r = s_restoreBlankFallback st).
Proof. unfold metadata_view. eapply holds_bind; [apply holds_ask with (Q := fun _ => all); done|]. intros readable. apply holds_gets. by intros st log HA. Qed.
Lemma metadata_step_keeps (step : reconciler -> bool -> state_dir -> M (state_dir * option meta_err)) : (forall ok, seeds_well (fun r => step r ok)) ->
  holds all (metadata_step env cfg dr step) (fun _ => all).
Proof.
  intros Hstep. unfold metadata_step, writable. eapply holds_bind; [apply view_keeps|]. intros r.
  eapply holds_bind; [apply holds_ask with (Q := fun _ st log => all st log /\ r_blankFallback r = s_restoreBlankFallback st); done|]. intros ok.
  exact (on_dir_seeds r (fun r => step r ok) (Hstep ok)).
Qed.
Lemma stamping_keeps diskless first flip : holds all (maybeStampMetadata env cfg decode dr devices diskless first flip) (fun _ => all).
Proof.
  apply metadata_step_keeps. intros ok. unfold Metadata.maybeStampMetadata, Metadata.createMetadata.
  destruct diskless; [apply nothing_seeds|]. destruct (first && negb flip); [apply ensureMetadata_seeds|]. destruct flip; [apply ensureMetadata_seeds|apply nothing_seeds].
Qed.

Lemma seedFresh_seeds fresh : seeds_well (fun r d => err ← seedFreshVolumes exec decode r dr devices fresh; mret (d, err)).
Proof.
  intros r d w st log Hr HA. unfold mbind, shell_bind.
  destruct (emits_spec _ _ _ (seed_volumes_seed env decode r dr devices (isLateAddWinner dr) (fun n => bool_decide (n ∈ fresh)) (dr_Volumes dr))
    (seed_volumes_spec exec decode r dr devices (isLateAddWinner dr) (fun n => bool_decide (n ∈ fresh)) (dr_Volumes dr)) w st log)
    as (a & w' & st' & evs & E & Hst & _ & Hevs & _).
  unfold seedFreshVolumes. rewrite E. cbn. apply (stable_state not_seed all all_stable st st'); [done|]. eapply seeding_trusted; [exact Hr|done|].
  eapply list.Forall_impl; [exact Hevs|]. intros e He. by right.
Qed.
Lemma plain_seeds {A} (m : M A) (f : A -> reconciler -> state_dir -> M (state_dir * option meta_err)) : emits plain m -> (forall a, seeds_well (f a)) ->
  forall r d w st log, r_blankFallback r = s_restoreBlankFallback st -> all st log -> let '(_, ((_, st'), log')) := (m ≫= fun a => f a r d) ((w, st), log) in all st' log'.
Proof.
  intros Hm Hf r d w st log Hr HA. destruct (Hm w st log) as (a & w' & st' & evs & E & Hst & HF). unfold mbind, shell_bind. rewrite E. apply Hf; [congruence|].
  apply (stable_state not_seed all all_stable st st'); [done|]. eapply (stable_events not_seed); [apply all_stable| |done].
  eapply list.Forall_impl; [exact HF|]. intros e. apply plain_not_seed.
Qed.
Lemma ensurePerVolume_keeps diskless : holds all (ensurePerVolumeMetadata env cfg decode range_options dr devices diskless) (fun _ => all).
Proof.
  unfold ensurePerVolumeMetadata. eapply holds_bind; [apply view_keeps|]. intros r.
  apply (on_dir_seeds r (fun r d => Metadata.ensurePerVolumeMetadata exec decode r (render_step env cfg range_options dr devices d) dr devices diskless d)).
  unfold Metadata.ensurePerVolumeMetadata. destruct diskless; [apply nothing_seeds|]. intros r' d w st log Hr HA.
  refine (plain_seeds (render_step env cfg range_options dr devices d)
    (fun res r _ => let '(d', rendered) := res in match rendered with Some _ => mret (d', Some RenderFailed) | None => fresh ← ensure_volumes exec r name (dr_Volumes dr) [];
       match fresh with Err e => mret (d', Some e) | Ok [] => mret (d', None) | Ok fresh => err ← seedFreshVolumes exec decode r dr devices fresh; mret (d', err) end end)
    (render_step_plain env cfg range_options dr devices d) _ r' d w st log Hr HA).
  intros [d' [e|]]; [by intros r0 d0 w0 st0 log0 _ HA0|]. cbn [fst snd]. intros r0 d0 w0 st0 log0 Hr0 HA0.
  refine (plain_seeds (ensure_volumes exec r0 name (dr_Volumes dr) [])
    (fun fresh r d => match fresh with Err e => mret (d, Some e) | Ok [] => mret (d, None) | Ok fresh => err ← seedFreshVolumes exec decode r dr devices fresh; mret (d, err) end)
    (ensure_volumes_plain env r0 name (dr_Volumes dr) []) _ r0 d' w0 st0 log0 Hr0 HA0).
  intros [[|n fresh]|e]; [apply nothing_seeds|apply seedFresh_seeds|by intros r1 d1 w1 st1 log1 _ HA1].
Qed.

Lemma all_plain_stable : stable plain all.
Proof. destruct all_stable as [Hs He]. split; [exact Hs|]. intros st log c a Hc. by apply He, plain_not_seed. Qed.
Lemma not_seed_keeps {A} (m : M A) : emits not_seed m -> holds all m (fun _ => all).
Proof. apply emits_keeps, all_stable. Qed.
Lemma drbd_keeps resized : holds all (applyDRBD env cfg decode range_options dr (isDiskless (dr_Flags dr)) devices resized) (fun _ => all).
Proof.
  apply applyDRBD_keeps; [apply all_plain_stable| | | |].
  - eapply holds_mono; [..|apply not_seed_keeps, promote_not_seed]; [by intros st log [H _]|done].
  - apply metadata_step_keeps. intros ok. apply ensureMetadata_seeds.
  - intros first flip. apply stamping_keeps.
  - apply ensurePerVolume_keeps.
Qed.
Lemma storage_only_keeps diskless : holds all (runStorageOnlyMkfs env cfg dr diskless devices) (fun _ => all).
Proof.
  unfold runStorageOnlyMkfs. repeat (case_match; try apply keep_ret). apply not_seed_keeps, runAutoMkfs_not_seed.
Qed.
End Seeds.

(** ** The whole pass *)

Lemma luks_known resized : forall l out grew, known out [] -> needsLUKS (dr_LayerStack dr) = true ->
  holds (W := W) (fun _ _ => True) (luks_volumes env cfg exit_code name resized l out grew) (fun r _ _ => forall devices grew', r = Ok (devices, grew') -> known devices []).
Proof.
  intros l. induction l as [|[vol dev] l IH]; intros out grew Hout Hl; cbn [luks_volumes]; [apply holds_ret; by intros ? ? _ ? ? [= <- <-]|].
  assert (forall {A} (m : M A), holds (fun _ _ => True) m (fun _ _ _ => True)) as Hany by (intros A m w st log _; by destruct (m _) as [? [[? ?] ?]]).
  eapply holds_rbind; [apply Hany| |done]. intros ?. eapply holds_rbind; [apply Hany| |done]. intros open.
  eapply holds_bind; [apply Hany|]. intros behind. eapply holds_rbind; [apply Hany| |done]. intros ?. apply IH; [|done].
  intros n device. destruct (decide (n = vol)) as [->|Hn]; [|rewrite lookup_insert_ne by done; apply Hout].
  rewrite lookup_insert_eq. intros [= <-]. unfold its_device. by rewrite Hl.
Qed.
Lemma known_anywhere devices log : known devices [] -> known devices log.
Proof. apply (known_more devices []). Qed.
Lemma maybeLUKS_known devices resized : holds (SD (dr_Volumes dr) devices) (maybeLUKS env cfg exit_code range_devices dr false devices resized)
  (fun r st log => seeds_trusted log /\ forall devices' grew, r = Ok (devices', grew) -> all devices' st log).
Proof.
  intros w st log [HS Hk].
  pose proof (emits_keeps not_seed (ST (dr_Volumes dr)) _ (ST_stable _) (maybeLUKS_not_seed false devices resized) w st log HS) as H.
  destruct (maybeLUKS env cfg exit_code range_devices dr false devices resized (w, st, log)) as [r [[w' st'] log']] eqn:E.
  split; [apply H|]. intros devices' grew ->. split; [done|]. unfold maybeLUKS in E. cbn [orb] in E. destruct (needsLUKS (dr_LayerStack dr)) eqn:Hl; cbn [negb] in E.
  - unfold applyLUKS in E. destruct (negb (cfg_Cryptsetup cfg)); [done|]. case_bool_decide; [done|]. apply known_anywhere.
    pose proof (luks_known resized (range_devices devices) ∅ false) as HL. specialize (HL ltac:(by intros n d ?%lookup_empty_Some) Hl w st log I).
    rewrite E in HL. by eapply HL.
  - injection E as <- <- <- <- <-. intros n device Hn. unfold its_device. rewrite Hl. by apply Hk.
Qed.
Lemma applyOne_trusted : isDiskless (dr_Flags dr) = false -> holds (ST []) (applyOne dr) (fun _ _ log => seeds_trusted log).
Proof.
  intros Hd. unfold Apply.applyOne. eapply holds_bind; [apply (ST_keeps []), keep_history_plain|]. intros ?. destruct (isInactive (dr_Flags dr)).
  { eapply holds_mono; [..|apply (ST_keeps [])]; [done|by intros ? ? ? [H _]|]. apply emits_rbind; [apply applyInactive_plain|]. intros. apply emits_ret. }
  eapply holds_rbind with (R := fun r st log => seeds_trusted log /\ (forall acc, r = Ok acc -> SD (dr_Volumes dr) (st_devices acc) st log)); [|..|by intros e st log [H _]].
  - unfold applyStorageIfDiskful. rewrite Hd. unfold applyStorage. eapply holds_rbind with (R := fun r st log => seeds_trusted log /\ forall acc', r = Ok acc' -> SD ([] ++ dr_Volumes dr) (st_devices acc') st log); [|..|by intros e st log [H _]; split].
    { eapply holds_mono; [..|apply (apply_volumes_account (dr_Volumes dr) [])]; [intros st log H; split; [done|]; intros n d E; cbn in E; by apply lookup_empty_Some in E|intros ? ? ? H; exact H]. }
    intros acc. cbn [app]. eapply holds_mono with (P := SD (dr_Volumes dr) (st_devices acc)) (Q := fun r st log => SD (dr_Volumes dr) (st_devices acc) st log /\ forall acc', r = Ok acc' -> acc' = acc);
      [intros st log [_ H]; by eapply H|intros r st log [H Hr]; split; [apply H|]; intros acc' E; by rewrite (Hr _ E)|].
    destruct (dr_Volumes dr) eqn:E; [apply holds_ret; intros st log H; split; [done|]; by intros ? [= <-]|]. rewrite <- E.
    eapply holds_bind; [apply emits_raw, rememberPool_plain|]. intros ?. apply holds_ret. intros st log H. split; [done|]. by intros ? [= <-].
  - intros acc. rewrite Hd. eapply holds_rbind; [eapply holds_mono; [..|apply (maybeLUKS_known (st_devices acc) (st_resized acc))]; [intros st log [_ H]; by apply H|intros ? ? ? H; exact H]| |by intros e st log [H _]].
    intros [devices grew]. eapply holds_mono with (P := all devices) (Q := fun _ => all devices); [intros st log [_ H]; by eapply H|by intros ? ? ? [[H _] _]|].
    apply keep_rbind; [|intros; apply keep_ret].
    destruct (cfg_Adm cfg && _); [rewrite <- Hd; apply drbd_keeps|apply storage_only_keeps].
Qed.


End Restores.
