(* ===== verification/ApplyRequests.v ===== *)
(** * Waiting and tearing down

    The wait for a device ends; tearing a resource down either leaves nothing of it or says so; and
    a teardown that the kernel refuses is reported as done, after which the sweeper leaves the
    resource alone. *)

From Stdlib Require Import Ascii.
From S2P Require Import Prelude Prog Storage SatelliteFsm GoStrings DrbdAlloc DrbdStates DrbdText DrbdStatus DrbdAdm Dispatcher Lsblk ResFile GiHistory Metadata MetadataProps Upkeep UpkeepProps Apply ApplyLogic.

(** ** Waiting for a device *)

Section Waiting.
Context {W : Type} (env : world W) (cfg : ReconcilerConfig W).
(** Commands do not turn the clock back, and a sleep lasts at least as long as it was asked to. *)
Context (Hrun : forall w c, w_time env w <= w_time env (snd (w_run env w c))).
Context (Hsleep : forall w d, w_time env w + d <= w_time env (snd (w_sleep env w d))).

Definition waited (device : string) (r : result apply_err unit) : Prop := r = Ok tt \/ r = Err (DeviceMissing device) \/ r = Err Cancelled.

Lemma wait_poll_pos : 0 < wait_poll cfg.
Proof. unfold wait_poll, deviceWaitPollDefault, millisecond. case_bool_decide; lia. Qed.
Lemma wait_timeout_pos : 0 < wait_timeout cfg.
Proof. unfold wait_timeout, deviceWaitTimeoutDefault, millisecond. case_bool_decide; lia. Qed.

Lemma run_eq c w st log : run (exec env) c ((w, st), log) = (fst (w_run env w c), ((snd (w_run env w c), st), log ++ [(c, fst (w_run env w c))])).
Proof. unfold run, exec. cbn [fst snd]. by destruct (w_run env w c). Qed.
Lemma wait_eq d w st log : wait env d ((w, st), log) = (fst (w_sleep env w d), ((snd (w_sleep env w d), st), log)).
Proof. unfold wait, ask. by destruct (w_sleep env w d). Qed.

Lemma wait_for_ends device deadline : forall fuel w st log, deadline - w_time env w < Z.of_nat fuel * wait_poll cfg ->
  waited device (fst (wait_for env cfg (S fuel) device deadline ((w, st), log))).
Proof using Hrun Hsleep.
  pose proof wait_poll_pos as Hp. intros fuel. generalize (eq_refl (S fuel)). generalize (S fuel) at 2 3 as rounds. intros rounds.
  revert fuel. induction rounds as [|rounds IH]; intros fuel Hf w st log Ht; [done|]. injection Hf as <-. cbn [wait_for].
  unfold mbind, shell_bind. rewrite run_eq. pose proof (Hrun w ["blockdev"; "--getsize64"; device]) as H1.
  set (w1 := snd (w_run env w _)) in *. destruct (fst (fst (w_run env w _))); [|left; reflexivity].
  cbn [now ask]. case_bool_decide; [right; left; reflexivity|]. rewrite run_eq. pose proof (Hrun w1 ["udevadm"; "settle"; "--timeout=5"]) as H2.
  set (w2 := snd (w_run env w1 _)) in *. rewrite wait_eq. pose proof (Hsleep w2 (wait_poll cfg)) as H3. destruct (fst (w_sleep _ _ _)); [right; right; reflexivity|].
  destruct fuel as [|fuel]; [lia|]. apply (IH fuel); [done|lia].
Qed.

(** C33: waiting for a device ends within the rounds the model allows for, with the device there, a report that it
    is missing, or the end of the context: polling every [DeviceWaitPoll] until [DeviceWaitTimeout]
    has passed, for any setting of the two and any clock that commands do not turn back. *)
Theorem waiting_for_a_device_ends device w st log : waited device (fst (waitForBlockDevice env cfg device ((w, st), log))).
Proof using Hrun Hsleep.
  unfold waitForBlockDevice. destruct (_ || _); [by left|]. unfold mbind, shell_bind, now, ask. apply wait_for_ends.
  pose proof wait_poll_pos. pose proof wait_timeout_pos. pose proof (Z.mul_div_le (wait_timeout cfg) (wait_poll cfg)).
  pose proof (Z.mod_pos_bound (wait_timeout cfg) (wait_poll cfg)). pose proof (Z.div_mod (wait_timeout cfg) (wait_poll cfg)).
  assert (0 <= wait_timeout cfg / wait_poll cfg) by (apply Z.div_pos; lia). nia.
Qed.

End Waiting.

(** ** Tearing a resource down *)

Section Teardown.
Context {W : Type} (env : world W) (cfg : ReconcilerConfig W).
Notation exec := (exec env).
Notation M A := (shell (W := W * rstate) A).

(** A step that leaves everything remembered as it is. *)
Definition forgetless {A} (m : M A) : Prop := forall w st log, exists a w' evs, m ((w, st), log) = (a, ((w', st), log ++ evs)).
Lemma forgetless_ret {A} (a : A) : forgetless (mret a).
Proof. intros w st log. exists a, w, []. by rewrite app_nil_r. Qed.
Lemma forgetless_run c : forgetless (run exec c).
Proof. intros w st log. unfold run, Apply.exec. cbn [fst snd]. destruct (w_run env w c) as [a w']. by exists a, w', [(c, a)]. Qed.
Lemma forgetless_call {A} c (shown : A -> answer) f : forgetless (call c shown f).
Proof. intros w st log. unfold call. destruct (f w) as [a w']. by exists a, w', [(c, shown a)]. Qed.
Lemma forgetless_bind {A B} (m : M A) (f : A -> M B) : forgetless m -> (forall a, forgetless (f a)) -> forgetless (m ≫= f).
Proof.
  intros Hm Hf w st log. destruct (Hm w st log) as (a & w1 & evs1 & E1). destruct (Hf a w1 st (log ++ evs1)) as (b & w2 & evs2 & E2).
  exists b, w2, (evs1 ++ evs2). unfold mbind, shell_bind. by rewrite E1, E2, (assoc_L (++)).
Qed.
Ltac forgetless := repeat first [apply forgetless_ret | apply forgetless_run | apply forgetless_call | assumption | case_match | apply forgetless_bind; [|intros ?]].

Lemma take_down_forgetless name : forgetless (take_down env cfg name).
Proof. unfold take_down, ResumeIO, io_verb, Down, SetupDown, drbdadm. forgetless. Qed.
Lemma close_forgetless name vols : forgetless (close_mappers env name vols).
Proof. induction vols; cbn [close_mappers]; unfold luksClose; forgetless. Qed.

(** The volumes are deleted one after the other until one cannot be. *)
Lemma delete_volumes_spec (p : provider W) name vols : forall w st log, exists r w' evs, delete_volumes p "" name vols ((w, st), log) = (r, ((w', st), log ++ evs)) /\
  (r = Ok tt -> forall n, n ∈ vols -> (["DeleteVolume"; name; format_int n], (None, "")) ∈ evs) /\ (r = Ok tt \/ exists e, r = Err (OnProvider e)).
Proof.
  induction vols as [|n vols IH]; intros w st log; cbn [delete_volumes].
  { exists (Ok tt), w, []. rewrite app_nil_r. split_and!; [done| |by left]. intros _ n Hn. by apply not_elem_of_nil in Hn. }
  unfold rbind, on_provider, delete_volume, call, mbind, shell_bind. destruct (p_DeleteVolume p _ w) as [[e|] w1].
  { eexists _, w1, [_]. split_and!; [reflexivity|done|right; by eexists]. }
  destruct (IH w1 st (log ++ [(["DeleteVolume"; name; format_int n], (None, ""))])) as (r & w2 & evs & E & Hok & Hr). exists r, w2, ((["DeleteVolume"; name; format_int n], (None, "")) :: evs).
  split_and!; [etransitivity; [exact E|]; by rewrite <- (assoc_L (++))| |done].
  intros H m [->|Hm]%elem_of_cons; [by left|]. right. by apply Hok.
Qed.

(** What is kept of a resource under the state directory and in memory. *)
Definition gone (name : string) (st : rstate) : Prop :=
  sd_res (s_dir st) !! name = None /\ name ∉ sd_md_created (s_dir st) /\ name ∉ s_mkfs_done st /\ name ∉ sd_owned (s_dir st) /\
  gs_files (s_history st) !! name = None /\ s_resourceToPool st !! name = None.
(** The others are as they were, and so is what else is remembered, of this resource too. *)
Definition others_kept (name : string) (st st' : rstate) : Prop :=
  (s_restoreBlankFallback st' = s_restoreBlankFallback st /\ s_restoreSnapshotMissingTries st' = s_restoreSnapshotMissingTries st /\
   s_lastRecoveryPromoteAt st' = s_lastRecoveryPromoteAt st /\ s_firstLateAddStallAt st' = s_firstLateAddStallAt st) /\
  forall other, other <> name ->
  sd_res (s_dir st') !! other = sd_res (s_dir st) !! other /\ (other ∈ sd_md_created (s_dir st') <-> other ∈ sd_md_created (s_dir st)) /\
  (other ∈ s_mkfs_done st' <-> other ∈ s_mkfs_done st) /\ (other ∈ sd_owned (s_dir st') <-> other ∈ sd_owned (s_dir st)) /\
  gs_files (s_history st') !! other = gs_files (s_history st) !! other /\ s_resourceToPool st' !! other = s_resourceToPool st !! other.
Lemma others_kept_refl name st : others_kept name st st.
Proof. split; [done|]. by intros other _. Qed.
Lemma others_trans name st1 st2 st3 : others_kept name st1 st2 -> others_kept name st2 st3 -> others_kept name st1 st3.
Proof. intros [(A1 & A2 & A3 & A4) H1] [(B1 & B2 & B3 & B4) H2]. split; [split_and!; congruence|]. intros other Ho. destruct (H1 other Ho) as (->%symmetry & ?), (H2 other Ho) as (-> & ?). naive_solver congruence. Qed.
Lemma drop_file_others name f st : others_kept name st (drop_file name f st).
Proof. split; [by destruct f|]. intros other Ho. destruct f; cbn; split_and!; try done; first [by rewrite lookup_delete_ne|set_solver]. Qed.

Lemma remove_files_spec name fs : forall w st log, let '(r, ((_, st'), _)) := remove_files env name fs ((w, st), log) in
  (r = Ok tt -> st' = foldl (fun s f => drop_file name f s) st fs) /\ others_kept name st st' /\ s_resourceToPool st' = s_resourceToPool st /\
  (forall e, r <> Err (OnProvider e)).
Proof.
  induction fs as [|f fs IH]; intros w st log; cbn [remove_files]; [by cbn|].
  unfold rbind at 1, remove_file, file_op, call, mbind, shell_bind. destruct (w_file env w _) as [[] w1]; [|by cbn].
  cbn [modify okay mret shell_ret]. specialize (IH w1 (drop_file name f st) (log ++ [(["remove"; name +:+ suffix_of f], (None, ""))])).
  change (remove_files env name fs _) with (remove_files env name fs (w1, drop_file name f st, log ++ [(["remove"; name +:+ suffix_of f], (None, ""))])).
  destruct (remove_files env name fs _) as [r [[w2 st2] log2]]. destruct IH as (Hok & Ho & Hp & He).
  split_and!; [done|eapply others_trans; [apply drop_file_others|done]|rewrite Hp; by destruct f|done].
Qed.
Lemma forget_history_spec name : forall w st log, let '(r, ((_, st'), _)) := forget_history env name ((w, st), log) in
  (r = Ok tt -> gs_files (s_history st') !! name = None) /\ others_kept name st st' /\ s_resourceToPool st' = s_resourceToPool st /\
  s_dir st' = s_dir st /\ s_mkfs_done st' = s_mkfs_done st /\ (forall e, r <> Err (OnProvider e)).
Proof.
  intros w st log. unfold forget_history, file_op, call, mbind, shell_bind. destruct (w_file env w _) as [ok w1]. cbn [gets fst snd].
  unfold forgetGIHistory. destruct (gs_files (s_history st) !! name) eqn:E; [|by destruct ok].
  destruct ok; [|by cbn]. cbn. split_and!; [by rewrite lookup_delete_eq| |done..]. split; [done|]. intros other Ho. cbn. by rewrite lookup_delete_ne.
Qed.

Lemma dropped_all name st : let st' := foldl (fun s f => drop_file name f s) st [ResFileOf; MdCreatedOf; MkfsDoneOf; OwnedOf] in
  sd_res (s_dir st') !! name = None /\ name ∉ sd_md_created (s_dir st') /\ name ∉ s_mkfs_done st' /\ name ∉ sd_owned (s_dir st').
Proof. cbn. split_and!; [by rewrite lookup_delete_eq|set_solver..]. Qed.

Definition registered (pool : string) : option (provider W) := if bool_decide (pool = "") then None else cfg_Providers cfg !! pool.
(** The last part of a teardown, once the volumes are gone. *)
Definition clean_up (name : string) : M (result apply_err unit) :=
  rbind (if cfg_StateDir cfg then rbind (remove_files env name [ResFileOf; MdCreatedOf; MkfsDoneOf; OwnedOf]) (fun _ => forget_history env name) else okay tt)
    (fun _ => _ ← forgetPool name; okay tt).
Lemma clean_up_spec name : cfg_StateDir cfg = true -> forall w st log, let '(r, ((_, st'), _)) := clean_up name ((w, st), log) in
  (r = Ok tt -> gone name st') /\ (r <> Ok tt -> s_resourceToPool st' = s_resourceToPool st) /\ others_kept name st st' /\ (forall e, r <> Err (OnProvider e)).
Proof.
  intros Hs w st log. unfold clean_up. rewrite Hs. unfold rbind, mbind, shell_bind.
  pose proof (remove_files_spec name [ResFileOf; MdCreatedOf; MkfsDoneOf; OwnedOf] w st log) as H1.
  destruct (remove_files env name _ _) as [[[]|e] [[w1 st1] log1]]; destruct H1 as (Hok1 & Ho1 & Hp1 & He1); [|cbn; split_and!; try done; intros e' [= ->]; by eapply He1].
  pose proof (forget_history_spec name w1 st1 log1) as H2. destruct (forget_history env name _) as [[[]|e] [[w2 st2] log2]]; destruct H2 as (Hok2 & Ho2 & Hp2 & Hd2 & Hm2 & He2).
  - cbn. split_and!; [intros _|done| |done].
    + specialize (Hok1 eq_refl). pose proof (dropped_all name st) as Hdrop. rewrite <- Hok1 in Hdrop. unfold gone. cbn.
      rewrite Hd2, Hm2. destruct Hdrop as (? & ? & ? & ?). split_and!; [done..|by apply Hok2|by rewrite lookup_delete_eq].
    + eapply others_trans; [exact Ho1|]. eapply others_trans; [exact Ho2|]. split; [done|]. intros other Ho. cbn. by rewrite lookup_delete_ne.
  - cbn. split_and!; [done|congruence|by eapply others_trans|]. intros e' [= ->]. by eapply He2.
Qed.
Lemma clean_up_plain name : emits plain (clean_up name).
Proof.
  assert (forall fs, emits plain (remove_files env name fs)) as Hfiles.
  { induction fs as [|f fs IH]; cbn [remove_files]; [apply emits_ret|]. apply emits_rbind; [|done]. unfold remove_file, file_op.
    apply emits_bind; [apply emits_call; plain|]. intros []; [|apply emits_ret]. apply emits_bind; [apply emits_modify; by destruct f|]. intros. apply emits_ret. }
  unfold clean_up. apply emits_rbind; [destruct (cfg_StateDir cfg); [|apply emits_ret]; apply emits_rbind; [done|]; intros _; unfold forget_history, file_op|].
  - apply emits_bind; [apply emits_call; plain|]. intros ok. apply emits_bind; [apply emits_gets|]. intros h. destruct (forgetGIHistory ok h name).
    apply emits_bind; [by apply emits_modify|]. intros _. case_match; apply emits_ret.
  - intros _. apply emits_bind; [by apply emits_modify|]. intros _. apply emits_ret.
Qed.

(** Both ways of taking the resource down were refused. *)
Definition refused (name : string) (log : list event) : Prop := forall tool, tool ∈ ["drbdadm"; "drbdsetup"] -> exists text out, ([tool; "down"; name], (Some text, out)) ∈ log.
Definition refuses (name : string) : Prop := forall tool w, tool ∈ ["drbdadm"; "drbdsetup"] -> fst (fst (w_run env w [tool; "down"; name])) <> None.
Lemma take_down_refused name : cfg_Adm cfg = true -> refuses name -> forall w st log, exists w' evs,
  take_down env cfg name ((w, st), log) = (tt, ((w', st), log ++ evs)) /\ refused name evs.
Proof.
  intros Ha Hr w st log. unfold take_down. rewrite Ha. cbn [negb].
  assert (forgetless (ResumeIO exec name)) as Hresume by (unfold ResumeIO, io_verb; forgetless). destruct (Hresume w st log) as (a & w1 & evs1 & E1).
  unfold mbind, shell_bind. rewrite E1. unfold Down, drbdadm, SetupDown, mbind, shell_bind. rewrite run_eq.
  assert (fst (fst (w_run env w1 ["drbdadm"; "down"; name])) <> None) as H1 by (apply Hr; by left).
  destruct (w_run env w1 _) as [[[t1|] out1] w2]; [|done]. cbn [fst snd mret shell_ret wrapf fmap option_fmap option_map]. rewrite run_eq.
  assert (fst (fst (w_run env w2 ["drbdsetup"; "down"; name])) <> None) as H2 by (apply Hr; right; by left).
  destruct (w_run env w2 _) as [[[t2|] out2] w3]; [|done]. cbn [fst snd].
  exists w3, (evs1 ++ [(["drbdadm"; "down"; name], (Some t1, out1)); (["drbdsetup"; "down"; name], (Some t2, out2))]). split; [by rewrite <- !(assoc_L (++))|].
  intros tool [->|[->|[]%not_elem_of_nil]%elem_of_cons]%elem_of_cons; eexists _, _; apply elem_of_app; right; [by left|right; by left].
Qed.
(** The parts of a teardown: the kernel and the mappers, then the volumes, then the files. *)
Lemma teardown_parts name pool vols w st log : exists w1 evs1,
  DeleteResource env cfg name pool vols ((w, st), log)
    = rbind (match registered pool with None => okay tt | Some p => delete_volumes p "" name vols end) (fun _ => clean_up name) ((w1, st), log ++ evs1) /\
  (cfg_Adm cfg = true -> refuses name -> refused name evs1).
Proof.
  destruct (take_down_forgetless name w st log) as ([] & w1 & evs1 & E1).
  assert (forgetless (if cfg_Cryptsetup cfg then close_mappers env name vols else mret tt)) as Hc by (destruct (cfg_Cryptsetup cfg); [apply close_forgetless|apply forgetless_ret]).
  destruct (Hc w1 st (log ++ evs1)) as ([] & w2 & evs2 & E2). exists w2, (evs1 ++ evs2). split.
  - unfold DeleteResource, registered, mbind, shell_bind. unfold mbind, shell_bind in *. rewrite E1, E2. by rewrite (assoc_L (++)).
  - intros Ha Hr. destruct (take_down_refused name Ha Hr w st log) as (w' & evs & E & H). rewrite E1 in E. injection E as _ ->%app_inv_head.
    intros tool Ht. destruct (H tool Ht) as (text & out & Hin). exists text, out. apply elem_of_app. by left.
Qed.


(** The directory as the sweeper sees it. *)
Definition sees (dir : string) (st : rstate) (exists_file : string -> bool) (entries : list (string * bool)) : Prop :=
  (forall name, exists_file (KernelSweeper.state_file dir name ".res") = bool_decide (is_Some (sd_res (s_dir st) !! name))) /\
  (forall name, exists_file (KernelSweeper.state_file dir name ".owned") = bool_decide (name ∈ sd_owned (s_dir st))) /\
  (forall file name, (file, false) ∈ entries -> KernelSweeper.cut_suffix KernelSweeper.resFileSuffix file = Some name -> is_Some (sd_res (s_dir st) !! name)).

Lemma removing_succeeds name fs : (forall w c, fst (w_file env w c) = true) -> forall w st log,
  fst (remove_files env name fs ((w, st), log)) = Ok tt.
Proof.
  intros Hf. induction fs as [|f fs IH]; intros w st log; cbn [remove_files]; [done|].
  unfold rbind at 1, remove_file, file_op, call, mbind, shell_bind. pose proof (Hf w ["remove"; name +:+ suffix_of f]) as H.
  destruct (w_file env w _) as [ok w1]. cbn in H. subst ok. apply IH.
Qed.
Lemma clean_up_succeeds name : (forall w c, fst (w_file env w c) = true) -> forall w st log, fst (clean_up name ((w, st), log)) = Ok tt.
Proof.
  intros Hf w st log. unfold clean_up, rbind, mbind, shell_bind. destruct (cfg_StateDir cfg); [|done].
  pose proof (removing_succeeds name [ResFileOf; MdCreatedOf; MkfsDoneOf; OwnedOf] Hf w st log) as H1.
  destruct (remove_files env name _ _) as [r1 [[w1 st1] log1]]. cbn in H1. subst r1.
  unfold forget_history, file_op, call, mbind, shell_bind. pose proof (Hf w1 ["forget"; name]) as H2. destruct (w_file env w1 _) as [ok w2]. cbn in H2. subst ok.
  cbn [gets fst snd]. unfold forgetGIHistory. by destruct (gs_files _ !! name).
Qed.

(** A teardown of a replica without a registered pool (a diskless one) reports success and removes every
    file of the resource although the kernel refused both ways of taking it down; no later cycle
    of the kernel sweeper takes the resource down, which counts it as somebody else's. *)
Theorem refused_teardown_is_never_finished name pool vols w st log : cfg_Adm cfg = true -> cfg_StateDir cfg = true -> registered pool = None ->
  refuses name -> (forall w c, fst (w_file env w c) = true) ->
  let '(r, ((_, st'), log')) := DeleteResource env cfg name pool vols ((w, st), log) in
  r = Ok tt /\ refused name log' /\ gone name st' /\
  forall node dir limit grace resources definitions now exists_file entries, dir <> "" -> sees dir st' exists_file entries ->
    along (told_to_sweeper resources definitions now exists_file entries) (fun c => c <> SetupDownU name) (KernelSweeper.sweepOnce node dir limit grace) (fun _ => True).
Proof.
  intros Ha Hs Hreg Hr Hf. destruct (teardown_parts name pool vols w st log) as (w1 & evs1 & -> & Hrefused). specialize (Hrefused Ha Hr). rewrite Hreg.
  change (rbind (okay tt) (fun _ => clean_up name) (w1, st, log ++ evs1)) with (clean_up name (w1, st, log ++ evs1)).
  pose proof (clean_up_succeeds name Hf w1 st (log ++ evs1)) as Hok. pose proof (clean_up_spec name Hs w1 st (log ++ evs1)) as Hspec.
  destruct (clean_up_plain name w1 st (log ++ evs1)) as (r & w2 & st2 & evs2 & E & _). rewrite E in *. cbn in Hok. subst r. destruct Hspec as (Hgone & _). specialize (Hgone eq_refl).
  split_and!; [done| |done|].
  - intros tool Ht. destruct (Hrefused tool Ht) as (text & out & Hin). exists text, out. apply elem_of_app. left. apply elem_of_app. by right.
  - intros node dir limit grace resources definitions now exists_file entries Hdir (Hres & Howned & Hent). destruct Hgone as (Hnores & _ & _ & Hnoowned & _).
    eapply along_mono; [|done|apply sweepOnce_ok]. intros c Hc ->. destruct (Hc name eq_refl) as (_ & _ & Hmark). destruct (Hmark Hdir) as [H|[H|(file & Hin & Hcut)]].
    + rewrite Hres, Hnores in H. apply bool_decide_eq_true in H as [? H]. done.
    + rewrite Howned in H. by apply bool_decide_eq_true in H.
    + destruct (Hent file name Hin Hcut) as [? H]. by rewrite Hnores in H.
Qed.

End Teardown.

(** * Passes on concrete hosts

    The theorems about passes on a host with one thin pool, and two runs that go wrong: a volume
    that fell back to blank is trusted by the next pass, and the storage of an attached volume is
    deleted because another volume of the resource has lost its disk. *)

From Stdlib Require Import Ascii.
From S2P Require Import Prelude Prog Storage SatelliteFsm GoStrings DrbdAlloc DrbdStates DrbdText DrbdStatus DrbdAdm Dispatcher Lsblk ResFile GiHistory Metadata MetadataProps.
From S2P Require Import Upkeep UpkeepProps Apply ApplyLogic ApplyProps ApplyRestores.

(** ** A host *)

(** What a volume of the pool holds. *)
Inductive held := Absent | Blank | Filled.

(** Tools that succeed, over disks without metadata, file systems or encryption, and no resource in the kernel. *)
Definition tools (w : held) (c : cmd) : answer * held :=
  if bool_decide (take 2 c = ["drbdadm"; "dump-md"]) then ((Some "exit status 1: No valid meta data found", ""), w)
  else if bool_decide (take 2 c = ["drbdsetup"; "status"]) then ((Some "exit status 10: No such resource", ""), w)
  else if bool_decide (take 1 c = ["blkid"]) then ((Some "exit status 2", ""), w)
  else if bool_decide (take 2 c = ["cryptsetup"; "isLuks"]) then ((Some "exit status 1", ""), w)
  else ((None, ""), w).
Definition host : world held := mkWorld tools (fun _ => 0) (fun w _ => (false, w)) (fun w _ => (true, w)) (fun w _ => (Replaced, w))
  (fun w _ _ _ => (Err PNotFound, w)) (fun w _ => (Ok true, w)).
(** Creating and restoring leave a volume that is there as it is; [here]: the snapshot is on this node. *)
Definition thin_pool (here : bool) : provider held := mkProviderOps ProviderKindLVMThin
  (fun _ w => (None, match w with Absent => Blank | _ => w end)) (fun _ _ => (None, Absent)) (fun _ w => (None, w))
  (fun v w => (Ok (mkVolumeStatus "/dev/vg/pvc_00000" 1024 1024 "OK"), w)) (fun _ w => (None, w)) (fun _ w => (None, w))
  (fun _ _ w => match w with Absent => if here then (None, Filled) else (Some PNotFound, w) | _ => (None, w) end) None None None.
Definition settings (here : bool) : ReconcilerConfig held := mkConfig {["thin" := thin_pool here]} true true 0 0 "n1" "10.0.0.1" true true false true.
Definition nothing_known : rstate := mkRState no_record (mkStateDir ∅ ∅ ∅) ∅ ∅ ∅ ∅ ∅ ∅.
Definition unreadable : string -> option (list Slots.drbdsetupStatusResource) := fun _ => None.
Definition status_of (text : string) : option Z := if bool_decide (text = "exit status 2") then Some 2 else Some 1.

(** The elected replica of a resource with one volume, to be filled from a snapshot. *)
Definition restoring (skip : option bool) (stack : list string) : DesiredResource :=
  mkDesiredResource "pvc" "n1" [] {["FileSystem/Type" := "ext4"; "LuksPassphrase" := "secret"]} [mkDesiredVolume 0 1024 "thin" "" 20000 "src:snap" "" ""] []
    {["node-id" := "0"; "minor" := "20000"; "auto-primary" := "true"]} stack [] false false false false skip.
Definition pass (here : bool) (dr : DesiredResource) := applyOne host (settings here) unreadable status_of map_to_list map_to_list dr.
Definition trace (here : bool) (dr : DesiredResource) : list event := trace_of host (settings here) unreadable status_of map_to_list map_to_list dr Absent nothing_known.

(** The snapshot is here, and the volume is encrypted under DRBD. *)
Definition encrypted : DesiredResource := restoring (Some true) ["DRBD"; "LUKS"; "STORAGE"].

Lemma file_systems_witness : is_mkfs ["mkfs.ext4"; "/dev/drbd20000"] = true /\
  may_format (settings true) encrypted (take 54 (trace true encrypted)) ["mkfs.ext4"; "/dev/drbd20000"].
Proof.
  split; [reflexivity|].
  apply (file_systems_are_made_over_nothing host (settings true) unreadable status_of map_to_list map_to_list encrypted Absent nothing_known
    (take 54 (trace true encrypted)) ["mkfs.ext4"; "/dev/drbd20000"] (None, "") (drop 55 (trace true encrypted))); [|reflexivity].
  symmetry. apply take_drop_middle. vm_compute. reflexivity.
Defined.

Lemma promotions_witness : may_promote unreadable encrypted (take 51 (trace true encrypted)).
Proof.
  apply (promotions_are_justified host (settings true) unreadable status_of map_to_list map_to_list encrypted Absent nothing_known
    (take 51 (trace true encrypted)) (None, "") (drop 52 (trace true encrypted))).
  symmetry. apply take_drop_middle. vm_compute. reflexivity.
Defined.

Lemma encryption_witness : may_encrypt status_of (take 6 (trace true encrypted)) "/dev/vg/pvc_00000".
Proof.
  apply (encryption_is_laid_over_nothing host (settings true) unreadable status_of map_to_list map_to_list encrypted Absent nothing_known
    (take 6 (trace true encrypted)) "/dev/vg/pvc_00000" (None, "") (drop 7 (trace true encrypted))).
  symmetry. apply take_drop_middle. vm_compute. reflexivity.
Defined.



(** ** A blank volume that the next pass trusts *)

Notation restarts_with := (fun here dr s => let '(r, (s', log)) := pass here dr (s, []) in (r, s', log)).
(** The first pass comes before the controller has decided about the initial sync, and the snapshot is on no node it can reach. *)
Definition first_pass := restarts_with false (restoring None ["DRBD"; "STORAGE"]) (Absent, nothing_known).
Definition second_pass := restarts_with false (restoring (Some true) ["DRBD"; "STORAGE"]) (snd (fst first_pass)).

(** The mark of a volume that fell back to blank does not survive a pass that fails later on. The first
    pass cannot restore the volume, makes it blank, marks it, and stops because the decision about the initial sync is
    not there yet. The second pass asks the provider to restore again, which reports success for
    a volume that exists; the mark is taken off, and the empty volume is given the first generation as consistent and
    up to date, and promoted. *)
Theorem blank_volume_is_trusted_by_the_next_pass :
  fst (fst first_pass) = Err (OnMetadata UnresolvedSkipInitialSync)
  /\ s_restoreBlankFallback (snd (snd (fst first_pass))) !! restoreSeedKey "pvc" 0 = Some true
  /\ fst (fst second_pass) = Ok [mkVolumeResult 0 "/dev/drbd20000"]
  /\ fst (snd (fst second_pass)) = Blank
  /\ s_restoreBlankFallback (snd (snd (fst second_pass))) !! restoreSeedKey "pvc" 0 = Some false
  /\ (["RestoreVolumeFromSnapshot"; "pvc"; "0"], (None, "")) ∈ snd second_pass
  /\ set_gi "/dev/vg/pvc_00000" 0 (GI.to_string (winner_seed_of "pvc" (mkDesiredVolume 0 1024 "thin" "" 20000 "src:snap" "" ""))) ∈ (snd second_pass).*1
  /\ primary_force "pvc" ∈ (snd second_pass).*1.
Proof. split_and!; try (apply (bool_decide_eq_true_1 _)); vm_compute; reflexivity. Qed.

(** ** An attached volume loses its storage *)

(** Of two volumes the first has lost its disk, the second is attached. *)
Definition half_attached_status : string :=
  let nl := String "010"%char "" in
  "pvc node-id:0 role:Secondary" +:+ nl +:+ "  volume:0 minor:20000 disk:Diskless" +:+ nl +:+ "  volume:1 minor:20001 disk:UpToDate".
Definition half_attached : world held :=
  mkWorld (fun w c => ((None, if bool_decide (c = status_verbose "pvc") then half_attached_status else "pvc role:Secondary"), w))
    (fun _ => 0) (fun w _ => (false, w)) (fun w _ => (true, w)) (fun w _ => (Replaced, w)) (fun w _ _ _ => (Err PNotFound, w)) (fun w _ => (Ok true, w)).
Definition turned_diskless : DesiredResource :=
  mkDesiredResource "pvc" "n1" ["DISKLESS"] ∅ [mkDesiredVolume 0 1024 "thin" "" 20000 "" "" ""; mkDesiredVolume 1 1024 "thin" "" 20001 "" "" ""] []
    {["node-id" := "0"; "minor" := "20000"]} ["DRBD"; "STORAGE"] [] true false true false (Some true).
Definition turning : list event := trace_of half_attached (settings true) unreadable status_of map_to_list map_to_list turned_diskless Filled nothing_known.

(** Turning a replica diskless: when one volume of the resource has lost its disk, the detach is left out for
    all of them, and the pass deletes the storage of a volume that the kernel reports as attached and up to date. *)
Theorem attached_volume_loses_its_storage :
  isDiskless (dr_Flags turned_diskless) = true
  /\ contains "volume:1 minor:20001 disk:UpToDate" half_attached_status = true
  /\ (["DeleteVolume"; "pvc"; "1"], (None, "")) ∈ turning
  /\ Forall (fun c => "detach" ∉ c) turning.*1.
Proof. split_and!; try (apply (bool_decide_eq_true_1 _)); vm_compute; reflexivity. Qed.

(** ** Waiting and tearing down *)

(** A host whose clock is its state; a sleep lasts as long as asked. *)
Definition ticking : world Z := mkWorld (fun w _ => ((Some "exit status 1", ""), w)) (fun w => w) (fun w d => (false, w + Z.max d 0)) (fun w _ => (true, w))
  (fun w _ => (Replaced, w)) (fun w _ _ _ => (Err PNotFound, w)) (fun w _ => (Ok true, w)).
Definition ticking_settings : ReconcilerConfig Z := mkConfig ∅ true true 3 2 "n1" "10.0.0.1" true true false true.

Lemma waiting_witness : waited "/dev/vg/pvc_00000" (Err (DeviceMissing "/dev/vg/pvc_00000")) /\
  waited "/dev/vg/pvc_00000" (fst (waitForBlockDevice ticking ticking_settings "/dev/vg/pvc_00000" (0, nothing_known, []))).
Proof.
  split; [right; left; reflexivity|]. apply (waiting_for_a_device_ends ticking ticking_settings); [intros w c; simpl; lia|intros w d; simpl; lia].
Defined.


(** Every command fails. *)
Definition stuck : world held := mkWorld (fun w _ => ((Some "exit status 11: device is held open", ""), w)) (fun _ => 0) (fun w _ => (false, w)) (fun w _ => (true, w))
  (fun w _ => (Replaced, w)) (fun w _ _ _ => (Err PNotFound, w)) (fun w _ => (Ok true, w)).
Definition loaded_state : rstate := mkRState no_record (mkStateDir {["pvc" := "resource pvc {}"]} {["pvc"]} ∅) ∅ ∅ ∅ ∅ ∅ ∅.
Lemma refused_teardown_witness :
  let '(r, ((_, st'), log')) := DeleteResource stuck (settings true) "pvc" "" [0] ((Absent, loaded_state), []) in
  r = Ok tt /\ refused "pvc" log' /\ gone "pvc" st' /\
  forall node dir limit grace resources definitions now exists_file entries, dir <> "" -> sees dir st' exists_file entries ->
    along (told_to_sweeper resources definitions now exists_file entries) (fun c => c <> SetupDownU "pvc") (KernelSweeper.sweepOnce node dir limit grace) (fun _ => True).
Proof.
  apply (refused_teardown_is_never_finished stuck (settings true) "pvc" "" [0] Absent loaded_state []); [reflexivity..| |reflexivity].
  intros tool w _. simpl. discriminate.
Defined.
