(* ===== verification/Observer.v ===== *)
(** * The observer of the satellite

    Models [pkg/satellite/controllers/observer.go]: how the lines of [drbdsetup events2] become
    observations, what the observer remembers of each resource, when it wakes the reconciler, and
    the status it writes on the custom resource. What it reads and writes outside are calls; the
    orders in which the caches are walked are parameters. *)

From Stdlib Require Import Ascii.
From S2P Require Import Prelude Prog GoStrings CrdName DrbdStates DrbdText Dispatcher.
Import Events.

(** ** Observations *)

Record volumeObservation := mkVolumeObservation {
  vo_VolumeNumber : Z;
  vo_DiskState : string;
  vo_CurrentUUID : string;
  vo_BackingDev : string;
  vo_OutOfSyncKib : Z;
  vo_HasSync : bool;
  vo_Quorum : bool;
  vo_HasQuorum : bool;
  vo_Removed : bool;
}.
Record peerVolumeObservation := mkPeerVolumeObservation { pvo_VolumeNumber : Z; pvo_PeerDiskState : string }.
Record connectionObservation := mkConnectionObservation {
  co_PeerNodeName : string;
  co_Connected : bool;
  co_Message : string;
  co_ReplicationState : string;
  co_PeerDRBDNodeID : option Z;
  co_PeerVolumes : list peerVolumeObservation;
  co_Removed : bool;
}.
Record observation := mkObservation {
  ob_ResourceName : string;
  ob_InUse : bool;
  ob_DrbdState : string;
  ob_Role : string;
  ob_Suspended : string;
  ob_HasResource : bool;
  ob_KernelLoaded : bool;
  ob_HasKernelLoaded : bool;
  ob_Volumes : list volumeObservation;
  ob_Connections : list connectionObservation;
}.

#[export] Instance volumeObservation_eq_dec : EqDecision volumeObservation.
Proof. solve_decision. Defined.
#[export] Instance peerVolumeObservation_eq_dec : EqDecision peerVolumeObservation.
Proof. solve_decision. Defined.
#[export] Instance connectionObservation_eq_dec : EqDecision connectionObservation.
Proof. solve_decision. Defined.

Definition no_volume : volumeObservation := mkVolumeObservation 0 "" "" "" 0 false false false false.
Definition no_connection : connectionObservation := mkConnectionObservation "" false "" "" None [] false.
Definition about (name : string) (vols : list volumeObservation) (conns : list connectionObservation) : observation :=
  mkObservation name false "" "" "" false false false vols conns.

Definition normalizeSuspended (raw : string) : string := if Str.equal_fold raw "no" then "" else raw.
Definition normalizeKernelLoaded (action : string) : bool := bool_decide (action ∈ ["exists"; "change"; "create"]).

Definition translateResourceEvent (ev : Event) : option observation :=
  let name := get (Fields ev) "name" in
  if bool_decide (name = "") then None
  else Some (mkObservation name (bool_decide (get (Fields ev) "role" = "Primary")) "" (get (Fields ev) "role") (normalizeSuspended (get (Fields ev) "suspended"))
               true (normalizeKernelLoaded (Action ev)) true [] []).

Definition with_state (disk : string) (o : observation) : observation :=
  mkObservation (ob_ResourceName o) (ob_InUse o) disk (ob_Role o) (ob_Suspended o) (ob_HasResource o) (ob_KernelLoaded o) (ob_HasKernelLoaded o) (ob_Volumes o) (ob_Connections o).
Definition device_volume (ev : Event) (volNum : Z) : volumeObservation :=
  if bool_decide (Action ev = "destroy") then mkVolumeObservation (wrap32 volNum) "" "" "" 0 false false false true
  else
    let quorum := Fields ev !! "quorum" in
    mkVolumeObservation (wrap32 volNum) (get (Fields ev) "disk") (get (Fields ev) "current-uuid") (get (Fields ev) "backing_dev") 0 false
      (bool_decide (quorum = Some "yes")) (bool_decide (is_Some quorum)) false.
Definition translateDeviceEvent (ev : Event) : option observation :=
  let name := get (Fields ev) "name" in
  if bool_decide (name = "") then None
  else
    let vols := match Fields ev !! "volume" ≫= parse_int 64 with None => [] | Some volNum => [device_volume ev volNum] end in
    Some (with_state (get (Fields ev) "disk") (about name vols [])).

Definition parsePeerNodeID (raw : string) : option Z := if bool_decide (raw = "") then None else wrap32 <$> parse_int 64 raw.

Definition peerDeviceVolumeObservation (ev : Event) (volNum : Z) : list volumeObservation :=
  let oos := Fields ev !! "out-of-sync" ≫= parse_int 64 in
  let counted (disk : string) (kib : Z) := mkVolumeObservation volNum disk "" "" kib true false false false in
  if bool_decide (get (Fields ev) "replication" = "SyncSource") then
    [match oos with Some kib => counted "UpToDate" kib | None => mkVolumeObservation volNum "UpToDate" "" "" 0 false false false false end]
  else
    match oos with
    | Some kib => [counted "" kib]
    | None => if bool_decide (get (Fields ev) "replication" = "Established") then [counted "" 0] else []
    end.
Definition translatePeerDeviceEvent (ev : Event) : option observation :=
  let name := get (Fields ev) "name" in
  if bool_decide (name = "") then None
  else
    match Fields ev !! "volume" ≫= parse_int 64 with
    | None => None
    | Some volNum =>
        let vols := peerDeviceVolumeObservation ev (wrap32 volNum) in
        let peer := get (Fields ev) "conn-name" in
        let nodeID := parsePeerNodeID (get (Fields ev) "peer-node-id") in
        let repl := get (Fields ev) "replication" in
        let pd := get (Fields ev) "peer-disk" in
        let peerVols := if bool_decide (pd = "") then [] else [mkPeerVolumeObservation (wrap32 volNum) pd] in
        let conns :=
          if bool_decide (peer = "") then []
          else if bool_decide (repl = "" /\ peerVols = [] /\ nodeID = None) then []
          else [mkConnectionObservation peer false "" repl nodeID peerVols false] in
        if bool_decide (vols = [] /\ conns = []) then None else Some (about name vols conns)
    end.

Definition translateConnectionEvent (ev : Event) : option observation :=
  let name := get (Fields ev) "name" in
  let peer := get (Fields ev) "conn-name" in
  let state := get (Fields ev) "connection" in
  if bool_decide (name = "") || bool_decide (peer = "") then None
  else if bool_decide (Action ev = "destroy") then Some (about name [] [mkConnectionObservation peer false "" "" None [] true])
  else if bool_decide (state = "") then None
  else Some (about name [] [mkConnectionObservation peer (bool_decide (state = "Connected")) state "" (parsePeerNodeID (get (Fields ev) "peer-node-id")) [] false]).

Definition translateEvent (ev : Event) : option observation :=
  if bool_decide (Kind ev = "resource") then translateResourceEvent ev
  else if bool_decide (Kind ev = "device") then translateDeviceEvent ev
  else if bool_decide (Kind ev = "peer-device") then translatePeerDeviceEvent ev
  else if bool_decide (Kind ev = "connection") then translateConnectionEvent ev
  else None.
Definition observationsFrom (evs : list Event) : list observation := omap translateEvent evs.

(** ** What is remembered *)

Record resourceObservation := mkResourceObservation { ro_InUse : bool; ro_DrbdState : string; ro_Role : string; ro_Suspended : string }.
Record volumeLifecycle := mkVolumeLifecycle { vl_DiskState : string; vl_Quorum : bool; vl_HasQuorum : bool }.
Record connectionLifecycle := mkConnectionLifecycle { cl_Connected : bool; cl_Message : string; cl_ReplicationState : string; cl_PeerDisk : gmap Z string }.
Record lifecycleSignature := mkSignature {
  ls_Role : string; ls_DrbdState : string; ls_Suspended : string;
  ls_PerVolume : gmap Z volumeLifecycle;
  ls_PerConnection : gmap string connectionLifecycle;
}.
Record observer := mkObserver {
  o_connCache : gmap string (gmap string connectionObservation);
  o_volCache : gmap string (gmap Z volumeObservation);
  o_resCache : gmap string resourceObservation;
  o_lifecycleCache : gmap string lifecycleSignature;
}.
Definition set_conns (c : gmap string (gmap string connectionObservation)) (o : observer) : observer := mkObserver c (o_volCache o) (o_resCache o) (o_lifecycleCache o).
Definition set_vols (c : gmap string (gmap Z volumeObservation)) (o : observer) : observer := mkObserver (o_connCache o) c (o_resCache o) (o_lifecycleCache o).
Definition set_res (c : gmap string resourceObservation) (o : observer) : observer := mkObserver (o_connCache o) (o_volCache o) c (o_lifecycleCache o).
Definition set_lifecycle (c : gmap string lifecycleSignature) (o : observer) : observer := mkObserver (o_connCache o) (o_volCache o) (o_resCache o) c.

Definition set_volumes (vols : list volumeObservation) (ev : observation) : observation :=
  mkObservation (ob_ResourceName ev) (ob_InUse ev) (ob_DrbdState ev) (ob_Role ev) (ob_Suspended ev) (ob_HasResource ev) (ob_KernelLoaded ev) (ob_HasKernelLoaded ev) vols (ob_Connections ev).
Definition set_connections (conns : list connectionObservation) (ev : observation) : observation :=
  mkObservation (ob_ResourceName ev) (ob_InUse ev) (ob_DrbdState ev) (ob_Role ev) (ob_Suspended ev) (ob_HasResource ev) (ob_KernelLoaded ev) (ob_HasKernelLoaded ev) (ob_Volumes ev) conns.

(** Fold a frame into the entry of its volume: the entry, and whether anything that is published changed. *)
Definition merge_volume (merged incoming : volumeObservation) : volumeObservation * bool :=
  let disk := negb (bool_decide (vo_DiskState incoming = "")) && negb (bool_decide (vo_DiskState merged = vo_DiskState incoming)) in
  let uuid := negb (bool_decide (vo_CurrentUUID incoming = "")) && negb (bool_decide (vo_CurrentUUID merged = vo_CurrentUUID incoming)) in
  let sync := vo_HasSync incoming && (negb (vo_HasSync merged) || negb (bool_decide (vo_OutOfSyncKib merged = vo_OutOfSyncKib incoming))) in
  let quorum := vo_HasQuorum incoming && (negb (vo_HasQuorum merged) || negb (bool_decide (vo_Quorum merged = vo_Quorum incoming))) in
  (mkVolumeObservation (vo_VolumeNumber incoming) (if disk then vo_DiskState incoming else vo_DiskState merged) (if uuid then vo_CurrentUUID incoming else vo_CurrentUUID merged)
     (if bool_decide (vo_BackingDev incoming = "") then vo_BackingDev merged else vo_BackingDev incoming)
     (if sync then vo_OutOfSyncKib incoming else vo_OutOfSyncKib merged) (sync || vo_HasSync merged)
     (if quorum then vo_Quorum incoming else vo_Quorum merged) (quorum || vo_HasQuorum merged) (vo_Removed merged),
   disk || uuid || sync || quorum).
Definition mergeVolumeInto (cache : gmap Z volumeObservation) (incoming : volumeObservation) : gmap Z volumeObservation * bool :=
  let '(merged, changed) := merge_volume (default no_volume (cache !! vo_VolumeNumber incoming)) incoming in
  (<[vo_VolumeNumber incoming := merged]> cache, changed).
Fixpoint merge_volumes (cache : gmap Z volumeObservation) (incoming : list volumeObservation) (changed : bool) : gmap Z volumeObservation * bool :=
  match incoming with
  | [] => (cache, changed)
  | v :: rest =>
      if vo_Removed v then merge_volumes (delete (vo_VolumeNumber v) cache) rest (changed || bool_decide (is_Some (cache !! vo_VolumeNumber v)))
      else let '(cache, c) := mergeVolumeInto cache v in merge_volumes cache rest (changed || c)
  end.

(** Sorted by volume number; a number occurs once. *)
Definition number_le (x y : Z * peerVolumeObservation) : Prop := x.1 <= y.1.
#[export] Instance number_le_dec : RelDecision number_le.
Proof. intros x y. unfold number_le. apply _. Defined.
Definition by_number (l : list (Z * peerVolumeObservation)) : list (Z * peerVolumeObservation) := merge_sort number_le l.
Definition mergePeerVolumesInto (cached incoming : list peerVolumeObservation) : list peerVolumeObservation :=
  let byVol : gmap Z peerVolumeObservation := foldl (fun m pv => <[pvo_VolumeNumber pv := pv]> m) ∅ cached in
  let byVol := foldl (fun m pv => if bool_decide (pvo_PeerDiskState pv = "") then m else <[pvo_VolumeNumber pv := mkPeerVolumeObservation (pvo_VolumeNumber pv) (pvo_PeerDiskState pv)]> m) byVol incoming in
  (by_number (map_to_list byVol)).*2.
Definition merge_connection (merged c : connectionObservation) : connectionObservation :=
  let fresh := negb (bool_decide (co_Message c = "")) in
  mkConnectionObservation (co_PeerNodeName c) (if fresh then co_Connected c else co_Connected merged) (if fresh then co_Message c else co_Message merged)
    (if bool_decide (co_ReplicationState c = "") then co_ReplicationState merged else co_ReplicationState c)
    (match co_PeerDRBDNodeID c with Some id => Some id | None => co_PeerDRBDNodeID merged end)
    (match co_PeerVolumes c with [] => co_PeerVolumes merged | vols => mergePeerVolumesInto (co_PeerVolumes merged) vols end) (co_Removed merged).
Fixpoint merge_connections (peers : gmap string connectionObservation) (incoming : list connectionObservation) : gmap string connectionObservation :=
  match incoming with
  | [] => peers
  | c :: rest =>
      if co_Removed c then merge_connections (delete (co_PeerNodeName c) peers) rest
      else merge_connections (<[co_PeerNodeName c := merge_connection (default no_connection (peers !! co_PeerNodeName c)) c]> peers) rest
  end.

(** The comparisons of signatures, entry by entry. *)
Definition maps_equal {K V} `{Countable K} (same : V -> V -> bool) (left right : gmap K V) : bool :=
  bool_decide (size left = size right)
  && forallb (fun kv => match right !! kv.1 with Some v => same kv.2 v | None => false end) (map_to_list left).
Definition stringMapsEqual : gmap Z string -> gmap Z string -> bool := maps_equal (fun v w => bool_decide (v = w)).
Definition same_volume (l r : volumeLifecycle) : bool :=
  bool_decide (vl_DiskState l = vl_DiskState r) && bool_decide (vl_Quorum l = vl_Quorum r) && bool_decide (vl_HasQuorum l = vl_HasQuorum r).
Definition volumeLifecycleMapsEqual : gmap Z volumeLifecycle -> gmap Z volumeLifecycle -> bool := maps_equal same_volume.
Definition same_connection (l r : connectionLifecycle) : bool :=
  bool_decide (cl_Connected l = cl_Connected r) && bool_decide (cl_Message l = cl_Message r) && bool_decide (cl_ReplicationState l = cl_ReplicationState r)
  && stringMapsEqual (cl_PeerDisk l) (cl_PeerDisk r).
Definition connectionLifecycleMapsEqual : gmap string connectionLifecycle -> gmap string connectionLifecycle -> bool := maps_equal same_connection.
Definition lifecycleSignaturesEqual (l r : lifecycleSignature) : bool :=
  bool_decide (ls_Role l = ls_Role r) && bool_decide (ls_DrbdState l = ls_DrbdState r) && bool_decide (ls_Suspended l = ls_Suspended r)
  && volumeLifecycleMapsEqual (ls_PerVolume l) (ls_PerVolume r) && connectionLifecycleMapsEqual (ls_PerConnection l) (ls_PerConnection r).

(** ** Calls *)

Inductive oerr := ONotFound | OFailed.
(** What the observer reads of a custom resource. *)
Record resourceView := mkResourceView { rv_StoragePool : string; rv_VolumeNumbers : string; rv_ResourceDefinitionName : string; rv_NodeName : string }.

(** The status the observer applies; an empty list is left out of the patch. *)
Record volumeStatus := mkObservedVolume { os_VolumeNumber : Z; os_StoragePool : string; os_DiskState : string; os_CurrentGI : string; os_OutOfSyncKib : Z; os_Quorum : bool }.
Record connectionStatus := mkObservedConnection {
  oc_PeerNodeName : string; oc_Connected : bool; oc_Message : string; oc_ReplicationState : string; oc_PeerDRBDNodeID : option Z; oc_PeerVolumes : list (Z * string);
}.
Record observedStatus := mkObservedStatus {
  st_InUse : bool; st_DrbdState : string; st_Role : string; st_Suspended : string;
  st_Volumes : list volumeStatus; st_Connections : list connectionStatus;
}.

Inductive ocall :=
| DetachO (rd : string)
| GetResourceO (name : string)
(** Server-side apply of the SkipDisk property, of the KernelLoaded condition and of the status. *)
| PatchSkipDiskO (name rd node : string)
| StampLoadedO (name : string) (loaded : bool)
| PatchStatusO (name : string) (status : observedStatus)
(** Offer a wake-up to the reconciler; whether there was room for it. *)
| TriggerO (name : string)
| CurrentGIO (rd : string) (vol : Z) (device : string)
| RecordGIO (rd : string) (vol : Z) (gi : string).
Definition oanswer (c : ocall) : Type :=
  match c with
  | DetachO _ | TriggerO _ => bool
  | GetResourceO _ => result oerr resourceView
  | PatchSkipDiskO _ _ _ | StampLoadedO _ _ | PatchStatusO _ _ => result oerr unit
  | CurrentGIO _ _ _ => result unit string
  | RecordGIO _ _ _ => unit
  end.
Notation oprog := (prog oanswer).
Definition say (c : ocall) : oprog (oanswer c) := Do c (fun a => Ret a).

Definition parseVolumeNumbers (s : string) : list Z :=
  if bool_decide (s = "") then [] else omap (fun part => parse_int 32 (Str.trim_space part)) (split_char ","%char s).
Definition isDataBearingDiskState (s : string) : bool := bool_decide (s ∈ ["UpToDate"; "Consistent"; "Outdated"]).

Definition buildPeerVolumeStatus (vols : list peerVolumeObservation) : list (Z * string) := (fun pv => (pvo_VolumeNumber pv, pvo_PeerDiskState pv)) <$> vols.
Definition buildObserverVolumeStatus (vols : list volumeObservation) (storagePool : string) : list volumeStatus :=
  (fun v => mkObservedVolume (vo_VolumeNumber v) storagePool (vo_DiskState v) (vo_CurrentUUID v) (vo_OutOfSyncKib v) (vo_Quorum v)) <$> vols.
Definition buildObserverConnectionStatus (conns : list connectionObservation) : list connectionStatus :=
  (fun c => mkObservedConnection (co_PeerNodeName c) (co_Connected c) (co_Message c) (co_ReplicationState c) (co_PeerDRBDNodeID c)
              (buildPeerVolumeStatus (co_PeerVolumes c))) <$> conns.

Section Observer.
(** The orders in which the caches of one resource and the names are walked. *)
Context (range_volumes : gmap Z volumeObservation -> list volumeObservation) (range_peers : gmap string connectionObservation -> list connectionObservation)
  (range_names : gset string -> list string).
(** Whether the channel of wake-ups and the record of generations are set up. *)
Context (NodeName : string) (ReconcileTrigger RecordGI : bool).

Definition object_name (rd : string) : string := Name (rd +:+ "." +:+ NodeName).

Definition mergeVolumes (o : observer) (ev : observation) : observer * observation :=
  if bool_decide (ob_ResourceName ev = "") then (o, ev)
  else
    let cache := default ∅ (o_volCache o !! ob_ResourceName ev) in
    let '(cache, changed) := merge_volumes cache (ob_Volumes ev) false in
    (set_vols (<[ob_ResourceName ev := cache]> (o_volCache o)) o, set_volumes (if changed then range_volumes cache else []) ev).
Definition mergeConnections (o : observer) (ev : observation) : observer * observation :=
  if bool_decide (ob_ResourceName ev = "") then (o, ev)
  else
    let peers := merge_connections (default ∅ (o_connCache o !! ob_ResourceName ev)) (ob_Connections ev) in
    (set_conns (<[ob_ResourceName ev := peers]> (o_connCache o)) o,
     match ob_Connections ev with [] => ev | _ => set_connections (range_peers peers) ev end).
Definition mergeResource (o : observer) (ev : observation) : observer * observation :=
  if bool_decide (ob_ResourceName ev = "") then (o, ev)
  else
    let cur := default (mkResourceObservation false "" "" "") (o_resCache o !! ob_ResourceName ev) in
    let cur := if ob_HasResource ev then mkResourceObservation (ob_InUse ev) (ro_DrbdState cur) (ob_Role ev) (normalizeSuspended (ob_Suspended ev)) else cur in
    let cur := if bool_decide (ob_DrbdState ev = "") then cur else mkResourceObservation (ro_InUse cur) (ob_DrbdState ev) (ro_Role cur) (ro_Suspended cur) in
    (set_res (<[ob_ResourceName ev := cur]> (o_resCache o)) o,
     mkObservation (ob_ResourceName ev) (ro_InUse cur) (ro_DrbdState cur) (ro_Role cur) (ro_Suspended cur) (ob_HasResource ev) (ob_KernelLoaded ev) (ob_HasKernelLoaded ev)
       (ob_Volumes ev) (ob_Connections ev)).

Definition lifecycleSnapshot (o : observer) (name : string) : lifecycleSignature :=
  let r := default (mkResourceObservation false "" "" "") (o_resCache o !! name) in
  mkSignature (ro_Role r) (ro_DrbdState r) (ro_Suspended r)
    ((fun v => mkVolumeLifecycle (vo_DiskState v) (vo_Quorum v) (vo_HasQuorum v)) <$> default ∅ (o_volCache o !! name))
    ((fun c => mkConnectionLifecycle (co_Connected c) (co_Message c) (co_ReplicationState c)
                 (foldl (fun m pv => <[pvo_VolumeNumber pv := pvo_PeerDiskState pv]> m) ∅ (co_PeerVolumes c))) <$> default ∅ (o_connCache o !! name)).
Definition emitReconcileTrigger (o : observer) (ev : observation) : oprog observer :=
  if negb ReconcileTrigger || bool_decide (ob_ResourceName ev = "") then Ret o
  else
    let want := lifecycleSnapshot o (ob_ResourceName ev) in
    if match o_lifecycleCache o !! ob_ResourceName ev with Some cur => lifecycleSignaturesEqual cur want | None => false end then Ret o
    else _ ← say (TriggerO (object_name (ob_ResourceName ev))); Ret (set_lifecycle (<[ob_ResourceName ev := want]> (o_lifecycleCache o)) o).

Definition pruneVolumeCacheToDesired (o : observer) (ev : observation) (res : resourceView) : observer * observation :=
  match parseVolumeNumbers (rv_VolumeNumbers res), o_volCache o !! ob_ResourceName ev with
  | [], _ | _, None => (o, ev)
  | nums, Some cache =>
      let kept := filter (fun kv => kv.1 ∈ nums) cache in
      if bool_decide (kept = cache) then (o, ev)
      else (set_vols (<[ob_ResourceName ev := kept]> (o_volCache o)) o, set_volumes (range_volumes kept) ev)
  end.

(** The observation with the generations filled in. *)
Fixpoint backfill_volumes (rd : string) (vols : list volumeObservation) : oprog (list volumeObservation) :=
  match vols with
  | [] => Ret []
  | v :: rest =>
      v ← (if negb (isDataBearingDiskState (vo_DiskState v)) then Ret v
           else
             gi ← (if bool_decide (vo_CurrentUUID v = "") && negb (bool_decide (vo_BackingDev v = "")) then
                     current ← say (CurrentGIO rd (vo_VolumeNumber v) (vo_BackingDev v));
                     Ret match current with Ok gi => gi | Err _ => vo_CurrentUUID v end
                   else Ret (vo_CurrentUUID v));
             _ ← (if negb (bool_decide (gi = "")) && RecordGI then say (RecordGIO rd (vo_VolumeNumber v) gi) else Ret tt);
             Ret (mkVolumeObservation (vo_VolumeNumber v) (vo_DiskState v) gi (vo_BackingDev v) (vo_OutOfSyncKib v) (vo_HasSync v) (vo_Quorum v) (vo_HasQuorum v) (vo_Removed v)));
      rest ← backfill_volumes rd rest;
      Ret (v :: rest)
  end.
Definition backfillCurrentGI (ev : observation) : oprog observation := vols ← backfill_volumes (ob_ResourceName ev) (ob_Volumes ev); Ret (set_volumes vols ev).

Definition status_of (ev : observation) (storagePool : string) : observedStatus :=
  mkObservedStatus (ob_InUse ev) (ob_DrbdState ev) (ob_Role ev) (normalizeSuspended (ob_Suspended ev))
    (buildObserverVolumeStatus (ob_Volumes ev) storagePool) (buildObserverConnectionStatus (ob_Connections ev)).
(** Errors of the last write are logged or, for a resource that is not there yet, ignored. *)
Definition writeStatus (o : observer) (ev : observation) : oprog observer :=
  if bool_decide (ob_ResourceName ev = "") then Ret o
  else
    let name := object_name (ob_ResourceName ev) in
    lookup ← say (GetResourceO name);
    let '(o, ev, pool) := match lookup with Ok res => let '(o, ev) := pruneVolumeCacheToDesired o ev res in (o, ev, rv_StoragePool res) | Err _ => (o, ev, "") end in
    _ ← say (PatchStatusO name (status_of ev pool));
    Ret o.
Definition writeSkipDiskProp (rd : string) : oprog unit :=
  if bool_decide (rd = "") then Ret tt
  else
    let name := object_name rd in
    existing ← say (GetResourceO name);
    match existing with
    | Err _ => Ret tt
    | Ok res => _ ← say (PatchSkipDiskO name (rv_ResourceDefinitionName res) (rv_NodeName res)); Ret tt
    end.
Definition stampKernelLoaded (rd : string) (loaded : bool) : oprog unit :=
  if bool_decide (rd = "") then Ret tt else _ ← say (StampLoadedO (object_name rd) loaded); Ret tt.

Definition merged (o : observer) (ev : observation) : observer * observation :=
  let '(o, ev) := mergeConnections o ev in let '(o, ev) := mergeVolumes o ev in mergeResource o ev.
Definition handleObservation (o : observer) (ev : observation) : oprog observer :=
  _ ← (if bool_decide (ob_DrbdState ev = "Failed") then _ ← say (DetachO (ob_ResourceName ev)); writeSkipDiskProp (ob_ResourceName ev) else Ret tt);
  let '(o, ev) := merged o ev in
  o ← emitReconcileTrigger o ev;
  _ ← (if ob_HasKernelLoaded ev then stampKernelLoaded (ob_ResourceName ev) (ob_KernelLoaded ev) else Ret tt);
  ev ← backfillCurrentGI ev;
  writeStatus o ev.

(** ** The resync *)

Definition cachedResourceNames (o : observer) : gset string := dom (o_volCache o) ∪ dom (o_connCache o) ∪ dom (o_resCache o).
Definition snapshotFor (o : observer) (name : string) : observation :=
  let r := default (mkResourceObservation false "" "" "") (o_resCache o !! name) in
  mkObservation name (ro_InUse r) (ro_DrbdState r) (ro_Role r) (ro_Suspended r) false false false
    (match o_volCache o !! name with Some cache => range_volumes cache | None => [] end) (match o_connCache o !! name with Some peers => range_peers peers | None => [] end).
Fixpoint resync_each (o : observer) (names : list string) : oprog observer :=
  match names with
  | [] => Ret o
  | name :: rest =>
      o ← (if bool_decide (name = "") then Ret o else ev ← backfillCurrentGI (snapshotFor o name); writeStatus o ev);
      resync_each o rest
  end.
Definition resyncOnce (o : observer) : oprog observer := resync_each o (range_names (cachedResourceNames o)).

End Observer.
