(* ===== verification/ObserverProps.v ===== *)
(** * The observer: properties

    What is remembered of a volume is the last that was heard of it since it was last removed; the
    reconciler is woken exactly when something other than the progress of a resync changed; the
    resync publishes everything that is remembered. A frame that brings no news of the volumes
    withdraws them from the status. *)

From S2P Require Import Prelude Prog GoStrings CrdName DrbdStates DrbdText Dispatcher Observer.
Import Events.

(** ** Comparing signatures *)

Lemma maps_equal_spec {K V} `{Countable K} (same : V -> V -> bool) (m1 m2 : gmap K V) :
  (forall x y, same x y = true <-> x = y) -> maps_equal same m1 m2 = true <-> m1 = m2.
Proof.
  intros Hs. unfold maps_equal. rewrite andb_true_iff, bool_decide_eq_true, forallb_forall. split.
  - intros [Hsize Hin]. apply map_subseteq_size_eq; [|lia]. apply map_subseteq_spec. intros k v Hk.
    specialize (Hin (k, v)). cbn in Hin. destruct (m2 !! k) as [w|]; [f_equal; symmetry; apply Hs|exfalso; cut (false = true); [done|]]; apply Hin; apply list_elem_of_In, elem_of_map_to_list; done.
  - intros ->. split; [done|]. intros [k v] Hk%list_elem_of_In%elem_of_map_to_list. cbn. rewrite Hk. by apply Hs.
Qed.
Lemma stringMapsEqual_spec l r : stringMapsEqual l r = true <-> l = r.
Proof. apply maps_equal_spec. intros x y. apply bool_decide_eq_true. Qed.
Lemma same_volume_spec l r : same_volume l r = true <-> l = r.
Proof. unfold same_volume. rewrite !andb_true_iff, !bool_decide_eq_true. destruct l, r; cbn. split; [intros [[-> ->] ->]; done|by intros [= -> -> ->]]. Qed.
Lemma same_connection_spec l r : same_connection l r = true <-> l = r.
Proof.
  unfold same_connection. rewrite !andb_true_iff, !bool_decide_eq_true, stringMapsEqual_spec. destruct l, r; cbn.
  split; [intros [[[-> ->] ->] ->]; done|by intros [= -> -> -> ->]].
Qed.
Lemma signatures_equal l r : lifecycleSignaturesEqual l r = true <-> l = r.
Proof.
  unfold lifecycleSignaturesEqual, volumeLifecycleMapsEqual, connectionLifecycleMapsEqual.
  rewrite !andb_true_iff, !bool_decide_eq_true, (maps_equal_spec _ _ _ same_volume_spec), (maps_equal_spec _ _ _ same_connection_spec). destruct l, r; cbn.
  split; [intros [[[[-> ->] ->] ->] ->]; done|by intros [= -> -> -> -> ->]].
Qed.

#[export] Instance signature_eq_dec : EqDecision lifecycleSignature.
Proof. intros l r. destruct (lifecycleSignaturesEqual l r) eqn:E; [left; by apply signatures_equal|right; intros ?%signatures_equal; congruence]. Defined.

(** ** What is remembered of a volume *)

(** The frames of a volume since it was last removed. *)
Definition since_removal (h : list volumeObservation) : list volumeObservation := foldl (fun fs v => if vo_Removed v then [] else fs ++ [v]) [] h.
(** The last word of the frames that have one. *)
Definition latest {A} (word : volumeObservation -> option A) (h : list volumeObservation) : option A :=
  foldl (fun acc v => match word v with Some x => Some x | None => acc end) None h.
Definition told (s : string) : option string := if bool_decide (s = "") then None else Some s.
Definition last_known (n : Z) (h : list volumeObservation) : option volumeObservation :=
  match since_removal h with
  | [] => None
  | fs => Some (mkVolumeObservation n (default "" (latest (fun v => told (vo_DiskState v)) fs)) (default "" (latest (fun v => told (vo_CurrentUUID v)) fs))
      (default "" (latest (fun v => told (vo_BackingDev v)) fs)) (default 0 (latest (fun v => if vo_HasSync v then Some (vo_OutOfSyncKib v) else None) fs)) (existsb vo_HasSync fs)
      (default false (latest (fun v => if vo_HasQuorum v then Some (vo_Quorum v) else None) fs)) (existsb vo_HasQuorum fs) false)
  end.
(** The frames of one volume of one resource, in order. *)
Definition heard (rd : string) (n : Z) (evs : list observation) : list volumeObservation :=
  filter (fun v => vo_VolumeNumber v = n) (concat (ob_Volumes <$> filter (fun ev => ob_ResourceName ev = rd) evs)).

Lemma since_removal_snoc h v : since_removal (h ++ [v]) = if vo_Removed v then [] else since_removal h ++ [v].
Proof. unfold since_removal. by rewrite foldl_app. Qed.
Lemma latest_snoc {A} (word : volumeObservation -> option A) h v : latest word (h ++ [v]) = match word v with Some x => Some x | None => latest word h end.
Proof. unfold latest. by rewrite foldl_app. Qed.
Lemma existsb_snoc (f : volumeObservation -> bool) h v : existsb f (h ++ [v]) = existsb f h || f v.
Proof. rewrite existsb_app. cbn. by rewrite orb_false_r. Qed.

Definition merged_string (old new : string) : string := if negb (bool_decide (new = "")) && negb (bool_decide (old = new)) then new else old.
Lemma told_merge old new : merged_string old new = default old (told new).
Proof. unfold merged_string, told. repeat case_bool_decide; naive_solver. Qed.

(** One more frame. *)
Lemma last_known_snoc n h v : vo_VolumeNumber v = n ->
  last_known n (h ++ [v]) = if vo_Removed v then None else Some (merge_volume (default no_volume (last_known n h)) v).1.
Proof.
  intros Hn. unfold last_known. rewrite since_removal_snoc. destruct (vo_Removed v); [done|].
  destruct (since_removal h ++ [v]) eqn:E; [by destruct (since_removal h)|]. rewrite <- E. clear E. f_equal.
  set (fs := since_removal h). rewrite !latest_snoc, !existsb_snoc.
  set (old := default no_volume _).
  assert (vo_DiskState old = default "" (latest (fun v => told (vo_DiskState v)) fs) /\ vo_CurrentUUID old = default "" (latest (fun v => told (vo_CurrentUUID v)) fs) /\
    vo_BackingDev old = default "" (latest (fun v => told (vo_BackingDev v)) fs) /\ vo_OutOfSyncKib old = default 0 (latest (fun v => if vo_HasSync v then Some (vo_OutOfSyncKib v) else None) fs) /\
    vo_HasSync old = existsb vo_HasSync fs /\ vo_Quorum old = default false (latest (fun v => if vo_HasQuorum v then Some (vo_Quorum v) else None) fs) /\
    vo_HasQuorum old = existsb vo_HasQuorum fs /\ vo_Removed old = false) as (E1 & E2 & E3 & E4 & E5 & E6 & E7 & E8) by (unfold old, fs; by destruct (since_removal h)).
  clearbody old. unfold merge_volume. cbn [fst]. rewrite E8, Hn. f_equal.
  - fold (merged_string (vo_DiskState old) (vo_DiskState v)). rewrite told_merge, E1. by destruct (told (vo_DiskState v)).
  - fold (merged_string (vo_CurrentUUID old) (vo_CurrentUUID v)). rewrite told_merge, E2. by destruct (told (vo_CurrentUUID v)).
  - rewrite E3. unfold told. by case_bool_decide.
  - destruct (vo_HasSync v); cbn; [|done]. destruct (vo_HasSync old); cbn; [|done]. by case_bool_decide.
  - rewrite <- E5. destruct (vo_HasSync v), (vo_HasSync old); cbn; try done. by destruct (negb _).
  - destruct (vo_HasQuorum v); cbn; [|done]. destruct (vo_HasQuorum old); cbn; [|done]. by case_bool_decide.
  - rewrite <- E7. destruct (vo_HasQuorum v), (vo_HasQuorum old); cbn; try done. by destruct (negb _).
Qed.

Lemma merge_volumes_known vols n : forall m h changed, m !! n = last_known n h ->
  (merge_volumes m vols changed).1 !! n = last_known n (h ++ filter (fun v => vo_VolumeNumber v = n) vols).
Proof.
  induction vols as [|v vols IH]; intros m h changed Hm; cbn [merge_volumes]; [by rewrite filter_nil, app_nil_r|]. rewrite filter_cons.
  destruct (decide (vo_VolumeNumber v = n)) as [Hn|Hn].
  - replace (h ++ v :: filter (fun v => vo_VolumeNumber v = n) vols) with ((h ++ [v]) ++ filter (fun v => vo_VolumeNumber v = n) vols) by by rewrite <- (assoc_L (++)).
    destruct (vo_Removed v) eqn:Hr; [|unfold mergeVolumeInto; destruct (merge_volume (default no_volume (m !! vo_VolumeNumber v)) v) as [x c] eqn:E]; apply IH; rewrite last_known_snoc by done;
      rewrite Hr; [by rewrite Hn, lookup_delete_eq|]. rewrite Hn in E |- *. by rewrite lookup_insert_eq, <- Hm, E.
  - destruct (vo_Removed v); [|unfold mergeVolumeInto; destruct (merge_volume _ v)]; apply IH; [by rewrite lookup_delete_ne|by rewrite lookup_insert_ne].
Qed.

Section Caches.
Context (range_volumes : gmap Z volumeObservation -> list volumeObservation) (range_peers : gmap string connectionObservation -> list connectionObservation).
Notation merged := (merged range_volumes range_peers).

Definition nothing_seen : observer := mkObserver ∅ ∅ ∅ ∅.
Lemma merged_volumes o ev rd : rd <> "" -> default ∅ (o_volCache (merged o ev).1 !! rd) =
  if decide (ob_ResourceName ev = rd) then (merge_volumes (default ∅ (o_volCache o !! rd)) (ob_Volumes ev) false).1 else default ∅ (o_volCache o !! rd).
Proof.
  intros Hrd. unfold Observer.merged, mergeConnections. case_bool_decide as Hn.
  - unfold mergeVolumes, mergeResource. rewrite !bool_decide_eq_true_2 by done. cbn. rewrite decide_False; [done|congruence].
  - set (o1 := set_conns _ o). set (ev1 := match ob_Connections ev with [] => ev | _ => _ end).
    assert (ob_ResourceName ev1 = ob_ResourceName ev /\ ob_Volumes ev1 = ob_Volumes ev) as [E1 E2] by (unfold ev1; by destruct (ob_Connections ev)).
    unfold mergeVolumes. rewrite E1, bool_decide_eq_false_2 by done. rewrite E2. change (o_volCache o1) with (o_volCache o).
    destruct (merge_volumes (default ∅ (o_volCache o !! ob_ResourceName ev)) (ob_Volumes ev) false) as [cache c] eqn:E.
    unfold mergeResource. cbn [ob_ResourceName set_volumes]. rewrite E1, bool_decide_eq_false_2 by done. cbn. destruct (decide (ob_ResourceName ev = rd)) as [<-|Hne].
    + rewrite lookup_insert_eq. by rewrite E.
    + by rewrite lookup_insert_ne.
Qed.

(** One more frame. *)
Lemma merged_known o evs ev rd n : rd <> "" -> default ∅ (o_volCache o !! rd) !! n = last_known n (heard rd n evs) ->
  default ∅ (o_volCache (merged o ev).1 !! rd) !! n = last_known n (heard rd n (evs ++ [ev])).
Proof.
  intros Hrd IH. unfold heard. rewrite list.filter_app, fmap_app, concat_app, list.filter_app.
  rewrite merged_volumes by done. fold (heard rd n evs). rewrite filter_cons, filter_nil. destruct (decide (ob_ResourceName ev = rd)).
  - cbn [fmap list_fmap concat]. rewrite app_nil_r. by apply merge_volumes_known.
  - cbn [fmap list_fmap concat]. rewrite filter_nil, app_nil_r. apply IH.
Qed.

End Caches.

(** ** Runs *)

(** A run of a program, where some answers are known: the calls it made, and its result. *)
Section Run.
Context (known : forall c : ocall, oanswer c -> Prop).
Fixpoint runs {A} (p : oprog A) (l : list ocall) (a : A) : Prop :=
  match p with
  | Ret x => l = [] /\ a = x
  | Do c k => exists (ans : oanswer c) l', known c ans /\ l = c :: l' /\ runs (k ans) l' a
  end.
Lemma orun_bind {A B} (m : oprog A) (f : A -> oprog B) l b : runs (m ≫= f) l b -> exists l1 l2 a, l = l1 ++ l2 /\ runs m l1 a /\ runs (f a) l2 b.
Proof.
  change (m ≫= f) with (prog_bind f m). revert l. induction m as [a|c k IH]; intros l H; cbn in H; [by exists [], l, a|].
  destruct H as (ans & l' & Hk & -> & H). destruct (IH ans l' H) as (l1 & l2 & a & -> & H1 & H2). exists (c :: l1), l2, a. split_and!; [done|by exists ans, l1|done].
Qed.
Lemma orun_only {A} P (m : oprog A) l a : only P m -> runs m l a -> Forall P l.
Proof. revert l. induction m as [x|c k IH]; intros l Ho H; cbn in *; [destruct H as [-> _]; apply list.Forall_nil_2|]. destruct H as (ans & l' & _ & -> & H), Ho as [Hc Ho]. constructor; [done|]. by eapply IH. Qed.
(** The run in which every call is answered the same. *)
Fixpoint replay {A} (w : forall c, oanswer c) (p : oprog A) : list ocall * A :=
  match p with Ret a => ([], a) | Do c k => let '(l, a) := replay w (k (w c)) in (c :: l, a) end.
Lemma replay_runs {A} w (p : oprog A) : (forall c, known c (w c)) -> runs p (replay w p).1 (replay w p).2.
Proof. intros Hw. induction p as [a|c k IH]; cbn; [done|]. specialize (IH (w c)). destruct (replay w (k (w c))) as [l a]. exists (w c), l. by split_and!. Qed.
End Run.

(** What matters of what is remembered of a resource. *)
Definition same_volume_state (v w : volumeObservation) : Prop := vo_DiskState v = vo_DiskState w /\ vo_Quorum v = vo_Quorum w /\ vo_HasQuorum v = vo_HasQuorum w.
(** The last state told of a disk of the peer. *)
Definition peer_disk (c : connectionObservation) (n : Z) : option string :=
  pvo_PeerDiskState <$> list.last (filter (fun pv => pvo_VolumeNumber pv = n) (co_PeerVolumes c)).
Definition same_connection_state (c d : connectionObservation) : Prop :=
  co_Connected c = co_Connected d /\ co_Message c = co_Message d /\ co_ReplicationState c = co_ReplicationState d /\ forall n, peer_disk c n = peer_disk d n.
Definition remembered_resource (o : observer) (rd : string) : resourceObservation := default (mkResourceObservation false "" "" "") (o_resCache o !! rd).
Definition same_lifecycle (rd : string) (o1 o2 : observer) : Prop :=
  let r1 := remembered_resource o1 rd in let r2 := remembered_resource o2 rd in
  ro_Role r1 = ro_Role r2 /\ ro_DrbdState r1 = ro_DrbdState r2 /\ ro_Suspended r1 = ro_Suspended r2 /\
  (forall n, option_Forall2 same_volume_state (default ∅ (o_volCache o1 !! rd) !! n) (default ∅ (o_volCache o2 !! rd) !! n)) /\
  (forall p, option_Forall2 same_connection_state (default ∅ (o_connCache o1 !! rd) !! p) (default ∅ (o_connCache o2 !! rd) !! p)).

Lemma peer_disks_lookup l n : foldl (fun m pv => <[pvo_VolumeNumber pv := pvo_PeerDiskState pv]> m) (∅ : gmap Z string) l !! n
  = pvo_PeerDiskState <$> list.last (filter (fun pv => pvo_VolumeNumber pv = n) l).
Proof.
  induction l as [|pv l IH] using rev_ind; [done|]. rewrite foldl_app, list.filter_app, last_app. cbn [foldl filter list_filter].
  destruct (decide (pvo_VolumeNumber pv = n)) as [<-|Hn]; [by rewrite lookup_insert_eq|by rewrite lookup_insert_ne, IH].
Qed.
Lemma fmap_eq_pointwise {K A B} `{Countable K} (f : A -> B) (R : A -> A -> Prop) (m1 m2 : gmap K A) : (forall a b, f a = f b <-> R a b) ->
  f <$> m1 = f <$> m2 <-> forall k, option_Forall2 R (m1 !! k) (m2 !! k).
Proof.
  intros Hf. split.
  - intros E k. apply (f_equal (fun m => m !! k)) in E. rewrite !lookup_fmap in E. destruct (m1 !! k), (m2 !! k); simplify_eq/=; constructor. by apply Hf.
  - intros HR. apply map_eq. intros k. rewrite !lookup_fmap. destruct (HR k) as [a b Hab|]; [|done]. cbn. f_equal. by apply Hf.
Qed.
Lemma snapshot_same o1 o2 rd : lifecycleSnapshot o1 rd = lifecycleSnapshot o2 rd <-> same_lifecycle rd o1 o2.
Proof.
  unfold lifecycleSnapshot, same_lifecycle. fold (remembered_resource o1 rd) (remembered_resource o2 rd).
  rewrite <- (fmap_eq_pointwise (fun v => mkVolumeLifecycle (vo_DiskState v) (vo_Quorum v) (vo_HasQuorum v)) same_volume_state).
  2:{ intros a b. unfold same_volume_state. split; [by intros [=]|intros (-> & -> & ->)]. done. }
  rewrite <- (fmap_eq_pointwise (fun c => mkConnectionLifecycle (co_Connected c) (co_Message c) (co_ReplicationState c)
    (foldl (fun m pv => <[pvo_VolumeNumber pv := pvo_PeerDiskState pv]> m) ∅ (co_PeerVolumes c))) same_connection_state).
  - split; [by intros [=]|]. intros (-> & -> & -> & -> & ->). done.
  - intros a b. unfold same_connection_state, peer_disk. split.
    + intros [= -> -> -> E]. split_and!; [done..|]. intros n. by rewrite <- !peer_disks_lookup, E.
    + intros (-> & -> & -> & E). f_equal. apply map_eq. intros n. by rewrite !peer_disks_lookup.
Qed.

Definition is_trigger (c : ocall) : bool := match c with TriggerO _ => true | _ => false end.
Definition quiet (c : ocall) : Prop := is_trigger c = false.
Lemma quiet_filter l : Forall quiet l -> filter is_trigger l = [].
Proof. induction 1 as [|c l Hc _ IH]; [done|]. rewrite filter_cons, decide_False; [done|]. rewrite Hc. by intros []. Qed.

Section Runs.
Context (range_volumes : gmap Z volumeObservation -> list volumeObservation) (range_peers : gmap string connectionObservation -> list connectionObservation)
  (range_names : gset string -> list string).
Context (NodeName : string) (RecordGI : bool) (known : forall c : ocall, oanswer c -> Prop).
Notation runs := (runs known).
Notation merged := (merged range_volumes range_peers).
Notation handleObservation := (handleObservation range_volumes range_peers NodeName true RecordGI).
Notation object_name := (object_name NodeName).

Lemma skip_quiet rd : only quiet (writeSkipDiskProp NodeName rd).
Proof. unfold writeSkipDiskProp. case_bool_decide; [done|]. split; [done|]. intros [res|e]; [by split|done]. Qed.
Lemma backfill_quiet rd vols : only quiet (backfill_volumes RecordGI rd vols).
Proof.
  induction vols as [|v vols IH]; [done|]. cbn [backfill_volumes]. apply only_bind.
  - destruct (negb (isDataBearingDiskState (vo_DiskState v))); [done|]. apply only_bind; [destruct (_ && _); by split|]. intros gi. apply only_bind; [destruct (_ && _); by split|done].
  - intros x. apply only_bind; [done|]. done.
Qed.
Lemma backfillCurrentGI_quiet ev : only quiet (backfillCurrentGI RecordGI ev).
Proof. apply only_bind; [apply backfill_quiet|done]. Qed.
Lemma write_quiet o ev : only quiet (writeStatus range_volumes NodeName o ev).
Proof. unfold writeStatus. case_bool_decide; [done|]. split; [done|]. intros [res|e]; cbn; [destruct (pruneVolumeCacheToDesired _ o ev res)|]; by split. Qed.
Lemma write_keeps_lifecycle o ev l o' : runs (writeStatus range_volumes NodeName o ev) l o' -> o_lifecycleCache o' = o_lifecycleCache o.
Proof.
  unfold writeStatus. case_bool_decide as Hn; [by intros [_ ->]|]. intros (ans & l' & _ & _ & H). destruct ans as [res|e]; cbn in H.
  - unfold pruneVolumeCacheToDesired in H. destruct (parseVolumeNumbers (rv_VolumeNumbers res)); [by destruct H as (? & ? & _ & _ & _ & ->)|].
    destruct (o_volCache o !! _); [|by destruct H as (? & ? & _ & _ & _ & ->)]. case_bool_decide; by destruct H as (? & ? & _ & _ & _ & ->).
  - by destruct H as (? & ? & _ & _ & _ & ->).
Qed.
Lemma merged_same o ev : o_lifecycleCache (merged o ev).1 = o_lifecycleCache o /\ ob_ResourceName (merged o ev).2 = ob_ResourceName ev.
Proof.
  unfold Observer.merged, mergeConnections, mergeVolumes, mergeResource. case_bool_decide; cbn; [by rewrite bool_decide_eq_true_2 by done; cbn; rewrite bool_decide_eq_true_2 by done|].
  destruct (ob_Connections ev); cbn; rewrite bool_decide_eq_false_2 by done; destruct (merge_volumes _ _ _); cbn; rewrite bool_decide_eq_false_2 by done; done.
Qed.

Lemma wakes_on_new_signature o ev l o' : ob_ResourceName ev <> "" -> runs (handleObservation o ev) l o' ->
  let rd := ob_ResourceName ev in
  let now := lifecycleSnapshot (merged o ev).1 rd in
  filter is_trigger l = (if decide (o_lifecycleCache o !! rd = Some now) then [] else [TriggerO (object_name rd)]) /\ o_lifecycleCache o' !! rd = Some now.
Proof.
  intros Hn H rd now. unfold Observer.handleObservation in H. apply orun_bind in H as (l1 & l2 & [] & -> & H1 & H).
  assert (filter is_trigger l1 = []) as E1.
  { apply quiet_filter. eapply orun_only; [|exact H1]. case_bool_decide; [|done]. split; [done|]. intros. apply skip_quiet. }
  destruct (merged_same o ev) as [Hl Hr]. unfold now. destruct (merged o ev) as [o1 ev1]. cbn [fst snd] in *. apply orun_bind in H as (l3 & l4 & o2 & -> & H2 & H).
  apply orun_bind in H as (l5 & l6 & [] & -> & H3 & H). apply orun_bind in H as (l7 & l8 & ev2 & -> & H4 & H5).
  assert (filter is_trigger (l5 ++ l7 ++ l8) = []) as E2.
  { apply quiet_filter. rewrite !Forall_app. split_and!; [|eapply orun_only; [apply backfillCurrentGI_quiet|exact H4]|eapply orun_only; [apply write_quiet|exact H5]].
    eapply orun_only; [|exact H3]. destruct (ob_HasKernelLoaded ev1); [|done]. unfold stampKernelLoaded. destruct (bool_decide (ob_ResourceName ev1 = "")); [done|]. by split. }
  rewrite !list.filter_app, E1. rewrite !list.filter_app in E2. rewrite E2, app_nil_r. cbn [app]. rewrite (write_keeps_lifecycle _ _ _ _ H5).
  unfold emitReconcileTrigger in H2. rewrite Hr, bool_decide_eq_false_2 in H2 by done. cbn [negb orb] in H2. fold rd in H2. rewrite Hl in H2.
  assert ((match o_lifecycleCache o !! rd with Some cur => lifecycleSignaturesEqual cur (lifecycleSnapshot o1 rd) | None => false end)
    = bool_decide (o_lifecycleCache o !! rd = Some (lifecycleSnapshot o1 rd))) as E.
  { destruct (o_lifecycleCache o !! rd) as [cur|]; [|done]. apply Bool.eq_iff_eq_true. rewrite signatures_equal, bool_decide_eq_true. naive_solver. }
  rewrite E in H2. case_bool_decide as Hc.
  - destruct H2 as [-> ->]. rewrite decide_True by done. rewrite Hl. done.
  - destruct H2 as (ans & l' & _ & -> & -> & ->). rewrite decide_False by done. cbn. by rewrite lookup_insert_eq.
Qed.

(** C36: With the channel to the reconciler set up, handling a frame of a resource offers a wake-up exactly
    once or not at all, whatever the calls in between are answered: when nothing was offered before, and
    otherwise exactly when what the observer now remembers differs from what it remembered at the last offer
    in the role, the suspension or the state of the resource, in the set of volumes or the disk state or
    quorum of one, in the set of connections or whether one is connected, its state, its replication or the
    disks of its peer. So progress of a resync, generations and devices alone never do. An offer is best
    effort: it is lost when the channel is full, and the observer does not notice. *)
Theorem wakes_exactly_on_change o ev l o' : ob_ResourceName ev <> "" -> runs (handleObservation o ev) l o' ->
  let rd := ob_ResourceName ev in let now := (merged o ev).1 in
  (o_lifecycleCache o !! rd = None -> filter is_trigger l = [TriggerO (object_name rd)]) /\
  (forall before, o_lifecycleCache o !! rd = Some (lifecycleSnapshot before rd) ->
     (same_lifecycle rd before now -> filter is_trigger l = []) /\ (~ same_lifecycle rd before now -> filter is_trigger l = [TriggerO (object_name rd)])) /\
  o_lifecycleCache o' !! rd = Some (lifecycleSnapshot now rd).
Proof.
  intros Hn H rd now. destruct (wakes_on_new_signature o ev l o' Hn H) as [E1 E2]. fold rd now in E1, E2. split_and!; [|intros before Eb|exact E2].
  - intros En. rewrite E1, decide_False; [done|]. by rewrite En.
  - rewrite E1, Eb. rewrite <- snapshot_same. split; intros Hs; [by rewrite decide_True by congruence|by rewrite decide_False by congruence].
Qed.

(** ** What is published *)

Definition is_status (c : ocall) : bool := match c with PatchStatusO _ _ => true | _ => false end.
Definition no_status_write (c : ocall) : Prop := is_status c = false.
Lemma no_write_filter l : Forall no_status_write l -> filter is_status l = [].
Proof. induction 1 as [|c l Hc _ IH]; [done|]. rewrite filter_cons, decide_False; [done|]. rewrite Hc. by intros []. Qed.

(** The volumes the definition has are those the cache knows, or nothing is said of them. *)
Definition lists_all (cache : gmap Z volumeObservation) (res : resourceView) : Prop :=
  parseVolumeNumbers (rv_VolumeNumbers res) = [] \/ forall n, is_Some (cache !! n) -> n ∈ parseVolumeNumbers (rv_VolumeNumbers res).
Lemma nothing_pruned o ev res : lists_all (default ∅ (o_volCache o !! ob_ResourceName ev)) res -> pruneVolumeCacheToDesired range_volumes o ev res = (o, ev).
Proof.
  unfold pruneVolumeCacheToDesired. intros [->|H]; [done|]. destruct (parseVolumeNumbers _); [done|]. destruct (o_volCache o !! ob_ResourceName ev) as [cache|] eqn:E; [|done].
  rewrite bool_decide_eq_true_2; [done|]. apply map_filter_id. intros n v Hn. cbn in *. apply H. by exists v.
Qed.
(** The patch of a write that evicts nothing. *)
Lemma write_runs o ev l o' : ob_ResourceName ev <> "" -> (forall name res, known (GetResourceO name) (Ok res) -> lists_all (default ∅ (o_volCache o !! ob_ResourceName ev)) res) ->
  runs (writeStatus range_volumes NodeName o ev) l o' -> exists pool, filter is_status l = [PatchStatusO (object_name (ob_ResourceName ev)) (status_of ev pool)] /\ o' = o.
Proof.
  intros Hn Hk. unfold writeStatus. rewrite bool_decide_eq_false_2 by done. intros (ans & l' & Ha & -> & H). destruct ans as [res|e]; cbn in H.
  - rewrite nothing_pruned in H by by eapply Hk. destruct H as (ans & l2 & _ & -> & -> & ->). eauto.
  - destruct H as (ans & l2 & _ & -> & -> & ->). eauto.
Qed.

(** *** What is remembered over time *)

(** Frames are handled one after the other, and resyncs run in between. *)
Inductive handled : list observation -> observer -> Prop :=
  | HandledNone : handled [] nothing_seen
  | HandledFrame evs o ev l o' : handled evs o -> runs (handleObservation o ev) l o' -> handled (evs ++ [ev]) o'
  | HandledResync evs o l o' : handled evs o -> runs (resyncOnce range_volumes range_peers range_names NodeName RecordGI o) l o' -> handled evs o'.

Section Listed.
Context (rd : string).
(** What the object of the replica, whenever it is read, records as its volumes: nothing, or this one among them. *)
Definition listed (n : Z) : Prop := forall res, known (GetResourceO (object_name rd)) (Ok res) ->
  parseVolumeNumbers (rv_VolumeNumbers res) = [] \/ n ∈ parseVolumeNumbers (rv_VolumeNumbers res).
Notation volume o n := (default ∅ (o_volCache o !! rd) !! n).

Lemma prune_keeps_volume o ev res n : (ob_ResourceName ev = rd -> parseVolumeNumbers (rv_VolumeNumbers res) = [] \/ n ∈ parseVolumeNumbers (rv_VolumeNumbers res)) ->
  volume (pruneVolumeCacheToDesired range_volumes o ev res).1 n = volume o n.
Proof.
  intros Hl. unfold pruneVolumeCacheToDesired. destruct (parseVolumeNumbers (rv_VolumeNumbers res)) as [|m nums] eqn:En; [done|].
  destruct (o_volCache o !! ob_ResourceName ev) as [cache|] eqn:Ec; [|done]. case_bool_decide; [done|]. cbn.
  destruct (decide (ob_ResourceName ev = rd)) as [E|E]; [|by rewrite lookup_insert_ne]. rewrite E in *. rewrite lookup_insert_eq, Ec. cbn.
  destruct (Hl eq_refl) as [?|Hn]; [done|]. rewrite map_lookup_filter. destruct (cache !! n); cbn; [|done]. by rewrite option_guard_True.
Qed.
Lemma write_keeps_volume o ev l o' n : listed n -> runs (writeStatus range_volumes NodeName o ev) l o' -> volume o' n = volume o n.
Proof.
  intros Hl. unfold writeStatus. case_bool_decide as Hempty; [by intros [_ ->]|]. intros (ans & l' & Ha & -> & H). destruct ans as [res|e]; cbn in H.
  - pose proof (prune_keeps_volume o ev res n) as Hp. destruct (pruneVolumeCacheToDesired range_volumes o ev res) as [o1 ev1]. destruct H as (? & ? & _ & _ & _ & ->).
    apply Hp. intros E. apply Hl. by rewrite <- E.
  - by destruct H as (? & ? & _ & _ & _ & ->).
Qed.
Lemma handle_keeps_volume o ev l o' n : listed n -> runs (handleObservation o ev) l o' -> volume o' n = volume (merged o ev).1 n.
Proof.
  intros Hl H. unfold Observer.handleObservation in H. apply orun_bind in H as (l1 & l2 & [] & -> & H1 & H). destruct (merged o ev) as [o1 ev1]. cbn [fst].
  apply orun_bind in H as (l3 & l4 & o2 & -> & H2 & H). apply orun_bind in H as (l5 & l6 & [] & -> & H3 & H). apply orun_bind in H as (l7 & l8 & ev2 & -> & H4 & H5).
  rewrite (write_keeps_volume _ _ _ _ _ Hl H5). unfold emitReconcileTrigger in H2. destruct (_ || _); [by destruct H2 as [_ ->]|].
  destruct (match o_lifecycleCache o1 !! _ with Some cur => _ | None => _ end); [by destruct H2 as [_ ->]|]. by destruct H2 as (? & ? & _ & _ & _ & ->).
Qed.
Lemma resync_keeps_volume names n : listed n -> forall o l o', runs (resync_each range_volumes range_peers NodeName RecordGI o names) l o' -> volume o' n = volume o n.
Proof.
  intros Hl. induction names as [|name names IH]; intros o l o' H; cbn [resync_each] in H; [by destruct H as [_ ->]|].
  apply orun_bind in H as (l1 & l2 & o1 & -> & H1 & H2). rewrite (IH _ _ _ H2). destruct (bool_decide (name = "")); [by destruct H1 as [_ ->]|].
  apply orun_bind in H1 as (l3 & l4 & ev & -> & _ & H1). exact (write_keeps_volume _ _ _ _ _ Hl H1).
Qed.
End Listed.

(** C30: After any stream of frames handled in turn, with resyncs in between and whatever else is answered,
    what the observer remembers of a volume that is among those the object of the replica records (or of
    any, while the object records none or cannot be read) is, field by field, the last it was told since the
    volume was last removed, and nothing when it was removed or never heard of: a frame that does not carry
    a field never blanks it, and no frame of another resource or volume counts. A volume the object does not
    record is not covered: it is dropped when a status is written. *)
Theorem remembered_volumes_are_the_last_heard evs o rd n : rd <> "" -> handled evs o -> listed rd n ->
  default ∅ (o_volCache o !! rd) !! n = last_known n (heard rd n evs).
Proof.
  intros Hrd Hh Hl. induction Hh as [|evs o ev l o' _ IH H|evs o l o' _ IH H]; [done| |].
  - rewrite (handle_keeps_volume rd _ _ _ _ n Hl H). by apply merged_known.
  - unfold resyncOnce in H. rewrite (resync_keeps_volume rd _ n Hl _ _ _ H). apply IH.
Qed.

(** What a status entry shows of a remembered volume; the generation may come from the disk. *)
Definition shows (v : volumeObservation) (s : volumeStatus) : Prop :=
  os_VolumeNumber s = vo_VolumeNumber v /\ os_DiskState s = vo_DiskState v /\ os_OutOfSyncKib s = vo_OutOfSyncKib v /\ os_Quorum s = vo_Quorum v /\
  (vo_CurrentUUID v <> "" -> os_CurrentGI s = vo_CurrentUUID v).
Definition same_but_gi (v v' : volumeObservation) : Prop :=
  vo_VolumeNumber v' = vo_VolumeNumber v /\ vo_DiskState v' = vo_DiskState v /\ vo_OutOfSyncKib v' = vo_OutOfSyncKib v /\ vo_Quorum v' = vo_Quorum v /\
  (vo_CurrentUUID v <> "" -> vo_CurrentUUID v' = vo_CurrentUUID v).
Lemma backfill_runs rd vols : forall l vols', runs (backfill_volumes RecordGI rd vols) l vols' -> Forall2 same_but_gi vols vols' /\ filter is_status l = [].
Proof.
  induction vols as [|v vols IH]; intros l vols' H; cbn [backfill_volumes] in H; [destruct H as [-> ->]; by repeat constructor|].
  apply orun_bind in H as (l1 & l2 & v' & -> & H1 & H). apply orun_bind in H as (l3 & l4 & rest & -> & H2 & [-> ->]). destruct (IH _ _ H2) as [HF E2].
  assert (same_but_gi v v' /\ filter is_status l1 = []) as [Hv E1]; [|split; [by constructor|]; by rewrite !list.filter_app, E1, E2].
  destruct (negb (isDataBearingDiskState (vo_DiskState v))); [destruct H1 as [-> ->]; by repeat split|].
  apply orun_bind in H1 as (l5 & l6 & gi & -> & H3 & H1). apply orun_bind in H1 as (l7 & l8 & [] & -> & H4 & [-> ->]). rewrite !list.filter_app.
  assert (filter is_status l7 = []) as -> by (destruct (negb (bool_decide (gi = "")) && RecordGI); [by destruct H4 as (? & ? & _ & -> & -> & _)|by destruct H4 as [-> _]]).
  assert ((vo_CurrentUUID v <> "" -> gi = vo_CurrentUUID v) /\ filter is_status l5 = []) as [Hgi ->]; [|by repeat split].
  destruct (bool_decide (vo_CurrentUUID v = "") && _) eqn:E; [|by destruct H3 as [-> ->]]. apply andb_true_iff in E as [E%bool_decide_eq_true _].
  destruct H3 as (? & ? & _ & -> & -> & _). by split.
Qed.
Lemma backfillCurrentGI_runs ev l ev' : runs (backfillCurrentGI RecordGI ev) l ev' ->
  exists vols, ev' = set_volumes vols ev /\ Forall2 same_but_gi (ob_Volumes ev) vols /\ filter is_status l = [].
Proof. intros H. apply orun_bind in H as (l1 & l2 & vols & -> & H & [-> ->]). destruct (backfill_runs _ _ _ _ H) as [HF E]. exists vols. rewrite app_nil_r. done. Qed.

Lemma handle_runs o ev l o' : ob_ResourceName ev <> "" ->
  (forall name res, known (GetResourceO name) (Ok res) -> lists_all (default ∅ (o_volCache (merged o ev).1 !! ob_ResourceName ev)) res) ->
  runs (handleObservation o ev) l o' -> exists pool vols, Forall2 same_but_gi (ob_Volumes (merged o ev).2) vols /\
    filter is_status l = [PatchStatusO (object_name (ob_ResourceName ev)) (status_of (set_volumes vols (merged o ev).2) pool)] /\ o_volCache o' = o_volCache (merged o ev).1.
Proof.
  intros Hn Hk H. unfold Observer.handleObservation in H. apply orun_bind in H as (l1 & l2 & [] & -> & H1 & H).
  assert (filter is_status l1 = []) as E1.
  { destruct (bool_decide (ob_DrbdState ev = "Failed")); [|by destruct H1 as [-> _]]. destruct H1 as (? & l' & _ & -> & H1). rewrite filter_cons, decide_False by by intros [].
    apply no_write_filter. eapply orun_only; [|exact H1]. unfold writeSkipDiskProp. destruct (bool_decide (ob_ResourceName ev = "")); [done|]. split; [done|]. intros [res|e]; by split. }
  destruct (merged_same o ev) as [_ Hr]. destruct (merged o ev) as [o1 ev1]. cbn [fst snd] in *. apply orun_bind in H as (l3 & l4 & o2 & -> & H2 & H).
  apply orun_bind in H as (l5 & l6 & [] & -> & H3 & H). apply orun_bind in H as (l7 & l8 & ev2 & -> & H4 & H5).
  assert (filter is_status l3 = [] /\ o_volCache o2 = o_volCache o1) as [E2 Ho2].
  { unfold emitReconcileTrigger in H2. destruct (negb true || _); [by destruct H2 as [-> ->]|].
    destruct (match o_lifecycleCache o1 !! _ with Some cur => _ | None => _ end); [by destruct H2 as [-> ->]|]. by destruct H2 as (? & ? & _ & -> & -> & ->). }
  assert (filter is_status l5 = []) as E3.
  { unfold stampKernelLoaded in H3. destruct (ob_HasKernelLoaded ev1); [|by destruct H3 as [-> _]]. destruct (bool_decide (ob_ResourceName ev1 = "")); [by destruct H3 as [-> _]|].
    by destruct H3 as (? & ? & _ & -> & -> & _). }
  apply backfillCurrentGI_runs in H4 as (vols & -> & HF & E4).
  destruct (write_runs o2 (set_volumes vols ev1) l8 o') as (pool & E5 & ->); [by cbn; rewrite Hr|cbn; rewrite Hr, Ho2; exact Hk|done|].
  exists pool, vols. rewrite !list.filter_app, E1, E2, E3, E4, E5. cbn in *. by rewrite Hr.
Qed.

(** Handling a frame that brings no volumes (every frame of a connection or of the resource) applies a status
    without any volume, although the observer remembers them; a server-side apply takes back what
    its owner leaves out, so the disk states of the replica vanish from its status. *)
Theorem frame_without_volumes_withdraws_them o ev l o' : ob_ResourceName ev <> "" -> ob_Volumes ev = [] ->
  (forall name res, known (GetResourceO name) (Ok res) -> lists_all (default ∅ (o_volCache o !! ob_ResourceName ev)) res) ->
  runs (handleObservation o ev) l o' ->
  (exists status, filter is_status l = [PatchStatusO (object_name (ob_ResourceName ev)) status] /\ st_Volumes status = []) /\
  default ∅ (o_volCache o' !! ob_ResourceName ev) = default ∅ (o_volCache o !! ob_ResourceName ev).
Proof.
  intros Hn Hv Hk H. pose proof (merged_volumes range_volumes range_peers o ev (ob_ResourceName ev) Hn) as Hm. rewrite decide_True, Hv in Hm by done. cbn [merge_volumes fst] in Hm.
  destruct (handle_runs o ev l o' Hn) as (pool & vols & HF & E & Ho'); [by rewrite Hm|done|].
  assert (ob_Volumes (merged o ev).2 = []) as Hmv.
  { unfold Observer.merged, mergeConnections, mergeVolumes, mergeResource. rewrite bool_decide_eq_false_2 by done.
    destruct (ob_Connections ev); cbn; rewrite bool_decide_eq_false_2 by done; rewrite Hv; cbn; by rewrite bool_decide_eq_false_2 by done. }
  rewrite Hmv in HF. apply Forall2_nil_inv_l in HF as ->. split; [|by rewrite Ho'].
  eexists. split; [exact E|]. done.
Qed.

(** ** The resync *)

Context (Hvolumes : forall m, range_volumes m ≡ₚ (map_to_list m).*2) (Hpeers : forall m, range_peers m ≡ₚ (map_to_list m).*2)
  (Hnames : forall s, range_names s ≡ₚ elements s).

(** A status that shows all that is remembered of a resource. *)
Definition shows_all (o : observer) (name : string) (status : observedStatus) : Prop :=
  (exists vols, vols ≡ₚ (map_to_list (default ∅ (o_volCache o !! name))).*2 /\ Forall2 shows vols (st_Volumes status)) /\
  (exists conns, conns ≡ₚ (map_to_list (default ∅ (o_connCache o !! name))).*2 /\ st_Connections status = buildObserverConnectionStatus conns).
Lemma resync_each_runs o names : (forall name name' res, known (GetResourceO name') (Ok res) -> lists_all (default ∅ (o_volCache o !! name)) res) ->
  forall l o', runs (resync_each range_volumes range_peers NodeName RecordGI o names) l o' ->
  o' = o /\ forall name, name ∈ names -> name <> "" -> exists status, PatchStatusO (object_name name) status ∈ l /\ shows_all o name status.
Proof using Hvolumes Hpeers.
  intros Hk. induction names as [|name names IH]; intros l o' H; cbn [resync_each] in H; [destruct H as [-> ->]; split; [done|]; by intros ? ?%not_elem_of_nil|].
  apply orun_bind in H as (l1 & l2 & o1 & -> & H1 & H2).
  assert (o1 = o /\ (name <> "" -> exists status, PatchStatusO (object_name name) status ∈ l1 /\ shows_all o name status)) as [-> Hfirst].
  { destruct (decide (name = "")) as [->|Hn]; [by destruct H1 as [_ ->]|]. rewrite bool_decide_eq_false_2 in H1 by done. apply orun_bind in H1 as (l3 & l4 & ev & -> & H3 & H4).
    apply backfillCurrentGI_runs in H3 as (vols & -> & HF & _). destruct (write_runs o (set_volumes vols (snapshotFor range_volumes range_peers o name)) l4 o1) as (pool & E & ->);
      [done|intros ? ?; apply Hk|done|]. split; [done|]. intros _. eexists. split.
    - assert (PatchStatusO (object_name name) (status_of (set_volumes vols (snapshotFor range_volumes range_peers o name)) pool) ∈ filter is_status l4) as Hin by (rewrite E; by left).
      apply list_elem_of_filter in Hin as [_ Hin]. apply elem_of_app. by right.
    - cbn in HF. split.
      + exists (match o_volCache o !! name with Some cache => range_volumes cache | None => [] end). split; [by destruct (o_volCache o !! name); cbn; [apply Hvolumes|]|].
        cbn. unfold buildObserverVolumeStatus. apply Forall2_fmap_r. eapply list.Forall2_impl; [exact HF|]. by intros v v' (? & ? & ? & ? & ?).
      + exists (match o_connCache o !! name with Some peers => range_peers peers | None => [] end). split; [by destruct (o_connCache o !! name); cbn; [apply Hpeers|]|done]. }
  destruct (IH _ _ H2) as [-> Hrest]. split; [done|]. intros n [->|Hin]%elem_of_cons Hne.
  - destruct (Hfirst Hne) as (status & Hp & Hs). exists status. split; [|done]. apply elem_of_app. by left.
  - destruct (Hrest n Hin Hne) as (status & Hp & Hs). exists status. split; [|done]. apply elem_of_app. by right.
Qed.

(** A resync applies, for every resource of which anything is remembered, a status that shows all remembered
    volumes with their disk state, progress and quorum and all remembered connections, and forgets nothing. *)
Theorem resync_publishes_what_is_remembered o l o' :
  (forall name name' res, known (GetResourceO name') (Ok res) -> lists_all (default ∅ (o_volCache o !! name)) res) ->
  runs (resyncOnce range_volumes range_peers range_names NodeName RecordGI o) l o' ->
  o' = o /\ forall name, name ∈ cachedResourceNames o -> name <> "" -> exists status, PatchStatusO (object_name name) status ∈ l /\ shows_all o name status.
Proof using Hvolumes Hpeers Hnames.
  intros Hk H. destruct (resync_each_runs o _ Hk l o' H) as [-> Hall]. split; [done|]. intros name Hin. apply Hall. rewrite Hnames. by apply elem_of_elements.
Qed.

(** The resync never wakes the reconciler, and a wake-up for which the channel had no room is recorded as
    made: it is not made up for by the resync, nor by another frame with the same state. *)
Theorem lost_wake_up_is_not_made_up_for o ev room room' : ob_ResourceName ev <> "" ->
  o_lifecycleCache o !! ob_ResourceName ev <> Some (lifecycleSnapshot o (ob_ResourceName ev)) ->
  (exists k, emitReconcileTrigger NodeName true o ev = Do (TriggerO (object_name (ob_ResourceName ev))) k /\ k room = k room' /\
     exists o', k room = Ret o' /\ emitReconcileTrigger NodeName true o' ev = Ret o' /\ only quiet (resyncOnce range_volumes range_peers range_names NodeName RecordGI o')).
Proof.
  intros Hn Hc. unfold emitReconcileTrigger. rewrite bool_decide_eq_false_2 by done. cbn [negb orb].
  destruct (match o_lifecycleCache o !! ob_ResourceName ev with Some cur => _ | None => _ end) eqn:E.
  { destruct (o_lifecycleCache o !! ob_ResourceName ev); [|done]. apply signatures_equal in E. congruence. }
  eexists. split; [done|]. split; [done|]. eexists. split; [done|]. cbn. rewrite lookup_insert_eq. split.
  - destruct (lifecycleSignaturesEqual _ _) eqn:E2; [done|]. exfalso. apply Bool.not_true_iff_false in E2. apply E2. by apply signatures_equal.
  - unfold resyncOnce. generalize (range_names (cachedResourceNames (set_lifecycle (<[ob_ResourceName ev:=lifecycleSnapshot o (ob_ResourceName ev)]> (o_lifecycleCache o)) o))) as names.
    intros names. generalize (set_lifecycle (<[ob_ResourceName ev:=lifecycleSnapshot o (ob_ResourceName ev)]> (o_lifecycleCache o)) o) as o1.
    induction names as [|name names IH]; intros o1; [done|]. cbn [resync_each]. apply only_bind; [|done]. destruct (bool_decide (name = "")); [done|].
    apply only_bind; [apply backfillCurrentGI_quiet|]. intros. apply write_quiet.
Qed.

End Runs.

(** * The observer on a concrete stream

    A volume that is up to date, a connection that comes up, and a resync. *)

From Stdlib Require Import Ascii.
From S2P Require Import Prelude Prog GoStrings CrdName DrbdStates DrbdText Dispatcher Observer.
Import Events.

Definition in_order_volumes (m : gmap Z volumeObservation) : list volumeObservation := (map_to_list m).*2.
Definition in_order_peers (m : gmap string connectionObservation) : list connectionObservation := (map_to_list m).*2.

Definition device_up_to_date : Event :=
  mkEvent "exists" "device" {["name" := "pvc"; "volume" := "0"; "minor" := "20000"; "disk" := "UpToDate"; "current-uuid" := "161D80233E4BEFF4"; "quorum" := "yes"]}.
Definition peer_connected : Event :=
  mkEvent "change" "connection" {["name" := "pvc"; "peer-node-id" := "1"; "conn-name" := "n2"; "connection" := "Connected"]}.
Definition frames : list observation := observationsFrom [device_up_to_date; peer_connected].
Definition device_frame : observation := default (about "" [] []) (head frames).
Definition connection_frame : observation := default (about "" [] []) (frames !! 1%nat).

(** Every call succeeds; the definition has volume 0. *)
Definition all_well (c : ocall) : oanswer c :=
  match c with
  | DetachO _ | TriggerO _ => true
  | GetResourceO _ => Ok (mkResourceView "thin" "0" "pvc" "n1")
  | PatchSkipDiskO _ _ _ | StampLoadedO _ _ | PatchStatusO _ _ => Ok tt
  | CurrentGIO _ _ _ => Ok ""
  | RecordGIO _ _ _ => tt
  end.
Definition well_known (c : ocall) : oanswer c -> Prop :=
  match c with GetResourceO _ => fun a => a = Ok (mkResourceView "thin" "0" "pvc" "n1") | _ => fun _ => True end.
Lemma all_well_known c : well_known c (all_well c).
Proof. by destruct c. Qed.

Notation handling := (handleObservation in_order_volumes in_order_peers "n1" true true).
Definition after_device : observer := (replay all_well (handling nothing_seen device_frame)).2.
Definition after_connection := replay all_well (handling after_device connection_frame).

Lemma remembered_witness : frames = [device_frame; connection_frame] /\
  default ∅ (o_volCache after_connection.2 !! "pvc") !! 0 = last_known 0 (heard "pvc" 0 frames).
Proof.
  split; [vm_compute; reflexivity|].
  apply (remembered_volumes_are_the_last_heard in_order_volumes in_order_peers elements "n1" true well_known frames after_connection.2 "pvc" 0); [discriminate| |].
  - change frames with (([] ++ [device_frame]) ++ [connection_frame]). apply (HandledFrame _ _ _ _ _ _ _ after_device _ after_connection.1); [|apply replay_runs, all_well_known].
    apply (HandledFrame _ _ _ _ _ _ _ nothing_seen _ (replay all_well (handling nothing_seen device_frame)).1); [constructor|apply replay_runs, all_well_known].
  - intros res Hres. cbn in Hres. injection Hres as ->. right. apply (bool_decide_eq_true_1 _). vm_compute. reflexivity.
Defined.

Lemma wakes_witness : filter is_trigger (replay all_well (handling nothing_seen device_frame)).1 = [TriggerO (object_name "n1" "pvc")].
Proof.
  apply (wakes_exactly_on_change in_order_volumes in_order_peers "n1" true well_known nothing_seen device_frame
    (replay all_well (handling nothing_seen device_frame)).1 after_device); [vm_compute; discriminate|apply replay_runs, all_well_known|vm_compute; reflexivity].
Defined.

Lemma lists_volume_0 name' res : well_known (GetResourceO name') (Ok res) -> lists_all (default ∅ (o_volCache after_device !! "pvc")) res.
Proof.
  cbn. intros [= ->]. right. intros n Hn. replace (default ∅ (o_volCache after_device !! "pvc")) with ({[0 := mkVolumeObservation 0 "UpToDate" "161D80233E4BEFF4" "" 0 false true true false]} : gmap Z volumeObservation) in Hn
    by (vm_compute; reflexivity). destruct (decide (n = 0)) as [->|Hne]; [apply (bool_decide_eq_true_1 _); vm_compute; reflexivity|]. rewrite lookup_singleton_ne in Hn by done. by destruct Hn.
Qed.
Lemma withdraws_witness :
  (exists status, filter is_status after_connection.1 = [PatchStatusO (object_name "n1" "pvc") status] /\ st_Volumes status = []) /\
  default ∅ (o_volCache after_connection.2 !! "pvc") = default ∅ (o_volCache after_device !! "pvc").
Proof.
  apply (frame_without_volumes_withdraws_them in_order_volumes in_order_peers "n1" true well_known after_device connection_frame after_connection.1 after_connection.2);
    [vm_compute; discriminate|vm_compute; reflexivity|exact lists_volume_0|]. apply replay_runs, all_well_known.
Defined.

Definition in_order_names (s : gset string) : list string := elements s.
Definition resynced := replay all_well (resyncOnce in_order_volumes in_order_peers in_order_names "n1" true after_device).
Lemma resync_witness : resynced.2 = after_device /\
  forall name, name ∈ cachedResourceNames after_device -> name <> "" -> exists status, PatchStatusO (object_name "n1" name) status ∈ resynced.1 /\ shows_all after_device name status.
Proof.
  apply (resync_publishes_what_is_remembered in_order_volumes in_order_peers in_order_names "n1" true well_known); [done|done|done| |apply replay_runs, all_well_known].
  intros name name' res H. destruct (decide (name = "pvc")) as [->|Hne]; [by eapply lists_volume_0|]. right. intros n Hn. exfalso.
  replace (o_volCache after_device) with ({["pvc" := {[0 := mkVolumeObservation 0 "UpToDate" "161D80233E4BEFF4" "" 0 false true true false]}]} : gmap string (gmap Z volumeObservation)) in Hn by (vm_compute; reflexivity).
  rewrite lookup_singleton_ne in Hn by done. cbn in Hn. rewrite lookup_empty in Hn. by destruct Hn.
Defined.

Lemma lost_wake_up_witness : let o := (merged in_order_volumes in_order_peers nothing_seen device_frame).1 in
  exists k, emitReconcileTrigger "n1" true o device_frame = Do (TriggerO (object_name "n1" "pvc")) k /\ k false = k true /\
    exists o', k false = Ret o' /\ emitReconcileTrigger "n1" true o' device_frame = Ret o' /\ only quiet (resyncOnce in_order_volumes in_order_peers in_order_names "n1" true o').
Proof.
  apply (lost_wake_up_is_not_made_up_for in_order_volumes in_order_peers in_order_names "n1" true
    (merged in_order_volumes in_order_peers nothing_seen device_frame).1 device_frame false true); vm_compute; discriminate.
Defined.
