(* ===== verification/Cleanup.v ===== *)
(** * Stale connections in the kernel

    Models [pkg/satellite/kernel_cleanup.go]: before anything else, a pass over a replica removes the
    connections that the kernel holds to peers the definition no longer has, and those to its peers
    that have been stuck for a while without a device. *)

From S2P Require Import Prelude GoStrings DrbdAlloc DrbdStates DrbdText DrbdStatus DrbdAdm Dispatcher ResFile.
Import Slots.

(** Nanoseconds. *)
Definition defaultStuckSlotGrace : Z := 30 * 1000000000.
(** [raw]: the value of the environment variable. *)
Definition stuckSlotGrace (raw : string) : Z :=
  if bool_decide (raw = "") then defaultStuckSlotGrace
  else match parse_int 64 raw with
       | Some n => if bool_decide (n <= 0) then defaultStuckSlotGrace else wrap64 (n * 1000000000)
       | None => defaultStuckSlotGrace
       end.

(** When a slot was first seen stuck, by [<rd>/<peer>]. *)
Notation seen := (gmap string Z).
Definition slot_key (rd peer : string) : string := rd +:+ "/" +:+ peer.
Definition shouldPruneStuckSlot (slot : KernelSlot) (vols : list Z) : bool :=
  if negb (IsConnectingOrStandalone (Some slot)) then false
  else if bool_decide (vols = []) then false
  else negb (HasAnyPeerDeviceConfigured (Some slot) vols).
Definition observeStuck (s : seen) (key : string) (now grace : Z) : seen * bool :=
  match s !! key with None => (<[key := now]> s, false) | Some first => (s, bool_decide (grace <= now - first)) end.
Definition clearDebounceEntry (s : seen) (key : string) : seen := delete key s.
Definition clearDebounceForResource (s : seen) (rd : string) : seen := filter (fun kv => Str.has_prefix (rd +:+ "/") kv.1 = false) s.

Section Prune.
Context {W : Type} (exec : W -> cmd -> answer * W) (decode : string -> option (list drbdsetupStatusResource)).
Context (range_slots : gmap string KernelSlot -> list (string * KernelSlot)).
#[local] Notation shell := (shell (W := W)).

Definition teardownKernelSlot (rd : string) (slot : KernelSlot) (devices : gmap Z string) : shell (option string) :=
  err ← DelPeer exec rd (ks_Name slot);
  match err with
  | Some text => mret (Some text)
  | None => if negb (anyDevice devices) then mret None else _ ← ForgetPeer exec rd (ks_NodeID slot); mret None
  end.
Fixpoint prunePass1Unexpected (rd : string) (slots : list (string * KernelSlot)) (expected : gset string) (devices : gmap Z string) : shell (option string) :=
  match slots with
  | [] => mret None
  | (name, slot) :: rest =>
      if bool_decide (name ∈ expected) then prunePass1Unexpected rd rest expected devices
      else err ← teardownKernelSlot rd slot devices; match err with Some text => mret (Some text) | None => prunePass1Unexpected rd rest expected devices end
  end.
Fixpoint prunePass3Stuck (rd : string) (slots : list (string * KernelSlot)) (expected : gset string) (vols : list Z) (devices : gmap Z string) (now grace : Z) (s : seen) : shell seen :=
  match slots with
  | [] => mret s
  | (name, slot) :: rest =>
      if negb (bool_decide (name ∈ expected)) then prunePass3Stuck rd rest expected vols devices now grace s
      else
        let key := slot_key rd name in
        if negb (shouldPruneStuckSlot slot vols) then prunePass3Stuck rd rest expected vols devices now grace (clearDebounceEntry s key)
        else
          let '(s, ready) := observeStuck s key now grace in
          if negb ready then prunePass3Stuck rd rest expected vols devices now grace s
          else
            err ← teardownKernelSlot rd slot devices;
            prunePass3Stuck rd rest expected vols devices now grace (match err with Some _ => s | None => clearDebounceEntry s key end)
  end.
Definition show_slots (rd : string) : cmd := ["drbdsetup"; "status"; "-j"; rd].
(** [adm]: whether the DRBD half is there; [expectedPeerNames] as a set. *)
Definition PruneStaleKernelSlots (adm : bool) (rd : string) (expected : gset string) (vols : list Z) (devices : gmap Z string) (now grace : Z) (s : seen) : shell (option string * seen) :=
  if negb adm then mret (None, s)
  else
    a ← run exec (show_slots rd);
    match Show a decode with
    | Err _ => mret (None, s)
    | Ok slots =>
        if bool_decide (slots = ∅) then mret (None, clearDebounceForResource s rd)
        else
          err ← prunePass1Unexpected rd (range_slots slots) expected devices;
          match err with
          | Some text => mret (Some text, s)
          | None => s ← prunePass3Stuck rd (range_slots slots) expected vols devices now grace s; mret (None, s)
          end
    end.

(** ** Only what is stale is taken down *)

Context (Hslots : forall m x, x ∈ range_slots m -> m !! x.1 = Some x.2).
Definition del_peer (rd peer : string) : cmd := ["drbdadm"; "del-peer"; peer +:+ ":" +:+ rd].
(** The slot of a peer that is not expected, or one that was seen stuck long enough ago. *)
Definition stale (rd : string) (slots : gmap string KernelSlot) (expected : gset string) (vols : list Z) (now grace : Z) (s : seen) (peer : string) : Prop :=
  exists name slot, slots !! name = Some slot /\ ks_Name slot = peer /\
    (name ∉ expected \/ shouldPruneStuckSlot slot vols = true /\ exists first, s !! slot_key rd name = Some first /\ grace <= now - first).

Definition targets (rd : string) (P : string -> Prop) (e : event) : Prop := forall peer, fst e = del_peer rd peer -> P peer.
Lemma append_inj_prefix s s' t : s +:+ t = s' +:+ t -> s = s'.
Proof.
  revert s'. induction s as [|c s IH]; intros [|c' s'] H; [done|..].
  - exfalso. apply (f_equal String.length) in H. rewrite !StrFacts.length_app_str in H. cbn in H. lia.
  - exfalso. apply (f_equal String.length) in H. rewrite !StrFacts.length_app_str in H. cbn in H. lia.
  - injection H as -> H. f_equal. by apply IH.
Qed.
Lemma target_inj rd peer peer' : del_peer rd peer = del_peer rd peer' -> peer = peer'.
Proof. intros H. injection H as H. by apply append_inj_prefix in H. Qed.
Lemma teardown_targets rd slot devices (P : string -> Prop) : P (ks_Name slot) -> spec (teardownKernelSlot rd slot devices) (fun _ evs => Forall (targets rd P) evs).
Proof.
  intros HP. unfold teardownKernelSlot. eapply spec_bind with (Q := fun _ evs => Forall (targets rd P) evs).
  - unfold DelPeer. eapply spec_bind; [apply spec_run with (Q := fun _ evs => Forall (targets rd P) evs); intros a; repeat constructor; by intros ? ?|]. intros ? evs Hev.
    eapply spec_bind; [apply spec_run with (Q := fun _ evs => Forall (targets rd P) evs)|].
    + intros b. repeat constructor. intros peer Hpeer. cbn [fst] in Hpeer. by apply target_inj in Hpeer as <-.
    + intros b evs' Hev'. apply spec_ret. rewrite app_nil_r. by apply Forall_app.
  - intros [text|] evs Hev; [apply spec_ret; by rewrite app_nil_r|]. destruct (negb (anyDevice devices)); [apply spec_ret; by rewrite app_nil_r|].
    unfold ForgetPeer. eapply spec_bind with (Q := fun _ evs => Forall (targets rd P) evs); [|intros; apply spec_ret; rewrite app_nil_r; by apply Forall_app].
    eapply spec_bind; [apply spec_run with (Q := fun _ evs => Forall (targets rd P) evs); intros a; repeat constructor; by intros ? ?|]. intros a evs' Hev'. apply spec_ret. by rewrite app_nil_r.
Qed.

Lemma pass1_targets rd slots expected devices (P : string -> Prop) : (forall name slot, (name, slot) ∈ slots -> name ∉ expected -> P (ks_Name slot)) ->
  spec (prunePass1Unexpected rd slots expected devices) (fun _ evs => Forall (targets rd P) evs).
Proof.
  induction slots as [|[name slot] slots IH]; intros HP; cbn [prunePass1Unexpected]; [apply spec_ret, list.Forall_nil_2|].
  assert (spec (prunePass1Unexpected rd slots expected devices) (fun _ evs => Forall (targets rd P) evs)) as Hrest by (apply IH; intros n s Hin; apply HP; by right).
  case_bool_decide as He; [done|]. eapply spec_bind; [apply teardown_targets, (HP name); [by left|done]|]. intros [text|] evs Hev; [apply spec_ret; by rewrite app_nil_r|].
  eapply spec_mono; [exact Hrest|]. intros ? ? ?. by apply Forall_app.
Qed.
(** What is remembered as stuck only shrinks or is of now. *)
Definition no_older (now : Z) (s s' : seen) : Prop := forall key first, s' !! key = Some first -> s !! key = Some first \/ now = first.
Lemma pass3_targets rd slots expected vols devices now grace (P : string -> Prop) (s0 : seen) : 0 < grace ->
  (forall name slot first, (name, slot) ∈ slots -> shouldPruneStuckSlot slot vols = true -> s0 !! slot_key rd name = Some first -> grace <= now - first -> P (ks_Name slot)) ->
  forall s, no_older now s0 s -> spec (prunePass3Stuck rd slots expected vols devices now grace s) (fun s' evs => Forall (targets rd P) evs /\ no_older now s0 s').
Proof.
  intros Hg. induction slots as [|[name slot] slots IH]; intros HP s Hs; cbn [prunePass3Stuck]; [apply spec_ret; split; [apply list.Forall_nil_2|done]|].
  assert (forall s, no_older now s0 s -> spec (prunePass3Stuck rd slots expected vols devices now grace s) (fun s' evs => Forall (targets rd P) evs /\ no_older now s0 s')) as Hrest
    by (apply IH; intros n sl f Hin; apply HP; by right). clear IH.
  assert (forall s key, no_older now s0 s -> no_older now s0 (clearDebounceEntry s key)) as Hclear.
  { intros s' key H k f Hk. unfold clearDebounceEntry in Hk. apply lookup_delete_Some in Hk as [_ Hk]. by apply H. }
  destruct (negb (bool_decide (name ∈ expected))); [by apply Hrest|]. destruct (shouldPruneStuckSlot slot vols) eqn:Hp; cbn [negb]; [|by apply Hrest, Hclear].
  destruct (observeStuck s (slot_key rd name) now grace) as [s1 ready] eqn:E. unfold observeStuck in E. destruct (s !! slot_key rd name) as [first|] eqn:Hf.
  - injection E as <- <-. case_bool_decide as Hr; cbn [negb]; [|by apply Hrest].
    assert (P (ks_Name slot)) as HPs by (destruct (Hs _ _ Hf) as [H|<-]; [eapply HP; [by left|done..]|lia]).
    eapply spec_bind; [by apply teardown_targets|]. intros err evs Hev. eapply spec_mono; [apply Hrest; destruct err; [done|by apply Hclear]|]. intros s' evs' [H1 H2]. split; [by apply Forall_app|done].
  - injection E as <- <-. cbn [negb]. apply Hrest. intros k f Hk. destruct (decide (k = slot_key rd name)) as [->|Hne].
    + rewrite lookup_insert_eq in Hk. injection Hk as <-. by right.
    + rewrite lookup_insert_ne in Hk by done. by apply Hs.
Qed.


(** ** A peer that the configuration does not name *)

Definition refused_event (rd : string) (e : event) : Prop := fst e = show_slots rd \/ exists text, fst (snd e) = Some text.
Context (Hrefuse : forall w args, exists text, fst (fst (exec w ("drbdadm" :: args))) = Some text /\ not_in_config text = true).
Lemma refused_run rd args : spec (run exec ("drbdadm" :: args)) (fun a evs => Forall (refused_event rd) evs /\ exists text, fst a = Some text /\ not_in_config text = true).
Proof using Hrefuse.
  intros w log. unfold run. destruct (Hrefuse w args) as (text & Ht & Hn). destruct (exec w _) as [a w']. cbn in Ht. exists a, w', [(("drbdadm" :: args), a)].
  split_and!; [done| |by exists text]. constructor; [right; by exists text|constructor].
Qed.
Lemma refused_teardown rd slot devices : anyDevice devices = false -> spec (teardownKernelSlot rd slot devices) (fun err evs => err = None /\ Forall (refused_event rd) evs).
Proof using Hrefuse.
  intros Hd. unfold teardownKernelSlot. eapply spec_bind with (Q := fun err evs => err = None /\ Forall (refused_event rd) evs).
  - unfold DelPeer. eapply spec_bind; [apply (refused_run rd)|]. intros ? evs [He _]. eapply spec_bind; [apply (refused_run rd)|].
    intros [[text|] out] evs' [He' (t & Ht & Hn)]; [|done]. cbn in Ht. injection Ht as ->. apply spec_ret. rewrite Hn, orb_true_r, app_nil_r. split; [done|by apply Forall_app].
  - intros err evs [-> He]. rewrite Hd. apply spec_ret. rewrite app_nil_r. done.
Qed.

(** When the configuration file no longer names the peers that the kernel holds slots for, which is the case the
    pass is made for, drbdadm refuses every command; the pass, which is given no devices, reports success although
    nothing but refused commands and the status were run. *)
Theorem refused_prune_reports_success rd expected vols devices now grace s : anyDevice devices = false ->
  spec (PruneStaleKernelSlots true rd expected vols devices now grace s) (fun res evs => fst res = None /\ Forall (refused_event rd) evs).
Proof using Hrefuse.
  intros Hd. unfold PruneStaleKernelSlots. cbn [negb].
  eapply spec_bind; [apply spec_run with (Q := fun a evs => Forall (refused_event rd) evs); intros a; repeat constructor|]. intros a evs He.
  destruct (Show a decode) as [slots|e]; [|apply spec_ret; by rewrite app_nil_r]. case_bool_decide; [apply spec_ret; by rewrite app_nil_r|].
  eapply spec_bind with (Q := fun err evs => err = None /\ Forall (refused_event rd) evs).
  - induction (range_slots slots) as [|[name slot] l IH]; cbn [prunePass1Unexpected]; [apply spec_ret; split; [done|apply list.Forall_nil_2]|]. case_bool_decide; [exact IH|].
    eapply spec_bind; [by apply refused_teardown|]. intros err evs1 [-> H1]. eapply spec_mono; [exact IH|]. intros ? ? [-> H2]. split; [done|by apply Forall_app].
  - intros err evs1 [-> H1]. eapply spec_bind with (Q := fun _ evs => Forall (refused_event rd) evs); [|intros; apply spec_ret; rewrite app_nil_r; split; [done|by rewrite !Forall_app]].
    revert s. induction (range_slots slots) as [|[name slot] l IH]; intros s; cbn [prunePass3Stuck]; [apply spec_ret, list.Forall_nil_2|].
    destruct (negb _); [apply IH|]. destruct (negb _); [apply IH|]. destruct (observeStuck _ _ _ _) as [s1 ready]. destruct (negb ready); [apply IH|].
    eapply spec_bind; [by apply refused_teardown|]. intros err evs2 [-> H2]. eapply spec_mono; [apply IH|]. intros. by apply Forall_app.
Qed.

End Prune.

(** ** Runs *)

(** The tools answer everything; the status is what [decode] makes of it. *)
Definition answering (w : unit) (c : cmd) : answer * unit := ((None, "[]"), tt).
Definition stuck_slot (peer : string) : drbdsetupStatusConnection := mkConnection 1 peer "Connecting" "Unknown" [].
Definition healthy_slot (peer : string) : drbdsetupStatusConnection := mkConnection 2 peer "Connected" "Secondary" [mkPeerDevice 0 "UpToDate" "Established" "no"].
Definition kernel_of (conns : list drbdsetupStatusConnection) : string -> option (list drbdsetupStatusResource) := fun _ => Some [mkStatusResource (Some 0) "Secondary" [] conns].
Definition prune_at (seconds : Z) (conns : list drbdsetupStatusConnection) (s : seen) : list cmd * seen :=
  let '((_, s'), (_, log)) := PruneStaleKernelSlots answering (kernel_of conns) map_to_list true "pvc" {["n2"; "n3"]} [0] ∅ (seconds * 1000000000) defaultStuckSlotGrace s (tt, []) in (log.*1, s').

(** The time a connection was first seen stuck outlives the connection: a slot that is gone from the kernel while another is
    there keeps its entry, and when it is set up again it is removed at once, without the grace period. *)
Theorem stuck_credit_outlives_the_slot :
  let '(cmds0, s0) := prune_at 0 [stuck_slot "n2"; healthy_slot "n3"] ∅ in
  let '(cmds1, s1) := prune_at 10 [healthy_slot "n3"] s0 in
  let '(cmds2, s2) := prune_at 40 [stuck_slot "n2"; healthy_slot "n3"] s1 in
  cmds0 = [show_slots "pvc"] /\ cmds1 = [show_slots "pvc"] /\ del_peer "pvc" "n2" ∈ cmds2.
Proof. vm_compute. split_and!; [reflexivity..|]. right. right. left. Qed.


(** drbdadm knows nothing of the peers. *)
Definition forgotten (w : unit) (c : cmd) : answer * unit :=
  (if bool_decide (take 1 c = ["drbdadm"]) then (Some "exit status 10: peer is not defined in your config (for this host).", "") else (None, "[]"), tt).
Lemma refused_prune_witness : spec (PruneStaleKernelSlots forgotten (kernel_of [stuck_slot "n2"]) map_to_list true "pvc" ∅ [0] ∅ 0 defaultStuckSlotGrace ∅)
  (fun res evs => fst res = None /\ Forall (refused_event "pvc") evs).
Proof.
  apply (refused_prune_reports_success forgotten (kernel_of [stuck_slot "n2"]) map_to_list); [|vm_compute; reflexivity].
  intros w args. eexists. split; [reflexivity|vm_compute; reflexivity].
Defined.
