(* ===== verification/SatController.v ===== *)
(** * The controller of the replicas of a node

    Models [pkg/satellite/controllers/resource.go], [resource_toggle_disk.go], [layer_stack_pin.go]
    and [skip_disk_clearer.go]: what the satellite does when a replica of its node is to be brought in line, converted or
    deleted, which events wake it, and what it writes back. The API server and the reconciler of
    the satellite ([Apply]) are calls; the cached and the direct reader are told apart. *)

From Stdlib Require Import Ascii.
From S2P Require Import Prelude Prog ReplicaController GoStrings Api CrdName DrbdStates Kube Dispatcher ResFile Observer.

(** ** Objects *)

(** A replica with the fields that only the satellite's controller uses: the request to cancel a
    conversion, the counter of its retries, the generation of the spec, and the conditions that are true. *)
Record replica := mkReplica {
  rp_cr : ResourceCR;
  rp_ToggleDiskCancel : bool;
  rp_ToggleDiskRetries : Z;
  rp_Generation : Z;
  rp_MetadataCreated : bool;
  rp_FilesystemFormatted : bool;
  rp_KernelLoaded : bool;
}.
Definition with_cr (r : replica) (cr : ResourceCR) : replica :=
  mkReplica cr (rp_ToggleDiskCancel r) (rp_ToggleDiskRetries r) (rp_Generation r) (rp_MetadataCreated r) (rp_FilesystemFormatted r) (rp_KernelLoaded r).
Definition with_retries (r : replica) (n : Z) : replica :=
  mkReplica (rp_cr r) (rp_ToggleDiskCancel r) n (rp_Generation r) (rp_MetadataCreated r) (rp_FilesystemFormatted r) (rp_KernelLoaded r).
Definition without_cancel (r : replica) : replica :=
  mkReplica (rp_cr r) false (rp_ToggleDiskRetries r) (rp_Generation r) (rp_MetadataCreated r) (rp_FilesystemFormatted r) (rp_KernelLoaded r).

(** A definition with the name of its group. *)
Record definition := mkDefinition { df_cr : ResourceDefinitionCR; df_ResourceGroupName : string }.

(** [intent.ResourceApplyResult] *)
Record applied := mkApplied { ap_Name : string; ap_Ok : bool; ap_Message : string; ap_Volumes : list ResourceApplyVolumeResult }.

(** The operations of a JSON patch on [/status/volumes/<index>]: the test of its number and its removal. *)
Inductive patch_op := TestNumber (index : nat) (volumeNumber : Z) | RemoveEntry (index : nat).

Definition SatelliteResourceFinalizer : string := "blockstor.cozystack.io/satellite-resource".
Definition deviceHoldsDataReason : string := "LUKSDeviceHoldsData".
(** [luks.ErrDeviceHoldsData] *)
Definition device_holds_data : string := "luks: device already holds data".
(** Nanoseconds. *)
Definition applyFailureRequeue : Z := 5 * 1000000000.
Definition peerAllocationRequeue : Z := 2 * 1000000000.
Definition activeDRBDRequeue : Z := 10 * 1000000000.
Definition layerStackPinRequeue : Z := 2 * 1000000000.

(** ** Volume numbers *)

Definition formatVolumeNumbers (defs : list ResourceDefinitionVolume) : string := Str.join "," (map (fun d => format_int (rdv_VolumeNumber d)) defs).
Definition volumeNumbersFromStatus (r : replica) : list Z := map rvt_VolumeNumber (rst_Volumes (rc_Status (rp_cr r))).
Definition desiredVolumeNumbers (rd : definition) : gset Z := list_to_set (volNumsOf (df_cr rd)).

(** ** The purge of volumes that are gone *)

Record staleVolumeStatus := mkStale { sv_index : nat; sv_volNum : Z }.
Fixpoint partition_from (i : nat) (status : list ResourceVolumeStatus) (desired : gset Z) : list staleVolumeStatus * list ResourceVolumeStatus :=
  match status with
  | [] => ([], [])
  | v :: rest =>
      let '(stale, survivors) := partition_from (S i) rest desired in
      if bool_decide (rvt_VolumeNumber v ∈ desired) then (stale, v :: survivors) else (mkStale i (rvt_VolumeNumber v) :: stale, survivors)
  end.
Definition partitionStaleVolumeStatus := partition_from 0.
Definition buildVolumeStatusPurgePatch (stale : list staleVolumeStatus) : list patch_op :=
  concat (map (fun s => [TestNumber (sv_index s) (sv_volNum s); RemoveEntry (sv_index s)]) (rev stale)).

(** ** Which events wake the controller *)

Section Predicates.
Context (NodeName : string).
Definition int32PtrEqual (left right : option Z) : bool := bool_decide (left = right).
(** An event carries the old object, the new one, or both. *)
Inductive watch_event := Created (new : replica) | Updated (old new : replica) | Deleted (old : replica) | Generic (obj : replica).
Definition primaryWatchPredicate (e : watch_event) : bool :=
  match e with
  | Updated old new =>
      if negb (bool_decide (rp_Generation old = rp_Generation new)) then true
      else
        let ids r := rc_Status (rp_cr r) in
        negb (int32PtrEqual (rst_DRBDNodeID (ids old)) (rst_DRBDNodeID (ids new))) || negb (int32PtrEqual (rst_DRBDPort (ids old)) (rst_DRBDPort (ids new)))
        || negb (int32PtrEqual (rst_DRBDMinor (ids old)) (rst_DRBDMinor (ids new)))
  | _ => true
  end.
Definition nodeNamePredicate (e : watch_event) : bool :=
  let matches r := bool_decide (node_of (rp_cr r) = NodeName) in
  match e with Created r | Deleted r | Generic r => matches r | Updated old new => matches new || matches old end.
End Predicates.

(** ** Calls *)

Inductive serr := SNotFound | SConflict | SInvalid | SOther | SNotPinned.
Inductive scall :=
(** The cached reader and the direct one. *)
| GetReplicaS (name : string)
| GetReplicaDirectS (name : string)
| ListReplicasS
| ListReplicasDirectS
| GetDefinitionS (name : string)
(** The layer stack of a group. *)
| GetGroupStackS (name : string)
| ListNodesS
| ListCoreNodesS
| ListPoolsS
(** [effectiveprops.Resolve] for a replica and its definition, and the passphrase of the cluster. *)
| EffectivePropsS (name : string)
| SecretS
(** An update and a merge patch answer with the object as the server then has it. *)
| UpdateReplicaS (r : replica)
(** Server-side apply of device paths, JSON patch of the status, merge patches. *)
| PatchDevicesS (name : string) (vols : list (Z * string * string))
| PurgeVolumesS (name : string) (ops : list patch_op)
| AnnotateVolumesS (name value : string)
| PatchRetriesS (name : string) (n : Z)
| ReleaseSkipDiskS (name rd node : string)
| WarnS (name reason message : string)
(** The reconciler of the satellite: whether the prune failed, the results of a pass, and whether a teardown was complete. *)
| PruneS (rd : string) (expected : list string) (vols : list Z)
| ApplyS (dr : DesiredResource)
| DeleteResourceS (name pool : string) (vols : list Z).
Definition sanswer (c : scall) : Type :=
  match c with
  | GetReplicaS _ | GetReplicaDirectS _ => result serr replica
  | ListReplicasS | ListReplicasDirectS => result serr (list replica)
  | GetDefinitionS _ => result serr definition
  | GetGroupStackS _ => result serr (list string)
  | ListNodesS => result serr (list NodeCR)
  | ListCoreNodesS => result serr (list CoreNode)
  | ListPoolsS => result serr (list StoragePoolCR)
  | EffectivePropsS _ => result serr (gmap string string)
  | SecretS => option string
  | UpdateReplicaS _ | AnnotateVolumesS _ _ => result serr replica
  | PatchDevicesS _ _ | PurgeVolumesS _ _ | PatchRetriesS _ _ | ReleaseSkipDiskS _ _ _ => result serr unit
  | WarnS _ _ _ => unit
  | PruneS _ _ _ => option string
  | ApplyS _ => result serr (list applied)
  | DeleteResourceS _ _ _ => result serr bool
  end.
Notation sprog := (prog sanswer).
Definition tell (c : scall) : sprog (sanswer c) := Do c (fun a => Ret a).

(** What a reconcile asks of the queue. *)
Inductive requeue := Settled | Again | After (ns : Z).

Section Controller.
Context (NodeName : string).
(** Whether events can be recorded, and the namespace of the passphrase. *)
Context (Recorder : bool) (Namespace : string).
(** JSON of the connection paths ([BuildDesired]). *)
Context (decode : string -> option (list (gmap string string))).

(** ** What is written after a pass *)

Definition stampVolumeStatus (res : replica) (results : list applied) : sprog (result serr unit) :=
  match results with
  | [] => Ret (Ok tt)
  | r :: _ =>
      if bool_decide (ap_Volumes r = []) then Ret (Ok tt)
      else tell (PatchDevicesS (rc_Name (rp_cr res)) (map (fun v => (vr_VolumeNumber v, rs_StoragePool (rc_Spec (rp_cr res)), vr_DevicePath v)) (ap_Volumes r)))
  end.

(** The replica with the status as it is after a successful purge. *)
Definition with_status_volumes (r : replica) (vols : list ResourceVolumeStatus) : replica :=
  let st := rc_Status (rp_cr r) in
  with_cr r (with_status (rp_cr r) (mkResourceStatus (rst_InUse st) (rst_DRBDNodeID st) (rst_DRBDPort st) (rst_DRBDMinor st) vols (rst_PeerDRBDNodeIDs st))).
Definition purgeStaleVolumeStatus (res : replica) (rd : definition) : sprog (replica * result serr unit) :=
  let volumes := rst_Volumes (rc_Status (rp_cr res)) in
  if bool_decide (volumes = []) then Ret (res, Ok tt)
  else if bool_decide (rdc_VolumeDefinitions (df_cr rd) = []) then Ret (res, Ok tt)
  else
    let '(stale, survivors) := partitionStaleVolumeStatus volumes (desiredVolumeNumbers rd) in
    if bool_decide (map sv_index stale = []) then Ret (res, Ok tt)
    else
      r ← tell (PurgeVolumesS (rc_Name (rp_cr res)) (buildVolumeStatusPurgePatch stale));
      match r with
      | Ok _ => Ret (with_status_volumes res survivors, Ok tt)
      | Err SConflict | Err SInvalid => Ret (res, Ok tt)
      | Err e => Ret (res, Err e)
      end.

Definition stampVolumeNumbersAnnotation (res : replica) (rd : definition) : sprog (replica * result serr unit) :=
  let want := formatVolumeNumbers (rdc_VolumeDefinitions (df_cr rd)) in
  if bool_decide (want = "") then Ret (res, Ok tt)
  else if bool_decide (get (rc_Annotations (rp_cr res)) ResourceAnnotationVolumeNumbers = want) then Ret (res, Ok tt)
  else
    r ← tell (AnnotateVolumesS (rc_Name (rp_cr res)) want);
    match r with Ok res => Ret (res, Ok tt) | Err e => Ret (res, Err e) end.

(** ** Conversions between diskless and diskful *)

Definition isToggleDiskInFlight (res : replica) : bool :=
  if diskless (rp_cr res) then false
  else
    let volumes := rst_Volumes (rc_Status (rp_cr res)) in
    if bool_decide (volumes = []) then true else negb (forallb (fun v => bool_decide (rvt_DiskState v = Disk.DiskStateUpToDate)) volumes).
Definition patchToggleDiskRetries (res : replica) (want : Z) : sprog (replica * result serr unit) :=
  if bool_decide (rp_ToggleDiskRetries res = want) then Ret (res, Ok tt)
  else
    r ← tell (PatchRetriesS (rc_Name (rp_cr res)) want);
    match r with Ok _ => Ret (with_retries res want, Ok tt) | Err e => Ret (res, Err e) end.
Definition recordToggleDiskOutcome (res : replica) (success : bool) : sprog (replica * result serr unit) :=
  if negb (isToggleDiskInFlight res) || success then
    if bool_decide (rp_ToggleDiskRetries res = 0) then Ret (res, Ok tt) else patchToggleDiskRetries res 0
  else patchToggleDiskRetries res (wrap32 (rp_ToggleDiskRetries res + 1)).

Definition resolveDeleteStoragePool (res : replica) : string :=
  if diskless (rp_cr res) then ""
  else
    let sp := rc_Spec (rp_cr res) in
    if bool_decide (rs_StoragePool sp = "") then get (rs_Props sp) "StorPoolName" else rs_StoragePool sp.
Definition lookupVolumeNumbers (res : replica) : sprog (result serr (list Z)) :=
  rd ← tell (GetDefinitionS (rd_of (rp_cr res)));
  match rd with
  | Ok rd => Ret (Ok (volNumsOf (df_cr rd)))
  | Err SNotFound =>
      let nums := parseVolumeNumbers (get (rc_Annotations (rp_cr res)) ResourceAnnotationVolumeNumbers) in
      Ret (Ok (if bool_decide (nums = []) then volumeNumbersFromStatus res else nums))
  | Err e => Ret (Err e)
  end.

Definition handleToggleDiskCancel (res : replica) : sprog (result serr requeue) :=
  torn ←! (if isToggleDiskInFlight res then
             vols ←! lookupVolumeNumbers res;
             tell (DeleteResourceS (rd_of (rp_cr res)) (resolveDeleteStoragePool res) vols)
           else done_with true);
  if negb torn then Ret (Ok (After applyFailureRequeue))
  else
    let flags := rs_Flags (rc_Spec (rp_cr res)) in
    let cr := if Contains flags ResourceFlagDiskless then rp_cr res else with_flags (rp_cr res) (flags ++ [ResourceFlagDiskless]) in
    res ←! tell (UpdateReplicaS (without_cancel (with_cr res cr)));
    if bool_decide (rp_ToggleDiskRetries res = 0) then Ret (Ok Settled)
    else patched ← patchToggleDiskRetries res 0; match snd patched with Ok _ => Ret (Ok Settled) | Err e => Ret (Err e) end.

(** ** Deletion *)

(** [controllerutil.RemoveFinalizer] *)
Definition without_finalizer (r : replica) : replica :=
  with_cr r (with_finalizers (rp_cr r) (filter (fun f => f <> SatelliteResourceFinalizer) (rc_Finalizers (rp_cr r)))).
Definition handleDelete (res : replica) : sprog (result serr requeue) :=
  if negb (Contains (rc_Finalizers (rp_cr res)) SatelliteResourceFinalizer) then Ret (Ok Settled)
  else
    vols ←! lookupVolumeNumbers res;
    complete ←! tell (DeleteResourceS (rd_of (rp_cr res)) (resolveDeleteStoragePool res) vols);
    if negb complete then Ret (Ok Again)
    else
      latest ← tell (GetReplicaDirectS (rc_Name (rp_cr res)));
      match latest with
      | Err SNotFound => Ret (Ok Settled)
      | Err e => Ret (Err e)
      | Ok latest =>
          if negb (Contains (rc_Finalizers (rp_cr latest)) SatelliteResourceFinalizer) then Ret (Ok Settled)
          else _ ←! tell (UpdateReplicaS (without_finalizer latest)); Ret (Ok Settled)
      end.

(** ** A pass *)

Definition checkLayerStackPinned (rd : definition) : sprog (result serr unit) :=
  if negb (bool_decide (rdc_LayerStack (df_cr rd) = [])) || bool_decide (df_ResourceGroupName rd = "") then Ret (Ok tt)
  else
    stack ← tell (GetGroupStackS (Name (df_ResourceGroupName rd)));
    match stack with
    | Err SNotFound => Ret (Ok tt)
    | Err e => Ret (Err e)
    | Ok stack => if bool_decide (stack = []) then Ret (Ok tt) else Ret (Err SNotPinned)
    end.

Definition prepareDRBDApply (res : replica) (rd : definition) (peers : list ResourceCR) : sprog gate :=
  _ ← tell (PruneS (rdc_Name (df_cr rd)) (expectedPeerNamesFor (rp_cr res) peers) (volNumsOf (df_cr rd)));
  fresh ← (if status_allocated (rp_cr res) then Ret None
           else r ← tell (GetReplicaDirectS (rc_Name (rp_cr res))); Ret (match r with Ok f => Some (rp_cr f) | Err _ => None end));
  Ret (waitForControllerAllocation (rp_cr res) fresh peers).

Definition with_conditions (dr : DesiredResource) (res : replica) : DesiredResource :=
  mkDesiredResource (dr_Name dr) (dr_NodeName dr) (dr_Flags dr) (dr_Props dr) (dr_Volumes dr) (dr_Peers dr) (dr_DrbdOptions dr) (dr_LayerStack dr) (dr_Connections dr)
    (rp_MetadataCreated res) (rp_FilesystemFormatted res) (rp_KernelLoaded res) (dr_PeerHasData dr) (dr_SkipInitialSync dr).
Definition buildDesiredFromCRD (target : replica) (rd : definition) (peers : list ResourceCR) : sprog (result serr DesiredResource) :=
  _ ←! checkLayerStackPinned rd;
  nodes ←! tell ListNodesS;
  cores ← tell ListCoreNodesS;
  let nodes := match cores with Ok cores => enrichNodesWithInternalIP nodes cores | Err _ => nodes end in
  pools ←! tell ListPoolsS;
  props ←! tell (EffectivePropsS (rc_Name (rp_cr target)));
  secret ← (if layerStackHasLUKS (rdc_LayerStack (df_cr rd)) && negb (bool_decide (Namespace = "")) then tell SecretS else Ret None);
  let props := injectLUKSMasterPassphrase (Some (df_cr rd)) Namespace secret props in
  Ret (Ok (with_conditions (BuildDesired decode (rp_cr target) peers nodes pools (Some (df_cr rd)) (Some props)) target)).

Fixpoint recordPerResourceFailures (res : replica) (results : list applied) : sprog bool :=
  match results with
  | [] => Ret false
  | r :: rest =>
      if ap_Ok r then recordPerResourceFailures res rest
      else
        _ ← (if Recorder && contains device_holds_data (ap_Message r)
             then tell (WarnS (rc_Name (rp_cr res)) deviceHoldsDataReason (ap_Message r)) else Ret tt);
        _ ← recordPerResourceFailures res rest;
        Ret true
  end.
(** Each stamp is logged when it fails. *)
Definition stampPostApply (res : replica) (rd : definition) (results : list applied) (anyFailed : bool) : sprog unit :=
  _ ← stampVolumeStatus res results;
  purged ← purgeStaleVolumeStatus res rd;
  annotated ← stampVolumeNumbersAnnotation (fst purged) rd;
  let res := fst annotated in
  _ ← recordToggleDiskOutcome res (negb anyFailed);
  Ret tt.

(** The pass itself, once nothing has to be waited for. *)
Definition apply_desired (res : replica) (rd : definition) (peers : list ResourceCR) : sprog (result serr requeue) :=
  desired ←! buildDesiredFromCRD res rd peers;
  results ←! tell (ApplyS desired);
  anyFailed ← recordPerResourceFailures res results;
  _ ← stampPostApply res rd results anyFailed;
  Ret (Ok (if anyFailed : bool then After applyFailureRequeue else if rdNeedsDRBD (df_cr rd) then After activeDRBDRequeue else Settled)).
Definition runApply (res : replica) : sprog (result serr requeue) :=
  rd ← tell (GetDefinitionS (rd_of (rp_cr res)));
  match rd with
  | Err SNotFound => Ret (Ok Settled)
  | Err e => Ret (Err e)
  | Ok rd =>
      all ←! tell ListReplicasDirectS;
      let peers := listPeerResources (map rp_cr all) (rp_cr res) in
      let res := with_cr res (adoptAuthoritativeFlags (rp_cr res) peers) in
      pinned ← checkLayerStackPinned rd;
      match pinned with
      | Err SNotPinned => Ret (Ok (After layerStackPinRequeue))
      | Err e => Ret (Err e)
      | Ok _ =>
          if rdNeedsDRBD (df_cr rd) then
            g ← prepareDRBDApply res rd peers;
            match g with
            | WaitForSelf => Ret (Ok (After applyFailureRequeue))
            | WaitForPeers => Ret (Ok (After peerAllocationRequeue))
            | Proceed cr => apply_desired (with_cr res cr) rd peers
            end
          else apply_desired res rd peers
      end
  end.

Definition Reconcile (name : string) : sprog (result serr requeue) :=
  got ← tell (GetReplicaS name);
  match got with
  | Err SNotFound => Ret (Ok Settled)
  | Err e => Ret (Err e)
  | Ok res =>
      if negb (bool_decide (node_of (rp_cr res) = NodeName)) then Ret (Ok Settled)
      else if rc_Deleting (rp_cr res) then handleDelete res
      else if negb (Contains (rc_Finalizers (rp_cr res)) SatelliteResourceFinalizer) then
        _ ←! tell (UpdateReplicaS (with_cr res (with_finalizers (rp_cr res) (rc_Finalizers (rp_cr res) ++ [SatelliteResourceFinalizer]))));
        Ret (Ok (After applyFailureRequeue))
      else if rp_ToggleDiskCancel res then handleToggleDiskCancel res
      else runApply res
  end.

(** ** Whom an event of another object wakes *)

Definition first_local (all : list replica) (rd : string) : list string :=
  match list_find (fun r => rd_of (rp_cr r) = rd /\ node_of (rp_cr r) = NodeName) all with Some (_, r) => [rc_Name (rp_cr r)] | None => [] end.
Definition enqueueLocalSiblings (event : replica) : sprog (list string) :=
  if bool_decide (node_of (rp_cr event) = NodeName) then Ret []
  else all ← tell ListReplicasS; Ret (match all with Ok all => first_local all (rd_of (rp_cr event)) | Err _ => [] end).
Definition enqueueResourcesForRD (rd : string) : sprog (list string) :=
  all ← tell ListReplicasS; Ret (match all with Ok all => first_local all rd | Err _ => [] end).

(** ** The release of the pin on a failed disk *)

Definition ClearSkipDisk (rd : string) : sprog (result serr unit) :=
  if bool_decide (rd = "") then Ret (Ok tt)
  else
    let name := object_name NodeName rd in
    existing ← tell (GetReplicaS name);
    match existing with
    | Err SNotFound => Ret (Ok tt)
    | Err e => Ret (Err e)
    | Ok res => tell (ReleaseSkipDiskS name (rd_of (rp_cr res)) (node_of (rp_cr res)))
    end.

End Controller.
