(* ===== verification/SatControllerProps.v ===== *)
(** * What holds of the controller of the replicas of a node

    The finalizer is given up after the storage, a pass runs on a fresh view, the purge removes what is
    gone and nothing else, and the recorded volume numbers read back. *)

From Stdlib Require Import Ascii.
From S2P Require Import Prelude Prog ReplicaController GoStrings Api CrdName DrbdStates Kube Dispatcher ResFile Observer SatController.

(** ** Recorded volume numbers *)

Lemma split_numbers (l : list Z) : l <> [] -> split_char "," (Str.join "," (map format_int l)) = map format_int l.
Proof.
  induction l as [|n [|m l] IH]; intros Hne; [done|by apply split_char_last, format_int_no|].
  change (Str.join "," (map format_int (n :: m :: l))) with (format_int n +:+ String "," (Str.join "," (map format_int (m :: l)))).
  rewrite split_char_piece by by apply format_int_no. by rewrite IH.
Qed.
Lemma trim_number n : Str.trim_space (format_int n) = format_int n.
Proof. pose proof (format_int_solid n) as [H1 H2]. by apply (trim_space_word ""). Qed.

(** The volume numbers recorded on a replica are read back in full, whatever 32-bit numbers they are:
    a replica that outlives its definition still knows every volume it has to remove. *)
Theorem volume_numbers_read_back (defs : list ResourceDefinitionVolume) : Forall (fun d => - 2 ^ 31 <= rdv_VolumeNumber d < 2 ^ 31) defs ->
  parseVolumeNumbers (formatVolumeNumbers defs) = map rdv_VolumeNumber defs.
Proof.
  intros Hr. unfold parseVolumeNumbers, formatVolumeNumbers. destruct (decide (defs = [])) as [->|Hne]; [done|].
  replace (map (fun d => format_int (rdv_VolumeNumber d)) defs) with (map format_int (map rdv_VolumeNumber defs)) by by rewrite map_map.
  rewrite split_numbers by by destruct defs. rewrite bool_decide_eq_false_2.
  - induction Hr as [|d defs Hd Hr IH]; [done|]. cbn [map omap list_omap]. rewrite trim_number, parse_int_format by (cbn; lia). f_equal.
    destruct defs; [done|by apply IH].
  - destruct defs as [|d defs]; [done|]. intros H. apply (f_equal String.length) in H. pose proof (format_int_solid (rdv_VolumeNumber d)) as [_ Hd].
    destruct defs; cbn [map Str.join] in H; [|rewrite StrFacts.length_app_str in H]; destruct (format_int (rdv_VolumeNumber d)); cbn in H; [done|lia|done|lia].
Qed.

(** ** The purge *)

(** A JSON patch on the list of volumes: it is applied as a whole or fails (RFC 6902). *)
Definition apply_op (l : list ResourceVolumeStatus) (op : patch_op) : option (list ResourceVolumeStatus) :=
  match op with
  | TestNumber i n => v ← l !! i; if bool_decide (rvt_VolumeNumber v = n) then Some l else None
  | RemoveEntry i => _ ← l !! i; Some (delete i l)
  end.
Definition apply_patch (l : list ResourceVolumeStatus) (ops : list patch_op) : option (list ResourceVolumeStatus) :=
  foldl (fun acc op => l ← acc; apply_op l op) (Some l) ops.
Notation number_in desired := (fun v => rvt_VolumeNumber v ∈ desired).

Lemma apply_patch_app l ops ops' : apply_patch l (ops ++ ops') = l' ← apply_patch l ops; apply_patch l' ops'.
Proof.
  unfold apply_patch. rewrite foldl_app. destruct (foldl _ (Some l) ops); [done|]. by induction ops'.
Qed.
Lemma purge_cons s stale : buildVolumeStatusPurgePatch (s :: stale) = buildVolumeStatusPurgePatch stale ++ [TestNumber (sv_index s) (sv_volNum s); RemoveEntry (sv_index s)].
Proof. unfold buildVolumeStatusPurgePatch. cbn [rev]. by rewrite map_app, concat_app. Qed.
Lemma delete_middle {A} (pre : list A) v l : delete (length pre) (pre ++ v :: l) = pre ++ l.
Proof. induction pre as [|w pre IH]; [done|]. cbn. by f_equal. Qed.

Lemma partition_survivors status desired : forall i, (partition_from i status desired).2 = filter (number_in desired) status.
Proof.
  induction status as [|v status IH]; intros i; [done|]. cbn [partition_from]. specialize (IH (S i)). destruct (partition_from (S i) status desired) as [st su]. cbn [snd] in IH.
  rewrite filter_cons. case_bool_decide; [rewrite decide_True by done|rewrite decide_False by done]; cbn [snd]; by rewrite IH.
Qed.
Lemma partition_stale status desired : forall i, Forall (fun s => sv_volNum s ∉ desired) (partition_from i status desired).1.
Proof.
  induction status as [|v status IH]; intros i; [constructor|]. cbn [partition_from]. specialize (IH (S i)). destruct (partition_from (S i) status desired) as [st su].
  case_bool_decide; cbn in *; [done|by constructor].
Qed.
Lemma purge_applies desired status : forall pre, apply_patch (pre ++ status) (buildVolumeStatusPurgePatch (partition_from (length pre) status desired).1) =
  Some (pre ++ (partition_from (length pre) status desired).2).
Proof.
  induction status as [|v status IH]; intros pre; [by cbn; rewrite app_nil_r|]. specialize (IH (pre ++ [v])). rewrite length_app, Nat.add_comm in IH. cbn [partition_from length Nat.add] in *.
  destruct (partition_from (S (length pre)) status desired) as [st su]. cbn [fst snd] in IH. rewrite <- !app_assoc in IH. cbn [app] in IH. case_bool_decide; cbn [fst snd]; [exact IH|].
  rewrite purge_cons, apply_patch_app, IH. unfold apply_patch. cbn.
  rewrite list_lookup_middle by done. cbn. rewrite bool_decide_eq_true_2 by done. cbn. rewrite list_lookup_middle by done. cbn. by rewrite delete_middle.
Qed.
Lemma purge_surgical (desired : gset Z) stale : Forall (fun s => sv_volNum s ∉ desired) stale -> forall l l', apply_patch l (buildVolumeStatusPurgePatch stale) = Some l' ->
  filter (number_in desired) l' = filter (number_in desired) l /\ l' `sublist_of` l /\ (length l' + length stale = length l)%nat.
Proof.
  induction 1 as [|s stale Hs Hst IH]; intros l l'; [intros [= <-]; split_and!; [done|done|cbn; lia]|]. rewrite purge_cons, apply_patch_app.
  destruct (apply_patch l (buildVolumeStatusPurgePatch stale)) as [l1|] eqn:E; [|done]. specialize (IH l l1 E) as (I1 & I2 & I3).
  unfold apply_patch. cbn. destruct (l1 !! sv_index s) as [v|] eqn:Hv; [|done]. cbn. case_bool_decide as Hn; [|done]. cbn. rewrite Hv. cbn. intros [= <-].
  apply list_elem_of_split_length in Hv as (a & b & -> & Hlen). rewrite Hlen, delete_middle. rewrite length_app in I3. cbn in I3. split_and!.
  - rewrite <- I1, !list.filter_app, filter_cons. by rewrite decide_False by congruence.
  - etrans; [|exact I2]. apply sublist_app; [done|]. by constructor.
  - rewrite length_app. cbn. lia.
Qed.

(** The patch that a purge sends removes exactly the volumes the definition no longer has. On the status it was made from it
    leaves the other volumes in order. On any other status, written by someone else in the meantime, it fails
    as a whole or removes as many entries, none of them of a volume the definition has. *)
Theorem purge_removes_what_is_gone status (desired : gset Z) :
  let '(stale, survivors) := partitionStaleVolumeStatus status desired in
  apply_patch status (buildVolumeStatusPurgePatch stale) = Some survivors /\ survivors = filter (number_in desired) status /\
  forall l l', apply_patch l (buildVolumeStatusPurgePatch stale) = Some l' ->
    filter (number_in desired) l' = filter (number_in desired) l /\ l' `sublist_of` l /\ (length l' + length stale = length l)%nat.
Proof.
  pose proof (purge_applies desired status []) as H1. pose proof (partition_survivors status desired 0) as H2. pose proof (partition_stale status desired 0) as H3.
  unfold partitionStaleVolumeStatus. cbn [length app] in H1. destruct (partition_from 0 status desired) as [stale survivors]. cbn [fst snd] in *.
  split_and!; [done|done|]. by apply purge_surgical.
Qed.

(** ** The finalizer *)


Section Reconcile.
Context (NodeName : string) (Recorder : bool) (Namespace : string) (decode : string -> option (list (gmap string string))).
#[local] Notation Reconcile := (SatController.Reconcile NodeName Recorder Namespace decode).
#[local] Notation runApply := (SatController.runApply Recorder Namespace decode).
#[local] Notation history := (list (fact sanswer)).
Implicit Types h : history.

Lemma traced_tell (P : history -> scall -> Prop) c h : P h c -> traced P h (tell c) (fun h' a => h `prefix_of` h' /\ told h' c a).
Proof. apply (traced_call (answer := sanswer)). Qed.

(** The volumes a teardown has to remove: those of the definition, or, when it is gone, the recorded or the reported ones. *)
Definition volumes_known h (res : replica) (vols : list Z) : Prop :=
  (exists rd, told h (GetDefinitionS (rd_of (rp_cr res))) (Ok rd) /\ vols = volNumsOf (df_cr rd)) \/
  told h (GetDefinitionS (rd_of (rp_cr res))) (Err SNotFound) /\
    vols = match parseVolumeNumbers (get (rc_Annotations (rp_cr res)) ResourceAnnotationVolumeNumbers) with [] => volumeNumbersFromStatus res | nums => nums end.
Definition torn_down h (name : string) : Prop :=
  exists res vols, told h (GetReplicaS name) (Ok res) /\ volumes_known h res vols /\
    told h (DeleteResourceS (rd_of (rp_cr res)) (resolveDeleteStoragePool res) vols) (Ok true).
(** The finalizer is kept by an update unless the storage is gone. *)
Definition finalizer_kept (name : string) h (c : scall) : Prop :=
  match c with UpdateReplicaS r => SatelliteResourceFinalizer ∈ rc_Finalizers (rp_cr r) \/ torn_down h name | _ => True end.
Definition no_update (c : scall) : Prop := match c with UpdateReplicaS _ => False | _ => True end.

Lemma lookup_traced P (R : scall -> Prop) res h : (forall h c, R c -> P h c) -> R (GetDefinitionS (rd_of (rp_cr res))) ->
  traced P h (lookupVolumeNumbers res) (fun h' r => h `prefix_of` h' /\ match r with Ok vols => volumes_known h' res vols | Err _ => True end).
Proof.
  intros HP Hc. split; [by apply HP|]. intros [rd|e]; cbn.
  - split; [by apply prefix_app_r|]. left. exists rd. split; [apply told_last|done].
  - destruct e; cbn; try (split; [by apply prefix_app_r|done]). split; [by apply prefix_app_r|]. right. split; [apply told_last|]. case_bool_decide as H; [by rewrite H|]. by case_match.
Qed.
(** What is written after a pass. *)
Definition is_stamp (c : scall) : Prop := match c with PatchDevicesS _ _ | PurgeVolumesS _ _ | AnnotateVolumesS _ _ | PatchRetriesS _ _ | WarnS _ _ _ => True | _ => False end.
Lemma stamps_only res rd results failed : only is_stamp (stampPostApply res rd results failed).
Proof.
  assert (forall r n, only is_stamp (patchToggleDiskRetries r n)) as Hretries by (intros r n; unfold patchToggleDiskRetries; case_bool_decide; [done|]; split; [done|]; by intros [|]).
  unfold stampPostApply. apply only_bind; [unfold stampVolumeStatus; destruct results; [done|]; case_bool_decide; done|]. intros _.
  apply only_bind; [|intros purged; apply only_bind; [|intros annotated; apply only_bind; [|done]]].
  - unfold purgeStaleVolumeStatus. repeat case_bool_decide; try done. destruct (partitionStaleVolumeStatus _ _) as [stale survivors]. case_bool_decide; [done|]. split; [done|]. by intros [|[]].
  - unfold stampVolumeNumbersAnnotation. repeat case_bool_decide; try done. split; [done|]. by intros [|].
  - unfold recordToggleDiskOutcome. destruct (_ || _); [case_bool_decide; [done|apply Hretries]|apply Hretries].
Qed.
Lemma failures_only res results : only is_stamp (recordPerResourceFailures Recorder res results).
Proof.
  induction results as [|r results IH]; cbn [recordPerResourceFailures]; [done|]. destruct (ap_Ok r); [done|]. apply only_bind; [by case_match|]. intros _. by apply only_bind.
Qed.
Lemma pinned_no_update rd : only no_update (checkLayerStackPinned rd).
Proof. unfold checkLayerStackPinned. destruct (_ || _); [done|]. split; [done|]. intros [stack|[]]; cbn; try done. by case_bool_decide. Qed.
Lemma desired_no_update res rd peers : only no_update (buildDesiredFromCRD Namespace decode res rd peers).
Proof.
  unfold buildDesiredFromCRD. apply only_then; [apply pinned_no_update|]. intros _. apply only_then; [done|]. intros nodes. apply only_bind; [done|]. intros cores.
  apply only_then; [done|]. intros pools. apply only_then; [done|]. intros props. apply only_bind; [by case_match|]. done.
Qed.
Lemma pass_no_update res : only no_update (runApply res).
Proof.
  assert (forall res rd peers, only no_update (apply_desired Recorder Namespace decode res rd peers)) as Hpass.
  { intros r rd peers. unfold apply_desired. apply only_then; [apply desired_no_update|]. intros dr. apply only_then; [done|]. intros results.
    apply only_bind; [eapply only_impl, failures_only; by intros []|]. intros failed. apply only_bind; [eapply only_impl, stamps_only; by intros []|done]. }
  unfold SatController.runApply. apply only_bind; [done|]. intros [rd|[]]; [|done..]. apply only_then; [done|]. intros all. apply only_bind; [apply pinned_no_update|].
  intros [_|[]]; [|done..]. destruct (rdNeedsDRBD _); [|apply Hpass]. apply only_bind; [|intros []; [done|done|apply Hpass]].
  unfold prepareDRBDApply. apply only_bind; [done|]. intros _. apply only_bind; [|done]. destruct (status_allocated _); [done|]. apply only_bind; [done|]. by intros [|].
Qed.

Lemma deletion_keeps name res h : told h (GetReplicaS name) (Ok res) -> traced (finalizer_kept name) h (handleDelete res) (fun _ _ => True).
Proof.
  intros Hres. unfold handleDelete. destruct (negb _); [done|].
  eapply traced_kbind; [apply (lookup_traced _ no_update); [by intros ? []|done]| |done]. intros h1 vols [Hp Hv]. cbn -[kbind].
  split; [done|]. intros [complete|e]; [|done]. cbn. destruct complete; [|done]. cbn. split; [done|]. intros [latest|[]]; try done. destruct (negb _); [done|].
  split; [|by intros [|]]. right. exists res, vols. split_and!.
  - apply told_later, told_later. by eapply told_prefix.
  - destruct Hv as [(rd & Hrd & ->)|[Hrd ->]]; [left; exists rd; split; [by apply told_later, told_later|done]|right; split; [by apply told_later, told_later|done]].
  - apply told_later, told_last.
Qed.
Lemma cancel_keeps name res h : SatelliteResourceFinalizer ∈ rc_Finalizers (rp_cr res) -> traced (finalizer_kept name) h (handleToggleDiskCancel res) (fun _ _ => True).
Proof.
  intros Hf. unfold handleToggleDiskCancel. eapply traced_kbind with (R := fun _ _ => True); [|intros h1 torn _|done].
  - destruct (isToggleDiskInFlight res); [|done]. eapply traced_kbind; [apply (lookup_traced _ no_update); [by intros ? []|done]| |done]. intros h1 vols _. split; [done|]. by intros.
  - destruct torn; [|done]. cbn -[kbind]. split; [left; by case_match|]. intros [r|e]; [|done]. cbn. case_bool_decide; [done|].
    unfold patchToggleDiskRetries. case_bool_decide; [done|]. split; [done|]. by intros [|].
Qed.

(** C24: in whatever state a replica is found and whatever is answered, the satellite gives up its finalizer, which lets the
    object go, only after the teardown of the storage reported that it is complete; and the teardown was asked
    for every volume of the definition or, when the definition is gone, every volume recorded on the replica. *)
Theorem finalizer_goes_after_the_storage name : traced (finalizer_kept name) [] (Reconcile name) (fun _ _ => True).
Proof.
  unfold SatController.Reconcile. eapply traced_bind; [by apply traced_tell|]. intros h [res|[]] [_ Hres]; [|done..].
  destruct (negb (bool_decide _)); [done|]. destruct (rc_Deleting _); [by apply deletion_keeps|]. destruct (Contains _ _) eqn:Hf; cbn [negb].
  - apply Contains_true in Hf. destruct (rp_ToggleDiskCancel res); [by apply cancel_keeps|]. eapply traced_mono; [|apply (traced_free _ no_update); [by intros ? []|apply pass_no_update]]. done.
  - eapply traced_kbind; [apply traced_tell; left; cbn; set_solver|done|done].
Qed.

(** ** A pass *)

(** The replicas of the definition in a listing, and the replica with the flags found there. *)
#[local] Notation peers_in all res := (listPeerResources (map rp_cr all) (rp_cr res)).
#[local] Notation adopted_in all res := (adoptAuthoritativeFlags (rp_cr res) (peers_in all res)).
(** The replica as it is handed to the builder of the intent: under DRBD it and its peers have their identities, its own taken from an
    uncached read when the cached object had none. *)
Definition target_from h (res : replica) (rd : definition) (all : list replica) (cr : ResourceCR) : Prop :=
  if rdNeedsDRBD (df_cr rd) then exists fresh, (forall f, fresh = Some f -> exists r, told h (GetReplicaDirectS (rc_Name (rp_cr res))) (Ok r) /\ f = rp_cr r) /\
    waitForControllerAllocation (adopted_in all res) fresh (peers_in all res) = Proceed cr
  else cr = adopted_in all res.
(** The intent is built from what was told: the definition, its replicas, the nodes with their addresses, the pools and the options in force. *)
Definition intent_from h (res : replica) (rd : definition) (all : list replica) (dr : DesiredResource) : Prop :=
  exists cr nodes cores pools props secret, target_from h res rd all cr /\ told h ListNodesS (Ok nodes) /\ told h ListCoreNodesS cores /\ told h ListPoolsS (Ok pools) /\
    told h (EffectivePropsS (rc_Name cr)) (Ok props) /\ (forall x, secret = Some x -> told h SecretS secret) /\
    dr = with_conditions (BuildDesired decode cr (peers_in all res) (match cores with Ok cores => enrichNodesWithInternalIP nodes cores | Err _ => nodes end) pools
      (Some (df_cr rd)) (Some (injectLUKSMasterPassphrase (Some (df_cr rd)) Namespace secret props))) res.
(** What a pass over the replica [name] is based on. *)
Definition fresh_view (name : string) h (c : scall) : Prop :=
  match c with
  | ApplyS dr =>
      exists res rd all, told h (GetReplicaS name) (Ok res) /\ told h (GetDefinitionS (rd_of (rp_cr res))) (Ok rd) /\ told h ListReplicasDirectS (Ok all) /\
        intent_from h res rd all dr /\
        dr_Name dr = rd_of (rp_cr res) /\ dr_NodeName dr = NodeName /\ rc_Deleting (rp_cr res) = false /\
        map dv_VolumeNumber (dr_Volumes dr) = map rdv_VolumeNumber (rdc_VolumeDefinitions (df_cr rd)) /\ dr_LayerStack dr = rdc_LayerStack (df_cr rd) /\
        dr_PeerHasData dr = anyDiskfulPeerHasData (peers_in all res) /\
        (forall p, p ∈ map rp_cr all -> node_of p = NodeName -> rd_of p = rd_of (rp_cr res) ->
           exists q, q ∈ map rp_cr all /\ node_of q = NodeName /\ rd_of q = rd_of (rp_cr res) /\ dr_Flags dr = rs_Flags (rc_Spec q)) /\
        (rdNeedsDRBD (df_cr rd) = true -> forall p, p ∈ map rp_cr all -> rd_of p = rd_of (rp_cr res) -> diskless p = false -> 0 <= nodeIDOf p) /\
        (rdc_LayerStack (df_cr rd) = [] -> df_ResourceGroupName rd <> "" ->
           told h (GetGroupStackS (Name (df_ResourceGroupName rd))) (Err SNotFound) \/ told h (GetGroupStackS (Name (df_ResourceGroupName rd))) (Ok []))
  | _ => True
  end.
Definition no_pass (c : scall) : Prop := match c with ApplyS _ => False | _ => True end.
Lemma no_pass_free name h c : no_pass c -> fresh_view name h c.
Proof. by destruct c. Qed.
(** The stack is the definition's own or nobody sets one. *)
Definition stack_settled h (rd : definition) : Prop := rdc_LayerStack (df_cr rd) = [] -> df_ResourceGroupName rd <> "" ->
  told h (GetGroupStackS (Name (df_ResourceGroupName rd))) (Err SNotFound) \/ told h (GetGroupStackS (Name (df_ResourceGroupName rd))) (Ok []).
Lemma pinned_traced name rd h : traced (fresh_view name) h (checkLayerStackPinned rd) (fun h' r => h `prefix_of` h' /\ match r with Ok _ => stack_settled h' rd | Err _ => True end).
Proof.
  unfold checkLayerStackPinned, stack_settled. destruct (_ || _) eqn:E; cbn [traced].
  - split; [done|]. intros Hs Hg. exfalso. rewrite bool_decide_eq_true_2, bool_decide_eq_false_2 in E by done. done.
  - eapply traced_bind; [by apply traced_tell|]. intros h1 [stack|[]] [Hp Ht]; cbn [traced]; try (split; [done|by auto]).
    clear E. case_bool_decide as Hs; cbn [traced]; [subst; split; [done|]; intros _ _; by right|done].
Qed.
Lemma settled_prefix h h' rd : h `prefix_of` h' -> stack_settled h rd -> stack_settled h' rd.
Proof. intros Hp Hs H1 H2. destruct (Hs H1 H2); [left|right]; by eapply told_prefix. Qed.
Lemma adopted_flags res peers : (forall p, p ∈ peers -> node_of p = node_of res -> rd_of p = rd_of res ->
  exists q, q ∈ peers /\ node_of q = node_of res /\ rd_of q = rd_of res /\ rs_Flags (rc_Spec (adoptAuthoritativeFlags res peers)) = rs_Flags (rc_Spec q)).
Proof.
  intros p Hp Hn Hr. unfold adoptAuthoritativeFlags. destruct (list_find _ peers) as [[i q]|] eqn:E.
  - apply list_find_Some in E as (Hq & [H1 H2] & _). exists q. apply list_elem_of_lookup_2 in Hq. done.
  - apply list_find_None in E. rewrite list.Forall_forall in E. by destruct (E p Hp).
Qed.
Lemma adopted_same res peers : node_of (adoptAuthoritativeFlags res peers) = node_of res /\ rd_of (adoptAuthoritativeFlags res peers) = rd_of res.
Proof. unfold adoptAuthoritativeFlags. by destruct (list_find _ peers) as [[i q]|]. Qed.
Lemma adopted_name res peers : rc_Name (adoptAuthoritativeFlags res peers) = rc_Name res.
Proof. unfold adoptAuthoritativeFlags. by destruct (list_find _ peers) as [[i q]|]. Qed.
Lemma gate_keeps_spec cr fresh peers cr' : waitForControllerAllocation cr fresh peers = Proceed cr' ->
  node_of cr' = node_of cr /\ rd_of cr' = rd_of cr /\ rs_Flags (rc_Spec cr') = rs_Flags (rc_Spec cr) /\ forall p, p ∈ peers -> diskless p = false -> 0 <= nodeIDOf p.
Proof.
  unfold waitForControllerAllocation. destruct (if status_allocated cr then _ else _) as [cr1 ok] eqn:E. destruct ok; [|done]. cbn [negb].
  destruct (DiskfulPeersAllocated cr1 peers) eqn:Ha; [|done]. intros [= <-].
  assert (rc_Spec cr1 = rc_Spec cr) as Hs by (destruct (status_allocated cr); [by injection E as <-|]; unfold refreshTargetFromAPIReader in E; destruct fresh as [f|]; [|done]; by destruct (status_allocated f); injection E as <-).
  unfold node_of, rd_of. rewrite Hs. split_and!; [done..|]. intros p Hp Hd. unfold DiskfulPeersAllocated, diskfulPeersAllocated in Ha. rewrite forallb_forall in Ha.
  specialize (Ha p). rewrite Hd in Ha. apply bool_decide_eq_true in Ha; [done|]. right. by apply list_elem_of_In.
Qed.
Lemma desired_fields cr peers nodes pools rd props : let d := BuildDesired decode cr peers nodes pools rd props in
  dr_Name d = rd_of cr /\ dr_NodeName d = node_of cr /\ dr_Flags d = rs_Flags (rc_Spec cr) /\ dr_Volumes d = buildVolumes rd cr /\
  dr_LayerStack d = (match rd with Some rd => rdc_LayerStack rd | None => [] end) /\ dr_PeerHasData d = anyDiskfulPeerHasData peers.
Proof. unfold BuildDesired, assembleDesired. by destruct (mergeEffectiveProps _ _ _). Qed.
Lemma target_later h h' res rd all cr : h `prefix_of` h' -> target_from h res rd all cr -> target_from h' res rd all cr.
Proof.
  intros Hp. unfold target_from. destruct (rdNeedsDRBD _); [|done]. intros (fresh & Hf & Hw). exists fresh. split; [|done].
  intros f E. destruct (Hf f E) as (r & Hr & ->). exists r. split; [by eapply told_prefix|done].
Qed.
Lemma intent_fields h res rd all dr : intent_from h res rd all dr -> exists cr, target_from h res rd all cr /\ dr_Name dr = rd_of cr /\ dr_NodeName dr = node_of cr /\
  dr_Flags dr = rs_Flags (rc_Spec cr) /\ dr_Volumes dr = buildVolumes (Some (df_cr rd)) cr /\ dr_LayerStack dr = rdc_LayerStack (df_cr rd) /\ dr_PeerHasData dr = anyDiskfulPeerHasData (peers_in all res).
Proof.
  intros (cr & nodes & cores & pools & props & secret & Ht & _ & _ & _ & _ & _ & ->). exists cr. split; [done|]. unfold with_conditions.
  cbn [dr_Name dr_NodeName dr_Flags dr_Volumes dr_LayerStack dr_PeerHasData]. apply desired_fields.
Qed.

Lemma target_facts h res rd all cr : target_from h res rd all cr -> node_of cr = node_of (rp_cr res) /\ rd_of cr = rd_of (rp_cr res) /\
  rs_Flags (rc_Spec cr) = rs_Flags (rc_Spec (adopted_in all res)) /\ (rdNeedsDRBD (df_cr rd) = true -> forall p, p ∈ peers_in all res -> diskless p = false -> 0 <= nodeIDOf p).
Proof.
  unfold target_from. destruct (adopted_same (rp_cr res) (peers_in all res)) as [An Ar]. destruct (rdNeedsDRBD _).
  - intros (fresh & _ & Hw). apply gate_keeps_spec in Hw as (G1 & G2 & G3 & G4). split_and!; [congruence..|]. by intros _.
  - intros ->. by split_and!.
Qed.
(** What is told and built amounts to a fresh view. *)
Lemma fresh_view_of name h res rd all dr : node_of (rp_cr res) = NodeName -> rc_Deleting (rp_cr res) = false ->
  told h (GetReplicaS name) (Ok res) -> told h (GetDefinitionS (rd_of (rp_cr res))) (Ok rd) -> told h ListReplicasDirectS (Ok all) ->
  stack_settled h rd -> intent_from h res rd all dr -> fresh_view name h (ApplyS dr).
Proof.
  intros Hnode Hlive T1 T2 T3 Hs Hi. destruct (intent_fields _ _ _ _ _ Hi) as (cr & Ht & F1 & F2 & F3 & F4 & F5 & F6).
  apply target_facts in Ht as (G1 & G2 & G3 & G4). exists res, rd, all. split_and!; [done..|congruence|congruence|done| |done|done| | |exact Hs].
  - rewrite F4. unfold buildVolumes. by rewrite map_map.
  - intros p Hin Hn Hr. destruct (adopted_flags (rp_cr res) (peers_in all res) p) as (q & Hq & Q1 & Q2 & Q3); [unfold listPeerResources; by apply list_elem_of_filter|congruence|done|].
    unfold listPeerResources in Hq. apply list_elem_of_filter in Hq as [_ Hq]. exists q. split_and!; [done|congruence|done|congruence].
  - intros Hd p Hin Hr. apply G4; [done|]. unfold listPeerResources. by apply list_elem_of_filter.
Qed.

Section Pass.
Context (name : string) (res0 : replica) (rd : definition) (all : list replica).
Context (Hnode : node_of (rp_cr res0) = NodeName) (Hlive : rc_Deleting (rp_cr res0) = false).
#[local] Notation peers := (listPeerResources (map rp_cr all) (rp_cr res0)).
#[local] Notation adopted := (adoptAuthoritativeFlags (rp_cr res0) peers).
Lemma build_traced cr h : target_from h res0 rd all cr -> traced (fresh_view name) h (buildDesiredFromCRD Namespace decode (with_cr res0 cr) rd peers)
  (fun h' r => h `prefix_of` h' /\ match r with Ok dr => stack_settled h' rd /\ intent_from h' res0 rd all dr | Err _ => True end).
Proof.
  intros Ht. unfold buildDesiredFromCRD. eapply traced_kbind; [apply pinned_traced| |by intros h1 e [Hp _]]. intros h1 [] [Hp Hs].
  assert (forall h', h1 `prefix_of` h' -> h `prefix_of` h' /\ True) as Herr by (intros h' H; split; [by etrans|done]).
  eapply traced_kbind; [by apply traced_tell| |intros h' e [H _]; by apply Herr]. intros h2 nodes [P2 K2].
  eapply traced_bind; [by apply traced_tell|]. intros h3 cores [P3 K3]. assert (h1 `prefix_of` h3) as Q3 by by etrans.
  eapply traced_kbind; [by apply traced_tell| |intros h' e [H _]; apply Herr; by etrans]. intros h4 pools [P4 K4]. assert (h1 `prefix_of` h4) as Q4 by by etrans.
  eapply traced_kbind; [by apply traced_tell| |intros h' e [H _]; apply Herr; by etrans]. intros h5 props [P5 K5].
  eapply traced_bind with (R := fun h' secret => h5 `prefix_of` h' /\ forall x, secret = Some x -> told h' SecretS secret).
  { destruct (_ && _); [eapply traced_mono; [|by apply traced_tell]; intros h' x [? ?]; by split|by cbn]. }
  intros h6 secret [P6 K6]. assert (h3 `prefix_of` h6) as Q6 by by do 2 (etrans; [eassumption|]). cbn [traced].
  assert (h2 `prefix_of` h6) as Q26 by (etrans; [exact P3|exact Q6]). assert (h1 `prefix_of` h6) as Q16 by (etrans; [exact P2|exact Q26]).
  assert (h `prefix_of` h6) as Q06 by (etrans; [exact Hp|exact Q16]). assert (h4 `prefix_of` h6) as Q46 by (etrans; [exact P5|exact P6]). split; [done|]. split; [exact (settled_prefix _ _ _ Q16 Hs)|].
  exists cr, nodes, cores, pools, props, secret. split_and!; [exact (target_later _ _ _ _ _ _ Q06 Ht)|exact (told_prefix _ _ _ _ Q26 K2)|exact (told_prefix _ _ _ _ Q6 K3)|exact (told_prefix _ _ _ _ Q46 K4)|exact (told_prefix _ _ _ _ P6 K5)|done|done].
Qed.
Lemma apply_traced cr h : told h (GetReplicaS name) (Ok res0) -> told h (GetDefinitionS (rd_of (rp_cr res0))) (Ok rd) -> told h ListReplicasDirectS (Ok all) ->
  target_from h res0 rd all cr -> traced (fresh_view name) h (apply_desired Recorder Namespace decode (with_cr res0 cr) rd peers) (fun _ _ => True).
Proof using Hnode Hlive.
  intros T1 T2 T3 Ht. unfold apply_desired. eapply traced_kbind; [by apply build_traced| |done]. intros h1 dr (Hp & Hs & Hi). eapply traced_kbind; [apply traced_tell| |done].
  - eapply fresh_view_of; [done|done|by eapply told_prefix..|done|done].
  - intros h2 results [Hp2 _]. eapply traced_mono; [done|]. apply (traced_free _ no_pass); [apply no_pass_free|].
    apply only_bind; [eapply only_impl, failures_only; by intros []|]. intros failed. apply only_bind; [eapply only_impl, stamps_only; by intros []|done].
Qed.
Lemma pass_traced h : told h (GetReplicaS name) (Ok res0) -> told h (GetDefinitionS (rd_of (rp_cr res0))) (Ok rd) -> told h ListReplicasDirectS (Ok all) ->
  traced (fresh_view name) h (pinned ← checkLayerStackPinned rd;
      match pinned with
      | Err SNotPinned => Ret (Ok (After layerStackPinRequeue))
      | Err e => Ret (Err e)
      | Ok _ =>
          if rdNeedsDRBD (df_cr rd) then
            g ← prepareDRBDApply (with_cr res0 adopted) rd peers;
            match g with
            | WaitForSelf => Ret (Ok (After applyFailureRequeue))
            | WaitForPeers => Ret (Ok (After peerAllocationRequeue))
            | Proceed cr => apply_desired Recorder Namespace decode (with_cr (with_cr res0 adopted) cr) rd peers
            end
          else apply_desired Recorder Namespace decode (with_cr res0 adopted) rd peers
      end) (fun _ _ => True).
Proof using Hnode Hlive.
  intros T1 T2 T3. eapply traced_bind; [apply pinned_traced|]. intros h1 [[]|[]] [Hp _]; [|done..].
  assert (told h1 (GetReplicaS name) (Ok res0)) as T1' by by eapply told_prefix. assert (told h1 (GetDefinitionS (rd_of (rp_cr res0))) (Ok rd)) as T2' by by eapply told_prefix.
  assert (told h1 ListReplicasDirectS (Ok all)) as T3' by by eapply told_prefix. destruct (rdNeedsDRBD (df_cr rd)) eqn:Hd; [|apply apply_traced; [done..|]; unfold target_from; by rewrite Hd].
  eapply traced_bind with (R := fun h' g => h1 `prefix_of` h' /\ forall cr, g = Proceed cr -> target_from h' res0 rd all cr).
  - unfold prepareDRBDApply. eapply traced_bind; [by apply traced_tell|]. intros h2 _ [P2 _].
    eapply traced_bind with (R := fun h' fresh => h2 `prefix_of` h' /\ forall f, fresh = Some f -> exists r, told h' (GetReplicaDirectS (rc_Name (rp_cr res0))) (Ok r) /\ f = rp_cr r).
    2:{ intros h3 fresh [P3 Hf]. cbn [traced]. split; [by etrans|]. intros cr E. unfold target_from. rewrite Hd. by exists fresh. }
    destruct (status_allocated _); [by cbn|]. eapply traced_bind; [by apply traced_tell|]. cbn [rp_cr with_cr]. rewrite (adopted_name (rp_cr res0) peers).
    intros h3 [f|e] [P3 K3]; cbn [traced]; (split; [done|]); [intros f' [= <-]; by exists f|done].
  - intros h2 g [P2 Hg]. destruct g as [| |cr]; [done|done|]. apply (apply_traced cr); [by eapply told_prefix..|by apply Hg].
Qed.
End Pass.

Lemma runApply_traced name res h : told h (GetReplicaS name) (Ok res) -> node_of (rp_cr res) = NodeName -> rc_Deleting (rp_cr res) = false ->
  traced (fresh_view name) h (runApply res) (fun _ _ => True).
Proof.
  intros T1 Hn Hl. unfold SatController.runApply. eapply traced_bind; [by apply traced_tell|]. intros h1 [rd|[]] [P1 T2]; [|done..].
  eapply traced_kbind; [by apply traced_tell| |done]. intros h2 all [P2 T3]. apply pass_traced; [done|done|eapply told_prefix, T1; by etrans|by eapply told_prefix|done].
Qed.

Lemma teardowns_no_pass res : only no_pass (handleDelete res) /\ only no_pass (handleToggleDiskCancel res).
Proof.
  assert (only no_pass (lookupVolumeNumbers res)) as Hl by (split; [done|]; by intros [|[]]). split.
  - unfold handleDelete. destruct (negb _); [done|]. apply only_then; [done|]. intros vols. apply only_then; [done|]. intros []; [|done]. apply only_bind; [done|]. intros [latest|[]]; [|done..].
    destruct (negb _); [done|]. by apply only_then.
  - unfold handleToggleDiskCancel. apply only_then; [destruct (isToggleDiskInFlight res); [by apply only_then|done]|]. intros []; [|done]. apply only_then; [done|]. intros r.
    case_bool_decide; [done|]. apply only_bind; [unfold patchToggleDiskRetries; case_bool_decide; [done|]; split; [done|]; by intros [|]|]. by intros [? [|]].
Qed.

(** C22: Whatever is answered, a pass over a replica is run on an intent that is built from the answers of
    the same reconcile: the replica, which is on this node, its definition (its volumes and layers), the
    uncached list of its replicas, the nodes, the pools and the effective options. Its flags are those of
    that uncached list when the list has the replica, and under DRBD it is run only when every replica with
    a disk in that list has a node id; never over a replica that is being deleted, and never while the group
    of the definition still has to decide its layers. *)
Theorem passes_run_on_a_fresh_view name : traced (fresh_view name) [] (Reconcile name) (fun _ _ => True).
Proof.
  unfold SatController.Reconcile. eapply traced_bind; [by apply traced_tell|]. intros h [res|[]] [_ Hres]; [|done..].
  case_bool_decide as Hn; [|done]. cbn [negb]. destruct (rc_Deleting _) eqn:Hd; [eapply traced_mono; [done|]; eapply (traced_free _ no_pass); [apply no_pass_free|apply teardowns_no_pass]|].
  destruct (negb _); [eapply traced_kbind; [by apply traced_tell|done|done]|].
  destruct (rp_ToggleDiskCancel res); [eapply traced_mono; [done|]; eapply (traced_free _ no_pass); [apply no_pass_free|apply teardowns_no_pass]|]. by apply runApply_traced.
Qed.


End Reconcile.

(** * Runs of the controller of the replicas of a node

    A witness of the recorded volume numbers, and what the cancellation of a conversion does to a replica
    that has finished it: with the pass that follows, its data are deleted. *)

From Stdlib Require Import Ascii.
From S2P Require Import Prelude Prog ReplicaController Storage GoStrings Api CrdName DrbdStates Kube Dispatcher ResFile Metadata Apply ApplyProps ApplyRequests Observer SatController.

Definition volume_def (n : Z) : ResourceDefinitionVolume := mkResourceDefinitionVolume n 1024 ∅ [] (Some 20000).
Lemma volume_numbers_witness : formatVolumeNumbers [volume_def 0; volume_def 7] = "0,7" /\ parseVolumeNumbers (formatVolumeNumbers [volume_def 0; volume_def 7]) = [0; 7].
Proof. split; [reflexivity|]. apply (volume_numbers_read_back [volume_def 0; volume_def 7]). repeat constructor; vm_compute; done. Defined.

(** ** Cancelling *)

(** A replica with one volume in the pool [thin]. *)
Definition replica_with (flags : list string) (volumes : list ResourceVolumeStatus) (cancel : bool) : replica :=
  mkReplica (mkResourceCR "pvc.n1" false [SatelliteResourceFinalizer] {[ResourceAnnotationVolumeNumbers := "0"]}
    (mkResourceSpec "pvc" "n1" ∅ flags "thin" [] None None (Some true)) (mkResourceStatus false (Some 0) (Some 7000) (Some 20000) volumes []))
    cancel 0 1 true false true.
Definition pvc : definition := mkDefinition (mkResourceDefinitionCR "pvc" ∅ ["DRBD"; "STORAGE"] [volume_def 0] (Some 7000) (Some true) (Some 20000)) "".
Definition up_to_date : list ResourceVolumeStatus := [mkResourceVolumeStatus 0 "UpToDate" "AAAA000000000000"].
(** An API server with this replica only, where every call succeeds. *)
Definition answers (r : replica) (c : scall) : sanswer c :=
  match c with
  | GetReplicaS _ | GetReplicaDirectS _ => Ok r
  | ListReplicasS | ListReplicasDirectS => Ok [r]
  | GetDefinitionS _ => Ok pvc
  | GetGroupStackS _ => Ok []
  | ListNodesS | ListCoreNodesS | ListPoolsS => Ok []
  | EffectivePropsS _ => Ok ∅
  | SecretS => None
  | UpdateReplicaS r' => Ok r'
  | AnnotateVolumesS _ _ => Ok r
  | PatchDevicesS _ _ | PurgeVolumesS _ _ | PatchRetriesS _ _ | ReleaseSkipDiskS _ _ _ => Ok tt
  | WarnS _ _ _ => tt
  | PruneS _ _ _ => None
  | ApplyS dr => Ok [mkApplied (dr_Name dr) true "" []]
  | DeleteResourceS _ _ _ => Ok true
  end.
Definition reconcile (r : replica) : list scall := calls_of (answers r) (Reconcile "n1" true "" (fun _ => None) "pvc.n1").
Definition updated (calls : list scall) : option replica := list_find (fun c => match c with UpdateReplicaS _ => true | _ => false end = true) calls ≫= fun x => match snd x with UpdateReplicaS r => Some r | _ => None end.
Definition passed (calls : list scall) : option DesiredResource := list_find (fun c => match c with ApplyS _ => true | _ => false end = true) calls ≫= fun x => match snd x with ApplyS dr => Some dr | _ => None end.
Definition torn (calls : list scall) : option (string * string * list Z) :=
  list_find (fun c => match c with DeleteResourceS _ _ _ => true | _ => false end = true) calls ≫= fun x => match snd x with DeleteResourceS n p v => Some (n, p, v) | _ => None end.

(** The replica after the request was handled, and the intent of the pass that follows. *)
Definition cancelled : replica := default (replica_with [] [] false) (updated (reconcile (replica_with [] up_to_date true))).
Definition next_intent : DesiredResource := default encrypted (passed (reconcile cancelled)).
Definition next_trace : list DrbdAdm.event := trace_of host (settings true) unreadable ApplyRequests.status_of map_to_list map_to_list next_intent Filled nothing_known.

(** A request to cancel that reaches a replica which has finished its conversion, with all volumes up to date, does not
    leave it as it is: the satellite marks it diskless, and the next pass deletes the storage with the complete copy. When the status shows no
    volumes for the moment, the same request tears the replica down at once. *)
Theorem cancel_deletes_a_complete_copy :
  torn (reconcile (replica_with [] up_to_date true)) = None
  /\ rs_Flags (rc_Spec (rp_cr cancelled)) = ["DISKLESS"] /\ rp_ToggleDiskCancel cancelled = false
  /\ passed (reconcile cancelled) = Some next_intent
  /\ (["DeleteVolume"; "pvc"; "0"], (None, "")) ∈ next_trace
  /\ torn (reconcile (replica_with [] [] true)) = Some ("pvc", "thin", [0]).
Proof. split_and!; try (apply (bool_decide_eq_true_1 _)); vm_compute; reflexivity. Qed.
