(* ===== verification/Devices.v ===== *)
(** * Physical devices

    Models [pkg/satellite/attach.go], [signatures.go], [discovery.go] and the construction of providers in [factory.go], and the
    two controllers over them: [pkg/satellite/controllers/physicaldevice.go], which makes a pool of
    a disk, and [physicaldevice_discovery.go], which publishes the free disks of a node. Commands
    and the API server are calls; an update answers with the object as the server then has it. *)

From Stdlib Require Import Ascii.
From S2P Require Import Prelude Prog GoStrings Api CrdName Storage DrbdText DrbdStatus DrbdAdm Dispatcher Lsblk.

(** ** Objects *)

Record condition := mkCondition { cd_Type : string; cd_Status : bool; cd_Reason : string; cd_Message : string; cd_Since : Z }.
Record deviceStatus := mkDeviceStatus {
  ds_NodeName : string;
  ds_StableID : string;
  ds_DevicePath : string;
  ds_CurrentDevPath : string;
  ds_SizeBytes : Z;
  ds_Model : string;
  ds_Serial : string;
  ds_Rotational : option bool;
  ds_Transport : string;
  ds_Phase : string;
  ds_Conditions : list condition;
}.
Record deviceCR := mkDeviceCR {
  dk_Name : string;
  dk_Node : string;  (* the label blockstor.io/node *)
  dk_Finalizers : list string;
  dk_Deleting : bool;
  dk_AttachTo : option PhysicalDeviceAttachTo;
  dk_Status : deviceStatus;
}.
(** A pool: its node, its name, and the annotation with the devices it took. *)
Record poolCR := mkPoolCR { pk_ObjectName : string; pk_NodeName : string; pk_PoolName : string; pk_AttachedKNames : string }.

Definition PhysicalDevicePhaseAvailable : string := "Available".
Definition PhysicalDevicePhaseAttaching : string := "Attaching".
Definition PhysicalDevicePhaseFailed : string := "Failed".
Definition PhysicalDeviceAttachFinalizer : string := "blockstor.cozystack.io/physicaldevice-attach".
Definition physicalDeviceConditionPoolMissing : string := "PoolMissing".
Definition physicalDeviceConditionDeviceMissing : string := "DeviceMissing".
Definition physicalDeviceDiscoveryConditionFree : string := "Free".
(** Nanoseconds. *)
Definition poolMissingRequeue : Z := 10 * 1000000000.
Definition poolMissingInitialRequeue : Z := 1000000000.
Definition poolMissingTimeout : Z := 600 * 1000000000.

Definition set_finalizers (fs : list string) (d : deviceCR) : deviceCR := mkDeviceCR (dk_Name d) (dk_Node d) fs (dk_Deleting d) (dk_AttachTo d) (dk_Status d).
Definition set_attach (a : option PhysicalDeviceAttachTo) (d : deviceCR) : deviceCR := mkDeviceCR (dk_Name d) (dk_Node d) (dk_Finalizers d) (dk_Deleting d) a (dk_Status d).
Definition set_node (n : string) (d : deviceCR) : deviceCR := mkDeviceCR (dk_Name d) n (dk_Finalizers d) (dk_Deleting d) (dk_AttachTo d) (dk_Status d).
Definition set_status (s : deviceStatus) (d : deviceCR) : deviceCR := mkDeviceCR (dk_Name d) (dk_Node d) (dk_Finalizers d) (dk_Deleting d) (dk_AttachTo d) s.
Definition set_phase (p : string) (s : deviceStatus) : deviceStatus :=
  mkDeviceStatus (ds_NodeName s) (ds_StableID s) (ds_DevicePath s) (ds_CurrentDevPath s) (ds_SizeBytes s) (ds_Model s) (ds_Serial s) (ds_Rotational s) (ds_Transport s) p (ds_Conditions s).
Definition set_conditions (c : list condition) (s : deviceStatus) : deviceStatus :=
  mkDeviceStatus (ds_NodeName s) (ds_StableID s) (ds_DevicePath s) (ds_CurrentDevPath s) (ds_SizeBytes s) (ds_Model s) (ds_Serial s) (ds_Rotational s) (ds_Transport s) (ds_Phase s) c.

(** [meta.FindStatusCondition] and [meta.SetStatusCondition]: the time of a condition whose status does not change stays. *)
Definition find_condition (type : string) (l : list condition) : option condition := snd <$> list_find (fun c => cd_Type c = type) l.
Fixpoint set_condition (c : condition) (l : list condition) : list condition :=
  match l with
  | [] => [c]
  | d :: rest =>
      if bool_decide (cd_Type d = cd_Type c)
      then mkCondition (cd_Type d) (cd_Status c) (cd_Reason c) (cd_Message c) (if bool_decide (cd_Status d = cd_Status c) then cd_Since d else cd_Since c) :: rest
      else d :: set_condition c rest
  end.

(** ** Providers (factory.go) *)

Definition propLvmVG : string := "StorDriver/LvmVg".
Definition propThinPool : string := "StorDriver/ThinPool".
Definition propZPool : string := "StorDriver/ZPool".
Definition propZPoolThin : string := "StorDriver/ZPoolThin".
Definition propFileDir : string := "StorDriver/FileDir".
Definition propStorPoolName : string := "StorDriver/StorPoolName".
Definition or_else (s t : string) : string := if bool_decide (s = "") then t else s.

(** The configuration of a provider; a diskless pool has none. *)
Inductive provider_config := ThickConfig (vg : string) | ThinConfig (vg thin : string) | ZfsConfig (pool : string) (thin : bool) | FileConfig (dir : string) (thin : bool) | NoProvider.
Definition fillLVMThinFromGeneric (vg thinPool generic : string) : string * string :=
  if bool_decide (generic = "") || negb (bool_decide (vg = "")) && negb (bool_decide (thinPool = "")) then (vg, thinPool)
  else match Str.cut "/"%char generic with
       | None => (or_else vg generic, thinPool)
       | Some (genericVG, genericThin) => (or_else vg genericVG, or_else thinPool genericThin)
       end.
Definition newLVMThick (props : gmap string string) : option provider_config :=
  let vg := or_else (get props propLvmVG) (get props propStorPoolName) in
  if bool_decide (vg = "") then None else Some (ThickConfig vg).
Definition newLVMThin (props : gmap string string) : option provider_config :=
  let '(vg, thin) := fillLVMThinFromGeneric (get props propLvmVG) (get props propThinPool) (get props propStorPoolName) in
  if bool_decide (vg = "") || bool_decide (thin = "") then None else Some (ThinConfig vg thin).
Definition newZFS (props : gmap string string) (thin : bool) : option provider_config :=
  let '(primary, secondary) := if thin then (propZPoolThin, propZPool) else (propZPool, propZPoolThin) in
  let pool := or_else (or_else (get props primary) (get props secondary)) (get props propStorPoolName) in
  if bool_decide (pool = "") then None else Some (ZfsConfig pool thin).
Definition newFile (props : gmap string string) (thin : bool) : option provider_config :=
  if bool_decide (get props propFileDir = "") then None else Some (FileConfig (get props propFileDir) thin).
Definition NewProviderFromKind (kind : string) (props : gmap string string) : option provider_config :=
  if bool_decide (kind = ProviderKindLVM) then newLVMThick props
  else if bool_decide (kind = ProviderKindLVMThin) then newLVMThin props
  else if bool_decide (kind = ProviderKindZFS) then newZFS props false
  else if bool_decide (kind = ProviderKindZFSThin) then newZFS props true
  else if bool_decide (kind = ProviderKindFile) then newFile props false
  else if bool_decide (kind = ProviderKindFileThin) then newFile props true
  else if bool_decide (kind = ProviderKindDiskless) then Some NoProvider
  else None.

(** ** Calls *)

Inductive derr := DNotFound | DExists | DFailed.
Inductive dcall :=
| RunD (c : cmd)
| NowD
| GetDeviceD (name : string)
| CreateDeviceD (name node : string)
| UpdateDeviceD (d : deviceCR)
| UpdateStatusD (d : deviceCR)
| DeleteDeviceD (name : string)
(** The devices with the label of a node. *)
| ListDevicesD (node : string)
| ListPoolsD
| UpdatePoolD (p : poolCR)
| RegisterD (pool : string) (config : provider_config).
Definition danswer (c : dcall) : Type :=
  match c with
  | RunD _ => answer
  | NowD => Z
  | GetDeviceD _ | UpdateDeviceD _ | UpdateStatusD _ => result derr deviceCR
  | CreateDeviceD _ _ | DeleteDeviceD _ | UpdatePoolD _ => result derr unit
  | ListDevicesD _ => result derr (list deviceCR)
  | ListPoolsD => result derr (list poolCR)
  | RegisterD _ _ => unit
  end.
Notation dprog := (prog danswer).
Definition issue (c : dcall) : dprog (danswer c) := Do c (fun a => Ret a).
(** A command of which only success counts, and one whose output is read. *)
Definition command_ok (c : cmd) : dprog bool := a ← issue (RunD c); Ret (match fst a with None => true | Some _ => false end).
Definition output_of (c : cmd) : dprog (option string) := a ← issue (RunD c); Ret (match a with (None, out) => Some out | (Some _, _) => None end).

(** ** Making a pool of a device (attach.go) *)

Record AttachResult := mkAttachResult { at_PoolName : string; at_ProviderKind : string; at_Props : gmap string string }.
Inductive attach_err := NoRequest | NoDevicePath | Unsupported (kind : string) | MissingName | CommandFailed (what : string).

Definition deviceLeaf (path : string) : string := List.last (split_char "/"%char path) "".
Definition attachDevicePath (dev : PhysicalDevice) : string := or_else (pd_DevicePath dev) (pd_CurrentDevPath dev).

Definition zpool_list (pool : string) : cmd := ["zpool"; "list"; "-H"; "-o"; "name"; pool].
Definition zpoolExists (pool : string) : dprog bool :=
  if bool_decide (pool = "") then Ret false else out ← output_of (zpool_list pool); Ret (match out with Some out => contains pool out | None => false end).
Definition zpool_status (pool : string) : cmd := ["zpool"; "status"; "-P"; pool].
Definition same_device (devicePath token : string) : bool :=
  bool_decide (token = devicePath) || negb (bool_decide (deviceLeaf devicePath = "")) && bool_decide (deviceLeaf token = deviceLeaf devicePath).
Definition vdevInZpool (pool devicePath : string) : dprog bool :=
  if bool_decide (pool = "") || bool_decide (devicePath = "") then Ret false
  else out ← output_of (zpool_status pool); Ret (match out with Some out => existsb (same_device devicePath) (fields out) | None => false end).
Definition vgs_cmd (vg : string) : cmd := "vgs" :: Lvm.Args ["--noheadings"; "-o"; "vg_name"; vg].
Definition vgExists (vg : string) : dprog bool :=
  if bool_decide (vg = "") then Ret false else out ← output_of (vgs_cmd vg); Ret (match out with Some out => contains vg out | None => false end).
Definition pvs_cmd : cmd := "pvs" :: Lvm.Args ["--noheadings"; "-o"; "pv_name,vg_name"].
Definition pv_row (vg devicePath line : string) : bool :=
  match fields line with pv :: v :: _ => bool_decide (v = vg) && same_device devicePath pv | _ => false end.
Definition pvInVG (vg devicePath : string) : dprog bool :=
  if bool_decide (vg = "") || bool_decide (devicePath = "") then Ret false
  else out ← output_of pvs_cmd; Ret (match out with Some out => existsb (pv_row vg devicePath) (split_char "010"%char out) | None => false end).

Definition wipeZeroSpanMiB : Z := 32.
Definition wipeMinDeviceSizeForEndZeroMiB : Z := 2 * wipeZeroSpanMiB.
Definition mibBytes : Z := 1024 * 1024.
Definition getsize_cmd (devicePath : string) : cmd := ["blockdev"; "--getsize64"; devicePath].
Definition readDeviceSizeMiB (devicePath : string) : dprog (option Z) :=
  out ← output_of (getsize_cmd devicePath);
  Ret (match out with Some out => (fun n => n `quot` mibBytes) <$> parse_int 64 (Str.trim_space out) | None => None end).
Definition wipefs_cmd (devicePath : string) : cmd := ["wipefs"; "--all"; "--force"; devicePath].
Definition zero_start (devicePath : string) : cmd :=
  ["dd"; "if=/dev/zero"; "of=" +:+ devicePath; "bs=1M"; "count=" +:+ format_int wipeZeroSpanMiB; "conv=fsync,notrunc"; "status=none"].
Definition zero_end (devicePath : string) (seekMiB : Z) : cmd :=
  ["dd"; "if=/dev/zero"; "of=" +:+ devicePath; "bs=1M"; "seek=" +:+ format_int seekMiB; "count=" +:+ format_int wipeZeroSpanMiB; "conv=fsync,notrunc"; "status=none"].
Definition wipeDevice (devicePath : string) : dprog (result attach_err unit) :=
  _ ← command_ok (wipefs_cmd devicePath);
  started ← command_ok (zero_start devicePath);
  if negb started then Ret (Err (CommandFailed "zero start"))
  else
    size ← readDeviceSizeMiB devicePath;
    ended ← (match size with
             | Some sizeMiB => if bool_decide (wipeMinDeviceSizeForEndZeroMiB < sizeMiB) then command_ok (zero_end devicePath (sizeMiB - wipeZeroSpanMiB)) else Ret true
             | None => Ret true
             end);
    if negb ended then Ret (Err (CommandFailed "zero end"))
    else
      _ ← command_ok ["blockdev"; "--rereadpt"; devicePath];
      _ ← command_ok ["partprobe"; devicePath];
      Ret (Ok tt).

Definition lvmThickResult (a : PhysicalDeviceAttachTo) : AttachResult := mkAttachResult (pa_StoragePoolName a) ProviderKindLVM {[propLvmVG := pa_VGName a]}.
Definition lvmThinResult (a : PhysicalDeviceAttachTo) : AttachResult :=
  mkAttachResult (pa_StoragePoolName a) ProviderKindLVMThin {[propLvmVG := pa_VGName a; propThinPool := pa_ThinPoolName a]}.
Definition zfsResult (a : PhysicalDeviceAttachTo) : AttachResult := mkAttachResult (pa_StoragePoolName a) (pa_ProviderKind a) {[propZPool := pa_ZPoolName a]}.

(** One command after the other, up to the first that fails. *)
Fixpoint all_commands (cs : list (string * cmd)) : dprog (result attach_err unit) :=
  match cs with
  | [] => Ret (Ok tt)
  | (what, c) :: rest => done ← command_ok c; if negb done then Ret (Err (CommandFailed what)) else all_commands rest
  end.
Definition pvcreate_cmd (devicePath : string) : cmd := "pvcreate" :: Lvm.Args ["--force"; "--yes"; devicePath].
Definition vgcreate_cmd (vg devicePath : string) : cmd := "vgcreate" :: Lvm.Args ["--force"; "--yes"; vg; devicePath].
Definition vgextend_cmd (vg devicePath : string) : cmd := "vgextend" :: Lvm.Args ["--force"; "--yes"; vg; devicePath].
Definition lvcreate_cmd (vg thin : string) : cmd := "lvcreate" :: Lvm.Args ["--type"; "thin-pool"; "--extents"; "100%FREE"; "--name"; thin; vg].
Definition zpool_create (pool devicePath : string) : cmd := ["zpool"; "create"; "-f"; "-m"; "none"; "-O"; "compression=off"; "-O"; "atime=off"; pool; devicePath].
Definition zpool_add (pool devicePath : string) : cmd := ["zpool"; "add"; "-f"; pool; devicePath].

Definition attachLVMThick (a : PhysicalDeviceAttachTo) (devicePath : string) : dprog (result attach_err AttachResult) :=
  if bool_decide (pa_VGName a = "") then Ret (Err MissingName)
  else _ ←! all_commands [("pvcreate", pvcreate_cmd devicePath); ("vgcreate", vgcreate_cmd (pa_VGName a) devicePath)]; Ret (Ok (lvmThickResult a)).
Definition attachLVMThin (a : PhysicalDeviceAttachTo) (devicePath : string) : dprog (result attach_err AttachResult) :=
  if bool_decide (pa_VGName a = "") || bool_decide (pa_ThinPoolName a = "") then Ret (Err MissingName)
  else
    _ ←! all_commands [("pvcreate", pvcreate_cmd devicePath); ("vgcreate", vgcreate_cmd (pa_VGName a) devicePath); ("lvcreate", lvcreate_cmd (pa_VGName a) (pa_ThinPoolName a))];
    Ret (Ok (lvmThinResult a)).
Definition attachZFS (a : PhysicalDeviceAttachTo) (devicePath : string) : dprog (result attach_err AttachResult) :=
  if bool_decide (pa_ZPoolName a = "") then Ret (Err MissingName)
  else _ ←! all_commands [("zpool create", zpool_create (pa_ZPoolName a) devicePath)]; Ret (Ok (zfsResult a)).
Definition extendVG (vg devicePath : string) : dprog (result attach_err unit) :=
  all_commands [("pvcreate", pvcreate_cmd devicePath); ("vgextend", vgextend_cmd vg devicePath)].
Definition extendLVMThick (a : PhysicalDeviceAttachTo) (devicePath : string) : dprog (result attach_err AttachResult) :=
  if bool_decide (pa_VGName a = "") then Ret (Err MissingName) else _ ←! extendVG (pa_VGName a) devicePath; Ret (Ok (lvmThickResult a)).
Definition extendLVMThin (a : PhysicalDeviceAttachTo) (devicePath : string) : dprog (result attach_err AttachResult) :=
  if bool_decide (pa_VGName a = "") || bool_decide (pa_ThinPoolName a = "") then Ret (Err MissingName)
  else _ ←! extendVG (pa_VGName a) devicePath; Ret (Ok (lvmThinResult a)).
Definition extendZFS (a : PhysicalDeviceAttachTo) (devicePath : string) : dprog (result attach_err AttachResult) :=
  if bool_decide (pa_ZPoolName a = "") then Ret (Err MissingName)
  else _ ←! all_commands [("zpool add", zpool_add (pa_ZPoolName a) devicePath)]; Ret (Ok (zfsResult a)).
Definition attachFile (a : PhysicalDeviceAttachTo) : result attach_err AttachResult :=
  if bool_decide (pa_Directory a = "") then Err MissingName else Ok (mkAttachResult (pa_StoragePoolName a) (pa_ProviderKind a) {[propFileDir := pa_Directory a]}).

(** Create, extend, or nothing when the device is a member already. *)
Definition create_or_extend (exists_ : dprog bool) (member : dprog bool) (done : AttachResult) (extend create : dprog (result attach_err AttachResult)) : dprog (result attach_err AttachResult) :=
  there ← exists_;
  if negb there then create else is_member ← member; if is_member : bool then Ret (Ok done) else extend.
Definition attachOrExtend (a : PhysicalDeviceAttachTo) (devicePath : string) : dprog (result attach_err AttachResult) :=
  let kind := pa_ProviderKind a in
  if bool_decide (kind = ProviderKindLVM) then
    create_or_extend (vgExists (pa_VGName a)) (pvInVG (pa_VGName a) devicePath) (lvmThickResult a) (extendLVMThick a devicePath) (attachLVMThick a devicePath)
  else if bool_decide (kind = ProviderKindLVMThin) then
    create_or_extend (vgExists (pa_VGName a)) (pvInVG (pa_VGName a) devicePath) (lvmThinResult a) (extendLVMThin a devicePath) (attachLVMThin a devicePath)
  else if bool_decide (kind ∈ [ProviderKindZFS; ProviderKindZFSThin]) then
    create_or_extend (zpoolExists (pa_ZPoolName a)) (vdevInZpool (pa_ZPoolName a) devicePath) (zfsResult a) (extendZFS a devicePath) (attachZFS a devicePath)
  else Ret (Err (Unsupported kind)).
Definition is_file_kind (kind : string) : bool := bool_decide (kind ∈ [ProviderKindFile; ProviderKindFileThin]).
Definition Attach (dev : PhysicalDevice) : dprog (result attach_err AttachResult) :=
  match pd_AttachTo dev with
  | None => Ret (Err NoRequest)
  | Some a =>
      if is_file_kind (pa_ProviderKind a) then Ret (attachFile a)
      else
        let devicePath := attachDevicePath dev in
        if bool_decide (devicePath = "") then Ret (Err NoDevicePath)
        else
          _ ←! (if pa_Wipe a then wipeDevice devicePath else done_with tt);
          attachOrExtend a devicePath
  end.

(** ** The controller of attach requests (physicaldevice.go) *)

Inductive drequeue := Finished | Later (ns : Z).

Definition crdPhysicalDeviceToWire (d : deviceCR) : PhysicalDevice :=
  let s := dk_Status d in
  mkPhysicalDevice (dk_Name d) (or_else (ds_NodeName s) (dk_Node d)) (ds_StableID s) (ds_DevicePath s) (ds_CurrentDevPath s) (ds_SizeBytes s) (ds_Model s) (ds_Serial s)
    (ds_Rotational s) (ds_Transport s) (ds_Phase s) (dk_AttachTo d) None "" "".

Definition without_attach_finalizer (d : deviceCR) : deviceCR := set_finalizers (filter (fun f => f <> PhysicalDeviceAttachFinalizer) (dk_Finalizers d)) d.

(** The first path under [/dev/] names the device. *)
Definition kname_of (path : string) : string := if Str.has_prefix "/dev/" path then String.substring 5 (String.length path - 5) path else "".
Definition extractKName (d : deviceCR) : string := or_else (kname_of (ds_DevicePath (dk_Status d))) (kname_of (ds_CurrentDevPath (dk_Status d))).
Definition knameInList (list kname : string) : bool :=
  if bool_decide (list = "") then false else existsb (fun item => bool_decide (Str.trim_space item = kname)) (split_char ","%char list).

Definition deviceMissing (d : deviceCR) (a : PhysicalDeviceAttachTo) : bool :=
  if is_file_kind (pa_ProviderKind a) then false
  else bool_decide (ds_DevicePath (dk_Status d) = "") && bool_decide (ds_CurrentDevPath (dk_Status d) = "").

(** The loop doubles until the elapsed time or the limit is reached; [fuel] bounds the doublings. *)
Fixpoint backoff_loop (fuel : nat) (step requeue elapsed : Z) : Z :=
  match fuel with
  | O => requeue
  | S fuel => if bool_decide (step <= elapsed) && bool_decide (requeue < poolMissingRequeue) then backoff_loop fuel (step + poolMissingInitialRequeue) (requeue * 2) elapsed else requeue
  end.
Definition poolMissingBackoff (elapsed : option Z) : Z :=
  match elapsed with
  | None => poolMissingInitialRequeue
  | Some elapsed => let r := backoff_loop 5 poolMissingInitialRequeue poolMissingInitialRequeue elapsed in if bool_decide (poolMissingRequeue < r) then poolMissingRequeue else r
  end.

Section Controller.
Context (NodeName : string).

Definition is_target (poolName : string) (p : poolCR) : bool := bool_decide (pk_PoolName p = poolName) && bool_decide (pk_NodeName p = NodeName).
Definition targetPoolExists (poolName : string) : dprog (result derr bool) :=
  if bool_decide (poolName = "") then Ret (Ok true)
  else pools ←! issue ListPoolsD; Ret (Ok (existsb (is_target poolName) pools)).

Definition setPhase (d : deviceCR) (phase : string) : dprog (result derr deviceCR) :=
  if bool_decide (ds_Phase (dk_Status d) = phase) then Ret (Ok d) else issue (UpdateStatusD (set_status (set_phase phase (dk_Status d)) d)).

Definition stripAttachFinalizer (d : deviceCR) : dprog (result derr drequeue) :=
  if negb (Contains (dk_Finalizers d) PhysicalDeviceAttachFinalizer) then Ret (Ok Finished)
  else _ ←! issue (UpdateDeviceD (without_attach_finalizer d)); Ret (Ok Finished).

Definition handleDeviceMissing (d : deviceCR) : dprog (result derr drequeue) :=
  now ← issue NowD;
  let c := mkCondition physicalDeviceConditionDeviceMissing true "DiscoveryDevicePathEmpty"
    "PhysicalDevice has no Status.DevicePath/CurrentDevPath; device was removed between discovery and attach" now in
  let s := set_phase PhysicalDevicePhaseFailed (set_conditions (set_condition c (ds_Conditions (dk_Status d))) (dk_Status d)) in
  _ ←! issue (UpdateStatusD (set_status s d)); Ret (Ok Finished).

Definition clearStaleAttachTo (d : deviceCR) : dprog (result derr drequeue) :=
  d ←! issue (UpdateDeviceD (without_attach_finalizer (set_attach None d)));
  let conditions := filter (fun c => cd_Type c <> physicalDeviceConditionPoolMissing) (ds_Conditions (dk_Status d)) in
  _ ←! issue (UpdateStatusD (set_status (set_phase PhysicalDevicePhaseAvailable (set_conditions conditions (dk_Status d))) d));
  Ret (Ok Finished).

Definition handlePoolMissing (d : deviceCR) : dprog (result derr drequeue) :=
  match find_condition physicalDeviceConditionPoolMissing (ds_Conditions (dk_Status d)) with
  | Some cond =>
      now ← issue NowD;
      if bool_decide (poolMissingTimeout < now - cd_Since cond) then _ ← setPhase d PhysicalDevicePhaseFailed; Ret (Ok Finished)
      else now ← issue NowD; Ret (Ok (Later (poolMissingBackoff (Some (now - cd_Since cond)))))
  | None =>
      now ← issue NowD;
      let c := mkCondition physicalDeviceConditionPoolMissing true "TargetStoragePoolNotFound"
        "Spec.AttachTo.StoragePoolName references a StoragePool that doesn't exist on this node yet" now in
      d ←! issue (UpdateStatusD (set_status (set_conditions (set_condition c (ds_Conditions (dk_Status d))) (dk_Status d)) d));
      match find_condition physicalDeviceConditionPoolMissing (ds_Conditions (dk_Status d)) with
      | None => Ret (Ok (Later (poolMissingBackoff None)))
      | Some cond => now ← issue NowD; Ret (Ok (Later (poolMissingBackoff (Some (now - cd_Since cond)))))
      end
  end.

Definition recordAttachedKName (d : deviceCR) (poolName : string) : dprog (result derr unit) :=
  let kname := extractKName d in
  if bool_decide (kname = "") then Ret (Ok tt)
  else
    pools ←! issue ListPoolsD;
    match list_find (fun p => is_target poolName p = true) pools with
    | None => Ret (Err DFailed)
    | Some (_, p) =>
        let existing := pk_AttachedKNames p in
        if knameInList existing kname then Ret (Ok tt)
        else issue (UpdatePoolD (mkPoolCR (pk_ObjectName p) (pk_NodeName p) (pk_PoolName p) (if bool_decide (existing = "") then kname else existing +:+ "," +:+ kname)))
    end.

Definition second : Z := 1000000000.
Definition runAttach (d : deviceCR) : dprog (result derr drequeue) :=
  attached ← Attach (crdPhysicalDeviceToWire d);
  match attached with
  | Err _ => _ ← setPhase d PhysicalDevicePhaseFailed; Ret (Ok (Later second))
  | Ok result =>
      match NewProviderFromKind (at_ProviderKind result) (at_Props result) with
      | None => _ ← setPhase d PhysicalDevicePhaseFailed; Ret (Ok (Later second))
      | Some config =>
          _ ← issue (RegisterD (at_PoolName result) config);
          _ ← recordAttachedKName d (at_PoolName result);
          d ←! issue (UpdateDeviceD (without_attach_finalizer d));
          deleted ← issue (DeleteDeviceD (dk_Name d));
          match deleted with Ok _ | Err DNotFound => Ret (Ok Finished) | Err e => Ret (Err e) end
      end
  end.

Definition ReconcileDevice (name : string) : dprog (result derr drequeue) :=
  got ← issue (GetDeviceD name);
  match got with
  | Err DNotFound => Ret (Ok Finished)
  | Err e => Ret (Err e)
  | Ok d =>
      if negb (bool_decide (dk_Node d = NodeName)) then Ret (Ok Finished)
      else
        match dk_AttachTo d with
        | None => stripAttachFinalizer d
        | Some a =>
            if dk_Deleting d then stripAttachFinalizer d
            else if negb (Contains (dk_Finalizers d) PhysicalDeviceAttachFinalizer) then
              _ ←! issue (UpdateDeviceD (set_finalizers (dk_Finalizers d ++ [PhysicalDeviceAttachFinalizer]) d)); Ret (Ok (Later second))
            else if deviceMissing d a then handleDeviceMissing d
            else
              ready ←! targetPoolExists (pa_StoragePoolName a);
              if negb ready then (if bool_decide (ds_Phase (dk_Status d) = PhysicalDevicePhaseAttaching) then clearStaleAttachTo d else handlePoolMissing d)
              else d ←! setPhase d PhysicalDevicePhaseAttaching; runAttach d
        end
  end.

(** ** Signatures (signatures.go) *)

Definition HasLVMSignature (devicePath : string) : dprog (option bool) :=
  out ← output_of ("pvs" :: Lvm.Args ["--noheadings"; "-o"; "pv_name"]);
  Ret (option_map (fun out => existsb (fun line => bool_decide (Str.trim_space line = devicePath)) (split_char "010"%char out)) out).
Definition HasZFSSignature (devicePath : string) : dprog (option bool) :=
  out ← output_of ["zpool"; "list"; "-PHv"];
  Ret (Some (match out with Some out => existsb (contains devicePath) (split_char "010"%char out) | None => false end)).
Definition HasDRBDSignature (devicePath : string) : dprog (option bool) :=
  out ← output_of ["drbdmeta"; "0"; "v09"; devicePath; "internal"; "dump-md"];
  Ret (Some (match out with Some _ => true | None => false end)).
Definition HasOtherSignature (devicePath : string) : dprog (option bool) :=
  out ← output_of ["wipefs"; "-n"; devicePath];
  Ret (option_map (fun out => negb (bool_decide (Str.trim_space out = ""))) out).
(** [None] is an error. *)
Fixpoint no_signature (checks : list (string -> dprog (option bool))) (devicePath : string) : dprog (option bool) :=
  match checks with
  | [] => Ret (Some true)
  | check :: rest =>
      has ← check devicePath;
      match has with None => Ret None | Some true => Ret (Some false) | Some false => no_signature rest devicePath end
  end.
Definition IsDeviceFree (dev : LsblkDevice) : dprog (option bool) :=
  if negb (IsFreeBlockDevice dev) then Ret (Some false)
  else no_signature [HasLVMSignature; HasZFSSignature; HasDRBDSignature; HasOtherSignature] ("/dev/" +:+ ld_KName dev).

(** ** Stable names (discovery.go) *)

Definition slug_char (c : ascii) : string :=
  let n := Z.of_N (Ascii.N_of_ascii c) in
  if ((65 <=? n) && (n <=? 90)) || ((97 <=? n) && (n <=? 122)) || ((48 <=? n) && (n <=? 57)) || (n =? 95) || (n =? 45) then String c ""
  else if n =? 32 then "_" else "".
Definition slugifyForLSStableID (s : string) : string := foldr (fun c acc => slug_char c +:+ acc) "" (String.list_ascii_of_string (Str.trim_space s)).
Definition scsiSATASerial (dev : LsblkDevice) : string :=
  if bool_decide (ld_Model dev = "") || bool_decide (ld_Serial dev = "") then ""
  else "scsi-SATA_" +:+ slugifyForLSStableID (ld_Model dev) +:+ "_" +:+ slugifyForLSStableID (ld_Serial dev).
Definition PickStableID (dev : LsblkDevice) : string :=
  if negb (bool_decide (ld_WWN dev = "")) then "wwn-" +:+ ld_WWN dev
  else
    let sata := if Str.has_prefix "sata" (ld_Transport dev) || Str.has_prefix "sas" (ld_Transport dev) then scsiSATASerial dev else "" in
    if negb (bool_decide (sata = "")) then sata
    else if bool_decide (ld_Transport dev = "nvme") && negb (bool_decide (ld_Model dev = "")) && negb (bool_decide (ld_Serial dev = ""))
    then "nvme-" +:+ slugifyForLSStableID (ld_Model dev) +:+ "_" +:+ slugifyForLSStableID (ld_Serial dev)
    else ld_KName dev.

(** ** The discovery of free devices (physicaldevice_discovery.go) *)

(** [^zd\d+$] *)
Definition isZVOLKName (kname : string) : bool :=
  match kname with String "z" (String "d" rest) => negb (bool_decide (rest = "")) && StrFacts.all_chars Str.is_digit rest | _ => false end.
Definition formatChildInUseMessage (parent : string) (child : LsblkDevice) : string :=
  let what := if negb (bool_decide (ld_Mountpoint child = "")) then "mounted at " +:+ ld_Mountpoint child
              else if negb (bool_decide (ld_FSType child = "")) then "carries signature " +:+ ld_FSType child else "in use" in
  "parent disk /dev/" +:+ parent +:+ " has busy child /dev/" +:+ ld_KName child +:+ " (" +:+ what +:+ ")".
Definition collectBusyChildren (rows : list LsblkDevice) : gmap string LsblkDevice :=
  foldl (fun m child =>
    if bool_decide (ld_PKName child = "") then m
    else if bool_decide (ld_Mountpoint child = "") && bool_decide (ld_FSType child = "") then m
    else match m !! ld_PKName child with Some _ => m | None => <[ld_PKName child := child]> m end) ∅ rows.
(** Whether it is free, reason and message; [None] is a failed probe. *)
Definition probeFree (row : LsblkDevice) (busyChild : option LsblkDevice) : dprog (option (bool * string * string)) :=
  free ← IsDeviceFree row;
  Ret match free with
      | None => None
      | Some false => Some (false, "SignatureFound", "lsblk / pvs / zpool / drbdmeta / wipefs detected an on-disk signature")
      | Some true =>
          match busyChild with
          | Some child => Some (false, "ChildInUse", formatChildInUseMessage (ld_KName row) child)
          | None => Some (true, "FreeBlockDevice", "device passed lsblk + signature probes")
          end
      end.
Definition buildDiscoveryStatus (stableID devicePath : string) (row : LsblkDevice) (free : bool) (reason message : string) (now : Z) : deviceStatus :=
  mkDeviceStatus NodeName stableID devicePath devicePath (ld_SizeBytes row) (ld_Model row) (ld_Serial row) (Some (ld_Rotational row)) (ld_Transport row)
    PhysicalDevicePhaseAvailable [mkCondition physicalDeviceDiscoveryConditionFree free reason message now].
Definition is_lifecycle (c : condition) : bool := bool_decide (cd_Type c ∈ [physicalDeviceConditionPoolMissing; physicalDeviceConditionDeviceMissing]).
Definition preserveAttachLifecycle (existing : deviceCR) (desired : deviceStatus) : deviceStatus :=
  match dk_AttachTo existing with
  | None => desired
  | Some _ =>
      let phase := ds_Phase (dk_Status existing) in
      let desired := if bool_decide (phase = "") || bool_decide (phase = PhysicalDevicePhaseAvailable) then desired else set_phase phase desired in
      foldl (fun d c => if is_lifecycle c then set_conditions (c :: ds_Conditions d) d else d) desired (ds_Conditions (dk_Status existing))
  end.
Definition upsertDeviceCRD (name : string) : dprog (option deviceCR) :=
  got ← issue (GetDeviceD name);
  existing ← (match got with
              | Ok d => Ret (Some d)
              | Err DNotFound =>
                  made ← issue (CreateDeviceD name NodeName);
                  match made with
                  | Ok _ | Err DExists => again ← issue (GetDeviceD name); Ret (match again with Ok d => Some d | Err _ => None end)
                  | Err _ => Ret None
                  end
              | Err _ => Ret None
              end);
  match existing with
  | None => Ret None
  | Some d =>
      if bool_decide (dk_Node d = NodeName) then Ret (Some d)
      else r ← issue (UpdateDeviceD (set_node NodeName d)); Ret (match r with Ok d => Some d | Err _ => None end)
  end.
(** The name of the object when it was published. *)
Definition publishDeviceWithReason (row : LsblkDevice) (free : bool) (reason message : string) : dprog (option string) :=
  if isZVOLKName (ld_KName row) then Ret None
  else
    let stableID := PickStableID row in
    if bool_decide (stableID = "") then Ret None
    else
      let name := Name (NodeName +:+ "." +:+ stableID) in
      now ← issue NowD;
      let desired := buildDiscoveryStatus stableID ("/dev/" +:+ ld_KName row) row free reason message now in
      existing ← upsertDeviceCRD name;
      match existing with
      | None => Ret None
      | Some d => r ← issue (UpdateStatusD (set_status (preserveAttachLifecycle d desired) d)); Ret (match r with Ok _ => Some name | Err _ => None end)
      end.
Definition knames_of (p : poolCR) : gset string :=
  if negb (bool_decide (pk_NodeName p = NodeName)) then ∅
  else list_to_set (filter (fun k => k <> "") (map Str.trim_space (split_char ","%char (pk_AttachedKNames p)))).
Definition attachedKNamesForNode : dprog (result derr (gset string)) := pools ←! issue ListPoolsD; Ret (Ok (⋃ (map knames_of pools))).
(** The objects are taken in the order of their names. *)
Definition device_le (d e : deviceCR) : Prop := String.leb (dk_Name d) (dk_Name e) = true.
#[export] Instance device_le_dec : RelDecision device_le.
Proof. intros d e. unfold device_le. apply _. Defined.
Fixpoint prune_each (devices : list deviceCR) (discovered : gset string) : dprog unit :=
  match devices with
  | [] => Ret tt
  | d :: rest =>
      if bool_decide (dk_Name d ∈ discovered) then prune_each rest discovered
      else match dk_AttachTo d with Some _ => prune_each rest discovered | None => _ ← issue (DeleteDeviceD (dk_Name d)); prune_each rest discovered end
  end.
Definition pruneDisappeared (discovered : gset string) : dprog unit :=
  existing ← issue (ListDevicesD NodeName);
  match existing with Err _ => Ret tt | Ok devices => prune_each (merge_sort device_le devices) discovered end.
Fixpoint scan_rows (rows : list LsblkDevice) (busy : gmap string LsblkDevice) (attached discovered : gset string) : dprog (gset string) :=
  match rows with
  | [] => Ret discovered
  | row :: rest =>
      if negb (bool_decide (ld_Type row = LsblkTypeDisk)) || bool_decide (ld_Major row = MajorDRBD) || bool_decide (ld_KName row ∈ attached) then scan_rows rest busy attached discovered
      else
        probed ← probeFree row (busy !! ld_KName row);
        match probed with
        | None => scan_rows rest busy attached discovered
        | Some (free, reason, message) =>
            name ← publishDeviceWithReason row free reason message;
            scan_rows rest busy attached (match name with Some name => {[name]} ∪ discovered | None => discovered end)
        end
  end.
(** Whether the scan was made. *)
Definition scanOnce : dprog bool :=
  out ← output_of ["lsblk"; "-Pb"; "-o"; lsblk_columns];
  match out with
  | None => Ret false
  | Some out =>
      let rows := parseLsblkPairs out in
      attached ← attachedKNamesForNode;
      discovered ← scan_rows rows (collectBusyChildren rows) (match attached with Ok s => s | Err _ => ∅ end) ∅;
      _ ← pruneDisappeared discovered;
      Ret true
  end.

End Controller.
