(* ===== verification/DevicesProps.v ===== *)
(** * What holds of physical devices

    Commands touch only a device that was asked for, its object goes when the pool has it, the discovery
    leaves requests alone and only looks, and the wait for a pool is bounded. *)

From Stdlib Require Import Ascii.
From S2P Require Import Prelude Prog GoStrings Api CrdName Storage DrbdText DrbdStatus DrbdAdm Dispatcher Lsblk Devices.

Lemma traced_weaken {call} {answer : call -> Type} {A} (P P' : list (fact answer) -> call -> Prop) (m : prog answer A) Q h :
  (forall h c, P h c -> P' h c) -> traced P h m Q -> traced P' h m Q.
Proof. intros HP. revert h. induction m as [a|c k IH]; cbn; [done|]. intros h [Hc Hk]. split; [by apply HP|]. intros a. by apply IH. Qed.

#[local] Notation history := (list (fact danswer)).
Implicit Types h : history.
Lemma traced_issue (P : history -> dcall -> Prop) c h : P h c -> traced P h (issue c) (fun h' a => h `prefix_of` h' /\ told h' c a).
Proof. apply (traced_call (answer := danswer)). Qed.

(** ** Commands *)

Definition wipes (path : string) (c : cmd) : Prop :=
  c = wipefs_cmd path \/ c = zero_start path \/ (exists seek, c = zero_end path seek) \/ c = ["blockdev"; "--rereadpt"; path] \/ c = ["partprobe"; path].
Definition makes (a : PhysicalDeviceAttachTo) (path : string) (c : cmd) : Prop :=
  c ∈ [pvcreate_cmd path; vgcreate_cmd (pa_VGName a) path; vgextend_cmd (pa_VGName a) path; lvcreate_cmd (pa_VGName a) (pa_ThinPoolName a);
       zpool_create (pa_ZPoolName a) path; zpool_add (pa_ZPoolName a) path].
Definition asks (a : PhysicalDeviceAttachTo) (path : string) (c : cmd) : Prop :=
  c ∈ [vgs_cmd (pa_VGName a); pvs_cmd; zpool_list (pa_ZPoolName a); zpool_status (pa_ZPoolName a); getsize_cmd path].
(** A command that puts the device into the pool succeeded, or the tools list it there. *)
Definition joined h (a : PhysicalDeviceAttachTo) (path : string) : Prop :=
  (exists c out, told h (RunD c) (None, out) /\ c ∈ [vgcreate_cmd (pa_VGName a) path; vgextend_cmd (pa_VGName a) path; zpool_create (pa_ZPoolName a) path; zpool_add (pa_ZPoolName a) path]) \/
  (exists out, told h (RunD pvs_cmd) (None, out) /\ existsb (pv_row (pa_VGName a) path) (split_char "010"%char out) = true) \/
  (exists out, told h (RunD (zpool_status (pa_ZPoolName a))) (None, out) /\ existsb (same_device path) (fields out) = true).
Lemma joined_prefix h h' a path : h `prefix_of` h' -> joined h a path -> joined h' a path.
Proof.
  intros Hp [(c & out & H & Hc)|[(out & H & Hc)|(out & H & Hc)]]; [left; exists c, out|right; left; exists out|right; right; exists out]; split; try done; by eapply told_prefix.
Qed.

Section Attaching.
Context (P : history -> dcall -> Prop).
Lemma command_traced h c : P h (RunD c) -> traced P h (command_ok c) (fun h' ok => h `prefix_of` h' /\ (ok = true -> exists out, told h' (RunD c) (None, out))).
Proof.
  intros Hc. eapply traced_bind; [by apply traced_issue|]. intros h1 [err out] [Hp Ht]. cbn [traced fst]. split; [done|]. destruct err; [done|]. intros _. by exists out.
Qed.
Lemma output_traced h c : P h (RunD c) -> traced P h (output_of c) (fun h' r => h `prefix_of` h' /\ match r with Some out => told h' (RunD c) (None, out) | None => True end).
Proof. intros Hc. eapply traced_bind; [by apply traced_issue|]. intros h1 [[err|] out] [Hp Ht]; by cbn. Qed.
Lemma commands_traced cs h : (forall h' what c, h `prefix_of` h' -> (what, c) ∈ cs -> P h' (RunD c)) ->
  traced P h (all_commands cs) (fun h' r => h `prefix_of` h' /\ match r with Ok _ => forall what c, (what, c) ∈ cs -> exists out, told h' (RunD c) (None, out) | Err _ => True end).
Proof.
  revert h. induction cs as [|[what c] cs IH]; intros h Hcs; [cbn; split; [done|]; by intros ? ? ?%not_elem_of_nil|]. cbn [all_commands].
  eapply traced_bind; [apply command_traced, (Hcs h what); [done|by left]|]. intros h1 [] [Hp Hok]; cbn [negb]; [|by cbn].
  eapply traced_mono; [|apply IH; intros h' w c' Hp' Hin; apply (Hcs h' w); [by etrans|by right]]. intros h2 [[]|e] [Hp2 H2]; (split; [by etrans|]); [|done].
  intros w c' [[= -> ->]|Hin]%elem_of_cons; [|by eapply H2]. destruct (Hok eq_refl) as [out Ho]. exists out. by eapply told_prefix.
Qed.

Context (a : PhysicalDeviceAttachTo) (path : string) (h0 : history).
Context (Hask : forall h c, h0 `prefix_of` h -> asks a path c -> P h (RunD c)) (Hmake : forall h c, h0 `prefix_of` h -> makes a path c -> P h (RunD c))
  (Hwipe : forall h c, h0 `prefix_of` h -> pa_Wipe a = true -> wipes path c -> P h (RunD c)).
Definition made_pool h (r : result attach_err AttachResult) : Prop := h0 `prefix_of` h /\ match r with Ok _ => joined h a path | Err _ => True end.

Lemma making_traced cs res c h : h0 `prefix_of` h -> (forall what c, (what, c) ∈ cs -> makes a path c) -> c ∈ cs.*2 ->
  c ∈ [vgcreate_cmd (pa_VGName a) path; vgextend_cmd (pa_VGName a) path; zpool_create (pa_ZPoolName a) path; zpool_add (pa_ZPoolName a) path] ->
  traced P h (_ ←! all_commands cs; Ret (Ok res)) made_pool.
Proof using Hmake.
  intros Hp Hcs Hin Hc. eapply traced_kbind; [apply commands_traced; intros h' w c' Hp' H; apply Hmake; [by etrans|by eapply Hcs]| |].
  - intros h1 [] [Hp1 Ho]. split; [by etrans|]. left. apply list_elem_of_fmap in Hin as ([w c'] & -> & Hin). destruct (Ho _ _ Hin) as [out Ht]. by exists c', out.
  - intros h1 e [Hp1 _]. split; [by etrans|done].
Qed.
Lemma create_traced exists_ member done extend create h : h0 `prefix_of` h ->
  (forall h, h0 `prefix_of` h -> traced P h exists_ (fun h' _ => h0 `prefix_of` h')) ->
  (forall h, h0 `prefix_of` h -> traced P h member (fun h' r => h0 `prefix_of` h' /\ (r = true -> joined h' a path))) ->
  (forall h, h0 `prefix_of` h -> traced P h extend made_pool) -> (forall h, h0 `prefix_of` h -> traced P h create made_pool) ->
  traced P h (create_or_extend exists_ member done extend create) made_pool.
Proof using.
  intros Hp H1 H2 H3 H4. unfold create_or_extend. eapply traced_bind; [by apply H1|]. intros h1 [] Hp1; cbn [negb]; [|by apply H4].
  eapply traced_bind; [by apply H2|]. intros h2 [] [Hp2 Hj]; [|by apply H3]. cbn. split; [done|by apply Hj].
Qed.
Lemma vg_traced h : h0 `prefix_of` h -> traced P h (vgExists (pa_VGName a)) (fun h' _ => h0 `prefix_of` h').
Proof using Hask.
  intros Hp. unfold vgExists. case_bool_decide; [done|]. eapply traced_bind; [apply output_traced, Hask; [done|unfold asks; clear; set_solver]|]. intros h1 out [Hp1 _]. cbn. by etrans.
Qed.
Lemma zpool_traced h : h0 `prefix_of` h -> traced P h (zpoolExists (pa_ZPoolName a)) (fun h' _ => h0 `prefix_of` h').
Proof using Hask.
  intros Hp. unfold zpoolExists. case_bool_decide; [done|]. eapply traced_bind; [apply output_traced, Hask; [done|unfold asks; clear; set_solver]|]. intros h1 out [Hp1 _]. cbn. by etrans.
Qed.
Lemma pv_traced h : h0 `prefix_of` h -> traced P h (pvInVG (pa_VGName a) path) (fun h' r => h0 `prefix_of` h' /\ (r = true -> joined h' a path)).
Proof using Hask.
  intros Hp. unfold pvInVG. destruct (_ || _); [done|]. eapply traced_bind; [apply output_traced, Hask; [done|unfold asks; clear; set_solver]|]. intros h1 out [Hp1 Ht]. cbn. split; [by etrans|].
  destruct out as [out|]; [|done]. intros H. right. left. by exists out.
Qed.
Lemma vdev_traced h : h0 `prefix_of` h -> traced P h (vdevInZpool (pa_ZPoolName a) path) (fun h' r => h0 `prefix_of` h' /\ (r = true -> joined h' a path)).
Proof using Hask.
  intros Hp. unfold vdevInZpool. destruct (_ || _); [done|]. eapply traced_bind; [apply output_traced, Hask; [done|unfold asks; clear; set_solver]|]. intros h1 out [Hp1 Ht]. cbn. split; [by etrans|].
  destruct out as [out|]; [|done]. intros H. right. right. by exists out.
Qed.
Lemma attach_traced h : h0 `prefix_of` h -> traced P h (attachOrExtend a path) made_pool.
Proof using Hask Hmake.
  intros Hp. unfold attachOrExtend. repeat case_bool_decide; [..|by cbn].
  - apply create_traced; [done|apply vg_traced|apply pv_traced|intros h1 Hh; unfold extendLVMThick, extendVG|intros h1 Hh; unfold attachLVMThick];
      (case_bool_decide; [by cbn|]); [eapply (making_traced _ _ (vgextend_cmd (pa_VGName a) path))|eapply (making_traced _ _ (vgcreate_cmd (pa_VGName a) path))]; [exact Hh|unfold makes; clear; set_solver|clear; set_solver|clear; set_solver|exact Hh|unfold makes; clear; set_solver|clear; set_solver|clear; set_solver].
  - apply create_traced; [done|apply vg_traced|apply pv_traced|intros h1 Hh; unfold extendLVMThin, extendVG|intros h1 Hh; unfold attachLVMThin];
      (destruct (_ || _); [by cbn|]); [eapply (making_traced _ _ (vgextend_cmd (pa_VGName a) path))|eapply (making_traced _ _ (vgcreate_cmd (pa_VGName a) path))]; [exact Hh|unfold makes; clear; set_solver|clear; set_solver|clear; set_solver|exact Hh|unfold makes; clear; set_solver|clear; set_solver|clear; set_solver].
  - apply create_traced; [done|apply zpool_traced|apply vdev_traced|intros h1 Hh; unfold extendZFS|intros h1 Hh; unfold attachZFS];
      (case_bool_decide; [by cbn|]); [eapply (making_traced _ _ (zpool_add (pa_ZPoolName a) path))|eapply (making_traced _ _ (zpool_create (pa_ZPoolName a) path))]; [exact Hh|unfold makes; clear; set_solver|clear; set_solver|clear; set_solver|exact Hh|unfold makes; clear; set_solver|clear; set_solver|clear; set_solver].
Qed.
Lemma wipe_traced h : h0 `prefix_of` h -> pa_Wipe a = true -> traced P h (wipeDevice path) (fun h' _ => h0 `prefix_of` h').
Proof using Hask Hwipe.
  intros Hp Hw. assert (forall h c, h0 `prefix_of` h -> wipes path c -> traced P h (command_ok c) (fun h' _ => h0 `prefix_of` h')) as Hc.
  { intros h1 c Hp1 H. eapply traced_mono; [|by apply command_traced, Hwipe]. intros h2 ok [Hp2 _]. by etrans. }
  unfold wipeDevice. eapply traced_bind; [apply Hc; [done|by left]|]. intros h1 ? H1. eapply traced_bind; [apply Hc; [done|by right; left]|]. intros h2 [] H2; cbn [negb]; [|done].
  eapply traced_bind with (R := fun h' _ => h0 `prefix_of` h').
  { unfold readDeviceSizeMiB. eapply traced_bind; [apply output_traced, Hask; [done|unfold asks; clear; set_solver]|]. intros h3 out [H3 _]. cbn. by etrans. }
  intros h3 size H3. eapply traced_bind with (R := fun h' _ => h0 `prefix_of` h').
  { destruct size as [n|]; [|done]. case_bool_decide; [|done]. apply Hc; [done|]. right. right. left. by eexists. }
  intros h4 [] H4; cbn [negb]; [|done]. eapply traced_bind; [apply Hc; [done|unfold wipes; naive_solver]|]. intros h5 ? H5.
  eapply traced_bind; [apply Hc; [done|unfold wipes; naive_solver]|]. intros h6 ? H6. done.
Qed.
End Attaching.

(** ** The controller of attach requests *)

Section Reconcile.
Context (NodeName : string).
#[local] Notation ReconcileDevice := (Devices.ReconcileDevice NodeName).

(** The request as the object had it at the start ([d0]) and when the attach began ([d]). *)
Definition requested h (name : string) (d0 d : deviceCR) (a : PhysicalDeviceAttachTo) : Prop :=
  told h (GetDeviceD name) (Ok d0) /\ dk_Node d0 = NodeName /\ dk_Deleting d0 = false /\ PhysicalDeviceAttachFinalizer ∈ dk_Finalizers d0 /\
  (exists a0, dk_AttachTo d0 = Some a0 /\ (pa_StoragePoolName a0 = "" \/ exists pools, told h ListPoolsD (Ok pools) /\ existsb (is_target NodeName (pa_StoragePoolName a0)) pools = true)) /\
  (d = d0 /\ ds_Phase (dk_Status d0) = PhysicalDevicePhaseAttaching \/ told h (UpdateStatusD (set_status (set_phase PhysicalDevicePhaseAttaching (dk_Status d0)) d0)) (Ok d)) /\
  dk_AttachTo d = Some a.
Definition device_path (d : deviceCR) : string := attachDevicePath (crdPhysicalDeviceToWire d).
Definition allowed (name : string) h (c : dcall) : Prop :=
  match c with
  | RunD c => exists d0 d a, requested h name d0 d a /\ (asks a (device_path d) c \/ makes a (device_path d) c \/ pa_Wipe a = true /\ wipes (device_path d) c)
  | DeleteDeviceD n => exists d0 d a pool config, requested h name d0 d a /\ told h (RegisterD pool config) tt /\ pool = pa_StoragePoolName a /\
      (is_file_kind (pa_ProviderKind a) = true \/ joined h a (device_path d))
  | _ => True
  end.
Definition harmless (c : dcall) : Prop := match c with RunD _ | DeleteDeviceD _ => False | _ => True end.
Lemma harmless_allowed name h c : harmless c -> allowed name h c.
Proof. by destruct c. Qed.
Lemma requested_prefix h h' name d0 d a : h `prefix_of` h' -> requested h name d0 d a -> requested h' name d0 d a.
Proof.
  intros Hp (H1 & H2 & H3 & H4 & (a0 & H5 & H6) & H7 & H8). split_and!; try done; [by eapply told_prefix|exists a0; split; [done|]|].
  - destruct H6 as [?|(pools & Ht & Hx)]; [by left|right]. exists pools. split; [by eapply told_prefix|done].
  - destruct H7 as [?|?]; [by left|right]. by eapply told_prefix.
Qed.
Lemma results_name a path h0 P h dev : pd_AttachTo dev = Some a -> attachDevicePath dev = path -> h0 `prefix_of` h ->
  (forall h c, h0 `prefix_of` h -> asks a path c -> P h (RunD c)) -> (forall h c, h0 `prefix_of` h -> makes a path c -> P h (RunD c)) ->
  (forall h c, h0 `prefix_of` h -> pa_Wipe a = true -> wipes path c -> P h (RunD c)) ->
  traced P h (Attach dev) (fun h' r => h0 `prefix_of` h' /\ match r with Ok res => is_file_kind (pa_ProviderKind a) = true \/ joined h' a path | Err _ => True end).
Proof.
  intros Ha <- Hp Hask Hmake Hwipe. unfold Attach. rewrite Ha. destruct (is_file_kind _); [unfold attachFile; case_bool_decide; cbn; by auto|]. case_bool_decide; [by cbn|].
  eapply traced_kbind with (R := fun h' _ => h0 `prefix_of` h'); [|intros h1 [] H1|by intros].
  - destruct (pa_Wipe a) eqn:Hw; [|done]. apply (wipe_traced P a (attachDevicePath dev) h0); [exact Hask|intros h' c H1 _; by apply Hwipe|exact Hp|exact Hw].
  - eapply traced_mono; [|by apply (attach_traced P a (attachDevicePath dev) h0)]. intros h2 r [H2 Hj]. split; [done|]. destruct r; [by right|done].
Qed.
Lemma Attach_pool dev a : pd_AttachTo dev = Some a -> may_return (fun r => match r with Ok res => at_PoolName res = pa_StoragePoolName a | Err _ => True end) (Attach dev).
Proof.
  intros Ha. unfold Attach. rewrite Ha. destruct (is_file_kind _); [cbn; unfold attachFile; by case_bool_decide|]. case_bool_decide; [by cbn|].
  assert (forall {A} (m : dprog A) (Q : A -> Prop), (forall x, Q x) -> may_return Q m) as Hall by (intros A m Q HQ; induction m; cbn; auto).
  assert (forall cs (res : AttachResult), at_PoolName res = pa_StoragePoolName a ->
    may_return (fun r => match r with Ok res => at_PoolName res = pa_StoragePoolName a | Err _ => True end) (_ ←! all_commands cs; Ret (Ok res))) as Hcs.
  { intros cs res Hr. apply may_return_bind, Hall. intros [[]|]; by cbn. }
  apply may_return_bind, Hall. intros [[]|e]; [|by cbn]. unfold attachOrExtend, create_or_extend.
  repeat case_bool_decide; try by cbn. all: apply may_return_bind, Hall; intros []; cbn [negb]; [apply may_return_bind, Hall; intros []; [by cbn|]|].
  all: unfold extendLVMThick, attachLVMThick, extendLVMThin, attachLVMThin, extendZFS, attachZFS, extendVG; first [case_bool_decide; [by cbn|by apply Hcs]|destruct (_ || _); [by cbn|by apply Hcs]].
Qed.

(** The pool of the result is the one of the request. *)
Lemma traced_and {A} (P : history -> dcall -> Prop) (m : dprog A) Q R h : traced P h m Q -> may_return R m -> traced P h m (fun h' a => Q h' a /\ R a).
Proof. revert h. induction m as [x|c k IH]; cbn; [done|]. intros h [Hc Hk] Hm. split; [done|]. intros x. by apply IH. Qed.
Lemma setPhase_traced name d phase h : traced (allowed name) h (setPhase d phase) (fun h' r => h `prefix_of` h' /\
  match r with Ok d' => d' = d /\ ds_Phase (dk_Status d) = phase \/ told h' (UpdateStatusD (set_status (set_phase phase (dk_Status d)) d)) (Ok d') | Err _ => True end).
Proof.
  unfold setPhase. case_bool_decide; [cbn; by auto|]. eapply traced_mono; [|by apply traced_issue]. intros h' [d'|e] [Hp Ht]; by auto.
Qed.
Lemma record_harmless d pool : only harmless (recordAttachedKName NodeName d pool).
Proof.
  unfold recordAttachedKName. case_bool_decide; [done|]. apply only_then; [done|]. intros pools. destruct (list_find _ pools) as [[i p]|]; [|done]. by destruct (knameInList _ _).
Qed.
Lemma free_traced {A} name h (m : dprog A) : only harmless m -> traced (allowed name) h m (fun h' _ => h `prefix_of` h').
Proof. apply traced_free. apply harmless_allowed. Qed.

Lemma runAttach_traced name d0 d h : (forall a, dk_AttachTo d = Some a -> requested h name d0 d a) -> traced (allowed name) h (runAttach NodeName d) (fun _ _ => True).
Proof.
  intros Hreq. unfold runAttach. assert (forall h, traced (allowed name) h (_ ← setPhase d PhysicalDevicePhaseFailed; Ret (Ok (Later second) : result derr drequeue)) (fun _ _ => True)) as Hfail.
  { intros h1. eapply traced_bind; [apply setPhase_traced|]. by intros. }
  destruct (dk_AttachTo d) as [a|] eqn:Ha; [|unfold Attach; cbn [pd_AttachTo crdPhysicalDeviceToWire]; rewrite Ha; apply Hfail]. specialize (Hreq a eq_refl).
  assert (forall h' c, h `prefix_of` h' -> asks a (device_path d) c \/ makes a (device_path d) c \/ pa_Wipe a = true /\ wipes (device_path d) c -> allowed name h' (RunD c)) as Hrun.
  { intros h' c Hp Hc. exists d0, d, a. split; [by eapply requested_prefix|done]. }
  eapply traced_bind; [eapply traced_and; [apply (results_name a (device_path d) h); [by cbn|done|done|auto..]|by apply Attach_pool]|].
  intros h1 [res|e] [[Hp Hj] Hn]; [|apply Hfail]. destruct (NewProviderFromKind _ _) as [config|]; [|apply Hfail].
  eapply traced_bind; [by apply traced_issue|]. intros h2 [] [Hp2 Ht2]. eapply traced_bind; [apply free_traced, record_harmless|]. intros h3 ? Hp3. cbn beta in Hp3.
  eapply traced_kbind; [by apply traced_issue| |done]. intros h4 d' [Hp4 _]. eapply traced_bind; [apply traced_issue|by intros h5 [|[]] ?].
  exists d0, d, a, (at_PoolName res), config. split_and!; [|eapply told_prefix, Ht2; by etrans|done|].
  - eapply requested_prefix, Hreq. do 3 (etrans; [eassumption|]). done.
  - destruct Hj as [?|Hj]; [by left|right]. eapply joined_prefix, Hj. do 2 (etrans; [eassumption|]). done.
Qed.

Lemma reconcile_traced name : traced (allowed name) [] (ReconcileDevice name) (fun _ _ => True).
Proof.
  unfold Devices.ReconcileDevice. eapply traced_bind; [by apply traced_issue|]. intros h [d|[]] [_ Ht]; [|done..]. case_bool_decide as Hn; [|done]. cbn [negb].
  assert (forall (m : dprog (result derr drequeue)), only harmless m -> traced (allowed name) h m (fun _ _ => True)) as Hfree by (intros m Hm; eapply traced_mono; [|by apply free_traced]; done).
  assert (only harmless (stripAttachFinalizer d)) as Hstrip by (unfold stripAttachFinalizer; destruct (negb _); [done|by apply only_then]).
  assert (forall d p, only harmless (setPhase d p)) as Hphase by (intros; unfold setPhase; by case_bool_decide).
  destruct (dk_AttachTo d) as [a|] eqn:Ha; [|by apply Hfree]. destruct (dk_Deleting d) eqn:Hd; [by apply Hfree|]. destruct (Contains _ _) eqn:Hf; cbn [negb]; [|by apply Hfree, only_then].
  apply Contains_true in Hf. destruct (deviceMissing d a); [apply Hfree; unfold handleDeviceMissing; apply only_bind; [done|]; intros; by apply only_then|].
  eapply traced_kbind with (R := fun h' r => h `prefix_of` h' /\ match r with Ok ready => ready = true -> pa_StoragePoolName a = "" \/ exists pools, told h' ListPoolsD (Ok pools) /\ existsb (is_target NodeName (pa_StoragePoolName a)) pools = true | Err _ => True end); [| |done].
  - unfold targetPoolExists. case_bool_decide; [cbn; by auto|]. eapply traced_kbind; [by apply traced_issue| |by intros h1 e [? _]]. intros h1 pools [Hp Hl]. cbn. split; [done|]. by eauto.
  - intros h1 [] [Hp Hr]; cbn [negb].
    + eapply traced_kbind; [apply setPhase_traced| |done]. intros h2 d' [Hp2 Hd']. apply (runAttach_traced name d). intros a' Ha'. destruct (Hr eq_refl) as [He|(pools & Hl & He)].
      * split_and!; [eapply told_prefix, Ht; by etrans|done|done|done|exists a; by auto|exact Hd'|done].
      * split_and!; [eapply told_prefix, Ht; by etrans|done|done|done|exists a; split; [done|right; exists pools; split; [by eapply told_prefix|done]]|exact Hd'|done].
    + eapply traced_mono; [|apply free_traced]; [done|]. case_bool_decide.
      * unfold clearStaleAttachTo. apply only_then; [done|]. intros d'. by apply only_then.
      * unfold handlePoolMissing. destruct (find_condition _ _); (apply only_bind; [done|]; intros now).
        -- case_bool_decide; [apply only_bind; [apply Hphase|done]|by apply only_bind].
        -- apply only_then; [done|]. intros d'. destruct (find_condition _ _); [by apply only_bind|done].
Qed.

(** Whatever is answered, the controller runs only commands on the device of a request that is there, is not being
    deleted, carries the finalizer and names a pool of the node (or none): queries, and the commands
    that put it into the pool of the request; what wipes it only when the request says so. *)
Theorem commands_are_asked_for name : traced (fun h c => forall cmd, c = RunD cmd -> exists d0 d a, requested h name d0 d a /\
  (asks a (device_path d) cmd \/ makes a (device_path d) cmd \/ pa_Wipe a = true /\ wipes (device_path d) cmd)) [] (ReconcileDevice name) (fun _ _ => True).
Proof. eapply traced_weaken, reconcile_traced. intros h c H cmd ->. exact H. Qed.

(** The object of a device is deleted, which makes the device vanish from the list of free ones, only after the
    provider of the pool was registered and a command that puts the device into the pool succeeded or the tools list it
    there. *)
Theorem device_goes_when_the_pool_has_it name : traced (fun h c => forall n, c = DeleteDeviceD n -> exists d0 d a pool config, requested h name d0 d a /\
  told h (RegisterD pool config) tt /\ pool = pa_StoragePoolName a /\ (is_file_kind (pa_ProviderKind a) = true \/ joined h a (device_path d))) [] (ReconcileDevice name) (fun _ _ => True).
Proof. eapply traced_weaken, reconcile_traced. intros h c H n ->. exact H. Qed.

End Reconcile.

(** ** The wait for a pool *)

Lemma backoff_stops fuel step requeue elapsed : poolMissingRequeue <= requeue \/ elapsed < step -> backoff_loop fuel step requeue elapsed = requeue.
Proof.
  destruct fuel as [|fuel]; [done|]. cbn [backoff_loop]. intros [H|H]; [rewrite (bool_decide_eq_false_2 (requeue < _)) by lia|rewrite bool_decide_eq_false_2 by lia]; [by rewrite andb_false_r|done].
Qed.
Lemma backoff_goes fuel step requeue elapsed : step <= elapsed -> requeue < poolMissingRequeue ->
  backoff_loop (S fuel) step requeue elapsed = backoff_loop fuel (step + poolMissingInitialRequeue) (requeue * 2) elapsed.
Proof. intros H1 H2. cbn [backoff_loop]. by rewrite !bool_decide_eq_true_2. Qed.

Ltac wait_arith := unfold poolMissingInitialRequeue, poolMissingRequeue, second in *; lia.
Lemma backoff_value fuel elapsed : backoff_loop (S (S (S (S (S fuel))))) poolMissingInitialRequeue poolMissingInitialRequeue elapsed =
    if bool_decide (elapsed < second) then second else if bool_decide (elapsed < 2 * second) then 2 * second
    else if bool_decide (elapsed < 3 * second) then 4 * second else if bool_decide (elapsed < 4 * second) then 8 * second else 16 * second.
Proof.
  case_bool_decide; [rewrite backoff_stops by wait_arith; wait_arith|]. rewrite backoff_goes by wait_arith.
  case_bool_decide; [rewrite backoff_stops by wait_arith; wait_arith|]. rewrite backoff_goes by wait_arith.
  case_bool_decide; [rewrite backoff_stops by wait_arith; wait_arith|]. rewrite backoff_goes by wait_arith.
  case_bool_decide; [rewrite backoff_stops by wait_arith; wait_arith|]. rewrite backoff_goes by wait_arith.
  rewrite backoff_stops by wait_arith. wait_arith.
Qed.

(** The wait for a pool that is not there yet doubles with every second from one second to the limit of ten, and stays there;
    the loop that computes it ends after at most four rounds, whatever the time. *)
Theorem pool_wait_is_bounded elapsed fuel : (5 <= fuel)%nat ->
  backoff_loop fuel poolMissingInitialRequeue poolMissingInitialRequeue elapsed = backoff_loop 5 poolMissingInitialRequeue poolMissingInitialRequeue elapsed /\
  poolMissingBackoff (Some elapsed) =
    if bool_decide (elapsed < second) then second else if bool_decide (elapsed < 2 * second) then 2 * second
    else if bool_decide (elapsed < 3 * second) then 4 * second else if bool_decide (elapsed < 4 * second) then 8 * second else 10 * second.
Proof.
  intros Hf. destruct fuel as [|[|[|[|[|fuel]]]]]; try lia. unfold poolMissingBackoff. rewrite !backoff_value. split; [done|].
  repeat case_bool_decide; wait_arith.
Qed.

(** ** Discovery *)

(** Commands that change nothing. *)
Definition looks (c : cmd) : Prop :=
  c = ["lsblk"; "-Pb"; "-o"; lsblk_columns] \/ c = "pvs" :: Lvm.Args ["--noheadings"; "-o"; "pv_name"] \/ c = ["zpool"; "list"; "-PHv"] \/
  (exists path, c = ["drbdmeta"; "0"; "v09"; path; "internal"; "dump-md"]) \/ exists path, c = ["wipefs"; "-n"; path].
Definition read_object h (d : deviceCR) : Prop := (exists n, told h (GetDeviceD n) (Ok d)) \/ exists d', told h (UpdateDeviceD d') (Ok d).

Section Discovery.
Context (NodeName : string).
(** What is written of the object [d0]: phase and conditions of a request stay. *)
Definition keeps_request (d0 d : deviceCR) : Prop :=
  dk_Name d = dk_Name d0 /\ dk_Finalizers d = dk_Finalizers d0 /\ dk_AttachTo d = dk_AttachTo d0 /\
  (is_Some (dk_AttachTo d0) -> ds_Phase (dk_Status d0) ∉ [""; PhysicalDevicePhaseAvailable] -> ds_Phase (dk_Status d) = ds_Phase (dk_Status d0)) /\
  (is_Some (dk_AttachTo d0) -> forall c, c ∈ ds_Conditions (dk_Status d0) -> is_lifecycle c = true -> c ∈ ds_Conditions (dk_Status d)).
Definition discovers h (c : dcall) : Prop :=
  match c with
  | RunD c => looks c
  | DeleteDeviceD n => exists l d, told h (ListDevicesD NodeName) (Ok l) /\ d ∈ l /\ dk_Name d = n /\ dk_AttachTo d = None
  | UpdateStatusD d => exists d0, read_object h d0 /\ keeps_request d0 d
  | UpdateDeviceD d => exists d0, read_object h d0 /\ d = set_node NodeName d0
  | RegisterD _ _ | UpdatePoolD _ => False
  | _ => True
  end.

Lemma lifecycle_kept cs : forall s, let s' := foldl (fun d c => if is_lifecycle c then set_conditions (c :: ds_Conditions d) d else d) s cs in
  ds_Phase s' = ds_Phase s /\ forall c, c ∈ ds_Conditions s \/ c ∈ cs /\ is_lifecycle c = true -> c ∈ ds_Conditions s'.
Proof.
  induction cs as [|c cs IH]; intros s; cbn [foldl]; [split; [done|]; intros c [?|[[]%not_elem_of_nil _]]; done|].
  destruct (IH (if is_lifecycle c then set_conditions (c :: ds_Conditions s) s else s)) as [I1 I2]. split; [rewrite I1; by destruct (is_lifecycle c)|].
  intros x Hx. apply I2. destruct (is_lifecycle c) eqn:Hc; destruct Hx as [Hx|[[->|Hx]%elem_of_cons Hl]]; [left; by right|left; by left|by right|by left|congruence|by right].
Qed.
Lemma preserve_keeps d0 desired : keeps_request d0 (set_status (preserveAttachLifecycle d0 desired) d0).
Proof.
  unfold preserveAttachLifecycle. destruct (dk_AttachTo d0) as [a|] eqn:Ha; [|by repeat split; rewrite ?Ha; try intros [? [=]]].
  match goal with |- context [foldl _ ?x _] => set (start := x) end. destruct (lifecycle_kept (ds_Conditions (dk_Status d0)) start) as [F1 F2]. unfold keeps_request. split_and!; [done..| |].
  - intros _ Hph. cbn [dk_Status set_status]. rewrite F1. subst start. apply not_elem_of_cons in Hph as [H1 [H2 _]%not_elem_of_cons]. by rewrite !bool_decide_eq_false_2.
  - intros _ c Hc Hl. cbn [dk_Status set_status]. apply F2. by right.
Qed.

Lemma look_traced h c : looks c -> traced discovers h (output_of c) (fun h' _ => h `prefix_of` h').
Proof. intros Hc. eapply traced_mono; [|by apply output_traced]. by intros h' r [? _]. Qed.
Lemma signature_traced (f : option string -> option bool) h c : looks c -> traced discovers h (out ← output_of c; Ret (f out)) (fun h' _ => h `prefix_of` h').
Proof. intros Hc. eapply traced_bind; [by apply look_traced|]. by intros. Qed.
Lemma probe_traced h row busy : traced discovers h (probeFree row busy) (fun h' _ => h `prefix_of` h').
Proof.
  eapply traced_bind with (R := fun h' _ => h `prefix_of` h'); [|by intros]. unfold IsDeviceFree. destruct (negb _); [by cbn|]. generalize ("/dev/" +:+ ld_KName row). intros path.
  assert (forall checks h, (forall check h, check ∈ checks -> traced discovers h (check path) (fun h' _ => h `prefix_of` h')) -> traced discovers h (no_signature checks path) (fun h' _ => h `prefix_of` h')) as Hchecks.
  { induction checks as [|check checks IH]; intros h1 H; cbn [no_signature]; [by cbn|]. eapply traced_bind; [apply H; by left|]. intros h2 has Hp. cbn beta in Hp.
    destruct has as [[]|]; [by cbn| |by cbn]. eapply traced_mono; [|apply IH; intros; apply H; by right]. intros h3 ? Hp3. cbn beta in Hp3. by etrans. }
  apply Hchecks. intros check h1 H. unfold HasLVMSignature, HasZFSSignature, HasDRBDSignature, HasOtherSignature, looks in *.
  rewrite !elem_of_cons, elem_of_nil in H. destruct H as [->|[->|[->|[->|[]]]]]; apply signature_traced; unfold looks; naive_solver.
Qed.
Lemma read_prefix h h' d : h `prefix_of` h' -> read_object h d -> read_object h' d.
Proof. intros Hp [[n H]|[d' H]]; [left; exists n|right; exists d']; by eapply told_prefix. Qed.
Lemma upsert_traced h name : traced discovers h (upsertDeviceCRD NodeName name) (fun h' r => h `prefix_of` h' /\ match r with Some d => read_object h' d | None => True end).
Proof.
  unfold upsertDeviceCRD. eapply traced_bind; [by apply traced_issue|]. intros h1 got [Hp1 T1].
  eapply traced_bind with (R := fun h' r => h `prefix_of` h' /\ match r with Some d => read_object h' d | None => True end).
  - destruct got as [d|[]]; [cbn; split; [done|]; left; by exists name| |by cbn|by cbn]. eapply traced_bind; [by apply traced_issue|]. intros h2 made [Hp2 _]. assert (h `prefix_of` h2) as Q2 by by etrans.
    destruct made as [[]|[]]; [|by cbn| |by cbn]; (eapply traced_bind; [by apply traced_issue|]; intros h3 [d|e] [Hp3 T3]; (split; [by etrans|]); [left; by exists name|done]).
  - intros h2 [d|] [Hp2 Hr]; [|by cbn]. case_bool_decide; [by cbn|]. eapply traced_bind; [apply traced_issue; by exists d|]. intros h3 [d'|e] [Hp3 T3]; (split; [by etrans|]); [right; by exists (set_node NodeName d)|done].
Qed.
Lemma publish_traced h row free reason message : traced discovers h (publishDeviceWithReason NodeName row free reason message) (fun h' _ => h `prefix_of` h').
Proof.
  unfold publishDeviceWithReason. destruct (isZVOLKName _); [by cbn|]. case_bool_decide; [by cbn|]. eapply traced_bind; [by apply traced_issue|]. intros h1 now [Hp1 _].
  eapply traced_bind; [apply upsert_traced|]. intros h2 [d|] [Hp2 Hr]; [|cbn; by etrans].
  eapply traced_bind; [apply traced_issue; exists d; split; [done|apply preserve_keeps]|]. intros h3 r [Hp3 _]. cbn. etrans; [exact Hp1|]. by etrans.
Qed.
Lemma scan_traced rows busy attached : forall h discovered, traced discovers h (scan_rows NodeName rows busy attached discovered) (fun h' _ => h `prefix_of` h').
Proof.
  induction rows as [|row rows IH]; intros h discovered; cbn [scan_rows]; [by cbn|]. destruct (_ || _); [apply IH|]. eapply traced_bind; [apply probe_traced|]. intros h1 probed Hp1. cbn beta in Hp1.
  assert (forall h2 s, h `prefix_of` h2 -> traced discovers h2 (scan_rows NodeName rows busy attached s) (fun h' _ => h `prefix_of` h')) as Hrest.
  { intros h2 s Hp. eapply traced_mono; [|apply IH]. intros h3 ? Hp3. cbn beta in Hp3. by etrans. }
  destruct probed as [[[free reason] message]|]; [|by apply Hrest]. eapply traced_bind; [apply publish_traced|]. intros h2 name Hp2. cbn beta in Hp2. apply Hrest. by etrans.
Qed.
Lemma prune_traced h discovered : traced discovers h (pruneDisappeared NodeName discovered) (fun _ _ => True).
Proof.
  unfold pruneDisappeared. eapply traced_bind; [by apply traced_issue|]. intros h1 [l|e] [Hp Hl]; [|done].
  assert (forall devices h, (forall d, d ∈ devices -> d ∈ l) -> told h (ListDevicesD NodeName) (Ok l) -> traced discovers h (prune_each devices discovered) (fun _ _ => True)) as Heach.
  { induction devices as [|d devices IH]; intros h2 Hd Ht; cbn [prune_each]; [by cbn|]. assert (forall h3, told h3 (ListDevicesD NodeName) (Ok l) -> traced discovers h3 (prune_each devices discovered) (fun _ _ => True)) as Hrest by (intros; apply IH; [|done]; intros; apply Hd; by right).
    case_bool_decide; [by apply Hrest|]. destruct (dk_AttachTo d) eqn:Ha; [by apply Hrest|]. eapply traced_bind; [apply traced_issue; exists l, d; split_and!; [done|apply Hd; by left|done|done]|].
    intros h3 ? [Hp3 _]. apply Hrest. by eapply told_prefix. }
  apply Heach; [|done]. intros d. by rewrite merge_sort_Permutation.
Qed.

(** C21: whatever is answered, a scan for free devices runs no command that changes anything, and leaves requests alone: of
    an object with a request it keeps request, finalizers, phase and the conditions that time the request, and
    it deletes only objects of its node without one. *)
Theorem discovery_leaves_requests_alone : traced discovers [] (scanOnce NodeName) (fun _ _ => True).
Proof.
  unfold scanOnce. eapply traced_bind; [apply look_traced; by left|]. intros h1 [out|] _; [|done].
  eapply traced_bind with (R := fun _ _ => True); [unfold attachedKNamesForNode; eapply traced_kbind; [by apply traced_issue|done|done]|]. intros h2 attached _.
  eapply traced_bind; [apply scan_traced|]. intros h3 discovered _. eapply traced_bind; [apply prune_traced|done].
Qed.

End Discovery.

(** ** What is on the device *)

(** A request that does not ask for a wipe is not a request that spares the data: no command of an attach without
    it looks at what is on the device, and pvcreate and zpool are told to force; when the pool does not exist yet, the next command after
    asking for the pool overwrites the device. *)
Theorem attach_overwrites_without_consent dev a : pd_AttachTo dev = Some a -> pa_Wipe a = false -> is_file_kind (pa_ProviderKind a) = false ->
  only (fun c => exists cmd, c = RunD cmd /\ (cmd ∈ [vgs_cmd (pa_VGName a); pvs_cmd; zpool_list (pa_ZPoolName a); zpool_status (pa_ZPoolName a)] \/ makes a (attachDevicePath dev) cmd)) (Attach dev) /\
  (pa_ProviderKind a = ProviderKindLVM -> attachDevicePath dev <> "" -> pa_VGName a <> "" ->
   exists k, Attach dev = Do (RunD (vgs_cmd (pa_VGName a))) k /\ forall text out, exists k', k (Some text, out) = Do (RunD (pvcreate_cmd (attachDevicePath dev))) k').
Proof.
  intros Ha Hw Hf. unfold Attach. rewrite Ha, Hf, Hw. split.
  - case_bool_decide; [done|]. apply only_then; [done|]. intros _. set (path := attachDevicePath dev).
    set (P := fun c => exists cmd, c = RunD cmd /\ (cmd ∈ [vgs_cmd (pa_VGName a); pvs_cmd; zpool_list (pa_ZPoolName a); zpool_status (pa_ZPoolName a)] \/ makes a path cmd)).
    assert (forall cs (res : AttachResult), (forall w c, (w, c) ∈ cs -> makes a path c) -> only P (_ ←! all_commands cs; Ret (Ok res))) as Hcs.
    { intros cs res Hm. apply only_then; [|done]. induction cs as [|[w c] cs IH]; cbn [all_commands]; [done|]. apply only_bind; [split; [exists c; split; [done|]; right; apply (Hm w); by left|by intros]|].
      intros []; [|done]. apply IH. intros w' c' Hin. apply (Hm w'). by right. }
    assert (forall c {A} (f : option string -> A), P (RunD c) -> only P (out ← output_of c; Ret (f out))) as Hask by (intros c A f Hc; split; [done|]; by intros [[] ?]).
    unfold attachOrExtend, create_or_extend. repeat case_bool_decide; [..|done].
    all: (apply only_bind; [unfold vgExists, zpoolExists; case_bool_decide; [done|]; apply Hask; eexists; split; [done|left]; clear; set_solver|]; intros []; cbn [negb];
      [apply only_bind; [unfold pvInVG, vdevInZpool; destruct (_ || _); [done|]; apply Hask; eexists; split; [done|left]; clear; set_solver|]; intros []; [done|]|]).
    all: unfold extendLVMThick, attachLVMThick, extendLVMThin, attachLVMThin, extendZFS, attachZFS, extendVG; first [destruct (_ || _); [done|]|case_bool_decide; [done|]].
    all: apply Hcs; unfold makes; clear; set_solver.
  - intros Hk Hp Hv. rewrite bool_decide_eq_false_2 by done. unfold attachOrExtend. rewrite Hk. cbn. unfold vgExists, attachLVMThick. rewrite (bool_decide_eq_false_2 (pa_VGName a = "")) by done. cbn.
    eexists. split; [done|]. intros text out. by eexists.
Qed.

(** * Runs with physical devices

    Witnesses for the properties of attach requests, and three runs on a host with one disk: a thin pool that was half made
    counts as made, a retried request zeroes a disk that is in use, and a probe that fails
    once removes the object of a disk that is there. *)

From Stdlib Require Import Ascii.
From S2P Require Import Prelude Prog GoStrings Api CrdName Storage DrbdText DrbdStatus DrbdAdm Dispatcher Lsblk Devices.

Lemma pool_wait_witness : (5 <= 9)%nat /\ poolMissingBackoff (Some 3500000000) = 8 * second.
Proof. split; [lia|]. exact (proj2 (pool_wait_is_bounded 3500000000 9 ltac:(lia))). Defined.

(** A request for the disk [sdb]. *)
Definition into (kind : string) (wipe : bool) : PhysicalDeviceAttachTo := mkPhysicalDeviceAttachTo "data" kind "vg0" "thin0" "" "" wipe.
Definition plain : PhysicalDevice := mkPhysicalDevice "n1.sdb" "n1" "sdb" "/dev/sdb" "" 0 "" "" None "" "" (Some (into ProviderKindLVM false)) None "" "".
Lemma overwrites_witness : pa_Wipe (into ProviderKindLVM false) = false /\ exists k, Attach plain = Do (RunD (vgs_cmd "vg0")) k /\
  forall text out, exists k', k (Some text, out) = Do (RunD (pvcreate_cmd "/dev/sdb")) k'.
Proof.
  split; [reflexivity|]. exact (proj2 (attach_overwrites_without_consent plain (into ProviderKindLVM false) eq_refl eq_refl eq_refl) eq_refl ltac:(discriminate) ltac:(discriminate)).
Defined.

(** ** A host with one disk *)

(** [w_VG]: the disk is a physical volume of [vg0]; [w_Thin]: the thin pool was made; [w_Lost]: how often the disk was zeroed while it was in [vg0].
    [w_Broken]: the tool that fails; [w_Refuse]: the API server refuses to update the object. *)
Record world := mkWorld { w_Device : option deviceCR; w_VG : bool; w_Thin : bool; w_Lost : nat; w_Broken : string; w_Refuse : bool }.
Definition sdb : LsblkDevice := mkLsblkDevice "sdb" "sdb" 1073741824 "" "disk" "" "" "" "" false "" 8 "".
Definition newline : string := String "010" "".

(** The tools. *)
Definition tool (w : world) (c : cmd) : option string * string * world :=
  let name := default "" (head c) in
  let ok out := ((None, out), w) in
  let no := ((Some "exit status 5", ""), w) in
  if bool_decide (name = w_Broken w) then no
  else if bool_decide (name = "vgs") then (if w_VG w then ok ("  vg0" +:+ newline) else no)
  else if bool_decide (name = "pvs") then ok (if w_VG w then (if bool_decide (c = pvs_cmd) then "  /dev/sdb vg0" else "  /dev/sdb") +:+ newline else "")
  else if bool_decide (name = "blockdev") then ok ("1073741824" +:+ newline)
  else if bool_decide (name = "vgcreate") then ((None, ""), mkWorld (w_Device w) true (w_Thin w) (w_Lost w) (w_Broken w) (w_Refuse w))
  else if bool_decide (name = "lvcreate") then ((None, ""), mkWorld (w_Device w) (w_VG w) true (w_Lost w) (w_Broken w) (w_Refuse w))
  else if bool_decide (c = zero_start "/dev/sdb") then ((None, ""), mkWorld (w_Device w) false false (if w_VG w then S (w_Lost w) else w_Lost w) (w_Broken w) (w_Refuse w))
  else if bool_decide (name = "drbdmeta") then no
  else if bool_decide (name = "lsblk") then ok (listing [(sdb, 16)])
  else ok "".
Definition with_device (d : option deviceCR) (w : world) : world := mkWorld d (w_VG w) (w_Thin w) (w_Lost w) (w_Broken w) (w_Refuse w).
Definition the_pool : poolCR := mkPoolCR "n1.data" "n1" "data" "".
Definition gives {A} (o : option A) : result derr A := match o with Some a => Ok a | None => Err DNotFound end.
Definition reply (w : world) (c : dcall) : danswer c * world :=
  match c with
  | RunD c => tool w c
  | NowD => (0, w)
  | GetDeviceD _ => (gives (w_Device w), w)
  | CreateDeviceD name node => (Ok tt, with_device (Some (mkDeviceCR name node [] false None (mkDeviceStatus "" "" "" "" 0 "" "" None "" "" []))) w)
  | UpdateDeviceD d => if w_Refuse w then (Err DFailed, w) else (Ok d, with_device (Some d) w)
  | UpdateStatusD d => (Ok d, with_device (Some d) w)
  | DeleteDeviceD _ => (Ok tt, with_device None w)
  | ListDevicesD _ => (Ok (option_list (w_Device w)), w)
  | ListPoolsD => (Ok [the_pool], w)
  | UpdatePoolD _ => (Ok tt, w)
  | RegisterD _ _ => (tt, w)
  end.
Fixpoint lives {A} (w : world) (p : dprog A) : A * world := match p with Ret a => (a, w) | Do c k => lives (reply w c).2 (k (reply w c).1) end.

(** The disk was found by a scan, then the request was made. *)
Definition found : world := (lives (mkWorld None false false 0 "" false) (scanOnce "n1")).2.
Definition asked_for (a : PhysicalDeviceAttachTo) (broken : string) (refuse : bool) : world :=
  mkWorld (set_attach (Some a) ∘ set_finalizers [PhysicalDeviceAttachFinalizer] <$> w_Device found) false false 0 broken refuse.
Definition repaired (w : world) : world := mkWorld (w_Device w) (w_VG w) (w_Thin w) (w_Lost w) "" false.
Definition attempt (w : world) : result derr drequeue * world := lives w (ReconcileDevice "n1" "n1.sdb").
Definition phase_in (w : world) : option string := (fun d => ds_Phase (dk_Status d)) <$> w_Device w.

(** The ordinary run: the disk is in the pool, the thin pool is there, the object is gone. *)
Example attach_runs : phase_in found = Some "Available" /\ (attempt (asked_for (into ProviderKindLVMThin true) "" false)).1 = Ok Finished /\
  w_Thin (attempt (asked_for (into ProviderKindLVMThin true) "" false)).2 = true /\ w_Device (attempt (asked_for (into ProviderKindLVMThin true) "" false)).2 = None.
Proof. vm_compute. done. Qed.

Definition half_made : world := (attempt (asked_for (into ProviderKindLVMThin false) "lvcreate" false)).2.
(** When the last command of a thin pool fails, the request is marked as failed; but once the tool works again the retry finds
    the disk in the volume group, takes the request as done and removes the object, and no thin pool
    was made. *)
Theorem half_made_pool_counts_as_made : phase_in half_made = Some PhysicalDevicePhaseFailed /\ w_VG half_made = true /\ w_Thin half_made = false
  /\ (attempt (repaired half_made)).1 = Ok Finished /\ w_Device (attempt (repaired half_made)).2 = None /\ w_Thin (attempt (repaired half_made)).2 = false.
Proof. vm_compute. split_and!; reflexivity. Qed.

Definition in_use : world := (attempt (asked_for (into ProviderKindLVMThin true) "" true)).2.
(** A request with a wipe that succeeded up to the update of its object is made again, and the retry zeroes the disk, which is by now in
    the pool, before it asks whether it is: whatever was put there since is lost. *)
Theorem retry_zeroes_a_disk_in_use : w_VG in_use = true /\ w_Thin in_use = true /\ w_Lost in_use = 0%nat /\ phase_in in_use = Some PhysicalDevicePhaseAttaching
  /\ (attempt (repaired in_use)).1 = Ok Finished /\ w_Lost (attempt (repaired in_use)).2 = 1%nat.
Proof. vm_compute. split_and!; reflexivity. Qed.

(** A disk whose probe fails in one scan counts as gone: its object is deleted, though lsblk lists the disk. *)
Theorem failed_probe_removes_the_object : phase_in found = Some "Available" /\ IsFreeBlockDevice sdb = true
  /\ (lives (mkWorld (w_Device found) false false 0 "pvs" false) (scanOnce "n1")).1 = true
  /\ w_Device (lives (mkWorld (w_Device found) false false 0 "pvs" false) (scanOnce "n1")).2 = None.
Proof. vm_compute. split_and!; reflexivity. Qed.
