(* ===== verification/Migrate.v ===== *)
(** * The import of a LINSTOR database

    Models [pkg/linstormigrate]: the tables of the dump ([model.go]; row identifiers nothing reads are left out), the property index
    ([props.go]), the flags ([flags.go]), the port file ([ports.go]) and the conversion to objects ([convert.go]). The
    report is a value per kind of line. The sets the converter fills on its way are accumulators of the loop
    that fills them, and the parts that only read them take them as arguments. Sorting is by keys that are unique in
    a table. *)

From Stdlib Require Import Ascii.
From S2P Require Import Prelude GoStrings CrdName Dispatcher DrbdOptions.

(** ** Tables (model.go) *)

Record NodeRow := mkNodeRow { no_NodeName : string; no_NodeDspName : string; no_NodeFlags : Z; no_NodeType : Z }.
Record NodeNetInterfaceRow := mkNodeNetInterfaceRow {
  ni_NodeName : string; ni_NodeNetName : string; ni_NodeNetDspName : string; ni_InetAddress : string; ni_StltConnPort : option Z; ni_StltConnEncrType : string }.
Record NodeStorPoolRow := mkNodeStorPoolRow { sp_NodeName : string; sp_PoolName : string; sp_DriverName : string }.
Record StorPoolDefinitionRow := mkStorPoolDefinitionRow { spd_PoolName : string; spd_PoolDspName : string }.
Record ResourceGroupRow := mkResourceGroupRow {
  rg_ResourceGroupName : string; rg_ResourceGroupDspName : string; rg_Description : string; rg_LayerStack : string; rg_ReplicaCount : Z; rg_NodeNameList : string;
  rg_PoolName : string; rg_PoolNameDiskless : string; rg_DoNotPlaceWithRsc : string; rg_ReplicasOnSame : string; rg_ReplicasOnDifferent : string; rg_AllowedProviderList : string }.
Record VolumeGroupRow := mkVolumeGroupRow { vg_ResourceGroupName : string; vg_VlmNr : Z; vg_Flags : Z }.
Record ResourceDefinitionRow := mkResourceDefinitionRow {
  rd_ResourceName : string; rd_ResourceDspName : string; rd_ResourceGroupName : string; rd_SnapshotName : string; rd_SnapshotDspName : string;
  rd_ResourceFlags : Z; rd_LayerStack : string }.
Record VolumeDefinitionRow := mkVolumeDefinitionRow { vd_ResourceName : string; vd_SnapshotName : string; vd_VlmNr : Z; vd_VlmSize : Z; vd_VlmFlags : Z }.
Record ResourceRow := mkResourceRow { re_NodeName : string; re_ResourceName : string; re_SnapshotName : string; re_ResourceFlags : Z; re_CreateTimestamp : Z }.
Record VolumeRow := mkVolumeRow { vo_NodeName : string; vo_ResourceName : string; vo_SnapshotName : string; vo_VlmNr : Z; vo_VlmFlags : Z }.
Record PropsContainerRow := mkPropsContainerRow { pr_PropsInstance : string; pr_PropKey : string; pr_PropValue : string }.
Record LayerResourceIDRow := mkLayerResourceIDRow {
  lr_LayerResourceID : Z; lr_LayerResourceKind : string; lr_LayerResourceParentID : option Z; lr_LayerResourceSuffix : string;
  lr_NodeName : string; lr_ResourceName : string; lr_SnapshotName : string }.
Record LayerDrbdResourceDefinitionRow := mkLayerDrbdResourceDefinitionRow {
  ldd_ResourceName : string; ldd_ResourceNameSuffix : string; ldd_SnapshotName : string; ldd_Secret : string; ldd_TCPPort : option Z }.
Record LayerDrbdResourceRow := mkLayerDrbdResourceRow { ldr_LayerResourceID : Z; ldr_NodeID : Z }.
Record LayerDrbdVolumeDefinitionRow := mkLayerDrbdVolumeDefinitionRow {
  ldvd_ResourceName : string; ldvd_ResourceNameSuffix : string; ldvd_SnapshotName : string; ldvd_VlmNr : Z; ldvd_VlmMinorNr : option Z }.
Record LayerDrbdVolumeRow := mkLayerDrbdVolumeRow { ldv_LayerResourceID : Z; ldv_VlmNr : Z; ldv_PoolName : string }.
Record LayerStorageVolumeRow := mkLayerStorageVolumeRow { lsv_LayerResourceID : Z; lsv_VlmNr : Z; lsv_StorPoolName : string }.
Record LayerLuksVolumeRow := mkLayerLuksVolumeRow { llv_LayerResourceID : Z; llv_VlmNr : Z }.
Record LinstorRemoteRow := mkLinstorRemoteRow { lre_Name : string; lre_DspName : string; lre_URL : string }.
Record Dump := mkDump {
  Nodes : list NodeRow; NodeNetInterfaces : list NodeNetInterfaceRow; NodeStorPools : list NodeStorPoolRow; StorPoolDefinitions : list StorPoolDefinitionRow;
  ResourceGroups : list ResourceGroupRow; VolumeGroups : list VolumeGroupRow; ResourceDefinitions : list ResourceDefinitionRow;
  VolumeDefinitions : list VolumeDefinitionRow; Resources : list ResourceRow; Volumes : list VolumeRow; PropsContainers : list PropsContainerRow;
  LayerResourceIDs : list LayerResourceIDRow; LayerDrbdResourceDefinitions : list LayerDrbdResourceDefinitionRow; LayerDrbdResources : list LayerDrbdResourceRow;
  LayerDrbdVolumeDefinitions : list LayerDrbdVolumeDefinitionRow; LayerDrbdVolumes : list LayerDrbdVolumeRow; LayerStorageVolumes : list LayerStorageVolumeRow;
  LayerLuksVolumes : list LayerLuksVolumeRow; LinstorRemotes : list LinstorRemoteRow }.

(** ** Flags (flags.go) *)

Definition has_bit (flags bit : Z) : bool := negb (Z.land flags bit =? 0).
Definition resourceFlagDelete : Z := Z.shiftl 1 1.
Definition resourceFlagDiskless : Z := Z.shiftl 1 2.
Definition resourceFlagTieBreaker : Z := Z.shiftl 1 7.
Definition resourceFlagDrbdDiskless : Z := Z.shiftl 1 8.
Definition snapDfnFlagSuccessful : Z := Z.shiftl 1 0.
Definition snapDfnFlagFailedDeployment : Z := Z.shiftl 1 1.
Definition flagStrDiskless : string := "DISKLESS".
Definition flagStrDrbdDiskless : string := "DRBD_DISKLESS".
Definition flagStrTieBreaker : string := "TIE_BREAKER".
Definition decodeResourceFlags (flags : Z) : list string * Z :=
  let diskless := has_bit flags resourceFlagDiskless in
  let '(out, rest) := if diskless then ([flagStrDiskless], Z.ldiff flags resourceFlagDiskless) else ([], flags) in
  let '(out, rest) := if has_bit flags resourceFlagDrbdDiskless then (out ++ [flagStrDrbdDiskless], Z.ldiff rest resourceFlagDrbdDiskless) else (out, rest) in
  if has_bit flags resourceFlagTieBreaker && diskless then (out ++ [flagStrTieBreaker], Z.ldiff rest resourceFlagTieBreaker) else (out, rest).

(** ** Properties (props.go) *)

Definition PropsInstanceController : string := "/CTRL".
Record PropsIndex := mkPropsIndex { px_Controller : gmap string string; px_byInstance : gmap string (gmap string string) }.
Definition index_prop (idx : PropsIndex) (row : PropsContainerRow) : PropsIndex :=
  if IsPlaintextPropKey (pr_PropKey row) then idx
  else if bool_decide (pr_PropsInstance row = PropsInstanceController) then mkPropsIndex (<[pr_PropKey row := pr_PropValue row]> (px_Controller idx)) (px_byInstance idx)
  else mkPropsIndex (px_Controller idx) (<[pr_PropsInstance row := <[pr_PropKey row := pr_PropValue row]> (default ∅ (px_byInstance idx !! pr_PropsInstance row))]> (px_byInstance idx)).
Definition NewPropsIndex (rows : list PropsContainerRow) : PropsIndex := foldl index_prop (mkPropsIndex ∅ ∅) rows.
Definition props_get (idx : PropsIndex) (segments : list string) : gmap string string := default ∅ (px_byInstance idx !! ("/" +:+ Str.join "/" segments)).

(** ** The port file (ports.go) *)

Definition maxTCPPort : Z := 65535.
Fixpoint parse_ports (lines : list string) (ports : gmap string Z) : option (gmap string Z) :=
  match lines with
  | [] => Some ports
  | raw :: rest =>
      let text := Str.trim_space raw in
      if bool_decide (text = "") || Str.has_prefix "#" text then parse_ports rest ports
      else
        match fields text with
        | [name; number] =>
            match parse_int 32 number with
            | Some port => if (port <=? 0) || (maxTCPPort <? port) then None else parse_ports rest (<[Str.to_lower name := port]> ports)
            | None => None
            end
        | _ => None
        end
  end.
Definition ParseDRBDPorts (content : string) : option (gmap string Z) := parse_ports (split_char "010"%char content) ∅.

(** ** The objects *)

Record mNode := mkMNode { mn_Meta : ObjectMeta; mn_Type : string; mn_Props : gmap string string; mn_NetInterfaces : list (string * string * Z * string) }.
Record mPool := mkMPool { mp_Meta : ObjectMeta; mp_NodeName : string; mp_PoolName : string; mp_ProviderKind : string; mp_Props : gmap string string }.
Record mFilter := mkMFilter {
  mf_PlaceCount : Z; mf_StoragePoolList : list string; mf_StoragePoolDisklessList : list string; mf_NodeNameList : list string; mf_ReplicasOnSame : list string;
  mf_ReplicasOnDifferent : list string; mf_NotPlaceWithRsc : list string; mf_ProviderList : list string; mf_LayerStack : list string }.
Record mGroup := mkMGroup { mg_Meta : ObjectMeta; mg_Description : string; mg_Scope : scopeInfo; mg_SelectFilter : mFilter; mg_VolumeGroups : list Z }.
Record mVolume := mkMVolume { mv_VolumeNumber : Z; mv_SizeKib : Z; mv_Props : gmap string string; mv_DRBDMinor : option Z }.
Record mDefinition := mkMDefinition {
  md_Meta : ObjectMeta; md_ResourceGroupName : string; md_Scope : scopeInfo; md_LayerStack : list string; md_Initialized : bool; md_DRBDPort : option Z;
  md_VolumeDefinitions : list mVolume }.
Record mReplica := mkMReplica {
  mr_Meta : ObjectMeta; mr_ResourceDefinitionName : string; mr_NodeName : string; mr_Scope : scopeInfo; mr_Flags : list string; mr_DRBDNodeID : option Z;
  mr_SkipInitialSync : bool; mr_StoragePool : string; mr_DRBDPort : option Z }.
Record mSnapshot := mkMSnapshot {
  ms_Meta : ObjectMeta; ms_ResourceDefinitionName : string; ms_SnapshotName : string; ms_Props : gmap string string; ms_Nodes : list string; ms_VolumeDefinitions : list (Z * Z) }.
Record Result := mkResult {
  rs_ControllerConfig : option (option DRBDOptions * gmap string string); rs_Nodes : list mNode; rs_StoragePools : list mPool; rs_ResourceGroups : list mGroup;
  rs_ResourceDefinitions : list mDefinition; rs_Resources : list mReplica; rs_Snapshots : list mSnapshot }.

(** ** The report *)

Inductive own_stack := NoStack | UnreadableStack (raw : string).
Inductive stack_reason := UnchainedReplica (own : own_stack) (node : string) | BuiltDifferently (own : own_stack) (stacks : list string) | BuiltOtherwise (stack key : string).
Inductive meta_scope := OnVolumeDefinition (rd vlm : string) | OnVolumeGroup (rg vlm : string) | OnReplica (node : string) | OnDefinition | OnGroup (rg : string) | OnNode (node : string).
Inductive meta_reason := SeparateVolume (node : string) | UnchainedMetaPool (node pool : string) (scope : meta_scope).
Inductive volumeless := AllVolumesDeleted | NoVolumeDefinitions.
Inductive warning :=
| RemoteDropped (name url : string)
| LayerSuffixDropped (rd suffix : string)
| UnreadableStackReplaced (rd raw stack : string)
| UnreadableStackUnset (rd raw : string)
| UnknownNodeType (node : string) (type : Z)
| ControllerSkipped (node : string)
| NodeFlagsReported (node : string) (flags : Z)
| PoolSkipped (pool node : string)
| PoolRemapped (pool node : string)
| VolumeGroupFlagsDropped (rg : string) (vlm flags : Z)
| ListDropped (context raw : string)
| RemapScoped (rg : string) (before after : list string)
| RemapUnresolvable (rg : string) (stillPlaceable : bool)
| RemapWidening (rg : string)
| AllowListKept (rg : string)
| PinnedToPools (rg : string) (scoped excluded : nat)
| DefinitionDeleted (rd : string)
| DefinitionFlagsDropped (rd : string) (flags : Z)
| DefinitionStackRefused (rd : string) (reason : stack_reason)
| DefinitionMetaRefused (rd : string) (reason : meta_reason)
| DefinitionVolumeless (rd : string) (reason : volumeless)
| MetaPoolDropped (rd pool : string) (scope : meta_scope)
| GroupReferenceCleared (rd rg : string)
| OnlyDivergent (rd : string)
| HeldByAbsentNode (rd : string)
| OnlyDiskless (rd : string)
| NoReplicaMigrated (rd : string)
| LuksKeyNotMigrated (rd : string)
| VolumeDeleted (rd : string) (vlm : Z)
| VolumeFlagsDropped (rd : string) (vlm flags : Z)
| ReplicaDeleted (replica : string)
| ReplicaWithoutDefinition (replica : string)
| ReplicaWithoutNode (replica node : string)
| ReplicaDivergent (replica : string) (pools : list string)
| ReplicaVolumeFlags (replica : string) (vlm flags : Z)
| ReplicaFlagsDropped (replica : string) (rest flags : Z)
| NoPort (rd : string)
| SnapshotFailed (snapshot : string)
| SnapshotNotSuccessful (snapshot : string) (flags : Z)
| SnapshotWithoutDefinition (snapshot : string)
| SnapshotWithoutNode (snapshot : string)
| SnapshotPlacementDropped (snapshot node : string)
| SnapshotManyVolumes (snapshot : string) (volumes : nat).

(** Warnings, and the keys of those given once. *)
Record report := mkReport { rp_warnings : list warning; rp_warnedKey : gset string }.
Definition conv (A : Type) : Type := report -> A * report.
#[global] Instance conv_ret : MRet conv := fun A a s => (a, s).
#[global] Instance conv_bind : MBind conv := fun A B f m s => let '(a, s') := m s in f a s'.
Definition warnf (w : warning) : conv unit := fun s => (tt, mkReport (rp_warnings s ++ [w]) (rp_warnedKey s)).
Definition warnOncef (key : string) (w : warning) : conv unit := fun s =>
  if bool_decide (key ∈ rp_warnedKey s) then (tt, s) else (tt, mkReport (rp_warnings s ++ [w]) ({[key]} ∪ rp_warnedKey s)).
(** A loop over the rows of a table. *)
Fixpoint for_rows {A S} (body : A -> S -> conv S) (rows : list A) (s : S) : conv S :=
  match rows with [] => mret s | row :: rest => s ← body row s; for_rows body rest s end.
Definition when (b : bool) (m : conv unit) : conv unit := if b then m else mret tt.

(** Sorting by a key. *)
Definition key_le {A} (key : A -> string) (x y : A) : Prop := String.le (key x) (key y).
#[export] Instance key_le_dec {A} (key : A -> string) : RelDecision (key_le key).
Proof. intros x y. unfold key_le. apply _. Defined.
Definition sortByName {A} (key : A -> string) (l : list A) : list A := merge_sort (key_le key) l.
Definition number_le {A} (key : A -> Z) (x y : A) : Prop := key x <= key y.
#[export] Instance number_le_dec {A} (key : A -> Z) : RelDecision (number_le key).
Proof. intros x y. unfold number_le. apply _. Defined.
Definition sort_by_number {A} (key : A -> Z) (l : list A) : list A := merge_sort (number_le key) l.

(** ** Indexes *)

Definition drbdSharedSecretProp : string := "DrbdOptions/Net/shared-secret".
Definition nodeTypeController : string := "CONTROLLER".
Definition nodeTypeName (nodeType : Z) : string :=
  if nodeType =? 1 then nodeTypeController else if nodeType =? 2 then "SATELLITE" else if nodeType =? 3 then "COMBINED" else if nodeType =? 4 then "AUXILIARY" else "".
Definition displayName (dsp key : string) : string := if negb (bool_decide (dsp = "")) then dsp else key.
Definition objectMeta (original : string) : ObjectMeta := SetOriginalName (mkObjectMeta (Name original) None) original.
Definition has_suffix (suffix s : string) : bool := Str.has_prefix (Str.rev suffix) (Str.rev s).
Definition emptyList (raw : string) : bool := bool_decide (raw = "") || bool_decide (raw = "[]") || bool_decide (raw = "null").

Record index := mkIndex {
  ix_nodeDsp : gmap string string; ix_poolDsp : gmap string string; ix_rgDsp : gmap string string; ix_rdDsp : gmap string string;
  ix_drbdRD : gmap string LayerDrbdResourceDefinitionRow; ix_drbdMinor : gmap (string * Z) Z; ix_drbdNode : gmap (string * string) Z;
  ix_storVol : gmap (string * string * Z) LayerStorageVolumeRow; ix_luksVol : gmap (string * string * Z) LayerLuksVolumeRow;
  ix_diskStacks : gmap string (gmap string (list string)); ix_chained : gset (string * string) }.

(** A map filled row by row; later rows win. *)
Definition fill `{Countable K} {A V} (entry : A -> option (K * V)) (rows : list A) : gmap K V :=
  foldl (fun m row => match entry row with Some (k, v) => <[k := v]> m | None => m end) ∅ rows.

Section Convert.
Context (decode_list : string -> option (list string)). (* json.Unmarshal into a []string *)
Context (dump : Dump).
Context (DRBDPorts : gmap string Z).

Definition props : PropsIndex := NewPropsIndex (PropsContainers dump).

Definition index_layer_definition (row : LayerDrbdResourceDefinitionRow) (m : gmap string LayerDrbdResourceDefinitionRow) : conv (gmap string LayerDrbdResourceDefinitionRow) :=
  if negb (bool_decide (ldd_SnapshotName row = "")) then mret m
  else if negb (bool_decide (ldd_ResourceNameSuffix row = "")) then _ ← warnf (LayerSuffixDropped (ldd_ResourceName row) (ldd_ResourceNameSuffix row)); mret m
  else mret (<[ldd_ResourceName row := row]> m).
Definition layerByID : gmap Z LayerResourceIDRow := fill (fun row => Some (lr_LayerResourceID row, row)) (LayerResourceIDs dump).
Definition baseLayer (id : Z) : option LayerResourceIDRow :=
  match layerByID !! id with
  | Some lri => if negb (bool_decide (lr_SnapshotName lri = "")) || negb (bool_decide (lr_LayerResourceSuffix lri = "")) then None else Some lri
  | None => None
  end.
Definition replica_of (lri : LayerResourceIDRow) : string * string := (lr_NodeName lri, lr_ResourceName lri).

(** The chain of layers of a replica (indexDiskStacks). *)
Definition layer_children : gmap Z LayerResourceIDRow :=
  fill (fun row => match lr_LayerResourceParentID row with
                   | Some parent => if bool_decide (lr_LayerResourceSuffix row = "") then Some (parent, row) else None
                   | None => None
                   end) (LayerResourceIDs dump).
Fixpoint chain_of_layers (fuel : nat) (cur : LayerResourceIDRow) : list string :=
  match fuel with
  | O => []
  | S fuel => lr_LayerResourceKind cur :: match layer_children !! lr_LayerResourceID cur with Some child => chain_of_layers fuel child | None => [] end
  end.
Definition stack_of (row : LayerResourceIDRow) : list string := chain_of_layers (S (length (LayerResourceIDs dump))) row.
Definition diskless_replicas : gset (string * string) :=
  list_to_set (map (fun r => (re_NodeName r, re_ResourceName r)) (filter (fun r => re_SnapshotName r = "" /\ has_bit (re_ResourceFlags r) resourceFlagDiskless = true) (Resources dump))).
Definition is_root (row : LayerResourceIDRow) : bool :=
  match lr_LayerResourceParentID row with
  | Some _ => false
  | None => bool_decide (lr_SnapshotName row = "") && bool_decide (lr_LayerResourceSuffix row = "") && negb (bool_decide (replica_of row ∈ diskless_replicas))
  end.
Definition index_stack (acc : gmap string (gmap string (list string)) * gset (string * string)) (row : LayerResourceIDRow) : gmap string (gmap string (list string)) * gset (string * string) :=
  let '(stacks, chained) := acc in
  if is_root row then
    (<[lr_ResourceName row := <[Str.join "," (stack_of row) := stack_of row]> (default ∅ (stacks !! lr_ResourceName row))]> stacks, {[replica_of row]} ∪ chained)
  else acc.
Definition indexDiskStacks : gmap string (gmap string (list string)) * gset (string * string) := foldl index_stack (∅, ∅) (LayerResourceIDs dump).

Definition index_with (drbdRD : gmap string LayerDrbdResourceDefinitionRow) : index :=
  mkIndex
    (fill (fun row => Some (no_NodeName row, displayName (no_NodeDspName row) (no_NodeName row))) (Nodes dump))
    (fill (fun row => Some (spd_PoolName row, displayName (spd_PoolDspName row) (spd_PoolName row))) (StorPoolDefinitions dump))
    (fill (fun row => Some (rg_ResourceGroupName row, displayName (rg_ResourceGroupDspName row) (rg_ResourceGroupName row))) (ResourceGroups dump))
    (fill (fun row => if bool_decide (rd_SnapshotName row = "") then Some (rd_ResourceName row, displayName (rd_ResourceDspName row) (rd_ResourceName row)) else None) (ResourceDefinitions dump))
    drbdRD
    (fill (fun row => match ldvd_VlmMinorNr row with
                      | Some minor => if bool_decide (ldvd_SnapshotName row = "") && bool_decide (ldvd_ResourceNameSuffix row = "") then Some ((ldvd_ResourceName row, ldvd_VlmNr row), minor) else None
                      | None => None
                      end) (LayerDrbdVolumeDefinitions dump))
    (fill (fun row => (fun lri => (replica_of lri, ldr_NodeID row)) <$> baseLayer (ldr_LayerResourceID row)) (LayerDrbdResources dump))
    (fill (fun row => (fun lri => ((replica_of lri, lsv_VlmNr row), row)) <$> baseLayer (lsv_LayerResourceID row)) (LayerStorageVolumes dump))
    (fill (fun row => (fun lri => ((replica_of lri, llv_VlmNr row), row)) <$> baseLayer (llv_LayerResourceID row)) (LayerLuksVolumes dump))
    indexDiskStacks.1 indexDiskStacks.2.
Definition buildIndexes : conv index := drbdRD ← for_rows index_layer_definition (LayerDrbdResourceDefinitions dump) ∅; mret (index_with drbdRD).

Definition parseList (raw context : string) : conv (list string) :=
  if emptyList raw then mret []
  else match decode_list raw with None => _ ← warnf (ListDropped context raw); mret [] | Some out => mret out end.
(** [None]: a column that cannot be read. *)
Definition rowLayerStack (row : ResourceDefinitionRow) : option (list string) := if emptyList (rd_LayerStack row) then Some [] else decode_list (rd_LayerStack row).

Definition convertControllerConfig : option (option DRBDOptions * gmap string string) :=
  let drbdProps := filter (fun kv => Str.has_prefix "DrbdOptions/" kv.1 = true) (px_Controller props) in
  if bool_decide (drbdProps = ∅) then None else Some (sc_Typed (SplitProps drbdProps), sc_Extras (SplitProps drbdProps)).

Definition reportRemotes : conv unit :=
  for_rows (fun r _ => when (negb (has_suffix "-GENERATED-BY-LINSTOR" (lre_Name r))) (warnf (RemoteDropped (displayName (lre_DspName r) (lre_Name r)) (lre_URL r)))) (LinstorRemotes dump) tt.

(** ** Nodes and pools *)

Definition netInterfacesFor (nodeName : string) : list NodeNetInterfaceRow := sortByName ni_NodeNetName (filter (fun n => ni_NodeName n = nodeName) (NodeNetInterfaces dump)).
Definition migrated_node (row : NodeRow) : mNode :=
  mkMNode (objectMeta (displayName (no_NodeDspName row) (no_NodeName row))) (nodeTypeName (no_NodeType row)) (props_get props ["NODES"; no_NodeName row])
    (map (fun n => (displayName (ni_NodeNetDspName n) (ni_NodeNetName n), ni_InetAddress n, default 0 (ni_StltConnPort n), ni_StltConnEncrType n)) (netInterfacesFor (no_NodeName row))).
Definition convert_node (row : NodeRow) (acc : list mNode * gset string) : conv (list mNode * gset string) :=
  let '(nodes, converted) := acc in
  if bool_decide (nodeTypeName (no_NodeType row) = "") then _ ← warnf (UnknownNodeType (no_NodeDspName row) (no_NodeType row)); mret acc
  else if bool_decide (nodeTypeName (no_NodeType row) = nodeTypeController) then _ ← warnf (ControllerSkipped (no_NodeDspName row)); mret acc
  else
    _ ← when (negb (no_NodeFlags row =? 0)) (warnf (NodeFlagsReported (displayName (no_NodeDspName row) (no_NodeName row)) (no_NodeFlags row)));
    mret (nodes ++ [migrated_node row], {[no_NodeName row]} ∪ converted).
Definition convertNodes : conv (list mNode * gset string) :=
  acc ← for_rows convert_node (Nodes dump) ([], ∅); mret (sortByName (fun n => meta_Name (mn_Meta n)) acc.1, acc.2).

Definition providerKindZFS : string := "ZFS".
Definition providerKindZFSThin : string := "ZFS_THIN".
Definition storDriverZfscreateOptions : string := "StorDriver/ZfscreateOptions".
Definition createsSparseZvols (driver options : string) : bool := bool_decide (driver = providerKindZFS) && bool_decide ("-s" ∈ fields options).
Definition zfscreateOptions (node pool : string) : string :=
  default "" (foldr (fun (bag : gmap string string) rest => match bag !! storDriverZfscreateOptions with Some v => Some v | None => rest end) None
    [props_get props ["STOR_POOLS"; node; pool]; props_get props ["NODES"; node]; px_Controller props]).

Section Objects.
Context (ix : index).
Definition displayNode (name : string) : string := displayName (default "" (ix_nodeDsp ix !! name)) name.
Definition displayRD (name : string) : string := displayName (default "" (ix_rdDsp ix !! name)) name.
Definition displayRG (name : string) : string := if bool_decide (name = "") then "" else displayName (default "" (ix_rgDsp ix !! name)) name.
Definition displayPool (name : string) : string := displayName (default "" (ix_poolDsp ix !! name)) name.

(** The pools, and the names the groups have to know about. *)
Record pools_acc := mkPoolsAcc { po_pools : list mPool; po_remapped : gset string; po_declaredThin : gset string; po_declaredZFS : gset string; po_zfsAfter : gset string }.
Definition kind_after (row : NodeStorPoolRow) : string :=
  if createsSparseZvols (sp_DriverName row) (zfscreateOptions (sp_NodeName row) (sp_PoolName row)) then providerKindZFSThin else sp_DriverName row.
Definition add_if (b : bool) (k : string) (s : gset string) : gset string := if b then {[k]} ∪ s else s.
Definition pool_object (row : NodeStorPoolRow) : mPool :=
  let nodeDsp := displayNode (sp_NodeName row) in
  let poolDsp := displayPool (sp_PoolName row) in
  mkMPool (objectMeta (Str.to_lower poolDsp +:+ "." +:+ Str.to_lower nodeDsp)) nodeDsp poolDsp (kind_after row) (props_get props ["STOR_POOLS"; sp_NodeName row; sp_PoolName row]).
Definition convert_pool (convertedNode : gset string) (row : NodeStorPoolRow) (acc : pools_acc) : conv pools_acc :=
  if negb (bool_decide (sp_NodeName row ∈ convertedNode)) then _ ← warnf (PoolSkipped (displayPool (sp_PoolName row)) (displayNode (sp_NodeName row))); mret acc
  else
    let sparse := createsSparseZvols (sp_DriverName row) (zfscreateOptions (sp_NodeName row) (sp_PoolName row)) in
    _ ← when sparse (warnf (PoolRemapped (displayPool (sp_PoolName row)) (displayNode (sp_NodeName row))));
    mret (mkPoolsAcc
      (po_pools acc ++ [pool_object row])
      (add_if sparse (sp_PoolName row) (po_remapped acc))
      (add_if (bool_decide (sp_DriverName row = providerKindZFSThin)) (sp_PoolName row) (po_declaredThin acc))
      (add_if (bool_decide (sp_DriverName row = providerKindZFS)) (sp_PoolName row) (po_declaredZFS acc))
      (add_if (bool_decide (kind_after row = providerKindZFS)) (sp_PoolName row) (po_zfsAfter acc))).
Definition convertStoragePools (convertedNode : gset string) : conv pools_acc :=
  acc ← for_rows (convert_pool convertedNode) (NodeStorPools dump) (mkPoolsAcc [] ∅ ∅ ∅ ∅);
  mret (mkPoolsAcc (sortByName (fun p => meta_Name (mp_Meta p)) (po_pools acc)) (po_remapped acc) (po_declaredThin acc) (po_declaredZFS acc) (po_zfsAfter acc)).

(** ** Resource groups *)

Section Groups.
Context (convertedNode : gset string) (pa : pools_acc).
Definition scopePins (pinned : list string) (excluded : gset string) : option (list string) :=
  foldr (fun pool k kept =>
    let key := Str.to_upper pool in
    if negb (bool_decide (key ∈ excluded)) then k (kept ++ [pool])
    else if bool_decide (key ∈ po_declaredZFS pa) then None else k kept) Some pinned [].
Definition canStillPlace (pinned : list string) : bool := existsb (fun pool => bool_decide (Str.to_upper pool ∈ po_zfsAfter pa)) pinned.
Definition reaches (pinned : list string) (set : gset string) : bool :=
  if bool_decide (pinned = []) then negb (bool_decide (set = ∅)) else existsb (fun pool => bool_decide (Str.to_upper pool ∈ set)) pinned.
Fixpoint pools_except (excluded seen : gset string) (rows : list NodeStorPoolRow) : list string :=
  match rows with
  | [] => []
  | row :: rest =>
      if bool_decide (sp_PoolName row ∈ excluded) || bool_decide (sp_PoolName row ∈ seen) || negb (bool_decide (sp_NodeName row ∈ convertedNode)) then pools_except excluded seen rest
      else displayPool (sp_PoolName row) :: pools_except excluded ({[sp_PoolName row]} ∪ seen) rest
  end.
Definition poolsExcept (excluded : gset string) : list string := sortByName id (pools_except excluded ∅ (NodeStorPools dump)).

(** The provider list and the pools of a group. *)
Definition placementLists (row : ResourceGroupRow) (dsp : string) : conv (list string * list string) :=
  providers ← parseList (rg_AllowedProviderList row) ("resource group " +:+ dsp +:+ " allowed_provider_list");
  pools ← parseList (rg_PoolName row) ("resource group " +:+ dsp +:+ " pool_name");
  if negb (bool_decide (providerKindZFS ∈ providers)) || bool_decide (providerKindZFSThin ∈ providers) then mret (providers, pools)
  else if negb (reaches pools (po_remapped pa)) then mret (providers, pools)
  else
    let widened := providers ++ [providerKindZFSThin] in
    let excluded := po_declaredThin pa in
    if negb (bool_decide (pools = [])) then
      match scopePins pools excluded with
      | None => _ ← warnf (RemapUnresolvable dsp (canStillPlace pools)); mret (providers, pools)
      | Some scoped =>
          if (length scoped <? length pools)%nat then _ ← warnf (RemapScoped dsp pools scoped); mret (widened, scoped)
          else _ ← warnf (RemapWidening dsp); mret (widened, pools)
      end
    else if bool_decide (excluded = ∅) then _ ← warnf (RemapWidening dsp); mret (widened, pools)
    else
      let scoped := poolsExcept excluded in
      if bool_decide (scoped = []) then _ ← warnf (AllowListKept dsp); mret (providers, pools)
      else _ ← warnf (PinnedToPools dsp (length scoped) (size excluded)); mret (widened, scoped).

Definition volumeGroupsFor (rgName : string) : list VolumeGroupRow := sort_by_number vg_VlmNr (filter (fun vg => vg_ResourceGroupName vg = rgName) (VolumeGroups dump)).
Definition convert_volume_group (dsp : string) (vg : VolumeGroupRow) (acc : list Z) : conv (list Z) :=
  _ ← when (negb (vg_Flags vg =? 0)) (warnf (VolumeGroupFlagsDropped dsp (vg_VlmNr vg) (vg_Flags vg))); mret (acc ++ [vg_VlmNr vg]).
Definition convert_group (row : ResourceGroupRow) (acc : list mGroup * gset string) : conv (list mGroup * gset string) :=
  let dsp := displayName (rg_ResourceGroupDspName row) (rg_ResourceGroupName row) in
  let context column := "resource group " +:+ dsp +:+ " " +:+ column in
  lists ← placementLists row dsp;
  diskless ← parseList (rg_PoolNameDiskless row) (context "pool_name_diskless");
  nodes ← parseList (rg_NodeNameList row) (context "node_name_list");
  same ← parseList (rg_ReplicasOnSame row) (context "replicas_on_same");
  different ← parseList (rg_ReplicasOnDifferent row) (context "replicas_on_different");
  notWith ← parseList (rg_DoNotPlaceWithRsc row) (context "do_not_place_with_rsc_list");
  stack ← parseList (rg_LayerStack row) (context "layer_stack");
  volumes ← for_rows (convert_volume_group dsp) (volumeGroupsFor (rg_ResourceGroupName row)) [];
  mret (acc.1 ++ [mkMGroup (objectMeta dsp) (rg_Description row) (SplitProps (props_get props ["RSC_GRPS"; rg_ResourceGroupName row]))
                    (mkMFilter (rg_ReplicaCount row) lists.2 diskless nodes same different notWith lists.1 stack) volumes],
        {[rg_ResourceGroupName row]} ∪ acc.2).
Definition convertResourceGroups : conv (list mGroup * gset string) :=
  acc ← for_rows convert_group (ResourceGroups dump) ([], ∅); mret (sortByName (fun g => meta_Name (mg_Meta g)) acc.1, acc.2).
End Groups.

(** ** Layer stacks *)

Definition live_diskful (rdName : string) (r : ResourceRow) : bool :=
  bool_decide (re_ResourceName r = rdName) && bool_decide (re_SnapshotName r = "") && negb (has_bit (re_ResourceFlags r) resourceFlagDiskless).
(** The node of a replica without a chain; empty for none. *)
Definition unchainedReplica (rdName : string) : string :=
  default "" $ (fun x => re_NodeName x.2) <$> list_find (fun r => live_diskful rdName r = true /\ (re_NodeName r, re_ResourceName r) ∉ ix_chained ix) (Resources dump).
Definition stack_keys (rdName : string) : list string := sorted_keys (default ∅ (ix_diskStacks ix !! rdName)).
Definition stackDisagreement (row : ResourceDefinitionRow) : option stack_reason :=
  let own := match rowLayerStack row with Some _ => NoStack | None => UnreadableStack (rd_LayerStack row) end in
  let stack := default [] (rowLayerStack row) in
  let keys := stack_keys (rd_ResourceName row) in
  if bool_decide (stack = []) then
    let node := unchainedReplica (rd_ResourceName row) in
    if negb (bool_decide (node = "")) then Some (UnchainedReplica own (displayNode node))
    else if (1 <? length keys)%nat then Some (BuiltDifferently own keys) else None
  else (fun x => BuiltOtherwise (Str.join "," stack) x.2) <$> list_find (fun key => key <> Str.join "," stack) keys.
Definition rdLayerStack (row : ResourceDefinitionRow) (dsp : string) : conv (list string) :=
  let unreadable := match rowLayerStack row with Some _ => false | None => true end in
  let stack := default [] (rowLayerStack row) in
  if negb (bool_decide (stack = [])) then mret stack
  else
    match stack_keys (rd_ResourceName row) with
    | [key] =>
        _ ← when unreadable (warnf (UnreadableStackReplaced dsp (rd_LayerStack row) key));
        mret (default [] (default ∅ (ix_diskStacks ix !! rd_ResourceName row) !! key))
    | _ => _ ← when unreadable (warnf (UnreadableStackUnset dsp (rd_LayerStack row))); mret []
    end.

(** ** External metadata *)

Definition drbdMetaSuffix : string := ".meta".
Definition storPoolNameDrbdMeta : string := "StorPoolNameDrbdMeta".
Definition drbdMetaInternal : string := ".internal".
Definition isExternalMetaPool (pool : string) : bool := negb (bool_decide (Str.trim_space pool = "")) && negb (Str.equal_fold pool drbdMetaInternal).
(** One stack is left when it is asked for (stackDisagreement). *)
Definition runsDRBD (row : ResourceDefinitionRow) : bool :=
  let own := default [] (rowLayerStack row) in
  let stack := if bool_decide (own = []) then foldl (fun _ kv => kv.2) [] (map_to_list (default ∅ (ix_diskStacks ix !! rd_ResourceName row))) else own in
  bool_decide (stack = []) || existsb (fun kind => Str.equal_fold kind "DRBD") stack.
Definition deletedReplicaNodes (rdName : string) : gset string :=
  list_to_set (map re_NodeName (filter (fun r => re_ResourceName r = rdName /\ re_SnapshotName r = "" /\ has_bit (re_ResourceFlags r) resourceFlagDelete = true) (Resources dump))).
Definition live_volume (rdName : string) (vd : VolumeDefinitionRow) : bool :=
  bool_decide (vd_ResourceName vd = rdName) && bool_decide (vd_SnapshotName vd = "") && negb (has_bit (vd_VlmFlags vd) resourceFlagDelete).
Definition liveVolumes (rdName : string) : gset Z := list_to_set (map vd_VlmNr (filter (fun vd => live_volume rdName vd = true) (VolumeDefinitions dump))).
Definition storage_volumes_of (id : Z) : list Z := map lsv_VlmNr (filter (fun row => lsv_LayerResourceID row = id) (LayerStorageVolumes dump)).
(** By the order of their ids. *)
Definition liveMetaChild (children : gmap Z LayerResourceIDRow) (live : gset Z) : string :=
  match list_find (fun id => storage_volumes_of id = [] \/ Exists (fun nr => nr ∈ live) (storage_volumes_of id)) (merge_sort Z.le (map_to_list children).*1) with
  | Some (_, id) => default "" (lr_NodeName <$> children !! id)
  | None => ""
  end.
Definition live_layer (rdName : string) (row : LayerResourceIDRow) : bool :=
  bool_decide (lr_ResourceName row = rdName) && bool_decide (lr_SnapshotName row = "") && negb (bool_decide (lr_NodeName row ∈ deletedReplicaNodes rdName)).
Definition layers_with (rdName : string) (meta : bool) : gmap Z LayerResourceIDRow :=
  fill (fun row => if live_layer rdName row && Bool.eqb (bool_decide (lr_LayerResourceSuffix row = drbdMetaSuffix)) meta then Some (lr_LayerResourceID row, row) else None) (LayerResourceIDs dump).
Definition externalMetadataReplica (rdName : string) : string :=
  let child := liveMetaChild (layers_with rdName true) (liveVolumes rdName) in
  if negb (bool_decide (child = "")) then child
  else
    match list_find (fun vol => is_Some (layers_with rdName false !! ldv_LayerResourceID vol) /\ ldv_VlmNr vol ∈ liveVolumes rdName /\ isExternalMetaPool (ldv_PoolName vol) = true)
            (LayerDrbdVolumes dump) with
    | Some (_, vol) => default "" (lr_NodeName <$> layers_with rdName false !! ldv_LayerResourceID vol)
    | None => ""
    end.

Definition meta_of (bag : gmap string string) : string := default "" (bag !! storPoolNameDrbdMeta).
Definition first_set (scopes : list (gmap string string * meta_scope)) : option (string * meta_scope) :=
  foldr (fun s rest => if negb (bool_decide (meta_of s.1 = "")) then Some (meta_of s.1, s.2) else rest) None scopes.
Definition resourceGroupProps (rg : string) : gmap string string := if bool_decide (rg = "") then ∅ else props_get props ["RSC_GRPS"; rg].
Definition resourceGroupVolumeProps (rg vlm : string) : gmap string string := if bool_decide (rg = "") then ∅ else props_get props ["VLM_GRPS"; rg; vlm].
Definition drbdMetaPools (row : ResourceDefinitionRow) (node : string) : list (string * meta_scope) :=
  let rd := rd_ResourceName row in
  let rg := rd_ResourceGroupName row in
  let shared := [(props_get props ["RSCS"; node; rd], OnReplica (displayNode node)); (props_get props ["RSC_DFNS"; rd], OnDefinition);
                 (resourceGroupProps rg, OnGroup rg); (props_get props ["NODES"; node], OnNode (displayNode node))] in
  let vols := filter (fun vd => live_volume rd vd = true) (VolumeDefinitions dump) in
  let of_volume vd :=
    let vlm := format_int (vd_VlmNr vd) in
    option_list (first_set ((props_get props ["VLM_DFNS"; rd; vlm], OnVolumeDefinition (displayRD rd) vlm) :: (resourceGroupVolumeProps rg vlm, OnVolumeGroup rg vlm) :: shared)) in
  if bool_decide (vols = []) then option_list (first_set shared) else vols ≫= of_volume.

(** Refused, or converted with the note that a meta pool is set. *)
Inductive meta_verdict := MetaRefused (reason : meta_reason) | MetaInternal (note : option (string * meta_scope)).
Definition kept_replica (rdName : string) (r : ResourceRow) : bool := live_diskful rdName r && negb (has_bit (re_ResourceFlags r) resourceFlagDelete).
Fixpoint check_replicas (row : ResourceDefinitionRow) (rows : list ResourceRow) (internal : option (string * meta_scope)) : meta_verdict :=
  match rows with
  | [] => MetaInternal internal
  | res :: rest =>
      if negb (kept_replica (rd_ResourceName row) res) then check_replicas row rest internal
      else
        match drbdMetaPools row (re_NodeName res) with
        | [] => check_replicas row rest internal
        | mp :: more =>
            match (if bool_decide ((re_NodeName res, rd_ResourceName row) ∈ ix_chained ix) then None else list_find (fun p => isExternalMetaPool p.1 = true) (mp :: more)) with
            | Some (_, p) => MetaRefused (UnchainedMetaPool (displayNode (re_NodeName res)) p.1 p.2)
            | None => check_replicas row rest (match internal with None => Some mp | Some _ => internal end)
            end
        end
  end.
Definition externalMetadataReason (row : ResourceDefinitionRow) : meta_verdict :=
  let node := externalMetadataReplica (rd_ResourceName row) in
  if negb (bool_decide (node = "")) then MetaRefused (SeparateVolume (displayNode node))
  else if negb (runsDRBD row) then MetaInternal None else check_replicas row (Resources dump) None.
Definition withoutDroppedMetaPool (dropped : gset string) (rdName : string) (bag : gmap string string) : gmap string string :=
  if bool_decide (rdName ∈ dropped) then delete storPoolNameDrbdMeta bag else bag.

(** ** Resource definitions *)

Definition own_volume (rdName snapName : string) (vd : VolumeDefinitionRow) : bool := bool_decide (vd_ResourceName vd = rdName) && bool_decide (vd_SnapshotName vd = snapName).
Definition volumelessReason (rdName : string) : option volumeless :=
  let own := filter (fun vd => own_volume rdName "" vd = true) (VolumeDefinitions dump) in
  if existsb (fun vd => negb (has_bit (vd_VlmFlags vd) resourceFlagDelete)) own then None
  else Some (if bool_decide (own = []) then NoVolumeDefinitions else AllVolumesDeleted).
(** Whether the definition converts; and whether its meta pool is dropped. *)
Definition rdConvertible (row : ResourceDefinitionRow) (dsp : string) : conv (option bool) :=
  if has_bit (rd_ResourceFlags row) resourceFlagDelete then _ ← warnf (DefinitionDeleted dsp); mret None
  else
    _ ← when (negb (rd_ResourceFlags row =? 0)) (warnf (DefinitionFlagsDropped dsp (rd_ResourceFlags row)));
    match stackDisagreement row with
    | Some reason => _ ← warnf (DefinitionStackRefused dsp reason); mret None
    | None =>
        match externalMetadataReason row with
        | MetaRefused reason => _ ← warnf (DefinitionMetaRefused dsp reason); mret None
        | MetaInternal internal =>
            match volumelessReason (rd_ResourceName row) with
            | Some reason => _ ← warnf (DefinitionVolumeless dsp reason); mret None
            | None =>
                match internal with
                | Some (pool, scope) => _ ← warnf (MetaPoolDropped dsp pool scope); mret (Some true)
                | None => mret (Some false)
                end
            end
        end
    end.

Definition replicaPoolDivergence (row : ResourceRow) : option (list string) :=
  let seen : gset string := list_to_set (map (fun kv => displayPool (lsv_StorPoolName kv.2)) (filter (fun kv => kv.1.1 = (re_NodeName row, re_ResourceName row)) (map_to_list (ix_storVol ix)))) in
  if (size seen <? 2)%nat then None else Some (merge_sort String.le (elements seen)).

Record rdLatchState := mkLatch { la_adopted : bool; la_heldByAbsentNode : bool; la_onlyDivergent : bool; la_onlyDiskless : bool }.
Fixpoint latch_loop (convertedNode : gset string) (rdName : string) (rows : list ResourceRow) (state : rdLatchState) : rdLatchState :=
  match rows with
  | [] => state
  | row :: rest =>
      if negb (bool_decide (re_ResourceName row = rdName)) || negb (bool_decide (re_SnapshotName row = "")) then latch_loop convertedNode rdName rest state
      else if has_bit (re_ResourceFlags row) resourceFlagDelete then latch_loop convertedNode rdName rest state
      else if negb (bool_decide (re_NodeName row ∈ convertedNode)) then
        latch_loop convertedNode rdName rest (mkLatch (la_adopted state) true (la_onlyDivergent state) (la_onlyDiskless state))
      else if has_bit (re_ResourceFlags row) resourceFlagDiskless then
        latch_loop convertedNode rdName rest (mkLatch (la_adopted state) (la_heldByAbsentNode state) (la_onlyDivergent state) true)
      else
        match replicaPoolDivergence row with
        | Some _ => latch_loop convertedNode rdName rest (mkLatch true (la_heldByAbsentNode state) true (la_onlyDiskless state))
        | None => mkLatch true (la_heldByAbsentNode state) false false
        end
  end.
Definition rdInitializedLatch (convertedNode : gset string) (rdName : string) : rdLatchState := latch_loop convertedNode rdName (Resources dump) (mkLatch false false false false).
Definition reportLatch (dsp : string) (latch : rdLatchState) (adopted : bool) : conv unit :=
  _ ← when (la_onlyDivergent latch) (warnf (OnlyDivergent dsp));
  _ ← when (la_heldByAbsentNode latch) (warnf (HeldByAbsentNode dsp));
  if adopted then mret tt else if la_onlyDiskless latch then warnf (OnlyDiskless dsp) else warnf (NoReplicaMigrated dsp).

Definition resolveDRBDPort (rdName : string) (dumpPort : option Z) (rdDsp : string) : conv (option Z) :=
  match DRBDPorts !! Str.to_lower rdName with
  | Some live => mret (Some live)
  | None =>
      match dumpPort with
      | Some port => if 0 <? port then mret (Some port) else _ ← warnOncef ("drbdport:" +:+ rdName) (NoPort rdDsp); mret None
      | None => _ ← warnOncef ("drbdport:" +:+ rdName) (NoPort rdDsp); mret None
      end
  end.
Definition convert_volume (rdName rdDsp : string) (vd : VolumeDefinitionRow) (out : list mVolume) : conv (list mVolume) :=
  if negb (own_volume rdName "" vd) then mret out
  else if has_bit (vd_VlmFlags vd) resourceFlagDelete then _ ← warnf (VolumeDeleted rdDsp (vd_VlmNr vd)); mret out
  else
    _ ← when (negb (vd_VlmFlags vd =? 0)) (warnf (VolumeFlagsDropped rdDsp (vd_VlmNr vd) (vd_VlmFlags vd)));
    mret (out ++ [mkMVolume (vd_VlmNr vd) (vd_VlmSize vd) (props_get props ["VLM_DFNS"; rdName; format_int (vd_VlmNr vd)]) (ix_drbdMinor ix !! (rdName, vd_VlmNr vd))]).
Definition volumeDefinitionsFor (rdName rdDsp : string) : conv (list mVolume) :=
  out ← for_rows (convert_volume rdName rdDsp) (VolumeDefinitions dump) []; mret (sort_by_number mv_VolumeNumber out).
Definition rdHasLuks (rdName : string) : bool := existsb (fun kv => bool_decide (kv.1.1.2 = rdName)) (map_to_list (ix_luksVol ix)).
(** The port, the secret among the properties, and the volumes. *)
Definition attachRDLayerFields (row : ResourceDefinitionRow) (dsp : string) (extra : gmap string string) : conv (option Z * gmap string string * list mVolume) :=
  port_extra ← (match ix_drbdRD ix !! rd_ResourceName row with
                | Some drbd =>
                    port ← resolveDRBDPort (rd_ResourceName row) (ldd_TCPPort drbd) dsp;
                    mret (port, if negb (bool_decide (ldd_Secret drbd = "")) then <[drbdSharedSecretProp := ldd_Secret drbd]> extra else extra)
                | None => mret (None, extra)
                end);
  volumes ← volumeDefinitionsFor (rd_ResourceName row) dsp;
  _ ← when (rdHasLuks (rd_ResourceName row)) (warnf (LuksKeyNotMigrated dsp));
  mret (port_extra, volumes).

(** Definitions, the names converted, the names whose meta pool is dropped. *)
Record rds_acc := mkRdsAcc { da_defs : list mDefinition; da_converted : gset string; da_dropped : gset string }.
Definition convert_definition (convertedNode convertedRG : gset string) (row : ResourceDefinitionRow) (acc : rds_acc) : conv rds_acc :=
  if negb (bool_decide (rd_SnapshotName row = "")) then mret acc
  else
    let dsp := displayName (rd_ResourceDspName row) (rd_ResourceName row) in
    convertible ← rdConvertible row dsp;
    match convertible with
    | None => mret acc
    | Some drop =>
        let dropped := if drop : bool then {[rd_ResourceName row]} ∪ da_dropped acc else da_dropped acc in
        let dangling := negb (bool_decide (rd_ResourceGroupName row = "")) && negb (bool_decide (rd_ResourceGroupName row ∈ convertedRG)) in
        _ ← when dangling (warnf (GroupReferenceCleared dsp (displayRG (rd_ResourceGroupName row))));
        let scope := SplitProps (withoutDroppedMetaPool dropped (rd_ResourceName row) (props_get props ["RSC_DFNS"; rd_ResourceName row])) in
        let latch := rdInitializedLatch convertedNode (rd_ResourceName row) in
        let adopted := la_adopted latch || la_heldByAbsentNode latch in
        _ ← reportLatch dsp latch adopted;
        stack ← rdLayerStack row dsp;
        fields ← attachRDLayerFields row dsp (sc_Extras scope);
        mret (mkRdsAcc
          (da_defs acc ++ [mkMDefinition (objectMeta dsp) (if dangling then "" else displayRG (rd_ResourceGroupName row)) (mkScope (sc_Props scope) (sc_Typed scope) fields.1.2) stack adopted fields.1.1 fields.2])
          ({[rd_ResourceName row]} ∪ da_converted acc) dropped)
    end.
Definition convertResourceDefinitions (convertedNode convertedRG : gset string) : conv rds_acc :=
  acc ← for_rows (convert_definition convertedNode convertedRG) (ResourceDefinitions dump) (mkRdsAcc [] ∅ ∅);
  mret (mkRdsAcc (sortByName (fun d => meta_Name (md_Meta d)) (da_defs acc)) (da_converted acc) (da_dropped acc)).

(** ** Replicas *)

Section Replicas.
Context (convertedNode convertedRD dropped : gset string).
Definition reportReplicaVolumeFlags (row : ResourceRow) (replicaName : string) : conv unit :=
  for_rows (fun vol _ =>
    when (bool_decide (vo_NodeName vol = re_NodeName row) && bool_decide (vo_ResourceName vol = re_ResourceName row) && bool_decide (vo_SnapshotName vol = "") && negb (vo_VlmFlags vol =? 0))
      (warnf (ReplicaVolumeFlags replicaName (vo_VlmNr vol) (vo_VlmFlags vol)))) (Volumes dump) tt.
Definition buildResource (row : ResourceRow) (rdDsp nodeDsp replicaName : string) : conv mReplica :=
  let '(flags, rest) := decodeResourceFlags (re_ResourceFlags row) in
  _ ← when (negb (rest =? 0)) (warnf (ReplicaFlagsDropped replicaName rest (re_ResourceFlags row)));
  _ ← reportReplicaVolumeFlags row replicaName;
  let scope := SplitProps (withoutDroppedMetaPool dropped (re_ResourceName row) (props_get props ["RSCS"; re_NodeName row; re_ResourceName row])) in
  let pool := match ix_storVol ix !! (re_NodeName row, re_ResourceName row, 0) with
              | Some storVol => displayPool (lsv_StorPoolName storVol)
              | None => default "" (sc_Props scope !! "StorPoolName")
              end in
  port ← (match ix_drbdRD ix !! re_ResourceName row with Some drbd => resolveDRBDPort (re_ResourceName row) (ldd_TCPPort drbd) rdDsp | None => mret None end);
  mret (mkMReplica (objectMeta replicaName) rdDsp nodeDsp scope flags (ix_drbdNode ix !! (re_NodeName row, re_ResourceName row)) false pool port).
Definition convert_resource (row : ResourceRow) (acc : list mReplica) : conv (list mReplica) :=
  if negb (bool_decide (re_SnapshotName row = "")) then mret acc
  else
    let rdDsp := displayRD (re_ResourceName row) in
    let nodeDsp := displayNode (re_NodeName row) in
    let replicaName := rdDsp +:+ "." +:+ nodeDsp in
    if has_bit (re_ResourceFlags row) resourceFlagDelete then _ ← warnf (ReplicaDeleted replicaName); mret acc
    else if negb (bool_decide (re_ResourceName row ∈ convertedRD)) then _ ← warnf (ReplicaWithoutDefinition replicaName); mret acc
    else if negb (bool_decide (re_NodeName row ∈ convertedNode)) then _ ← warnf (ReplicaWithoutNode replicaName nodeDsp); mret acc
    else
      match replicaPoolDivergence row with
      | Some pools => _ ← warnf (ReplicaDivergent replicaName pools); mret acc
      | None => r ← buildResource row rdDsp nodeDsp replicaName; mret (acc ++ [r])
      end.
Definition convertResources : conv (list mReplica) := acc ← for_rows convert_resource (Resources dump) []; mret (sortByName (fun r => meta_Name (mr_Meta r)) acc).

(** ** Snapshots *)

Definition of_snapshot (rdName snapName : string) (row : ResourceRow) : bool := bool_decide (re_ResourceName row = rdName) && bool_decide (re_SnapshotName row = snapName).
Definition snapshot_node (rdName snapName snapDsp : string) (row : ResourceRow) (out : list string) : conv (list string) :=
  if negb (of_snapshot rdName snapName row) then mret out
  else if negb (bool_decide (re_NodeName row ∈ convertedNode)) then
    _ ← warnf (SnapshotPlacementDropped (displayRD rdName +:+ "." +:+ snapDsp) (displayNode (re_NodeName row))); mret out
  else mret (out ++ [displayNode (re_NodeName row)]).
Definition snapshotNodesFor (rdName snapName snapDsp : string) : conv (list string) :=
  out ← for_rows (snapshot_node rdName snapName snapDsp) (Resources dump) []; mret (merge_sort String.le out).
Definition snapshotCreatedAtFor (rdName snapName : string) : Z :=
  foldl (fun newest row => if of_snapshot rdName snapName row && (newest <? re_CreateTimestamp row) then re_CreateTimestamp row else newest) 0 (Resources dump).
Definition snapshotVolumeRefsFor (rdName snapName : string) : list (Z * Z) :=
  sort_by_number fst (map (fun vd => (vd_VlmNr vd, vd_VlmSize vd)) (filter (fun vd => own_volume rdName snapName vd = true) (VolumeDefinitions dump))).
Definition annotationAdopted : string := "blockstor.io/adopted".
Definition annotationAdoptedCreatedAt : string := "blockstor.io/adopted-created-at".
(** The annotations replace those of [objectMeta], the original spelling included. *)
Definition adopted_meta (name : string) (created : Z) : ObjectMeta :=
  let adopted := {[annotationAdopted := "true"]} : gmap string string in
  mkObjectMeta (meta_Name (objectMeta name)) (Some (if 0 <? created then <[annotationAdoptedCreatedAt := format_int created]> adopted else adopted)).
Definition buildSnapshot (row : ResourceDefinitionRow) (rdDsp snapDsp name : string) (nodes : list string) : conv mSnapshot :=
  let volumes := snapshotVolumeRefsFor (rd_ResourceName row) (rd_SnapshotName row) in
  _ ← when (1 <? length volumes)%nat (warnf (SnapshotManyVolumes name (length volumes)));
  mret (mkMSnapshot (adopted_meta name (snapshotCreatedAtFor (rd_ResourceName row) (rd_SnapshotName row))) rdDsp snapDsp
    (props_get props ["SNAP_DFNS"; rd_ResourceName row; rd_SnapshotName row]) nodes volumes).
Definition convert_snapshot (row : ResourceDefinitionRow) (acc : list mSnapshot) : conv (list mSnapshot) :=
  if bool_decide (rd_SnapshotName row = "") then mret acc
  else
    let rdDsp := displayRD (rd_ResourceName row) in
    let snapDsp := displayName (rd_SnapshotDspName row) (rd_SnapshotName row) in
    let name := rdDsp +:+ "." +:+ snapDsp in
    if has_bit (rd_ResourceFlags row) snapDfnFlagFailedDeployment then _ ← warnf (SnapshotFailed name); mret acc
    else if negb (has_bit (rd_ResourceFlags row) snapDfnFlagSuccessful) then _ ← warnf (SnapshotNotSuccessful name (rd_ResourceFlags row)); mret acc
    else if negb (bool_decide (rd_ResourceName row ∈ convertedRD)) then _ ← warnf (SnapshotWithoutDefinition name); mret acc
    else
      nodes ← snapshotNodesFor (rd_ResourceName row) (rd_SnapshotName row) snapDsp;
      if bool_decide (nodes = []) then _ ← warnf (SnapshotWithoutNode name); mret acc
      else s ← buildSnapshot row rdDsp snapDsp name nodes; mret (acc ++ [s]).
Definition convertSnapshots : conv (list mSnapshot) := acc ← for_rows convert_snapshot (ResourceDefinitions dump) []; mret (sortByName (fun s => meta_Name (ms_Meta s)) acc).
End Replicas.
End Objects.

(** ** The whole conversion *)

Definition ConvertWithOptions : Result * list warning :=
  let '(res, rep) :=
    (ix ← buildIndexes;
     nodes ← convertNodes;
     pools ← convertStoragePools ix nodes.2;
     groups ← convertResourceGroups ix nodes.2 pools;
     rds ← convertResourceDefinitions ix nodes.2 groups.2;
     resources ← convertResources ix nodes.2 (da_converted rds) (da_dropped rds);
     snapshots ← convertSnapshots ix nodes.2 (da_converted rds);
     _ ← reportRemotes;
     mret (mkResult convertControllerConfig nodes.1 (po_pools pools) groups.1 (da_defs rds) resources snapshots)) (mkReport [] ∅) in
  (res, rp_warnings rep).

End Convert.
