(* ===== verification/MigrateProps.v ===== *)
(** * What the import keeps

    What holds of every dump: definitions with data are latched, nothing dangles, stacks are those on disk, metadata stay
    where they are, groups place where they did, passphrases stay behind, and whatever is left out is reported. *)

From Stdlib Require Import Ascii.
From S2P Require Import Prelude GoStrings CrdName Dispatcher DrbdOptions Migrate.

(** ** What a step says *)

(** From any report, [m] returns, adds its lines to the report, and answer and lines satisfy [Q]. *)
Definition says {A} (m : conv A) (Q : A -> list warning -> Prop) : Prop :=
  forall s, exists a s' ws, m s = (a, s') /\ rp_warnings s' = rp_warnings s ++ ws /\ Q a ws.

Lemma says_ret {A} (a : A) (Q : A -> list warning -> Prop) : Q a [] -> says (mret a) Q.
Proof. intros H s. exists a, s, []. by rewrite app_nil_r. Qed.
Lemma says_bind {A B} (m : conv A) (f : A -> conv B) (Q : A -> list warning -> Prop) (R : B -> list warning -> Prop) :
  says m Q -> (forall a ws, Q a ws -> says (f a) (fun b ws' => R b (ws ++ ws'))) -> says (m ≫= f) R.
Proof.
  intros Hm Hf s. destruct (Hm s) as (a & s1 & ws & E & Hs & Ha). destruct (Hf a ws Ha s1) as (b & s2 & ws' & E' & Hs' & Hb).
  exists b, s2, (ws ++ ws'). split_and!; [|by rewrite Hs', Hs, (assoc_L (++))|done]. unfold mbind, conv_bind. by rewrite E.
Qed.
Lemma says_mono {A} (m : conv A) (Q R : A -> list warning -> Prop) : says m Q -> (forall a ws, Q a ws -> R a ws) -> says m R.
Proof. intros H HQ s. destruct (H s) as (a & s' & ws & E & Hs & Ha). exists a, s', ws. auto. Qed.
Lemma says_warn w (Q : unit -> list warning -> Prop) : Q tt [w] -> says (warnf w) Q.
Proof. intros H s. by exists tt, (mkReport (rp_warnings s ++ [w]) (rp_warnedKey s)), [w]. Qed.
Lemma says_once k w (Q : unit -> list warning -> Prop) : (forall ws, Q tt ws) -> says (warnOncef k w) Q.
Proof.
  intros H s. unfold warnOncef. case_bool_decide; [exists tt, s, []; by rewrite app_nil_r|].
  by exists tt, (mkReport (rp_warnings s ++ [w]) ({[k]} ∪ rp_warnedKey s)), [w].
Qed.
Lemma says_when b w (Q : unit -> list warning -> Prop) : (b = true -> Q tt [w]) -> (b = false -> Q tt []) -> says (when b (warnf w)) Q.
Proof. intros H1 H2. unfold when. destruct b; [by apply says_warn, H1|by apply says_ret, H2]. Qed.
(** A line on the way to an answer. *)
Lemma says_warned {A} w (m : conv A) (Q : A -> list warning -> Prop) : says m (fun a ws => Q a (w :: ws)) -> says (_ ← warnf w; m) Q.
Proof. intros H. eapply says_bind with (Q := fun _ ws => ws = [w]); [by apply says_warn|]. by intros [] ? ->. Qed.
Lemma says_noting {A} b w (m : conv A) (Q : A -> list warning -> Prop) :
  (forall ws, says m (fun a ws' => Q a (ws ++ ws'))) -> says (_ ← when b (warnf w); m) Q.
Proof. intros H. eapply says_bind with (Q := fun _ _ => True); [by apply says_when|]. intros [] ws _. apply H. Qed.
Lemma says_rows {A S} (I : list A -> S -> list warning -> Prop) (body : A -> S -> conv S) rows s :
  I [] s [] -> (forall done x rest s ws, rows = done ++ x :: rest -> I done s ws -> says (body x s) (fun s' ws' => I (done ++ [x]) s' (ws ++ ws'))) -> says (for_rows body rows s) (I rows).
Proof.
  intros H0 Hstep. assert (forall rest done s ws, rows = done ++ rest -> I done s ws -> says (for_rows body rest s) (fun s' ws' => I rows s' (ws ++ ws'))) as H.
  { induction rest as [|x rest IH]; intros done s0 ws Hrows HI; cbn [for_rows].
    - apply says_ret. rewrite !app_nil_r in *. by subst.
    - eapply says_bind; [by eapply Hstep|]. intros s1 ws1 HI1. eapply says_mono; [apply (IH (done ++ [x]) s1 (ws ++ ws1)); [by rewrite <- (assoc_L (++))|done]|].
      intros s2 ws2. by rewrite (assoc_L (++)). }
  eapply says_mono; [by apply (H rows [] s [])|]. done.
Qed.
(** A loop that adds some rows and leaves a note for the others. *)
Lemma says_collect {A S} (keep : A -> Prop) `{!forall x, Decision (keep x)} (add : A -> S -> S) (note : A -> list warning -> Prop) (body : A -> S -> conv S) rows s :
  (forall x ws1 ws ws2, note x ws -> note x (ws1 ++ ws ++ ws2)) ->
  (forall x s, x ∈ rows -> says (body x s) (fun s' ws => keep x /\ s' = add x s \/ ~ keep x /\ s' = s /\ note x ws)) ->
  says (for_rows body rows s) (fun s' ws => s' = foldl (fun s x => add x s) s (filter keep rows) /\ forall x, x ∈ rows -> ~ keep x -> note x ws).
Proof.
  intros Hup Hbody. apply (says_rows (fun done s' ws => s' = foldl (fun s x => add x s) s (filter keep done) /\ forall x, x ∈ done -> ~ keep x -> note x ws)).
  - split; [done|]. by intros x ?%elem_of_nil.
  - intros done x rest s' ws Hrows [Hs Hn]. eapply says_mono; [apply Hbody; subst rows; set_solver|]. cbn beta. intros s2 ws2 [[Hk ->]|(Hk & -> & Hx)]; (split; [rewrite (list.filter_app keep)|]).
    + rewrite (list.filter_cons_True keep), foldl_app by done. by subst.
    + intros y [Hy|Hy%list_elem_of_singleton]%elem_of_app Hnk; [apply (Hup y [] ws ws2); by apply Hn|by subst].
    + rewrite (list.filter_cons_False keep), foldl_app by done. by subst.
    + intros y [Hy|Hy%list_elem_of_singleton]%elem_of_app Hnk; [apply (Hup y [] ws ws2); by apply Hn|]. subst y. specialize (Hup x ws ws2 [] Hx). by rewrite app_nil_r in Hup.
Qed.
Lemma foldl_snoc {A B} (f : A -> B) l acc : foldl (fun acc x => acc ++ [f x]) acc l = acc ++ (f <$> l).
Proof. revert acc. induction l as [|x l IH]; intros acc; cbn; [by rewrite app_nil_r|]. by rewrite IH, <- (assoc_L (++)). Qed.
Lemma foldl_named {A B} (f : A -> B) (g : A -> string) l acc :
  foldl (fun acc x => (acc.1 ++ [f x], {[g x]} ∪ acc.2)) acc l = (acc.1 ++ (f <$> l), list_to_set (g <$> l) ∪ acc.2) :> list B * gset string.
Proof.
  revert acc. induction l as [|x l IH]; intros acc; cbn; [rewrite app_nil_r, (left_id_L ∅ (∪)); by destruct acc|].
  rewrite IH. cbn [fst snd]. rewrite <- (assoc_L (++)). f_equal. rewrite (assoc_L (∪)). f_equal. by rewrite (comm_L (∪)).
Qed.
(** A loop of which only lines come. *)
Lemma says_any {A} (body : A -> unit -> conv unit) rows s : (forall x s, says (body x s) (fun _ _ => True)) -> says (for_rows body rows s) (fun _ _ => True).
Proof. intros H. apply (says_rows (fun _ _ _ => True)); [done|]. intros. eapply says_mono; [apply H|done]. Qed.

Lemma elem_sorted {A} (key : A -> string) (l : list A) x : x ∈ sortByName key l <-> x ∈ l.
Proof. unfold sortByName. by rewrite merge_sort_Permutation. Qed.
Lemma elem_numbered {A} (key : A -> Z) (l : list A) x : x ∈ sort_by_number key l <-> x ∈ l.
Proof. unfold sort_by_number. by rewrite merge_sort_Permutation. Qed.

(** ** Maps filled row by row *)

Lemma ex_snoc {A} (P : A -> Prop) (rows : list A) row : (exists x, (x ∈ rows \/ x = row) /\ P x) <-> (exists x, x ∈ rows /\ P x) \/ P row.
Proof. split; [intros (x & [Hx| ->] & HP); eauto|intros [(x & Hx & HP)|HP]; eauto]. Qed.
Lemma filter_whole {A} (P : A -> Prop) `{!forall x, Decision (P x)} (l : list A) : (length l <= length (filter P l))%nat -> filter P l = l.
Proof.
  induction l as [|x l IH]; [done|]. destruct (decide (P x)) as [HP|HP]; [rewrite !list.filter_cons_True by done|rewrite list.filter_cons_False by done]; cbn [length].
  - intros Hl. f_equal. apply IH. lia.
  - intros Hl. pose proof (length_filter P l). lia.
Qed.
Section Fill.
Context `{Countable K} {A V : Type} (entry : A -> option (K * V)).
Lemma fill_app l1 l2 : fill entry (l1 ++ l2) = foldl (fun m row => match entry row with Some (k, v) => <[k := v]> m | None => m end) (fill entry l1) l2.
Proof. unfold fill. by rewrite foldl_app. Qed.
Lemma fill_last l x k v : entry x = Some (k, v) -> fill entry (l ++ [x]) = <[k := v]> (fill entry l).
Proof. intros Hx. rewrite fill_app. cbn. by rewrite Hx. Qed.
Lemma fill_skip l x : entry x = None -> fill entry (l ++ [x]) = fill entry l.
Proof. intros Hx. rewrite fill_app. cbn. by rewrite Hx. Qed.
(** What is there comes from a row. *)
Lemma fill_some l k v : fill entry l !! k = Some v -> exists x, x ∈ l /\ entry x = Some (k, v).
Proof.
  induction l as [|x l IH] using rev_ind; [intros [=]|]. destruct (entry x) as [[k' v']|] eqn:E.
  - rewrite (fill_last _ _ _ _ E). intros [[-> ->]|[Hne Hk]]%lookup_insert_Some; [exists x; split; [set_solver|done]|].
    destruct (IH Hk) as (y & Hy & Ey). exists y. split; [set_solver|done].
  - rewrite fill_skip by done. intros Hk. destruct (IH Hk) as (y & Hy & Ey). exists y. split; [set_solver|done].
Qed.
(** A row leaves an entry. *)
Lemma fill_is_Some l x k v : x ∈ l -> entry x = Some (k, v) -> is_Some (fill entry l !! k).
Proof.
  induction l as [|y l IH] using rev_ind; [by intros ?%elem_of_nil|]. intros [Hx|Hx]%elem_of_app E.
  - destruct (entry y) as [[k' v']|] eqn:Ey; [rewrite (fill_last _ _ _ _ Ey)|rewrite fill_skip by done; by apply IH].
    destruct (decide (k' = k)) as [->|Hne]; [by rewrite lookup_insert_eq; eexists|]. rewrite lookup_insert_ne by done. by apply IH.
  - apply list_elem_of_singleton in Hx as ->. rewrite (fill_last _ _ _ _ E), lookup_insert_eq. by eexists.
Qed.
(** With one row per key, its row. *)
Lemma fill_unique l x k v : (forall y v', y ∈ l -> entry y = Some (k, v') -> v' = v) -> x ∈ l -> entry x = Some (k, v) -> fill entry l !! k = Some v.
Proof.
  intros Hu Hx E. destruct (fill_is_Some l x k v Hx E) as [v' Hv']. rewrite Hv'. f_equal. destruct (fill_some _ _ _ Hv') as (y & Hy & Ey). by apply (Hu y).
Qed.
End Fill.

(** ** Nodes and pools *)

(** A node that is taken over. *)
Definition migrated (row : NodeRow) : Prop := nodeTypeName (no_NodeType row) <> "" /\ nodeTypeName (no_NodeType row) <> nodeTypeController.
Definition migrated_names (dump : Dump) : gset string := list_to_set (no_NodeName <$> filter migrated (Nodes dump)).
Lemma elem_migrated dump n : n ∈ migrated_names dump <-> exists row, row ∈ Nodes dump /\ migrated row /\ n = no_NodeName row.
Proof.
  unfold migrated_names. rewrite elem_of_list_to_set, list_elem_of_fmap. setoid_rewrite list_elem_of_filter. naive_solver.
Qed.

Section Phases.
Context (decode_list : string -> option (list string)) (dump : Dump) (DRBDPorts : gmap string Z).

Definition node_note (row : NodeRow) (ws : list warning) : Prop := UnknownNodeType (no_NodeDspName row) (no_NodeType row) ∈ ws \/ ControllerSkipped (no_NodeDspName row) ∈ ws.
Lemma nodes_says : says (convertNodes dump) (fun acc ws =>
  (forall n, n ∈ acc.1 <-> exists row, row ∈ Nodes dump /\ migrated row /\ n = migrated_node dump row) /\ acc.2 = migrated_names dump /\
  forall row, row ∈ Nodes dump -> ~ migrated row -> node_note row ws).
Proof.
  eapply says_bind.
  - apply (says_collect migrated (fun row acc => (acc.1 ++ [migrated_node dump row], {[no_NodeName row]} ∪ acc.2)) node_note).
    + unfold node_note. intros x ws1 ws ws2. rewrite !elem_of_app. naive_solver.
    + intros row [nodes converted] _. unfold convert_node, node_note.
      case_bool_decide as E1; [apply says_warned, says_ret; right; split; [by intros []|]; split; [done|left; by left]|].
      case_bool_decide as E2; [apply says_warned, says_ret; right; split; [by intros []|]; split; [done|right; by left]|].
      apply says_noting. intros ws'. apply says_ret. by left.
  - intros acc ws [-> Hn]. apply says_ret. rewrite (foldl_named (migrated_node dump) no_NodeName), app_nil_r. cbn [fst snd]. rewrite (right_id_L ∅ (∪)). split_and!; [|done|done].
    intros n. rewrite elem_sorted. cbn. rewrite list_elem_of_fmap. setoid_rewrite list_elem_of_filter. naive_solver.
Qed.

(** The pools of the nodes taken over, and the sets of their names. *)
Definition sparse (row : NodeStorPoolRow) : bool := createsSparseZvols (sp_DriverName row) (zfscreateOptions dump (sp_NodeName row) (sp_PoolName row)).
Definition named_when (test : NodeStorPoolRow -> bool) (rows : list NodeStorPoolRow) (k : string) : Prop := exists row, row ∈ rows /\ test row = true /\ k = sp_PoolName row.
Definition pool_sets (rows : list NodeStorPoolRow) (acc : pools_acc) : Prop :=
  (forall k, k ∈ po_remapped acc <-> named_when sparse rows k) /\
  (forall k, k ∈ po_declaredThin acc <-> named_when (fun row => bool_decide (sp_DriverName row = providerKindZFSThin)) rows k) /\
  (forall k, k ∈ po_declaredZFS acc <-> named_when (fun row => bool_decide (sp_DriverName row = providerKindZFS)) rows k) /\
  forall k, k ∈ po_zfsAfter acc <-> named_when (fun row => bool_decide (kind_after dump row = providerKindZFS)) rows k.
Definition add_pool (ix : index) (row : NodeStorPoolRow) (acc : pools_acc) : pools_acc :=
  mkPoolsAcc (po_pools acc ++ [pool_object dump ix row]) (add_if (sparse row) (sp_PoolName row) (po_remapped acc))
    (add_if (bool_decide (sp_DriverName row = providerKindZFSThin)) (sp_PoolName row) (po_declaredThin acc))
    (add_if (bool_decide (sp_DriverName row = providerKindZFS)) (sp_PoolName row) (po_declaredZFS acc))
    (add_if (bool_decide (kind_after dump row = providerKindZFS)) (sp_PoolName row) (po_zfsAfter acc)).
Lemma add_named test rows row s : (forall k, k ∈ s <-> named_when test rows k) -> forall k, k ∈ add_if (test row) (sp_PoolName row) s <-> named_when test (rows ++ [row]) k.
Proof.
  intros Hs k. unfold named_when, add_if. transitivity (named_when test rows k \/ test row = true /\ k = sp_PoolName row).
  - rewrite <- Hs. destruct (test row); [|clear; naive_solver]. rewrite elem_of_union, elem_of_singleton. clear; naive_solver.
  - unfold named_when. setoid_rewrite elem_of_app. setoid_rewrite list_elem_of_singleton. clear. split; [intros [(r & ? & ? & ?)|[? ?]]; eauto 6|]. intros (r & [Hr| ->] & ? & ?); eauto 6.
Qed.
Lemma pools_fold ix rows : po_pools (foldl (fun acc row => add_pool ix row acc) (mkPoolsAcc [] ∅ ∅ ∅ ∅) rows) = (pool_object dump ix <$> rows) /\
  pool_sets rows (foldl (fun acc row => add_pool ix row acc) (mkPoolsAcc [] ∅ ∅ ∅ ∅) rows).
Proof.
  induction rows as [|row rows IH] using rev_ind; [split; [done|]; unfold pool_sets, named_when; cbn; clear; set_solver|].
  rewrite foldl_app. cbn [foldl]. revert IH. generalize (foldl (fun acc row => add_pool ix row acc) (mkPoolsAcc [] ∅ ∅ ∅ ∅) rows). intros acc [H1 (S1 & S2 & S3 & S4)].
  split; [cbn [add_pool po_pools]; by rewrite H1, fmap_app|]. unfold pool_sets, add_pool. cbn [po_remapped po_declaredThin po_declaredZFS po_zfsAfter].
  split_and!; [exact (add_named _ _ row _ S1)|exact (add_named _ _ row _ S2)|exact (add_named _ _ row _ S3)|exact (add_named _ _ row _ S4)].
Qed.
Definition here (conv : gset string) (row : NodeStorPoolRow) : Prop := sp_NodeName row ∈ conv.
#[export] Instance here_dec conv row : Decision (here conv row).
Proof. unfold here. apply _. Defined.
Lemma pools_says ix conv : says (convertStoragePools dump ix conv) (fun acc ws =>
  (forall p, p ∈ po_pools acc <-> exists row, row ∈ NodeStorPools dump /\ here conv row /\ p = pool_object dump ix row) /\ pool_sets (filter (here conv) (NodeStorPools dump)) acc /\
  forall row, row ∈ NodeStorPools dump -> ~ here conv row -> PoolSkipped (displayPool ix (sp_PoolName row)) (displayNode ix (sp_NodeName row)) ∈ ws).
Proof.
  eapply says_bind.
  - apply (says_collect (here conv) (add_pool ix) (fun row ws => PoolSkipped (displayPool ix (sp_PoolName row)) (displayNode ix (sp_NodeName row)) ∈ ws)).
    + intros x ws1 ws ws2. rewrite !elem_of_app. naive_solver.
    + intros row acc _. unfold convert_pool. case_bool_decide as E; cbn [negb]; [|apply says_warned, says_ret; right; split_and!; [done..|by left]].
      apply says_noting. intros ws'. apply says_ret. by left.
  - intros acc ws [-> Hn]. apply says_ret. destruct (pools_fold ix (filter (here conv) (NodeStorPools dump))) as [P1 P2]. rewrite app_nil_r. split_and!; [|done|done].
    intros p. cbn [po_pools]. rewrite elem_sorted, P1, list_elem_of_fmap. setoid_rewrite list_elem_of_filter. naive_solver.
Qed.

(** ** Groups *)

Definition group_dsp (row : ResourceGroupRow) : string := displayName (rg_ResourceGroupDspName row) (rg_ResourceGroupName row).
Definition placed (ix : index) (conv : gset string) (pa : pools_acc) (row : ResourceGroupRow) (lists : list string * list string) : Prop :=
  exists s, (placementLists decode_list dump ix conv pa row (group_dsp row) s).1 = lists.
Definition grouped (ix : index) (conv : gset string) (pa : pools_acc) (row : ResourceGroupRow) (g : mGroup) : Prop :=
  mg_Meta g = objectMeta (group_dsp row) /\ mg_Scope g = SplitProps (props_get (props dump) ["RSC_GRPS"; rg_ResourceGroupName row]) /\
  placed ix conv pa row (mf_ProviderList (mg_SelectFilter g), mf_StoragePoolList (mg_SelectFilter g)).
Lemma parse_says raw context : says (parseList decode_list raw context) (fun l _ => l = if emptyList raw then [] else default [] (decode_list raw)).
Proof. unfold parseList. destruct (emptyList raw); [by apply says_ret|]. destruct (decode_list raw); [by apply says_ret|]. by apply says_warned, says_ret. Qed.
Lemma lists_says ix conv pa row : says (placementLists decode_list dump ix conv pa row (group_dsp row)) (fun lists _ => placed ix conv pa row lists).
Proof.
  assert (forall s, exists ws, rp_warnings (placementLists decode_list dump ix conv pa row (group_dsp row) s).2 = rp_warnings s ++ ws) as H.
  { enough (says (placementLists decode_list dump ix conv pa row (group_dsp row)) (fun _ _ => True)) as Hs by (intros s; destruct (Hs s) as (a & s' & ws & E & Ew & _); exists ws; by rewrite E).
    unfold placementLists. eapply says_bind; [apply parse_says|]. intros providers ws _. eapply says_bind; [apply parse_says|]. intros pools ws' _.
    destruct (_ || _); [by apply says_ret|]. destruct (negb _); [by apply says_ret|]. destruct (negb _).
    - destruct (scopePins _ _ _); [destruct (_ <? _)%nat|]; by apply says_warned, says_ret.
    - case_bool_decide; [by apply says_warned, says_ret|]. case_bool_decide; by apply says_warned, says_ret. }
  intros s. destruct (placementLists _ _ _ _ _ _ _ s) as [lists s'] eqn:E. destruct (H s) as [ws Hws]. exists lists, s', ws. rewrite E in Hws. split_and!; [done|done|]. exists s. by rewrite E.
Qed.
Lemma group_says ix conv pa row acc : says (convert_group decode_list dump ix conv pa row acc) (fun acc' _ =>
  exists g, grouped ix conv pa row g /\ acc' = (acc.1 ++ [g], {[rg_ResourceGroupName row]} ∪ acc.2)).
Proof.
  unfold convert_group. eapply says_bind; [apply lists_says|]. intros lists ws Hl.
  do 6 (eapply says_bind; [apply parse_says|]; intros ? ? _).
  eapply says_bind with (Q := fun _ _ => True); [apply (says_rows (fun _ _ _ => True)); [done|]; intros; unfold convert_volume_group; apply says_noting; intros; by apply says_ret|]. intros volumes ? _.
  apply says_ret. eexists. split; [|done]. split_and!; [done|done|]. cbn. by destruct lists.
Qed.
Lemma groups_says ix conv pa : says (convertResourceGroups decode_list dump ix conv pa) (fun acc _ =>
  (forall g, g ∈ acc.1 -> exists row, row ∈ ResourceGroups dump /\ grouped ix conv pa row g) /\
  (forall row, row ∈ ResourceGroups dump -> exists g, g ∈ acc.1 /\ grouped ix conv pa row g) /\ acc.2 = list_to_set (rg_ResourceGroupName <$> ResourceGroups dump)).
Proof.
  eapply says_bind with (Q := fun acc _ => (forall g, g ∈ acc.1 -> exists row, row ∈ ResourceGroups dump /\ grouped ix conv pa row g) /\
    (forall row, row ∈ ResourceGroups dump -> exists g, g ∈ acc.1 /\ grouped ix conv pa row g) /\ acc.2 = list_to_set (rg_ResourceGroupName <$> ResourceGroups dump)).
  - apply (says_rows (fun rows acc _ => (forall g, g ∈ acc.1 -> exists row, row ∈ rows /\ grouped ix conv pa row g) /\
      (forall row, row ∈ rows -> exists g, g ∈ acc.1 /\ grouped ix conv pa row g) /\ acc.2 = list_to_set (rg_ResourceGroupName <$> rows))).
    + split_and!; [by intros ? ?%elem_of_nil|by intros ? ?%elem_of_nil|done].
    + intros rows row rest acc ws _ (H1 & H2 & H3). eapply says_mono; [apply group_says|]. cbn beta. intros acc' ws' (g & Hg & ->). cbn [fst snd]. setoid_rewrite elem_of_app. setoid_rewrite list_elem_of_singleton. split_and!.
      * intros g' [Hg'| ->]; [destruct (H1 g' Hg') as (r & Hr & Hgr); exists r; tauto|exists row; tauto].
      * intros r [Hr| ->]; [destruct (H2 r Hr) as (g' & Hg' & Hgr); exists g'; tauto|exists g; tauto].
      * rewrite H3, fmap_app, list_to_set_app_L. cbn. rewrite (right_id_L ∅ (∪)). by rewrite (comm_L (∪)).
  - intros [groups names] ws (H1 & H2 & H3). apply says_ret. cbn [fst snd] in *. setoid_rewrite elem_sorted. done.
Qed.

(** ** Definitions *)

Definition rd_dsp (row : ResourceDefinitionRow) : string := displayName (rd_ResourceDspName row) (rd_ResourceName row).
(** Whether a definition is taken over, and whether without its meta pool. *)
Definition verdict (ix : index) (row : ResourceDefinitionRow) : option bool :=
  if has_bit (rd_ResourceFlags row) resourceFlagDelete then None
  else match stackDisagreement decode_list dump ix row, externalMetadataReason decode_list dump ix row, volumelessReason dump (rd_ResourceName row) with
       | None, MetaInternal internal, None => Some (match internal with Some _ => true | None => false end)
       | _, _, _ => None
       end.
Definition taken (ix : index) (row : ResourceDefinitionRow) : Prop := rd_SnapshotName row = "" /\ is_Some (verdict ix row).
#[export] Instance taken_dec ix row : Decision (taken ix row).
Proof. unfold taken. apply _. Defined.
Definition refusal (rd : string) (w : warning) : Prop :=
  match w with
  | DefinitionDeleted d | DefinitionStackRefused d _ | DefinitionMetaRefused d _ | DefinitionVolumeless d _ => d = rd
  | _ => False
  end.
Definition definition_note (row : ResourceDefinitionRow) (ws : list warning) : Prop := rd_SnapshotName row = "" -> Exists (refusal (rd_dsp row)) ws.
Lemma convertible_says ix row : says (rdConvertible decode_list dump ix row (rd_dsp row)) (fun o ws => o = verdict ix row /\ (o = None -> Exists (refusal (rd_dsp row)) ws)).
Proof.
  assert (forall w (Q : option bool -> Prop), refusal (rd_dsp row) w -> Q None ->
    says (_ ← warnf w; mret None : conv (option bool)) (fun o ws => Q o /\ (o = None -> forall ws0 : list warning, Exists (refusal (rd_dsp row)) (ws0 ++ ws)))) as Hno.
  { intros w Q Hw HQ. apply says_warned, says_ret. split; [done|]. intros _ ws0. apply Exists_app. right. by left. }
  unfold rdConvertible, verdict. destruct (has_bit _ _).
  { eapply says_mono; [by apply (Hno (DefinitionDeleted (rd_dsp row)) (fun o => o = None))|]. intros o ws [-> H]. split; [done|]. intros _. by apply (H eq_refl []). }
  apply says_noting. intros ws0.
  destruct (stackDisagreement decode_list dump ix row) as [reason|].
  { eapply says_mono; [by apply (Hno (DefinitionStackRefused (rd_dsp row) reason) (fun o => o = None))|]. intros o ws [-> H]. split; [done|]. intros _. by apply H. }
  destruct (externalMetadataReason decode_list dump ix row) as [reason|internal].
  { eapply says_mono; [by apply (Hno (DefinitionMetaRefused (rd_dsp row) reason) (fun o => o = None))|]. intros o ws [-> H]. split; [done|]. intros _. by apply H. }
  destruct (volumelessReason dump (rd_ResourceName row)) as [reason|].
  { eapply says_mono; [by apply (Hno (DefinitionVolumeless (rd_dsp row) reason) (fun o => o = None))|]. intros o ws [-> H]. split; [done|]. intros _. by apply H. }
  destruct internal as [[pool scope]|]; [by apply says_warned, says_ret|by apply says_ret].
Qed.

Definition port_value (ix : index) (rdName : string) : option Z :=
  match ix_drbdRD ix !! rdName with
  | None => None
  | Some drbd => match DRBDPorts !! Str.to_lower rdName with
                 | Some live => Some live
                 | None => match ldd_TCPPort drbd with Some port => if 0 <? port then Some port else None | None => None end
                 end
  end.
Definition stack_value (ix : index) (row : ResourceDefinitionRow) : list string :=
  let own := default [] (rowLayerStack decode_list row) in
  if bool_decide (own = []) then match stack_keys ix (rd_ResourceName row) with [key] => default [] (default ∅ (ix_diskStacks ix !! rd_ResourceName row) !! key) | _ => [] end else own.
Definition dangling (convRG : gset string) (row : ResourceDefinitionRow) : bool :=
  negb (bool_decide (rd_ResourceGroupName row = "")) && negb (bool_decide (rd_ResourceGroupName row ∈ convRG)).
Definition latched (ix : index) (conv : gset string) (rdName : string) : bool :=
  let latch := rdInitializedLatch dump ix conv rdName in la_adopted latch || la_heldByAbsentNode latch.
(** The object of a definition; [dropped] holds the names whose meta pool was dropped by then. *)
Definition defined (ix : index) (conv convRG : gset string) (row : ResourceDefinitionRow) (dropped : gset string) (d : mDefinition) : Prop :=
  let scope := SplitProps (withoutDroppedMetaPool dropped (rd_ResourceName row) (props_get (props dump) ["RSC_DFNS"; rd_ResourceName row])) in
  md_Meta d = objectMeta (rd_dsp row) /\ md_ResourceGroupName d = (if dangling convRG row then "" else displayRG ix (rd_ResourceGroupName row)) /\
  md_Initialized d = latched ix conv (rd_ResourceName row) /\ md_LayerStack d = stack_value ix row /\ md_DRBDPort d = port_value ix (rd_ResourceName row) /\
  sc_Props (md_Scope d) = sc_Props scope /\ sc_Typed (md_Scope d) = sc_Typed scope /\
  (forall k, k <> drbdSharedSecretProp -> sc_Extras (md_Scope d) !! k = sc_Extras scope !! k) /\
  (forall v, v ∈ md_VolumeDefinitions d -> mv_Props v = props_get (props dump) ["VLM_DFNS"; rd_ResourceName row; format_int (mv_VolumeNumber v)]).

Lemma port_says ix row : says (match ix_drbdRD ix !! row with Some drbd => resolveDRBDPort DRBDPorts row (ldd_TCPPort drbd) (displayRD ix row) | None => mret None end) (fun p _ => p = port_value ix row).
Proof.
  unfold port_value, resolveDRBDPort. destruct (ix_drbdRD ix !! row) as [drbd|]; [|by apply says_ret]. destruct (DRBDPorts !! _); [by apply says_ret|].
  destruct (ldd_TCPPort drbd) as [port|]; [destruct (0 <? port); [by apply says_ret|]|]; (eapply says_bind with (Q := fun _ _ => True); [by apply says_once|]; intros ? ? _; by apply says_ret).
Qed.
Lemma stack_says ix row dsp : says (rdLayerStack decode_list ix row dsp) (fun stack _ => stack = stack_value ix row).
Proof.
  unfold rdLayerStack, stack_value. destruct (bool_decide _); [|by apply says_ret]. cbn [negb].
  destruct (stack_keys ix (rd_ResourceName row)) as [|key [|? ?]]; (apply says_noting; intros; by apply says_ret).
Qed.
Lemma latch_says dsp latch adopted : says (reportLatch dsp latch adopted) (fun _ _ => True).
Proof.
  unfold reportLatch. apply says_noting; intros. apply says_noting; intros. destruct adopted; [by apply says_ret|]. destruct (la_onlyDiskless latch); by apply says_warn.
Qed.
Lemma volumes_says ix rd dsp : says (volumeDefinitionsFor dump ix rd dsp) (fun vs _ => forall v, v ∈ vs -> mv_Props v = props_get (props dump) ["VLM_DFNS"; rd; format_int (mv_VolumeNumber v)]).
Proof.
  unfold volumeDefinitionsFor. eapply says_bind with (Q := fun vs _ => forall v, v ∈ vs -> mv_Props v = props_get (props dump) ["VLM_DFNS"; rd; format_int (mv_VolumeNumber v)]);
    [|intros vs ? H; apply says_ret; intros v; rewrite elem_numbered; apply H].
  apply (says_rows (fun _ vs _ => forall v, v ∈ vs -> mv_Props v = props_get (props dump) ["VLM_DFNS"; rd; format_int (mv_VolumeNumber v)])); [by intros v ?%elem_of_nil|]. intros rows vd rest vs ws _ H. unfold convert_volume.
  destruct (negb _); [by apply says_ret|]. destruct (has_bit _ _); [by apply says_warned, says_ret|]. apply says_noting; intros. apply says_ret. intros v [Hv|Hv]%elem_of_app; [by apply H|]. apply list_elem_of_singleton in Hv as ->. done.
Qed.
Lemma fields_says ix row dsp extra : says (attachRDLayerFields dump DRBDPorts ix row dsp extra) (fun f _ =>
  f.1.1 = port_value ix (rd_ResourceName row) /\ (forall k, k <> drbdSharedSecretProp -> f.1.2 !! k = extra !! k) /\
  forall v, v ∈ f.2 -> mv_Props v = props_get (props dump) ["VLM_DFNS"; rd_ResourceName row; format_int (mv_VolumeNumber v)]).
Proof.
  unfold attachRDLayerFields. eapply says_bind with (Q := fun pe _ => pe.1 = port_value ix (rd_ResourceName row) /\ forall k, k <> drbdSharedSecretProp -> pe.2 !! k = extra !! k).
  - unfold port_value, resolveDRBDPort. destruct (ix_drbdRD ix !! _) as [drbd|]; [|by apply says_ret].
    eapply says_bind with (Q := fun p _ => p = match DRBDPorts !! Str.to_lower (rd_ResourceName row) with Some live => Some live
      | None => match ldd_TCPPort drbd with Some port => if 0 <? port then Some port else None | None => None end end).
    + destruct (DRBDPorts !! _); [by apply says_ret|].
      destruct (ldd_TCPPort drbd) as [port|]; [destruct (0 <? port); [by apply says_ret|]|]; (eapply says_bind with (Q := fun _ _ => True); [by apply says_once|]; intros ? ? _; by apply says_ret).
    + intros p ws ->. apply says_ret. split; [done|]. intros k Hk. cbn [snd]. destruct (negb _); [by rewrite lookup_insert_ne|done].
  - intros [p e] ws [Hp He]. cbn [fst snd] in Hp, He. subst p. eapply says_bind; [apply volumes_says|]. intros vs ws' Hvs. apply says_noting; intros. by apply says_ret.
Qed.
Lemma definition_says ix conv convRG row acc : says (convert_definition decode_list dump DRBDPorts ix conv convRG row acc) (fun acc' ws =>
  taken ix row /\ (exists d, let dropped := if decide (verdict ix row = Some true) then {[rd_ResourceName row]} ∪ da_dropped acc else da_dropped acc in
    defined ix conv convRG row dropped d /\ acc' = mkRdsAcc (da_defs acc ++ [d]) ({[rd_ResourceName row]} ∪ da_converted acc) dropped) \/
  ~ taken ix row /\ acc' = acc /\ definition_note row ws).
Proof.
  unfold convert_definition, definition_note, taken. case_bool_decide as Hs; cbn [negb]; [|apply says_ret; right; naive_solver].
  eapply says_bind; [apply convertible_says|]. intros o ws [-> Hno]. destruct (verdict ix row) as [drop|] eqn:Hv.
  - fold (dangling convRG row). apply says_noting; intros ws1. eapply says_bind; [apply latch_says|]. intros [] ws2 _. eapply says_bind; [apply stack_says|]. intros stack ws3 ->.
    eapply says_bind; [apply fields_says|]. intros fs ws4 (Hp & He & Hvol). apply says_ret. left. split; [by split|]. cbv zeta.
    replace (if decide (Some drop = Some true) then {[rd_ResourceName row]} ∪ da_dropped acc else da_dropped acc) with (if drop then {[rd_ResourceName row]} ∪ da_dropped acc else da_dropped acc)
      by (destruct drop; [by rewrite decide_True|by rewrite decide_False]).
    eexists. split; [|done]. unfold defined. cbn [md_Meta md_ResourceGroupName md_Initialized md_LayerStack md_DRBDPort md_Scope sc_Props sc_Typed sc_Extras]. by split_and!.
  - apply says_ret. right. split; [intros [_ [? ?]]; done|]. split; [done|]. intros _. rewrite app_nil_r. by apply Hno.
Qed.

Definition defined_in (ix : index) (conv convRG final : gset string) (row : ResourceDefinitionRow) (d : mDefinition) : Prop :=
  exists dropped, dropped ⊆ final /\ (verdict ix row = Some true -> rd_ResourceName row ∈ dropped) /\ defined ix conv convRG row dropped d.
Definition definitions_done (ix : index) (conv convRG : gset string) (rows : list ResourceDefinitionRow) (acc : rds_acc) (ws : list warning) : Prop :=
  (forall d, d ∈ da_defs acc -> exists row, row ∈ rows /\ taken ix row /\ defined_in ix conv convRG (da_dropped acc) row d) /\
  (forall row, row ∈ rows -> taken ix row -> exists d, d ∈ da_defs acc /\ defined_in ix conv convRG (da_dropped acc) row d) /\
  (forall n, n ∈ da_converted acc <-> exists row, row ∈ rows /\ taken ix row /\ n = rd_ResourceName row) /\
  (forall row, row ∈ rows -> taken ix row -> verdict ix row = Some true -> rd_ResourceName row ∈ da_dropped acc) /\
  (forall row, row ∈ rows -> ~ taken ix row -> definition_note row ws).
Lemma defined_more ix conv convRG final final' row d : final ⊆ final' -> defined_in ix conv convRG final row d -> defined_in ix conv convRG final' row d.
Proof. intros Hs (dropped & Hd & H). exists dropped. split; [by etrans|done]. Qed.
Lemma definition_step ix conv convRG rows row acc ws acc' ws' : definitions_done ix conv convRG rows acc ws ->
  (taken ix row /\ (exists d, let dropped := if decide (verdict ix row = Some true) then {[rd_ResourceName row]} ∪ da_dropped acc else da_dropped acc in
    defined ix conv convRG row dropped d /\ acc' = mkRdsAcc (da_defs acc ++ [d]) ({[rd_ResourceName row]} ∪ da_converted acc) dropped) \/
   ~ taken ix row /\ acc' = acc /\ definition_note row ws') -> definitions_done ix conv convRG (rows ++ [row]) acc' (ws ++ ws').
Proof.
  intros (H1 & H2 & H3 & H4 & H5) Hrow. assert (forall r, definition_note r ws -> definition_note r (ws ++ ws')) as Hup by (intros r Hr Hs; apply Exists_app; left; by apply Hr).
  destruct Hrow as [(Ht & d & Hd & ->)|(Ht & -> & Hn)]; unfold definitions_done; setoid_rewrite elem_of_app; setoid_rewrite list_elem_of_singleton.
  - cbn zeta in *. set (dropped := if decide _ then _ else _) in *. cbn [da_defs da_converted da_dropped].
    assert (da_dropped acc ⊆ dropped) as Hsub by (unfold dropped; destruct (decide _); clear; set_solver).
    assert (defined_in ix conv convRG dropped row d) as Hin by (exists dropped; split; [done|]; split; [|done]; intros Hv; unfold dropped; rewrite decide_True by done; clear; set_solver).
    split_and!.
    + intros d' [Hd'| ->]; [|exists row; tauto]. destruct (H1 d' Hd') as (r & Hr & Htr & Hdr). exists r. split_and!; [tauto|done|by eapply defined_more].
    + intros r [Hr| ->] Htr; [|exists d; tauto]. destruct (H2 r Hr Htr) as (d' & Hd' & Hdr). exists d'. split; [tauto|by eapply defined_more].
    + intros n. rewrite elem_of_union, elem_of_singleton, H3. clear -Ht. naive_solver.
    + intros r [Hr| ->] Htr Hv; [by apply Hsub, (H4 r)|]. unfold dropped. rewrite decide_True by done. clear; set_solver.
    + intros r [Hr| ->] Hnt; [|done]. by apply Hup, H5.
  - split_and!.
    + intros d' Hd'. destruct (H1 d' Hd') as (r & Hr & ?). exists r. tauto.
    + intros r [Hr| ->] Htr; [by apply H2|done].
    + intros n. rewrite H3. clear -Ht. naive_solver.
    + intros r [Hr| ->] Htr; [by apply H4|done].
    + intros r [Hr| ->] Hnt; [by apply Hup, H5|]. intros Hs. apply Exists_app. right. by apply Hn.
Qed.
Lemma definitions_says ix conv convRG : says (convertResourceDefinitions decode_list dump DRBDPorts ix conv convRG) (definitions_done ix conv convRG (ResourceDefinitions dump)).
Proof.
  eapply says_bind.
  - apply (says_rows (definitions_done ix conv convRG)).
    + unfold definitions_done. cbn. split_and!; [by intros ? ?%elem_of_nil|by intros ? ?%elem_of_nil|clear; set_solver|by intros ? ?%elem_of_nil|by intros ? ?%elem_of_nil].
    + intros rows row rest acc ws _ H. eapply says_mono; [apply definition_says|]. intros acc' ws' Hrow. by eapply definition_step.
  - intros acc ws (H1 & H2 & H3 & H4 & H5). apply says_ret. rewrite app_nil_r. unfold definitions_done. cbn [da_defs da_converted da_dropped]. setoid_rewrite elem_sorted. by split_and!.
Qed.

(** ** Replicas *)

Definition replica_name (ix : index) (row : ResourceRow) : string := displayRD ix (re_ResourceName row) +:+ "." +:+ displayNode ix (re_NodeName row).
Definition replica_object (ix : index) (dropped : gset string) (row : ResourceRow) : mReplica :=
  let scope := SplitProps (withoutDroppedMetaPool dropped (re_ResourceName row) (props_get (props dump) ["RSCS"; re_NodeName row; re_ResourceName row])) in
  mkMReplica (objectMeta (replica_name ix row)) (displayRD ix (re_ResourceName row)) (displayNode ix (re_NodeName row)) scope (decodeResourceFlags (re_ResourceFlags row)).1
    (ix_drbdNode ix !! (re_NodeName row, re_ResourceName row)) false
    (match ix_storVol ix !! (re_NodeName row, re_ResourceName row, 0) with Some v => displayPool ix (lsv_StorPoolName v) | None => default "" (sc_Props scope !! "StorPoolName") end)
    (port_value ix (re_ResourceName row)).
Definition carried (ix : index) (conv convRD : gset string) (row : ResourceRow) : Prop :=
  re_SnapshotName row = "" /\ has_bit (re_ResourceFlags row) resourceFlagDelete = false /\ re_ResourceName row ∈ convRD /\ re_NodeName row ∈ conv /\ replicaPoolDivergence ix row = None.
#[export] Instance carried_dec ix conv convRD row : Decision (carried ix conv convRD row).
Proof. unfold carried. apply _. Defined.
Definition skips_replica (name : string) (w : warning) : Prop :=
  match w with ReplicaDeleted r | ReplicaWithoutDefinition r | ReplicaWithoutNode r _ | ReplicaDivergent r _ => r = name | _ => False end.
Definition replica_note (ix : index) (row : ResourceRow) (ws : list warning) : Prop := re_SnapshotName row = "" -> Exists (skips_replica (replica_name ix row)) ws.
Lemma flags_says row name : says (reportReplicaVolumeFlags dump row name) (fun _ _ => True).
Proof. apply says_any. intros vol ?. unfold when. destruct (_ && _); [by apply says_warn|by apply says_ret]. Qed.
Lemma build_says ix dropped row : says (buildResource dump DRBDPorts ix dropped row (displayRD ix (re_ResourceName row)) (displayNode ix (re_NodeName row)) (replica_name ix row))
  (fun r _ => r = replica_object ix dropped row).
Proof.
  unfold buildResource, replica_object. destruct (decodeResourceFlags (re_ResourceFlags row)) as [flags rest]. apply says_noting; intros ws1. eapply says_bind; [apply flags_says|]. intros [] ws2 _.
  eapply says_bind; [apply port_says|]. intros p ws3 ->. by apply says_ret.
Qed.
Lemma resource_says ix conv convRD dropped row acc : says (convert_resource dump DRBDPorts ix conv convRD dropped row acc) (fun acc' ws =>
  carried ix conv convRD row /\ acc' = acc ++ [replica_object ix dropped row] \/ ~ carried ix conv convRD row /\ acc' = acc /\ replica_note ix row ws).
Proof.
  assert (forall w, ~ carried ix conv convRD row -> skips_replica (replica_name ix row) w -> says (_ ← warnf w; mret acc) (fun acc' ws =>
    carried ix conv convRD row /\ acc' = acc ++ [replica_object ix dropped row] \/ ~ carried ix conv convRD row /\ acc' = acc /\ replica_note ix row ws)) as Hskip.
  { intros w Hc Hw. apply says_warned, says_ret. right. split_and!; [done|done|]. intros _. by left. }
  unfold convert_resource. case_bool_decide as Hs; cbn [negb]; [|apply says_ret; right; split_and!; [by intros []|done|by intros ?]]. fold (replica_name ix row).
  destruct (has_bit _ _) eqn:Hd; [apply Hskip; [by intros (? & ? & ?); congruence|done]|].
  case_bool_decide as Hr; cbn [negb]; [|apply Hskip; [by intros (? & ? & ? & ?)|done]]. case_bool_decide as Hn; cbn [negb]; [|apply Hskip; [by intros (? & ? & ? & ? & ?)|done]].
  destruct (replicaPoolDivergence ix row) as [pools|] eqn:Hp; [apply Hskip; [by intros (? & ? & ? & ? & ?); congruence|done]|].
  eapply says_bind; [apply build_says|]. intros r ws ->. apply says_ret. left. by split.
Qed.
Lemma resources_says ix conv convRD dropped : says (convertResources dump DRBDPorts ix conv convRD dropped) (fun rs ws =>
  (forall r, r ∈ rs <-> exists row, row ∈ Resources dump /\ carried ix conv convRD row /\ r = replica_object ix dropped row) /\
  forall row, row ∈ Resources dump -> ~ carried ix conv convRD row -> replica_note ix row ws).
Proof.
  eapply says_bind.
  - apply (says_collect (carried ix conv convRD) (fun row acc => acc ++ [replica_object ix dropped row]) (replica_note ix)).
    + intros x ws1 ws ws2 H Hs. apply Exists_app. right. apply Exists_app. left. by apply H.
    + intros row acc _. apply resource_says.
  - intros acc ws [-> Hn]. apply says_ret. rewrite (foldl_snoc (replica_object ix dropped)), app_nil_r. split; [|done]. intros r. rewrite elem_sorted. cbn [app]. rewrite list_elem_of_fmap. setoid_rewrite list_elem_of_filter. naive_solver.
Qed.

(** ** Snapshots *)

Definition snapshot_dsp (ix : index) (row : ResourceDefinitionRow) : string := displayRD ix (rd_ResourceName row) +:+ "." +:+ displayName (rd_SnapshotDspName row) (rd_SnapshotName row).
Definition snapshot_on (ix : index) (conv : gset string) (row : ResourceDefinitionRow) (n : string) : Prop :=
  exists r, r ∈ Resources dump /\ of_snapshot (rd_ResourceName row) (rd_SnapshotName row) r = true /\ re_NodeName r ∈ conv /\ n = displayNode ix (re_NodeName r).
Definition snapped (ix : index) (conv convRD : gset string) (row : ResourceDefinitionRow) (s : mSnapshot) : Prop :=
  rd_SnapshotName row <> "" /\ rd_ResourceName row ∈ convRD /\ has_bit (rd_ResourceFlags row) snapDfnFlagFailedDeployment = false /\ has_bit (rd_ResourceFlags row) snapDfnFlagSuccessful = true /\
  ms_ResourceDefinitionName s = displayRD ix (rd_ResourceName row) /\ ms_SnapshotName s = displayName (rd_SnapshotDspName row) (rd_SnapshotName row) /\
  ms_Props s = props_get (props dump) ["SNAP_DFNS"; rd_ResourceName row; rd_SnapshotName row] /\ ms_Nodes s <> [] /\ forall n, n ∈ ms_Nodes s <-> snapshot_on ix conv row n.
Definition skips_snapshot (name : string) (w : warning) : Prop :=
  match w with SnapshotFailed s | SnapshotNotSuccessful s _ | SnapshotWithoutDefinition s | SnapshotWithoutNode s => s = name | _ => False end.
Lemma snapshot_nodes_says ix conv row dsp : says (snapshotNodesFor dump ix conv (rd_ResourceName row) (rd_SnapshotName row) dsp) (fun nodes _ => forall n, n ∈ nodes <-> snapshot_on ix conv row n).
Proof.
  clear decode_list DRBDPorts.
  eapply says_bind.
  - apply (says_collect (fun r => of_snapshot (rd_ResourceName row) (rd_SnapshotName row) r = true /\ re_NodeName r ∈ conv) (fun r acc => acc ++ [displayNode ix (re_NodeName r)]) (fun _ _ => True)); [done|].
    intros r acc _. unfold snapshot_node. destruct (of_snapshot _ _ r); cbn [negb]; [|apply says_ret; right; naive_solver].
    case_bool_decide; cbn [negb]; [apply says_ret; left; naive_solver|apply says_warned, says_ret; right; naive_solver].
  - intros acc ws [-> _]. apply says_ret. intros n. rewrite (foldl_snoc (fun r => displayNode ix (re_NodeName r))), merge_sort_Permutation. cbn [app]. rewrite list_elem_of_fmap. unfold snapshot_on. setoid_rewrite list_elem_of_filter. naive_solver.
Qed.
Lemma snapshot_says ix conv convRD row acc : says (convert_snapshot dump ix conv convRD row acc) (fun acc' ws =>
  (exists s, snapped ix conv convRD row s /\ acc' = acc ++ [s]) \/ acc' = acc /\ (rd_SnapshotName row <> "" -> Exists (skips_snapshot (snapshot_dsp ix row)) ws)).
Proof.
  clear decode_list DRBDPorts.
  assert (forall w, skips_snapshot (snapshot_dsp ix row) w -> says (_ ← warnf w; mret acc) (fun acc' ws =>
    (exists s, snapped ix conv convRD row s /\ acc' = acc ++ [s]) \/ acc' = acc /\ (rd_SnapshotName row <> "" -> Exists (skips_snapshot (snapshot_dsp ix row)) ws))) as Hskip.
  { intros w Hw. apply says_warned, says_ret. right. split; [done|]. intros _. by left. }
  unfold convert_snapshot. case_bool_decide as Hs; [apply says_ret; by right|]. fold (snapshot_dsp ix row). destruct (has_bit _ snapDfnFlagFailedDeployment) eqn:Hf; [by apply Hskip|].
  destruct (has_bit _ snapDfnFlagSuccessful) eqn:Ho; cbn [negb]; [|by apply Hskip]. case_bool_decide as Hc; cbn [negb]; [|by apply Hskip].
  eapply says_bind; [apply snapshot_nodes_says|]. intros nodes ws Hn. cbn beta in Hn. case_bool_decide as He.
  - apply says_warned, says_ret. right. split; [done|]. intros _. apply Exists_app. right. by left.
  - unfold buildSnapshot. eapply says_bind with (Q := fun s _ => snapped ix conv convRD row s); [|intros s ? Hsn; apply says_ret; left; by exists s].
    apply says_noting; intros ?. apply says_ret. unfold snapped. cbn [ms_ResourceDefinitionName ms_SnapshotName ms_Props ms_Nodes]. by split_and!.
Qed.
Lemma snapshots_says ix conv convRD : says (convertSnapshots dump ix conv convRD) (fun ss ws =>
  (forall s, s ∈ ss -> exists row, row ∈ ResourceDefinitions dump /\ snapped ix conv convRD row s) /\
  forall row, row ∈ ResourceDefinitions dump -> rd_SnapshotName row <> "" -> (exists s, s ∈ ss /\ snapped ix conv convRD row s) \/ Exists (skips_snapshot (snapshot_dsp ix row)) ws).
Proof.
  clear decode_list DRBDPorts.
  eapply says_bind.
  - apply (says_rows (fun rows ss ws => (forall s, s ∈ ss -> exists row, row ∈ rows /\ snapped ix conv convRD row s) /\
      forall row, row ∈ rows -> rd_SnapshotName row <> "" -> (exists s, s ∈ ss /\ snapped ix conv convRD row s) \/ Exists (skips_snapshot (snapshot_dsp ix row)) ws)).
    + split; by intros ? ?%elem_of_nil.
    + intros rows row rest ss ws _ [H1 H2]. eapply says_mono; [apply snapshot_says|]. cbn beta. intros ss' ws' Hrow. setoid_rewrite Exists_app. setoid_rewrite (elem_of_app rows). setoid_rewrite list_elem_of_singleton.
      destruct Hrow as [(s & Hs & ->)|[-> Hn]]; (split; [|intros r [Hr| ->] Hne]).
      * intros s'. rewrite elem_of_app, list_elem_of_singleton. intros [Hs'| ->]; [destruct (H1 s' Hs') as (r & ? & ?); exists r; tauto|exists row; tauto].
      * destruct (H2 r Hr Hne) as [(s' & ? & ?)|?]; [left; exists s'; rewrite elem_of_app; tauto|tauto].
      * left. exists s. rewrite elem_of_app, list_elem_of_singleton. tauto.
      * intros s' Hs'. destruct (H1 s' Hs') as (r & ? & ?). exists r. tauto.
      * destruct (H2 r Hr Hne); tauto.
      * tauto.
  - intros ss ws [H1 H2]. apply says_ret. rewrite app_nil_r. setoid_rewrite elem_sorted. done.
Qed.

(** ** The whole *)

(** What a conversion is made of: indexes, names of nodes, sets of pools, definitions; and the lines of each part. *)
Record parts (res : Result) (ws : list warning) := mkParts {
  pt_layers : gmap string LayerDrbdResourceDefinitionRow;
  pt_pools : pools_acc;
  pt_rds : rds_acc;
  pt_lines : list warning;
  pt_ix := index_with dump pt_layers;
  pt_conv := migrated_names dump;
  pt_groups := list_to_set (rg_ResourceGroupName <$> ResourceGroups dump) : gset string;
  pt_nodes : forall n, n ∈ rs_Nodes res <-> exists row, row ∈ Nodes dump /\ migrated row /\ n = migrated_node dump row;
  pt_no_nodes : exists lines, lines ⊆ ws /\ forall row, row ∈ Nodes dump -> ~ migrated row -> node_note row lines;
  pt_storage : forall p, p ∈ rs_StoragePools res <-> exists row, row ∈ NodeStorPools dump /\ here pt_conv row /\ p = pool_object dump pt_ix row;
  pt_sets : pool_sets (filter (here pt_conv) (NodeStorPools dump)) pt_pools;
  pt_no_storage : exists lines, lines ⊆ ws /\ forall row, row ∈ NodeStorPools dump -> ~ here pt_conv row -> PoolSkipped (displayPool pt_ix (sp_PoolName row)) (displayNode pt_ix (sp_NodeName row)) ∈ lines;
  pt_group : forall g, g ∈ rs_ResourceGroups res -> exists row, row ∈ ResourceGroups dump /\ grouped pt_ix pt_conv pt_pools row g;
  pt_every_group : forall row, row ∈ ResourceGroups dump -> exists g, g ∈ rs_ResourceGroups res /\ grouped pt_ix pt_conv pt_pools row g;
  pt_defs : definitions_done pt_ix pt_conv pt_groups (ResourceDefinitions dump) pt_rds pt_lines;
  pt_def_lines : pt_lines ⊆ ws;
  pt_definitions : rs_ResourceDefinitions res = da_defs pt_rds;
  pt_replicas : forall r, r ∈ rs_Resources res <-> exists row, row ∈ Resources dump /\ carried pt_ix pt_conv (da_converted pt_rds) row /\ r = replica_object pt_ix (da_dropped pt_rds) row;
  pt_no_replicas : exists lines, lines ⊆ ws /\ forall row, row ∈ Resources dump -> ~ carried pt_ix pt_conv (da_converted pt_rds) row -> replica_note pt_ix row lines;
  pt_snapshots : forall s, s ∈ rs_Snapshots res -> exists row, row ∈ ResourceDefinitions dump /\ snapped pt_ix pt_conv (da_converted pt_rds) row s;
  pt_no_snapshots : exists lines, lines ⊆ ws /\ forall row, row ∈ ResourceDefinitions dump -> rd_SnapshotName row <> "" ->
    (exists s, s ∈ rs_Snapshots res /\ snapped pt_ix pt_conv (da_converted pt_rds) row s) \/ Exists (skips_snapshot (snapshot_dsp pt_ix row)) lines;
  pt_controller : rs_ControllerConfig res = convertControllerConfig dump;
}.
Lemma conversion_parts : inhabited (parts (ConvertWithOptions decode_list dump DRBDPorts).1 (ConvertWithOptions decode_list dump DRBDPorts).2).
Proof.
  unfold ConvertWithOptions. match goal with |- context [?m (mkReport [] ∅)] => enough (says m (fun res ws => inhabited (parts res ws))) as H by (destruct (H (mkReport [] ∅)) as (res & rep & ws & -> & Hws & Hp); cbn; by rewrite Hws) end.
  eapply says_bind with (Q := fun ix _ => exists m, ix = index_with dump m).
  { unfold buildIndexes. eapply says_bind with (Q := fun _ _ => True); [|intros m ? _; apply says_ret; by exists m]. apply (says_rows (fun _ _ _ => True)); [done|]. intros. unfold index_layer_definition.
    destruct (negb _); [by apply says_ret|]. destruct (negb _); [by apply says_warned, says_ret|by apply says_ret]. }
  intros ix ws0 [layers ->]. eapply says_bind; [apply nodes_says|]. intros nodes ws1 (N1 & N2 & N3). cbv beta in *. rewrite N2.
  eapply says_bind; [apply pools_says|]. intros pools ws2 (P1 & P2 & P3). eapply says_bind; [apply groups_says|]. intros groups ws3 (G1 & G2 & G3). rewrite G3.
  eapply says_bind; [apply definitions_says|]. intros rds ws4 D. eapply says_bind; [apply resources_says|]. intros rs ws5 [R1 R2]. eapply says_bind; [apply snapshots_says|]. intros ss ws6 [S1 S2].
  eapply says_bind with (Q := fun _ _ => True); [apply says_any; intros; unfold when; destruct (negb _); [by apply says_warn|by apply says_ret]|]. intros [] ws7 _. apply says_ret.
  constructor. unshelve eapply (mkParts _ _ layers pools rds ws4); [exact N1|exists ws1; split; [|exact N3]|exact P1|exact P2|exists ws2; split; [|exact P3]|exact G1|exact G2|exact D| |done|exact R1
    |exists ws5; split; [|exact R2]|exact S1|exists ws6; split; [|exact S2]|done]; clear; set_solver.
Qed.

(** ** The latch *)

(** A row of [Resources] that says there are data: a replica that is not being deleted, on a node that is not taken over or with a disk. *)
Definition evidence (conv : gset string) (rdName : string) (r : ResourceRow) : bool :=
  bool_decide (re_ResourceName r = rdName) && bool_decide (re_SnapshotName r = "") && negb (has_bit (re_ResourceFlags r) resourceFlagDelete) &&
  (negb (bool_decide (re_NodeName r ∈ conv)) || negb (has_bit (re_ResourceFlags r) resourceFlagDiskless)).
Lemma latch_loop_spec ix conv rdName rows state :
  let latch := latch_loop ix conv rdName rows state in
  la_adopted latch || la_heldByAbsentNode latch = la_adopted state || la_heldByAbsentNode state || existsb (evidence conv rdName) rows.
Proof.
  cbn zeta. revert state. induction rows as [|row rows IH]; intros state; cbn [latch_loop existsb]; [by rewrite orb_false_r|]. unfold evidence at 1.
  destruct (bool_decide (re_ResourceName row = rdName)); cbn [negb orb andb]; [|apply IH]. destruct (bool_decide (re_SnapshotName row = "")); cbn [negb orb andb]; [|apply IH].
  destruct (has_bit (re_ResourceFlags row) resourceFlagDelete); cbn [negb orb andb]; [apply IH|].
  destruct (bool_decide (re_NodeName row ∈ conv)); cbn [negb orb andb]; [|rewrite IH; cbn; by rewrite !orb_true_r].
  destruct (has_bit (re_ResourceFlags row) resourceFlagDiskless); cbn [negb orb andb]; [by rewrite IH|].
  destruct (replicaPoolDivergence ix row); [rewrite IH|]; cbn; by rewrite !orb_true_r.
Qed.
Lemma latched_spec ix conv rdName : latched ix conv rdName = existsb (evidence conv rdName) (Resources dump).
Proof. unfold latched, rdInitializedLatch. by rewrite latch_loop_spec. Qed.

(** A replica of the definition that is not being deleted; one with a disk. *)
Definition live_replica (row : ResourceDefinitionRow) (r : ResourceRow) : Prop :=
  r ∈ Resources dump /\ re_ResourceName r = rd_ResourceName row /\ re_SnapshotName r = "" /\ has_bit (re_ResourceFlags r) resourceFlagDelete = false.
Definition has_disk (r : ResourceRow) : Prop := has_bit (re_ResourceFlags r) resourceFlagDiskless = false.
Lemma latch_spec ix row : latched ix (migrated_names dump) (rd_ResourceName row) = true <->
  exists r, live_replica row r /\ (re_NodeName r ∉ migrated_names dump \/ has_disk r).
Proof.
  rewrite latched_spec, existsb_exists. setoid_rewrite <- list_elem_of_In. unfold evidence, live_replica, has_disk.
  setoid_rewrite andb_true_iff. setoid_rewrite andb_true_iff. setoid_rewrite andb_true_iff. setoid_rewrite orb_true_iff. setoid_rewrite negb_true_iff. setoid_rewrite bool_decide_eq_true. setoid_rewrite bool_decide_eq_false. naive_solver.
Qed.

(** C31: The mark that keeps a first synchronisation from starting over data is set wherever the dump has
    data, and is no guess where every replica is in view: a definition with a replica that is not being
    deleted and has a disk is marked, whether the node of that replica is taken over or not; when all its
    replicas that are not being deleted are on nodes that are taken over, it is marked only when one of them
    has a disk, so that witnesses alone do not mark it; and a definition is never marked without a replica
    that is not being deleted. (A replica on a node that is not taken over marks it even without a disk.) *)
Theorem data_keep_the_latch : Forall (fun d => exists row, row ∈ ResourceDefinitions dump /\ rd_SnapshotName row = "" /\ md_Meta d = objectMeta (rd_dsp row) /\
  (forall r, live_replica row r -> has_disk r -> md_Initialized d = true) /\
  ((forall r, live_replica row r -> re_NodeName r ∈ migrated_names dump) -> md_Initialized d = true -> exists r, live_replica row r /\ has_disk r) /\
  (md_Initialized d = true -> exists r, live_replica row r))
  (rs_ResourceDefinitions (ConvertWithOptions decode_list dump DRBDPorts).1).
Proof.
  destruct conversion_parts as [P]. apply list.Forall_forall. intros d Hd. rewrite (pt_definitions _ _ P) in Hd. destruct (pt_defs _ _ P) as (H1 & _). destruct (H1 d Hd) as (row & Hrow & [Hs _] & dropped & _ & _ & Hdef).
  exists row. split_and!; [done|done|apply Hdef|..]; destruct Hdef as (_ & _ & -> & _); setoid_rewrite latch_spec; naive_solver.
Qed.

(** ** What is left out *)

Lemma note_more {A} (P : A -> Prop) (l l' : list A) : l ⊆ l' -> Exists P l -> Exists P l'.
Proof. rewrite !list.Exists_exists. intros Hs (x & Hx & HP). exists x. split; [by apply Hs|done]. Qed.
(** C34: every row of the tables of nodes, pools, definitions, replicas and snapshots is either taken over as an object or named in the report with the
    reason it was not. *)
Theorem nothing_is_left_out_silently : let '(res, ws) := ConvertWithOptions decode_list dump DRBDPorts in
  exists ix, Forall (fun row => (exists n, n ∈ rs_Nodes res /\ n = migrated_node dump row) \/ node_note row ws) (Nodes dump) /\
  Forall (fun row => pool_object dump ix row ∈ rs_StoragePools res \/ PoolSkipped (displayPool ix (sp_PoolName row)) (displayNode ix (sp_NodeName row)) ∈ ws) (NodeStorPools dump) /\
  Forall (fun row => rd_SnapshotName row = "" -> (exists d, d ∈ rs_ResourceDefinitions res /\ md_Meta d = objectMeta (rd_dsp row)) \/ Exists (refusal (rd_dsp row)) ws) (ResourceDefinitions dump) /\
  Forall (fun row => re_SnapshotName row = "" -> (exists r, r ∈ rs_Resources res /\ mr_Meta r = objectMeta (replica_name ix row)) \/ Exists (skips_replica (replica_name ix row)) ws) (Resources dump) /\
  Forall (fun row => rd_SnapshotName row <> "" -> (exists s, s ∈ rs_Snapshots res /\ ms_ResourceDefinitionName s = displayRD ix (rd_ResourceName row) /\
    ms_SnapshotName s = displayName (rd_SnapshotDspName row) (rd_SnapshotName row)) \/ Exists (skips_snapshot (snapshot_dsp ix row)) ws) (ResourceDefinitions dump).
Proof.
  destruct conversion_parts as [P]. destruct (ConvertWithOptions decode_list dump DRBDPorts) as [res ws]. cbn [fst snd] in P. exists (pt_ix _ _ P). rewrite !list.Forall_forall. split_and!.
  - intros row Hrow. destruct (decide (migrated row)) as [Hm|Hm]; [left; exists (migrated_node dump row); split; [apply P; eauto|done]|]. destruct (pt_no_nodes _ _ P) as (l & Hl & H). right. destruct (H row Hrow Hm); [left|right]; by apply Hl.
  - intros row Hrow. destruct (decide (here (migrated_names dump) row)) as [Hm|Hm]; [left; apply P; eauto|]. destruct (pt_no_storage _ _ P) as (l & Hl & H). right. apply Hl. by apply H.
  - intros row Hrow Hs. destruct (pt_defs _ _ P) as (_ & H2 & _ & _ & H5). destruct (decide (taken (pt_ix _ _ P) row)) as [Ht|Ht].
    + left. destruct (H2 row Hrow Ht) as (d & Hd & dropped & _ & _ & Hdef). exists d. rewrite (pt_definitions _ _ P). split; [done|apply Hdef].
    + right. eapply note_more; [apply (pt_def_lines _ _ P)|]. by apply H5.
  - intros row Hrow Hs. destruct (pt_no_replicas _ _ P) as (l & Hl & H). destruct (decide (carried (pt_ix _ _ P) (migrated_names dump) (da_converted (pt_rds _ _ P)) row)) as [Hc|Hc].
    + left. eexists. split; [apply P; eauto|done].
    + right. eapply note_more; [exact Hl|]. by apply (H row Hrow Hc).
  - intros row Hrow Hs. destruct (pt_no_snapshots _ _ P) as (l & Hl & H). destruct (H row Hrow Hs) as [(s & Hin & _ & _ & _ & _ & E1 & E2 & _)|Hn]; [left; by exists s|right; by eapply note_more].
Qed.

(** ** References *)

(** The keys of the tables, and the names of nodes. *)
Record tables_ok : Prop := mkTablesOk {
  tk_nodes : forall x y, x ∈ Nodes dump -> y ∈ Nodes dump -> no_NodeName x = no_NodeName y -> x = y;
  tk_definitions : forall x y, x ∈ ResourceDefinitions dump -> y ∈ ResourceDefinitions dump -> rd_SnapshotName x = "" -> rd_SnapshotName y = "" -> rd_ResourceName x = rd_ResourceName y -> x = y;
  tk_groups : forall x y, x ∈ ResourceGroups dump -> y ∈ ResourceGroups dump -> rg_ResourceGroupName x = rg_ResourceGroupName y -> x = y;
  tk_named : forall r, r ∈ Resources dump -> re_NodeName r <> "";
}.
Lemma displayed {A} (entry : A -> option (string * string)) (dsp : A -> string) rows x k :
  (forall y v, y ∈ rows -> entry y = Some (k, v) -> y = x) -> x ∈ rows -> entry x = Some (k, displayName (dsp x) k) -> displayName (default "" (fill entry rows !! k)) k = displayName (dsp x) k.
Proof.
  intros Hu Hx E. rewrite (fill_unique entry rows x k (displayName (dsp x) k)); [|intros y v' Hy Ey; rewrite (Hu y v') in Ey by done; congruence|done|done].
  cbn [default]. unfold displayName. repeat case_bool_decide; cbn in *; congruence.
Qed.
Section References.
Context (ok : tables_ok) (layers : gmap string LayerDrbdResourceDefinitionRow).
Lemma displayed_node row : row ∈ Nodes dump -> displayNode (index_with dump layers) (no_NodeName row) = displayName (no_NodeDspName row) (no_NodeName row).
Proof using ok. intros Hrow. apply (displayed _ no_NodeDspName); [|done|done]. intros y v Hy [=]. by apply (tk_nodes ok). Qed.
Lemma displayed_definition row : row ∈ ResourceDefinitions dump -> rd_SnapshotName row = "" -> displayRD (index_with dump layers) (rd_ResourceName row) = rd_dsp row.
Proof using ok.
  intros Hrow Hs. apply (displayed _ rd_ResourceDspName); [|done|by rewrite bool_decide_eq_true_2]. intros y v Hy. case_bool_decide; [|done]. intros [=]. by apply (tk_definitions ok).
Qed.
Lemma displayed_group row : row ∈ ResourceGroups dump -> rg_ResourceGroupName row <> "" -> displayRG (index_with dump layers) (rg_ResourceGroupName row) = group_dsp row.
Proof using ok.
  intros Hrow Hne. unfold displayRG. rewrite bool_decide_eq_false_2 by done. apply (displayed _ rg_ResourceGroupDspName); [|done|done]. intros y v Hy [=]. by apply (tk_groups ok).
Qed.
End References.

(** In a dump whose tables have their keys, nothing dangles: every replica has its definition, with the same port, and its node among the objects,
    every pool its node, every definition its group or none, every snapshot its definition and its nodes, of which there is one. *)
Theorem nothing_dangles : tables_ok -> let res := (ConvertWithOptions decode_list dump DRBDPorts).1 in
  let node_there name := exists n, n ∈ rs_Nodes res /\ mn_Meta n = objectMeta name in
  Forall (fun r => (exists d, d ∈ rs_ResourceDefinitions res /\ md_Meta d = objectMeta (mr_ResourceDefinitionName r) /\ md_DRBDPort d = mr_DRBDPort r) /\ node_there (mr_NodeName r)) (rs_Resources res) /\
  Forall (fun p => node_there (mp_NodeName p)) (rs_StoragePools res) /\
  Forall (fun d => md_ResourceGroupName d = "" \/ exists g, g ∈ rs_ResourceGroups res /\ mg_Meta g = objectMeta (md_ResourceGroupName d)) (rs_ResourceDefinitions res) /\
  Forall (fun s => (exists d, d ∈ rs_ResourceDefinitions res /\ md_Meta d = objectMeta (ms_ResourceDefinitionName s)) /\ ms_Nodes s <> [] /\ Forall node_there (ms_Nodes s)) (rs_Snapshots res).
Proof.
  intros ok. destruct conversion_parts as [P]. cbv zeta. set (res := (ConvertWithOptions decode_list dump DRBDPorts).1) in *. set (ws := (ConvertWithOptions decode_list dump DRBDPorts).2) in *.
  assert (forall name, name ∈ migrated_names dump -> exists n, n ∈ rs_Nodes res /\ mn_Meta n = objectMeta (displayNode (pt_ix _ _ P) name)) as Hnode.
  { intros name (row & Hrow & Hm & ->)%elem_migrated. exists (migrated_node dump row). split; [apply P; eauto|]. unfold pt_ix. by rewrite displayed_node. }
  destruct (pt_defs _ _ P) as (D1 & D2 & D3 & _).
  assert (forall name, name ∈ da_converted (pt_rds _ _ P) -> exists d, d ∈ rs_ResourceDefinitions res /\ md_Meta d = objectMeta (displayRD (pt_ix _ _ P) name) /\ md_DRBDPort d = port_value (pt_ix _ _ P) name) as Hdef.
  { intros name (row & Hrow & Ht & ->)%D3. destruct (D2 row Hrow Ht) as (d & Hd & dropped & _ & _ & Hdef). exists d. rewrite (pt_definitions _ _ P). split; [done|].
    unfold pt_ix at 1. rewrite displayed_definition by (done || apply Ht). split; apply Hdef. }
  rewrite !list.Forall_forall. split_and!.
  - intros r (row & Hrow & (_ & _ & Hrd & Hn & _) & ->)%(pt_replicas _ _ P). split; [|by apply Hnode]. by apply Hdef.
  - intros p (row & Hrow & Hh & ->)%(pt_storage _ _ P). by apply Hnode.
  - intros d Hd. rewrite (pt_definitions _ _ P) in Hd. destruct (D1 d Hd) as (row & Hrow & Ht & dropped & _ & _ & (_ & -> & _)). unfold dangling.
    destruct (decide (rd_ResourceGroupName row = "")) as [He|He]; [left; rewrite bool_decide_eq_true_2 by done; cbn; unfold displayRG; by rewrite bool_decide_eq_true_2|].
    rewrite bool_decide_eq_false_2 by done. cbn [negb andb]. case_bool_decide as Hg; cbn [negb]; [right|by left]. unfold pt_groups in Hg. apply elem_of_list_to_set, list_elem_of_fmap in Hg as (grow & Hgn & Hgrow).
    destruct (pt_every_group _ _ P grow Hgrow) as (g & Hgin & Hgr). exists g. split; [done|]. rewrite Hgn in *. unfold pt_ix. rewrite displayed_group by done. apply Hgr.
  - intros s Hs. destruct (pt_snapshots _ _ P s Hs) as (row & Hrow & Hne & Hrd & _ & _ & -> & _ & _ & Hnodes & Hin). split_and!; [destruct (Hdef _ Hrd) as (d & ? & ? & _); by exists d|done|].
    apply list.Forall_forall. intros n (r & _ & _ & Hn & ->)%Hin. by apply Hnode.
Qed.

(** ** Layer stacks *)

(** What the indexes hold of the chains of [rows]. *)
Definition chains_of (rows : list LayerResourceIDRow) (acc : gmap string (gmap string (list string)) * gset (string * string)) : Prop :=
  (forall row, row ∈ rows -> is_root dump row = true -> is_Some (default ∅ (acc.1 !! lr_ResourceName row) !! Str.join "," (stack_of dump row))) /\
  (forall name key stack, default ∅ (acc.1 !! name) !! key = Some stack -> Str.join "," stack = key /\ stack <> []) /\
  (forall p, p ∈ acc.2 <-> exists row, row ∈ rows /\ is_root dump row = true /\ p = replica_of row).
Lemma chains_indexed : chains_of (LayerResourceIDs dump) (indexDiskStacks dump).
Proof.
  clear decode_list DRBDPorts. unfold indexDiskStacks. induction (LayerResourceIDs dump) as [|row rows IH] using rev_ind.
  - split_and!; [by intros ? ?%elem_of_nil|intros name key stack; cbn; by rewrite lookup_empty|cbn; clear; set_solver].
  - rewrite foldl_app. cbn [foldl]. revert IH. generalize (foldl (index_stack dump) (∅, ∅) rows). intros [stacks chained] (H1 & H2 & H3). cbn [fst snd] in *. unfold index_stack, chains_of.
    setoid_rewrite elem_of_app. setoid_rewrite list_elem_of_singleton. destruct (is_root dump row) eqn:Hr; cbn [fst snd].
    + set (m := default ∅ (stacks !! lr_ResourceName row)). split_and!.
      * intros r Hin Hroot. destruct (decide (lr_ResourceName r = lr_ResourceName row)) as [e|Hne]; [rewrite e, lookup_insert_eq|rewrite lookup_insert_ne by done; destruct Hin as [Hin| ->]; [by apply H1|done]].
        cbn [from_option id]. destruct Hin as [Hin| ->]; [|rewrite lookup_insert_eq; by eexists].
        destruct (decide (Str.join "," (stack_of dump row) = Str.join "," (stack_of dump r))) as [->|Hk]; [rewrite lookup_insert_eq; by eexists|]. rewrite lookup_insert_ne by done. unfold m. rewrite <- e. by apply H1.
      * intros name key stack. destruct (decide (lr_ResourceName row = name)) as [<-|Hne]; [rewrite lookup_insert_eq|rewrite lookup_insert_ne by done; apply H2]. cbn [from_option id].
        intros [[<- <-]|[_ Hk]]%lookup_insert_Some; [done|]. by apply (H2 (lr_ResourceName row)).
      * intros p. rewrite (ex_snoc (fun row => is_root dump row = true /\ p = replica_of row)), elem_of_union, elem_of_singleton, H3. tauto.
    + split_and!; [|exact H2|].
      * intros r [Hin| ->] Hroot; [by apply H1|congruence].
      * intros p. rewrite (ex_snoc (fun row => is_root dump row = true /\ p = replica_of row)), H3. intuition congruence.
Qed.

Section Stacks.
Context (layers : gmap string LayerDrbdResourceDefinitionRow).
#[local] Notation ix := (index_with dump layers).
Lemma key_of_root row : row ∈ LayerResourceIDs dump -> is_root dump row = true -> Str.join "," (stack_of dump row) ∈ stack_keys ix (lr_ResourceName row).
Proof. intros Hrow Hr. destruct chains_indexed as (H1 & _). apply sorted_keys_elem. by apply H1. Qed.
Lemma agreed row : stackDisagreement decode_list dump ix row = None -> forall lr, lr ∈ LayerResourceIDs dump -> is_root dump lr = true -> lr_ResourceName lr = rd_ResourceName row ->
  Str.join "," (stack_of dump lr) = Str.join "," (stack_value ix row).
Proof.
  intros Hs lr Hlr Hr Hn. pose proof (key_of_root lr Hlr Hr) as Hk. rewrite Hn in Hk. unfold stackDisagreement in Hs. unfold stack_value. case_bool_decide as He.
  - destruct (negb _); [done|]. destruct (1 <? _)%nat eqn:Hl; [done|]. apply Nat.ltb_ge in Hl. destruct (stack_keys ix (rd_ResourceName row)) as [|key [|? ?]] eqn:Hkeys; [by apply elem_of_nil in Hk| |cbn in Hl; lia].
    apply list_elem_of_singleton in Hk as ->. assert (key ∈ stack_keys ix (rd_ResourceName row)) as [stack Hst]%sorted_keys_elem by (rewrite Hkeys; by left).
    rewrite Hst. destruct chains_indexed as (_ & H2 & _). symmetry. by apply (H2 (rd_ResourceName row)).
  - apply fmap_None in Hs. rewrite list_find_None, list.Forall_forall in Hs. specialize (Hs _ Hk). cbn beta in Hs. by apply dec_stable.
Qed.
Lemma unset_stack row : tables_ok -> stackDisagreement decode_list dump ix row = None -> stack_value ix row = [] -> forall r, r ∈ Resources dump -> live_diskful (rd_ResourceName row) r = false.
Proof.
  intros ok Hs Hv r Hr. apply not_true_is_false. intros Hl. unfold stackDisagreement in Hs. unfold stack_value in Hv. case_bool_decide as He; [|done].
  destruct (negb _) eqn:Hu; [done|]. apply negb_false_iff, bool_decide_eq_true in Hu. destruct (1 <? _)%nat eqn:Hlen; [done|]. apply Nat.ltb_ge in Hlen.
  assert ((re_NodeName r, re_ResourceName r) ∈ ix_chained ix) as Hc.
  { apply dec_stable. intros Hnc. unfold unchainedReplica in Hu. destruct (list_find _ (Resources dump)) as [[i x]|] eqn:Hf.
    - apply list_find_Some in Hf as (Hx & _ & _). cbn in Hu. by apply (tk_named ok x); [eapply list_elem_of_lookup_2|].
    - rewrite list_find_None, list.Forall_forall in Hf. by apply (Hf r Hr). }
  destruct chains_indexed as (_ & H2 & H3). apply H3 in Hc as (lr & Hlr & Hroot & Heq). unfold replica_of in Heq. injection Heq as _ Hn. pose proof (key_of_root lr Hlr Hroot) as Hk. rewrite <- Hn in Hk.
  assert (re_ResourceName r = rd_ResourceName row) as Hrn by (unfold live_diskful in Hl; apply andb_true_iff in Hl as [[Hl _]%andb_true_iff _]; by apply bool_decide_eq_true in Hl). rewrite Hrn in Hk.
  destruct (stack_keys ix (rd_ResourceName row)) as [|key [|? ?]] eqn:Hkeys; [by apply elem_of_nil in Hk| |cbn in Hlen; lia].
  assert (key ∈ stack_keys ix (rd_ResourceName row)) as [stack Hst]%sorted_keys_elem by (rewrite Hkeys; by left). rewrite Hst in Hv. cbn in Hv. subst stack. by destruct (H2 _ _ _ Hst).
Qed.
End Stacks.
Lemma taken_verdict ix row : is_Some (verdict ix row) -> has_bit (rd_ResourceFlags row) resourceFlagDelete = false /\ stackDisagreement decode_list dump ix row = None /\
  volumelessReason dump (rd_ResourceName row) = None /\ exists internal, externalMetadataReason decode_list dump ix row = MetaInternal internal /\ (is_Some internal <-> verdict ix row = Some true).
Proof.
  intros [b Hb]. revert Hb. unfold verdict. destruct (has_bit _ _); [done|]. destruct (stackDisagreement _ _ _ _); [done|]. destruct (externalMetadataReason _ _ _ _) as [|internal]; [done|].
  destruct (volumelessReason _ _); [done|]. intros _. split_and!; [done..|]. exists internal. split; [done|]. destruct internal; split; [by eexists|done|by intros [? ?]|done].
Qed.

(** C14: the stack of a definition is the one its replicas were built with: every chain of layers the dump has for a replica with a disk reads like it, whether the row of the definition
    named one or not; and it is left open only when no replica has a disk. *)
Theorem stacks_are_those_on_disk : tables_ok -> Forall (fun d => exists row, row ∈ ResourceDefinitions dump /\ rd_SnapshotName row = "" /\ md_Meta d = objectMeta (rd_dsp row) /\
  (forall lr, lr ∈ LayerResourceIDs dump -> is_root dump lr = true -> lr_ResourceName lr = rd_ResourceName row -> Str.join "," (stack_of dump lr) = Str.join "," (md_LayerStack d)) /\
  (md_LayerStack d = [] -> forall r, r ∈ Resources dump -> live_diskful (rd_ResourceName row) r = false))
  (rs_ResourceDefinitions (ConvertWithOptions decode_list dump DRBDPorts).1).
Proof.
  intros ok. destruct conversion_parts as [P]. apply list.Forall_forall. intros d Hd. rewrite (pt_definitions _ _ P) in Hd. destruct (pt_defs _ _ P) as (H1 & _). destruct (H1 d Hd) as (row & Hrow & [Hs Hv] & dropped & _ & _ & Hdef).
  exists row. destruct (taken_verdict _ _ Hv) as (_ & Hd1 & _). destruct Hdef as (Hm & _ & _ & -> & _). split_and!; [done|done|done|by apply agreed|by apply unset_stack].
Qed.

(** ** Passphrases *)

Definition clean_bag (m : gmap string string) : Prop := forall k, is_Some (m !! k) -> IsPlaintextPropKey k = false.
Lemma clean_insert m k v : IsPlaintextPropKey k = false -> clean_bag m -> clean_bag (<[k := v]> m).
Proof. intros Hk Hm k' [v' Hv']. apply lookup_insert_Some in Hv' as [[<- _]|[_ Hv']]; [done|]. by apply Hm. Qed.
Lemma clean_less m m' : m ⊆ m' -> clean_bag m' -> clean_bag m.
Proof. intros Hs Hm k [v Hv]. apply Hm. exists v. by eapply lookup_weaken. Qed.
Lemma index_clean rows : clean_bag (px_Controller (NewPropsIndex rows)) /\ forall i m, px_byInstance (NewPropsIndex rows) !! i = Some m -> clean_bag m.
Proof.
  clear. unfold NewPropsIndex. induction rows as [|row rows IH] using rev_ind; [split; [by intros k [v [=]]|by intros i m [=]]|]. rewrite foldl_app. cbn [foldl]. revert IH.
  generalize (foldl index_prop (mkPropsIndex ∅ ∅) rows). intros idx [H1 H2]. unfold index_prop. destruct (IsPlaintextPropKey (pr_PropKey row)) eqn:Hk; [done|]. case_bool_decide; cbn [px_Controller px_byInstance]; split; try done.
  - by apply clean_insert.
  - intros i m [[<- <-]|[_ Hm]]%lookup_insert_Some; [|by apply (H2 i)]. apply clean_insert; [done|]. destruct (px_byInstance idx !! pr_PropsInstance row) as [m|] eqn:E; [by apply (H2 _ _ E)|by intros k [v [=]]].
Qed.
Lemma bag_clean segments : clean_bag (props_get (props dump) segments).
Proof. unfold props_get. destruct (px_byInstance _ !! _) eqn:E; [by apply (index_clean _) in E|by intros k [v [=]]]. Qed.
Lemma extras_less m : (propsToTyped m).2 ⊆ m.
Proof.
  clear. unfold propsToTyped. assert ((map_fold split_key (zero_options, ∅) m).2 ⊆ m) as H; [|by destruct (map_fold _ _ m)].
  apply (map_fold_weak_ind (fun r m => r.2 ⊆ m) split_key (zero_options, ∅)); [done|]. intros k v m' [o e] Hk He. cbn [snd] in He. unfold split_key.
  destruct (negb _); cbn [snd]; [by apply insert_mono|]. destruct (applyTypedKey o k v) as [[] o']; cbn [snd]; [apply insert_subseteq_r; [by eapply lookup_weaken_None|done]|by apply insert_mono].
Qed.

Definition clean_scope (s : scopeInfo) : Prop := clean_bag (sc_Props s) /\ clean_bag (sc_Extras s).
Lemma split_clean m : clean_bag m -> clean_scope (SplitProps m).
Proof. intros H. split; (eapply clean_less; [|exact H]); [apply map_filter_subseteq|apply extras_less]. Qed.
Lemma without_less dropped rd m : withoutDroppedMetaPool dropped rd m ⊆ m.
Proof. unfold withoutDroppedMetaPool. case_bool_decide; [apply delete_subseteq|done]. Qed.

(** No property bag of any object holds a key under which a passphrase would be stored in the clear, whatever the dump holds; the shared secret of DRBD is the only
    value added to a bag. *)
Theorem passphrases_stay_behind : let res := (ConvertWithOptions decode_list dump DRBDPorts).1 in
  (forall typed extras, rs_ControllerConfig res = Some (typed, extras) -> clean_bag extras) /\
  Forall (fun n => clean_bag (mn_Props n)) (rs_Nodes res) /\ Forall (fun p => clean_bag (mp_Props p)) (rs_StoragePools res) /\ Forall (fun g => clean_scope (mg_Scope g)) (rs_ResourceGroups res) /\
  Forall (fun d => clean_scope (md_Scope d) /\ Forall (fun v => clean_bag (mv_Props v)) (md_VolumeDefinitions d)) (rs_ResourceDefinitions res) /\
  Forall (fun r => clean_scope (mr_Scope r)) (rs_Resources res) /\ Forall (fun s => clean_bag (ms_Props s)) (rs_Snapshots res).
Proof.
  destruct conversion_parts as [P]. cbv zeta. rewrite !list.Forall_forall. split_and!.
  - intros typed extras. rewrite (pt_controller _ _ P). unfold convertControllerConfig. case_bool_decide; [done|]. intros [= _ <-]. apply (split_clean _). eapply clean_less; [apply map_filter_subseteq|]. apply (index_clean (PropsContainers dump)).
  - intros n (row & _ & _ & ->)%(pt_nodes _ _ P). apply bag_clean.
  - intros p (row & _ & _ & ->)%(pt_storage _ _ P). apply bag_clean.
  - intros g Hg. destruct (pt_group _ _ P g Hg) as (row & _ & _ & -> & _). apply split_clean, bag_clean.
  - intros d Hd. rewrite (pt_definitions _ _ P) in Hd. destruct (pt_defs _ _ P) as (H1 & _). destruct (H1 d Hd) as (row & _ & _ & dropped & _ & _ & (_ & _ & _ & _ & _ & Hp & _ & He & Hv)).
    destruct (split_clean (withoutDroppedMetaPool dropped (rd_ResourceName row) (props_get (props dump) ["RSC_DFNS"; rd_ResourceName row]))) as [C1 C2]; [eapply clean_less; [apply without_less|apply bag_clean]|].
    split; [split; [by rewrite Hp|]|].
    + intros k Hk. destruct (decide (k = drbdSharedSecretProp)) as [->|Hne]; [by vm_compute|]. rewrite He in Hk by done. by apply C2.
    + apply list.Forall_forall. intros v Hin. rewrite (Hv v Hin). apply bag_clean.
  - intros r (row & _ & _ & ->)%(pt_replicas _ _ P). apply split_clean. eapply clean_less; [apply without_less|apply bag_clean].
  - intros s Hs. destruct (pt_snapshots _ _ P s Hs) as (row & _ & (_ & _ & _ & _ & _ & _ & -> & _)). apply bag_clean.
Qed.

(** ** Metadata *)

Lemma first_set_some scopes s : s ∈ scopes -> meta_of s.1 <> "" -> is_Some (first_set scopes).
Proof.
  clear. induction scopes as [|t scopes IH]; [by intros ?%elem_of_nil|]. cbn [first_set foldr]. intros Hs Hm. case_bool_decide as E; cbn [negb]; [|by eexists]. apply elem_of_cons in Hs as [->|Hs]; [done|]. by apply IH.
Qed.
(** A pool set for the replica or its definition counts for every volume. *)
Lemma meta_pools_found ix row node : volumelessReason dump (rd_ResourceName row) = None ->
  meta_of (props_get (props dump) ["RSCS"; node; rd_ResourceName row]) <> "" \/ meta_of (props_get (props dump) ["RSC_DFNS"; rd_ResourceName row]) <> "" -> drbdMetaPools dump ix row node <> [].
Proof.
  intros Hv Hm. unfold drbdMetaPools. set (shared := [_; _; _; _]).
  assert (forall more, is_Some (first_set (more ++ shared))) as Hfirst.
  { intros more. destruct Hm as [Hm|Hm]; (eapply first_set_some; [apply elem_of_app; right|]); [left|exact Hm|right; left|exact Hm]. }
  assert (filter (fun vd => live_volume (rd_ResourceName row) vd = true) (VolumeDefinitions dump) <> []) as Hvols.
  { unfold volumelessReason in Hv. destruct (existsb _ _) eqn:E; [|done]. apply existsb_exists in E as (vd & Hvd & Hd). apply list_elem_of_In, list_elem_of_filter in Hvd as [Ho Hvd]. intros Hnil.
    assert (vd ∈ filter (fun vd => live_volume (rd_ResourceName row) vd = true) (VolumeDefinitions dump)) as H; [|rewrite Hnil in H; by apply elem_of_nil in H].
    apply list_elem_of_filter. split; [|done]. unfold live_volume, own_volume in *. by rewrite Ho, Hd. }
  rewrite bool_decide_eq_false_2 by done. destruct (filter _ _) as [|vd vols]; [done|]. cbn [mbind list_bind]. intros [H _]%app_nil. 
  match type of H with option_list (first_set (?a :: ?b :: shared)) = [] => destruct (Hfirst [a; b]) as [x Hx]; cbn [app] in Hx; by rewrite Hx in H end.
Qed.
Lemma checked_internal ix row rows : forall internal i, check_replicas dump ix row rows internal = MetaInternal i ->
  is_Some internal \/ (exists res, res ∈ rows /\ kept_replica (rd_ResourceName row) res = true /\ drbdMetaPools dump ix row (re_NodeName res) <> []) -> is_Some i.
Proof.
  induction rows as [|res rows IH]; cbn [check_replicas]; intros internal i; [intros [= ->] [?|(r & []%elem_of_nil & _)]; done|].
  destruct (kept_replica (rd_ResourceName row) res) eqn:Hk; cbn [negb].
  - destruct (drbdMetaPools dump ix row (re_NodeName res)) as [|mp more] eqn:Hp.
    + intros Hc [Hi|(r & [->|Hr]%elem_of_cons & Hkr & Hpr)]; [by apply (IH _ _ Hc); left|done|]. apply (IH _ _ Hc). right. eauto.
    + destruct (if bool_decide _ then None else _) as [[? ?]|]; [done|]. intros Hc _. apply (IH _ _ Hc). left. destruct internal; by eexists.
  - intros Hc [Hi|(r & [->|Hr]%elem_of_cons & Hkr & Hpr)]; [by apply (IH _ _ Hc); left|congruence|]. apply (IH _ _ Hc). right. eauto.
Qed.
Lemma runs_by_stack layers row : stackDisagreement decode_list dump (index_with dump layers) row = None ->
  runsDRBD decode_list (index_with dump layers) row = bool_decide (stack_value (index_with dump layers) row = []) || existsb (fun kind => Str.equal_fold kind "DRBD") (stack_value (index_with dump layers) row).
Proof.
  intros Hs. unfold runsDRBD, stack_value, stackDisagreement in *. cbv zeta in *. case_bool_decide as He; [|done]. destruct (negb _); [done|]. destruct (1 <? _)%nat eqn:Hl; [done|]. apply Nat.ltb_ge in Hl.
  enough (foldl (fun _ kv => kv.2) [] (map_to_list (default ∅ (ix_diskStacks (index_with dump layers) !! rd_ResourceName row))) =
    match stack_keys (index_with dump layers) (rd_ResourceName row) with [key] => default [] (default ∅ (ix_diskStacks (index_with dump layers) !! rd_ResourceName row) !! key) | _ => [] end) as -> by done.
  unfold stack_keys, sorted_keys in *. set (m := default ∅ _) in *. destruct (map_to_list m) as [|[k st] [|kv kvs]] eqn:Em; [done| |].
  - change (sort_strings [(k, st)].*1) with [k]. cbn. assert (m !! k = Some st) as -> by (apply elem_of_map_to_list; rewrite Em; by left). done.
  - exfalso. assert (length (sort_strings ((k, st) :: kv :: kvs).*1) = length (((k, st) :: kv :: kvs).*1)) as Hlen; [|rewrite Hlen in Hl; cbn in Hl; lia]. apply Permutation_length, sort_strings_perm.
Qed.

Definition no_meta (s : scopeInfo) : Prop := meta_of (sc_Props s) = "" /\ meta_of (sc_Extras s) = "".
Lemma meta_less m m' : m ⊆ m' -> meta_of m' = "" -> meta_of m = "".
Proof. unfold meta_of. intros Hs H. destruct (m !! storPoolNameDrbdMeta) as [v|] eqn:E; [|done]. by rewrite (lookup_weaken _ _ _ _ E Hs) in H. Qed.
Lemma split_no_meta m : meta_of m = "" -> no_meta (SplitProps m).
Proof. intros H. split; (eapply meta_less; [|exact H]); [apply map_filter_subseteq|apply extras_less]. Qed.
Lemma dropped_no_meta dropped rd m : rd ∈ dropped -> meta_of (withoutDroppedMetaPool dropped rd m) = "".
Proof. intros H. unfold withoutDroppedMetaPool, meta_of. rewrite bool_decide_eq_true_2 by done. by rewrite lookup_delete_eq. Qed.
Lemma decode_diskless flags : flagStrDiskless ∉ (decodeResourceFlags flags).1 -> has_bit flags resourceFlagDiskless = false.
Proof.
  clear. unfold decodeResourceFlags. destruct (has_bit flags resourceFlagDiskless); [|done]. intros H. exfalso. apply H. destruct (has_bit flags resourceFlagDrbdDiskless), (has_bit flags resourceFlagTieBreaker); cbn; by left.
Qed.
(** A definition that is taken over with DRBD, of which a replica with a disk is kept, drops its meta pool whenever it is set for the definition or that replica. *)
Lemma meta_dropped layers row res : is_Some (verdict (index_with dump layers) row) -> runsDRBD decode_list (index_with dump layers) row = true ->
  res ∈ Resources dump -> kept_replica (rd_ResourceName row) res = true ->
  verdict (index_with dump layers) row = Some true \/
  meta_of (props_get (props dump) ["RSCS"; re_NodeName res; rd_ResourceName row]) = "" /\ meta_of (props_get (props dump) ["RSC_DFNS"; rd_ResourceName row]) = "".
Proof.
  intros Hv Hr Hres Hk. destruct (taken_verdict _ _ Hv) as (_ & _ & Hvol & i & Hi & Hb). unfold externalMetadataReason in Hi. cbv zeta in Hi. destruct (negb (bool_decide _)); [done|]. rewrite Hr in Hi. cbn [negb] in Hi.
  destruct (decide (meta_of (props_get (props dump) ["RSCS"; re_NodeName res; rd_ResourceName row]) = "")) as [E1|E1]; [destruct (decide (meta_of (props_get (props dump) ["RSC_DFNS"; rd_ResourceName row]) = "")) as [E2|E2]; [by right|]|].
  all: left; apply Hb; eapply checked_internal; [exact Hi|]; right; exists res; split_and!; [done|done|]; apply meta_pools_found; [done|tauto].
Qed.

(** C28: no replica with a disk that is taken over into a definition with DRBD carries, nor does its definition, the property that would have the satellite look for its metadata on a separate volume: LINSTOR
    keeps them on the data device, where they stay. *)
Theorem metadata_stay_on_the_data_device : tables_ok -> let res := (ConvertWithOptions decode_list dump DRBDPorts).1 in
  Forall (fun r => flagStrDiskless ∈ mr_Flags r \/ exists d, d ∈ rs_ResourceDefinitions res /\ md_Meta d = objectMeta (mr_ResourceDefinitionName r) /\
    (bool_decide (md_LayerStack d = []) || existsb (fun kind => Str.equal_fold kind "DRBD") (md_LayerStack d) = true -> no_meta (mr_Scope r) /\ no_meta (md_Scope d))) (rs_Resources res).
Proof.
  intros ok. destruct conversion_parts as [P]. cbv zeta. apply list.Forall_forall. intros r (row & Hrow & (Hs & Hdel & Hrd & Hn & _) & ->)%(pt_replicas _ _ P).
  destruct (decide (flagStrDiskless ∈ (decodeResourceFlags (re_ResourceFlags row)).1)) as [Hf|Hf]; [by left|right]. apply decode_diskless in Hf.
  destruct (pt_defs _ _ P) as (D1 & D2 & D3 & D4 & _). apply D3 in Hrd as (rd & Hrdin & Ht & Hname). destruct (D2 rd Hrdin Ht) as (d & Hd & dropped & _ & Hdrop & (Hmeta & _ & _ & Hst & _ & Hp & _ & He & _)).
  exists d. rewrite (pt_definitions _ _ P). split; [done|]. cbn [replica_object mr_ResourceDefinitionName mr_Scope]. unfold pt_ix in *. rewrite Hname, displayed_definition by (done || apply Ht). split; [done|].
  rewrite Hst, <- runs_by_stack by (eapply taken_verdict, Ht). intros Hruns. destruct Ht as [Ht1 Ht2].
  assert (no_meta (SplitProps (withoutDroppedMetaPool (da_dropped (pt_rds _ _ P)) (rd_ResourceName rd) (props_get (props dump) ["RSCS"; re_NodeName row; rd_ResourceName rd]))) /\
    no_meta (SplitProps (withoutDroppedMetaPool dropped (rd_ResourceName rd) (props_get (props dump) ["RSC_DFNS"; rd_ResourceName rd])))) as [M1 [M2 M3]].
  { destruct (meta_dropped _ rd row Ht2 Hruns Hrow) as [Hv|[E1 E2]].
    - unfold kept_replica, live_diskful. by rewrite !bool_decide_eq_true_2, Hf, Hdel.
    - split; apply split_no_meta, dropped_no_meta; [by apply (D4 rd)|by apply Hdrop].
    - split; apply split_no_meta; (eapply meta_less; [apply without_less|done]). }
  split; [done|]. split; [by rewrite Hp|]. unfold meta_of in *. by rewrite He.
Qed.

(** ** Placement *)

Definition parsed (raw : string) : list string := if emptyList raw then [] else default [] (decode_list raw).
(** Where a group could place before, as the import takes it: an empty list allows everything, a pool is named in any case. *)
Definition eligible (providers pools : list string) (kind name : string) : Prop :=
  (providers = [] \/ kind ∈ providers) /\ (pools = [] \/ exists pin, pin ∈ pools /\ Str.to_upper pin = name).

(** What the lists of an imported group let through: the kind and the name of the pool as they are spelled, as the placer compares them. *)
Definition accepts (f : mFilter) (pool : mPool) : Prop :=
  (mf_ProviderList f = [] \/ mp_ProviderKind pool ∈ mf_ProviderList f) /\ (mf_StoragePoolList f = [] \/ mp_PoolName pool ∈ mf_StoragePoolList f).

Lemma scope_pins_spec pa excluded pinned : match scopePins pa pinned excluded with
  | Some kept => kept = filter (fun pin => Str.to_upper pin ∉ excluded) pinned /\ forall pin, pin ∈ pinned -> Str.to_upper pin ∈ excluded -> Str.to_upper pin ∉ po_declaredZFS pa
  | None => exists pin, pin ∈ pinned /\ Str.to_upper pin ∈ excluded /\ Str.to_upper pin ∈ po_declaredZFS pa
  end.
Proof.
  clear. unfold scopePins. match goal with |- context [foldr ?f _ _ _] => assert (forall kept, match foldr f Some pinned kept with
    | Some kept' => kept' = kept ++ filter (fun pin => Str.to_upper pin ∉ excluded) pinned /\ forall pin, pin ∈ pinned -> Str.to_upper pin ∈ excluded -> Str.to_upper pin ∉ po_declaredZFS pa
    | None => exists pin, pin ∈ pinned /\ Str.to_upper pin ∈ excluded /\ Str.to_upper pin ∈ po_declaredZFS pa end) as H; [|exact (H [])] end.
  induction pinned as [|pin pinned IH]; intros kept; cbn [foldr]; [split; [by rewrite app_nil_r|by intros ? ?%elem_of_nil]|].
  case_bool_decide as He; cbn [negb].
  - case_bool_decide as Hz; [exists pin; split; [by left|done]|]. specialize (IH kept). destruct (foldr _ Some pinned kept).
    + rewrite list.filter_cons_False by (intros H; by apply H). destruct IH as [-> IH]. split; [done|]. intros x [->|Hx]%elem_of_cons; [done|by apply IH].
    + destruct IH as (x & ? & ?). exists x. split; [by right|done].
  - specialize (IH (kept ++ [pin])). destruct (foldr _ Some pinned (kept ++ [pin])).
    + rewrite list.filter_cons_True by done. destruct IH as [-> IH]. rewrite <- (assoc_L (++)). split; [done|]. intros x [->|Hx]%elem_of_cons; [done|by apply IH].
    + destruct IH as (x & ? & ?). exists x. split; [by right|done].
Qed.
Lemma pools_except_spec ix conv excluded rows : forall seen pin, pin ∈ pools_except ix conv excluded seen rows ->
  exists row, row ∈ rows /\ here conv row /\ sp_PoolName row ∉ excluded /\ pin = displayPool ix (sp_PoolName row).
Proof.
  clear. induction rows as [|row rows IH]; intros seen pin; cbn [pools_except]; [by intros ?%elem_of_nil|].
  destruct (bool_decide (sp_PoolName row ∈ excluded)) eqn:He; cbn [orb]; [intros H; destruct (IH _ _ H) as (r & ? & ?); exists r; split; [by right|done]|].
  destruct (bool_decide (sp_PoolName row ∈ seen)) eqn:Hs; cbn [orb]; [intros H; destruct (IH _ _ H) as (r & ? & ?); exists r; split; [by right|done]|].
  destruct (bool_decide (sp_NodeName row ∈ conv)) eqn:Hn; cbn [negb]; [|intros H; destruct (IH _ _ H) as (r & ? & ?); exists r; split; [by right|done]].
  intros [->|H]%elem_of_cons; [exists row; split_and!; [by left|by apply bool_decide_eq_true in Hn|by apply bool_decide_eq_false in He|done]|]. destruct (IH _ _ H) as (r & ? & ?); exists r; split; [by right|done].
Qed.
Lemma pools_except_complete ix conv excluded rows row : row ∈ rows -> here conv row -> sp_PoolName row ∉ excluded -> forall seen, sp_PoolName row ∉ seen -> displayPool ix (sp_PoolName row) ∈ pools_except ix conv excluded seen rows.
Proof.
  clear. intros Hin Hh He. induction rows as [|r rows IH]; [by apply elem_of_nil in Hin|]. intros seen Hs. cbn [pools_except]. apply elem_of_cons in Hin as [<-|Hin].
  - rewrite !bool_decide_eq_false_2 by done. rewrite bool_decide_eq_true_2 by done. by left.
  - destruct (_ || _ || _) eqn:E; [by apply IH|]. destruct (decide (sp_PoolName row = sp_PoolName r)) as [->|Hne]; [by left|]. right. apply IH; [done|]. set_solver.
Qed.

(** The lists a group ends up with. *)
Definition placement (ix : index) (conv : gset string) (pa : pools_acc) (providers pools : list string) : list string * list string :=
  if negb (bool_decide (providerKindZFS ∈ providers)) || bool_decide (providerKindZFSThin ∈ providers) || negb (reaches pools (po_remapped pa)) then (providers, pools)
  else if negb (bool_decide (pools = [])) then
    match scopePins pa pools (po_declaredThin pa) with None => (providers, pools) | Some scoped => (providers ++ [providerKindZFSThin], scoped) end
  else if bool_decide (po_declaredThin pa = ∅) then (providers ++ [providerKindZFSThin], pools)
  else if bool_decide (poolsExcept dump ix conv (po_declaredThin pa) = []) then (providers, pools) else (providers ++ [providerKindZFSThin], poolsExcept dump ix conv (po_declaredThin pa)).
Lemma placed_value ix conv pa row lists : placed ix conv pa row lists -> lists = placement ix conv pa (parsed (rg_AllowedProviderList row)) (parsed (rg_PoolName row)).
Proof.
  intros [s <-]. enough (says (placementLists decode_list dump ix conv pa row (group_dsp row)) (fun lists _ => lists = placement ix conv pa (parsed (rg_AllowedProviderList row)) (parsed (rg_PoolName row)))) as H
    by (destruct (H s) as (a & s' & ws & E & _ & ->); by rewrite E).
  unfold placementLists, placement. eapply says_bind; [apply parse_says|]. intros providers ws ->. eapply says_bind; [apply parse_says|]. intros pools ws' ->. fold (parsed (rg_AllowedProviderList row)) (parsed (rg_PoolName row)).
  destruct (negb (bool_decide (providerKindZFS ∈ _)) || _); cbn [orb]; [by apply says_ret|]. destruct (negb (reaches _ _)); [by apply says_ret|]. destruct (negb (bool_decide (parsed (rg_PoolName row) = []))).
  - pose proof (scope_pins_spec pa (po_declaredThin pa) (parsed (rg_PoolName row))) as Hsc. destruct (scopePins pa _ _) as [scoped|]; [|by apply says_warned, says_ret].
    destruct (_ <? _)%nat eqn:Hlt; apply says_warned, says_ret; [done|]. f_equal. destruct Hsc as [-> _]. apply Nat.ltb_ge in Hlt.
    symmetry. apply filter_whole. done.
  - case_bool_decide; [by apply says_warned, says_ret|]. case_bool_decide; by apply says_warned, says_ret.
Qed.

Section Placing.
Context (ix : index) (conv : gset string) (pa : pools_acc).
Context (sets : pool_sets (filter (here conv) (NodeStorPools dump)) pa).
Context (upper : forall row, row ∈ NodeStorPools dump -> Str.to_upper (displayPool ix (sp_PoolName row)) = sp_PoolName row).
Lemma sparse_zfs p : sparse p = true -> sp_DriverName p = providerKindZFS.
Proof. unfold sparse, createsSparseZvols. rewrite andb_true_iff. intros [H%bool_decide_eq_true _]. done. Qed.
Lemma kind_cases p : sparse p = true /\ sp_DriverName p = providerKindZFS /\ kind_after dump p = providerKindZFSThin \/ sparse p = false /\ kind_after dump p = sp_DriverName p.
Proof. unfold kind_after. fold (sparse p). destruct (sparse p) eqn:E; [left; auto using sparse_zfs|by right]. Qed.
Lemma in_sets p : p ∈ NodeStorPools dump -> here conv p -> (sparse p = true -> sp_PoolName p ∈ po_remapped pa) /\ (sp_DriverName p = providerKindZFSThin -> sp_PoolName p ∈ po_declaredThin pa).
Proof using sets.
  intros Hp Hh. destruct sets as (S1 & S2 & _). split; intros H; [apply S1|apply S2]; exists p; (split; [by apply list_elem_of_filter|]); (split; [|done]); [done|by apply bool_decide_eq_true].
Qed.
Lemma remapped_declared n : n ∈ po_remapped pa -> n ∈ po_declaredZFS pa.
Proof using sets. destruct sets as (S1 & _ & S3 & _). rewrite S1, S3. intros (row & Hr & Hs & ->). exists row. split_and!; [done| |done]. by apply bool_decide_eq_true, sparse_zfs. Qed.
Lemma reaches_some pools set : reaches pools set = true <-> pools = [] /\ set <> ∅ \/ exists pin, pin ∈ pools /\ Str.to_upper pin ∈ set.
Proof.
  clear. unfold reaches. case_bool_decide as E.
  - subst. rewrite negb_true_iff, bool_decide_eq_false. split; [by left|]. intros [[_ ?]|(? & []%elem_of_nil & _)]; done.
  - rewrite existsb_exists. setoid_rewrite <- list_elem_of_In. setoid_rewrite bool_decide_eq_true. split; [by right|]. intros [[? _]|?]; done.
Qed.

(** What is pinned when the list of providers was widened: names that are not thin, or nothing when no name is. *)
Definition narrowed (pools pins : list string) : Prop :=
  (pins = [] -> pools = [] /\ po_declaredThin pa = ∅) /\ forall pin, pin ∈ pins -> (pools = [] \/ pin ∈ pools) /\ Str.to_upper pin ∉ po_declaredThin pa.
Lemma placement_cases providers pools : (placement ix conv pa providers pools = (providers, pools)) \/
  providerKindZFS ∈ providers /\ providerKindZFSThin ∉ providers /\ exists pins, placement ix conv pa providers pools = (providers ++ [providerKindZFSThin], pins) /\ narrowed pools pins.
Proof using sets upper.
  unfold placement. case_bool_decide as Hz; cbn [negb orb]; [|by left]. case_bool_decide as Ht; cbn [orb]; [by left|]. destruct (reaches pools (po_remapped pa)) eqn:Hr; cbn [negb]; [|by left].
  apply reaches_some in Hr. case_bool_decide as Hp; cbn [negb].
  - case_bool_decide as He; [right; split_and!; [done|done|]; exists pools; split; [done|]; split; [done|]; subst; by intros pin ?%elem_of_nil|].
    case_bool_decide as Hx; [by left|]. right. split_and!; [done|done|]. eexists. split; [done|]. split; [done|]. intros pin Hpin. split; [by left|].
    unfold poolsExcept in Hpin. apply elem_sorted, pools_except_spec in Hpin as (row & Hrow & _ & Hn & ->). by rewrite upper.
  - pose proof (scope_pins_spec pa (po_declaredThin pa) pools) as Hsc. destruct (scopePins pa pools (po_declaredThin pa)) as [scoped|]; [|by left]. destruct Hsc as [-> Hsc].
    right. split_and!; [done|done|]. eexists. split; [done|]. split; [|intros pin [Hn Hpin]%list_elem_of_filter; split; [by right|done]].
    intros Hnil. exfalso. destruct Hr as [[? _]|(pin & Hpin & Hin)]; [done|]. assert (pin ∈ filter (fun pin => Str.to_upper pin ∉ po_declaredThin pa) pools) as H; [|rewrite Hnil in H; by apply elem_of_nil in H].
    apply list_elem_of_filter. split; [|done]. intros Hex. by apply (Hsc pin Hpin Hex), remapped_declared.
Qed.
Lemma nowhere_else providers pools p : (providerKindZFSThin ∈ providers -> providerKindZFS ∈ providers) -> p ∈ NodeStorPools dump -> here conv p ->
  eligible (placement ix conv pa providers pools).1 (placement ix conv pa providers pools).2 (kind_after dump p) (sp_PoolName p) -> eligible providers pools (sp_DriverName p) (sp_PoolName p).
Proof using sets upper.
  intros Hthin Hp Hh. destruct (placement_cases providers pools) as [->|(Hz & Ht & pins & -> & Hn1 & Hn2)]; cbn [fst snd]; intros [Hk Hpins].
  - split; [|done]. destruct (kind_cases p) as [(_ & -> & E)|[_ <-]]; [|done]. rewrite E in Hk. destruct Hk as [?|?]; [by left|right; by apply Hthin].
  - assert (sp_DriverName p ∈ providers) as Hd.
    { destruct Hk as [Hk|Hk]; [destruct providers; done|]. destruct (kind_cases p) as [(_ & -> & _)|[_ E]]; [done|]. rewrite E in Hk. apply elem_of_app in Hk as [Hk|Hk]; [done|]. apply list_elem_of_singleton in Hk.
      exfalso. pose proof (proj2 (in_sets p Hp Hh) Hk) as Hin. destruct Hpins as [Hpins|(pin & Hpin & Hu)]; [destruct (Hn1 Hpins) as [_ He]; rewrite He in Hin; by apply elem_of_empty in Hin|]. destruct (Hn2 pin Hpin) as [_ Hno]. by rewrite Hu in Hno. }
    split; [by right|]. destruct Hpins as [Hpins|(pin & Hpin & Hu)]; [left; by apply Hn1|]. destruct (Hn2 pin Hpin) as [[?|?] _]; [by left|right; by exists pin].
Qed.
(** A name that is thin on one node is thin on all. *)
Definition unmixed : Prop := forall p q, p ∈ NodeStorPools dump -> q ∈ NodeStorPools dump -> here conv p -> here conv q -> sp_PoolName p = sp_PoolName q ->
  sp_DriverName p = providerKindZFSThin -> sp_DriverName q = providerKindZFSThin.
Lemma not_thin p : unmixed -> p ∈ NodeStorPools dump -> here conv p -> sp_DriverName p <> providerKindZFSThin -> sp_PoolName p ∉ po_declaredThin pa.
Proof using sets.
  intros Hu Hp Hh Hd Hin. destruct sets as (_ & S2 & _). apply S2 in Hin as (q & [Hq1 Hq2]%list_elem_of_filter & Hq3%bool_decide_eq_true & Hq4). apply Hd. by apply (Hu q p).
Qed.
Lemma zfs_not_thin n : unmixed -> n ∈ po_declaredZFS pa -> n ∉ po_declaredThin pa.
Proof using sets.
  intros Hu Hn. destruct sets as (_ & _ & S3 & _). apply S3 in Hn as (q & [Hq1 Hq2]%list_elem_of_filter & Hq3%bool_decide_eq_true & ->). apply (not_thin q Hu Hq2 Hq1). by rewrite Hq3.
Qed.
(** Left as they were, the lists still cover what they did. *)
Lemma unchanged_covers providers pools p : unmixed -> p ∈ NodeStorPools dump -> here conv p -> placement ix conv pa providers pools = (providers, pools) ->
  eligible providers pools (sp_DriverName p) (sp_PoolName p) -> providers = [] \/ kind_after dump p ∈ providers.
Proof using sets upper.
  intros Hu Hp Hh Hpl [Hk Hpins]. destruct (kind_cases p) as [(Hs & Hd & ->)|[_ ->]]; [|done]. destruct Hk as [Hk|Hk]; [by left|right]. rewrite Hd in Hk.
  unfold placement in Hpl. rewrite (bool_decide_eq_true_2 (providerKindZFS ∈ providers)) in Hpl by done. cbn [negb orb] in Hpl. case_bool_decide as Ht; [done|]. cbn [orb] in Hpl. exfalso.
  assert (reaches pools (po_remapped pa) = true) as Hr.
  { apply reaches_some. pose proof (proj1 (in_sets p Hp Hh) Hs) as Hin. destruct Hpins as [->|(pin & Hpin & E)]; [left; split; [done|]; intros He; rewrite He in Hin; by apply elem_of_empty in Hin|right; exists pin; by rewrite E]. }
  rewrite Hr in Hpl. cbn [negb] in Hpl. assert (forall l : list string, (providers ++ [providerKindZFSThin], l) <> (providers, pools)) as Hne.
  { intros l [= E _]. apply (f_equal length) in E. rewrite length_app in E. cbn in E. lia. }
  case_bool_decide as Hpo; cbn [negb] in Hpl.
  - case_bool_decide; [by apply Hne in Hpl|]. case_bool_decide as Hx; [|by apply Hne in Hpl].
    assert (displayPool ix (sp_PoolName p) ∈ poolsExcept dump ix conv (po_declaredThin pa)) as Hin; [|rewrite Hx in Hin; by apply elem_of_nil in Hin].
    unfold poolsExcept. apply elem_sorted, pools_except_complete; [done|done|apply not_thin; [done..|by rewrite Hd]|apply not_elem_of_empty].
  - pose proof (scope_pins_spec pa (po_declaredThin pa) pools) as Hsc. destruct (scopePins pa pools (po_declaredThin pa)); [by apply Hne in Hpl|]. destruct Hsc as (pin & _ & Hin & Hz). by apply (zfs_not_thin (Str.to_upper pin)).
Qed.
Lemma nothing_lost providers pools p : unmixed -> p ∈ NodeStorPools dump -> here conv p -> eligible providers pools (sp_DriverName p) (sp_PoolName p) ->
  eligible (placement ix conv pa providers pools).1 (placement ix conv pa providers pools).2 (kind_after dump p) (sp_PoolName p).
Proof using sets upper.
  intros Hu Hp Hh He. destruct (placement_cases providers pools) as [E|(Hz & Ht & pins & E & _)].
  - rewrite E. cbn [fst snd]. split; [by eapply unchanged_covers|apply He].
  - rewrite E. cbn [fst snd]. destruct He as [Hk Hpins]. destruct Hk as [->|Hk]; [by apply elem_of_nil in Hz|]. split.
    + right. destruct (kind_cases p) as [(_ & _ & ->)|[_ ->]]; apply elem_of_app; [right; by left|by left].
    + assert (sp_PoolName p ∉ po_declaredThin pa) as Hn by (apply not_thin; [done..|]; by intros Hd; rewrite Hd in Hk).
      revert E. unfold placement. rewrite (bool_decide_eq_true_2 (providerKindZFS ∈ providers)), (bool_decide_eq_false_2 (providerKindZFSThin ∈ providers)) by done. cbn [negb orb].
      assert (forall l : list string, (providers, l) <> (providers ++ [providerKindZFSThin], pins)) as Hne. { intros l [= E _]. apply (f_equal length) in E. rewrite length_app in E. cbn in E. lia. }
      destruct (negb (reaches _ _)); [by intros ?%Hne|]. case_bool_decide as Hpo; cbn [negb].
      * case_bool_decide; [intros [= <-]; by left|]. case_bool_decide; [by intros ?%Hne|]. intros [= <-]. right. exists (displayPool ix (sp_PoolName p)). split; [|by apply upper].
        unfold poolsExcept. apply elem_sorted, pools_except_complete; [done|done|done|apply not_elem_of_empty].
      * pose proof (scope_pins_spec pa (po_declaredThin pa) pools) as Hsc. destruct (scopePins pa pools (po_declaredThin pa)) as [scoped|]; [|by intros ?%Hne]. intros [= <-]. destruct Hsc as [-> _].
        destruct Hpins as [?|(pin & Hpin & Hup)]; [done|]. right. exists pin. split; [|done]. apply list_elem_of_filter. by rewrite Hup.
Qed.
(** The pins of the group, or names as they are displayed. *)
Lemma pins_spelled providers pools pin p : pin ∈ (placement ix conv pa providers pools).2 -> Str.to_upper pin = sp_PoolName p -> pin ∈ pools \/ pin = displayPool ix (sp_PoolName p).
Proof using upper.
  unfold placement. destruct (_ || _); [by left|]. case_bool_decide as Hp; cbn [negb].
  - case_bool_decide; [by left|]. case_bool_decide; [by left|]. cbn [snd]. intros (row & Hrow & _ & _ & ->)%elem_sorted%pools_except_spec. rewrite upper by done. intros ->. by right.
  - pose proof (scope_pins_spec pa (po_declaredThin pa) pools) as Hsc. destruct (scopePins pa pools (po_declaredThin pa)) as [scoped|]; [|by left]. destruct Hsc as [-> _]. cbn [snd].
    intros [_ Hpin]%list_elem_of_filter. by left.
Qed.
Lemma accepts_eligible f providers pools p : (mf_ProviderList f, mf_StoragePoolList f) = placement ix conv pa providers pools -> p ∈ NodeStorPools dump ->
  (accepts f (pool_object dump ix p) -> eligible (placement ix conv pa providers pools).1 (placement ix conv pa providers pools).2 (kind_after dump p) (sp_PoolName p)) /\
  ((forall pin, pin ∈ pools -> Str.to_upper pin = sp_PoolName p -> pin = displayPool ix (sp_PoolName p)) ->
   eligible (placement ix conv pa providers pools).1 (placement ix conv pa providers pools).2 (kind_after dump p) (sp_PoolName p) -> accepts f (pool_object dump ix p)).
Proof using upper.
  intros E Hp. pose proof (fun pin => pins_spelled providers pools pin p) as Hsp. rewrite <- E in *. cbn [fst snd] in *. unfold accepts, eligible. cbn [pool_object mp_ProviderKind mp_PoolName]. split.
  - intros [H1 [H2|H2]]; (split; [done|]); [by left|right]. exists (displayPool ix (sp_PoolName p)). split; [done|by apply upper].
  - intros Hpins [H1 [H2|(pin & H2 & H3)]]; (split; [done|]); [by left|right]. destruct (Hsp pin H2 H3) as [H4|H4]; [rewrite <- (Hpins pin H4 H3); exact H2|by rewrite <- H4].
Qed.
End Placing.
Lemma upper_displayed layers row : (forall def, def ∈ StorPoolDefinitions dump -> spd_PoolDspName def = "" \/ Str.to_upper (spd_PoolDspName def) = spd_PoolName def) ->
  Str.to_upper (sp_PoolName row) = sp_PoolName row -> Str.to_upper (displayPool (index_with dump layers) (sp_PoolName row)) = sp_PoolName row.
Proof.
  intros Hd Hn. unfold displayPool. cbn [ix_poolDsp index_with]. destruct (fill _ (StorPoolDefinitions dump) !! sp_PoolName row) as [v|] eqn:E; [|cbn; done].
  apply fill_some in E as (def & Hdef & [= Hname <-]). cbn [from_option id]. specialize (Hd def Hdef). rewrite Hname in Hd. unfold displayName. repeat case_bool_decide; cbn [negb] in *; try done; destruct Hd; congruence.
Qed.

(** C37: In a dump whose pool names are the upper case of what is displayed, an imported group places where
    it did before and nowhere else, although pools declared thick with sparse volumes are taken over as
    thin. A pool its lists let through afterwards, compared exactly as the placer does, it could use before,
    unless it allowed thin ZFS pools and no thick ones; and it loses none, unless a name is thin on one node
    and not on another, or the group does not spell the name of the pool as it is displayed. *)
Theorem groups_place_where_they_did :
  (forall def, def ∈ StorPoolDefinitions dump -> spd_PoolDspName def = "" \/ Str.to_upper (spd_PoolDspName def) = spd_PoolName def) ->
  (forall row, row ∈ NodeStorPools dump -> Str.to_upper (sp_PoolName row) = sp_PoolName row) ->
  let res := (ConvertWithOptions decode_list dump DRBDPorts).1 in
  exists ix, (forall p, p ∈ NodeStorPools dump -> here (migrated_names dump) p -> pool_object dump ix p ∈ rs_StoragePools res) /\
  Forall (fun g => exists row, row ∈ ResourceGroups dump /\ mg_Meta g = objectMeta (group_dsp row) /\ forall p, p ∈ NodeStorPools dump -> here (migrated_names dump) p ->
    let before := eligible (parsed (rg_AllowedProviderList row)) (parsed (rg_PoolName row)) (sp_DriverName p) (sp_PoolName p) in
    let after := accepts (mg_SelectFilter g) (pool_object dump ix p) in
    ((providerKindZFSThin ∈ parsed (rg_AllowedProviderList row) -> providerKindZFS ∈ parsed (rg_AllowedProviderList row)) -> after -> before) /\
    (unmixed (migrated_names dump) -> (forall pin, pin ∈ parsed (rg_PoolName row) -> Str.to_upper pin = sp_PoolName p -> pin = displayPool ix (sp_PoolName p)) -> before -> after))
  (rs_ResourceGroups res).
Proof.
  intros Hdsp Hname res. destruct conversion_parts as [P]. exists (pt_ix _ _ P). split; [intros p Hp Hh; apply (pt_storage _ _ P); eauto|]. apply list.Forall_forall. intros g Hg. destruct (pt_group _ _ P g Hg) as (row & Hrow & Hm & _ & Hpl%placed_value).
  exists row. split_and!; [done|done|]. intros p Hp Hh. cbv zeta.
  assert (forall q, q ∈ NodeStorPools dump -> Str.to_upper (displayPool (pt_ix _ _ P) (sp_PoolName q)) = sp_PoolName q) as Hup by (intros q Hq; by apply upper_displayed; [|apply Hname]).
  destruct (accepts_eligible _ _ _ Hup _ _ _ p Hpl Hp) as [A1 A2].
  split; [intros Hthin Ha; by apply (nowhere_else _ _ _ (pt_sets _ _ P) Hup), A1|intros Hu Hpins Hb; by apply A2, (nothing_lost _ _ _ (pt_sets _ _ P) Hup)].
Qed.

End Phases.

(** ** The port file *)

(** Every port that is read from a port file is a TCP port. *)
Theorem ports_are_ports content : match ParseDRBDPorts content with Some ports => map_Forall (fun _ port => 0 < port <= maxTCPPort) ports | None => True end.
Proof.
  unfold ParseDRBDPorts. assert (forall lines ports, map_Forall (fun _ port => 0 < port <= maxTCPPort) ports ->
    match parse_ports lines ports with Some ports' => map_Forall (fun _ port => 0 < port <= maxTCPPort) ports' | None => True end) as H; [|by apply H, map_Forall_empty].
  induction lines as [|raw lines IH]; intros ports Hp; cbn [parse_ports]; [done|]. destruct (_ || _); [by apply IH|]. destruct (fields _) as [|name [|number [|? ?]]]; try done.
  destruct (parse_int 32 number) as [port|]; [|done]. destruct (_ || _) eqn:E; [done|]. apply IH. apply map_Forall_insert_2; [|done]. apply orb_false_iff in E as [E1%Z.leb_gt E2%Z.ltb_ge]. lia.
Qed.

(** * Imports

    A small cluster as a witness, and dumps where the import does not do what it is meant to. *)

(** The lists of the dumps. *)
Definition lists_of (raw : string) : option (list string) :=
  if bool_decide (raw = "zfs") then Some ["ZFS"] else if bool_decide (raw = "zfs_thin") then Some ["ZFS_THIN"] else if bool_decide (raw = "tank") then Some ["tank"] else None.
Definition group_row (name providers pools : string) : ResourceGroupRow := mkResourceGroupRow name "" "" "" 2 "" pools "" "" "" "" providers.
Definition satellite (name : string) : NodeRow := mkNodeRow name (Str.to_lower name) 0 2.
(** Two satellites with a pool each, a controller, and the definition PVC with a replica on each satellite and a witness. *)
Definition pvc_layers : list LayerResourceIDRow :=
  [mkLayerResourceIDRow 1 "DRBD" None "" "N1" "PVC" ""; mkLayerResourceIDRow 2 "STORAGE" (Some 1) "" "N1" "PVC" "";
   mkLayerResourceIDRow 3 "DRBD" None "" "N2" "PVC" ""; mkLayerResourceIDRow 4 "STORAGE" (Some 3) "" "N2" "PVC" ""].
Definition dump_with (pools : list NodeStorPoolRow) (groups : list ResourceGroupRow) (rds : list ResourceDefinitionRow) (replicas : list ResourceRow) (bags : list PropsContainerRow) : Dump :=
  mkDump [satellite "N1"; satellite "N2"; mkNodeRow "C" "c" 0 1] [] pools [] groups [] rds [mkVolumeDefinitionRow "PVC" "" 0 1048576 0] replicas [] bags pvc_layers
    [mkLayerDrbdResourceDefinitionRow "PVC" "" "" "secret" (Some 7000)] [mkLayerDrbdResourceRow 1 0; mkLayerDrbdResourceRow 3 1] [mkLayerDrbdVolumeDefinitionRow "PVC" "" "" 0 (Some 1000)] []
    [mkLayerStorageVolumeRow 2 0 "TANK"; mkLayerStorageVolumeRow 4 0 "TANK"] [] [].
Definition pvc_row : ResourceDefinitionRow := mkResourceDefinitionRow "PVC" "pvc" "RG" "" "" 0 "".
Definition cluster : Dump :=
  dump_with [mkNodeStorPoolRow "N1" "TANK" "ZFS"; mkNodeStorPoolRow "N2" "TANK" "ZFS"] [group_row "RG" "zfs" "tank"] [pvc_row]
    [mkResourceRow "N1" "PVC" "" 0 0; mkResourceRow "N2" "PVC" "" 0 0; mkResourceRow "C" "PVC" "" 388 0]
    [mkPropsContainerRow "/RSC_DFNS/PVC" "StorPoolNameDrbdMeta" "meta"; mkPropsContainerRow "/CTRL" "StorDriver/ZfscreateOptions" "-s"].
Definition imported (dump : Dump) : Result * list warning := ConvertWithOptions lists_of dump ∅.

Ltac rows := repeat match goal with H : _ ∈ _ :: _ |- _ => apply elem_of_cons in H as [->|H] | H : _ ∈ [] |- _ => by apply elem_of_nil in H end.
Lemma small_tables_ok : tables_ok cluster.
Proof. split; cbn [Nodes ResourceDefinitions ResourceGroups Resources cluster dump_with]; intros; rows; try done; try (cbn in *; congruence). Qed.
(** The cluster as it is taken over. *)
Example cluster_imported : (meta_Name ∘ mr_Meta <$> rs_Resources (imported cluster).1) = ["pvc.n1"; "pvc.n2"] /\ (mr_DRBDNodeID <$> rs_Resources (imported cluster).1) = [Some 0; Some 1] /\
  ((fun d => (md_Initialized d, md_LayerStack d, md_DRBDPort d)) <$> rs_ResourceDefinitions (imported cluster).1) = [(true, ["DRBD"; "STORAGE"], Some 7000)] /\
  (mp_ProviderKind <$> rs_StoragePools (imported cluster).1) = ["ZFS_THIN"; "ZFS_THIN"] /\ ((fun g => mf_ProviderList (mg_SelectFilter g)) <$> rs_ResourceGroups (imported cluster).1) = [["ZFS"; "ZFS_THIN"]].
Proof. vm_compute. split_and!; reflexivity. Qed.

Lemma nothing_dangles_witness : tables_ok cluster /\ length (rs_Resources (imported cluster).1) = 2%nat /\
  Forall (fun r => exists d, d ∈ rs_ResourceDefinitions (imported cluster).1 /\ md_Meta d = objectMeta (mr_ResourceDefinitionName r)) (rs_Resources (imported cluster).1).
Proof.
  split; [exact small_tables_ok|]. split; [vm_compute; reflexivity|]. destruct (nothing_dangles lists_of cluster ∅ small_tables_ok) as [H _]. eapply list.Forall_impl; [exact H|]. cbn beta. intros r [(d & Hd & Hm & _) _]. by exists d.
Defined.
Lemma stacks_witness : tables_ok cluster /\ length (rs_ResourceDefinitions (imported cluster).1) = 1%nat /\
  Forall (fun d => exists row, row ∈ ResourceDefinitions cluster /\ (md_LayerStack d = [] -> forall r, r ∈ Resources cluster -> live_diskful (rd_ResourceName row) r = false)) (rs_ResourceDefinitions (imported cluster).1).
Proof.
  split; [exact small_tables_ok|]. split; [vm_compute; reflexivity|]. eapply list.Forall_impl; [exact (stacks_are_those_on_disk lists_of cluster ∅ small_tables_ok)|]. cbn beta. intros d (row & Hrow & _ & _ & _ & H). by exists row.
Defined.
Lemma metadata_witness : tables_ok cluster /\ length (rs_Resources (imported cluster).1) = 2%nat /\
  Forall (fun r => flagStrDiskless ∈ mr_Flags r \/ exists d, d ∈ rs_ResourceDefinitions (imported cluster).1 /\ md_Meta d = objectMeta (mr_ResourceDefinitionName r)) (rs_Resources (imported cluster).1).
Proof.
  split; [exact small_tables_ok|]. split; [vm_compute; reflexivity|]. eapply list.Forall_impl; [exact (metadata_stay_on_the_data_device lists_of cluster ∅ small_tables_ok)|]. cbn beta. intros r [H|(d & Hd & Hm & _)]; [by left|right; by exists d].
Defined.
Lemma small_pool_names : (forall def, def ∈ StorPoolDefinitions cluster -> spd_PoolDspName def = "" \/ Str.to_upper (spd_PoolDspName def) = spd_PoolName def) /\
  (forall row, row ∈ NodeStorPools cluster -> Str.to_upper (sp_PoolName row) = sp_PoolName row).
Proof.
  split; [intros def Hdef; by apply elem_of_nil in Hdef|]. intros row Hrow. cbn [NodeStorPools cluster dump_with] in Hrow. rows; vm_compute; reflexivity.
Qed.
Lemma placement_witness : length (rs_ResourceGroups (imported cluster).1) = 1%nat /\ exists ix, (forall p, p ∈ NodeStorPools cluster -> here (migrated_names cluster) p -> pool_object cluster ix p ∈ rs_StoragePools (imported cluster).1).
Proof.
  split; [vm_compute; reflexivity|].
  destruct (groups_place_where_they_did lists_of cluster ∅ (proj1 small_pool_names) (proj2 small_pool_names)) as (ix & Hpools & _). exists ix. exact Hpools.
Defined.

(** A definition whose only replica is a diskless witness on a node that is not taken over counts as holding data: it is marked as initialised, arrives without a replica, and none that is placed later may be the first source; the import means
    only replicas with data to keep the mark. *)
Theorem absent_witness_keeps_the_latch : let dump := dump_with [] [] [pvc_row] [mkResourceRow "C" "PVC" "" 388 0] [] in
  (md_Initialized <$> rs_ResourceDefinitions (imported dump).1) = [true] /\ rs_Resources (imported dump).1 = [] /\ forallb (fun r => has_bit (re_ResourceFlags r) resourceFlagDiskless) (Resources dump) = true.
Proof. vm_compute. split_and!; reflexivity. Qed.

(** Pools named TANK: thick with sparse volumes on one node, or mixed. *)
Definition mixed : Dump :=
  dump_with [mkNodeStorPoolRow "N1" "TANK" "ZFS_THIN"; mkNodeStorPoolRow "N2" "TANK" "ZFS"; mkNodeStorPoolRow "N2" "FAST" "ZFS"] [group_row "RG" "zfs" ""; group_row "THIN" "zfs_thin" ""] [] []
    [mkPropsContainerRow "/STOR_POOLS/N2/FAST" "StorDriver/ZfscreateOptions" "-s"].
Definition lists_after (dump : Dump) : list (list string * list string) := (fun g => (mf_ProviderList (mg_SelectFilter g), mf_StoragePoolList (mg_SelectFilter g))) <$> rs_ResourceGroups (imported dump).1.
(** A group that names no pool loses one without a word when the name is thin on another node: it could place on the thick pool TANK of one node, and is pinned away from the name; and a group that allows
    only thin pools gains the pool that was declared thick. *)
Theorem mixed_names_move_groups : lists_after mixed = [(["ZFS"; "ZFS_THIN"], ["FAST"]); (["ZFS_THIN"], [])] /\
  (forall p, p = mkNodeStorPoolRow "N2" "TANK" "ZFS" -> eligible ["ZFS"] [] (sp_DriverName p) (sp_PoolName p) /\ ~ eligible ["ZFS"; "ZFS_THIN"] ["FAST"] (kind_after mixed p) (sp_PoolName p)) /\
  (forall p, p = mkNodeStorPoolRow "N2" "FAST" "ZFS" -> ~ eligible ["ZFS_THIN"] [] (sp_DriverName p) (sp_PoolName p) /\ eligible ["ZFS_THIN"] [] (kind_after mixed p) (sp_PoolName p)).
Proof.
  split; [vm_compute; reflexivity|]. split; intros p ->; split.
  - split; [right; by left|by left].
  - intros [_ [[=]|(pin & Hpin & Hu)]]. apply list_elem_of_singleton in Hpin as ->. by vm_compute in Hu.
  - intros [[[=]|Hin] _]. by apply list_elem_of_singleton in Hin.
  - split; [right|by left]. assert (kind_after mixed (mkNodeStorPoolRow "N2" "FAST" "ZFS") = "ZFS_THIN") as -> by (vm_compute; reflexivity). by left.
Qed.

(** The snapshot of a definition whose name has capital letters loses the spelling: the annotations that mark it as adopted replace the one with the original name. *)
Theorem adopted_snapshot_loses_its_spelling : let dump := dump_with [] [] [mkResourceDefinitionRow "PVC" "Pvc" "" "" "" 0 ""; mkResourceDefinitionRow "PVC" "Pvc" "" "S1" "S1" 1 ""]
    [mkResourceRow "N1" "PVC" "" 0 0; mkResourceRow "N2" "PVC" "" 0 0; mkResourceRow "N1" "PVC" "S1" 0 5] [] in
  (OriginalName ∘ ms_Meta <$> rs_Snapshots (imported dump).1) = ["pvc.s1"] /\ ((fun s => ms_ResourceDefinitionName s +:+ "." +:+ ms_SnapshotName s) <$> rs_Snapshots (imported dump).1) = ["Pvc.S1"] /\
  (OriginalName ∘ md_Meta <$> rs_ResourceDefinitions (imported dump).1) = ["Pvc"].
Proof. vm_compute. split_and!; reflexivity. Qed.
