(* ===== verification/Rest.v ===== *)
(** * The REST server: requests, answers and the store behind it

    Models what the handlers of [pkg/rest] share: the calls a handler makes (the store, the placer, the
    clock), the errors of the store and the replies they become ([nodes.go], [server.go]), the reads
    that wait for a cache to catch up ([cache_retry.go], [cache_invalidation.go]), what is hidden from
    clients ([security_props_redaction.go], [internal_annotations.go]), the flags a request may carry
    ([flags_validation.go]), the guard of the last complete copy ([pkg/validate/resource_delete.go]) and
    the capacity preview ([query_size_info.go], [oversubscription.go]).

    A handler is a program over [rcall]; other clients act between two of its calls. Its result is the
    reply it writes. The text of an error the store returned is left out of a reply; what a handler
    composes itself is kept. *)

From Stdlib Require Import Ascii.
From S2P Require Import Prelude Prog Api Store GoFloat GoStrings GoTime Placer.

(** ** Errors of the store *)

(** The sentinels an error wraps, as [errors.Is] sees it, and the reason of an error of the API server,
    as [apierrors.IsConflict] and its siblings see it. *)
Inductive sentinel := SNotFound | SAlreadyExists | SSourceReaping | SSourceDeleting | SStackUndecided.
Inductive api_reason := ApiConflict | ApiAlreadyExists | ApiNotFound.

#[global] Instance sentinel_eq_dec : EqDecision sentinel.
Proof. solve_decision. Defined.
#[global] Instance api_reason_eq_dec : EqDecision api_reason.
Proof. solve_decision. Defined.

Record rerr := mkErr { e_wraps : list sentinel; e_api : option api_reason }.
Definition wraps (e : rerr) (x : sentinel) : bool := bool_decide (x ∈ e_wraps e).
Definition isNotFound (e : rerr) : bool := wraps e SNotFound.

Definition not_found : rerr := mkErr [SNotFound] None.
Definition already_exists : rerr := mkErr [SAlreadyExists] None.

(** ** Calls *)

Inductive rcall :=
| RGetRD (name : string)
| RGetRG (name : string)
| RGetNode (name : string)
| RGetPool (node pool : string)
| RGetRes (rd node : string)
| RGetSnapshot (rd snap : string)
| RListRes (rd : string)
| RListVDs (rd : string)
| RListPools
| RListNodes
| RListRGs
| RCreateRes (r : Resource)
| RDeleteRes (rd node : string)
(** A patch runs its closure on the row as it is read, again after every conflict. The answer carries the
    rows the closure ran on, in order: the last one is the one that was written when the patch went
    through. *)
| RPatchRes (rd node : string) (mutate : Resource -> result rerr Resource)
| RPatchRD (name : string) (mutate : ResourceDefinition -> result rerr ResourceDefinition)
(** [readControllerProps] of the controller's configuration object. *)
| RControllerProps
(** [placer.New(store).Place]: how many replicas there are, how many were wanted, the error. *)
| RPlace (rd : string) (filter : AutoSelectFilter)
(** [placer.SourceProviderKind] *)
| RSourceProviderKind (rd : string)
| RNow
(** [select] on the context of the request and a timer: whether the context ended first. *)
| RSleep (d : Z).

Definition ranswer (c : rcall) : Type :=
  match c with
  | RGetRD _ => result rerr ResourceDefinition
  | RGetRG _ => result rerr ResourceGroup
  | RGetNode _ => result rerr Node
  | RGetPool _ _ => result rerr StoragePool
  | RGetRes _ _ => result rerr Resource
  | RGetSnapshot _ _ => result rerr Snapshot
  | RListRes _ => result rerr (list Resource)
  | RListVDs _ => result rerr (list VolumeDefinition)
  | RListPools => result rerr (list StoragePool)
  | RListNodes => result rerr (list Node)
  | RListRGs => result rerr (list ResourceGroup)
  | RCreateRes _ | RDeleteRes _ _ => result rerr unit
  | RPatchRes _ _ _ => result rerr unit * list Resource
  | RPatchRD _ _ => result rerr unit
  | RControllerProps => result rerr (gmap string string)
  | RPlace _ _ => Z * Z * option (CapacityShortfallError + rerr)
  | RSourceProviderKind _ => string
  | RNow => Z
  | RSleep _ => bool
  end.

Notation rprog := (prog ranswer).
Definition rask (c : rcall) : rprog (ranswer c) := Do c Ret.

(** ** Text *)

Module Text.

(** [strings.NewReplacer(...).Replace]: at every position the first of the old strings that matches, in the
    order of the arguments, is replaced, and the scan goes on after it. *)
Fixpoint first_match (pairs : list (string * string)) (s : string) : option (string * string) :=
  match pairs with
  | [] => None
  | (old, new) :: rest => match Str.cut_prefix old s with Some s' => Some (new, s') | None => first_match rest s end
  end.

(** The fuel is the length of the text: every step consumes a byte of it at least, none of the old strings
    being empty. *)
Fixpoint replace_all (fuel : nat) (pairs : list (string * string)) (s : string) : string :=
  match fuel with
  | O => s
  | S fuel =>
      match s with
      | EmptyString => EmptyString
      | String c s' =>
          match first_match pairs s with
          | Some (new, s'') => new +:+ replace_all fuel pairs s''
          | None => String c (replace_all fuel pairs s')
          end
      end
  end.

Definition opaque : string := "<backend>".
Definition impl_details : list (string * string) :=
  [("etcdserver:", opaque +:+ ":"); ("etcdserver", opaque); ("etcd", opaque);
   ("k8s.io/apimachinery", opaque); ("apimachinery", opaque); ("k8s.io", opaque)].

(** [blockstorGroupRefRE]: a run of letters, digits and dashes before the name of the API group. *)
Definition group_ref_char (c : ascii) : bool :=
  Str.is_upper c || Str.is_lower c || Str.is_digit c || Ascii.eqb c "-"%char.
Definition group_suffix : string := ".blockstor.cozystack.io".

(** [ReplaceAllString] of that expression. [run] is the run read so far, in order. *)
Fixpoint scrub_groups (run : string) (s : string) (skip : nat) : string :=
  match s with
  | EmptyString => run
  | String c s' =>
      match skip with
      | S skip' => scrub_groups "" s' skip'
      | O =>
          if group_ref_char c then scrub_groups (run +:+ String c "") s' 0
          else if negb (bool_decide (run = "")) && Str.has_prefix group_suffix s
               then opaque +:+ scrub_groups "" s' (String.length group_suffix - 1)
               else run +:+ String c (scrub_groups "" s' 0)
      end
  end.

Definition scrubImplDetails (msg : string) : string :=
  scrub_groups "" (replace_all (String.length msg) impl_details msg) 0.

(** [%v] of a list of strings. *)
Definition show_list (l : list string) : string := "[" +:+ Str.join " " l +:+ "]".

End Text.

(** ** Replies *)

Definition apiCallRcError : Z := -0x4000000000000000.
Definition apiCallRcInfo : Z := 0x0040000000000000.
Definition apiCallRcRDAutoplaceDone : Z := 0x4231.
Definition apiCallRcRscDeleted : Z := 0x4200.
Definition apiCallRcFailNotEnoughNodes : Z := 996.
Definition apiCallRcFailInUse : Z := 997.
Definition maskInfo : Z := 0x000100000000.
Definition maskWarn : Z := 0x000200000000.
Definition warnRscNotFound : Z := Z.lor maskWarn 2048.

Definition StatusOK : Z := 200.
Definition StatusCreated : Z := 201.
Definition StatusBadRequest : Z := 400.
Definition StatusNotFound : Z := 404.
Definition StatusConflict : Z := 409.
Definition StatusRequestEntityTooLarge : Z := 413.
Definition StatusInternalServerError : Z := 500.
Definition StatusServiceUnavailable : Z := 503.
Definition StatusGatewayTimeout : Z := 504.

Record ResourceWithVolumes := mkRWV { rwv_Resource : Resource; rwv_Volumes : list Volume }.

Record querySizeInfoSpawnResult := mkSpawnRow {
  sr_NodeName : string;
  sr_StorPoolName : string;
  sr_OversubscriptionRatio : float;
  sr_FreeCapacityRatio : float;
  sr_TotalCapacityRatio : float;
}.
Record querySizeInfoSpaceInfo := mkSpaceInfo {
  si_MaxVlmSizeInKib : Z;
  si_CapacityInKib : Z;
  si_AvailableSizeInKib : Z;
  si_NextSpawnResult : list querySizeInfoSpawnResult;
}.
Record querySizeInfoResponse := mkSizeInfo {
  qs_SpaceInfo : querySizeInfoSpaceInfo;
  qs_Reports : list APICallRc;
}.

Inductive body :=
(** [[]ApiCallRc], composed by the handler. *)
| Envelope (rcs : list APICallRc)
(** The same with the text of an error as its message. *)
| ErrorEnvelope (retCode : Z) (e : rerr) (cause correc : string)
| Replicas (l : list ResourceWithVolumes)
| Replica (r : ResourceWithVolumes)
| SizeInfo (i : querySizeInfoResponse)
| AllSizeInfo (m : gmap string querySizeInfoResponse).

(** A handler that panics writes nothing: the server closes the connection. *)
Inductive reply :=
| Reply (status : Z) (b : body)
| Panic.

Definition rc_message (retCode : Z) (msg : string) : APICallRc := mkAPICallRc retCode msg "" "" "" ∅ "".
Definition rc_info (retCode : Z) (msg : string) : reply := Reply StatusOK (Envelope [rc_message retCode msg]).

Definition writeError (status : Z) (msg : string) : reply :=
  Reply status (Envelope [rc_message apiCallRcError (Text.scrubImplDetails msg)]).
(** [writeError(w, status, err.Error())] *)
Definition writeErrorOf (status : Z) (e : rerr) : reply := Reply status (ErrorEnvelope apiCallRcError e "" "").

Definition undecided_cause : string :=
  "the definition's volumes are laid down under its group's layer stack or the default one depending on whether it already holds data, and the controller has not decided that yet".
Definition undecided_correc : string := "retry shortly; the controller writes the layer stack onto the definition".

(** [storeErrorRc] at [storeKindUnknown]: its subcodes are zero. *)
Definition storeErrorRc (e : rerr) : Z * body :=
  if wraps e SSourceReaping || wraps e SSourceDeleting then (StatusConflict, ErrorEnvelope apiCallRcError e "" "")
  else if wraps e SAlreadyExists then (StatusConflict, ErrorEnvelope apiCallRcError e "" "")
  else if wraps e SNotFound then (StatusNotFound, ErrorEnvelope apiCallRcError e "" "")
  else if wraps e SStackUndecided then (StatusServiceUnavailable, ErrorEnvelope apiCallRcError e undecided_cause undecided_correc)
  else match e_api e with
       | Some ApiConflict =>
           (StatusConflict, Envelope [rc_message apiCallRcError "conflict: store object was modified, retry the request"])
       | Some ApiAlreadyExists =>
           (StatusConflict, Envelope [rc_message apiCallRcError "conflict: store object already exists"])
       | Some ApiNotFound => (StatusNotFound, Envelope [rc_message apiCallRcError "not found"])
       | None => (StatusInternalServerError, ErrorEnvelope apiCallRcError e "" "")
       end.
Definition writeStoreError (e : rerr) : reply := let '(status, b) := storeErrorRc e in Reply status b.

(** ** Bodies of requests *)

(** How reading and decoding a body ends: the server's own limit, the shapes of error the decoder of
    [encoding/json] returns, or a value. *)
Inductive decoded (A : Type) :=
| TooLarge (limit : Z)
| Empty
| Truncated
| UnknownField (name : string)
| WrongType (field : string)
| NotJSON
| OtherDecodeError (e : rerr)
| Decoded (a : A).
Arguments TooLarge {A} limit.
Arguments Empty {A}.
Arguments Truncated {A}.
Arguments UnknownField {A} name.
Arguments WrongType {A} field.
Arguments NotJSON {A}.
Arguments OtherDecodeError {A} e.
Arguments Decoded {A} a.

Definition formatBytes (n : Z) : string :=
  if bool_decide (1048576 <= n) && bool_decide (n `mod` 1048576 = 0) then format_int (n `div` 1048576) +:+ " MiB"
  else if bool_decide (1024 <= n) && bool_decide (n `mod` 1024 = 0) then format_int (n `div` 1024) +:+ " KiB"
  else format_int n +:+ " bytes".

Definition dquote : string := String (ascii_of_nat 34) "".
(** [%q] of a name, which has no byte that is escaped. *)
Definition in_quotes (s : string) : string := dquote +:+ s +:+ dquote.

(** [writeDecodeError]; nothing is written for a decoded body. *)
Definition writeDecodeError {A} (d : decoded A) : option reply :=
  match d with
  | TooLarge limit => Some (writeError StatusRequestEntityTooLarge ("request body too large (limit " +:+ formatBytes limit +:+ ")"))
  | Empty => Some (writeError StatusBadRequest "request body is empty: send the JSON payload this endpoint expects")
  | Truncated => Some (writeError StatusBadRequest "request body is truncated: re-send the complete JSON payload")
  | UnknownField name =>
      Some (writeError StatusBadRequest ("unknown field " +:+ in_quotes name
        +:+ " in request body: this endpoint does not accept that key; check the LINSTOR REST API documentation"))
  | WrongType field =>
      Some (writeError StatusBadRequest
        (if bool_decide (field = "") then "wrong JSON shape: request body has the wrong type for this endpoint"
         else "wrong JSON shape: field " +:+ in_quotes field +:+ " has the wrong type"))
  | NotJSON => Some (writeError StatusBadRequest "request body is not valid JSON: send `application/json` content; verify the body parses with `jq .`")
  | OtherDecodeError e => Some (writeErrorOf StatusBadRequest e)
  | Decoded _ => None
  end.

(** ** Reads that wait for a cache *)

Definition millisecond : Z := 1000000.
Definition cacheRetryAttempts : nat := 3.
Definition cacheRetryDelay : Z := 200 * millisecond.
Definition context_ended : rerr := mkErr [] None.

(** [getWithCacheRetry]; [attempts] reads are left. *)
Fixpoint getWithCacheRetry {A} (attempts : nat) (read : rprog (result rerr A)) : rprog (result rerr A) :=
  match attempts with
  | O => failed_with not_found
  | S more =>
      r ← read;
      match r with
      | Ok a => done_with a
      | Err e =>
          if negb (isNotFound e) then failed_with e
          else match more with
               | O => failed_with e
               | S _ =>
                   ended ← rask (RSleep cacheRetryDelay);
                   if ended : bool then failed_with context_ended else getWithCacheRetry more read
               end
      end
  end.

Definition getRGWithCacheRetry (name : string) : rprog (result rerr ResourceGroup) :=
  getWithCacheRetry cacheRetryAttempts (rask (RGetRG name)).
Definition getRDWithCacheRetry (name : string) : rprog (result rerr ResourceDefinition) :=
  getWithCacheRetry cacheRetryAttempts (rask (RGetRD name)).
Definition getResourceWithCacheRetry (rd node : string) : rprog (result rerr Resource) :=
  getWithCacheRetry cacheRetryAttempts (rask (RGetRes rd node)).

Definition cacheConvergeBudget : Z := 5000 * millisecond.
Definition cacheConvergePollInterval : Z := 50 * millisecond.

Definition resourceDeletionVisible (rd node : string) : rprog bool :=
  r ← rask (RGetRes rd node);
  Ret (match r with Ok _ => false | Err _ => true end).

(** The polls end at the deadline: each of them sleeps for the interval on the clock the deadline is read
    from, so 102 of them are past it. *)
Fixpoint poll_deletion (fuel : nat) (deadline : Z) (rd node : string) : rprog unit :=
  match fuel with
  | O => Ret tt
  | S fuel =>
      gone ← resourceDeletionVisible rd node;
      if gone : bool then Ret tt
      else
        now ← rask RNow;
        if bool_decide (deadline < now) then Ret tt
        else
          ended ← rask (RSleep cacheConvergePollInterval);
          if ended : bool then Ret tt else poll_deletion fuel deadline rd node
  end.
Definition waitForResourceDeletionVisible (rd node : string) : rprog unit :=
  now ← rask RNow;
  poll_deletion 102 (now + cacheConvergeBudget) rd node.

(** ** What clients do not see *)

Module Hidden.

Definition redactedPropValue : string := "<redacted>".
Definition sensitivePropSubstrings : list string := ["passphrase"; "password"; "secret"; "cram-hmac-alg"; "shared-secret"; "encrypt"].

Definition isSensitivePropKey (key : string) : bool :=
  negb (bool_decide (key = "")) && existsb (fun token => contains token (Str.to_lower key)) sensitivePropSubstrings.

Definition redactSensitiveProps (props : gmap string string) : gmap string string :=
  map_imap (fun k v => Some (if isSensitivePropKey k then redactedPropValue else v)) props.

Definition internalAnnotationPrefix : string := "blockstor.io/".
Definition internalAnnotationSuffix : string := ".blockstor.cozystack.io/".

(** [strings.Index(key, suffix) > 0]: the first occurrence is not at the start. *)
Definition isInternalAnnotationKey (key : string) : bool :=
  if bool_decide (key = "") then false
  else Str.has_prefix internalAnnotationPrefix key
       || (contains internalAnnotationSuffix key && negb (Str.has_prefix internalAnnotationSuffix key)).

Definition stripInternalAnnotations (annotations : option (gmap string string)) : option (gmap string string) :=
  (fun m => filter (fun kv => isInternalAnnotationKey kv.1 = false) m) <$> annotations.

End Hidden.

(** ** Flags of a request *)

Definition rscFlagDrbdDiskless : string := "DRBD_DISKLESS".
Definition allowedResourceFlags : list string :=
  ["CLEAN"; "DELETE"; "DISKLESS"; "DISK_ADD_REQUESTED"; "DISK_ADDING"; "DISK_REMOVE_REQUESTED"; "DISK_REMOVING";
   "DRBD_DISKLESS"; "TIE_BREAKER"; "NVME_INITIATOR"; "INACTIVE"; "REACTIVATE"; "INACTIVE_PERMANENTLY"; "BACKUP_RESTORE";
   "EVICTED"; "INACTIVE_BEFORE_EVICTION"; "RESTORE_FROM_SNAPSHOT"; "EVACUATE"; "DRBD_DELETE"; "INACTIVATING";
   "EBS_INITIATOR"; "AUTO_DISKFUL"].

(** [validateResourceFlags]: the first flag that is not allowed. *)
Definition validateResourceFlags (flags : list string) : option string :=
  find (fun f => negb (Contains allowedResourceFlags f)) flags.

Definition sortedFlagList (allowed : list string) : string := "[" +:+ Str.join ", " (sort_strings allowed) +:+ "]".

Fixpoint drop_spellings (flags : list string) (seenDiskless : bool) : list string :=
  match flags with
  | [] => []
  | flag :: rest =>
      if negb (bool_decide (flag = rscFlagDrbdDiskless) || bool_decide (flag = ResourceFlagDiskless))
      then flag :: drop_spellings rest seenDiskless
      else if seenDiskless then drop_spellings rest seenDiskless
      else ResourceFlagDiskless :: drop_spellings rest true
  end.

(** The flags of a replica after [normalizeDisklessFlag]. *)
Definition normalizeDisklessFlag (flags : list string) : list string :=
  if negb (Contains flags rscFlagDrbdDiskless) then flags else drop_spellings flags false.

(** ** The capacity preview *)

Module Size.

Definition defaultOversubscriptionRatio : float := of_int 20.

Definition isThinProvider (kind : string) : bool :=
  bool_decide (kind = StoragePoolKindLVMThin) || bool_decide (kind = StoragePoolKindZFSThin)
  || bool_decide (kind = StoragePoolKindFileThin).

Definition parseRatio (raw : string) : option float :=
  if bool_decide (raw = "") then None
  else match Parse.ParseFloat raw with
       | None => None
       | Some ratio => if fle ratio f0 || is_nan ratio || is_inf ratio then None else Some ratio
       end.

Definition lookupRatio (poolProps ctrlProps : gmap string string) (key : string) : option float :=
  match parseRatio (getp poolProps key) with
  | Some v => Some v
  | None => parseRatio (getp ctrlProps key)
  end.

Definition effectiveOversubRatios (pool : StoragePool) (ctrlProps : gmap string string) : float * float :=
  if negb (isThinProvider (sp_ProviderKind pool)) then (f1, f1)
  else
    let overall := default defaultOversubscriptionRatio (lookupRatio (sp_Props pool) ctrlProps "MaxOversubscriptionRatio") in
    (default overall (lookupRatio (sp_Props pool) ctrlProps "MaxFreeCapacityOversubscriptionRatio"),
     default overall (lookupRatio (sp_Props pool) ctrlProps "MaxTotalCapacityOversubscriptionRatio")).

Definition scaleClamp (size : Z) (ratio : float) : Z :=
  if bool_decide (size <= 0) || fle ratio f0 then 0
  else let scaled := fmul (of_int size) ratio in
       if fle (of_int MaxInt64) scaled then MaxInt64 else to_int scaled.

Definition poolMaxVolumeKib (pool : StoragePool) (ctrlProps : gmap string string) : Z :=
  let '(freeRatio, totalRatio) := effectiveOversubRatios pool ctrlProps in
  let freeCap := scaleClamp (sp_FreeCapacity pool) freeRatio in
  let totalCap := scaleClamp (sp_TotalCapacity pool) totalRatio in
  if bool_decide (sp_TotalCapacity pool = 0) then freeCap
  else if bool_decide (freeCap < totalCap) then freeCap else totalCap.

(** [disabledNodes] *)
Definition disabledNodes (nodes : list Node) : gset string :=
  list_to_set (node_Name <$> filter (fun n => NodeFlagEvicted ∈ node_Flags n \/ NodeFlagLost ∈ node_Flags n) nodes).

(** The pools [collectCandidates] keeps. *)
Definition eligible (disabled : gset string) (f : AutoSelectFilter) (p : StoragePool) : bool :=
  negb (bool_decide (sp_ProviderKind p = StoragePoolKindDiskless))
  && negb (bool_decide (sp_NodeName p ∈ disabled))
  && (bool_decide (StoragePool_ f = "") || bool_decide (sp_StoragePoolName p = StoragePool_ f)).

(** [dedupShared]: of the pools on one shared space, the first. *)
Fixpoint dedup_from (seen : gset string) (pools : list StoragePool) : list StoragePool :=
  match pools with
  | [] => []
  | p :: rest =>
      if bool_decide (sp_SharedSpaceID p = "") then p :: dedup_from seen rest
      else if bool_decide (sp_SharedSpaceID p ∈ seen) then dedup_from seen rest
      else p :: dedup_from ({[sp_SharedSpaceID p]} ∪ seen) rest
  end.
Definition dedupShared (pools : list StoragePool) : list StoragePool := dedup_from ∅ pools.

(** [collectCandidates]: the pools and the sums of their total and free capacities, which are int64 and
    count a shared space once. *)
Definition sum_capacity (f : StoragePool -> Z) (pools : list StoragePool) : Z := foldl (fun acc p => wrap64 (acc + f p)) 0 pools.
Definition collectCandidates (pools : list StoragePool) (disabled : gset string) (f : AutoSelectFilter)
    : list StoragePool * Z * Z :=
  let candidates := filter (fun p => eligible disabled f p = true) pools in
  (candidates, sum_capacity sp_TotalCapacity (dedupShared candidates), sum_capacity sp_FreeCapacity (dedupShared candidates)).

Definition replicaCount (f : AutoSelectFilter) : Z := if bool_decide (PlaceCount f <= 0) then 1 else PlaceCount f.

(** The insertion sort, descending: an element moves left past every smaller one. *)
Fixpoint insert_desc {A} (key : A -> Z) (x : A) (sorted : list A) : list A :=
  match sorted with
  | [] => [x]
  | y :: rest => if bool_decide (key y < key x) then x :: y :: rest else y :: insert_desc key x rest
  end.
Definition sort_desc {A} (key : A -> Z) (l : list A) : list A := foldl (fun out x => insert_desc key x out) [] l.

Definition worstMaxVolOfTopN (pools : list StoragePool) (n : Z) (ctrlProps : gmap string string) : Z :=
  if bool_decide (n <= 0) || bool_decide (Z.of_nat (length pools) < n) then 0
  else default 0 (sort_desc id ((fun p => poolMaxVolumeKib p ctrlProps) <$> pools) !! Z.to_nat (n - 1)).

Definition spawn_row (ctrlProps : gmap string string) (pool : StoragePool) : querySizeInfoSpawnResult :=
  if isThinProvider (sp_ProviderKind pool) then
    let '(freeRatio, totalRatio) := effectiveOversubRatios pool ctrlProps in
    mkSpawnRow (sp_NodeName pool) (sp_StoragePoolName pool) (if flt totalRatio freeRatio then totalRatio else freeRatio) freeRatio totalRatio
  else mkSpawnRow (sp_NodeName pool) (sp_StoragePoolName pool) f0 f0 f0.

Definition nextSpawnResult (pools : list StoragePool) (n : Z) (ctrlProps : gmap string string) : list querySizeInfoSpawnResult :=
  if bool_decide (n <= 0) || bool_decide (Z.of_nat (length pools) < n) then []
  else spawn_row ctrlProps <$> take (Z.to_nat n) (sort_desc (fun p => poolMaxVolumeKib p ctrlProps) pools).

Definition unsatisfiableReason (f : AutoSelectFilter) (pools : list StoragePool) (replicas : Z) : string :=
  if bool_decide (replicas <= 0) then "place-count is 0; nothing to spawn"
  else match pools with
       | [] => if negb (bool_decide (StoragePool_ f = "")) then "no eligible storage pools match filter " +:+ in_quotes (StoragePool_ f)
               else "no eligible storage pools in cluster (all DISKLESS / EVICTED / LOST)"
       | _ => if bool_decide (Z.of_nat (length pools) < replicas)
              then "only " +:+ format_int (Z.of_nat (length pools)) +:+ " eligible pool(s); place-count=" +:+ format_int replicas +:+ " cannot be satisfied"
              else ""
       end.

Definition computeSizeInfo (f : AutoSelectFilter) : rprog (result rerr querySizeInfoResponse) :=
  pools ←! rask RListPools;
  nodes ←! rask RListNodes;
  let '(candidates, totalCapacity, availableSum) := collectCandidates pools (disabledNodes nodes) f in
  let replicas := replicaCount f in
  let deduped := dedupShared candidates in
  props ← rask RControllerProps;
  let ctrlProps := match props with Ok m => m | Err _ => ∅ end in
  let reason := unsatisfiableReason f deduped replicas in
  done_with (mkSizeInfo
    (mkSpaceInfo (worstMaxVolOfTopN deduped replicas ctrlProps) totalCapacity availableSum (nextSpawnResult deduped replicas ctrlProps))
    (if bool_decide (reason = "") then [] else [rc_message maskInfo reason])).

Definition handleQuerySizeInfo (rgName : string) : rprog reply :=
  rg ← getRGWithCacheRetry rgName;
  match rg with
  | Err e => Ret (writeStoreError e)
  | Ok rg =>
      resp ← computeSizeInfo (rg_SelectFilter rg);
      Ret (match resp with
           | Err e => writeErrorOf StatusInternalServerError e
           | Ok i => Reply StatusOK (SizeInfo i)
           end)
  end.

Fixpoint all_sizes (rgs : list ResourceGroup) (result : gmap string querySizeInfoResponse) : rprog reply :=
  match rgs with
  | [] => Ret (Reply StatusOK (AllSizeInfo result))
  | rg :: rest =>
      info ← computeSizeInfo (rg_SelectFilter rg);
      match info with
      | Err e => Ret (writeErrorOf StatusInternalServerError e)
      | Ok i => all_sizes rest (<[rg_Name rg := i]> result)
      end
  end.
Definition handleQueryAllSizeInfo : rprog reply :=
  rgs ← rask RListRGs;
  match rgs with
  | Err e => Ret (writeErrorOf StatusInternalServerError e)
  | Ok l => all_sizes l ∅
  end.

End Size.
