(* ===== verification/RestResources.v ===== *)
(** * The REST server: replicas

    Models [pkg/rest/autoplace.go]: the endpoints that list, place, create, make available and delete the
    replicas of a definition, with the guard of [resource_delete_last_uptodate_u130.go]. A gate answers
    [Ok] when the handler goes on and [Err] with the reply it wrote when it does not. *)

From Stdlib Require Import Ascii.
From S2P Require Import Prelude Prog Api Store GoFloat GoStrings GoTime Placer Tiebreaker Validate Rest.

Notation gate A := (rprog (result reply A)).

Definition or_reply {A} (write : rerr -> reply) (m : rprog (result rerr A)) : gate A :=
  r ← m; match r with Ok a => done_with a | Err e => failed_with (write e) end.
Notation or_store := (or_reply writeStoreError).
Notation or_500 := (or_reply (writeErrorOf StatusInternalServerError)).

(** A handler ends with the reply of the gate that stopped it or with its own. *)
Definition respond (m : gate reply) : rprog reply := r ← m; Ret (match r with Ok a => a | Err a => a end).

Definition body_or {A} (d : decoded A) : gate A :=
  match d with Decoded a => done_with a | _ => failed_with (default Panic (writeDecodeError d)) end.

(** [queryFlag] of the raw text of a query parameter. *)
Definition queryFlag (raw : string) : bool := bool_decide (ParseBool raw = Some true).

(** Field updates. *)
Definition with_rd_LayerStack (d : ResourceDefinition) (l : list string) : ResourceDefinition := with_rd_carried d (rd_Annotations d) l.
Definition with_rd_annotation (k v : string) (d : ResourceDefinition) : ResourceDefinition :=
  with_rd_carried d (Some (<[k := v]> (default ∅ (rd_Annotations d)))) (rd_LayerStack d).
Definition with_rd_Props (d : ResourceDefinition) (p : gmap string string) : ResourceDefinition :=
  mkResourceDefinition (rd_Name d) (rd_ExternalName d) (rd_ResourceGroupName d) p (rd_Annotations d) (rd_Flags d)
    (rd_LayerData d) (rd_LayerStack d) (rd_UUID d) (rd_VolumeDefinitions d) (rd_EffectiveProps d).
Definition with_res_Name (r : Resource) (name node : string) : Resource :=
  mkResource name node (res_Props r) (res_Flags r) (res_State r) (res_UUID r) (res_LayerObject r) (res_Annotations r)
    (res_ToggleDiskCancel r) (res_Volumes r) (res_EffectiveProps r) (res_CreateTimestamp r).

(** The layers a request names, unless the definition has its own. *)
Definition set_layers (layerList : list string) (live : ResourceDefinition) : ResourceDefinition :=
  match rd_LayerStack live with [] => with_rd_LayerStack live layerList | _ => live end.

(** ** Reads *)

Module Reads.

Definition wrapResourceWithVolumes (r : Resource) : ResourceWithVolumes := mkRWV r (res_Volumes r).

(** A replica as clients see it. *)
Definition visible (r : Resource) : Resource :=
  with_res_Annotations (with_res_spec r (res_Flags r) (Hidden.redactSensitiveProps (res_Props r)))
    (Hidden.stripInternalAnnotations (res_Annotations r)).

Definition handleResourceList (rdName : string) : rprog reply := respond (
  _ ←! or_store (getRDWithCacheRetry rdName);
  resList ←! or_500 (rask (RListRes rdName));
  done_with (Reply StatusOK (Replicas ((fun r => wrapResourceWithVolumes (visible r)) <$> resList)))).

Definition rd_missing (rdName : string) : reply :=
  writeError StatusNotFound ("resource definition '" +:+ rdName +:+ "' not found: check the name with `linstor rd l` or create it first").
Definition or_rd_missing (rdName : string) (e : rerr) : reply := if isNotFound e then rd_missing rdName else writeStoreError e.

Definition handleResourceGet (rdName node : string) : rprog reply := respond (
  _ ←! or_reply (or_rd_missing rdName) (getRDWithCacheRetry rdName);
  res ←! or_store (getResourceWithCacheRetry rdName node);
  done_with (Reply StatusOK (Replica (wrapResourceWithVolumes (visible res))))).

End Reads.

(** ** The reply to a placement that falls short *)

Module Shortfall.

Definition newline : string := String (ascii_of_nat 10) "".
Definition text_line (s : string) : string := s +:+ newline.
Definition optional (present : bool) (s : string) : string := if present then text_line ("   " +:+ s) else "".
Definition given (s : string) : bool := negb (bool_decide (s = "")).
Definition given_list (l : list string) : bool := match l with [] => false | _ => true end.
Definition show_map (m : gmap string Z) : string :=
  "map[" +:+ Str.join " " ((fun k => k +:+ ":" +:+ format_int (default 0 (m !! k))) <$> sorted_keys m) +:+ "]".

Definition autoplaceFilterPoolNames (f : AutoSelectFilter) : list string :=
  match StoragePoolList f with
  | [] => if given (StoragePool_ f) then [StoragePool_ f] else []
  | l => l
  end.

Definition writeAutoplacePools (f : AutoSelectFilter) : string :=
  optional (given_list (NodeNameList f)) ("Node name: " +:+ Text.show_list (NodeNameList f))
  +:+ optional (given (StoragePool_ f)) ("Storage pool name: " +:+ StoragePool_ f)
  +:+ optional (given_list (StoragePoolList f)) ("Storage pool names: " +:+ Text.show_list (StoragePoolList f))
  +:+ optional (given_list (StoragePoolDisklessList f)) ("Storage pool diskless name: " +:+ Text.show_list (StoragePoolDisklessList f))
  +:+ optional (given_list (NotPlaceWithRsc f)) ("Do not place with resource: " +:+ Text.show_list (NotPlaceWithRsc f))
  +:+ optional (given (NotPlaceWithRscRegex f)) ("Do not place with resource (regex): " +:+ NotPlaceWithRscRegex f)
  +:+ optional (given_list (LayerStack f)) ("Layer stack: " +:+ Text.show_list (LayerStack f))
  +:+ optional (given_list (ProviderList f)) ("Allowed Provider: " +:+ Text.show_list (ProviderList f)).

Definition writeAutoplaceTopology (f : AutoSelectFilter) : string :=
  optional (given_list (ReplicasOnSame f)) ("Replicas on nodes with same properties: " +:+ Text.show_list (ReplicasOnSame f))
  +:+ optional (given_list (ReplicasOnDifferent f)) ("Replicas on nodes with different properties: " +:+ Text.show_list (ReplicasOnDifferent f))
  +:+ optional (negb (bool_decide (XReplicasOnDifferentMap f = ∅)))
        ("X-replicas on different properties (per-key cap): " +:+ show_map (XReplicasOnDifferentMap f)).

Definition writeAutoplaceConfig (f : AutoSelectFilter) : string :=
  optional (bool_decide (0 < PlaceCount f)) ("Replica count: " +:+ format_int (PlaceCount f))
  +:+ optional (bool_decide (0 < AdditionalPlaceCount f)) ("Additional replica count: " +:+ format_int (AdditionalPlaceCount f))
  +:+ writeAutoplacePools f +:+ writeAutoplaceTopology f
  +:+ optional (DisklessOnRemaining f) "Diskless on remaining: true".

Definition details (f : AutoSelectFilter) (capErr : option CapacityShortfallError) : string :=
  text_line "Not enough nodes fulfilling the following auto-place criteria:"
  +:+ (if given_list (autoplaceFilterPoolNames f)
       then text_line (" * has a deployed storage pool named " +:+ Text.show_list (autoplaceFilterPoolNames f)) else "")
  +:+ match capErr with
      | Some e => if bool_decide (0 < cs_RequiredKib e)
                  then text_line (" * the storage pools have to have at least '" +:+ format_int (cs_RequiredKib e) +:+ "' free space") else ""
      | None => ""
      end
  +:+ text_line " * the current access context has enough privileges to use the node and the storage pool"
  +:+ text_line " * the node is online"
  +:+ newline
  +:+ text_line "Auto-place configuration details:"
  +:+ writeAutoplaceConfig f
  +:+ match capErr with
      | Some e => newline +:+ text_line ("Capacity shortfall: required " +:+ format_int (cs_RequiredKib e) +:+ " KiB, max free "
                                    +:+ format_int (cs_MaxFreeKib e) +:+ " KiB")
      | None => ""
      end.

Definition writeAutoplaceShortfall (f : AutoSelectFilter) (srcKind : string) (capErr : option CapacityShortfallError) : reply :=
  let cause :=
    if given srcKind then "snapshot is on " +:+ srcKind +:+ " but no " +:+ srcKind +:+ " pool found on any candidate node"
    else "Not enough nodes fulfilling the auto-place criteria for the requested placement" in
  let correction :=
    if given srcKind then "Add a " +:+ srcKind +:+ " storage pool on a candidate node, or restore the snapshot to a node that already has one."
    else "Add more nodes or storage pools, or relax the placement constraints (reduce place_count, drop node/storage-pool/provider filters, or free capacity on existing pools)." in
  Reply StatusConflict (Envelope [mkAPICallRc (Z.lor apiCallRcError apiCallRcFailNotEnoughNodes) "Not enough available nodes"
    cause (details f capErr) correction ∅ ""]).

End Shortfall.
Import Shortfall.

(** ** Placing *)

Module Autoplace.

(** A boolean of the body as it was sent. *)
Inductive raw_bool := Absent | Null | Given (b : bool).
Definition typed (x : raw_bool) : bool := match x with Given b => b | _ => false end.

Record AutoPlaceRequest := mkAutoPlaceRequest {
  ap_DisklessOnRemaining : raw_bool;
  ap_SelectFilter : AutoSelectFilter;
  ap_LayerList : list string;
}.

Definition disklessOnRemainingExplicitlyFalse (req : AutoPlaceRequest) : bool :=
  match ap_DisklessOnRemaining req with Given b => negb b | _ => false end.

Definition AutoAddQuorumTiebreaker : string := "DrbdOptions/AutoAddQuorumTiebreaker".
Definition opt_out (live : ResourceDefinition) : result rerr ResourceDefinition :=
  if bool_decide (getp (rd_Props live) AutoAddQuorumTiebreaker = "false") then Ok live
  else Ok (with_rd_Props live (<[AutoAddQuorumTiebreaker := "false"]> (rd_Props live))).
Definition stampAutoTiebreakerOptOut (rdName : string) : rprog (result rerr unit) := rask (RPatchRD rdName opt_out).

Definition applyBug156AutoTiebreakerOptOut (req : AutoPlaceRequest) (rdName : string) (rd : ResourceDefinition) : gate ResourceDefinition :=
  if negb (disklessOnRemainingExplicitlyFalse req) then done_with rd
  else _ ←! or_store (stampAutoTiebreakerOptOut rdName); or_store (rask (RGetRD rdName)).

Definition persistAutoplaceLayerList (rd : ResourceDefinition) (layerList : list string) : gate ResourceDefinition :=
  if negb (given_list layerList) || given_list (rd_LayerStack rd) then done_with rd
  else
    _ ←! or_store (rask (RPatchRD (rd_Name rd) (fun live => Ok (set_layers layerList live))));
    done_with (with_rd_LayerStack rd layerList).

(** The fields a request overrides, one by one. *)
Definition or_list (req out : list string) : list string := match req with [] => out | _ => req end.
Definition mergeAutoplaceFilterFromRequest (out req : AutoSelectFilter) : AutoSelectFilter :=
  mkAutoSelectFilter (PlaceCount out) (AdditionalPlaceCount out)
    (or_list (NodeNameList req) (NodeNameList out))
    (if given (StoragePool_ req) then StoragePool_ req else StoragePool_ out)
    (or_list (StoragePoolList req) (StoragePoolList out))
    (or_list (StoragePoolDisklessList req) (StoragePoolDisklessList out))
    (NotPlaceWithRsc out) (NotPlaceWithRscRegex out)
    (or_list (ReplicasOnSame req) (ReplicasOnSame out))
    (or_list (ReplicasOnDifferent req) (ReplicasOnDifferent out))
    (if bool_decide (XReplicasOnDifferentMap req = ∅) then XReplicasOnDifferentMap out else XReplicasOnDifferentMap req)
    (LayerStack out)
    (or_list (ProviderList req) (ProviderList out))
    (DisklessOnRemaining req || DisklessOnRemaining out)
    (OverrideVlmID out).

Definition with_counts (f : AutoSelectFilter) (place additional : Z) : AutoSelectFilter :=
  mkAutoSelectFilter place additional (NodeNameList f) (StoragePool_ f) (StoragePoolList f) (StoragePoolDisklessList f)
    (NotPlaceWithRsc f) (NotPlaceWithRscRegex f) (ReplicasOnSame f) (ReplicasOnDifferent f) (XReplicasOnDifferentMap f)
    (LayerStack f) (ProviderList f) (DisklessOnRemaining f) (OverrideVlmID f).
Definition with_pool_pin (f : AutoSelectFilter) (pool : string) : AutoSelectFilter :=
  mkAutoSelectFilter (PlaceCount f) (AdditionalPlaceCount f) (NodeNameList f) pool [] (StoragePoolDisklessList f)
    (NotPlaceWithRsc f) (NotPlaceWithRscRegex f) (ReplicasOnSame f) (ReplicasOnDifferent f) (XReplicasOnDifferentMap f)
    (LayerStack f) (ProviderList f) (DisklessOnRemaining f) (OverrideVlmID f).
Definition with_NodeNameList (f : AutoSelectFilter) (l : list string) : AutoSelectFilter :=
  mkAutoSelectFilter (PlaceCount f) (AdditionalPlaceCount f) l (StoragePool_ f) (StoragePoolList f) (StoragePoolDisklessList f)
    (NotPlaceWithRsc f) (NotPlaceWithRscRegex f) (ReplicasOnSame f) (ReplicasOnDifferent f) (XReplicasOnDifferentMap f)
    (LayerStack f) (ProviderList f) (DisklessOnRemaining f) (OverrideVlmID f).

(** The merge proper, given the filter of the group. *)
Definition merged_filter (group : AutoSelectFilter) (rd : ResourceDefinition) (req : AutoSelectFilter) : AutoSelectFilter :=
  let rdPool := getp (rd_Props rd) storPoolNameProp in
  let out1 := if given rdPool then with_pool_pin group rdPool else group in
  let out2 := with_counts out1 (if bool_decide (0 < PlaceCount req) then PlaceCount req else PlaceCount out1)
                (if bool_decide (0 < AdditionalPlaceCount req) then AdditionalPlaceCount req else AdditionalPlaceCount out1) in
  let out3 := mergeAutoplaceFilterFromRequest out2 req in
  if bool_decide (PlaceCount out3 = 0) then with_counts out3 1 (AdditionalPlaceCount out3) else out3.

Definition mergeAutoplaceFilter (rd : ResourceDefinition) (req : AutoSelectFilter) : rprog AutoSelectFilter :=
  if given (rd_ResourceGroupName rd) then
    rg ← getRGWithCacheRetry (rd_ResourceGroupName rd);
    Ret (merged_filter (match rg with Ok g => rg_SelectFilter g | Err _ => zero_filter end) rd req)
  else Ret (merged_filter zero_filter rd req).

Definition node_missing (name : string) : reply :=
  writeError StatusNotFound ("node '" +:+ name +:+ "' not found: create the node first with `linstor n c <name>` or pass a valid existing node name").
Definition or_node_missing (name : string) (e : rerr) : reply := if isNotFound e then node_missing name else writeStoreError e.

Fixpoint refuseAutoplaceOnUnknownNodes (names : list string) : gate unit :=
  match names with
  | [] => done_with tt
  | name :: rest => _ ←! or_reply (or_node_missing name) (rask (RGetNode name)); refuseAutoplaceOnUnknownNodes rest
  end.

(** The replicas [resolveAdditionalPlaceCount] counts. *)
Definition diskful_count (existing : list Resource) (disabled : gset string) : Z :=
  Z.of_nat (length (filter (fun r => res_NodeName r ∉ disabled /\ ResourceFlagDiskless ∉ res_Flags r) existing)).

Definition resolveAdditionalPlaceCount (rdName : string) (f : AutoSelectFilter) : rprog (result rerr AutoSelectFilter) :=
  if bool_decide (AdditionalPlaceCount f <= 0) then done_with f
  else
    existing ←! rask (RListRes rdName);
    nodes ←! rask RListNodes;
    done_with (with_counts f (wrap32 (wrap32 (diskful_count existing (Size.disabledNodes nodes)) + AdditionalPlaceCount f)) 0).

Definition resolveAutoplaceLayerStack (rd : ResourceDefinition) : rprog (list string) :=
  if given_list (rd_LayerStack rd) then Ret (rd_LayerStack rd)
  else if given (rd_ResourceGroupName rd) then
    rg ← getRGWithCacheRetry (rd_ResourceGroupName rd);
    Ret (match rg with
         | Ok g => match LayerStack (rg_SelectFilter g) with [] => DefaultLayerStack | l => l end
         | Err _ => DefaultLayerStack
         end)
  else Ret DefaultLayerStack.

Definition refuseAutoplaceMultiPlaceWithoutReplication (rd : ResourceDefinition) (f : AutoSelectFilter) : gate unit :=
  if bool_decide (PlaceCount f <= 1) then done_with tt
  else
    stack ← resolveAutoplaceLayerStack rd;
    if ContainsReplicationLayer stack then done_with tt
    else failed_with (writeError StatusBadRequest
      ("placeCount=" +:+ format_int (PlaceCount f)
       +:+ " with no replication layer (DRBD) would create independent local volumes whose data diverges on the first write. Either add DRBD to the layer list, drop the place_count to 1 (single local volume), or wait for shared-LUN multi-host support (currently unsupported).")).

(** The source a definition was restored from: the definition and the snapshot of the stamp. *)
Definition restore_source (rd : ResourceDefinition) : option (string * string) :=
  let stamp := getp (rd_Props rd) restoreFromSnapshotProp in
  if bool_decide (stamp = "") then None
  else match Str.cut ":"%char stamp with
       | None => None
       | Some (srcRD, snapName) => if bool_decide (srcRD = "") then None else Some (srcRD, snapName)
       end.

Definition constrainAutoplaceToSnapshotNodes (rd : ResourceDefinition) (f : AutoSelectFilter) : rprog AutoSelectFilter :=
  if given_list (NodeNameList f) then Ret f
  else match restore_source rd with
       | None => Ret f
       | Some (srcRD, snapName) =>
           if bool_decide (snapName = "") then Ret f
           else
             snap ← rask (RGetSnapshot srcRD snapName);
             Ret (match snap with
                  | Ok s => if given_list (snap_Nodes s) then with_NodeNameList f (snap_Nodes s) else f
                  | Err _ => f
                  end)
       end.

Definition resolveCloneSourceProviderKind (rd : ResourceDefinition) : rprog string :=
  match restore_source rd with
  | None => Ret ""
  | Some (srcRD, _) => rask (RSourceProviderKind srcRD)
  end.

Definition largest (vds : list VolumeDefinition) : Z := foldl (fun m vd => if bool_decide (m < vd_SizeKib vd) then vd_SizeKib vd else m) 0 vds.

Definition rejectAutoplaceIfExceedsCapacityGate (rdName : string) (f : AutoSelectFilter) (srcKind : string) : gate unit :=
  vds ←! or_store (rask (RListVDs rdName));
  match vds with
  | [] => done_with tt
  | _ =>
      let requiredKib := largest vds in
      if bool_decide (requiredKib <= 0) then done_with tt
      else
        info ←! or_500 (Size.computeSizeInfo f);
        let capKib := si_MaxVlmSizeInKib (qs_SpaceInfo info) in
        if bool_decide (capKib <= 0) then done_with tt
        else if bool_decide (requiredKib <= capKib) then done_with tt
        else failed_with (writeAutoplaceShortfall f srcKind (Some (mkCapacity requiredKib capKib)))
  end.

Definition runPlaceAndReport (rdName : string) (f : AutoSelectFilter) (srcKind : string) : gate unit :=
  r ← rask (RPlace rdName f);
  match r with
  | (_, _, Some (inl capErr)) => failed_with (writeAutoplaceShortfall f srcKind (Some capErr))
  | (_, _, Some (inr e)) => failed_with (writeErrorOf StatusInternalServerError e)
  | (placed, want, None) => if bool_decide (placed < want) then failed_with (writeAutoplaceShortfall f srcKind None) else done_with tt
  end.

Definition handleAutoplace (rdName : string) (b : decoded AutoPlaceRequest) : rprog reply := respond (
  req ←! body_or b;
  rd ←! or_store (getRDWithCacheRetry rdName);
  rd ←! applyBug156AutoTiebreakerOptOut req rdName rd;
  rd ←! persistAutoplaceLayerList rd (ap_LayerList req);
  filter ← mergeAutoplaceFilter rd (ap_SelectFilter req);
  _ ←! refuseAutoplaceOnUnknownNodes (NodeNameList filter);
  filter ←! or_500 (resolveAdditionalPlaceCount rdName filter);
  _ ←! refuseAutoplaceMultiPlaceWithoutReplication rd filter;
  filter ← constrainAutoplaceToSnapshotNodes rd filter;
  srcKind ← resolveCloneSourceProviderKind rd;
  let filter := if given srcKind then with_ProviderList filter [srcKind] else filter in
  _ ←! rejectAutoplaceIfExceedsCapacityGate rdName filter srcKind;
  _ ←! runPlaceAndReport rdName filter srcKind;
  done_with (rc_info (Z.lor apiCallRcInfo apiCallRcRDAutoplaceDone) ("Resource definition '" +:+ rdName +:+ "' auto-placed"))).

End Autoplace.

(** ** Telling the other replicas *)

Definition PeerChangedAnnotation : string := "blockstor.io/peer-changed".
Definition with_res_annotation (k v : string) (r : Resource) : Resource :=
  with_res_Annotations r (Some (<[k := v]> (default ∅ (res_Annotations r)))).

Fixpoint bump_each (stamp removedNode : string) (siblings : list Resource) : rprog unit :=
  match siblings with
  | [] => Ret tt
  | sib :: rest =>
      if bool_decide (res_NodeName sib = removedNode) then bump_each stamp removedNode rest
      else
        _ ← rask (RPatchRes (res_Name sib) (res_NodeName sib) (fun live => Ok (with_res_annotation PeerChangedAnnotation stamp live)));
        bump_each stamp removedNode rest
  end.

Definition bumpPeerChangedOnSiblings (rdName removedNode : string) : rprog unit :=
  siblings ← rask (RListRes rdName);
  match siblings with
  | Err _ => Ret tt
  | Ok l => now ← rask RNow; bump_each (format_rfc3339nano now) removedNode l
  end.

(** ** Creating *)

Module Create.

(** The fields of [ResourceCreate] the handlers use; the others are accepted and ignored. *)
Record ResourceCreate := mkResourceCreate { rcr_Resource : Resource; rcr_LayerList : list string }.

Definition pool_of (r : Resource) : string := getp (res_Props r) storPoolNameProp.
Definition with_pool_prop (r : Resource) (pool : string) : Resource := with_res_spec r (res_Flags r) (<[storPoolNameProp := pool]> (res_Props r)).
Definition diskless (r : Resource) : bool := Contains (res_Flags r) ResourceFlagDiskless.

Definition refuseResourceCreateOnUnknownRD (rdName : string) : gate unit :=
  _ ←! or_reply (Reads.or_rd_missing rdName) (getRDWithCacheRetry rdName); done_with tt.

Definition bad_request {A} (msg : string) : result reply A := Err (writeError StatusBadRequest msg).

Definition unknown_flag_text (flag : string) : string :=
  "resource flag " +:+ in_quotes flag +:+ " is not a documented LINSTOR flag; allowed values: " +:+ sortedFlagList allowedResourceFlags +:+ ": unknown flag".

Definition validateResourceCreateShape (rdName : string) (r : Resource) : result reply unit :=
  if bool_decide (res_NodeName r = "") then bad_request "node_name is required on every resource create entry"
  else if Str.contains_char "."%char (res_NodeName r) then
    bad_request "node_name must not contain '.': metadata.name must equal <rd>.<node>"
  else if Str.contains_char "."%char rdName then
    bad_request "resource_definition name must not contain '.': metadata.name must equal <rd>.<node>"
  else match validateResourceFlags (res_Flags r) with
       | Some flag => bad_request (unknown_flag_text flag)
       | None => Ok tt
       end.

Definition pool_missing (pool node : string) : reply :=
  writeError StatusNotFound ("storage pool '" +:+ pool +:+ "' not found on node '" +:+ node
    +:+ "': create the pool first with `linstor sp c <node> <pool> ...` or pass a valid existing pool name").
Definition refuseResourceCreateOnUnknownPool (r : Resource) : gate unit :=
  let pool := pool_of r in
  if bool_decide (pool = "") then done_with tt
  else
    _ ←! or_reply (fun e => if isNotFound e then pool_missing pool (res_NodeName r) else writeStoreError e) (rask (RGetPool (res_NodeName r) pool));
    done_with tt.

Definition checkResourceCreateNodeAndPool (r : Resource) : gate unit :=
  _ ←! or_reply (Autoplace.or_node_missing (res_NodeName r)) (rask (RGetNode (res_NodeName r)));
  refuseResourceCreateOnUnknownPool r.

(** [resolveTakeoverStorPool] *)
Fixpoint sibling_pool (takeoverNode : string) (siblings : list Resource) : option string :=
  match siblings with
  | [] => None
  | s :: rest =>
      if bool_decide (res_NodeName s = takeoverNode) || diskless s || bool_decide (pool_of s = "") then sibling_pool takeoverNode rest
      else Some (pool_of s)
  end.
Definition group_pool (f : AutoSelectFilter) : string :=
  if given (StoragePool_ f) then StoragePool_ f else match StoragePoolList f with p :: _ => p | [] => "" end.
(** A definition or a group that is gone gives no pool. *)
Definition or_no_pool {A} (m : rprog (result rerr A)) (k : A -> rprog (result rerr string)) : rprog (result rerr string) :=
  r ← m; match r with Ok a => k a | Err e => if isNotFound e then done_with "" else failed_with e end.
Definition resolveTakeoverStorPool (rdName takeoverNode : string) : rprog (result rerr string) :=
  siblings ← rask (RListRes rdName);
  match match siblings with Ok l => sibling_pool takeoverNode l | Err _ => None end with
  | Some pool => done_with pool
  | None =>
      or_no_pool (rask (RGetRD rdName)) (fun rd =>
        if bool_decide (rd_ResourceGroupName rd = "") then done_with ""
        else or_no_pool (rask (RGetRG (rd_ResourceGroupName rd))) (fun rg => done_with (group_pool (rg_SelectFilter rg))))
  end.

Definition resolveStorPoolForFreshCreate (rdName : string) (r : Resource) : rprog Resource :=
  if diskless r || given (pool_of r) then Ret r
  else
    pool ← resolveTakeoverStorPool rdName (res_NodeName r);
    Ret (match pool with Ok p => if given p then with_pool_prop r p else r | Err _ => r end).

(** [resolveGatePoolName] *)
Definition resolveGatePoolName (rdName : string) (r : Resource) : rprog string :=
  if given (pool_of r) then Ret (pool_of r)
  else
    rd ← rask (RGetRD rdName);
    match rd with
    | Err _ => Ret ""
    | Ok rd =>
        if given (getp (rd_Props rd) storPoolNameProp) then Ret (getp (rd_Props rd) storPoolNameProp)
        else if bool_decide (rd_ResourceGroupName rd = "") then Ret ""
        else
          rg ← rask (RGetRG (rd_ResourceGroupName rd));
          Ret (match rg with Ok g => group_pool (rg_SelectFilter g) | Err _ => "" end)
    end.

Definition sumRDVolumeDefinitionsKib (rdName : string) : rprog (result rerr Z) :=
  vds ←! rask (RListVDs rdName); done_with (Autoplace.largest vds).

Definition rejectResourceCreateIfPoolFull (rdName : string) (r : Resource) : gate unit :=
  if diskless r || Contains (res_Flags r) ResourceFlagTieBreaker then done_with tt
  else
    poolName ← resolveGatePoolName rdName r;
    if bool_decide (poolName = "") then done_with tt
    else
      pool ← rask (RGetPool (res_NodeName r) poolName);
      match pool with
      | Err e => if isNotFound e then done_with tt else failed_with (writeStoreError e)
      | Ok pool =>
          requiredKib ←! or_store (sumRDVolumeDefinitionsKib rdName);
          if bool_decide (requiredKib <= 0) then done_with tt
          else if bool_decide (requiredKib <= sp_FreeCapacity pool) then done_with tt
          else failed_with (writeAutoplaceShortfall
                 (mkAutoSelectFilter 1 0 [res_NodeName r] poolName [] [] [] "" [] [] ∅ [] [] false "") ""
                 (Some (mkCapacity requiredKib (sp_FreeCapacity pool))))
      end.

(** *** Creating or promoting *)

Definition errWitnessMidDelete : rerr := not_found.

(** The closure of the promotion, and what it leaves in the variables it captures: whether it found a row
    that is no witness, the row as it was promoted last. *)
Definition promote_row (wantDiskful : bool) (pool : string) (live : Resource) : Resource :=
  let r := with_res_spec live (PromoteWitnessFlags (res_Flags live) wantDiskful).1 (res_Props live) in
  if wantDiskful then with_pool_prop r pool else r.
Definition dying (live : Resource) : bool := Contains (res_Flags live) ResourceFlagDelete.
Definition is_witness (live : Resource) : bool := (PromoteWitnessFlags (res_Flags live) false).2.
Definition promote_mutate (wantDiskful : bool) (pool : string) (live : Resource) : result rerr Resource :=
  if dying live then Err errWitnessMidDelete
  else if negb (is_witness live) then Ok live
  else Ok (promote_row wantDiskful pool live).
Definition saw_diskful (seen : list Resource) : bool := existsb (fun live => negb (dying live) && negb (is_witness live)) seen.
Definition promoted_last (wantDiskful : bool) (pool : string) (seen : list Resource) : Resource :=
  foldl (fun out live => if negb (dying live) && is_witness live then promote_row wantDiskful pool live else out) zero_Resource seen.

Definition promoteDisklessReplica (target : Resource) : rprog (result rerr Resource) :=
  let wantsToggle := negb (diskless target) in
  resolvedPool ←! (if wantsToggle && bool_decide (pool_of target = "") then resolveTakeoverStorPool (res_Name target) (res_NodeName target)
                   else done_with (pool_of target));
  let wantDiskful := given resolvedPool && wantsToggle in
  r ← rask (RPatchRes (res_Name target) (res_NodeName target) (promote_mutate wantDiskful resolvedPool));
  match r with
  | (Err e, _) => failed_with e
  | (Ok _, seen) => if saw_diskful seen then failed_with already_exists else done_with (promoted_last wantDiskful resolvedPool seen)
  end.

(** The end of an attempt: a row, a reply, or another attempt. *)
Inductive attempt := Landed (r : Resource) | Stopped (a : reply) | Retry.

Definition createOrPromoteResourceAttempt (r : Resource) : rprog attempt :=
  c ← rask (RCreateRes r);
  match c with
  | Ok _ => Ret (Landed r)
  | Err e =>
      if negb (wraps e SAlreadyExists) then Ret (Stopped (writeStoreError e))
      else
        (* whether to promote, or to try again *)
        wantsPromote ← (if given (pool_of r) || diskless r then Ret (Some true)
                        else
                          existing ← rask (RGetRes (res_Name r) (res_NodeName r));
                          Ret (match existing with
                               | Ok x => Some (Contains (res_Flags x) ResourceFlagTieBreaker)
                               | Err e' => if isNotFound e' then None else Some false
                               end));
        match wantsPromote with
        | None => Ret Retry
        | Some false => Ret (Stopped (writeStoreError e))
        | Some true =>
            p ← promoteDisklessReplica r;
            Ret (match p with
                 | Ok out => Landed out
                 | Err e' => if isNotFound e' then Retry else Stopped (writeStoreError e')
                 end)
        end
  end.

Definition tieBreakerCollapseRetryAttempts : nat := 5.
Definition tieBreakerCollapseRetryDelay : Z := 200 * millisecond.

Definition collapse_unfinished (r : Resource) : reply :=
  writeError StatusServiceUnavailable ("resource create racing tiebreaker collapse on " +:+ res_NodeName r
    +:+ ", retry the create after the witness CRD finalizer strip completes").

Fixpoint create_attempts (attempts : nat) (r : Resource) : gate Resource :=
  match attempts with
  | O => failed_with (collapse_unfinished r)
  | S more =>
      a ← createOrPromoteResourceAttempt r;
      match a with
      | Landed out => done_with out
      | Stopped reply => failed_with reply
      | Retry =>
          match more with
          | O => failed_with (collapse_unfinished r)
          | S _ =>
              ended ← rask (RSleep tieBreakerCollapseRetryDelay);
              if ended : bool then failed_with (writeError StatusGatewayTimeout "resource create: context cancelled during witness-collapse retry")
              else create_attempts more r
          end
      end
  end.
Definition createOrPromoteResource (r : Resource) : gate Resource := create_attempts tieBreakerCollapseRetryAttempts r.

(** *** Looking again after the write *)

Definition refuseResourceCreateOnSPDeletedRace (r : Resource) : gate unit :=
  let pool := pool_of r in
  if bool_decide (pool = "") then done_with tt
  else
    p ← rask (RGetPool (res_NodeName r) pool);
    match p with
    | Ok _ => done_with tt
    | Err e =>
        if isNotFound e then
          _ ← rask (RDeleteRes (res_Name r) (res_NodeName r));
          failed_with (writeError StatusNotFound ("storage pool '" +:+ pool +:+ "' was deleted on node '" +:+ res_NodeName r
            +:+ "' concurrently with the resource create: retry after re-creating the pool, or pick a different pool"))
        else failed_with (writeStoreError e)
    end.

Definition refuseResourceCreateOnNodeDeletedRace (r : Resource) : gate unit :=
  n ← rask (RGetNode (res_NodeName r));
  match n with
  | Ok _ => done_with tt
  | Err e =>
      if isNotFound e then
        _ ← rask (RDeleteRes (res_Name r) (res_NodeName r));
        failed_with (writeError StatusNotFound ("node '" +:+ res_NodeName r
          +:+ "' was deleted concurrently with the resource create: retry after re-creating the node, or pick a different node"))
      else failed_with (writeStoreError e)
  end.

Definition createOneResource (rdName : string) (env : ResourceCreate) : gate Resource :=
  let res := with_res_Name (rcr_Resource env) rdName (res_NodeName (rcr_Resource env)) in
  _ ←! Ret (validateResourceCreateShape rdName res);
  let res := with_res_spec res (normalizeDisklessFlag (res_Flags res)) (res_Props res) in
  _ ←! checkResourceCreateNodeAndPool res;
  _ ← (if given_list (rcr_LayerList env)
       then _ ← rask (RPatchRD rdName (fun rd => Ok (set_layers (rcr_LayerList env) rd))); Ret tt else Ret tt);
  res ← resolveStorPoolForFreshCreate rdName res;
  _ ←! rejectResourceCreateIfPoolFull rdName res;
  out ←! createOrPromoteResource res;
  _ ←! refuseResourceCreateOnSPDeletedRace out;
  _ ←! refuseResourceCreateOnNodeDeletedRace out;
  done_with out.

Fixpoint create_all (rdName : string) (envelopes : list ResourceCreate) : gate (list Resource) :=
  match envelopes with
  | [] => done_with []
  | env :: rest => out ←! createOneResource rdName env; more ←! create_all rdName rest; done_with (out :: more)
  end.
Definition createResources (rdName : string) (envelopes : list ResourceCreate) : gate (list Resource) :=
  _ ←! refuseResourceCreateOnUnknownRD rdName; create_all rdName envelopes.

Fixpoint bump_created (rdName : string) (created : list Resource) : rprog unit :=
  match created with
  | [] => Ret tt
  | r :: rest => _ ← bumpPeerChangedOnSiblings rdName (res_NodeName r); bump_created rdName rest
  end.
Definition created_reply (msg : string) : reply := Reply StatusCreated (Envelope [rc_message maskInfo msg]).

(** The body is one envelope or a list of them ([decodeResourceCreateBody]). *)
Definition handleResourceCreate (rdName : string) (b : decoded (list ResourceCreate)) : rprog reply := respond (
  envelopes ←! body_or b;
  match envelopes with
  | [] => failed_with (writeError StatusBadRequest "empty resource create body")
  | _ =>
      created ←! createResources rdName envelopes;
      _ ← bump_created rdName created;
      done_with (created_reply ("resource(s) created on resource-definition: " +:+ rdName))
  end).

(** [None] is a body without a byte that is not white space. *)
Definition handleResourceCreateOnNode (rdName node : string) (b : option (decoded (list ResourceCreate))) : rprog reply := respond (
  envelopes ←! match b with None => done_with [mkResourceCreate zero_Resource []] | Some d => body_or d end;
  match envelopes with
  | _ :: _ :: _ =>
      failed_with (writeError StatusBadRequest ("single-node resource create accepts at most one envelope, got " +:+ format_int (Z.of_nat (length envelopes))))
  | [] => failed_with Panic
  | [env] =>
      let name := res_NodeName (rcr_Resource env) in
      env ←! (if bool_decide (name = "") then
                done_with (mkResourceCreate (with_res_Name (rcr_Resource env) (res_Name (rcr_Resource env)) node) (rcr_LayerList env))
              else if bool_decide (name = node) then done_with env
              else failed_with (writeError StatusBadRequest ("single-node resource create: body node '" +:+ name
                     +:+ "' does not match URL path node '" +:+ node +:+ "'")));
      created ←! createResources rdName [env];
      _ ← bump_created rdName created;
      done_with (created_reply ("resource created on resource-definition: " +:+ rdName +:+ " / node: " +:+ node))
  end).

End Create.

(** ** Making available *)

Module MakeAvailable.

Record ResourceMakeAvailable := mkMakeAvailable { ma_LayerList : list string; ma_Diskful : bool }.

Definition keeps (diskful : bool) (flag : string) : bool :=
  negb (bool_decide (flag = ResourceFlagTieBreaker)) && negb (bool_decide (flag = ResourceFlagDiskless) && diskful).
Definition shed (diskful : bool) (live : Resource) : Resource :=
  with_res_spec live (filter (fun f => keeps diskful f = true) (res_Flags live)) (res_Props live).

Definition makeAvailableUpdate (existing : Resource) (req : ResourceMakeAvailable) : rprog (result rerr unit) :=
  r ← rask (RPatchRes (res_Name existing) (res_NodeName existing) (fun live => Ok (shed (ma_Diskful req) live)));
  Ret r.1.

Definition makeAvailableCreate (rdName node : string) (req : ResourceMakeAvailable) : rprog (result rerr unit) :=
  rask (RCreateRes (with_res_spec (with_res_Name zero_Resource rdName node)
    (if ma_Diskful req then [] else [ResourceFlagDiskless]) ∅)).

Definition applyMakeAvailable (rdName node : string) (req : ResourceMakeAvailable) : gate unit :=
  or_store (
    existing ← rask (RGetRes rdName node);
    match existing with
    | Ok x => makeAvailableUpdate x req
    | Err e => if isNotFound e then makeAvailableCreate rdName node req else failed_with e
    end).

(** [None] is an empty body. *)
Definition handleResourceMakeAvailable (rdName node : string) (b : option (decoded ResourceMakeAvailable)) : rprog reply := respond (
  req ←! match b with None => done_with (mkMakeAvailable [] false) | Some d => body_or d end;
  rd ←! or_store (getRDWithCacheRetry rdName);
  _ ←! (if given_list (ma_LayerList req) && negb (given_list (rd_LayerStack rd))
        then or_store (rask (RPatchRD rdName (fun live => Ok (set_layers (ma_LayerList req) live)))) else done_with tt);
  _ ←! applyMakeAvailable rdName node req;
  done_with (rc_info maskInfo ("Resource '" +:+ rdName +:+ "' on node '" +:+ node +:+ "' made available"))).

End MakeAvailable.

(** ** Deleting *)

Module Delete.

Definition autoTiebreakerSuppressionWindow : Z := 300 * second.
Definition keepTiebreakerOverrideWindow : Z := 300 * second.

(** A definition that is gone is fine. *)
Definition stamp_until (window : Z) (annotation rdName : string) : rprog (result rerr unit) :=
  now ← rask RNow;
  r ← rask (RPatchRD rdName (fun rd => Ok (with_rd_annotation annotation (format_rfc3339 (now + window)) rd)));
  match r with Err e => if isNotFound e then done_with tt else failed_with e | Ok _ => done_with tt end.
Definition stampTiebreakerSuppression (rdName : string) : rprog (result rerr unit) :=
  stamp_until autoTiebreakerSuppressionWindow AutoTiebreakerSuppressedUntilAnnotation rdName.
Definition stampKeepTiebreaker (rdName : string) : rprog (result rerr unit) :=
  stamp_until keepTiebreakerOverrideWindow KeepTiebreakerUntilAnnotation rdName.

Definition maybeStampTiebreakerSuppressionOnDelete (rdName : string) (existing : Resource) : rprog unit :=
  if Contains (res_Flags existing) ResourceFlagTieBreaker then _ ← stampTiebreakerSuppression rdName; Ret tt else Ret tt.

Definition last_copy_refusal (rdName : string) (target : Resource) : reply :=
  Reply StatusConflict (Envelope [mkAPICallRc (Z.lor apiCallRcError apiCallRcFailInUse)
    ("Cannot delete the last UpToDate diskful replica of '" +:+ rdName +:+ "' on '" +:+ res_NodeName target +:+ "' while another replica is still syncing.")
    "This is the only UpToDate copy and a peer replica is mid-resync (SyncTarget/Inconsistent). Removing it would strand the syncing peer with no source and leave the resource with no UpToDate backing storage."
    "" "Wait for the resync to finish (every diskful replica UpToDate) and retry, or pass `?force=true` to override and accept the data-availability risk."
    (<["RscDfn" := rdName]> (<["Node" := res_NodeName target]> ∅)) ""]).

Definition refuseLastUpToDateDiskfulMidSyncDelete (rdName : string) (target : Resource) (force : bool) : gate unit :=
  if force then done_with tt
  else
    siblings ← rask (RListRes rdName);
    match siblings with
    | Err e => if isNotFound e then done_with tt else failed_with (writeStoreError e)
    | Ok l => if MidSync.MidSyncDeleteRefusal target l then failed_with (last_copy_refusal rdName target) else done_with tt
    end.

Definition already_absent (rdName node : string) : rprog (result reply reply) :=
  _ ← waitForResourceDeletionVisible rdName node;
  done_with (rc_info warnRscNotFound ("resource already absent: " +:+ rdName +:+ " on " +:+ node)).

(** [keep_tiebreaker] and [force] are the texts of the query parameters. *)
Definition handleResourceDelete (rdName node : string) (keep_tiebreaker force : string) : rprog reply := respond (
  _ ← (if queryFlag keep_tiebreaker then _ ← stampKeepTiebreaker rdName; Ret tt else Ret tt);
  existing ← rask (RGetRes rdName node);
  match existing with
  | Err e => if isNotFound e then already_absent rdName node else failed_with (writeStoreError e)
  | Ok existing =>
      _ ←! refuseLastUpToDateDiskfulMidSyncDelete rdName existing (queryFlag force);
      _ ← maybeStampTiebreakerSuppressionOnDelete rdName existing;
      d ← rask (RDeleteRes rdName node);
      match d with
      | Err e => if isNotFound e then already_absent rdName node else failed_with (writeStoreError e)
      | Ok _ =>
          _ ← waitForResourceDeletionVisible rdName node;
          _ ← bumpPeerChangedOnSiblings rdName node;
          done_with (rc_info (Z.lor apiCallRcInfo apiCallRcRscDeleted) ("resource deleted: " +:+ rdName +:+ " on " +:+ node))
      end
  end).

End Delete.
