(* ===== verification/RestProps.v ===== *)
(** * Properties of the REST endpoints of replicas

    What a handler may do in any order of events: the calls it makes are judged with the answers it was
    given before ([traced]), so the statements hold whatever other clients do in between. *)

From Stdlib Require Import Ascii.
From S2P Require Import Prelude Prog Api Store GoFloat GoStrings GoTime Placer Tiebreaker Validate Rest RestResources.

Notation rfact := (fact ranswer).

(** ** Walking a handler *)

Section Walk.
Context (P : list rfact -> rcall -> Prop).

(** The calls of [m] are allowed and [m] ends with a longer history that fits its result. *)
Definition walks {A} (h : list rfact) (m : rprog A) (Q : list rfact -> A -> Prop) : Prop :=
  traced P h m (fun h' a => h `prefix_of` h' /\ Q h' a).

Lemma walks_ret {A} h (a : A) (Q : list rfact -> A -> Prop) : Q h a -> walks h (Ret a) Q.
Proof. done. Qed.
Lemma walks_ask h c (Q : list rfact -> ranswer c -> Prop) : P h c -> (forall a, Q (h ++ [Fact c a]) a) -> walks h (rask c) Q.
Proof. intros HP HQ. split; [done|]. intros a. split; [by apply prefix_app_r|done]. Qed.
Lemma walks_bind {A B} h (m : rprog A) (f : A -> rprog B) R Q :
  walks h m R -> (forall h' a, h `prefix_of` h' -> R h' a -> walks h' (f a) Q) -> walks h (m ≫= f) Q.
Proof.
  intros Hm Hf. eapply traced_bind; [exact Hm|]. intros h' a [Hp Hr]. eapply traced_mono; [|by apply Hf].
  intros h'' b [Hp' Hq]. split; [by etrans|done].
Qed.
Lemma walks_kbind {E A B} h (m : rprog (result E A)) (f : A -> rprog (result E B)) R Q :
  walks h m R -> (forall h' a, h `prefix_of` h' -> R h' (Ok a) -> walks h' (f a) Q) ->
  (forall h' e, h `prefix_of` h' -> R h' (Err e) -> Q h' (Err e)) -> walks h (kbind m f) Q.
Proof. intros Hm Hf He. eapply walks_bind; [exact Hm|]. intros h' [a|e] Hp Hr; [by apply Hf|apply walks_ret; by apply He]. Qed.
Lemma walks_mono {A} h (m : rprog A) (Q Q' : list rfact -> A -> Prop) :
  (forall h' a, h `prefix_of` h' -> Q h' a -> Q' h' a) -> walks h m Q -> walks h m Q'.
Proof. intros HQ. apply traced_mono. intros h' a [Hp Hq]. split; [done|by apply HQ]. Qed.

(** A gate that turns an error into a reply. *)
Lemma walks_or {A} h (w : rerr -> reply) (m : rprog (result rerr A)) R Q :
  walks h m R -> (forall h' a, h `prefix_of` h' -> R h' (Ok a) -> Q h' (Ok a)) ->
  (forall h' e, h `prefix_of` h' -> R h' (Err e) -> Q h' (Err (w e))) -> walks h (or_reply w m) Q.
Proof. intros Hm Ha He. eapply walks_bind; [exact Hm|]. intros h' [a|e] Hp Hr; apply walks_ret; by auto. Qed.

Lemma walks_traced {A} h (m : rprog A) Q : walks h m Q -> traced P h m Q.
Proof. apply traced_mono. by intros h' a [_ Hq]. Qed.

Lemma walks_retry {A} n h (read : rprog (result rerr A)) (Q : list rfact -> A -> Prop) : (forall h' d, P h' (RSleep d)) ->
  (forall h', walks h' read (fun h'' r => forall a, r = Ok a -> Q h'' a)) ->
  walks h (getWithCacheRetry n read) (fun h' r => forall a, r = Ok a -> Q h' a).
Proof.
  intros Hs Hr. revert h. induction n as [|n IH]; intros h; [by apply walks_ret|]. cbn [getWithCacheRetry].
  eapply walks_bind; [apply Hr|]. intros h' [a|e] _ Ha; [apply walks_ret; intros b [= ->]; by apply Ha|].
  destruct (negb (isNotFound e)); [by apply walks_ret|]. destruct n as [|n]; [by apply walks_ret|].
  eapply walks_bind; [apply walks_ask with (Q := fun _ _ => True); auto|]. intros h'' [|] _ _; [by apply walks_ret|apply IH].
Qed.

End Walk.

(** The calls that change nothing. *)
Definition reads (c : rcall) : Prop :=
  match c with RCreateRes _ | RDeleteRes _ _ | RPatchRes _ _ _ | RPatchRD _ _ | RPlace _ _ => False | _ => True end.

Section Free.
#[local] Set Default Proof Using "Type*".
Context (P : list rfact -> rcall -> Prop) (free : forall h c, reads c -> P h c).

Lemma walks_read {A} h (m : rprog A) : only reads m -> walks P h m (fun _ _ => True).
Proof. intros Hm. eapply traced_mono; [|by apply (traced_free P reads)]. done. Qed.
Lemma walks_rd h name : walks P h (getRDWithCacheRetry name) (fun h' r => forall rd, r = Ok rd -> told h' (RGetRD name) (Ok rd)).
Proof. apply walks_retry; [intros; by apply free|]. intros h'. apply walks_ask; [by apply free|]. intros a rd ->. apply told_last. Qed.
Lemma walks_rg h name : walks P h (getRGWithCacheRetry name) (fun h' r => forall g, r = Ok g -> told h' (RGetRG name) (Ok g)).
Proof. apply walks_retry; [intros; by apply free|]. intros h'. apply walks_ask; [by apply free|]. intros a g ->. apply told_last. Qed.
(** An answer that is remembered. *)
Lemma walks_told h c : reads c -> walks P h (rask c) (fun h' a => told h' c a).
Proof. intros Hc. apply walks_ask; [by apply free|]. intros a. apply told_last. Qed.

End Free.

(** Reads that are made of reads. *)
Lemma retry_reads {A} n (m : rprog (result rerr A)) : only reads m -> only reads (getWithCacheRetry n m).
Proof.
  intros Hm. induction n as [|n IH]; [done|]. cbn [getWithCacheRetry]. apply only_bind; [done|]. intros [a|e]; [done|].
  destruct (negb (isNotFound e)); [done|]. destruct n as [|n]; [done|]. split; [done|]. intros [|]; [done|exact IH].
Qed.
Lemma poll_reads fuel deadline rd node : only reads (poll_deletion fuel deadline rd node).
Proof.
  induction fuel as [|fuel IH]; [done|]. split; [done|]. intros [r|e]; cbn; [|done]. split; [done|]. intros now. case_bool_decide; [done|].
  split; [done|]. by intros [|].
Qed.
Lemma wait_reads rd node : only reads (waitForResourceDeletionVisible rd node).
Proof. split; [done|]. intros now. apply poll_reads. Qed.

#[global] Hint Resolve told_last told_later : told.
(** What was told stays told. *)
Ltac keep := eauto using told_prefix with told.

(** ** Deleting *)

(** The stamp that keeps the controller from putting a new witness in the place of one that is deleted. *)
Definition suppression (rdName : string) (now : Z) : rcall :=
  RPatchRD rdName (fun rd => Ok (with_rd_annotation AutoTiebreakerSuppressedUntilAnnotation
    (format_rfc3339 (now + Delete.autoTiebreakerSuppressionWindow)) rd)).

(** A replica with storage, some volume of which is as [Q] says. *)
Definition has_storage (r : Resource) : Prop := ResourceFlagDiskless ∉ res_Flags r /\ ResourceFlagTieBreaker ∉ res_Flags r.
Definition some_volume (Q : Volume -> Prop) (r : Resource) : Prop := exists v, v ∈ res_Volumes r /\ Q v.
Definition towards_a_peer (state : string) (v : Volume) : Prop :=
  exists p s, vs_ReplicationStates (vol_State v) !! p = Some s /\ rse_ReplicationState s = state.

(** It has a volume that is complete, or one that is catching up; or nothing is known of its disks. *)
Definition has_complete : Resource -> Prop := some_volume (fun v => vs_DiskState (vol_State v) = "UpToDate" \/ towards_a_peer "SyncSource" v).
Definition catches_up : Resource -> Prop := some_volume (fun v =>
  vs_DiskState (vol_State v) = "Inconsistent" \/ vs_DiskState (vol_State v) = "SyncTarget" \/ towards_a_peer "SyncTarget" v).
Definition disks_unknown (r : Resource) : Prop := forall v, v ∈ res_Volumes r -> vs_DiskState (vol_State v) = "".

(** Without [target] a peer that is catching up has no source: the target has storage and may be complete, no other
    replica with storage has a complete volume, and one is catching up. *)
Definition strands_a_peer (target : Resource) (l : list Resource) : Prop :=
  has_storage target /\ (has_complete target \/ disks_unknown target) /\
  (forall r, r ∈ l -> res_NodeName r <> res_NodeName target -> has_storage r -> ~ has_complete r) /\
  exists r, r ∈ l /\ res_NodeName r <> res_NodeName target /\ has_storage r /\ catches_up r.

Lemma diskful_storage r : MidSync.ResourceIsDiskful r = true <-> has_storage r.
Proof.
  unfold MidSync.ResourceIsDiskful, has_storage. rewrite negb_true_iff, <- not_true_iff_false, existsb_exists. split.
  - intros H. split; intros Hf; apply H; eexists; (split; [by apply list_elem_of_In|]); rewrite orb_true_iff, !bool_decide_eq_true; auto.
  - intros [H1 H2] (f & Hf%list_elem_of_In & Hor). rewrite orb_true_iff, !bool_decide_eq_true in Hor. by destruct Hor as [-> | ->].
Qed.
Lemma replicates_towards st v : MidSync.replicates st v = true <-> towards_a_peer st v.
Proof.
  unfold MidSync.replicates, towards_a_peer. rewrite existsb_exists. split.
  - intros ([p s] & Hin%list_elem_of_In%elem_of_map_to_list & Hs%bool_decide_eq_true). by exists p, s.
  - intros (p & s & Hl & Hs). exists (p, s). split; [by apply list_elem_of_In, elem_of_map_to_list|by apply bool_decide_eq_true].
Qed.
Lemma exists_volume (q : Volume -> bool) (Q : Volume -> Prop) r : (forall v, q v = true <-> Q v) -> existsb q (res_Volumes r) = true <-> some_volume Q r.
Proof. intros HQ. unfold some_volume. rewrite existsb_exists. by setoid_rewrite HQ; setoid_rewrite list_elem_of_In. Qed.
Lemma confirmed_complete r : MidSync.resourceIsConfirmedUpToDateSource r = true <-> has_complete r.
Proof.
  unfold MidSync.resourceIsConfirmedUpToDateSource, MidSync.resourceIsUpToDate, MidSync.resourceIsSyncSource. rewrite orb_true_iff.
  rewrite (exists_volume _ (fun v => vs_DiskState (vol_State v) = "UpToDate")) by (intros v; apply bool_decide_eq_true).
  rewrite (exists_volume _ (towards_a_peer "SyncSource")) by apply replicates_towards. unfold has_complete, some_volume. naive_solver.
Qed.
Lemma mid_sync_catches_up r : MidSync.resourceIsMidSync r = true <-> catches_up r.
Proof.
  apply exists_volume. intros v. unfold MidSync.volume_mid_sync. rewrite !orb_true_iff, !bool_decide_eq_true, replicates_towards.
  unfold MidSync.disk_state. naive_solver.
Qed.
Lemma known_unknown r : MidSync.resourceHasKnownDiskState r = false <-> disks_unknown r.
Proof.
  unfold MidSync.resourceHasKnownDiskState, disks_unknown. rewrite <- not_true_iff_false, existsb_exists. split.
  - intros H v Hv. destruct (decide (vs_DiskState (vol_State v) = "")) as [|Hne]; [done|]. exfalso. apply H. exists v.
    split; [by apply list_elem_of_In|by apply bool_decide_eq_true].
  - intros H (v & Hv%list_elem_of_In & Hne%bool_decide_eq_true). by apply Hne, H.
Qed.

Lemma refusal_strands target l : MidSync.MidSyncDeleteRefusal target l = true <-> strands_a_peer target l.
Proof.
  rewrite MidSyncDeleteRefusal_exact. unfold strands_a_peer, other_diskful. rewrite diskful_storage, confirmed_complete, known_unknown.
  setoid_rewrite diskful_storage. setoid_rewrite <- not_true_iff_false. setoid_rewrite confirmed_complete. setoid_rewrite mid_sync_catches_up. naive_solver.
Qed.

(** What the deletion of a replica may do. *)
Definition deletes_safely (rdName node force : string) (h : list rfact) (c : rcall) : Prop :=
  match c with
  | RDeleteRes rd' node' =>
      rd' = rdName /\ node' = node /\ exists target, told h (RGetRes rdName node) (Ok target) /\
      (queryFlag force = true \/ (exists l, told h (RListRes rdName) (Ok l) /\ ~ strands_a_peer target l)
       \/ exists e, told h (RListRes rdName) (Err e) /\ isNotFound e = true) /\
      (ResourceFlagTieBreaker ∈ res_Flags target -> exists now a, told h RNow now /\ told h (suppression rdName now) a)
  | RPatchRes _ node' mutate => node' <> node /\ told h (RDeleteRes rdName node) (Ok tt) /\
      exists stamp, mutate = fun live => Ok (with_res_annotation PeerChangedAnnotation stamp live)
  | RPatchRD rd' _ => rd' = rdName
  | RCreateRes _ | RPlace _ _ => False
  | _ => True
  end.

Section Deleting.
#[local] Set Default Proof Using "Type*".
Context (rdName node force : string).
#[local] Notation P := (deletes_safely rdName node force).

Lemma deleting_free h c : reads c -> P h c.
Proof. by destruct c. Qed.

Lemma stamp_walks h window annotation :
  walks P h (Delete.stamp_until window annotation rdName) (fun h' _ => exists now a, told h' RNow now /\
    told h' (RPatchRD rdName (fun rd => Ok (with_rd_annotation annotation (format_rfc3339 (now + window)) rd))) a).
Proof.
  eapply walks_bind; [by apply (walks_told P deleting_free)|]. cbn beta. intros h1 now _ Hnow.
  eapply walks_bind; [apply walks_ask with (Q := fun h' a => told h' (RPatchRD rdName _) a); [done|intros; apply told_last]|].
  intros h2 r Hp Hr. destruct r as [[]|e]; [|destruct (isNotFound e)]; apply walks_ret; exists now; eexists; split; keep.
Qed.

Lemma bump_walks h siblings stamp : told h (RDeleteRes rdName node) (Ok tt) -> walks P h (bump_each stamp node siblings) (fun _ _ => True).
Proof.
  revert h. induction siblings as [|s rest IH]; intros h Hd; cbn [bump_each]; [by apply walks_ret|]. case_bool_decide as Hn; [by apply IH|].
  eapply walks_bind; [apply walks_ask with (Q := fun _ _ => True); [|done]|].
  - split_and!; [done|done|by eexists].
  - intros h' a Hp _. apply IH. keep.
Qed.

Lemma bumping_walks h : told h (RDeleteRes rdName node) (Ok tt) -> walks P h (bumpPeerChangedOnSiblings rdName node) (fun _ _ => True).
Proof.
  intros Hd. eapply walks_bind; [by apply (walks_told P deleting_free)|]. intros h1 [l|e] Hp _; [|by apply walks_ret].
  eapply walks_bind; [by apply (walks_told P deleting_free)|]. intros h2 now Hp2 _. apply bump_walks. keep.
Qed.

Lemma absent_walks h Q : (forall h' r, Q h' (Ok r)) -> walks P h (Delete.already_absent rdName node) Q.
Proof.
  intros HQ. eapply walks_bind; [apply (walks_read P deleting_free), wait_reads|]. intros h' [] _ _. by apply walks_ret.
Qed.

(** The guard lets through what it may. *)
Lemma guard_walks h target : told h (RGetRes rdName node) (Ok target) ->
  walks P h (Delete.refuseLastUpToDateDiskfulMidSyncDelete rdName target (queryFlag force)) (fun h' r => r = Ok tt ->
    queryFlag force = true \/ (exists l, told h' (RListRes rdName) (Ok l) /\ ~ strands_a_peer target l)
    \/ exists e, told h' (RListRes rdName) (Err e) /\ isNotFound e = true).
Proof.
  intros Ht. unfold Delete.refuseLastUpToDateDiskfulMidSyncDelete. destruct (queryFlag force); [apply walks_ret; by left|].
  eapply walks_bind; [by apply (walks_told P deleting_free)|]. cbn beta. intros h' [l|e] _ Hl.
  - destruct (MidSync.MidSyncDeleteRefusal target l) eqn:E; apply walks_ret; [done|]. intros _. right; left. exists l. split; [done|].
    rewrite <- refusal_strands. by rewrite E.
  - destruct (isNotFound e) eqn:E; apply walks_ret; [|done]. intros _. right; right. by exists e.
Qed.

Lemma suppression_walks h target :
  walks P h (Delete.maybeStampTiebreakerSuppressionOnDelete rdName target) (fun h' _ =>
    ResourceFlagTieBreaker ∈ res_Flags target -> exists now a, told h' RNow now /\ told h' (suppression rdName now) a).
Proof.
  unfold Delete.maybeStampTiebreakerSuppressionOnDelete, Contains. case_bool_decide as Hf; [|by apply walks_ret].
  eapply walks_bind; [apply stamp_walks|]. intros h' r _ Hr. by apply walks_ret.
Qed.


End Deleting.

(** ** Creating *)

Import Shortfall Create.

(** Flags as a client may spell them and as they are kept: a diskless replica has one spelling, the rest is as it was. *)
Definition asks_diskless (flags : list string) : Prop := ResourceFlagDiskless ∈ flags \/ rscFlagDrbdDiskless ∈ flags.
Definition one_spelling (flags kept : list string) : Prop :=
  (ResourceFlagDiskless ∈ kept <-> asks_diskless flags) /\ rscFlagDrbdDiskless ∉ kept /\
  forall f, f <> ResourceFlagDiskless -> f <> rscFlagDrbdDiskless -> f ∈ kept <-> f ∈ flags.

Lemma drop_spellings_elem flags seen f : f <> rscFlagDrbdDiskless ->
  f ∈ drop_spellings flags seen <-> (f <> ResourceFlagDiskless /\ f ∈ flags) \/ (f = ResourceFlagDiskless /\ seen = false /\ asks_diskless flags).
Proof.
  intros Hf. unfold asks_diskless. revert seen. induction flags as [|x flags IH]; intros seen; cbn [drop_spellings].
  - split; [by intros ?%not_elem_of_nil|]. intros [[_ H]|(_ & _ & [H|H])]; by apply not_elem_of_nil in H.
  - case_bool_decide as E1; [subst x|case_bool_decide as E2; [subst x|]]; cbn [negb orb]; [destruct seen|destruct seen|];
      rewrite ?elem_of_cons, IH, ?elem_of_cons; destruct (decide (f = ResourceFlagDiskless)); naive_solver.
Qed.
Lemma drop_spellings_clean flags seen : rscFlagDrbdDiskless ∉ drop_spellings flags seen.
Proof.
  revert seen. induction flags as [|x flags IH]; intros seen; cbn [drop_spellings]; [apply not_elem_of_nil|].
  case_bool_decide; [|case_bool_decide]; cbn [negb orb]; [destruct seen|destruct seen|]; try apply IH; rewrite not_elem_of_cons; (split; [done|apply IH]).
Qed.
Lemma normalize_one_spelling flags : one_spelling flags (normalizeDisklessFlag flags).
Proof.
  unfold normalizeDisklessFlag, Contains, one_spelling, asks_diskless. case_bool_decide as H; cbn [negb].
  - split_and!; [rewrite drop_spellings_elem by done; unfold asks_diskless; naive_solver|apply drop_spellings_clean|].
    intros f H1 H2. rewrite drop_spellings_elem by done. naive_solver.
  - split_and!; [naive_solver|done|done].
Qed.

(** What a patch that promotes a replica does: a row that is being deleted is refused, one with storage is left as it is, and
    of the others the flag of the witness goes and, when storage is wanted, the one of a diskless replica, for a pool. *)
Definition promotes (wantDiskful : bool) (pool : string) (mutate : Resource -> result rerr Resource) : Prop :=
  forall live live', mutate live = Ok live' -> ResourceFlagDelete ∉ res_Flags live /\
    res_Name live' = res_Name live /\ res_NodeName live' = res_NodeName live /\
    if decide (ResourceFlagTieBreaker ∈ res_Flags live \/ ResourceFlagDiskless ∈ res_Flags live) then
      res_Flags live' = filter (fun f => f <> ResourceFlagTieBreaker /\ (wantDiskful = true -> f <> ResourceFlagDiskless)) (res_Flags live) /\
      res_Props live' = (if wantDiskful then <[storPoolNameProp := pool]> (res_Props live) else res_Props live)
    else live' = live.

Lemma promote_promotes wantDiskful pool : promotes wantDiskful pool (promote_mutate wantDiskful pool).
Proof.
  intros live live'. unfold promote_mutate, dying, is_witness, promote_row.
  rewrite (proj1 (PromoteWitnessFlags_spec (res_Flags live) false)), (proj1 (PromoteWitnessFlags_spec (res_Flags live) wantDiskful)). unfold Contains. cbn.
  repeat case_bool_decide; cbn; (intros [= <-] || done); case_decide; try naive_solver; by destruct wantDiskful.
Qed.

(** A row an envelope asks for: its own flags, in one spelling, and its own properties, with a pool that was found for a
    replica that is to have storage and names none. *)
Definition asked (rdName : string) (env : ResourceCreate) (r : Resource) : Prop :=
  res_Name r = rdName /\ res_NodeName r = res_NodeName (rcr_Resource env) /\
  res_NodeName r <> "" /\ Str.contains_char "."%char (res_NodeName r) = false /\ Str.contains_char "."%char rdName = false /\
  Forall (fun f => f ∈ allowedResourceFlags) (res_Flags (rcr_Resource env)) /\
  one_spelling (res_Flags (rcr_Resource env)) (res_Flags r) /\
  (res_Props r = res_Props (rcr_Resource env) \/
   ResourceFlagDiskless ∉ res_Flags r /\ getp (res_Props (rcr_Resource env)) storPoolNameProp = "" /\
   exists pool, pool <> "" /\ res_Props r = <[storPoolNameProp := pool]> (res_Props (rcr_Resource env))).

Definition rd_known (rdName : string) (h : list rfact) : Prop := exists rd, told h (RGetRD rdName) (Ok rd).
Definition node_known (node : string) (h : list rfact) : Prop := exists n, told h (RGetNode node) (Ok n).

(** A row was written: created, or promoted from the witness that was there. *)
Inductive wrote (r : Resource) : rfact -> Prop :=
| wrote_new : wrote r (Fact (RCreateRes r) (Ok tt))
| wrote_over rd node wantDiskful pool seen :
    saw_diskful seen = false -> r = promoted_last wantDiskful pool seen ->
    wrote r (Fact (RPatchRes rd node (promote_mutate wantDiskful pool)) (Ok tt, seen)).

(** It was written and then its node, and its pool if it has one, were there. *)
Definition settled (h : list rfact) (r : Resource) : Prop :=
  exists h1 f h2, h = h1 ++ f :: h2 /\ wrote r f /\ node_known (res_NodeName r) h2 /\
    (pool_of r = "" \/ exists p, told h2 (RGetPool (res_NodeName r) (pool_of r)) (Ok p)).

(** Why a row is taken back: its pool or its node was gone after the write. *)
Definition taken_back (h : list rfact) (rd node : string) : Prop :=
  exists h1 f h2 r e, h = h1 ++ f :: h2 /\ wrote r f /\ res_Name r = rd /\ res_NodeName r = node /\ isNotFound e = true /\
    (told h2 (RGetNode node) (Err e) \/ told h2 (RGetPool node (pool_of r)) (Err e)).

Definition creates_safely (rdName : string) (envs : list ResourceCreate) (h : list rfact) (c : rcall) : Prop :=
  match c with
  | RCreateRes r => exists env, env ∈ envs /\ asked rdName env r /\ rd_known rdName h /\ node_known (res_NodeName r) h
  | RDeleteRes rd node => taken_back h rd node
  | RPatchRes rd node mutate =>
      (exists env wantDiskful pool, env ∈ envs /\ rd = rdName /\ node = res_NodeName (rcr_Resource env) /\
         promotes wantDiskful pool mutate /\ node_known node h /\
         (wantDiskful = true -> pool <> "" /\ ~ asks_diskless (res_Flags (rcr_Resource env)))) \/
      exists stamp, mutate = fun live => Ok (with_res_annotation PeerChangedAnnotation stamp live)
  | RPatchRD rd mutate => rd = rdName /\ exists layers, mutate = fun live => Ok (set_layers layers live)
  | RPlace _ _ => False
  | _ => True
  end.

Lemma given_no s : given s = false -> s = "".
Proof. unfold given. by case_bool_decide. Qed.
Lemma given_yes s : given s = true -> s <> "".
Proof. unfold given. by case_bool_decide. Qed.

Lemma flags_allowed flags : validateResourceFlags flags = None -> Forall (fun f => f ∈ allowedResourceFlags) flags.
Proof.
  unfold validateResourceFlags. induction flags as [|f flags IH]; [done|]. cbn [find]. unfold Contains at 1. case_bool_decide; [|done]. cbn [negb].
  intros H'. constructor; auto.
Qed.

Lemma shape_ok rdName r : validateResourceCreateShape rdName r = Ok tt ->
  res_NodeName r <> "" /\ Str.contains_char "."%char (res_NodeName r) = false /\ Str.contains_char "."%char rdName = false /\
  Forall (fun f => f ∈ allowedResourceFlags) (res_Flags r).
Proof.
  unfold validateResourceCreateShape, bad_request. case_bool_decide; [done|]. destruct (Str.contains_char _ (res_NodeName r)) eqn:E1; [done|]. destruct (Str.contains_char _ rdName) eqn:E2; [done|].
  destruct (validateResourceFlags _) eqn:E3; [done|]. intros _. split_and!; [done..|by apply flags_allowed].
Qed.

Section Creating.
#[local] Set Default Proof Using "Type*".
Context (rdName : string) (envs : list ResourceCreate).
#[local] Notation P := (creates_safely rdName envs).

Lemma creating_free h c : reads c -> P h c.
Proof. by destruct c. Qed.

Lemma known_later node h h' : h `prefix_of` h' -> node_known node h -> node_known node h'.
Proof. intros Hp [n Hn]. exists n. keep. Qed.
Lemma rd_known_later h h' : h `prefix_of` h' -> rd_known rdName h -> rd_known rdName h'.
Proof. intros Hp [n Hn]. exists n. keep. Qed.

Lemma or_no_pool_reads {A} (m : rprog (result rerr A)) k : only reads m -> (forall a, only reads (k a)) -> only reads (or_no_pool m k).
Proof. intros Hm Hk. apply only_bind; [done|]. intros [a|e]; [done|]. by destruct (isNotFound e). Qed.
Lemma takeover_reads rd node : only reads (resolveTakeoverStorPool rd node).
Proof.
  apply only_bind; [by split|]. intros l. destruct (match l with Ok l => sibling_pool node l | Err _ => None end); [exact I|].
  apply or_no_pool_reads; [done|]. intros d. case_bool_decide; [exact I|]. by apply or_no_pool_reads.
Qed.
Lemma gate_pool_reads r : only reads (resolveGatePoolName rdName r).
Proof.
  unfold resolveGatePoolName. destruct (given (pool_of r)); [done|]. split; [done|]. intros [d|e]; cbn; [|done].
  destruct (given _); [done|]. case_bool_decide; [done|]. split; [done|]. by intros [g|e].
Qed.
Lemma full_reads r : only reads (rejectResourceCreateIfPoolFull rdName r).
Proof.
  unfold rejectResourceCreateIfPoolFull. destruct (diskless r || _); [done|]. apply only_bind; [apply gate_pool_reads|]. intros pool.
  case_bool_decide; [done|]. split; [done|]. intros [p|e]; cbn; [|by destruct (isNotFound e)]. split; [done|]. intros [vds|e]; cbn; [|done].
  repeat case_bool_decide; done.
Qed.

Lemma node_pool_walks h r : walks P h (checkResourceCreateNodeAndPool r) (fun h' x => x = Ok tt -> node_known (res_NodeName r) h').
Proof.
  eapply walks_kbind with (R := fun h' x => forall n, x = Ok n -> told h' (RGetNode (res_NodeName r)) (Ok n)); [|intros h' n _ Hn|done].
  - eapply walks_or; [by apply (walks_told P creating_free)| |done]. intros h' a _ Ha n [= <-]. exact Ha.
  - specialize (Hn n eq_refl). apply walks_mono with (Q := fun _ _ => True); [intros h'' x Hp _ _; by apply (known_later _ h'); [|exists n]|].
    apply (walks_read P creating_free). unfold refuseResourceCreateOnUnknownPool. case_bool_decide; [done|]. split; [done|]. by intros [p|e].
Qed.

Lemma fresh_pool_walks h r : walks P h (resolveStorPoolForFreshCreate rdName r) (fun _ r' =>
  r' = r \/ ResourceFlagDiskless ∉ res_Flags r /\ pool_of r = "" /\ exists pool, pool <> "" /\ r' = with_pool_prop r pool).
Proof.
  unfold resolveStorPoolForFreshCreate, diskless, Contains. case_bool_decide as Hd; [by apply walks_ret; left|]. cbn [orb].
  destruct (given (pool_of r)) eqn:Hg; [by apply walks_ret; left|].
  eapply walks_bind; [apply (walks_read P creating_free), takeover_reads|]. intros h' [pool|e] _ _; apply walks_ret; [|by left].
  destruct (given pool) eqn:Hp; [right|by left]. split_and!; [done|by apply given_no|]. exists pool. split; [by apply given_yes|done].
Qed.

(** *** The write *)

(** The row as the handler submits it. *)
Definition submitted (env : ResourceCreate) (r : Resource) (h : list rfact) : Prop :=
  env ∈ envs /\ asked rdName env r /\ rd_known rdName h /\ node_known (res_NodeName r) h.
Lemma submitted_later env r h h' : h `prefix_of` h' -> submitted env r h -> submitted env r h'.
Proof. intros Hp (He & Ha & Hr & Hn). split_and!; [done|done|by eapply rd_known_later|by eapply known_later]. Qed.

(** The row was written since. *)
Definition landed (h h' : list rfact) (r : Resource) : Prop := exists f h2, h' = h ++ f :: h2 /\ wrote r f.
Definition written (h' : list rfact) (r : Resource) : Prop := exists h1, landed h1 h' r.

Lemma promote_walks env r h : submitted env r h ->
  walks P h (promoteDisklessReplica r) (fun h' x => forall out, x = Ok out -> written h' out).
Proof.
  intros (He & Ha & Hrd & Hn). destruct Ha as (Hname & Hnode & _ & _ & _ & _ & Hflags & _). unfold promoteDisklessReplica.
  eapply walks_kbind with (R := fun _ _ => True); [|intros h1 pool Hp1 _|done].
  { destruct (_ && _); [apply (walks_read P creating_free), takeover_reads|by apply walks_ret]. }
  eapply walks_bind; [apply walks_ask with (Q := fun h' a => exists h1, h' = h1 ++ [Fact (RPatchRes (res_Name r) (res_NodeName r) (promote_mutate (given pool && negb (diskless r)) pool)) a]); [|eauto]|].
  - left. exists env, (given pool && negb (diskless r)), pool. split_and!; [done|done|done|apply promote_promotes|by eapply known_later|].
    intros [Hg Hd]%andb_prop. split; [by apply given_yes|]. rewrite <- (proj1 Hflags). unfold diskless, Contains in Hd. by case_bool_decide.
  - intros h2 [x seen] _ [h0 Hh]. destruct x as [[]|e]; [|by apply walks_ret]. destruct (saw_diskful seen) eqn:Es; apply walks_ret; [done|].
    intros out [= <-]. exists h0. eexists _, []. split; [exact Hh|by constructor].
Qed.

Lemma attempt_walks env r h : submitted env r h ->
  walks P h (createOrPromoteResourceAttempt r) (fun h' x => forall out, x = Landed out -> written h' out).
Proof.
  intros Hs. unfold createOrPromoteResourceAttempt.
  eapply walks_bind; [apply walks_ask with (Q := fun h' a => h' = h ++ [Fact (RCreateRes r) a]); [by exists env; destruct Hs as (? & ? & ? & ?)|done]|].
  intros h1 [[]|e] Hp Hh; [apply walks_ret; intros out [= <-]; exists h; eexists _, []; split; [exact Hh|constructor]|].
  destruct (negb (wraps e SAlreadyExists)); [by apply walks_ret|].
  eapply walks_bind with (R := fun _ _ => True).
  { destruct (_ || _); [by apply walks_ret|]. eapply walks_bind; [by apply (walks_told P creating_free)|]. intros; by apply walks_ret. }
  intros h2 [[|]|] Hp2 _; [|by apply walks_ret..].
  eapply walks_bind; [apply (promote_walks env); eapply submitted_later; [|exact Hs]; by trans h1|].
  cbn beta. intros h3 [out|e'] _ Hw; apply walks_ret; [intros o [= <-]; by apply Hw|]. by destruct (isNotFound e').
Qed.

Lemma create_walks env r n h : submitted env r h ->
  walks P h (create_attempts n r) (fun h' x => forall out, x = Ok out -> written h' out).
Proof.
  revert h. induction n as [|n IH]; intros h Hs; cbn [create_attempts]; [by apply walks_ret|].
  eapply walks_bind; [by apply (attempt_walks env)|]. cbn beta. intros h1 [out|a|] Hp Hw; [apply walks_ret; intros o [= <-]; by apply Hw|by apply walks_ret|].
  destruct n as [|n]; [by apply walks_ret|]. eapply walks_bind; [by apply (walks_told P creating_free)|]. intros h2 [|] Hp2 _; [by apply walks_ret|].
  apply IH. eapply submitted_later; [|exact Hs]; by trans h1.
Qed.

(** *** The looks after the write *)

Lemma written_split h r : written h r -> exists h1 f h2, h = h1 ++ f :: h2 /\ wrote r f.
Proof. intros (h1 & f & h2 & H & Hw). by exists h1, f, h2. Qed.

Lemma pool_race_walks r h h1 f h2 : h = h1 ++ f :: h2 -> wrote r f ->
  walks P h (refuseResourceCreateOnSPDeletedRace r) (fun h' x => x = Ok tt -> exists h3, h' = h1 ++ f :: h3 /\ h2 `prefix_of` h3 /\
    (pool_of r = "" \/ exists p, told h3 (RGetPool (res_NodeName r) (pool_of r)) (Ok p))).
Proof.
  intros -> Hw. unfold refuseResourceCreateOnSPDeletedRace. case_bool_decide as Hp; [apply walks_ret; intros _; exists h2; by eauto|].
  eapply walks_bind; [apply walks_ask with (Q := fun h' a => h' = (h1 ++ f :: h2) ++ [Fact (RGetPool (res_NodeName r) (pool_of r)) a]); done|].
  cbn beta. intros h' [p|e] _ ->; rewrite <- app_assoc; cbn [app].
  - apply walks_ret. intros _. eexists. split_and!; [done|by apply prefix_app_r|]. right. exists p. apply told_last.
  - destruct (isNotFound e) eqn:E; [|by apply walks_ret]. eapply walks_bind; [apply walks_ask with (Q := fun _ _ => True); [|done]|intros; by apply walks_ret].
    eexists h1, f, _, r, e. split_and!; [reflexivity|done..|]. right. apply told_last.
Qed.

Lemma node_race_walks r h h1 f h2 : h = h1 ++ f :: h2 -> wrote r f ->
  walks P h (refuseResourceCreateOnNodeDeletedRace r) (fun h' x => x = Ok tt -> exists h3, h' = h1 ++ f :: h3 /\ h2 `prefix_of` h3 /\
    node_known (res_NodeName r) h3).
Proof.
  intros -> Hw. unfold refuseResourceCreateOnNodeDeletedRace.
  eapply walks_bind; [apply walks_ask with (Q := fun h' a => h' = (h1 ++ f :: h2) ++ [Fact (RGetNode (res_NodeName r)) a]); done|].
  cbn beta. intros h' [n|e] _ ->; rewrite <- app_assoc; cbn [app].
  - apply walks_ret. intros _. eexists. split_and!; [done|by apply prefix_app_r|]. exists n. apply told_last.
  - destruct (isNotFound e) eqn:E; [|by apply walks_ret]. eapply walks_bind; [apply walks_ask with (Q := fun _ _ => True); [|done]|intros; by apply walks_ret].
    eexists h1, f, _, r, e. split_and!; [reflexivity|done..|]. left. apply told_last.
Qed.

Lemma settled_later h h' r : h `prefix_of` h' -> settled h r -> settled h' r.
Proof.
  intros [x ->] (h1 & f & h2 & -> & Hw & [n Hn] & Hp). exists h1, f, (h2 ++ x). rewrite <- app_assoc. split_and!; [done|done|exists n; keep|].
  destruct Hp as [Hp|[p Hp]]; [by left|]. right. exists p. keep.
Qed.

Lemma asked_pool env r pool h : submitted env r h -> ResourceFlagDiskless ∉ res_Flags r -> pool_of r = "" -> pool <> "" ->
  res_Props r = res_Props (rcr_Resource env) -> submitted env (with_pool_prop r pool) h.
Proof.
  intros (He & Ha & Hrd & Hn) Hd Hp Hpool Hprops. destruct Ha as (H1 & H2 & H3 & H4 & H5 & H6 & H7 & _).
  split_and!; [done| |done|done]. split_and!; [done..|]. right. split_and!; [done| |].
  - rewrite <- Hprops. exact Hp.
  - exists pool. split; [done|]. cbn. by rewrite Hprops.
Qed.

Lemma one_walks env h : env ∈ envs -> rd_known rdName h ->
  walks P h (createOneResource rdName env) (fun h' x => forall out, x = Ok out -> settled h' out).
Proof.
  intros He Hrd. unfold createOneResource. set (res := with_res_Name _ _ _).
  eapply walks_kbind with (R := fun h' x => x = validateResourceCreateShape rdName res /\ h' = h); [by apply walks_ret| |done].
  intros h0 [] _ [Hshape%eq_sym ->]. apply shape_ok in Hshape as (Hs1 & Hs2 & Hs3 & Hs4).
  set (res1 := with_res_spec res _ _). eapply walks_kbind; [apply node_pool_walks|intros h1 [] Hp1 Hn1|done]. specialize (Hn1 eq_refl).
  assert (submitted env res1 h1) as Hsub.
  { split_and!; [done| |by eapply rd_known_later|done]. split_and!; try done; [apply normalize_one_spelling|by left]. }
  eapply walks_bind with (R := fun _ _ => True).
  { destruct (given_list _); [|by apply walks_ret]. eapply walks_bind; [apply walks_ask with (Q := fun _ _ => True); [|done]|intros; by apply walks_ret].
    split; [done|]. by eexists. }
  intros h2 [] Hp2 _. eapply walks_bind; [apply fresh_pool_walks|]. cbn beta. intros h3 r Hp3 Hr.
  assert (submitted env r h3) as Hsub3.
  { apply (submitted_later _ _ h1); [by trans h2|]. destruct Hr as [->|(Hd & Hpool & pool & Hne & ->)]; [done|]. by apply asked_pool. }
  eapply walks_kbind; [apply (walks_read P creating_free), full_reads|intros h4 [] Hp4 _|done].
  eapply walks_kbind; [apply (create_walks env); by eapply submitted_later|intros h5 out Hp5 Hw|done]. specialize (Hw out eq_refl).
  apply written_split in Hw as (ha & f & hb & Hh & Hw).
  eapply walks_kbind; [by eapply pool_race_walks|intros h6 [] Hp6 Hpool|done]. destruct (Hpool eq_refl) as (h7 & -> & Hp7 & Hok). clear Hpool.
  eapply walks_kbind; [by eapply node_race_walks|intros h8 [] Hp8 Hnode|done]. destruct (Hnode eq_refl) as (h9 & -> & Hp9 & Hkn).
  apply walks_ret. intros o [= <-]. exists ha, f, h9. split_and!; [done..|]. destruct Hok as [?|[p Hpp]]; [by left|]. right. exists p. keep.
Qed.

Lemma all_walks l h : (forall env, env ∈ l -> env ∈ envs) -> rd_known rdName h ->
  walks P h (create_all rdName l) (fun h' x => forall out, x = Ok out -> length out = length l /\ Forall (settled h') out).
Proof.
  revert h. induction l as [|env l IH]; intros h Hl Hrd; cbn [create_all]; [apply walks_ret; by intros out [= <-]|].
  eapply walks_kbind; [apply one_walks; [apply Hl; left|done]|intros h1 r Hp1 Hr|done]. specialize (Hr r eq_refl).
  eapply walks_kbind; [apply IH; [intros; apply Hl; by right|by eapply rd_known_later]|intros h2 rs Hp2 Hrs|done]. destruct (Hrs rs eq_refl) as [Hlen Hall].
  apply walks_ret. intros out [= <-]. split; [cbn; by rewrite Hlen|]. constructor; [by eapply settled_later|done].
Qed.

Lemma rd_walks h : walks P h (refuseResourceCreateOnUnknownRD rdName) (fun h' x => x = Ok tt -> rd_known rdName h').
Proof.
  eapply walks_kbind with (R := fun h' x => forall rd, x = Ok rd -> told h' (RGetRD rdName) (Ok rd)); [|intros h' rd _ Hrd|done].
  - eapply walks_or; [apply (walks_rd P creating_free)| |done]. intros h' a _ Ha rd [= <-]. by apply Ha.
  - apply walks_ret. intros _. exists rd. by apply Hrd.
Qed.

Lemma bump_created_walks h created : walks P h (bump_created rdName created) (fun _ _ => True).
Proof.
  assert (forall stamp node l h, walks P h (bump_each stamp node l) (fun _ _ => True)) as Hb.
  { intros stamp node l. induction l as [|s l IH]; intros h0; cbn [bump_each]; [by apply walks_ret|]. case_bool_decide; [by apply IH|].
    eapply walks_bind; [apply walks_ask with (Q := fun _ _ => True); [right; by eexists|done]|]. intros; apply IH. }
  revert h. induction created as [|r created IH]; intros h; cbn [bump_created]; [by apply walks_ret|].
  eapply walks_bind with (R := fun _ _ => True); [|intros; apply IH].
  eapply walks_bind; [by apply (walks_told P creating_free)|]. intros h1 [l|e] _ _; [|by apply walks_ret].
  eapply walks_bind; [by apply (walks_told P creating_free)|]. intros; apply Hb.
Qed.

(** The rows of a request that was answered with success. *)
Definition all_settled (n : nat) (h : list rfact) (r : reply) : Prop :=
  (exists b, r = Reply StatusCreated b) -> exists rows, length rows = n /\ Forall (settled h) rows.

Lemma creation_walks h msg :
  walks P h (created ←! createResources rdName envs; _ ← bump_created rdName created; done_with (created_reply msg)) (fun h' x =>
    match x with Ok r => all_settled (length envs) h' r | Err r => True end).
Proof.
  eapply walks_kbind with (R := fun h' x => forall out, x = Ok out -> length out = length envs /\ Forall (settled h') out); [|intros h1 rows Hp1 Hrows|done].
  - eapply walks_kbind; [apply rd_walks|intros h1 [] _ Hrd|done]. by apply all_walks; [|apply Hrd].
  - destruct (Hrows rows eq_refl) as [Hlen Hall]. eapply walks_bind; [apply bump_created_walks|]. intros h2 [] Hp2 _. apply walks_ret. intros _.
    exists rows. split; [done|]. eapply list.Forall_impl; [exact Hall|]. intros r. by apply settled_later.
Qed.

End Creating.

(** *** Refusals *)

(** A gate stops a handler only with a reply that is no success. *)
Definition refusal (r : reply) : Prop := match r with Reply s _ => 400 <= s | Panic => True end.
Definition refuses {A} (m : gate A) : Prop := may_return (fun x => match x with Err r => refusal r | Ok _ => True end) m.

Lemma store_refusal e : refusal (writeStoreError e).
Proof.
  unfold writeStoreError, storeErrorRc. destruct (_ || _); [done|]. destruct (wraps e SAlreadyExists); [done|]. destruct (wraps e SNotFound); [done|].
  destruct (wraps e SStackUndecided); [done|]. by destruct (e_api e) as [[]|].
Qed.
Lemma refuses_ok {A} (a : A) : refuses (done_with a).
Proof. exact I. Qed.
Lemma refuses_with {A} r : refusal r -> refuses (A := A) (failed_with r).
Proof. done. Qed.
Lemma refuses_bind {A B} (m : rprog A) (f : A -> gate B) : (forall a, refuses (f a)) -> refuses (m ≫= f).
Proof. intros Hf. apply may_return_bind. induction m as [a|c k IH]; cbn; [apply Hf|]. intros a. apply IH. Qed.
Lemma refuses_kbind {A B} (m : gate A) (f : A -> gate B) : refuses m -> (forall a, refuses (f a)) -> refuses (kbind m f).
Proof. intros Hm Hf. apply may_return_bind. eapply may_return_mono; [|exact Hm]. intros [a|r] Hr; [apply Hf|exact Hr]. Qed.
Lemma refuses_or {A} w (m : rprog (result rerr A)) : (forall e, refusal (w e)) -> refuses (or_reply w m).
Proof. intros Hw. apply refuses_bind. intros [a|e]; [exact I|apply Hw]. Qed.
Lemma refuses_body {A} (b : decoded A) : refuses (body_or b).
Proof. by destruct b. Qed.

Lemma attempts_refuse n r : refuses (create_attempts n r).
Proof.
  induction n as [|n IH]; [done|]. cbn [create_attempts]. unfold createOrPromoteResourceAttempt.
  apply may_return_bind. eapply may_return_mono with (Q := fun a => match a with Stopped r => refusal r | _ => True end).
  - intros [out|a|] Ha; [exact I|exact Ha|]. destruct n as [|n]; [done|]. cbn. by intros [|].
  - cbn. intros [[]|e]; [done|]. cbn. destruct (negb _); [apply store_refusal|]. apply may_return_bind.
    assert (forall w, may_return (fun a => match a with Stopped r => refusal r | _ => True end) match w with
      | None => Ret Retry | Some false => Ret (Stopped (writeStoreError e))
      | Some true => p ← promoteDisklessReplica r; Ret (match p with Ok out => Landed out | Err e' => if isNotFound e' then Retry else Stopped (writeStoreError e') end) end) as Hw.
    { intros [[|]|]; [|apply store_refusal|done]. apply may_return_bind. generalize (promoteDisklessReplica r) as m.
      induction m as [[out|e']|c k IHm]; cbn; [done| |exact IHm]. destruct (isNotFound e'); [done|apply store_refusal]. }
    destruct (_ || _); [exact (Hw (Some true))|]. intros a. exact (Hw _).
Qed.

Lemma shape_refuses rdName r : refuses (Ret (validateResourceCreateShape rdName r)).
Proof.
  unfold refuses, validateResourceCreateShape, bad_request. cbn [may_return]. case_bool_decide; [done|]. destruct (Str.contains_char _ (res_NodeName r)); [done|].
  destruct (Str.contains_char _ rdName); [done|]. by destruct (validateResourceFlags (res_Flags r)).
Qed.
Lemma creation_refuses rdName l : refuses (createResources rdName l).
Proof.
  unfold createResources. apply refuses_kbind; [apply refuses_kbind; [apply refuses_or; intros e; unfold Reads.or_rd_missing; destruct (isNotFound e); [done|apply store_refusal]|done]|].
  intros []. induction l as [|env l IH]; [done|]. cbn [create_all]. apply refuses_kbind; [|intros r; apply refuses_kbind; [exact IH|done]].
  unfold createOneResource. apply refuses_kbind.
  { apply shape_refuses. }
  intros []. apply refuses_kbind.
  { apply refuses_kbind; [apply refuses_or; intros e; unfold Autoplace.or_node_missing; destruct (isNotFound e); [done|apply store_refusal]|]. intros n.
    unfold refuseResourceCreateOnUnknownPool. case_bool_decide; [done|]. apply refuses_kbind; [|done]. apply refuses_or. intros e. destruct (isNotFound e); [done|apply store_refusal]. }
  intros []. apply refuses_bind. intros _. apply refuses_bind. intros r. apply refuses_kbind.
  { unfold rejectResourceCreateIfPoolFull. destruct (_ || _); [done|]. apply refuses_bind. intros pool. case_bool_decide; [done|]. apply refuses_bind.
    intros [p|e]; [|destruct (isNotFound e); [done|apply store_refusal]]. apply refuses_kbind; [apply refuses_or, store_refusal|]. intros z. repeat case_bool_decide; done. }
  intros []. apply refuses_kbind; [apply attempts_refuse|]. intros out. apply refuses_kbind.
  { unfold refuseResourceCreateOnSPDeletedRace. case_bool_decide; [done|]. apply refuses_bind. intros [p|e]; [done|]. destruct (isNotFound e); [by apply refuses_bind|apply store_refusal]. }
  intros []. apply refuses_kbind; [|done]. apply refuses_bind. intros [p|e]; [done|]. destruct (isNotFound e); [by apply refuses_bind|apply store_refusal].
Qed.

Lemma traced_and_returns {A} P h (m : rprog A) Q R : traced P h m Q -> may_return R m -> traced P h m (fun h' a => Q h' a /\ R a).
Proof. revert h. induction m as [a|c k IH]; cbn; [done|]. intros h [HP Hk] HR. split; [done|]. intros a. by apply IH. Qed.


(** ** Placing *)

Import Autoplace.

(** The definition the handler works with: as it was read, or with the layers of the request, which were written to it
    because it had none. *)
Definition working (rdName : string) (layers : list string) (h : list rfact) (d : ResourceDefinition) : Prop :=
  exists d0, told h (RGetRD rdName) (Ok d0) /\ (d = d0 \/ rd_LayerStack d0 = [] /\ layers <> [] /\ d = with_rd_LayerStack d0 layers /\
    told h (RPatchRD (rd_Name d0) (fun live => Ok (set_layers layers live))) (Ok tt)).

(** The layers that decide: those of the definition, else those of its group, else the default ones. *)
Definition decides (d : ResourceDefinition) (h : list rfact) (stack : list string) : Prop :=
  if given_list (rd_LayerStack d) then stack = rd_LayerStack d
  else stack = DefaultLayerStack \/
       exists g, told h (RGetRG (rd_ResourceGroupName d)) (Ok g) /\ stack = LayerStack (rg_SelectFilter g) /\ stack <> [].

(** The largest volume the preview allows. *)
Definition preview (f : AutoSelectFilter) (pools : list StoragePool) (nodes : list Node) (ctrlProps : gmap string string) : Z :=
  Size.worstMaxVolOfTopN (Size.dedupShared (Size.collectCandidates pools (Size.disabledNodes nodes) f).1.1) (Size.replicaCount f) ctrlProps.

Definition fits (rdName : string) (f : AutoSelectFilter) (h : list rfact) : Prop :=
  exists vds, told h (RListVDs rdName) (Ok vds) /\ (largest vds <= 0 \/
    exists pools nodes props, told h RListPools (Ok pools) /\ told h RListNodes (Ok nodes) /\ told h RControllerProps props /\
      let cap := preview f pools nodes (match props with Ok m => m | Err _ => ∅ end) in cap <= 0 \/ largest vds <= cap).

(** What the handler knows when it asks the placer. *)
Record place_known (rdName : string) (d : ResourceDefinition) (req : AutoPlaceRequest) (h : list rfact) (f : AutoSelectFilter) : Prop := {
  pk_working : working rdName (ap_LayerList req) h d;
  pk_additional : AdditionalPlaceCount f <= 0;
  pk_replicated : PlaceCount f <= 1 \/ exists stack, decides d h stack /\ ContainsReplicationLayer stack = true;
  pk_nodes : Forall (fun n => node_known n h) (NodeNameList f) \/
    exists src snap s, restore_source d = Some (src, snap) /\ told h (RGetSnapshot src snap) (Ok s) /\ NodeNameList f = snap_Nodes s;
  pk_snapshot : forall src snap, restore_source d = Some (src, snap) -> snap <> "" -> NodeNameList f <> [] \/
    exists answer, told h (RGetSnapshot src snap) answer /\ match answer with Ok s => snap_Nodes s = [] | Err _ => True end;
  pk_kind : match restore_source d with
            | Some (src, _) => exists kind, told h (RSourceProviderKind src) kind /\ (kind <> "" -> ProviderList f = [kind])
            | None => True
            end;
  pk_fits : fits rdName f h;
}.

Definition places_safely (rdName : string) (req : AutoPlaceRequest) (h : list rfact) (c : rcall) : Prop :=
  match c with
  | RPlace rd f => rd = rdName /\ exists d, place_known rdName d req h f
  | RPatchRD rd mutate => (rd = rdName \/ exists d, told h (RGetRD rdName) (Ok d) /\ rd = rd_Name d) /\
      (mutate = opt_out /\ ap_DisklessOnRemaining req = Given false \/ exists layers, mutate = fun live => Ok (set_layers layers live))
  | RCreateRes _ | RDeleteRes _ _ | RPatchRes _ _ _ => False
  | _ => True
  end.

Section Placing.
#[local] Set Default Proof Using "Type*".
Context (rdName : string) (req : AutoPlaceRequest).
#[local] Notation P := (places_safely rdName req).

Lemma placing_free h c : reads c -> P h c.
Proof. by destruct c. Qed.

Lemma working_later layers h h' d : h `prefix_of` h' -> working rdName layers h d -> working rdName layers h' d.
Proof. intros Hp (d0 & H0 & Hd). exists d0. split; [keep|]. destruct Hd as [?|(? & ? & ? & ?)]; [by left|right; split_and!; keep]. Qed.

Lemma opt_out_walks h d : told h (RGetRD rdName) (Ok d) ->
  walks P h (applyBug156AutoTiebreakerOptOut req rdName d) (fun h' x => forall d', x = Ok d' -> told h' (RGetRD rdName) (Ok d')).
Proof.
  intros Hd. unfold applyBug156AutoTiebreakerOptOut, disklessOnRemainingExplicitlyFalse.
  destruct (ap_DisklessOnRemaining req) as [| |[|]] eqn:E; cbn [negb]; try (apply walks_ret; by intros d' [= <-]).
  eapply walks_kbind with (R := fun _ _ => True); [|intros h1 [] _ _|done].
  - eapply walks_or; [apply walks_ask with (Q := fun _ _ => True); [|done]|done|done]. split; [by left|]. by left.
  - eapply walks_or; [by apply (walks_told P placing_free)| |done]. intros h' a _ Ha d' [= <-]. exact Ha.
Qed.

Lemma layers_walks h d : told h (RGetRD rdName) (Ok d) ->
  walks P h (persistAutoplaceLayerList d (ap_LayerList req)) (fun h' x => forall d', x = Ok d' -> working rdName (ap_LayerList req) h' d').
Proof.
  intros Hd. unfold persistAutoplaceLayerList. destruct (given_list (ap_LayerList req)) eqn:El; cbn [negb orb].
  2: { apply walks_ret. intros d' [= <-]. exists d. split; [done|by left]. }
  destruct (given_list (rd_LayerStack d)) eqn:Es; [apply walks_ret; intros d' [= <-]; exists d; split; [done|by left]|].
  eapply walks_kbind with (R := fun h' x => x = Ok tt -> told h' (RPatchRD (rd_Name d) (fun live => Ok (set_layers (ap_LayerList req) live))) (Ok tt)); [|intros h1 [] Hp Ht|done].
  - eapply walks_or; [apply walks_ask with (Q := fun h' a => told h' _ a); [|intros a; apply told_last]| |done].
    + split; [right; by exists d|right; by eexists].
    + intros h' [] _ Ha _. exact Ha.
  - apply walks_ret. intros d' [= <-]. exists d. split; [keep|]. right. split_and!; [by destruct (rd_LayerStack d)|by destruct (ap_LayerList req)|done|by apply Ht].
Qed.

Lemma unknown_nodes_walks names h :
  walks P h (refuseAutoplaceOnUnknownNodes names) (fun h' x => x = Ok tt -> Forall (fun n => node_known n h') names).
Proof.
  revert h. induction names as [|n names IH]; intros h; cbn [refuseAutoplaceOnUnknownNodes]; [by apply walks_ret|].
  eapply walks_kbind with (R := fun h' x => forall a, x = Ok a -> told h' (RGetNode n) (Ok a)); [|intros h1 a _ Ha|done].
  - eapply walks_or; [by apply (walks_told P placing_free)| |done]. intros h' a _ Ha b [= <-]. exact Ha.
  - eapply walks_mono; [|apply IH]. cbn beta. intros h' x Hp Hall E. constructor; [exists a; specialize (Ha a eq_refl); keep|by apply Hall].
Qed.

Lemma count_walks h f : walks P h (resolveAdditionalPlaceCount rdName f) (fun _ x => forall f', x = Ok f' ->
  AdditionalPlaceCount f' <= 0 /\ NodeNameList f' = NodeNameList f /\ ProviderList f' = ProviderList f).
Proof.
  unfold resolveAdditionalPlaceCount. case_bool_decide; [apply walks_ret; by intros f' [= <-]|].
  eapply walks_kbind; [by apply (walks_told P placing_free)|intros h1 l _ _|done]. eapply walks_kbind; [by apply (walks_told P placing_free)|intros h2 ns _ _|done].
  apply walks_ret. by intros f' [= <-].
Qed.

Lemma stack_walks h d : walks P h (resolveAutoplaceLayerStack d) (fun h' stack => decides d h' stack).
Proof.
  unfold resolveAutoplaceLayerStack, decides. destruct (given_list (rd_LayerStack d)); [by apply walks_ret|].
  destruct (given _); [|apply walks_ret; by left]. eapply walks_bind; [apply (walks_rg P placing_free)|]. cbn beta. intros h' [g|e] _ Hg; apply walks_ret; [|by left].
  destruct (LayerStack (rg_SelectFilter g)) as [|l ls] eqn:E; [by left|]. right. exists g. split_and!; [by apply Hg|done|done].
Qed.

Lemma decides_later d h h' stack : h `prefix_of` h' -> decides d h stack -> decides d h' stack.
Proof. intros Hp. unfold decides. destruct (given_list _); [done|]. intros [?|(g & ? & ? & ?)]; [by left|]. right. exists g. split_and!; keep. Qed.

Lemma multi_walks h d f : walks P h (refuseAutoplaceMultiPlaceWithoutReplication d f) (fun h' x => x = Ok tt ->
  PlaceCount f <= 1 \/ exists stack, decides d h' stack /\ ContainsReplicationLayer stack = true).
Proof.
  unfold refuseAutoplaceMultiPlaceWithoutReplication. case_bool_decide; [apply walks_ret; by left|].
  eapply walks_bind; [apply stack_walks|]. cbn beta. intros h' stack _ Hs. destruct (ContainsReplicationLayer stack) eqn:E; apply walks_ret; [|done].
  intros _. right. by exists stack.
Qed.

(** What is known of the filter once the nodes of the snapshot are taken into account. *)
Definition on_snapshot_nodes (d : ResourceDefinition) (f f' : AutoSelectFilter) (h : list rfact) : Prop :=
  (f' = f \/ exists src snap s, restore_source d = Some (src, snap) /\ told h (RGetSnapshot src snap) (Ok s) /\ f' = with_NodeNameList f (snap_Nodes s)) /\
  forall src snap, restore_source d = Some (src, snap) -> snap <> "" -> NodeNameList f' <> [] \/
    exists answer, told h (RGetSnapshot src snap) answer /\ match answer with Ok s => snap_Nodes s = [] | Err _ => True end.

Lemma snapshot_walks h d f : walks P h (constrainAutoplaceToSnapshotNodes d f) (fun h' f' => on_snapshot_nodes d f f' h').
Proof.
  unfold constrainAutoplaceToSnapshotNodes, on_snapshot_nodes. destruct (NodeNameList f) as [|n l] eqn:En; cbn [given_list]; [|apply walks_ret; rewrite En; split; by left].
  destruct (restore_source d) as [[src snap]|]; [|apply walks_ret; split; [by left|done]].
  case_bool_decide as Es; [apply walks_ret; split; [by left|by intros ? ? [= <- <-]]|].
  eapply walks_bind; [by apply (walks_told P placing_free)|]. cbn beta. intros h' [s|e] _ Hs; apply walks_ret.
  - destruct (snap_Nodes s) as [|n l] eqn:E; cbn [given_list].
    + split; [by left|]. intros ? ? [= <- <-] _. right. by exists (Ok s).
    + rewrite <- E. split; [right; by exists src, snap, s|]. intros ? ? _ _. left. cbn. by rewrite E.
  - split; [by left|]. intros ? ? [= <- <-] _. right. by exists (Err e).
Qed.

Lemma kind_walks h d : walks P h (resolveCloneSourceProviderKind d) (fun h' kind =>
  match restore_source d with Some (src, _) => told h' (RSourceProviderKind src) kind | None => kind = "" end).
Proof. unfold resolveCloneSourceProviderKind. destruct (restore_source d) as [[src snap]|]; [by apply (walks_told P placing_free)|by apply walks_ret]. Qed.

Lemma size_walks h f : walks P h (Size.computeSizeInfo f) (fun h' x => forall i, x = Ok i ->
  exists pools nodes props, told h' RListPools (Ok pools) /\ told h' RListNodes (Ok nodes) /\ told h' RControllerProps props /\
    si_MaxVlmSizeInKib (qs_SpaceInfo i) = preview f pools nodes (match props with Ok m => m | Err _ => ∅ end)).
Proof.
  eapply walks_kbind; [by apply (walks_told P placing_free)|intros h1 pools Hp1 H1|done]. eapply walks_kbind; [by apply (walks_told P placing_free)|intros h2 nodes Hp2 H2|done].
  destruct (Size.collectCandidates _ _ _) as [[cands total] avail] eqn:E. eapply walks_bind; [by apply (walks_told P placing_free)|]. cbn beta. intros h3 props Hp3 H3.
  apply walks_ret. intros i [= <-]. exists pools, nodes, props. split_and!; [eapply told_prefix; [by trans h2|exact H1]|by eapply told_prefix|done|]. unfold preview. by rewrite E.
Qed.

Lemma capacity_walks h f kind : walks P h (rejectAutoplaceIfExceedsCapacityGate rdName f kind) (fun h' x => x = Ok tt -> fits rdName f h').
Proof.
  unfold rejectAutoplaceIfExceedsCapacityGate.
  eapply walks_kbind with (R := fun h' x => forall v, x = Ok v -> told h' (RListVDs rdName) (Ok v)); [|intros h1 vds Hp1 Hv|done].
  { eapply walks_or; [by apply (walks_told P placing_free)| |done]. intros h' a _ Ha b [= <-]. exact Ha. }
  specialize (Hv vds eq_refl). destruct vds as [|v0 vds0] eqn:Ev; [apply walks_ret; intros _; exists []; split; [done|by left]|]. rewrite <- Ev in *. clear Ev.
  case_bool_decide as Hl; [apply walks_ret; intros _; exists vds; split; [done|by left]|].
  eapply walks_kbind with (R := fun h' x => forall i, x = Ok i -> exists pools nodes props, told h' RListPools (Ok pools) /\ told h' RListNodes (Ok nodes) /\ told h' RControllerProps props /\
    si_MaxVlmSizeInKib (qs_SpaceInfo i) = preview f pools nodes (match props with Ok m => m | Err _ => ∅ end)); [|intros h2 i Hp2 Hi|done].
  { eapply walks_or; [apply size_walks| |done]. intros h' a _ Ha b [= <-]. by apply Ha. }
  destruct (Hi i eq_refl) as (pools & nodes & props & H1 & H2 & H3 & Hcap). rewrite Hcap.
  repeat case_bool_decide; apply walks_ret; try done; intros _; exists vds; (split; [keep|]); right; exists pools, nodes, props; split_and!; by auto.
Qed.

Lemma filter_walks h d r : walks P h (mergeAutoplaceFilter d r) (fun _ _ => True).
Proof.
  unfold mergeAutoplaceFilter. destruct (given _); [|by apply walks_ret].
  eapply walks_bind; [apply (walks_rg P placing_free)|]. intros h' g _ _. by apply walks_ret.
Qed.

Lemma fits_later f h h' : h `prefix_of` h' -> fits rdName f h -> fits rdName f h'.
Proof.
  intros Hp (vds & Hv & [Hs|(pools & nodes & props & H1 & H2 & H3 & H4)]); exists vds; (split; [keep|]); [by left|].
  right. exists pools, nodes, props. split_and!; keep.
Qed.

(** What a success means: the placer was asked and reported no error and as many replicas as it was to reach. *)
Definition placed_enough (h : list rfact) (r : reply) : Prop :=
  (exists b, r = Reply StatusOK b) -> exists f placed want, told h (RPlace rdName f) (placed, want, None) /\ want <= placed.

Lemma place_walks h d f kind : place_known rdName d req h f ->
  walks P h (runPlaceAndReport rdName f kind) (fun h' x => x = Ok tt -> exists f placed want, told h' (RPlace rdName f) (placed, want, None) /\ want <= placed).
Proof.
  intros Hk. eapply walks_bind; [apply walks_ask with (Q := fun h' a => told h' (RPlace rdName f) a)|].
  - split; [done|by exists d].
  - intros a. apply told_last.
  - cbn beta. intros h' [[placed want] [[c|e]|]] _ Ht; [by apply walks_ret..|]. case_bool_decide; apply walks_ret; [done|].
    intros _. exists f, placed, want. split; [done|lia].
Qed.

(** From the filter on. *)
Lemma placing_walks h d f0 (out : reply) : working rdName (ap_LayerList req) h d ->
  walks P h (_ ←! refuseAutoplaceOnUnknownNodes (NodeNameList f0);
    filter ←! or_500 (resolveAdditionalPlaceCount rdName f0);
    _ ←! refuseAutoplaceMultiPlaceWithoutReplication d filter;
    filter ← constrainAutoplaceToSnapshotNodes d filter;
    srcKind ← resolveCloneSourceProviderKind d;
    let filter := if given srcKind then with_ProviderList filter [srcKind] else filter in
    _ ←! rejectAutoplaceIfExceedsCapacityGate rdName filter srcKind;
    _ ←! runPlaceAndReport rdName filter srcKind;
    done_with out)
    (fun h' x => forall r, x = Ok r -> exists f placed want, told h' (RPlace rdName f) (placed, want, None) /\ want <= placed).
Proof.
  intros Hd. eapply walks_kbind; [apply unknown_nodes_walks|cbn beta; intros h1 [] Hp1 Hn|done]. specialize (Hn eq_refl).
  eapply walks_kbind with (R := fun _ x => forall f', x = Ok f' -> AdditionalPlaceCount f' <= 0 /\ NodeNameList f' = NodeNameList f0 /\ ProviderList f' = ProviderList f0);
    [eapply walks_or; [apply count_walks|cbn beta; intros h' a _ Ha b [= <-]; exact (Ha a eq_refl)|done]|cbn beta; intros h2 f1 Hp2 Hc|done].
  destruct (Hc f1 eq_refl) as (Ha & En & _).
  eapply walks_kbind; [apply multi_walks|cbn beta; intros h3 [] Hp3 Hm|done]. specialize (Hm eq_refl).
  eapply walks_bind; [apply snapshot_walks|]. cbn beta. intros h4 f2 Hp4 [Hf Hs].
  eapply walks_bind; [apply kind_walks|]. cbn beta zeta. intros h5 kind Hp5 Hk.
  eapply walks_kbind; [apply capacity_walks|cbn beta; intros h6 [] Hp6 Hfits|done]. specialize (Hfits eq_refl).
  eapply walks_kbind; [apply place_walks with d|cbn beta; intros h7 [] _ Hpl; apply walks_ret; intros r _; by apply Hpl|done]. rewrite <- En in Hn.
  assert (Hp : h1 `prefix_of` h6) by (trans h2; [done|trans h3; [done|trans h4; [done|by trans h5]]]).
  assert (Hp' : h3 `prefix_of` h6) by (trans h4; [done|by trans h5]). assert (Hp'' : h4 `prefix_of` h6) by by trans h5.
  assert (HE : forall k f, NodeNameList (if given k then with_ProviderList f [k] else f) = NodeNameList f /\ PlaceCount (if given k then with_ProviderList f [k] else f) = PlaceCount f
    /\ AdditionalPlaceCount (if given k then with_ProviderList f [k] else f) = AdditionalPlaceCount f) by (intros k f; by destruct (given k)).
  destruct (HE kind f2) as (E1 & E2 & E3). constructor.
  - eapply working_later; [|exact Hd]. by trans h1.
  - rewrite E3. destruct Hf as [->|(src & snap & s & _ & _ & ->)]; exact Ha.
  - rewrite E2. assert (PlaceCount f2 = PlaceCount f1) as -> by (destruct Hf as [->|(src & snap & s & _ & _ & ->)]; done).
    destruct Hm as [?|(stack & Hst & ?)]; [by left|right; exists stack; split; [exact (decides_later d _ _ stack Hp' Hst)|done]].
  - rewrite E1. destruct Hf as [->|(src & snap & s & Hsrc & Ht & ->)]; [left|right; exists src, snap, s; split_and!; keep].
    eapply Forall_impl; [|exact Hn]. intros n (x & Hx). exists x. keep.
  - rewrite E1. intros src snap Hsrc Hne. destruct (Hs src snap Hsrc Hne) as [?|(a & Ht & ?)]; [by left|right; exists a; split; keep].
  - destruct (restore_source d) as [[src snap]|]; [|done]. exists kind. split; [keep|]. intros Hne. unfold given. by rewrite bool_decide_eq_false_2.
  - done.
Qed.

End Placing.

Lemma placing_traced rdName req : walks (places_safely rdName req) [] (
  req ←! body_or (Decoded req);
  rd ←! or_store (getRDWithCacheRetry rdName);
  rd ←! applyBug156AutoTiebreakerOptOut req rdName rd;
  rd ←! persistAutoplaceLayerList rd (ap_LayerList req);
  filter ← mergeAutoplaceFilter rd (ap_SelectFilter req);
  _ ←! refuseAutoplaceOnUnknownNodes (NodeNameList filter);
  filter ←! or_500 (resolveAdditionalPlaceCount rdName filter);
  _ ←! refuseAutoplaceMultiPlaceWithoutReplication rd filter;
  filter ← constrainAutoplaceToSnapshotNodes rd filter;
  srcKind ← resolveCloneSourceProviderKind rd;
  let filter := if given srcKind then with_ProviderList filter [srcKind] else filter in
  _ ←! rejectAutoplaceIfExceedsCapacityGate rdName filter srcKind;
  _ ←! runPlaceAndReport rdName filter srcKind;
  done_with (rc_info (Z.lor apiCallRcInfo apiCallRcRDAutoplaceDone) ("Resource definition '" +:+ rdName +:+ "' auto-placed")))
  (fun h' x => forall r, x = Ok r -> exists f placed want, told h' (RPlace rdName f) (placed, want, None) /\ want <= placed).
Proof.
  eapply walks_kbind; [by apply walks_ret with (Q := fun _ x => x = Ok req)|cbn beta; intros h1 a _ [= ->]|by intros].
  eapply walks_kbind with (R := fun h' x => forall d, x = Ok d -> told h' (RGetRD rdName) (Ok d)); [|cbn beta; intros h2 d _ Hd|by intros].
  { eapply walks_or; [apply walks_rd, placing_free|cbn beta; intros h' d _ Hd d' [= <-]; by apply Hd|done]. }
  eapply walks_kbind; [apply opt_out_walks; by apply Hd|cbn beta; intros h3 d1 _ H1|by intros].
  eapply walks_kbind; [apply layers_walks; by apply H1|cbn beta; intros h4 d2 _ H2|by intros].
  eapply walks_bind; [apply filter_walks|cbn beta; intros h5 f Hp _]. apply placing_walks. eapply working_later; [exact Hp|]. by apply H2.
Qed.

Lemma placing_refuses rdName b : refuses (
  req ←! body_or b;
  rd ←! or_store (getRDWithCacheRetry rdName);
  rd ←! applyBug156AutoTiebreakerOptOut req rdName rd;
  rd ←! persistAutoplaceLayerList rd (ap_LayerList req);
  filter ← mergeAutoplaceFilter rd (ap_SelectFilter req);
  _ ←! refuseAutoplaceOnUnknownNodes (NodeNameList filter);
  filter ←! or_500 (resolveAdditionalPlaceCount rdName filter);
  _ ←! refuseAutoplaceMultiPlaceWithoutReplication rd filter;
  filter ← constrainAutoplaceToSnapshotNodes rd filter;
  srcKind ← resolveCloneSourceProviderKind rd;
  let filter := if given srcKind then with_ProviderList filter [srcKind] else filter in
  _ ←! rejectAutoplaceIfExceedsCapacityGate rdName filter srcKind;
  _ ←! runPlaceAndReport rdName filter srcKind;
  done_with (rc_info (Z.lor apiCallRcInfo apiCallRcRDAutoplaceDone) ("Resource definition '" +:+ rdName +:+ "' auto-placed"))).
Proof.
  assert (forall {A} (m : rprog (result rerr A)), refuses (or_store m)) as Hst by (intros; apply refuses_or, store_refusal).
  assert (forall {A} (m : rprog (result rerr A)), refuses (or_500 m)) as H500 by (intros; by apply refuses_or).
  apply refuses_kbind; [apply refuses_body|intros req]. apply refuses_kbind; [apply Hst|intros d0].
  apply refuses_kbind; [unfold applyBug156AutoTiebreakerOptOut; destruct (negb _); [done|by apply refuses_kbind]|intros d1].
  apply refuses_kbind; [unfold persistAutoplaceLayerList; destruct (_ || _); [done|by apply refuses_kbind]|intros d2].
  apply refuses_bind; intros f0. apply refuses_kbind; [|intros []].
  { induction (NodeNameList f0) as [|n l IH]; [done|]. cbn [refuseAutoplaceOnUnknownNodes]. apply refuses_kbind; [|by intros]. apply refuses_or. intros e. unfold or_node_missing. destruct (isNotFound e); [done|apply store_refusal]. }
  apply refuses_kbind; [apply H500|intros f1]. apply refuses_kbind; [|intros []].
  { unfold refuseAutoplaceMultiPlaceWithoutReplication. case_bool_decide; [done|]. apply refuses_bind. intros stack. by destruct (ContainsReplicationLayer stack). }
  apply refuses_bind; intros f2. apply refuses_bind; intros kind. apply refuses_kbind; [|intros []].
  { unfold rejectAutoplaceIfExceedsCapacityGate. apply refuses_kbind; [apply Hst|]. intros [|v l]; [done|]. case_bool_decide; [done|].
    apply refuses_kbind; [apply H500|]. intros i. by repeat case_bool_decide. }
  apply refuses_kbind; [|done]. apply refuses_bind. intros [[placed want] [[c|e]|]]; [done..|]. by case_bool_decide.
Qed.

